(* ===== verification/_CoqProject ===== *)
-Q . S2P
Prelude.v
Js.v
Dates.v
Base64.v
Json.v
Numbers.v
Wire.v
Bundle.v
Frontmatter.v
Contracts.v
Web.v
Access.v
Names.v
PolicyEval.v
Resolve.v
Provenance.v
OpenClawFeed.v
ScanEvidence.v
State.v
UploadReviews.v
ReviewSnapshot.v
ReviewQueue.v
ReviewSafety.v
ReviewLeases.v
Repository.v
HttpRepository.v
HttpSafety.v
Mutex.v
Registry.v
Authoring.v
Drafts.v
SkillBuilder.v
DraftHandlers.v
Builder.v
BuilderSessions.v
DraftState.v
BuilderPatches.v
DraftCommits.v
BuilderCommits.v
Install.v
Jobs.v
Feeds.v
Imports.v
Directory.v
SourceImports.v
FeedImports.v
CatalogImports.v
ImportState.v
ImportIdentity.v
System.v
Scenario.v
DraftScenario.v
Safety.v
ImportSafety.v
FeedSafety.v
DraftSafety.v
BuilderSafety.v
JobSafety.v
InstallSafety.v
TokenCodec.v
Tokens.v
TokenStore.v
TokenService.v
TokenRoutes.v
TokenRuns.v
TokenScopes.v
TokenCookies.v
TokenSafety.v
TokenRouteSafety.v
Acquire.v
Archive.v
AcquireSources.v
HttpClient.v
AcquireRemote.v
AcquireSafety.v
ArchiveSafety.v
TarFormat.v
SourceSafety.v
ClientSafety.v
RemoteSafety.v
