(* ===== verification/Prelude.v ===== *)
(** * Private Skills: a verification development

    Private Skills is a registry for agent skills.  A publisher uploads a bundle
    of files, edits one as a draft, with or without the help of an external
    builder agent, or a worker imports one from an upstream; reviewers and
    scanners examine it; a policy decides from their evidence whether it may be
    distributed; clients resolve names and packs to approved releases and
    download them through short-lived grants.  This library models the part of
    the program that makes these decisions, from the bytes of a bundle to the
    interleaving of requests on one organization's document, and proves what it
    promises.

    ** The program and the files that model it

    - [Js.v], [Numbers.v], [Dates.v], [Base64.v], [Json.v], [Wire.v], [Web.v]:
      what the sources use of the language and its standard library.  Strings
      are lists of UTF-16 code units ([jstr]), numbers binary64 values
      ([spec_float]), values of type unknown are [jsval]; [TextEncoder],
      [JSON.parse] and [JSON.stringify] (of documents in [Json.v], of records
      with integers and of parsed values in [Wire.v], which also reads the
      former back), [atob] and [btoa], [toISOString] are executable.
      [Date.parse], Unicode case mapping and normalization, [URL],
      [localeCompare], SHA-256 and the blob store are type classes whose laws,
      where a theorem needs them, are classes of their own ([DateRuntime] and
      [DateLaws], [UnicodeTables] and [UnicodeLaws], [UrlRuntime], [Collation]
      and [CollationLaws], [Crypto] and [CryptoLaws], [Hmac] and [HmacLaws],
      [Blobs] and [StoreLaw]), each with a concrete instance.
    - [Bundle.v] and [Frontmatter.v]: packages/storage/src/bundle.ts, the bundle
      format ([validateBundle], [encodeBundle], [decodeBundle]) and the reading
      of SKILL.md ([parseFrontmatter], [parseSkillMetadata]).  The yaml package
      is the parameter [parseDocument].
    - [Contracts.v]: packages/contracts/src/index.ts, the stored document
      [RegistryState] and everything in it.
    - packages/core/src/index.ts: [Access.v] (principals, roles, scopes,
      namespaces), [Names.v] (names, versions, redaction), [PolicyEval.v]
      (policies, [evaluatePolicy], admission), [Resolve.v] ([resolveResource]
      and the comparison of plans), [Provenance.v] (what an import may claim
      about its source), [OpenClawFeed.v] (freshness of a feed, with
      packages/openclaw), [ScanEvidence.v] ([parseScanResult]), [State.v]
      (reading and checking the document), [Registry.v] (publish, pack, policy,
      rescan, revoke), [Install.v] (authorizations, grants, transfers,
      receipts), [Jobs.v] (claim, artifact, completion), [Feeds.v] (feeds and
      upstreams), [Imports.v] (imports by upstream and path), [Directory.v]
      (the rows of the skills.sh directory, with packages/directory),
      [SourceImports.v] and [FeedImports.v] (imports by source reference and by
      external id), [CatalogImports.v] (imports that a source catalog queues, with
      packages/source-catalog, and those of the entries of a trusted OpenClaw
      feed, with packages/openclaw).
    - packages/authoring/src: [Authoring.v] (access and the files of a release),
      [Drafts.v] (the parts of a request and of an answer), [DraftHandlers.v]
      (creating, saving, publishing a draft), [Builder.v] (the proposals of the
      builder agent and their decision).  [SkillBuilder.v] is
      packages/skill-builder/src/index.ts, the checks the registry shares with
      the agent; [BuilderSessions.v] is packages/core/src/builder.ts, the facade
      through which a browser talks to the agent.
    - packages/upload-reviews/src: [UploadReviews.v] (the records and their
      checks), [ReviewSnapshot.v] (what a review sees of a bundle),
      [ReviewQueue.v] (the service and a concrete review).  [ReviewLeases.v] ties
      its jobs to the drafts of the registry.
    - packages/database/src: [Repository.v] (the checks on a document, its
      revision, the in-memory repository), [Mutex.v] (the queue of operations of
      an organization), [HttpRepository.v] (both ends of the compare-and-set
      protocol).
    - packages/api-tokens/src/index.ts: [TokenCodec.v] (base64url, headers and
      cookies), [Tokens.v] (records, roles, scopes, sessions, expiry),
      [TokenStore.v] (the repository interface, what the service relies on, and
      the in-memory repository), [TokenService.v] (creating, listing, revoking,
      authenticating, browser sessions), [TokenRoutes.v] (the HTTP routes).
    - packages/upstreams/src/index.ts, through which a worker acquires a skill:
      [Acquire.v] (limits, paths, the bundle of acquired files), [Archive.v] (the
      ZIP and tar readers), [AcquireSources.v] (the files of Tessl, ClawHub and
      OpenClaw sources, the tree and blobs of a GitHub repository),
      [HttpClient.v] (the hosts that may be reached, and a request with its
      redirects and retries), [AcquireRemote.v] (the acquisitions from another
      registry, Tessl and ClawHub from end to end).  zlib, SHA-1, DNS and [fetch]
      are parameters ([Zlib], [Sha1], [Network]).

    The files above hold definitions and the lemmas on one function; what a
    component guarantees is proved in files of their own:

    - [System.v]: the handlers of the registry, of drafts and of the builder as
      one transition system with its invariant.  [DraftState.v]
      says what a draft and a session are and how they change,
      [DraftCommits.v] and [BuilderCommits.v] invert the handlers into such
      changes.  [Scenario.v] and [DraftScenario.v] are concrete runs, which the
      witnesses use.  [Safety.v], [JobSafety.v], [InstallSafety.v],
      [DraftSafety.v] and [BuilderSafety.v]: what follows for releases, packs,
      jobs, installations, drafts and proposals.  [BuilderPatches.v]: patch
      operations against a file tree.
      [ImportState.v] reduces the import and feed handlers to the change they
      make, [ImportIdentity.v] shows which records the compared texts stand for,
      and [ImportSafety.v] and [FeedSafety.v] are what follows for imports and
      feeds.
    - [ReviewSafety.v], [ReviewLeases.v]: the review service as a transition
      system of its own.
    - [HttpSafety.v]: the HTTP repository against the in-memory one.
    - [TokenRuns.v]: the token service among concurrent requests, and a concrete
      run.  [TokenScopes.v], [TokenCookies.v], [TokenSafety.v] and
      [TokenRouteSafety.v]: what tokens may do, the session cookie, the methods
      of the service and its routes.
    - [AcquireSafety.v]: an acquired bundle is one storage accepts.
      [ArchiveSafety.v] and [TarFormat.v]: what the archive readers return, and
      that the tar reader reads the ustar format.  [SourceSafety.v]: what the
      sources deliver.  [ClientSafety.v]: what the HTTP client sends.
      [RemoteSafety.v]: what whole acquisitions send and deliver.

    This file holds what all of them share: the error monad [result] with its
    notations, the JavaScript array functions, the tactics [ok_inv] and
    [bool_inv], and lemmas on lists and comparisons.

    ** How code becomes definitions

    A function that throws returns a [result]; an API error keeps its code,
    status and retry flag and drops its message.  A handler reads a snapshot of
    the document, prepares its work and runs a synchronous updater in a
    repository transaction; in between other requests may commit.  It is modelled
    as a function of the [snapshot] and of the [current] document that returns
    the new document and the answer, or an error that leaves the document as it
    was; a handler that can fail after its transaction committed returns both
    ([handled]).  A request that runs several transactions, such as a prompt to
    the agent, is one definition per transaction.  Mutation of an object found in
    an array is [update_first].  The clock is an argument, one value per
    synchronous stretch of code; the results of [randomId] are arguments.  Types
    that TypeScript only assumes of a stored document are assumed here by typing;
    values that come from a request are [jsval] and are checked by the modelled
    code.  Drafts that were stored before the field existed are read with the
    origin [draftOrigin] gives them.

    The token service awaits a repository of its own between almost any two
    steps, so its methods are programs ([prog]): a tree of calls (repository,
    identity provider, clock, random bytes, audit) with what is done with each
    answer.  [always] quantifies over the answers of an environment and over what
    other requests do to the store between two calls, which is to add records and
    to revoke them; [interleaving_sound] shows that what [always] says of each of
    several requests holds for every interleaving of their calls.

    The HTTP client of acquisitions is written over an environment ([Network])
    that answers each lookup and each [fetch]; its theorems run it with an
    environment that also keeps a log ([logged]), which changes no result
    ([client_bytes_watches]), and speak of every request in the log.  An archive
    is a list of bytes and an offset into it what is left of it.

    In [System.v] a [World] is the current document and its past; a [step]
    commits one handler whose snapshots are any documents that were current
    before, so a [run] is any interleaving of these handlers' requests: every
    transaction of packages/core, packages/authoring and the web server that
    writes the collections of [RegistryState], with any answers of the catalog.
    The other transactions on a document (reviews, search, billing, OpenClaw
    proofs and snapshots) keep members of their own in it, which the record does
    not have; they are the step that leaves it as it is, and the one that
    appends an event of the upload reviews.  The steps assume of [randomId] only
    that it returns ids and revisions that are not in use.

    ** What the theorems show

    - Bundles: validation accepts exactly the bundles of a declarative contract,
      encoding and decoding are inverse and canonical, the encoding does not
      depend on file order; accepted SKILL.md metadata is bounded
      and has no key that activates something, which is defined on its own.
    - Policy: [evaluatePolicy] approves exactly when its contract is satisfied,
      quarantines only for a blocking finding, and the catalog's admission is
      the gate the transfers apply.
    - Inputs: accepted principals, policies, scan results, provenance and feeds
      satisfy the bindings the rest relies on; namespaces and scopes confine.
    - Resolution and installation: what resolves, is authorized, granted or
      transferred is approved with current evidence and readable by the caller
      at that moment, and the bytes have the approved digest; receipts are
      idempotent.
    - Jobs: completion is fenced by the current lease and happens once, for all
      that follows; a job is queued again only for a changed policy and then
      needs a new lease; a claim fences earlier holders, results for an outdated policy decide nothing, and
      a release a scan approves is served.
    - Packs: members are good when the pack is committed, the manifest text
      determines the pack, revocation takes packs down.
    - Runs: organizations do not mix and keys stay unique, releases and packs
      are immutable, an approved release has its evidence on record, a revoked
      one is never served again.
    - Drafts: a request that reports an error changed nothing, no save,
      publication or decision on a proposal made for a past revision has any
      effect, a repeated save is answered with what it saved, a
      draft's object, digest, files and manifest agree, and a publication adds
      exactly the saved bytes as a release that still has to be scanned.
    - Builder: on the builder's routes the agent only proposes; a proposal takes effect once, on exactly
      the revision it was made for and with exactly the files its operations
      make, which are those of the same operations on a file tree; a session has
      one prompt under way.
    - Reviews: the queue's invariant and life cycle, one completion per review
      under the live lease, idempotent requests, bounded retention whose loops
      end, progress of a current review, and that a passed review is of the
      draft as it now is.
    - Imports and feeds: imports that requests queue are exclusive for a release
      and joined, an import that a catalog queued being the one exception; an
      answer without an import is an approved release whose record names the
      requested source under the current configuration of upstream or feed; a
      changed feed fences the imports made before.
    - API tokens: a token never grants more than its user was granted at its
      creation and is granted now, the intersection of scopes is exact, a
      created token works until it expires or is revoked, and then never again,
      by itself or by a session cookie; a cookie is read exactly when it is
      signed; cookies alone cannot mutate from another origin and tokens cannot
      create tokens; the in-memory repository implements a list of records.
    - Acquisition: an acquired bundle is stored as it is; archive readers return
      distinct safe paths of bounded size, from parts of a ZIP that do not
      overlap and have the declared sizes and checksums, and read the ustar
      format; the files of a GitHub tree are the objects it names, those of a
      ClawHub release the ones of its manifest; the HTTP client reaches checked
      hosts only, keeps credentials at their origin and sends a bounded number
      of requests; so does an acquisition from another registry, whose bundle
      is stored under the digest that registry resolved, while the requests of
      Tessl and ClawHub acquisitions stay with the providers; a chain of
      registries is short and has no cycle; the refused IPv4 addresses are the reserved blocks.
    - Repositories: the mutex runs operations in order and one at a time; a
      transaction over HTTP takes effect at most once, at one instant, merged
      into the document of that instant, and reports a conflict only when others committed.

    Some lemmas record where the code does not do what it means to: a trailing
    lone surrogate passes [hasLoneSurrogate], the camel-case rule of
    [isDangerousFrontmatterKey] is dead, [redactJobError] leaves the token of an
    Authorization header, [compareVersions] misorders build metadata, a review
    snapshot trims the paths of files and compares bindings by the order of
    their members, the HTTP repository cannot remove an optional collection, a
    feed with a repository that normalizes to nothing locks the document, a
    feed's PATCH answers from the wrong index, a list of tokens is cut before the
    revoked ones are dropped, [registry:*] means different things to the token
    service and to the registry, an IPv4 address mapped to IPv6 in hexadecimal
    form passes the check of hosts ([mapped_hexadecimal_accepted]), the attempts
    of a request multiply ([demo_attempts_multiply]), and a bundle with a path
    segment over 255 bytes is acquired but not stored
    ([long_segment_not_stored]).

    ** Bounds and fuel

    The JSON parser runs on fuel proportional to the length of its text, which
    [json_parse_stringify] shows to be enough for what the code writes.  The
    retention loops of the review queue run on fuel equal to the length of the
    list they shrink, and [prune_total] shows that they end before it does.  The
    retries of the HTTP repository are counted as in the source.  The loop of the
    acquisition client runs [maxRedirects] + [maxAttempts] rounds, which
    [client_bytes_bounded] shows to be enough; the tar reader one round for each
    header the archive has room for and the PAX reader one for each byte, and
    more change nothing ([tar_fuel_enough], [pax_records_fuel]).  Every other loop of
    the sources is structural recursion on its list, string or tree.  Limits such
    as the number of files, tickets, prompts or findings are those of the
    sources.

    ** What is not modelled

    - HTTP dispatch and rendering of the registry's answers, the authenticator,
      and the external packages behind the classes above: glue, or code that is
      not in the repository.
    - The file-system, SQL and blob adapters, among them the PostgreSQL
      repositories of documents and of tokens: I/O behind interfaces whose
      in-memory and HTTP implementations are modelled.
    - The calls to the agent and the review services themselves, and the review
      routes of drafts, which only pass requests on to them; the reviews of
      published releases, a second service of the shape of the upload reviews.
    - Install analytics, a read-only report; the browse routes of the directory;
      what selects and signs an OpenClaw publication (its record is modelled), and
      the OpenClaw adapter around the import queue.
    - The requests by which skills.sh, well-known, GitHub and OpenClaw
      acquisitions find their source, with their credentials, and the source
      descriptors of a worker's job; of the client, the throttle and the waiting
      between attempts.
    - The clients of the catalog's sources, which search and resolve them (what
      they answer is an argument), the scanners' engines, billing, search, sandbox and
      tenant services: clients of external services that never decide what is
      admitted.
    - The web application and the Rust client, which are other programs. *)

From Stdlib Require Import ZArith Lia.
From stdpp Require Import base list sorting numbers sets.

(** ** Fallible computations

    TypeScript code that throws is a value of [result]: [Err e] is the thrown
    error, [Ok a] the returned value. *)
Inductive result (E A : Type) : Type :=
| Ok (a : A)
| Err (e : E).
Arguments Ok {E A} a.
Arguments Err {E A} e.

Declare Scope ts_scope.
Delimit Scope ts_scope with ts.
Open Scope ts_scope.

Definition rbind {E A B : Type} (c : result E A) (k : A -> result E B) : result E B :=
  match c with
  | Ok a => k a
  | Err e => Err e
  end.

(** [let? x := c in k] runs [c] and continues with its value, or rethrows. *)
Notation "'let?' x ':=' c 'in' k" := (rbind c (fun x => k))
  (at level 10, x pattern, c at level 100, k at level 200) : ts_scope.

(** [throw_if b with e ;; k] is [if (b) throw e; k]. *)
Notation "'throw_if' b 'with' e ';;' k" := (if b then Err e else k)
  (at level 10, b at level 99, e at level 99, k at level 200) : ts_scope.

Definition is_ok {E A : Type} (r : result E A) : bool :=
  match r with
  | Ok _ => true
  | Err _ => false
  end.

(** [xs.map(f)] where [f] may throw: the first error wins. *)
Fixpoint map_result {E A B : Type} (f : A -> result E B) (l : list A) : result E (list B) :=
  match l with
  | [] => Ok []
  | x :: l' =>
      let? y := f x in
      let? ys := map_result f l' in
      Ok (y :: ys)
  end.

(** [xs.find(p)]: the first element the predicate accepts. *)
Fixpoint find_first {A : Type} (p : A -> bool) (l : list A) : option A :=
  match l with
  | [] => None
  | x :: l' => if p x then Some x else find_first p l'
  end.

(** In-place mutation of the object [xs.find(p)] returned: the first element
    the predicate accepts is replaced by its update. *)
Fixpoint update_first {A : Type} (p : A -> bool) (f : A -> A) (l : list A) : list A :=
  match l with
  | [] => []
  | x :: l' => if p x then f x :: l' else x :: update_first p f l'
  end.

(** [new Set(xs).size === xs.length]. *)
Fixpoint all_distinct {A : Type} `{EqDecision A} (l : list A) : bool :=
  match l with
  | [] => true
  | x :: l' => negb (bool_decide (x ∈ l')) && all_distinct l'
  end.

(** [[...new Set(xs)]]: insertion order, first occurrence kept. *)
Fixpoint dedup_from {A : Type} `{EqDecision A} (seen l : list A) : list A :=
  match l with
  | [] => []
  | x :: l' =>
      if bool_decide (x ∈ seen) then dedup_from seen l'
      else x :: dedup_from (x :: seen) l'
  end.
Definition dedup {A : Type} `{EqDecision A} (l : list A) : list A := dedup_from [] l.

(** [Array.prototype.sort] with a comparator is stable: an insertion sort that
    inserts before the first strictly greater element. *)
Fixpoint sort_insert {A : Type} (cmp : A -> A -> comparison) (x : A) (l : list A) : list A :=
  match l with
  | [] => [x]
  | y :: l' =>
      match cmp x y with
      | Gt => y :: sort_insert cmp x l'
      | _ => x :: y :: l'
      end
  end.
Definition js_sort {A : Type} (cmp : A -> A -> comparison) (l : list A) : list A :=
  foldr (sort_insert cmp) [] l.

(** [array.splice(array.indexOf(x), 1)]. *)
Fixpoint remove_first {A} (p : A -> bool) (l : list A) : list A :=
  match l with
  | [] => []
  | x :: l' => if p x then l' else x :: remove_first p l'
  end.

(** ** Automation *)

Create HintDb ts discriminated.

(** One step of reading a hypothesis [computation = Ok v] backwards. *)
Ltac ok_step :=
  match goal with
  | H : Err _ = Ok _ |- _ => discriminate H
  | H : Ok _ = Err _ |- _ => discriminate H
  | H : Ok ?a = Ok ?b |- _ => injection H as H; try subst
  | H : rbind ?c _ = Ok _ |- _ =>
      let E := fresh "E" in
      destruct c eqn:E; cbn [rbind] in H; [| discriminate H]
  | H : (if ?b then Err _ else _) = Ok _ |- _ =>
      let E := fresh "G" in
      destruct b eqn:E; [discriminate H |]
  | H : (if ?b then _ else Err _) = Ok _ |- _ =>
      let E := fresh "G" in
      destruct b eqn:E; [| discriminate H]
  end.
Ltac ok_inv := repeat ok_step.

(** Splits boolean conjunctions and negated disjunctions into their parts. *)
Ltac bool_inv :=
  repeat match goal with
  | H : _ && _ = true |- _ => apply andb_true_iff in H as [? H]
  | H : _ || _ = false |- _ => apply orb_false_iff in H as [? H]
  | H : negb _ = true |- _ => apply negb_true_iff in H
  | H : negb _ = false |- _ => apply negb_false_iff in H
  | H : bool_decide _ = true |- _ => apply bool_decide_eq_true in H
  | H : bool_decide _ = false |- _ => apply bool_decide_eq_false in H
  | H : (_ <? _)%Z = true |- _ => apply Z.ltb_lt in H
  | H : (_ <? _)%Z = false |- _ => apply Z.ltb_ge in H
  | H : (_ <=? _)%Z = true |- _ => apply Z.leb_le in H
  | H : (_ <=? _)%Z = false |- _ => apply Z.leb_gt in H
  | H : (_ =? _)%Z = true |- _ => apply Z.eqb_eq in H
  | H : (_ =? _)%Z = false |- _ => apply Z.eqb_neq in H
  end.

(** [lia] on goals with division and remainder by constants. *)
Ltac dlia := Z.div_mod_to_equations; lia.

(** ** Shared lemmas *)

Lemma map_result_Ok_Forall2 {E A B} (f : A -> result E B) (l : list A) (r : list B) :
  map_result f l = Ok r <-> Forall2 (fun x y => f x = Ok y) l r.
Proof.
  split.
  - revert r; induction l as [|x l IH]; intros r H; cbn in H; ok_inv; constructor; auto.
  - induction 1 as [|x y l r Hx _ IH]; cbn; [done|].
    by rewrite Hx; cbn; rewrite IH.
Qed.

Lemma find_first_Some {A} (p : A -> bool) (l : list A) (x : A) :
  find_first p l = Some x -> x ∈ l /\ p x = true.
Proof.
  induction l as [|y l IH]; cbn; [done|].
  destruct (p y) eqn:Hy.
  - intros [= ->]; split; [by left | done].
  - intros [Hin Hp]%IH; split; [by right | done].
Qed.

Lemma find_first_None {A} (p : A -> bool) (l : list A) :
  find_first p l = None <-> Forall (fun x => p x = false) l.
Proof.
  induction l as [|y l IH]; cbn; [split; [constructor | done]|].
  destruct (p y) eqn:Hy; split.
  - done.
  - by inversion 1; congruence.
  - intros H; constructor; [done | by apply IH].
  - inversion 1; by apply IH.
Qed.

Lemma find_first_is_Some {A} (p : A -> bool) (l : list A) (x : A) :
  x ∈ l -> p x = true -> is_Some (find_first p l).
Proof.
  intros Hin Hp. destruct (find_first p l) eqn:E; [eauto|].
  apply find_first_None in E. rewrite Forall_forall in E.
  by rewrite (E x Hin) in Hp.
Qed.

Lemma all_distinct_NoDup {A} `{EqDecision A} (l : list A) :
  all_distinct l = true <-> NoDup l.
Proof.
  induction l as [|x l IH]; cbn; [split; [constructor | done]|].
  rewrite andb_true_iff, negb_true_iff, bool_decide_eq_false, IH.
  by rewrite NoDup_cons.
Qed.

Lemma update_first_elem {A} (p : A -> bool) (f : A -> A) (l : list A) (y : A) :
  y ∈ update_first p f l ->
  y ∈ l \/ exists x, find_first p l = Some x /\ y = f x.
Proof.
  induction l as [|x l IH]; cbn; [by left|].
  destruct (p x); rewrite !elem_of_cons.
  - intros [->|Hin]; eauto.
  - intros [->|Hin]; [by left; left|].
    destruct (IH Hin) as [?|(z & Hz & ->)]; eauto.
Qed.

Lemma update_first_fmap {A B} (g : A -> B) (p : A -> bool) (f : A -> A) (l : list A) :
  (forall x, p x = true -> g (f x) = g x) ->
  g <$> update_first p f l = g <$> l.
Proof.
  intros Hg. induction l as [|x l IH]; cbn; [done|].
  destruct (p x) eqn:Hx; cbn.
  - by rewrite Hg.
  - by rewrite IH.
Qed.

Lemma update_first_Forall {A} (P : A -> Prop) (p : A -> bool) (f : A -> A) (l : list A) :
  (forall x, x ∈ l -> p x = true -> P x -> P (f x)) ->
  Forall P l -> Forall P (update_first p f l).
Proof.
  intros Hf Hl. induction Hl as [|x l Hx Hl IH]; cbn; [constructor|].
  destruct (p x) eqn:Ex; constructor; auto.
  - apply Hf; [by left | done | done].
  - apply IH. intros y Hy. apply Hf. by right.
Qed.

Lemma update_first_nomatch {A} (p : A -> bool) (f : A -> A) (l : list A) :
  find_first p l = None -> update_first p f l = l.
Proof.
  induction l as [|x l IH]; cbn; [done|].
  destruct (p x); [done|]. intros H. by rewrite IH.
Qed.

Lemma dedup_from_NoDup {A} `{EqDecision A} (seen l : list A) :
  NoDup (dedup_from seen l) /\ (forall x, x ∈ dedup_from seen l <-> x ∈ l /\ x ∉ seen).
Proof.
  revert seen; induction l as [|y l IH]; intros seen; cbn.
  - split; [constructor | set_solver].
  - destruct (bool_decide (y ∈ seen)) eqn:E; bool_inv.
    + destruct (IH seen) as [Hnd Hin]. split; [done|]. set_solver.
    + destruct (IH (y :: seen)) as [Hnd Hin]. split.
      * constructor; [|done]. rewrite Hin. set_solver.
      * intros x. rewrite elem_of_cons, Hin.
        destruct (decide (x = y)); set_solver.
Qed.

Lemma dedup_NoDup {A} `{EqDecision A} (l : list A) : NoDup (dedup l).
Proof. apply dedup_from_NoDup. Qed.

Lemma elem_of_dedup {A} `{EqDecision A} (l : list A) (x : A) : x ∈ dedup l <-> x ∈ l.
Proof. unfold dedup. rewrite (proj2 (dedup_from_NoDup [] l)). set_solver. Qed.

Lemma sort_insert_perm {A} (cmp : A -> A -> comparison) (x : A) (l : list A) :
  sort_insert cmp x l ≡ₚ x :: l.
Proof.
  induction l as [|y l IH]; cbn; [done|].
  destruct (cmp x y); [done | done |].
  rewrite IH. apply Permutation_swap.
Qed.

Lemma js_sort_perm {A} (cmp : A -> A -> comparison) (l : list A) :
  js_sort cmp l ≡ₚ l.
Proof.
  induction l as [|x l IH]; cbn; [done|].
  by rewrite sort_insert_perm, IH.
Qed.

(** A comparator whose [Gt] is the negation of a transitive, total [le] sorts. *)
Lemma js_sort_sorted {A} (cmp : A -> A -> comparison) (le : A -> A -> Prop) (l : list A) :
  Transitive le ->
  (forall x y, cmp x y <> Gt -> le x y) ->
  (forall x y, cmp x y = Gt -> le y x) ->
  StronglySorted le (js_sort cmp l).
Proof.
  intros Htr Hle Hgt. induction l as [|x l IH]; cbn; [constructor|].
  fold (js_sort cmp l). revert IH. generalize (js_sort cmp l) as s. clear l.
  induction 1 as [|y s Hs IH Hy]; cbn; [by repeat constructor|].
  destruct (cmp x y) eqn:E.
  1,2: assert (le x y) by (apply Hle; congruence);
       constructor; [by constructor|];
       constructor; [done|]; eapply Forall_impl; [exact Hy|]; eauto.
  constructor; [done|].
  rewrite Forall_forall. intros z Hz.
  rewrite (sort_insert_perm cmp x s) in Hz.
  apply elem_of_cons in Hz as [->|Hz]; [by apply Hgt|].
  by rewrite Forall_forall in Hy; apply Hy.
Qed.

(** A sorted list is left as it is. *)
Lemma js_sort_id {A} (cmp : A -> A -> comparison) (l : list A) :
  StronglySorted (fun x y => cmp x y <> Gt) l -> js_sort cmp l = l.
Proof.
  induction 1 as [|x l Hl IH Hx]; cbn; [done|].
  fold (js_sort cmp l). rewrite IH.
  destruct l as [|y l]; cbn; [done|].
  inversion Hx; subst. by destruct (cmp x y).
Qed.

(** Induction with one element of lookahead. *)
Lemma list_pair_ind {A} (P : list A -> Prop) :
  P [] -> (forall x, P [x]) ->
  (forall x y l, P l -> P (y :: l) -> P (x :: y :: l)) ->
  forall l, P l.
Proof.
  intros Hnil Hone Hstep l.
  enough (P l /\ forall x, P (x :: l)) by tauto.
  induction l as [|y l [IH1 IH2]]; split; auto.
Qed.

Lemma Forall_concat_fmap {A B} (P : B -> Prop) (f : A -> list B) (l : list A) :
  (forall x, x ∈ l -> Forall P (f x)) -> Forall P (concat (f <$> l)).
Proof.
  induction l as [|x l IH]; cbn; intros H; [constructor|].
  apply Forall_app. split; [apply H; by left|]. apply IH. intros y Hy. apply H. by right.
Qed.

(** Induction by groups of four, for codes that work on quanta. *)
Lemma list_quad_ind {A} (P : list A -> Prop) :
  P [] -> (forall a, P [a]) -> (forall a b, P [a; b]) -> (forall a b c, P [a; b; c]) ->
  (forall a b c d l, P l -> P (a :: b :: c :: d :: l)) ->
  forall l, P l.
Proof.
  intros H0 H1 H2 H3 H4 l.
  enough (P l /\ (forall a, P (a :: l)) /\ (forall a b, P (a :: b :: l)) /\
          (forall a b c, P (a :: b :: c :: l))) by tauto.
  induction l as [|y l (IH0 & IH1 & IH2 & IH3)]; repeat split; auto.
Qed.

Lemma list_triple_ind {A} (P : list A -> Prop) :
  P [] -> (forall a, P [a]) -> (forall a b, P [a; b]) ->
  (forall a b c l, P l -> P (a :: b :: c :: l)) ->
  forall l, P l.
Proof.
  intros H0 H1 H2 H3 l.
  enough (P l /\ (forall a, P (a :: l)) /\ (forall a b, P (a :: b :: l))) by tauto.
  induction l as [|y l (IH0 & IH1 & IH2)]; repeat split; auto.
Qed.

(** ** Comparisons

    A comparison is consistent when swapping its arguments flips it and "not
    greater" is transitive, which is what a sort needs of its comparator. *)
Record consistent {A : Type} (cmp : A -> A -> comparison) : Prop := {
  cmp_flip x y : cmp y x = CompOpp (cmp x y);
  cmp_trans x y z : cmp x y <> Gt -> cmp y z <> Gt -> cmp x z <> Gt;
}.

Definition cmp_then (c d : comparison) : comparison :=
  match c with
  | Eq => d
  | _ => c
  end.

Lemma consistent_Z : consistent Z.compare.
Proof.
  split.
  - intros x y. apply Z.compare_antisym.
  - intros x y z. change (x <= y -> y <= z -> x <= z)%Z. lia.
Qed.

Lemma consistent_on {A B} (f : A -> B) (cmp : B -> B -> comparison) :
  consistent cmp -> consistent (fun x y => cmp (f x) (f y)).
Proof. intros [Hf Ht]. split; intros; eauto. Qed.

Lemma consistent_lt {A} (cmp : A -> A -> comparison) x y z :
  consistent cmp -> cmp x y <> Gt -> cmp y z <> Gt -> cmp x z = Eq -> cmp x y = Eq /\ cmp y z = Eq.
Proof.
  intros [Hf Ht] Hxy Hyz Hxz.
  assert (Hzy : cmp z y <> Gt) by (apply (Ht z x y); [by rewrite Hf, Hxz | done]).
  assert (Hyx : cmp y x <> Gt) by (apply (Ht y z x); [done | by rewrite Hf, Hxz]).
  rewrite Hf in Hzy, Hyx. destruct (cmp x y), (cmp y z); cbn in *; done.
Qed.

(** The lexicographic combination of consistent comparisons. *)
Lemma consistent_then {A} (c d : A -> A -> comparison) :
  consistent c -> consistent d -> consistent (fun x y => cmp_then (c x y) (d x y)).
Proof.
  intros Hc Hd. split.
  - intros x y. rewrite (cmp_flip _ Hc x y), (cmp_flip _ Hd x y). by destruct (c x y).
  - intros x y z Hxy Hyz.
    assert (Cxy : c x y <> Gt) by (destruct (c x y); done).
    assert (Cyz : c y z <> Gt) by (destruct (c y z); done).
    pose proof (cmp_trans _ Hc x y z Cxy Cyz) as Cxz.
    destruct (c x z) eqn:E; cbn; [|done|done].
    destruct (consistent_lt c x y z Hc Cxy Cyz E) as [E1 E2].
    rewrite E1 in Hxy. rewrite E2 in Hyz. cbn in Hxy, Hyz. by apply (cmp_trans _ Hd x y z).
Qed.

(** The head of a sorted list is a least element. *)
Lemma js_sort_head {A} (cmp : A -> A -> comparison) (l : list A) (x : A) :
  consistent cmp -> head (js_sort cmp l) = Some x ->
  x ∈ l /\ forall y, y ∈ l -> cmp x y <> Gt.
Proof.
  intros Hc Hx.
  assert (Hs : StronglySorted (fun x y => cmp x y <> Gt) (js_sort cmp l)).
  { apply (js_sort_sorted cmp).
    - intros a b c. apply (cmp_trans _ Hc).
    - done.
    - intros a b Hab. by rewrite (cmp_flip _ Hc a b), Hab. }
  pose proof (js_sort_perm cmp l) as Hp.
  destruct (js_sort cmp l) as [|x' s] eqn:E; [done|]. injection Hx as ->.
  split; [rewrite <- Hp; by left|].
  intros y Hy. rewrite <- Hp in Hy. inversion Hs as [|? ? _ Hall]; subst.
  apply elem_of_cons in Hy as [->|Hy].
  - intros Hgt. pose proof (cmp_flip _ Hc x x) as Hf. rewrite Hgt in Hf. done.
  - rewrite Forall_forall in Hall. by apply Hall.
Qed.

Lemma js_sort_nil {A} (cmp : A -> A -> comparison) (l : list A) :
  head (js_sort cmp l) = None <-> l = [].
Proof.
  split; [|by intros ->]. pose proof (js_sort_perm cmp l) as Hp.
  destruct (js_sort cmp l); [|done]. intros _. by apply Permutation_nil in Hp.
Qed.

(** ** Pointwise updates *)

Lemma Forall2_same {A} (R : A -> A -> Prop) (l : list A) : (forall x, R x x) -> Forall2 R l l.
Proof. intros Hr. induction l; constructor; auto. Qed.

Lemma update_first_Forall2 {A} (R : A -> A -> Prop) (p : A -> bool) (f : A -> A) (l : list A) :
  (forall x, R x x) -> (forall x, x ∈ l -> p x = true -> R x (f x)) ->
  Forall2 R l (update_first p f l).
Proof.
  intros Hr Hf. induction l as [|x l IH]; cbn; [constructor|].
  destruct (p x) eqn:E; constructor; auto.
  - apply Hf; [by left | done].
  - by apply Forall2_same.
  - apply IH. intros y Hy. apply Hf. by right.
Qed.

Lemma map_Forall2 {A} (R : A -> A -> Prop) (f : A -> A) (l : list A) :
  (forall x, x ∈ l -> R x (f x)) -> Forall2 R l (map f l).
Proof.
  induction l as [|x l IH]; intros H; cbn; constructor.
  - apply H. by left.
  - apply IH. intros y Hy. apply H. by right.
Qed.

Lemma find_first_update {A} (p : A -> bool) (f : A -> A) (l : list A) (x : A) :
  find_first p l = Some x -> (forall y, p y = true -> p (f y) = true) ->
  find_first p (update_first p f l) = Some (f x).
Proof.
  intros H Hf. induction l as [|y l IH]; cbn in *; [done|].
  destruct (p y) eqn:E; cbn.
  - simplify_eq. by rewrite Hf.
  - rewrite E. by apply IH.
Qed.

(** A key without duplicates identifies its element. *)
Lemma NoDup_key_inj {A K} (key : A -> K) (l : list A) x y :
  NoDup (key <$> l) -> x ∈ l -> y ∈ l -> key x = key y -> x = y.
Proof.
  induction l as [|z l IH]; [set_solver|]. rewrite fmap_cons, NoDup_cons, !elem_of_cons.
  intros [Hz Hl] [->|Hx] [->|Hy] Hk; try done.
  - exfalso. apply Hz. rewrite Hk. by apply list_elem_of_fmap_2.
  - exfalso. apply Hz. rewrite <- Hk. by apply list_elem_of_fmap_2.
  - by apply IH.
Qed.

(** ** Array methods on [List.filter] and [existsb] *)

Lemma existsb_elem {A} (f : A -> bool) (l : list A) :
  existsb f l = true <-> exists x, x ∈ l /\ f x = true.
Proof. rewrite existsb_exists. by setoid_rewrite list_elem_of_In. Qed.

Lemma elem_of_List_filter {A} (f : A -> bool) (l : list A) x :
  x ∈ List.filter f l <-> x ∈ l /\ f x = true.
Proof. rewrite !list_elem_of_In. apply filter_In. Qed.

Lemma filter_Forall {A} (P : A -> Prop) (f : A -> bool) l : Forall P l -> Forall P (List.filter f l).
Proof. rewrite !Forall_forall. intros H x [Hx _]%elem_of_List_filter. by apply H. Qed.

Lemma filter_NoDup_fmap {A K} (key : A -> K) (f : A -> bool) l :
  NoDup (key <$> l) -> NoDup (key <$> List.filter f l).
Proof.
  induction l as [|x l IH]; [done|]. rewrite fmap_cons, NoDup_cons. intros [Hx Hl]. cbn [List.filter].
  destruct (f x); [|by apply IH]. rewrite fmap_cons, NoDup_cons. split; [|by apply IH].
  intros (y & Hy & [Hin _]%elem_of_List_filter)%list_elem_of_fmap. apply Hx. rewrite Hy.
  by apply list_elem_of_fmap_2.
Qed.

Lemma find_first_filter {A} (p f : A -> bool) (l : list A) (x : A) :
  find_first p l = Some x -> f x = true -> find_first p (List.filter f l) = Some x.
Proof.
  intros H Hf. induction l as [|y l IH]; cbn in *; [done|]. destruct (p y) eqn:E.
  - simplify_eq. rewrite Hf. cbn. by rewrite E.
  - destruct (f y); cbn; [rewrite E|]; by apply IH.
Qed.

Lemma find_first_app_None {A} (p : A -> bool) (l : list A) (x : A) :
  find_first p l = None -> p x = true -> find_first p (l ++ [x]) = Some x.
Proof.
  intros H Hp. induction l as [|y l IH]; cbn in *; [by rewrite Hp|]. destruct (p y); [done|]. by apply IH.
Qed.

Lemma find_first_update_first {A} (p q : A -> bool) (f : A -> A) (l : list A) (x : A) :
  find_first p l = Some x -> q (f x) = true -> (forall y, y ∈ l -> q y = true -> y = x) ->
  find_first q (update_first p f l) = Some (f x).
Proof.
  intros H Hq Hu. induction l as [|y l IH]; cbn in *; [done|].
  destruct (p y) eqn:E; cbn; [simplify_eq; by rewrite Hq|].
  destruct (q y) eqn:Eq; [|apply IH; [done|]; intros; apply Hu; [by right | done]].
  assert (y = x) as -> by (apply Hu; [by left | done]). apply find_first_Some in H as [_ H]. congruence.
Qed.

(** ** Removal, replacement and sublists *)

Lemma Ok_inj {E A} (a b : A) : @Ok E A a = Ok b -> a = b.
Proof. by intros [=]. Qed.
Lemma remove_first_perm {A} (p : A -> bool) (l : list A) x :
  find_first p l = Some x -> l ≡ₚ x :: remove_first p l.
Proof.
  induction l as [|y l IH]; cbn; [done|]. destruct (p y); [by intros [= ->]|].
  intros H. rewrite (IH H) at 1. apply Permutation_swap.
Qed.
Lemma remove_first_sublist {A} (p : A -> bool) (l : list A) : remove_first p l `sublist_of` l.
Proof. induction l as [|y l IH]; cbn; [done|]. destruct (p y); by constructor. Qed.
Lemma filter_remove_first {A} (p f : A -> bool) (l : list A) :
  (forall x, p x = true -> f x = false) -> List.filter f (remove_first p l) = List.filter f l.
Proof.
  intros Hp. induction l as [|y l IH]; cbn; [done|]. destruct (p y) eqn:E.
  - by rewrite (Hp y E).
  - cbn. by rewrite IH.
Qed.

Lemma length_update_first {A} (p : A -> bool) (f : A -> A) (l : list A) :
  length (update_first p f l) = length l.
Proof. induction l as [|x l IH]; cbn; [done|]. destruct (p x); cbn; by rewrite ?IH. Qed.
Lemma sublist_fmap {A B} (f : A -> B) (l k : list A) : l `sublist_of` k -> f <$> l `sublist_of` f <$> k.
Proof. induction 1; cbn; by constructor. Qed.
Lemma sublist_Forall {A} (P : A -> Prop) (l k : list A) : l `sublist_of` k -> Forall P k -> Forall P l.
Proof. intros Hs. rewrite !Forall_forall. intros H x Hx. by eapply H, elem_of_sublist. Qed.
Lemma elem_of_remove_first {A} (p : A -> bool) (l : list A) x :
  x ∈ l -> p x = false -> x ∈ remove_first p l.
Proof.
  induction l as [|y l IH]; cbn; [done|]. rewrite elem_of_cons. intros [->|Hx] Hp.
  - rewrite Hp. by left.
  - destruct (p y); [done|]. right. by apply IH.
Qed.

Lemma find_first_update_found {A} (p : A -> bool) (l : list A) x y :
  find_first p l = Some x -> p y = true -> find_first p (update_first p (fun _ => y) l) = Some y.
Proof.
  intros Hf Hy. induction l as [|z l IH]; cbn in *; [done|]. destruct (p z) eqn:E; cbn.
  - by rewrite Hy.
  - rewrite E. by apply IH.
Qed.

Lemma update_found_Forall2 {A} (R : A -> A -> Prop) (p : A -> bool) (l : list A) x y :
  (forall z, R z z) -> find_first p l = Some x -> R x y -> Forall2 R l (update_first p (fun _ => y) l).
Proof.
  intros Hr Hf Hxy. induction l as [|z l IH]; cbn in *; [done|]. destruct (p z); simplify_eq.
  - constructor; [done|]. by apply Forall2_same.
  - constructor; auto.
Qed.

#[export] Hint Resolve dedup_NoDup js_sort_perm filter_Forall filter_NoDup_fmap Forall2_same : ts.

(** ** Finding and updating by a key *)

Lemma elem_of_concat {A} (x : A) ls : x ∈ concat ls <-> exists l, l ∈ ls /\ x ∈ l.
Proof.
  rewrite list_elem_of_In, in_concat. split; intros (l & H1 & H2); exists l; by rewrite ?list_elem_of_In in *.
Qed.
Lemma find_first_unique_key {A K} (key : A -> K) (p : A -> bool) l x : NoDup (key <$> l) -> x ∈ l -> p x = true ->
  (forall y, p y = true -> key y = key x) -> find_first p l = Some x.
Proof.
  intros Hnd Hx Hp Hkey. destruct (find_first_is_Some p l x Hx Hp) as [y Hy]. rewrite Hy. f_equal.
  apply find_first_Some in Hy as [Hy Hpy]. apply (NoDup_key_inj key l); auto.
Qed.
Lemma find_first_fmap {A B} (f : A -> B) (p : B -> bool) l :
  find_first p (f <$> l) = f <$> find_first (fun x => p (f x)) l.
Proof. induction l as [|x l IH]; cbn; [done|]. destruct (p (f x)); [done|]. apply IH. Qed.
Lemma existsb_fmap {A B} (f : A -> B) (p : B -> bool) l : existsb p (f <$> l) = existsb (fun x => p (f x)) l.
Proof. induction l as [|x l IH]; cbn; [done|]. by rewrite IH. Qed.
Lemma find_first_and {A K} (key : A -> K) (p q : A -> bool) l : NoDup (key <$> l) ->
  (forall x y, p x = true -> p y = true -> key x = key y) ->
  find_first (fun x => p x && q x) l =
    match find_first p l with Some x => if q x then Some x else None | None => None end.
Proof.
  intros Hnd Hkey. induction l as [|x l IH]; cbn in *; [done|]. apply NoDup_cons in Hnd as [Hx Hnd].
  destruct (p x) eqn:Ep; cbn; [|by apply IH]. destruct (q x); [done|].
  apply find_first_None, Forall_forall. intros y Hy. destruct (p y) eqn:Ey; [|done].
  exfalso. apply Hx. rewrite (Hkey x y Ep Ey). by apply list_elem_of_fmap_2.
Qed.
Lemma update_first_ext {A} (p q : A -> bool) (f g : A -> A) l :
  (forall x, x ∈ l -> p x = q x) -> (forall x, x ∈ l -> p x = true -> f x = g x) ->
  update_first p f l = update_first q g l.
Proof.
  induction l as [|x l IH]; intros Hp Hf; cbn; [done|]. rewrite <- (Hp x) by left. destruct (p x) eqn:E.
  - by rewrite (Hf x) by (left || done).
  - f_equal. apply IH; intros y Hy; [apply Hp | apply Hf]; by right.
Qed.
Lemma update_first_pairs {A B} (f : A -> B) (p : B -> bool) (g : B -> B) (g' : A -> A) l :
  (forall x, x ∈ l -> p (f x) = true -> g (f x) = f (g' x)) ->
  update_first p g (f <$> l) = f <$> update_first (fun x => p (f x)) g' l.
Proof.
  induction l as [|x l IH]; intros H; cbn; [done|]. destruct (p (f x)) eqn:E; cbn.
  - by rewrite H by (left || done).
  - f_equal. apply IH. intros y Hy. apply H. by right.
Qed.
