(* ===== verification/Js.v ===== *)
(** * The parts of JavaScript the code uses

    Strings are lists of UTF-16 code units, as ECMAScript defines them; numbers
    are IEEE binary64 values ([spec_float]); [jsval] is the type of the values
    an [unknown] parameter can hold.  The file models the string operations the
    sources call, [TextEncoder], the fatal [TextDecoder], and states the two
    Unicode tables the runtime supplies (NFC and lower-casing) as an interface.
    Every definition is executable. *)

From Stdlib Require Import ZArith Lia Ascii SpecFloat.
From stdpp Require Import base list strings sets.
From S2P Require Import Prelude.

Local Open Scope Z_scope.

(** ** Code units and strings *)

Abbreviation jstr := (list Z) (only parsing).

Fixpoint js (s : string) : jstr :=
  match s with
  | EmptyString => []
  | String a s' => Z.of_N (N_of_ascii a) :: js s'
  end.

Definition wf_unit (c : Z) : Prop := 0 <= c < 65536.
Definition wf_jstr (s : jstr) : Prop := Forall wf_unit s.
Definition is_ascii (c : Z) : Prop := 0 <= c < 128.
Definition wf_bytes (bs : list Z) : Prop := Forall (fun b => 0 <= b < 256) bs.

#[export] Instance wf_unit_dec c : Decision (wf_unit c).
Proof. unfold wf_unit. apply _. Defined.

Definition between (lo c hi : Z) : bool := (lo <=? c) && (c <=? hi).
Definition is_high (c : Z) : bool := between 0xd800 c 0xdbff.
Definition is_low (c : Z) : bool := between 0xdc00 c 0xdfff.
Definition is_surrogate (c : Z) : bool := between 0xd800 c 0xdfff.

Definition jlen (s : jstr) : Z := Z.of_nat (length s).
Definition jeqb (s t : jstr) : bool := bool_decide (s = t).

(** [s.charCodeAt(i)]: [None] is the [NaN] of an index out of range. *)
Definition charCodeAt (s : jstr) (i : nat) : option Z := s !! i.

Fixpoint startsWith (p s : jstr) : bool :=
  match p, s with
  | [], _ => true
  | a :: p', b :: s' => (a =? b) && startsWith p' s'
  | _ :: _, [] => false
  end.
Definition endsWith (p s : jstr) : bool := startsWith (reverse p) (reverse s).

Fixpoint includes (p s : jstr) : bool :=
  startsWith p s ||
  match s with
  | [] => false
  | _ :: s' => includes p s'
  end.

(** [s.split(sep)] for a one-unit separator. *)
Fixpoint split (sep : Z) (s : jstr) : list jstr :=
  match s with
  | [] => [[]]
  | c :: s' =>
      if c =? sep then [] :: split sep s'
      else match split sep s' with
           | [] => [[c]]
           | w :: ws => (c :: w) :: ws
           end
  end.

Fixpoint join (sep : jstr) (l : list jstr) : jstr :=
  match l with
  | [] => []
  | [w] => w
  | w :: l' => w ++ sep ++ join sep l'
  end.

(** Comparison of strings with [<] is by code units. *)
Fixpoint jcompare (s t : jstr) : comparison :=
  match s, t with
  | [], [] => Eq
  | [], _ :: _ => Lt
  | _ :: _, [] => Gt
  | a :: s', b :: t' =>
      match Z.compare a b with
      | Eq => jcompare s' t'
      | c => c
      end
  end.

(** ECMAScript WhiteSpace and LineTerminator, what [trim] removes. *)
Definition is_js_space (c : Z) : bool :=
  between 9 c 13 || (c =? 32) || (c =? 0xa0) || (c =? 0x1680) || between 0x2000 c 0x200a ||
  (c =? 0x2028) || (c =? 0x2029) || (c =? 0x202f) || (c =? 0x205f) || (c =? 0x3000) ||
  (c =? 0xfeff).
Fixpoint trimStart (s : jstr) : jstr :=
  match s with
  | c :: s' => if is_js_space c then trimStart s' else s
  | [] => []
  end.
Definition trim (s : jstr) : jstr := reverse (trimStart (reverse (trimStart s))).

(** The characters a regular expression's dot does not match. *)
Definition is_line_terminator (c : Z) : bool :=
  (c =? 10) || (c =? 13) || (c =? 0x2028) || (c =? 0x2029).

Definition is_digit (c : Z) : bool := between 48 c 57.
Definition is_lower (c : Z) : bool := between 97 c 122.
Definition is_upper (c : Z) : bool := between 65 c 90.
Definition ascii_lower (c : Z) : Z := if is_upper c then c + 32 else c.

(** Decimal spelling of an array index inside a template string. *)
Fixpoint js_of_uint (d : Decimal.uint) : jstr :=
  match d with
  | Decimal.Nil => []
  | Decimal.D0 d => 48 :: js_of_uint d
  | Decimal.D1 d => 49 :: js_of_uint d
  | Decimal.D2 d => 50 :: js_of_uint d
  | Decimal.D3 d => 51 :: js_of_uint d
  | Decimal.D4 d => 52 :: js_of_uint d
  | Decimal.D5 d => 53 :: js_of_uint d
  | Decimal.D6 d => 54 :: js_of_uint d
  | Decimal.D7 d => 55 :: js_of_uint d
  | Decimal.D8 d => 56 :: js_of_uint d
  | Decimal.D9 d => 57 :: js_of_uint d
  end.
Definition js_of_nat (n : nat) : jstr := js_of_uint (Nat.to_uint n).

(** ** Values *)

Inductive jsval : Type :=
| JUndef
| JNull
| JBool (b : bool)
| JNum (x : spec_float)
| JStr (s : jstr)
| JArr (l : list jsval)
| JObj (l : list (jstr * jsval)).

(** [value.key] on an object: [undefined] when there is no such property. *)
Fixpoint obj_get (l : list (jstr * jsval)) (k : jstr) : jsval :=
  match l with
  | [] => JUndef
  | (k', v) :: l' => if jeqb k' k then v else obj_get l' k
  end.
(** Defining a property keeps the position of an existing one. *)
Fixpoint obj_set (l : list (jstr * jsval)) (k : jstr) (v : jsval) : list (jstr * jsval) :=
  match l with
  | [] => [(k, v)]
  | (k', v') :: l' => if jeqb k' k then (k', v) :: l' else (k', v') :: obj_set l' k v
  end.
Definition isRecord (v : jsval) : bool :=
  match v with
  | JObj _ => true
  | _ => false
  end.

(** [Number.isFinite] and [Number.isInteger] of a binary64 value, and the
    exact integer an integral value stands for. *)
Definition num_finite (x : spec_float) : bool :=
  match x with
  | S754_zero _ | S754_finite _ _ _ => true
  | _ => false
  end.
Definition num_to_Z (x : spec_float) : option Z :=
  match x with
  | S754_zero _ => Some 0
  | S754_finite s m e =>
      let v := if s then Z.neg m else Z.pos m in
      if 0 <=? e then Some (v * 2 ^ e)
      else if v mod 2 ^ (- e) =? 0 then Some (v / 2 ^ (- e)) else None
  | _ => None
  end.
Definition num_of_Z (z : Z) : spec_float := binary_normalize 53 1024 z 0 false.

(** ** Code points *)

Definition combine_surrogates (h l : Z) : Z := (h - 0xd800) * 1024 + (l - 0xdc00) + 0x10000.

(** String iteration: surrogate pairs are one element, lone surrogates stand
    for themselves. *)
Fixpoint code_points (s : jstr) : list Z :=
  match s with
  | [] => []
  | c :: r =>
      if is_high c then
        match r with
        | d :: r' => if is_low d then combine_surrogates c d :: code_points r'
                     else c :: code_points r
        | [] => [c]
        end
      else c :: code_points r
  end.
Definition utf16_of_cp (cp : Z) : jstr :=
  if cp <? 0x10000 then [cp]
  else [0xd800 + (cp - 0x10000) / 1024; 0xdc00 + (cp - 0x10000) mod 1024].
Definition of_code_points (l : list Z) : jstr := concat (utf16_of_cp <$> l).

(** A string in which every surrogate is part of a pair. *)
Fixpoint well_formed (s : jstr) : bool :=
  match s with
  | [] => true
  | c :: r =>
      if is_high c then
        match r with
        | d :: r' => is_low d && well_formed r'
        | [] => false
        end
      else negb (is_low c) && well_formed r
  end.

(** ** UTF-8: [TextEncoder.encode] and the fatal [TextDecoder.decode] *)

Definition utf8_of_cp (cp : Z) : list Z :=
  if cp <? 0x80 then [cp]
  else if cp <? 0x800 then [0xc0 + cp / 64; 0x80 + cp mod 64]
  else if cp <? 0x10000 then [0xe0 + cp / 4096; 0x80 + cp / 64 mod 64; 0x80 + cp mod 64]
  else [0xf0 + cp / 262144; 0x80 + cp / 4096 mod 64; 0x80 + cp / 64 mod 64; 0x80 + cp mod 64].

(** Lone surrogates are encoded as U+FFFD. *)
Definition scalar_of_cp (cp : Z) : Z := if is_surrogate cp then 0xfffd else cp.
Definition textEncode (s : jstr) : list Z :=
  concat ((fun cp => utf8_of_cp (scalar_of_cp cp)) <$> code_points s).

Definition is_cont (b : Z) : bool := between 0x80 b 0xbf.

Fixpoint utf8_decode (bs : list Z) : option (list Z) :=
  match bs with
  | [] => Some []
  | b0 :: r0 =>
      if b0 <? 0x80 then cons b0 <$> utf8_decode r0
      else match r0 with
      | [] => None
      | b1 :: r1 =>
          if between 0xc2 b0 0xdf then
            if is_cont b1 then cons ((b0 - 0xc0) * 64 + (b1 - 0x80)) <$> utf8_decode r1 else None
          else match r1 with
          | [] => None
          | b2 :: r2 =>
              if between 0xe0 b0 0xef then
                let cp := (b0 - 0xe0) * 4096 + (b1 - 0x80) * 64 + (b2 - 0x80) in
                if is_cont b1 && is_cont b2 && (0x800 <=? cp) && negb (is_surrogate cp)
                then cons cp <$> utf8_decode r2 else None
              else match r2 with
              | [] => None
              | b3 :: r3 =>
                  let cp := (b0 - 0xf0) * 262144 + (b1 - 0x80) * 4096 + (b2 - 0x80) * 64
                            + (b3 - 0x80) in
                  if between 0xf0 b0 0xf4 && is_cont b1 && is_cont b2 && is_cont b3 &&
                     between 0x10000 cp 0x10ffff
                  then cons cp <$> utf8_decode r3 else None
              end
          end
      end
  end.

(** The decoder drops one leading byte order mark. *)
Definition strip_bom (bs : list Z) : list Z :=
  match bs with
  | b0 :: b1 :: b2 :: r => if (b0 =? 0xef) && (b1 =? 0xbb) && (b2 =? 0xbf) then r else bs
  | _ => bs
  end.
Definition textDecode (bs : list Z) : option jstr :=
  of_code_points <$> utf8_decode (strip_bom bs).

(** ** The Unicode tables

    [String.prototype.normalize("NFC")] and [toLowerCase] come from the
    Unicode data of the runtime; the development is generic in them. *)
Class UnicodeTables := {
  normalizeNFC : jstr -> jstr;
  toLowerCase : jstr -> jstr;
}.
(** What the code relies on: both tables are the expected functions on ASCII. *)
Class UnicodeLaws (U : UnicodeTables) : Prop := {
  nfc_ascii s : Forall is_ascii s -> normalizeNFC s = s;
  lower_ascii s : Forall is_ascii s -> toLowerCase s = ascii_lower <$> s;
}.

(** A concrete instance: the tables of a runtime whose strings are ASCII. *)
Definition ascii_tables : UnicodeTables :=
  {| normalizeNFC := fun s => s; toLowerCase := fun s => ascii_lower <$> s |}.
#[export] Instance ascii_tables_laws : UnicodeLaws ascii_tables.
Proof. by split. Qed.

(** ** Lemmas *)

Lemma between_spec lo c hi : between lo c hi = true <-> lo <= c <= hi.
Proof. unfold between. rewrite andb_true_iff, Z.leb_le, Z.leb_le. lia. Qed.

Lemma between_false lo c hi : between lo c hi = false <-> c < lo \/ hi < c.
Proof. unfold between. rewrite andb_false_iff, !Z.leb_gt. lia. Qed.

Ltac range_inv :=
  unfold is_high, is_low, is_surrogate, is_cont, is_digit, is_lower, is_upper in *;
  repeat match goal with
  | H : between _ _ _ = true |- _ => apply between_spec in H
  | H : between _ _ _ = false |- _ => apply between_false in H
  end.

Lemma jeqb_true s t : jeqb s t = true <-> s = t.
Proof. apply bool_decide_eq_true. Qed.
Lemma jeqb_false s t : jeqb s t = false <-> s <> t.
Proof. apply bool_decide_eq_false. Qed.
Lemma jeqb_refl s : jeqb s s = true.
Proof. by apply jeqb_true. Qed.
(** The equations behind the comparisons [x === y] that succeeded. *)
Ltac jeqb_inv :=
  repeat match goal with
  | H : jeqb _ _ = true |- _ => apply jeqb_true in H
  end.
#[export] Hint Resolve jeqb_refl : ts.

Lemma startsWith_spec p s : startsWith p s = true <-> exists r, s = p ++ r.
Proof.
  revert s; induction p as [|a p IH]; intros s; cbn.
  { split; eauto. }
  destruct s as [|b s].
  { split; [done | by intros [r [=]]]. }
  rewrite andb_true_iff, Z.eqb_eq, IH. split.
  - intros [-> [r ->]]. by exists r.
  - intros [r [= -> ->]]. eauto.
Qed.

Lemma endsWith_spec p s : endsWith p s = true <-> exists r, s = r ++ p.
Proof.
  unfold endsWith. rewrite startsWith_spec. split.
  - intros [r H]. exists (reverse r). apply (f_equal reverse) in H.
    by rewrite reverse_involutive, reverse_app, reverse_involutive in H.
  - intros [r ->]. exists (reverse r). by rewrite reverse_app.
Qed.

Lemma includes_spec p s : includes p s = true <-> exists l r, s = l ++ p ++ r.
Proof.
  induction s as [|c s IH]; cbn; rewrite orb_true_iff, startsWith_spec.
  - split.
    + intros [[r Hr]|H]; [by exists [], r | done].
    + intros (l & r & H). left. destruct l; [by exists r | done].
  - rewrite IH. split.
    + intros [[r Hr]|(l & r & ->)]; [by exists [], r | by exists (c :: l), r].
    + intros ([|x l] & r & H); [left; by exists r|].
      right. injection H as -> ->. by exists l, r.
Qed.

Lemma includes_single c s : includes [c] s = false <-> c ∉ s.
Proof.
  rewrite <- not_true_iff_false, includes_spec. f_equiv. split.
  - intros (l & r & ->). set_solver.
  - intros (l & r & ->)%list_elem_of_split. by exists l, r.
Qed.

Lemma jcompare_eq s t : jcompare s t = Eq <-> s = t.
Proof.
  revert t; induction s as [|a s IH]; intros [|b t]; cbn; try done.
  destruct (Z.compare_spec a b) as [->|H|H].
  - rewrite IH. split; [by intros -> | by intros [=]].
  - split; [done | intros [=]; lia].
  - split; [done | intros [=]; lia].
Qed.

Lemma jcompare_antisym s t : jcompare t s = CompOpp (jcompare s t).
Proof.
  revert t; induction s as [|a s IH]; intros [|b t]; cbn; try done.
  rewrite (Z.compare_antisym a b). destruct (Z.compare a b); cbn; auto.
Qed.

Lemma jcompare_lt_trans s t u : jcompare s t = Lt -> jcompare t u = Lt -> jcompare s u = Lt.
Proof.
  revert t u; induction s as [|a s IH]; intros [|b t] [|c u]; cbn; try done.
  destruct (Z.compare_spec a b) as [Hab|Hab|Hab], (Z.compare_spec b c) as [Hbc|Hbc|Hbc];
    try done; intros H1 H2; destruct (Z.compare_spec a c) as [Hac|Hac|Hac];
    try lia; eauto.
Qed.

Lemma split_ne_nil sep s : split sep s <> [].
Proof. destruct s; cbn; [done|]. case_match; [done|]. by case_match. Qed.

Lemma split_no_sep sep s w : w ∈ split sep s -> sep ∉ w.
Proof.
  revert w; induction s as [|c s IH]; intros w; cbn.
  - rewrite list_elem_of_singleton. intros ->. apply not_elem_of_nil.
  - destruct (c =? sep) eqn:E; bool_inv.
    + rewrite elem_of_cons. intros [->|?]; [apply not_elem_of_nil | by apply IH].
    + pose proof (split_ne_nil sep s) as Hne.
      destruct (split sep s) as [|w' ws]; [done|].
      rewrite elem_of_cons. intros [->|H].
      * rewrite not_elem_of_cons. split; [done|]. apply IH. by left.
      * apply IH. by right.
Qed.

Lemma join_split sep s : join [sep] (split sep s) = s.
Proof.
  induction s as [|c s IH]; cbn; [done|].
  pose proof (split_ne_nil sep s) as Hne.
  destruct (c =? sep) eqn:E; bool_inv.
  - subst. destruct (split sep s) as [|w ws]; [done|]. by rewrite <- IH.
  - destruct (split sep s) as [|w ws]; [done|]. cbn in *.
    destruct ws; cbn in *; by rewrite <- IH.
Qed.

Lemma wf_jstr_app s t : wf_jstr (s ++ t) <-> wf_jstr s /\ wf_jstr t.
Proof. apply Forall_app. Qed.

Lemma js_ascii (s : string) : Forall (fun c => 0 <= c < 256) (js s).
Proof.
  induction s as [|a s IH]; cbn; constructor; [|done].
  pose proof (N_ascii_bounded a). lia.
Qed.
Lemma js_wf (s : string) : wf_jstr (js s).
Proof. eapply Forall_impl; [apply js_ascii|]. unfold wf_unit. cbn. lia. Qed.

(** ** UTF-8 round trip *)

Definition is_scalar (cp : Z) : Prop := 0 <= cp <= 0x10ffff /\ is_surrogate cp = false.

Lemma utf8_decode_of_cp cp r :
  is_scalar cp -> utf8_decode (utf8_of_cp cp ++ r) = cons cp <$> utf8_decode r.
Proof.
  intros [Hr Hs]. range_inv. unfold utf8_of_cp.
  destruct (cp <? 0x80) eqn:E1; bool_inv.
  { cbn. by rewrite (proj2 (Z.ltb_lt cp 0x80)) by dlia. }
  destruct (cp <? 0x800) eqn:E2; bool_inv.
  { cbn [app utf8_decode].
    rewrite (proj2 (Z.ltb_ge _ _)) by dlia.
    rewrite (proj2 (between_spec _ _ _)) by dlia.
    unfold is_cont. rewrite (proj2 (between_spec _ _ _)) by dlia.
    do 3 f_equal. dlia. }
  destruct (cp <? 0x10000) eqn:E3; bool_inv.
  { cbn [app utf8_decode]. cbv zeta.
    rewrite (proj2 (Z.ltb_ge _ _)) by dlia.
    rewrite (proj2 (between_false _ _ _)) by dlia.
    rewrite (proj2 (between_spec _ _ _)) by dlia.
    replace ((224 + cp / 4096 - 224) * 4096 + (128 + cp / 64 mod 64 - 128) * 64
             + (128 + cp mod 64 - 128)) with cp by dlia.
    unfold is_cont, is_surrogate.
    rewrite !(proj2 (between_spec 0x80 _ _)) by dlia.
    rewrite (proj2 (between_false _ _ _)) by dlia.
    by rewrite (proj2 (Z.leb_le _ _)) by dlia. }
  cbn [app utf8_decode]. cbv zeta.
  rewrite (proj2 (Z.ltb_ge _ _)) by dlia.
  rewrite !(proj2 (between_false _ (240 + _) _)) by dlia.
  replace ((240 + cp / 262144 - 240) * 262144 + (128 + cp / 4096 mod 64 - 128) * 4096
           + (128 + cp / 64 mod 64 - 128) * 64 + (128 + cp mod 64 - 128)) with cp by dlia.
  unfold is_cont. by rewrite !(proj2 (between_spec _ _ _)) by dlia.
Qed.

Lemma utf8_round_trip (l : list Z) :
  Forall is_scalar l -> utf8_decode (concat (utf8_of_cp <$> l)) = Some l.
Proof.
  induction 1 as [|cp l Hcp Hl IH]; cbn; [done|].
  by rewrite utf8_decode_of_cp, IH.
Qed.

Lemma utf16_of_combine h l :
  is_high h = true -> is_low l = true -> utf16_of_cp (combine_surrogates h l) = [h; l].
Proof.
  intros Hh Hl. range_inv. unfold utf16_of_cp, combine_surrogates.
  rewrite (proj2 (Z.ltb_ge _ _)) by dlia.
  f_equal; [|f_equal]; dlia.
Qed.

Lemma of_code_points_id s :
  wf_jstr s -> of_code_points (code_points s) = s.
Proof.
  unfold of_code_points.
  induction s as [|c|c d r IH1 IH2] using list_pair_ind; intros Hwf.
  - done.
  - inversion Hwf as [|? ? Hc]; subst. unfold wf_unit in Hc.
    cbn. destruct (is_high c); cbn; unfold utf16_of_cp;
      by rewrite (proj2 (Z.ltb_lt c 0x10000)) by lia.
  - inversion Hwf as [|? ? Hc Hd]; subst. unfold wf_unit in Hc.
    assert (Hcu : utf16_of_cp c = [c]).
    { unfold utf16_of_cp. by rewrite (proj2 (Z.ltb_lt c 0x10000)) by lia. }
    cbn [code_points] in *. destruct (is_high c) eqn:Eh.
    + destruct (is_low d) eqn:El; cbn [fmap list_fmap concat].
      * rewrite utf16_of_combine by done. cbn. f_equal. f_equal.
        apply IH1. by inversion Hd.
      * rewrite Hcu. cbn [app]. f_equal. by apply IH2.
    + cbn [fmap list_fmap concat]. rewrite Hcu. cbn [app]. f_equal. by apply IH2.
Qed.

Lemma code_points_scalar s :
  wf_jstr s -> well_formed s = true -> Forall is_scalar (code_points s).
Proof.
  assert (Hone : forall c, wf_unit c -> is_high c = false -> is_low c = false -> is_scalar c).
  { intros c Hc H1 H2. unfold wf_unit in Hc. split; [lia|]. range_inv.
    apply between_false. lia. }
  induction s as [|c|c d r IH1 IH2] using list_pair_ind; intros Hwf Hs.
  - constructor.
  - inversion Hwf; subst. cbn in *. destruct (is_high c) eqn:E; [done|].
    bool_inv. auto.
  - inversion Hwf as [|? ? Hc Hd]; subst. cbn [code_points well_formed] in *.
    destruct (is_high c) eqn:Eh.
    + apply andb_true_iff in Hs as [El Hs]. rewrite El. constructor.
      * range_inv. unfold combine_surrogates. split; [lia|]. apply between_false. lia.
      * apply IH1; [by inversion Hd | done].
    + apply andb_true_iff in Hs as [El Hs]. apply negb_true_iff in El.
      constructor; auto.
Qed.

Lemma textEncode_well_formed s :
  wf_jstr s -> well_formed s = true ->
  textEncode s = concat (utf8_of_cp <$> code_points s).
Proof.
  intros Hwf Hs. unfold textEncode. f_equal.
  pose proof (code_points_scalar s Hwf Hs) as Hsc.
  apply list_fmap_ext. intros i cp Hcp.
  rewrite Forall_lookup in Hsc. destruct (Hsc i cp Hcp) as [_ Hns].
  unfold scalar_of_cp. by rewrite Hns.
Qed.

(** Decoding what was encoded gives the string back, for every well-formed
    string that does not start with the byte order mark U+FEFF. *)
Lemma strip_bom_textEncode s :
  wf_jstr s -> well_formed s = true -> (forall r, s <> 0xfeff :: r) ->
  strip_bom (textEncode s) = textEncode s.
Proof.
  intros Hwf Hs Hbom. rewrite textEncode_well_formed by done.
  pose proof (code_points_scalar s Hwf Hs) as Hsc.
  assert (Hhd : forall r, code_points s <> 0xfeff :: r).
  { intros r Hr. apply (f_equal of_code_points) in Hr.
    rewrite of_code_points_id in Hr by done. unfold of_code_points in Hr. cbn in Hr.
    by eapply Hbom. }
  destruct (code_points s) as [|cp l]; [done|]. cbn.
  inversion Hsc as [|? ? [Hr Hsur] _]; subst. range_inv.
  assert (cp <> 0xfeff) by (intros ->; by eapply Hhd).
  unfold utf8_of_cp, strip_bom.
  repeat case_match; bool_inv; try done; simplify_eq/=; dlia.
Qed.
Lemma textDecode_textEncode s :
  wf_jstr s -> well_formed s = true -> (forall r, s <> 0xfeff :: r) ->
  textDecode (textEncode s) = Some s.
Proof.
  intros Hwf Hs Hbom. unfold textDecode. rewrite strip_bom_textEncode, textEncode_well_formed by done.
  rewrite utf8_round_trip by by apply code_points_scalar. cbn. by rewrite of_code_points_id.
Qed.

Lemma textEncode_app_ascii p s :
  Forall is_ascii p -> textEncode (p ++ s) = p ++ textEncode s.
Proof.
  induction 1 as [|c p Hc _ IH]; cbn; [done|]. unfold is_ascii in Hc.
  assert (Hh : is_high c = false) by (apply between_false; lia). rewrite Hh.
  unfold textEncode in *. cbn [fmap list_fmap concat]. rewrite IH.
  unfold scalar_of_cp, is_surrogate. rewrite (proj2 (between_false 0xd800 c 0xdfff)) by lia.
  unfold utf8_of_cp. by rewrite (proj2 (Z.ltb_lt c 0x80)) by lia.
Qed.

Lemma split_single sep s : sep ∉ s -> split sep s = [s].
Proof.
  induction s as [|c s IH]; intros H; [done|]. apply not_elem_of_cons in H as [Hc Hs]. cbn.
  rewrite (proj2 (Z.eqb_neq c sep)) by done. by rewrite IH.
Qed.
Lemma split_app_sep sep l r : split sep (l ++ sep :: r) = split sep l ++ split sep r.
Proof.
  induction l as [|c l IH]; cbn.
  - by rewrite Z.eqb_refl.
  - destruct (c =? sep); rewrite IH; [done|].
    pose proof (split_ne_nil sep l). by destruct (split sep l).
Qed.

(** A leading, trailing or doubled separator makes an empty segment. *)
Lemma split_empty_segment sep s :
  startsWith [sep] s = true \/ endsWith [sep] s = true \/ includes [sep; sep] s = true ->
  [] ∈ split sep s.
Proof.
  rewrite startsWith_spec, endsWith_spec, includes_spec.
  intros [[r ->]|[[r ->]|(l & r & ->)]]; cbn.
  - rewrite Z.eqb_refl. by left.
  - rewrite split_app_sep. cbn. apply elem_of_app. right. by left.
  - rewrite split_app_sep. cbn. rewrite Z.eqb_refl. apply elem_of_app. right. by left.
Qed.

(** The strings of a value have 16-bit units, as every JavaScript string has. *)
Fixpoint wf_value (v : jsval) : Prop :=
  match v with
  | JStr s => wf_jstr s
  | JArr l => foldr (fun x P => wf_value x /\ P) True l
  | JObj l => foldr (fun kv P => wf_value kv.2 /\ P) True l
  | _ => True
  end.

Lemma wf_value_get l k : wf_value (JObj l) -> wf_value (obj_get l k).
Proof.
  cbn. induction l as [|[k' v] l IH]; cbn; [done|]. intros [Hv Hl].
  case_match; auto.
Qed.
Lemma wf_value_elem l v : wf_value (JArr l) -> v ∈ l -> wf_value v.
Proof.
  cbn. induction l as [|w l IH]; cbn; intros H Hin; [by apply elem_of_nil in Hin|].
  destruct H. apply elem_of_cons in Hin as [->|?]; auto.
Qed.

(** Decoded text has 16-bit units. *)
Lemma utf8_decode_range bs l :
  wf_bytes bs -> utf8_decode bs = Some l -> Forall (fun cp => 0 <= cp <= 0x10ffff) l.
Proof.
  remember (length bs) as n eqn:Hn. revert bs l Hn.
  induction n as [n IH] using lt_wf_ind. intros bs l -> Hw H.
  assert (Hrec : forall cp r, (length r < length bs)%nat -> wf_bytes r -> 0 <= cp <= 0x10ffff ->
            cons cp <$> utf8_decode r = Some l -> Forall (fun cp => 0 <= cp <= 0x10ffff) l).
  { intros cp r Hlen Hr Hcp Hd. destruct (utf8_decode r) eqn:E; simplify_eq/=.
    constructor; [done|]. by eapply (IH _ Hlen r). }
  destruct bs as [|b0 r0]; cbn in H; [by simplify_eq; constructor|].
  unfold wf_bytes in *.
  repeat match goal with
  | H : Forall _ (_ :: _) |- _ => apply Forall_cons in H as [? H]
  | H : (if ?b then _ else _) = Some _ |- _ => destruct b eqn:?
  | H : None = Some _ |- _ => discriminate H
  | H : match ?r with [] => _ | _ :: _ => _ end = Some _ |- _ => destruct r
  end; bool_inv; range_inv;
  (eapply Hrec; [| |  | exact H]; [cbn; lia | done | lia]).
Qed.

Lemma textDecode_wf bs s : wf_bytes bs -> textDecode bs = Some s -> wf_jstr s.
Proof.
  intros Hw H. unfold textDecode in H.
  assert (Hs : wf_bytes (strip_bom bs)).
  { unfold strip_bom, wf_bytes in *. repeat case_match; try done.
    by repeat match goal with H : Forall _ (_ :: _) |- _ => apply Forall_cons in H as [_ H] end. }
  destruct (utf8_decode (strip_bom bs)) as [l|] eqn:E; simplify_eq/=.
  apply utf8_decode_range in E; [|done].
  unfold of_code_points. apply Forall_concat_fmap. intros cp Hcp.
  rewrite Forall_forall in E. specialize (E cp Hcp). cbn in E.
  unfold utf16_of_cp, wf_unit. destruct (cp <? 0x10000) eqn:Ec; bool_inv;
    repeat constructor; dlia.
Qed.

Lemma textEncode_bytes s : wf_jstr s -> wf_bytes (textEncode s).
Proof.
  intros Hw. unfold textEncode. apply Forall_concat_fmap. intros cp Hcp.
  assert (Hr : 0 <= cp <= 0x10ffff).
  { revert Hw Hcp. induction s as [|c|c d r IH1 IH2] using list_pair_ind; intros Hw Hcp.
    - by apply elem_of_nil in Hcp.
    - inversion Hw as [|? ? Hc]; subst. unfold wf_unit in Hc. cbn in Hcp.
      destruct (is_high c); apply list_elem_of_singleton in Hcp as ->; lia.
    - inversion Hw as [|? ? Hc Hd]; subst. unfold wf_unit in Hc. cbn [code_points] in *.
      destruct (is_high c) eqn:Eh; [destruct (is_low d) eqn:El|];
        apply elem_of_cons in Hcp as [->|Hcp]; try lia; try (by apply IH2).
      + range_inv. unfold combine_surrogates. lia.
      + apply IH1; [by inversion Hd | done]. }
  unfold scalar_of_cp, utf8_of_cp. repeat case_match; bool_inv; repeat constructor; dlia.
Qed.

(** ** Decoding and encoding again *)

Lemma utf16_of_scalar cp r : is_scalar cp -> code_points (utf16_of_cp cp ++ r) = cp :: code_points r.
Proof.
  intros [Hr Hs]. unfold utf16_of_cp. destruct (cp <? 0x10000) eqn:E; bool_inv.
  - cbn. replace (is_high cp) with false; [done|]. symmetry. range_inv. apply between_false. lia.
  - cbn [app code_points].
    replace (is_high _) with true by (symmetry; apply between_spec; dlia).
    replace (is_low _) with true by (symmetry; apply between_spec; dlia).
    f_equal. unfold combine_surrogates. dlia.
Qed.
Lemma code_points_of l : Forall is_scalar l -> code_points (of_code_points l) = l.
Proof.
  unfold of_code_points. induction 1 as [|cp l Hcp _ IH]; [done|].
  cbn [fmap list_fmap concat]. rewrite utf16_of_scalar by done. by rewrite IH.
Qed.

(** What the decoder accepts is the encoding of what it returns. *)
Lemma utf8_decode_exact bs l :
  wf_bytes bs -> utf8_decode bs = Some l -> Forall is_scalar l /\ concat (utf8_of_cp <$> l) = bs.
Proof.
  remember (length bs) as n eqn:Hn. revert bs l Hn.
  induction n as [n IH] using lt_wf_ind. intros bs l -> Hw H.
  assert (Hrec : forall cp pre r, bs = pre ++ r -> (0 < length pre)%nat -> wf_bytes r ->
            is_scalar cp -> utf8_of_cp cp = pre -> cons cp <$> utf8_decode r = Some l ->
            Forall is_scalar l /\ concat (utf8_of_cp <$> l) = bs).
  { intros cp pre r -> Hlen Hr Hcp Hpre Hd. destruct (utf8_decode r) as [l'|] eqn:E; simplify_eq/=.
    destruct (IH (length r) ltac:(rewrite length_app; lia) r l' eq_refl Hr E) as [Hl <-].
    split; [by constructor | done]. }
  destruct bs as [|b0 r0]; cbn in H; [by simplify_eq|].
  unfold wf_bytes in *.
  repeat match goal with
  | H : Forall _ (_ :: _) |- _ => apply Forall_cons in H as [? H]
  | H : (if ?b then _ else _) = Some _ |- _ => destruct b eqn:?
  | H : None = Some _ |- _ => discriminate H
  | H : match ?r with [] => _ | _ :: _ => _ end = Some _ |- _ => destruct r
  end; bool_inv; range_inv;
  [eapply (Hrec _ [b0]) | eapply (Hrec _ [b0; _]) | eapply (Hrec _ [b0; _; _])
  | eapply (Hrec _ [b0; _; _; _])];
  try exact H; try done; try (cbn; lia);
  try (split; [lia | apply between_false; lia]);
  unfold utf8_of_cp; repeat case_match; bool_inv; try lia; repeat f_equal; dlia.
Qed.

Lemma strip_bom_suffix bs : exists pre, bs = pre ++ strip_bom bs.
Proof.
  unfold strip_bom. repeat case_match; subst; try (by exists []).
  eexists [_; _; _]. done.
Qed.
Lemma textEncode_textDecode bs s : wf_bytes bs -> textDecode bs = Some s ->
  textEncode s = strip_bom bs /\ (length (code_points s) <= length bs)%nat.
Proof.
  intros Hw H. unfold textDecode in H.
  destruct (strip_bom_suffix bs) as [pre Hpre].
  assert (Hs : wf_bytes (strip_bom bs)).
  { unfold wf_bytes in *. rewrite Hpre in Hw. by apply Forall_app in Hw as [_ Hw]. }
  destruct (utf8_decode (strip_bom bs)) as [l|] eqn:E; simplify_eq/=.
  destruct (utf8_decode_exact _ _ Hs E) as [Hl Hc]. unfold textEncode.
  rewrite code_points_of by done. split.
  - rewrite <- Hc. f_equal. apply list_fmap_ext. intros i cp Hi. rewrite Forall_lookup in Hl.
    destruct (Hl i cp Hi) as [_ Hn]. unfold scalar_of_cp. by rewrite Hn.
  - rewrite Hpre, length_app, <- Hc. clear. induction l as [|cp l IH]; cbn; [lia|].
    rewrite length_app. assert (1 <= length (utf8_of_cp cp))%nat; [|lia].
    unfold utf8_of_cp. repeat case_match; cbn; lia.
Qed.
