(* ===== verification/Dates.v ===== *)
(** * Time stamps

    The registry stores points in time as the strings
    [Date.prototype.toISOString] produces and compares them after
    [Date.parse].  [toISOString] is the proleptic Gregorian calendar of
    ECMAScript.  [Date.parse] accepts further formats that depend on the
    runtime, so it is an interface whose law is the documented one: it inverts
    [toISOString].  [iso_runtime] is a runtime that accepts the ISO format and
    nothing else; it discharges the law. *)

From Stdlib Require Import ZArith Lia.
From stdpp Require Import base list strings.
From S2P Require Import Prelude Js.

Local Open Scope Z_scope.

Definition MS_PER_DAY : Z := 86400000.

(** ** The calendar *)

(** Days since 1970-01-01 to (year, month, day), by eras of 400 years that
    start on the first of March. *)
Definition civil_in_era (doe : Z) : Z * Z * Z :=
  let n100 := Z.min (doe / 36524) 3 in
  let r := doe - 36524 * n100 in
  let n4 := r / 1461 in
  let n1 := Z.min (r mod 1461 / 365) 3 in
  let yoe := 100 * n100 + 4 * n4 + n1 in
  let doy := r mod 1461 - 365 * n1 in
  let mp := (5 * doy + 2) / 153 in
  let d := doy - (153 * mp + 2) / 5 + 1 in
  let m := if mp <? 10 then mp + 3 else mp - 9 in
  ((if m <=? 2 then yoe + 1 else yoe), m, d).
Definition civil_from_days (z : Z) : Z * Z * Z :=
  let '(y, m, d) := civil_in_era ((z + 719468) mod 146097) in
  (y + 400 * ((z + 719468) / 146097), m, d).
Definition days_from_civil (y m d : Z) : Z :=
  let y' := if m <=? 2 then y - 1 else y in
  let yoe := y' mod 400 in
  let mp := (m + 9) mod 12 in
  let doy := (153 * mp + 2) / 5 + d - 1 in
  y' / 400 * 146097 + (yoe * 365 + yoe / 4 - yoe / 100 + doy) - 719468.

Definition digit (n : Z) : Z := 48 + n mod 10.
Definition pad2 (n : Z) : jstr := [digit (n / 10); digit n].
Definition pad3 (n : Z) : jstr := [digit (n / 100); digit (n / 10); digit n].
Definition pad4 (n : Z) : jstr := pad2 (n / 100) ++ pad2 n.
Definition pad6 (n : Z) : jstr := pad2 (n / 10000) ++ pad4 n.
(** Years outside 0..9999 have a sign and six digits. *)
Definition iso_year (y : Z) : jstr :=
  if between 0 y 9999 then pad4 y
  else if y <? 0 then 45 :: pad6 (- y) else 43 :: pad6 y.

Definition iso_date (days : Z) : jstr :=
  let '(y, m, d) := civil_from_days days in
  iso_year y ++ 45 :: pad2 m ++ 45 :: pad2 d.
Definition iso_time (t : Z) : jstr :=
  pad2 (t / 3600000) ++ 58 :: pad2 (t / 60000 mod 60) ++ 58 :: pad2 (t / 1000 mod 60) ++
  46 :: pad3 (t mod 1000) ++ [90].
(** [new Date(ms).toISOString()] for a valid time value. *)
Definition toISOString (ms : Z) : jstr :=
  iso_date (ms / MS_PER_DAY) ++ 84 :: iso_time (ms mod MS_PER_DAY).

(** A time value [new Date] accepts; outside of it [toISOString] throws. *)
Definition MAX_TIME_VALUE : Z := 8640000000000000.
Definition valid_time (ms : Z) : bool := between (- MAX_TIME_VALUE) ms MAX_TIME_VALUE.

(** The time values whose year has four digits. *)
Definition iso_range (ms : Z) : Prop := -62167219200000 <= ms <= 253402300799999.

(** ** The runtime's [Date.parse] *)

(** [dateParse s] is [None] where [Date.parse(s)] is [NaN]. *)
Class DateRuntime := {
  dateParse : jstr -> option Z;
}.
Class DateLaws (D : DateRuntime) : Prop := {
  dateParse_iso ms : iso_range ms -> dateParse (toISOString ms) = Some ms;
  dateParse_empty : dateParse [] = None;
}.

(** A runtime that reads the ISO format with a four digit year. *)
Definition val2 (a b : Z) : option Z :=
  if is_digit a && is_digit b then Some ((a - 48) * 10 + (b - 48)) else None.
Definition val3 (a b c : Z) : option Z :=
  match val2 a b, val2 48 c with
  | Some h, Some l => Some (h * 10 + l)
  | _, _ => None
  end.
Definition iso_parse (s : jstr) : option Z :=
  match s with
  | [y1; y2; y3; y4; 45; m1; m2; 45; d1; d2; 84; h1; h2; 58; n1; n2; 58; s1; s2; 46; f1; f2; f3; 90] =>
      yh ← val2 y1 y2; yl ← val2 y3 y4; m ← val2 m1 m2; d ← val2 d1 d2;
      h ← val2 h1 h2; n ← val2 n1 n2; sec ← val2 s1 s2; f ← val3 f1 f2 f3;
      Some (days_from_civil (yh * 100 + yl) m d * MS_PER_DAY
            + (h * 3600000 + n * 60000 + sec * 1000 + f))
  | _ => None
  end.
Definition iso_runtime : DateRuntime := {| dateParse := iso_parse |}.

(** ** Lemmas *)

(** A day of the year, counted from the first of March, as month and day. *)
Lemma month_spec doy :
  0 <= doy <= 365 ->
  let mp := (5 * doy + 2) / 153 in
  let d := doy - (153 * mp + 2) / 5 + 1 in
  0 <= mp <= 11 /\ 1 <= d <= 31 /\ (10 <= mp <-> 306 <= doy).
Proof. intros H. cbv zeta. dlia. Qed.

(** A day of an era as a year of the era and a day of that year. *)
Lemma year_spec doe :
  0 <= doe < 146097 ->
  let n100 := Z.min (doe / 36524) 3 in
  let r := doe - 36524 * n100 in
  let n1 := Z.min (r mod 1461 / 365) 3 in
  let yoe := 100 * n100 + 4 * (r / 1461) + n1 in
  let doy := r mod 1461 - 365 * n1 in
  0 <= yoe <= 399 /\ 0 <= doy <= 365 /\ doe = yoe * 365 + yoe / 4 - yoe / 100 + doy.
Proof.
  intros H. cbv zeta.
  assert (Hr : 0 <= Z.min (doe / 36524) 3 <= 3 /\
               0 <= doe - 36524 * Z.min (doe / 36524) 3 <= 36524) by dlia.
  revert Hr. generalize (Z.min (doe / 36524) 3) as n100. intros n100 [Hn Hr].
  assert (Hdoe : doe = 36524 * n100 + (doe - 36524 * n100)) by lia.
  revert Hr Hdoe. generalize (doe - 36524 * n100) as r. intros r Hr Hdoe.
  assert (Hd : 0 <= Z.min (r mod 1461 / 365) 3 <= 3 /\
               0 <= r mod 1461 - 365 * Z.min (r mod 1461 / 365) 3 <= 365) by dlia.
  revert Hd. generalize (Z.min (r mod 1461 / 365) 3) as n1. intros n1 Hd.
  assert (Hq : r = 1461 * (r / 1461) + r mod 1461 /\ 0 <= r / 1461 <= 24) by dlia.
  revert Hd Hq. generalize (r / 1461) as n4, (r mod 1461) as q. intros n4 q Hd Hq.
  assert ((100 * n100 + 4 * n4 + n1) / 4 = 25 * n100 + n4) by dlia.
  assert ((100 * n100 + 4 * n4 + n1) / 100 = n100) by dlia. lia.
Qed.

Lemma era_day doe :
  0 <= doe < 146097 ->
  let '(y, m, d) := civil_in_era doe in
  days_from_civil y m d = doe - 719468 /\ 1 <= m <= 12 /\ 1 <= d <= 31 /\
  0 <= y <= 400 /\ (y = 400 <-> 146037 <= doe).
Proof.
  intros H. unfold civil_in_era. pose proof (year_spec doe H) as Hy. cbv zeta in *.
  set (yoe := 100 * _ + _ + _) in *. set (doy := _ - 365 * _) in *. clearbody yoe doy.
  destruct Hy as (Hyoe & Hdoy & Hdoe).
  pose proof (month_spec doy Hdoy) as Hm. cbv zeta in Hm.
  set (mp := (5 * doy + 2) / 153) in *. clearbody mp.
  set (d := doy - (153 * mp + 2) / 5 + 1) in *.
  assert (Hd : (153 * mp + 2) / 5 + d - 1 = doy) by (unfold d; lia). clearbody d.
  unfold days_from_civil.
  destruct (mp <? 10) eqn:E; bool_inv.
  - rewrite (proj2 (Z.leb_gt (mp + 3) 2)) by lia.
    rewrite (Z.mod_small yoe 400), (Z.div_small yoe 400) by lia.
    replace ((mp + 3 + 9) mod 12) with mp by dlia. dlia.
  - rewrite (proj2 (Z.leb_le (mp - 9) 2)) by lia.
    replace (yoe + 1 - 1) with yoe by lia.
    rewrite (Z.mod_small yoe 400), (Z.div_small yoe 400) by lia.
    replace ((mp - 9 + 9) mod 12) with mp by dlia. dlia.
Qed.

Lemma days_from_civil_shift y m d k :
  days_from_civil (y + 400 * k) m d = days_from_civil y m d + 146097 * k.
Proof.
  unfold days_from_civil. destruct (m <=? 2).
  - replace (y + 400 * k - 1) with (y - 1 + k * 400) by lia.
    rewrite Z.mod_add, Z.div_add by lia. lia.
  - replace (y + 400 * k) with (y + k * 400) by lia.
    rewrite Z.mod_add, Z.div_add by lia. lia.
Qed.

Lemma civil_spec z :
  let '(y, m, d) := civil_from_days z in
  days_from_civil y m d = z /\ 1 <= m <= 12 /\ 1 <= d <= 31 /\
  (-719528 <= z <= 2932896 -> 0 <= y <= 9999).
Proof.
  unfold civil_from_days. set (doe := (z + 719468) mod 146097).
  set (era := (z + 719468) / 146097).
  assert (Hdoe : 0 <= doe < 146097) by (apply Z.mod_pos_bound; lia).
  assert (Hz : z + 719468 = 146097 * era + doe) by (apply Z.div_mod; lia).
  clearbody doe era.
  pose proof (era_day doe Hdoe) as H.
  destruct (civil_in_era doe) as [[y m] d].
  rewrite days_from_civil_shift. repeat split; lia.
Qed.

Lemma val2_pad n : 0 <= n < 100 -> val2 (digit (n / 10)) (digit n) = Some n.
Proof.
  intros Hn. unfold val2, digit, is_digit, between.
  rewrite (proj2 (Z.leb_le 48 _)), (proj2 (Z.leb_le _ 57)),
    (proj2 (Z.leb_le 48 (48 + n mod 10))), (proj2 (Z.leb_le (48 + n mod 10) 57)) by dlia.
  cbn. f_equal. dlia.
Qed.
Lemma val3_pad n :
  0 <= n < 1000 -> val3 (digit (n / 100)) (digit (n / 10)) (digit n) = Some n.
Proof.
  intros Hn. unfold val3.
  assert (H1 : val2 (digit (n / 100)) (digit (n / 10)) = Some (n / 10)).
  { replace (n / 100) with (n / 10 / 10) by dlia.
    apply val2_pad. dlia. }
  assert (H2 : val2 48 (digit n) = Some (n mod 10)).
  { unfold val2, digit, is_digit, between.
    rewrite (proj2 (Z.leb_le 48 (48 + n mod 10))), (proj2 (Z.leb_le (48 + n mod 10) 57)) by dlia.
    cbn. f_equal. lia. }
  rewrite H1, H2. f_equal. dlia.
Qed.

#[export] Instance iso_runtime_laws : DateLaws iso_runtime.
Proof.
  split; [|reflexivity]. intros ms Hms. unfold dateParse, iso_runtime, toISOString, iso_date.
  assert (Hdays : -719528 <= ms / MS_PER_DAY <= 2932896) by (unfold MS_PER_DAY, iso_range in *; dlia).
  pose proof (civil_spec (ms / MS_PER_DAY)) as Hc.
  destruct (civil_from_days (ms / MS_PER_DAY)) as [[y m] d].
  destruct Hc as (Hd & Hm & Hday & Hy). specialize (Hy Hdays).
  unfold iso_year. rewrite (proj2 (between_spec 0 y 9999)) by lia.
  set (t := ms mod MS_PER_DAY).
  assert (Ht : 0 <= t < MS_PER_DAY) by (apply Z.mod_pos_bound; done).
  assert (Hsplit : ms = ms / MS_PER_DAY * MS_PER_DAY + t) by (unfold t, MS_PER_DAY; dlia).
  unfold MS_PER_DAY in Ht.
  unfold iso_time, pad4, pad2, pad3. cbn [app iso_parse].
  assert (Hyl : val2 (digit (y / 10)) (digit y) = Some (y mod 100)).
  { transitivity (val2 (digit (y mod 100 / 10)) (digit (y mod 100))).
    - unfold digit. f_equal; f_equal; dlia.
    - apply val2_pad. dlia. }
  rewrite (val2_pad (y / 100)), Hyl, (val2_pad m), (val2_pad d), (val2_pad (t / 3600000)),
    (val2_pad (t / 60000 mod 60)), (val2_pad (t / 1000 mod 60)), (val3_pad (t mod 1000)) by dlia.
  cbn [mbind option_bind]. f_equal.
  replace (y / 100 * 100 + y mod 100) with y by dlia.
  rewrite Hd. fold t. rewrite Hsplit. clearbody t. unfold MS_PER_DAY. clear -Ht. dlia.
Qed.

Lemma toISOString_nonempty ms : toISOString ms <> [].
Proof. unfold toISOString. by destruct (iso_date _). Qed.

(** Two points in time have the same calendar day string only on the same day. *)
Lemma iso_date_inj a b :
  -719528 <= a <= 2932896 -> -719528 <= b <= 2932896 -> iso_date a = iso_date b -> a = b.
Proof.
  intros Ha Hb. unfold iso_date.
  pose proof (civil_spec a) as Ca. pose proof (civil_spec b) as Cb.
  destruct (civil_from_days a) as [[y m] d], (civil_from_days b) as [[y' m'] d'].
  destruct Ca as (Da & Hm & Hd & Hy), Cb as (Db & Hm' & Hd' & Hy').
  specialize (Hy Ha). specialize (Hy' Hb).
  unfold iso_year. rewrite !(proj2 (between_spec 0 _ 9999)) by lia.
  unfold pad4, pad2, digit. cbn [app]. intros [= ].
  assert (y = y') by dlia. assert (m = m') by dlia. assert (d = d') by dlia. subst. lia.
Qed.

Example iso_epoch : toISOString 0 = js "1970-01-01T00:00:00.000Z".
Proof. reflexivity. Qed.
Example iso_leap : toISOString 1709164800123 = js "2024-02-29T00:00:00.123Z".
Proof. reflexivity. Qed.
