(* ===== verification/Base64.v ===== *)
(** * Canonical base64

    The base64 layer of [packages/storage/src/bundle.ts]: [encodeBase64],
    [base64Sextet], [isCanonicalBase64] and [decodeBase64], over the runtime's
    [btoa] and forgiving [atob].  The theorems show that the linear scan of
    [isCanonicalBase64] accepts exactly the encodings of byte strings and that
    decoding inverts encoding, so a file's content has one wire spelling. *)

From Stdlib Require Import ZArith Lia.
From stdpp Require Import base list strings sets.
From S2P Require Import Prelude Js.

Local Open Scope Z_scope.

(** ** The runtime's [btoa] and [atob] *)

Definition b64char (n : Z) : Z :=
  if n <? 26 then n + 65
  else if n <? 52 then n + 71
  else if n <? 62 then n - 4
  else if n =? 62 then 43 else 47.

Fixpoint btoa (l : list Z) : jstr :=
  match l with
  | [] => []
  | [a] => [b64char (a / 4); b64char (a mod 4 * 16); 61; 61]
  | [a; b] => [b64char (a / 4); b64char (a mod 4 * 16 + b / 16); b64char (b mod 16 * 4); 61]
  | a :: b :: c :: r =>
      b64char (a / 4) :: b64char (a mod 4 * 16 + b / 16) ::
      b64char (b mod 16 * 4 + c / 64) :: b64char (c mod 64) :: btoa r
  end.

Definition base64Sextet (code : Z) : Z :=
  if (0x41 <=? code) && (code <=? 0x5a) then code - 0x41
  else if (0x61 <=? code) && (code <=? 0x7a) then code - 0x61 + 26
  else if (0x30 <=? code) && (code <=? 0x39) then code - 0x30 + 52
  else if code =? 0x2b then 62
  else if code =? 0x2f then 63
  else -1.

Fixpoint sextets_bytes (q : list Z) : list Z :=
  match q with
  | a :: b :: c :: d :: r =>
      (a * 4 + b / 16) :: (b mod 16 * 16 + c / 4) :: (c mod 4 * 64 + d) :: sextets_bytes r
  | [a; b; c] => [a * 4 + b / 16; b mod 16 * 16 + c / 4]
  | [a; b] => [a * 4 + b / 16]
  | _ => []
  end.

(** Infra's forgiving-base64 decode: ASCII whitespace is dropped, then at most
    two padding signs of a full quantum. *)
Definition is_ascii_space (c : Z) : bool :=
  (c =? 9) || (c =? 10) || (c =? 12) || (c =? 13) || (c =? 32).
Definition strip_padding (s : jstr) : jstr :=
  if jlen s mod 4 =? 0 then
    match reverse s with
    | c :: r =>
        if c =? 61 then
          match r with
          | d :: r' => if d =? 61 then reverse r' else reverse r
          | [] => []
          end
        else s
    | [] => s
    end
  else s.
Definition atob (s : jstr) : option (list Z) :=
  let data := strip_padding (filter (fun c => is_ascii_space c = false) s) in
  if jlen data mod 4 =? 1 then None
  else if forallb (fun c => 0 <=? base64Sextet c) data
       then Some (sextets_bytes (base64Sextet <$> data))
       else None.

(** ** The source's functions *)

(** The loop of [encodeBase64]: [String.fromCharCode] over chunks of 0x8000
    bytes, concatenated, then [btoa]. *)
Definition chunkSize : nat := Z.to_nat 0x8000.
Fixpoint binary_chunks (fuel : nat) (bytes : list Z) : jstr :=
  match fuel with
  | O => []
  | S fuel' =>
      match bytes with
      | [] => []
      | _ => take chunkSize bytes ++ binary_chunks fuel' (drop chunkSize bytes)
      end
  end.
Definition encodeBase64 (bytes : list Z) : jstr := btoa (binary_chunks (length bytes) bytes).

(** The scan of [isCanonicalBase64]: [None] is an early [return false], [Some]
    the padding count at the end. *)
Fixpoint base64_scan (index len padding : Z) (s : jstr) : option Z :=
  match s with
  | [] => Some padding
  | code :: r =>
      if code =? 0x3d then
        if (index <? len - 2) || (2 <? padding + 1) then None
        else base64_scan (index + 1) len (padding + 1) r
      else if (0 <? padding) || (base64Sextet code <? 0) then None
      else base64_scan (index + 1) len padding r
  end.

Definition isCanonicalBase64 (value : jstr) : bool :=
  if jlen value =? 0 then true
  else if negb (jlen value mod 4 =? 0) then false
  else match base64_scan 0 (jlen value) 0 value with
       | None => false
       | Some padding =>
           if padding =? 0 then true
           else
             let finalSextet :=
               base64Sextet (default (-1) (charCodeAt value (Z.to_nat (jlen value - padding - 1)))) in
             let unusedBits := if padding =? 2 then 4 else 2 in
             (0 <=? finalSextet) &&
             (Z.land finalSextet (Z.shiftl 1 unusedBits - 1) =? 0)
       end.

(** ** Lemmas *)

Lemma b64char_sextet n : 0 <= n < 64 -> base64Sextet (b64char n) = n.
Proof.
  intros Hn. unfold b64char, base64Sextet.
  repeat case_match; bool_inv; try lia.
Qed.

Lemma sextet_b64char c : 0 <= base64Sextet c -> b64char (base64Sextet c) = c.
Proof.
  unfold b64char, base64Sextet. repeat case_match; bool_inv; lia.
Qed.

Lemma sextet_range c : base64Sextet c < 64.
Proof. unfold base64Sextet. repeat case_match; bool_inv; lia. Qed.

Lemma b64char_ne n : 0 <= n < 64 -> b64char n <> 61 /\ is_ascii_space (b64char n) = false.
Proof.
  intros Hn. split; unfold b64char, is_ascii_space; repeat case_match; bool_inv; lia.
Qed.

Lemma binary_chunks_id fuel bytes :
  (length bytes <= fuel)%nat -> binary_chunks fuel bytes = bytes.
Proof.
  revert bytes; induction fuel as [|fuel IH]; intros bytes H; cbn.
  - by destruct bytes; cbn in H; [|lia].
  - destruct bytes as [|b bytes]; [done|].
    rewrite IH; [by rewrite take_drop|].
    rewrite length_drop. cbn [length] in *. unfold chunkSize. lia.
Qed.

Lemma encodeBase64_btoa bytes : encodeBase64 bytes = btoa bytes.
Proof. unfold encodeBase64. by rewrite binary_chunks_id. Qed.

(** What the padded spelling of a list of sextets is, when its spare bits are 0. *)
Definition spare_bits_zero (q : list Z) : Prop :=
  match (length q mod 4)%nat with
  | 1%nat => False
  | 2%nat => default 0 (last q) mod 16 = 0
  | 3%nat => default 0 (last q) mod 4 = 0
  | _ => True
  end.
Definition pad_count (q : list Z) : nat :=
  match (length q mod 4)%nat with
  | 2%nat => 2
  | 3%nat => 1
  | _ => 0
  end.

Lemma mod4_SSSS n : (S (S (S (S n))) mod 4 = n mod 4)%nat.
Proof.
  replace (S (S (S (S n)))) with (n + 1 * 4)%nat by lia. apply Nat.Div0.mod_add.
Qed.

Lemma last_quad {A} (a b c d : A) l :
  l <> [] -> last (a :: b :: c :: d :: l) = last l.
Proof. intros H. destruct l as [|x l]; [done|]. done. Qed.

Lemma btoa_sextets (q : list Z) :
  Forall (fun n => 0 <= n < 64) q -> spare_bits_zero q ->
  btoa (sextets_bytes q) = (b64char <$> q) ++ replicate (pad_count q) 61 /\
  wf_bytes (sextets_bytes q).
Proof.
  unfold spare_bits_zero, pad_count, wf_bytes.
  induction q as [|a|a b|a b c|a b c d l IH] using list_quad_ind; intros Hq Hs;
    repeat match goal with H : Forall _ (_ :: _) |- _ => inversion_clear H end.
  - by split.
  - done.
  - cbn in Hs. split; [|repeat constructor; dlia].
    cbn. do 2 f_equal; [f_equal; dlia|f_equal; f_equal; dlia].
  - cbn in Hs. split; [|repeat constructor; dlia].
    cbn. f_equal; [f_equal; dlia|]. f_equal; [f_equal; dlia|]. f_equal; f_equal; dlia.
  - cbn [length] in *. rewrite mod4_SSSS in *.
    destruct IH as [IH1 IH2]; [done| |].
    { destruct l as [|x l']; [done|]. exact Hs. }
    split.
    + cbn [sextets_bytes btoa fmap list_fmap app]. rewrite IH1.
      cbn. f_equal; [f_equal; dlia|]. f_equal; [f_equal; dlia|].
      f_equal; [f_equal; dlia|]. f_equal; f_equal; dlia.
    + cbn [sextets_bytes]. repeat (constructor; [dlia|]). done.
Qed.

Lemma btoa_quad (bs : list Z) :
  wf_bytes bs ->
  exists q, Forall (fun n => 0 <= n < 64) q /\ spare_bits_zero q /\ sextets_bytes q = bs.
Proof.
  unfold wf_bytes, spare_bits_zero.
  induction bs as [|a|a b|a b c l IH] using list_triple_ind; intros Hb;
    repeat match goal with H : Forall _ (_ :: _) |- _ => inversion_clear H end.
  - by exists [].
  - exists [a / 4; a mod 4 * 16]. split; [repeat constructor; dlia|].
    split; cbn; [|f_equal]; dlia.
  - exists [a / 4; a mod 4 * 16 + b / 16; b mod 16 * 4].
    split; [repeat constructor; dlia|]. split; cbn; [|f_equal; [|f_equal]]; dlia.
  - destruct IH as (q & Hq & Hs & Hl); [done|].
    exists ([a / 4; a mod 4 * 16 + b / 16; b mod 16 * 4 + c / 64; c mod 64] ++ q).
    split; [repeat (constructor; [dlia|]); done|]. split.
    + cbn [app length]. rewrite mod4_SSSS. destruct q; [done|]. exact Hs.
    + cbn. rewrite Hl. f_equal; [|f_equal; [|f_equal]]; dlia.
Qed.


Definition b64_data (data : jstr) : Prop := Forall (fun c => 0 <= base64Sextet c) data.

(** The scan succeeds exactly on data followed by at most two padding signs. *)
Lemma base64_scan_sound s index len padding p :
  base64_scan index len padding s = Some p -> 0 <= padding ->
  exists data, s = data ++ replicate (Z.to_nat (p - padding)) 61 /\ b64_data data /\
    padding <= p /\ (0 < padding -> data = []) /\ (padding <= 2 -> p <= 2).
Proof.
  revert index padding. induction s as [|code r IH]; intros index padding H Hp; cbn in H.
  { injection H as <-. exists []. rewrite Z.sub_diag. repeat split; try done; try lia.
    constructor. }
  destruct (code =? 61) eqn:E; bool_inv.
  - subst code. destruct (_ || _) eqn:G; [done|]. bool_inv.
    destruct (IH _ _ H) as (data & Hr & _ & Hle & Hnil & Hp2); [lia|].
    rewrite Hnil in Hr by lia. exists []. split.
    + rewrite Hr. replace (Z.to_nat (p - padding)) with (S (Z.to_nat (p - (padding + 1)))) by lia.
      done.
    + repeat split; try lia; constructor.
  - destruct (_ || _) eqn:G; [done|]. bool_inv.
    destruct (IH _ _ H) as (data & Hr & Hd & Hle & Hnil & Hp2); [lia|].
    exists (code :: data). rewrite Hr. repeat split; try done; try lia.
    constructor; [lia | done].
Qed.

Lemma base64_scan_complete data p index :
  b64_data data -> (p <= 2)%nat ->
  base64_scan index (index + jlen data + Z.of_nat p) 0 (data ++ replicate p 61) = Some (Z.of_nat p).
Proof.
  intros Hd Hp. revert index; induction Hd as [|c data Hc Hd IH]; intros index.
  - unfold jlen. cbn [app length].
    destruct p as [|[|[|p]]]; [done| | |lia]; cbn.
    + by rewrite (proj2 (Z.ltb_ge _ _)) by lia.
    + rewrite (proj2 (Z.ltb_ge index _)) by lia. cbn.
      by rewrite (proj2 (Z.ltb_ge (index + 1) _)) by lia.
  - cbn [app base64_scan].
    assert (c <> 61) by (intros ->; done).
    rewrite (proj2 (Z.eqb_neq _ _)) by done.
    rewrite (proj2 (Z.ltb_ge (base64Sextet c) 0)) by lia. cbn.
    rewrite <- (IH (index + 1)). f_equal. unfold jlen. cbn [length]. lia.
Qed.

Lemma sextets_of_data data :
  b64_data data ->
  b64char <$> (base64Sextet <$> data) = data /\
  Forall (fun n => 0 <= n < 64) (base64Sextet <$> data).
Proof.
  induction 1 as [|c data Hc Hd [IH1 IH2]]; cbn; [by split|].
  rewrite IH1, sextet_b64char by done. split; [done|].
  constructor; [pose proof (sextet_range c); lia | done].
Qed.

Lemma data_of_sextets q :
  Forall (fun n => 0 <= n < 64) q -> b64_data (b64char <$> q) /\ base64Sextet <$> (b64char <$> q) = q.
Proof.
  induction 1 as [|n q Hn Hq [IH1 IH2]]; cbn; [by split; [constructor|]|].
  rewrite IH2, b64char_sextet by done. split; [|done].
  constructor; [|done]. rewrite b64char_sextet; lia.
Qed.

Lemma land_mask n u : 0 <= u -> (Z.land n (Z.shiftl 1 u - 1) =? 0) = (n mod 2 ^ u =? 0).
Proof.
  intros Hu. rewrite Z.shiftl_1_l. rewrite <- Z.land_ones by done.
  by rewrite Z.ones_equiv, Z.sub_1_r.
Qed.

Lemma pad_count_cases q :
  spare_bits_zero q -> (pad_count q <= 2)%nat /\ ((length q + pad_count q) mod 4 = 0)%nat.
Proof.
  unfold spare_bits_zero, pad_count. intros H.
  pose proof (Nat.mod_upper_bound (length q) 4 ltac:(lia)).
  rewrite <- Nat.Div0.add_mod_idemp_l.
  destruct (length q mod 4)%nat as [|[|[|[|]]]]; try done; try (split; [lia|done]). lia.
Qed.

Lemma final_unit data p :
  data <> [] ->
  charCodeAt (data ++ replicate p 61) (Z.to_nat (jlen (data ++ replicate p 61) - Z.of_nat p - 1))
  = last data.
Proof.
  intros Hne. unfold charCodeAt, jlen. rewrite length_app, length_replicate.
  destruct data as [|x data] using rev_ind; [done|].
  rewrite last_snoc, length_app. cbn [length].
  rewrite lookup_app_l by (rewrite length_app; cbn; lia).
  rewrite lookup_app_r by lia.
  replace (_ - _)%nat with 0%nat by lia. done.
Qed.

Lemma jlen_app s t : jlen (s ++ t) = jlen s + jlen t.
Proof. unfold jlen. rewrite length_app. lia. Qed.

Lemma jlen_mod4 (s : jstr) : (jlen s mod 4 =? 0) = (length s mod 4 =? 0)%nat.
Proof.
  unfold jlen. change 4 with (Z.of_nat 4). rewrite <- Nat2Z.inj_mod.
  destruct (Nat.eqb_spec (length s mod 4) 0) as [->|H]; [done|].
  apply Z.eqb_neq. lia.
Qed.

(** [isCanonicalBase64] accepts data with zero spare bits and its padding. *)
Lemma isCanonicalBase64_intro q :
  Forall (fun n => 0 <= n < 64) q -> spare_bits_zero q ->
  isCanonicalBase64 ((b64char <$> q) ++ replicate (pad_count q) 61) = true.
Proof.
  intros Hq Hs. destruct (pad_count_cases q Hs) as [Hp Hmod].
  destruct (data_of_sextets q Hq) as [Hd Hqd].
  unfold isCanonicalBase64. destruct (_ =? 0) eqn:E0; [done|].
  rewrite jlen_mod4, length_app, length_fmap, length_replicate, Hmod. cbn [negb Nat.eqb].
  rewrite jlen_app at 1. unfold jlen at 2. rewrite length_replicate.
  rewrite <- (Z.add_0_l (jlen _)), (base64_scan_complete _ _ 0) by done.
  destruct (Z.of_nat (pad_count q) =? 0) eqn:E1; [done|]. bool_inv.
  unfold spare_bits_zero, pad_count in *.
  destruct q as [|x q'] eqn:Eq; [done|]. rewrite <- Eq in *.
  rewrite final_unit by (by subst q). rewrite fmap_last.
  destruct (last q) as [z|] eqn:El; [|by apply last_None in El; subst].
  assert (Hz : 0 <= z < 64).
  { rewrite Forall_forall in Hq. apply Hq. by apply last_Some_elem_of. }
  cbn [fmap option_fmap option_map default from_option id]. rewrite b64char_sextet by done.
  rewrite land_mask by (by destruct (_ =? 2)).
  destruct (length q mod 4)%nat as [|[|[|[|]]]]; try done; cbn in *;
    rewrite (proj2 (Z.leb_le 0 z)) by lia; cbn; by apply Z.eqb_eq.
Qed.

Lemma isCanonicalBase64_elim s :
  isCanonicalBase64 s = true ->
  exists q, Forall (fun n => 0 <= n < 64) q /\ spare_bits_zero q /\
    s = (b64char <$> q) ++ replicate (pad_count q) 61.
Proof.
  unfold isCanonicalBase64. destruct (jlen s =? 0) eqn:E0.
  { bool_inv. destruct s; [|unfold jlen in E0; cbn in E0; lia]. intros _. by exists []. }
  rewrite jlen_mod4. destruct (negb _) eqn:Em; [done|]. bool_inv. apply Nat.eqb_eq in Em.
  destruct (base64_scan _ _ _ _) as [p|] eqn:Es; [|done]. intros H.
  apply base64_scan_sound in Es as (data & -> & Hd & Hle & _ & Hp2); [|lia].
  rewrite Z.sub_0_r in *. specialize (Hp2 ltac:(lia)).
  destruct (sextets_of_data data Hd) as [Hq Hr].
  exists (base64Sextet <$> data). split; [done|]. rewrite Hq.
  rewrite length_app, length_replicate in Em.
  unfold spare_bits_zero, pad_count. rewrite length_fmap, fmap_last.
  pose proof (Nat.mod_upper_bound (length data) 4 ltac:(lia)) as Hub.
  rewrite <- Nat.Div0.add_mod_idemp_l in Em.
  destruct (p =? 0) eqn:Ep; bool_inv.
  { subst p. rewrite Nat.add_0_r in Em. cbn [Z.to_nat] in *.
    rewrite Nat.Div0.mod_mod in Em. by rewrite Em. }
  destruct data as [|x data'] eqn:Edata.
  { by assert (p = 1 \/ p = 2) as [-> | ->] by lia. }
  rewrite <- Edata in *.
  pose proof (final_unit data (Z.to_nat p) ltac:(by subst)) as Hf.
  rewrite Z2Nat.id in Hf by lia. cbv zeta in H. rewrite Hf in H.
  destruct (last data) as [z|] eqn:El; [|by apply last_None in El; subst].
  cbn [default from_option id fmap option_fmap option_map] in *.
  apply Z.eqb_eq in H. rewrite land_mask in H by (by destruct (_ =? 2)).
  assert (Hcase : p = 1 \/ p = 2) by lia.
  destruct Hcase as [-> | ->]; cbn in H; bool_inv;
    change (Z.to_nat 1) with 1%nat in *; change (Z.to_nat 2) with 2%nat in *;
    destruct (length data mod 4)%nat as [|[|[|[|]]]]; cbn in Em; try lia; done.
Qed.

(** ** Theorems *)

(** The scan accepts exactly the base64 encodings of byte strings. *)
Lemma canonical_iff_encoding s :
  isCanonicalBase64 s = true <-> exists bytes, wf_bytes bytes /\ s = btoa bytes.
Proof.
  split.
  - intros (q & Hq & Hs & ->)%isCanonicalBase64_elim.
    destruct (btoa_sextets q Hq Hs) as [Hb Hw]. eauto.
  - intros (bytes & Hw & ->). destruct (btoa_quad bytes Hw) as (q & Hq & Hs & <-).
    destruct (btoa_sextets q Hq Hs) as [-> _]. by apply isCanonicalBase64_intro.
Qed.

Lemma filter_all {A} (P : A -> Prop) `{!forall x, Decision (P x)} (l : list A) :
  Forall P l -> filter P l = l.
Proof.
  induction 1 as [|x l Hx Hl IH]; [done|].
  by rewrite filter_cons_True, IH.
Qed.

Lemma atob_btoa bytes : wf_bytes bytes -> atob (btoa bytes) = Some bytes.
Proof.
  intros Hw. destruct (btoa_quad bytes Hw) as (q & Hq & Hs & <-).
  destruct (btoa_sextets q Hq Hs) as [-> _].
  destruct (pad_count_cases q Hs) as [Hp Hmod].
  destruct (data_of_sextets q Hq) as [Hd Hqd].
  unfold atob. rewrite filter_all.
  2:{ apply Forall_app. split.
      - rewrite Forall_fmap. eapply Forall_impl; [exact Hq|]. intros n Hn.
        by apply b64char_ne.
      - apply Forall_replicate. done. }
  assert (Hhd : forall x r, reverse (b64char <$> q) = x :: r -> (x =? 61) = false).
  { intros x r Er.
    assert (Hx : x ∈ b64char <$> q) by (apply elem_of_reverse; rewrite Er; by left).
    apply list_elem_of_fmap in Hx as (n & -> & Hn).
    rewrite Forall_forall in Hq. by apply Z.eqb_neq, b64char_ne, Hq. }
  assert (Hstrip : strip_padding ((b64char <$> q) ++ replicate (pad_count q) 61) = b64char <$> q).
  { unfold strip_padding. rewrite jlen_mod4, length_app, length_fmap, length_replicate, Hmod.
    cbn [Nat.eqb]. rewrite reverse_app.
    destruct (pad_count q) as [|[|[|]]] eqn:Epad; [| | |lia].
    - cbn [replicate]. rewrite reverse_nil, app_nil_r.
      destruct (reverse (b64char <$> q)) as [|x r] eqn:Er; [done|].
      cbn [app]. by rewrite (Hhd x r).
    - change (reverse (replicate 1 61)) with [61]. cbn [app].
      destruct (reverse (b64char <$> q)) as [|x r] eqn:Er.
      + by apply (f_equal reverse) in Er; rewrite reverse_involutive in Er.
      + cbn -[Z.eqb reverse]. rewrite (Hhd x r), <- Er by done. by rewrite reverse_involutive.
    - change (reverse (replicate 2 61)) with [61; 61].
      cbn -[reverse]. by rewrite reverse_involutive. }
  rewrite Hstrip, Hqd. unfold jlen. rewrite length_fmap.
  destruct (_ =? 1) eqn:E1.
  { bool_inv. exfalso. unfold spare_bits_zero in Hs.
    assert (length q mod 4 = 1)%nat as E2 by (change 4 with (Z.of_nat 4) in E1; rewrite <- Nat2Z.inj_mod in E1; lia).
    by rewrite E2 in Hs. }
  assert (forallb (fun c => 0 <=? base64Sextet c) (b64char <$> q) = true) as ->; [|done].
  apply Is_true_true, forallb_True. eapply Forall_impl; [exact Hd|].
  intros c Hc. by apply Is_true_true, Z.leb_le.
Qed.

Lemma btoa_inj b1 b2 : wf_bytes b1 -> wf_bytes b2 -> btoa b1 = btoa b2 -> b1 = b2.
Proof.
  intros H1 H2 H. apply (f_equal atob) in H.
  rewrite !atob_btoa in H by done. by injection H.
Qed.

Lemma length_btoa bytes : jlen (btoa bytes) = (jlen bytes + 2) / 3 * 4.
Proof.
  unfold jlen. induction bytes as [|a|a b|a b c l IH] using list_triple_ind; try done.
  cbn [btoa length] in *. dlia.
Qed.

Lemma btoa_ascii bytes : wf_bytes bytes -> Forall is_ascii (btoa bytes).
Proof.
  assert (Hc : forall n, 0 <= n < 64 -> is_ascii (b64char n)).
  { intros n Hn. unfold is_ascii, b64char. repeat case_match; bool_inv; lia. }
  intros Hw. destruct (btoa_quad bytes Hw) as (q & Hq & Hs & <-).
  destruct (btoa_sextets q Hq Hs) as [-> _]. apply Forall_app. split.
  - rewrite Forall_fmap. eapply Forall_impl; [exact Hq|]. intros n Hn. by apply Hc.
  - by apply Forall_replicate.
Qed.
