(* ===== verification/Json.v ===== *)
(** * JSON as the runtime reads and writes it

    [JSON.stringify] on the data the sources serialise ([null], strings, booleans,
    arrays, objects) and [JSON.parse] on arbitrary text.  The serialiser is the
    well-formed one of ES2019, which escapes lone surrogates; the parser is a
    recursive descent whose fuel is shown to be irrelevant once it exceeds
    twice the input length.  Numbers are rounded to binary64 with the Standard
    Library's [SpecFloat].  The main theorem is that parsing inverts
    serialising. *)

From Stdlib Require Import ZArith Lia SpecFloat.
From stdpp Require Import base list strings sets.
From S2P Require Import Prelude Js.

Local Open Scope Z_scope.

(** ** Serialisable data *)

Inductive jdata : Type :=
| TNull
| TStr (s : jstr)
| TBool (b : bool)
| TArr (l : list jdata)
| TObj (l : list (jstr * jdata)).

Fixpoint jdata_rect' (P : jdata -> Prop) (HN : P TNull) (HS : forall s, P (TStr s)) (HB : forall b, P (TBool b))
    (HA : forall l, Forall P l -> P (TArr l))
    (HO : forall l, Forall (fun kv => P kv.2) l -> P (TObj l)) (t : jdata) : P t :=
  match t with
  | TNull => HN
  | TStr s => HS s
  | TBool b => HB b
  | TArr l =>
      HA l ((fix go (l : list jdata) : Forall P l :=
        match l with
        | [] => Forall_nil_2 _
        | x :: l' => Forall_cons_2 _ _ _ (jdata_rect' P HN HS HB HA HO x) (go l')
        end) l)
  | TObj l =>
      HO l ((fix go (l : list (jstr * jdata)) : Forall (fun kv => P kv.2) l :=
        match l with
        | [] => Forall_nil_2 _
        | x :: l' =>
            Forall_cons_2 (fun kv => P kv.2) _ _ (jdata_rect' P HN HS HB HA HO x.2) (go l')
        end) l)
  end.

(** The JavaScript value the data stands for. *)
Fixpoint embed (t : jdata) : jsval :=
  match t with
  | TNull => JNull
  | TStr s => JStr s
  | TBool b => JBool b
  | TArr l => JArr (embed <$> l)
  | TObj l => JObj ((fun kv => (kv.1, embed kv.2)) <$> l)
  end.

(** ** Serialisation *)

Definition hexdigit (n : Z) : Z := if n <? 10 then 48 + n else 87 + n.
Definition unicode_escape (c : Z) : jstr :=
  [92; 117; hexdigit (c / 4096 mod 16); hexdigit (c / 256 mod 16); hexdigit (c / 16 mod 16);
   hexdigit (c mod 16)].
Definition quote_unit (c : Z) : jstr :=
  if c =? 34 then [92; 34]
  else if c =? 92 then [92; 92]
  else if c =? 8 then [92; 98]
  else if c =? 9 then [92; 116]
  else if c =? 10 then [92; 110]
  else if c =? 12 then [92; 102]
  else if c =? 13 then [92; 114]
  else if c <? 32 then unicode_escape c
  else [c].

Fixpoint quote_body (s : jstr) : jstr :=
  match s with
  | [] => []
  | c :: r =>
      if is_high c then
        match r with
        | d :: r' =>
            if is_low d then c :: d :: quote_body r' else unicode_escape c ++ quote_body r
        | [] => unicode_escape c
        end
      else if is_low c then unicode_escape c ++ quote_body r
      else quote_unit c ++ quote_body r
  end.
Definition quote (s : jstr) : jstr := 34 :: quote_body s ++ [34].
#[global] Arguments quote : simpl never.

Fixpoint stringify (t : jdata) : jstr :=
  match t with
  | TNull => js "null"
  | TStr s => quote s
  | TBool b => if b then js "true" else js "false"
  | TArr l => 91 :: join [44] (stringify <$> l) ++ [93]
  | TObj l =>
      123 :: join [44] ((fun kv => quote kv.1 ++ 58 :: stringify kv.2) <$> l) ++ [125]
  end.

(** ** Parsing *)

Definition is_json_space (c : Z) : bool := (c =? 32) || (c =? 9) || (c =? 10) || (c =? 13).
Fixpoint skip_ws (s : jstr) : jstr :=
  match s with
  | c :: r => if is_json_space c then skip_ws r else s
  | [] => []
  end.

Definition hexval (c : Z) : option Z :=
  if between 48 c 57 then Some (c - 48)
  else if between 97 c 102 then Some (c - 87)
  else if between 65 c 70 then Some (c - 55)
  else None.
Definition hex4 (a b c d : Z) : option Z :=
  match hexval a, hexval b, hexval c, hexval d with
  | Some w, Some x, Some y, Some z => Some (w * 4096 + x * 256 + y * 16 + z)
  | _, _, _, _ => None
  end.
Definition unescape (e : Z) : option Z :=
  if e =? 34 then Some 34
  else if e =? 92 then Some 92
  else if e =? 47 then Some 47
  else if e =? 98 then Some 8
  else if e =? 102 then Some 12
  else if e =? 110 then Some 10
  else if e =? 114 then Some 13
  else if e =? 116 then Some 9
  else None.

Definition push (u : Z) (p : option (jstr * jstr)) : option (jstr * jstr) :=
  match p with
  | Some (s, r) => Some (u :: s, r)
  | None => None
  end.

(** The characters of a string literal after its opening quote. *)
Fixpoint parse_string (s : jstr) : option (jstr * jstr) :=
  match s with
  | [] => None
  | c :: r =>
      if c =? 34 then Some ([], r)
      else if c <? 32 then None
      else if c =? 92 then
        match r with
        | [] => None
        | e :: r1 =>
            if e =? 117 then
              match r1 with
              | h1 :: h2 :: h3 :: h4 :: r2 =>
                  match hex4 h1 h2 h3 h4 with
                  | Some u => push u (parse_string r2)
                  | None => None
                  end
              | _ => None
              end
            else match unescape e with
                 | Some u => push u (parse_string r1)
                 | None => None
                 end
        end
      else push c (parse_string r)
  end.

Fixpoint span_digits (s : jstr) : jstr * jstr :=
  match s with
  | c :: r => if is_digit c then let '(d, r') := span_digits r in (c :: d, r') else ([], s)
  | [] => ([], [])
  end.
Definition digits_value (d : jstr) : Z := foldl (fun acc c => acc * 10 + (c - 48)) 0 d.

(** The binary64 value nearest to [(-1)^neg * m * 10^e]. *)
Definition decimal_value (neg : bool) (m e : Z) : spec_float :=
  if m =? 0 then S754_zero neg
  else if 0 <=? e then binary_normalize 53 1024 (if neg then - (m * 10 ^ e) else m * 10 ^ e) 0 neg
  else let '(q, e', loc) := SFdiv_core_binary 53 1024 m 0 (10 ^ (- e)) 0 in
       binary_round_aux 53 1024 neg q e' loc.

Definition parse_number (s : jstr) : option (spec_float * jstr) :=
  let '(neg, s1) := match s with
                    | c :: r => if c =? 45 then (true, r) else (false, s)
                    | [] => (false, [])
                    end in
  let '(int, s2) := span_digits s1 in
  match int with
  | [] => None
  | d :: ds =>
      if (d =? 48) && negb (bool_decide (ds = [])) then None
      else
        let frac_part :=
          match s2 with
          | c :: r => if c =? 46 then
                        match span_digits r with
                        | ([], _) => None
                        | (f, r') => Some (f, r')
                        end
                      else Some ([], s2)
          | [] => Some ([], [])
          end in
        match frac_part with
        | None => None
        | Some (frac, s3) =>
            let value exp := decimal_value neg (digits_value (int ++ frac)) (exp - jlen frac) in
            match s3 with
            | c :: r =>
                if (c =? 101) || (c =? 69) then
                  let '(eneg, r1) := match r with
                                     | x :: r' => if x =? 45 then (true, r')
                                                  else if x =? 43 then (false, r')
                                                  else (false, r)
                                     | [] => (false, [])
                                     end in
                  match span_digits r1 with
                  | ([], _) => None
                  | (e, r2) =>
                      Some (value (if eneg : bool then - digits_value e else digits_value e), r2)
                  end
                else Some (value 0, s3)
            | [] => Some (value 0, [])
            end
        end
  end.

Definition parse_scalar (s : jstr) : option (jsval * jstr) :=
  if startsWith (js "true") s then Some (JBool true, drop 4 s)
  else if startsWith (js "false") s then Some (JBool false, drop 5 s)
  else if startsWith (js "null") s then Some (JNull, drop 4 s)
  else match parse_number s with
       | Some (x, r) => Some (JNum x, r)
       | None => None
       end.

Fixpoint parse_value (fuel : nat) (s : jstr) : option (jsval * jstr) :=
  match fuel with
  | O => None
  | S f =>
      match skip_ws s with
      | [] => None
      | c :: r =>
          if c =? 34 then
            match parse_string r with
            | Some (t, r') => Some (JStr t, r')
            | None => None
            end
          else if c =? 123 then
            match skip_ws r with
            | [] => None
            | d :: r' =>
                if d =? 125 then Some (JObj [], r')
                else match parse_members f [] r with
                     | Some (l, r'') => Some (JObj l, r'')
                     | None => None
                     end
            end
          else if c =? 91 then
            match skip_ws r with
            | [] => None
            | d :: r' =>
                if d =? 93 then Some (JArr [], r')
                else match parse_elements f r with
                     | Some (l, r'') => Some (JArr l, r'')
                     | None => None
                     end
            end
          else parse_scalar (c :: r)
      end
  end
with parse_elements (fuel : nat) (s : jstr) : option (list jsval * jstr) :=
  match fuel with
  | O => None
  | S f =>
      match parse_value f s with
      | None => None
      | Some (v, r) =>
          match skip_ws r with
          | [] => None
          | c :: r' =>
              if c =? 44 then
                match parse_elements f r' with
                | Some (vs, r'') => Some (v :: vs, r'')
                | None => None
                end
              else if c =? 93 then Some ([v], r')
              else None
          end
      end
  end
with parse_members (fuel : nat) (acc : list (jstr * jsval)) (s : jstr)
    : option (list (jstr * jsval) * jstr) :=
  match fuel with
  | O => None
  | S f =>
      match skip_ws s with
      | [] => None
      | q :: r =>
          if negb (q =? 34) then None
          else match parse_string r with
          | None => None
          | Some (k, r1) =>
              match skip_ws r1 with
              | [] => None
              | c :: r2 =>
                  if negb (c =? 58) then None
                  else match parse_value f r2 with
                  | None => None
                  | Some (v, r3) =>
                      match skip_ws r3 with
                      | [] => None
                      | d :: r4 =>
                          if d =? 44 then parse_members f (obj_set acc k v) r4
                          else if d =? 125 then Some (obj_set acc k v, r4)
                          else None
                      end
                  end
              end
          end
      end
  end.

(** [JSON.parse(text)]; [None] is the [SyntaxError]. *)
Definition json_parse (s : jstr) : option jsval :=
  match parse_value (2 * length s + 2) s with
  | Some (v, r) => match skip_ws r with
                   | [] => Some v
                   | _ => None
                   end
  | None => None
  end.

Example json_parse_number : json_parse (js "[1, -0.5e1,true ]") =
  Some (JArr [JNum (num_of_Z 1); JNum (num_of_Z (-5)); JBool true]).
Proof. vm_compute. reflexivity. Qed.

(** ** String literals round trip *)

Lemma hexval_hexdigit n : 0 <= n < 16 -> hexval (hexdigit n) = Some n.
Proof.
  intros Hn. unfold hexval, hexdigit. destruct (n <? 10) eqn:E; bool_inv.
  - rewrite (proj2 (between_spec _ _ _)) by lia. f_equal. lia.
  - rewrite (proj2 (between_false 48 _ _)) by lia.
    rewrite (proj2 (between_spec _ _ _)) by lia. f_equal. lia.
Qed.

Lemma parse_unicode_escape c rest :
  wf_unit c -> parse_string (unicode_escape c ++ rest) = push c (parse_string rest).
Proof.
  intros Hc. unfold wf_unit in Hc. unfold unicode_escape. cbn -[hexdigit Z.div Z.modulo hex4].
  unfold hex4. rewrite !hexval_hexdigit by dlia.
  f_equal. dlia.
Qed.

Lemma parse_quote_unit c rest :
  wf_unit c -> parse_string (quote_unit c ++ rest) = push c (parse_string rest).
Proof.
  intros Hc. unfold quote_unit.
  repeat match goal with
  | |- context [if c =? ?k then _ else _] =>
      let E := fresh "E" in destruct (c =? k) eqn:E;
      [apply Z.eqb_eq in E; subst c; reflexivity|]
  end.
  destruct (c <? 32) eqn:E'.
  - by apply parse_unicode_escape.
  - cbn. by rewrite E, E0, E'.
Qed.

Lemma parse_quote_body s rest :
  wf_jstr s -> parse_string (quote_body s ++ 34 :: rest) = Some (s, rest).
Proof.
  assert (Hplain : forall c r, (c =? 34) = false -> (c <? 32) = false -> (c =? 92) = false ->
                     parse_string (c :: r) = push c (parse_string r)).
  { intros c r H1 H2 H3. cbn. by rewrite H1, H2, H3. }
  induction s as [|c|c d r IH1 IH2] using list_pair_ind; intros Hwf.
  - done.
  - inversion Hwf; subst. cbn [quote_body].
    destruct (is_high c); [|destruct (is_low c)]; rewrite ?app_nil_r;
      rewrite ?parse_unicode_escape, ?parse_quote_unit by done; done.
  - inversion Hwf as [|? ? Hc Hd]; subst. inversion Hd; subst.
    cbn [quote_body] in *. destruct (is_high c) eqn:Eh; [destruct (is_low d) eqn:El|].
    + cbn [app]. range_inv.
      rewrite (Hplain c), (Hplain d); [by rewrite IH1|..];
        try (apply Z.eqb_neq; lia); apply Z.ltb_ge; lia.
    + rewrite <- app_assoc, parse_unicode_escape, IH2 by done. done.
    + destruct (is_low c); rewrite <- app_assoc;
        rewrite ?parse_unicode_escape, ?parse_quote_unit, IH2 by done; done.
Qed.

Lemma well_formed_app s t : well_formed s = true -> well_formed (s ++ t) = well_formed t.
Proof.
  induction s as [|c|c d r IH1 IH2] using list_pair_ind; cbn [app well_formed] in *.
  - done.
  - destruct (is_high c) eqn:Eh; [done|]. intros H. bool_inv.
    by rewrite H0.
  - destruct (is_high c) eqn:Eh; intros [H1 H2]%andb_true_iff; rewrite H1; cbn [andb]; auto.
Qed.

Lemma ascii_not_surrogate c : is_ascii c -> is_high c = false /\ is_low c = false.
Proof. intros H. unfold is_ascii in H. split; apply between_false; lia. Qed.

Lemma ascii_well_formed s : Forall is_ascii s -> wf_jstr s /\ well_formed s = true.
Proof.
  induction 1 as [|c s Hc Hs [IH1 IH2]]; [by split; [constructor|]|].
  destruct (ascii_not_surrogate c Hc) as [H1 H2]. cbn. rewrite H1, H2, IH2.
  unfold is_ascii in Hc. split; [constructor; [unfold wf_unit; lia|done] | done].
Qed.

Lemma hexdigit_ascii n : 0 <= n < 16 -> is_ascii (hexdigit n).
Proof. unfold is_ascii, hexdigit. intros H. case_match; lia. Qed.

Lemma unicode_escape_ascii c : Forall is_ascii (unicode_escape c).
Proof.
  unfold unicode_escape. repeat constructor; try apply hexdigit_ascii; unfold is_ascii; dlia.
Qed.

Lemma quote_unit_ok c :
  wf_unit c -> is_high c = false -> is_low c = false ->
  wf_jstr (quote_unit c) /\ well_formed (quote_unit c) = true.
Proof.
  intros Hc Hh Hl. unfold quote_unit.
  repeat case_match; try (apply ascii_well_formed; repeat constructor; unfold is_ascii; lia).
  - apply ascii_well_formed, unicode_escape_ascii.
  - split; [constructor; [done | constructor]|]. cbn. by rewrite Hh, Hl.
Qed.

(** The serialised string is always well-formed Unicode. *)
Lemma quote_body_ok s :
  wf_jstr s -> wf_jstr (quote_body s) /\ well_formed (quote_body s) = true.
Proof.
  assert (Hglue : forall p q, wf_jstr p /\ well_formed p = true ->
            wf_jstr q /\ well_formed q = true -> wf_jstr (p ++ q) /\ well_formed (p ++ q) = true).
  { intros p q [H1 H2] [H3 H4]. split; [by apply wf_jstr_app|]. by rewrite well_formed_app. }
  assert (Hesc := fun c => ascii_well_formed _ (unicode_escape_ascii c)).
  induction s as [|c|c d r IH1 IH2] using list_pair_ind; intros Hwf.
  - by split; [constructor|].
  - inversion Hwf; subst. cbn [quote_body].
    destruct (is_high c) eqn:Eh; [apply Hesc|].
    destruct (is_low c) eqn:El; rewrite app_nil_r; [apply Hesc | by apply quote_unit_ok].
  - inversion Hwf as [|? ? Hc Hd]; subst. inversion Hd; subst.
    cbn [quote_body] in *. destruct (is_high c) eqn:Eh; [destruct (is_low d) eqn:El|].
    + destruct IH1 as [IHw IHs]; [done|]. split; [by constructor; [|constructor]|].
      cbn [well_formed]. by rewrite Eh, El, IHs.
    + apply Hglue; auto.
    + destruct (is_low c) eqn:El; apply Hglue; auto. by apply quote_unit_ok.
Qed.

(** Text that is made of units in range and has no lone surrogate. *)
Definition text_ok (s : jstr) : Prop := wf_jstr s /\ well_formed s = true.

Lemma text_ok_app s t : text_ok s -> text_ok t -> text_ok (s ++ t).
Proof.
  intros [H1 H2] [H3 H4]. split; [by apply wf_jstr_app|]. by rewrite well_formed_app.
Qed.
Lemma text_ok_nil : text_ok [].
Proof. by split; [constructor|]. Qed.
Lemma text_ok_cons c s : is_ascii c -> text_ok s -> text_ok (c :: s).
Proof. intros Hc Hs. apply (text_ok_app [c]); [|done]. apply ascii_well_formed. by constructor. Qed.

#[local] Hint Resolve text_ok_nil text_ok_cons text_ok_app : ts.
#[local] Hint Extern 1 (is_ascii _) => unfold is_ascii; lia : ts.

Lemma quote_ok s : wf_jstr s -> text_ok (quote s).
Proof.
  intros Hs. unfold quote. apply text_ok_cons; [done|].
  apply text_ok_app; [by apply quote_body_ok|]. auto with ts.
Qed.

Lemma join_ok sep l : is_ascii sep -> Forall text_ok l -> text_ok (join [sep] l).
Proof.
  intros Hsep. induction 1 as [|w l Hw Hl IH]; [by split; [constructor|]|].
  destruct l as [|w' l]; [done|]. cbn [join].
  apply text_ok_app; [done|]. by apply text_ok_cons.
Qed.

(** Every string of the data has units in range. *)
Fixpoint jdata_ok (t : jdata) : Prop :=
  match t with
  | TNull | TBool _ => True
  | TStr s => wf_jstr s
  | TArr l => foldr (fun x P => jdata_ok x /\ P) True l
  | TObj l => NoDup l.*1 /\ foldr (fun kv P => (wf_jstr kv.1 /\ jdata_ok kv.2) /\ P) True l
  end.

Lemma foldr_and_Forall {A} (P : A -> Prop) l : foldr (fun x Q => P x /\ Q) True l <-> Forall P l.
Proof. induction l as [|x l IH]; cbn; [by split; [constructor|]|]. by rewrite Forall_cons, IH. Qed.

Lemma jdata_ok_arr l : jdata_ok (TArr l) <-> Forall jdata_ok l.
Proof. apply foldr_and_Forall. Qed.
Lemma jdata_ok_obj l :
  jdata_ok (TObj l) <-> NoDup l.*1 /\ Forall (fun kv => wf_jstr kv.1 /\ jdata_ok kv.2) l.
Proof. cbn. by rewrite foldr_and_Forall. Qed.

Lemma stringify_ok t : jdata_ok t -> text_ok (stringify t).
Proof.
  induction t as [|s|b|l IH|l IH] using jdata_rect'; intros Ht.
  - apply ascii_well_formed; by repeat constructor.
  - by apply quote_ok.
  - destruct b; apply ascii_well_formed; by repeat constructor.
  - apply jdata_ok_arr in Ht. cbn. apply text_ok_cons; [done|].
    apply text_ok_app; [|by auto with ts]. apply join_ok; [done|].
    rewrite Forall_fmap, Forall_forall in *. intros x Hx. apply IH; auto.
  - apply jdata_ok_obj in Ht as [_ Ht]. cbn. apply text_ok_cons; [done|].
    apply text_ok_app; [|by auto with ts]. apply join_ok; [done|].
    rewrite Forall_fmap, Forall_forall in *. intros kv Hkv. destruct (Ht kv Hkv). cbv beta.
    apply text_ok_app; [by apply quote_ok|]. apply text_ok_cons; [done|]. by apply IH.
Qed.

(** ** Parsing inverts serialising *)

(** What can follow a value inside a text. *)
Definition delimited (r : jstr) : Prop :=
  match r with
  | [] => True
  | c :: _ => c = 44 \/ c = 93 \/ c = 125
  end.

Lemma obj_set_fresh acc k v : k ∉ acc.*1 -> obj_set acc k v = acc ++ [(k, v)].
Proof.
  induction acc as [|[k' v'] acc IH]; cbn; [done|]. rewrite not_elem_of_cons.
  intros [Hne Hin]. rewrite (proj2 (jeqb_false k' k)) by done. by rewrite IH.
Qed.

Lemma skip_ws_nonspace c r : is_json_space c = false -> skip_ws (c :: r) = c :: r.
Proof. intros H. cbn. by rewrite H. Qed.

Lemma parse_member_head (k rest : jstr) : wf_jstr k ->
  exists r, skip_ws (quote k ++ rest) = 34 :: r /\ parse_string r = Some (k, rest).
Proof.
  intros Hk. exists (quote_body k ++ 34 :: rest). split; [|by apply parse_quote_body].
  unfold quote. cbn. by rewrite <- app_assoc.
Qed.
Lemma parse_quote s fuel rest : wf_jstr s -> (0 < fuel)%nat ->
  parse_value fuel (quote s ++ rest) = Some (JStr s, rest).
Proof.
  intros Hs Hf. destruct fuel as [|fuel]; [lia|]. destruct (parse_member_head s rest Hs) as (r & Hr & Hp).
  cbn [parse_value]. rewrite Hr. cbn. by rewrite Hp.
Qed.

(** A kind of data whose values are serialised by [text] and stand for the
    values [emb]: once its members are parsed back, so are arrays and objects. *)
Section Documents.
Context {X : Type} (text : X -> jstr) (emb : X -> jsval).

Definition member_of (kv : jstr * X) : jstr * jsval := (kv.1, emb kv.2).
Definition member_text (kv : jstr * X) : jstr := quote kv.1 ++ 58 :: text kv.2.
Definition array_text (l : list X) : jstr := 91 :: join [44] (text <$> l) ++ [93].
Definition object_text (l : list (jstr * X)) : jstr := 123 :: join [44] (member_text <$> l) ++ [125].
(** The first character of a serialised value starts a value and is no space. *)
Definition starts_value (x : X) : Prop :=
  exists c r, text x = c :: r /\ is_json_space c = false /\ c <> 93 /\ c <> 125.
Definition parses (x : X) : Prop := forall fuel rest, delimited rest ->
  (2 * length (text x) <= fuel)%nat ->
  parse_value fuel (text x ++ rest) = Some (emb x, rest).

Lemma parse_elements_join x l : Forall parses (x :: l) -> forall fuel rest,
  (2 * length (join [44%Z] (text <$> x :: l)) + 2 <= fuel)%nat ->
  parse_elements fuel (join [44] (text <$> x :: l) ++ 93 :: rest)
  = Some (emb <$> x :: l, rest).
Proof.
  revert x. induction l as [|y l IH]; intros x Hall fuel rest Hf;
    inversion Hall as [|? ? Hx Hl]; subst.
  - destruct fuel as [|fuel]; [cbn in Hf; lia|]. cbn [fmap list_fmap join] in *.
    cbn [parse_elements]. rewrite Hx by (lia || (cbn; auto)). done.
  - destruct fuel as [|fuel]; [cbn in Hf; lia|].
    change (join [44] (text <$> x :: y :: l))
      with (text x ++ 44 :: join [44] (text <$> y :: l)) in *.
    rewrite length_app in Hf. cbn [length] in Hf.
    specialize (IH y Hl fuel rest). revert IH Hf.
    generalize (join [44] (text <$> y :: l)) as J. intros J IH Hf.
    cbn [parse_elements]. rewrite <- app_assoc, Hx by (lia || (cbn; auto)). cbn -[parse_elements].
    rewrite IH by lia. done.
Qed.

Lemma parse_members_join kv l acc :
  Forall (fun kv => wf_jstr kv.1 /\ parses kv.2) (kv :: l) ->
  NoDup (acc.*1 ++ (kv :: l).*1) -> forall fuel rest,
  (2 * length (join [44%Z] (member_text <$> kv :: l)) + 2 <= fuel)%nat ->
  parse_members fuel acc (join [44] (member_text <$> kv :: l) ++ 125 :: rest)
  = Some (acc ++ (member_of <$> kv :: l), rest).
Proof.
  revert kv acc. induction l as [|kv' l IH]; intros [k v] acc Hall Hnd fuel rest Hf;
    inversion Hall as [|? ? [Hk Hv] Hl]; subst; cbn [fst snd] in *;
    (destruct fuel as [|fuel]; [cbn in Hf; lia|]).
  - cbn [fmap list_fmap join] in *. unfold member_text in *. cbn [fst snd] in *.
    rewrite length_app in Hf. cbn [length] in Hf. rewrite <- app_assoc. cbn [app].
    destruct (parse_member_head k (58 :: text v ++ 125 :: rest) Hk) as (r & Hr & Hp).
    cbn [parse_members]. rewrite Hr. cbn -[parse_value]. rewrite Hp. cbn -[parse_value].
    rewrite Hv by (lia || (cbn; auto)). cbn. rewrite obj_set_fresh; [done|].
    apply NoDup_app in Hnd as (_ & Hd & _). intros Hin. apply (Hd _ Hin). by left.
  - change (join [44] (member_text <$> (k, v) :: kv' :: l))
      with (member_text (k, v) ++ 44 :: join [44] (member_text <$> kv' :: l)) in *.
    rewrite length_app in Hf. unfold member_text at 1 in Hf. cbn [fst snd] in Hf.
    rewrite length_app in Hf. cbn [length] in Hf.
    specialize (IH kv' (acc ++ [(k, emb v)]) Hl).
    rewrite fmap_app, <- app_assoc in IH. specialize (IH Hnd fuel rest). revert IH Hf.
    generalize (join [44] (member_text <$> kv' :: l)) as J. intros J IH Hf.
    unfold member_text at 1. cbn [fst snd]. rewrite <- !app_assoc. cbn [app].
    match goal with |- parse_members _ _ (quote k ++ ?tl) = _ =>
      destruct (parse_member_head k tl Hk) as (r & Hr & Hp) end.
    cbn [parse_members]. rewrite Hr. cbn -[parse_value parse_members]. rewrite Hp.
    cbn -[parse_value parse_members]. rewrite Hv by (lia || (cbn; auto)).
    cbn -[parse_value parse_members].
    rewrite obj_set_fresh.
    2:{ apply NoDup_app in Hnd as (_ & Hd & _). intros Hin. apply (Hd _ Hin). by left. }
    rewrite IH by lia. by rewrite <- app_assoc.
Qed.

Lemma parse_array l : Forall starts_value l -> Forall parses l -> forall fuel rest,
  (2 * length (array_text l) <= fuel)%nat ->
  parse_value fuel (array_text l ++ rest) = Some (JArr (emb <$> l), rest).
Proof.
  intros Hh Hall fuel rest Hf. destruct fuel as [|fuel]; [cbn in Hf; lia|].
  destruct l as [|x l]; [done|]. unfold array_text in *. cbn [length] in Hf. rewrite length_app in Hf.
  cbn in Hf. cbn [app]. rewrite <- app_assoc. cbn [app].
  cbn [parse_value]. rewrite skip_ws_nonspace by done. cbn [Z.eqb Pos.eqb].
  assert (Hhead : exists c r, join [44] (text <$> x :: l) ++ 93 :: rest = c :: r /\
            is_json_space c = false /\ c <> 93).
  { apply Forall_cons in Hh as [(c & r & Hc & Hs & Hn & _) _].
    destruct l; cbn; rewrite Hc; cbn; eauto. }
  destruct Hhead as (c & r & Hj & Hs & Hn).
  rewrite Hj, skip_ws_nonspace, <- Hj by done.
  rewrite (proj2 (Z.eqb_neq c 93)) by done.
  rewrite parse_elements_join by (done || (cbn; lia)). done.
Qed.

Lemma parse_object l : Forall (fun kv => wf_jstr kv.1 /\ parses kv.2) l -> NoDup l.*1 -> forall fuel rest,
  (2 * length (object_text l) <= fuel)%nat ->
  parse_value fuel (object_text l ++ rest) = Some (JObj (member_of <$> l), rest).
Proof.
  intros Hall Hnd fuel rest Hf. destruct fuel as [|fuel]; [cbn in Hf; lia|].
  destruct l as [|kv l]; [done|]. unfold object_text in *.
  cbn [length] in Hf. rewrite length_app in Hf. cbn [length] in Hf.
  cbn [app]. rewrite <- app_assoc. cbn [app].
  cbn [parse_value]. rewrite skip_ws_nonspace by done. cbn [Z.eqb Pos.eqb].
  assert (Hhead : exists r, join [44] (member_text <$> kv :: l) ++ 125 :: rest = 34 :: r).
  { destruct l; cbn; unfold member_text at 1, quote; cbn; eauto. }
  destruct Hhead as (r & Hj).
  rewrite Hj at 1. rewrite skip_ws_nonspace by done. cbn [Z.eqb Pos.eqb].
  by rewrite parse_members_join by (done || lia).
Qed.

Lemma parse_document x : parses x -> json_parse (text x) = Some (emb x).
Proof.
  intros Hx. unfold json_parse. specialize (Hx (2 * length (text x) + 2)%nat [] I).
  rewrite app_nil_r in Hx. by rewrite Hx by lia.
Qed.
End Documents.

Lemma stringify_starts t : starts_value stringify t.
Proof.
  destruct t as [|s|[]|l|l]; cbn; eexists _, _; (split; [reflexivity|]); done.
Qed.

Lemma parse_stringify t : jdata_ok t -> parses stringify embed t.
Proof.
  induction t as [|s|b|l IH|l IH] using jdata_rect'; intros Ht fuel rest Hr Hf.
  - destruct fuel as [|fuel]; [cbn in Hf; lia | done].
  - apply parse_quote; [done|]. destruct fuel; [by inversion Hf|lia].
  - destruct fuel as [|fuel]; [destruct b; cbn in Hf; lia|]. by destruct b.
  - apply jdata_ok_arr in Ht. apply (parse_array stringify embed); [|rewrite Forall_forall in *; auto|done].
    apply Forall_forall. intros x _. apply stringify_starts.
  - apply jdata_ok_obj in Ht as [Hnd Ht]. apply (parse_object stringify embed l); [|done|done].
    rewrite Forall_forall in *. intros kv Hkv. destruct (Ht kv Hkv). split; [done|]. by apply (IH kv Hkv).
Qed.

(** [JSON.parse(JSON.stringify(v))] gives [v] back. *)
Lemma json_parse_stringify t : jdata_ok t -> json_parse (stringify t) = Some (embed t).
Proof. intros Ht. apply parse_document, parse_stringify, Ht. Qed.

(** ** The fuel is enough

    Every recursive call is on text at least one character shorter, or is an
    element on the text itself: twice the length bounds the depth, and more
    fuel changes nothing. *)

Lemma skip_ws_length s : (length (skip_ws s) <= length s)%nat.
Proof. induction s as [|c s IH]; cbn; [lia|]. case_match; cbn; lia. Qed.

Lemma parse_string_length s t r :
  parse_string s = Some (t, r) -> (length r < length s)%nat.
Proof.
  remember (length s) as n eqn:Hn. revert s t r Hn.
  induction n as [n IH] using lt_wf_ind. intros s t r -> H.
  destruct s as [|c s]; [done|]. cbn in H.
  assert (Hpush : forall u q, (length q < length (c :: s))%nat ->
            push u (parse_string q) = Some (t, r) -> (length r < length (c :: s))%nat).
  { intros u q Hq Hp. destruct (parse_string q) as [[t' r']|] eqn:E; [|done].
    injection Hp as <- <-. specialize (IH _ Hq q t' r' eq_refl E). lia. }
  repeat (case_match; simplify_eq); try (eapply Hpush; [|exact H]); cbn; lia.
Qed.

Lemma span_digits_length s d r : span_digits s = (d, r) -> (length r <= length s)%nat.
Proof.
  revert d r; induction s as [|c s IH]; cbn; intros d r H; simplify_eq; [done|].
  destruct (is_digit c); simplify_eq; [|done].
  destruct (span_digits s) as [d' r'] eqn:E; simplify_eq. specialize (IH _ _ eq_refl). lia.
Qed.

Lemma span_digits_nonempty s c d r : span_digits s = (c :: d, r) -> (length r < length s)%nat.
Proof.
  destruct s as [|x s]; cbn; [done|]. destruct (is_digit x); [|done].
  destruct (span_digits s) as [d' r'] eqn:E. intros [= <- <- <-].
  apply span_digits_length in E. lia.
Qed.

Lemma parse_number_length s x r : parse_number s = Some (x, r) -> (length r < length s)%nat.
Proof.
  unfold parse_number. intros H.
  repeat (case_match; simplify_eq);
    repeat match goal with
    | E : span_digits _ = (_ :: _, _) |- _ => apply span_digits_nonempty in E
    end; cbn in *; lia.
Qed.

Lemma parse_scalar_length s v r : parse_scalar s = Some (v, r) -> (length r < length s)%nat.
Proof.
  unfold parse_scalar. intros H.
  assert (Hkw : forall p, startsWith p s = true -> (length p <= length s)%nat).
  { intros p (q & ->)%startsWith_spec. rewrite length_app. lia. }
  destruct (startsWith (js "true") s) eqn:E1;
    [|destruct (startsWith (js "false") s) eqn:E2;
      [|destruct (startsWith (js "null") s) eqn:E3]].
  1-3: simplify_eq; rewrite length_drop;
       match goal with E : startsWith _ _ = true |- _ => apply Hkw in E; cbn in E; lia end.
  destruct (parse_number s) as [[x r']|] eqn:E; simplify_eq.
  by apply parse_number_length in E.
Qed.

Lemma parse_value_length_all fuel :
  (forall s v r, parse_value fuel s = Some (v, r) -> length r < length s)%nat /\
  (forall s l r, parse_elements fuel s = Some (l, r) -> length r < length s)%nat /\
  (forall acc s l r, parse_members fuel acc s = Some (l, r) -> length r < length s)%nat.
Proof.
  induction fuel as [|fuel (IHv & IHe & IHm)]; [done|].
  assert (Hws : forall s c r, skip_ws s = c :: r -> (length r < length s)%nat).
  { intros s c r E. pose proof (skip_ws_length s) as Hs. rewrite E in Hs. cbn in Hs. lia. }
  repeat split.
  - intros s v r H. cbn in H. pose proof (skip_ws_length s) as Hs.
    repeat (case_match; simplify_eq);
      repeat match goal with
      | E : skip_ws _ = _ :: _ |- _ => apply Hws in E
      | E : parse_string _ = Some _ |- _ => apply parse_string_length in E
      | E : parse_members _ _ _ = Some _ |- _ => apply IHm in E
      | E : parse_elements _ _ = Some _ |- _ => apply IHe in E
      | E : parse_scalar _ = Some _ |- _ => apply parse_scalar_length in E
      end; cbn in *; lia.
  - intros s l r H. cbn in H.
    repeat (case_match; simplify_eq);
      repeat match goal with
      | E : skip_ws _ = _ :: _ |- _ => apply Hws in E
      | E : parse_value _ _ = Some _ |- _ => apply IHv in E
      | E : parse_elements _ _ = Some _ |- _ => apply IHe in E
      end; lia.
  - intros acc s l r H. cbn in H.
    repeat (case_match; simplify_eq);
      repeat match goal with
      | E : skip_ws _ = _ :: _ |- _ => apply Hws in E
      | E : parse_string _ = Some _ |- _ => apply parse_string_length in E
      | E : parse_value _ _ = Some _ |- _ => apply IHv in E
      | E : parse_members _ _ _ = Some _ |- _ => apply IHm in E
      end; lia.
Qed.

(** One more unit of fuel changes nothing above the bound. *)
Lemma parse_fuel_step fuel :
  (forall s, (2 * length s < fuel)%nat -> parse_value (S fuel) s = parse_value fuel s) /\
  (forall s, (2 * length s + 1 < fuel)%nat -> parse_elements (S fuel) s = parse_elements fuel s) /\
  (forall acc s, (2 * length s < fuel)%nat ->
     parse_members (S fuel) acc s = parse_members fuel acc s).
Proof.
  induction fuel as [|fuel (IHv & IHe & IHm)]; [repeat split; intros; lia|].
  assert (Hws : forall s c r, skip_ws s = c :: r -> (length r < length s)%nat).
  { intros s c r E. pose proof (skip_ws_length s) as Hs. rewrite E in Hs. cbn in Hs. lia. }
  destruct (parse_value_length_all fuel) as (Lv & Le & Lm).
  repeat split.
  - intros s Hs. pose (g := S fuel). change (parse_value (S g) s = parse_value (S fuel) s).
    cbn [parse_value]. unfold g. destruct (skip_ws s) as [|c r] eqn:E; [done|].
    apply Hws in E. rewrite IHe, IHm by lia. done.
  - intros s Hs. pose (g := S fuel). change (parse_elements (S g) s = parse_elements (S fuel) s).
    cbn [parse_elements]. unfold g. rewrite IHv by lia.
    destruct (parse_value fuel s) as [[v r]|] eqn:E; [|done]. apply Lv in E.
    destruct (skip_ws r) as [|c r'] eqn:E2; [done|]. apply Hws in E2.
    rewrite IHe by lia. done.
  - intros acc s Hs. pose (g := S fuel).
    change (parse_members (S g) acc s = parse_members (S fuel) acc s).
    cbn [parse_members]. unfold g. destruct (skip_ws s) as [|q r] eqn:E; [done|].
    apply Hws in E. destruct (negb _); [done|].
    destruct (parse_string r) as [[k r1]|] eqn:E1; [|done]. apply parse_string_length in E1.
    destruct (skip_ws r1) as [|c r2] eqn:E2; [done|]. apply Hws in E2.
    destruct (negb _); [done|]. rewrite IHv by lia.
    destruct (parse_value fuel r2) as [[v r3]|] eqn:E3; [|done]. apply Lv in E3.
    destruct (skip_ws r3) as [|d r4] eqn:E4; [done|]. apply Hws in E4.
    rewrite IHm by lia. done.
Qed.

Lemma parse_value_fuel fuel s :
  (2 * length s + 2 <= fuel)%nat -> parse_value fuel s = parse_value (2 * length s + 2) s.
Proof.
  induction 1 as [|fuel Hf IH]; [done|].
  rewrite (proj1 (parse_fuel_step fuel)) by lia. done.
Qed.

(** ** Parsed strings have 16-bit units *)

Lemma hexval_range c n : hexval c = Some n -> 0 <= n < 16.
Proof.
  unfold hexval. repeat case_match; intros; simplify_eq; range_inv;
    repeat match goal with H : between _ _ _ = true |- _ => apply between_spec in H end; lia.
Qed.

Lemma hex4_wf a b c d u : hex4 a b c d = Some u -> wf_unit u.
Proof.
  unfold hex4. intros H. repeat case_match; simplify_eq.
  repeat match goal with H : hexval _ = Some _ |- _ => apply hexval_range in H end.
  unfold wf_unit. lia.
Qed.

Lemma unescape_wf e u : unescape e = Some u -> wf_unit u.
Proof. unfold unescape, wf_unit. repeat case_match; intros; simplify_eq; lia. Qed.

Lemma parse_string_wf s t r :
  wf_jstr s -> parse_string s = Some (t, r) -> wf_jstr t /\ wf_jstr r.
Proof.
  remember (length s) as n eqn:Hn. revert s t r Hn.
  induction n as [n IH] using lt_wf_ind. intros s t r -> Hw H.
  assert (Hpush : forall u q, (length q < length s)%nat -> wf_unit u -> wf_jstr q ->
            push u (parse_string q) = Some (t, r) -> wf_jstr t /\ wf_jstr r).
  { intros u q Hq Hu Hwq Hp. destruct (parse_string q) as [[t' r']|] eqn:E; [|done].
    injection Hp as <- <-. destruct (IH _ Hq q t' r' eq_refl Hwq E). by split; [constructor|]. }
  destruct s as [|c s]; [done|]. cbn in H. unfold wf_jstr in *.
  repeat match goal with
  | H : Forall _ (_ :: _) |- _ => apply Forall_cons in H as [? H]
  | H : (if ?b then _ else _) = Some _ |- _ => destruct b eqn:?
  | H : None = Some _ |- _ => discriminate H
  | H : Some _ = Some _ |- _ => injection H as <- <-
  | H : match ?r with [] => _ | _ :: _ => _ end = Some _ |- _ => destruct r
  | H : match hex4 ?a ?b ?c ?d with _ => _ end = Some _ |- _ => destruct (hex4 a b c d) eqn:?
  | H : match unescape ?e with _ => _ end = Some _ |- _ => destruct (unescape e) eqn:?
  end; try (by split; [constructor|]);
  (eapply Hpush; [| | | exact H]; [cbn; lia | eauto using hex4_wf, unescape_wf | done]).
Qed.

Lemma skip_ws_wf s : wf_jstr s -> wf_jstr (skip_ws s).
Proof. induction 1 as [|c s Hc Hs IH]; cbn; [constructor|]. case_match; [done | by constructor]. Qed.

Lemma span_digits_wf s d r : wf_jstr s -> span_digits s = (d, r) -> wf_jstr r.
Proof.
  intros Hw. revert d r. induction Hw as [|c s Hc Hs IH]; cbn; intros d r H; simplify_eq.
  - constructor.
  - destruct (is_digit c); [|by simplify_eq; constructor].
    destruct (span_digits s) as [d' r'] eqn:E; simplify_eq. by eapply IH.
Qed.

Lemma parse_number_wf s x r : wf_jstr s -> parse_number s = Some (x, r) -> wf_jstr r.
Proof.
  assert (Htl : forall c (l : jstr), wf_jstr (c :: l) -> wf_jstr l).
  { intros c l Hl. by apply Forall_cons in Hl as [_ ?]. }
  intros Hw H. unfold parse_number in H.
  destruct (match s with [] => _ | _ :: _ => _ end) as [neg s1] eqn:E1.
  assert (H1 : wf_jstr s1) by (repeat case_match; simplify_eq; eauto).
  destruct (span_digits s1) as [int s2] eqn:E2.
  assert (H2 : wf_jstr s2) by (by eapply span_digits_wf).
  destruct int as [|d ds]; [done|]. destruct (_ && _); [done|].
  destruct (match s2 with [] => _ | _ :: _ => _ end) as [[frac s3]|] eqn:E3; [|done].
  assert (H3 : wf_jstr s3) by (repeat case_match; simplify_eq; eauto using span_digits_wf).
  destruct s3 as [|c q]; [by simplify_eq|].
  destruct (_ || _); [|by simplify_eq]. apply Htl in H3.
  destruct (match q with [] => _ | _ :: _ => _ end) as [eneg r1] eqn:E4.
  assert (H4 : wf_jstr r1) by (repeat case_match; simplify_eq; eauto).
  destruct (span_digits r1) as [[|e es] r2] eqn:E5; simplify_eq. by eapply span_digits_wf.
Qed.

Lemma parse_scalar_wf s v r :
  wf_jstr s -> parse_scalar s = Some (v, r) -> wf_value v /\ wf_jstr r.
Proof.
  intros Hw H. unfold parse_scalar in H.
  repeat (case_match; simplify_eq); split; try done; try (by apply Forall_drop).
  by eapply parse_number_wf.
Qed.

Lemma wf_value_set l k v : wf_value (JObj l) -> wf_value v -> wf_value (JObj (obj_set l k v)).
Proof.
  cbn. induction l as [|[k' v'] l IH]; cbn; intros Hl Hv; [done|].
  destruct Hl. case_match; cbn; auto.
Qed.

Lemma parse_value_wf_all fuel :
  (forall s v r, wf_jstr s -> parse_value fuel s = Some (v, r) -> wf_value v /\ wf_jstr r) /\
  (forall s l r, wf_jstr s -> parse_elements fuel s = Some (l, r) ->
     wf_value (JArr l) /\ wf_jstr r) /\
  (forall acc s l r, wf_jstr s -> wf_value (JObj acc) -> parse_members fuel acc s = Some (l, r) ->
     wf_value (JObj l) /\ wf_jstr r).
Proof.
  induction fuel as [|fuel (IHv & IHe & IHm)]; [done|].
  assert (Hws : forall s c r, wf_jstr s -> skip_ws s = c :: r -> wf_unit c /\ wf_jstr r).
  { intros s c r Hs E. apply skip_ws_wf in Hs. rewrite E in Hs. by apply Forall_cons in Hs. }
  repeat split_and.
  - intros s v r Hw H. cbn in H. destruct (skip_ws s) as [|c q] eqn:E; [done|].
    destruct (Hws _ _ _ Hw E) as [Hc Hq].
    repeat (case_match; simplify_eq);
      repeat match goal with
      | Ex : skip_ws q = _ :: _ |- _ => apply (Hws _ _ _ Hq) in Ex as [? ?]
      | Ex : parse_string q = Some _ |- _ => apply (parse_string_wf _ _ _ Hq) in Ex as [? ?]
      | Ex : parse_members _ _ q = Some _ |- _ => apply (IHm _ _ _ _ Hq) in Ex as [? ?]; [|done]
      | Ex : parse_elements _ q = Some _ |- _ => apply (IHe _ _ _ Hq) in Ex as [? ?]
      | Ex : parse_scalar _ = Some _ |- _ =>
          apply parse_scalar_wf in Ex; [|by constructor]; destruct Ex
      end; done.
  - intros s l r Hw H. cbn in H.
    destruct (parse_value fuel s) as [[v q]|] eqn:E; [|done].
    destruct (IHv _ _ _ Hw E) as [Hv Hq].
    destruct (skip_ws q) as [|c q'] eqn:E2; [done|]. destruct (Hws _ _ _ Hq E2) as [_ Hq'].
    repeat (case_match; simplify_eq); [|done].
    match goal with Ex : parse_elements _ _ = Some _ |- _ =>
      destruct (IHe _ _ _ Hq' Ex) as [? ?] end. done.
  - intros acc s l r Hw Ha H. cbn in H.
    destruct (skip_ws s) as [|q0 q] eqn:E; [done|]. destruct (Hws _ _ _ Hw E) as [_ Hq].
    case_match; [done|]. destruct (parse_string q) as [[k r1]|] eqn:E1; [|done].
    destruct (parse_string_wf _ _ _ Hq E1) as [_ Hr1].
    destruct (skip_ws r1) as [|c r2] eqn:E2; [done|]. destruct (Hws _ _ _ Hr1 E2) as [_ Hr2].
    case_match; [done|]. destruct (parse_value fuel r2) as [[v r3]|] eqn:E3; [|done].
    destruct (IHv _ _ _ Hr2 E3) as [Hv Hr3].
    destruct (skip_ws r3) as [|d r4] eqn:E4; [done|]. destruct (Hws _ _ _ Hr3 E4) as [_ Hr4].
    pose proof (wf_value_set acc k v Ha Hv) as Hset.
    repeat (case_match; simplify_eq); [|done]. by eapply IHm.
Qed.

Lemma json_parse_wf s v : wf_jstr s -> json_parse s = Some v -> wf_value v.
Proof.
  unfold json_parse. intros Hw H.
  destruct (parse_value _ s) as [[w r]|] eqn:E; [|done].
  destruct (proj1 (parse_value_wf_all _) _ _ _ Hw E). by case_match; simplify_eq.
Qed.

Lemma wf_value_embed t : jdata_ok t -> wf_value (embed t).
Proof.
  induction t as [|s|b|l IH|l IH] using jdata_rect'; intros Ht; try done.
  - apply jdata_ok_arr in Ht. cbn. induction l as [|x l IHl]; [done|]. cbn.
    apply Forall_cons in IH as [IHx IH]. apply Forall_cons in Ht as [Hx Ht]. auto.
  - apply jdata_ok_obj in Ht as [_ Ht]. cbn. induction l as [|x l IHl]; [done|]. cbn.
    apply Forall_cons in IH as [IHx IH]. apply Forall_cons in Ht as [[_ Hx] Ht]. auto.
Qed.
