(* ===== verification/Numbers.v ===== *)
(** * Number conversions and comparisons

    [Number(value)] of an [unknown] that came out of [JSON.parse], the tests
    the code makes on numbers, and binary64 arithmetic where the code computes
    with numbers of a request. *)

From Stdlib Require Import ZArith Lia SpecFloat.
From stdpp Require Import base list strings.
From S2P Require Import Prelude Js Json.

Local Open Scope Z_scope.

(** ** Arithmetic and comparison *)

Definition num_add (x y : spec_float) : spec_float := SFadd 53 1024 x y.
Definition num_mul (x y : spec_float) : spec_float := SFmul 53 1024 x y.
Definition num_lt (x y : spec_float) : bool := SFltb x y.
Definition num_le (x y : spec_float) : bool := SFleb x y.
Definition num_zero : spec_float := S754_zero false.
Definition MAX_SAFE_INTEGER : Z := 2 ^ 53 - 1.
(** [Number.isSafeInteger(x)]. *)
Definition safe_integer (x : spec_float) : option Z :=
  match num_to_Z x with
  | Some z => if Z.abs z <=? MAX_SAFE_INTEGER then Some z else None
  | None => None
  end.

(** The integer part of a finite number, towards zero. *)
Definition num_trunc (x : spec_float) : option Z :=
  match x with
  | S754_zero _ => Some 0
  | S754_finite s m e =>
      let v := if s then Z.neg m else Z.pos m in
      Some (if 0 <=? e then v * 2 ^ e else Z.quot v (2 ^ (- e)))
  | _ => None
  end.

(** [numberValue] and [nonNegativeInteger]: the integer a value holds. *)
Definition numberValue (v : jsval) : bool :=
  match v with
  | JNum x => num_finite x && num_le num_zero x
  | _ => false
  end.
Definition nonNegativeInteger (v : jsval) : option Z :=
  match v with
  | JNum x => if numberValue v then num_to_Z x else None
  | _ => None
  end.

(** ** [Number(value)] *)

Definition digit_value (c : Z) : option Z :=
  if is_digit c then Some (c - 48)
  else if is_lower c then Some (c - 87)
  else if is_upper c then Some (c - 55)
  else None.
Fixpoint radix_value (base acc : Z) (s : jstr) : option Z :=
  match s with
  | [] => Some acc
  | c :: s' => match digit_value c with
               | Some d => if d <? base then radix_value base (acc * base + d) s' else None
               | None => None
               end
  end.
Definition radix_literal (base : Z) (s : jstr) : spec_float :=
  match s with
  | [] => S754_nan
  | _ => match radix_value base 0 s with
         | Some z => num_of_Z z
         | None => S754_nan
         end
  end.

(** A decimal literal without sign, which must fill the string. *)
Definition exponent_of (s : jstr) : option Z :=
  match s with
  | [] => Some 0
  | c :: r =>
      if (c =? 101) || (c =? 69) then
        let '(eneg, r1) := match r with
                           | x :: r' => if x =? 45 then (true, r')
                                        else if x =? 43 then (false, r') else (false, r)
                           | [] => (false, [])
                           end in
        match span_digits r1 with
        | (e :: es, []) => Some (if eneg : bool then - digits_value (e :: es)
                                 else digits_value (e :: es))
        | _ => None
        end
      else None
  end.
Definition decimal_literal (neg : bool) (s : jstr) : spec_float :=
  if jeqb s (js "Infinity") then S754_infinity neg
  else
    let '(int, s1) := span_digits s in
    let '(frac, s2) := match s1 with
                       | c :: r => if c =? 46 then span_digits r else ([], s1)
                       | [] => ([], [])
                       end in
    match int ++ frac with
    | [] => S754_nan
    | ds => match exponent_of s2 with
            | Some e => decimal_value neg (digits_value ds) (e - jlen frac)
            | None => S754_nan
            end
    end.
Definition stringToNumber (s : jstr) : spec_float :=
  match trim s with
  | [] => num_zero
  | 48 :: x :: r =>
      if (x =? 120) || (x =? 88) then radix_literal 16 r
      else if (x =? 111) || (x =? 79) then radix_literal 8 r
      else if (x =? 98) || (x =? 66) then radix_literal 2 r
      else decimal_literal false (48 :: x :: r)
  | 45 :: r => decimal_literal true r
  | 43 :: r => decimal_literal false r
  | r => decimal_literal false r
  end.

(** [String(array)] joins its elements with commas, so [Number] of an array of
    two or more elements is [NaN], of one element it is the number the element
    spells, of none it is 0.  [None] is the [TypeError] of an object whose own
    [toString] property hides the inherited method. *)
Fixpoint toNumber (v : jsval) : option spec_float :=
  match v with
  | JUndef => Some S754_nan
  | JNull => Some num_zero
  | JBool b => Some (num_of_Z (if b then 1 else 0))
  | JNum x => Some x
  | JStr s => Some (stringToNumber s)
  | JArr l =>
      match l with
      | [] => Some num_zero
      | [JUndef] => Some num_zero
      | [JBool _] => Some S754_nan
      | [JNum (S754_zero _)] => Some num_zero
      | [x] => toNumber x
      | _ =>
          if (fix throws (l : list jsval) : bool :=
                match l with
                | [] => false
                | x :: l' => match toNumber x with
                             | None => true
                             | Some _ => throws l'
                             end
                end) l
          then None else Some S754_nan
      end
  | JObj l => match obj_get l (js "toString") with
              | JUndef => Some S754_nan
              | _ => None
              end
  end.

Example number_of_decimal : stringToNumber (js " 12e1 ") = num_of_Z 120.
Proof. reflexivity. Qed.
Example number_of_hex : stringToNumber (js "0x1F") = num_of_Z 31.
Proof. reflexivity. Qed.
Example number_of_nan : stringToNumber (js "3+build") = S754_nan.
Proof. reflexivity. Qed.
Example number_of_array : toNumber (JArr [JStr (js "5")]) = Some (num_of_Z 5).
Proof. reflexivity. Qed.

(** ** Lemmas *)

Lemma nonNegativeInteger_nonneg v z : nonNegativeInteger v = Some z -> 0 <= z.
Proof.
  destruct v as [| | | x | | |]; try done. unfold nonNegativeInteger, numberValue.
  destruct (num_finite x && num_le num_zero x) eqn:E; [|done]. bool_inv.
  destruct x as [s | s | | s m e]; try done; cbn; [intros [= <-]; lia|].
  destruct s; [done|]. intros Hz.
  destruct (0 <=? e) eqn:Ee; bool_inv.
  - injection Hz as <-. assert (0 < 2 ^ e) by (apply Z.pow_pos_nonneg; lia). nia.
  - destruct (_ =? 0); [|done]. injection Hz as <-. apply Z.div_pos; [lia|].
    apply Z.pow_pos_nonneg; lia.
Qed.

(** ** Integers as numbers *)

Lemma digits2_pos_bound p : 2 ^ (Z.pos (digits2_pos p) - 1) <= Z.pos p < 2 ^ Z.pos (digits2_pos p).
Proof.
  induction p as [p IH|p IH|]; cbn [digits2_pos]; [| |cbn; lia];
    rewrite Pos2Z.inj_succ; set (d := Z.pos (digits2_pos p)) in *;
    assert (0 < d) by (subst d; lia);
    replace (Z.succ d - 1) with (Z.succ (d - 1)) by lia;
    rewrite !Z.pow_succ_r by lia; lia.
Qed.
Lemma digits2_pos_shift p n :
  Z.pos (digits2_pos (Pos.iter xO p n)) = Z.pos (digits2_pos p) + Z.pos n /\
  Z.pos (Pos.iter xO p n) = Z.pos p * 2 ^ Z.pos n.
Proof.
  induction n as [|n IH] using Pos.peano_ind; [cbn; lia|].
  rewrite Pos.iter_succ. cbn [digits2_pos]. rewrite !Pos2Z.inj_succ, Z.pow_succ_r by lia.
  rewrite (Pos2Z.inj_xO (Pos.iter _ _ _)). lia.
Qed.

(** A mantissa with exactly 53 digits is not rounded. *)
Lemma round_exact s m e : Z.pos (digits2_pos m) = 53 -> -1074 <= e <= 971 ->
  binary_round_aux 53 1024 s (Z.pos m) e loc_Exact = S754_finite s m e.
Proof.
  intros Hm He. unfold binary_round_aux, shr_fexp, Zdigits2. rewrite Hm.
  assert (Hf : fexp 53 1024 (53 + e) - e = 0) by (unfold fexp, emin; lia).
  rewrite Hf. cbn [shr shr_record_of_loc shr_m loc_of_shr_record round_nearest_even].
  rewrite Hm, Hf. cbn [shr shr_record_of_loc shr_m]. by rewrite (proj2 (Z.leb_le _ _)) by lia.
Qed.

Lemma num_of_Z_pos p : Z.pos p < 2 ^ 53 ->
  exists m e, num_of_Z (Z.pos p) = S754_finite false m e /\ e <= 0 /\ Z.pos m = Z.pos p * 2 ^ (- e).
Proof.
  intros Hp. unfold num_of_Z, binary_normalize, binary_round.
  destruct (digits2_pos_bound p) as [Hlo _]. set (d := Z.pos (digits2_pos p)) in *.
  assert (Hd : 0 < d <= 53).
  { split; [lia|]. enough (d - 1 < 53) by lia. apply (Z.pow_lt_mono_r_iff 2); [lia..|]. apply (Z.le_lt_trans _ (Z.pos p)); assumption. }
  assert (Hf : fexp 53 1024 (d + 0) = d - 53) by (unfold fexp, emin; lia).
  rewrite Hf. unfold shl_align. rewrite Z.sub_0_r.
  destruct (d - 53) as [|q|q] eqn:E; [|lia|].
  - rewrite round_exact by lia. exists p, 0. split; [done|]. change (2 ^ (- 0)) with 1. lia.
  - destruct (digits2_pos_shift p q) as [Hq1 Hq2].
    rewrite round_exact by lia. do 2 eexists. split; [done|]. change (- Z.neg q) with (Z.pos q). split; [lia | exact Hq2].
Qed.

Lemma num_to_of_Z z : 0 <= z < 2 ^ 53 -> num_to_Z (num_of_Z z) = Some z.
Proof.
  intros Hz. destruct z as [|p|p]; [done| |lia].
  destruct (num_of_Z_pos p ltac:(lia)) as (m & e & -> & He & Hm). cbn [num_to_Z].
  destruct (0 <=? e) eqn:E; bool_inv.
  - assert (e = 0) as -> by lia. cbn in Hm |- *. f_equal. lia.
  - rewrite Hm, Z.mod_mul, Z.div_mul by lia. done.
Qed.
Lemma num_of_Z_finite z : 0 <= z < 2 ^ 53 ->
  num_finite (num_of_Z z) = true /\ num_le num_zero (num_of_Z z) = true.
Proof.
  intros Hz. destruct z as [|p|p]; [done| |lia].
  destruct (num_of_Z_pos p ltac:(lia)) as (m & e & -> & _). done.
Qed.
