(* ===== verification/Wire.v ===== *)
(** * JSON texts with numbers

    [JSON.stringify] of the records the review queues compare by their text:
    objects in the order of their members, arrays, strings, booleans, null and
    non-negative integers.  The text determines the data ([json_text_inj]): it is
    a prefix code, decoded member by member, and [JSON.parse] reads it back.  Last
    come the texts of any number and of any parsed value. *)

From Stdlib Require Import ZArith Lia DecimalPos DecimalN DecimalFacts SpecFloat.
From stdpp Require Import base list strings.
From S2P Require Import Prelude Js Json Numbers.

Local Open Scope Z_scope.

Inductive wire : Type :=
| WNull
| WStr (s : jstr)
| WInt (n : Z)
| WBool (b : bool)
| WArr (l : list wire)
| WObj (l : list (jstr * wire)).

(** The spelling of a non-negative integer below 2^53. *)
Definition js_of_Z (n : Z) : jstr := js_of_uint (N.to_uint (Z.to_N n)).

Fixpoint json_text (w : wire) : jstr :=
  match w with
  | WNull => [110; 117; 108; 108] (* null *)
  | WStr s => quote s
  | WInt n => js_of_Z n
  | WBool b => if b then [116; 114; 117; 101] else [102; 97; 108; 115; 101] (* true, false *)
  | WArr l => 91 :: join [44] (json_text <$> l) ++ [93]
  | WObj l => 123 :: join [44] ((fun kv => quote kv.1 ++ 58 :: json_text kv.2) <$> l) ++ [125]
  end.

Fixpoint wf_wire (w : wire) : Prop :=
  match w with
  | WNull => True
  | WStr s => wf_jstr s
  | WInt n => 0 <= n
  | WBool _ => True
  | WArr l => foldr (fun x P => wf_wire x /\ P) True l
  | WObj l => foldr (fun kv P => (wf_jstr kv.1 /\ wf_wire kv.2) /\ P) True l
  end.

(** ** Lemmas *)

Fixpoint wire_ind' (P : wire -> Prop) (HN : P WNull) (HS : forall s, P (WStr s)) (HI : forall n, P (WInt n))
    (HB : forall b, P (WBool b))
    (HA : forall l, Forall P l -> P (WArr l))
    (HO : forall l, Forall (fun kv => P kv.2) l -> P (WObj l)) (w : wire) : P w :=
  match w with
  | WNull => HN
  | WStr s => HS s
  | WInt n => HI n
  | WBool b => HB b
  | WArr l =>
      HA l ((fix go (l : list wire) : Forall P l :=
        match l with
        | [] => Forall_nil_2 _
        | x :: l' => Forall_cons_2 _ _ _ (wire_ind' P HN HS HI HB HA HO x) (go l')
        end) l)
  | WObj l =>
      HO l ((fix go (l : list (jstr * wire)) : Forall (fun kv => P kv.2) l :=
        match l with
        | [] => Forall_nil_2 _
        | x :: l' => Forall_cons_2 (fun kv => P kv.2) _ _ (wire_ind' P HN HS HI HB HA HO x.2) (go l')
        end) l)
  end.

Lemma js_of_uint_digits d : Forall (fun c => is_digit c = true) (js_of_uint d).
Proof. induction d; cbn; constructor; done. Qed.
Lemma js_of_uint_inj d e : js_of_uint d = js_of_uint e -> d = e.
Proof. revert e; induction d; intros []; cbn; intros [=]; f_equal; auto. Qed.
Lemma js_of_Z_inj n m : 0 <= n -> 0 <= m -> js_of_Z n = js_of_Z m -> n = m.
Proof. intros Hn Hm H%js_of_uint_inj%DecimalN.Unsigned.to_uint_inj. lia. Qed.
Lemma js_of_Z_head n : exists c r, js_of_Z n = c :: r /\ is_digit c = true.
Proof.
  unfold js_of_Z. pose proof (js_of_uint_digits (N.to_uint (Z.to_N n))) as Hd.
  destruct (js_of_uint _) as [|c r] eqn:E.
  - exfalso. destruct (Z.to_N n) as [|p]; cbn in E; [done|].
    apply (DecimalPos.Unsigned.to_uint_nonnil p). by destruct (Pos.to_uint p).
  - inversion Hd; eauto.
Qed.

Definition prefix_code {A} (f : A -> jstr) (x : A) (ok : A -> Prop) : Prop :=
  ok x -> forall y r1 r2, ok y -> delimited r1 -> delimited r2 ->
  f x ++ r1 = f y ++ r2 -> x = y /\ r1 = r2.

Lemma digits_prefix (d e r1 r2 : jstr) :
  Forall (fun c => is_digit c = true) d -> Forall (fun c => is_digit c = true) e ->
  delimited r1 -> delimited r2 -> d ++ r1 = e ++ r2 -> d = e /\ r1 = r2.
Proof.
  intros Hd; revert e; induction Hd as [|c d Hc Hd IH]; intros e He H1 H2 H.
  - destruct He as [|c e Hc He]; [done|]. exfalso. cbn in H. subst r1. cbn in H1. range_inv. lia.
  - destruct He as [|c' e Hc' He]; cbn in H.
    + exfalso. subst r2. cbn in H2. range_inv. lia.
    + injection H as -> H. destruct (IH e He H1 H2 H) as [-> ->]. done.
Qed.

Lemma quote_prefix s t r1 r2 : wf_jstr s -> wf_jstr t ->
  quote s ++ r1 = quote t ++ r2 -> s = t /\ r1 = r2.
Proof.
  intros Hs Ht H. unfold quote in H. cbn in H. injection H as H. rewrite <- !app_assoc in H. cbn in H.
  pose proof (parse_quote_body s r1 Hs) as E. rewrite H, parse_quote_body in E by done. by simplify_eq.
Qed.

(** A bracketed list of values of a prefix code. *)
Lemma join_prefix {A} (f : A -> jstr) (ok : A -> Prop) (close : Z) (l1 l2 : list A) r1 r2 :
  close = 93 \/ close = 125 ->
  Forall (fun x => prefix_code f x ok) l1 -> Forall ok l1 -> Forall ok l2 ->
  (forall x, exists c r, f x = c :: r /\ c <> close) ->
  join [44] (f <$> l1) ++ close :: r1 = join [44] (f <$> l2) ++ close :: r2 -> l1 = l2 /\ r1 = r2.
Proof.
  intros Hc Hp. revert l2. induction Hp as [|x l1 Hx Hl IH]; intros l2 H1 H2 Hh H.
  - destruct l2 as [|y l2]; [by simplify_eq/=|]. exfalso.
    destruct (Hh y) as (c & r & E & Hne). rewrite fmap_cons, E in H.
    destruct (f <$> l2) eqn:El; cbn in H; by injection H as ? _.
  - apply Forall_cons in H1 as [Ox Ol].
    destruct l2 as [|y l2].
    { exfalso. destruct (Hh x) as (c & r & E & Hne). rewrite fmap_cons, E in H.
      destruct (f <$> l1) eqn:El; cbn in H; by injection H as ? _. }
    apply Forall_cons in H2 as [Oy Ol2].
    assert (Hsplit : forall z l r, join [44] (f <$> z :: l) ++ close :: r =
              f z ++ match l with [] => close :: r | _ => 44 :: join [44] (f <$> l) ++ close :: r end).
    { intros z [|w l] r; [done|]. rewrite !fmap_cons. cbn [join]. by rewrite <- !app_assoc. }
    rewrite !Hsplit in H.
    apply (Hx Ox y _ _ Oy) in H as [-> H]; [| by destruct l1; cbn; tauto | by destruct l2; cbn; tauto].
    destruct l1 as [|z1 l1'], l2 as [|z2 l2'].
    + by simplify_eq.
    + exfalso. injection H as -> _. destruct Hc; lia.
    + exfalso. injection H as H _. destruct Hc; lia.
    + injection H as H. destruct (IH (z2 :: l2') Ol Ol2 Hh H) as [-> ->]. done.
Qed.

Lemma json_text_head w : exists c r, json_text w = c :: r /\ c <> 93 /\ c <> 125.
Proof.
  destruct w as [| |n|[]| |]; cbn; [eexists 110, _; done|eexists 34, _; done| |eexists 116, _; done|eexists 102, _; done
                               |eexists 91, _; done|eexists 123, _; done].
  destruct (js_of_Z_head n) as (c & r & -> & Hc). exists c, r. range_inv. split; [done | lia].
Qed.

(** Values of different kinds start with different characters. *)
Ltac kind_clash H :=
  exfalso; cbn [json_text] in H; unfold quote in H; cbn [app] in H;
  repeat match type of H with
  | context [js_of_Z ?n] =>
      let E := fresh in
      destruct (js_of_Z_head n) as (? & ? & E & ?); rewrite E in H; clear E; cbn [app] in H
  | context [if ?b then _ :: _ else _ :: _] => destruct b; cbn [app] in H
  end;
  injection H; intros; subst; range_inv; lia.

Lemma wf_wire_arr l : wf_wire (WArr l) <-> Forall wf_wire l.
Proof. cbn. induction l as [|x l IH]; cbn; [by split; auto|]. by rewrite Forall_cons, IH. Qed.
Lemma wf_wire_obj l : wf_wire (WObj l) <-> Forall (fun kv => wf_jstr kv.1 /\ wf_wire kv.2) l.
Proof. cbn. induction l as [|x l IH]; cbn; [by split; auto|]. by rewrite Forall_cons, IH. Qed.

Lemma member_prefix kv :
  prefix_code json_text kv.2 wf_wire ->
  prefix_code (fun kv : jstr * wire => quote kv.1 ++ 58 :: json_text kv.2) kv
    (fun kv => wf_jstr kv.1 /\ wf_wire kv.2).
Proof.
  destruct kv as [k v]. cbn. intros Hv [Hk Ov] [k' v'] r1 r2 [Hk' Ov'] D1 D2 H. cbn in *.
  rewrite <- !app_assoc in H. apply quote_prefix in H as [-> H]; [|done..].
  cbn in H. injection H as H. by destruct (Hv Ov v' r1 r2 Ov' D1 D2 H) as [-> ->].
Qed.

Lemma json_text_prefix w : prefix_code json_text w wf_wire.
Proof.
  induction w as [|s|n|b|l IH|l IH] using wire_ind'; intros Ow v r1 r2 Ov D1 D2 H;
    destruct v as [|s'|n'|b'|l'|l']; try kind_clash H; cbn [json_text] in H.
  - by simplify_eq/=.
  - by apply quote_prefix in H as [-> ->].
  - apply digits_prefix in H as [H ->]; [|apply js_of_uint_digits..|done|done].
    by apply js_of_Z_inj in H as ->.
  - by destruct b, b'; cbn [app] in H; simplify_eq.
  - cbn in H. injection H as H. rewrite <- !app_assoc in H. apply wf_wire_arr in Ow, Ov.
    apply join_prefix with (ok := wf_wire) in H as [-> ->]; auto.
    intros x. destruct (json_text_head x) as (d & t & ? & ? & ?). eauto.
  - cbn in H. injection H as H. rewrite <- !app_assoc in H. apply wf_wire_obj in Ow, Ov.
    apply join_prefix with (ok := fun kv => wf_jstr kv.1 /\ wf_wire kv.2) in H as [-> ->]; auto.
    + eapply Forall_impl; [exact IH|]. intros kv. apply member_prefix.
    + intros x. eexists 34, _. split; [done | lia].
Qed.

(** Two well-formed values with the same text are the same value. *)
Lemma json_text_inj v w : wf_wire v -> wf_wire w -> json_text v = json_text w -> v = w.
Proof.
  intros Hv Hw H. apply (json_text_prefix v Hv w [] [] Hw I I). by rewrite H.
Qed.

(** * Reading a JSON text back

    [JSON.parse] of a text with integers ([Wire.json_text]) gives the document
    back: the responses the handlers write and the claims of a session cookie
    are read as they were written. *)

(** The value a document stands for. *)
Fixpoint wire_value (w : wire) : jsval :=
  match w with
  | WNull => JNull
  | WStr s => JStr s
  | WInt n => JNum (num_of_Z n)
  | WBool b => JBool b
  | WArr l => JArr (wire_value <$> l)
  | WObj l => JObj ((fun kv => (kv.1, wire_value kv.2)) <$> l)
  end.
(** A document whose objects have distinct keys. *)
Fixpoint wire_ok (w : wire) : Prop :=
  match w with
  | WNull | WBool _ => True
  | WStr s => wf_jstr s
  | WInt n => 0 <= n
  | WArr l => foldr (fun x P => wire_ok x /\ P) True l
  | WObj l => NoDup l.*1 /\ foldr (fun kv P => (wf_jstr kv.1 /\ wire_ok kv.2) /\ P) True l
  end.

(** ** Integers *)

Lemma digits_value_acc d p : foldl (fun acc c => acc * 10 + (c - 48)) (Z.pos p) (js_of_uint d)
  = Z.pos (Pos.of_uint_acc d p).
Proof.
  revert p. induction d; intros p; [done|..]; cbn [js_of_uint foldl Pos.of_uint_acc]; rewrite <- IHd; f_equal; lia.
Qed.
Lemma digits_value_uint d : digits_value (js_of_uint d) = Z.of_N (N.of_uint d).
Proof.
  unfold digits_value. induction d; [done|exact IHd|..]; cbn [js_of_uint foldl]; apply digits_value_acc.
Qed.
Lemma digits_value_Z n : 0 <= n -> digits_value (js_of_Z n) = n.
Proof. intros Hn. unfold js_of_Z. rewrite digits_value_uint, DecimalN.Unsigned.of_to. lia. Qed.

(** No leading zero. *)
Lemma to_uint_head n d : N.to_uint n = Decimal.D0 d -> d = Decimal.Nil.
Proof.
  intros E. pose proof (DecimalN.Unsigned.to_of (N.to_uint n)) as H. rewrite DecimalN.Unsigned.of_to, E in H.
  unfold Decimal.unorm in H. destruct (Decimal.nzhead (Decimal.D0 d)) eqn:Eh; try discriminate; [by injection H|].
  by apply nzhead_nonzero in Eh.
Qed.

Lemma span_digits_all s rest : Forall (fun c => is_digit c = true) s -> delimited rest ->
  span_digits (s ++ rest) = (s, rest).
Proof.
  intros Hs Hr. induction Hs as [|c s Hc Hs IH]; cbn.
  - destruct rest as [|c r]; [done|]. cbn. destruct Hr as [-> | [-> | ->]]; done.
  - by rewrite Hc, IH.
Qed.
Lemma decimal_integer n : 0 <= n -> decimal_value false n 0 = num_of_Z n.
Proof.
  intros Hn. unfold decimal_value. destruct (n =? 0) eqn:E; bool_inv; [by subst|].
  cbn [Z.leb]. change (10 ^ 0) with 1. by rewrite Z.mul_1_r.
Qed.
Lemma parse_integer n rest : 0 <= n -> delimited rest ->
  parse_number (js_of_Z n ++ rest) = Some (num_of_Z n, rest).
Proof.
  intros Hn Hr. destruct (js_of_Z_head n) as (c & r & E & Hc).
  assert (Hz : c = 48 -> r = []).
  { intros ->. unfold js_of_Z in E. destruct (N.to_uint (Z.to_N n)) as [|d|d|d|d|d|d|d|d|d|d] eqn:En; cbn in E; try discriminate.
    apply to_uint_head in En as ->. by injection E. }
  pose proof (js_of_uint_digits (N.to_uint (Z.to_N n))) as Hd. fold (js_of_Z n) in Hd.
  pose proof (digits_value_Z n Hn) as Hv. pose proof (decimal_integer n Hn) as Hnum.
  assert (Hspan := span_digits_all _ rest Hd Hr).
  unfold parse_number. rewrite E in *. cbn [app] in *.
  assert (c =? 45 = false) as -> by (unfold is_digit in Hc; range_inv; lia).
  rewrite Hspan.
  assert ((c =? 48) && negb (bool_decide (r = [])) = false) as ->.
  { destruct (c =? 48) eqn:E48; [|done]. bool_inv. rewrite Hz by done. done. }
  destruct rest as [|d rest]; [|destruct Hr as [-> | [-> | ->]]]; cbn -[decimal_value digits_value];
    change (0 - jlen []) with 0; by rewrite app_nil_r, Hv, Hnum.
Qed.

(** ** Documents *)

Lemma wire_ok_arr l : wire_ok (WArr l) <-> Forall wire_ok l.
Proof. cbn. induction l as [|x l IH]; cbn; [by split; auto|]. by rewrite Forall_cons, IH. Qed.
Lemma wire_ok_obj l : wire_ok (WObj l) <-> NoDup l.*1 /\ Forall (fun kv => wf_jstr kv.1 /\ wire_ok kv.2) l.
Proof.
  cbn. enough (H : foldr (fun kv P => (wf_jstr kv.1 /\ wire_ok kv.2) /\ P) True l <->
                   Forall (fun kv => wf_jstr kv.1 /\ wire_ok kv.2) l) by (by rewrite H).
  induction l as [|x l IH]; cbn; [by split; auto|]. by rewrite Forall_cons, IH.
Qed.

Lemma wire_starts w : starts_value json_text w.
Proof.
  destruct w as [|s|n|[]|l|l]; cbn; try (eexists _, _; (split; [reflexivity|]); done).
  destruct (js_of_Z_head n) as (c & r & E & Hc). exists c, r. split; [done|]. unfold is_digit in Hc. range_inv.
  unfold is_json_space. repeat split; lia.
Qed.
Lemma parse_wire w : wire_ok w -> parses json_text wire_value w.
Proof.
  induction w as [|s|n|b|l IH|l IH] using wire_ind'; intros Hw fuel rest Hr Hf.
  - destruct fuel as [|fuel]; [cbn in Hf; lia | done].
  - apply parse_quote; [done|]. destruct fuel; [by inversion Hf|lia].
  - destruct (js_of_Z_head n) as (c & r & E & Hc). cbn [json_text] in *.
    destruct fuel as [|fuel]; [rewrite E in Hf; cbn in Hf; lia|].
    pose proof (parse_integer n rest Hw Hr) as Hp. rewrite E in *. cbn [app] in *.
    unfold is_digit in Hc. range_inv. cbn [parse_value].
    rewrite skip_ws_nonspace by (unfold is_json_space; lia).
    repeat match goal with |- context [c =? ?k] => replace (c =? k) with false by lia end.
    unfold parse_scalar. rewrite Hp.
    assert (Hs : forall p, (exists d q, js p = d :: q /\ d <> c) -> startsWith (js p) (c :: r ++ rest) = false).
    { intros p (d & q & -> & Hne). cbn. by rewrite (proj2 (Z.eqb_neq d c)). }
    rewrite !Hs by (eexists _, _; split; [cbv; reflexivity|lia]). done.
  - destruct fuel as [|fuel]; [destruct b; cbn in Hf; lia|]. by destruct b.
  - apply wire_ok_arr in Hw. apply (parse_array json_text wire_value); [|rewrite Forall_forall in *; auto|done].
    apply Forall_forall. intros x _. apply wire_starts.
  - apply wire_ok_obj in Hw as [Hnd Hw]. apply (parse_object json_text wire_value l); [|done|done].
    rewrite Forall_forall in *. intros kv Hkv. destruct (Hw kv Hkv). split; [done|]. by apply (IH kv Hkv).
Qed.

Lemma json_parse_wire w : wire_ok w -> json_parse (json_text w) = Some (wire_value w).
Proof. intros Hw. apply parse_document, parse_wire, Hw. Qed.

(** The text is well-formed Unicode. *)
Lemma json_text_ok w : wire_ok w -> text_ok (json_text w).
Proof.
  induction w as [|s|n|b|l IH|l IH] using wire_ind'; intros Hw.
  - apply ascii_well_formed. repeat constructor; done.
  - by apply quote_ok.
  - apply ascii_well_formed. eapply Forall_impl; [apply js_of_uint_digits|].
    cbn. unfold is_digit, is_ascii. intros c Hc. range_inv. lia.
  - apply ascii_well_formed. destruct b; repeat constructor; done.
  - apply wire_ok_arr in Hw. apply text_ok_cons; [done|]. apply text_ok_app; [|apply text_ok_cons; [done|apply text_ok_nil]].
    apply join_ok; [done|]. apply Forall_fmap. rewrite Forall_forall in *. cbn. auto.
  - apply wire_ok_obj in Hw as [_ Hw]. apply text_ok_cons; [done|].
    apply text_ok_app; [|apply text_ok_cons; [done|apply text_ok_nil]].
    apply join_ok; [done|]. apply Forall_fmap. rewrite Forall_forall in *. intros kv Hkv. cbn.
    destruct (Hw kv Hkv). apply text_ok_app; [by apply quote_ok|]. apply text_ok_cons; [done|]. by apply (IH kv Hkv).
Qed.

(** * The text of numbers and of JSON values

    [Number.prototype.toString] in base ten, and [JSON.stringify] of the values
    [JSON.parse] gives, numbers included. *)

(** ** [String(x)] of a number *)

(** The binary64 value [m * 2 ^ e] times a power of ten, rounded down. *)
Definition scaled (m e q : Z) : Z :=
  m * 2 ^ Z.max e 0 * 10 ^ Z.max q 0 / (2 ^ Z.max (- e) 0 * 10 ^ Z.max (- q) 0).
(** The exponent of the decimal notation: [10 ^ (n - 1) <= m * 2 ^ e < 10 ^ n].
    The search begins above the estimate from the binary logarithm. *)
Fixpoint decimal_exponent (candidates : nat) (m e n : Z) : Z :=
  match candidates with
  | O => n
  | S candidates => if 1 <=? scaled m e (1 - n) then n else decimal_exponent candidates m e (n - 1)
  end.
Definition exponent_estimate (m e : Z) : Z := (Z.log2 m + e) * 30103 / 100000 + 2.
(** The candidates with [k] digits are the two integers around the scaled value;
    one stands for the number when it is read back as the number.  The larger
    one may be [10 ^ k], which is a single digit one place further. *)
Definition stands_for (x : spec_float) (s q : Z) : bool :=
  match decimal_value false s q, x with
  | S754_finite _ m e, S754_finite _ m' e' => (Zpos m =? Zpos m') && (e =? e')
  | _, _ => false
  end.
Definition digits_of_length (x : spec_float) (m e n k : Z) : option Z :=
  let low := scaled m e (k - n) in
  let within s := (10 ^ (k - 1) <=? s) && (s <=? 10 ^ k) && stands_for x s (n - k) in
  match within low, within (low + 1) with
  | true, true =>
      (* the closer one; twice the value at this scale is compared with the odd number between *)
      if scaled (2 * m) e (k - n) <? 2 * low + 1 then Some low else Some (low + 1)
  | true, false => Some low
  | false, true => Some (low + 1)
  | false, false => None
  end.
(** The fewest digits; seventeen are always enough. *)
Fixpoint shortest_digits (left_ : nat) (x : spec_float) (m e n k : Z) : Z * Z * Z :=
  match digits_of_length x m e n k, left_ with
  | Some s, _ => if s =? 10 ^ k then (1, 1, n + 1) else (s, k, n)
  | None, O => (scaled m e (k - n), k, n)
  | None, S left_ => shortest_digits left_ x m e n (k + 1)
  end.
Definition zeros_text (n : Z) : jstr := replicate (Z.to_nat n) 48.
Definition decimal_text_of (s k n : Z) : jstr :=
  let digits := js_of_Z s in
  if (k <=? n) && (n <=? 21) then digits ++ zeros_text (n - k)
  else if (0 <? n) && (n <=? 21) then take (Z.to_nat n) digits ++ 46 :: drop (Z.to_nat n) digits
  else if (-6 <? n) && (n <=? 0) then 48 :: 46 :: zeros_text (- n) ++ digits
  else
    let exponent := (if 0 <=? n - 1 then 43 else 45) :: js_of_Z (Z.abs (n - 1)) in
    match digits with
    | d :: rest => d :: (if bool_decide (rest = []) then [] else 46 :: rest) ++ 101 :: exponent
    | [] => []
    end.
Definition numberToString (x : spec_float) : jstr :=
  match x with
  | S754_zero _ => js "0"
  | S754_infinity neg => if neg then js "-Infinity" else js "Infinity"
  | S754_nan => js "NaN"
  | S754_finite neg m e =>
      let magnitude := S754_finite false m e in
      let n := decimal_exponent 4 (Zpos m) e (exponent_estimate (Zpos m) e) in
      let '(s, k, n) := shortest_digits 16 magnitude (Zpos m) e n 1 in
      (if neg then [45] else []) ++ decimal_text_of s k n
  end.

(** ** [JSON.stringify(value)]

    [None] is [undefined]; a number that is not finite is written as null. *)
Fixpoint json_stringify (v : jsval) : option jstr :=
  match v with
  | JUndef => None
  | JNull => Some (js "null")
  | JBool b => Some (if b then js "true" else js "false")
  | JNum x => Some (if num_finite x then numberToString x else js "null")
  | JStr s => Some (quote s)
  | JArr l => Some (91 :: join [44] ((fun x => default (js "null") (json_stringify x)) <$> l) ++ [93])
  | JObj l =>
      Some (123 :: join [44] (omap (fun kv => (fun text => quote kv.1 ++ 58 :: text) <$> json_stringify kv.2) l) ++ [125])
  end.

(** ** Concrete texts *)

Definition read_number (s : string) : spec_float := stringToNumber (js s).
Example shortest_texts :
  (fun s => bool_decide (numberToString (read_number s) = js s)) <$>
    ["0"; "1"; "-1"; "100"; "0.1"; "0.30000000000000004"; "123456.789"; "1e+21"; "100000000000000000000"; "1e-7";
     "0.000001"; "1.5e-9"; "5e-324"; "1.7976931348623157e+308"; "9007199254740993"; "2.2250738585072014e-308";
     "4.35"; "9.5e+22"]%string =
  [true; true; true; true; true; true; true; true; true; true; true; true; true; true; false; true; true; true].
Proof. vm_compute. reflexivity. Qed.
Example stringified :
  json_stringify (JObj [(js "a", JArr [JNum (read_number "1.50"); JUndef; JNull]); (js "b", JUndef);
                        (js "c", JNum (read_number "1e999"))]) =
  Some ([123] ++ quote (js "a") ++ js ":[1.5,null,null]," ++ quote (js "c") ++ js ":null}").
Proof. vm_compute. reflexivity. Qed.
