(* ===== verification/Bundle.v ===== *)
(** * Distribution bundles

    [packages/storage/src/bundle.ts], the transport layer: path safety, file
    validation, [validateBundle], and the canonical codec [encodeBundle] /
    [decodeBundle].  A thrown [BundleValidationError] is an [Err] that keeps the
    error's code and path; its message text is not modelled.  The runtime is
    assumed to have [btoa] and [atob] (the two [configuration] errors are for
    hosts without them). *)

From Stdlib Require Import ZArith Lia.
From stdpp Require Import base list sorting strings sets.
From S2P Require Import Prelude Js Base64 Json.

Local Open Scope Z_scope.

(** ** Data *)

Inductive bundle_code : Type :=
| invalid_bundle | unsupported_property | invalid_base64 | invalid_skill_encoding
| invalid_path | unsafe_path | path_too_long | invalid_file | plugin_payload
| invalid_content | invalid_executable | file_too_large | invalid_format | invalid_files
| empty_bundle | too_many_files | path_collision | bundle_too_large | non_canonical
| missing_frontmatter | invalid_frontmatter | unsafe_frontmatter | missing_skill_metadata
| invalid_skill_name | invalid_skill_description.

Record BundleValidationError := {
  code : bundle_code;
  err_path : option jstr;
}.
Definition bundle_error (c : bundle_code) (p : jstr) : BundleValidationError :=
  {| code := c; err_path := Some p |}.
Definition bundle_error_nopath (c : bundle_code) : BundleValidationError :=
  {| code := c; err_path := None |}.
Abbreviation bresult := (result BundleValidationError).

(** [executable] is an optional property: [None] when it is absent. *)
Record BundleFile := {
  path : jstr;
  content : jstr;
  executable : option bool;
}.
Record SkillBundle := {
  files : list BundleFile;
}.

#[export] Instance bundle_code_eq_dec : EqDecision bundle_code.
Proof. solve_decision. Defined.
#[export] Instance BundleFile_eq_dec : EqDecision BundleFile.
Proof. solve_decision. Defined.
#[export] Instance SkillBundle_eq_dec : EqDecision SkillBundle.
Proof. solve_decision. Defined.

Definition MAX_BUNDLE_FILES : Z := 2000.
Definition MAX_FILE_BYTES : Z := 10 * 1024 * 1024.
Definition MAX_BUNDLE_BYTES : Z := 100 * 1024 * 1024.
Definition MAX_FILE_BASE64_CHARS : Z := (MAX_FILE_BYTES + 2) / 3 * 4.

Definition BUNDLE_KEYS : list jstr := [js "format"; js "files"].
Definition FILE_KEYS : list jstr := [js "path"; js "content"; js "executable"].
Definition BUNDLE_FORMAT : jstr := js "pskills-bundle-v1".
Definition RESERVED_AGENT_SEGMENTS : list jstr :=
  [js ".agents"; js ".claude-plugin"; js ".codex"; js ".cursor"; js ".mcp"; js ".mcp.json";
   js ".windsurf"].

(** The device names con, prn, aux, nul, com1 to com9 and lpt1 to lpt9 in any
    case, alone or followed by a dot and characters other than line
    terminators.  No character outside ASCII folds to a letter of these names. *)
Definition reserved_stems : list jstr :=
  [js "con"; js "prn"; js "aux"; js "nul"] ++
  ((fun d => js "com" ++ [d]) <$> seqZ 49 9) ++ ((fun d => js "lpt" ++ [d]) <$> seqZ 49 9).
Definition WINDOWS_RESERVED_SEGMENT (s : jstr) : bool :=
  existsb (fun stem =>
    startsWith stem (ascii_lower <$> s) &&
    match drop (length stem) s with
    | [] => true
    | c :: r => (c =? 46) && forallb (fun u => negb (is_line_terminator u)) r
    end) reserved_stems.
Definition is_control (c : Z) : bool := between 0 c 0x1f || (c =? 0x7f).
Definition CONTROL_CHARACTER (s : jstr) : bool := existsb is_control s.
(** The class of less-than, greater-than, double quote, bar, question mark and
    asterisk. *)
Definition is_windows_reserved (c : Z) : bool := bool_decide (c ∈ [60; 62; 34; 124; 63; 42]).
Definition WINDOWS_RESERVED_CHARACTER (s : jstr) : bool := existsb is_windows_reserved s.

(** ** Helpers *)

Definition assertOnlyKeys (value : list (jstr * jsval)) (allowed : list jstr) (label : jstr)
    : bresult unit :=
  throw_if existsb (fun kv => negb (bool_decide (kv.1 ∈ allowed))) value
    with bundle_error unsupported_property label ;;
  Ok tt.

(** The loop reads [charCodeAt(index + 1)], which is [NaN] past the end; both
    comparisons with [NaN] are false, so a high surrogate in last position is
    skipped and not reported. *)
Fixpoint hasLoneSurrogate (s : jstr) : bool :=
  match s with
  | [] => false
  | c :: r =>
      if (0xd800 <=? c) && (c <=? 0xdbff) then
        match r with
        | next :: r' => if (next <? 0xdc00) || (0xdfff <? next) then true else hasLoneSurrogate r'
        | [] => false
        end
      else if (0xdc00 <=? c) && (c <=? 0xdfff) then true
      else hasLoneSurrogate r
  end.

Definition decodeBase64 (value : jsval) (p : jstr) : bresult (list Z) :=
  match value with
  | JStr s =>
      throw_if negb (isCanonicalBase64 s) with bundle_error invalid_base64 p ;;
      match atob s with
      | None => Err (bundle_error invalid_base64 p)
      | Some bytes =>
          throw_if negb (jeqb (encodeBase64 bytes) s) with bundle_error invalid_base64 p ;;
          Ok bytes
      end
  | _ => Err (bundle_error invalid_base64 p)
  end.

Definition bytesEqual (left right : list Z) : bool :=
  (length left =? length right)%nat &&
  forallb (fun p => p.1 =? p.2) (zip left right).

Section with_unicode.
Context {U : UnicodeTables}.

Definition isPluginEnablingPath (p : jstr) : bool :=
  existsb (fun segment => bool_decide (segment ∈ RESERVED_AGENT_SEGMENTS))
    (split 47 (toLowerCase p)).

Definition pathCollisionKey (p : jstr) : jstr := toLowerCase (normalizeNFC p).

(** [files[i]] and [files[i].path] in error labels. *)
Definition file_label (index : nat) : jstr := js "files[" ++ js_of_nat index ++ js "]".
Definition file_path_label (index : nat) : jstr := file_label index ++ js ".path".

Definition unsafe_segment (segment : jstr) : bool :=
  (jlen segment =? 0) || jeqb segment (js ".") || jeqb segment (js "..") ||
  endsWith (js ".") segment || endsWith (js " ") segment || WINDOWS_RESERVED_SEGMENT segment.

Fixpoint validate_segments (p : jstr) (segments : list jstr) : bresult unit :=
  match segments with
  | [] => Ok tt
  | segment :: rest =>
      throw_if unsafe_segment segment with bundle_error unsafe_path p ;;
      throw_if 255 <? jlen (textEncode segment) with bundle_error path_too_long p ;;
      validate_segments p rest
  end.

Definition validatePath (value : jsval) (index : nat) : bresult jstr :=
  match value with
  | JStr p =>
      throw_if jlen p =? 0 with bundle_error invalid_path (file_path_label index) ;;
      throw_if hasLoneSurrogate p || negb (jeqb p (normalizeNFC p))
        with bundle_error invalid_path p ;;
      throw_if (4096 <? jlen p) || startsWith [47] p || endsWith [47] p || includes [92] p ||
               includes [58] p || includes [47; 47] p || WINDOWS_RESERVED_CHARACTER p ||
               CONTROL_CHARACTER p
        with bundle_error unsafe_path p ;;
      let? _ := validate_segments p (split 47 p) in
      Ok p
  | _ => Err (bundle_error invalid_path (file_path_label index))
  end.

Record ValidatedFile := {
  file : BundleFile;
  decodedBytes : Z;
}.

Definition validateFile (value : jsval) (index : nat) : bresult ValidatedFile :=
  match value with
  | JObj props =>
      let? _ := assertOnlyKeys props FILE_KEYS (file_label index) in
      let? p := validatePath (obj_get props (js "path")) index in
      throw_if isPluginEnablingPath p with bundle_error plugin_payload p ;;
      match obj_get props (js "content") with
      | JStr c =>
          throw_if hasLoneSurrogate c with bundle_error invalid_base64 p ;;
          let? exec :=
            match obj_get props (js "executable") with
            | JUndef => Ok None
            | JBool b => Ok (if b then Some true else None)
            | _ => Err (bundle_error invalid_executable p)
            end in
          throw_if MAX_FILE_BASE64_CHARS <? jlen c with bundle_error file_too_large p ;;
          let? bytes := decodeBase64 (JStr c) p in
          throw_if MAX_FILE_BYTES <? jlen bytes with bundle_error file_too_large p ;;
          Ok {| file := {| path := p; content := c; executable := exec |};
                decodedBytes := jlen bytes |}
      | _ => Err (bundle_error invalid_content p)
      end
  | _ => Err (bundle_error invalid_file (file_label index))
  end.

(** The loop of [validateBundle]; [seen] holds the collision keys so far. *)
Fixpoint validate_files (index : nat) (seen : list jstr) (totalBytes : Z) (l : list jsval)
    : bresult (list BundleFile) :=
  match l with
  | [] => Ok []
  | value :: rest =>
      let? validated := validateFile value index in
      let f := file validated in
      let key := pathCollisionKey (path f) in
      throw_if bool_decide (key ∈ seen) with bundle_error path_collision (path f) ;;
      let total' := totalBytes + decodedBytes validated in
      throw_if MAX_BUNDLE_BYTES <? total' with bundle_error bundle_too_large (path f) ;;
      let? fs := validate_files (S index) (key :: seen) total' rest in
      Ok (f :: fs)
  end.

Definition validateBundle (bundle : jsval) : bresult SkillBundle :=
  match bundle with
  | JObj props =>
      let? _ := assertOnlyKeys props BUNDLE_KEYS (js "bundle") in
      throw_if (match obj_get props (js "format") with
                | JStr s => negb (jeqb s BUNDLE_FORMAT)
                | _ => true
                end) with bundle_error invalid_format (js "format") ;;
      match obj_get props (js "files") with
      | JArr l =>
          throw_if (length l =? 0)%nat with bundle_error empty_bundle (js "files") ;;
          throw_if MAX_BUNDLE_FILES <? Z.of_nat (length l)
            with bundle_error too_many_files (js "files") ;;
          let? fs := validate_files 0 [] 0 l in
          Ok {| files := fs |}
      | _ => Err (bundle_error invalid_files (js "files"))
      end
  | _ => Err (bundle_error_nopath invalid_bundle)
  end.

(** ** The canonical codec *)

Definition comparePaths (left right : BundleFile) : comparison :=
  jcompare (path left) (path right).

(** A bundle as the JavaScript value the typed code holds. *)
Definition file_data (f : BundleFile) : jdata :=
  TObj ([(js "path", TStr (path f)); (js "content", TStr (content f))] ++
        match executable f with
        | Some b => [(js "executable", TBool b)]
        | None => []
        end).
Definition bundle_data (fs : list BundleFile) : jdata :=
  TObj [(js "format", TStr BUNDLE_FORMAT); (js "files", TArr (file_data <$> fs))].
Definition bundle_value (b : SkillBundle) : jsval := embed (bundle_data (files b)).

(** The object literal of [encodeBundle] writes [executable] only when true. *)
Definition canonical_file (f : BundleFile) : BundleFile :=
  {| path := path f; content := content f;
     executable := match executable f with
                   | Some true => Some true
                   | _ => None
                   end |}.

Definition encodeBundle (bundle : jsval) : bresult (list Z) :=
  let? normalized := validateBundle bundle in
  let fs := canonical_file <$> js_sort comparePaths (files normalized) in
  Ok (textEncode (stringify (bundle_data fs))).

Definition decodeBundle (bytes : list Z) : bresult SkillBundle :=
  throw_if (match bytes with
            | b0 :: b1 :: b2 :: _ => (b0 =? 0xef) && (b1 =? 0xbb) && (b2 =? 0xbf)
            | _ => false
            end) with bundle_error_nopath invalid_bundle ;;
  match textDecode bytes with
  | None => Err (bundle_error_nopath invalid_bundle)
  | Some decoded =>
      match json_parse decoded with
      | None => Err (bundle_error_nopath invalid_bundle)
      | Some parsed =>
          let? normalized := validateBundle parsed in
          let? canonical := encodeBundle (bundle_value normalized) in
          throw_if negb (bytesEqual canonical bytes) with bundle_error_nopath non_canonical ;;
          Ok normalized
      end
  end.

End with_unicode.

(** ** Concrete runs *)

Definition demo_bundle : SkillBundle :=
  {| files := [ {| path := js "scripts/run.sh"; content := js "ZWNobyBoaQ=="; executable := Some true |};
                {| path := js "SKILL.md"; content := js "LS0tCm5hbWU6IGEKLS0tCg=="; executable := None |} ] |}.

Example demo_bundle_valid :
  validateBundle (U := ascii_tables) (bundle_value demo_bundle) = Ok demo_bundle.
Proof. vm_compute. reflexivity. Qed.

Example demo_traversal_rejected :
  validatePath (U := ascii_tables) (JStr (js "a/../b")) 0 = Err (bundle_error unsafe_path (js "a/../b")).
Proof. vm_compute. reflexivity. Qed.

Example demo_reserved_rejected :
  validatePath (U := ascii_tables) (JStr (js "docs/CON.txt")) 0
  = Err (bundle_error unsafe_path (js "docs/CON.txt")).
Proof. vm_compute. reflexivity. Qed.

(** ** Specification *)

Lemma bytesEqual_true l r : bytesEqual l r = true <-> l = r.
Proof.
  unfold bytesEqual. rewrite andb_true_iff, Nat.eqb_eq. split.
  - intros [Hlen H]. apply Is_true_true, forallb_True in H.
    revert r Hlen H; induction l as [|x l IH]; intros [|y r] Hlen H; try done.
    cbn in H. inversion H as [|? ? Hx Hl]; subst. apply Is_true_true, Z.eqb_eq in Hx.
    cbn in Hx. subst. f_equal. apply IH; [by injection Hlen | done].
  - intros ->. split; [done|]. induction r as [|x r IH]; cbn; [done|]. by rewrite Z.eqb_refl.
Qed.

(** [decodeBase64] accepts exactly the encodings of byte strings. *)
Lemma decodeBase64_iff s p bytes :
  decodeBase64 (JStr s) p = Ok bytes <-> wf_bytes bytes /\ s = btoa bytes.
Proof.
  unfold decodeBase64. split.
  - intros H. ok_inv. bool_inv. apply canonical_iff_encoding in G as (b & Hb & ->).
    rewrite atob_btoa in H by done. ok_inv. done.
  - intros [Hb ->]. rewrite (proj2 (canonical_iff_encoding _)) by eauto. cbn [negb].
    by rewrite atob_btoa, encodeBase64_btoa, jeqb_refl by done.
Qed.

(** [hasLoneSurrogate] reports every lone surrogate except a high one in the
    last position. *)
Lemma hasLoneSurrogate_spec s :
  hasLoneSurrogate s = false <->
  well_formed s = true \/ exists p h, s = p ++ [h] /\ well_formed p = true /\ is_high h = true.
Proof.
  assert (Hcons : forall c d r, (exists p h, c :: d :: r = p ++ [h] /\ well_formed p = true /\
            is_high h = true) -> is_high c = true ->
            is_low d = true /\ exists p h, r = p ++ [h] /\ well_formed p = true /\ is_high h = true).
  { intros c d r (p & h & Hp & Hw & Hh) Hc.
    destruct p as [|c' [|d' p]]; simplify_eq/=; [by rewrite Hc in Hw|].
    rewrite Hc in Hw. bool_inv. split; [done|]. by exists p, h. }
  induction s as [|c|c d r IH1 IH2] using list_pair_ind.
  - split; [by left | done].
  - cbn [hasLoneSurrogate well_formed]. fold (between 0xd800 c 0xdbff) (between 0xdc00 c 0xdfff).
    fold (is_high c) (is_low c). destruct (is_high c) eqn:Eh.
    + split; [|done]. intros _. right. by exists [], c.
    + destruct (is_low c) eqn:El; split; try done.
      * intros [?|(p & h & Hp & Hw & Hh)]; [done|]. destruct p as [|? []]; simplify_eq/=.
        congruence.
      * by left.
  - cbn [hasLoneSurrogate well_formed] in *.
    fold (between 0xd800 c 0xdbff) (between 0xdc00 c 0xdfff) (is_high c) (is_low c) in *.
    destruct (is_high c) eqn:Eh.
    + assert (Hd : (d <? 0xdc00) || (0xdfff <? d) = negb (is_low d)).
      { unfold is_low, between. rewrite negb_andb, <- Z.ltb_antisym, <- Z.ltb_antisym. done. }
      rewrite Hd. destruct (is_low d) eqn:El; cbn [negb andb].
      * rewrite IH1. split.
        -- intros [?|(p & h & -> & Hw & Hh)]; [by left|]. right.
           exists (c :: d :: p), h. cbn. by rewrite Eh, El.
        -- intros [?|H]; [by left|]. right. by apply (Hcons c d r).
      * split; [done|]. intros [?|H]; [done|].
        destruct (Hcons c d r H Eh) as [? _]. congruence.
    + destruct (is_low c) eqn:El.
      * cbn [negb andb]. split; [done|]. intros [?|(p & h & Hp & Hw & Hh)]; [done|].
        destruct p as [|c' p]; simplify_eq/=. by rewrite Eh, El in Hw.
      * cbn [negb andb]. rewrite IH2. split.
        -- intros [?|(p & h & Hp & Hw & Hh)]; [by left|]. right. exists (c :: p), h.
           rewrite Hp. cbn. by rewrite Eh, El.
        -- intros [?|(p & h & Hp & Hw & Hh)]; [by left|]. right.
           destruct p as [|c' p]; simplify_eq/=. rewrite Eh, El in Hw. eauto.
Qed.

Section specification.
Context {U : UnicodeTables}.

(** A segment no file system reads as something else. *)
Record safe_segment (segment : jstr) : Prop := {
  seg_nonempty : segment <> [];
  seg_not_dot : segment <> js ".";
  seg_not_dotdot : segment <> js "..";
  seg_no_trailing_dot : forall r, segment <> r ++ js ".";
  seg_no_trailing_space : forall r, segment <> r ++ js " ";
  seg_not_device : WINDOWS_RESERVED_SEGMENT segment = false;
  seg_bytes : jlen (textEncode segment) <= 255;
}.

(** What [validatePath] promises: a relative path in NFC without traversal,
    drive or stream separators, control or shell-wildcard characters. *)
Record safe_path (p : jstr) : Prop := {
  path_unicode : hasLoneSurrogate p = false;
  path_nfc : normalizeNFC p = p;
  path_length : jlen p <= 4096;
  path_no_backslash : 92 ∉ p;
  path_no_colon : 58 ∉ p;
  path_no_wildcard : Forall (fun c => is_windows_reserved c = false) p;
  path_no_control : Forall (fun c => is_control c = false) p;
  path_segments : Forall safe_segment (split 47 p);
}.

Lemma safe_segment_iff segment :
  safe_segment segment <->
  unsafe_segment segment = false /\ jlen (textEncode segment) <= 255.
Proof.
  unfold unsafe_segment. split.
  - intros []. split; [|done]. rewrite !orb_false_iff. repeat split.
    + apply Z.eqb_neq. intros H. destruct segment; [done|]. unfold jlen in H. cbn in H. lia.
    + by apply jeqb_false.
    + by apply jeqb_false.
    + apply not_true_iff_false. rewrite endsWith_spec. intros [r ?]. by eapply seg_no_trailing_dot0.
    + apply not_true_iff_false. rewrite endsWith_spec. intros [r ?]. by eapply seg_no_trailing_space0.
    + done.
  - intros [H Hb]. rewrite !orb_false_iff in H. destruct H as (((((H1 & H2) & H3) & H4) & H5) & H6).
    split; try done.
    + intros ->. done.
    + by apply jeqb_false.
    + by apply jeqb_false.
    + intros r ->. apply not_true_iff_false in H4. apply H4, endsWith_spec. eauto.
    + intros r ->. apply not_true_iff_false in H5. apply H5, endsWith_spec. eauto.
Qed.

Lemma validate_segments_iff p segs :
  validate_segments p segs = Ok tt <-> Forall safe_segment segs.
Proof.
  induction segs as [|s segs IH]; cbn; [split; [constructor | done]|].
  rewrite Forall_cons, safe_segment_iff, <- IH. split.
  - intros H. ok_inv. bool_inv. done.
  - intros [[-> Hb] H]. by rewrite (proj2 (Z.ltb_ge _ _)).
Qed.

Lemma existsb_false_Forall {A} (f : A -> bool) (l : list A) :
  existsb f l = false <-> Forall (fun x => f x = false) l.
Proof.
  induction l as [|x l IH]; cbn; [split; [constructor | done]|].
  by rewrite orb_false_iff, Forall_cons, IH.
Qed.

(** [validatePath] accepts exactly the safe paths and returns them unchanged. *)
Lemma validatePath_iff v index p :
  validatePath v index = Ok p <-> v = JStr p /\ safe_path p.
Proof.
  unfold validatePath. split.
  - intros H. destruct v as [| | | |s| |]; try done. ok_inv. split; [done|].
    rewrite !orb_false_iff in *. destruct_and!. bool_inv.
    destruct (validate_segments p (split 47 p)) as [[]|] eqn:Es; [|done].
    apply validate_segments_iff in Es.
    repeat match goal with H : jeqb _ _ = true |- _ => apply jeqb_true in H
                         | H : includes [_] _ = false |- _ => apply includes_single in H
                         | H : WINDOWS_RESERVED_CHARACTER _ = false |- _ =>
                             apply existsb_false_Forall in H
                         | H : CONTROL_CHARACTER _ = false |- _ =>
                             apply existsb_false_Forall in H end.
    by split.
  - intros [-> []].
    assert (Hne : [] ∉ split 47 p).
    { intros Hin. rewrite Forall_forall in path_segments0.
      by destruct (path_segments0 [] Hin). }
    destruct (jlen p =? 0) eqn:E0.
    { bool_inv. destruct p; [|unfold jlen in E0; cbn in E0; lia]. exfalso. apply Hne. by left. }
    rewrite path_unicode0, path_nfc0, jeqb_refl. cbn [orb negb].
    rewrite (proj2 (Z.ltb_ge _ _)) by done. cbn [orb].
    assert (startsWith [47] p = false /\ endsWith [47] p = false /\ includes [47; 47] p = false)
      as (-> & -> & ->).
    { repeat split; apply not_true_iff_false; intros ?; apply Hne, split_empty_segment; auto. }
    rewrite (proj2 (includes_single _ _)) by done.
    rewrite (proj2 (includes_single _ _)) by done.
    unfold WINDOWS_RESERVED_CHARACTER, CONTROL_CHARACTER.
    rewrite !(proj2 (existsb_false_Forall _ _)) by done. cbn [orb].
    by rewrite (proj2 (validate_segments_iff _ _)).
Qed.

(** A file of a distributable bundle, with the size of its decoded content. *)
Record file_spec (f : BundleFile) (size : Z) : Prop := {
  file_path_safe : safe_path (path f);
  file_not_plugin : isPluginEnablingPath (path f) = false;
  file_exec : executable f = None \/ executable f = Some true;
  file_content : exists bytes, wf_bytes bytes /\ content f = btoa bytes /\ size = jlen bytes;
  file_size : size <= MAX_FILE_BYTES;
}.

Lemma ascii_no_lone s : Forall is_ascii s -> hasLoneSurrogate s = false.
Proof. intros H. apply hasLoneSurrogate_spec. left. by apply ascii_well_formed. Qed.

Lemma content_chars_bound bytes :
  jlen bytes <= MAX_FILE_BYTES -> jlen (btoa bytes) <= MAX_FILE_BASE64_CHARS.
Proof.
  intros H. rewrite length_btoa. unfold MAX_FILE_BASE64_CHARS.
  apply Z.mul_le_mono_nonneg_r; [lia|]. apply Z.div_le_mono; lia.
Qed.

Definition file_value (f : BundleFile) : jsval := embed (file_data f).

Lemma validateFile_sound v index w :
  validateFile v index = Ok w -> file_spec (file w) (decodedBytes w).
Proof.
  unfold validateFile. intros H. destruct v as [| | | | | |props]; try done.
  ok_inv. destruct (obj_get props (js "content")) as [| | | |c| |] eqn:Ec; try done.
  ok_inv. apply validatePath_iff in E0 as [_ Hp]. apply decodeBase64_iff in E2 as [Hb ->].
  split; cbn; try done.
  - destruct (obj_get props (js "executable")) as [| |[]| | | |]; simplify_eq/=; auto.
  - by eexists.
  - by bool_inv.
Qed.

Lemma obj_get_path f : exists props, file_value f = JObj props /\
  assertOnlyKeys props FILE_KEYS = (fun _ => Ok tt) /\
  obj_get props (js "path") = JStr (path f) /\
  obj_get props (js "content") = JStr (content f) /\
  obj_get props (js "executable") =
    match executable f with Some b => JBool b | None => JUndef end.
Proof.
  unfold file_value, file_data. destruct (executable f) as [b|]; cbn; eexists;
    (split; [reflexivity|]); repeat split.
Qed.

Lemma validateFile_complete f size index :
  file_spec f size ->
  validateFile (file_value f) index = Ok {| file := f; decodedBytes := size |}.
Proof.
  intros [Hp Hnp Hx (bytes & Hb & Hc & ->) Hs].
  destruct (obj_get_path f) as (props & -> & Hk & Hgp & Hgc & Hgx).
  unfold validateFile. rewrite Hk. cbn [rbind].
  rewrite Hgp, (proj2 (validatePath_iff _ _ (path f))) by done. cbn [rbind].
  rewrite Hnp, Hgc, Hc, ascii_no_lone by (by apply btoa_ascii). rewrite Hgx.
  assert (Hd : decodeBase64 (JStr (btoa bytes)) (path f) = Ok bytes) by (by apply decodeBase64_iff).
  pose proof (content_chars_bound bytes Hs).
  destruct f as [p c e]; cbn in *. subst c.
  destruct Hx as [-> | ->]; cbn [rbind];
    rewrite (proj2 (Z.ltb_ge MAX_FILE_BASE64_CHARS _)) by done; rewrite Hd; cbn [rbind];
    by rewrite (proj2 (Z.ltb_ge MAX_FILE_BYTES _)) by done.
Qed.

(** The size of a file's decoded content. *)
Definition decoded_size (f : BundleFile) : Z :=
  match atob (content f) with
  | Some bytes => jlen bytes
  | None => 0
  end.

(** The declarative contract of a bundle. *)
Definition collision_keys (fs : list BundleFile) : list jstr := pathCollisionKey ∘ path <$> fs.
Record bundle_spec (fs : list BundleFile) : Prop := {
  bundle_nonempty : fs <> [];
  bundle_count : Z.of_nat (length fs) <= MAX_BUNDLE_FILES;
  bundle_files : Forall (fun f => file_spec f (decoded_size f)) fs;
  bundle_total : foldr Z.add 0 (decoded_size <$> fs) <= MAX_BUNDLE_BYTES;
  bundle_distinct : NoDup (collision_keys fs);
}.

Lemma file_spec_size_nonneg f n : file_spec f n -> 0 <= n.
Proof. intros [_ _ _ (b & _ & _ & ->) _]. unfold jlen. lia. Qed.

Lemma file_spec_decoded_size f n : file_spec f n -> n = decoded_size f.
Proof.
  intros [_ _ _ (b & Hb & Hc & ->) _]. unfold decoded_size. by rewrite Hc, atob_btoa.
Qed.

Lemma files_spec_sizes fs sizes :
  Forall2 file_spec fs sizes <->
  sizes = decoded_size <$> fs /\ Forall (fun f => file_spec f (decoded_size f)) fs.
Proof.
  split.
  - induction 1 as [|f n fs sizes Hf _ [-> IH]]; [by split; [|constructor]|].
    assert (n = decoded_size f) as -> by (by apply file_spec_decoded_size).
    split; [done|]. by constructor.
  - intros [-> H]. induction H; constructor; done.
Qed.

Lemma sizes_nonneg fs sizes : Forall2 file_spec fs sizes -> 0 <= foldr Z.add 0 sizes.
Proof.
  induction 1 as [|f n fs sizes Hf _ IH]; cbn; [done|].
  apply file_spec_size_nonneg in Hf. lia.
Qed.

Lemma validate_files_sound l index seen total fs :
  validate_files index seen total l = Ok fs ->
  length fs = length l /\
  (exists sizes, Forall2 file_spec fs sizes /\
     (fs <> [] -> total + foldr Z.add 0 sizes <= MAX_BUNDLE_BYTES)) /\
  NoDup (collision_keys fs) /\ (forall k, k ∈ collision_keys fs -> k ∉ seen).
Proof.
  revert index seen total fs; induction l as [|v l IH]; intros index seen total fs H; cbn in H.
  { ok_inv. repeat split; [|constructor|set_solver]. by exists []. }
  ok_inv. bool_inv. apply validateFile_sound in E.
  destruct (IH _ _ _ _ E0) as (Hlen & (sizes & Hs & Ht) & Hnd & Hseen).
  split; [cbn; by rewrite Hlen|]. split.
  { exists (decodedBytes a :: sizes). split; [by constructor|]. intros _. cbn.
    destruct a0 as [|f' fs'].
    - inversion Hs; subst. cbn. lia.
    - specialize (Ht ltac:(done)). lia. }
  unfold collision_keys in *. cbn. split.
  - constructor; [|done]. intros Hin. apply (Hseen _ Hin). by left.
  - intros k [->|Hk]%elem_of_cons; [done|]. specialize (Hseen k Hk). set_solver.
Qed.

Lemma validate_files_complete fs index seen total sizes :
  Forall2 file_spec fs sizes -> total + foldr Z.add 0 sizes <= MAX_BUNDLE_BYTES ->
  NoDup (collision_keys fs) -> (forall k, k ∈ collision_keys fs -> k ∉ seen) ->
  validate_files index seen total (file_value <$> fs) = Ok fs.
Proof.
  intros Hs. revert index seen total.
  induction Hs as [|f n fs sizes Hf Hs IH]; intros index seen total Ht Hnd Hseen; [done|].
  unfold collision_keys in *. cbn [fmap list_fmap] in *. apply NoDup_cons in Hnd as [Hk Hnd].
  cbn [validate_files foldr] in *. rewrite (validateFile_complete f n) by done. cbn -[MAX_BUNDLE_BYTES].
  rewrite bool_decide_false by (apply Hseen; by left).
  pose proof (sizes_nonneg fs sizes Hs).
  rewrite (proj2 (Z.ltb_ge _ _)) by lia.
  rewrite IH; [done | lia | done |].
  intros k Hin [->|Hin']%elem_of_cons; [done|]. apply (Hseen k); [by right | done].
Qed.

Lemma bundle_value_files fs : exists props,
  bundle_value {| files := fs |} = JObj props /\
  assertOnlyKeys props BUNDLE_KEYS = (fun _ => Ok tt) /\
  obj_get props (js "format") = JStr BUNDLE_FORMAT /\
  obj_get props (js "files") = JArr (file_value <$> fs).
Proof.
  eexists. split; [reflexivity|]. repeat split.
  unfold file_value. cbn. by rewrite <- list_fmap_compose.
Qed.

Lemma validateBundle_spec v b : validateBundle v = Ok b -> bundle_spec (files b).
Proof.
  unfold validateBundle. intros H. destruct v as [| | | | | |props]; try done. ok_inv.
  destruct (obj_get props (js "files")) as [| | | | |l|]; try done. ok_inv. bool_inv. cbn.
  apply validate_files_sound in E0 as (Hlen & (sizes & Hs & Ht) & Hnd & _).
  apply Nat.eqb_neq in G0.
  assert (a0 <> []) by (intros ->; cbn in Hlen; lia).
  apply files_spec_sizes in Hs as [-> Hs].
  split; try done; [by rewrite Hlen|]. by apply Ht.
Qed.

Lemma validateBundle_complete fs :
  bundle_spec fs -> validateBundle (bundle_value {| files := fs |}) = Ok {| files := fs |}.
Proof.
  intros [Hne Hc Hs Ht Hnd].
  destruct (bundle_value_files fs) as (props & -> & Hk & Hf & Hl).
  unfold validateBundle. rewrite Hk. cbn [rbind]. rewrite Hf, jeqb_refl, Hl, length_fmap.
  cbn [negb]. rewrite (proj2 (Nat.eqb_neq _ 0)) by (by destruct fs).
  rewrite (proj2 (Z.ltb_ge _ _)) by done.
  rewrite (validate_files_complete fs 0 [] 0 (decoded_size <$> fs)); [done|..].
  - by apply files_spec_sizes.
  - lia.
  - done.
  - set_solver.
Qed.

#[export] Instance bundle_spec_perm : Proper ((≡ₚ) ==> iff) bundle_spec.
Proof.
  assert (Hsum : forall l l' : list Z, l ≡ₚ l' -> foldr Z.add 0 l = foldr Z.add 0 l').
  { induction 1; cbn; lia. }
  assert (Himp : forall fs fs', fs ≡ₚ fs' -> bundle_spec fs -> bundle_spec fs').
  { intros fs fs' Hp [Hne Hc Hs Ht Hnd]. split.
    - intros ->. by apply Permutation_nil_r in Hp.
    - by rewrite <- Hp.
    - by rewrite <- Hp.
    - rewrite (Hsum _ (decoded_size <$> fs)); [done | by rewrite Hp].
    - unfold collision_keys in *. by rewrite <- Hp. }
  intros fs fs' Hp. split; apply Himp; [done | by symmetry].
Qed.

Lemma distinct_paths fs : NoDup (collision_keys fs) -> NoDup (path <$> fs).
Proof. intros H. unfold collision_keys in H. rewrite list_fmap_compose in H. by eapply NoDup_fmap_1. Qed.

Definition path_le (f g : BundleFile) : Prop := comparePaths f g <> Gt.

Lemma comparePaths_sorted fs : StronglySorted path_le (js_sort comparePaths fs).
Proof.
  apply js_sort_sorted; unfold path_le, comparePaths.
  - intros f g h H1 H2.
    destruct (jcompare (path f) (path g)) eqn:E1; [| |done].
    + apply jcompare_eq in E1. by rewrite E1.
    + destruct (jcompare (path g) (path h)) eqn:E2; [| |done].
      * apply jcompare_eq in E2. by rewrite <- E2, E1.
      * by rewrite (jcompare_lt_trans _ _ _ E1 E2).
  - done.
  - intros f g H. by rewrite jcompare_antisym, H.
Qed.

(** With distinct paths the sorted order does not depend on the input order. *)
Lemma sort_perm_eq fs fs' :
  NoDup (path <$> fs) -> fs ≡ₚ fs' -> js_sort comparePaths fs = js_sort comparePaths fs'.
Proof.
  intros Hnd Hp. apply (StronglySorted_unique_strong path_le).
  - intros f g Hf Hg H1 H2. rewrite js_sort_perm in Hf, Hg. rewrite <- Hp in Hg.
    unfold path_le, comparePaths in *.
    assert (Heq : path f = path g).
    { rewrite jcompare_antisym in H2. destruct (jcompare (path f) (path g)) eqn:E; try done.
      by apply jcompare_eq. }
    apply list_elem_of_lookup in Hf as [i Hi]. apply list_elem_of_lookup in Hg as [j Hj].
    assert (i = j) as ->; [|congruence].
    eapply NoDup_lookup; [exact Hnd|..]; rewrite list_lookup_fmap, ?Hi, ?Hj; cbn; by f_equal.
  - apply comparePaths_sorted.
  - apply comparePaths_sorted.
  - by rewrite !js_sort_perm.
Qed.

Lemma canonical_files fs : bundle_spec fs -> canonical_file <$> fs = fs.
Proof.
  intros [_ _ Hs _ _]. induction Hs as [|f fs Hf Hs IH]; [done|]. cbn. rewrite IH. f_equal.
  destruct f as [p c e], Hf as [_ _ [He|He] _ _]; cbn in *; by subst.
Qed.

(** The wire text of a valid bundle. *)
Definition wire_text (fs : list BundleFile) : jstr :=
  stringify (bundle_data (js_sort comparePaths fs)).

Lemma encodeBundle_Ok v b :
  validateBundle v = Ok b -> encodeBundle v = Ok (textEncode (wire_text (files b))).
Proof.
  intros H. unfold encodeBundle. rewrite H. cbn [rbind].
  apply validateBundle_spec in H. rewrite canonical_files; [done|]. by rewrite js_sort_perm.
Qed.

Lemma file_data_ok f n : file_spec f n -> wf_jstr (path f) -> jdata_ok (file_data f).
Proof.
  intros [_ _ _ (bytes & Hb & Hc & _) _] Hp. unfold file_data.
  apply jdata_ok_obj.
  assert (wf_jstr (content f)) by (rewrite Hc; by apply ascii_well_formed, btoa_ascii).
  destruct (executable f); cbn [app]; split.
  1,3: by apply (bool_decide_unpack _); vm_compute.
  all: by repeat constructor.
Qed.

Lemma bundle_data_ok fs :
  Forall (fun f => file_spec f (decoded_size f)) fs -> Forall (fun f => wf_jstr (path f)) fs ->
  jdata_ok (bundle_data fs).
Proof.
  intros Hs Hp. apply jdata_ok_obj. split; [by apply (bool_decide_unpack _); vm_compute|].
  constructor; [|constructor; [|constructor]]; (split; [cbn; apply ascii_well_formed;
    by repeat constructor|]).
  - apply ascii_well_formed. by repeat constructor.
  - apply jdata_ok_arr, Forall_fmap. rewrite Forall_forall in *. intros f Hf. cbn.
    eapply file_data_ok; eauto.
Qed.

End specification.

Section codec.
Context {U : UnicodeTables}.

Lemma validate_files_wf l index seen total fs :
  wf_value (JArr l) -> validate_files index seen total l = Ok fs ->
  Forall (fun f => wf_jstr (path f)) fs.
Proof.
  revert index seen total fs; induction l as [|v l IH]; intros index seen total fs Hw H; cbn in H.
  { ok_inv. constructor. }
  ok_inv. destruct Hw as [Hv Hl]. constructor; [|by eapply IH].
  unfold validateFile in E. destruct v as [| | | | | |props]; try done. ok_inv.
  destruct (obj_get props (js "content")); try done. ok_inv.
  apply validatePath_iff in E2 as [Hp _]. cbn.
  pose proof (wf_value_get props (js "path") Hv) as Hg. by rewrite Hp in Hg.
Qed.

Lemma validateBundle_wf v b :
  wf_value v -> validateBundle v = Ok b -> Forall (fun f => wf_jstr (path f)) (files b).
Proof.
  intros Hw H. unfold validateBundle in H. destruct v as [| | | | | |props]; try done. ok_inv.
  pose proof (wf_value_get props (js "files") Hw) as Hg.
  destruct (obj_get props (js "files")) as [| | | | |l|]; try done. ok_inv.
  by eapply validate_files_wf.
Qed.

Lemma wire_text_head fs : exists r, wire_text fs = 123 :: r.
Proof. eexists. reflexivity. Qed.

Lemma wire_text_ok fs :
  bundle_spec fs -> Forall (fun f => wf_jstr (path f)) fs ->
  jdata_ok (bundle_data (js_sort comparePaths fs)) /\ text_ok (wire_text fs).
Proof.
  intros Hs Hp.
  assert (jdata_ok (bundle_data (js_sort comparePaths fs))) as Hok.
  { apply bundle_data_ok; rewrite js_sort_perm; [by destruct Hs | done]. }
  split; [done|]. by apply stringify_ok.
Qed.

Lemma sort_sorted fs : js_sort comparePaths (js_sort comparePaths fs) = js_sort comparePaths fs.
Proof. apply js_sort_id. apply comparePaths_sorted. Qed.

(** Decoding the wire form of a valid bundle gives its sorted files. *)
Lemma decode_wire fs :
  bundle_spec fs -> Forall (fun f => wf_jstr (path f)) fs ->
  decodeBundle (textEncode (wire_text fs)) = Ok {| files := js_sort comparePaths fs |}.
Proof.
  intros Hs Hp. destruct (wire_text_ok fs Hs Hp) as [Hok [Hwf Hwell]].
  destruct (wire_text_head fs) as [r Hr].
  assert (Hspec : bundle_spec (js_sort comparePaths fs)) by (by rewrite js_sort_perm).
  unfold decodeBundle.
  assert (Hhd : exists q, textEncode (wire_text fs) = 123 :: q).
  { exists (textEncode r). rewrite Hr. change (123 :: r) with ([123] ++ r).
    rewrite textEncode_app_ascii; [done|]. by repeat constructor. }
  destruct Hhd as [q Hq].
  assert ((match textEncode (wire_text fs) with
           | b0 :: b1 :: b2 :: _ => (b0 =? 0xef) && (b1 =? 0xbb) && (b2 =? 0xbf)
           | _ => false
           end) = false) as -> by (rewrite Hq; by repeat case_match).
  rewrite textDecode_textEncode by (done || (intros ?; rewrite Hr; congruence)).
  unfold wire_text at 1. rewrite json_parse_stringify by done.
  change (embed (bundle_data (js_sort comparePaths fs)))
    with (bundle_value {| files := js_sort comparePaths fs |}).
  rewrite validateBundle_complete by done. cbn [rbind].
  rewrite (encodeBundle_Ok _ _ (validateBundle_complete _ Hspec)). cbn [rbind files].
  unfold wire_text. rewrite sort_sorted.
  by rewrite (proj2 (bytesEqual_true _ _)).
Qed.

Lemma decode_spec bytes b :
  wf_bytes bytes -> decodeBundle bytes = Ok b ->
  bundle_spec (files b) /\ Forall (fun f => wf_jstr (path f)) (files b) /\
  bytes = textEncode (wire_text (files b)).
Proof.
  intros Hw H. unfold decodeBundle in H.
  ok_step.
  destruct (textDecode bytes) as [s|] eqn:Es; [|done].
  destruct (json_parse s) as [v|] eqn:Ev; [|done]. ok_inv. bool_inv.
  apply bytesEqual_true in G0. pose proof (validateBundle_spec _ _ E) as Hs.
  split; [done|]. split.
  - eapply validateBundle_wf; [|exact E]. eapply json_parse_wf; [|exact Ev].
    by eapply textDecode_wf.
  - destruct b as [fs]. cbn in Hs. rewrite (encodeBundle_Ok _ _ (validateBundle_complete _ Hs)) in E0.
    ok_inv. done.
Qed.

(** C37. [validateBundle] implements the declarative bundle contract: applied to
    a bundle it succeeds, returning the bundle unchanged, exactly when the
    contract [bundle_spec] holds (between 1 and 2000 files, every path a safe
    relative NFC path that enables no plugin, every content canonical base64 of
    at most 10 MiB, total at most 100 MiB, no two paths equal after NFC and
    lower-casing). *)
Theorem validateBundle_refines_spec (fs : list BundleFile) :
  validateBundle (bundle_value {| files := fs |}) = Ok {| files := fs |} <-> bundle_spec fs.
Proof.
  split; [|apply validateBundle_complete].
  intros H. exact (validateBundle_spec _ _ H).
Qed.

(** Whatever untrusted value [validateBundle] accepts, the bundle it returns
    meets the contract, and validating that bundle again returns it unchanged. *)
Theorem validateBundle_sound_idempotent (v : jsval) (b : SkillBundle) :
  validateBundle v = Ok b ->
  bundle_spec (files b) /\ validateBundle (bundle_value b) = Ok b.
Proof.
  intros H%validateBundle_spec. split; [done|]. destruct b. by apply validateBundle_complete.
Qed.

(** C38. Round trip of the wire format: a value [encodeBundle] accepts encodes to
    bytes that [decodeBundle] accepts, and decoding gives the validated files
    sorted by path. *)
Theorem encode_decode_round_trip (v : jsval) (bytes : list Z) :
  wf_value v -> encodeBundle v = Ok bytes ->
  exists b, validateBundle v = Ok b /\
    decodeBundle bytes = Ok {| files := js_sort comparePaths (files b) |}.
Proof.
  intros Hw H. unfold encodeBundle in H. ok_inv. exists a. split; [done|].
  pose proof (validateBundle_spec _ _ E) as Hs. rewrite canonical_files.
  - apply decode_wire; [done|]. by eapply validateBundle_wf.
  - by rewrite js_sort_perm.
Qed.

(** The wire format is canonical: [decodeBundle] accepts exactly one byte
    string for each bundle it can return, namely the bundle's own encoding, and
    the files of a decoded bundle are in path order. *)
Theorem decode_canonical (bytes : list Z) (b : SkillBundle) :
  wf_bytes bytes ->
  decodeBundle bytes = Ok b <->
  bundle_spec (files b) /\ Forall (fun f => wf_jstr (path f)) (files b) /\
  StronglySorted path_le (files b) /\ encodeBundle (bundle_value b) = Ok bytes.
Proof.
  intros Hw. destruct b as [fs]. split.
  - intros H. destruct (decode_spec _ _ Hw H) as (Hs & Hp & ->). cbn [files] in *.
    rewrite decode_wire in H by done. injection H as H.
    split; [done|]. split; [done|]. split; [rewrite <- H; apply comparePaths_sorted|].
    by apply (encodeBundle_Ok _ {| files := fs |}), validateBundle_complete.
  - cbn [files]. intros (Hs & Hp & Hsorted & He).
    rewrite (encodeBundle_Ok _ _ (validateBundle_complete _ Hs)) in He. cbn [files] in He. ok_inv.
    rewrite decode_wire by done. by rewrite (js_sort_id _ _ Hsorted).
Qed.

(** Encoding is deterministic: two bundles with the same files in a
    different order have the same wire bytes (hence the same digest). *)
Theorem encode_order_independent (fs fs' : list BundleFile) :
  bundle_spec fs -> fs ≡ₚ fs' ->
  exists bytes, encodeBundle (bundle_value {| files := fs |}) = Ok bytes /\
    encodeBundle (bundle_value {| files := fs' |}) = Ok bytes.
Proof.
  intros Hs Hp. assert (Hs' : bundle_spec fs') by (by rewrite <- Hp).
  eexists. split; [by apply encodeBundle_Ok, validateBundle_complete|].
  rewrite (encodeBundle_Ok _ _ (validateBundle_complete _ Hs')). cbn [files]. unfold wire_text.
  rewrite (sort_perm_eq fs fs'); [done | | done]. apply distinct_paths. by destruct Hs.
Qed.

End codec.

(** ** Witnesses *)

Lemma demo_bundle_spec : bundle_spec (U := ascii_tables) (files demo_bundle).
Proof.
  apply (validateBundle_spec (U := ascii_tables) (bundle_value demo_bundle)).
  vm_compute. reflexivity.
Qed.

Definition demo_bytes : list Z :=
  match encodeBundle (U := ascii_tables) (bundle_value demo_bundle) with
  | Ok bytes => bytes
  | Err _ => []
  end.

Lemma validateBundle_sound_idempotent_witness :
  bundle_spec (U := ascii_tables) (files demo_bundle) /\
  validateBundle (U := ascii_tables) (bundle_value demo_bundle) = Ok demo_bundle.
Proof.
  apply (validateBundle_sound_idempotent (U := ascii_tables) (bundle_value demo_bundle)).
  vm_compute. reflexivity.
Defined.

Lemma encode_decode_round_trip_witness :
  exists b, validateBundle (U := ascii_tables) (bundle_value demo_bundle) = Ok b /\
    decodeBundle (U := ascii_tables) demo_bytes
    = Ok {| files := js_sort comparePaths (files b) |}.
Proof.
  apply (encode_decode_round_trip (U := ascii_tables) (bundle_value demo_bundle) demo_bytes).
  - apply wf_value_embed, (bundle_data_ok (U := ascii_tables)).
    + apply demo_bundle_spec.
    + apply (bool_decide_unpack _). vm_compute. reflexivity.
  - vm_compute. reflexivity.
Defined.

Lemma decode_canonical_witness :
  decodeBundle (U := ascii_tables) demo_bytes = Ok {| files := reverse (files demo_bundle) |} /\
  encodeBundle (U := ascii_tables) (bundle_value {| files := reverse (files demo_bundle) |})
  = Ok demo_bytes.
Proof.
  assert (Hw : wf_bytes demo_bytes) by (apply (bool_decide_unpack _); vm_compute; reflexivity).
  split; [vm_compute; reflexivity|].
  apply (proj1 (decode_canonical (U := ascii_tables) demo_bytes
                  {| files := reverse (files demo_bundle) |} Hw)).
  vm_compute. reflexivity.
Defined.

Lemma encode_order_independent_witness :
  exists bytes,
    encodeBundle (U := ascii_tables) (bundle_value {| files := files demo_bundle |}) = Ok bytes /\
    encodeBundle (U := ascii_tables) (bundle_value {| files := reverse (files demo_bundle) |})
    = Ok bytes.
Proof.
  apply (encode_order_independent (U := ascii_tables)).
  - exact demo_bundle_spec.
  - symmetry. apply reverse_Permutation.
Defined.

(** A path that ends in an unpaired high surrogate is accepted, although the
    error message of the check speaks of valid Unicode. *)
Example trailing_surrogate_accepted :
  well_formed (js "a" ++ [0xd800]) = false /\
  validatePath (U := ascii_tables) (JStr (js "a" ++ [0xd800])) 0 = Ok (js "a" ++ [0xd800]).
Proof. vm_compute. done. Qed.
