(* ===== verification/Frontmatter.v ===== *)
(** * SKILL.md frontmatter

    The metadata half of [packages/storage/src/bundle.ts]: [parseFrontmatter]
    and [parseSkillMetadata].  The YAML composer is the third-party package
    [yaml]; it is a parameter that turns source text into a document of the
    node tree the code walks.  Error messages are not modelled, their codes are
    (the path of every error here is SKILL.md, apart from those of
    [validateBundle]).  The labels the code threads through the recursive
    parsers only reach messages and are left out. *)

From Stdlib Require Import ZArith Lia SpecFloat.
From stdpp Require Import base list sorting strings sets.
From S2P Require Import Prelude Js Base64 Json Bundle.

Local Open Scope Z_scope.

(** ** Limits *)

Definition MAX_FRONTMATTER_BYTES : Z := 128 * 1024.
Definition MAX_FRONTMATTER_LINES : Z := 4096.
Definition MAX_FRONTMATTER_FIELDS : Z := 256.
Definition MAX_METADATA_FIELDS : Z := 128.
Definition MAX_METADATA_VALUE_CHARS : Z := 4096.
Definition MAX_FRONTMATTER_VALUE_CHARS : Z := 16384.
Definition MAX_FRONTMATTER_DEPTH : Z := 8.
Definition MAX_FRONTMATTER_NODES : Z := 2048.
Definition MAX_FRONTMATTER_MAP_ITEMS : Z := 256.
Definition MAX_FRONTMATTER_SEQUENCE_ITEMS : Z := 128.

(** ** The YAML node tree the code inspects *)

Inductive yscalar : Type :=
| YStr (s : jstr)
| YBool (b : bool)
| YNum (x : spec_float)
| YOtherScalar.

(** [marked]: the node has an anchor or a tag. [YNull] is a missing node,
    [YOther] an object of no known kind. *)
Inductive ynode : Type :=
| YNull
| YAlias
| YScalar (marked : bool) (v : yscalar)
| YSeq (marked : bool) (items : list ynode)
| YMap (marked : bool) (items : list (ynode * ynode))
| YOther (marked : bool).

Record ydirectives := {
  docStart_null : bool;
  docEnd : bool;
  yaml_explicit : bool;
  tag_names : list jstr;
}.
Record ydocument := {
  directives : option ydirectives;
  errors : nat;
  warnings : nat;
  contents : ynode;
}.

(** ** Parsed values *)

Inductive fmval : Type :=
| FStr (s : jstr)
| FNum (x : spec_float)
| FBool (b : bool)
| FMap (l : list (jstr * fmval))
| FSeq (l : list fmval).

Record SkillMetadata := {
  skillName : jstr;
  description : jstr;
  frontmatter : list (jstr * fmval);
}.

Definition SKILL_MD : jstr := js "SKILL.md".
Definition frontmatterError (c : bundle_code) : BundleValidationError := bundle_error c SKILL_MD.

(** ** Keys *)

Definition remove_separators (s : jstr) : jstr := filter (fun c => c <> 45 /\ c <> 95) s.

Definition DANGEROUS_FRONTMATTER_KEYS : list jstr :=
  [js "plugin"; js "plugins"; js "pluginjson"; js "extension"; js "extensions"; js "mcp";
   js "mcpserver"; js "mcpservers"; js "hook"; js "hooks"; js "command"; js "commands";
   js "script"; js "scripts"; js "runtime"; js "runtimes"; js "entrypoint"; js "install";
   js "installer"; js "tool"; js "tools"].
Definition DANGEROUS_FRONTMATTER_PARTS : list jstr :=
  [js "plugin"; js "extension"; js "mcp"; js "hook"; js "command"; js "script"; js "runtime";
   js "entrypoint"; js "install"; js "execute"].
Definition KNOWN_FRONTMATTER_FIELDS : list jstr :=
  [js "name"; js "description"; js "license"; js "compatibility"; js "metadata";
   js "allowedtools"].

(** [replaceAll(/([a-z])([A-Z])/gu, '$1-$2')]. *)
Fixpoint camel_hyphen (s : jstr) : jstr :=
  match s with
  | c :: r =>
      match r with
      | d :: _ => if is_lower c && is_upper d then c :: 45 :: camel_hyphen r
                  else c :: camel_hyphen r
      | [] => [c]
      end
  | [] => []
  end.

(** [split(/[-_]+/u)]: a run of separators separates once. *)
Fixpoint squeeze (after_sep : bool) (s : jstr) : jstr :=
  match s with
  | [] => []
  | c :: r =>
      if (c =? 45) || (c =? 95)
      then if after_sep then squeeze true r else 45 :: squeeze true r
      else c :: squeeze false r
  end.
Definition split_separators (s : jstr) : list jstr := split 45 (squeeze false s).

Definition FRONTMATTER_CONTROL_CHARACTER (s : jstr) : bool :=
  existsb (fun c => between 0 c 8 || (c =? 0xb) || (c =? 0xc) || between 0xe c 0x1f || (c =? 0x7f)) s.

(** A letter, then at most 63 letters, digits, underscores or hyphens. *)
Definition is_letter (c : Z) : bool := is_lower c || is_upper c.
Definition field_name_pattern (s : jstr) : bool :=
  match s with
  | [] => false
  | c :: r => is_letter c && (jlen r <=? 63) &&
              forallb (fun d => is_letter d || is_digit d || (d =? 95) || (d =? 45)) r
  end.

(** Lower-case letters and digits in groups separated by single hyphens. *)
Definition NAME_PATTERN (s : jstr) : bool :=
  forallb (fun seg => negb (jlen seg =? 0) && forallb (fun c => is_lower c || is_digit c) seg)
    (split 45 s).

Definition assertFrontmatterText (value : jstr) (maxChars : Z) (allowEmpty : bool) : bresult unit :=
  throw_if negb allowEmpty && (jlen value =? 0) with frontmatterError invalid_frontmatter ;;
  throw_if maxChars <? jlen (code_points value) with frontmatterError invalid_frontmatter ;;
  throw_if FRONTMATTER_CONTROL_CHARACTER value || hasLoneSurrogate value
    with frontmatterError unsafe_frontmatter ;;
  Ok tt.

Section with_unicode.
Context {U : UnicodeTables}.

Definition frontmatterKey (key : jstr) : jstr := toLowerCase (trim key).
Definition normalizedKey (key : jstr) : jstr := remove_separators (frontmatterKey key).

Definition isDangerousFrontmatterKey (rawKey : jstr) : bool :=
  let normalized := frontmatterKey rawKey in
  let compact := remove_separators normalized in
  if jeqb compact (js "allowedtools") then false
  else if bool_decide (compact ∈ DANGEROUS_FRONTMATTER_KEYS) then true
  else
    let segments := toLowerCase <$> split_separators (camel_hyphen normalized) in
    existsb (fun part => bool_decide (part ∈ segments) || startsWith part compact ||
                         endsWith part compact) DANGEROUS_FRONTMATTER_PARTS.

(** ** Walking the tree *)

(** [budget.nodes] is threaded: the result is its value after the walk. *)
Fixpoint assertSafeYamlNode (node : ynode) (depth nodes : Z) : bresult Z :=
  let nodes := nodes + 1 in
  throw_if MAX_FRONTMATTER_NODES <? nodes with frontmatterError unsafe_frontmatter ;;
  match node with
  | YAlias => Err (frontmatterError unsafe_frontmatter)
  | YNull => Err (frontmatterError invalid_frontmatter)
  | YScalar marked v =>
      throw_if marked with frontmatterError unsafe_frontmatter ;;
      match v with
      | YStr s => let? _ := assertFrontmatterText s MAX_FRONTMATTER_VALUE_CHARS true in Ok nodes
      | YBool _ => Ok nodes
      | YNum x => throw_if negb (num_finite x) with frontmatterError invalid_frontmatter ;; Ok nodes
      | YOtherScalar => Err (frontmatterError invalid_frontmatter)
      end
  | YSeq marked items =>
      throw_if marked with frontmatterError unsafe_frontmatter ;;
      throw_if MAX_FRONTMATTER_SEQUENCE_ITEMS <? Z.of_nat (length items)
        with frontmatterError unsafe_frontmatter ;;
      (fix go (l : list ynode) (n : Z) : bresult Z :=
        match l with
        | [] => Ok n
        | item :: l' => let? n' := assertSafeYamlNode item (depth + 1) n in go l' n'
        end) items nodes
  | YMap marked items =>
      throw_if marked with frontmatterError unsafe_frontmatter ;;
      throw_if MAX_FRONTMATTER_DEPTH <? depth with frontmatterError unsafe_frontmatter ;;
      throw_if MAX_FRONTMATTER_MAP_ITEMS <? Z.of_nat (length items)
        with frontmatterError unsafe_frontmatter ;;
      (fix go (l : list (ynode * ynode)) (n : Z) : bresult Z :=
        match l with
        | [] => Ok n
        | (k, v) :: l' =>
            let? n1 := assertSafeYamlNode k (depth + 1) n in
            let? n2 := assertSafeYamlNode v (depth + 1) n1 in
            go l' n2
        end) items nodes
  | YOther marked =>
      throw_if marked with frontmatterError unsafe_frontmatter ;;
      Err (frontmatterError invalid_frontmatter)
  end.

Definition yamlMapKey (node : ynode) : bresult jstr :=
  match node with
  | YScalar _ (YStr key) =>
      throw_if (jlen key =? 0) || (64 <? jlen key) || negb (field_name_pattern key) ||
               FRONTMATTER_CONTROL_CHARACTER key || hasLoneSurrogate key
        with frontmatterError invalid_frontmatter ;;
      Ok key
  | _ => Err (frontmatterError invalid_frontmatter)
  end.

Definition parseYamlScalar (node : ynode) (maxChars : Z) (allowEmpty : bool) : bresult fmval :=
  match node with
  | YScalar _ v =>
      match v with
      | YStr s => let? _ := assertFrontmatterText s maxChars allowEmpty in Ok (FStr s)
      | YBool b => Ok (FBool b)
      | YNum x => if num_finite x then Ok (FNum x) else Err (frontmatterError invalid_frontmatter)
      | YOtherScalar => Err (frontmatterError invalid_frontmatter)
      end
  | _ => Err (frontmatterError unsafe_frontmatter)
  end.

Definition parseYamlString (node : ynode) (maxChars : Z) (allowEmpty : bool) : bresult fmval :=
  let? value := parseYamlScalar node maxChars allowEmpty in
  match value with
  | FStr s => Ok (FStr s)
  | _ => Err (frontmatterError invalid_frontmatter)
  end.

Definition reserved_name (key : jstr) : bool :=
  jeqb key (js "__proto__") || jeqb key (js "constructor").

(** The loop of [parseStructuredMetadataMap] over the items of a map, given the
    parser for values. *)
Definition structured_entries (parse : ynode -> bresult fmval)
    : list (ynode * ynode) -> list jstr -> bresult (list (jstr * fmval)) :=
  fix go items seen :=
    match items with
    | [] => Ok []
    | (k, v) :: rest =>
        let? key := yamlMapKey k in
        throw_if bool_decide (normalizedKey key ∈ seen) || reserved_name key ||
                 isDangerousFrontmatterKey key
          with frontmatterError unsafe_frontmatter ;;
        let? value := parse v in
        let? entries := go rest (normalizedKey key :: seen) in
        Ok ((key, value) :: entries)
    end.

Fixpoint parseStructuredValue (node : ynode) (depth : Z) : bresult fmval :=
  throw_if MAX_FRONTMATTER_DEPTH <? depth with frontmatterError unsafe_frontmatter ;;
  match node with
  | YScalar _ _ => parseYamlScalar node MAX_FRONTMATTER_VALUE_CHARS true
  | YSeq _ items =>
      throw_if MAX_FRONTMATTER_SEQUENCE_ITEMS <? Z.of_nat (length items)
        with frontmatterError unsafe_frontmatter ;;
      let? l := map_result (fun item => parseStructuredValue item (depth + 1)) items in
      Ok (FSeq l)
  | YMap _ items =>
      throw_if (MAX_FRONTMATTER_DEPTH <? depth) ||
               (MAX_FRONTMATTER_MAP_ITEMS <? Z.of_nat (length items))
        with frontmatterError unsafe_frontmatter ;;
      let? l := structured_entries (fun v => parseStructuredValue v (depth + 1)) items [] in
      Ok (FMap l)
  | _ => Err (frontmatterError unsafe_frontmatter)
  end.

(** [parseStructuredMetadataMap] on a map node at a depth. *)
Definition parseStructuredMetadataMap (node : ynode) (depth : Z) : bresult (list (jstr * fmval)) :=
  match node with
  | YMap _ items =>
      throw_if (MAX_FRONTMATTER_DEPTH <? depth) ||
               (MAX_FRONTMATTER_MAP_ITEMS <? Z.of_nat (length items))
        with frontmatterError unsafe_frontmatter ;;
      structured_entries (fun v => parseStructuredValue v (depth + 1)) items []
  | _ => Err (frontmatterError unsafe_frontmatter)
  end.

Definition metadata_value (key : jstr) (v : ynode) : bresult fmval :=
  if jeqb (normalizedKey key) (js "openclaw") then
    match v with
    | YMap _ _ => let? l := parseStructuredMetadataMap v 0 in Ok (FMap l)
    | _ => Err (frontmatterError unsafe_frontmatter)
    end
  else
    let? value := parseYamlScalar v MAX_METADATA_VALUE_CHARS true in
    match value with
    | FStr s => Ok (FStr s)
    | _ => Err (frontmatterError invalid_frontmatter)
    end.

(** The loops of [parseMetadataMap] and [parseFrontmatter] differ only in the
    parser for a field's value. *)
Fixpoint field_entries (parse : jstr -> ynode -> bresult fmval)
    (items : list (ynode * ynode)) (seen : list jstr) : bresult (list (jstr * fmval)) :=
  match items with
  | [] => Ok []
  | (k, v) :: rest =>
      let? key := yamlMapKey k in
      throw_if isDangerousFrontmatterKey key with frontmatterError unsafe_frontmatter ;;
      throw_if bool_decide (normalizedKey key ∈ seen) || reserved_name key
        with frontmatterError invalid_frontmatter ;;
      let? value := parse key v in
      let? entries := field_entries parse rest (normalizedKey key :: seen) in
      Ok ((key, value) :: entries)
  end.

Definition parseMetadataMap (node : ynode) : bresult (list (jstr * fmval)) :=
  match node with
  | YMap _ items =>
      throw_if MAX_METADATA_FIELDS <? Z.of_nat (length items)
        with frontmatterError invalid_frontmatter ;;
      field_entries metadata_value items []
  | _ => Err (frontmatterError unsafe_frontmatter)
  end.

Definition frontmatter_field (key : jstr) (v : ynode) : bresult fmval :=
  if jeqb (frontmatterKey key) (js "metadata") then
    let? l := parseMetadataMap v in Ok (FMap l)
  else if bool_decide (normalizedKey key ∈ KNOWN_FRONTMATTER_FIELDS) then
    parseYamlString v MAX_FRONTMATTER_VALUE_CHARS false
  else parseStructuredValue v 0.

(** ** The document *)

(** Carriage return line feed, then lone carriage returns, become line feeds. *)
Fixpoint crlf_to_lf (s : jstr) : jstr :=
  match s with
  | c :: r =>
      match r with
      | d :: r' => if (c =? 13) && (d =? 10) then 10 :: crlf_to_lf r' else c :: crlf_to_lf r
      | [] => [c]
      end
  | [] => []
  end.
Definition cr_to_lf (s : jstr) : jstr := (fun c => if c =? 13 then 10 else c) <$> s.

Definition DELIMITER : jstr := js "---".

(** [lines.findIndex((line, index) => index > 0 && line === '---')]. *)
Fixpoint find_close (index : nat) (lines : list jstr) : option nat :=
  match lines with
  | [] => None
  | line :: rest =>
      if (0 <? index)%nat && jeqb line DELIMITER then Some index else find_close (S index) rest
  end.

Variable parseDocument : jstr -> option ydocument.

Definition unsafe_document (d : ydocument) : bool :=
  match directives d with
  | None => true
  | Some dir =>
      (0 <? errors d)%nat || (0 <? warnings d)%nat || negb (docStart_null dir) || docEnd dir ||
      yaml_explicit dir || existsb (fun tag => negb (jeqb tag (js "!!"))) (tag_names dir)
  end.

Definition parseFrontmatter (text : jstr) : bresult (list (jstr * fmval)) :=
  let lines := split 10 (cr_to_lf (crlf_to_lf text)) in
  throw_if negb (jeqb (default [] (head lines)) DELIMITER)
    with frontmatterError missing_frontmatter ;;
  match find_close 0 lines with
  | None => Err (frontmatterError invalid_frontmatter)
  | Some close =>
      throw_if MAX_FRONTMATTER_LINES <? Z.of_nat close + 1
        with frontmatterError invalid_frontmatter ;;
      throw_if MAX_FRONTMATTER_BYTES <? jlen (textEncode (join [10] (take (S close) lines)))
        with frontmatterError invalid_frontmatter ;;
      match parseDocument (join [10] (drop 1 (take close lines))) with
      | None => Err (frontmatterError invalid_frontmatter)
      | Some document =>
          throw_if unsafe_document document with frontmatterError invalid_frontmatter ;;
          match contents document with
          | YMap marked items =>
              throw_if MAX_FRONTMATTER_FIELDS <? Z.of_nat (length items)
                with frontmatterError invalid_frontmatter ;;
              let? _ := assertSafeYamlNode (contents document) 0 0 in
              field_entries frontmatter_field items []
          | _ => Err (frontmatterError invalid_frontmatter)
          end
      end
  end.

Definition decodeSkillText (c : jstr) : bresult jstr :=
  let? bytes := decodeBase64 (JStr c) SKILL_MD in
  match textDecode bytes with
  | Some text => Ok text
  | None => Err (bundle_error invalid_skill_encoding SKILL_MD)
  end.

Fixpoint fm_get (l : list (jstr * fmval)) (k : jstr) : option fmval :=
  match l with
  | [] => None
  | (k', v) :: l' => if jeqb k' k then Some v else fm_get l' k
  end.

Definition parseSkillMetadata (bundle : jsval) : bresult SkillMetadata :=
  let? normalized := validateBundle bundle in
  match find_first (fun f => jeqb (path f) SKILL_MD) (files normalized) with
  | None => Err (bundle_error missing_skill_metadata SKILL_MD)
  | Some skillFile =>
      let? text := decodeSkillText (content skillFile) in
      let? fm := parseFrontmatter text in
      match fm_get fm (js "name") with
      | Some (FStr nameValue) =>
          throw_if negb (NAME_PATTERN nameValue) with bundle_error invalid_skill_name SKILL_MD ;;
          throw_if 64 <? jlen (code_points nameValue)
            with bundle_error invalid_skill_name SKILL_MD ;;
          match fm_get fm (js "description") with
          | Some (FStr descriptionValue) =>
              throw_if (jlen (trim descriptionValue) =? 0) ||
                       (1024 <? jlen (code_points descriptionValue))
                with bundle_error invalid_skill_description SKILL_MD ;;
              Ok {| skillName := nameValue; description := descriptionValue; frontmatter := fm |}
          | _ => Err (bundle_error invalid_skill_description SKILL_MD)
          end
      | _ => Err (bundle_error invalid_skill_name SKILL_MD)
      end
  end.

End with_unicode.

Example camel_case_hook_rejected :
  isDangerousFrontmatterKey (U := ascii_tables) (js "scriptPath") = true.
Proof. vm_compute. reflexivity. Qed.
Example description_allowed :
  isDangerousFrontmatterKey (U := ascii_tables) (js "description") = false.
Proof. vm_compute. reflexivity. Qed.

(** ** What an accepted document guarantees *)

Fixpoint ynode_rect' (P : ynode -> Prop) (HN : P YNull) (HA : P YAlias)
    (HS : forall m v, P (YScalar m v))
    (HQ : forall m l, Forall P l -> P (YSeq m l))
    (HM : forall m l, Forall (fun kv => P kv.1 /\ P kv.2) l -> P (YMap m l))
    (HO : forall m, P (YOther m)) (n : ynode) : P n :=
  match n with
  | YNull => HN
  | YAlias => HA
  | YScalar m v => HS m v
  | YSeq m l =>
      HQ m l ((fix go (l : list ynode) : Forall P l :=
        match l with
        | [] => Forall_nil_2 _
        | x :: l' => Forall_cons_2 _ _ _ (ynode_rect' P HN HA HS HQ HM HO x) (go l')
        end) l)
  | YMap m l =>
      HM m l ((fix go (l : list (ynode * ynode)) : Forall (fun kv => P kv.1 /\ P kv.2) l :=
        match l with
        | [] => Forall_nil_2 _
        | x :: l' =>
            Forall_cons_2 (fun kv => P kv.1 /\ P kv.2) _ _
              (conj (ynode_rect' P HN HA HS HQ HM HO x.1) (ynode_rect' P HN HA HS HQ HM HO x.2))
              (go l')
        end) l)
  | YOther m => HO m
  end.

(** Number of nodes of a tree, keys included. *)
Fixpoint node_count (n : ynode) : Z :=
  match n with
  | YSeq _ l => 1 + foldr (fun x acc => node_count x + acc) 0 l
  | YMap _ l => 1 + foldr (fun kv acc => node_count kv.1 + node_count kv.2 + acc) 0 l
  | _ => 1
  end.

(** No aliases, anchors, tags or unknown nodes anywhere in the tree. *)
Fixpoint plain_tree (n : ynode) : Prop :=
  match n with
  | YScalar m v => m = false /\ v <> YOtherScalar
  | YSeq m l => m = false /\ foldr (fun x P => plain_tree x /\ P) True l
  | YMap m l => m = false /\ foldr (fun kv P => (plain_tree kv.1 /\ plain_tree kv.2) /\ P) True l
  | _ => False
  end.

Lemma assertSafe_spec node : forall depth n n',
  assertSafeYamlNode node depth n = Ok n' ->
  n' = n + node_count node /\ n' <= MAX_FRONTMATTER_NODES /\ plain_tree node.
Proof.
  induction node as [| |m v|m l IH|m l IH|m] using ynode_rect'; intros depth n n' H;
    cbn [assertSafeYamlNode] in H; ok_inv; bool_inv; try done.
  - assert (n' = n + 1 /\ v <> YOtherScalar) as [-> Hv].
    { destruct v; ok_inv; done. }
    by subst.
  - cbn [node_count plain_tree].
    assert (Hgo : forall k k', Forall (fun node => forall depth n n',
        assertSafeYamlNode node depth n = Ok n' ->
        n' = n + node_count node /\ n' <= MAX_FRONTMATTER_NODES /\ plain_tree node) l ->
      k <= MAX_FRONTMATTER_NODES ->
      (fix go (l : list ynode) (n : Z) : bresult Z :=
        match l with
        | [] => Ok n
        | item :: l' => let? n' := assertSafeYamlNode item (depth + 1) n in go l' n'
        end) l k = Ok k' ->
      k' = k + foldr (fun x acc => node_count x + acc) 0 l /\ k' <= MAX_FRONTMATTER_NODES /\
      foldr (fun x P => plain_tree x /\ P) True l).
    { clear. induction l as [|x l IHl]; intros k k' Hall Hk H; cbn in *; ok_inv.
      - repeat split; [lia | done].
      - apply Forall_cons in Hall as [Hx Hall]. destruct (Hx _ _ _ E) as (-> & Hle & Hp).
        destruct (IHl _ _ Hall Hle H) as (-> & ? & ?). repeat split; try done. lia. }
    destruct (Hgo _ _ IH G H) as (-> & ? & ?). repeat split; try done. lia.
  - cbn [node_count plain_tree].
    assert (Hgo : forall k k', Forall (fun kv : ynode * ynode => 
        (forall depth n n', assertSafeYamlNode kv.1 depth n = Ok n' ->
          n' = n + node_count kv.1 /\ n' <= MAX_FRONTMATTER_NODES /\ plain_tree kv.1) /\
        (forall depth n n', assertSafeYamlNode kv.2 depth n = Ok n' ->
          n' = n + node_count kv.2 /\ n' <= MAX_FRONTMATTER_NODES /\ plain_tree kv.2)) l ->
      k <= MAX_FRONTMATTER_NODES ->
      (fix go (l : list (ynode * ynode)) (n : Z) : bresult Z :=
        match l with
        | [] => Ok n
        | (k, v) :: l' =>
            let? n1 := assertSafeYamlNode k (depth + 1) n in
            let? n2 := assertSafeYamlNode v (depth + 1) n1 in
            go l' n2
        end) l k = Ok k' ->
      k' = k + foldr (fun kv acc => node_count kv.1 + node_count kv.2 + acc) 0 l /\
      k' <= MAX_FRONTMATTER_NODES /\
      foldr (fun kv P => (plain_tree kv.1 /\ plain_tree kv.2) /\ P) True l).
    { clear. induction l as [|[x y] l IHl]; intros k k' Hall Hk H; cbn in *; ok_inv.
      - repeat split; [lia | done].
      - apply Forall_cons in Hall as [[Hx Hy] Hall]. cbn in *.
        destruct (Hx _ _ _ E) as (-> & Hle & Hp). destruct (Hy _ _ _ E0) as (-> & Hle' & Hp').
        destruct (IHl _ _ Hall Hle' H) as (-> & ? & ?). repeat split; try done. lia. }
    destruct (Hgo _ _ IH G H) as (-> & ? & ?). repeat split; try done. lia.
Qed.

(** ** The camel-case rule *)

Lemma trimStart_suffix s : exists p, s = p ++ trimStart s.
Proof.
  induction s as [|c s [p Hp]]; cbn; [by exists []|].
  destruct (is_js_space c); [|by exists []]. exists (c :: p). cbn. by rewrite <- Hp.
Qed.

Lemma trim_ascii s : Forall is_ascii s -> Forall is_ascii (trim s).
Proof.
  assert (Hts : forall q, Forall is_ascii q -> Forall is_ascii (trimStart q)).
  { intros q Hq. destruct (trimStart_suffix q) as [p Hp]. rewrite Hp in Hq.
    by apply Forall_app in Hq as [_ ?]. }
  intros H. unfold trim. by apply Forall_reverse, Hts, Forall_reverse, Hts.
Qed.

Lemma camel_hyphen_lower s :
  Forall (fun c => is_upper c = false) s -> camel_hyphen s = s.
Proof.
  induction 1 as [|c s Hc Hs IH]; [done|]. cbn. destruct s as [|d s]; [done|].
  inversion Hs as [|? ? Hd]; subst. rewrite Hd, andb_false_r. by rewrite IH.
Qed.

(** The camel-case branch of [isDangerousFrontmatterKey] never fires: the
    key is lower-cased before the rule that inserts a hyphen between a lower-
    and an upper-case letter runs, so on every (ASCII) field name that rule is
    the identity. *)
Theorem camel_case_rule_is_dead {U : UnicodeTables} (HU : UnicodeLaws U) (key : jstr) :
  Forall is_ascii key -> camel_hyphen (frontmatterKey key) = frontmatterKey key.
Proof.
  intros Hk. unfold frontmatterKey. rewrite lower_ascii by (by apply trim_ascii).
  apply camel_hyphen_lower, Forall_fmap, Forall_forall. intros c _. cbn.
  unfold ascii_lower. destruct (is_upper c) eqn:E; [|done].
  unfold is_upper in *. range_inv. apply between_false. lia.
Qed.

(** ** Keys that activate something

    What [isDangerousFrontmatterKey] is for, stated on its own. *)

(** The words that name what runs code. *)
Definition activation_terms : list jstr :=
  js <$> ["plugin"; "extension"; "mcp"; "hook"; "command"; "script"; "runtime"; "entrypoint"; "install";
          "execute"]%string.
Definition is_separator (c : Z) : Prop := c = 45 \/ c = 95.
#[local] Instance is_separator_dec c : Decision (is_separator c).
Proof. unfold is_separator. apply _. Defined.
Definition starts_separated (s : jstr) : Prop := s = [] \/ exists c r, s = c :: r /\ is_separator c.
Definition ends_separated (s : jstr) : Prop := s = [] \/ exists c r, s = r ++ [c] /\ is_separator c.
(** [word] is one of the words that hyphens and underscores separate. *)
Definition has_word (word s : jstr) : Prop :=
  exists a b, s = a ++ word ++ b /\ ends_separated a /\ starts_separated b.
Definition letters (s : jstr) : jstr := filter (fun c => ~ is_separator c) s.
(** A key that activates something, whatever the case of its letters: it is
    [tool] or [tools], or one of the terms is a word of it, or begins or ends it
    once the separators are removed.  [allowed-tools] is not one.  A term in the
    middle of a key without separators ([myPluginPath]) does not make one
    either. *)
Definition activation_key (key : jstr) : Prop :=
  let name := ascii_lower <$> key in
  letters name <> js "allowedtools" /\
  (letters name = js "tool" \/ letters name = js "tools" \/
   exists term, term ∈ activation_terms /\
     (has_word term name \/ term `prefix_of` letters name \/ term `suffix_of` letters name)).


Section activation.
Context {U : UnicodeTables} {UL : UnicodeLaws U}.

Lemma separator_test c : (c =? 45) || (c =? 95) = bool_decide (is_separator c).
Proof.
  unfold is_separator. destruct (Z.eqb_spec c 45), (Z.eqb_spec c 95); cbn; symmetry;
    first [apply bool_decide_eq_true_2; tauto | apply bool_decide_eq_false_2; tauto].
Qed.
Lemma separators_removed s : remove_separators s = letters s.
Proof. apply list_filter_iff. intros c. unfold is_separator. tauto. Qed.

(** The word [s] begins with, and those after a separator. *)
Fixpoint first_word (s : jstr) : jstr :=
  match s with
  | c :: r => if decide (is_separator c) then [] else c :: first_word r
  | [] => []
  end.
Definition later_word (word s : jstr) : Prop :=
  exists a c b, s = a ++ c :: word ++ b /\ is_separator c /\ starts_separated b.
Lemma first_word_spec word s : Forall (fun c => ~ is_separator c) word ->
  first_word s = word <-> exists b, s = word ++ b /\ starts_separated b.
Proof.
  intros Hw. split.
  - intros <-. clear Hw. induction s as [|c r (b & Hr & Hb)]; cbn; [exists []; split; [done | by left]|].
    destruct (decide _) as [Hc|Hc]; [exists (c :: r); split; [done | right; by exists c, r]|].
    exists b. split; [by rewrite Hr at 1 | done].
  - intros (b & -> & Hb). induction Hw as [|c word Hc _ IH]; cbn.
    + destruct Hb as [->|(c & r & -> & Hc)]; cbn; [done|]. by rewrite decide_True.
    + by rewrite decide_False, IH.
Qed.
Lemma has_word_cases word s : Forall (fun c => ~ is_separator c) word ->
  has_word word s <-> first_word s = word \/ later_word word s.
Proof.
  intros Hw. rewrite first_word_spec by done. split.
  - intros (a & b & -> & [->|(c & r & -> & Hc)] & Hb); [left; by exists b|].
    right. exists r, c, b. by rewrite <- app_assoc.
  - intros [(b & -> & Hb)|(a & c & b & -> & Hc & Hb)].
    + exists [], b. split; [done|]. split; [by left | done].
    + exists (a ++ [c]), b. rewrite <- app_assoc. split; [done|]. split; [|done]. right. by exists c, a.
Qed.
Lemma later_word_cons word c s : later_word word (c :: s) <->
  (is_separator c /\ exists b, s = word ++ b /\ starts_separated b) \/ later_word word s.
Proof.
  split.
  - intros ([|d a] & e & b & E & He & Hb); injection E as -> ->; [left; split; [done | by exists b]|].
    right. by exists a, e, b.
  - intros [(Hc & b & -> & Hb)|(a & e & b & -> & He & Hb)]; [by exists [], c, b|]. by exists (c :: a), e, b.
Qed.
Lemma later_word_nil word : ~ later_word word [].
Proof. by intros ([|] & c & b & E & _). Qed.

Lemma squeezed_words word s b : word <> [] -> Forall (fun c => ~ is_separator c) word ->
  (word ∈ split 45 (squeeze b s) <-> has_word word s) /\
  (b = false -> exists tl, split 45 (squeeze b s) = first_word s :: tl /\ (word ∈ tl <-> later_word word s)).
Proof.
  intros Hne Hw. revert b. induction s as [|c s IH]; intros b.
  { rewrite has_word_cases by done. pose proof (later_word_nil word). cbn. rewrite list_elem_of_singleton.
    split; [intuition congruence|]. intros _. exists []. split; [done|].
    split; [by intros ?%not_elem_of_nil | done]. }
  rewrite has_word_cases by done. rewrite later_word_cons, <- first_word_spec by done. cbn [squeeze first_word].
  rewrite separator_test. destruct (IH true) as [IHt _]. destruct (IH false) as [IHf (tl & Hs & Htl)]; [done|].
  rewrite has_word_cases in IHt, IHf by done. assert (Hne' : [] <> word) by congruence.
  case_bool_decide as Hc.
  - rewrite decide_True by done. destruct b; cbn [split].
    + split; [|done]. rewrite IHt. tauto.
    + rewrite (Z.eqb_refl 45), elem_of_cons, IHt. split.
      { split; intros [?|?]; try congruence; tauto. }
      intros _. eexists. split; [done|]. rewrite later_word_cons, <- first_word_spec, IHt by done. tauto.
  - rewrite decide_False by done. cbn [split]. rewrite (proj2 (Z.eqb_neq c 45)) by (unfold is_separator in Hc; tauto).
    rewrite Hs, elem_of_cons, Htl. split.
    { split; [intros [?|?]; [left; congruence | tauto] | intros [?|?]; [left; congruence | tauto]]. }
    intros _. eexists. split; [done|]. rewrite later_word_cons, Htl. tauto.
Qed.

Lemma field_name_units key : field_name_pattern key = true ->
  Forall (fun c => is_ascii c /\ is_js_space c = false) key.
Proof.
  assert (Hu : forall d, is_letter d || is_digit d || (d =? 95) || (d =? 45) = true -> is_ascii d /\ is_js_space d = false).
  { intros d H. unfold is_letter, is_lower, is_upper, is_digit, is_js_space, is_ascii in *.
    rewrite !orb_true_iff, !between_spec, !Z.eqb_eq in H. split; [lia|].
    rewrite !orb_false_iff, !between_false, !Z.eqb_neq. lia. }
  destruct key as [|c r]; [done|]. cbn. rewrite !andb_true_iff, forallb_forall. intros [[Hc _] Hr]. constructor.
  - apply Hu. by rewrite Hc.
  - apply Forall_forall. intros d Hd. by apply Hu, Hr, list_elem_of_In.
Qed.
Lemma trim_plain s : Forall (fun c => is_js_space c = false) s -> trim s = s.
Proof.
  assert (Hts : forall q, Forall (fun c => is_js_space c = false) q -> trimStart q = q)
    by (intros q Hq; destruct Hq as [|c q Hc _]; cbn; [done | by rewrite Hc]).
  intros H. unfold trim. by rewrite (Hts s), (Hts (reverse s)), reverse_involutive by (first [done | by apply Forall_reverse]).
Qed.
Lemma ascii_lower_idem c : ascii_lower (ascii_lower c) = ascii_lower c.
Proof.
  unfold ascii_lower at 2 3. destruct (is_upper c) eqn:E; [|by unfold ascii_lower; rewrite E].
  unfold ascii_lower. replace (is_upper (c + 32)) with false; [done|]. symmetry.
  unfold is_upper in *. apply between_spec in E. apply between_false. lia.
Qed.
Lemma squeeze_units (P : Z -> Prop) s b : P 45 -> Forall P s -> Forall P (squeeze b s).
Proof.
  intros H45 H. revert b. induction H as [|c s Hc _ IH]; intros b; cbn; [done|].
  destruct (_ || _), b; auto.
Qed.
Lemma split_units (P : Z -> Prop) sep s word : Forall P s -> word ∈ split sep s -> Forall P word.
Proof.
  intros H. revert word. induction H as [|c s Hc _ IH]; intros word; cbn.
  { intros ->%list_elem_of_singleton. done. }
  destruct (c =? sep); [intros [->|Hin]%elem_of_cons; auto|].
  destruct (split sep s) as [|w ws]; [intros ->%list_elem_of_singleton; auto|].
  intros [->|Hin]%elem_of_cons; [constructor; [done|]; apply IH; by left | apply IH; by right].
Qed.
(** Lower-casing the segments of a lower-case key changes nothing. *)
Lemma segments_lower key : Forall is_ascii key ->
  toLowerCase <$> split_separators (ascii_lower <$> key) = split_separators (ascii_lower <$> key).
Proof.
  intros Hk. rewrite <- (list_fmap_id (split_separators (ascii_lower <$> key))) at 2.
  apply list_fmap_ext. intros i w Hi%list_elem_of_lookup_2.
  apply (split_units (fun c => is_ascii c /\ ascii_lower c = c)) in Hi.
  - rewrite lower_ascii by (eapply Forall_impl; [exact Hi|]; by intros c []).
    rewrite <- (list_fmap_id w) at 2. apply list_fmap_ext. intros j c Hc%list_elem_of_lookup_2.
    by apply (proj1 (Forall_forall _ _) Hi) in Hc as [_ ->].
  - apply squeeze_units; [done|]. apply Forall_fmap. eapply Forall_impl; [exact Hk|]. cbn. intros c Hc. split.
    + unfold ascii_lower, is_ascii in *. destruct (is_upper c) eqn:E; [|done]. apply between_spec in E. lia.
    + apply ascii_lower_idem.
Qed.
(** The names the code lists begin with a term, but for two. *)
Lemma listed_names name : name ∈ DANGEROUS_FRONTMATTER_KEYS ->
  name = js "tool" \/ name = js "tools" \/ exists term, term ∈ activation_terms /\ term `prefix_of` name.
Proof.
  assert (H : Forall (fun name => name = js "tool" \/ name = js "tools" \/
            Exists (fun term => startsWith term name = true) activation_terms) DANGEROUS_FRONTMATTER_KEYS)
    by (apply (bool_decide_unpack _); vm_compute; exact I).
  intros Hn%(proj1 (Forall_forall _ _) H). destruct Hn as [?|[?|(t & Ht & Hp)%Exists_exists]]; [tauto..|].
  right. right. exists t. split; [done|]. by apply startsWith_spec in Hp.
Qed.
Lemma terms_plain term : term ∈ activation_terms -> term <> [] /\ Forall (fun c => ~ is_separator c) term.
Proof.
  assert (H : Forall (fun term => term <> [] /\ Forall (fun c => ~ is_separator c) term) activation_terms)
    by (apply (bool_decide_unpack _); vm_compute; exact I).
  apply (proj1 (Forall_forall _ _) H).
Qed.
(** On field names, the code's test is this one. *)
Lemma dangerous_key_iff key : field_name_pattern key = true ->
  isDangerousFrontmatterKey key = true <-> activation_key key.
Proof.
  intros Hpat%field_name_units.
  assert (Hk : Forall is_ascii key) by (eapply Forall_impl; [exact Hpat|]; by intros c []).
  assert (Hf : frontmatterKey key = ascii_lower <$> key).
  { unfold frontmatterKey. rewrite trim_plain by (eapply Forall_impl; [exact Hpat|]; by intros c []). by apply lower_ascii. }
  unfold isDangerousFrontmatterKey. rewrite (camel_case_rule_is_dead UL) by done. rewrite Hf, separators_removed.
  rewrite segments_lower by done. unfold activation_key. set (name := ascii_lower <$> key).
  change DANGEROUS_FRONTMATTER_PARTS with activation_terms.
  destruct (jeqb (letters name) (js "allowedtools")) eqn:Ea.
  { apply jeqb_true in Ea. split; [done|]. by intros []. }
  apply jeqb_false in Ea. case_bool_decide as Hin.
  { split; [|done]. intros _. split; [done|]. destruct (listed_names _ Hin) as [?|[?|(t & ? & ?)]]; [tauto..|].
    right. right. exists t. tauto. }
  rewrite existsb_elem. split.
  - intros (t & Ht & Hor). destruct (terms_plain t Ht) as [Hne Hw]. split; [done|]. right. right. exists t. split; [done|].
    rewrite !orb_true_iff, bool_decide_eq_true, startsWith_spec, endsWith_spec in Hor.
    destruct (squeezed_words t name false Hne Hw) as [<- _]. destruct Hor as [[?|?]|?]; auto.
  - intros [_ [E|[E|(t & Ht & Hor)]]].
    + exfalso. apply Hin. rewrite E. apply (bool_decide_unpack _). vm_compute. exact I.
    + exfalso. apply Hin. rewrite E. apply (bool_decide_unpack _). vm_compute. exact I.
    + destruct (terms_plain t Ht) as [Hne Hw]. exists t. split; [done|].
      destruct (squeezed_words t name false Hne Hw) as [<- _] in Hor.
      rewrite !orb_true_iff, bool_decide_eq_true, startsWith_spec, endsWith_spec.
      destruct Hor as [?|[?|?]]; auto.
Qed.
End activation.

Section guarantees.
Context {U : UnicodeTables} {UL : UnicodeLaws U}.

Definition field_name_ok (key : jstr) : Prop :=
  field_name_pattern key = true /\ ~ activation_key key.
Lemma field_name_safe key :
  field_name_pattern key = true -> isDangerousFrontmatterKey key = false -> field_name_ok key.
Proof. intros Hp Hd. split; [done|]. intros Ha%dangerous_key_iff; congruence. Qed.

(** Every map at every level has distinct normalized keys, none of which is
    malformed or activates something. *)
Fixpoint inert (v : fmval) : Prop :=
  match v with
  | FMap l =>
      NoDup (normalizedKey <$> l.*1) /\
      foldr (fun kv P => (field_name_ok kv.1 /\ inert kv.2) /\ P) True l
  | FSeq l => foldr (fun x P => inert x /\ P) True l
  | _ => True
  end.
(** Nesting height of a value. *)
Fixpoint height (v : fmval) : Z :=
  match v with
  | FMap l => 1 + foldr (fun kv h => Z.max (height kv.2) h) 0 l
  | FSeq l => 1 + foldr (fun x h => Z.max (height x) h) 0 l
  | _ => 1
  end.

Lemma inert_map l :
  inert (FMap l) <-> NoDup (normalizedKey <$> l.*1) /\
    Forall (fun kv => field_name_ok kv.1 /\ inert kv.2) l.
Proof. cbn. by rewrite foldr_and_Forall. Qed.
Lemma inert_seq l : inert (FSeq l) <-> Forall inert l.
Proof. cbn. by rewrite foldr_and_Forall. Qed.
Lemma height_max_le {A} (h : A -> Z) l m :
  0 <= m -> Forall (fun x => h x <= m) l -> foldr (fun x acc => Z.max (h x) acc) 0 l <= m.
Proof. intros Hm. induction 1; cbn; lia. Qed.
Lemma height_map l m :
  0 <= m -> Forall (fun kv : jstr * fmval => height kv.2 <= m) l -> height (FMap l) <= 1 + m.
Proof.
  intros. cbn. apply Z.add_le_mono_l.
  by apply (height_max_le (fun kv : jstr * fmval => height kv.2)).
Qed.
Lemma height_seq l m : 0 <= m -> Forall (fun x => height x <= m) l -> height (FSeq l) <= 1 + m.
Proof. intros. cbn. apply Z.add_le_mono_l. by apply (height_max_le height). Qed.

Lemma yamlMapKey_ok n key : yamlMapKey n = Ok key -> field_name_pattern key = true.
Proof. unfold yamlMapKey. intros H. repeat case_match; ok_inv; by bool_inv. Qed.

Lemma structured_entries_spec (parse : ynode -> bresult fmval) (Q : fmval -> Prop) items seen l :
  (forall k v w, (k, v) ∈ items -> parse v = Ok w -> Q w) ->
  structured_entries parse items seen = Ok l ->
  NoDup (normalizedKey <$> l.*1) /\ (forall k, k ∈ normalizedKey <$> l.*1 -> k ∉ seen) /\
  Forall (fun kv => field_name_ok kv.1 /\ Q kv.2) l.
Proof.
  revert seen l; induction items as [|[k v] items IH]; intros seen l HQ H; cbn in H; ok_inv.
  { repeat split; [constructor | set_solver | constructor]. }
  bool_inv. destruct (IH _ _ ltac:(set_solver) E1) as (Hnd & Hseen & Hall).
  apply yamlMapKey_ok in E. cbn. repeat split.
  - constructor; [|done]. intros Hin. apply (Hseen _ Hin). by left.
  - intros x [->|Hx]%elem_of_cons; [done|]. specialize (Hseen x Hx). set_solver.
  - constructor; [|done]. split; [by apply field_name_safe|]. eapply HQ; [by left | done].
Qed.

Lemma field_entries_spec (parse : jstr -> ynode -> bresult fmval) (Q : fmval -> Prop) items seen l :
  (forall key v w, parse key v = Ok w -> Q w) ->
  field_entries parse items seen = Ok l ->
  NoDup (normalizedKey <$> l.*1) /\ (forall k, k ∈ normalizedKey <$> l.*1 -> k ∉ seen) /\
  Forall (fun kv => field_name_ok kv.1 /\ Q kv.2) l.
Proof.
  intros HQ. revert seen l; induction items as [|[k v] items IH]; intros seen l H; cbn in H; ok_inv.
  { repeat split; [constructor | set_solver | constructor]. }
  bool_inv. destruct (IH _ _ E1) as (Hnd & Hseen & Hall).
  apply yamlMapKey_ok in E. cbn. repeat split.
  - constructor; [|done]. intros Hin. apply (Hseen _ Hin). by left.
  - intros x [->|Hx]%elem_of_cons; [done|]. specialize (Hseen x Hx). set_solver.
  - constructor; [|done]. split; [by apply field_name_safe|]. by eapply HQ.
Qed.

Lemma parseYamlScalar_inert n m e v :
  parseYamlScalar n m e = Ok v -> inert v /\ height v = 1.
Proof. unfold parseYamlScalar. intros H. repeat case_match; ok_inv; done. Qed.

Lemma Forall_inert_split l (m : Z) :
  Forall (fun kv : jstr * fmval => field_name_ok kv.1 /\ (inert kv.2 /\ height kv.2 <= m)) l ->
  Forall (fun kv => field_name_ok kv.1 /\ inert kv.2) l /\
  Forall (fun kv => height kv.2 <= m) l.
Proof. intros H. split; eapply Forall_impl; try exact H; cbn; tauto. Qed.

Lemma parseStructuredValue_inert node : forall depth v,
  parseStructuredValue node depth = Ok v -> inert v /\ height v <= 9 - depth.
Proof.
  induction node as [| |m s|m l IH|m l IH|m] using ynode_rect'; intros depth v H;
    cbn [parseStructuredValue] in H; ok_inv; bool_inv; try done.
  - apply parseYamlScalar_inert in H as [? ->]. split; [done|]. unfold MAX_FRONTMATTER_DEPTH in *. lia.
  - apply map_result_Ok_Forall2 in E.
    assert (Hall : Forall (fun x => inert x /\ height x <= 8 - depth) a).
    { rewrite Forall_forall in IH. apply Forall_forall. intros y Hy.
      apply list_elem_of_lookup in Hy as [i Hi].
      destruct (Forall2_lookup_r _ _ _ _ _ E Hi) as (x & Hx & Hp).
      apply (IH x) in Hp; [|by eapply list_elem_of_lookup_2]. destruct Hp. split; [done | lia]. }
    split; [apply inert_seq; eapply Forall_impl; [exact Hall|]; cbn; tauto|].
    enough (height (FSeq a) <= 1 + (8 - depth)) by lia.
    apply height_seq; [unfold MAX_FRONTMATTER_DEPTH in *; lia|].
    eapply Forall_impl; [exact Hall|]. cbn; tauto.
  - apply (structured_entries_spec _ (fun x => inert x /\ height x <= 8 - depth)) in E.
    2:{ intros k x w Hin Hp. rewrite Forall_forall in IH. destruct (IH _ Hin) as [_ Hx].
        apply Hx in Hp as [? ?]. split; [done | lia]. }
    destruct E as (Hnd & _ & [Hkeys Hhts]%Forall_inert_split).
    split; [by apply inert_map|].
    enough (height (FMap a) <= 1 + (8 - depth)) by lia.
    apply height_map; [unfold MAX_FRONTMATTER_DEPTH in *; lia | done].
Qed.

Lemma metadata_value_inert key v w : metadata_value key v = Ok w -> inert w /\ height w <= 9.
Proof.
  unfold metadata_value. destruct (jeqb _ _); intros H.
  - destruct v as [| | | |m items|]; try done. ok_inv. unfold parseStructuredMetadataMap in E.
    ok_inv.
    apply (structured_entries_spec _ (fun x => inert x /\ height x <= 8)) in E.
    2:{ intros k x w Hin Hp. by apply parseStructuredValue_inert in Hp. }
    destruct E as (Hnd & _ & [Hkeys Hhts]%Forall_inert_split).
    split; [by apply inert_map|]. by apply (height_map a 8).
  - ok_inv. apply parseYamlScalar_inert in E as [? ?]. destruct a; ok_inv. done.
Qed.

Lemma frontmatter_field_inert key v w : frontmatter_field key v = Ok w -> inert w /\ height w <= 10.
Proof.
  unfold frontmatter_field. intros H. repeat case_match; ok_inv.
  - unfold parseMetadataMap in E. repeat case_match; ok_inv. 
    apply (field_entries_spec _ (fun x => inert x /\ height x <= 9)) in E;
      [|by intros; eapply metadata_value_inert].
    destruct E as (Hnd & _ & [Hkeys Hhts]%Forall_inert_split).
    split; [by apply inert_map|]. by apply (height_map a 9).
  - unfold parseYamlString in H. ok_inv. apply parseYamlScalar_inert in E as [? ?].
    destruct a; ok_inv. cbn. split; [done | lia].
  - apply parseStructuredValue_inert in H as [? ?]. split; [done | lia].
Qed.

Lemma parseFrontmatter_inert parseDocument text fm :
  parseFrontmatter parseDocument text = Ok fm ->
  inert (FMap fm) /\ height (FMap fm) <= 11.
Proof.
  unfold parseFrontmatter. intros H. ok_inv.
  destruct (find_close _ _); [|done]. ok_inv. destruct (parseDocument _) as [d|]; [|done]. ok_inv.
  destruct (contents d) as [| | | |m items|]; try done. ok_inv.
  apply (field_entries_spec _ (fun x => inert x /\ height x <= 10)) in H;
    [|by intros; eapply frontmatter_field_inert].
  destruct H as (Hnd & _ & [Hkeys Hhts]%Forall_inert_split).
  split; [by apply inert_map|]. by apply (height_map fm 10).
Qed.


(** The walk over the YAML tree counts every node once and accepts only
    trees of at most 2048 nodes without aliases, anchors, tags or exotic
    scalars, so no later step expands or constructs anything. *)
Theorem assertSafeYamlNode_bounded (node : ynode) (n : Z) :
  assertSafeYamlNode node 0 0 = Ok n ->
  n = node_count node /\ node_count node <= MAX_FRONTMATTER_NODES /\ plain_tree node.
Proof. intros (-> & H & Hp)%assertSafe_spec. rewrite Z.add_0_l in *. done. Qed.

End guarantees.

Lemma camel_case_rule_is_dead_witness :
  camel_hyphen (frontmatterKey (U := ascii_tables) (js "myPluginPath"))
  = frontmatterKey (U := ascii_tables) (js "myPluginPath") /\
  isDangerousFrontmatterKey (U := ascii_tables) (js "myPluginPath") = false /\
  isDangerousFrontmatterKey (U := ascii_tables) (js "my-plugin-path") = true.
Proof.
  split; [|vm_compute; done].
  apply (camel_case_rule_is_dead ascii_tables_laws). repeat constructor; discriminate.
Defined.

(** ** Witnesses *)

Definition demo_document : ydocument :=
  {| directives := Some {| docStart_null := true; docEnd := false; yaml_explicit := false;
                           tag_names := [js "!!"] |};
     errors := 0; warnings := 0;
     contents := YMap false
       [ (YScalar false (YStr (js "name")), YScalar false (YStr (js "demo-skill")));
         (YScalar false (YStr (js "description")), YScalar false (YStr (js "A demo.")));
         (YScalar false (YStr (js "tags")), YSeq false [YScalar false (YStr (js "x"))]) ] |}.
Definition demo_parseDocument (source : jstr) : option ydocument := Some demo_document.
Definition demo_metadata : SkillMetadata :=
  {| skillName := js "demo-skill"; description := js "A demo.";
     frontmatter := [ (js "name", FStr (js "demo-skill")); (js "description", FStr (js "A demo."));
                      (js "tags", FSeq [FStr (js "x")]) ] |}.


Lemma assertSafeYamlNode_bounded_witness :
  assertSafeYamlNode (contents demo_document) 0 0 = Ok 8 /\
  node_count (contents demo_document) <= MAX_FRONTMATTER_NODES.
Proof.
  split; [vm_compute; reflexivity|].
  apply (assertSafeYamlNode_bounded (contents demo_document) 8). vm_compute. reflexivity.
Defined.
