(* ===== verification/Contracts.v ===== *)
(** * The data model of the registry

    The types of packages/contracts/src/index.ts.  A union of string literals
    is an inductive type with its spelling ([StringEnum]); an optional field is
    an [option]; a value of type [unknown] is a [jsval].  Numbers the code
    reads from a request and keeps as they are ([timeoutSeconds],
    [evidenceMaxAgeSeconds]) stay binary64 values; counts, sizes and revisions,
    which the code checks to be integers, are [Z].  Record fields carry the
    initials of their type so that several types can have an [id].  The
    [with_...] functions are the assignments to the fields the code mutates. *)

From Stdlib Require Import ZArith Lia SpecFloat.
From stdpp Require Import base list strings sets.
From S2P Require Import Prelude Js Bundle.

Local Open Scope Z_scope.

(** ** String enumerations *)

Class StringEnum (A : Type) := {
  enum_values : list A;
  enum_name : A -> jstr;
}.
(** The value a string spells, when it spells one ([SET.has(value)]). *)
Definition enum_of (A : Type) `{StringEnum A} (s : jstr) : option A :=
  find_first (fun a => jeqb (enum_name a) s) enum_values.

Class EnumLaws (A : Type) `{StringEnum A} : Prop := {
  enum_complete (a : A) : a ∈ enum_values;
  enum_name_inj (a b : A) : enum_name a = enum_name b -> a = b;
}.

Inductive Role : Type :=
| Owner
| Admin
| Publisher
| Reader
| Worker.
#[export] Instance Role_eq_dec : EqDecision Role.
Proof. solve_decision. Defined.
#[export] Instance Role_enum : StringEnum Role := {|
  enum_values := [Owner; Admin; Publisher; Reader; Worker];
  enum_name v := match v with
    | Owner => js "owner"
    | Admin => js "admin"
    | Publisher => js "publisher"
    | Reader => js "reader"
    | Worker => js "worker"
    end
|}.
#[export] Instance Role_enum_laws : EnumLaws Role.
Proof. split; [intros []; set_solver | intros [] []; done]. Qed.

Inductive DistributionState : Type :=
| Pending
| Approved
| Quarantined
| ScanErrorState
| Revoked.
#[export] Instance DistributionState_eq_dec : EqDecision DistributionState.
Proof. solve_decision. Defined.
#[export] Instance DistributionState_enum : StringEnum DistributionState := {|
  enum_values := [Pending; Approved; Quarantined; ScanErrorState; Revoked];
  enum_name v := match v with
    | Pending => js "pending"
    | Approved => js "approved"
    | Quarantined => js "quarantined"
    | ScanErrorState => js "scan-error"
    | Revoked => js "revoked"
    end
|}.
#[export] Instance DistributionState_enum_laws : EnumLaws DistributionState.
Proof. split; [intros []; set_solver | intros [] []; done]. Qed.

Inductive ScannerId : Type :=
| CiscoSkillScanner
| NvidiaSkillspector
| Skillsguard.
#[export] Instance ScannerId_eq_dec : EqDecision ScannerId.
Proof. solve_decision. Defined.
#[export] Instance ScannerId_enum : StringEnum ScannerId := {|
  enum_values := [CiscoSkillScanner; NvidiaSkillspector; Skillsguard];
  enum_name v := match v with
    | CiscoSkillScanner => js "cisco-skill-scanner"
    | NvidiaSkillspector => js "nvidia-skillspector"
    | Skillsguard => js "skillsguard"
    end
|}.
#[export] Instance ScannerId_enum_laws : EnumLaws ScannerId.
Proof. split; [intros []; set_solver | intros [] []; done]. Qed.

Inductive Severity : Type :=
| Info
| Low
| Medium
| High
| Critical.
#[export] Instance Severity_eq_dec : EqDecision Severity.
Proof. solve_decision. Defined.
#[export] Instance Severity_enum : StringEnum Severity := {|
  enum_values := [Info; Low; Medium; High; Critical];
  enum_name v := match v with
    | Info => js "info"
    | Low => js "low"
    | Medium => js "medium"
    | High => js "high"
    | Critical => js "critical"
    end
|}.
#[export] Instance Severity_enum_laws : EnumLaws Severity.
Proof. split; [intros []; set_solver | intros [] []; done]. Qed.

(** The mode of a scanner and of a hook. *)
Inductive PolicyMode : Type :=
| Disabled
| Advisory
| Required.
#[export] Instance PolicyMode_eq_dec : EqDecision PolicyMode.
Proof. solve_decision. Defined.
#[export] Instance PolicyMode_enum : StringEnum PolicyMode := {|
  enum_values := [Disabled; Advisory; Required];
  enum_name v := match v with
    | Disabled => js "disabled"
    | Advisory => js "advisory"
    | Required => js "required"
    end
|}.
#[export] Instance PolicyMode_enum_laws : EnumLaws PolicyMode.
Proof. split; [intros []; set_solver | intros [] []; done]. Qed.

Inductive HookEvent : Type :=
| IngestValidate
| ArtifactEvaluate
| PackEvaluate
| ArtifactApproved
| ArtifactQuarantined.
#[export] Instance HookEvent_eq_dec : EqDecision HookEvent.
Proof. solve_decision. Defined.
#[export] Instance HookEvent_enum : StringEnum HookEvent := {|
  enum_values := [IngestValidate; ArtifactEvaluate; PackEvaluate; ArtifactApproved; ArtifactQuarantined];
  enum_name v := match v with
    | IngestValidate => js "ingest.validate"
    | ArtifactEvaluate => js "artifact.evaluate"
    | PackEvaluate => js "pack.evaluate"
    | ArtifactApproved => js "artifact.approved"
    | ArtifactQuarantined => js "artifact.quarantined"
    end
|}.
#[export] Instance HookEvent_enum_laws : EnumLaws HookEvent.
Proof. split; [intros []; set_solver | intros [] []; done]. Qed.

Inductive ScanStatus : Type :=
| ScanCompleted
| ScanDegraded
| ScanError
| ScanTimeout
| ScanUnsupported.
#[export] Instance ScanStatus_eq_dec : EqDecision ScanStatus.
Proof. solve_decision. Defined.
#[export] Instance ScanStatus_enum : StringEnum ScanStatus := {|
  enum_values := [ScanCompleted; ScanDegraded; ScanError; ScanTimeout; ScanUnsupported];
  enum_name v := match v with
    | ScanCompleted => js "completed"
    | ScanDegraded => js "degraded"
    | ScanError => js "error"
    | ScanTimeout => js "timeout"
    | ScanUnsupported => js "unsupported"
    end
|}.
#[export] Instance ScanStatus_enum_laws : EnumLaws ScanStatus.
Proof. split; [intros []; set_solver | intros [] []; done]. Qed.

Inductive JobKind : Type :=
| ScanJob
| ImportJob.
#[export] Instance JobKind_eq_dec : EqDecision JobKind.
Proof. solve_decision. Defined.
#[export] Instance JobKind_enum : StringEnum JobKind := {|
  enum_values := [ScanJob; ImportJob];
  enum_name v := match v with
    | ScanJob => js "scan"
    | ImportJob => js "import"
    end
|}.
#[export] Instance JobKind_enum_laws : EnumLaws JobKind.
Proof. split; [intros []; set_solver | intros [] []; done]. Qed.

Inductive JobState : Type :=
| JQueued
| JRunning
| JCompleted
| JFailed.
#[export] Instance JobState_eq_dec : EqDecision JobState.
Proof. solve_decision. Defined.
#[export] Instance JobState_enum : StringEnum JobState := {|
  enum_values := [JQueued; JRunning; JCompleted; JFailed];
  enum_name v := match v with
    | JQueued => js "queued"
    | JRunning => js "running"
    | JCompleted => js "completed"
    | JFailed => js "failed"
    end
|}.
#[export] Instance JobState_enum_laws : EnumLaws JobState.
Proof. split; [intros []; set_solver | intros [] []; done]. Qed.

Inductive PackState : Type :=
| PackApproved
| PackRevoked.
#[export] Instance PackState_eq_dec : EqDecision PackState.
Proof. solve_decision. Defined.
#[export] Instance PackState_enum : StringEnum PackState := {|
  enum_values := [PackApproved; PackRevoked];
  enum_name v := match v with
    | PackApproved => js "approved"
    | PackRevoked => js "revoked"
    end
|}.
#[export] Instance PackState_enum_laws : EnumLaws PackState.
Proof. split; [intros []; set_solver | intros [] []; done]. Qed.

Inductive ResourceKind : Type :=
| KSkill
| KPack.
#[export] Instance ResourceKind_eq_dec : EqDecision ResourceKind.
Proof. solve_decision. Defined.
#[export] Instance ResourceKind_enum : StringEnum ResourceKind := {|
  enum_values := [KSkill; KPack];
  enum_name v := match v with
    | KSkill => js "skill"
    | KPack => js "pack"
    end
|}.
#[export] Instance ResourceKind_enum_laws : EnumLaws ResourceKind.
Proof. split; [intros []; set_solver | intros [] []; done]. Qed.

Inductive UpstreamKind : Type :=
| UGithub
| URegistry
| USkillsSh.
#[export] Instance UpstreamKind_eq_dec : EqDecision UpstreamKind.
Proof. solve_decision. Defined.
#[export] Instance UpstreamKind_enum : StringEnum UpstreamKind := {|
  enum_values := [UGithub; URegistry; USkillsSh];
  enum_name v := match v with
    | UGithub => js "github"
    | URegistry => js "registry"
    | USkillsSh => js "skills-sh"
    end
|}.
#[export] Instance UpstreamKind_enum_laws : EnumLaws UpstreamKind.
Proof. split; [intros []; set_solver | intros [] []; done]. Qed.

Inductive ProvenanceKind : Type :=
| PKNative
| PKGithub
| PKRegistry
| PKSkillsSh.
#[export] Instance ProvenanceKind_eq_dec : EqDecision ProvenanceKind.
Proof. solve_decision. Defined.
#[export] Instance ProvenanceKind_enum : StringEnum ProvenanceKind := {|
  enum_values := [PKNative; PKGithub; PKRegistry; PKSkillsSh];
  enum_name v := match v with
    | PKNative => js "native"
    | PKGithub => js "github"
    | PKRegistry => js "registry"
    | PKSkillsSh => js "skills-sh"
    end
|}.
#[export] Instance ProvenanceKind_enum_laws : EnumLaws ProvenanceKind.
Proof. split; [intros []; set_solver | intros [] []; done]. Qed.

Inductive ExternalSourceType : Type :=
| EGithub
| EWellKnown.
#[export] Instance ExternalSourceType_eq_dec : EqDecision ExternalSourceType.
Proof. solve_decision. Defined.
#[export] Instance ExternalSourceType_enum : StringEnum ExternalSourceType := {|
  enum_values := [EGithub; EWellKnown];
  enum_name v := match v with
    | EGithub => js "github"
    | EWellKnown => js "well-known"
    end
|}.
#[export] Instance ExternalSourceType_enum_laws : EnumLaws ExternalSourceType.
Proof. split; [intros []; set_solver | intros [] []; done]. Qed.

Inductive SourceResolutionKind : Type :=
| SRSnapshot
| SRGithub
| SRWellKnown.
#[export] Instance SourceResolutionKind_eq_dec : EqDecision SourceResolutionKind.
Proof. solve_decision. Defined.
#[export] Instance SourceResolutionKind_enum : StringEnum SourceResolutionKind := {|
  enum_values := [SRSnapshot; SRGithub; SRWellKnown];
  enum_name v := match v with
    | SRSnapshot => js "snapshot"
    | SRGithub => js "github"
    | SRWellKnown => js "well-known"
    end
|}.
#[export] Instance SourceResolutionKind_enum_laws : EnumLaws SourceResolutionKind.
Proof. split; [intros []; set_solver | intros [] []; done]. Qed.

Inductive CatalogDetailFallback : Type :=
| FallbackInvalidPath
| FallbackNotFound
| FallbackIdentityMismatch.
#[export] Instance CatalogDetailFallback_eq_dec : EqDecision CatalogDetailFallback.
Proof. solve_decision. Defined.
#[export] Instance CatalogDetailFallback_enum : StringEnum CatalogDetailFallback := {|
  enum_values := [FallbackInvalidPath; FallbackNotFound; FallbackIdentityMismatch];
  enum_name v := match v with
    | FallbackInvalidPath => js "invalid_path"
    | FallbackNotFound => js "not_found"
    | FallbackIdentityMismatch => js "identity_mismatch"
    end
|}.
#[export] Instance CatalogDetailFallback_enum_laws : EnumLaws CatalogDetailFallback.
Proof. split; [intros []; set_solver | intros [] []; done]. Qed.

Inductive InstallReceiptAgent : Type :=
| Codex
| Claude
| Universal.
#[export] Instance InstallReceiptAgent_eq_dec : EqDecision InstallReceiptAgent.
Proof. solve_decision. Defined.
#[export] Instance InstallReceiptAgent_enum : StringEnum InstallReceiptAgent := {|
  enum_values := [Codex; Claude; Universal];
  enum_name v := match v with
    | Codex => js "codex"
    | Claude => js "claude"
    | Universal => js "universal"
    end
|}.
#[export] Instance InstallReceiptAgent_enum_laws : EnumLaws InstallReceiptAgent.
Proof. split; [intros []; set_solver | intros [] []; done]. Qed.

Inductive InstallReceiptPlatform : Type :=
| Windows
| Macos
| Linux
| OtherPlatform.
#[export] Instance InstallReceiptPlatform_eq_dec : EqDecision InstallReceiptPlatform.
Proof. solve_decision. Defined.
#[export] Instance InstallReceiptPlatform_enum : StringEnum InstallReceiptPlatform := {|
  enum_values := [Windows; Macos; Linux; OtherPlatform];
  enum_name v := match v with
    | Windows => js "windows"
    | Macos => js "macos"
    | Linux => js "linux"
    | OtherPlatform => js "other"
    end
|}.
#[export] Instance InstallReceiptPlatform_enum_laws : EnumLaws InstallReceiptPlatform.
Proof. split; [intros []; set_solver | intros [] []; done]. Qed.

Inductive SkillDraftOrigin : Type :=
| OriginRelease
| OriginUpload.
#[export] Instance SkillDraftOrigin_eq_dec : EqDecision SkillDraftOrigin.
Proof. solve_decision. Defined.
#[export] Instance SkillDraftOrigin_enum : StringEnum SkillDraftOrigin := {|
  enum_values := [OriginRelease; OriginUpload];
  enum_name v := match v with
    | OriginRelease => js "release"
    | OriginUpload => js "upload"
    end
|}.
#[export] Instance SkillDraftOrigin_enum_laws : EnumLaws SkillDraftOrigin.
Proof. split; [intros []; set_solver | intros [] []; done]. Qed.

Inductive SkillBuilderProposalState : Type :=
| ProposalPending
| ProposalApplied
| ProposalRejected
| ProposalStale.
#[export] Instance SkillBuilderProposalState_eq_dec : EqDecision SkillBuilderProposalState.
Proof. solve_decision. Defined.
#[export] Instance SkillBuilderProposalState_enum : StringEnum SkillBuilderProposalState := {|
  enum_values := [ProposalPending; ProposalApplied; ProposalRejected; ProposalStale];
  enum_name v := match v with
    | ProposalPending => js "pending"
    | ProposalApplied => js "applied"
    | ProposalRejected => js "rejected"
    | ProposalStale => js "stale"
    end
|}.
#[export] Instance SkillBuilderProposalState_enum_laws : EnumLaws SkillBuilderProposalState.
Proof. split; [intros []; set_solver | intros [] []; done]. Qed.

Inductive SkillBuilderRequestState : Type :=
| RequestAccepted
| RequestCompleted
| RequestFailed
| RequestUncertain.
#[export] Instance SkillBuilderRequestState_eq_dec : EqDecision SkillBuilderRequestState.
Proof. solve_decision. Defined.
#[export] Instance SkillBuilderRequestState_enum : StringEnum SkillBuilderRequestState := {|
  enum_values := [RequestAccepted; RequestCompleted; RequestFailed; RequestUncertain];
  enum_name v := match v with
    | RequestAccepted => js "accepted"
    | RequestCompleted => js "completed"
    | RequestFailed => js "failed"
    | RequestUncertain => js "uncertain"
    end
|}.
#[export] Instance SkillBuilderRequestState_enum_laws : EnumLaws SkillBuilderRequestState.
Proof. split; [intros []; set_solver | intros [] []; done]. Qed.

Inductive SkillBuilderSessionState : Type :=
| SessionReady
| SessionRunning
| SessionStopped
| SessionFailed
| SessionCompleted.
#[export] Instance SkillBuilderSessionState_eq_dec : EqDecision SkillBuilderSessionState.
Proof. solve_decision. Defined.
#[export] Instance SkillBuilderSessionState_enum : StringEnum SkillBuilderSessionState := {|
  enum_values := [SessionReady; SessionRunning; SessionStopped; SessionFailed; SessionCompleted];
  enum_name v := match v with
    | SessionReady => js "ready"
    | SessionRunning => js "running"
    | SessionStopped => js "stopped"
    | SessionFailed => js "failed"
    | SessionCompleted => js "completed"
    end
|}.
#[export] Instance SkillBuilderSessionState_enum_laws : EnumLaws SkillBuilderSessionState.
Proof. split; [intros []; set_solver | intros [] []; done]. Qed.

Inductive SkillDraftStatus : Type :=
| DraftOpen
| DraftPublishing
| DraftPublished
| DraftDiscarded.
#[export] Instance SkillDraftStatus_eq_dec : EqDecision SkillDraftStatus.
Proof. solve_decision. Defined.
#[export] Instance SkillDraftStatus_enum : StringEnum SkillDraftStatus := {|
  enum_values := [DraftOpen; DraftPublishing; DraftPublished; DraftDiscarded];
  enum_name v := match v with
    | DraftOpen => js "open"
    | DraftPublishing => js "publishing"
    | DraftPublished => js "published"
    | DraftDiscarded => js "discarded"
    end
|}.
#[export] Instance SkillDraftStatus_enum_laws : EnumLaws SkillDraftStatus.
Proof. split; [intros []; set_solver | intros [] []; done]. Qed.

Record PrincipalDisplayMetadata : Type := {
  pd_userName : option jstr;
  pd_userEmail : option jstr;
  pd_organizationName : option jstr;
  pd_organizationSlug : option jstr;
}.

(** A principal after [assertPrincipal]; [identity] is the field of
    [AuthenticatedPrincipalShape], [display] is kept as it came. *)
Record Principal : Type := {
  pr_organizationId : jstr;
  pr_subject : jstr;
  pr_roles : list Role;
  pr_namespaces : option (list jstr);
  pr_scopes : option (list jstr);
  pr_identity : option jstr;
  pr_display : jsval;
}.

Record StoredBlob : Type := {
  sb_key : jstr;
  sb_digest : jstr;
  sb_size : Z;
}.

Record ScannerPolicy : Type := {
  sp_id : ScannerId;
  sp_mode : PolicyMode;
  sp_blockSeverities : list Severity;
  sp_timeoutSeconds : spec_float;
  sp_configuration : option (list (jstr * jsval));
}.

Record HookConfiguration : Type := {
  hk_id : jstr;
  hk_event : HookEvent;
  hk_mode : PolicyMode;
  hk_url : option jstr;
  hk_secretEnv : option jstr;
  hk_timeoutSeconds : spec_float;
}.

Record Policy : Type := {
  po_revision : jstr;
  po_scanners : list ScannerPolicy;
  po_allowUnscanned : bool;
  po_evidenceMaxAgeSeconds : spec_float;
  po_hooks : option (list HookConfiguration);
}.
Definition with_po_revision (v : jstr) (r : Policy) : Policy := {|
  po_revision := v; po_scanners := po_scanners r; po_allowUnscanned := po_allowUnscanned r;
  po_evidenceMaxAgeSeconds := po_evidenceMaxAgeSeconds r; po_hooks := po_hooks r; |}.

Record Finding : Type := {
  fi_ruleId : jstr;
  fi_fingerprint : jstr;
  fi_severity : Severity;
  fi_category : jstr;
  fi_message : jstr;
  fi_file : option jstr;
  fi_line : option Z;
  fi_redactedEvidence : option jstr;
}.

Record Coverage : Type := {
  cv_filesEnumerated : Z;
  cv_filesAnalyzed : Z;
  cv_filesSkipped : Z;
  cv_filesUnsupported : Z;
  cv_limitations : list jstr;
  cv_externalDestinations : list jstr;
}.

Record ScanResult : Type := {
  sr_id : jstr;
  sr_organizationId : jstr;
  sr_jobId : jstr;
  sr_artifactDigest : jstr;
  sr_policyRevision : jstr;
  sr_scannerId : ScannerId;
  sr_engineVersion : jstr;
  sr_rulesRevision : jstr;
  sr_configurationHash : jstr;
  sr_status : ScanStatus;
  sr_findings : list Finding;
  sr_coverage : Coverage;
  sr_createdAt : jstr;
  sr_durationMs : Z;
  sr_error : option jstr;
}.

(** [externalSnapshotHash?: string | null]: absent, [null] or a string. *)
Inductive SnapshotHash : Type :=
| HashAbsent
| HashNull
| Hash (s : jstr).
#[export] Instance SnapshotHash_eq_dec : EqDecision SnapshotHash.
Proof. solve_decision. Defined.

(** [provider] is always 'skills.sh'; [externalSnapshotHash: string | null] is
    an [option] with [None] for [null]. *)
Record ExternalProvenance : Type := {
  ep_externalId : jstr;
  ep_source : jstr;
  ep_slug : jstr;
  ep_sourceType : ExternalSourceType;
  ep_sourceUrl : jstr;
  ep_catalogDetailFallback : option CatalogDetailFallback;
  ep_sourceProviderOrigin : option jstr;
  ep_sourceResolutionKind : option SourceResolutionKind;
  ep_fetchedAt : option jstr;
  ep_pageUrl : option jstr;
  ep_externalSnapshotHash : option jstr;
  ep_externalDigest : option jstr;
  ep_repository : option jstr;
  ep_skillPath : option jstr;
  ep_requestedRef : option jstr;
  ep_resolvedCommit : option jstr;
  ep_resolvedTree : option jstr;
  ep_wellKnownIndexUrl : option jstr;
  ep_wellKnownEntryName : option jstr;
  ep_artifactUrl : option jstr;
  ep_frontmatterName : option jstr;
  ep_frontmatterDescription : option jstr;
}.

Record Provenance : Type := {
  pv_kind : ProvenanceKind;
  pv_upstreamId : option jstr;
  pv_repository : option jstr;
  pv_path : option jstr;
  pv_revision : option jstr;
  pv_sourceDigest : option jstr;
  pv_externalId : option jstr;
  pv_externalSourceType : option ExternalSourceType;
  pv_externalSnapshotHash : SnapshotHash;
  pv_feedId : option jstr;
  pv_feedName : option jstr;
  pv_feedConfigRevision : option jstr;
  pv_sourceReference : option jstr;
  pv_externalSource : option jstr;
  pv_sourceProviderOrigin : option jstr;
  pv_sourceResolutionKind : option SourceResolutionKind;
  pv_fetchedAt : option jstr;
  pv_externalDigest : option jstr;
  pv_sourceUrl : option jstr;
  pv_catalogDetailFallback : option CatalogDetailFallback;
  pv_pageUrl : option jstr;
  pv_artifactUrl : option jstr;
  pv_skillPath : option jstr;
  pv_requestedRef : option jstr;
  pv_resolvedCommit : option jstr;
  pv_resolvedTree : option jstr;
  pv_wellKnownIndexUrl : option jstr;
  pv_wellKnownEntryName : option jstr;
  pv_frontmatterName : option jstr;
  pv_frontmatterDescription : option jstr;
  pv_external : option ExternalProvenance;
}.
Definition with_pv_sourceReference (v : option jstr) (r : Provenance) : Provenance := {|
  pv_kind := pv_kind r; pv_upstreamId := pv_upstreamId r; pv_repository := pv_repository r;
  pv_path := pv_path r; pv_revision := pv_revision r; pv_sourceDigest := pv_sourceDigest r;
  pv_externalId := pv_externalId r; pv_externalSourceType := pv_externalSourceType r;
  pv_externalSnapshotHash := pv_externalSnapshotHash r; pv_feedId := pv_feedId r;
  pv_feedName := pv_feedName r; pv_feedConfigRevision := pv_feedConfigRevision r;
  pv_sourceReference := v; pv_externalSource := pv_externalSource r;
  pv_sourceProviderOrigin := pv_sourceProviderOrigin r;
  pv_sourceResolutionKind := pv_sourceResolutionKind r; pv_fetchedAt := pv_fetchedAt r;
  pv_externalDigest := pv_externalDigest r; pv_sourceUrl := pv_sourceUrl r;
  pv_catalogDetailFallback := pv_catalogDetailFallback r; pv_pageUrl := pv_pageUrl r;
  pv_artifactUrl := pv_artifactUrl r; pv_skillPath := pv_skillPath r;
  pv_requestedRef := pv_requestedRef r; pv_resolvedCommit := pv_resolvedCommit r;
  pv_resolvedTree := pv_resolvedTree r; pv_wellKnownIndexUrl := pv_wellKnownIndexUrl r;
  pv_wellKnownEntryName := pv_wellKnownEntryName r; pv_frontmatterName := pv_frontmatterName r;
  pv_frontmatterDescription := pv_frontmatterDescription r; pv_external := pv_external r; |}.
Definition with_pv_sourceDigest (v : option jstr) (r : Provenance) : Provenance := {|
  pv_kind := pv_kind r; pv_upstreamId := pv_upstreamId r; pv_repository := pv_repository r;
  pv_path := pv_path r; pv_revision := pv_revision r; pv_sourceDigest := v;
  pv_externalId := pv_externalId r; pv_externalSourceType := pv_externalSourceType r;
  pv_externalSnapshotHash := pv_externalSnapshotHash r; pv_feedId := pv_feedId r;
  pv_feedName := pv_feedName r; pv_feedConfigRevision := pv_feedConfigRevision r;
  pv_sourceReference := pv_sourceReference r; pv_externalSource := pv_externalSource r;
  pv_sourceProviderOrigin := pv_sourceProviderOrigin r;
  pv_sourceResolutionKind := pv_sourceResolutionKind r; pv_fetchedAt := pv_fetchedAt r;
  pv_externalDigest := pv_externalDigest r; pv_sourceUrl := pv_sourceUrl r;
  pv_catalogDetailFallback := pv_catalogDetailFallback r; pv_pageUrl := pv_pageUrl r;
  pv_artifactUrl := pv_artifactUrl r; pv_skillPath := pv_skillPath r;
  pv_requestedRef := pv_requestedRef r; pv_resolvedCommit := pv_resolvedCommit r;
  pv_resolvedTree := pv_resolvedTree r; pv_wellKnownIndexUrl := pv_wellKnownIndexUrl r;
  pv_wellKnownEntryName := pv_wellKnownEntryName r; pv_frontmatterName := pv_frontmatterName r;
  pv_frontmatterDescription := pv_frontmatterDescription r; pv_external := pv_external r; |}.

Definition native_provenance : Provenance := {|
  pv_kind := PKNative; pv_upstreamId := None; pv_repository := None; pv_path := None;
  pv_revision := None; pv_sourceDigest := None; pv_externalId := None;
  pv_externalSourceType := None; pv_externalSnapshotHash := HashAbsent; pv_feedId := None;
  pv_feedName := None; pv_feedConfigRevision := None; pv_sourceReference := None;
  pv_externalSource := None; pv_sourceProviderOrigin := None; pv_sourceResolutionKind := None;
  pv_fetchedAt := None; pv_externalDigest := None; pv_sourceUrl := None;
  pv_catalogDetailFallback := None; pv_pageUrl := None;
  pv_artifactUrl := None; pv_skillPath := None; pv_requestedRef := None;
  pv_resolvedCommit := None; pv_resolvedTree := None; pv_wellKnownIndexUrl := None;
  pv_wellKnownEntryName := None; pv_frontmatterName := None; pv_frontmatterDescription := None;
  pv_external := None;
|}.

Record SkillReleaseAuthoring : Type := {
  ra_baseResourceId : jstr;
  ra_baseDigest : jstr;
  ra_draftId : jstr;
  ra_draftRevision : Z;
  ra_actor : jstr;
}.

Record SkillVersion : Type := {
  sk_id : jstr;
  sk_organizationId : jstr;
  sk_name : jstr;
  sk_skillName : jstr;
  sk_version : jstr;
  sk_description : jstr;
  sk_artifact : StoredBlob;
  sk_state : DistributionState;
  sk_policyRevision : jstr;
  sk_createdAt : jstr;
  sk_approvedAt : option jstr;
  sk_provenance : Provenance;
  sk_fileCount : Z;
  sk_scanIds : list jstr;
  sk_authoring : option SkillReleaseAuthoring;
}.
Definition with_sk_state (v : DistributionState) (r : SkillVersion) : SkillVersion := {|
  sk_id := sk_id r; sk_organizationId := sk_organizationId r; sk_name := sk_name r;
  sk_skillName := sk_skillName r; sk_version := sk_version r; sk_description := sk_description r;
  sk_artifact := sk_artifact r; sk_state := v; sk_policyRevision := sk_policyRevision r;
  sk_createdAt := sk_createdAt r; sk_approvedAt := sk_approvedAt r;
  sk_provenance := sk_provenance r; sk_fileCount := sk_fileCount r; sk_scanIds := sk_scanIds r;
  sk_authoring := sk_authoring r; |}.
Definition with_sk_policyRevision (v : jstr) (r : SkillVersion) : SkillVersion := {|
  sk_id := sk_id r; sk_organizationId := sk_organizationId r; sk_name := sk_name r;
  sk_skillName := sk_skillName r; sk_version := sk_version r; sk_description := sk_description r;
  sk_artifact := sk_artifact r; sk_state := sk_state r; sk_policyRevision := v;
  sk_createdAt := sk_createdAt r; sk_approvedAt := sk_approvedAt r;
  sk_provenance := sk_provenance r; sk_fileCount := sk_fileCount r; sk_scanIds := sk_scanIds r;
  sk_authoring := sk_authoring r; |}.
Definition with_sk_approvedAt (v : option jstr) (r : SkillVersion) : SkillVersion := {|
  sk_id := sk_id r; sk_organizationId := sk_organizationId r; sk_name := sk_name r;
  sk_skillName := sk_skillName r; sk_version := sk_version r; sk_description := sk_description r;
  sk_artifact := sk_artifact r; sk_state := sk_state r; sk_policyRevision := sk_policyRevision r;
  sk_createdAt := sk_createdAt r; sk_approvedAt := v; sk_provenance := sk_provenance r;
  sk_fileCount := sk_fileCount r; sk_scanIds := sk_scanIds r; sk_authoring := sk_authoring r; |}.
Definition with_sk_scanIds (v : list jstr) (r : SkillVersion) : SkillVersion := {|
  sk_id := sk_id r; sk_organizationId := sk_organizationId r; sk_name := sk_name r;
  sk_skillName := sk_skillName r; sk_version := sk_version r; sk_description := sk_description r;
  sk_artifact := sk_artifact r; sk_state := sk_state r; sk_policyRevision := sk_policyRevision r;
  sk_createdAt := sk_createdAt r; sk_approvedAt := sk_approvedAt r;
  sk_provenance := sk_provenance r; sk_fileCount := sk_fileCount r; sk_scanIds := v;
  sk_authoring := sk_authoring r; |}.

Record SkillDraftFileManifestEntry : Type := {
  me_path : jstr;
  me_size : Z;
  me_digest : jstr;
  me_executable : option bool;
}.

Record SkillDraftIdempotencyRecord : Type := {
  di_key : jstr;
  di_subject : jstr;
  di_requestDigest : jstr;
  di_revision : Z;
  di_digest : jstr;
  di_artifact : StoredBlob;
  di_manifest : list SkillDraftFileManifestEntry;
  di_updatedAt : jstr;
}.

Record SkillDraftPublicationRecord : Type := {
  dp_key : jstr;
  dp_subject : jstr;
  dp_requestDigest : jstr;
  dp_revision : Z;
  dp_digest : jstr;
  dp_version : jstr;
  dp_resourceId : jstr;
  dp_jobId : jstr;
  dp_createdAt : jstr;
}.

Record SkillDraft : Type := {
  dr_id : jstr;
  dr_organizationId : jstr;
  dr_origin : SkillDraftOrigin;
  dr_name : jstr;
  dr_skillName : jstr;
  dr_description : jstr;
  dr_baseResourceId : option jstr;
  dr_baseDigest : option jstr;
  dr_revision : Z;
  dr_digest : jstr;
  dr_artifact : StoredBlob;
  dr_files : list BundleFile;
  dr_status : SkillDraftStatus;
  dr_actor : jstr;
  dr_createdAt : jstr;
  dr_updatedAt : jstr;
  dr_createIdempotency : option SkillDraftIdempotencyRecord;
  dr_idempotency : option (list SkillDraftIdempotencyRecord);
  dr_publications : option (list SkillDraftPublicationRecord);
}.

(** [SkillBuilderPatchOperation]; the flag of [PatchWrite] is [op === 'add']. *)
Inductive SkillBuilderPatchOperation : Type :=
| PatchWrite (add : bool) (path content : jstr)
| PatchRename (path newPath : jstr)
| PatchDelete (path : jstr).

Record SkillBuilderProposalRecord : Type := {
  bp_id : jstr;
  bp_idempotencyKey : jstr;
  bp_requestDigest : jstr;
  bp_organizationId : jstr;
  bp_draftId : jstr;
  bp_subject : jstr;
  bp_sessionId : jstr;
  bp_baseRevision : Z;
  bp_baseDigest : jstr;
  bp_proposedDigest : jstr;
  bp_operations : list SkillBuilderPatchOperation;
  bp_state : SkillBuilderProposalState;
  bp_createdAt : jstr;
  bp_updatedAt : jstr;
}.

Record SkillBuilderRequestRecord : Type := {
  br_id : jstr;
  br_requestDigest : jstr;
  br_state : SkillBuilderRequestState;
  br_proposalId : option jstr;
  br_createdAt : jstr;
  br_updatedAt : jstr;
}.

Record SkillBuilderSessionRecord : Type := {
  bs_id : jstr;
  bs_organizationId : jstr;
  bs_subject : jstr;
  bs_draftId : jstr;
  bs_draftRevision : Z;
  bs_draftDigest : jstr;
  bs_sessionKey : jstr;
  bs_eveSessionId : jstr;
  bs_activeTurnId : option jstr;
  bs_activeRequestId : option jstr;
  bs_state : SkillBuilderSessionState;
  bs_requests : list SkillBuilderRequestRecord;
  bs_proposals : list SkillBuilderProposalRecord;
  bs_createdAt : jstr;
  bs_updatedAt : jstr;
}.

Record PackMember : Type := {
  pm_resourceId : jstr;
  pm_name : jstr;
  pm_version : jstr;
  pm_digest : jstr;
}.

Record PackVersion : Type := {
  pk_id : jstr;
  pk_organizationId : jstr;
  pk_name : jstr;
  pk_version : jstr;
  pk_description : jstr;
  pk_members : list PackMember;
  pk_manifestDigest : jstr;
  pk_state : PackState;
  pk_createdAt : jstr;
  pk_policyRevision : jstr;
}.
Definition with_pk_state (v : PackState) (r : PackVersion) : PackVersion := {|
  pk_id := pk_id r; pk_organizationId := pk_organizationId r; pk_name := pk_name r;
  pk_version := pk_version r; pk_description := pk_description r; pk_members := pk_members r;
  pk_manifestDigest := pk_manifestDigest r; pk_state := v; pk_createdAt := pk_createdAt r;
  pk_policyRevision := pk_policyRevision r; |}.

Record Resolution : Type := {
  rs_kind : ResourceKind;
  rs_resourceId : jstr;
  rs_organizationId : jstr;
  rs_name : jstr;
  rs_version : jstr;
  rs_digest : jstr;
  rs_members : list SkillVersion;
}.

Record InstallAuthorization : Type := {
  ia_id : jstr;
  ia_organizationId : jstr;
  ia_subject : jstr;
  ia_resolution : Resolution;
  ia_expiresAt : jstr;
}.
Definition with_ia_expiresAt (v : jstr) (r : InstallAuthorization) : InstallAuthorization := {|
  ia_id := ia_id r; ia_organizationId := ia_organizationId r; ia_subject := ia_subject r;
  ia_resolution := ia_resolution r; ia_expiresAt := v; |}.

Record InstallReceiptTicket : Type := {
  it_id : jstr;
  it_organizationId : jstr;
  it_subject : jstr;
  it_authorizationId : jstr;
  it_resolution : Resolution;
  it_issuedAt : jstr;
  it_expiresAt : jstr;
}.

Record InstallReceipt : Type := {
  ir_id : jstr;
  ir_organizationId : jstr;
  ir_subject : jstr;
  ir_authorizationId : jstr;
  ir_ticketId : jstr;
  ir_resolution : Resolution;
  ir_changed : bool;
  ir_agent : InstallReceiptAgent;
  ir_platform : InstallReceiptPlatform;
  ir_clientVersion : jstr;
  ir_createdAt : jstr;
  ir_expiresAt : jstr;
}.

Record TransferGrant : Type := {
  tg_id : jstr;
  tg_organizationId : jstr;
  tg_subject : jstr;
  tg_resourceId : jstr;
  tg_authorizationId : jstr;
  tg_digest : jstr;
  tg_expiresAt : jstr;
}.

Record Upstream : Type := {
  us_id : jstr;
  us_organizationId : jstr;
  us_name : jstr;
  us_kind : UpstreamKind;
  us_enabled : bool;
  us_repositories : option (list jstr);
  us_baseUrl : option jstr;
  us_credentialEnv : option jstr;
  us_namespace : jstr;
  us_configRevision : option jstr;
}.

(** [kind] is always 'skills-sh'. *)
Record Feed : Type := {
  fd_id : jstr;
  fd_organizationId : jstr;
  fd_name : jstr;
  fd_enabled : bool;
  fd_repositories : option (list jstr);
  fd_baseUrl : jstr;
  fd_namespace : option jstr;
  fd_credentialEnv : option jstr;
  fd_configRevision : jstr;
}.

Record ImportRequest : Type := {
  iq_upstreamId : jstr;
  iq_repository : option jstr;
  iq_path : jstr;
  iq_ref : option jstr;
  iq_name : jstr;
  iq_version : jstr;
  iq_externalId : option jstr;
  iq_externalSourceType : option ExternalSourceType;
  iq_externalSnapshotHash : SnapshotHash;
  iq_feedId : option jstr;
  iq_feedName : option jstr;
  iq_feedConfigRevision : option jstr;
  iq_sourceReference : option jstr;
  iq_sourceCatalogId : option jstr;
  iq_sourceCatalogConfigRevision : option jstr;
  iq_sourceCatalogProviderVersion : option jstr;
}.

(** An entry of [sourceCatalogAliases]. *)
Record SourceCatalogAlias : Type := {
  sa_sourceId : jstr;
  sa_externalId : jstr;
  sa_configRevision : jstr;
}.

Record Job : Type := {
  jb_id : jstr;
  jb_organizationId : jstr;
  jb_kind : JobKind;
  jb_state : JobState;
  jb_resourceId : option jstr;
  jb_artifact : option StoredBlob;
  jb_policyRevision : jstr;
  jb_policy : Policy;
  jb_import : option ImportRequest;
  jb_upstream : option Upstream;
  jb_openclawSource : jsval;
  jb_sourceAcquisition : jsval;
  jb_sourceCatalogAliases : option (list SourceCatalogAlias);
  jb_createdAt : jstr;
  jb_updatedAt : jstr;
  jb_attempts : Z;
  jb_leaseToken : option jstr;
  jb_leaseExpiresAt : option jstr;
  jb_error : option jstr;
}.
Definition with_jb_state (v : JobState) (r : Job) : Job := {|
  jb_id := jb_id r; jb_organizationId := jb_organizationId r; jb_kind := jb_kind r; jb_state := v;
  jb_resourceId := jb_resourceId r; jb_artifact := jb_artifact r;
  jb_policyRevision := jb_policyRevision r; jb_policy := jb_policy r; jb_import := jb_import r;
  jb_upstream := jb_upstream r; jb_openclawSource := jb_openclawSource r;
  jb_sourceAcquisition := jb_sourceAcquisition r;
  jb_sourceCatalogAliases := jb_sourceCatalogAliases r; jb_createdAt := jb_createdAt r;
  jb_updatedAt := jb_updatedAt r; jb_attempts := jb_attempts r; jb_leaseToken := jb_leaseToken r;
  jb_leaseExpiresAt := jb_leaseExpiresAt r; jb_error := jb_error r; |}.
Definition with_jb_resourceId (v : option jstr) (r : Job) : Job := {|
  jb_id := jb_id r; jb_organizationId := jb_organizationId r; jb_kind := jb_kind r;
  jb_state := jb_state r; jb_resourceId := v; jb_artifact := jb_artifact r;
  jb_policyRevision := jb_policyRevision r; jb_policy := jb_policy r; jb_import := jb_import r;
  jb_upstream := jb_upstream r; jb_openclawSource := jb_openclawSource r;
  jb_sourceAcquisition := jb_sourceAcquisition r;
  jb_sourceCatalogAliases := jb_sourceCatalogAliases r; jb_createdAt := jb_createdAt r;
  jb_updatedAt := jb_updatedAt r; jb_attempts := jb_attempts r; jb_leaseToken := jb_leaseToken r;
  jb_leaseExpiresAt := jb_leaseExpiresAt r; jb_error := jb_error r; |}.
Definition with_jb_artifact (v : option StoredBlob) (r : Job) : Job := {|
  jb_id := jb_id r; jb_organizationId := jb_organizationId r; jb_kind := jb_kind r;
  jb_state := jb_state r; jb_resourceId := jb_resourceId r; jb_artifact := v;
  jb_policyRevision := jb_policyRevision r; jb_policy := jb_policy r; jb_import := jb_import r;
  jb_upstream := jb_upstream r; jb_openclawSource := jb_openclawSource r;
  jb_sourceAcquisition := jb_sourceAcquisition r;
  jb_sourceCatalogAliases := jb_sourceCatalogAliases r; jb_createdAt := jb_createdAt r;
  jb_updatedAt := jb_updatedAt r; jb_attempts := jb_attempts r; jb_leaseToken := jb_leaseToken r;
  jb_leaseExpiresAt := jb_leaseExpiresAt r; jb_error := jb_error r; |}.
Definition with_jb_policyRevision (v : jstr) (r : Job) : Job := {|
  jb_id := jb_id r; jb_organizationId := jb_organizationId r; jb_kind := jb_kind r;
  jb_state := jb_state r; jb_resourceId := jb_resourceId r; jb_artifact := jb_artifact r;
  jb_policyRevision := v; jb_policy := jb_policy r; jb_import := jb_import r;
  jb_upstream := jb_upstream r; jb_openclawSource := jb_openclawSource r;
  jb_sourceAcquisition := jb_sourceAcquisition r;
  jb_sourceCatalogAliases := jb_sourceCatalogAliases r; jb_createdAt := jb_createdAt r;
  jb_updatedAt := jb_updatedAt r; jb_attempts := jb_attempts r; jb_leaseToken := jb_leaseToken r;
  jb_leaseExpiresAt := jb_leaseExpiresAt r; jb_error := jb_error r; |}.
Definition with_jb_policy (v : Policy) (r : Job) : Job := {|
  jb_id := jb_id r; jb_organizationId := jb_organizationId r; jb_kind := jb_kind r;
  jb_state := jb_state r; jb_resourceId := jb_resourceId r; jb_artifact := jb_artifact r;
  jb_policyRevision := jb_policyRevision r; jb_policy := v; jb_import := jb_import r;
  jb_upstream := jb_upstream r; jb_openclawSource := jb_openclawSource r;
  jb_sourceAcquisition := jb_sourceAcquisition r;
  jb_sourceCatalogAliases := jb_sourceCatalogAliases r; jb_createdAt := jb_createdAt r;
  jb_updatedAt := jb_updatedAt r; jb_attempts := jb_attempts r; jb_leaseToken := jb_leaseToken r;
  jb_leaseExpiresAt := jb_leaseExpiresAt r; jb_error := jb_error r; |}.
Definition with_jb_updatedAt (v : jstr) (r : Job) : Job := {|
  jb_id := jb_id r; jb_organizationId := jb_organizationId r; jb_kind := jb_kind r;
  jb_state := jb_state r; jb_resourceId := jb_resourceId r; jb_artifact := jb_artifact r;
  jb_policyRevision := jb_policyRevision r; jb_policy := jb_policy r; jb_import := jb_import r;
  jb_upstream := jb_upstream r; jb_openclawSource := jb_openclawSource r;
  jb_sourceAcquisition := jb_sourceAcquisition r;
  jb_sourceCatalogAliases := jb_sourceCatalogAliases r; jb_createdAt := jb_createdAt r;
  jb_updatedAt := v; jb_attempts := jb_attempts r; jb_leaseToken := jb_leaseToken r;
  jb_leaseExpiresAt := jb_leaseExpiresAt r; jb_error := jb_error r; |}.
Definition with_jb_attempts (v : Z) (r : Job) : Job := {|
  jb_id := jb_id r; jb_organizationId := jb_organizationId r; jb_kind := jb_kind r;
  jb_state := jb_state r; jb_resourceId := jb_resourceId r; jb_artifact := jb_artifact r;
  jb_policyRevision := jb_policyRevision r; jb_policy := jb_policy r; jb_import := jb_import r;
  jb_upstream := jb_upstream r; jb_openclawSource := jb_openclawSource r;
  jb_sourceAcquisition := jb_sourceAcquisition r;
  jb_sourceCatalogAliases := jb_sourceCatalogAliases r; jb_createdAt := jb_createdAt r;
  jb_updatedAt := jb_updatedAt r; jb_attempts := v; jb_leaseToken := jb_leaseToken r;
  jb_leaseExpiresAt := jb_leaseExpiresAt r; jb_error := jb_error r; |}.
Definition with_jb_leaseToken (v : option jstr) (r : Job) : Job := {|
  jb_id := jb_id r; jb_organizationId := jb_organizationId r; jb_kind := jb_kind r;
  jb_state := jb_state r; jb_resourceId := jb_resourceId r; jb_artifact := jb_artifact r;
  jb_policyRevision := jb_policyRevision r; jb_policy := jb_policy r; jb_import := jb_import r;
  jb_upstream := jb_upstream r; jb_openclawSource := jb_openclawSource r;
  jb_sourceAcquisition := jb_sourceAcquisition r;
  jb_sourceCatalogAliases := jb_sourceCatalogAliases r; jb_createdAt := jb_createdAt r;
  jb_updatedAt := jb_updatedAt r; jb_attempts := jb_attempts r; jb_leaseToken := v;
  jb_leaseExpiresAt := jb_leaseExpiresAt r; jb_error := jb_error r; |}.
Definition with_jb_leaseExpiresAt (v : option jstr) (r : Job) : Job := {|
  jb_id := jb_id r; jb_organizationId := jb_organizationId r; jb_kind := jb_kind r;
  jb_state := jb_state r; jb_resourceId := jb_resourceId r; jb_artifact := jb_artifact r;
  jb_policyRevision := jb_policyRevision r; jb_policy := jb_policy r; jb_import := jb_import r;
  jb_upstream := jb_upstream r; jb_openclawSource := jb_openclawSource r;
  jb_sourceAcquisition := jb_sourceAcquisition r;
  jb_sourceCatalogAliases := jb_sourceCatalogAliases r; jb_createdAt := jb_createdAt r;
  jb_updatedAt := jb_updatedAt r; jb_attempts := jb_attempts r; jb_leaseToken := jb_leaseToken r;
  jb_leaseExpiresAt := v; jb_error := jb_error r; |}.
Definition with_jb_error (v : option jstr) (r : Job) : Job := {|
  jb_id := jb_id r; jb_organizationId := jb_organizationId r; jb_kind := jb_kind r;
  jb_state := jb_state r; jb_resourceId := jb_resourceId r; jb_artifact := jb_artifact r;
  jb_policyRevision := jb_policyRevision r; jb_policy := jb_policy r; jb_import := jb_import r;
  jb_upstream := jb_upstream r; jb_openclawSource := jb_openclawSource r;
  jb_sourceAcquisition := jb_sourceAcquisition r;
  jb_sourceCatalogAliases := jb_sourceCatalogAliases r; jb_createdAt := jb_createdAt r;
  jb_updatedAt := jb_updatedAt r; jb_attempts := jb_attempts r; jb_leaseToken := jb_leaseToken r;
  jb_leaseExpiresAt := jb_leaseExpiresAt r; jb_error := v; |}.

Record AuditEvent : Type := {
  ae_id : jstr;
  ae_organizationId : jstr;
  ae_subject : jstr;
  ae_action : jstr;
  ae_resourceId : option jstr;
  ae_createdAt : jstr;
  ae_details : list (jstr * jsval);
}.

(** One registry document. *)
Record RegistryState : Type := {
  st_metadataRevision : option Z;
  st_schemaVersion : Z;
  st_skills : list SkillVersion;
  st_drafts : option (list SkillDraft);
  st_packs : list PackVersion;
  st_jobs : list Job;
  st_scans : list ScanResult;
  st_policy : Policy;
  st_upstreams : list Upstream;
  st_feeds : option (list Feed);
  st_authorizations : list InstallAuthorization;
  st_installReceiptTickets : option (list InstallReceiptTicket);
  st_installReceipts : option (list InstallReceipt);
  st_builderSessions : option (list SkillBuilderSessionRecord);
  st_grants : list TransferGrant;
  st_audit : list AuditEvent;
}.
Definition with_st_metadataRevision (v : option Z) (r : RegistryState) : RegistryState := {|
  st_metadataRevision := v; st_schemaVersion := st_schemaVersion r; st_skills := st_skills r;
  st_drafts := st_drafts r; st_packs := st_packs r; st_jobs := st_jobs r; st_scans := st_scans r;
  st_policy := st_policy r; st_upstreams := st_upstreams r; st_feeds := st_feeds r;
  st_authorizations := st_authorizations r;
  st_installReceiptTickets := st_installReceiptTickets r;
  st_installReceipts := st_installReceipts r; st_builderSessions := st_builderSessions r;
  st_grants := st_grants r; st_audit := st_audit r; |}.
Definition with_st_skills (v : list SkillVersion) (r : RegistryState) : RegistryState := {|
  st_metadataRevision := st_metadataRevision r; st_schemaVersion := st_schemaVersion r;
  st_skills := v; st_drafts := st_drafts r; st_packs := st_packs r; st_jobs := st_jobs r;
  st_scans := st_scans r; st_policy := st_policy r; st_upstreams := st_upstreams r;
  st_feeds := st_feeds r; st_authorizations := st_authorizations r;
  st_installReceiptTickets := st_installReceiptTickets r;
  st_installReceipts := st_installReceipts r; st_builderSessions := st_builderSessions r;
  st_grants := st_grants r; st_audit := st_audit r; |}.
Definition with_st_drafts (v : option (list SkillDraft)) (r : RegistryState) : RegistryState := {|
  st_metadataRevision := st_metadataRevision r; st_schemaVersion := st_schemaVersion r;
  st_skills := st_skills r; st_drafts := v; st_packs := st_packs r; st_jobs := st_jobs r;
  st_scans := st_scans r; st_policy := st_policy r; st_upstreams := st_upstreams r;
  st_feeds := st_feeds r; st_authorizations := st_authorizations r;
  st_installReceiptTickets := st_installReceiptTickets r;
  st_installReceipts := st_installReceipts r; st_builderSessions := st_builderSessions r;
  st_grants := st_grants r; st_audit := st_audit r; |}.
Definition with_st_packs (v : list PackVersion) (r : RegistryState) : RegistryState := {|
  st_metadataRevision := st_metadataRevision r; st_schemaVersion := st_schemaVersion r;
  st_skills := st_skills r; st_drafts := st_drafts r; st_packs := v; st_jobs := st_jobs r;
  st_scans := st_scans r; st_policy := st_policy r; st_upstreams := st_upstreams r;
  st_feeds := st_feeds r; st_authorizations := st_authorizations r;
  st_installReceiptTickets := st_installReceiptTickets r;
  st_installReceipts := st_installReceipts r; st_builderSessions := st_builderSessions r;
  st_grants := st_grants r; st_audit := st_audit r; |}.
Definition with_st_jobs (v : list Job) (r : RegistryState) : RegistryState := {|
  st_metadataRevision := st_metadataRevision r; st_schemaVersion := st_schemaVersion r;
  st_skills := st_skills r; st_drafts := st_drafts r; st_packs := st_packs r; st_jobs := v;
  st_scans := st_scans r; st_policy := st_policy r; st_upstreams := st_upstreams r;
  st_feeds := st_feeds r; st_authorizations := st_authorizations r;
  st_installReceiptTickets := st_installReceiptTickets r;
  st_installReceipts := st_installReceipts r; st_builderSessions := st_builderSessions r;
  st_grants := st_grants r; st_audit := st_audit r; |}.
Definition with_st_scans (v : list ScanResult) (r : RegistryState) : RegistryState := {|
  st_metadataRevision := st_metadataRevision r; st_schemaVersion := st_schemaVersion r;
  st_skills := st_skills r; st_drafts := st_drafts r; st_packs := st_packs r;
  st_jobs := st_jobs r; st_scans := v; st_policy := st_policy r; st_upstreams := st_upstreams r;
  st_feeds := st_feeds r; st_authorizations := st_authorizations r;
  st_installReceiptTickets := st_installReceiptTickets r;
  st_installReceipts := st_installReceipts r; st_builderSessions := st_builderSessions r;
  st_grants := st_grants r; st_audit := st_audit r; |}.
Definition with_st_policy (v : Policy) (r : RegistryState) : RegistryState := {|
  st_metadataRevision := st_metadataRevision r; st_schemaVersion := st_schemaVersion r;
  st_skills := st_skills r; st_drafts := st_drafts r; st_packs := st_packs r;
  st_jobs := st_jobs r; st_scans := st_scans r; st_policy := v; st_upstreams := st_upstreams r;
  st_feeds := st_feeds r; st_authorizations := st_authorizations r;
  st_installReceiptTickets := st_installReceiptTickets r;
  st_installReceipts := st_installReceipts r; st_builderSessions := st_builderSessions r;
  st_grants := st_grants r; st_audit := st_audit r; |}.
Definition with_st_upstreams (v : list Upstream) (r : RegistryState) : RegistryState := {|
  st_metadataRevision := st_metadataRevision r; st_schemaVersion := st_schemaVersion r;
  st_skills := st_skills r; st_drafts := st_drafts r; st_packs := st_packs r;
  st_jobs := st_jobs r; st_scans := st_scans r; st_policy := st_policy r; st_upstreams := v;
  st_feeds := st_feeds r; st_authorizations := st_authorizations r;
  st_installReceiptTickets := st_installReceiptTickets r;
  st_installReceipts := st_installReceipts r; st_builderSessions := st_builderSessions r;
  st_grants := st_grants r; st_audit := st_audit r; |}.
Definition with_st_feeds (v : option (list Feed)) (r : RegistryState) : RegistryState := {|
  st_metadataRevision := st_metadataRevision r; st_schemaVersion := st_schemaVersion r;
  st_skills := st_skills r; st_drafts := st_drafts r; st_packs := st_packs r;
  st_jobs := st_jobs r; st_scans := st_scans r; st_policy := st_policy r;
  st_upstreams := st_upstreams r; st_feeds := v; st_authorizations := st_authorizations r;
  st_installReceiptTickets := st_installReceiptTickets r;
  st_installReceipts := st_installReceipts r; st_builderSessions := st_builderSessions r;
  st_grants := st_grants r; st_audit := st_audit r; |}.
Definition with_st_authorizations (v : list InstallAuthorization) (r : RegistryState) : RegistryState := {|
  st_metadataRevision := st_metadataRevision r; st_schemaVersion := st_schemaVersion r;
  st_skills := st_skills r; st_drafts := st_drafts r; st_packs := st_packs r;
  st_jobs := st_jobs r; st_scans := st_scans r; st_policy := st_policy r;
  st_upstreams := st_upstreams r; st_feeds := st_feeds r; st_authorizations := v;
  st_installReceiptTickets := st_installReceiptTickets r;
  st_installReceipts := st_installReceipts r; st_builderSessions := st_builderSessions r;
  st_grants := st_grants r; st_audit := st_audit r; |}.
Definition with_st_installReceiptTickets (v : option (list InstallReceiptTicket)) (r : RegistryState) : RegistryState := {|
  st_metadataRevision := st_metadataRevision r; st_schemaVersion := st_schemaVersion r;
  st_skills := st_skills r; st_drafts := st_drafts r; st_packs := st_packs r;
  st_jobs := st_jobs r; st_scans := st_scans r; st_policy := st_policy r;
  st_upstreams := st_upstreams r; st_feeds := st_feeds r;
  st_authorizations := st_authorizations r; st_installReceiptTickets := v;
  st_installReceipts := st_installReceipts r; st_builderSessions := st_builderSessions r;
  st_grants := st_grants r; st_audit := st_audit r; |}.
Definition with_st_installReceipts (v : option (list InstallReceipt)) (r : RegistryState) : RegistryState := {|
  st_metadataRevision := st_metadataRevision r; st_schemaVersion := st_schemaVersion r;
  st_skills := st_skills r; st_drafts := st_drafts r; st_packs := st_packs r;
  st_jobs := st_jobs r; st_scans := st_scans r; st_policy := st_policy r;
  st_upstreams := st_upstreams r; st_feeds := st_feeds r;
  st_authorizations := st_authorizations r;
  st_installReceiptTickets := st_installReceiptTickets r; st_installReceipts := v;
  st_builderSessions := st_builderSessions r; st_grants := st_grants r; st_audit := st_audit r; |}.
Definition with_st_builderSessions (v : option (list SkillBuilderSessionRecord)) (r : RegistryState) : RegistryState := {|
  st_metadataRevision := st_metadataRevision r; st_schemaVersion := st_schemaVersion r;
  st_skills := st_skills r; st_drafts := st_drafts r; st_packs := st_packs r;
  st_jobs := st_jobs r; st_scans := st_scans r; st_policy := st_policy r;
  st_upstreams := st_upstreams r; st_feeds := st_feeds r;
  st_authorizations := st_authorizations r;
  st_installReceiptTickets := st_installReceiptTickets r;
  st_installReceipts := st_installReceipts r; st_builderSessions := v; st_grants := st_grants r;
  st_audit := st_audit r; |}.
Definition with_st_grants (v : list TransferGrant) (r : RegistryState) : RegistryState := {|
  st_metadataRevision := st_metadataRevision r; st_schemaVersion := st_schemaVersion r;
  st_skills := st_skills r; st_drafts := st_drafts r; st_packs := st_packs r;
  st_jobs := st_jobs r; st_scans := st_scans r; st_policy := st_policy r;
  st_upstreams := st_upstreams r; st_feeds := st_feeds r;
  st_authorizations := st_authorizations r;
  st_installReceiptTickets := st_installReceiptTickets r;
  st_installReceipts := st_installReceipts r; st_builderSessions := st_builderSessions r;
  st_grants := v; st_audit := st_audit r; |}.
Definition with_st_audit (v : list AuditEvent) (r : RegistryState) : RegistryState := {|
  st_metadataRevision := st_metadataRevision r; st_schemaVersion := st_schemaVersion r;
  st_skills := st_skills r; st_drafts := st_drafts r; st_packs := st_packs r;
  st_jobs := st_jobs r; st_scans := st_scans r; st_policy := st_policy r;
  st_upstreams := st_upstreams r; st_feeds := st_feeds r;
  st_authorizations := st_authorizations r;
  st_installReceiptTickets := st_installReceiptTickets r;
  st_installReceipts := st_installReceipts r; st_builderSessions := st_builderSessions r;
  st_grants := st_grants r; st_audit := v; |}.

(** The optional collections, read the way [state.feeds ?? []] reads them. *)
Definition tickets (s : RegistryState) : list InstallReceiptTicket :=
  default [] (st_installReceiptTickets s).
Definition receipts (s : RegistryState) : list InstallReceipt :=
  default [] (st_installReceipts s).

(** ** API errors

    [RegistryApiError] without its human readable message. *)
Record RegistryApiError : Type := {
  api_code : jstr;
  api_status : Z;
  api_retryable : bool;
}.
Definition api_error (c : string) (st : Z) : RegistryApiError :=
  {| api_code := js c; api_status := st; api_retryable := false |}.
Definition api_retry (c : string) (st : Z) : RegistryApiError :=
  {| api_code := js c; api_status := st; api_retryable := true |}.
Definition unavailable : RegistryApiError := api_error "NOT_AVAILABLE" 404.

Abbreviation api A := (result RegistryApiError A) (only parsing).

(** ** Lemmas *)

Lemma enum_of_name {A} `{EnumLaws A} (a : A) : enum_of A (enum_name a) = Some a.
Proof.
  unfold enum_of. destruct (find_first _ _) as [b|] eqn:E.
  - apply find_first_Some in E as [_ E]. apply jeqb_true, enum_name_inj in E. by subst.
  - apply find_first_None in E. rewrite Forall_forall in E.
    by specialize (E a (enum_complete a)); rewrite jeqb_refl in E.
Qed.
Lemma enum_of_Some {A} `{StringEnum A} (s : jstr) (a : A) :
  enum_of A s = Some a -> s = enum_name a.
Proof. intros [_ E]%find_first_Some. by apply jeqb_true in E. Qed.
