(* ===== verification/Web.v ===== *)
(** * Web platform interfaces

    What the registry uses of the platform and of the adapters injected into
    it: [URL], locale-aware comparison, SHA-256 and the blob store.  Each is an
    interface with the laws the documentation of the platform states; the
    development is generic in them. *)

From Stdlib Require Import ZArith Lia.
From stdpp Require Import base list strings.
From S2P Require Import Prelude Js Contracts.

Local Open Scope Z_scope.

(** ** [new URL(text)] *)

Record URL : Type := {
  url_protocol : jstr;
  url_username : jstr;
  url_password : jstr;
  url_hostname : jstr;
  url_port : jstr;
  url_pathname : jstr;
  url_search : jstr;
  url_hash : jstr;
  url_origin : jstr;
  url_href : jstr;
}.
(** [None] is the [TypeError] of a text that is not a URL. *)
Class UrlRuntime := {
  parseURL : jstr -> option URL;
}.

(** ** [a.localeCompare(b)] *)

Class Collation := {
  localeCompare : jstr -> jstr -> Z;
}.
(** A collation is a total preorder. *)
Class CollationLaws (C : Collation) : Prop := {
  localeCompare_refl s : localeCompare s s = 0;
  localeCompare_anti s t : Z.sgn (localeCompare t s) = - Z.sgn (localeCompare s t);
  localeCompare_trans s t u :
    localeCompare s t <= 0 -> localeCompare t u <= 0 -> localeCompare s u <= 0;
}.
(** The collation by code units. *)
Definition unit_collation : Collation := {|
  localeCompare s t := match jcompare s t with Eq => 0 | Lt => -1 | Gt => 1 end
|}.

(** ** Digests *)

(** [crypto.subtle.digest('SHA-256', bytes)]: 32 bytes. *)
Class Crypto := {
  sha256 : list Z -> list Z;
}.
Class CryptoLaws (C : Crypto) : Prop := {
  sha256_bytes bs : length (sha256 bs) = 32%nat /\ Forall (fun b => 0 <= b < 256) (sha256 bs);
}.
Definition hex_digit (n : Z) : Z := if n <? 10 then 48 + n else 87 + n.
(** [byte.toString(16).padStart(2, '0')]. *)
Definition hex_byte (b : Z) : jstr := [hex_digit (b / 16); hex_digit (b mod 16)].
Definition digestBytes `{Crypto} (bytes : list Z) : jstr :=
  js "sha256:" ++ concat (hex_byte <$> sha256 bytes).

Definition is_hex_lower (c : Z) : bool := is_digit c || between 97 c 102.
(** [/^sha256:[0-9a-f]{64}$/.test(value)]. *)
Definition isDigest (value : jstr) : bool :=
  startsWith (js "sha256:") value && Nat.eqb (length value) 71 &&
  forallb is_hex_lower (drop 7 value).

(** ** The blob store *)

(** What the injected store answers to one call; [None] is a rejected
    promise. *)
Class Blobs := {
  blob_put : list Z -> option StoredBlob;
  blob_get : jstr -> option (list Z);
}.

(** ** Lemmas *)

Lemma jcompare_refl s : jcompare s s = Eq.
Proof. induction s as [|c s IH]; cbn; [done|]. by rewrite Z.compare_refl. Qed.
Lemma jcompare_le_trans s t u :
  jcompare s t <> Gt -> jcompare t u <> Gt -> jcompare s u <> Gt.
Proof.
  revert t u; induction s as [|a s IH]; intros [|b t] [|c u]; cbn; try done.
  destruct (Z.compare_spec a b), (Z.compare_spec b c), (Z.compare_spec a c); subst;
    try done; try lia; eauto.
Qed.

#[export] Instance unit_collation_laws : CollationLaws unit_collation.
Proof.
  split; cbn.
  - intros s. by rewrite jcompare_refl.
  - intros s t. rewrite (jcompare_antisym s t). by destruct (jcompare s t).
  - intros s t u H1 H2.
    assert (H : jcompare s u <> Gt).
    { apply (jcompare_le_trans s t u); intros E; rewrite E in *; lia. }
    by destruct (jcompare s u).
Qed.

Lemma hex_digit_ok n : 0 <= n < 16 -> is_hex_lower (hex_digit n) = true.
Proof.
  intros Hn. unfold is_hex_lower, is_digit, hex_digit.
  destruct (n <? 10) eqn:E; bool_inv; apply orb_true_iff; [left|right]; apply between_spec; lia.
Qed.
Lemma hex_bytes l :
  Forall (fun b => 0 <= b < 256) l ->
  length (concat (hex_byte <$> l)) = (2 * length l)%nat /\
  forallb is_hex_lower (concat (hex_byte <$> l)) = true.
Proof.
  induction 1 as [|b l Hb _ [IHn IHf]]; cbn [fmap list_fmap concat]; [done|].
  unfold hex_byte at 1 3. cbn [app length forallb]. fold (fmap hex_byte l).
  rewrite IHn, IHf, !hex_digit_ok by dlia. split; [lia | done].
Qed.

Lemma digestBytes_isDigest `{CL : CryptoLaws} bytes : isDigest (digestBytes bytes) = true.
Proof.
  unfold isDigest, digestBytes. destruct (sha256_bytes bytes) as [Hlen Hb].
  destruct (hex_bytes _ Hb) as [Hn Hf]. rewrite Hlen in Hn.
  rewrite (proj2 (startsWith_spec _ _)) by eauto.
  rewrite length_app, Hn, drop_app_length' by done. by rewrite Hf.
Qed.
