(* ===== verification/Access.v ===== *)
(** * Principals, roles, scopes and namespaces

    The access checks of packages/core/src/index.ts: [assertPrincipal] turns
    the value an authenticator returned into a [Principal] or refuses it;
    scopes and roles gate a route; namespaces gate a name. *)

From Stdlib Require Import ZArith Lia SpecFloat.
From stdpp Require Import base list strings sets.
From S2P Require Import Prelude Js Contracts.

Local Open Scope Z_scope.

(** ** Reading [unknown] values *)

(** [value.key] on any value: only objects have the property. *)
Definition field (v : jsval) (k : string) : jsval :=
  match v with
  | JObj l => obj_get l (js k)
  | _ => JUndef
  end.
Definition isObject (v : jsval) : bool := isRecord v.
(** [left === right]; two objects are taken to be different ones. *)
Definition strict_equal (left right : jsval) : bool :=
  match left, right with
  | JUndef, JUndef | JNull, JNull => true
  | JBool x, JBool y => Bool.eqb x y
  | JNum x, JNum y => SFeqb x y
  | JStr x, JStr y => jeqb x y
  | _, _ => false
  end.
(** [stringValue]: a string that is not empty. *)
Definition stringValue (v : jsval) : option jstr :=
  match v with
  | JStr (c :: s) => Some (c :: s)
  | _ => None
  end.
(** [!value]. *)
Definition falsy (v : jsval) : bool :=
  match v with
  | JUndef | JNull | JBool false | JStr [] | JNum (S754_zero _) | JNum S754_nan => true
  | _ => false
  end.
Definition is_undef (v : jsval) : bool :=
  match v with
  | JUndef => true
  | _ => false
  end.
Definition blank (s : jstr) : bool := jeqb (trim s) [].
(** The strings of an array, when it is an array of strings that pass a test. *)
Definition all_strings (ok : jstr -> bool) (v : jsval) : option (list jstr) :=
  match v with
  | JArr l => mapM (fun x => match x with
                             | JStr s => if ok s then Some s else None
                             | _ => None
                             end) l
  | _ => None
  end.
Definition control_unit (c : Z) : bool := (c <=? 31) || (c =? 127).

(** ** [normalizePrincipalDisplayMetadata] *)

Definition PRINCIPAL_DISPLAY_VALUE_MAX_LENGTH : Z := 256.
Definition safePrincipalDisplayValue (v : jsval) : option jstr :=
  match v with
  | JStr s =>
      let normalized := trim s in
      if jeqb normalized [] || (PRINCIPAL_DISPLAY_VALUE_MAX_LENGTH <? jlen normalized) ||
         existsb control_unit normalized
      then None else Some normalized
  | _ => None
  end.
Definition normalizePrincipalDisplayMetadata (v : jsval) : option PrincipalDisplayMetadata :=
  if negb (isObject v) then None
  else
    let userName := safePrincipalDisplayValue (field v "userName") in
    let userEmail := safePrincipalDisplayValue (field v "userEmail") in
    let organizationName := safePrincipalDisplayValue (field v "organizationName") in
    let organizationSlug := safePrincipalDisplayValue (field v "organizationSlug") in
    match userName, userEmail, organizationName, organizationSlug with
    | None, None, None, None => None
    | _, _, _, _ => Some {| pd_userName := userName; pd_userEmail := userEmail;
                            pd_organizationName := organizationName;
                            pd_organizationSlug := organizationSlug |}
    end.

(** ** [assertPrincipal] *)

Definition roles_of (v : jsval) : option (list Role) :=
  match v with
  | JArr l => mapM (fun x => match x with
                             | JStr s => enum_of Role s
                             | _ => None
                             end) l
  | _ => None
  end.

Definition assertPrincipal (principal : jsval) (organizationId : jstr) : api Principal :=
  match falsy principal, field principal "subject", field principal "organizationId" with
  | false, JStr subject, JStr organization =>
      throw_if blank subject || blank organization with api_error "UNAUTHORIZED" 401 ;;
      throw_if negb (jeqb organization organizationId) with api_error "FORBIDDEN" 403 ;;
      let? identity :=
        match field principal "identity" with
        | JUndef => Ok None
        | JStr s => throw_if negb (jeqb s (js "user") || jeqb s (js "worker"))
                      with api_error "FORBIDDEN" 403 ;; Ok (Some s)
        | _ => Err (api_error "FORBIDDEN" 403)
        end in
      let optional_strings v :=
        match v with
        | JUndef => Ok None
        | _ => match all_strings (fun s => negb (blank s)) v with
               | Some l => Ok (Some l)
               | None => Err (api_error "FORBIDDEN" 403)
               end
        end in
      let? namespaces := optional_strings (field principal "namespaces") in
      let? scopes := optional_strings (field principal "scopes") in
      match roles_of (field principal "roles") with
      | None | Some [] => Err (api_error "FORBIDDEN" 403)
      | Some roles =>
          throw_if bool_decide (identity = Some (js "user")) && bool_decide (Worker ∈ roles)
            with api_error "FORBIDDEN" 403 ;;
          throw_if bool_decide (identity = Some (js "worker")) && negb (bool_decide (Worker ∈ roles))
            with api_error "FORBIDDEN" 403 ;;
          Ok {| pr_organizationId := organization; pr_subject := subject; pr_roles := roles;
                pr_namespaces := namespaces; pr_scopes := scopes; pr_identity := identity;
                pr_display := field principal "display" |}
      end
  | _, _, _ => Err (api_error "UNAUTHORIZED" 401)
  end.

Definition hasRole (principal : Principal) (role : Role) : bool :=
  bool_decide (role ∈ pr_roles principal).

Definition assertUserPrincipal (principal : Principal) : api unit :=
  throw_if bool_decide (pr_identity principal = Some (js "worker")) || hasRole principal Worker
    with api_error "FORBIDDEN" 403 ;;
  Ok tt.

(** ** Scopes *)

(** [principalScopes]: [assertPrincipal] has already checked the array. *)
Definition principalScopes (principal : Principal) : api (option (list jstr)) :=
  match pr_scopes principal with
  | None => Ok None
  | Some l => throw_if existsb blank l with api_error "FORBIDDEN" 403 ;; Ok (Some l)
  end.

(** [granted.slice(0, -1)]. *)
Definition without_last (s : jstr) : jstr := take (length s - 1) s.
Definition scope_grants (granted candidate : jstr) : bool :=
  jeqb granted candidate ||
  (endsWith (js ":*") granted && startsWith (without_last granted) candidate).
Definition hasAnyScope (principal : Principal) (required : list jstr) : api bool :=
  let? scopes := principalScopes principal in
  match scopes with
  | None => Ok true
  | Some [] => Ok false
  | Some scopes =>
      if bool_decide (js "registry:*" ∈ scopes) then Ok true
      else Ok (existsb (fun granted => jeqb granted (js "*") ||
                                       existsb (scope_grants granted) required) scopes)
  end.
Definition requireRouteScopes (principal : Principal) (required : list jstr) : api unit :=
  match required with
  | [] => Ok tt
  | _ =>
      let? allowed := hasAnyScope principal required in
      throw_if negb allowed with api_error "FORBIDDEN" 403 ;;
      Ok tt
  end.

Inductive HttpMethod : Type := GET | POST | PUT | PATCH | DELETE.
#[export] Instance HttpMethod_eq_dec : EqDecision HttpMethod.
Proof. solve_decision. Defined.

(** [scopesForRoute]: the first rule that applies. *)
Section ScopesForRoute.
Context (method : HttpMethod) (path : jstr) (segments : list jstr).

(** [segments[i] === name]. *)
Definition seg (i : nat) (name : string) : bool := bool_decide (segments !! i = Some (js name)).
Definition len (n : nat) : bool := Nat.eqb (length segments) n.
Definition is_get : bool := bool_decide (method = GET).
Definition is_post : bool := bool_decide (method = POST).
Definition js_list (l : list string) : list jstr := js <$> l.

Definition skills_scopes : option (list string) :=
  if len 2 || (len 3 && is_get) then Some ["skills:read"; "registry:read"]
  else if len 4 && (seg 3 "files" || seg 3 "file") then Some ["skills:read"; "registry:read"]
  else if len 4 && seg 3 "drafts" then Some ["skills:write"; "skills:publish"]
  else if len 4 && seg 3 "rescan" then Some ["skills:rescan"; "skills:write"; "skills:publish"]
  else if len 4 && seg 3 "revoke" then Some ["skills:revoke"; "skills:write"; "skills:admin"]
  else None.
Definition feeds_skills_scopes : list string :=
  if (len 3 || (len 4 && seg 3 "catalog")) && is_get then ["registry:read"]
  else if len 4 && seg 3 "refresh" && is_post then ["registry:admin"]
  else if len 4 && seg 3 "import" && is_post then ["proxy:resolve"]
  else ["registry:admin"].
Definition internal_jobs_scopes : list string :=
  if len 3 && seg 2 "claim" then ["jobs:claim"]
  else if len 4 && seg 3 "artifact" then ["jobs:artifact"; "jobs:read"]
  else if len 4 && seg 3 "complete" then ["jobs:complete"]
  else ["jobs:read"].
(** The routes under [/v1], by their second segment, after the ones whose rule
    may fall through. *)
Definition v1_scopes : list string :=
  if seg 1 "publish" then ["skills:publish"; "skills:write"]
  else if seg 1 "drafts" then ["skills:write"; "skills:publish"]
  else if seg 1 "resolve" then ["skills:read"; "packs:read"; "registry:read"]
  else if seg 1 "operations" then ["jobs:read"; "registry:read"]
  else if seg 1 "install-authorizations" then
    if len 4 then ["install:validate"; "artifacts:download"; "registry:read"]
    else ["install:authorize"; "artifacts:download"; "registry:read"]
  else if seg 1 "install-receipts" then ["install:receipt"; "analytics:write"]
  else if seg 1 "analytics" then ["analytics:read"; "registry:admin"]
  else if seg 1 "directory" then
    if len 3 && seg 2 "import" then ["imports:create"; "skills:publish"; "proxy:resolve"]
    else ["skills:read"; "registry:read"]
  else if seg 1 "artifacts" then ["artifacts:download"; "install:read"; "registry:read"]
  else if seg 1 "packs" then
    if is_get then ["packs:read"; "registry:read"] else ["packs:publish"; "packs:write"]
  else if seg 1 "policy" then
    if is_get then ["policy:read"; "registry:read"] else ["policy:write"; "policy:admin"]
  else if seg 1 "scans" then ["scans:read"; "registry:read"]
  else if seg 1 "feeds" && seg 2 "skills" then feeds_skills_scopes
  else if seg 1 "feeds" then
    if is_get then ["registry:read"] else ["upstreams:write"; "upstreams:admin"]
  else if seg 1 "upstreams" then
    if is_get then ["upstreams:read"; "registry:read"] else ["upstreams:write"; "upstreams:admin"]
  else if seg 1 "imports" then
    ["imports:create"; "upstreams:write"; "skills:publish"; "proxy:resolve"]
  else if seg 1 "proxy" && seg 2 "resolve" then []
  else if seg 1 "audit" then ["audit:read"; "registry:admin"]
  else [].
Definition scopesForRoute : list jstr :=
  js_list (
    if jeqb path (js "/v1/me") then []
    else if jeqb path (js "/v1/capabilities") then ["registry:read"]
    else if seg 0 "v1" && seg 1 "sources" && is_get then ["registry:read"]
    else if seg 0 "v1" && seg 1 "sources" && is_post && (seg 2 "resolve" || seg 3 "resolve") then
      ["proxy:resolve"]
    else if seg 0 "v1" && seg 1 "drafts" && (seg 3 "builder-context" || seg 3 "builder-file") then
      ["skills:builder"]
    else if seg 0 "v1" && seg 1 "drafts" && seg 3 "proposals" && len 4 && is_post then
      ["skills:builder"]
    else match (if seg 0 "v1" && seg 1 "skills" then skills_scopes else None) with
         | Some scopes => scopes
         | None =>
             if seg 0 "v1" then v1_scopes
             else if seg 0 "internal" && seg 1 "jobs" then internal_jobs_scopes
             else []
         end).
End ScopesForRoute.

(** ** Roles *)

Definition requireReader (p : Principal) : api unit :=
  throw_if negb (hasRole p Reader) && negb (hasRole p Publisher) && negb (hasRole p Admin) &&
           negb (hasRole p Owner) with api_error "FORBIDDEN" 403 ;;
  Ok tt.
Definition requirePublisher (p : Principal) : api unit :=
  throw_if negb (hasRole p Publisher) && negb (hasRole p Admin) && negb (hasRole p Owner)
    with api_error "FORBIDDEN" 403 ;;
  Ok tt.
Definition requireAdmin (p : Principal) : api unit :=
  throw_if negb (hasRole p Admin) && negb (hasRole p Owner) with api_error "FORBIDDEN" 403 ;;
  Ok tt.
Definition requireWorker (p : Principal) : api unit :=
  throw_if negb (hasRole p Worker) with api_error "FORBIDDEN" 403 ;;
  Ok tt.

(** ** Namespaces *)

Definition namespace_of (namespaceOrName : jstr) : jstr :=
  if startsWith (js "@") namespaceOrName then default [] (head (split 47 namespaceOrName))
  else namespaceOrName.
Definition canReadNamespace (principal : Principal) (namespaceOrName : jstr) : bool :=
  if hasRole principal Owner || hasRole principal Admin then true
  else
    let namespace := namespace_of namespaceOrName in
    if negb (hasRole principal Reader) && negb (hasRole principal Publisher) then false
    else match pr_namespaces principal with
         | None | Some [] => true
         | Some l => existsb (fun candidate => jeqb candidate namespace ||
                                               jeqb candidate (drop 1 namespace)) l
         end.
Definition canPublishName (principal : Principal) (name : jstr) : bool :=
  (hasRole principal Owner || hasRole principal Admin || hasRole principal Publisher) &&
  canReadNamespace principal name.

(** ** [publicPrincipal] *)

Record PublicPrincipal : Type := {
  pp_organizationId : jstr;
  pp_subject : jstr;
  pp_roles : list Role;
  pp_namespaces : option (list jstr);
  pp_scopes : option (list jstr);
  pp_display : option PrincipalDisplayMetadata;
}.
Definition publicPrincipal (principal : Principal) : api PublicPrincipal :=
  let? scopes := principalScopes principal in
  Ok {| pp_organizationId := pr_organizationId principal;
        pp_subject := pr_subject principal;
        pp_roles := pr_roles principal;
        pp_namespaces := pr_namespaces principal;
        pp_scopes := scopes;
        pp_display := normalizePrincipalDisplayMetadata (pr_display principal) |}.

(** ** What the checks establish *)

(** A principal with a role that may read. *)
Definition has_reading_role (p : Principal) : Prop :=
  Reader ∈ pr_roles p \/ Publisher ∈ pr_roles p \/ Admin ∈ pr_roles p \/ Owner ∈ pr_roles p.
Definition privileged (p : Principal) : Prop := Owner ∈ pr_roles p \/ Admin ∈ pr_roles p.

(** The principals [assertPrincipal] lets through. *)
Record principal_ok (organizationId : jstr) (p : Principal) : Prop := {
  po_organization : pr_organizationId p = organizationId;
  po_subject : blank (pr_subject p) = false;
  po_roles : pr_roles p <> [];
  po_user : pr_identity p = Some (js "user") -> Worker ∉ pr_roles p;
  po_worker : pr_identity p = Some (js "worker") -> Worker ∈ pr_roles p;
  po_identity : pr_identity p = None \/ pr_identity p = Some (js "user") \/
                pr_identity p = Some (js "worker");
  po_namespaces l : pr_namespaces p = Some l -> Forall (fun n => blank n = false) l;
  po_scopes l : pr_scopes p = Some l -> Forall (fun n => blank n = false) l;
}.

Lemma hasRole_true p r : hasRole p r = true <-> r ∈ pr_roles p.
Proof. apply bool_decide_eq_true. Qed.
Lemma hasRole_false p r : hasRole p r = false <-> r ∉ pr_roles p.
Proof. apply bool_decide_eq_false. Qed.

Lemma all_strings_ok ok v l : all_strings ok v = Some l -> Forall (fun s => ok s = true) l.
Proof.
  destruct v as [| | | | | vs |]; cbn; try done. intros H%mapM_Some_1.
  induction H as [|x y xs ys Hx _ IH]; constructor; [|done].
  destruct x as [| | | | s | |]; try done. destruct (ok s) eqn:E; congruence.
Qed.

Lemma optional_strings_ok v (o : option (list jstr)) e l :
  match v with
  | JUndef => Ok None
  | _ => match all_strings (fun s => negb (blank s)) v with
         | Some l => Ok (Some l)
         | None => Err (E := RegistryApiError) e
         end
  end = Ok o -> o = Some l -> Forall (fun n => blank n = false) l.
Proof.
  intros H ->.
  destruct (all_strings (fun s => negb (blank s)) v) as [l'|] eqn:E; [|by destruct v].
  apply all_strings_ok in E. assert (l' = l) as -> by (destruct v; congruence).
  eapply Forall_impl; [exact E|]. cbn. intros s ?. by apply negb_true_iff.
Qed.

(** Whatever value an authenticator returns, a principal that passes
    [assertPrincipal] belongs to the organization of the registry, has a
    subject and a role, and its identity agrees with its roles: a user holds no
    worker role and a worker identity holds it. *)
Theorem assertPrincipal_sound (v : jsval) (organizationId : jstr) (p : Principal) :
  assertPrincipal v organizationId = Ok p -> principal_ok organizationId p.
Proof.
  unfold assertPrincipal. intros H.
  destruct (falsy v); [done|].
  destruct (field v "subject") as [| | | | subject | |]; try done.
  destruct (field v "organizationId") as [| | | | org | |]; try done.
  ok_inv. bool_inv.
  destruct (roles_of (field v "roles")) as [[|r roles]|]; try done. ok_inv.
  rename a into identity.
  split; cbn.
  - by apply jeqb_true.
  - done.
  - done.
  - intros ->. rewrite bool_decide_true in G1 by done. cbn [andb] in G1. by bool_inv.
  - intros ->. rewrite bool_decide_true in G2 by done. cbn [andb] in G2. by bool_inv.
  - destruct (field v "identity") as [| | | | s | |]; try done; ok_inv; eauto.
    apply negb_false_iff, orb_true_iff in G3 as [G3|G3]; apply jeqb_true in G3; subst; eauto.
  - intros l. eapply optional_strings_ok; eassumption.
  - intros l. eapply optional_strings_ok; eassumption.
Qed.

Definition demo_reader : jsval := JObj [
  (js "organizationId", JStr (js "acme")); (js "subject", JStr (js "alice"));
  (js "roles", JArr [JStr (js "reader")]); (js "namespaces", JArr [JStr (js "tools")])].

Lemma assertPrincipal_sound_witness : exists p,
  assertPrincipal demo_reader (js "acme") = Ok p /\ principal_ok (js "acme") p.
Proof.
  eexists. split; [vm_compute; reflexivity|].
  apply (assertPrincipal_sound demo_reader (js "acme")). vm_compute. reflexivity.
Defined.

(** The user routes and the worker routes are disjoint, and a principal whose
    only role is worker can neither read nor publish any name. *)
Theorem worker_user_separation (p : Principal) :
  (forall u, assertUserPrincipal p = Ok u -> requireWorker p = Err (api_error "FORBIDDEN" 403)) /\
  (Forall (fun r => r = Worker) (pr_roles p) ->
   requireReader p = Err (api_error "FORBIDDEN" 403) /\
   forall name, canReadNamespace p name = false /\ canPublishName p name = false).
Proof.
  split.
  - intros u H. unfold assertUserPrincipal in H. ok_inv. bool_inv.
    unfold requireWorker. by rewrite G.
  - intros Hall. rewrite Forall_forall in Hall.
    assert (Hno : forall r, r <> Worker -> hasRole p r = false).
    { intros r Hr. apply hasRole_false. intros Hin. by apply Hr, Hall. }
    unfold requireReader, canPublishName, canReadNamespace. rewrite !Hno by done. done.
Qed.

Lemma namespace_of_scoped (ns slug : jstr) :
  47 ∉ ns -> namespace_of (js "@" ++ ns ++ js "/" ++ slug) = js "@" ++ ns.
Proof.
  intros Hns. unfold namespace_of.
  change (js "@" ++ ns ++ js "/" ++ slug) with (64 :: ns ++ 47 :: slug).
  change (startsWith (js "@") (64 :: ns ++ 47 :: slug)) with true. cbn [split Z.eqb Pos.eqb].
  enough (exists ws, split 47 (ns ++ 47 :: slug) = ns :: ws) as [ws ->] by done.
  induction ns as [|c ns IH]; cbn [app split].
  - rewrite Z.eqb_refl. eauto.
  - apply not_elem_of_cons in Hns as [Hc Hns]. rewrite (proj2 (Z.eqb_neq c 47)) by done.
    destruct (IH Hns) as [ws ->]. eauto.
Qed.

(** Namespace confinement: a principal that is neither owner nor admin and
    carries a list of namespaces reads [@ns/slug] exactly when it has a reading
    role and the list names [@ns] or [ns]; publishing needs the publisher role
    on top of that. *)
Theorem namespace_confinement (p : Principal) (granted : list jstr) (ns slug : jstr) :
  ~ privileged p -> pr_namespaces p = Some granted -> granted <> [] -> 47 ∉ ns ->
  let name := js "@" ++ ns ++ js "/" ++ slug in
  (canReadNamespace p name = true <->
     (Reader ∈ pr_roles p \/ Publisher ∈ pr_roles p) /\
     (js "@" ++ ns ∈ granted \/ ns ∈ granted)) /\
  (canPublishName p name = true <->
     Publisher ∈ pr_roles p /\ (js "@" ++ ns ∈ granted \/ ns ∈ granted)).
Proof.
  intros Hpriv Hl Hne Hns name.
  assert (Ho : hasRole p Owner = false) by (apply hasRole_false; intros ?; apply Hpriv; by left).
  assert (Ha : hasRole p Admin = false) by (apply hasRole_false; intros ?; apply Hpriv; by right).
  assert (Hread : canReadNamespace p name = true <->
     (Reader ∈ pr_roles p \/ Publisher ∈ pr_roles p) /\
     (js "@" ++ ns ∈ granted \/ ns ∈ granted)).
  { unfold canReadNamespace, name. rewrite Ho, Ha, Hl, namespace_of_scoped by done. cbn [orb].
    destruct granted as [|g granted]; [done|].
    rewrite <- !hasRole_true.
    destruct (hasRole p Reader) eqn:Er, (hasRole p Publisher) eqn:Ep; cbn [negb andb];
      rewrite ?existsb_elem;
      (split; [intros H|intros [Hr H]]); try (by destruct Hr); try done.
    all: try (destruct H as (c & Hc & Hx); split; [tauto|];
              apply orb_true_iff in Hx as [Hx|Hx]; apply jeqb_true in Hx; subst; tauto).
    all: destruct H as [H|H]; eexists; (split; [exact H|]);
         apply orb_true_iff; [left|right]; by apply jeqb_true. }
  split; [done|].
  unfold canPublishName. rewrite andb_true_iff, Hread, Ho, Ha. cbn [orb].
  rewrite hasRole_true. tauto.
Qed.

Definition demo_principal : Principal := {|
  pr_organizationId := js "acme"; pr_subject := js "alice"; pr_roles := [Publisher];
  pr_namespaces := Some [js "tools"]; pr_scopes := Some [js "registry:read"];
  pr_identity := None; pr_display := JUndef |}.

Lemma namespace_confinement_witness :
  canReadNamespace demo_principal (js "@tools/fmt") = true /\
  canPublishName demo_principal (js "@other/fmt") = false.
Proof.
  assert (Hp : ~ privileged demo_principal)
    by (intros [H|H]; apply list_elem_of_singleton in H; discriminate H).
  split.
  - apply (namespace_confinement demo_principal [js "tools"] (js "tools") (js "fmt"));
      [exact Hp | reflexivity | discriminate | by apply (bool_decide_unpack _) |].
    split; apply (bool_decide_unpack _); vm_compute; exact I.
  - apply not_true_is_false. intros H.
    apply (namespace_confinement demo_principal [js "tools"] (js "other") (js "fmt")) in H;
      [| exact Hp | reflexivity | discriminate | by apply (bool_decide_unpack _)].
    destruct H as [_ [H|H]]; apply list_elem_of_singleton in H; discriminate.
Defined.

(** Evaluates the tests on the first two segments of a known route. *)
Ltac concrete_segments :=
  repeat match goal with
  | |- context [seg (?v :: ?r :: ?rest) 0 ?n] =>
      let b := eval vm_compute in (seg (v :: r :: []) 0 n) in
      change (seg (v :: r :: rest) 0 n) with b
  | |- context [seg (?v :: ?r :: ?rest) 1 ?n] =>
      let b := eval vm_compute in (seg (v :: r :: []) 1 n) in
      change (seg (v :: r :: rest) 1 n) with b
  end; rewrite ?andb_false_r; cbn [andb].

Definition writing_routes : list jstr :=
  js_list ["publish"; "drafts"; "packs"; "policy"; "feeds"; "upstreams"; "imports";
           "install-receipts"].

(** A credential whose only scope is [registry:read] is refused on every
    request other than [GET] to the routes that change the registry. *)
Theorem read_scope_never_writes (p : Principal) (method : HttpMethod) (path resource : jstr)
    (rest : list jstr) :
  pr_scopes p = Some [js "registry:read"] ->
  method <> GET -> path <> js "/v1/me" -> path <> js "/v1/capabilities" ->
  resource ∈ writing_routes ->
  requireRouteScopes p (scopesForRoute method path (js "v1" :: resource :: rest)) =
    Err (api_error "FORBIDDEN" 403).
Proof.
  intros Hs Hm Hme Hcap Hr.
  assert (Hdeny : forall l, Forall (fun c => jeqb (js "registry:read") c = false) l -> l <> [] ->
            requireRouteScopes p l = Err (api_error "FORBIDDEN" 403)).
  { intros l Hl Hne. unfold requireRouteScopes, hasAnyScope, principalScopes. rewrite Hs.
    destruct l as [|c l]; [done|].
    change (existsb blank [js "registry:read"]) with false. cbn [rbind].
    rewrite bool_decide_false by (intros H; by apply list_elem_of_singleton in H).
    cbn [rbind existsb]. change (jeqb (js "registry:read") (js "*")) with false.
    enough (existsb (scope_grants (js "registry:read")) (c :: l) = false) as E
      by (cbn [existsb] in E; by rewrite orb_false_l, orb_false_r, E).
    clear Hne. induction Hl as [|x xs Hx _ IH]; [done|]. cbn [existsb]. rewrite IH, orb_false_r.
    unfold scope_grants. rewrite Hx.
    by change (endsWith (js ":*") (js "registry:read")) with false. }
  assert (Hroute : exists l, scopesForRoute method path (js "v1" :: resource :: rest) = js_list l /\
            l <> [] /\ Forall (fun c => jeqb (js "registry:read") (js c) = false) l).
  { unfold scopesForRoute, v1_scopes, feeds_skills_scopes, is_get.
    rewrite (proj2 (jeqb_false path _) Hme), (proj2 (jeqb_false path _) Hcap).
    rewrite bool_decide_false by done.
    unfold writing_routes, js_list in Hr; cbn [fmap list_fmap] in Hr.
    repeat (apply elem_of_cons in Hr as [->|Hr]); try (by apply not_elem_of_nil in Hr);
      concrete_segments; repeat case_match; eexists; (split; [reflexivity|]);
      (split; [done|]); repeat (constructor; [vm_compute; reflexivity|]); constructor. }
  destruct Hroute as (l & -> & Hne & Hl). apply Hdeny.
  - unfold js_list. by apply Forall_fmap.
  - by destruct l.
Qed.

Lemma read_scope_never_writes_witness :
  requireRouteScopes demo_principal
    (scopesForRoute PUT (js "/v1/policy") [js "v1"; js "policy"]) =
    Err (api_error "FORBIDDEN" 403).
Proof.
  apply (read_scope_never_writes demo_principal PUT (js "/v1/policy") (js "policy") []);
    [reflexivity | discriminate | discriminate | discriminate |].
  apply (bool_decide_unpack _). vm_compute. exact I.
Defined.
