(* ===== verification/Names.v ===== *)
(** * Names, versions and texts of the registry

    The validators of names and versions, the choice of a version among
    candidates, the canonical text of a pack manifest and the redaction of
    error texts, all from packages/core/src/index.ts. *)

From Stdlib Require Import ZArith Lia SpecFloat.
From stdpp Require Import base list strings sets.
From S2P Require Import Prelude Js Json Numbers Contracts Web Access.

Local Open Scope Z_scope.

(** ** Names *)

Definition is_alnum (c : Z) : bool := is_digit c || is_lower c || is_upper c.
Definition is_lower_alnum (c : Z) : bool := is_digit c || is_lower c.
Definition name_punct (c : Z) : bool := (c =? 46) || (c =? 95) || (c =? 45).

(** [/^[a-z0-9][a-z0-9._-]{0,max}$/]. *)
Definition slug_like (first : Z -> bool) (max : nat) (s : jstr) : bool :=
  match s with
  | c :: r => first c && (length r <=? max)%nat && forallb (fun c => first c || name_punct c) r
  | [] => false
  end.
Definition normalizeSkillName (v : jsval) : option jstr :=
  match v with
  | JStr s => if slug_like is_alnum 127 s then Some s else None
  | _ => None
  end.
(** [/^@[a-z0-9][a-z0-9._-]{0,63}\/[a-z0-9][a-z0-9._-]{0,127}$/]. *)
Definition skill_name_pattern (name : jstr) : bool :=
  match name with
  | 64 :: r => match split 47 r with
               | [ns; slug] => slug_like is_lower_alnum 63 ns && slug_like is_lower_alnum 127 slug
               | _ => false
               end
  | _ => false
  end.
Definition requireSkillName (v : jsval) : api jstr :=
  match stringValue v with
  | Some name => throw_if negb (skill_name_pattern name) with api_error "INVALID_NAME" 400 ;; Ok name
  | None => Err (api_error "INVALID_NAME" 400)
  end.
(** [name.slice(name.indexOf('/') + 1)]. *)
Fixpoint after_slash (s : jstr) : option jstr :=
  match s with
  | [] => None
  | c :: r => if c =? 47 then Some r else after_slash r
  end.
Definition slug_of (name : jstr) : jstr := default name (after_slash name).

(** ** Versions *)

(** [/^(?:0|[1-9]\d{0,})\.\d+\.\d+(?:-[0-9A-Za-z.-]+)?(?:\+[0-9A-Za-z.-]+)?$/]. *)
Definition suffix_char (c : Z) : bool := is_alnum c || (c =? 46) || (c =? 45).
Definition suffix (s : jstr) : bool := negb (bool_decide (s = [])) && forallb suffix_char s.
Fixpoint span_suffix (s : jstr) : jstr * jstr :=
  match s with
  | c :: r => if suffix_char c then let '(d, r') := span_suffix r in (c :: d, r') else ([], s)
  | [] => ([], [])
  end.
Definition build_part (s : jstr) : bool :=
  match s with
  | [] => true
  | c :: r => (c =? 43) && suffix r
  end.
Definition version_tail (s : jstr) : bool :=
  match s with
  | c :: r => if c =? 45 then let '(pre, rest) := span_suffix r in
                              negb (bool_decide (pre = [])) && build_part rest
              else build_part s
  | [] => true
  end.
(** Digits and a dot. *)
Definition numeric_part (leading_zero : bool) (s : jstr) : option jstr :=
  match span_digits s with
  | (d :: ds, 46 :: r) =>
      if negb leading_zero && (d =? 48) && negb (bool_decide (ds = [])) then None else Some r
  | _ => None
  end.
Definition version_pattern (s : jstr) : bool :=
  match numeric_part false s with
  | None => false
  | Some r => match numeric_part true r with
              | None => false
              | Some r' => match span_digits r' with
                           | ([], _) => false
                           | (_, tail) => version_tail tail
                           end
              end
  end.
Definition requireVersion (v : jsval) : api jstr :=
  match stringValue v with
  | Some version =>
      throw_if negb (version_pattern version) with api_error "INVALID_VERSION" 400 ;; Ok version
  | None => Err (api_error "INVALID_VERSION" 400)
  end.

(** ** [compareVersions] and [chooseVersion] *)

(** [x || 0]. *)
Definition number_or_zero (x : spec_float) : spec_float :=
  match x with
  | S754_nan => num_zero
  | _ => x
  end.
Definition version_nums (main : jstr) : list spec_float := stringToNumber <$> split 46 main.
Definition num_at (nums : list spec_float) (i : nat) : spec_float :=
  match nums !! i with
  | Some x => number_or_zero x
  | None => num_zero
  end.
(** [version.split('-', 2)] keeps the first two pieces. *)
Definition version_parts (version : jstr) : list spec_float * jstr :=
  match split 45 version with
  | main :: pre :: _ => (version_nums main, pre)
  | [main] => (version_nums main, [])
  | [] => ([], [])
  end.

Section Versions.
Context {CO : Collation}.

(** The sign of the number [compareVersions] returns. *)
Definition compare_pre (left right : jstr) : comparison :=
  match left, right with
  | [], _ :: _ => Gt
  | _ :: _, [] => Lt
  | _, _ => Z.compare (localeCompare left right) 0
  end.
Definition compare_num (x y : spec_float) : comparison := default Eq (SFcompare x y).
Definition compareVersions (a b : jstr) : comparison :=
  let '(lnums, lpre) := version_parts a in
  let '(rnums, rpre) := version_parts b in
  match compare_num (num_at lnums 0) (num_at rnums 0) with
  | Eq =>
      match compare_num (num_at lnums 1) (num_at rnums 1) with
      | Eq =>
          match compare_num (num_at lnums 2) (num_at rnums 2) with
          | Eq => compare_pre lpre rpre
          | c => c
          end
      | c => c
      end
  | c => c
  end.

(** The first of the candidates, sorted with the newest version first. *)
Definition chooseVersion {T : Type} (version_of : T -> jstr) (candidates : list T)
    (version : option jstr) : option T :=
  let matching := match version with
                  | None | Some [] => candidates
                  | Some v => List.filter (fun c => jeqb (version_of c) v) candidates
                  end in
  head (js_sort (fun a b => compareVersions (version_of b) (version_of a)) matching).
End Versions.

(** ** [stableStringify] on the data it is used for *)

Fixpoint stableStringify (t : jdata) : jstr :=
  match t with
  | TNull => js "null"
  | TStr s => quote s
  | TBool b => if b then js "true" else js "false"
  | TArr l => 91 :: join [44] (stableStringify <$> l) ++ [93]
  | TObj l =>
      123 :: join [44] ((fun kv => quote kv.1 ++ 58 :: kv.2) <$>
                        js_sort (fun a b => jcompare a.1 b.1)
                          ((fun kv => (kv.1, stableStringify kv.2)) <$> l)) ++ [125]
  end.

(** ** [redactJobError] *)

(** Case folding of the [iu] flags, on the letters of the key words: the long s
    and the Kelvin sign fold to ASCII. *)
Definition fold_unit (c : Z) : Z :=
  if c =? 0x17f then 115 else if c =? 0x212a then 107 else ascii_lower c.
Definition starts_folded (p s : jstr) : bool := startsWith p (fold_unit <$> s).
Definition SECRET_WORDS : list jstr :=
  js <$> ["authorization"; "token"; "secret"; "password"; "credential"].

Fixpoint span_while (p : Z -> bool) (s : jstr) : jstr * jstr :=
  match s with
  | c :: r => if p c then let '(d, r') := span_while p r in (c :: d, r') else ([], s)
  | [] => ([], [])
  end.
Definition secret_value_char (c : Z) : bool := negb (is_js_space c || (c =? 44) || (c =? 59)).

(** [\s*[:=]\s*[^\s,;]+] at the head of the text: what remains after it. *)
Definition assignment_tail (s : jstr) : option jstr :=
  match (span_while is_js_space s).2 with
  | c :: r =>
      if (c =? 58) || (c =? 61) then
        match span_while secret_value_char (span_while is_js_space r).2 with
        | (_ :: _, rest) => Some rest
        | _ => None
        end
      else None
  | [] => None
  end.
(** The key word at the head of the text, as it is spelled there, and the rest
    after the assignment. *)
Definition secret_assignment (s : jstr) : option (jstr * jstr) :=
  match find_first (fun w => starts_folded w s) SECRET_WORDS with
  | Some w => match assignment_tail (drop (length w) s) with
              | Some rest => Some (take (length w) s, rest)
              | None => None
              end
  | None => None
  end.
Definition bearer_char (c : Z) : bool :=
  is_alnum c || (c =? 46) || (c =? 95) || (c =? 126) || (c =? 43) || (c =? 47) || (c =? 61) ||
  (c =? 45).
Definition bearer_token (s : jstr) : option jstr :=
  if startsWith (js "Bearer") s then
    match span_while is_js_space (drop 6 s) with
    | (_ :: _, r) => match span_while bearer_char r with
                     | (_ :: _, rest) => Some rest
                     | _ => None
                     end
    | _ => None
    end
  else None.

(** [text.replace(regexp, replacement)] with the [g] flag: matches are sought
    from left to right and do not overlap.  Each step consumes a unit, so the
    length of the text is enough fuel. *)
Fixpoint replace_all (fuel : nat) (match_at : jstr -> option (jstr * jstr)) (s : jstr) : jstr :=
  match fuel, s with
  | S fuel, c :: r =>
      match match_at s with
      | Some (replacement, rest) => replacement ++ replace_all fuel match_at rest
      | None => c :: replace_all fuel match_at r
      end
  | _, _ => []
  end.
Definition redact_assignments (s : jstr) : jstr :=
  replace_all (length s)
    (fun s => match secret_assignment s with
              | Some (word, rest) => Some (word ++ js "=[redacted]", rest)
              | None => None
              end) s.
Definition redact_bearer (s : jstr) : jstr :=
  replace_all (length s)
    (fun s => match bearer_token s with
              | Some rest => Some (js "Bearer [redacted]", rest)
              | None => None
              end) s.
Definition redactJobError (error : jstr) : jstr := take 500 (redact_bearer (redact_assignments error)).

(** ** Lemmas *)

(** Numbers other than [NaN] as triples whose lexicographic order is theirs. *)
Definition num_rank (x : spec_float) : Z * Z * Z :=
  match x with
  | S754_infinity true => (-2, 0, 0)
  | S754_finite true m e => (-1, - e, Z.neg m)
  | S754_zero _ | S754_nan => (0, 0, 0)
  | S754_finite false m e => (1, e, Z.pos m)
  | S754_infinity false => (2, 0, 0)
  end.
Definition rank_compare (a b : Z * Z * Z) : comparison :=
  cmp_then (Z.compare a.1.1 b.1.1) (cmp_then (Z.compare a.1.2 b.1.2) (Z.compare a.2 b.2)).

Lemma consistent_rank : consistent rank_compare.
Proof.
  unfold rank_compare.
  repeat (apply consistent_then || apply (consistent_on _ Z.compare consistent_Z)).
Qed.

Lemma compare_num_rank x y :
  x <> S754_nan -> y <> S754_nan -> compare_num x y = rank_compare (num_rank x) (num_rank y).
Proof.
  intros Hx Hy. unfold compare_num, rank_compare.
  destruct x as [s|s| |s m e], y as [s'|s'| |s' m' e']; try done;
    try destruct s; try destruct s'; try done; cbn.
  - rewrite Z.compare_opp. by destruct (Z.compare_spec e e'), (Z.compare_spec e' e); try lia; cbn.
  - by destruct (Z.compare e e').
Qed.

Lemma num_at_not_nan nums i : num_at nums i <> S754_nan.
Proof. unfold num_at. by destruct (nums !! i) as [[]|]. Qed.

Section VersionOrder.
Context {CO : Collation} `{!CollationLaws CO}.

Lemma consistent_pre : consistent compare_pre.
Proof.
  split.
  - intros [|a s] [|b t]; cbn; try done.
    + by rewrite localeCompare_refl.
    + pose proof (localeCompare_anti (a :: s) (b :: t)) as H.
      destruct (Z.compare_spec (localeCompare (a :: s) (b :: t)) 0),
        (Z.compare_spec (localeCompare (b :: t) (a :: s)) 0); cbn; try done; lia.
  - intros [|a s] [|b t] [|c u]; cbn; try done; rewrite ?localeCompare_refl; try done.
    rewrite !Z.compare_le_iff. apply localeCompare_trans.
Qed.

Definition version_key (v : jstr) : (Z * Z * Z) * (Z * Z * Z) * (Z * Z * Z) * jstr :=
  let '(nums, pre) := version_parts v in
  (num_rank (num_at nums 0), num_rank (num_at nums 1), num_rank (num_at nums 2), pre).
Lemma compareVersions_key a b :
  compareVersions a b =
  cmp_then (rank_compare (version_key a).1.1.1 (version_key b).1.1.1)
    (cmp_then (rank_compare (version_key a).1.1.2 (version_key b).1.1.2)
      (cmp_then (rank_compare (version_key a).1.2 (version_key b).1.2)
        (compare_pre (version_key a).2 (version_key b).2))).
Proof.
  unfold compareVersions, version_key.
  destruct (version_parts a) as [n p], (version_parts b) as [n' p']. cbn [fst snd].
  rewrite !compare_num_rank by apply num_at_not_nan. unfold cmp_then.
  by repeat case_match.
Qed.

Lemma consistent_versions : consistent compareVersions.
Proof.
  assert (H : consistent (fun a b =>
    cmp_then (rank_compare (version_key a).1.1.1 (version_key b).1.1.1)
    (cmp_then (rank_compare (version_key a).1.1.2 (version_key b).1.1.2)
      (cmp_then (rank_compare (version_key a).1.2 (version_key b).1.2)
        (compare_pre (version_key a).2 (version_key b).2))))).
  { apply consistent_then; [apply (consistent_on _ _ consistent_rank)|].
    apply consistent_then; [apply (consistent_on _ _ consistent_rank)|].
    apply consistent_then; [apply (consistent_on _ _ consistent_rank)|].
    apply (consistent_on _ _ consistent_pre). }
  split.
  - intros x y. rewrite !compareVersions_key. apply (cmp_flip _ H).
  - intros x y z. rewrite !compareVersions_key. apply (cmp_trans _ H).
Qed.

(** [chooseVersion] returns a newest candidate: an element of the candidates,
    of the requested version when one is requested, to which no candidate it
    had to choose from is newer; and it returns nothing only when there is
    nothing to choose from. *)
Theorem chooseVersion_newest {T : Type} (version_of : T -> jstr) (candidates : list T)
    (version : option jstr) :
  let eligible c := c ∈ candidates /\
    forall v, version = Some v -> v <> [] -> version_of c = v in
  match chooseVersion version_of candidates version with
  | Some c => eligible c /\ forall c', eligible c' -> compareVersions (version_of c') (version_of c) <> Gt
  | None => forall c, ~ eligible c
  end.
Proof.
  cbv zeta. unfold chooseVersion.
  set (matching := match version with None | Some [] => candidates | Some v => _ end).
  assert (Hm : forall c, c ∈ matching <->
            c ∈ candidates /\ forall v, version = Some v -> v <> [] -> version_of c = v).
  { intros c. unfold matching. destruct version as [[|x v]|].
    - split; [|by intros [? _]]. intros Hc. split; [done|]. by intros ? [= <-].
    - rewrite !list_elem_of_In, filter_In, jeqb_true. split; intros [Hc Hv]; (split; [done|]).
      + by intros ? [= <-] _.
      + by apply Hv.
    - split; [|by intros [? _]]. done. }
  destruct (head _) as [c|] eqn:E.
  - apply js_sort_head in E as [Hc Hmin].
    + split; [by apply Hm|]. intros c' Hc'. apply Hmin, Hm, Hc'.
    + split.
      * intros x y. apply (cmp_flip _ consistent_versions).
      * intros x y z H1 H2. by apply (cmp_trans _ consistent_versions _ (version_of y)).
  - apply js_sort_nil in E. intros c Hc. apply Hm in Hc. rewrite E in Hc. by apply not_elem_of_nil in Hc.
Qed.
End VersionOrder.

Lemma chooseVersion_newest_witness :
  chooseVersion (CO := unit_collation) (fun v => v) [js "1.9.0"; js "1.10.0"; js "1.10.0-rc.1"] None =
    Some (js "1.10.0") /\
  compareVersions (CO := unit_collation) (js "1.10.0-rc.1") (js "1.10.0") <> Gt.
Proof.
  pose proof (chooseVersion_newest (CO := unit_collation) (fun v => v)
    [js "1.9.0"; js "1.10.0"; js "1.10.0-rc.1"] None) as H.
  assert (E : chooseVersion (CO := unit_collation) (fun v => v)
    [js "1.9.0"; js "1.10.0"; js "1.10.0-rc.1"] None = Some (js "1.10.0")) by (vm_compute; reflexivity).
  split; [exact E|]. cbv zeta in H. rewrite E in H. destruct H as [_ H]. apply H.
  split; [apply (bool_decide_unpack _); vm_compute; exact I | discriminate].
Defined.

(** Build metadata and a second hyphen disturb the order: the patch number of a
    version with build metadata counts as 0, and a pre-release is compared only
    up to its first hyphen. *)
Theorem version_order_anomalies {CO : Collation} `{!CollationLaws CO} :
  version_pattern (js "1.0.5+b1") = true /\ version_pattern (js "1.0.0-a-c") = true /\
  compareVersions (js "1.0.5+b1") (js "1.0.1") = Lt /\
  compareVersions (js "1.0.0-a-b") (js "1.0.0-a-c") = Eq.
Proof.
  split; [vm_compute; reflexivity|]. split; [vm_compute; reflexivity|].
  split; [vm_compute; reflexivity|].
  unfold compareVersions.
  change (version_parts (js "1.0.0-a-b")) with (version_parts (js "1.0.0-a")).
  change (version_parts (js "1.0.0-a-c")) with (version_parts (js "1.0.0-a")).
  pose proof (cmp_flip _ consistent_versions (js "1.0.0-a") (js "1.0.0-a")) as Hf.
  unfold compareVersions in Hf. by destruct (let '(_, _) := _ in _).
Qed.
Lemma version_order_anomalies_witness :
  compareVersions (CO := unit_collation) (js "1.0.5+b1") (js "1.0.1") = Lt.
Proof. apply (version_order_anomalies (CO := unit_collation)). Defined.

(** *** Redaction *)

(** A text in which no suffix matches is left as it is. *)
Lemma replace_all_nomatch match_at s fuel :
  (length s <= fuel)%nat ->
  (forall l r, s = l ++ r -> match_at r = None) -> replace_all fuel match_at s = s.
Proof.
  revert fuel; induction s as [|c s IH]; intros [|fuel] Hlen Hno; cbn in Hlen |- *; try done; try lia.
  rewrite (Hno [] (c :: s)) by done. f_equal. apply IH; [lia|].
  intros l r ->. by apply (Hno (c :: l)).
Qed.

Lemma span_while_rest p s : Forall (fun c => p c = true) (span_while p s).1 /\
  s = (span_while p s).1 ++ (span_while p s).2.
Proof.
  induction s as [|c s [IH1 IH2]]; cbn; [by split|].
  destruct (p c) eqn:E; [|by split]. destruct (span_while p s) as [d r]. cbn in *.
  split; [by constructor|]. by rewrite IH2 at 1.
Qed.

(** Without a colon or an equals sign nothing is an assignment. *)
Lemma secret_assignment_none s :
  Forall (fun c => c <> 58 /\ c <> 61) s -> secret_assignment s = None.
Proof.
  intros Hs. unfold secret_assignment. destruct (find_first _ _) as [w|]; [|done].
  enough (assignment_tail (drop (length w) s) = None) as -> by done.
  unfold assignment_tail.
  destruct (span_while_rest is_js_space (drop (length w) s)) as [_ Heq].
  destruct (span_while is_js_space (drop (length w) s)) as [d [|c r]]; cbn in *; [done|].
  assert (Hc : c ∈ drop (length w) s) by (rewrite Heq; set_solver).
  rewrite Forall_forall in Hs. destruct (Hs c) as [H1 H2].
  { eapply elem_of_submseteq; [exact Hc|]. apply sublist_submseteq, sublist_drop. }
  by rewrite (proj2 (Z.eqb_neq c 58)), (proj2 (Z.eqb_neq c 61)) by done.
Qed.

(** Without white space nothing follows the word Bearer. *)
Lemma bearer_token_none s : Forall (fun c => is_js_space c = false) (drop 6 s) -> bearer_token s = None.
Proof.
  intros Hs. unfold bearer_token. destruct (startsWith _ s); [|done].
  destruct (drop 6 s) as [|c r]; [done|]. inversion Hs as [|? ? Hc _]; subst.
  cbn. by rewrite Hc.
Qed.

Lemma replace_all_hit match_at s replacement rest :
  match_at s = Some (replacement, rest) -> s <> [] -> (length rest < length s)%nat ->
  (forall l r, rest = l ++ r -> match_at r = None) ->
  replace_all (length s) match_at s = replacement ++ rest.
Proof.
  intros Hm Hne Hlen Hno. destruct s as [|c s]; [done|]. cbn [replace_all length]. rewrite Hm.
  f_equal. apply replace_all_nomatch; [cbn in Hlen; lia | done].
Qed.

Lemma span_while_all p s : Forall (fun c => p c = true) s -> span_while p s = (s, []).
Proof. induction 1 as [|c s Hc _ IH]; cbn; [done|]. by rewrite Hc, IH. Qed.

Lemma alnum_facts c :
  is_alnum c = true ->
  c <> 58 /\ c <> 61 /\ is_js_space c = false /\ bearer_char c = true /\ secret_value_char c = true.
Proof.
  intros Hc. assert (Hr : 48 <= c <= 57 \/ 97 <= c <= 122 \/ 65 <= c <= 90).
  { unfold is_alnum in Hc. apply orb_true_iff in Hc as [Hc|Hc];
      [apply orb_true_iff in Hc as [Hc|Hc]|]; range_inv; lia. }
  assert (Hs : is_js_space c = false).
  { unfold is_js_space. repeat (apply orb_false_iff; split);
      try (apply between_false; lia); apply Z.eqb_neq; lia. }
  split; [lia|]. split; [lia|]. split; [done|]. unfold bearer_char, secret_value_char.
  rewrite Hc, Hs. split; [done|].
  by rewrite (proj2 (Z.eqb_neq c 44)), (proj2 (Z.eqb_neq c 59)) by lia.
Qed.

Lemma suffix_cases {A} (c : A) (s l r : list A) :
  c :: s = l ++ r -> r = c :: s \/ exists l', s = l' ++ r.
Proof. destruct l as [|x l]; cbn; [by left|]. intros [= _ ->]. eauto. Qed.

Lemma assignment_tail_at s c r :
  (span_while is_js_space s).2 = c :: r -> c = 58 \/ c = 61 ->
  assignment_tail s = match span_while secret_value_char (span_while is_js_space r).2 with
                      | (_ :: _, rest) => Some rest
                      | _ => None
                      end.
Proof. intros E [->| ->]; unfold assignment_tail; by rewrite E. Qed.

(** A token of letters and digits. *)
Section Token.
Context (token : jstr) (Hne : token <> []) (Hlen : (length token <= 400)%nat).
Context (Hal : Forall (fun c => is_alnum c = true) token).

Lemma token_secret : span_while secret_value_char token = (token, []).
Proof. apply span_while_all. eapply Forall_impl; [exact Hal|]. apply alnum_facts. Qed.
Lemma token_bearer : span_while bearer_char token = (token, []).
Proof. apply span_while_all. eapply Forall_impl; [exact Hal|]. apply alnum_facts. Qed.
Lemma token_spaces : Forall (fun c => is_js_space c = false) token.
Proof. eapply Forall_impl; [exact Hal|]. apply alnum_facts. Qed.
Lemma token_nocolon : Forall (fun c => c <> 58 /\ c <> 61) token.
Proof.
  eapply Forall_impl; [exact Hal|]. intros c Hc. by destruct (alnum_facts c Hc) as (? & ? & _).
Qed.
Lemma token_skip : span_while is_js_space token = ([], token).
Proof.
  pose proof token_spaces as H. destruct token as [|c r]; [done|]. inversion H as [|? ? Hc _]; subst.
  cbn. by rewrite Hc.
Qed.
Lemma suffix_no_assignment s l r :
  Forall (fun c => c <> 58 /\ c <> 61) s -> s = l ++ r -> secret_assignment r = None.
Proof. intros Hs ->. apply secret_assignment_none. by apply Forall_app in Hs as [_ Hs]. Qed.

Lemma redact_assigned : redactJobError (js "token=" ++ token) = js "token=[redacted]".
Proof.
  unfold redactJobError, redact_assignments.
  erewrite (replace_all_hit _ (js "token=" ++ token) (js "token" ++ js "=[redacted]") []);
    [reflexivity | | done | cbn; lia | by intros [] [] [=]].
  unfold secret_assignment. change (find_first _ _) with (Some (js "token")).
  cbv beta iota. change (drop _ _) with (61 :: token).
  rewrite (assignment_tail_at _ 61 token), token_skip by eauto. cbn [snd].
  rewrite token_secret. by destruct token.
Qed.

Lemma redact_standalone : redactJobError (js "Bearer " ++ token) = js "Bearer [redacted]".
Proof.
  unfold redactJobError, redact_assignments. rewrite replace_all_nomatch; [|done|].
  2: { intros l r E. erewrite suffix_no_assignment; [done | | exact E].
       apply Forall_app. split; [by repeat constructor | apply token_nocolon]. }
  unfold redact_bearer.
  erewrite (replace_all_hit _ (js "Bearer " ++ token) (js "Bearer [redacted]") []);
    [reflexivity | | done | cbn; lia | by intros [] [] [=]].
  unfold bearer_token. change (startsWith _ _) with true. cbv beta iota.
  change (drop _ _) with (32 :: token). cbn [span_while]. change (is_js_space 32) with true.
  cbv beta iota. rewrite token_skip, token_bearer. by destruct token.
Qed.

Lemma redact_header :
  redactJobError (js "Authorization: Bearer " ++ token) = js "Authorization=[redacted] " ++ token.
Proof.
  unfold redactJobError, redact_assignments.
  erewrite (replace_all_hit _ (js "Authorization: Bearer " ++ token)
              (js "Authorization" ++ js "=[redacted]") (32 :: token)).
  - unfold redact_bearer. rewrite replace_all_nomatch; [|done|].
    + apply take_ge. rewrite !length_app. cbn. lia.
    + intros l r E.
      change ((js "Authorization" ++ js "=[redacted]") ++ 32 :: token)
        with (65 :: js "uthorization=[redacted] " ++ token) in E.
      repeat (apply suffix_cases in E as [->|[? E]]; [reflexivity|]).
      pose proof token_spaces as H. rewrite E in H. rewrite bearer_token_none; [done|].
      apply Forall_drop. by apply Forall_app in H as [_ ?].
  - unfold secret_assignment. change (find_first _ _) with (Some (js "authorization")).
    cbv beta iota. change (drop _ _) with (js ": Bearer " ++ token).
    by rewrite (assignment_tail_at _ 58 (js " Bearer " ++ token)) by eauto.
  - done.
  - rewrite length_app. cbn. lia.
  - intros l r E. erewrite suffix_no_assignment; [done | | exact E].
    constructor; [done | apply token_nocolon].
Qed.
End Token.

(** Redaction removes a secret that is assigned to a key word and a bearer
    token that stands alone, but not the token of an Authorization header: the
    first substitution takes the word Bearer for the secret and leaves the
    token behind, where the second one no longer finds it. *)
Theorem redaction_of_tokens (token : jstr) :
  token <> [] -> (length token <= 400)%nat -> Forall (fun c => is_alnum c = true) token ->
  redactJobError (js "token=" ++ token) = js "token=[redacted]" /\
  redactJobError (js "Bearer " ++ token) = js "Bearer [redacted]" /\
  redactJobError (js "Authorization: Bearer " ++ token) = js "Authorization=[redacted] " ++ token.
Proof. intros. repeat split; [by apply redact_assigned | by apply redact_standalone | by apply redact_header]. Qed.

Lemma redaction_of_tokens_witness :
  redactJobError (js "Authorization: Bearer abc123") = js "Authorization=[redacted] abc123".
Proof.
  apply (redaction_of_tokens (js "abc123")); [discriminate | cbn; lia |].
  apply (bool_decide_unpack _). vm_compute. exact I.
Defined.
