(* ===== verification/PolicyEval.v ===== *)
(** * Scanner policy

    The policy part of packages/core/src/index.ts: parsing and checking a
    policy document, [evaluatePolicy] over scan evidence, and the admission of
    a release that is derived from it.  [now] is the value of [Date.now()] the
    call reads. *)

From Stdlib Require Import ZArith Lia SpecFloat.
From stdpp Require Import base list strings sets.
From S2P Require Import Prelude Js Dates Numbers Contracts Web Access.

Local Open Scope Z_scope.

(** ** The built-in policy *)

Definition SUPPORTED_SCANNERS : list ScannerId := enum_values.
Definition defaultPolicy : Policy := {|
  po_revision := js "policy-initial";
  po_scanners := (fun id => {|
    sp_id := id; sp_mode := Disabled; sp_blockSeverities := [High; Critical];
    sp_timeoutSeconds := num_of_Z 300; sp_configuration := None |}) <$> SUPPORTED_SCANNERS;
  po_allowUnscanned := false;
  po_evidenceMaxAgeSeconds := num_of_Z (7 * 24 * 60 * 60);
  po_hooks := Some [];
|}.

(** ** [clonePolicy]: [JSON.parse(JSON.stringify(policy))] *)

(** Numbers lose the sign of zero; inside [unknown] data the numbers that are
    not finite become [null], and [undefined] members disappear. *)
Definition num_clone (x : spec_float) : spec_float :=
  match x with
  | S754_zero _ => num_zero
  | _ => x
  end.
Fixpoint json_clone (v : jsval) : jsval :=
  match v with
  | JNum x => if num_finite x then JNum (num_clone x) else JNull
  | JArr l => JArr ((fun x => match x with JUndef => JNull | _ => json_clone x end) <$> l)
  | JObj l =>
      JObj ((fix go (l : list (jstr * jsval)) : list (jstr * jsval) :=
               match l with
               | [] => []
               | (_, JUndef) :: l' => go l'
               | (k, x) :: l' => (k, json_clone x) :: go l'
               end) l)
  | _ => v
  end.
Definition clone_members (l : list (jstr * jsval)) : list (jstr * jsval) :=
  match json_clone (JObj l) with
  | JObj l' => l'
  | _ => []
  end.
Definition clone_scanner (s : ScannerPolicy) : ScannerPolicy := {|
  sp_id := sp_id s; sp_mode := sp_mode s; sp_blockSeverities := sp_blockSeverities s;
  sp_timeoutSeconds := num_clone (sp_timeoutSeconds s);
  sp_configuration := option_map clone_members (sp_configuration s) |}.
Definition clone_hook (h : HookConfiguration) : HookConfiguration := {|
  hk_id := hk_id h; hk_event := hk_event h; hk_mode := hk_mode h; hk_url := hk_url h;
  hk_secretEnv := hk_secretEnv h; hk_timeoutSeconds := num_clone (hk_timeoutSeconds h) |}.
Definition clonePolicy (p : Policy) : Policy := {|
  po_revision := po_revision p;
  po_scanners := map clone_scanner (po_scanners p);
  po_allowUnscanned := po_allowUnscanned p;
  po_evidenceMaxAgeSeconds := num_clone (po_evidenceMaxAgeSeconds p);
  po_hooks := option_map (map clone_hook) (po_hooks p);
|}.

(** ** [parsePolicy] *)

Definition MAX_TIMEOUT : spec_float := num_of_Z (24 * 60 * 60).
(** [Number(value)]; the [TypeError] of a hidden [toString] is an internal
    error. *)
Definition number_of (v : jsval) : api spec_float :=
  match toNumber v with
  | Some x => Ok x
  | None => Err (api_error "INTERNAL_ERROR" 500)
  end.
Definition valid_timeout (x : spec_float) : bool :=
  num_finite x && negb (num_le x num_zero) && negb (num_lt MAX_TIMEOUT x).
Definition enum_value (A : Type) `{StringEnum A} (v : jsval) : option A :=
  match v with
  | JStr s => enum_of A s
  | _ => None
  end.
Definition INVALID_POLICY : RegistryApiError := api_error "INVALID_POLICY" 400.
Definition require {E A} (e : E) (o : option A) : result E A :=
  match o with
  | Some a => Ok a
  | None => Err e
  end.

Definition parse_scanner_policy (raw : jsval) : api ScannerPolicy :=
  throw_if negb (isObject raw) with INVALID_POLICY ;;
  let? id := require INVALID_POLICY (enum_value ScannerId (field raw "id")) in
  let? mode := require INVALID_POLICY (enum_value PolicyMode (field raw "mode")) in
  let? blockSeverities := require INVALID_POLICY
    (match field raw "blockSeverities" with
     | JArr l => mapM (enum_value Severity) l
     | _ => None
     end) in
  let? timeoutSeconds := number_of (field raw "timeoutSeconds") in
  throw_if negb (valid_timeout timeoutSeconds) with INVALID_POLICY ;;
  Ok {| sp_id := id; sp_mode := mode; sp_blockSeverities := blockSeverities;
        sp_timeoutSeconds := timeoutSeconds;
        sp_configuration := match field raw "configuration" with
                            | JObj l => Some l
                            | _ => None
                            end |}.

(** [/^[A-Z_][A-Z0-9_]{0,127}$/]. *)
Definition env_name (s : jstr) : bool :=
  match s with
  | c :: r => (is_upper c || (c =? 95)) && (length r <=? 127)%nat &&
              forallb (fun c => is_upper c || is_digit c || (c =? 95)) r
  | [] => false
  end.

Section ParsePolicy.
Context {UR : UrlRuntime}.
(** [fresh i] is what [randomId('hook')] returns for the [i]-th hook. *)
Context (fresh : nat -> jstr).

Definition parse_hook (i : nat) (value : jsval) : api HookConfiguration :=
  throw_if negb (isObject value) with INVALID_POLICY ;;
  let id := default (fresh i) (stringValue (field value "id")) in
  let? timeoutSeconds := number_of (field value "timeoutSeconds") in
  let? event := require INVALID_POLICY (enum_value HookEvent (field value "event")) in
  let? mode := require INVALID_POLICY (enum_value PolicyMode (field value "mode")) in
  throw_if negb (valid_timeout timeoutSeconds) with INVALID_POLICY ;;
  let url := stringValue (field value "url") in
  let? _ := match url with
            | None => Ok tt
            | Some u =>
                match parseURL u with
                | None => Err INVALID_POLICY
                | Some parsed =>
                    throw_if negb (jeqb (url_protocol parsed) (js "https:")) ||
                             negb (jeqb (url_username parsed) []) ||
                             negb (jeqb (url_password parsed) [])
                      with INVALID_POLICY ;;
                    Ok tt
                end
            end in
  let secretEnv := stringValue (field value "secretEnv") in
  throw_if (match secretEnv with Some s => negb (env_name s) | None => false end)
    with INVALID_POLICY ;;
  Ok {| hk_id := id; hk_event := event; hk_mode := mode; hk_url := url;
        hk_secretEnv := secretEnv; hk_timeoutSeconds := timeoutSeconds |}.

Fixpoint parse_hook_list (i : nat) (l : list jsval) : api (list HookConfiguration) :=
  match l with
  | [] => Ok []
  | v :: l' =>
      let? h := parse_hook i v in
      let? hs := parse_hook_list (S i) l' in
      Ok (h :: hs)
  end.
Definition parseHooks (raw : jsval) : api (list HookConfiguration) :=
  match raw with
  | JArr l =>
      let? hooks := parse_hook_list 0 l in
      throw_if negb (all_distinct (hk_id <$> hooks)) with INVALID_POLICY ;;
      Ok hooks
  | _ => Err INVALID_POLICY
  end.

Definition parsePolicy (body : jsval) : api Policy :=
  match field body "scanners" with
  | JArr l =>
      let? scanners := map_result parse_scanner_policy l in
      throw_if negb (all_distinct (sp_id <$> scanners)) with INVALID_POLICY ;;
      match field body "allowUnscanned" with
      | JBool allowUnscanned =>
          let? evidenceMaxAgeSeconds := number_of (field body "evidenceMaxAgeSeconds") in
          throw_if negb (num_finite evidenceMaxAgeSeconds) || num_lt evidenceMaxAgeSeconds num_zero
            with INVALID_POLICY ;;
          let? hooks := match field body "hooks" with
                        | JUndef => Ok []
                        | raw => parseHooks raw
                        end in
          Ok {| po_revision := default [] (stringValue (field body "revision"));
                po_scanners := scanners; po_allowUnscanned := allowUnscanned;
                po_evidenceMaxAgeSeconds := evidenceMaxAgeSeconds; po_hooks := Some hooks |}
      | _ => Err INVALID_POLICY
      end
  | _ => Err INVALID_POLICY
  end.
End ParsePolicy.

(** [validatePolicyRuntime] on a policy of the state: the tests the types leave
    open. *)
Definition INTERNAL_STATE_INVALID : RegistryApiError := api_error "INTERNAL_STATE_INVALID" 500.
Fixpoint validate_scanners (seen : list ScannerId) (l : list ScannerPolicy) : api unit :=
  match l with
  | [] => Ok tt
  | s :: l' =>
      throw_if negb (num_finite (sp_timeoutSeconds s)) || num_le (sp_timeoutSeconds s) num_zero ||
               bool_decide (sp_id s ∈ seen)
        with INTERNAL_STATE_INVALID ;;
      validate_scanners (sp_id s :: seen) l'
  end.
Definition validatePolicyRuntime (p : Policy) : api unit :=
  throw_if jeqb (po_revision p) [] || negb (num_finite (po_evidenceMaxAgeSeconds p)) ||
           num_lt (po_evidenceMaxAgeSeconds p) num_zero
    with INTERNAL_STATE_INVALID ;;
  validate_scanners [] (po_scanners p).

(** ** Evidence *)

Section Evidence.
Context {DR : DateRuntime}.

(** [timestampExpired]: an absent, empty or unreadable time has passed. *)
Definition timestampExpired (value : option jstr) (now : Z) : bool :=
  match value with
  | None | Some [] => true
  | Some v => match dateParse v with
              | None => true
              | Some t => t <=? now
              end
  end.

Definition seconds_to_ms (x : spec_float) : spec_float := num_mul x (num_of_Z 1000).
Definition evidenceExpired (r : ScanResult) (maxAgeSeconds : spec_float) (now : Z) : bool :=
  match dateParse (sr_createdAt r) with
  | None => true
  | Some createdAt =>
      (now <? createdAt) ||
      (num_le num_zero maxAgeSeconds &&
       num_lt (seconds_to_ms maxAgeSeconds) (num_of_Z (now - createdAt)))
  end.
Definition evidenceExpiresAt (r : ScanResult) (maxAgeSeconds : spec_float) : option jstr :=
  if negb (num_finite maxAgeSeconds) || num_lt maxAgeSeconds num_zero then None
  else match dateParse (sr_createdAt r) with
       | None => None
       | Some createdAt =>
           match num_trunc (num_add (num_of_Z createdAt) (seconds_to_ms maxAgeSeconds)) with
           | None => None
           | Some t => if valid_time t then Some (toISOString t) else None
           end
       end.

(** The last result of the scanner. *)
Definition latestScanForScanner (results : list ScanResult) (scannerId : ScannerId)
    : option ScanResult :=
  find_first (fun r => bool_decide (sr_scannerId r = scannerId)) (reverse results).

(** ** [evaluatePolicy] *)

Inductive CurrentSkillAdmissionReason : Type :=
| ReasonCurrent
| ReasonPolicyChanged
| ReasonEvidenceMissing
| ReasonEvidenceStale
| ReasonEvidenceIncomplete
| ReasonScanFailed
| ReasonBlockingFinding
| ReasonState (s : DistributionState).

Record PolicyEvaluation : Type := {
  pe_state : DistributionState;
  pe_error : option jstr;
  pe_reason : option CurrentSkillAdmissionReason;
  pe_scannerId : option ScannerId;
  pe_expiresAt : option jstr;
}.

(** [rememberExpiry]: [NaN] compares false. *)
Definition date_lt (a b : jstr) : bool :=
  match dateParse a, dateParse b with
  | Some x, Some y => x <? y
  | _, _ => false
  end.
Definition rememberExpiry (earliest expiresAt : option jstr) : option jstr :=
  match expiresAt with
  | None | Some [] => earliest
  | Some e =>
      match earliest with
      | None | Some [] => Some e
      | Some old => if date_lt e old then Some e else Some old
      end
  end.

Definition blocking (scanner : ScannerPolicy) (r : ScanResult) : bool :=
  existsb (fun f => bool_decide (fi_severity f ∈ sp_blockSeverities scanner)) (sr_findings r).

(** The result of a required scanner that ends the evaluation, if there is one. *)
Definition required_failure (policy : Policy) (fileCount now : Z) (scanner : ScannerPolicy)
    (r : ScanResult) : option PolicyEvaluation :=
  let name := enum_name (sp_id scanner) in
  let expiresAt := evidenceExpiresAt r (po_evidenceMaxAgeSeconds policy) in
  let fail st why reason := Some {|
    pe_state := st;
    pe_error := Some (js "Required scanner " ++ name ++ why);
    pe_reason := Some reason;
    pe_scannerId := Some (sp_id scanner);
    pe_expiresAt := expiresAt |} in
  let cov := sr_coverage r in
  if negb (bool_decide (sr_status r = ScanCompleted)) then
    fail ScanErrorState (js " returned " ++ enum_name (sr_status r)) ReasonScanFailed
  else if evidenceExpired r (po_evidenceMaxAgeSeconds policy) now then
    fail ScanErrorState (js " evidence is stale") ReasonEvidenceStale
  else if (cv_filesEnumerated cov <=? 0) || (cv_filesAnalyzed cov <=? 0) then
    fail ScanErrorState (js " did not analyze any files") ReasonEvidenceIncomplete
  else if (0 <? cv_filesSkipped cov) || (0 <? cv_filesUnsupported cov) ||
          negb (cv_filesAnalyzed cov =? cv_filesEnumerated cov) then
    fail ScanErrorState (js " did not cover every file") ReasonEvidenceIncomplete
  else if blocking scanner r then
    fail Quarantined (js " reported a blocking finding") ReasonBlockingFinding
  else if negb (cv_filesEnumerated cov =? fileCount) then
    fail ScanErrorState (js " did not enumerate every artifact file") ReasonEvidenceIncomplete
  else None.

(** The loop over the required scanners: the first failure, or the earliest
    expiry. *)
Fixpoint evaluate_required (policy : Policy) (relevant : list ScanResult) (fileCount now : Z)
    (earliest : option jstr) (required : list ScannerPolicy)
    : PolicyEvaluation + option jstr :=
  match required with
  | [] => inr earliest
  | scanner :: rest =>
      match latestScanForScanner relevant (sp_id scanner) with
      | None => inl {|
          pe_state := ScanErrorState;
          pe_error := Some (js "Required scanner " ++ enum_name (sp_id scanner) ++
                            js " did not return evidence");
          pe_reason := Some ReasonEvidenceMissing;
          pe_scannerId := Some (sp_id scanner);
          pe_expiresAt := None |}
      | Some r =>
          match required_failure policy fileCount now scanner r with
          | Some failure => inl failure
          | None =>
              evaluate_required policy relevant fileCount now
                (rememberExpiry earliest
                   (evidenceExpiresAt r (po_evidenceMaxAgeSeconds policy))) rest
          end
      end
  end.

Definition relevant_results (policy : Policy) (results : list ScanResult) (digest : jstr)
    : list ScanResult :=
  List.filter (fun r => jeqb (sr_artifactDigest r) digest &&
                        jeqb (sr_policyRevision r) (po_revision policy)) results.
Definition required_scanners (policy : Policy) : list ScannerPolicy :=
  List.filter (fun s => bool_decide (sp_mode s = Required)) (po_scanners policy).
Definition enabled_scanners (policy : Policy) : list ScannerPolicy :=
  List.filter (fun s => negb (bool_decide (sp_mode s = Disabled))) (po_scanners policy).

Definition evaluatePolicy (policy : Policy) (results : list ScanResult) (digest : jstr)
    (fileCount now : Z) : PolicyEvaluation :=
  let relevant := relevant_results policy results digest in
  let required := required_scanners policy in
  let enabled := enabled_scanners policy in
  let approved expiresAt := {|
    pe_state := Approved; pe_error := None; pe_reason := Some ReasonCurrent;
    pe_scannerId := None; pe_expiresAt := expiresAt |} in
  match evaluate_required policy relevant fileCount now None required with
  | inl failure => failure
  | inr earliestRequiredExpiry =>
      match required with
      | _ :: _ => approved (match earliestRequiredExpiry with Some [] => None | o => o end)
      | [] =>
          match enabled with
          | [] =>
              if po_allowUnscanned policy then approved None
              else {| pe_state := ScanErrorState;
                      pe_error := Some (js "No scanner evidence is configured and unscanned distribution is disabled");
                      pe_reason := Some ReasonEvidenceMissing;
                      pe_scannerId := None; pe_expiresAt := None |}
          | _ :: _ =>
              let missingAdvisory := find_first (fun s =>
                negb (existsb (fun r => bool_decide (sr_scannerId r = sp_id s)) relevant)) enabled in
              match missingAdvisory with
              | Some s =>
                  if po_allowUnscanned policy then approved None
                  else {| pe_state := ScanErrorState;
                          pe_error := Some (js "Scanner evidence is incomplete and unscanned distribution is disabled");
                          pe_reason := Some ReasonEvidenceMissing;
                          pe_scannerId := Some (sp_id s); pe_expiresAt := None |}
              | None => approved None
              end
          end
      end
  end.

(** ** Admission of a release *)

Definition scans_of (state : RegistryState) (skill : SkillVersion) : list ScanResult :=
  List.filter (fun scan => bool_decide (sr_id scan ∈ sk_scanIds skill)) (st_scans state).

Definition skillCurrentlyApproved (state : RegistryState) (skill : SkillVersion) (now : Z) : bool :=
  if negb (bool_decide (sk_state skill = Approved)) ||
     negb (jeqb (sk_policyRevision skill) (po_revision (st_policy state)))
  then false
  else bool_decide (pe_state (evaluatePolicy (st_policy state) (scans_of state skill)
         (sb_digest (sk_artifact skill)) (sk_fileCount skill) now) = Approved).

Inductive CurrentSkillAdmissionStatus : Type :=
| StatusCurrent
| StatusNeedsRescan
| StatusUnavailable.
Record CurrentSkillAdmission : Type := {
  ca_allowed : bool;
  ca_status : CurrentSkillAdmissionStatus;
  ca_reason : CurrentSkillAdmissionReason;
  ca_policyRevision : jstr;
  ca_scannerId : option ScannerId;
  ca_expiresAt : option jstr;
}.
Definition non_empty (o : option jstr) : option jstr :=
  match o with
  | Some [] => None
  | _ => o
  end.
Definition getCurrentSkillAdmission (state : RegistryState) (skill : SkillVersion) (now : Z)
    : CurrentSkillAdmission :=
  let policyRevision := po_revision (st_policy state) in
  if negb (bool_decide (sk_state skill = Approved)) then
    {| ca_allowed := false;
       ca_status := if bool_decide (sk_state skill = ScanErrorState) then StatusNeedsRescan
                    else StatusUnavailable;
       ca_reason := ReasonState (sk_state skill); ca_policyRevision := policyRevision;
       ca_scannerId := None; ca_expiresAt := None |}
  else if negb (jeqb (sk_policyRevision skill) policyRevision) then
    {| ca_allowed := false; ca_status := StatusNeedsRescan; ca_reason := ReasonPolicyChanged;
       ca_policyRevision := policyRevision; ca_scannerId := None; ca_expiresAt := None |}
  else
    let evaluation := evaluatePolicy (st_policy state) (scans_of state skill)
      (sb_digest (sk_artifact skill)) (sk_fileCount skill) now in
    if bool_decide (pe_state evaluation = Approved) then
      {| ca_allowed := true; ca_status := StatusCurrent; ca_reason := ReasonCurrent;
         ca_policyRevision := policyRevision; ca_scannerId := None;
         ca_expiresAt := non_empty (pe_expiresAt evaluation) |}
    else
      {| ca_allowed := false;
         ca_status := if bool_decide (pe_state evaluation = Quarantined) then StatusUnavailable
                      else StatusNeedsRescan;
         ca_reason := default ReasonEvidenceMissing (pe_reason evaluation);
         ca_policyRevision := policyRevision; ca_scannerId := pe_scannerId evaluation;
         ca_expiresAt := non_empty (pe_expiresAt evaluation) |}.

(** [getVisibleApprovedSkills]. *)
Definition getVisibleApprovedSkills (state : RegistryState) (principal : Principal) (now : Z)
    : list SkillVersion :=
  List.filter (fun skill => canReadNamespace principal (sk_name skill) &&
                            skillCurrentlyApproved state skill now) (st_skills state).
End Evidence.

(** ** The contract of [evaluatePolicy] *)

(** The last result of a scanner in a list of results. *)
Definition latest_evidence (results : list ScanResult) (id : ScannerId) (r : ScanResult) : Prop :=
  exists before after, results = before ++ r :: after /\ sr_scannerId r = id /\
    Forall (fun x => sr_scannerId x <> id) after.

Section Contract.
Context {DR : DateRuntime}.

(** Evidence that admits an artifact of [fileCount] files: the scan ran to its
    end, is fresh, looked at every file and found nothing that blocks. *)
Record evidence_ok (policy : Policy) (fileCount now : Z) (scanner : ScannerPolicy) (r : ScanResult)
    : Prop := {
  eo_completed : sr_status r = ScanCompleted;
  eo_fresh : evidenceExpired r (po_evidenceMaxAgeSeconds policy) now = false;
  eo_files : 0 < fileCount;
  eo_enumerated : cv_filesEnumerated (sr_coverage r) = fileCount;
  eo_analyzed : cv_filesAnalyzed (sr_coverage r) = fileCount;
  eo_skipped : cv_filesSkipped (sr_coverage r) <= 0;
  eo_unsupported : cv_filesUnsupported (sr_coverage r) <= 0;
  eo_findings : Forall (fun f => fi_severity f ∉ sp_blockSeverities scanner) (sr_findings r);
}.

(** Every required scanner has admitting evidence; where none is required,
    either unscanned distribution is allowed or every enabled scanner, of which
    there is one, has reported. *)
Definition policy_satisfied (policy : Policy) (results : list ScanResult) (digest : jstr)
    (fileCount now : Z) : Prop :=
  let relevant := relevant_results policy results digest in
  (forall s, s ∈ po_scanners policy -> sp_mode s = Required ->
     exists r, latest_evidence relevant (sp_id s) r /\ evidence_ok policy fileCount now s r) /\
  (Forall (fun s => sp_mode s <> Required) (po_scanners policy) ->
     po_allowUnscanned policy = true \/
     (exists s, s ∈ po_scanners policy /\ sp_mode s <> Disabled) /\
     (forall s, s ∈ po_scanners policy -> sp_mode s <> Disabled ->
        exists r, r ∈ relevant /\ sr_scannerId r = sp_id s)).

Lemma latestScanForScanner_spec results id r :
  latestScanForScanner results id = Some r <-> latest_evidence results id r.
Proof.
  unfold latestScanForScanner, latest_evidence.
  induction results as [|x results IH] using rev_ind.
  { cbn. split; [done|]. intros (b & a & Heq & _). by destruct b. }
  rewrite reverse_app. cbn [reverse rev_append app]. change (reverse [x]) with [x].
  cbn [app find_first].
  destruct (bool_decide (sr_scannerId x = id)) eqn:E; bool_inv.
  - split.
    + intros [= <-]. exists results, []. eauto.
    + intros (b & a & Heq & Hr & Ha). destruct a as [|y a] using rev_ind.
      * apply app_inj_tail in Heq as [_ ->]. done.
      * rewrite app_comm_cons, app_assoc in Heq. apply app_inj_tail in Heq as [_ <-].
        apply Forall_app in Ha as [_ Ha]. by inversion Ha.
  - rewrite IH. split.
    + intros (b & a & -> & Hr & Ha). exists b, (a ++ [x]).
      rewrite app_comm_cons, app_assoc. split; [done|]. split; [done|].
      apply Forall_app. split; [done|]. by constructor.
    + intros (b & a & Heq & Hr & Ha). destruct a as [|y a _] using rev_ind.
      * apply app_inj_tail in Heq as [_ <-]. done.
      * rewrite app_comm_cons, app_assoc in Heq. apply app_inj_tail in Heq as [-> <-].
        apply Forall_app in Ha as [Ha _]. eauto.
Qed.

Lemma blocking_false scanner r :
  blocking scanner r = false <->
  Forall (fun f => fi_severity f ∉ sp_blockSeverities scanner) (sr_findings r).
Proof.
  unfold blocking. induction (sr_findings r) as [|f l IH]; cbn; [split; [constructor|done]|].
  rewrite orb_false_iff, bool_decide_eq_false, IH, Forall_cons. done.
Qed.

Lemma required_failure_None policy fileCount now scanner r :
  required_failure policy fileCount now scanner r = None <->
  evidence_ok policy fileCount now scanner r.
Proof.
  unfold required_failure. split.
  - intros H. repeat (case_match; [done|]). bool_inv.
    split; try done; try lia. by apply blocking_false.
  - intros [H1 H2 H3 H4 H5 H6 H7 H8%blocking_false].
    rewrite bool_decide_true, H2, H4, H5, H8, Z.eqb_refl by done. cbn [negb orb].
    rewrite (proj2 (Z.leb_gt fileCount 0)), (proj2 (Z.ltb_ge 0 _)), (proj2 (Z.ltb_ge 0 _)) by lia.
    done.
Qed.

(** What ends the evaluation of a required scanner. *)
Lemma required_failure_Some policy fileCount now scanner r e :
  required_failure policy fileCount now scanner r = Some e ->
  pe_scannerId e = Some (sp_id scanner) /\
  (pe_state e = ScanErrorState \/ pe_state e = Quarantined /\ blocking scanner r = true).
Proof. unfold required_failure. intros H. repeat case_match; simplify_eq; cbn; eauto. Qed.

Lemma evaluate_required_inr policy relevant fileCount now earliest required :
  (exists e, evaluate_required policy relevant fileCount now earliest required = inr e) <->
  Forall (fun s => exists r, latest_evidence relevant (sp_id s) r /\
                             evidence_ok policy fileCount now s r) required.
Proof.
  revert earliest. induction required as [|s required IH]; intros earliest; cbn [evaluate_required].
  { split; [constructor | eauto]. }
  rewrite Forall_cons.
  destruct (latestScanForScanner relevant (sp_id s)) as [r|] eqn:E.
  - destruct (required_failure policy fileCount now s r) as [f|] eqn:F.
    + split; [by intros [? [=]]|]. intros [(r' & Hl & Hok) _].
      apply latestScanForScanner_spec in Hl. apply required_failure_None in Hok. congruence.
    + rewrite IH. apply latestScanForScanner_spec in E. apply required_failure_None in F. split; eauto.
      intros [_ ?]. done.
  - split; [by intros [? [=]]|]. intros [(r' & Hl & Hok) _].
    apply latestScanForScanner_spec in Hl. congruence.
Qed.

Lemma evaluate_required_inl policy relevant fileCount now earliest required e :
  evaluate_required policy relevant fileCount now earliest required = inl e ->
  exists s, s ∈ required /\ pe_scannerId e = Some (sp_id s) /\
    (pe_state e = ScanErrorState \/
     pe_state e = Quarantined /\
     exists r, latest_evidence relevant (sp_id s) r /\ blocking s r = true).
Proof.
  revert earliest. induction required as [|s required IH]; intros earliest; cbn [evaluate_required];
    [done|].
  destruct (latestScanForScanner relevant (sp_id s)) as [r|] eqn:E.
  - destruct (required_failure policy fileCount now s r) as [f|] eqn:F.
    + intros [= ->]. apply required_failure_Some in F as (Hid & Hs).
      apply latestScanForScanner_spec in E. exists s. split; [by left|]. split; [done|].
      destruct Hs as [?|[? ?]]; [by left|]. right. eauto.
    + intros (s' & Hin & Hrest)%IH. exists s'. split; [by right | done].
  - intros [= <-]. exists s. split; [by left|]. cbn. eauto.
Qed.

Lemma elem_of_required policy s :
  s ∈ required_scanners policy <-> s ∈ po_scanners policy /\ sp_mode s = Required.
Proof. unfold required_scanners. by rewrite elem_of_List_filter, bool_decide_eq_true. Qed.
Lemma elem_of_enabled policy s :
  s ∈ enabled_scanners policy <-> s ∈ po_scanners policy /\ sp_mode s <> Disabled.
Proof.
  unfold enabled_scanners. by rewrite elem_of_List_filter, negb_true_iff, bool_decide_eq_false.
Qed.

End Contract.

Section Theorems.
Context {DR : DateRuntime}.

Lemma evaluatePolicy_spec policy results digest fileCount now :
  pe_state (evaluatePolicy policy results digest fileCount now) = Approved <->
  policy_satisfied policy results digest fileCount now.
Proof.
  unfold evaluatePolicy, policy_satisfied.
  set (relevant := relevant_results policy results digest).
  pose proof (evaluate_required_inr policy relevant fileCount now None (required_scanners policy)) as Hr.
  rewrite Forall_forall in Hr. setoid_rewrite elem_of_required in Hr.
  destruct (evaluate_required _ _ _ _ _ _) as [e|expiry] eqn:E.
  { apply evaluate_required_inl in E as (s & _ & _ & Hs). split.
    - intros Ha. destruct Hs as [Hs|[Hs _]]; congruence.
    - intros [Hreq _]. destruct Hr as [_ Hr]. destruct Hr as [e' [=]].
      intros s' [Hin Hm]. by apply Hreq. }
  assert (Hreq : forall s, s ∈ po_scanners policy -> sp_mode s = Required ->
            exists r, latest_evidence relevant (sp_id s) r /\ evidence_ok policy fileCount now s r).
  { intros s Hin Hm. apply Hr; eauto. }
  destruct (required_scanners policy) as [|s0 rest] eqn:Ereq.
  2: { split; [|done]. intros _. split; [done|]. intros Hnone. exfalso.
       assert (Hs0 : s0 ∈ required_scanners policy) by (rewrite Ereq; by left).
       apply elem_of_required in Hs0 as [Hin Hm]. rewrite Forall_forall in Hnone.
       by apply (Hnone s0). }
  assert (Hnone : Forall (fun s => sp_mode s <> Required) (po_scanners policy)).
  { apply Forall_forall. intros s Hin Hm.
    assert (Hs : s ∈ required_scanners policy) by (by apply elem_of_required).
    rewrite Ereq in Hs. by apply not_elem_of_nil in Hs. }
  pose proof (elem_of_enabled policy) as Hen.
  destruct (enabled_scanners policy) as [|e0 enabled] eqn:Een.
  - destruct (po_allowUnscanned policy) eqn:Eu; cbn; split; try done; [by eauto|].
    intros [_ [Hf|[(s & Hin & Hm) _]]]; [done|done|]. exfalso.
    eapply not_elem_of_nil, Hen. eauto.
  - destruct (find_first _ _) as [s|] eqn:Ef.
    + apply find_first_Some in Ef as [Hin Hmiss]. apply Hen in Hin as [Hin Hm].
      destruct (po_allowUnscanned policy) eqn:Eu; cbn; split; try done; [by eauto|].
      intros [_ [Hf|[_ Hall]]]; [done|done|]. exfalso.
      destruct (Hall s Hin Hm) as (r & Hr1 & Hr2).
      apply negb_true_iff, not_true_iff_false in Hmiss. apply Hmiss, existsb_elem.
      exists r. by rewrite bool_decide_eq_true.
    + cbn. split; [|done]. intros _. split; [done|]. intros _. right. split.
      { exists e0. apply Hen. by left. }
      intros s Hin Hm. apply find_first_None in Ef. rewrite Forall_forall in Ef.
      assert (Hs : s ∈ e0 :: enabled) by (apply Hen; eauto).
      apply Ef, negb_false_iff, existsb_elem in Hs as (r & Hr1 & Hr2).
      exists r. by apply bool_decide_eq_true in Hr2.
Qed.

Lemma required_failure_reason policy fileCount now scanner r e :
  required_failure policy fileCount now scanner r = Some e -> pe_reason e <> Some ReasonCurrent.
Proof. unfold required_failure. intros H. repeat case_match; simplify_eq; done. Qed.

Lemma evaluatePolicy_reasons policy results digest fileCount now :
  default ReasonEvidenceMissing (pe_reason (evaluatePolicy policy results digest fileCount now)) =
    ReasonCurrent ->
  pe_state (evaluatePolicy policy results digest fileCount now) = Approved.
Proof.
  unfold evaluatePolicy.
  destruct (evaluate_required _ _ _ _ _ _) as [e|expiry] eqn:E.
  - intros Hr. exfalso. revert E. generalize (@None jstr) as earliest.
    induction (required_scanners policy) as [|s l IH]; intros earliest; cbn [evaluate_required]; [done|].
    repeat case_match; intros Heq; simplify_eq; eauto.
    eapply required_failure_reason; [eassumption|]. by destruct (pe_reason e); cbn in Hr; subst.
  - repeat case_match; done.
Qed.

(** C36. [evaluatePolicy] approves exactly when its contract is satisfied: each
    required scanner's latest result for this artifact and this policy revision
    is a completed, fresh scan that analyzed every file and reports no blocking
    finding, and without required scanners the registry has opted in to
    unscanned distribution or every enabled scanner has reported. *)
Theorem evaluatePolicy_approves_iff (policy : Policy) (results : list ScanResult) (digest : jstr)
    (fileCount now : Z) :
  pe_state (evaluatePolicy policy results digest fileCount now) = Approved <->
  policy_satisfied policy results digest fileCount now.
Proof. apply evaluatePolicy_spec. Qed.

(** A verdict other than approval is a scan error or a quarantine, and a
    quarantine has a required scanner whose latest result reports a finding the
    policy blocks: no other verdict, and no quarantine without a cause. *)
Theorem evaluatePolicy_verdicts (policy : Policy) (results : list ScanResult) (digest : jstr)
    (fileCount now : Z) :
  let e := evaluatePolicy policy results digest fileCount now in
  pe_state e = Approved \/ pe_state e = ScanErrorState \/
  pe_state e = Quarantined /\
  exists s r, s ∈ po_scanners policy /\ sp_mode s = Required /\ pe_scannerId e = Some (sp_id s) /\
    latest_evidence (relevant_results policy results digest) (sp_id s) r /\
    exists f, f ∈ sr_findings r /\ fi_severity f ∈ sp_blockSeverities s.
Proof.
  unfold evaluatePolicy. cbv zeta.
  destruct (evaluate_required _ _ _ _ _ _) as [e|expiry] eqn:E.
  - apply evaluate_required_inl in E as (s & Hin & Hid & [Hs|(Hs & r & Hl & Hb)]); [by eauto|].
    right; right. split; [done|]. apply elem_of_required in Hin as [Hin Hm].
    unfold blocking in Hb. apply existsb_elem in Hb as (f & Hf & Hsev).
    apply bool_decide_eq_true in Hsev. exists s, r. eauto 10.
  - repeat case_match; cbn; eauto.
Qed.

(** The admission the catalog shows is the admission the artifact gates apply. *)
Lemma skillCurrentlyApproved_iff state skill now :
  skillCurrentlyApproved state skill now = true <->
  sk_state skill = Approved /\ sk_policyRevision skill = po_revision (st_policy state) /\
  pe_state (evaluatePolicy (st_policy state) (scans_of state skill)
    (sb_digest (sk_artifact skill)) (sk_fileCount skill) now) = Approved.
Proof.
  unfold skillCurrentlyApproved.
  destruct (bool_decide (sk_state skill = Approved)) eqn:E1; bool_inv; cbn [negb orb];
    [|by split; [|intros [? _]]].
  destruct (jeqb _ _) eqn:E2; cbn [negb].
  - apply jeqb_true in E2. rewrite bool_decide_eq_true. tauto.
  - apply jeqb_false in E2. split; [done | tauto].
Qed.

(** The catalog row and the artifact gates agree: [getCurrentSkillAdmission]
    allows a release exactly when [skillCurrentlyApproved] does, which is when
    the release is approved under the current policy revision and its evidence
    satisfies the policy now; and it says [current] for no other release. *)
Theorem admission_agrees (state : RegistryState) (skill : SkillVersion) (now : Z) :
  let admission := getCurrentSkillAdmission state skill now in
  ca_allowed admission = skillCurrentlyApproved state skill now /\
  (ca_allowed admission = true <->
     sk_state skill = Approved /\ sk_policyRevision skill = po_revision (st_policy state) /\
     policy_satisfied (st_policy state) (scans_of state skill) (sb_digest (sk_artifact skill))
       (sk_fileCount skill) now) /\
  (ca_status admission = StatusCurrent <-> ca_allowed admission = true) /\
  (ca_reason admission = ReasonCurrent -> ca_allowed admission = true).
Proof.
  cbv zeta.
  assert (Ha : ca_allowed (getCurrentSkillAdmission state skill now) =
               skillCurrentlyApproved state skill now).
  { unfold getCurrentSkillAdmission, skillCurrentlyApproved.
    destruct (bool_decide (sk_state skill = Approved)); cbn [negb orb]; [|done].
    destruct (jeqb _ _); cbn [negb]; [|done]. by case_match. }
  split; [done|]. split.
  { by rewrite Ha, skillCurrentlyApproved_iff, evaluatePolicy_spec. }
  unfold getCurrentSkillAdmission.
  pose proof (evaluatePolicy_reasons (st_policy state) (scans_of state skill)
    (sb_digest (sk_artifact skill)) (sk_fileCount skill) now) as Hr.
  destruct (negb (bool_decide (sk_state skill = Approved))); cbn; [by repeat case_match|].
  destruct (negb _); cbn; [done|].
  destruct (bool_decide (pe_state _ = Approved)) eqn:E; cbn; [done|]. bool_inv.
  split; [by case_match|]. intros Hc. exfalso. by apply E, Hr.
Qed.
End Theorems.

(** ** Cloning and extending *)

Section Cloning.
Context {DR : DateRuntime}.

Lemma num_le_clone x : num_le num_zero (num_clone x) = num_le num_zero x.
Proof. by destruct x. Qed.
Lemma num_lt_clone x : num_lt (num_clone x) num_zero = num_lt x num_zero.
Proof. by destruct x. Qed.
Lemma num_finite_clone x : num_finite (num_clone x) = num_finite x.
Proof. by destruct x. Qed.
Lemma seconds_clone_lt x y :
  num_lt (seconds_to_ms (num_clone x)) y = num_lt (seconds_to_ms x) y.
Proof. by destruct x. Qed.
Lemma seconds_clone_trunc t x :
  num_trunc (num_add t (seconds_to_ms (num_clone x))) = num_trunc (num_add t (seconds_to_ms x)).
Proof.
  destruct x as [s| | |]; try done. unfold seconds_to_ms, num_mul, num_add.
  destruct s, t as [s'| | |]; try done; by destruct s'.
Qed.

Lemma evidenceExpired_clone r x now : evidenceExpired r (num_clone x) now = evidenceExpired r x now.
Proof.
  unfold evidenceExpired. destruct (dateParse _); [|done].
  by rewrite num_le_clone, seconds_clone_lt.
Qed.
Lemma evidenceExpiresAt_clone r x : evidenceExpiresAt r (num_clone x) = evidenceExpiresAt r x.
Proof.
  unfold evidenceExpiresAt. rewrite num_finite_clone, num_lt_clone.
  destruct (_ || _); [done|]. destruct (dateParse _); [|done]. by rewrite seconds_clone_trunc.
Qed.

Lemma filter_map {A B} (g : A -> B) (f : B -> bool) (l : list A) :
  List.filter f (map g l) = map g (List.filter (fun x => f (g x)) l).
Proof. induction l as [|x l IH]; cbn; [done|]. rewrite IH. by destruct (f (g x)). Qed.

Lemma required_failure_clone policy fileCount now scanner r :
  required_failure (clonePolicy policy) fileCount now (clone_scanner scanner) r =
  required_failure policy fileCount now scanner r.
Proof.
  unfold required_failure. cbn [clonePolicy clone_scanner po_evidenceMaxAgeSeconds sp_id].
  by rewrite evidenceExpired_clone, evidenceExpiresAt_clone.
Qed.
Lemma evaluate_required_clone policy relevant fileCount now earliest required :
  evaluate_required (clonePolicy policy) relevant fileCount now earliest (map clone_scanner required) =
  evaluate_required policy relevant fileCount now earliest required.
Proof.
  revert earliest; induction required as [|s l IH]; intros earliest; cbn [evaluate_required map]; [done|].
  cbn [clone_scanner sp_id]. destruct (latestScanForScanner _ _); [|done].
  rewrite <- (required_failure_clone policy). destruct (required_failure _ _ _ _ _); [done|].
  rewrite IH. cbn [clonePolicy po_evidenceMaxAgeSeconds]. by rewrite evidenceExpiresAt_clone.
Qed.

(** The copy of a policy kept with a job gives the verdicts of the policy. *)
Lemma evaluatePolicy_clone policy results digest fileCount now :
  evaluatePolicy (clonePolicy policy) results digest fileCount now =
  evaluatePolicy policy results digest fileCount now.
Proof.
  unfold evaluatePolicy.
  change (relevant_results (clonePolicy policy) results digest)
    with (relevant_results policy results digest).
  assert (Hreq : required_scanners (clonePolicy policy) = map clone_scanner (required_scanners policy))
    by apply filter_map.
  assert (Hen : enabled_scanners (clonePolicy policy) = map clone_scanner (enabled_scanners policy))
    by exact (filter_map clone_scanner (fun s => negb (bool_decide (sp_mode s = Disabled))) _).
  rewrite Hreq, Hen, evaluate_required_clone. cbn [clonePolicy po_allowUnscanned].
  destruct (evaluate_required _ _ _ _ _ _); [done|].
  destruct (required_scanners policy); [|done].
  generalize (relevant_results policy results digest) as relevant. intros relevant.
  enough (Hf : forall l, find_first (fun s : ScannerPolicy =>
            negb (existsb (fun r => bool_decide (sr_scannerId r = sp_id s)) relevant)) (map clone_scanner l) =
          option_map clone_scanner (find_first (fun s : ScannerPolicy =>
            negb (existsb (fun r => bool_decide (sr_scannerId r = sp_id s)) relevant)) l)).
  { destruct (enabled_scanners policy) as [|s l]; [done|]. cbn [map].
    change (clone_scanner s :: map clone_scanner l) with (map clone_scanner (s :: l)).
    rewrite Hf. by destruct (find_first _ _). }
  intros l. induction l as [|s l IH]; [done|]. cbn [map find_first].
  change (sp_id (clone_scanner s)) with (sp_id s). by destruct (negb _).
Qed.

(** Earlier results never take an approval away: the latest ones decide. *)
Lemma evaluatePolicy_extend policy old new digest fileCount now :
  pe_state (evaluatePolicy policy new digest fileCount now) = Approved ->
  pe_state (evaluatePolicy policy (old ++ new) digest fileCount now) = Approved.
Proof.
  rewrite !evaluatePolicy_spec. unfold policy_satisfied.
  assert (Happ : relevant_results policy (old ++ new) digest =
                 relevant_results policy old digest ++ relevant_results policy new digest)
    by (unfold relevant_results; apply List.filter_app).
  rewrite Happ. intros [Hreq Hadv]. split.
  - intros s Hin Hm. destruct (Hreq s Hin Hm) as (r & (b & a & Heq & Hid & Ha) & Hok).
    exists r. split; [|done]. exists (relevant_results policy old digest ++ b), a.
    rewrite Heq. by rewrite <- app_assoc.
  - intros Hnone. destruct (Hadv Hnone) as [?|[Hex Hall]]; [by left|]. right.
    split; [done|]. intros s Hin Hm. destruct (Hall s Hin Hm) as (r & Hr & Hid).
    exists r. rewrite elem_of_app. eauto.
Qed.
End Cloning.

(** ** Parsed policies are valid *)

Lemma require_Ok {E A} (e : E) (o : option A) a : require e o = Ok a -> o = Some a.
Proof. destruct o; cbn; congruence. Qed.

Lemma validate_scanners_ok seen l :
  Forall (fun s => num_finite (sp_timeoutSeconds s) = true /\
                   num_le (sp_timeoutSeconds s) num_zero = false) l ->
  NoDup (sp_id <$> l) -> (forall s, s ∈ l -> sp_id s ∉ seen) ->
  validate_scanners seen l = Ok tt.
Proof.
  intros Hl. revert seen. induction Hl as [|s l [Hf Hz] _ IH]; intros seen Hnd Hseen;
    cbn [validate_scanners]; [done|].
  rewrite Hf, Hz, bool_decide_false by (apply Hseen; by left). cbn [negb orb].
  rewrite fmap_cons, NoDup_cons in Hnd. destruct Hnd as [Hs Hnd].
  apply IH; [done|]. intros s' Hin. rewrite not_elem_of_cons. split.
  - intros Heq. apply Hs. rewrite <- Heq. by apply list_elem_of_fmap_2.
  - apply Hseen. by right.
Qed.

Lemma parse_scanner_policy_ok raw s :
  parse_scanner_policy raw = Ok s ->
  num_finite (sp_timeoutSeconds s) = true /\ num_le (sp_timeoutSeconds s) num_zero = false.
Proof.
  unfold parse_scanner_policy. intros H. ok_inv. cbn. apply negb_false_iff in G0.
  unfold valid_timeout in G0. by bool_inv.
Qed.

(** A policy a caller submits is stored only in a form the registry can work
    with: whatever [parsePolicy] accepts passes the check [readState] applies
    to the stored policy, under every revision the server gives it; hooks with
    a URL use HTTPS without credentials. *)
Theorem parsePolicy_valid {UR : UrlRuntime} (fresh : nat -> jstr) (body : jsval) (p : Policy)
    (revision : jstr) :
  parsePolicy fresh body = Ok p -> revision <> [] ->
  validatePolicyRuntime (with_po_revision revision p) = Ok tt /\
  Forall (fun h => forall u, hk_url h = Some u ->
            exists parsed, parseURL u = Some parsed /\ url_protocol parsed = js "https:" /\
              url_username parsed = [] /\ url_password parsed = [])
    (default [] (po_hooks p)).
Proof.
  unfold parsePolicy. intros H Hrev.
  destruct (field body "scanners") as [| | | | | l |]; try done. ok_inv.
  destruct (field body "allowUnscanned"); try done. ok_inv. bool_inv.
  apply all_distinct_NoDup in G.
  apply map_result_Ok_Forall2 in E. cbn. split.
  - unfold validatePolicyRuntime. cbn [with_po_revision po_revision po_evidenceMaxAgeSeconds po_scanners].
    rewrite (proj2 (jeqb_false revision []) Hrev). rewrite H, G0. cbn [negb orb].
    apply validate_scanners_ok; [|done | intros; apply not_elem_of_nil].
    clear -E. induction E as [|x y xs ys Hx _ IH]; constructor; [|done].
    by eapply parse_scanner_policy_ok.
  - destruct (field body "hooks"); ok_inv; try constructor; cbn [parseHooks] in E1; try done.
    ok_inv. clear -E2. revert E2. generalize 0%nat as i.
    induction l0 as [|v vs IH] in a1 |- *; intros i Hp; cbn [parse_hook_list] in Hp; ok_inv;
      [constructor|]. constructor; [|by eapply IH].
    clear -E. unfold parse_hook in E. ok_inv. cbn [hk_url]. intros u Hu. rewrite Hu in E3.
    destruct (parseURL u) as [parsed|]; [|done]. ok_inv. bool_inv.
    exists parsed. jeqb_inv.
    done.
Qed.

(** A policy document as an administrator would submit it. *)
Definition demo_policy_body : jsval := JObj [
  (js "scanners", JArr [JObj [
     (js "id", JStr (js "skillsguard")); (js "mode", JStr (js "required"));
     (js "blockSeverities", JArr [JStr (js "high"); JStr (js "critical")]);
     (js "timeoutSeconds", JNum (num_of_Z 120))]]);
  (js "allowUnscanned", JBool false);
  (js "evidenceMaxAgeSeconds", JNum (num_of_Z 86400))].
Definition demo_policy : Policy := {|
  po_revision := js "policy-1";
  po_scanners := [{| sp_id := Skillsguard; sp_mode := Required;
                     sp_blockSeverities := [High; Critical];
                     sp_timeoutSeconds := num_of_Z 120; sp_configuration := None |}];
  po_allowUnscanned := false;
  po_evidenceMaxAgeSeconds := num_of_Z 86400;
  po_hooks := Some [];
|}.
Definition no_urls : UrlRuntime := {| parseURL _ := None |}.
Definition no_ids : nat -> jstr := fun _ => js "hook_1".

Lemma parsePolicy_valid_witness :
  validatePolicyRuntime (with_po_revision (js "policy-1") demo_policy) = Ok tt.
Proof.
  apply (parsePolicy_valid (UR := no_urls) no_ids demo_policy_body (with_po_revision [] demo_policy)
           (js "policy-1")); [vm_compute; reflexivity | discriminate].
Defined.
