(* ===== verification/Resolve.v ===== *)
(** * Resolution of names to installable releases

    [resolveResource] and its callers of packages/core/src/index.ts: from a
    reference to an approved skill, or to a pack all of whose members are
    approved, that the principal may read.  [now] is the [Date.now()] of the
    synchronous call. *)

From Stdlib Require Import ZArith Lia.
From stdpp Require Import base list strings sets.
From S2P Require Import Prelude Js Dates Contracts Web Access Names PolicyEval.

Local Open Scope Z_scope.

(** [state.skills.find((candidate) => candidate.id === id)] and the like. *)
Definition find_skill (state : RegistryState) (id : jstr) : option SkillVersion :=
  find_first (fun s => jeqb (sk_id s) id) (st_skills state).
Definition find_job (state : RegistryState) (id : jstr) : option Job :=
  find_first (fun j => jeqb (jb_id j) id) (st_jobs state).
(** An optional string that is present and not empty. *)
Definition truthy (o : option jstr) : option jstr := non_empty o.

Definition skillResolution (skill : SkillVersion) : Resolution := {|
  rs_kind := KSkill;
  rs_resourceId := sk_id skill;
  rs_organizationId := sk_organizationId skill;
  rs_name := sk_name skill;
  rs_version := sk_version skill;
  rs_digest := sb_digest (sk_artifact skill);
  rs_members := [skill];
|}.

(** ** Visibility *)

Definition jobVisibleToPrincipal (job : Job) (state : RegistryState) (principal : Principal) : bool :=
  if hasRole principal Owner || hasRole principal Admin then true
  else match truthy (jb_resourceId job) with
       | Some id => match find_skill state id with
                    | Some skill => canReadNamespace principal (sk_name skill)
                    | None => false
                    end
       | None =>
           match jb_import job with
           | None => false
           | Some import =>
               match truthy (iq_externalId import), truthy (iq_sourceReference import) with
               | None, None => canPublishName principal (iq_name import)
               | _, _ => canReadNamespace principal (iq_name import)
               end
           end
       end.

Definition packVisibleToPrincipal (pack : PackVersion) (state : RegistryState) (principal : Principal)
    : bool :=
  if negb (canReadNamespace principal (pk_name pack)) then false
  else if hasRole principal Owner || hasRole principal Admin then true
  else forallb (fun member => match find_skill state (pm_resourceId member) with
                              | Some skill => canReadNamespace principal (sk_name skill)
                              | None => false
                              end) (pk_members pack).

(** ** [resolveResource] *)

Inductive ResolveResult : Type :=
| Resolved (resource : SkillVersion + PackVersion) (resolution : Resolution)
| PendingOn (job : Job)
| Unavailable.

Section Resolve.
Context {DR : DateRuntime} {CO : Collation}.
Context (state : RegistryState) (principal : Principal) (now : Z).

Definition skill_matches (ref : jstr) (skill : SkillVersion) : bool :=
  canReadNamespace principal (sk_name skill) &&
  (jeqb (sk_id skill) ref || jeqb (sk_name skill) ref || jeqb (sk_skillName skill) ref).
Definition version_matches (version : option jstr) (v : jstr) : bool :=
  match version with
  | None => true
  | Some w => jeqb v w
  end.

(** The scan or import the caller has to wait for when nothing matches. *)
Definition pending_scan (ref : jstr) (version : option jstr) (job : Job) : bool :=
  match truthy (jb_resourceId job) with
  | Some id =>
      bool_decide (jb_kind job = ScanJob) &&
      match find_skill state id with
      | Some skill => canReadNamespace principal (sk_name skill) &&
                      (jeqb (sk_id skill) ref || jeqb (sk_name skill) ref) &&
                      version_matches version (sk_version skill)
      | None => false
      end
  | None => false
  end.
Definition pending_import (ref : jstr) (version : option jstr) (job : Job) : bool :=
  (bool_decide (jb_state job = JQueued) || bool_decide (jb_state job = JRunning)) &&
  bool_decide (jb_kind job = ImportJob) &&
  match jb_import job with
  | Some import => canPublishName principal (iq_name import) && jeqb (iq_name import) ref &&
                   version_matches version (iq_version import)
  | None => false
  end.

Definition resolve_skill (ref : jstr) (version : option jstr) : ResolveResult :=
  let candidates := List.filter (skill_matches ref) (st_skills state) in
  match chooseVersion sk_version candidates version with
  | None =>
      match find_first (pending_scan ref version) (st_jobs state) with
      | Some job => PendingOn job
      | None => match find_first (pending_import ref version) (st_jobs state) with
                | Some job => PendingOn job
                | None => Unavailable
                end
      end
  | Some selected =>
      if bool_decide (sk_state selected = Pending) then
        match find_first (fun j => bool_decide (jb_resourceId j = Some (sk_id selected)) &&
                                   bool_decide (jb_kind j = ScanJob)) (st_jobs state) with
        | Some job => PendingOn job
        | None => Unavailable
        end
      else if negb (skillCurrentlyApproved state selected now) then Unavailable
      else Resolved (inl selected) (skillResolution selected)
  end.

(** The loop over the members of a pack: [None] when one is not installable. *)
Fixpoint pack_members (members : list PackMember) : option (list SkillVersion) :=
  match members with
  | [] => Some []
  | member :: rest =>
      match find_skill state (pm_resourceId member) with
      | None => None
      | Some skill =>
          if negb (skillCurrentlyApproved state skill now) ||
             negb (jeqb (sb_digest (sk_artifact skill)) (pm_digest member)) ||
             negb (canReadNamespace principal (sk_name skill))
          then None
          else match pack_members rest with
               | Some skills => Some (skill :: skills)
               | None => None
               end
      end
  end.
Definition pack_matches (ref : jstr) (pack : PackVersion) : bool :=
  canReadNamespace principal (pk_name pack) &&
  (jeqb (pk_id pack) ref || jeqb (pk_name pack) ref).
Definition packResolution (pack : PackVersion) (members : list SkillVersion) : Resolution := {|
  rs_kind := KPack;
  rs_resourceId := pk_id pack;
  rs_organizationId := pk_organizationId pack;
  rs_name := pk_name pack;
  rs_version := pk_version pack;
  rs_digest := pk_manifestDigest pack;
  rs_members := members;
|}.
Definition resolve_pack (ref : jstr) (version : option jstr) : ResolveResult :=
  let candidates := List.filter (pack_matches ref) (st_packs state) in
  match chooseVersion pk_version candidates version with
  | None => Unavailable
  | Some selected =>
      if negb (bool_decide (pk_state selected = PackApproved)) ||
         negb (jeqb (pk_policyRevision selected) (po_revision (st_policy state)))
      then Unavailable
      else match pack_members (pk_members selected) with
           | None => Unavailable
           | Some members => Resolved (inr selected) (packResolution selected members)
           end
  end.

Definition resolveResource (kind : ResourceKind) (ref : jstr) (version : option jstr)
    : ResolveResult :=
  match kind with
  | KSkill => resolve_skill ref version
  | KPack => resolve_pack ref version
  end.

(** ** Comparing resolutions *)

Definition sameMember (member other : SkillVersion) : bool :=
  jeqb (sk_id member) (sk_id other) && jeqb (sk_name member) (sk_name other) &&
  jeqb (sb_digest (sk_artifact member)) (sb_digest (sk_artifact other)) &&
  jeqb (sk_version member) (sk_version other).
Fixpoint sameMembers (a b : list SkillVersion) : bool :=
  match a, b with
  | [], [] => true
  | m :: a', o :: b' => sameMember m o && sameMembers a' b'
  | _, _ => false
  end.
Definition sameResolution (a b : Resolution) : bool :=
  bool_decide (rs_kind a = rs_kind b) && jeqb (rs_resourceId a) (rs_resourceId b) &&
  jeqb (rs_organizationId a) (rs_organizationId b) && jeqb (rs_name a) (rs_name b) &&
  jeqb (rs_version a) (rs_version b) && jeqb (rs_digest a) (rs_digest b) &&
  sameMembers (rs_members a) (rs_members b).

Definition assertCurrentResolution (resolution : Resolution) : api unit :=
  match resolveResource (rs_kind resolution) (rs_resourceId resolution)
          (Some (rs_version resolution)) with
  | Resolved _ current =>
      throw_if negb (sameResolution current resolution) with api_error "POLICY_BLOCKED" 409 ;;
      Ok tt
  | _ => Err (api_error "POLICY_BLOCKED" 409)
  end.

(** ** Requests for a resolution *)

Definition request_kind (v : jsval) : api ResourceKind :=
  match enum_value ResourceKind v with
  | Some k => Ok k
  | None => Err (api_error "INVALID_RESOLUTION" 400)
  end.
Definition optional_version (v : jsval) : api (option jstr) :=
  match v with
  | JUndef => Ok None
  | _ => let? version := requireVersion v in Ok (Some version)
  end.

(** The answer of [resolveRoute]: the operation to wait for, or the
    resolution. *)
Definition resolveRoute (body : jsval) : api (Job + Resolution) :=
  let? kind := request_kind (field body "kind") in
  match stringValue (field body "ref") with
  | None => Err (api_error "INVALID_RESOLUTION" 400)
  | Some ref =>
      let? version := optional_version (field body "version") in
      match resolveResource kind ref version with
      | PendingOn job => Ok (inl job)
      | Resolved _ resolution => Ok (inr resolution)
      | Unavailable => Err unavailable
      end
  end.

(** One entry of a supplied plan against the current member. *)
Definition supplied_member_matches (raw : jsval) (member : SkillVersion) : bool :=
  let supplied (k : string) (v : jstr) := bool_decide (stringValue (field raw k) = Some v) in
  supplied "id" (sk_id member) && supplied "name" (sk_name member) &&
  supplied "version" (sk_version member) &&
  bool_decide (stringValue (field (field raw "artifact") "digest") =
               Some (sb_digest (sk_artifact member))).
Fixpoint check_members (raw : list jsval) (members : list SkillVersion) : api unit :=
  match raw with
  | [] => Ok tt
  | r :: raw' =>
      throw_if negb (isObject r) with api_error "INVALID_RESOLUTION" 400 ;;
      match members with
      | m :: members' =>
          throw_if negb (supplied_member_matches r m) with api_error "DIGEST_MISMATCH" 409 ;;
          check_members raw' members'
      | [] => Err (api_error "DIGEST_MISMATCH" 409)
      end
  end.

Definition resolveRequestedResolution (requested : jsval) : api Resolution :=
  let? kind := request_kind (field requested "kind") in
  match (match stringValue (field requested "ref") with
         | Some ref => Some ref
         | None => stringValue (field requested "resourceId")
         end) with
  | None => Err (api_error "INVALID_RESOLUTION" 400)
  | Some ref =>
      let? version := optional_version (field requested "version") in
      match resolveResource kind ref version with
      | PendingOn _ => Err (api_retry "SCAN_PENDING" 409)
      | Unavailable => Err unavailable
      | Resolved _ resolution =>
          throw_if match field requested "digest" with
                   | JUndef => false
                   | JStr d => negb (jeqb d (rs_digest resolution))
                   | _ => true
                   end with api_error "DIGEST_MISMATCH" 409 ;;
          match field requested "members" with
          | JUndef => Ok resolution
          | JArr raw =>
              throw_if negb (Nat.eqb (length raw) (length (rs_members resolution)))
                with api_error "POLICY_BLOCKED" 409 ;;
              let? _ := check_members raw (rs_members resolution) in
              Ok resolution
          | _ => Err (api_error "POLICY_BLOCKED" 409)
          end
      end
  end.
End Resolve.

(** ** What a resolution promises *)

(** A release that may be handed to a principal now. *)
Definition installable {DR : DateRuntime} (state : RegistryState) (principal : Principal) (now : Z)
    (skill : SkillVersion) : Prop :=
  skill ∈ st_skills state /\ skillCurrentlyApproved state skill now = true /\
  canReadNamespace principal (sk_name skill) = true.

Record resolution_ok {DR : DateRuntime} (state : RegistryState) (principal : Principal) (now : Z)
    (r : Resolution) : Prop := {
  ro_members : Forall (installable state principal now) (rs_members r);
  ro_skill : rs_kind r = KSkill -> exists skill, rs_members r = [skill] /\ r = skillResolution skill;
  ro_pack : rs_kind r = KPack -> exists pack,
    pack ∈ st_packs state /\ pk_state pack = PackApproved /\
    pk_policyRevision pack = po_revision (st_policy state) /\
    canReadNamespace principal (pk_name pack) = true /\
    r = packResolution pack (rs_members r) /\
    Forall2 (fun m s => sk_id s = pm_resourceId m /\ sb_digest (sk_artifact s) = pm_digest m)
      (pk_members pack) (rs_members r);
}.

(** What two resolutions have to agree on to be the same plan. *)
Definition member_key (s : SkillVersion) : jstr * jstr * jstr * jstr :=
  (sk_id s, sk_name s, sb_digest (sk_artifact s), sk_version s).
Definition resolution_key (r : Resolution) :
    ResourceKind * jstr * jstr * jstr * jstr * jstr * list (jstr * jstr * jstr * jstr) :=
  (rs_kind r, rs_resourceId r, rs_organizationId r, rs_name r, rs_version r, rs_digest r,
   member_key <$> rs_members r).
Definition same_plan (a b : Resolution) : Prop := resolution_key a = resolution_key b.
#[export] Instance same_plan_equivalence : Equivalence same_plan.
Proof. unfold same_plan. split; [done | by intros ??? | intros ??? -> ->; done]. Qed.

Lemma sameMembers_spec a b : sameMembers a b = true <-> member_key <$> a = member_key <$> b.
Proof.
  revert b; induction a as [|m a IH]; intros [|o b]; cbn [sameMembers]; rewrite ?fmap_cons; try done.
  rewrite andb_true_iff, IH. unfold sameMember.
  rewrite !andb_true_iff, !jeqb_true. split.
  - intros [[[[H1 H2] H3] H4] ->]. unfold member_key. by rewrite H1, H2, H3, H4.
  - intros [= H1 H2 H3 H4 ->]. done.
Qed.
Lemma sameResolution_spec a b : sameResolution a b = true <-> same_plan a b.
Proof.
  unfold sameResolution, same_plan, resolution_key.
  rewrite !andb_true_iff, sameMembers_spec, !jeqb_true, bool_decide_eq_true. split.
  - by intros [[[[[[-> ->] ->] ->] ->] ->] ->].
  - by intros [= -> -> -> -> -> -> ->].
Qed.

Lemma chooseVersion_elem {CO : Collation} {T} (version_of : T -> jstr) candidates version c :
  chooseVersion version_of candidates version = Some c -> c ∈ candidates.
Proof.
  unfold chooseVersion. set (cmp := fun a b => _). intros H.
  assert (Hin : c ∈ js_sort cmp (match version with
                 | None | Some [] => candidates
                 | Some v => List.filter (fun c => jeqb (version_of c) v) candidates
                 end)) by (destruct (js_sort _ _); [done|]; injection H as ->; by left).
  rewrite js_sort_perm in Hin. destruct version as [[|]|]; try done.
  by apply elem_of_List_filter in Hin as [? _].
Qed.

Lemma find_skill_Some state id s : find_skill state id = Some s -> s ∈ st_skills state /\ sk_id s = id.
Proof. intros [Hin Heq]%find_first_Some. by apply jeqb_true in Heq. Qed.
Lemma find_job_Some state id j : find_job state id = Some j -> j ∈ st_jobs state /\ jb_id j = id.
Proof. intros [Hin Heq]%find_first_Some. by apply jeqb_true in Heq. Qed.

Section Sound.
Context {DR : DateRuntime} {CO : Collation}.

Lemma pack_members_sound state principal now members skills :
  pack_members state principal now members = Some skills ->
  Forall (installable state principal now) skills /\
  Forall2 (fun m s => sk_id s = pm_resourceId m /\ sb_digest (sk_artifact s) = pm_digest m)
    members skills.
Proof.
  revert skills; induction members as [|m members IH]; intros skills H; cbn [pack_members] in H.
  { by simplify_eq. }
  destruct (find_skill state (pm_resourceId m)) as [s|] eqn:E; [|done].
  destruct (_ || _) eqn:G in H; [done|]. bool_inv.
  destruct (pack_members state principal now members) as [rest|]; [|done]. simplify_eq.
  destruct (IH rest eq_refl) as [Hi Hf]. apply find_skill_Some in E as [Hin Hid].
  jeqb_inv.
  split; constructor; unfold installable; auto.
Qed.

Lemma resolveResource_ok state principal now kind ref version resource r :
  resolveResource state principal now kind ref version = Resolved resource r ->
  resolution_ok state principal now r /\ rs_kind r = kind.
Proof.
  destruct kind; cbn [resolveResource]; [unfold resolve_skill | unfold resolve_pack]; intros H.
  - destruct (chooseVersion _ _ _) as [s|] eqn:E.
    2: { repeat case_match; done. }
    apply chooseVersion_elem, elem_of_List_filter in E as [Hin Hm].
    destruct (bool_decide _); [by case_match|].
    destruct (skillCurrentlyApproved state s now) eqn:Ha; cbn [negb] in H; [|done]. simplify_eq.
    unfold skill_matches in Hm. apply andb_true_iff in Hm as [Hm _].
    split; [|done]. split; cbn; eauto; [|done]. constructor; [|constructor]. by split.
  - destruct (chooseVersion _ _ _) as [p|] eqn:E; [|done].
    apply chooseVersion_elem, elem_of_List_filter in E as [Hin Hm].
    destruct (_ || _) eqn:G in H; [done|]. bool_inv.
    destruct (pack_members _ _ _ _) as [skills|] eqn:Em; [|done]. simplify_eq.
    apply pack_members_sound in Em as [Hi Hf].
    unfold pack_matches in Hm. apply andb_true_iff in Hm as [Hm _].
    apply jeqb_true in G. split; [|done]. split; cbn; [done | done |]. intros _. exists p. auto 10.
Qed.

Lemma assertCurrentResolution_ok state principal now r u :
  assertCurrentResolution state principal now r = Ok u ->
  exists current, resolution_ok state principal now current /\ same_plan current r.
Proof.
  unfold assertCurrentResolution. destruct (resolveResource _ _ _ _ _ _) as [res c| |] eqn:E; try done.
  intros H. ok_inv. apply resolveResource_ok in E as [E _]. exists c. split; [done|].
  apply sameResolution_spec. by apply negb_false_iff.
Qed.

(** Whatever [resolveResource] resolves is installable for the principal at
    that moment: every member is a release of the registry that is approved
    with current evidence and in a namespace the principal may read; a pack
    moreover is approved under the current policy revision and its members have
    the ids and digests of its manifest. *)
Theorem resolveResource_sound (state : RegistryState) (principal : Principal) (now : Z)
    (kind : ResourceKind) (ref : jstr) (version : option jstr)
    (resource : SkillVersion + PackVersion) (r : Resolution) :
  resolveResource state principal now kind ref version = Resolved resource r ->
  resolution_ok state principal now r /\ rs_kind r = kind.
Proof. apply resolveResource_ok. Qed.

Lemma check_members_ok raw members u :
  length raw = length members ->
  check_members raw members = Ok u -> Forall2 (fun r m => supplied_member_matches r m = true) raw members.
Proof.
  revert members; induction raw as [|r raw IH]; intros [|m members] Hl H; cbn in Hl, H; try done.
  ok_inv. apply negb_false_iff in G0. constructor; [done|]. apply IH; [lia | done].
Qed.

(** A plan a client supplies is accepted only as the current one: a resolution
    [resolveRequestedResolution] returns is installable now, and a digest or
    member list in the request agrees with it. *)
Theorem requested_resolution_current (state : RegistryState) (principal : Principal) (now : Z)
    (requested : jsval) (r : Resolution) :
  resolveRequestedResolution state principal now requested = Ok r ->
  resolution_ok state principal now r /\
  (field requested "digest" = JUndef \/ field requested "digest" = JStr (rs_digest r)) /\
  (field requested "members" = JUndef \/
   exists raw, field requested "members" = JArr raw /\
     Forall2 (fun v m => supplied_member_matches v m = true) raw (rs_members r)).
Proof.
  unfold resolveRequestedResolution. intros H. ok_inv.
  destruct (match stringValue (field requested "ref") with Some _ => _ | None => _ end) as [ref|];
    [|done]. ok_inv.
  destruct (resolveResource _ _ _ _ _ _) as [res c| |] eqn:Er; try done. ok_inv.
  apply resolveResource_ok in Er as [Er _].
  assert (Hd : field requested "digest" = JUndef \/ field requested "digest" = JStr (rs_digest c)).
  { destruct (field requested "digest"); try done; [by left|]. right.
    by apply negb_false_iff, jeqb_true in G as ->. }
  destruct (field requested "members") as [| | | | | raw |]; try done; ok_inv; [by eauto|].
  apply negb_false_iff, Nat.eqb_eq in G0. eapply check_members_ok in E1; [|done]. eauto 10.
Qed.
End Sound.
