(* ===== verification/Provenance.v ===== *)
(** * Provenance of imported releases

    [normalizeProvenance] and its helpers of packages/core/src/index.ts: what a
    worker reports about the source of an imported bundle is checked against
    the server-owned import request and upstream, and reduced to a record. *)

From Stdlib Require Import ZArith Lia.
From stdpp Require Import base list strings sets.
From S2P Require Import Prelude Js Dates Contracts Web Access Names PolicyEval.

Local Open Scope Z_scope.

Definition PROVENANCE_CONFLICT : RegistryApiError := api_error "PROVENANCE_CONFLICT" 409.

(** ** Text predicates *)

(** The loop of [isWellFormedUnicodeString]: a high surrogate without a low one
    after it, also at the end, is refused. *)
Definition isWellFormedUnicodeString (value : jstr) : bool := well_formed value.
Definition DIRECTORY_ID_MAX_SEGMENT_BYTES : Z := 512.
Definition isSafeDirectorySegment (value : jstr) : bool :=
  isWellFormedUnicodeString value && negb (jeqb value []) && negb (jeqb value (js ".")) &&
  negb (jeqb value (js "..")) && (jlen (textEncode value) <=? DIRECTORY_ID_MAX_SEGMENT_BYTES).
Definition isSafeDirectoryExternalValue (value : jstr) : bool :=
  isWellFormedUnicodeString value && (jlen (textEncode value) <=? 2048) &&
  negb (jeqb value []) && jeqb (trim value) value &&
  forallb isSafeDirectorySegment (split 47 value) &&
  negb (existsb (fun c => control_unit c || (c =? 63) || (c =? 35) || (c =? 37) || (c =? 92)) value).

Definition is_hex (c : Z) : bool := is_digit c || between 97 c 102 || between 65 c 70.
(** [/^[0-9a-f]{40}$/iu]. *)
Definition commit_pattern (s : jstr) : bool := Nat.eqb (length s) 40 && forallb is_hex s.
Definition isCommit (o : option jstr) : bool :=
  match o with
  | Some s => commit_pattern s
  | None => false
  end.
(** [/^[A-Za-z0-9._~-]+$/u]. *)
Definition safe_part (s : jstr) : bool :=
  negb (jeqb s []) && forallb (fun c => is_alnum c || name_punct c || (c =? 126)) s.
Definition isSafeRepository (value : jstr) : bool :=
  isWellFormedUnicodeString value && negb (jeqb value []) && (jlen value <=? 2048) &&
  Nat.eqb (length (split 47 value)) 2 && forallb safe_part (split 47 value).
Definition isSafeSourcePath (value : jstr) : bool :=
  isWellFormedUnicodeString value && (jlen value <=? 4096) && negb (startsWith (js "/") value) &&
  forallb (fun part => jeqb part [] ||
             (negb (jeqb part (js ".")) && negb (jeqb part (js "..")) && safe_part part))
    (split 47 value).

(** ** Sources an upstream allows *)

Section Sources.
Context {UT : UnicodeTables}.

(** [text.replace(/^prefix/u, '')] for alternatives of which at most one is a
    prefix. *)
Definition strip_one (prefixes : list string) (s : jstr) : jstr :=
  match find_first (fun p => startsWith (js p) s) prefixes with
  | Some p => drop (length (js p)) s
  | None => s
  end.
Fixpoint strip_leading_slashes (s : jstr) : jstr :=
  match s with
  | c :: r => if c =? 47 then strip_leading_slashes r else s
  | [] => []
  end.
(** [.replace(/^\/+|\/+$/gu, '')]. *)
Definition strip_slashes (s : jstr) : jstr :=
  reverse (strip_leading_slashes (reverse (strip_leading_slashes s))).
(** [.replace(/\.git$/iu, '')]. *)
Definition strip_git (s : jstr) : jstr :=
  if endsWith (js ".git") (ascii_lower <$> s) then take (length s - 4) s else s.

Definition normalizeSkillsDirectorySource (value : jstr) : jstr :=
  let s := toLowerCase (trim value) in
  let s := strip_one ["https://www.skills.sh/"; "https://skills.sh/"; "http://www.skills.sh/";
                      "http://skills.sh/"] s in
  let s := strip_one ["https://www.github.com/"; "https://github.com/"; "http://www.github.com/";
                      "http://github.com/"] s in
  strip_git (strip_slashes (strip_one ["github.com/"] s)).
Definition normalize_github_source (value : jstr) : jstr :=
  let s := toLowerCase (trim value) in
  let s := strip_one ["https://github.com/"; "http://github.com/"] s in
  strip_git (strip_slashes (strip_one ["github.com/"] s)).

Definition allowed_by (normalize : jstr -> jstr) (wildcard : bool) (allowlist : option (list jstr))
    (repository : option jstr) : bool :=
  match allowlist with
  | None | Some [] => false
  | Some l =>
      match repository with
      | None => Nat.eqb (length l) 1
      | Some r => existsb (fun candidate => (wildcard && jeqb candidate (js "*")) ||
                                            jeqb (normalize candidate) (normalize r)) l
      end
  end.
Definition upstreamAllowsImport (upstream : Upstream) (repository : option jstr) : bool :=
  match us_kind upstream with
  | USkillsSh => allowed_by normalizeSkillsDirectorySource true (us_repositories upstream) repository
  | UGithub => allowed_by normalize_github_source false (us_repositories upstream) repository
  | URegistry => true
  end.
End Sources.

(** ** Source references *)

Inductive SourceProvider : Type := ProviderGithub | ProviderWellKnown | ProviderSnapshot.
#[export] Instance SourceProvider_eq_dec : EqDecision SourceProvider.
Proof. solve_decision. Defined.
Record CanonicalSourceIdentity : Type := {
  cs_provider : SourceProvider;
  cs_host : jstr;
  cs_repository : jstr;
  cs_path : jstr;
  cs_revision : option jstr;
}.

Section References.
Context {UT : UnicodeTables} {UR : UrlRuntime}.

Definition verifiedSourceOrigin (value : option jstr) : option jstr :=
  match value with
  | None | Some [] => None
  | Some v =>
      match parseURL v with
      | None => None
      | Some parsed =>
          if negb (jeqb (url_protocol parsed) (js "https:")) ||
             negb (jeqb (url_username parsed) []) || negb (jeqb (url_password parsed) []) ||
             negb (jeqb (url_port parsed) []) || negb (jeqb (url_pathname parsed) (js "/")) ||
             negb (jeqb (url_search parsed) []) || negb (jeqb (url_hash parsed) [])
          then None else Some (toLowerCase (url_hostname parsed))
      end
  end.
Definition verifiedSourceOriginFromUrl (value : jstr) : option jstr :=
  match parseURL value with
  | None => None
  | Some parsed =>
      if negb (jeqb (url_protocol parsed) (js "https:")) ||
         negb (jeqb (url_username parsed) []) || negb (jeqb (url_password parsed) []) ||
         negb (jeqb (url_port parsed) [])
      then None else Some (toLowerCase (url_hostname parsed))
  end.
Definition wellKnownScopeFromIndexUrl (value : jstr) : option jstr :=
  match parseURL value with
  | None => None
  | Some parsed =>
      if negb (jeqb (url_protocol parsed) (js "https:")) ||
         negb (jeqb (url_username parsed) []) || negb (jeqb (url_password parsed) []) ||
         negb (jeqb (url_search parsed) []) || negb (jeqb (url_hash parsed) [])
      then None
      else
        match reverse (List.filter (fun p => negb (jeqb p [])) (split 47 (url_pathname parsed))) with
        | last :: kind :: rest =>
            if bool_decide (rest = []) || negb (jeqb last (js "index.json")) ||
               (negb (jeqb kind (js "agent-skills")) && negb (jeqb kind (js "skills")))
            then None
            else let scope := join (js "/") (reverse (kind :: rest)) in
                 if negb (jeqb scope []) && isSafeSourcePath scope then Some scope else None
        | _ => None
        end
  end.

Definition wellKnownCanonicalFromProvenance (pv : Provenance) : option CanonicalSourceIdentity :=
  match non_empty (pv_sourceProviderOrigin pv), non_empty (pv_wellKnownIndexUrl pv),
        non_empty (pv_wellKnownEntryName pv) with
  | Some provider, Some index, Some entry =>
      match non_empty (verifiedSourceOrigin (Some provider)),
            non_empty (verifiedSourceOriginFromUrl index), wellKnownScopeFromIndexUrl index with
      | Some origin, Some indexOrigin, Some scope =>
          if negb (jeqb origin indexOrigin) || negb (isSafeSourcePath entry) then None
          else Some {| cs_provider := ProviderWellKnown; cs_host := origin;
                       cs_repository := scope; cs_path := entry;
                       cs_revision := if isCommit (pv_resolvedCommit pv)
                                      then pv_resolvedCommit pv else None |}
      | _, _, _ => None
      end
  | _, _, _ => None
  end.

Definition sourceReferenceFromCanonical (source : CanonicalSourceIdentity) : jstr :=
  let slash := js "/" in
  match cs_provider source with
  | ProviderSnapshot => js "@snapshot/skills-sh/" ++ cs_path source
  | ProviderGithub =>
      if jeqb (cs_host source) (js "github.com") then
        if jeqb (cs_path source) [] then js "@github/" ++ cs_repository source
        else js "@github/" ++ cs_repository source ++ slash ++ cs_path source
      else if jeqb (cs_path source) [] then
        js "@github/" ++ cs_host source ++ slash ++ cs_repository source
      else js "@github/" ++ cs_host source ++ slash ++ cs_repository source ++ slash ++ cs_path source
  | ProviderWellKnown =>
      js "@web/" ++ cs_host source ++ slash ++ cs_repository source ++ slash ++ cs_path source
  end.

(** The skills.sh snapshot a record names, when it names itself consistently. *)
Definition snapshot_reference (pv : Provenance) : option jstr :=
  match non_empty (pv_externalId pv) with
  | Some externalId =>
      if bool_decide (pv_kind pv = PKSkillsSh) && bool_decide (pv_path pv = Some externalId) &&
         isSafeDirectoryExternalValue externalId
      then Some (js "@snapshot/skills-sh/" ++ externalId) else None
  | None => None
  end.
Definition github_reference (pv : Provenance) : option jstr :=
  match non_empty (pv_repository pv), pv_resolvedCommit pv with
  | Some repository, Some commit =>
      if bool_decide (verifiedSourceOrigin (pv_sourceProviderOrigin pv) = Some (js "github.com")) &&
         commit_pattern commit
      then
        match (if bool_decide (pv_kind pv = PKSkillsSh) then pv_skillPath pv else pv_path pv) with
        | Some path =>
            if isSafeSourcePath path && isSafeRepository repository
            then Some (sourceReferenceFromCanonical {|
                   cs_provider := ProviderGithub; cs_host := js "github.com";
                   cs_repository := repository; cs_path := path; cs_revision := Some commit |})
            else None
        | None => None
        end
      else None
  | _, _ => None
  end.
Definition well_known_reference (pv : Provenance) : option jstr :=
  if isCommit (pv_resolvedCommit pv) || isDigest (default [] (pv_externalDigest pv))
  then option_map sourceReferenceFromCanonical (wellKnownCanonicalFromProvenance pv)
  else None.
Definition sourceReferenceFromProvenance (pv : Provenance) : option jstr :=
  match pv_sourceResolutionKind pv with
  | Some SRSnapshot => snapshot_reference pv
  | Some SRGithub => github_reference pv
  | Some SRWellKnown => match well_known_reference pv with
                        | Some reference => Some reference
                        | None => snapshot_reference pv
                        end
  | None => None
  end.
End References.

(** ** Fields of the report *)

(** [a ?? b]. *)
Definition nullish (a b : jsval) : jsval :=
  match a with
  | JUndef | JNull => b
  | _ => a
  end.
Definition optionalProvenanceString (v : jsval) (maximum : Z) : api (option jstr) :=
  match v with
  | JUndef | JNull => Ok None
  | JStr s =>
      throw_if jeqb s [] || (maximum <? jlen s) || existsb control_unit s with PROVENANCE_CONFLICT ;;
      Ok (Some s)
  | _ => Err PROVENANCE_CONFLICT
  end.
Definition isCanonicalIsoTimestamp {DR : DateRuntime} (v : jsval) : option jstr :=
  match v with
  | JStr s =>
      if jeqb s [] || (64 <? jlen s) || negb (isWellFormedUnicodeString s) then None
      else match dateParse s with
           | Some ms => if jeqb (toISOString ms) s then Some s else None
           | None => None
           end
  | _ => None
  end.
Definition optionalCanonicalProvenanceTimestamp {DR : DateRuntime} (v : jsval) : api (option jstr) :=
  match v with
  | JUndef | JNull => Ok None
  | _ => match isCanonicalIsoTimestamp v with
         | Some s => Ok (Some s)
         | None => Err PROVENANCE_CONFLICT
         end
  end.
(** An optional literal of an enumeration; [null] counts as absent only where
    the source says so. *)
Definition optional_enum (A : Type) `{StringEnum A} (v : jsval) : api (option A) :=
  match v with
  | JUndef => Ok None
  | _ => match enum_value A v with
         | Some a => Ok (Some a)
         | None => Err PROVENANCE_CONFLICT
         end
  end.
Definition null_to_undefined (v : jsval) : jsval :=
  match v with
  | JNull => JUndef
  | _ => v
  end.

Definition isValidSkillsShRevision (revision : jstr) (expected : SnapshotHash) : bool :=
  if jeqb revision [] || (256 <? jlen revision) ||
     existsb (fun c => control_unit c || is_js_space c) revision then false
  else match expected with
       | Hash h => jeqb revision h
       | _ => isDigest revision ||
              ((40 <=? jlen revision) && (jlen revision <=? 128) && forallb is_hex revision)
       end.
Definition isValidImportRevision (upstream : Upstream) (revision : jstr) (expected : SnapshotHash) : bool :=
  if jeqb revision [] || (256 <? jlen revision) then false
  else match us_kind upstream with
       | UGithub => commit_pattern revision
       | USkillsSh => isValidSkillsShRevision revision expected
       | URegistry => isDigest revision || version_pattern revision
       end.
Definition provenanceRepositoryMatches {UT : UnicodeTables} {UR : UrlRuntime} (upstream : Upstream)
    (repository : jstr) : bool :=
  match us_kind upstream with
  | UGithub | USkillsSh => upstreamAllowsImport upstream (Some repository)
  | URegistry =>
      match non_empty (us_baseUrl upstream) with
      | None => false
      | Some base => match parseURL repository, parseURL base with
                     | Some a, Some b => jeqb (url_origin a) (url_origin b)
                     | _, _ => false
                     end
      end
  end.

(** ** [normalizeSkillsShEvidence] *)

(** The fields it contributes to the record. *)
Record SkillsShEvidence : Type := {
  ev_sourceUrl : option jstr;
  ev_sourceProviderOrigin : option jstr;
  ev_sourceResolutionKind : option SourceResolutionKind;
  ev_fetchedAt : option jstr;
  ev_pageUrl : option jstr;
  ev_artifactUrl : option jstr;
  ev_skillPath : option jstr;
  ev_requestedRef : option jstr;
  ev_resolvedCommit : option jstr;
  ev_resolvedTree : option jstr;
  ev_wellKnownIndexUrl : option jstr;
  ev_wellKnownEntryName : option jstr;
  ev_frontmatterName : option jstr;
  ev_frontmatterDescription : option jstr;
  ev_externalDigest : option jstr;
  ev_external : option ExternalProvenance;
}.
Definition no_evidence : SkillsShEvidence := {|
  ev_sourceUrl := None; ev_sourceProviderOrigin := None; ev_sourceResolutionKind := None;
  ev_fetchedAt := None; ev_pageUrl := None; ev_artifactUrl := None; ev_skillPath := None;
  ev_requestedRef := None; ev_resolvedCommit := None; ev_resolvedTree := None;
  ev_wellKnownIndexUrl := None; ev_wellKnownEntryName := None; ev_frontmatterName := None;
  ev_frontmatterDescription := None; ev_externalDigest := None; ev_external := None |}.

(** [a !== b] on optional strings where [a] may be absent without conflict. *)
Definition conflicts (supplied : option jstr) (expected : option jstr) : bool :=
  match supplied with
  | Some _ => negb (bool_decide (supplied = expected))
  | None => false
  end.
(** A present string that does not match a pattern. *)
Definition malformed (o : option jstr) (pattern : jstr -> bool) : bool :=
  match o with
  | Some s => negb (pattern s)
  | None => false
  end.

Section Normalize.
Context {DR : DateRuntime} {UT : UnicodeTables} {UR : UrlRuntime}.

Definition normalizeSkillsShEvidence (raw : jsval) (repository : jstr) (externalId : option jstr)
    (sourceType : option ExternalSourceType) (snapshotHash : SnapshotHash) (fetchedAt : option jstr)
    : api SkillsShEvidence :=
  let nested := field raw "external" in
  throw_if negb (is_undef nested) && negb (isObject nested) with PROVENANCE_CONFLICT ;;
  let get (k : string) := nullish (field nested k) (field raw k) in
  let provider := get "provider" in
  let? nestedExternalId := optionalProvenanceString (field nested "externalId") 2048 in
  let? nestedSource := optionalProvenanceString (get "source") 2048 in
  let? nestedSlug := optionalProvenanceString (get "slug") 2048 in
  let rawSourceType := get "sourceType" in
  let? nestedSourceUrl := optionalProvenanceString (get "sourceUrl") 4096 in
  let? sourceProviderOrigin := optionalProvenanceString (get "sourceProviderOrigin") 512 in
  let? nestedFetchedAt := optionalCanonicalProvenanceTimestamp (field nested "fetchedAt") in
  throw_if match fetchedAt with
           | Some _ => conflicts nestedFetchedAt fetchedAt
           | None => false
           end with PROVENANCE_CONFLICT ;;
  let effectiveFetchedAt := match nestedFetchedAt with Some t => Some t | None => fetchedAt end in
  let? sourceResolutionKind := optional_enum SourceResolutionKind (get "sourceResolutionKind") in
  let? nestedPageUrl := optionalProvenanceString (get "pageUrl") 4096 in
  let? nestedSnapshotHash :=
    match field nested "externalSnapshotHash" with
    | JNull => Ok HashNull
    | v => let? o := optionalProvenanceString v 256 in
           Ok (match o with Some h => Hash h | None => HashAbsent end)
    end in
  let effectiveSnapshotHash :=
    if is_undef (field nested "externalSnapshotHash") then snapshotHash else nestedSnapshotHash in
  throw_if match provider with
           | JUndef => false
           | JStr s => negb (jeqb s (js "skills.sh"))
           | _ => true
           end with PROVENANCE_CONFLICT ;;
  throw_if conflicts nestedExternalId externalId with PROVENANCE_CONFLICT ;;
  throw_if conflicts nestedSource (Some repository) with PROVENANCE_CONFLICT ;;
  let? nestedSourceType :=
    match rawSourceType with
    | JUndef | JNull => Ok sourceType
    | v => optional_enum ExternalSourceType v
    end in
  throw_if negb (bool_decide (effectiveSnapshotHash = snapshotHash)) &&
           negb (bool_decide (snapshotHash = HashAbsent)) with PROVENANCE_CONFLICT ;;
  let identity := match nestedSource, nestedSlug with
                  | Some source, Some slug => Some (source ++ js "/" ++ slug)
                  | _, _ => None
                  end in
  throw_if match identity with
           | Some i => negb (bool_decide (externalId = Some i))
           | None => false
           end with PROVENANCE_CONFLICT ;;
  let? externalDigest := optionalProvenanceString (get "externalDigest") 128 in
  throw_if malformed externalDigest isDigest with PROVENANCE_CONFLICT ;;
  let? skillPath :=
    match get "skillPath" with
    | JStr [] => Ok (Some [])
    | v => optionalProvenanceString v 4096
    end in
  let? requestedRef := optionalProvenanceString (get "requestedRef") 256 in
  let? resolvedCommit := optionalProvenanceString (get "resolvedCommit") 128 in
  let? resolvedTree := optionalProvenanceString (get "resolvedTree") 128 in
  throw_if malformed resolvedCommit commit_pattern with PROVENANCE_CONFLICT ;;
  throw_if malformed resolvedTree commit_pattern with PROVENANCE_CONFLICT ;;
  throw_if bool_decide (skillPath = Some []) &&
           (negb (bool_decide (sourceResolutionKind = Some SRGithub)) ||
            negb (bool_decide (nestedSourceType = Some EGithub)) ||
            negb (bool_decide (verifiedSourceOrigin sourceProviderOrigin = Some (js "github.com"))) ||
            negb (isCommit resolvedCommit) || negb (isSafeRepository repository) ||
            negb (bool_decide (nestedSource = Some repository)) ||
            match identity with
            | Some i => negb (bool_decide (externalId = Some i))
            | None => true
            end ||
            bool_decide (nestedSourceUrl = None)) with PROVENANCE_CONFLICT ;;
  let? wellKnownIndexUrl := optionalProvenanceString (get "wellKnownIndexUrl") 4096 in
  let? wellKnownEntryName := optionalProvenanceString (get "wellKnownEntryName") 2048 in
  let? artifactUrl := optionalProvenanceString (get "artifactUrl") 4096 in
  let? frontmatterName := optionalProvenanceString (get "frontmatterName") 512 in
  let? frontmatterDescription := optionalProvenanceString (get "frontmatterDescription") 4096 in
  let external :=
    match provider, non_empty externalId, nestedSource, nestedSlug, nestedSourceType, nestedSourceUrl with
    | JStr _, Some id, Some source, Some slug, Some sourceType, Some sourceUrl =>
        Some {| ep_externalId := id; ep_source := source; ep_slug := slug;
                ep_sourceType := sourceType; ep_sourceUrl := sourceUrl;
                ep_catalogDetailFallback := None; ep_repository := None;
                ep_sourceProviderOrigin := sourceProviderOrigin;
                ep_sourceResolutionKind := sourceResolutionKind;
                ep_fetchedAt := effectiveFetchedAt; ep_pageUrl := nestedPageUrl;
                ep_externalSnapshotHash := match effectiveSnapshotHash with
                                           | Hash h => Some h
                                           | _ => None
                                           end;
                ep_externalDigest := externalDigest; ep_skillPath := skillPath;
                ep_requestedRef := requestedRef; ep_resolvedCommit := resolvedCommit;
                ep_resolvedTree := resolvedTree; ep_wellKnownIndexUrl := wellKnownIndexUrl;
                ep_wellKnownEntryName := wellKnownEntryName; ep_artifactUrl := artifactUrl;
                ep_frontmatterName := frontmatterName;
                ep_frontmatterDescription := frontmatterDescription |}
    | _, _, _, _, _, _ => None
    end in
  Ok {| ev_sourceUrl := nestedSourceUrl; ev_sourceProviderOrigin := sourceProviderOrigin;
        ev_sourceResolutionKind := sourceResolutionKind; ev_fetchedAt := effectiveFetchedAt;
        ev_pageUrl := nestedPageUrl; ev_artifactUrl := artifactUrl; ev_skillPath := skillPath;
        ev_requestedRef := requestedRef; ev_resolvedCommit := resolvedCommit;
        ev_resolvedTree := resolvedTree; ev_wellKnownIndexUrl := wellKnownIndexUrl;
        ev_wellKnownEntryName := wellKnownEntryName; ev_frontmatterName := frontmatterName;
        ev_frontmatterDescription := frontmatterDescription; ev_externalDigest := externalDigest;
        ev_external := external |}.

(** ** [normalizeProvenance] *)

(** [{ ...base, ...evidence }] on one field. *)
Definition override {A} (evidence base : option A) : option A :=
  match evidence with
  | Some _ => evidence
  | None => base
  end.

(** The report names the upstream, repository, path and an immutable revision
    of the import request: repository, path and revision. *)
Definition check_source_identity (raw : jsval) (request : ImportRequest) (upstream : Upstream)
    : api (ProvenanceKind * jstr * jstr * jstr) :=
  let allowsExplicitRootPath :=
    bool_decide (us_kind upstream = UGithub) && jeqb (iq_path request) [] &&
    bool_decide (non_empty (iq_repository request) <> None) in
  let suppliedPath := match field raw "path" with
                      | JStr [] => if allowsExplicitRootPath then Some [] else None
                      | v => stringValue v
                      end in
  match enum_value ProvenanceKind (field raw "kind"), stringValue (field raw "upstreamId"),
        stringValue (field raw "repository"), suppliedPath, stringValue (field raw "revision") with
  | Some kind, Some suppliedUpstreamId, Some suppliedRepository, Some path, Some suppliedRevision =>
      throw_if negb (jeqb (enum_name kind) (enum_name (us_kind upstream))) with PROVENANCE_CONFLICT ;;
      throw_if negb (jeqb suppliedUpstreamId (iq_upstreamId request)) with PROVENANCE_CONFLICT ;;
      throw_if negb (jeqb path (iq_path request)) with PROVENANCE_CONFLICT ;;
      throw_if malformed (iq_repository request) (jeqb suppliedRepository) with PROVENANCE_CONFLICT ;;
      throw_if negb (provenanceRepositoryMatches upstream suppliedRepository)
        with PROVENANCE_CONFLICT ;;
      throw_if negb (isValidImportRevision upstream suppliedRevision (iq_externalSnapshotHash request))
        with PROVENANCE_CONFLICT ;;
      Ok (kind, suppliedRepository, path, suppliedRevision)
  | _, _, _, _, _ => Err PROVENANCE_CONFLICT
  end.

Definition supplied_snapshot_hash (raw : jsval) : api SnapshotHash :=
  match field raw "externalSnapshotHash" with
  | JUndef => Ok HashAbsent
  | JNull => Ok HashNull
  | JStr s =>
      throw_if jeqb s [] || (256 <? jlen s) || existsb control_unit s with PROVENANCE_CONFLICT ;;
      Ok (Hash s)
  | _ => Err PROVENANCE_CONFLICT
  end.

Definition normalizeProvenance (raw : jsval) (request : ImportRequest) (digest : jstr)
    (upstream : option Upstream) : api Provenance :=
  match upstream with
  | None => Err PROVENANCE_CONFLICT
  | Some upstream =>
  throw_if negb (isObject raw) with PROVENANCE_CONFLICT ;;
  throw_if negb (jeqb (us_id upstream) (iq_upstreamId request)) with PROVENANCE_CONFLICT ;;
  let? identity := check_source_identity raw request upstream in
  let '(kind, repository, path, revision) := identity in
  let suppliedExternalId := stringValue (field raw "externalId") in
  let sourceCatalogExternalId := match iq_sourceCatalogId request with
                                 | None => None
                                 | Some _ => iq_externalId request
                                 end in
  throw_if match sourceCatalogExternalId with
           | Some _ => conflicts suppliedExternalId sourceCatalogExternalId
           | None => false
           end with PROVENANCE_CONFLICT ;;
  let? suppliedFeedId := optionalProvenanceString (field raw "feedId") 256 in
  let? suppliedFeedName := optionalProvenanceString (field raw "feedName") 128 in
  let? suppliedFeedConfigRevision := optionalProvenanceString (field raw "feedConfigRevision") 256 in
  let? suppliedSourceReference := optionalProvenanceString (field raw "sourceReference") 2048 in
  let? suppliedSourceProviderOrigin := optionalProvenanceString (field raw "sourceProviderOrigin") 512 in
  let? suppliedFetchedAt := optionalCanonicalProvenanceTimestamp (field raw "fetchedAt") in
  let? suppliedExternalDigest := optionalProvenanceString (field raw "externalDigest") 128 in
  throw_if malformed suppliedExternalDigest isDigest with PROVENANCE_CONFLICT ;;
  let? suppliedResolvedCommit :=
    if bool_decide (us_kind upstream = UGithub)
    then optionalProvenanceString (field raw "resolvedCommit") 128 else Ok None in
  throw_if malformed suppliedResolvedCommit commit_pattern with PROVENANCE_CONFLICT ;;
  throw_if conflicts suppliedResolvedCommit (Some revision) with PROVENANCE_CONFLICT ;;
  let? suppliedExternalSnapshotHash := supplied_snapshot_hash raw in
  let? suppliedExternalSourceType :=
    optional_enum ExternalSourceType (null_to_undefined (field raw "externalSourceType")) in
  let? suppliedSourceResolutionKind :=
    optional_enum SourceResolutionKind (null_to_undefined (field raw "sourceResolutionKind")) in
  throw_if match iq_sourceReference request with
           | Some _ => conflicts suppliedSourceReference (iq_sourceReference request)
           | None => false
           end with PROVENANCE_CONFLICT ;;
  throw_if bool_decide (us_kind upstream = USkillsSh) &&
           (bool_decide (non_empty (iq_externalId request) = None) ||
            negb (bool_decide (suppliedExternalId = iq_externalId request)) ||
            negb (bool_decide (suppliedExternalId = Some path)) ||
            (negb (bool_decide (iq_externalSourceType request = None)) &&
             negb (bool_decide (suppliedExternalSourceType = iq_externalSourceType request))) ||
            (negb (bool_decide (iq_externalSnapshotHash request = HashAbsent)) &&
             negb (bool_decide (suppliedExternalSnapshotHash = iq_externalSnapshotHash request))) ||
            negb (isValidSkillsShRevision revision (iq_externalSnapshotHash request)))
    with PROVENANCE_CONFLICT ;;
  throw_if conflicts suppliedFeedId (iq_feedId request) ||
           conflicts suppliedFeedName (iq_feedName request) ||
           conflicts suppliedFeedConfigRevision (iq_feedConfigRevision request)
    with PROVENANCE_CONFLICT ;;
  let? evidence :=
    if bool_decide (us_kind upstream = USkillsSh)
    then normalizeSkillsShEvidence raw repository suppliedExternalId suppliedExternalSourceType
           suppliedExternalSnapshotHash suppliedFetchedAt
    else Ok no_evidence in
  let suppliedSourceDigest := stringValue (field raw "sourceDigest") in
  throw_if match suppliedSourceDigest with
           | Some d => negb (isDigest d) || negb (jeqb d digest)
           | None => false
           end with api_error "DIGEST_MISMATCH" 409 ;;
  let normalized := {|
    pv_kind := kind;
    pv_upstreamId := Some (iq_upstreamId request);
    pv_repository := Some repository;
    pv_path := Some path;
    pv_revision := Some revision;
    pv_sourceDigest := suppliedSourceDigest;
    pv_externalId := non_empty (override sourceCatalogExternalId suppliedExternalId);
    pv_externalSourceType := suppliedExternalSourceType;
    pv_externalSnapshotHash := suppliedExternalSnapshotHash;
    pv_feedId := non_empty (iq_feedId request);
    pv_feedName := non_empty (iq_feedName request);
    pv_feedConfigRevision := non_empty (iq_feedConfigRevision request);
    pv_sourceReference := non_empty (iq_sourceReference request);
    pv_externalSource := non_empty (iq_sourceCatalogId request);
    pv_sourceProviderOrigin := override (ev_sourceProviderOrigin evidence) suppliedSourceProviderOrigin;
    pv_sourceResolutionKind := override (ev_sourceResolutionKind evidence) suppliedSourceResolutionKind;
    pv_fetchedAt := override (ev_fetchedAt evidence) suppliedFetchedAt;
    pv_externalDigest := override (ev_externalDigest evidence) suppliedExternalDigest;
    pv_sourceUrl := ev_sourceUrl evidence;
    pv_catalogDetailFallback := None;
    pv_pageUrl := ev_pageUrl evidence;
    pv_artifactUrl := ev_artifactUrl evidence;
    pv_skillPath := ev_skillPath evidence;
    pv_requestedRef := ev_requestedRef evidence;
    pv_resolvedCommit := override (ev_resolvedCommit evidence) suppliedResolvedCommit;
    pv_resolvedTree := ev_resolvedTree evidence;
    pv_wellKnownIndexUrl := ev_wellKnownIndexUrl evidence;
    pv_wellKnownEntryName := ev_wellKnownEntryName evidence;
    pv_frontmatterName := ev_frontmatterName evidence;
    pv_frontmatterDescription := ev_frontmatterDescription evidence;
    pv_external := ev_external evidence |} in
  let derivedSourceReference := override (pv_sourceReference normalized)
                                  (sourceReferenceFromProvenance normalized) in
  throw_if conflicts suppliedSourceReference derivedSourceReference with PROVENANCE_CONFLICT ;;
  Ok (match derivedSourceReference with
      | Some _ => with_pv_sourceReference derivedSourceReference normalized
      | None => normalized
      end)
  end.
End Normalize.

(** ** What a provenance record is bound to *)

Section Bound.
Context {DR : DateRuntime} {UT : UnicodeTables} {UR : UrlRuntime}.

Lemma check_source_identity_ok raw request upstream kind repository path revision :
  check_source_identity raw request upstream = Ok (kind, repository, path, revision) ->
  enum_name kind = enum_name (us_kind upstream) /\ path = iq_path request /\
  (iq_repository request = None \/ iq_repository request = Some repository) /\
  provenanceRepositoryMatches upstream repository = true /\
  isValidImportRevision upstream revision (iq_externalSnapshotHash request) = true.
Proof.
  unfold check_source_identity. intros H.
  destruct (enum_value ProvenanceKind (field raw "kind")); [|done].
  destruct (stringValue (field raw "upstreamId")); [|done].
  destruct (stringValue (field raw "repository")); [|done].
  destruct (match field raw "path" with JStr [] => _ | _ => _ end); [|done].
  destruct (stringValue (field raw "revision")); [|done].
  ok_inv. bool_inv. unfold malformed in *.
  jeqb_inv.
  repeat split; try done. destruct (iq_repository request); [|by left]. right. bool_inv.
  by apply jeqb_true in G2 as ->.
Qed.

Lemma conflicts_false a b : conflicts a b = false -> a = None \/ a = b.
Proof. unfold conflicts. destruct a; [|by left]. intros H. bool_inv. by right. Qed.

(** A provenance record is bound to what the server asked for: it names the
    upstream, path, feed and (where given) repository of the import request, a
    repository the upstream allows, and an immutable revision of the form the
    kind of upstream demands; a digest in it is the digest of the bundle, and
    a source reference the request fixed is the one in the record. *)
Theorem provenance_bound (raw : jsval) (request : ImportRequest) (digest : jstr)
    (upstream : Upstream) (pv : Provenance) :
  normalizeProvenance raw request digest (Some upstream) = Ok pv ->
  us_id upstream = iq_upstreamId request /\
  enum_name (pv_kind pv) = enum_name (us_kind upstream) /\
  pv_upstreamId pv = Some (iq_upstreamId request) /\
  pv_path pv = Some (iq_path request) /\
  (exists repository, pv_repository pv = Some repository /\
     (iq_repository request = None \/ iq_repository request = Some repository) /\
     provenanceRepositoryMatches upstream repository = true) /\
  (exists revision, pv_revision pv = Some revision /\
     isValidImportRevision upstream revision (iq_externalSnapshotHash request) = true) /\
  pv_feedId pv = non_empty (iq_feedId request) /\
  (pv_sourceDigest pv = None \/ pv_sourceDigest pv = Some digest) /\
  (forall reference, non_empty (iq_sourceReference request) = Some reference ->
     pv_sourceReference pv = Some reference).
Proof.
  unfold normalizeProvenance. intros H. ok_inv.
  destruct a as [[[kind repository] path] revision].
  apply check_source_identity_ok in E as (Hk & Hp & Hrep & Hmatch & Hrev). ok_inv.
  apply negb_false_iff, jeqb_true in G0.
  match goal with |- context [pv_kind (match ?d with Some _ => with_pv_sourceReference _ ?n | None => _ end)] =>
    set (derived := d) in *; set (base := n) in * end.
  assert (Hsd : pv_sourceDigest base = None \/ pv_sourceDigest base = Some digest).
  { cbn. destruct (stringValue (field raw "sourceDigest")); [|by left]. right.
    match goal with Hb : _ || negb (jeqb _ digest) = false |- _ =>
      apply orb_false_iff in Hb as [_ Hb]; apply negb_false_iff, jeqb_true in Hb end. by subst. }
  destruct derived as [reference|] eqn:Ed; cbn [with_pv_sourceReference]; unfold base in *;
    cbn in Hsd |- *; (split; [done|]); (split; [done|]); (split; [done|]); (split; [done|]);
    (split; [by eauto|]); (split; [by eauto|]); (split; [done|]); (split; [done|]);
    intros r Hr; unfold derived in Ed; cbn in Ed; by rewrite Hr in Ed.
Qed.
End Bound.

Definition demo_upstream : Upstream := {|
  us_id := js "up_1"; us_organizationId := js "acme"; us_name := js "acme"; us_kind := UGithub;
  us_enabled := true; us_repositories := Some [js "https://github.com/Acme/Skills.git"];
  us_baseUrl := None; us_credentialEnv := None; us_namespace := js "@tools";
  us_configRevision := None |}.
Definition demo_import : ImportRequest := {|
  iq_upstreamId := js "up_1"; iq_repository := None; iq_path := js "skills/fmt"; iq_ref := None;
  iq_name := js "@tools/fmt"; iq_version := js "1.0.0"; iq_externalId := None;
  iq_externalSourceType := None; iq_externalSnapshotHash := HashAbsent; iq_feedId := None;
  iq_feedName := None; iq_feedConfigRevision := None; iq_sourceReference := None;
  iq_sourceCatalogId := None; iq_sourceCatalogConfigRevision := None;
  iq_sourceCatalogProviderVersion := None |}.
Definition demo_report : jsval := JObj [
  (js "kind", JStr (js "github")); (js "upstreamId", JStr (js "up_1"));
  (js "repository", JStr (js "acme/skills")); (js "path", JStr (js "skills/fmt"));
  (js "revision", JStr (repeat 97 40))].

Lemma provenance_bound_witness : exists pv,
  normalizeProvenance (DR := iso_runtime) (UT := ascii_tables) (UR := no_urls)
    demo_report demo_import (js "sha256:0") (Some demo_upstream) = Ok pv /\
  pv_path pv = Some (js "skills/fmt").
Proof.
  eexists. split; [vm_compute; reflexivity|].
  apply (provenance_bound (DR := iso_runtime) (UT := ascii_tables) (UR := no_urls)
           demo_report demo_import (js "sha256:0") demo_upstream).
  vm_compute. reflexivity.
Defined.
