(* ===== verification/OpenClawFeed.v ===== *)
(** * Freshness of an OpenClaw feed

    The freshness rules of packages/openclaw/src/client.ts and their use on the
    feed an import job was queued from (packages/core/src/index.ts). *)

From Stdlib Require Import ZArith Lia SpecFloat.
From stdpp Require Import base list strings.
From S2P Require Import Prelude Js Dates Numbers Contracts Web Access.

Local Open Scope Z_scope.

Definition OPENCLAW_CLAWHUB_SKILLS_COMPATIBILITY_PROFILE : jstr := js "clawhub-live-skills-694ff719".
Definition OPENCLAW_CLAWHUB_SKILLS_FEED_ID : jstr := js "clawhub-official-skills".
Definition OPENCLAW_CLAWHUB_SKILLS_API_URL : jstr := js "https://clawhub.ai/api/v1/feeds/skills".
Definition OPENCLAW_CLAWHUB_SKILLS_MAX_TTL_MS : Z := 7 * 24 * 60 * 60 * 1000.
Definition DAY_MS : Z := 24 * 60 * 60 * 1000.

Section Feed.
Context {DR : DateRuntime} {UR : UrlRuntime}.

Definition isOpenClawClawHubSkillsCompatibilityIdentity (feedId : jstr) (sourceUrl : URL) : bool :=
  match parseURL (url_href sourceUrl) with
  | Some url => jeqb feedId OPENCLAW_CLAWHUB_SKILLS_FEED_ID &&
                jeqb (url_href url) OPENCLAW_CLAWHUB_SKILLS_API_URL
  | None => false
  end.

(** [None] is [NaN]. *)
Definition effectiveOpenClawFeedExpiry (id generatedAt expiresAt : jstr) (sourceUrl : URL) : option Z :=
  match dateParse expiresAt with
  | None => None
  | Some e =>
      if negb (isOpenClawClawHubSkillsCompatibilityIdentity id sourceUrl) then Some e
      else match dateParse generatedAt with
           | None => None
           | Some g => Some (Z.min e (g + DAY_MS))
           end
  end.

(** [compatibilityProfile] is [JUndef] when the caller passes none. *)
Definition is_profile (v : jsval) : bool :=
  match v with
  | JStr s => jeqb s OPENCLAW_CLAWHUB_SKILLS_COMPATIBILITY_PROFILE
  | _ => false
  end.
Definition isOpenClawFeedFresh (id generatedAt expiresAt : jstr) (sourceUrl : URL) (now : Z)
    (compatibilityProfile : jsval) : bool :=
  let identity := isOpenClawClawHubSkillsCompatibilityIdentity id sourceUrl in
  if jeqb id OPENCLAW_CLAWHUB_SKILLS_FEED_ID && negb identity then false
  else if negb (is_undef compatibilityProfile) && negb (is_profile compatibilityProfile) then false
  else if is_undef compatibilityProfile && identity then false
  else if negb (is_undef compatibilityProfile) && negb identity then false
  else
    let maxWireTtl := if is_profile compatibilityProfile then OPENCLAW_CLAWHUB_SKILLS_MAX_TTL_MS
                      else DAY_MS in
    match dateParse generatedAt, dateParse expiresAt,
          effectiveOpenClawFeedExpiry id generatedAt expiresAt sourceUrl with
    | Some g, Some e, Some effective =>
        (g <=? now) && (g <? e) && (e - g <=? maxWireTtl) && (now <? effective)
    | _, _, _ => false
    end.

Definition OPENCLAW_CONSUMER_UNAVAILABLE : RegistryApiError :=
  api_retry "OPENCLAW_CONSUMER_UNAVAILABLE" 503.

Definition validateOpenClawQueueFeed (feedId : jstr) (feedSequence : spec_float)
    (feedDigest sourceUrlText generatedAt expiresAt : jstr) (profile : jsval) (now : Z) : api unit :=
  match parseURL sourceUrlText with
  | None => Err OPENCLAW_CONSUMER_UNAVAILABLE
  | Some sourceUrl =>
      throw_if negb (jeqb (url_protocol sourceUrl) (js "https:")) ||
               negb (jeqb (url_username sourceUrl) []) || negb (jeqb (url_password sourceUrl) []) ||
               negb (jeqb (url_search sourceUrl) []) || negb (jeqb (url_hash sourceUrl) []) ||
               negb (jeqb (url_href sourceUrl) sourceUrlText)
        with OPENCLAW_CONSUMER_UNAVAILABLE ;;
      throw_if jeqb feedId [] || (512 <? jlen feedId) ||
               match num_to_Z feedSequence with
               | Some n => (n <? 0) || (MAX_SAFE_INTEGER <? n)
               | None => true
               end || negb (isDigest feedDigest)
        with OPENCLAW_CONSUMER_UNAVAILABLE ;;
      let compatibility := isOpenClawClawHubSkillsCompatibilityIdentity feedId sourceUrl in
      throw_if jeqb feedId OPENCLAW_CLAWHUB_SKILLS_FEED_ID && negb compatibility
        with OPENCLAW_CONSUMER_UNAVAILABLE ;;
      throw_if compatibility && negb (is_profile profile) with OPENCLAW_CONSUMER_UNAVAILABLE ;;
      throw_if negb compatibility && negb (is_undef profile) with OPENCLAW_CONSUMER_UNAVAILABLE ;;
      throw_if negb (isOpenClawFeedFresh feedId generatedAt expiresAt sourceUrl now profile)
        with OPENCLAW_CONSUMER_UNAVAILABLE ;;
      Ok tt
  end.

(** [validateOpenClawJobFeed]: a job that does not come from a feed passes. *)
Definition validateOpenClawJobFeed (job : Job) (now : Z) : api unit :=
  if negb (isObject (jb_openclawSource job)) || is_undef (field (jb_openclawSource job) "feed")
  then Ok tt
  else
    let feed := field (jb_openclawSource job) "feed" in
    throw_if negb (isObject feed) with OPENCLAW_CONSUMER_UNAVAILABLE ;;
    match field feed "id", field feed "sourceUrl", field feed "sequence", field feed "digest",
          field feed "generatedAt", field feed "expiresAt" with
    | JStr id, JStr sourceUrl, JNum sequence, JStr digest, JStr generatedAt, JStr expiresAt =>
        validateOpenClawQueueFeed id sequence digest sourceUrl generatedAt expiresAt
          (field feed "compatibilityProfile") now
    | _, _, _, _, _, _ => Err OPENCLAW_CONSUMER_UNAVAILABLE
    end.

(** A feed is accepted only within one day of its generation, under either
    profile: the seven days the compatibility producer advertises never extend
    the local validity. *)
Lemma isOpenClawFeedFresh_window id generatedAt expiresAt sourceUrl now profile :
  isOpenClawFeedFresh id generatedAt expiresAt sourceUrl now profile = true ->
  exists g, dateParse generatedAt = Some g /\ g <= now < g + DAY_MS.
Proof.
  unfold isOpenClawFeedFresh, effectiveOpenClawFeedExpiry.
  destruct (isOpenClawClawHubSkillsCompatibilityIdentity id sourceUrl);
    repeat (case_match; try done); intros Hf; bool_inv; simplify_eq;
    eexists; (split; [reflexivity|]); try lia.
  all: exfalso; destruct profile; cbn in *; try done; rewrite ?andb_true_r in *; congruence.
Qed.

(** An import that was selected from an OpenClaw feed can complete only while
    that feed is fresh: the selected feed was generated at most one day ago and
    not in the future, its URL is a credential-free HTTPS URL in canonical
    form, and its digest is well formed. *)
Theorem job_feed_fresh (job : Job) (now : Z) :
  validateOpenClawJobFeed job now = Ok tt ->
  isObject (jb_openclawSource job) = true ->
  let feed := field (jb_openclawSource job) "feed" in
  feed = JUndef \/
  exists generatedAt g digest text url,
    field feed "generatedAt" = JStr generatedAt /\ dateParse generatedAt = Some g /\
    g <= now < g + DAY_MS /\
    field feed "digest" = JStr digest /\ isDigest digest = true /\
    field feed "sourceUrl" = JStr text /\ parseURL text = Some url /\
    url_href url = text /\ url_protocol url = js "https:" /\
    url_username url = [] /\ url_password url = [].
Proof.
  unfold validateOpenClawJobFeed. intros H Ho. cbv zeta. rewrite Ho in H. cbn [negb orb] in H.
  set (feed := field (jb_openclawSource job) "feed") in *. clearbody feed.
  destruct (is_undef feed) eqn:Eu; [destruct feed; by left|]. right. ok_inv.
  destruct (field feed "id"); try done. destruct (field feed "sourceUrl") as [| | | | text | |]; try done.
  destruct (field feed "sequence"); try done. destruct (field feed "digest") as [| | | | digest | |]; try done.
  destruct (field feed "generatedAt") as [| | | | generatedAt | |]; try done.
  destruct (field feed "expiresAt"); try done.
  unfold validateOpenClawQueueFeed in H. destruct (parseURL text) as [url|] eqn:Ep; [|done].
  ok_inv. bool_inv.
  match goal with Hf : isOpenClawFeedFresh _ _ _ _ _ _ = true |- _ =>
    apply isOpenClawFeedFresh_window in Hf as (g & Hg & Hnow) end.
  jeqb_inv.
  exists generatedAt, g, digest, text, url. auto 15.
Qed.
End Feed.

(** A runtime that knows one URL, and a job selected from a feed at that URL. *)
Definition demo_url_text : jstr := js "https://feeds.example.com/skills".
Definition demo_url : URL := {|
  url_protocol := js "https:"; url_username := []; url_password := [];
  url_hostname := js "feeds.example.com"; url_port := []; url_pathname := js "/skills";
  url_search := []; url_hash := []; url_origin := js "https://feeds.example.com";
  url_href := demo_url_text |}.
Definition demo_urls : UrlRuntime := {|
  parseURL text := if jeqb text demo_url_text then Some demo_url else None |}.
Definition demo_feed_job : Job := {|
  jb_id := js "job_1"; jb_organizationId := js "acme"; jb_kind := ImportJob; jb_state := JRunning;
  jb_resourceId := None; jb_artifact := None; jb_policyRevision := js "policy-1";
  jb_policy := {| po_revision := js "policy-1"; po_scanners := []; po_allowUnscanned := false;
                  po_evidenceMaxAgeSeconds := num_zero; po_hooks := None |};
  jb_import := None; jb_upstream := None;
  jb_openclawSource := JObj [(js "feed", JObj [
    (js "id", JStr (js "example")); (js "sequence", JNum (num_of_Z 7));
    (js "digest", JStr (js "sha256:" ++ repeat 97 64)); (js "sourceUrl", JStr demo_url_text);
    (js "generatedAt", JStr (toISOString 1700000000000));
    (js "expiresAt", JStr (toISOString 1700003600000))])];
  jb_sourceAcquisition := JUndef;
  jb_sourceCatalogAliases := None; jb_createdAt := []; jb_updatedAt := []; jb_attempts := 1;
  jb_leaseToken := None; jb_leaseExpiresAt := None; jb_error := None |}.

Lemma job_feed_fresh_witness : exists g,
  dateParse (DateRuntime := iso_runtime) (toISOString 1700000000000) = Some g /\
  g <= 1700000001000 < g + DAY_MS.
Proof.
  destruct (job_feed_fresh (DR := iso_runtime) (UR := demo_urls) demo_feed_job 1700000001000)
    as [E | (ga & g & d & t & u & Hga & Hg & Hnow & _)];
    [vm_compute; reflexivity | reflexivity | discriminate E |].
  exists g. split; [|exact Hnow]. rewrite <- Hg. injection Hga as <-. reflexivity.
Defined.
