(* ===== verification/ScanEvidence.v ===== *)
(** * Scan results reported by workers

    [parseScanResult] and [parseFinding] of packages/core/src/index.ts: an
    untrusted JSON value becomes a [ScanResult] bound to the job, the
    organization, the artifact and the policy revision, or is refused. *)

From Stdlib Require Import ZArith Lia SpecFloat.
From stdpp Require Import base list strings sets.
From S2P Require Import Prelude Js Dates Numbers Contracts Web Access Names PolicyEval.

Local Open Scope Z_scope.

Definition INVALID_SCAN_RESULT : RegistryApiError := api_error "INVALID_SCAN_RESULT" 400.

(** An absent value or a string within bounds. *)
Definition optional_text (v : jsval) (minimum maximum : Z) : bool :=
  match v with
  | JUndef => true
  | JStr s => (minimum <=? jlen s) && (jlen s <=? maximum)
  | _ => false
  end.
Definition slice_to (n : nat) (o : option jstr) : option jstr := option_map (take n) o.

Definition parseFinding (raw : jsval) : api Finding :=
  throw_if negb (isObject raw) with INVALID_SCAN_RESULT ;;
  let? severity := require INVALID_SCAN_RESULT (enum_value Severity (field raw "severity")) in
  let? ruleId := require INVALID_SCAN_RESULT (stringValue (field raw "ruleId")) in
  let? fingerprint := require INVALID_SCAN_RESULT (stringValue (field raw "fingerprint")) in
  let? category := require INVALID_SCAN_RESULT (stringValue (field raw "category")) in
  let? message := require INVALID_SCAN_RESULT (stringValue (field raw "message")) in
  throw_if (128 <? jlen ruleId) || (256 <? jlen fingerprint) || (128 <? jlen category) ||
           (4096 <? jlen message) with INVALID_SCAN_RESULT ;;
  throw_if negb (optional_text (field raw "file") 1 1024) ||
           negb (optional_text (field raw "redactedEvidence") 0 2048) with INVALID_SCAN_RESULT ;;
  let? line :=
    match field raw "line" with
    | JUndef => Ok None
    | JNum x => match num_to_Z x with
                | Some n => throw_if (n <? 1) with INVALID_SCAN_RESULT ;; Ok (Some n)
                | None => Err INVALID_SCAN_RESULT
                end
    | _ => Err INVALID_SCAN_RESULT
    end in
  Ok {| fi_ruleId := ruleId; fi_fingerprint := fingerprint; fi_severity := severity;
        fi_category := category; fi_message := redactJobError message;
        fi_file := slice_to 1024 (stringValue (field raw "file")); fi_line := line;
        fi_redactedEvidence := slice_to 2048 (stringValue (field raw "redactedEvidence")) |}.

(** The bounded, non-empty strings of an array of at most 100. *)
Definition coverage_texts (v : jsval) (maximum : Z) : option (list jstr) :=
  match all_strings (fun s => negb (jeqb s []) && (jlen s <=? maximum)) v with
  | Some l => if (length l <=? 100)%nat then Some l else None
  | None => None
  end.
Definition number_value (v : jsval) : spec_float :=
  match v with
  | JNum x => x
  | _ => S754_nan
  end.
Definition parse_coverage (coverage : jsval) : option Coverage :=
  if negb (isObject coverage) then None
  else
    let sum := num_add (num_add (number_value (field coverage "filesAnalyzed"))
                                (number_value (field coverage "filesSkipped")))
                       (number_value (field coverage "filesUnsupported")) in
    filesEnumerated ← nonNegativeInteger (field coverage "filesEnumerated");
    filesAnalyzed ← nonNegativeInteger (field coverage "filesAnalyzed");
    filesSkipped ← nonNegativeInteger (field coverage "filesSkipped");
    filesUnsupported ← nonNegativeInteger (field coverage "filesUnsupported");
    if num_lt (number_value (field coverage "filesEnumerated")) sum then None
    else
      limitations ← coverage_texts (field coverage "limitations") 1024;
      externalDestinations ← coverage_texts (field coverage "externalDestinations") 255;
      Some {| cv_filesEnumerated := filesEnumerated; cv_filesAnalyzed := filesAnalyzed;
              cv_filesSkipped := filesSkipped; cv_filesUnsupported := filesUnsupported;
              cv_limitations := limitations; cv_externalDestinations := externalDestinations |}.

Section Parse.
Context {DR : DateRuntime}.

Definition parseScanResult (raw : jsval) (job : Job) (organizationId expectedDigest : jstr) (now : Z)
    : api ScanResult :=
  throw_if negb (isObject raw) with INVALID_SCAN_RESULT ;;
  let? status := require INVALID_SCAN_RESULT (enum_value ScanStatus (field raw "status")) in
  let? scannerId := require INVALID_SCAN_RESULT (enum_value ScannerId (field raw "scannerId")) in
  let? digest := require (api_error "DIGEST_MISMATCH" 409) (stringValue (field raw "artifactDigest")) in
  throw_if negb (jeqb digest expectedDigest) || negb (isDigest digest)
    with api_error "DIGEST_MISMATCH" 409 ;;
  throw_if negb (bool_decide (stringValue (field raw "organizationId") = Some organizationId)) ||
           negb (bool_decide (stringValue (field raw "jobId") = Some (jb_id job)))
    with INVALID_SCAN_RESULT ;;
  let? coverage := require INVALID_SCAN_RESULT (parse_coverage (field raw "coverage")) in
  match field raw "findings" with
  | JArr rawFindings =>
      throw_if (10000 <? Z.of_nat (length rawFindings)) with INVALID_SCAN_RESULT ;;
      let? findings := map_result parseFinding rawFindings in
      let? id := require INVALID_SCAN_RESULT (stringValue (field raw "id")) in
      let? policyRevision := require INVALID_SCAN_RESULT (stringValue (field raw "policyRevision")) in
      let? engineVersion := require INVALID_SCAN_RESULT (stringValue (field raw "engineVersion")) in
      let? rulesRevision := require INVALID_SCAN_RESULT (stringValue (field raw "rulesRevision")) in
      let? configurationHash :=
        require INVALID_SCAN_RESULT (stringValue (field raw "configurationHash")) in
      throw_if existsb (fun s => 256 <? jlen s)
                 [id; policyRevision; engineVersion; rulesRevision; configurationHash]
        with INVALID_SCAN_RESULT ;;
      let? createdAt := require INVALID_SCAN_RESULT (stringValue (field raw "createdAt")) in
      let? durationMs :=
        match dateParse createdAt, nonNegativeInteger (field raw "durationMs") with
        | Some createdAtMs, Some durationMs =>
            throw_if (now <? createdAtMs) with INVALID_SCAN_RESULT ;; Ok durationMs
        | _, _ => Err INVALID_SCAN_RESULT
        end in
      throw_if negb (optional_text (field raw "error") 0 2048) with INVALID_SCAN_RESULT ;;
      throw_if negb (jeqb policyRevision (jb_policyRevision job)) with api_error "POLICY_BLOCKED" 409 ;;
      Ok {| sr_id := id; sr_organizationId := organizationId; sr_jobId := jb_id job;
            sr_artifactDigest := digest; sr_policyRevision := policyRevision;
            sr_scannerId := scannerId; sr_engineVersion := engineVersion;
            sr_rulesRevision := rulesRevision; sr_configurationHash := configurationHash;
            sr_status := status; sr_findings := findings; sr_coverage := coverage;
            sr_createdAt := createdAt; sr_durationMs := durationMs;
            sr_error := slice_to 2048 (option_map redactJobError (stringValue (field raw "error"))) |}
  | _ => Err INVALID_SCAN_RESULT
  end.

(** ** Bindings of an accepted result *)

Record scan_bound (r : ScanResult) (job : Job) (organizationId digest : jstr) (now : Z) : Prop := {
  sb_org : sr_organizationId r = organizationId;
  sb_job : sr_jobId r = jb_id job;
  sb_artifact : sr_artifactDigest r = digest;
  sb_isDigest : isDigest digest = true;
  sb_revision : sr_policyRevision r = jb_policyRevision job;
  sb_created : exists t, dateParse (sr_createdAt r) = Some t /\ t <= now;
  sb_counts : 0 <= cv_filesEnumerated (sr_coverage r) /\ 0 <= cv_filesAnalyzed (sr_coverage r) /\
              0 <= cv_filesSkipped (sr_coverage r) /\ 0 <= cv_filesUnsupported (sr_coverage r);
  sb_findings : (length (sr_findings r) <= 10000)%nat;
  sb_texts : Forall (fun f => (length (fi_message f) <= 500)%nat) (sr_findings r) /\
             forall e, sr_error r = Some e -> (length e <= 500)%nat;
}.

Lemma redactJobError_length s : (length (redactJobError s) <= 500)%nat.
Proof. unfold redactJobError. rewrite length_take. lia. Qed.

Lemma parse_coverage_nonneg v c :
  parse_coverage v = Some c ->
  0 <= cv_filesEnumerated c /\ 0 <= cv_filesAnalyzed c /\ 0 <= cv_filesSkipped c /\
  0 <= cv_filesUnsupported c.
Proof.
  unfold parse_coverage. destruct (negb _); [done|]. intros H.
  repeat (apply bind_Some in H as (? & ?%nonNegativeInteger_nonneg & H)).
  destruct (num_lt _ _); [done|].
  apply bind_Some in H as (? & _ & H). apply bind_Some in H as (? & _ & [= <-]). done.
Qed.
Lemma parseFinding_message v f : parseFinding v = Ok f -> (length (fi_message f) <= 500)%nat.
Proof. unfold parseFinding. intros H. ok_inv. apply redactJobError_length. Qed.

Lemma parseScanResult_ok raw job organizationId digest now r :
  parseScanResult raw job organizationId digest now = Ok r ->
  scan_bound r job organizationId digest now.
Proof.
  unfold parseScanResult. intros H. ok_inv.
  destruct (field raw "findings") as [| | | | | rawFindings |]; try done. ok_inv. bool_inv.
  jeqb_inv. subst.
  split; cbn; try done.
  - destruct (dateParse _) as [t|]; [|done]. destruct (nonNegativeInteger _); [|done].
    ok_inv. bool_inv. eauto with lia.
  - by eapply parse_coverage_nonneg, require_Ok.
  - match goal with Hm : map_result _ _ = Ok _ |- _ =>
      apply map_result_Ok_Forall2, Forall2_length in Hm end. lia.
  - split.
    + match goal with Hm : map_result _ _ = Ok _ |- _ => apply map_result_Ok_Forall2 in Hm;
        revert Hm; clear end.
      induction 1 as [|x y xs ys Hx _ IH]; constructor; [by eapply parseFinding_message | done].
    + destruct (stringValue (field raw "error")); cbn; [|done]. intros e [= <-].
      rewrite length_take. pose proof (redactJobError_length l). lia.
Qed.

(** Whatever a worker sends, a result [parseScanResult] accepts is evidence for
    this organization, this job, this artifact and the policy revision the job
    was queued under; it is not dated in the future, its counts are not
    negative, and its texts are bounded and redacted. *)
Theorem parseScanResult_bound (raw : jsval) (job : Job) (organizationId digest : jstr) (now : Z)
    (r : ScanResult) :
  parseScanResult raw job organizationId digest now = Ok r ->
  scan_bound r job organizationId digest now.
Proof. apply parseScanResult_ok. Qed.
End Parse.

Definition demo_digest : jstr := js "sha256:" ++ repeat 97 64.
Definition demo_scan_report (id : string) (files : Z) (severities : list string) : jsval := JObj [
  (js "id", JStr (js id)); (js "organizationId", JStr (js "acme")); (js "jobId", JStr (js "job_1"));
  (js "artifactDigest", JStr demo_digest); (js "policyRevision", JStr (js "policy-1"));
  (js "scannerId", JStr (js "skillsguard")); (js "engineVersion", JStr (js "1"));
  (js "rulesRevision", JStr (js "1")); (js "configurationHash", JStr (js "h"));
  (js "status", JStr (js "completed"));
  (js "findings", JArr ((fun s => JObj [
     (js "severity", JStr (js s)); (js "ruleId", JStr (js "R1")); (js "fingerprint", JStr (js "f"));
     (js "category", JStr (js "c")); (js "message", JStr (js "m"))]) <$> severities));
  (js "coverage", JObj [
     (js "filesEnumerated", JNum (num_of_Z files)); (js "filesAnalyzed", JNum (num_of_Z files));
     (js "filesSkipped", JNum (num_of_Z 0)); (js "filesUnsupported", JNum (num_of_Z 0));
     (js "limitations", JArr []); (js "externalDestinations", JArr [])]);
  (js "createdAt", JStr (toISOString 1700000000000)); (js "durationMs", JNum (num_of_Z 5))].
Definition demo_scan_job : Job := {|
  jb_id := js "job_1"; jb_organizationId := js "acme"; jb_kind := ScanJob; jb_state := JRunning;
  jb_resourceId := Some (js "skill_1");
  jb_artifact := Some {| sb_key := js "k"; sb_digest := demo_digest; sb_size := 10 |};
  jb_policyRevision := js "policy-1"; jb_policy := demo_policy; jb_import := None;
  jb_upstream := None; jb_openclawSource := JUndef; jb_sourceAcquisition := JUndef;
  jb_sourceCatalogAliases := None;
  jb_createdAt := toISOString 1699999999000; jb_updatedAt := toISOString 1700000000000;
  jb_attempts := 1; jb_leaseToken := Some (js "lease_1");
  jb_leaseExpiresAt := Some (toISOString 1700000300000); jb_error := None |}.

Lemma parseScanResult_bound_witness : exists r,
  parseScanResult (DR := iso_runtime) (demo_scan_report "scan_1" 3 ["low"]) demo_scan_job (js "acme")
    demo_digest 1700000001000 = Ok r /\
  scan_bound (DR := iso_runtime) r demo_scan_job (js "acme") demo_digest 1700000001000.
Proof.
  eexists. split; [vm_compute; reflexivity|].
  apply (parseScanResult_bound (DR := iso_runtime) (demo_scan_report "scan_1" 3 ["low"])).
  vm_compute. reflexivity.
Defined.
