(* ===== verification/State.v ===== *)
(** * The registry document

    Creating, normalising and validating the state of packages/core/src/index.ts
    ([createEmptyRegistryState], [ensureState], [readState],
    [validateStateStatuses]), its audit trail and the configuration. *)

From Stdlib Require Import ZArith Lia SpecFloat.
From stdpp Require Import base list strings sets.
From S2P Require Import Prelude Js Dates Numbers Contracts Web Access Names PolicyEval Resolve.
From S2P Require Import Provenance.

Local Open Scope Z_scope.

(** ** Configuration *)

Definition DEFAULT_LEASE_SECONDS : Z := 300.
Definition DEFAULT_MAX_BODY_BYTES : Z := 10 * 1024 * 1024.
Record Configuration : Type := {
  cfg_publicOrigin : jstr;
  cfg_maxBodyBytes : Z;
  cfg_organizationId : jstr;
  cfg_leaseSeconds : Z;
}.
(** [Number.isFinite(x) && x > 0 ? Math.floor(x) : fallback]. *)
Definition positive_or (x : spec_float) (fallback : Z) : Z :=
  match num_trunc x with
  | Some n => if num_lt num_zero x then n else fallback
  | None => fallback
  end.
(** The part of [normalizeConfiguration] these handlers read. *)
Definition normalizeConfiguration (publicOrigin organizationId : jstr)
    (maxBodyBytes leaseSeconds : spec_float) : Configuration := {|
  cfg_publicOrigin := match publicOrigin with [] => js "http://localhost" | _ => publicOrigin end;
  cfg_maxBodyBytes := positive_or maxBodyBytes DEFAULT_MAX_BODY_BYTES;
  cfg_organizationId := organizationId;
  cfg_leaseSeconds := positive_or leaseSeconds DEFAULT_LEASE_SECONDS;
|}.

(** ** The document *)

Definition createEmptyRegistryState (policy : Policy) : RegistryState := {|
  st_metadataRevision := None; st_schemaVersion := 1; st_skills := []; st_drafts := None;
  st_packs := []; st_jobs := []; st_scans := []; st_policy := policy; st_upstreams := [];
  st_feeds := Some []; st_authorizations := []; st_installReceiptTickets := Some [];
  st_installReceipts := Some []; st_builderSessions := Some []; st_grants := []; st_audit := [];
|}.

(** [target.field ||= []] on the collections a stored document may lack. *)
Definition fill_collections (s : RegistryState) : RegistryState :=
  with_st_feeds (Some (default [] (st_feeds s)))
    (with_st_installReceiptTickets (Some (tickets s))
      (with_st_installReceipts (Some (receipts s))
        (with_st_builderSessions (Some (default [] (st_builderSessions s))) s))).
Definition ensureState (state : option RegistryState) (fallbackPolicy : Policy) : api RegistryState :=
  let target := default (createEmptyRegistryState fallbackPolicy) state in
  throw_if negb (st_schemaVersion target =? 1) with api_error "CLIENT_UPGRADE_REQUIRED" 500 ;;
  Ok (fill_collections target).

(** ** Audit *)

Section Audit.
Context (organizationId : jstr) (principal : Principal) (auditId : jstr) (now : Z).
Definition audit (action resourceId : jstr) (details : list (jstr * jsval)) : AuditEvent := {|
  ae_id := auditId; ae_organizationId := organizationId; ae_subject := pr_subject principal;
  ae_action := action; ae_resourceId := Some resourceId; ae_createdAt := toISOString now;
  ae_details := details |}.
End Audit.
Definition appendAudit (event : AuditEvent) (s : RegistryState) : RegistryState :=
  with_st_audit (st_audit s ++ [event]) s.

(** ** [validateStateStatuses] *)

(** The run-time tests of the literals ([DISTRIBUTION_STATES.has(state)] and the
    like) hold by typing; what remains are the organization tests, the shape of
    feeds, tickets and receipts. *)
Definition assertOrganization (value organizationId : jstr) : api unit :=
  throw_if negb (jeqb value organizationId) with INTERNAL_STATE_INVALID ;; Ok tt.
Fixpoint each {A} (check : A -> api unit) (l : list A) : api unit :=
  match l with
  | [] => Ok tt
  | x :: l' => let? _ := check x in each check l'
  end.

Section Validate.
Context {UT : UnicodeTables} {UR : UrlRuntime}.

Definition isLoopbackHost (hostname : jstr) : bool :=
  let host := toLowerCase hostname in
  jeqb host (js "localhost") || jeqb host (js "::1") || jeqb host (js "127.0.0.1") ||
  startsWith (js "127.") host.

Definition validateFeedState (feed : Feed) : api unit :=
  throw_if jeqb (fd_id feed) [] || negb (slug_like is_lower_alnum 63 (fd_name feed)) ||
           jeqb (fd_baseUrl feed) [] || jeqb (fd_configRevision feed) []
    with INTERNAL_STATE_INVALID ;;
  throw_if match fd_namespace feed with
           | None => false
           | Some (64 :: r) => negb (slug_like is_lower_alnum 63 r)
           | Some _ => true
           end with INTERNAL_STATE_INVALID ;;
  match parseURL (fd_baseUrl feed) with
  | None => Err INTERNAL_STATE_INVALID
  | Some base =>
      let loopbackHttp := jeqb (url_protocol base) (js "http:") && isLoopbackHost (url_hostname base) in
      throw_if (negb (jeqb (url_protocol base) (js "https:")) && negb loopbackHttp) ||
               negb (jeqb (url_username base) []) || negb (jeqb (url_password base) []) ||
               negb (jeqb (url_search base) []) || negb (jeqb (url_hash base) [])
        with INTERNAL_STATE_INVALID ;;
      throw_if existsb (fun repository =>
                 jeqb repository [] || (2048 <? jlen repository) ||
                 negb (isWellFormedUnicodeString repository) || existsb control_unit repository)
                 (default [] (fd_repositories feed)) with INTERNAL_STATE_INVALID ;;
      throw_if match fd_credentialEnv feed with
               | Some name => negb (env_name name)
               | None => false
               end with INTERNAL_STATE_INVALID ;;
      Ok tt
  end.
Fixpoint validate_feeds (organizationId : jstr) (names : list jstr) (l : list Feed) : api unit :=
  match l with
  | [] => Ok tt
  | feed :: l' =>
      let? _ := assertOrganization (fd_organizationId feed) organizationId in
      let? _ := validateFeedState feed in
      throw_if bool_decide (fd_name feed ∈ names) with INTERNAL_STATE_INVALID ;;
      validate_feeds organizationId (fd_name feed :: names) l'
  end.

Definition all_non_empty (l : list jstr) : bool := negb (existsb (fun s => jeqb s []) l).
Definition validateStateStatuses (s : RegistryState) (organizationId : jstr) : api unit :=
  let org value := assertOrganization value organizationId in
  let resolution_org (r : Resolution) := org (rs_organizationId r) in
  let? _ := validatePolicyRuntime (st_policy s) in
  let? _ := each (fun x => org (sk_organizationId x)) (st_skills s) in
  let? _ := each (fun x => org (pk_organizationId x)) (st_packs s) in
  let? _ := each (fun x => let? _ := org (jb_organizationId x) in
                           match jb_upstream x with
                           | Some upstream => org (us_organizationId upstream)
                           | None => Ok tt
                           end) (st_jobs s) in
  let? _ := each (fun x => org (sr_organizationId x)) (st_scans s) in
  let? _ := each (fun x => org (us_organizationId x)) (st_upstreams s) in
  let? _ := validate_feeds organizationId [] (default [] (st_feeds s)) in
  let? _ := each (fun x => let? _ := org (ia_organizationId x) in
                           resolution_org (ia_resolution x)) (st_authorizations s) in
  let? _ := each (fun x => let? _ := org (it_organizationId x) in
                           let? _ := resolution_org (it_resolution x) in
                           throw_if negb (all_non_empty [it_id x; it_authorizationId x; it_subject x;
                                                         it_issuedAt x; it_expiresAt x])
                             with INTERNAL_STATE_INVALID ;; Ok tt) (tickets s) in
  let? _ := each (fun x => let? _ := org (ir_organizationId x) in
                           let? _ := resolution_org (ir_resolution x) in
                           throw_if negb (all_non_empty [ir_id x; ir_authorizationId x; ir_ticketId x;
                                                         ir_subject x; ir_createdAt x; ir_expiresAt x])
                             with INTERNAL_STATE_INVALID ;; Ok tt) (receipts s) in
  let? _ := each (fun x => org (tg_organizationId x)) (st_grants s) in
  each (fun x => org (ae_organizationId x)) (st_audit s).

(** [readState]: [None] is a repository that failed. *)
Definition readState (read : option RegistryState) (organizationId : jstr) : api RegistryState :=
  match read with
  | None => Err (api_retry "PERSISTENCE_UNAVAILABLE" 503)
  | Some state =>
      let? normalized := ensureState (Some state) defaultPolicy in
      let? _ := validateStateStatuses normalized organizationId in
      Ok normalized
  end.
End Validate.

(** ** [resolveCurrentUploadReviewBinding] *)

Record UploadReviewBinding : Type := {
  rb_draftId : jstr;
  rb_draftRevision : Z;
  rb_contentDigest : jstr;
  rb_baseReleaseId : option jstr;
  rb_baseReleaseVersion : option jstr;
  rb_baseDigest : option jstr;
  rb_policyRevision : jstr;
}.
Definition resolveCurrentUploadReviewBinding {DR : DateRuntime} (state : RegistryState) (draftId : jstr)
    (now : Z) : option UploadReviewBinding :=
  match find_first (fun d => jeqb (dr_id d) draftId) (default [] (st_drafts state)) with
  | None => None
  | Some draft =>
      let base := match dr_baseResourceId draft with
                  | None => None
                  | Some id => find_skill state id
                  end in
      if negb (bool_decide (dr_baseResourceId draft = None)) &&
         match base with
         | None => true
         | Some b => negb (skillCurrentlyApproved state b now) ||
                     negb (bool_decide (dr_baseDigest draft = Some (sb_digest (sk_artifact b))))
         end
      then None
      else Some {| rb_draftId := dr_id draft; rb_draftRevision := dr_revision draft;
                   rb_contentDigest := dr_digest draft; rb_baseReleaseId := dr_baseResourceId draft;
                   rb_baseReleaseVersion := option_map sk_version base;
                   rb_baseDigest := dr_baseDigest draft;
                   rb_policyRevision := po_revision (st_policy state) |}
  end.

(** ** Lemmas *)

(** Every record of the document belongs to one organization. *)
Record in_organization (org : jstr) (s : RegistryState) : Prop := {
  io_skills : Forall (fun x => sk_organizationId x = org) (st_skills s);
  io_packs : Forall (fun x => pk_organizationId x = org) (st_packs s);
  io_jobs : Forall (fun x => jb_organizationId x = org) (st_jobs s);
  io_scans : Forall (fun x => sr_organizationId x = org) (st_scans s);
  io_authorizations : Forall (fun x => ia_organizationId x = org /\
                        rs_organizationId (ia_resolution x) = org) (st_authorizations s);
  io_tickets : Forall (fun x => it_organizationId x = org /\
                 rs_organizationId (it_resolution x) = org) (tickets s);
  io_receipts : Forall (fun x => ir_organizationId x = org /\
                  rs_organizationId (ir_resolution x) = org) (receipts s);
  io_grants : Forall (fun x => tg_organizationId x = org) (st_grants s);
  io_audit : Forall (fun x => ae_organizationId x = org) (st_audit s);
}.

Lemma each_ok {A} (check : A -> api unit) (l : list A) u :
  each check l = Ok u -> Forall (fun x => check x = Ok tt) l.
Proof.
  induction l as [|x l IH]; cbn; [constructor|]. intros H. ok_inv. destruct a. constructor; auto.
Qed.
Lemma assertOrganization_ok v org u : assertOrganization v org = Ok u -> v = org.
Proof. unfold assertOrganization. intros H. ok_inv. by apply negb_false_iff, jeqb_true in G. Qed.

Lemma validateStateStatuses_ok {UT : UnicodeTables} {UR : UrlRuntime} s org u :
  validateStateStatuses s org = Ok u -> in_organization org s /\ validatePolicyRuntime (st_policy s) = Ok tt.
Proof.
  unfold validateStateStatuses. intros H. ok_inv.
  repeat match goal with He : each _ _ = Ok _ |- _ => apply each_ok in He end.
  split; [|by destruct a].
  split; (eapply Forall_impl; [eassumption|]); cbv beta; intros x Hx; ok_inv;
    eauto using assertOrganization_ok.
Qed.

Lemma ensureState_ok state policy s : ensureState (Some state) policy = Ok s ->
  s = fill_collections state /\ st_schemaVersion state = 1.
Proof. unfold ensureState. intros H. ok_inv. by apply negb_false_iff, Z.eqb_eq in G. Qed.

(** The state of a transaction is the stored one with its collections filled. *)
Ltac state_inv :=
  match goal with
  | H : ensureState (Some _) _ = Ok _ |- _ => apply ensureState_ok in H as [-> ?]
  end.
