(* ===== verification/UploadReviews.v ===== *)
(** * Upload reviews: data and validation

    The types and validators of packages/upload-reviews/src/index.ts, and the
    snapshot a review works on (packages/upload-reviews/src/snapshot.ts).  A
    value that comes from a caller is a [jsval]; the validators turn it into the
    typed records of the queue or refuse it.  The error keeps its code and retry
    flag and drops its message. *)

From Stdlib Require Import ZArith Lia SpecFloat.
From stdpp Require Import base list strings sets.
From S2P Require Import Prelude Js Dates Base64 Json Wire Bundle Contracts Numbers Web Access Names.
From S2P Require Import PolicyEval Resolve Provenance State.

Local Open Scope Z_scope.

(** ** Data *)

Inductive UploadReviewState : Type :=
| RPending
| RRunning
| RPassed
| RFailed
| RStale.
#[export] Instance UploadReviewState_eq_dec : EqDecision UploadReviewState.
Proof. solve_decision. Defined.
#[export] Instance UploadReviewState_enum : StringEnum UploadReviewState := {|
  enum_values := [RPending; RRunning; RPassed; RFailed; RStale];
  enum_name v := match v with
    | RPending => js "pending"
    | RRunning => js "running"
    | RPassed => js "passed"
    | RFailed => js "failed"
    | RStale => js "stale"
    end
|}.
#[export] Instance UploadReviewState_enum_laws : EnumLaws UploadReviewState.
Proof. split; [intros []; set_solver | intros [] []; done]. Qed.

Inductive UploadReviewFileKind : Type :=
| TextKind
| BinaryKind
| OversizeKind.
#[export] Instance UploadReviewFileKind_eq_dec : EqDecision UploadReviewFileKind.
Proof. solve_decision. Defined.
#[export] Instance UploadReviewFileKind_enum : StringEnum UploadReviewFileKind := {|
  enum_values := [TextKind; BinaryKind; OversizeKind];
  enum_name v := match v with
    | TextKind => js "text"
    | BinaryKind => js "binary"
    | OversizeKind => js "oversize"
    end
|}.
#[export] Instance UploadReviewFileKind_enum_laws : EnumLaws UploadReviewFileKind.
Proof. split; [intros []; set_solver | intros [] []; done]. Qed.

Inductive UploadReviewFindingDecision : Type :=
| DecisionOpen
| DecisionAcknowledged
| DecisionDismissed.
#[export] Instance UploadReviewFindingDecision_eq_dec : EqDecision UploadReviewFindingDecision.
Proof. solve_decision. Defined.
#[export] Instance UploadReviewFindingDecision_enum : StringEnum UploadReviewFindingDecision := {|
  enum_values := [DecisionOpen; DecisionAcknowledged; DecisionDismissed];
  enum_name v := match v with
    | DecisionOpen => js "open"
    | DecisionAcknowledged => js "acknowledged"
    | DecisionDismissed => js "dismissed"
    end
|}.
#[export] Instance UploadReviewFindingDecision_enum_laws : EnumLaws UploadReviewFindingDecision.
Proof. split; [intros []; set_solver | intros [] []; done]. Qed.

#[export] Instance UploadReviewBinding_eq_dec : EqDecision UploadReviewBinding.
Proof. solve_decision. Defined.

Record UploadReviewSnapshotFile : Type := {
  sf_path : jstr;
  sf_kind : UploadReviewFileKind;
  sf_size : Z;
  sf_digest : jstr;
  sf_text : option jstr;
}.

#[export] Instance UploadReviewSnapshotFile_eq_dec : EqDecision UploadReviewSnapshotFile.
Proof. solve_decision. Defined.

(** [UploadReviewSnapshot]: an object with one member, [files]. *)
Abbreviation UploadReviewSnapshot := (list UploadReviewSnapshotFile) (only parsing).

Record UploadReviewFinding : Type := {
  uf_id : jstr;
  uf_severity : Severity;
  uf_category : jstr;
  uf_title : jstr;
  uf_summary : jstr;
  uf_evidence : option jstr;
  uf_recommendation : option jstr;
  uf_path : option jstr;
  uf_line : option Z;
  uf_decision : UploadReviewFindingDecision;
  uf_decisionReason : option jstr;
}.
Definition with_uf_decision (v : UploadReviewFindingDecision) (r : UploadReviewFinding) : UploadReviewFinding := {|
  uf_id := uf_id r; uf_severity := uf_severity r; uf_category := uf_category r;
  uf_title := uf_title r; uf_summary := uf_summary r; uf_evidence := uf_evidence r;
  uf_recommendation := uf_recommendation r; uf_path := uf_path r; uf_line := uf_line r;
  uf_decision := v; uf_decisionReason := uf_decisionReason r; |}.
Definition with_uf_decisionReason (v : option jstr) (r : UploadReviewFinding) : UploadReviewFinding := {|
  uf_id := uf_id r; uf_severity := uf_severity r; uf_category := uf_category r;
  uf_title := uf_title r; uf_summary := uf_summary r; uf_evidence := uf_evidence r;
  uf_recommendation := uf_recommendation r; uf_path := uf_path r; uf_line := uf_line r;
  uf_decision := uf_decision r; uf_decisionReason := v; |}.

#[export] Instance UploadReviewFinding_eq_dec : EqDecision UploadReviewFinding.
Proof. solve_decision. Defined.

Record UploadReviewJob : Type := {
  uj_id : jstr;
  uj_organizationId : jstr;
  uj_idempotencyKey : jstr;
  uj_binding : UploadReviewBinding;
  uj_snapshot : UploadReviewSnapshot;
  uj_model : jstr;
  uj_reviewerRevision : jstr;
  uj_state : UploadReviewState;
  uj_createdAt : jstr;
  uj_updatedAt : jstr;
  uj_startedAt : option jstr;
  uj_finishedAt : option jstr;
  uj_error : option jstr;
  uj_staleReason : option jstr;
  uj_resultId : option jstr;
  uj_eveSessionId : option jstr;
  uj_leaseToken : option jstr;
  uj_leaseExpiresAt : option jstr;
}.
Definition with_uj_state (v : UploadReviewState) (r : UploadReviewJob) : UploadReviewJob := {|
  uj_id := uj_id r; uj_organizationId := uj_organizationId r;
  uj_idempotencyKey := uj_idempotencyKey r; uj_binding := uj_binding r;
  uj_snapshot := uj_snapshot r; uj_model := uj_model r;
  uj_reviewerRevision := uj_reviewerRevision r; uj_state := v; uj_createdAt := uj_createdAt r;
  uj_updatedAt := uj_updatedAt r; uj_startedAt := uj_startedAt r;
  uj_finishedAt := uj_finishedAt r; uj_error := uj_error r; uj_staleReason := uj_staleReason r;
  uj_resultId := uj_resultId r; uj_eveSessionId := uj_eveSessionId r;
  uj_leaseToken := uj_leaseToken r; uj_leaseExpiresAt := uj_leaseExpiresAt r; |}.
Definition with_uj_updatedAt (v : jstr) (r : UploadReviewJob) : UploadReviewJob := {|
  uj_id := uj_id r; uj_organizationId := uj_organizationId r;
  uj_idempotencyKey := uj_idempotencyKey r; uj_binding := uj_binding r;
  uj_snapshot := uj_snapshot r; uj_model := uj_model r;
  uj_reviewerRevision := uj_reviewerRevision r; uj_state := uj_state r;
  uj_createdAt := uj_createdAt r; uj_updatedAt := v; uj_startedAt := uj_startedAt r;
  uj_finishedAt := uj_finishedAt r; uj_error := uj_error r; uj_staleReason := uj_staleReason r;
  uj_resultId := uj_resultId r; uj_eveSessionId := uj_eveSessionId r;
  uj_leaseToken := uj_leaseToken r; uj_leaseExpiresAt := uj_leaseExpiresAt r; |}.
Definition with_uj_startedAt (v : option jstr) (r : UploadReviewJob) : UploadReviewJob := {|
  uj_id := uj_id r; uj_organizationId := uj_organizationId r;
  uj_idempotencyKey := uj_idempotencyKey r; uj_binding := uj_binding r;
  uj_snapshot := uj_snapshot r; uj_model := uj_model r;
  uj_reviewerRevision := uj_reviewerRevision r; uj_state := uj_state r;
  uj_createdAt := uj_createdAt r; uj_updatedAt := uj_updatedAt r; uj_startedAt := v;
  uj_finishedAt := uj_finishedAt r; uj_error := uj_error r; uj_staleReason := uj_staleReason r;
  uj_resultId := uj_resultId r; uj_eveSessionId := uj_eveSessionId r;
  uj_leaseToken := uj_leaseToken r; uj_leaseExpiresAt := uj_leaseExpiresAt r; |}.
Definition with_uj_finishedAt (v : option jstr) (r : UploadReviewJob) : UploadReviewJob := {|
  uj_id := uj_id r; uj_organizationId := uj_organizationId r;
  uj_idempotencyKey := uj_idempotencyKey r; uj_binding := uj_binding r;
  uj_snapshot := uj_snapshot r; uj_model := uj_model r;
  uj_reviewerRevision := uj_reviewerRevision r; uj_state := uj_state r;
  uj_createdAt := uj_createdAt r; uj_updatedAt := uj_updatedAt r; uj_startedAt := uj_startedAt r;
  uj_finishedAt := v; uj_error := uj_error r; uj_staleReason := uj_staleReason r;
  uj_resultId := uj_resultId r; uj_eveSessionId := uj_eveSessionId r;
  uj_leaseToken := uj_leaseToken r; uj_leaseExpiresAt := uj_leaseExpiresAt r; |}.
Definition with_uj_error (v : option jstr) (r : UploadReviewJob) : UploadReviewJob := {|
  uj_id := uj_id r; uj_organizationId := uj_organizationId r;
  uj_idempotencyKey := uj_idempotencyKey r; uj_binding := uj_binding r;
  uj_snapshot := uj_snapshot r; uj_model := uj_model r;
  uj_reviewerRevision := uj_reviewerRevision r; uj_state := uj_state r;
  uj_createdAt := uj_createdAt r; uj_updatedAt := uj_updatedAt r; uj_startedAt := uj_startedAt r;
  uj_finishedAt := uj_finishedAt r; uj_error := v; uj_staleReason := uj_staleReason r;
  uj_resultId := uj_resultId r; uj_eveSessionId := uj_eveSessionId r;
  uj_leaseToken := uj_leaseToken r; uj_leaseExpiresAt := uj_leaseExpiresAt r; |}.
Definition with_uj_staleReason (v : option jstr) (r : UploadReviewJob) : UploadReviewJob := {|
  uj_id := uj_id r; uj_organizationId := uj_organizationId r;
  uj_idempotencyKey := uj_idempotencyKey r; uj_binding := uj_binding r;
  uj_snapshot := uj_snapshot r; uj_model := uj_model r;
  uj_reviewerRevision := uj_reviewerRevision r; uj_state := uj_state r;
  uj_createdAt := uj_createdAt r; uj_updatedAt := uj_updatedAt r; uj_startedAt := uj_startedAt r;
  uj_finishedAt := uj_finishedAt r; uj_error := uj_error r; uj_staleReason := v;
  uj_resultId := uj_resultId r; uj_eveSessionId := uj_eveSessionId r;
  uj_leaseToken := uj_leaseToken r; uj_leaseExpiresAt := uj_leaseExpiresAt r; |}.
Definition with_uj_resultId (v : option jstr) (r : UploadReviewJob) : UploadReviewJob := {|
  uj_id := uj_id r; uj_organizationId := uj_organizationId r;
  uj_idempotencyKey := uj_idempotencyKey r; uj_binding := uj_binding r;
  uj_snapshot := uj_snapshot r; uj_model := uj_model r;
  uj_reviewerRevision := uj_reviewerRevision r; uj_state := uj_state r;
  uj_createdAt := uj_createdAt r; uj_updatedAt := uj_updatedAt r; uj_startedAt := uj_startedAt r;
  uj_finishedAt := uj_finishedAt r; uj_error := uj_error r; uj_staleReason := uj_staleReason r;
  uj_resultId := v; uj_eveSessionId := uj_eveSessionId r; uj_leaseToken := uj_leaseToken r;
  uj_leaseExpiresAt := uj_leaseExpiresAt r; |}.
Definition with_uj_eveSessionId (v : option jstr) (r : UploadReviewJob) : UploadReviewJob := {|
  uj_id := uj_id r; uj_organizationId := uj_organizationId r;
  uj_idempotencyKey := uj_idempotencyKey r; uj_binding := uj_binding r;
  uj_snapshot := uj_snapshot r; uj_model := uj_model r;
  uj_reviewerRevision := uj_reviewerRevision r; uj_state := uj_state r;
  uj_createdAt := uj_createdAt r; uj_updatedAt := uj_updatedAt r; uj_startedAt := uj_startedAt r;
  uj_finishedAt := uj_finishedAt r; uj_error := uj_error r; uj_staleReason := uj_staleReason r;
  uj_resultId := uj_resultId r; uj_eveSessionId := v; uj_leaseToken := uj_leaseToken r;
  uj_leaseExpiresAt := uj_leaseExpiresAt r; |}.
Definition with_uj_leaseToken (v : option jstr) (r : UploadReviewJob) : UploadReviewJob := {|
  uj_id := uj_id r; uj_organizationId := uj_organizationId r;
  uj_idempotencyKey := uj_idempotencyKey r; uj_binding := uj_binding r;
  uj_snapshot := uj_snapshot r; uj_model := uj_model r;
  uj_reviewerRevision := uj_reviewerRevision r; uj_state := uj_state r;
  uj_createdAt := uj_createdAt r; uj_updatedAt := uj_updatedAt r; uj_startedAt := uj_startedAt r;
  uj_finishedAt := uj_finishedAt r; uj_error := uj_error r; uj_staleReason := uj_staleReason r;
  uj_resultId := uj_resultId r; uj_eveSessionId := uj_eveSessionId r; uj_leaseToken := v;
  uj_leaseExpiresAt := uj_leaseExpiresAt r; |}.
Definition with_uj_leaseExpiresAt (v : option jstr) (r : UploadReviewJob) : UploadReviewJob := {|
  uj_id := uj_id r; uj_organizationId := uj_organizationId r;
  uj_idempotencyKey := uj_idempotencyKey r; uj_binding := uj_binding r;
  uj_snapshot := uj_snapshot r; uj_model := uj_model r;
  uj_reviewerRevision := uj_reviewerRevision r; uj_state := uj_state r;
  uj_createdAt := uj_createdAt r; uj_updatedAt := uj_updatedAt r; uj_startedAt := uj_startedAt r;
  uj_finishedAt := uj_finishedAt r; uj_error := uj_error r; uj_staleReason := uj_staleReason r;
  uj_resultId := uj_resultId r; uj_eveSessionId := uj_eveSessionId r;
  uj_leaseToken := uj_leaseToken r; uj_leaseExpiresAt := v; |}.

#[export] Instance UploadReviewJob_eq_dec : EqDecision UploadReviewJob.
Proof. solve_decision. Defined.

Record UploadReviewResult : Type := {
  ur_id : jstr;
  ur_jobId : jstr;
  ur_organizationId : jstr;
  ur_binding : UploadReviewBinding;
  ur_model : jstr;
  ur_reviewerRevision : jstr;
  ur_state : UploadReviewState;
  ur_findings : list UploadReviewFinding;
  ur_createdAt : jstr;
  ur_finishedAt : jstr;
  ur_error : option jstr;
  ur_staleReason : option jstr;
}.
Definition with_ur_state (v : UploadReviewState) (r : UploadReviewResult) : UploadReviewResult := {|
  ur_id := ur_id r; ur_jobId := ur_jobId r; ur_organizationId := ur_organizationId r;
  ur_binding := ur_binding r; ur_model := ur_model r;
  ur_reviewerRevision := ur_reviewerRevision r; ur_state := v; ur_findings := ur_findings r;
  ur_createdAt := ur_createdAt r; ur_finishedAt := ur_finishedAt r; ur_error := ur_error r;
  ur_staleReason := ur_staleReason r; |}.
Definition with_ur_findings (v : list UploadReviewFinding) (r : UploadReviewResult) : UploadReviewResult := {|
  ur_id := ur_id r; ur_jobId := ur_jobId r; ur_organizationId := ur_organizationId r;
  ur_binding := ur_binding r; ur_model := ur_model r;
  ur_reviewerRevision := ur_reviewerRevision r; ur_state := ur_state r; ur_findings := v;
  ur_createdAt := ur_createdAt r; ur_finishedAt := ur_finishedAt r; ur_error := ur_error r;
  ur_staleReason := ur_staleReason r; |}.
Definition with_ur_finishedAt (v : jstr) (r : UploadReviewResult) : UploadReviewResult := {|
  ur_id := ur_id r; ur_jobId := ur_jobId r; ur_organizationId := ur_organizationId r;
  ur_binding := ur_binding r; ur_model := ur_model r;
  ur_reviewerRevision := ur_reviewerRevision r; ur_state := ur_state r;
  ur_findings := ur_findings r; ur_createdAt := ur_createdAt r; ur_finishedAt := v;
  ur_error := ur_error r; ur_staleReason := ur_staleReason r; |}.
Definition with_ur_staleReason (v : option jstr) (r : UploadReviewResult) : UploadReviewResult := {|
  ur_id := ur_id r; ur_jobId := ur_jobId r; ur_organizationId := ur_organizationId r;
  ur_binding := ur_binding r; ur_model := ur_model r;
  ur_reviewerRevision := ur_reviewerRevision r; ur_state := ur_state r;
  ur_findings := ur_findings r; ur_createdAt := ur_createdAt r; ur_finishedAt := ur_finishedAt r;
  ur_error := ur_error r; ur_staleReason := v; |}.

(** [UploadReviewRegistryState]: the document and the two collections the queue
    adds to it. *)
Record ReviewDoc : Type := {
  rv_state : RegistryState;
  rv_jobs : option (list UploadReviewJob);
  rv_results : option (list UploadReviewResult);
}.

(** ** Errors *)

Inductive ReviewError : Type :=
| UploadReviewError (code : jstr) (retryable : bool)
| RangeError          (* [toISOString] of an invalid time *)
| FuelExhausted.      (* not an error of the code; see [pruneCollections] *)
Abbreviation rv A := (result ReviewError A) (only parsing).

Definition UploadReviewValidationError : ReviewError :=
  UploadReviewError (js "INVALID_UPLOAD_REVIEW_INPUT") false.
Definition UploadReviewNotFoundError : ReviewError :=
  UploadReviewError (js "UPLOAD_REVIEW_NOT_FOUND") false.
Definition UploadReviewConflictError : ReviewError :=
  UploadReviewError (js "UPLOAD_REVIEW_CONFLICT") false.
Definition UploadReviewBindingStaleError : ReviewError :=
  UploadReviewError (js "UPLOAD_REVIEW_BINDING_STALE") false.
Definition LEASE_FENCED : ReviewError := UploadReviewError (js "UPLOAD_REVIEW_LEASE_FENCED") false.
Definition LEASE_EXPIRED : ReviewError := UploadReviewError (js "UPLOAD_REVIEW_LEASE_EXPIRED") true.
Definition RETENTION_LIMIT : ReviewError := UploadReviewError (js "UPLOAD_REVIEW_RETENTION_LIMIT") false.

(** ** Limits *)

Definition MAX_UPLOAD_REVIEW_FILES : Z := 2000.
Definition MAX_UPLOAD_REVIEW_FILE_BYTES : Z := 10 * 1024 * 1024.
Definition MAX_UPLOAD_REVIEW_TEXT_CHARS : Z := 16000.
Definition MAX_UPLOAD_REVIEW_TOTAL_TEXT_CHARS : Z := 160000.
Definition MAX_UPLOAD_REVIEW_FINDINGS : Z := 60.
Definition MAX_UPLOAD_REVIEW_JOBS : nat := 100.
Definition MAX_UPLOAD_REVIEW_RESULTS : nat := 100.
Definition DEFAULT_UPLOAD_REVIEW_LEASE_SECONDS : Z := 15 * 60.
Definition MAX_ID_LENGTH : Z := 256.
Definition MAX_KEY_LENGTH : Z := 2048.
Definition MAX_MODEL_LENGTH : Z := 256.
Definition MAX_POLICY_LENGTH : Z := 256.
Definition MAX_VERSION_LENGTH : Z := 128.
Definition MAX_TITLE_LENGTH : Z := 256.
Definition MAX_CATEGORY_LENGTH : Z := 128.
Definition MAX_SUMMARY_LENGTH : Z := 4000.
Definition MAX_EVIDENCE_LENGTH : Z := 4000.
Definition MAX_RECOMMENDATION_LENGTH : Z := 4000.
Definition MAX_REASON_LENGTH : Z := 1000.
Definition MAX_PATH_LENGTH : Z := 4096.

(** ** Strings, numbers and clocks *)

(** [CONTROL_CHARACTER] is the class of the same name in the bundle validator. *)
Definition unsupported_text_control (c : Z) : bool :=
  between 0 c 8 || (c =? 11) || (c =? 12) || between 14 c 31 || (c =? 127).
Definition UNSUPPORTED_TEXT_CONTROL_CHARACTER (s : jstr) : bool := existsb unsupported_text_control s.

Definition boundedString (value : jsval) (maximum : Z) : rv jstr :=
  match value with
  | JStr s =>
      let result := trim s in
      throw_if (jlen result =? 0) with UploadReviewValidationError ;;
      throw_if (maximum <? jlen result) with UploadReviewValidationError ;;
      throw_if CONTROL_CHARACTER result with UploadReviewValidationError ;;
      Ok result
  | _ => Err UploadReviewValidationError
  end.

(** [[...value].length] counts code points. *)
Definition characters (s : jstr) : Z := Z.of_nat (length (code_points s)).
Definition boundedText (value : jsval) (maximum : Z) (allowEmpty : bool) : rv jstr :=
  match value with
  | JStr s =>
      throw_if negb allowEmpty && (jlen (trim s) =? 0) with UploadReviewValidationError ;;
      throw_if (maximum <? characters s) with UploadReviewValidationError ;;
      throw_if UNSUPPORTED_TEXT_CONTROL_CHARACTER s with UploadReviewValidationError ;;
      Ok s
  | _ => Err UploadReviewValidationError
  end.

(** [value === undefined ? undefined : check(value)]. *)
Definition optional {A} (value : jsval) (check : jsval -> rv A) : rv (option A) :=
  match value with
  | JUndef => Ok None
  | _ => let? v := check value in Ok (Some v)
  end.
Definition optionalString (value : jsval) (maximum : Z) : rv (option jstr) :=
  optional value (fun v => boundedString v maximum).

Definition validateDigest (value : jsval) : rv jstr :=
  let? result := boundedString value 80 in
  throw_if negb (isDigest result) with UploadReviewValidationError ;;
  Ok result.
Definition validateRevision (value : jsval) : rv Z :=
  match value with
  | JNum x => match num_to_Z x with
              | Some n => throw_if (n <? 1) || (2 ^ 31 - 1 <? n) with UploadReviewValidationError ;; Ok n
              | None => Err UploadReviewValidationError
              end
  | _ => Err UploadReviewValidationError
  end.

(** A time the caller may supply.  [None] is the time value of an invalid
    [Date], or a number that is not finite; other numbers are integral counts of
    milliseconds, as [Date.now()] returns them. *)
Inductive ReviewNow : Type :=
| NowDefault
| NowDate (time : option Z)
| NowNumber (number : option Z)
| NowString (text : jstr).
Record Clock : Type := { ck_milliseconds : Z; ck_iso : jstr }.

(** [new Date(ms).toISOString()]. *)
Definition isoString (ms : Z) : rv jstr :=
  throw_if negb (valid_time ms) with RangeError ;; Ok (toISOString ms).

Definition parseClock `{DateRuntime} (systemTime : Z) (value : ReviewNow) : rv Clock :=
  match match value with
        | NowDefault => Some systemTime
        | NowDate time => time
        | NowNumber number => number
        | NowString text => dateParse text
        end with
  | None => Err UploadReviewValidationError
  | Some milliseconds =>
      let? iso := isoString milliseconds in
      Ok {| ck_milliseconds := milliseconds; ck_iso := iso |}
  end.

(** ** Bindings and snapshots *)

Definition validateBinding (value : jsval) : rv UploadReviewBinding :=
  throw_if negb (isRecord value) with UploadReviewValidationError ;;
  let? baseReleaseId := optionalString (field value "baseReleaseId") MAX_ID_LENGTH in
  let? baseReleaseVersion := optionalString (field value "baseReleaseVersion") MAX_VERSION_LENGTH in
  let? baseDigest := optional (field value "baseDigest") validateDigest in
  let? draftId := boundedString (field value "draftId") MAX_ID_LENGTH in
  let? draftRevision := validateRevision (field value "draftRevision") in
  let? contentDigest := validateDigest (field value "contentDigest") in
  let? policyRevision := boundedString (field value "policyRevision") MAX_POLICY_LENGTH in
  Ok {| rb_draftId := draftId; rb_draftRevision := draftRevision; rb_contentDigest := contentDigest;
        rb_baseReleaseId := baseReleaseId; rb_baseReleaseVersion := baseReleaseVersion;
        rb_baseDigest := baseDigest; rb_policyRevision := policyRevision |}.

(** A typed value as the object it is: an absent member is not there. *)
Definition member {A} (key : string) (f : A -> jsval) (o : option A) : list (jstr * jsval) :=
  match o with
  | Some a => [(js key, f a)]
  | None => []
  end.
Definition binding_value (b : UploadReviewBinding) : jsval := JObj (
  [(js "draftId", JStr (rb_draftId b)); (js "draftRevision", JNum (num_of_Z (rb_draftRevision b)));
   (js "contentDigest", JStr (rb_contentDigest b))] ++
  member "baseReleaseId" JStr (rb_baseReleaseId b) ++
  member "baseReleaseVersion" JStr (rb_baseReleaseVersion b) ++
  member "baseDigest" JStr (rb_baseDigest b) ++
  [(js "policyRevision", JStr (rb_policyRevision b))]).

Definition unsafe_review_path (path : jstr) : bool :=
  startsWith [47] path || endsWith [47] path || includes [92] path ||
  existsb (fun segment => (jlen segment =? 0) || jeqb segment (js ".") || jeqb segment (js ".."))
    (split 47 path).

Definition validateSnapshotFile (value : jsval) : rv UploadReviewSnapshotFile :=
  throw_if negb (isRecord value) with UploadReviewValidationError ;;
  let? path := boundedString (field value "path") MAX_PATH_LENGTH in
  throw_if unsafe_review_path path with UploadReviewValidationError ;;
  let? kind := require UploadReviewValidationError (enum_value UploadReviewFileKind (field value "kind")) in
  let? size := match field value "size" with
               | JNum x => match num_to_Z x with
                           | Some n => throw_if (n <? 0) || (MAX_UPLOAD_REVIEW_FILE_BYTES <? n)
                                         with UploadReviewValidationError ;; Ok n
                           | None => Err UploadReviewValidationError
                           end
               | _ => Err UploadReviewValidationError
               end in
  let? digest := validateDigest (field value "digest") in
  match kind with
  | TextKind =>
      let? text := boundedText (field value "text") MAX_UPLOAD_REVIEW_TEXT_CHARS true in
      throw_if (size <? jlen (textEncode text)) with UploadReviewValidationError ;;
      Ok {| sf_path := path; sf_kind := kind; sf_size := size; sf_digest := digest; sf_text := Some text |}
  | _ =>
      throw_if negb (is_undef (field value "text")) with UploadReviewValidationError ;;
      Ok {| sf_path := path; sf_kind := kind; sf_size := size; sf_digest := digest; sf_text := None |}
  end.

Definition compareSnapshotFiles (left right : UploadReviewSnapshotFile) : comparison :=
  jcompare (sf_path left) (sf_path right).
Definition text_characters (f : UploadReviewSnapshotFile) : Z :=
  match sf_text f with
  | Some text => characters text
  | None => 0
  end.
Definition total_characters (files : list UploadReviewSnapshotFile) : Z :=
  foldr (fun f n => text_characters f + n) 0 files.

Section Snapshot.
Context {UT : UnicodeTables}.

(** The keys of the loop over the files are pairwise different. *)
Definition snapshot_key (f : UploadReviewSnapshotFile) : jstr := toLowerCase (normalizeNFC (sf_path f)).
Definition validateSnapshot (value : jsval) : rv UploadReviewSnapshot :=
  match value with
  | JObj _ =>
      match field value "files" with
      | JArr l =>
          throw_if (MAX_UPLOAD_REVIEW_FILES <? Z.of_nat (length l)) with UploadReviewValidationError ;;
          let? files := map_result validateSnapshotFile l in
          throw_if negb (all_distinct (snapshot_key <$> files)) with UploadReviewValidationError ;;
          throw_if (MAX_UPLOAD_REVIEW_TOTAL_TEXT_CHARS <? total_characters files)
            with UploadReviewValidationError ;;
          Ok (js_sort compareSnapshotFiles files)
      | _ => Err UploadReviewValidationError
      end
  | _ => Err UploadReviewValidationError
  end.
End Snapshot.

(** ** Comparison by text *)

Definition wire_member {A} (key : string) (f : A -> wire) (o : option A) : list (jstr * wire) :=
  match o with
  | Some a => [(js key, f a)]
  | None => []
  end.
Definition binding_members (b : UploadReviewBinding) : list (jstr * wire) :=
  [(js "draftId", WStr (rb_draftId b)); (js "draftRevision", WInt (rb_draftRevision b));
   (js "contentDigest", WStr (rb_contentDigest b))] ++
  wire_member "baseReleaseId" WStr (rb_baseReleaseId b) ++
  wire_member "baseReleaseVersion" WStr (rb_baseReleaseVersion b) ++
  wire_member "baseDigest" WStr (rb_baseDigest b) ++
  [(js "policyRevision", WStr (rb_policyRevision b))].
(** [JSON.stringify] of two bindings whose members have the order
    [validateBinding] gives them, which the repository keeps. *)
Definition sameBinding (left right : UploadReviewBinding) : bool :=
  jeqb (json_text (WObj (binding_members left))) (json_text (WObj (binding_members right))).

Definition file_wire (f : UploadReviewSnapshotFile) : wire := WObj (
  [(js "path", WStr (sf_path f)); (js "kind", WStr (enum_name (sf_kind f)));
   (js "size", WInt (sf_size f)); (js "digest", WStr (sf_digest f))] ++
  wire_member "text" WStr (sf_text f)).
Definition snapshot_wire (s : UploadReviewSnapshot) : wire :=
  WObj [(js "files", WArr (file_wire <$> js_sort compareSnapshotFiles s))].
Definition sameSnapshot (left right : UploadReviewSnapshot) : bool :=
  jeqb (json_text (snapshot_wire left)) (json_text (snapshot_wire right)).

(** ** Requests *)

Definition uploadReviewIdempotencyKey (binding : jsval) (reviewerRevision : jsval) (model : jsval)
    : rv jstr :=
  let? normalized := validateBinding binding in
  let? revision := boundedString reviewerRevision MAX_VERSION_LENGTH in
  let? normalizedModel := optional model (fun v => boundedString v MAX_MODEL_LENGTH) in
  Ok (join [58] [js "upload-edit-review"; rb_draftId normalized; js_of_Z (rb_draftRevision normalized);
                 rb_contentDigest normalized; default (js "-") (rb_baseReleaseId normalized);
                 default (js "-") (rb_baseDigest normalized); rb_policyRevision normalized; revision;
                 default (js "-") normalizedModel]).

Record EnqueueRequest : Type := {
  eq_idempotencyKey : jstr;
  eq_binding : UploadReviewBinding;
  eq_snapshot : UploadReviewSnapshot;
  eq_model : jstr;
  eq_reviewerRevision : jstr;
  eq_clock : Clock;
}.
(** The [now] member of the input is passed beside it. *)
Definition normalizeEnqueueInput `{UnicodeTables} `{DateRuntime} (systemTime : Z) (input : jsval)
    (now : ReviewNow) : rv EnqueueRequest :=
  throw_if negb (isRecord input) with UploadReviewValidationError ;;
  let? binding := validateBinding (field input "binding") in
  let? snapshot := validateSnapshot (field input "snapshot") in
  let? model := boundedString (field input "model") MAX_MODEL_LENGTH in
  let? reviewerRevision := boundedString (field input "reviewerRevision") MAX_VERSION_LENGTH in
  let? idempotencyKey :=
    match field input "idempotencyKey" with
    | JUndef => uploadReviewIdempotencyKey (binding_value binding) (JStr reviewerRevision) (JStr model)
    | key => boundedString key MAX_KEY_LENGTH
    end in
  let? clock := parseClock systemTime now in
  Ok {| eq_idempotencyKey := idempotencyKey; eq_binding := binding; eq_snapshot := snapshot;
        eq_model := model; eq_reviewerRevision := reviewerRevision; eq_clock := clock |}.

Definition sameRequest (job : UploadReviewJob) (input : EnqueueRequest) : bool :=
  sameBinding (uj_binding job) (eq_binding input) && sameSnapshot (uj_snapshot job) (eq_snapshot input) &&
  jeqb (uj_model job) (eq_model input) && jeqb (uj_reviewerRevision job) (eq_reviewerRevision input).

(** [findingId] is the id [randomId] returns for the finding at an index. *)
Definition validateFinding (paths : list jstr) (findingId : jstr) (finding : jsval)
    : rv UploadReviewFinding :=
  throw_if negb (isRecord finding) with UploadReviewValidationError ;;
  let? severity := require UploadReviewValidationError (enum_value Severity (field finding "severity")) in
  let? path := optional (field finding "path") (fun v => boundedString v MAX_PATH_LENGTH) in
  throw_if match path with
           | Some p => negb (bool_decide (p ∈ paths))
           | None => false
           end with UploadReviewValidationError ;;
  let? line := optional (field finding "line") validateRevision in
  let? evidence := optional (field finding "evidence") (fun v => boundedText v MAX_EVIDENCE_LENGTH false) in
  let? recommendation :=
    optional (field finding "recommendation") (fun v => boundedText v MAX_RECOMMENDATION_LENGTH false) in
  let? category := boundedString (field finding "category") MAX_CATEGORY_LENGTH in
  let? title := boundedString (field finding "title") MAX_TITLE_LENGTH in
  let? summary := boundedText (field finding "summary") MAX_SUMMARY_LENGTH false in
  Ok {| uf_id := findingId; uf_severity := severity; uf_category := category; uf_title := title;
        uf_summary := summary; uf_evidence := evidence; uf_recommendation := recommendation;
        uf_path := path; uf_line := line; uf_decision := DecisionOpen; uf_decisionReason := None |}.
Definition validateFindings (findingIds : nat -> jstr) (findings : jsval) (snapshot : UploadReviewSnapshot)
    : rv (list UploadReviewFinding) :=
  match findings with
  | JArr l =>
      throw_if (MAX_UPLOAD_REVIEW_FINDINGS <? Z.of_nat (length l)) with UploadReviewValidationError ;;
      map_result (fun p => validateFinding (sf_path <$> snapshot) (findingIds p.1) p.2)
        (imap (fun i v => (i, v)) l)
  | _ => Err UploadReviewValidationError
  end.

(** ** [redactError] *)

Definition REVIEW_SECRET_WORDS : list jstr := js <$> ["token"; "secret"; "password"; "authorization"].
Definition review_bearer (s : jstr) : option (jstr * jstr) :=
  if starts_folded (js "bearer") s then
    match span_while is_js_space (drop 6 s) with
    | (_ :: _, r) => match span_while secret_value_char r with
                     | (_ :: _, rest) => Some (js "Bearer [redacted]", rest)
                     | _ => None
                     end
    | _ => None
    end
  else None.
Definition review_assignment (s : jstr) : option (jstr * jstr) :=
  match find_first (fun w => starts_folded w s) REVIEW_SECRET_WORDS with
  | Some w => match assignment_tail (drop (length w) s) with
              | Some rest => Some (take (length w) s ++ js "=[redacted]", rest)
              | None => None
              end
  | None => None
  end.
Definition space_run (s : jstr) : option (jstr * jstr) :=
  match span_while is_js_space s with
  | (_ :: _, rest) => Some ([32], rest)
  | _ => None
  end.
Definition redactError (error : jstr) : jstr :=
  let replace f s := replace_all (length s) f s in
  match take (Z.to_nat MAX_REASON_LENGTH)
          (trim (replace space_run (replace review_assignment (replace review_bearer error)))) with
  | [] => js "upload review failed"
  | text => text
  end.

