(* ===== verification/ReviewSnapshot.v ===== *)
(** * The snapshot a review works on

    [createUploadReviewSnapshot] of packages/upload-reviews/src/snapshot.ts: a
    validated bundle becomes the bounded view the reviewer gets.  The snapshot
    is what [validateSnapshot] of the queue accepts, unchanged
    ([snapshot_accepted]), as long as no path starts or ends with white space;
    the queue trims such a path ([snapshot_path_trimmed]). *)

From Stdlib Require Import ZArith Lia SpecFloat.
From stdpp Require Import base list sorting strings sets.
From S2P Require Import Prelude Js Dates Base64 Json Wire Bundle Contracts Numbers Web Access Names.
From S2P Require Import PolicyEval Resolve Provenance State UploadReviews.

Local Open Scope Z_scope.

Definition TEXT_FILENAMES : list jstr := js <$> ["skill.md"; "readme"; "readme.md"; "license"; "license.md"].
Definition TEXT_EXTENSIONS : list jstr := js <$>
  [".c"; ".cc"; ".cfg"; ".conf"; ".cpp"; ".css"; ".csv"; ".go"; ".h"; ".hpp"; ".html"; ".ini";
   ".java"; ".js"; ".json"; ".jsx"; ".log"; ".md"; ".mjs"; ".py"; ".rs"; ".sh"; ".sql"; ".toml";
   ".ts"; ".tsx"; ".txt"; ".yaml"; ".yml"].

(** [s.slice(s.lastIndexOf(c))], when the character occurs. *)
Fixpoint from_last (c : Z) (s : jstr) : option jstr :=
  match s with
  | [] => None
  | u :: r => match from_last c r with
              | Some t => Some t
              | None => if u =? c then Some s else None
              end
  end.

Section CreateSnapshot.
Context {UT : UnicodeTables} {CR : Crypto}.

Definition isTextPath (path : jstr) : bool :=
  let basename := toLowerCase (match from_last 47 path with
                               | Some (_ :: r) => r
                               | _ => path
                               end) in
  bool_decide (basename ∈ TEXT_FILENAMES) ||
  match from_last 46 basename with
  | Some extension => bool_decide (extension ∈ TEXT_EXTENSIONS)
  | None => false
  end.

(** The view of one file, given the characters exposed so far. *)
Definition snapshot_file (exposedTextCharacters : Z) (path : jstr) (bytes : list Z)
    : UploadReviewSnapshotFile :=
  let metadata kind := {| sf_path := path; sf_kind := kind; sf_size := jlen bytes;
                          sf_digest := digestBytes bytes; sf_text := None |} in
  if negb (isTextPath path) || (MAX_UPLOAD_REVIEW_TEXT_CHARS <? jlen bytes) then
    metadata (if MAX_UPLOAD_REVIEW_TEXT_CHARS <? jlen bytes then OversizeKind else BinaryKind)
  else
    match textDecode bytes with
    | None => metadata BinaryKind
    | Some text =>
        if UNSUPPORTED_TEXT_CONTROL_CHARACTER text then metadata BinaryKind
        else if MAX_UPLOAD_REVIEW_TOTAL_TEXT_CHARS <? exposedTextCharacters + characters text
        then metadata OversizeKind
        else {| sf_path := path; sf_kind := TextKind; sf_size := jlen bytes;
                sf_digest := digestBytes bytes; sf_text := Some text |}
    end.

(** The loop over the sorted files.  [atob] throws on a text that is not
    base64, which a validated bundle does not have. *)
Fixpoint snapshot_files (exposedTextCharacters : Z) (l : list BundleFile)
    : bresult (list UploadReviewSnapshotFile) :=
  match l with
  | [] => Ok []
  | f :: l' =>
      match atob (content f) with
      | None => Err (bundle_error invalid_base64 (path f))
      | Some bytes =>
          let file := snapshot_file exposedTextCharacters (path f) bytes in
          let? rest := snapshot_files (exposedTextCharacters + text_characters file) l' in
          Ok (file :: rest)
      end
  end.

Definition createUploadReviewSnapshot (fs : list BundleFile) : bresult UploadReviewSnapshot :=
  let? bundle := validateBundle (bundle_value {| files := fs |}) in
  snapshot_files 0 (js_sort comparePaths (files bundle)).

(** The snapshot as the object the queue receives. *)
Definition snapshot_file_value (f : UploadReviewSnapshotFile) : jsval := JObj (
  [(js "path", JStr (sf_path f)); (js "kind", JStr (enum_name (sf_kind f)));
   (js "size", JNum (num_of_Z (sf_size f))); (js "digest", JStr (sf_digest f))] ++
  member "text" JStr (sf_text f)).
Definition snapshot_value (s : UploadReviewSnapshot) : jsval :=
  JObj [(js "files", JArr (snapshot_file_value <$> s))].
End CreateSnapshot.

(** ** Lemmas *)

Lemma trimStart_id s : match s with c :: _ => is_js_space c = false | [] => True end -> trimStart s = s.
Proof. destruct s as [|c s]; cbn; [done|]. by intros ->. Qed.
Lemma trim_no_space s : Forall (fun c => is_js_space c = false) s -> trim s = s.
Proof.
  intros Hs. unfold trim. assert (Hr := Hs). apply Forall_reverse in Hr.
  rewrite (trimStart_id s) by (by destruct Hs). rewrite trimStart_id by (by destruct Hr).
  apply reverse_involutive.
Qed.

Lemma digest_plain d : isDigest d = true ->
  Forall (fun c => is_js_space c = false /\ is_control c = false) d /\ jlen d = 71.
Proof.
  unfold isDigest. intros [[H0 H1]%andb_true_iff H]%andb_true_iff. apply startsWith_spec in H0 as [r ->].
  apply Nat.eqb_eq in H1. split; [|unfold jlen; lia]. apply Forall_app. split.
  - repeat constructor.
  - rewrite drop_app_length' in H by done. apply Is_true_true, forallb_True in H.
    eapply Forall_impl; [exact H|]. intros c Hc%Is_true_true. cbn in Hc.
    unfold is_hex_lower, is_digit in Hc. unfold is_js_space, is_control.
    apply orb_true_iff in Hc. rewrite !between_spec in Hc.
    split; repeat (apply orb_false_iff; split); try (apply between_false; lia); apply Z.eqb_neq; lia.
Qed.
Lemma validateDigest_id d : isDigest d = true -> validateDigest (JStr d) = Ok d.
Proof.
  intros Hd. destruct (digest_plain d Hd) as [Hp Hl]. unfold validateDigest, boundedString.
  rewrite trim_no_space by (eapply Forall_impl; [exact Hp | cbn; tauto]).
  rewrite Hl. cbn [rbind Z.eqb Z.ltb Z.compare]. unfold CONTROL_CHARACTER.
  rewrite (proj2 (existsb_false_Forall _ _)); [cbn; by rewrite Hd|].
  eapply Forall_impl; [exact Hp | cbn; tauto].
Qed.

(** What the queue asks of a file, once its path is trimmed. *)
Record reviewable (f : UploadReviewSnapshotFile) : Prop := {
  rw_trim : trim (sf_path f) = sf_path f;
  rw_nonempty : sf_path f <> [];
  rw_length : jlen (sf_path f) <= MAX_PATH_LENGTH;
  rw_control : CONTROL_CHARACTER (sf_path f) = false;
  rw_safe : unsafe_review_path (sf_path f) = false;
  rw_size : 0 <= sf_size f <= MAX_UPLOAD_REVIEW_FILE_BYTES;
  rw_digest : isDigest (sf_digest f) = true;
  rw_text : match sf_text f with
            | Some text => sf_kind f = TextKind /\ characters text <= MAX_UPLOAD_REVIEW_TEXT_CHARS /\
                           UNSUPPORTED_TEXT_CONTROL_CHARACTER text = false /\
                           jlen (textEncode text) <= sf_size f
            | None => sf_kind f <> TextKind
            end;
}.

Lemma snapshot_fields f :
  field (snapshot_file_value f) "path" = JStr (sf_path f) /\
  field (snapshot_file_value f) "kind" = JStr (enum_name (sf_kind f)) /\
  field (snapshot_file_value f) "size" = JNum (num_of_Z (sf_size f)) /\
  field (snapshot_file_value f) "digest" = JStr (sf_digest f) /\
  field (snapshot_file_value f) "text" = match sf_text f with Some t => JStr t | None => JUndef end.
Proof. by destruct f as [? ? ? ? []]. Qed.

Lemma validateSnapshotFile_id f : reviewable f -> validateSnapshotFile (snapshot_file_value f) = Ok f.
Proof.
  intros [Ht Hne Hl Hc Hs Hz Hd Hx]. unfold validateSnapshotFile.
  destruct (snapshot_fields f) as (-> & -> & -> & -> & ->). cbn [isRecord snapshot_file_value negb].
  unfold boundedString. rewrite Ht, Hc, (proj2 (Z.ltb_ge _ _)) by done.
  rewrite (proj2 (Z.eqb_neq _ _)) by (destruct (sf_path f); [done | unfold jlen; cbn; lia]).
  cbn [rbind enum_value]. rewrite Hs, enum_of_name. cbn [require rbind].
  unfold MAX_UPLOAD_REVIEW_FILE_BYTES in *.
  rewrite num_to_of_Z by lia. rewrite (proj2 (Z.ltb_ge _ 0)), (proj2 (Z.ltb_ge _ _)) by lia.
  cbn [orb rbind]. rewrite validateDigest_id by done. cbn [rbind].
  destruct f as [p k z d [text|]]; cbn [sf_kind sf_text sf_size sf_path sf_digest] in *.
  - destruct Hx as (-> & H1 & H2 & H3). unfold boundedText. cbn [negb andb].
    rewrite (proj2 (Z.ltb_ge _ (characters text))), H2 by done. cbn [rbind].
    by rewrite (proj2 (Z.ltb_ge _ _)) by done.
  - by destruct k.
Qed.

(** A safe bundle path is a safe review path. *)
Lemma safe_review_path `{UnicodeTables} p : safe_path p ->
  p <> [] /\ jlen p <= MAX_PATH_LENGTH /\ CONTROL_CHARACTER p = false /\ unsafe_review_path p = false.
Proof.
  intros [_ _ Hl Hb _ _ Hc Hseg].
  assert (Hno : [] ∉ split 47 p).
  { intros Hin. rewrite Forall_forall in Hseg. by destruct (Hseg _ Hin). }
  split; [intros ->; apply Hno; by left|]. split; [done|].
  split; [by apply existsb_false_Forall|].
  unfold unsafe_review_path.
  rewrite (not_true_is_false (startsWith _ _)) by (intros E; eauto using split_empty_segment).
  rewrite (not_true_is_false (endsWith _ _)) by (intros E; eauto using split_empty_segment).
  rewrite (proj2 (includes_single 92 p)) by done. cbn [orb].
  apply existsb_false_Forall. eapply Forall_impl; [exact Hseg|]. intros s [H1 H2 H3 _ _ _ _].
  rewrite (proj2 (Z.eqb_neq _ _)) by (destruct s; [done | unfold jlen; cbn; lia]).
  by rewrite !(proj2 (jeqb_false _ _)) by done.
Qed.

Section Accepted.
Context {UT : UnicodeTables} {CR : Crypto} {CL : CryptoLaws CR}.

Lemma snapshot_file_ok exposed f bytes :
  file_spec f (jlen bytes) -> wf_bytes bytes -> trim (path f) = path f ->
  0 <= exposed <= MAX_UPLOAD_REVIEW_TOTAL_TEXT_CHARS ->
  let file := snapshot_file exposed (path f) bytes in
  reviewable file /\ sf_path file = path f /\
  0 <= exposed + text_characters file <= MAX_UPLOAD_REVIEW_TOTAL_TEXT_CHARS.
Proof.
  intros [Hp _ _ _ Hs] Hb Ht Hx. destruct (safe_review_path _ Hp) as (H1 & H2 & H3 & H4).
  assert (Hz : 0 <= jlen bytes <= MAX_UPLOAD_REVIEW_FILE_BYTES) by (split; [unfold jlen; lia | done]).
  pose proof (digestBytes_isDigest bytes) as Hd.
  assert (Hm : forall kind, kind <> TextKind ->
    let file := {| sf_path := path f; sf_kind := kind; sf_size := jlen bytes;
                   sf_digest := digestBytes bytes; sf_text := None |} in
    reviewable file /\ sf_path file = path f /\
    0 <= exposed + text_characters file <= MAX_UPLOAD_REVIEW_TOTAL_TEXT_CHARS).
  { intros kind Hk. split; [by split|]. split; [done|]. unfold text_characters. cbn. lia. }
  cbv zeta. unfold snapshot_file.
  destruct (_ || _) eqn:G; [apply Hm; by case_match|]. bool_inv.
  destruct (textDecode bytes) as [text|] eqn:E; [|by apply Hm].
  destruct (UNSUPPORTED_TEXT_CONTROL_CHARACTER text) eqn:Eu; [by apply Hm|].
  destruct (_ <? exposed + _) eqn:Et; [by apply Hm|]. bool_inv.
  destruct (textEncode_textDecode bytes text Hb E) as [He Hn].
  split; [|split; [done|]; unfold text_characters; cbn; unfold characters in *; lia].
  split; cbn; try done. split; [done|]. unfold characters, jlen in *.
  split; [lia|]. split; [done|]. rewrite He. destruct (strip_bom_suffix bytes) as [pre Hpre].
  rewrite Hpre at 2. rewrite length_app. lia.
Qed.

Lemma snapshot_files_ok exposed l s :
  Forall (fun f => file_spec f (decoded_size f)) l -> Forall (fun f => trim (path f) = path f) l ->
  0 <= exposed <= MAX_UPLOAD_REVIEW_TOTAL_TEXT_CHARS -> snapshot_files exposed l = Ok s ->
  Forall reviewable s /\ sf_path <$> s = path <$> l /\
  exposed + total_characters s <= MAX_UPLOAD_REVIEW_TOTAL_TEXT_CHARS.
Proof.
  intros Hf; revert exposed s; induction Hf as [|f l Hf Hl IH]; intros exposed s Ht Hx H;
    cbn [snapshot_files] in H; [injection H as <-; cbn; split; [done|]; split; [done | lia]|].
  apply Forall_cons in Ht as [Htf Htl]. unfold decoded_size in Hf.
  destruct (atob (content f)) as [bytes|] eqn:Ea; [|done]. ok_inv.
  assert (Hb : wf_bytes bytes).
  { destruct (file_content _ _ Hf) as (b & Hb & Hc & _). rewrite Hc, atob_btoa in Ea by done. by simplify_eq. }
  destruct (snapshot_file_ok exposed f bytes Hf Hb Htf Hx) as (Hr & Hp & Hc).
  destruct (IH _ _ Htl Hc E) as (IH1 & IH2 & IH3).
  split; [by constructor|]. split; [rewrite !fmap_cons, Hp, IH2; done|].
  unfold total_characters in *. cbn [foldr]. lia.
Qed.

Lemma snapshot_files_total exposed l :
  Forall (fun f => file_spec f (decoded_size f)) l -> exists s, snapshot_files exposed l = Ok s.
Proof.
  intros Hf. revert exposed. induction Hf as [|f l Hf Hl IH]; intros exposed; cbn; [eauto|].
  destruct (file_content _ _ Hf) as (b & Hb & Hc & _). rewrite Hc, atob_btoa by done.
  destruct (IH (exposed + text_characters (snapshot_file exposed (path f) b))) as [s ->]. eauto.
Qed.

Lemma map_result_fmap_id {E A B} (f : A -> result E B) (g : B -> A) (l : list B) :
  (forall x, x ∈ l -> f (g x) = Ok x) -> map_result f (g <$> l) = Ok l.
Proof.
  induction l as [|x l IH]; intros H; cbn; [done|]. rewrite H by (by left). cbn.
  rewrite IH; [done|]. intros y Hy. apply H. by right.
Qed.

Lemma sorted_paths (l : list UploadReviewSnapshotFile) (fs : list BundleFile) :
  sf_path <$> l = path <$> fs -> StronglySorted path_le fs ->
  StronglySorted (fun x y => compareSnapshotFiles x y <> Gt) l.
Proof.
  revert fs; induction l as [|f l IH]; intros [|g fs] H Hs; try done; [constructor|].
  rewrite !fmap_cons in H. injection H as Hp Hl. inversion Hs as [|? ? Hs' Hg]; subst. constructor; eauto.
  rewrite Forall_forall. intros x Hx.
  assert (Hin : sf_path x ∈ path <$> fs) by (rewrite <- Hl; by apply list_elem_of_fmap_2).
  apply list_elem_of_fmap in Hin as (y & Hy & Hin). rewrite Forall_forall in Hg.
  specialize (Hg y Hin). unfold compareSnapshotFiles. by rewrite Hp, Hy.
Qed.

(** Every valid bundle has a snapshot, and the queue accepts
    the snapshot of a bundle as it is when no path of the bundle starts or ends
    with white space: within every limit, in order, without duplicates. *)
Theorem snapshot_accepted (fs : list BundleFile) :
  bundle_spec fs -> Forall (fun f => trim (path f) = path f) fs ->
  exists s, createUploadReviewSnapshot fs = Ok s /\ validateSnapshot (snapshot_value s) = Ok s /\
            sf_path <$> s = path <$> js_sort comparePaths fs.
Proof.
  intros Hb Ht. unfold createUploadReviewSnapshot. rewrite validateBundle_complete by done. cbn [rbind files].
  assert (Hf : Forall (fun f => file_spec f (decoded_size f)) (js_sort comparePaths fs)).
  { rewrite js_sort_perm. apply Hb. }
  rewrite <- (js_sort_perm comparePaths fs) in Ht.
  destruct (snapshot_files_total 0 _ Hf) as [s Hs]. exists s. split; [done|].
  destruct (snapshot_files_ok 0 _ s Hf Ht ltac:(unfold MAX_UPLOAD_REVIEW_TOTAL_TEXT_CHARS; lia) Hs)
    as (Hr & Hp & Hc).
  split; [|done]. unfold validateSnapshot, snapshot_value. change (field _ _) with (JArr (snapshot_file_value <$> s)).
  cbn beta iota. rewrite length_fmap.
  assert (Hlen : length s = length fs).
  { rewrite <- (length_fmap sf_path), Hp, length_fmap. by rewrite js_sort_perm. }
  rewrite Hlen, (proj2 (Z.ltb_ge _ _)) by apply Hb.
  rewrite map_result_fmap_id.
  2:{ intros f Hin. apply validateSnapshotFile_id. rewrite Forall_forall in Hr. by apply Hr. }
  cbn [rbind].
  assert (Hk : snapshot_key <$> s = collision_keys (js_sort comparePaths fs)).
  { unfold collision_keys, snapshot_key. rewrite !(list_fmap_compose _ pathCollisionKey), <- Hp.
    by rewrite <- list_fmap_compose. }
  rewrite (proj2 (all_distinct_NoDup _)); cbn [negb].
  - rewrite (proj2 (Z.ltb_ge _ _)) by lia. f_equal. apply js_sort_id.
    eapply sorted_paths; [exact Hp | apply comparePaths_sorted].
  - rewrite Hk. unfold collision_keys. rewrite js_sort_perm. apply Hb.
Qed.
End Accepted.

(** ** Concrete runs *)

Definition zero_crypto : Crypto := {| sha256 _ := repeat 0 32 |}.
#[export] Instance zero_crypto_laws : CryptoLaws zero_crypto.
Proof. split. intros bs. split; [done|]. cbn. repeat constructor; lia. Qed.

Lemma snapshot_accepted_witness :
  exists s, createUploadReviewSnapshot (UT := ascii_tables) (CR := zero_crypto) (files demo_bundle) = Ok s /\
            validateSnapshot (UT := ascii_tables) (snapshot_value s) = Ok s /\
            sf_path <$> s = path <$> js_sort comparePaths (files demo_bundle).
Proof.
  apply (@snapshot_accepted ascii_tables zero_crypto zero_crypto_laws (files demo_bundle)).
  - apply demo_bundle_spec.
  - repeat constructor.
Defined.

(** A bundle with the files "a.md" and " a.md". *)
Definition spaced_files : list BundleFile :=
  [ {| path := js "SKILL.md"; content := js "LS0tCm5hbWU6IGEKLS0tCg=="; executable := None |};
    {| path := js "a.md"; content := js "YQ=="; executable := None |};
    {| path := js " a.md"; content := js "Yg=="; executable := None |} ].
(** The bundle validator accepts a path that starts with a
    space; the queue trims it, so a valid bundle with the files "a.md" and
    " a.md" has a snapshot that the queue refuses as one with duplicate paths. *)
Theorem snapshot_path_trimmed :
  match createUploadReviewSnapshot (UT := ascii_tables) (CR := zero_crypto) spaced_files with
  | Ok s => validateSnapshot (UT := ascii_tables) (snapshot_value s) = Err UploadReviewValidationError
  | Err _ => False
  end.
Proof. vm_compute. reflexivity. Qed.
