(* ===== verification/ReviewQueue.v ===== *)
(** * The queue of upload reviews

    [DefaultUploadReviewPersistenceService] of
    packages/upload-reviews/src/index.ts.  Each operation is a function of the
    document of its transaction that returns the new document and the answer, or
    an error that leaves the document as it was.  The current binding of a draft
    and the current reviewer contract come from resolvers the service is built
    with.  [randomId] results and the system clock are arguments. *)

From Stdlib Require Import ZArith Lia SpecFloat.
From stdpp Require Import base list strings sets sorting.
From S2P Require Import Prelude Js Dates Json Numbers Wire Bundle Contracts Web Access Names PolicyEval.
From S2P Require Import Resolve Provenance State UploadReviews ReviewSnapshot.

Local Open Scope Z_scope.

(** ** The service *)

Record UploadReviewContract : Type := { ct_model : jstr; ct_reviewerRevision : jstr }.
Record ReviewService : Type := {
  sv_leaseSeconds : Z;
  sv_resolveCurrentBinding : option (RegistryState -> jstr -> option UploadReviewBinding);
  sv_resolveCurrentContract : option UploadReviewContract;
}.
Definition createUploadReviewPersistenceService (leaseSeconds : option spec_float)
    (resolveCurrentBinding : option (RegistryState -> jstr -> option UploadReviewBinding))
    (resolveCurrentContract : option UploadReviewContract) : rv ReviewService :=
  match match leaseSeconds with
        | None => Some DEFAULT_UPLOAD_REVIEW_LEASE_SECONDS
        | Some x => num_to_Z x
        end with
  | Some seconds =>
      throw_if (seconds <=? 0) || (24 * 60 * 60 <? seconds) with UploadReviewValidationError ;;
      Ok {| sv_leaseSeconds := seconds; sv_resolveCurrentBinding := resolveCurrentBinding;
            sv_resolveCurrentContract := resolveCurrentContract |}
  | None => Err UploadReviewValidationError
  end.

(** ** Collections *)

(** [collections]; that the values are arrays holds by typing. *)
Definition review_jobs (doc : ReviewDoc) : list UploadReviewJob := default [] (rv_jobs doc).
Definition review_results (doc : ReviewDoc) : list UploadReviewResult := default [] (rv_results doc).
(** [writableCollections]: the document with the given collections. *)
Definition with_collections (doc : ReviewDoc) (state : RegistryState) (jobs : list UploadReviewJob)
    (results : list UploadReviewResult) : ReviewDoc :=
  {| rv_state := state; rv_jobs := Some jobs; rv_results := Some results |}.

Definition active (job : UploadReviewJob) : bool :=
  match uj_state job with
  | RPending | RRunning => true
  | _ => false
  end.
Definition assertRetentionAvailable (jobs : list UploadReviewJob) (additional : nat) : rv unit :=
  if (length jobs + additional <=? MAX_UPLOAD_REVIEW_JOBS)%nat then Ok tt
  else
    throw_if (MAX_UPLOAD_REVIEW_JOBS <=? length (List.filter active jobs))%nat with RETENTION_LIMIT ;;
    Ok tt.

Section Queue.
Context {DR : DateRuntime} {UT : UnicodeTables} (service : ReviewService).

(** [Date.parse(s) - Date.parse(t)]: a [NaN] counts as zero. *)
Definition compare_dates (s t : jstr) : comparison :=
  match dateParse s, dateParse t with
  | Some a, Some b => Z.compare a b
  | _, _ => Eq
  end.

(** The loops of [pruneCollections].  Each turn removes a job (a result), so the
    length of the list is enough fuel. *)
Fixpoint prune_jobs (fuel : nat) (jobs : list UploadReviewJob) (results : list UploadReviewResult)
    : rv (list UploadReviewJob * list UploadReviewResult) :=
  if (length jobs <=? MAX_UPLOAD_REVIEW_JOBS)%nat then Ok (jobs, results)
  else
    match fuel with
    | O => Err FuelExhausted
    | S fuel =>
        match head (js_sort (fun l r => compare_dates (uj_updatedAt l) (uj_updatedAt r))
                      (List.filter (fun job => negb (active job)) jobs)) with
        | None => Err RETENTION_LIMIT
        | Some removable =>
            prune_jobs fuel (remove_first (fun job => bool_decide (job = removable)) jobs)
              (List.filter (fun result => negb (jeqb (ur_jobId result) (uj_id removable))) results)
        end
    end.
Fixpoint prune_results (fuel : nat) (results : list UploadReviewResult) : rv (list UploadReviewResult) :=
  if (length results <=? MAX_UPLOAD_REVIEW_RESULTS)%nat then Ok results
  else
    match fuel with
    | O => Err FuelExhausted
    | S fuel =>
        prune_results fuel
          (tail (js_sort (fun l r => compare_dates (ur_finishedAt l) (ur_finishedAt r)) results))
    end.
Definition pruneCollections (jobs : list UploadReviewJob) (results : list UploadReviewResult)
    : rv (list UploadReviewJob * list UploadReviewResult) :=
  let? (jobs', results') := prune_jobs (length jobs) jobs results in
  let? results'' := prune_results (length results') results' in
  Ok (jobs', results'').
(** The end of a transaction. *)
Definition committed (doc : ReviewDoc) (state : RegistryState) (jobs : list UploadReviewJob)
    (results : list UploadReviewResult) : rv ReviewDoc :=
  let? (jobs', results') := pruneCollections jobs results in
  Ok (with_collections doc state jobs' results').

Definition is_job (organizationId jobId : jstr) (job : UploadReviewJob) : bool :=
  jeqb (uj_organizationId job) organizationId && jeqb (uj_id job) jobId.
Definition findJob (jobs : list UploadReviewJob) (organizationId jobId : jstr) : rv UploadReviewJob :=
  require UploadReviewNotFoundError (find_first (is_job organizationId jobId) jobs).

(** ** Leases *)

Definition leaseExpired (job : UploadReviewJob) (milliseconds : Z) : bool :=
  match uj_leaseExpiresAt job with
  | None | Some [] => true
  | Some expires => match dateParse expires with
                    | Some t => t <=? milliseconds
                    | None => false
                    end
  end.
Definition clearLease (job : UploadReviewJob) : UploadReviewJob :=
  with_uj_leaseToken None (with_uj_leaseExpiresAt None job).
Definition requireLease (job : UploadReviewJob) (leaseToken : jsval) (milliseconds : Z) : rv unit :=
  let? cleanToken := boundedString leaseToken MAX_ID_LENGTH in
  throw_if negb (bool_decide (uj_state job = RRunning)) ||
           match uj_leaseToken job with
           | None | Some [] => true
           | Some token => negb (jeqb token cleanToken)
           end with LEASE_FENCED ;;
  throw_if leaseExpired job milliseconds with LEASE_EXPIRED ;;
  Ok tt.

(** ** Currentness *)

Definition currentBinding (state : RegistryState) (draftId : jstr) : rv (option UploadReviewBinding) :=
  match sv_resolveCurrentBinding service with
  | None => Ok None
  | Some resolve =>
      match resolve state draftId with
      | None => Ok None
      | Some value => let? binding := validateBinding (binding_value value) in Ok (Some binding)
      end
  end.
Definition bindingIsCurrent (state : RegistryState) (binding : UploadReviewBinding) : rv bool :=
  match sv_resolveCurrentBinding service with
  | None => Ok true
  | Some _ =>
      let? current := currentBinding state (rb_draftId binding) in
      Ok (match current with
          | Some c => sameBinding binding c
          | None => false
          end)
  end.
Definition contractIsCurrent (model reviewerRevision : jstr) : bool :=
  match sv_resolveCurrentContract service with
  | None => true
  | Some current => jeqb (ct_model current) model && jeqb (ct_reviewerRevision current) reviewerRevision
  end.
Definition isCurrent (state : RegistryState) (binding : UploadReviewBinding) (model reviewerRevision : jstr)
    : rv bool :=
  let? current := bindingIsCurrent state binding in
  Ok (current && contractIsCurrent model reviewerRevision).
Definition jobIsCurrent (state : RegistryState) (job : UploadReviewJob) : rv bool :=
  isCurrent state (uj_binding job) (uj_model job) (uj_reviewerRevision job).
Definition assertBindingCurrent (state : RegistryState) (binding : UploadReviewBinding)
    (model reviewerRevision : jstr) : rv unit :=
  let? current := isCurrent state binding model reviewerRevision in
  throw_if negb current with UploadReviewBindingStaleError ;; Ok tt.

(** The job, the results and the stale result. *)
Definition staleResultForJob (job : UploadReviewJob) (organizationId : jstr)
    (results : list UploadReviewResult) (reason iso newResultId : jstr)
    : UploadReviewJob * list UploadReviewResult * UploadReviewResult :=
  let job' := clearLease (with_uj_staleReason (Some reason) (with_uj_finishedAt (Some iso)
                (with_uj_updatedAt iso (with_uj_state RStale job)))) in
  let fresh :=
    let result := {| ur_id := newResultId; ur_jobId := uj_id job; ur_organizationId := organizationId;
                     ur_binding := uj_binding job; ur_model := uj_model job;
                     ur_reviewerRevision := uj_reviewerRevision job; ur_state := RStale;
                     ur_findings := []; ur_createdAt := iso; ur_finishedAt := iso; ur_error := None;
                     ur_staleReason := Some reason |} in
    (with_uj_resultId (Some newResultId) job', results ++ [result], result) in
  match uj_resultId job with
  | None | Some [] => fresh
  | Some resultId =>
      let staled result := with_ur_finishedAt iso (with_ur_staleReason (Some reason)
                             (with_ur_state RStale result)) in
      match find_first (fun result => jeqb (ur_id result) resultId) results with
      | Some existing =>
          (job', update_first (fun result => jeqb (ur_id result) resultId) staled results, staled existing)
      | None => fresh
      end
  end.
Definition markBindingStale (job : UploadReviewJob) (results : list UploadReviewResult) (iso newResultId : jstr)
    : UploadReviewJob * list UploadReviewResult * UploadReviewResult :=
  staleResultForJob job (uj_organizationId job) results (js "current draft binding differs") iso newResultId.

Definition assertOrganizationId (organizationId : jstr) : rv unit :=
  let? _ := boundedString (JStr organizationId) MAX_ID_LENGTH in Ok tt.

(** ** Operations *)

Definition new_job (organizationId id : jstr) (request : EnqueueRequest) : UploadReviewJob := {|
  uj_id := id; uj_organizationId := organizationId; uj_idempotencyKey := eq_idempotencyKey request;
  uj_binding := eq_binding request; uj_snapshot := eq_snapshot request; uj_model := eq_model request;
  uj_reviewerRevision := eq_reviewerRevision request; uj_state := RPending;
  uj_createdAt := ck_iso (eq_clock request); uj_updatedAt := ck_iso (eq_clock request);
  uj_startedAt := None; uj_finishedAt := None; uj_error := None; uj_staleReason := None;
  uj_resultId := None; uj_eveSessionId := None; uj_leaseToken := None; uj_leaseExpiresAt := None |}.
Definition has_key (organizationId key : jstr) (job : UploadReviewJob) : bool :=
  jeqb (uj_organizationId job) organizationId && jeqb (uj_idempotencyKey job) key.
Definition enqueue (systemTime : Z) (newJobId organizationId : jstr) (input : jsval) (now : ReviewNow)
    (doc : ReviewDoc) : rv (ReviewDoc * UploadReviewJob) :=
  let? _ := assertOrganizationId organizationId in
  let? request := normalizeEnqueueInput systemTime input now in
  let jobs := review_jobs doc in
  let results := review_results doc in
  let? _ := assertBindingCurrent (rv_state doc) (eq_binding request) (eq_model request)
              (eq_reviewerRevision request) in
  match find_first (has_key organizationId (eq_idempotencyKey request)) jobs with
  | Some existing =>
      throw_if negb (sameRequest existing request) with UploadReviewConflictError ;;
      Ok (with_collections doc (rv_state doc) jobs results, existing)
  | None =>
      let? _ := assertRetentionAvailable jobs 1 in
      let job := new_job organizationId newJobId request in
      let? doc' := committed doc (rv_state doc) (jobs ++ [job]) results in
      Ok (doc', job)
  end.

Definition bindEveSession (systemTime : Z) (organizationId jobId eveSessionId : jstr) (now : ReviewNow)
    (doc : ReviewDoc) : rv (ReviewDoc * UploadReviewJob) :=
  let? _ := assertOrganizationId organizationId in
  let? cleanJobId := boundedString (JStr jobId) MAX_ID_LENGTH in
  let? cleanSessionId := boundedString (JStr eveSessionId) MAX_ID_LENGTH in
  let? clock := parseClock systemTime now in
  let jobs := review_jobs doc in
  let? job := findJob jobs organizationId cleanJobId in
  let? _ := assertBindingCurrent (rv_state doc) (uj_binding job) (uj_model job) (uj_reviewerRevision job) in
  throw_if existsb (fun candidate =>
             jeqb (uj_organizationId candidate) organizationId &&
             negb (jeqb (uj_id candidate) (uj_id job)) &&
             bool_decide (uj_eveSessionId candidate = Some cleanSessionId)) jobs
    with UploadReviewConflictError ;;
  throw_if negb (active job) with UploadReviewConflictError ;;
  throw_if match uj_eveSessionId job with
           | Some session => negb (jeqb session cleanSessionId)
           | None => false
           end with UploadReviewConflictError ;;
  let bound job := with_uj_updatedAt (ck_iso clock) (with_uj_eveSessionId (Some cleanSessionId) job) in
  Ok (with_collections doc (rv_state doc) (update_first (is_job organizationId cleanJobId) bound jobs)
        (review_results doc), bound job).

Record UploadReviewClaim : Type := {
  cl_job : UploadReviewJob;
  cl_claimed : bool;
  cl_leaseToken : option jstr;
}.
Definition leased (session : option jstr) (clock : Clock) (token expires : jstr) (job : UploadReviewJob)
    : UploadReviewJob :=
  with_uj_staleReason None (with_uj_error None (with_uj_finishedAt None
    (with_uj_leaseExpiresAt (Some expires) (with_uj_leaseToken (Some token)
      (with_uj_updatedAt (ck_iso clock)
        (with_uj_startedAt (Some (default (ck_iso clock) (uj_startedAt job)))
          (with_uj_state RRunning (with_uj_eveSessionId session job)))))))).
Definition claim (systemTime : Z) (newLeaseToken newResultId organizationId jobId : jstr)
    (eveSessionId : option jstr) (now : ReviewNow) (doc : ReviewDoc) : rv (ReviewDoc * UploadReviewClaim) :=
  let? _ := assertOrganizationId organizationId in
  let? cleanJobId := boundedString (JStr jobId) MAX_ID_LENGTH in
  let? session := match eveSessionId with
                  | None => Ok None
                  | Some s => let? clean := boundedString (JStr s) MAX_ID_LENGTH in Ok (Some clean)
                  end in
  let? clock := parseClock systemTime now in
  let jobs := review_jobs doc in
  let results := review_results doc in
  let? job := findJob jobs organizationId cleanJobId in
  if negb (active job) then
    Ok (with_collections doc (rv_state doc) jobs results,
        {| cl_job := job; cl_claimed := false; cl_leaseToken := None |})
  else
    let? current := jobIsCurrent (rv_state doc) job in
    if negb current then
      let '(job', results', _) := markBindingStale job results (ck_iso clock) newResultId in
      let? doc' := committed doc (rv_state doc)
                     (update_first (is_job organizationId cleanJobId) (fun _ => job') jobs) results' in
      Ok (doc', {| cl_job := job'; cl_claimed := false; cl_leaseToken := None |})
    else if bool_decide (uj_state job = RRunning) && negb (leaseExpired job (ck_milliseconds clock)) then
      Ok (with_collections doc (rv_state doc) jobs results,
          {| cl_job := job; cl_claimed := false;
             cl_leaseToken := if negb (bool_decide (session = None)) &&
                                 bool_decide (uj_eveSessionId job = session)
                              then uj_leaseToken job else None |})
    else
      let? expires := isoString (ck_milliseconds clock + sv_leaseSeconds service * 1000) in
      let job' := leased session clock newLeaseToken expires job in
      let? doc' := committed doc (rv_state doc)
                     (update_first (is_job organizationId cleanJobId) (fun _ => job') jobs) results in
      Ok (doc', {| cl_job := job'; cl_claimed := true; cl_leaseToken := Some newLeaseToken |}).

(** [snapshot] is what [repository.read] returned before the claim. *)
Definition claimForEveSession (systemTime : Z) (newLeaseToken newResultId organizationId eveSessionId : jstr)
    (now : ReviewNow) (snapshot doc : ReviewDoc) : rv (ReviewDoc * UploadReviewClaim) :=
  let? _ := assertOrganizationId organizationId in
  let? cleanSessionId := boundedString (JStr eveSessionId) MAX_ID_LENGTH in
  match List.filter (fun job => jeqb (uj_organizationId job) organizationId &&
                                bool_decide (uj_eveSessionId job = Some cleanSessionId))
          (review_jobs snapshot) with
  | [job] => claim systemTime newLeaseToken newResultId organizationId (uj_id job) (Some cleanSessionId) now doc
  | _ => Err UploadReviewNotFoundError
  end.

Definition getLeasedJob (systemTime : Z) (newResultId organizationId jobId : jstr) (leaseToken : jsval)
    (now : ReviewNow) (doc : ReviewDoc) : rv (ReviewDoc * UploadReviewJob) :=
  let? _ := assertOrganizationId organizationId in
  let? clock := parseClock systemTime now in
  let jobs := review_jobs doc in
  let results := review_results doc in
  let? cleanJobId := boundedString (JStr jobId) MAX_ID_LENGTH in
  let? job := findJob jobs organizationId cleanJobId in
  if bool_decide (uj_state job = RStale) then Ok (with_collections doc (rv_state doc) jobs results, job)
  else
    let? _ := requireLease job leaseToken (ck_milliseconds clock) in
    let? current := jobIsCurrent (rv_state doc) job in
    if negb current then
      let '(job', results', _) := markBindingStale job results (ck_iso clock) newResultId in
      let? doc' := committed doc (rv_state doc)
                     (update_first (is_job organizationId cleanJobId) (fun _ => job') jobs) results' in
      Ok (doc', job')
    else Ok (with_collections doc (rv_state doc) jobs results, job).

(** [complete] and [fail] end a lease in the same way: a job that is no longer
    current becomes stale, otherwise [verdict] gives the state, the findings
    and the error of the result. *)
Definition settled (state : UploadReviewState) (error : option jstr) (iso resultId : jstr)
    (job : UploadReviewJob) : UploadReviewJob :=
  clearLease (with_uj_resultId (Some resultId)
    ((match error with Some _ => with_uj_error error | None => id end)
      (with_uj_finishedAt (Some iso) (with_uj_updatedAt iso (with_uj_state state job))))).
Definition settle (newResultId organizationId jobId : jstr) (leaseToken : jsval) (clock : Clock)
    (verdict : UploadReviewJob -> rv (UploadReviewState * list UploadReviewFinding * option jstr))
    (doc : ReviewDoc) : rv (ReviewDoc * UploadReviewResult) :=
  let jobs := review_jobs doc in
  let results := review_results doc in
  let? cleanJobId := boundedString (JStr jobId) MAX_ID_LENGTH in
  let? job := findJob jobs organizationId cleanJobId in
  let? _ := requireLease job leaseToken (ck_milliseconds clock) in
  let? current := jobIsCurrent (rv_state doc) job in
  let replace job' := update_first (is_job organizationId cleanJobId) (fun _ => job') jobs in
  if negb current then
    let '(job', results', stale) := markBindingStale job results (ck_iso clock) newResultId in
    let? doc' := committed doc (rv_state doc) (replace job') results' in
    Ok (doc', stale)
  else
    let? (state, findings, error) := verdict job in
    let result := {| ur_id := newResultId; ur_jobId := uj_id job; ur_organizationId := organizationId;
                     ur_binding := uj_binding job; ur_model := uj_model job;
                     ur_reviewerRevision := uj_reviewerRevision job; ur_state := state;
                     ur_findings := findings; ur_createdAt := ck_iso clock;
                     ur_finishedAt := ck_iso clock; ur_error := error; ur_staleReason := None |} in
    let? doc' := committed doc (rv_state doc) (replace (settled state error (ck_iso clock) newResultId job))
                   (results ++ [result]) in
    Ok (doc', result).

Definition complete (systemTime : Z) (findingIds : nat -> jstr) (newResultId organizationId jobId : jstr)
    (leaseToken findings : jsval) (now : ReviewNow) (doc : ReviewDoc) : rv (ReviewDoc * UploadReviewResult) :=
  let? _ := assertOrganizationId organizationId in
  let? clock := parseClock systemTime now in
  settle newResultId organizationId jobId leaseToken clock
    (fun job => let? validated := validateFindings findingIds findings (uj_snapshot job) in
                Ok (RPassed, validated, None)) doc.

Definition fail (systemTime : Z) (newResultId organizationId jobId : jstr) (leaseToken : jsval)
    (error : jstr) (now : ReviewNow) (doc : ReviewDoc) : rv (ReviewDoc * UploadReviewResult) :=
  let? _ := assertOrganizationId organizationId in
  let? clock := parseClock systemTime now in
  settle newResultId organizationId jobId leaseToken clock
    (fun _ => Ok (RFailed, [], Some (redactError error))) doc.

(** The loop of [markStale]: the jobs, the results and the changed jobs. *)
Definition outdated (current : option UploadReviewBinding) (reviewerRevision model : option jstr)
    (job : UploadReviewJob) : bool :=
  let differs (wanted : option jstr) (actual : jstr) :=
    match wanted with
    | Some w => negb (jeqb actual w)
    | None => false
    end in
  let contractChanged :=
    differs reviewerRevision (uj_reviewerRevision job) || differs model (uj_model job) ||
    match sv_resolveCurrentContract service with
    | Some c => negb (jeqb (uj_reviewerRevision job) (ct_reviewerRevision c)) ||
                negb (jeqb (uj_model job) (ct_model c))
    | None => false
    end in
  negb (match current with
        | Some c => sameBinding (uj_binding job) c && negb contractChanged
        | None => false
        end).
Fixpoint mark_stale_jobs (newResultIds : nat -> jstr) (organizationId draftId reason iso : jstr)
    (test : UploadReviewJob -> bool) (index : nat) (jobs : list UploadReviewJob)
    (results : list UploadReviewResult)
    : list UploadReviewJob * list UploadReviewResult * list UploadReviewJob :=
  match jobs with
  | [] => ([], results, [])
  | job :: rest =>
      if jeqb (uj_organizationId job) organizationId && jeqb (rb_draftId (uj_binding job)) draftId &&
         test job && negb (bool_decide (uj_state job = RStale))
      then
        let '(job', results', _) :=
          staleResultForJob job organizationId results reason iso (newResultIds index) in
        let '(rest', results'', changed) :=
          mark_stale_jobs newResultIds organizationId draftId reason iso test (S index) rest results' in
        (job' :: rest', results'', job' :: changed)
      else
        let '(rest', results', changed) :=
          mark_stale_jobs newResultIds organizationId draftId reason iso test (S index) rest results in
        (job :: rest', results', changed)
  end.
Definition markStale (systemTime : Z) (newResultIds : nat -> jstr) (organizationId : jstr) (input : jsval)
    (now : ReviewNow) (doc : ReviewDoc) : rv (ReviewDoc * list UploadReviewJob) :=
  let? _ := assertOrganizationId organizationId in
  let? draftId := boundedString (field input "draftId") MAX_ID_LENGTH in
  let? current := validateBinding (field input "current") in
  let? reviewerRevision := optionalString (field input "reviewerRevision") MAX_VERSION_LENGTH in
  let? model := optionalString (field input "model") MAX_MODEL_LENGTH in
  let? reason := boundedString (field input "reason") MAX_REASON_LENGTH in
  let? clock := parseClock systemTime now in
  let? effectiveCurrent := match sv_resolveCurrentBinding service with
                           | Some _ => currentBinding (rv_state doc) draftId
                           | None => Ok (Some current)
                           end in
  let '(jobs, results, changed) :=
    mark_stale_jobs newResultIds organizationId draftId reason (ck_iso clock)
      (outdated effectiveCurrent reviewerRevision model) 0 (review_jobs doc) (review_results doc) in
  let? doc' := committed doc (rv_state doc) jobs results in
  Ok (doc', changed).

Definition requeued_review (iso : jstr) (job : UploadReviewJob) : UploadReviewJob :=
  clearLease (with_uj_eveSessionId None (with_uj_resultId None (with_uj_staleReason None
    (with_uj_error None (with_uj_finishedAt None (with_uj_updatedAt iso (with_uj_state RPending job))))))).
Definition review_audit (auditId organizationId actor : jstr) (action : string) (resourceId iso : jstr)
    (details : list (jstr * jsval)) : AuditEvent := {|
  ae_id := auditId; ae_organizationId := organizationId; ae_subject := actor; ae_action := js action;
  ae_resourceId := Some resourceId; ae_createdAt := iso; ae_details := details |}.
Definition requeue (systemTime : Z) (auditId organizationId jobId : jstr) (now : ReviewNow)
    (actor : option jstr) (doc : ReviewDoc) : rv (ReviewDoc * UploadReviewJob) :=
  let? _ := assertOrganizationId organizationId in
  let? cleanActor := match actor with
                     | None => Ok None
                     | Some a => let? clean := boundedString (JStr a) MAX_ID_LENGTH in Ok (Some clean)
                     end in
  let? clock := parseClock systemTime now in
  let jobs := review_jobs doc in
  let? cleanJobId := boundedString (JStr jobId) MAX_ID_LENGTH in
  let? job := findJob jobs organizationId cleanJobId in
  let? _ := assertBindingCurrent (rv_state doc) (uj_binding job) (uj_model job) (uj_reviewerRevision job) in
  throw_if active job with UploadReviewConflictError ;;
  let job' := requeued_review (ck_iso clock) job in
  let state' := match cleanActor with
                | Some a => appendAudit (review_audit auditId organizationId a "upload-review.rerun.requested"
                                           (uj_id job) (ck_iso clock) []) (rv_state doc)
                | None => rv_state doc
                end in
  let? doc' := committed doc state' (update_first (is_job organizationId cleanJobId) (fun _ => job') jobs)
                 (review_results doc) in
  Ok (doc', job').

Definition updateFindingDecision (systemTime : Z) (auditId organizationId resultId findingId : jstr)
    (decision : jsval) (actor : jstr) (now : ReviewNow) (reason : jsval) (doc : ReviewDoc)
    : rv (ReviewDoc * UploadReviewResult) :=
  let? _ := assertOrganizationId organizationId in
  let? cleanResultId := boundedString (JStr resultId) MAX_ID_LENGTH in
  let? cleanFindingId := boundedString (JStr findingId) MAX_ID_LENGTH in
  let? cleanActor := boundedString (JStr actor) MAX_ID_LENGTH in
  let? decided := require UploadReviewValidationError (enum_value UploadReviewFindingDecision decision) in
  let? cleanReason := optional reason (fun v => boundedString v MAX_REASON_LENGTH) in
  throw_if bool_decide (decided = DecisionDismissed) && bool_decide (cleanReason = None)
    with UploadReviewValidationError ;;
  let? clock := parseClock systemTime now in
  let jobs := review_jobs doc in
  let results := review_results doc in
  let is_result result := jeqb (ur_organizationId result) organizationId && jeqb (ur_id result) cleanResultId in
  let? result := require UploadReviewNotFoundError (find_first is_result results) in
  throw_if bool_decide (ur_state result = RStale) with UploadReviewBindingStaleError ;;
  let? _ :=
    match sv_resolveCurrentBinding service with
    | None => Ok tt
    | Some _ =>
        match find_first (is_job organizationId (ur_jobId result)) jobs with
        | None => Err UploadReviewBindingStaleError
        | Some job =>
            let? job_current := jobIsCurrent (rv_state doc) job in
            throw_if negb job_current with UploadReviewBindingStaleError ;;
            throw_if negb (contractIsCurrent (ur_model result) (ur_reviewerRevision result))
              with UploadReviewBindingStaleError ;;
            let? binding_current := bindingIsCurrent (rv_state doc) (ur_binding result) in
            throw_if negb binding_current with UploadReviewBindingStaleError ;;
            Ok tt
        end
    end in
  let is_finding finding := jeqb (uf_id finding) cleanFindingId in
  let? _ := require UploadReviewNotFoundError (find_first is_finding (ur_findings result)) in
  let decide_finding finding := with_uf_decisionReason cleanReason (with_uf_decision decided finding) in
  let result' := with_ur_findings (update_first is_finding decide_finding (ur_findings result)) result in
  let state' := appendAudit
    (review_audit auditId organizationId cleanActor "upload-review.finding.decision" cleanResultId (ck_iso clock)
       ([(js "findingId", JStr cleanFindingId); (js "decision", JStr (enum_name decided))] ++
        member "reason" JStr cleanReason)) (rv_state doc) in
  Ok (with_collections doc state' jobs (update_first is_result (fun _ => result') results), result').

(** ** Listings *)

Definition has_resolver : bool :=
  match sv_resolveCurrentBinding service, sv_resolveCurrentContract service with
  | None, None => false
  | _, _ => true
  end.
Definition DIFFERS : jstr := js "current draft binding or reviewer contract differs".
Definition projectJob (state : RegistryState) (job : UploadReviewJob) : rv UploadReviewJob :=
  if has_resolver then
    let? current := jobIsCurrent state job in
    Ok (if negb current && negb (bool_decide (uj_state job = RStale))
        then clearLease (with_uj_staleReason (Some DIFFERS) (with_uj_state RStale job)) else job)
  else Ok job.
Definition projectResult (state : RegistryState) (result : UploadReviewResult) : rv UploadReviewResult :=
  if has_resolver then
    let? current := isCurrent state (ur_binding result) (ur_model result) (ur_reviewerRevision result) in
    Ok (if negb current && negb (bool_decide (ur_state result = RStale))
        then with_ur_staleReason (Some DIFFERS) (with_ur_state RStale result) else result)
  else Ok result.

Record UploadReviewListOptions : Type := {
  lo_draftId : option jstr;
  lo_state : option UploadReviewState;
  lo_limit : jsval;
}.
Definition list_limit (options : UploadReviewListOptions) (maximum : nat) : rv nat :=
  let? limit := optional (lo_limit options) validateRevision in
  Ok (match limit with
      | Some n => Z.to_nat (Z.min n (Z.of_nat maximum))
      | None => maximum
      end).
Definition selected (options : UploadReviewListOptions) (draftId : jstr) (state : UploadReviewState) : bool :=
  match lo_draftId options with
  | Some d => jeqb draftId d
  | None => true
  end &&
  match lo_state options with
  | Some s => bool_decide (state = s)
  | None => true
  end.
Definition listJobs (organizationId : jstr) (options : UploadReviewListOptions) (doc : ReviewDoc)
    : rv (list UploadReviewJob) :=
  let? _ := assertOrganizationId organizationId in
  let? limit := list_limit options MAX_UPLOAD_REVIEW_JOBS in
  let? projected := map_result (projectJob (rv_state doc))
    (List.filter (fun job => jeqb (uj_organizationId job) organizationId) (review_jobs doc)) in
  Ok (take limit (js_sort (fun l r => compare_dates (uj_updatedAt r) (uj_updatedAt l))
        (List.filter (fun job => selected options (rb_draftId (uj_binding job)) (uj_state job)) projected))).
Definition listResults (organizationId : jstr) (options : UploadReviewListOptions) (doc : ReviewDoc)
    : rv (list UploadReviewResult) :=
  let? _ := assertOrganizationId organizationId in
  let? limit := list_limit options MAX_UPLOAD_REVIEW_RESULTS in
  let? projected := map_result (projectResult (rv_state doc))
    (List.filter (fun result => jeqb (ur_organizationId result) organizationId) (review_results doc)) in
  Ok (take limit (js_sort (fun l r => compare_dates (ur_finishedAt r) (ur_finishedAt l))
        (List.filter (fun result => selected options (rb_draftId (ur_binding result)) (ur_state result))
           projected))).
End Queue.

(** * A concrete review

    A draft of one organization is sent to review, claimed, completed and queued
    again; the states are computed by the operations of the queue with the
    registry's resolver.  The witnesses about the queue are taken from here. *)

Module Review.
#[local] Existing Instances iso_runtime ascii_tables zero_crypto.

Definition t0 : Z := 1700000000000.
Definition org : jstr := js "acme".
Definition digest : jstr := js "sha256:" ++ repeat 97 64.
Definition policy : Policy := with_po_revision (js "policy_1") defaultPolicy.
Definition draft : SkillDraft := {|
  dr_id := js "draft_1"; dr_organizationId := org; dr_origin := OriginUpload; dr_name := js "@tools/demo";
  dr_skillName := js "demo"; dr_description := js "a demo"; dr_baseResourceId := None; dr_baseDigest := None;
  dr_revision := 3; dr_digest := digest;
  dr_artifact := {| sb_key := js "blob_1"; sb_digest := digest; sb_size := 40 |};
  dr_files := files demo_bundle; dr_status := DraftOpen; dr_actor := js "alice";
  dr_createdAt := toISOString t0; dr_updatedAt := toISOString t0; dr_createIdempotency := None;
  dr_idempotency := None; dr_publications := None |}.
Definition registry : RegistryState := Eval vm_compute in
  with_st_drafts (Some [draft]) (createEmptyRegistryState policy).
Definition contract : UploadReviewContract :=
  {| ct_model := js "openai/gpt-5.5"; ct_reviewerRevision := js "upload-review-v1" |}.
Definition service : ReviewService := {|
  sv_leaseSeconds := DEFAULT_UPLOAD_REVIEW_LEASE_SECONDS;
  sv_resolveCurrentBinding := Some (fun s id => resolveCurrentUploadReviewBinding s id t0);
  sv_resolveCurrentContract := Some contract |}.

Definition binding : UploadReviewBinding := {|
  rb_draftId := js "draft_1"; rb_draftRevision := 3; rb_contentDigest := digest; rb_baseReleaseId := None;
  rb_baseReleaseVersion := None; rb_baseDigest := None; rb_policyRevision := js "policy_1" |}.
Definition snapshot : UploadReviewSnapshot := Eval vm_compute in
  match createUploadReviewSnapshot (files demo_bundle) with Ok s => s | Err _ => [] end.
Definition input : jsval := JObj [
  (js "binding", binding_value binding); (js "snapshot", snapshot_value snapshot);
  (js "model", JStr (ct_model contract)); (js "reviewerRevision", JStr (ct_reviewerRevision contract))].
Definition findings : jsval := JArr [JObj [
  (js "severity", JStr (js "low")); (js "category", JStr (js "docs")); (js "title", JStr (js "Typo"));
  (js "summary", JStr (js "A typo.")); (js "path", JStr (js "SKILL.md")); (js "line", JNum (num_of_Z 2))]].
Definition finding_ids (n : nat) : jstr := js "finding_" ++ js_of_nat n.

Definition after {A} (r : rv (ReviewDoc * A)) (doc : ReviewDoc) : ReviewDoc :=
  match r with
  | Ok (d, _) => d
  | Err _ => doc
  end.
Definition empty : ReviewDoc := {| rv_state := registry; rv_jobs := None; rv_results := None |}.
Definition at_ (ms : Z) : ReviewNow := NowDate (Some (t0 + ms)).

Abbreviation enqueue1 := (enqueue service t0 (js "job_1") org input (at_ 0) empty).
Definition queued : ReviewDoc := Eval vm_compute in after enqueue1 empty.
Abbreviation claim1 :=
  (claim service t0 (js "lease_1") (js "result_0") org (js "job_1") (Some (js "eve_1")) (at_ 1000) queued).
Definition running : ReviewDoc := Eval vm_compute in after claim1 queued.
Abbreviation complete1 := (complete service t0 finding_ids (js "result_1") org (js "job_1")
  (JStr (js "lease_1")) findings (at_ 2000) running).
Definition passed : ReviewDoc := Eval vm_compute in after complete1 running.
Definition job1 : UploadReviewJob := Eval vm_compute in
  match review_jobs queued with j :: _ => j | [] => new_job [] [] (Build_EnqueueRequest [] binding [] [] [] (Build_Clock 0 [])) end.

Lemma review_succeeded {A} (r : rv (ReviewDoc * A)) doc d : is_ok r = true -> after r doc = d -> exists a, r = Ok (d, a).
Proof. destruct r as [[d' a]|]; [|done]. intros _ <-. by exists a. Qed.
Lemma enqueue_ok : exists a, enqueue1 = Ok (queued, a).
Proof. apply (review_succeeded _ empty); vm_compute; reflexivity. Qed.
Lemma review_claim_ok : exists a, claim1 = Ok (running, a) /\ cl_claimed a = true.
Proof. eexists. split; vm_compute; reflexivity. Qed.
Lemma review_complete_ok : exists r, complete1 = Ok (passed, r) /\ ur_state r = RPassed.
Proof. eexists. split; vm_compute; reflexivity. Qed.
End Review.
