(* ===== verification/ReviewSafety.v ===== *)
(** * What the review queue guarantees

    Retention ([prune_total]), the life cycle of a job and the invariant of the
    queue over every sequence of operations, fencing by leases, and the link to
    the draft a review is about. *)

From Stdlib Require Import ZArith Lia SpecFloat.
From stdpp Require Import base list sorting strings sets.
From S2P Require Import Prelude Js Dates Json Wire Bundle Contracts Numbers Web Access Names.
From S2P Require Import PolicyEval Resolve Provenance State UploadReviews ReviewSnapshot ReviewQueue.

Local Open Scope Z_scope.

(** ** Retention *)

Section Retention.
Context {DR : DateRuntime}.

Lemma prune_jobs_small fuel jobs results :
  (length jobs <= MAX_UPLOAD_REVIEW_JOBS)%nat -> prune_jobs fuel jobs results = Ok (jobs, results).
Proof. intros H. destruct fuel; cbn [prune_jobs]; by rewrite (proj2 (Nat.leb_le _ _)). Qed.

Lemma prune_jobs_total fuel jobs results :
  (length jobs <= fuel)%nat ->
  match prune_jobs fuel jobs results with
  | Ok (jobs', results') =>
      (length jobs' <= MAX_UPLOAD_REVIEW_JOBS)%nat /\ jobs' `sublist_of` jobs /\
      results' `sublist_of` results /\ List.filter active jobs' = List.filter active jobs /\
      (forall r j, r ∈ results' -> j ∈ jobs -> uj_id j = ur_jobId r -> j ∈ jobs')
  | Err e => e = RETENTION_LIMIT /\ (MAX_UPLOAD_REVIEW_JOBS < length (List.filter active jobs))%nat
  end.
Proof.
  revert jobs results. induction fuel as [|fuel IH]; intros jobs results Hf; cbn [prune_jobs];
    destruct (length jobs <=? MAX_UPLOAD_REVIEW_JOBS)%nat eqn:E; try (by apply Nat.leb_le in E);
    apply Nat.leb_gt in E; [lia|].
  destruct (head _) as [removable|] eqn:Eh.
  - assert (Hr : removable ∈ List.filter (fun job => negb (active job)) jobs).
    { rewrite <- (js_sort_perm (fun l r => compare_dates (uj_updatedAt l) (uj_updatedAt r))).
      destruct (js_sort _ _); [done|]. injection Eh as ->. by left. }
    apply elem_of_List_filter in Hr as [Hin Ha]. apply negb_true_iff in Ha.
    set (p := fun job => bool_decide (job = removable)).
    destruct (find_first_is_Some p jobs removable Hin) as [x Hx]; [by apply bool_decide_eq_true|].
    pose proof (remove_first_perm p jobs x Hx) as Hp.
    assert (Hk : List.filter active (remove_first p jobs) = List.filter active jobs).
    { apply filter_remove_first. intros y Hy. unfold p in Hy. bool_inv. by subst. }
    specialize (IH (remove_first p jobs)
      (List.filter (fun result => negb (jeqb (ur_jobId result) (uj_id removable))) results)).
    apply Permutation_length in Hp. cbn in Hp. specialize (IH ltac:(lia)).
    destruct (prune_jobs fuel _ _) as [[jobs' results']|e].
    + destruct IH as (H1 & H2 & H3 & H4 & H5). split; [done|].
      split; [|split; [|split; [congruence|]]].
      * etransitivity; [exact H2 | apply remove_first_sublist].
      * etransitivity; [exact H3|]. clear. induction results as [|r l IH]; cbn; [done|].
        case_match; by constructor.
      * intros r j Hr Hj Hid. apply (H5 r j Hr); [|done]. apply elem_of_remove_first; [done|].
        apply bool_decide_eq_false. intros ->. eapply elem_of_sublist in H3; [|exact Hr].
        apply elem_of_List_filter in H3 as [_ H3]. by rewrite <- Hid, jeqb_refl in H3.
    + by rewrite Hk in IH.
  - apply js_sort_nil in Eh. split; [done|].
    assert (Hall : List.filter active jobs = jobs); [|by rewrite Hall].
    clear -Eh. induction jobs as [|j l IH]; cbn in *; [done|].
    destruct (active j); cbn in Eh; [by rewrite IH | done].
Qed.

Lemma prune_results_total fuel results :
  (length results <= fuel)%nat ->
  exists results', prune_results fuel results = Ok results' /\
    (length results' <= MAX_UPLOAD_REVIEW_RESULTS)%nat /\ (forall r, r ∈ results' -> r ∈ results) /\
    ((length results <= MAX_UPLOAD_REVIEW_RESULTS)%nat -> results' = results).
Proof.
  revert results. induction fuel as [|fuel IH]; intros results Hf; cbn [prune_results];
    destruct (length results <=? MAX_UPLOAD_REVIEW_RESULTS)%nat eqn:E;
    try (apply Nat.leb_le in E; by exists results); apply Nat.leb_gt in E; [lia|].
  set (cmp := fun l r => compare_dates (ur_finishedAt l) (ur_finishedAt r)).
  pose proof (js_sort_perm cmp results) as Hp. pose proof (Permutation_length Hp) as Hlen.
  destruct (js_sort cmp results) as [|r rest]; [cbn in Hlen; lia|]. cbn [tail] in *. cbn in Hlen.
  destruct (IH rest ltac:(lia)) as (results' & -> & H1 & H2 & _). exists results'.
  split; [done|]. split; [done|]. split; [|lia].
  intros x Hx. rewrite <- Hp. right. by apply H2.
Qed.

(** C35. The two loops of [pruneCollections] end: afterwards at most
    a hundred jobs and results are left, every pending or running job is kept,
    and the call fails only when more than a hundred jobs are pending or
    running. *)
Theorem prune_total jobs results :
  match pruneCollections jobs results with
  | Ok (jobs', results') =>
      (length jobs' <= MAX_UPLOAD_REVIEW_JOBS)%nat /\ (length results' <= MAX_UPLOAD_REVIEW_RESULTS)%nat /\
      jobs' `sublist_of` jobs /\ (forall r, r ∈ results' -> r ∈ results) /\
      List.filter active jobs' = List.filter active jobs
  | Err e => e = RETENTION_LIMIT /\ (MAX_UPLOAD_REVIEW_JOBS < length (List.filter active jobs))%nat
  end.
Proof.
  unfold pruneCollections. pose proof (prune_jobs_total (length jobs) jobs results (le_n _)) as H.
  destruct (prune_jobs _ jobs results) as [[jobs' results']|e]; [|done].
  destruct H as (H1 & H2 & H3 & H4 & _). cbn [rbind].
  destruct (prune_results_total (length results') results' (le_n _)) as (r' & -> & H5 & H6 & _).
  cbn [rbind]. split; [done|]. split; [done|]. split; [done|]. split; [|done].
  intros r Hr%H6. by eapply elem_of_sublist.
Qed.
End Retention.

(** ** The life cycle of a job *)

(** A review is pending, then running under a lease, then passed or failed; it
    becomes stale when its draft moves on; a finished one may be queued again. *)
Inductive lifecycle : UploadReviewState -> UploadReviewState -> Prop :=
| lc_same s : lifecycle s s
| lc_claim : lifecycle RPending RRunning
| lc_pass : lifecycle RRunning RPassed
| lc_fail : lifecycle RRunning RFailed
| lc_stale s : lifecycle s RStale
| lc_requeue s : s <> RPending -> s <> RRunning -> lifecycle s RPending.

(** What a job is about never changes. *)
Definition job_identity (j : UploadReviewJob) :=
  (uj_id j, uj_organizationId j, uj_idempotencyKey j, uj_binding j, uj_snapshot j, uj_model j,
   uj_reviewerRevision j, uj_createdAt j).
Lemma identity_fields j j' : job_identity j' = job_identity j ->
  uj_id j' = uj_id j /\ uj_organizationId j' = uj_organizationId j /\
  uj_idempotencyKey j' = uj_idempotencyKey j /\ uj_binding j' = uj_binding j /\
  uj_snapshot j' = uj_snapshot j /\ uj_model j' = uj_model j /\
  uj_reviewerRevision j' = uj_reviewerRevision j /\ uj_createdAt j' = uj_createdAt j.
Proof. unfold job_identity. intros H. simplify_eq. repeat split; congruence. Qed.
(** A lease exists exactly while the job runs, a result exactly when it is over. *)
Definition job_ok (j : UploadReviewJob) : Prop :=
  match uj_state j with
  | RRunning => is_Some (uj_leaseToken j) /\ is_Some (uj_leaseExpiresAt j) /\ uj_resultId j = None
  | RPending => uj_leaseToken j = None /\ uj_leaseExpiresAt j = None /\ uj_resultId j = None
  | _ => uj_leaseToken j = None /\ uj_leaseExpiresAt j = None /\ is_Some (uj_resultId j)
  end.
Record job_step (j j' : UploadReviewJob) : Prop := {
  js_identity : job_identity j' = job_identity j;
  js_cycle : lifecycle (uj_state j) (uj_state j');
  js_ok : job_ok j -> job_ok j';
}.
Lemma job_step_refl j : job_step j j.
Proof. split; [done | constructor | done]. Qed.
#[local] Hint Resolve job_step_refl : core.

(** ** The invariant *)

(** A result belongs to a retained job, is about what the job is about, and its
    findings name files of the job's snapshot. *)
Definition result_ok (org : jstr) (jobs : list UploadReviewJob) (r : UploadReviewResult) : Prop :=
  ur_organizationId r = org /\
  exists j, j ∈ jobs /\ uj_id j = ur_jobId r /\ uj_binding j = ur_binding r /\ uj_model j = ur_model r /\
            uj_reviewerRevision j = ur_reviewerRevision r /\
            Forall (fun f => forall p, uf_path f = Some p -> p ∈ sf_path <$> uj_snapshot j) (ur_findings r).
Record queue_inv (org : jstr) (jobs : list UploadReviewJob) (results : list UploadReviewResult) : Prop := {
  qi_org : Forall (fun j => uj_organizationId j = org) jobs;
  qi_ids : NoDup (uj_id <$> jobs);
  qi_keys : NoDup (uj_idempotencyKey <$> jobs);
  qi_jobs : Forall job_ok jobs;
  qi_results : Forall (result_ok org jobs) results;
}.
Record doc_inv (org : jstr) (doc : ReviewDoc) : Prop := {
  di_queue : queue_inv org (review_jobs doc) (review_results doc);
  di_jobs : (length (review_jobs doc) <= MAX_UPLOAD_REVIEW_JOBS)%nat;
  di_results : (length (review_results doc) <= MAX_UPLOAD_REVIEW_RESULTS)%nat;
}.

Lemma step_identities jobs jobs' (K : Type) (key : UploadReviewJob -> K) :
  (forall j j', job_identity j' = job_identity j -> key j' = key j) ->
  Forall2 job_step jobs jobs' -> key <$> jobs' = key <$> jobs.
Proof.
  intros Hk. induction 1 as [|j j' l l' Hj _ IH]; [done|].
  rewrite !fmap_cons, IH. f_equal. apply Hk, Hj.
Qed.

Lemma queue_inv_step org jobs jobs' results :
  Forall2 job_step jobs jobs' -> queue_inv org jobs results -> queue_inv org jobs' results.
Proof.
  intros Hs [Ho Hi Hk Hj Hr]. split.
  - revert Ho. clear -Hs. induction Hs as [|j j' l l' Hj _ IH]; intros Ho; [done|].
    apply Forall_cons in Ho as [H Ho]. constructor; [|by apply IH].
    apply js_identity, identity_fields in Hj. naive_solver congruence.
  - by rewrite (step_identities jobs jobs' _ uj_id) by (done || intros j j' ?%identity_fields; naive_solver).
  - by rewrite (step_identities jobs jobs' _ uj_idempotencyKey) by (done || intros j j' ?%identity_fields; naive_solver).
  - revert Hj. clear -Hs. induction Hs as [|j j' l l' Hj _ IH]; intros Ho; [done|].
    apply Forall_cons in Ho as [H Ho]. constructor; [by apply Hj | by apply IH].
  - eapply Forall_impl; [exact Hr|]. intros r [Hro (j & Hin & H1 & H2 & H3 & H4 & H5)].
    split; [done|]. apply list_elem_of_lookup in Hin as [i Hin].
    destruct (Forall2_lookup_l _ _ _ _ _ Hs Hin) as (j' & Hin' & Hst).
    apply js_identity, identity_fields in Hst as (E1 & E2 & E3 & E4 & E5 & E6 & E7 & E8).
    exists j'. split; [by eapply list_elem_of_lookup_2|]. by rewrite E1, E4, E5, E6, E7.
Qed.

(** Removing jobs with their results keeps the invariant. *)
Lemma queue_inv_sublist org jobs jobs' results results' :
  jobs' `sublist_of` jobs -> (forall r, r ∈ results' -> r ∈ results) ->
  (forall r j, r ∈ results' -> j ∈ jobs -> uj_id j = ur_jobId r -> j ∈ jobs') ->
  queue_inv org jobs results -> queue_inv org jobs' results'.
Proof.
  intros Hs Hr Hk [Ho Hi Hky Hj Hres]. split.
  - by eapply sublist_Forall.
  - eapply sublist_NoDup; [exact Hi | by apply sublist_fmap].
  - eapply sublist_NoDup; [exact Hky | by apply sublist_fmap].
  - by eapply sublist_Forall.
  - rewrite Forall_forall in Hres |- *. intros r Hin.
    destruct (Hres r (Hr r Hin)) as [Hro (j & Hj' & He & Hrest)]. split; [done|].
    exists j. split; [by eapply Hk|]. by split.
Qed.

Section Steps.
Context {DR : DateRuntime} {UT : UnicodeTables} (service : ReviewService).

(** What a commit does to the collections. *)
Lemma committed_inv org doc st jobs results doc' :
  queue_inv org jobs results -> committed doc st jobs results = Ok doc' ->
  doc_inv org doc' /\ rv_state doc' = st /\ review_jobs doc' `sublist_of` jobs /\
  List.filter active (review_jobs doc') = List.filter active jobs /\
  ((length jobs <= MAX_UPLOAD_REVIEW_JOBS)%nat -> review_jobs doc' = jobs).
Proof.
  intros Hq H. unfold committed, pruneCollections in H.
  pose proof (prune_jobs_total (length jobs) jobs results (le_n _)) as Hp.
  pose proof (prune_jobs_small (length jobs) jobs results) as Hsmall.
  destruct (prune_jobs _ jobs results) as [[jobs' results']|e]; [|done].
  destruct Hp as (H1 & H2 & H3 & H4 & H5). cbn [rbind] in H.
  destruct (prune_results_total (length results') results' (le_n _)) as (r' & E & H6 & H7 & _).
  rewrite E in H. cbn [rbind] in H. injection H as <-. unfold with_collections.
  split; [|split; [done|]; split; [done|]; split; [done|]].
  - split; [|done|done]. cbn. eapply queue_inv_sublist; [exact H2| | |exact Hq].
    + intros r Hr%H7. by eapply elem_of_sublist.
    + intros r j Hr%H7 Hj. by apply H5.
  - intros Hlen. specialize (Hsmall Hlen). cbn. by simplify_eq.
Qed.
Lemma committed_small doc st jobs results :
  (length jobs <= MAX_UPLOAD_REVIEW_JOBS)%nat -> exists doc', committed doc st jobs results = Ok doc' /\
  rv_state doc' = st /\ review_jobs doc' = jobs /\
  ((length results <= MAX_UPLOAD_REVIEW_RESULTS)%nat -> review_results doc' = results).
Proof.
  intros H. unfold committed, pruneCollections. rewrite prune_jobs_small by done. cbn [rbind].
  destruct (prune_results_total (length results) results (le_n _)) as (r' & -> & _ & _ & Hid). cbn.
  eexists. split; [done|]. split; [done|]. split; [done|]. cbn. auto.
Qed.

Lemma result_ok_add org jobs results r :
  queue_inv org jobs results -> result_ok org jobs r -> queue_inv org jobs (results ++ [r]).
Proof. intros [? ? ? ? Hr] H. split; try done. apply Forall_app. split; [done|]. by constructor. Qed.

(** [staleResultForJob] steps the job and keeps the results about their jobs. *)
Lemma staleResult_step job org results reason iso rid job' results' r jobs :
  staleResultForJob job org results reason iso rid = (job', results', r) ->
  Forall (result_ok org jobs) results -> job ∈ jobs ->
  job_step job job' /\ uj_state job' = RStale /\ ur_state r = RStale /\ Forall (result_ok org jobs) results'.
Proof.
  intros H Hr Hin. unfold staleResultForJob in H.
  set (fresh := {| ur_id := rid; ur_jobId := _ |}) in H.
  assert (Hf : result_ok org jobs fresh) by (split; [done|]; exists job; by repeat split).
  assert (Hrefl : forall j', job_identity j' = job_identity job -> uj_state j' = RStale ->
            uj_leaseToken j' = None -> uj_leaseExpiresAt j' = None ->
            (job_ok job -> is_Some (uj_resultId j')) -> job_step job j').
  { intros j' H1 H2 H3 H4 H5. split; [done | rewrite H2; constructor|].
    intros Hok. unfold job_ok. rewrite H2. auto. }
  assert (Hfresh : (with_uj_resultId (Some rid)
                     (clearLease (with_uj_staleReason (Some reason) (with_uj_finishedAt (Some iso)
                       (with_uj_updatedAt iso (with_uj_state RStale job))))),
                    results ++ [fresh], fresh) = (job', results', r) ->
            job_step job job' /\ uj_state job' = RStale /\ ur_state r = RStale /\
            Forall (result_ok org jobs) results').
  { intros [= <- <- <-]. split; [apply Hrefl; try done; intros _; by eexists|].
    split; [done|]. split; [done|]. apply Forall_app. split; [done|]. by constructor. }
  destruct (uj_resultId job) as [[|c id]|] eqn:Eid; try (by apply Hfresh).
  destruct (find_first _ results) as [existing|] eqn:Ef; [|by apply Hfresh].
  injection H as <- <- <-. split; [apply Hrefl; try done; intros _; cbn; by rewrite Eid|].
  split; [done|]. split; [done|]. apply update_first_Forall; [|done].
  intros x Hx Hp [Hxo (j & Hj)]. split; [done|]. by exists j.
Qed.

Lemma staleResult_inv job org results reason iso rid job' results' r jobs :
  staleResultForJob job org results reason iso rid = (job', results', r) ->
  queue_inv org jobs results -> job ∈ jobs -> queue_inv org jobs results' /\ job_step job job' /\
  uj_state job' = RStale /\ ur_state r = RStale.
Proof.
  intros H Hq Hin. destruct (staleResult_step _ _ _ _ _ _ _ _ _ jobs H (qi_results _ _ _ Hq) Hin)
    as (H1 & H2 & H3 & H4).
  split; [|done]. destruct Hq. by split.
Qed.

(** ** Operations as steps *)

(** Either every job takes a step of its life cycle, or a pending one is added
    and finished ones are dropped to make room. *)
Inductive queue_step (doc doc' : ReviewDoc) : Prop :=
| qs_evolve : Forall2 job_step (review_jobs doc) (review_jobs doc') -> queue_step doc doc'
| qs_added job :
    uj_state job = RPending -> uj_id job ∉ uj_id <$> review_jobs doc ->
    review_jobs doc' `sublist_of` review_jobs doc ++ [job] ->
    List.filter active (review_jobs doc') = List.filter active (review_jobs doc ++ [job]) ->
    queue_step doc doc'.

Lemma queue_step_same doc doc' : review_jobs doc' = review_jobs doc -> queue_step doc doc'.
Proof. intros E. apply qs_evolve. rewrite E. by apply Forall2_same. Qed.

(** A transaction that leaves the collections as they are. *)
Lemma kept_inv org doc doc' :
  review_jobs doc' = review_jobs doc -> review_results doc' = review_results doc ->
  doc_inv org doc -> doc_inv org doc' /\ queue_step doc doc'.
Proof.
  intros Hj Hr [Hq H1 H2]. split; [split; by rewrite ?Hj, ?Hr | by apply queue_step_same].
Qed.

Lemma findJob_ok jobs org id job : findJob jobs org id = Ok job ->
  find_first (is_job org id) jobs = Some job /\ job ∈ jobs /\ uj_organizationId job = org /\ uj_id job = id.
Proof.
  unfold findJob. intros H%require_Ok. split; [done|].
  apply find_first_Some in H as [Hin Hp]. unfold is_job in Hp. bool_inv. jeqb_inv. done.
Qed.

(** A transaction that replaces the job it found by a step of it. *)
Lemma replaced_inv org doc st id job job' results' doc' :
  doc_inv org doc -> find_first (is_job org id) (review_jobs doc) = Some job -> job_step job job' ->
  queue_inv org (update_first (is_job org id) (fun _ => job') (review_jobs doc)) results' ->
  committed doc st (update_first (is_job org id) (fun _ => job') (review_jobs doc)) results' = Ok doc' ->
  doc_inv org doc' /\ queue_step doc doc' /\
  review_jobs doc' = update_first (is_job org id) (fun _ => job') (review_jobs doc).
Proof.
  intros [Hq Hlen _] Hf Hs Hq' Hc.
  assert (Hst := update_found_Forall2 job_step _ _ _ _ job_step_refl Hf Hs).
  destruct (committed_inv _ _ _ _ _ _ Hq' Hc) as (Hd & _ & Hsub & Hact & Hsame).
  assert (E : length (update_first (is_job org id) (fun _ => job') (review_jobs doc)) =
              length (review_jobs doc)) by (symmetry; by eapply Forall2_length).
  specialize (Hsame ltac:(lia)). split; [done|]. split; [|done].
  apply qs_evolve. by rewrite Hsame.
Qed.
Lemma replaced_queue org doc id job job' results' :
  find_first (is_job org id) (review_jobs doc) = Some job -> job_step job job' ->
  queue_inv org (review_jobs doc) results' ->
  queue_inv org (update_first (is_job org id) (fun _ => job') (review_jobs doc)) results'.
Proof. intros Hf Hs. apply queue_inv_step. by apply (update_found_Forall2 job_step _ _ _ _ job_step_refl Hf). Qed.

Lemma stepped_inv org doc st id job job' results' doc' :
  doc_inv org doc -> find_first (is_job org id) (review_jobs doc) = Some job -> job_step job job' ->
  queue_inv org (review_jobs doc) results' ->
  committed doc st (update_first (is_job org id) (fun _ => job') (review_jobs doc)) results' = Ok doc' ->
  doc_inv org doc' /\ queue_step doc doc' /\
  review_jobs doc' = update_first (is_job org id) (fun _ => job') (review_jobs doc).
Proof. intros Hd Hf Hs Hq. eapply replaced_inv; [done..|]. by eapply replaced_queue. Qed.

(** The branch in which an operation finds its job outdated. *)
Lemma outdated_inv org doc id job iso rid job' results' r doc' :
  doc_inv org doc -> findJob (review_jobs doc) org id = Ok job ->
  markBindingStale job (review_results doc) iso rid = (job', results', r) ->
  committed doc (rv_state doc) (update_first (is_job org id) (fun _ => job') (review_jobs doc)) results'
    = Ok doc' ->
  doc_inv org doc' /\ queue_step doc doc' /\ uj_state job' = RStale /\ ur_state r = RStale /\
  review_jobs doc' = update_first (is_job org id) (fun _ => job') (review_jobs doc).
Proof.
  intros Hd Hf Hm Hc. apply findJob_ok in Hf as (Hf & Hin & Ho & _).
  unfold markBindingStale in Hm. rewrite Ho in Hm.
  destruct (staleResult_inv _ _ _ _ _ _ _ _ _ _ Hm (di_queue _ _ Hd) Hin) as (Hq & Hs & H1 & H2).
  by destruct (stepped_inv _ _ _ _ _ _ _ _ Hd Hf Hs Hq Hc) as (? & ? & ?).
Qed.

Lemma validateFinding_path paths id v f : validateFinding paths id v = Ok f ->
  forall p, uf_path f = Some p -> p ∈ paths.
Proof.
  unfold validateFinding. intros H p. ok_inv. cbn. intros ->. by bool_inv.
Qed.
Lemma validateFindings_paths ids v snapshot l : validateFindings ids v snapshot = Ok l ->
  Forall (fun f => forall p, uf_path f = Some p -> p ∈ sf_path <$> snapshot) l.
Proof.
  unfold validateFindings. destruct v as [| | | | |vs|]; try done. intros H. ok_inv.
  apply map_result_Ok_Forall2 in H. induction H as [|x f xs fs Hx _ IH]; constructor; [|done].
  by eapply validateFinding_path.
Qed.

Lemma new_review_inv org jobs results id request :
  queue_inv org jobs results -> id ∉ uj_id <$> jobs ->
  find_first (has_key org (eq_idempotencyKey request)) jobs = None ->
  queue_inv org (jobs ++ [new_job org id request]) results.
Proof.
  intros [Ho Hi Hk Hj Hr] Hid Hkey. split.
  - apply Forall_app. by repeat constructor.
  - rewrite fmap_app. apply NoDup_app. split; [done|]. split; [set_solver | apply NoDup_singleton].
  - rewrite fmap_app. apply NoDup_app. split; [done|]. split; [|apply NoDup_singleton].
    intros k Hin. cbn. rewrite list_elem_of_singleton. intros ->.
    apply list_elem_of_fmap in Hin as (j & Hjk & Hin). apply find_first_None in Hkey.
    rewrite Forall_forall in Hkey, Ho. specialize (Hkey j Hin). unfold has_key in Hkey.
    rewrite (Ho j Hin), <- Hjk, !jeqb_refl in Hkey. done.
  - apply Forall_app. by repeat constructor.
  - eapply Forall_impl; [exact Hr|]. intros r [? (j & Hin & ?)]. split; [done|]. exists j.
    split; [|done]. apply elem_of_app. by left.
Qed.

Lemma enqueue_inv t id org input now doc doc' job :
  doc_inv org doc -> id ∉ uj_id <$> review_jobs doc -> enqueue service t id org input now doc = Ok (doc', job) ->
  doc_inv org doc' /\ queue_step doc doc'.
Proof.
  intros Hd Hid H. unfold enqueue in H. ok_inv.
  destruct (find_first _ _) as [existing|] eqn:Ef; ok_inv; [by apply kept_inv|].
  pose proof (new_review_inv _ _ _ _ _ (di_queue _ _ Hd) Hid Ef) as Hq.
  destruct (committed_inv _ _ _ _ _ _ Hq E3) as (Hd' & _ & Hsub & Hact & _). split; [done|].
  by apply (qs_added _ _ (new_job org id a0)).
Qed.

Lemma bindEveSession_inv t org jid sid now doc doc' job :
  doc_inv org doc -> bindEveSession service t org jid sid now doc = Ok (doc', job) ->
  doc_inv org doc' /\ queue_step doc doc'.
Proof.
  intros Hd H. unfold bindEveSession in H. ok_inv. apply findJob_ok in E3 as (Hf & Hin & _).
  set (f := fun job => with_uj_updatedAt _ _).
  assert (Hst : Forall2 job_step (review_jobs doc) (update_first (is_job org a0) f (review_jobs doc))).
  { apply update_first_Forall2; [done|]. intros x _ _. split; [done | constructor | done]. }
  assert (Hlen := Forall2_length _ _ _ Hst).
  destruct Hd as [Hq H1 H2]. split.
  - split; cbn; [by eapply queue_inv_step | by rewrite <- Hlen | done].
  - by apply qs_evolve.
Qed.

Lemma leased_step session clock token expires job :
  active job = true -> job_step job (leased session clock token expires job).
Proof.
  intros Ha. split; [done | | intros Hok].
  - cbn. unfold active in Ha. destruct (uj_state job); try done; constructor.
  - unfold job_ok, active in *. cbn. destruct (uj_state job); try done; naive_solver.
Qed.

Lemma claim_inv t tok rid org jid sid now doc doc' answer :
  doc_inv org doc -> claim service t tok rid org jid sid now doc = Ok (doc', answer) ->
  doc_inv org doc' /\ queue_step doc doc'.
Proof.
  intros Hd H. unfold claim in H. ok_inv.
  destruct (active a3) eqn:Ea; cbn [negb] in H; [|ok_inv; by apply kept_inv].
  ok_inv. destruct a4; cbn [negb] in H.
  - destruct (_ && _); [ok_inv; by apply kept_inv|]. ok_inv. apply findJob_ok in E3 as (Hf & Hin & _).
    pose proof (leased_step a1 a2 tok a4 a3 Ea) as Hs.
    destruct (stepped_inv _ _ _ _ _ _ _ _ Hd Hf Hs (di_queue _ _ Hd) E6) as (? & ? & ?). done.
  - destruct (markBindingStale _ _ _ _) as [[job' results'] r] eqn:Em. ok_inv.
    by edestruct outdated_inv as (? & ? & _); eauto.
Qed.

Lemma getLeasedJob_inv t rid org jid token now doc doc' job :
  doc_inv org doc -> getLeasedJob service t rid org jid token now doc = Ok (doc', job) ->
  doc_inv org doc' /\ queue_step doc doc'.
Proof.
  intros Hd H. unfold getLeasedJob in H. ok_inv.
  destruct (bool_decide _); [ok_inv; by apply kept_inv|]. ok_inv.
  destruct a4; cbn [negb] in H; [ok_inv; by apply kept_inv|].
  destruct (markBindingStale _ _ _ _) as [[job' results'] r] eqn:Em. ok_inv.
  by edestruct outdated_inv as (? & ? & _); eauto.
Qed.

(** What [requireLease] grants. *)
Lemma requireLease_ok job token ms u : requireLease job token ms = Ok u ->
  exists t, boundedString token MAX_ID_LENGTH = Ok t /\ uj_state job = RRunning /\
            uj_leaseToken job = Some t /\ leaseExpired job ms = false.
Proof.
  unfold requireLease. intros H. ok_inv. exists a. apply orb_false_iff in G as [G G'].
  bool_inv. destruct (uj_leaseToken job) as [[|c t]|]; try done. apply negb_false_iff in G'. by jeqb_inv; subst.
Qed.

Lemma settled_step state error iso rid job :
  uj_state job = RRunning -> state = RPassed \/ state = RFailed ->
  job_step job (settled state error iso rid job).
Proof.
  intros Hr Hs. split.
  - by destruct error.
  - rewrite Hr. destruct error; cbn; destruct Hs as [-> | ->]; constructor.
  - intros _. unfold job_ok. destruct error; cbn; destruct Hs as [-> | ->]; naive_solver.
Qed.

(** What a verdict may be. *)
Definition verdict_ok (job : UploadReviewJob)
    (v : rv (UploadReviewState * list UploadReviewFinding * option jstr)) : Prop :=
  forall state findings error, v = Ok (state, findings, error) ->
  (state = RPassed \/ state = RFailed) /\
  Forall (fun f => forall p, uf_path f = Some p -> p ∈ sf_path <$> uj_snapshot job) findings.

Lemma settle_inv rid org jid token clock verdict doc doc' r :
  doc_inv org doc -> (forall job, verdict_ok job (verdict job)) ->
  settle service rid org jid token clock verdict doc = Ok (doc', r) ->
  doc_inv org doc' /\ queue_step doc doc' /\
  exists id job job', boundedString (JStr jid) MAX_ID_LENGTH = Ok id /\
    findJob (review_jobs doc) org id = Ok job /\
    requireLease job token (ck_milliseconds clock) = Ok tt /\
    review_jobs doc' = update_first (is_job org id) (fun _ => job') (review_jobs doc) /\
    uj_id job' = uj_id job /\ uj_organizationId job' = uj_organizationId job /\
    uj_state job' = ur_state r /\ uj_state job' <> RRunning /\
    (ur_state r <> RStale -> jobIsCurrent service (rv_state doc) job = Ok true /\
       ur_binding r = uj_binding job /\ ur_jobId r = uj_id job).
Proof.
  intros Hd Hv H. unfold settle in H. ok_inv. rename a into id, a0 into job. destruct a1.
  destruct a2; cbn [negb] in H.
  - ok_inv. destruct a as [[state findings] error]. ok_inv.
    destruct (requireLease_ok _ _ _ _ E1) as (t & _ & Hrun & _).
    pose proof (findJob_ok _ _ _ _ E0) as (Hf & Hin & Ho & Hid).
    destruct (Hv job state findings error E3) as [Hst Hfind].
    pose proof (settled_step state error (ck_iso clock) rid job Hrun Hst) as Hs.
    assert (Hq : queue_inv org (review_jobs doc) (review_results doc ++ [
      {| ur_id := rid; ur_jobId := uj_id job; ur_organizationId := org; ur_binding := uj_binding job;
         ur_model := uj_model job; ur_reviewerRevision := uj_reviewerRevision job; ur_state := state;
         ur_findings := findings; ur_createdAt := ck_iso clock; ur_finishedAt := ck_iso clock;
         ur_error := error; ur_staleReason := None |}])).
    { apply result_ok_add; [apply Hd|]. split; [done|]. exists job. by repeat split. }
    destruct (stepped_inv _ _ _ _ _ _ _ _ Hd Hf Hs Hq E4) as (? & ? & ?).
    split; [done|]. split; [done|]. exists id, job, (settled state error (ck_iso clock) rid job).
    destruct error, Hst; subst; by repeat split.
  - destruct (markBindingStale _ _ _ _) as [[job' results'] stale] eqn:Em. ok_inv.
    pose proof (findJob_ok _ _ _ _ E0) as (Hf & Hin & Ho & Hid).
    pose proof Em as Em'. unfold markBindingStale in Em'. rewrite Ho in Em'.
    destruct (staleResult_inv _ _ _ _ _ _ _ _ _ _ Em' (di_queue _ _ Hd) Hin) as (_ & Hs & _).
    destruct (outdated_inv _ _ _ _ _ _ _ _ _ _ Hd E0 Em E3) as (H1 & H2 & H3 & H4 & H5).
    apply js_identity, identity_fields in Hs as (? & ? & _).
    split; [done|]. split; [done|]. exists id, job, job'. rewrite H3, H4. by repeat split.
Qed.

Lemma complete_verdict ids findings job : verdict_ok job
  (let? validated := validateFindings ids findings (uj_snapshot job) in Ok (RPassed, validated, None)).
Proof. intros state l error H. ok_inv. split; [by left|]. by eapply validateFindings_paths. Qed.
Lemma fail_verdict error job : verdict_ok job (Ok (RFailed, [], Some (redactError error))).
Proof. intros state l e H. ok_inv. split; [by right | done]. Qed.

Lemma mark_stale_jobs_inv ids org draft reason iso test (all : list UploadReviewJob) :
  forall index jobs results jobs' results' changed,
  Forall (fun j => j ∈ all) jobs -> Forall (result_ok org all) results ->
  mark_stale_jobs ids org draft reason iso test index jobs results = (jobs', results', changed) ->
  Forall2 job_step jobs jobs' /\ Forall (result_ok org all) results' /\
  Forall2 (fun j j' => uj_organizationId j = org -> rb_draftId (uj_binding j) = draft -> test j = true ->
                       uj_state j' = RStale) jobs jobs'.
Proof.
  intros index jobs; revert index; induction jobs as [|j l IH];
    intros index results jobs' results' changed Hall Hr H; cbn [mark_stale_jobs] in H; [by simplify_eq|].
  apply Forall_cons in Hall as [Hj Hl]. destruct (_ && _) eqn:G.
  - destruct (staleResultForJob _ _ _ _ _ _) as [[j1 r1] x] eqn:Es.
    destruct (mark_stale_jobs _ _ _ _ _ _ _ l r1) as [[l' r2] ch] eqn:El. simplify_eq.
    destruct (staleResult_step _ _ _ _ _ _ _ _ _ all Es Hr Hj) as (H1 & H2 & _ & H3).
    destruct (IH _ _ _ _ _ Hl H3 El) as (H4 & H5 & H6). split; [by constructor|]. split; [done|]. by constructor.
  - destruct (mark_stale_jobs _ _ _ _ _ _ _ l results) as [[l' r2] ch] eqn:El. simplify_eq.
    destruct (IH _ _ _ _ _ Hl Hr El) as (H4 & H5 & H6). split; [by constructor|]. split; [done|].
    constructor; [|done]. intros Ho Hdr Ht. rewrite Ho, Hdr, !jeqb_refl, Ht in G. cbn in G. by bool_inv.
Qed.
Lemma markStale_inv t ids org input now doc doc' changed :
  doc_inv org doc -> markStale service t ids org input now doc = Ok (doc', changed) ->
  doc_inv org doc' /\ queue_step doc doc'.
Proof.
  intros Hd H. unfold markStale in H. ok_inv.
  destruct (mark_stale_jobs _ _ _ _ _ _ _ _ _) as [[jobs results] ch] eqn:Em. ok_inv.
  assert (Hall : Forall (fun j => j ∈ review_jobs doc) (review_jobs doc)) by (by apply Forall_forall).
  destruct (mark_stale_jobs_inv _ _ _ _ _ _ _ _ _ _ _ _ _ Hall (qi_results _ _ _ (di_queue _ _ Hd)) Em)
    as (Hs & Hr & _).
  assert (Hq : queue_inv org jobs results).
  { apply (queue_inv_step _ _ _ _ Hs). destruct (di_queue _ _ Hd). by split. }
  destruct (committed_inv _ _ _ _ _ _ Hq E7) as (Hd' & _ & _ & _ & Hsame). split; [done|].
  apply qs_evolve. rewrite Hsame; [done|]. rewrite <- (Forall2_length _ _ _ Hs). apply Hd.
Qed.

Lemma requeued_step iso job : active job = false -> job_step job (requeued_review iso job).
Proof.
  intros Ha. destruct job as [? ? ? ? ? ? ? state]. split; [by cbv | | by cbv].
  revert Ha. cbv. destruct state; intros; try done; by constructor.
Qed.
Lemma requeue_inv t aid org jid now actor doc doc' job :
  doc_inv org doc -> requeue service t aid org jid now actor doc = Ok (doc', job) ->
  doc_inv org doc' /\ queue_step doc doc'.
Proof.
  intros Hd H. unfold requeue in H. ok_inv. apply findJob_ok in E3 as (Hf & Hin & _).
  pose proof (requeued_step (ck_iso a1) a3 G) as Hs.
  by destruct (stepped_inv _ _ _ _ _ _ _ _ Hd Hf Hs (di_queue _ _ Hd) E5) as (? & ? & ?).
Qed.

Lemma updateFindingDecision_inv t aid org rid fid decision actor now reason doc doc' r :
  doc_inv org doc ->
  updateFindingDecision service t aid org rid fid decision actor now reason doc = Ok (doc', r) ->
  doc_inv org doc' /\ queue_step doc doc'.
Proof.
  intros Hd H. unfold updateFindingDecision in H. ok_inv.
  apply require_Ok in E6. destruct Hd as [[Ho Hi Hk Hj Hr] H1 H2].
  split; [|by apply queue_step_same]. split; [|done|].
  - split; try done. cbn. apply update_first_Forall; [|done].
    intros x Hx Hp _. apply find_first_Some in E6 as [Hin Hpr]. rewrite Forall_forall in Hr.
    destruct (Hr _ Hin) as [Hro (j & Hjin & ? & ? & ? & ? & Hpaths)]. split; [done|].
    exists j. repeat split; try done. cbn. apply update_first_Forall; [|done]. intros y _ _ Hy p Hyp. by apply Hy.
  - cbn. by rewrite length_update_first.
Qed.
End Steps.

(** ** Runs *)

Section Runs.
Context {DR : DateRuntime} {UT : UnicodeTables}.

(** One committed operation of the service of an organization, whose resolvers
    may change from call to call, or a change another handler makes to the
    registry.  Of [randomId] only the freshness of job ids is assumed. *)
Inductive review_step (org : jstr) (doc doc' : ReviewDoc) : Prop :=
| step_enqueue sv t id input now job : id ∉ uj_id <$> review_jobs doc ->
    enqueue sv t id org input now doc = Ok (doc', job) -> review_step org doc doc'
| step_bind sv t jid sid now job :
    bindEveSession sv t org jid sid now doc = Ok (doc', job) -> review_step org doc doc'
| step_claim sv t tok rid jid sid now answer :
    claim sv t tok rid org jid sid now doc = Ok (doc', answer) -> review_step org doc doc'
| step_claim_session sv t tok rid sid now snapshot answer :
    claimForEveSession sv t tok rid org sid now snapshot doc = Ok (doc', answer) -> review_step org doc doc'
| step_get sv t rid jid token now job :
    getLeasedJob sv t rid org jid token now doc = Ok (doc', job) -> review_step org doc doc'
| step_complete sv t ids rid jid token findings now r :
    complete sv t ids rid org jid token findings now doc = Ok (doc', r) -> review_step org doc doc'
| step_fail sv t rid jid token error now r :
    fail sv t rid org jid token error now doc = Ok (doc', r) -> review_step org doc doc'
| step_mark sv t ids input now changed :
    markStale sv t ids org input now doc = Ok (doc', changed) -> review_step org doc doc'
| step_requeue sv t aid jid now actor job :
    requeue sv t aid org jid now actor doc = Ok (doc', job) -> review_step org doc doc'
| step_decide sv t aid rid fid decision actor now reason r :
    updateFindingDecision sv t aid org rid fid decision actor now reason doc = Ok (doc', r) ->
    review_step org doc doc'
| step_registry state :
    doc' = {| rv_state := state; rv_jobs := rv_jobs doc; rv_results := rv_results doc |} ->
    review_step org doc doc'.
Inductive review_run (org : jstr) (doc : ReviewDoc) : ReviewDoc -> Prop :=
| run_start : review_run org doc doc
| run_step doc1 doc2 : review_run org doc doc1 -> review_step org doc1 doc2 -> review_run org doc doc2.

Lemma claimForEveSession_inv sv t tok rid org sid now snapshot doc doc' answer :
  doc_inv org doc -> claimForEveSession sv t tok rid org sid now snapshot doc = Ok (doc', answer) ->
  doc_inv org doc' /\ queue_step doc doc'.
Proof.
  intros Hd H. unfold claimForEveSession in H. ok_inv.
  destruct (List.filter _ _) as [|job [|]]; try done. by eapply claim_inv.
Qed.
Lemma complete_inv sv t ids rid org jid token findings now doc doc' r :
  doc_inv org doc -> complete sv t ids rid org jid token findings now doc = Ok (doc', r) ->
  doc_inv org doc' /\ queue_step doc doc'.
Proof.
  intros Hd H. unfold complete in H. ok_inv.
  destruct (settle_inv _ _ _ _ _ _ _ _ _ _ Hd (complete_verdict ids findings) H) as (? & ? & _). done.
Qed.
Lemma fail_inv sv t rid org jid token error now doc doc' r :
  doc_inv org doc -> fail sv t rid org jid token error now doc = Ok (doc', r) ->
  doc_inv org doc' /\ queue_step doc doc'.
Proof.
  intros Hd H. unfold fail in H. ok_inv.
  destruct (settle_inv _ _ _ _ _ _ _ _ _ _ Hd (fail_verdict error) H) as (? & ? & _). done.
Qed.
Create HintDb queue.
#[local] Hint Resolve enqueue_inv bindEveSession_inv claim_inv claimForEveSession_inv getLeasedJob_inv
  complete_inv fail_inv markStale_inv requeue_inv updateFindingDecision_inv : queue.

Lemma review_step_inv org doc doc' :
  doc_inv org doc -> review_step org doc doc' -> doc_inv org doc' /\ queue_step doc doc'.
Proof. intros Hd []; eauto with queue. subst. by apply kept_inv. Qed.
Definition empty_reviews (doc : ReviewDoc) : Prop := rv_jobs doc = None /\ rv_results doc = None.
Lemma empty_reviews_inv org doc : empty_reviews doc -> doc_inv org doc.
Proof.
  intros [Hj Hr]. split; unfold review_jobs, review_results;
    rewrite ?Hj, ?Hr; cbn; [|lia|lia]. split; constructor.
Qed.
Lemma review_run_inv org doc doc' : empty_reviews doc -> review_run org doc doc' -> doc_inv org doc'.
Proof.
  intros He. induction 1 as [|doc1 doc2 _ IH Hs]; [by apply empty_reviews_inv|].
  by apply review_step_inv in Hs as [? _].
Qed.

(** C13. Over every sequence of operations the queue of an
    organization keeps its invariant: ids and idempotency keys are unique, a job
    holds a lease exactly while it runs and has a result exactly when it is over,
    every result belongs to a retained job, carries that job's binding and
    contract and names only files of its snapshot, and there are never more
    than a hundred jobs or results. *)
Theorem review_queue_invariant org doc doc' :
  empty_reviews doc -> review_run org doc doc' -> doc_inv org doc'.
Proof. apply review_run_inv. Qed.

(** The queue refines the life cycle of a review: in every step
    each retained job keeps its identity (key, binding, snapshot, reviewer
    contract) and moves along [lifecycle], a job that appears is pending, and a
    job that is dropped was over. *)
Theorem review_lifecycle_refinement org doc doc1 doc2 :
  empty_reviews doc -> review_run org doc doc1 -> review_step org doc1 doc2 ->
  (forall j2, j2 ∈ review_jobs doc2 ->
     (exists j1, j1 ∈ review_jobs doc1 /\ job_identity j2 = job_identity j1 /\
                 lifecycle (uj_state j1) (uj_state j2)) \/
     (uj_state j2 = RPending /\ uj_id j2 ∉ uj_id <$> review_jobs doc1)) /\
  (forall j1, j1 ∈ review_jobs doc1 -> active j1 = true ->
     exists j2, j2 ∈ review_jobs doc2 /\ job_identity j2 = job_identity j1).
Proof.
  intros He Hr Hs. pose proof (review_run_inv _ _ _ He Hr) as Hd.
  apply review_step_inv in Hs as [_ [Hf|job Hp Hid Hsub Hact]]; [| |done].
  - split; [intros j2 Hin | intros j1 Hin _]; apply list_elem_of_lookup in Hin as [i Hi].
    + destruct (Forall2_lookup_r _ _ _ _ _ Hf Hi) as (j1 & Hi1 & Hst). left. exists j1.
      split; [by eapply list_elem_of_lookup_2|]. by destruct Hst.
    + destruct (Forall2_lookup_l _ _ _ _ _ Hf Hi) as (j2 & Hi2 & Hst). exists j2.
      split; [by eapply list_elem_of_lookup_2|]. by destruct Hst.
  - split.
    + intros j2 Hin. eapply elem_of_sublist in Hsub; [|exact Hin]. apply elem_of_app in Hsub as [H|H].
      * left. exists j2. split; [done|]. split; [done | constructor].
      * apply list_elem_of_singleton in H as ->. by right.
    + intros j1 Hin Ha. exists j1. split; [|done].
      enough (j1 ∈ List.filter active (review_jobs doc2)) as [? _]%elem_of_List_filter by done.
      rewrite Hact. apply elem_of_List_filter. split; [|done]. apply elem_of_app. by left.
Qed.
End Runs.

(** ** Witnesses *)

Module RunWitness.
Import Review.
#[local] Existing Instances iso_runtime ascii_tables zero_crypto.

Lemma enqueued : review_step org empty queued.
Proof.
  destruct enqueue_ok as [a Ha]. refine (step_enqueue _ _ _ _ _ _ _ _ _ _ Ha). apply not_elem_of_nil.
Qed.
Lemma claimed : review_step org queued running.
Proof. destruct review_claim_ok as (a & Ha & _). exact (step_claim _ _ _ _ _ _ _ _ _ _ _ Ha). Qed.
Lemma completed : review_step org running passed.
Proof. destruct review_complete_ok as (a & Ha & _). exact (step_complete _ _ _ _ _ _ _ _ _ _ _ _ Ha). Qed.
Lemma run_running : review_run org empty running.
Proof. eauto using run_start, run_step, enqueued, claimed. Qed.
End RunWitness.

Lemma review_queue_invariant_witness :
  (length (review_jobs Review.running) = 1)%nat /\ doc_inv Review.org Review.running.
Proof.
  split; [vm_compute; reflexivity|].
  exact (@review_queue_invariant iso_runtime ascii_tables Review.org Review.empty Review.running
           (conj eq_refl eq_refl) RunWitness.run_running).
Defined.

Lemma review_lifecycle_refinement_witness :
  (length (review_jobs Review.passed) = 1)%nat /\
  (forall j2, j2 ∈ review_jobs Review.passed ->
  (exists j1, j1 ∈ review_jobs Review.running /\ job_identity j2 = job_identity j1 /\
              lifecycle (uj_state j1) (uj_state j2)) \/
  (uj_state j2 = RPending /\ uj_id j2 ∉ uj_id <$> review_jobs Review.running)).
Proof.
  split; [vm_compute; reflexivity|].
  exact (proj1 (@review_lifecycle_refinement iso_runtime ascii_tables Review.org Review.empty Review.running
           Review.passed (conj eq_refl eq_refl) RunWitness.run_running RunWitness.completed)).
Defined.
