(* ===== verification/ReviewLeases.v ===== *)
(** * Leases, replays and listings of the review queue

    What the operations of [ReviewQueue.v] answer: a review is finished once and
    only under its current lease, a claim fences earlier holders, work that is
    current gets done, a request that is repeated is answered from the queue,
    and neither a listing nor a result presents an outdated review as current. *)

From Stdlib Require Import ZArith Lia SpecFloat.
From stdpp Require Import base list sorting strings sets.
From S2P Require Import Prelude Js Dates Json Numbers Wire Bundle Contracts Web Access Names PolicyEval.
From S2P Require Import Resolve Provenance State UploadReviews ReviewSnapshot ReviewQueue ReviewSafety.

Local Open Scope Z_scope.

Section Leases.
Context {DR : DateRuntime} {UT : UnicodeTables}.

Lemma find_job_replaced jobs org id job job' :
  find_first (is_job org id) jobs = Some job -> uj_id job' = uj_id job ->
  uj_organizationId job' = uj_organizationId job ->
  findJob (update_first (is_job org id) (fun _ => job') jobs) org id = Ok job'.
Proof.
  intros Hf Hid Ho. unfold findJob.
  erewrite find_first_update_found; [done | exact Hf|].
  apply find_first_Some in Hf as [_ Hp]. unfold is_job in *. by rewrite Hid, Ho.
Qed.

(** A job that does not run, or runs under another token, is out of reach. *)
Lemma settle_refused sv rid org jid token clock verdict doc id job :
  boundedString (JStr jid) MAX_ID_LENGTH = Ok id -> findJob (review_jobs doc) org id = Ok job ->
  uj_state job <> RRunning \/ (exists tok t, uj_leaseToken job = Some tok /\
    boundedString token MAX_ID_LENGTH = Ok t /\ t <> tok) ->
  is_ok (settle sv rid org jid token clock verdict doc) = false.
Proof.
  intros Hid Hf Hc. unfold settle. rewrite Hid. cbn [rbind]. rewrite Hf. cbn [rbind].
  destruct (requireLease job token (ck_milliseconds clock)) as [u|e] eqn:E; [|done]. exfalso.
  apply requireLease_ok in E as (t & Ht & Hr & Htok & _). destruct Hc as [?|(tok & t' & H1 & H2 & H3)]; [done|].
  congruence.
Qed.
Lemma complete_refused sv t ids rid org jid token findings now doc id job :
  boundedString (JStr jid) MAX_ID_LENGTH = Ok id -> findJob (review_jobs doc) org id = Ok job ->
  uj_state job <> RRunning \/ (exists tok u, uj_leaseToken job = Some tok /\
    boundedString token MAX_ID_LENGTH = Ok u /\ u <> tok) ->
  is_ok (complete sv t ids rid org jid token findings now doc) = false.
Proof.
  intros Hid Hf Hc. unfold complete. destruct (assertOrganizationId org); [|done]. cbn [rbind].
  destruct (parseClock t now); [|done]. cbn [rbind]. by eapply settle_refused.
Qed.
Lemma fail_refused sv t rid org jid token error now doc id job :
  boundedString (JStr jid) MAX_ID_LENGTH = Ok id -> findJob (review_jobs doc) org id = Ok job ->
  uj_state job <> RRunning \/ (exists tok u, uj_leaseToken job = Some tok /\
    boundedString token MAX_ID_LENGTH = Ok u /\ u <> tok) ->
  is_ok (fail sv t rid org jid token error now doc) = false.
Proof.
  intros Hid Hf Hc. unfold fail. destruct (assertOrganizationId org); [|done]. cbn [rbind].
  destruct (parseClock t now); [|done]. cbn [rbind]. by eapply settle_refused.
Qed.

(** A review is completed once, by the holder of its live lease:
    the job ran under exactly this token and the lease had not expired; unless
    the answer is a stale result, the job was current and the result carries its
    binding; and afterwards no token completes or fails the job again. *)
Theorem complete_once sv t ids rid org jid token findings now doc doc' r :
  doc_inv org doc -> complete sv t ids rid org jid token findings now doc = Ok (doc', r) ->
  (exists id job clock tok,
     boundedString (JStr jid) MAX_ID_LENGTH = Ok id /\ findJob (review_jobs doc) org id = Ok job /\
     parseClock t now = Ok clock /\ boundedString token MAX_ID_LENGTH = Ok tok /\
     uj_state job = RRunning /\ uj_leaseToken job = Some tok /\
     leaseExpired job (ck_milliseconds clock) = false /\
     (ur_state r <> RStale -> jobIsCurrent sv (rv_state doc) job = Ok true /\
                              ur_binding r = uj_binding job /\ ur_jobId r = uj_id job)) /\
  (forall sv2 t2 ids2 rid2 token2 findings2 now2,
     is_ok (complete sv2 t2 ids2 rid2 org jid token2 findings2 now2 doc') = false) /\
  (forall sv2 t2 rid2 token2 error2 now2,
     is_ok (fail sv2 t2 rid2 org jid token2 error2 now2 doc') = false).
Proof.
  intros Hd H. unfold complete in H. ok_inv.
  destruct (settle_inv _ _ _ _ _ _ _ _ _ _ Hd (complete_verdict ids findings) H)
    as (_ & _ & id & job & job' & Hid & Hf & Hl & Hj & Hji & Hjo & _ & Hns & Hcur).
  pose proof (requireLease_ok _ _ _ _ Hl) as (tok & ? & ? & ? & ?).
  assert (Hf' : findJob (review_jobs doc') org id = Ok job').
  { rewrite Hj. apply findJob_ok in Hf as (Hf & _). by eapply find_job_replaced. }
  split; [by exists id, job, a0, tok|]. split; intros.
  - eapply complete_refused; eauto.
  - eapply fail_refused; eauto.
Qed.

(** A claim that succeeds found the job pending or its lease
    expired, hands out the new token, and fences every other one: with a
    different token nothing completes or fails the job any more. *)
Theorem claim_fences sv t tok rid org jid sid now doc doc' answer :
  doc_inv org doc -> claim sv t tok rid org jid sid now doc = Ok (doc', answer) -> cl_claimed answer = true ->
  (exists id job clock,
     findJob (review_jobs doc) org id = Ok job /\ parseClock t now = Ok clock /\
     (uj_state job = RPending \/ uj_state job = RRunning /\ leaseExpired job (ck_milliseconds clock) = true) /\
     jobIsCurrent sv (rv_state doc) job = Ok true /\ findJob (review_jobs doc') org id = Ok (cl_job answer) /\
     uj_state (cl_job answer) = RRunning /\ uj_leaseToken (cl_job answer) = Some tok /\
     cl_leaseToken answer = Some tok) /\
  (forall sv2 t2 ids2 rid2 token2 clean2 findings2 now2,
     boundedString token2 MAX_ID_LENGTH = Ok clean2 -> clean2 <> tok ->
     is_ok (complete sv2 t2 ids2 rid2 org jid token2 findings2 now2 doc') = false) /\
  (forall sv2 t2 rid2 token2 clean2 error2 now2,
     boundedString token2 MAX_ID_LENGTH = Ok clean2 -> clean2 <> tok ->
     is_ok (fail sv2 t2 rid2 org jid token2 error2 now2 doc') = false).
Proof.
  intros Hd H Hcl. unfold claim in H. ok_inv. rename a3 into job.
  destruct (active job) eqn:Ea; cbn [negb] in H; [|by ok_inv]. ok_inv.
  destruct a3; cbn [negb] in H.
  2:{ destruct (markBindingStale _ _ _ _) as [[? ?] ?]. by ok_inv. }
  destruct (_ && _) eqn:El; [by ok_inv|]. ok_inv.
  pose proof (findJob_ok _ _ _ _ E3) as (Hf & _).
  pose proof (leased_step a1 a2 tok a3 job Ea) as Hs.
  destruct (stepped_inv _ _ _ _ _ _ _ _ Hd Hf Hs (di_queue _ _ Hd) E6) as (_ & _ & Hj).
  assert (Hf' : findJob (review_jobs doc') org a0 = Ok (leased a1 a2 tok a3 job)).
  { rewrite Hj. by eapply find_job_replaced. }
  split.
  - exists a0, job, a2. split; [done|]. split; [done|]. split; [|by repeat split].
    unfold active in Ea. destruct (uj_state job) eqn:Est; try done; [by left|right].
    split; [done|]. cbn in El. by apply negb_false_iff in El.
  - split; intros; [eapply complete_refused | eapply fail_refused]; try done; right; by exists tok, clean2.
Qed.

(** ** Progress *)

Lemma isoString_range ms : iso_range ms -> isoString ms = Ok (toISOString ms).
Proof.
  intros H. unfold isoString, valid_time.
  by rewrite (proj2 (between_spec _ _ _)) by (unfold MAX_TIME_VALUE, iso_range in *; lia).
Qed.
Lemma parseClock_date T ms : iso_range ms ->
  parseClock T (NowDate (Some ms)) = Ok {| ck_milliseconds := ms; ck_iso := toISOString ms |}.
Proof. intros H. unfold parseClock. by rewrite isoString_range. Qed.
Lemma leased_unexpired {DL : DateLaws DR} session clock tok job ms expires :
  iso_range expires -> ms < expires ->
  leaseExpired (leased session clock tok (toISOString expires) job) ms = false.
Proof.
  intros Hr Hlt. unfold leaseExpired.
  change (uj_leaseExpiresAt _) with (Some (toISOString expires)).
  pose proof (toISOString_nonempty expires) as Hne.
  destruct (toISOString expires) as [|c l] eqn:E; [done|]. rewrite <- E, dateParse_iso by done.
  by apply Z.leb_gt.
Qed.
Lemma boundedString_nonempty v n s : boundedString v n = Ok s -> s <> [].
Proof. destruct v; try done. cbn. intros H -> . ok_inv. by rewrite H in G. Qed.

Lemma requireLease_holder job tok ms :
  boundedString (JStr tok) MAX_ID_LENGTH = Ok tok -> uj_state job = RRunning ->
  uj_leaseToken job = Some tok -> leaseExpired job ms = false -> requireLease job (JStr tok) ms = Ok tt.
Proof.
  intros Hb Hr Ht He. unfold requireLease. rewrite Hb. cbn [rbind]. rewrite Hr, Ht, He.
  pose proof (boundedString_nonempty _ _ _ Hb). destruct tok; [done|]. by rewrite jeqb_refl.
Qed.

(** The branch of [settle] that records a verdict. *)
Lemma settle_records sv rid org jid token clock verdict doc job state findings error :
  (length (review_jobs doc) <= MAX_UPLOAD_REVIEW_JOBS)%nat ->
  boundedString (JStr jid) MAX_ID_LENGTH = Ok jid -> findJob (review_jobs doc) org jid = Ok job ->
  requireLease job token (ck_milliseconds clock) = Ok tt -> jobIsCurrent sv (rv_state doc) job = Ok true ->
  verdict job = Ok (state, findings, error) ->
  exists doc' r, settle sv rid org jid token clock verdict doc = Ok (doc', r) /\
    ur_state r = state /\ ur_findings r = findings /\ ur_binding r = uj_binding job /\
    findJob (review_jobs doc') org jid = Ok (settled state error (ck_iso clock) (ur_id r) job) /\
    ((length (review_results doc) < MAX_UPLOAD_REVIEW_RESULTS)%nat -> r ∈ review_results doc').
Proof.
  intros Hlen Hid Hf Hl Hc Hv. unfold settle. rewrite Hid. cbn [rbind]. rewrite Hf. cbn [rbind].
  rewrite Hl. cbn [rbind]. rewrite Hc. cbn [rbind negb]. rewrite Hv. cbn [rbind].
  set (r := {| ur_id := rid; ur_jobId := _ |}).
  destruct (committed_small doc (rv_state doc)
              (update_first (is_job org jid) (fun _ => settled state error (ck_iso clock) rid job) (review_jobs doc))
              (review_results doc ++ [r])) as (doc' & -> & _ & Hj & Hr).
  { by rewrite length_update_first. }
  exists doc', r. split; [done|]. split; [done|]. split; [done|]. split; [done|]. split.
  - rewrite Hj. apply findJob_ok in Hf as (Hf & _).
    eapply find_job_replaced; [exact Hf|..]; by destruct error.
  - intros Hlt. rewrite Hr by (rewrite length_app; cbn; lia). apply elem_of_app. right. by left.
Qed.

(** Work that is current gets done.  A review that waits, or whose
    lease has expired, can be claimed; and until the new lease expires its
    holder can complete it with any valid findings, whatever happened to the rest
    of the registry, as long as the review is still current.  The job is then
    passed and, while the results are not full, its result is kept. *)
Theorem review_progress {DL : DateLaws DR} sv org jid job tok rid sid T now doc :
  doc_inv org doc -> assertOrganizationId org = Ok tt ->
  boundedString (JStr jid) MAX_ID_LENGTH = Ok jid -> boundedString (JStr tok) MAX_ID_LENGTH = Ok tok ->
  boundedString (JStr sid) MAX_ID_LENGTH = Ok sid ->
  findJob (review_jobs doc) org jid = Ok job -> jobIsCurrent sv (rv_state doc) job = Ok true ->
  uj_state job = RPending \/ (uj_state job = RRunning /\ leaseExpired job now = true) ->
  iso_range now -> iso_range (now + sv_leaseSeconds sv * 1000) ->
  exists doc1 answer,
    claim sv T tok rid org jid (Some sid) (NowDate (Some now)) doc = Ok (doc1, answer) /\
    cl_claimed answer = true /\ cl_leaseToken answer = Some tok /\
    forall st' T' now' ids rid' findings l,
      jobIsCurrent sv st' job = Ok true -> iso_range now' -> now' < now + sv_leaseSeconds sv * 1000 ->
      validateFindings ids findings (uj_snapshot job) = Ok l ->
      exists doc2 r j,
        complete sv T' ids rid' org jid (JStr tok) findings (NowDate (Some now'))
          {| rv_state := st'; rv_jobs := rv_jobs doc1; rv_results := rv_results doc1 |} = Ok (doc2, r) /\
        ur_state r = RPassed /\ ur_findings r = l /\ ur_binding r = uj_binding job /\
        findJob (review_jobs doc2) org jid = Ok j /\ uj_state j = RPassed /\
        uj_resultId j = Some (ur_id r) /\
        ((length (review_results doc) < MAX_UPLOAD_REVIEW_RESULTS)%nat -> r ∈ review_results doc2).
Proof.
  intros [Hq Hlen Hres] Ho Hid Htok Hsid Hf Hc Hst Hnow Hexp.
  set (clock := {| ck_milliseconds := now; ck_iso := toISOString now |}).
  set (expires := toISOString (now + sv_leaseSeconds sv * 1000)) in *.
  set (job1 := leased (Some sid) clock tok expires job).
  assert (Ha : active job = true) by (unfold active; by destruct Hst as [-> | [-> _]]).
  pose proof (findJob_ok _ _ _ _ Hf) as (Hff & _).
  destruct (committed_small doc (rv_state doc) (update_first (is_job org jid) (fun _ => job1) (review_jobs doc))
              (review_results doc)) as (doc1 & Hcm & Hs1 & Hj1 & Hr1); [by rewrite length_update_first|].
  exists doc1, {| cl_job := job1; cl_claimed := true; cl_leaseToken := Some tok |}.
  split; [|split; [done|]; split; [done|]].
  - unfold claim. rewrite Ho, Hid, Hsid, parseClock_date by done. cbn [rbind]. rewrite Hf. cbn [rbind].
    rewrite Ha, Hc. cbn [rbind negb].
    replace (bool_decide _ && _) with false.
    2:{ destruct Hst as [Hst | [Hst He]]; rewrite Hst; [done|]. cbn. by rewrite He. }
    cbn [ck_milliseconds]. rewrite isoString_range by done. cbn [rbind]. fold clock expires job1.
    by rewrite Hcm.
  - intros st' T' now' ids rid' findings l Hc' Hnow' Hlt Hv.
    set (doc1' := {| rv_state := st'; rv_jobs := rv_jobs doc1; rv_results := rv_results doc1 |}).
    set (clock' := {| ck_milliseconds := now'; ck_iso := toISOString now' |}).
    assert (Hf1 : findJob (review_jobs doc1') org jid = Ok job1).
    { change (review_jobs doc1') with (review_jobs doc1). rewrite Hj1. by eapply find_job_replaced. }
    assert (Hl1 : requireLease job1 (JStr tok) (ck_milliseconds clock') = Ok tt).
    { apply requireLease_holder; try done. by apply leased_unexpired. }
    destruct (settle_records sv rid' org jid (JStr tok) clock'
      (fun job => let? validated := validateFindings ids findings (uj_snapshot job) in
                  Ok (RPassed, validated, None)) doc1' job1 RPassed l None)
      as (doc2 & r & Hs & H1 & H2 & H3 & H4 & H5); try done.
    + change (review_jobs doc1') with (review_jobs doc1). by rewrite Hj1, length_update_first.
    + change (uj_snapshot job1) with (uj_snapshot job). by rewrite Hv.
    + exists doc2, r. eexists. split; [|split; [done|]; split; [done|]; split; [exact H3|]; split; [exact H4|]].
      * unfold complete. rewrite Ho, parseClock_date by done. exact Hs.
      * split; [done|]. split; [done|]. intros Hlt'. apply H5.
        change (review_results doc1') with (review_results doc1). by rewrite Hr1.
Qed.

(** ** Replays and capacity *)

Lemma sameRequest_new org id request request' :
  eq_binding request' = eq_binding request -> eq_snapshot request' = eq_snapshot request ->
  eq_model request' = eq_model request -> eq_reviewerRevision request' = eq_reviewerRevision request ->
  sameRequest (new_job org id request) request' = true.
Proof.
  intros H1 H2 H3 H4. unfold sameRequest. cbn. rewrite H1, H2, H3, H4.
  unfold sameBinding, sameSnapshot. by rewrite !jeqb_refl.
Qed.

(** The clock is the only part of a request that depends on the time. *)
Lemma normalize_again t1 now1 t2 now2 input request clock :
  normalizeEnqueueInput t1 input now1 = Ok request -> parseClock t2 now2 = Ok clock ->
  normalizeEnqueueInput t2 input now2 =
    Ok {| eq_idempotencyKey := eq_idempotencyKey request; eq_binding := eq_binding request;
          eq_snapshot := eq_snapshot request; eq_model := eq_model request;
          eq_reviewerRevision := eq_reviewerRevision request; eq_clock := clock |}.
Proof.
  intros H Hc. unfold normalizeEnqueueInput in *. ok_inv. cbn [rbind]. rewrite E3. cbn [rbind].
  by rewrite Hc.
Qed.

Lemma find_by_key org jobs key job :
  NoDup (uj_idempotencyKey <$> jobs) -> job ∈ jobs -> has_key org key job = true ->
  find_first (has_key org key) jobs = Some job.
Proof.
  intros Hnd Hin Hk. destruct (find_first_is_Some _ _ _ Hin Hk) as [j Hj]. rewrite Hj. f_equal.
  apply find_first_Some in Hj as [Hjin Hjk]. unfold has_key in *. bool_inv. jeqb_inv.
  eapply NoDup_key_inj; [exact Hnd | done | done | congruence].
Qed.

(** Enqueueing is idempotent: a request that was accepted and is
    sent again, at any later time and with whatever new id the server would
    draw, is answered with the same job and adds nothing to the queue. *)
Theorem enqueue_idempotent sv t1 id1 now1 t2 id2 now2 clock2 org input doc doc1 job :
  doc_inv org doc -> id1 ∉ uj_id <$> review_jobs doc ->
  enqueue sv t1 id1 org input now1 doc = Ok (doc1, job) -> parseClock t2 now2 = Ok clock2 ->
  exists doc2, enqueue sv t2 id2 org input now2 doc1 = Ok (doc2, job) /\
    review_jobs doc2 = review_jobs doc1 /\ review_results doc2 = review_results doc1 /\ job ∈ review_jobs doc1.
Proof.
  intros Hd Hfresh H Hc2. pose proof (enqueue_inv _ _ _ _ _ _ _ _ _ Hd Hfresh H) as [Hd1 _].
  unfold enqueue in H. ok_inv. rename a0 into request.
  assert (Hkey : has_key org (eq_idempotencyKey request) job = true /\ job ∈ review_jobs doc1 /\
                 sameRequest job request = true /\ rv_state doc1 = rv_state doc).
  { destruct (find_first _ (review_jobs doc)) as [existing|] eqn:Ef; ok_inv.
    - apply find_first_Some in Ef as [Hin Hk]. apply negb_false_iff in G. done.
    - pose proof (new_review_inv _ _ _ _ _ (di_queue _ _ Hd) Hfresh Ef) as Hq.
      destruct (committed_inv _ _ _ _ _ _ Hq E3) as (_ & Hs & _ & Hact & _).
      split; [unfold has_key; cbn; by rewrite !jeqb_refl|]. split; [|split; [by apply sameRequest_new | done]].
      enough (new_job org id1 request ∈ List.filter active (review_jobs doc1))
        as [? _]%elem_of_List_filter by done.
      rewrite Hact. apply elem_of_List_filter. split; [|done]. apply elem_of_app. right. by left. }
  destruct Hkey as (Hk & Hin & Hsame & Hst).
  exists (with_collections doc1 (rv_state doc1) (review_jobs doc1) (review_results doc1)).
  split; [|by repeat split]. unfold enqueue. rewrite E. cbn [rbind].
  rewrite (normalize_again _ _ _ _ _ _ _ E0 Hc2). cbn [rbind eq_binding eq_model eq_reviewerRevision eq_idempotencyKey].
  rewrite Hst, E1. cbn [rbind].
  rewrite (find_by_key org _ _ job (qi_keys _ _ _ (di_queue _ _ Hd1)) Hin Hk).
  unfold sameRequest in *. cbn. by rewrite Hsame.
Qed.

(** A new request fails for want of room exactly when a hundred
    reviews wait or run; otherwise it is queued as a pending job, and the
    reviews that wait or run stay where they are. *)
Theorem enqueue_capacity sv t id org input now request doc :
  doc_inv org doc -> assertOrganizationId org = Ok tt -> normalizeEnqueueInput t input now = Ok request ->
  isCurrent sv (rv_state doc) (eq_binding request) (eq_model request) (eq_reviewerRevision request) = Ok true ->
  find_first (has_key org (eq_idempotencyKey request)) (review_jobs doc) = None ->
  (length (List.filter active (review_jobs doc)) = MAX_UPLOAD_REVIEW_JOBS ->
     enqueue sv t id org input now doc = Err RETENTION_LIMIT) /\
  (length (List.filter active (review_jobs doc)) <> MAX_UPLOAD_REVIEW_JOBS ->
     exists doc', enqueue sv t id org input now doc = Ok (doc', new_job org id request) /\
       List.filter active (review_jobs doc') =
       List.filter active (review_jobs doc) ++ [new_job org id request]).
Proof.
  intros [_ Hlen _] Ho Hn Hc Hk.
  assert (Hle : (length (List.filter active (review_jobs doc)) <= length (review_jobs doc))%nat)
    by apply List.filter_length_le.
  unfold enqueue. rewrite Ho, Hn. cbn [rbind]. unfold assertBindingCurrent. rewrite Hc. cbn [rbind negb].
  rewrite Hk. unfold assertRetentionAvailable. split; intros Hact.
  - assert (length (review_jobs doc) = MAX_UPLOAD_REVIEW_JOBS) as Hl by lia.
    rewrite Hl, Hact. done.
  - assert (Hok : (if (length (review_jobs doc) + 1 <=? MAX_UPLOAD_REVIEW_JOBS)%nat then Ok tt
             else throw_if (MAX_UPLOAD_REVIEW_JOBS <=? length (List.filter active (review_jobs doc)))%nat
                    with RETENTION_LIMIT ;; Ok tt) = Ok (E := ReviewError) tt).
    { case_match; [done|]. rewrite (proj2 (Nat.leb_gt _ _)); [done | lia]. }
    rewrite Hok. cbn [rbind]. unfold committed, pruneCollections.
    set (jobs := review_jobs doc ++ [new_job org id request]).
    pose proof (prune_jobs_total (length jobs) jobs (review_results doc) (le_n _)) as Hp.
    assert (Hfj : List.filter active jobs = List.filter active (review_jobs doc) ++ [new_job org id request])
      by (unfold jobs; by rewrite List.filter_app).
    destruct (prune_jobs _ jobs _) as [[jobs' results']|e].
    + destruct Hp as (_ & _ & _ & Hkeep & _). cbn [rbind].
      destruct (prune_results_total (length results') results' (le_n _)) as (r' & -> & _). cbn [rbind].
      eexists. split; [done|]. cbn. by rewrite Hkeep.
    + exfalso. destruct Hp as [_ Hp]. rewrite Hfj, length_app in Hp. cbn in Hp. lia.
Qed.

(** ** Listings *)

Lemma projectJob_current sv state job projected : has_resolver sv = true ->
  projectJob sv state job = Ok projected -> uj_state projected <> RStale ->
  projected = job /\ jobIsCurrent sv state projected = Ok true.
Proof.
  intros Hr H Hs. unfold projectJob in H. rewrite Hr in H. ok_inv.
  destruct a; cbn [negb andb] in *; [done|].
  destruct (bool_decide _) eqn:E'; cbn [negb] in *; [by bool_inv | done].
Qed.
(** A listing never shows an outdated review as anything but stale:
    each job it returns is of the organization and the wanted draft and state,
    and unless it is shown as stale it is the stored job and current. *)
Theorem listJobs_current sv org options doc l :
  has_resolver sv = true -> listJobs sv org options doc = Ok l ->
  Forall (fun j => selected options (rb_draftId (uj_binding j)) (uj_state j) = true /\
                   (uj_state j <> RStale -> j ∈ review_jobs doc /\ uj_organizationId j = org /\
                                            jobIsCurrent sv (rv_state doc) j = Ok true)) l.
Proof.
  intros Hr H. unfold listJobs in H. ok_inv. rename a1 into projected.
  apply map_result_Ok_Forall2 in E1. apply Forall_forall. intros j Hj.
  apply elem_of_take in Hj as (i & Hj%list_elem_of_lookup_2 & _).
  rewrite js_sort_perm in Hj. apply elem_of_List_filter in Hj as [Hj Hsel]. split; [done|].
  intros Hs. apply list_elem_of_lookup in Hj as [k Hk].
  destruct (Forall2_lookup_r _ _ _ _ _ E1 Hk) as (job & Hjob & Hp).
  destruct (projectJob_current _ _ _ _ Hr Hp Hs) as [-> Hc].
  apply list_elem_of_lookup_2, elem_of_List_filter in Hjob as [Hin Ho]. by jeqb_inv.
Qed.
End Leases.

(** ** Witnesses *)

Module LeaseWitness.
Import Review.
#[local] Existing Instances iso_runtime ascii_tables zero_crypto.
Lemma running_inv : doc_inv org running.
Proof. exact (review_run_inv _ Review.empty _ (conj eq_refl eq_refl) RunWitness.run_running). Qed.
Lemma queued_inv : doc_inv org queued.
Proof. exact (review_run_inv _ Review.empty _ (conj eq_refl eq_refl) (run_step _ _ _ _ (run_start _ _) RunWitness.enqueued)). Qed.
Lemma empty_inv : doc_inv org empty.
Proof. exact (empty_reviews_inv _ Review.empty (conj eq_refl eq_refl)). Qed.
End LeaseWitness.

#[local] Existing Instances iso_runtime ascii_tables zero_crypto.

Lemma complete_once_witness :
  is_ok (complete Review.service Review.t0 Review.finding_ids (js "result_2") Review.org (js "job_1")
           (JStr (js "lease_1")) Review.findings (Review.at_ 3000) Review.passed) = false.
Proof.
  destruct Review.review_complete_ok as (r & Hr & _).
  exact (proj1 (proj2 (complete_once _ _ _ _ _ _ _ _ _ _ _ _ LeaseWitness.running_inv Hr)) _ _ _ _ _ _ _).
Defined.

Lemma claim_fences_witness :
  is_ok (complete Review.service Review.t0 Review.finding_ids (js "result_2") Review.org (js "job_1")
           (JStr (js "lease_0")) Review.findings (Review.at_ 2000) Review.running) = false.
Proof.
  destruct Review.review_claim_ok as (a & Ha & Hc).
  refine (proj1 (proj2 (claim_fences _ _ _ _ _ _ _ _ _ _ _ LeaseWitness.queued_inv Ha Hc)) _ _ _ _ _
            (js "lease_0") _ _ _ _); [vm_compute; reflexivity | discriminate].
Defined.

Lemma review_progress_witness :
  exists doc1 answer,
    claim Review.service Review.t0 (js "lease_1") (js "result_0") Review.org (js "job_1") (Some (js "eve_1"))
      (NowDate (Some (Review.t0 + 1000))) Review.queued = Ok (doc1, answer) /\ cl_claimed answer = true.
Proof.
  destruct (review_progress Review.service Review.org (js "job_1") Review.job1 (js "lease_1") (js "result_0")
              (js "eve_1") Review.t0 (Review.t0 + 1000) Review.queued) as (doc1 & answer & H1 & H2 & _).
  - exact LeaseWitness.queued_inv.
  - vm_compute. reflexivity.
  - vm_compute. reflexivity.
  - vm_compute. reflexivity.
  - vm_compute. reflexivity.
  - vm_compute. reflexivity.
  - vm_compute. reflexivity.
  - left. vm_compute. reflexivity.
  - unfold iso_range, Review.t0. lia.
  - split; vm_compute; discriminate.
  - exists doc1, answer. split; [exact H1 | exact H2].
Defined.

Lemma enqueue_idempotent_witness :
  exists doc2 job, enqueue Review.service Review.t0 (js "job_2") Review.org Review.input (Review.at_ 9000)
                     Review.queued = Ok (doc2, job) /\ review_jobs doc2 = review_jobs Review.queued.
Proof.
  destruct Review.enqueue_ok as [job Hj].
  destruct (enqueue_idempotent Review.service Review.t0 (js "job_1") (Review.at_ 0) Review.t0 (js "job_2")
              (Review.at_ 9000) {| ck_milliseconds := Review.t0 + 9000; ck_iso := toISOString (Review.t0 + 9000) |}
              Review.org Review.input Review.empty Review.queued job LeaseWitness.empty_inv) as (doc2 & H1 & H2 & _).
  - apply not_elem_of_nil.
  - exact Hj.
  - vm_compute. reflexivity.
  - exists doc2, job. split; [exact H1 | exact H2].
Defined.

(** The request of the scenario, normalized. *)
Definition demo_request : EnqueueRequest := Eval vm_compute in
  match normalizeEnqueueInput Review.t0 Review.input (Review.at_ 0) with
  | Ok request => request
  | Err _ => Build_EnqueueRequest [] Review.binding [] [] [] (Build_Clock 0 [])
  end.
Lemma enqueue_capacity_witness :
  exists doc', enqueue Review.service Review.t0 (js "job_1") Review.org Review.input (Review.at_ 0) Review.empty
               = Ok (doc', new_job Review.org (js "job_1") demo_request) /\
               List.filter active (review_jobs doc') = [new_job Review.org (js "job_1") demo_request].
Proof.
  refine (proj2 (enqueue_capacity Review.service Review.t0 (js "job_1") Review.org Review.input (Review.at_ 0)
                   demo_request Review.empty LeaseWitness.empty_inv _ _ _ _) _).
  - vm_compute. reflexivity.
  - vm_compute. reflexivity.
  - vm_compute. reflexivity.
  - vm_compute. reflexivity.
  - discriminate.
Defined.

Lemma listJobs_current_witness :
  exists l, listJobs Review.service Review.org (Build_UploadReviewListOptions None None JUndef) Review.running = Ok l /\
    Forall (fun j => selected (Build_UploadReviewListOptions None None JUndef)
                       (rb_draftId (uj_binding j)) (uj_state j) = true /\
      (uj_state j <> RStale -> j ∈ review_jobs Review.running /\ uj_organizationId j = Review.org /\
         jobIsCurrent Review.service (rv_state Review.running) j = Ok true)) l.
Proof.
  destruct (listJobs Review.service Review.org (Build_UploadReviewListOptions None None JUndef) Review.running)
    as [l|e] eqn:E; [|vm_compute in E; discriminate E].
  exists l. split; [reflexivity|].
  exact (listJobs_current Review.service Review.org _ Review.running l eq_refl E).
Defined.

(** * What a review is about

    [sameBinding] compares the texts of two bindings.  On bindings whose members
    stand in the order of [validateBinding] it is equality
    ([sameBinding_iff]); a binding with the same members in another order has
    another text ([binding_text_depends_on_order]).  With the resolver of the
    registry, [resolveCurrentUploadReviewBinding], a review passes only for the
    draft as it is at that moment ([passed_review_of_current_draft]). *)

(** The strings are strings and the revision is not negative. *)
Definition optional_wf (o : option jstr) : Prop := match o with Some s => wf_jstr s | None => True end.
Definition binding_wf (b : UploadReviewBinding) : Prop :=
  wf_jstr (rb_draftId b) /\ 0 <= rb_draftRevision b /\ wf_jstr (rb_contentDigest b) /\
  optional_wf (rb_baseReleaseId b) /\ optional_wf (rb_baseReleaseVersion b) /\
  optional_wf (rb_baseDigest b) /\ wf_jstr (rb_policyRevision b).

(** Reading the members back. *)
Definition read_member (l : list (jstr * wire)) (key : string) : option wire :=
  snd <$> find_first (fun kv => jeqb kv.1 (js key)) l.
Definition wire_string (w : option wire) : option jstr :=
  match w with
  | Some (WStr s) => Some s
  | _ => None
  end.
Definition read_binding (l : list (jstr * wire)) : UploadReviewBinding := {|
  rb_draftId := default [] (wire_string (read_member l "draftId"));
  rb_draftRevision := match read_member l "draftRevision" with Some (WInt n) => n | _ => 0 end;
  rb_contentDigest := default [] (wire_string (read_member l "contentDigest"));
  rb_baseReleaseId := wire_string (read_member l "baseReleaseId");
  rb_baseReleaseVersion := wire_string (read_member l "baseReleaseVersion");
  rb_baseDigest := wire_string (read_member l "baseDigest");
  rb_policyRevision := default [] (wire_string (read_member l "policyRevision"));
|}.
Lemma read_binding_members b : read_binding (binding_members b) = b.
Proof. by destruct b as [? ? ? [] [] [] ?]. Qed.

Lemma binding_members_wf b : binding_wf b -> Forall (fun kv => wf_jstr kv.1 /\ wf_wire kv.2) (binding_members b).
Proof.
  intros (H1 & H2 & H3 & H4 & H5 & H6 & H7). unfold binding_members.
  assert (Hopt : forall key o, optional_wf o ->
    Forall (fun kv => wf_jstr kv.1 /\ wf_wire kv.2) (wire_member key WStr o)).
  { intros key [v|] Hv; [|constructor]. apply Forall_singleton. split; [apply js_wf | done]. }
  rewrite !Forall_app, !Forall_cons. repeat split; try apply js_wf; try done; by apply Hopt.
Qed.

Lemma sameBinding_eq l r : binding_wf l -> binding_wf r -> sameBinding l r = true -> l = r.
Proof.
  intros Hl Hr H. apply jeqb_true, json_text_inj in H; [|by apply wf_wire_obj, binding_members_wf..].
  assert (Hm : binding_members l = binding_members r) by congruence.
  by rewrite <- (read_binding_members l), Hm, read_binding_members.
Qed.
(** On bindings in the order of [validateBinding], comparing
    texts is comparing bindings. *)
Theorem sameBinding_iff l r : binding_wf l -> binding_wf r -> sameBinding l r = true <-> l = r.
Proof.
  intros Hl Hr. split; [by apply sameBinding_eq|]. intros ->. unfold sameBinding. apply jeqb_refl.
Qed.

(** The comparison depends on the order in which a repository
    returns the members: the same members in any other order have another
    text, so the binding no longer counts as current.  A PostgreSQL column of
    type jsonb, in which the registry keeps its state, does not keep the order. *)
Theorem binding_text_depends_on_order b members :
  binding_wf b -> members ≡ₚ binding_members b -> members <> binding_members b ->
  json_text (WObj members) <> json_text (WObj (binding_members b)).
Proof.
  intros Hb Hp Hne H. apply binding_members_wf in Hb.
  apply json_text_inj in H; [congruence| |by apply wf_wire_obj].
  apply wf_wire_obj. by rewrite Hp.
Qed.

(** ** The draft of a passed review *)

Lemma trim_wf s : wf_jstr s -> wf_jstr (trim s).
Proof.
  assert (Ht : forall s, wf_jstr s -> wf_jstr (trimStart s)).
  { clear. induction 1 as [|c s Hc Hs IH]; cbn; [constructor|]. case_match; [done | by constructor]. }
  intros Hs. unfold trim. apply Forall_reverse, Ht, Forall_reverse, Ht, Hs.
Qed.
Lemma boundedString_trim s n r : boundedString (JStr s) n = Ok r -> r = trim s.
Proof. cbn. intros H. by ok_inv. Qed.
Lemma validateDigest_trim s r : validateDigest (JStr s) = Ok r -> r = trim s.
Proof. unfold validateDigest. intros H. ok_inv. by apply boundedString_trim in E. Qed.
Lemma optional_string_trim (check : jsval -> rv jstr) o r :
  (forall s t, check (JStr s) = Ok t -> t = trim s) ->
  optional (match o with Some s => JStr s | None => JUndef end) check = Ok r -> r = option_map trim o.
Proof. intros Hc H. destruct o as [s|]; cbn in H; ok_inv; [|done]. by rewrite (Hc s a). Qed.

Lemma binding_fields b :
  field (binding_value b) "draftId" = JStr (rb_draftId b) /\
  field (binding_value b) "draftRevision" = JNum (num_of_Z (rb_draftRevision b)) /\
  field (binding_value b) "contentDigest" = JStr (rb_contentDigest b) /\
  field (binding_value b) "policyRevision" = JStr (rb_policyRevision b) /\
  field (binding_value b) "baseReleaseId" = match rb_baseReleaseId b with Some s => JStr s | None => JUndef end /\
  field (binding_value b) "baseReleaseVersion" =
    match rb_baseReleaseVersion b with Some s => JStr s | None => JUndef end /\
  field (binding_value b) "baseDigest" = match rb_baseDigest b with Some s => JStr s | None => JUndef end.
Proof. by destruct b as [? ? ? [] [] [] ?]. Qed.

(** Validating a typed binding trims its strings. *)
Lemma validateBinding_value b c : 0 <= rb_draftRevision b < 2 ^ 53 ->
  validateBinding (binding_value b) = Ok c ->
  c = {| rb_draftId := trim (rb_draftId b); rb_draftRevision := rb_draftRevision b;
         rb_contentDigest := trim (rb_contentDigest b);
         rb_baseReleaseId := option_map trim (rb_baseReleaseId b);
         rb_baseReleaseVersion := option_map trim (rb_baseReleaseVersion b);
         rb_baseDigest := option_map trim (rb_baseDigest b);
         rb_policyRevision := trim (rb_policyRevision b) |}.
Proof.
  intros Hrev H. unfold validateBinding in H.
  destruct (binding_fields b) as (F1 & F2 & F3 & F4 & F5 & F6 & F7).
  rewrite F1, F2, F3, F4, F5, F6, F7 in H. ok_inv.
  apply (optional_string_trim _ _ _ (fun s t => boundedString_trim s _ t)) in E, E0.
  apply (optional_string_trim _ _ _ validateDigest_trim) in E1.
  apply boundedString_trim in E2, E5. apply validateDigest_trim in E4.
  unfold validateRevision in E3. rewrite num_to_of_Z in E3 by done. ok_inv. by subst.
Qed.

Lemma option_trim_wf o : optional_wf o -> optional_wf (option_map trim o).
Proof. destruct o; cbn; [apply trim_wf | done]. Qed.

Section Registry.
Context {DR : DateRuntime} {UT : UnicodeTables}.

(** The draft a binding stands for, at a time. *)
Definition of_current_draft (state : RegistryState) (time : Z) (b : UploadReviewBinding) : Prop :=
  exists draft, draft ∈ default [] (st_drafts state) /\ dr_id draft = rb_draftId b /\
    dr_revision draft = rb_draftRevision b /\ trim (dr_digest draft) = rb_contentDigest b /\
    trim (po_revision (st_policy state)) = rb_policyRevision b /\
    (forall base, dr_baseResourceId draft = Some base ->
       exists skill, find_skill state base = Some skill /\ skillCurrentlyApproved state skill time = true /\
                     dr_baseDigest draft = Some (sb_digest (sk_artifact skill))).

Lemma resolve_current state id time v : resolveCurrentUploadReviewBinding state id time = Some v ->
  exists draft, draft ∈ default [] (st_drafts state) /\ dr_id draft = id /\
    dr_revision draft = rb_draftRevision v /\ dr_digest draft = rb_contentDigest v /\
    po_revision (st_policy state) = rb_policyRevision v /\
    (forall base, dr_baseResourceId draft = Some base ->
       exists skill, find_skill state base = Some skill /\ skillCurrentlyApproved state skill time = true /\
                     dr_baseDigest draft = Some (sb_digest (sk_artifact skill))).
Proof.
  unfold resolveCurrentUploadReviewBinding. intros H.
  destruct (find_first _ _) as [draft|] eqn:Ef; [|done].
  apply find_first_Some in Ef as [Hin Hid]. jeqb_inv.
  destruct (_ && _) eqn:G; [done|]. injection H as <-. exists draft. do 5 (split; [done|]).
  intros base Hb. rewrite Hb in G. cbn in G. destruct (find_skill state base) as [skill|] eqn:Es; [|done].
  exists skill. apply orb_false_iff in G as [G1 G2]. by bool_inv.
Qed.

(** A review passes only for the draft as it is then: when
    [complete] records a passed review and the service resolves bindings with
    the registry, the organization has a draft with exactly the revision and
    content the review was about, under the policy it was about, and the
    release the draft is based on is approved. *)
Theorem passed_review_of_current_draft sv time t ids rid org jid token findings now doc doc' r :
  doc_inv org doc ->
  sv_resolveCurrentBinding sv = Some (fun s id => resolveCurrentUploadReviewBinding s id time) ->
  (forall id v, resolveCurrentUploadReviewBinding (rv_state doc) id time = Some v ->
     binding_wf v /\ rb_draftRevision v < 2 ^ 53) ->
  binding_wf (ur_binding r) ->
  complete sv t ids rid org jid token findings now doc = Ok (doc', r) -> ur_state r = RPassed ->
  of_current_draft (rv_state doc) time (ur_binding r).
Proof.
  intros Hd Hsv Hwf Hb H Hp. unfold complete in H. ok_inv.
  destruct (settle_inv _ _ _ _ _ _ _ _ _ _ Hd (complete_verdict ids findings) H)
    as (_ & _ & id & job & job' & _ & _ & _ & _ & _ & _ & _ & _ & Hcur).
  destruct (Hcur ltac:(by rewrite Hp)) as (Hc & Hbind & _). rewrite Hbind in *.
  unfold jobIsCurrent, isCurrent, bindingIsCurrent, currentBinding in Hc. rewrite Hsv in Hc.
  destruct (resolveCurrentUploadReviewBinding _ _ _) as [v|] eqn:Ev; [|done].
  destruct (Hwf _ _ Ev) as [Hvwf Hvrev].
  destruct (validateBinding (binding_value v)) as [c|] eqn:Ec; [|done]. cbn [rbind] in Hc.
  apply Ok_inj, andb_true_iff in Hc as [Hc _].
  destruct Hvwf as (W1 & W2 & W3 & W4 & W5 & W6 & W7).
  apply validateBinding_value in Ec; [|done].
  assert (Hcwf : binding_wf c).
  { subst c. repeat split; cbn; auto using trim_wf, option_trim_wf. }
  destruct (resolve_current _ _ _ _ Ev) as (draft & H1 & H2 & H3 & H4 & H5 & H6).
  exists draft. split; [done|]. split; [done|].
  assert (Hbc : uj_binding job = c) by (by apply sameBinding_eq).
  rewrite Hbc. subst c. cbn. by rewrite H3, H4, H5.
Qed.
End Registry.

(** ** Witnesses *)

#[local] Existing Instances iso_runtime ascii_tables zero_crypto.
Lemma demo_binding_wf : binding_wf Review.binding.
Proof. repeat split; try apply js_wf; try done. apply Forall_app. split; [apply js_wf|]. by repeat constructor. Qed.

Lemma sameBinding_iff_witness : sameBinding Review.binding Review.binding = true.
Proof. apply (sameBinding_iff Review.binding Review.binding demo_binding_wf demo_binding_wf). reflexivity. Defined.

(** The members in the order in which jsonb returns them: shorter names first,
    names of the same length by their bytes. *)
Definition jsonb_members : list (jstr * wire) :=
  [(js "draftId", WStr (rb_draftId Review.binding));
   (js "contentDigest", WStr (rb_contentDigest Review.binding));
   (js "draftRevision", WInt (rb_draftRevision Review.binding));
   (js "policyRevision", WStr (rb_policyRevision Review.binding))].
Lemma binding_text_depends_on_order_witness :
  jsonb_members ≡ₚ binding_members Review.binding /\
  json_text (WObj jsonb_members) <> json_text (WObj (binding_members Review.binding)).
Proof.
  assert (Hp : jsonb_members ≡ₚ binding_members Review.binding) by (apply perm_skip, perm_swap).
  split; [exact Hp|].
  apply (binding_text_depends_on_order Review.binding jsonb_members demo_binding_wf Hp). discriminate.
Defined.

Lemma demo_resolved id v : resolveCurrentUploadReviewBinding (rv_state Review.running) id Review.t0 = Some v ->
  v = Review.binding.
Proof.
  unfold resolveCurrentUploadReviewBinding. change (default [] (st_drafts (rv_state Review.running))) with [Review.draft].
  cbn [find_first]. destruct (jeqb _ id); [|done]. cbn. by intros [= <-].
Qed.
Lemma passed_review_of_current_draft_witness :
  exists r, complete Review.service Review.t0 Review.finding_ids (js "result_1") Review.org (js "job_1")
              (JStr (js "lease_1")) Review.findings (Review.at_ 2000) Review.running = Ok (Review.passed, r) /\
            of_current_draft (rv_state Review.running) Review.t0 (ur_binding r).
Proof.
  destruct Review.review_complete_ok as (r & Hr & Hs). exists r. split; [exact Hr|].
  refine (passed_review_of_current_draft Review.service Review.t0 _ _ _ _ _ _ _ _ _ _ _ _ eq_refl _ _ Hr Hs).
  - exact (review_run_inv _ Review.empty _ (conj eq_refl eq_refl) RunWitness.run_running).
  - intros id v Hv%demo_resolved. subst v. split; [exact demo_binding_wf | reflexivity].
  - assert (ur_binding r = Review.binding) as ->; [|exact demo_binding_wf].
    vm_compute in Hr. injection Hr as <-. reflexivity.
Defined.
