(* ===== verification/Repository.v ===== *)
(** * Document repositories

    packages/database/src/state.ts and memory.ts: the checks on a stored
    document, its revision, and the in-memory repository; and http.ts, the
    repository client that commits by compare-and-set over a server.

    [StateRepository] is the interface the handlers use; [RepositoryLaws] is
    what it promises: a transaction runs its updater on the committed document
    and commits the outcome, or fails and changes nothing, and never touches
    another organization.  [MemoryRepository] satisfies it, and the HTTP client
    is proved against it.  An updater is a pure function, so the test for a
    returned promise ([assertSynchronousResult]) holds by typing. *)

From Stdlib Require Import ZArith Lia SpecFloat.
From stdpp Require Import base list strings gmap sets.
From S2P Require Import Prelude Js Numbers Contracts Access PolicyEval.

Local Open Scope Z_scope.

(** ** Errors *)

Inductive tx_error (E : Type) : Type :=
| UpdaterError (e : E)                 (* thrown by the updater *)
| StateRepositoryError (code : jstr).  (* thrown by the repository *)
Arguments UpdaterError {E} e.
Arguments StateRepositoryError {E} code.
Definition INVALID_STATE {E} : tx_error E := StateRepositoryError (js "INVALID_STATE").
Definition VERSION_CONFLICT {E} : tx_error E := StateRepositoryError (js "VERSION_CONFLICT").

(** ** Initial documents *)

Definition scannerPolicies (production : bool) : list ScannerPolicy :=
  zip_with (fun id mode => {| sp_id := id; sp_mode := mode; sp_blockSeverities := [High; Critical];
                              sp_timeoutSeconds := num_of_Z 120; sp_configuration := None |})
    [CiscoSkillScanner; NvidiaSkillspector; Skillsguard]
    (if production then [Required; Advisory; Advisory] else [Disabled; Disabled; Disabled]).
Definition initialPolicy (production allowUnscanned : option bool) (policyRevision : option jstr)
    (evidenceMaxAgeSeconds : option spec_float) : Policy := {|
  po_revision := default (js "policy-initial") policyRevision;
  po_scanners := scannerPolicies (default true production);
  po_allowUnscanned := default false allowUnscanned;
  po_evidenceMaxAgeSeconds := default (num_of_Z 86400) evidenceMaxAgeSeconds;
  po_hooks := None |}.
Definition defaultRegistryState (policy : Policy) : RegistryState := {|
  st_metadataRevision := None; st_schemaVersion := 1; st_skills := []; st_drafts := None; st_packs := [];
  st_jobs := []; st_scans := []; st_policy := policy; st_upstreams := []; st_feeds := None;
  st_authorizations := []; st_installReceiptTickets := Some []; st_installReceipts := Some [];
  st_builderSessions := None; st_grants := []; st_audit := [] |}.

(** ** [cloneRegistryState]: [JSON.parse(JSON.stringify(state))] *)

Definition clone_job (j : Job) : Job := {|
  jb_id := jb_id j; jb_organizationId := jb_organizationId j; jb_kind := jb_kind j; jb_state := jb_state j;
  jb_resourceId := jb_resourceId j; jb_artifact := jb_artifact j; jb_policyRevision := jb_policyRevision j;
  jb_policy := clonePolicy (jb_policy j); jb_import := jb_import j; jb_upstream := jb_upstream j;
  jb_openclawSource := json_clone (jb_openclawSource j);
  jb_sourceAcquisition := json_clone (jb_sourceAcquisition j);
  jb_sourceCatalogAliases := jb_sourceCatalogAliases j; jb_createdAt := jb_createdAt j;
  jb_updatedAt := jb_updatedAt j; jb_attempts := jb_attempts j; jb_leaseToken := jb_leaseToken j;
  jb_leaseExpiresAt := jb_leaseExpiresAt j; jb_error := jb_error j |}.
Definition clone_audit (e : AuditEvent) : AuditEvent := {|
  ae_id := ae_id e; ae_organizationId := ae_organizationId e; ae_subject := ae_subject e;
  ae_action := ae_action e; ae_resourceId := ae_resourceId e; ae_createdAt := ae_createdAt e;
  ae_details := clone_members (ae_details e) |}.
Definition cloneRegistryState (s : RegistryState) : RegistryState := {|
  st_metadataRevision := st_metadataRevision s; st_schemaVersion := st_schemaVersion s;
  st_skills := st_skills s; st_drafts := st_drafts s; st_packs := st_packs s;
  st_jobs := clone_job <$> st_jobs s; st_scans := st_scans s; st_policy := clonePolicy (st_policy s);
  st_upstreams := st_upstreams s; st_feeds := st_feeds s; st_authorizations := st_authorizations s;
  st_installReceiptTickets := st_installReceiptTickets s; st_installReceipts := st_installReceipts s;
  st_builderSessions := st_builderSessions s; st_grants := st_grants s;
  st_audit := clone_audit <$> st_audit s |}.

(** ** Checks *)

(** [validScannerPolicy], [validPolicy] and [assertRegistryState]: the tests
    that do not hold by typing. *)
Definition validScannerPolicy (s : ScannerPolicy) : bool :=
  num_finite (sp_timeoutSeconds s) && num_lt num_zero (sp_timeoutSeconds s).
Definition validPolicy (p : Policy) : bool :=
  forallb validScannerPolicy (po_scanners p) && all_distinct (sp_id <$> po_scanners p) &&
  num_finite (po_evidenceMaxAgeSeconds p) && num_le num_zero (po_evidenceMaxAgeSeconds p).
Definition validRegistryState (s : RegistryState) : bool :=
  (st_schemaVersion s =? 1) && validPolicy (st_policy s) &&
  match st_metadataRevision s with
  | Some n => (0 <=? n) && (n <=? MAX_SAFE_INTEGER)
  | None => true
  end.
Definition assertRegistryState {E} (s : RegistryState) : result (tx_error E) unit :=
  throw_if negb (validRegistryState s) with INVALID_STATE ;; Ok tt.
Definition validateAndCloneState {E} (s : RegistryState) : result (tx_error E) RegistryState :=
  let? _ := assertRegistryState s in
  let cloned := cloneRegistryState s in
  let? _ := assertRegistryState cloned in
  Ok cloned.

Definition stateRevision (s : RegistryState) : Z := default 0 (st_metadataRevision s).
Definition advanceStateRevision {E} (s : RegistryState) (previousRevision : Z)
    : result (tx_error E) RegistryState :=
  throw_if (MAX_SAFE_INTEGER <? previousRevision + 1) with INVALID_STATE ;;
  Ok (with_st_metadataRevision (Some (previousRevision + 1)) s).

Definition updater_result {E A} (r : result E A) : result (tx_error E) A :=
  match r with
  | Ok a => Ok a
  | Err e => Err (UpdaterError e)
  end.
(** One transaction on a committed document: what it commits and returns. *)
Definition run_update {E A} (update : RegistryState -> result E (RegistryState * A))
    (committed : RegistryState) : result (tx_error E) (RegistryState * A) :=
  let working := cloneRegistryState committed in
  let? _ := assertRegistryState working in
  let? (updated, value) := updater_result (update working) in
  let? advanced := advanceStateRevision updated (stateRevision working) in
  let? _ := assertRegistryState advanced in
  Ok (cloneRegistryState advanced, value).

(** ** The interface *)

Class StateRepository (R : Type) := {
  (** the document of an organization, or what it starts with *)
  document : R -> jstr -> RegistryState;
  repo_read : jstr -> R -> result (tx_error Empty_set) (R * RegistryState);
  repo_transaction {E A : Type} :
    jstr -> (RegistryState -> result E (RegistryState * A)) -> R -> result (tx_error E) (R * A);
}.
Class RepositoryLaws (R : Type) `{StateRepository R} : Prop := {
  document_clean (r : R) org : cloneRegistryState (document r org) = document r org;
  read_document org (r r' : R) s : repo_read org r = Ok (r', s) ->
    s = document r org /\ forall o, document r' o = document r o;
  read_total org (r : R) : validRegistryState (document r org) = true -> exists r' s, repo_read org r = Ok (r', s);
  transaction_commits {E A} org (f : RegistryState -> result E (RegistryState * A)) (r r' : R) a :
    repo_transaction org f r = Ok (r', a) -> run_update f (document r org) = Ok (document r' org, a);
  transaction_fails {E A} org (f : RegistryState -> result E (RegistryState * A)) (r : R) e :
    repo_transaction org f r = Err e <-> run_update f (document r org) = Err e;
  transaction_isolated {E A} org (f : RegistryState -> result E (RegistryState * A)) (r r' : R) a o :
    repo_transaction org f r = Ok (r', a) -> o <> org -> document r' o = document r o;
}.

(** ** [MemoryStateRepository] *)

Section Memory.
Context (stateFactory : jstr -> RegistryState).

Record MemoryRepository : Type := { states : gmap jstr RegistryState }.

(** The constructor checks a copy of every initial document. *)
Definition createMemoryStateRepository {E} (initial : list (jstr * RegistryState))
    : result (tx_error E) MemoryRepository :=
  let? entries := map_result (fun entry : jstr * RegistryState =>
    let copy := cloneRegistryState entry.2 in
    let? _ := assertRegistryState copy in Ok (entry.1, copy)) initial in
  Ok {| states := foldl (fun m entry => <[entry.1 := entry.2]> m) ∅ entries |}.

Definition memory_read (org : jstr) (r : MemoryRepository)
    : result (tx_error Empty_set) (MemoryRepository * RegistryState) :=
  match states r !! org with
  | None =>
      let created := cloneRegistryState (stateFactory org) in
      let? _ := assertRegistryState created in
      Ok ({| states := <[org := created]> (states r) |}, cloneRegistryState created)
  | Some current => Ok (r, cloneRegistryState current)
  end.
Definition memory_transaction {E A} (org : jstr) (update : RegistryState -> result E (RegistryState * A))
    (r : MemoryRepository) : result (tx_error E) (MemoryRepository * A) :=
  let working := cloneRegistryState (match states r !! org with
                                     | Some committed => committed
                                     | None => stateFactory org
                                     end) in
  let? _ := assertRegistryState working in
  let? (updated, value) := updater_result (update working) in
  let? advanced := advanceStateRevision updated (stateRevision working) in
  let? _ := assertRegistryState advanced in
  Ok ({| states := <[org := cloneRegistryState advanced]> (states r) |}, value).
Definition memory_clear (org : jstr) (r : MemoryRepository) : MemoryRepository :=
  {| states := delete org (states r) |}.
End Memory.

(** ** Cloning is idempotent *)

Fixpoint jsval_nested_ind (P : jsval -> Prop) (Hs : forall v, match v with JArr _ | JObj _ => True | _ => P v end)
    (HA : forall l, Forall P l -> P (JArr l)) (HO : forall l, Forall (fun kv => P kv.2) l -> P (JObj l))
    (v : jsval) : P v :=
  match v as v return P v with
  | JArr l =>
      HA l ((fix go (l : list jsval) : Forall P l :=
        match l with
        | [] => Forall_nil_2 _
        | x :: l' => Forall_cons_2 _ _ _ (jsval_nested_ind P Hs HA HO x) (go l')
        end) l)
  | JObj l =>
      HO l ((fix go (l : list (jstr * jsval)) : Forall (fun kv => P kv.2) l :=
        match l with
        | [] => Forall_nil_2 _
        | x :: l' => Forall_cons_2 (fun kv => P kv.2) _ _ (jsval_nested_ind P Hs HA HO x.2) (go l')
        end) l)
  | JUndef => Hs JUndef
  | JNull => Hs JNull
  | JBool b => Hs (JBool b)
  | JNum x => Hs (JNum x)
  | JStr s => Hs (JStr s)
  end.

Lemma num_clone_idem x : num_clone (num_clone x) = num_clone x.
Proof. by destruct x. Qed.
Lemma json_clone_undef v : is_undef (json_clone v) = is_undef v.
Proof. destruct v; try done. cbn. by case_match. Qed.
Lemma json_clone_arr l :
  json_clone (JArr l) = JArr ((fun x => if is_undef x then JNull else json_clone x) <$> l).
Proof. cbn. f_equal. apply list_fmap_ext. intros _ x _. by destruct x. Qed.
Lemma json_clone_obj l : json_clone (JObj l) =
  JObj ((fun kv => (kv.1, json_clone kv.2)) <$> List.filter (fun kv => negb (is_undef kv.2)) l).
Proof.
  cbn [json_clone]. f_equal. induction l as [|[k x] l IH]; [done|]. cbn [List.filter]. rewrite IH.
  by destruct x.
Qed.
Lemma json_clone_idem v : json_clone (json_clone v) = json_clone v.
Proof.
  apply (jsval_nested_ind (fun v => json_clone (json_clone v) = json_clone v)); [clear v; intros v | intros l IH | intros l IH].
  - destruct v as [| | |x| | |]; try done. cbn. destruct (num_finite x) eqn:E; [|done].
    cbn. by rewrite num_finite_clone, E, num_clone_idem.
  - rewrite !json_clone_arr. f_equal. induction IH as [|x l Hx _ IHl]; [done|].
    rewrite !fmap_cons, IHl. f_equal. destruct (is_undef x) eqn:E; [done|].
    by rewrite json_clone_undef, E.
  - rewrite !json_clone_obj. f_equal. induction IH as [|[k x] l Hx _ IHl]; [done|].
    cbn [List.filter fst snd] in *. destruct (is_undef x) eqn:E; cbn [negb]; [exact IHl|].
    rewrite !fmap_cons. cbn [List.filter fst snd]. rewrite json_clone_undef, E. cbn [negb].
    rewrite fmap_cons. cbn [fst snd]. by rewrite Hx, IHl.
Qed.
Lemma clone_members_idem l : clone_members (clone_members l) = clone_members l.
Proof.
  unfold clone_members. pose proof (json_clone_idem (JObj l)) as H.
  rewrite (json_clone_obj l) in *. by rewrite H.
Qed.
Lemma clonePolicy_idem p : clonePolicy (clonePolicy p) = clonePolicy p.
Proof.
  unfold clonePolicy. cbn. rewrite num_clone_idem, map_map. f_equal.
  - apply map_ext. intros s. unfold clone_scanner. cbn. rewrite num_clone_idem. f_equal.
    destruct (sp_configuration s); [|done]. cbn. by rewrite clone_members_idem.
  - destruct (po_hooks p); [|done]. cbn. rewrite map_map. f_equal. apply map_ext.
    intros h. unfold clone_hook. cbn. by rewrite num_clone_idem.
Qed.
Lemma cloneRegistryState_idem s : cloneRegistryState (cloneRegistryState s) = cloneRegistryState s.
Proof.
  unfold cloneRegistryState. cbn. rewrite clonePolicy_idem, <- !list_fmap_compose. f_equal.
  - apply list_fmap_ext. intros _ j _. cbn. unfold clone_job. cbn. by rewrite clonePolicy_idem, !json_clone_idem.
  - apply list_fmap_ext. intros _ e _. cbn. unfold clone_audit. cbn. by rewrite clone_members_idem.
Qed.
Lemma clone_revision n s :
  cloneRegistryState (with_st_metadataRevision n s) = with_st_metadataRevision n (cloneRegistryState s).
Proof. by destruct s. Qed.
Lemma stateRevision_clone s : stateRevision (cloneRegistryState s) = stateRevision s.
Proof. by destruct s. Qed.

(** ** The in-memory repository keeps the laws *)

Section MemoryLaws.
Context (stateFactory : jstr -> RegistryState).

Definition memory_document (r : MemoryRepository) (org : jstr) : RegistryState :=
  cloneRegistryState (match states r !! org with
                      | Some committed => committed
                      | None => stateFactory org
                      end).
#[export] Instance memory_repository : StateRepository MemoryRepository := {|
  document := memory_document;
  repo_read := memory_read stateFactory;
  repo_transaction E A := @memory_transaction stateFactory E A |}.

Lemma memory_transaction_run {E A} org (f : RegistryState -> result E (RegistryState * A)) r :
  memory_transaction stateFactory org f r =
  let? (committed, value) := run_update f (memory_document r org) in
  Ok ({| states := <[org := committed]> (states r) |}, value).
Proof.
  unfold memory_transaction, run_update, memory_document. rewrite cloneRegistryState_idem.
  destruct (assertRegistryState _); cbn [rbind]; [|done].
  destruct (updater_result _) as [[updated value]|]; cbn [rbind]; [|done].
  destruct (advanceStateRevision _ _); cbn [rbind]; [|done].
  by destruct (assertRegistryState a0).
Qed.
Lemma run_update_clean {E A} (f : RegistryState -> result E (RegistryState * A)) s s' a :
  run_update f s = Ok (s', a) -> cloneRegistryState s' = s'.
Proof. unfold run_update. intros H. ok_inv. destruct a1. ok_inv. apply cloneRegistryState_idem. Qed.

#[export] Instance memory_repository_laws : RepositoryLaws MemoryRepository.
Proof.
  split; cbn -[memory_transaction run_update].
  - intros r org. apply cloneRegistryState_idem.
  - intros org r r' s H. unfold memory_read, memory_document in *.
    destruct (states r !! org) as [current|] eqn:E; [by simplify_eq|]. ok_inv. cbn.
    split; [apply cloneRegistryState_idem|]. intros o.
    destruct (decide (o = org)) as [->|Hne]; [|by rewrite lookup_insert_ne].
    rewrite lookup_insert_eq, E. apply cloneRegistryState_idem.
  - intros org r H. unfold memory_read, memory_document, assertRegistryState in *.
    destruct (states r !! org); [by eauto|]. rewrite H. cbn. by eauto.
  - intros E A org f r r' a H. rewrite memory_transaction_run in H. ok_inv. destruct a0 as [c v]. ok_inv.
    f_equal. f_equal. unfold memory_document. cbn. rewrite lookup_insert_eq.
    symmetry. by eapply run_update_clean.
  - intros E A org f r e. rewrite memory_transaction_run. destruct (run_update f _) as [[c v]|]; cbn; by split; intros ?; simplify_eq.
  - intros E A org f r r' a o H Hne. rewrite memory_transaction_run in H. ok_inv. destruct a0 as [c v]. ok_inv.
    unfold memory_document. cbn. by rewrite lookup_insert_ne.
Qed.
End MemoryLaws.
