(* ===== verification/HttpRepository.v ===== *)
(** * The HTTP repository

    packages/database/src/http.ts: the server that applies a proposed document
    by compare-and-set inside a transaction of its own repository, and the
    client that offers the repository interface on top of it.

    The server is written against [StateRepository] (Repository.v) and proved
    against [RepositoryLaws].  A document travels as JSON text, so what the
    other side receives is [cloneRegistryState] of what was sent.  [authorize]
    and [request_bytes] (the size of a request body) are parameters.  The
    client runs against a [network]: what other clients commit while it works,
    and which of its messages are lost.

    A request to a path is routed by [handle]; [clientPath] is the path the
    client asks for, [encodeURIComponent] and [decodeURIComponent] being the
    language's. *)

From Stdlib Require Import ZArith Lia.
From stdpp Require Import base list strings gmap sets relations.
From S2P Require Import Prelude Js Json Numbers Contracts Access PolicyEval Repository.

Local Open Scope Z_scope.

(** ** Percent encoding *)

Definition upper_hex (n : Z) : Z := if n <? 10 then 48 + n else 55 + n.
Definition unreserved (c : Z) : bool :=
  is_digit c || is_lower c || is_upper c || existsb (Z.eqb c) (js "-_.!~*'()").
Definition percent_byte (b : Z) : jstr :=
  if unreserved b then [b] else [37; upper_hex (b / 16); upper_hex (b mod 16)].
(** A lone surrogate throws. *)
Definition encodeURIComponent (s : jstr) : option jstr :=
  if well_formed s then Some (concat (percent_byte <$> textEncode s)) else None.
(** [pending] holds the bytes of the escapes read since the last plain unit. *)
Fixpoint percent_decode (pending : list Z) (s : jstr) : option jstr :=
  match s with
  | [] => of_code_points <$> utf8_decode pending
  | c :: rest =>
      if c =? 37 then
        match rest with
        | h :: l :: rest' =>
            match hexval h, hexval l with
            | Some x, Some y => percent_decode (pending ++ [x * 16 + y]) rest'
            | _, _ => None
            end
        | _ => None
        end
      else
        match utf8_decode pending, percent_decode [] rest with
        | Some l, Some tail => Some (of_code_points l ++ c :: tail)
        | _, _ => None
        end
  end.
Definition decodeURIComponent (s : jstr) : option jstr := percent_decode [] s.

(** ** Paths *)

Fixpoint drop_slashes (s : jstr) : jstr :=
  match s with
  | c :: r => if c =? 47 then drop_slashes r else s
  | [] => []
  end.
(** [path.replace(/\/+$/, '') || '/'] *)
Definition strip_trailing (s : jstr) : jstr :=
  match reverse (drop_slashes (reverse s)) with
  | [] => js "/"
  | t => t
  end.
Definition normalizePath (path : jstr) : option jstr :=
  let trimmed := trim path in
  if startsWith (js "/") trimmed then Some (strip_trailing trimmed) else None.
(** The URL parser resolves the dot segments of a path. *)
Fixpoint dot_segments (done segments : list jstr) : list jstr :=
  match segments with
  | [] => done
  | s :: rest =>
      let last := match rest with [] => [[]] | _ => [] end in
      if jeqb s (js ".") then dot_segments (done ++ last) rest
      else if jeqb s (js "..") then dot_segments (take (length done - 1) done ++ last) rest
      else dot_segments (done ++ [s]) rest
  end.
Definition resolved_path (path : jstr) : jstr :=
  match split 47 path with
  | root :: segments => join [47] (root :: dot_segments [] segments)
  | [] => []
  end.
(** The path of [buildUrl(baseUrl, path + '/' + encodeURIComponent(org))] for a
    base URL that is an origin. *)
Definition clientPath (path org : jstr) : option jstr :=
  (fun encoded => resolved_path (path ++ [47] ++ encoded)) <$> encodeURIComponent org.

Inductive Route : Type :=
| ReadRoute (organizationId : jstr)
| TransactionRoute (organizationId : jstr)
| NoRoute (status : Z) (code : jstr).
(** The routing part of [handle]. *)
Definition route (basePath pathname : jstr) : Route :=
  let pathname := strip_trailing pathname in
  let transactionPath := basePath ++ js "/transaction" in
  let isTransaction := startsWith (transactionPath ++ js "/") pathname in
  let isRead := startsWith (basePath ++ js "/") pathname && negb isTransaction in
  if negb isRead && negb isTransaction then NoRoute 404 (js "NOT_FOUND") else
  let prefix := (if isTransaction then transactionPath else basePath) ++ js "/" in
  let encoded := drop (length prefix) pathname in
  if jeqb encoded [] || includes (js "/") encoded then NoRoute 400 (js "INVALID_ORGANIZATION") else
  match decodeURIComponent encoded with
  | None => NoRoute 400 (js "INVALID_ORGANIZATION")
  | Some organizationId => if isTransaction then TransactionRoute organizationId else ReadRoute organizationId
  end.

(** ** Messages *)

Definition HTTP_REPOSITORY_PROTOCOL_VERSION : Z := 1.
Record TransactionBody : Type := {
  tb_protocolVersion : Z;
  tb_expectedVersion : jsval;
  tb_state : RegistryState;
}.
Inductive HttpRequest : Type :=
| GetRequest (pathname : jstr)
| PostRequest (pathname : jstr) (body : option TransactionBody) (* [None]: not a JSON object *)
| OtherRequest (pathname : jstr).
Inductive HttpResponse : Type :=
| EnvelopeResponse (protocolVersion version : Z) (state : RegistryState)
| CommittedResponse (protocolVersion version : Z)
| ErrorResponse (status : Z) (code : jstr).

(** [versionFrom]: a safe integer, as a number or in digits. *)
Definition versionFrom {E} (value : jsval) : result (tx_error E) Z :=
  let number := match value with
                | JStr s => if negb (jeqb s []) && forallb is_digit s then JNum (stringToNumber s) else value
                | _ => value
                end in
  match number with
  | JNum x =>
      match num_to_Z x with
      | Some n => if (0 <=? n) && (n <=? MAX_SAFE_INTEGER) then Ok n
                  else Err (StateRepositoryError (js "INVALID_TRANSPORT"))
      | None => Err (StateRepositoryError (js "INVALID_TRANSPORT"))
      end
  | _ => Err (StateRepositoryError (js "INVALID_TRANSPORT"))
  end.

(** [Object.assign(state, proposed)]: a member the proposed document does not
    have keeps its value. *)
Definition assigned {A} (proposed old : option A) : option A :=
  match proposed with
  | Some v => Some v
  | None => old
  end.
Definition assign_state (state proposed : RegistryState) : RegistryState := {|
  st_metadataRevision := assigned (st_metadataRevision proposed) (st_metadataRevision state);
  st_schemaVersion := st_schemaVersion proposed; st_skills := st_skills proposed;
  st_drafts := assigned (st_drafts proposed) (st_drafts state); st_packs := st_packs proposed;
  st_jobs := st_jobs proposed; st_scans := st_scans proposed; st_policy := st_policy proposed;
  st_upstreams := st_upstreams proposed; st_feeds := assigned (st_feeds proposed) (st_feeds state);
  st_authorizations := st_authorizations proposed;
  st_installReceiptTickets := assigned (st_installReceiptTickets proposed) (st_installReceiptTickets state);
  st_installReceipts := assigned (st_installReceipts proposed) (st_installReceipts state);
  st_builderSessions := assigned (st_builderSessions proposed) (st_builderSessions state);
  st_grants := st_grants proposed; st_audit := st_audit proposed |}.

(** ** The server *)

Inductive cas_throw : Type :=
| HttpCasConflict (version : Z)
| CasStateError (code : jstr).
Definition cas_update (expectedVersion : Z) (proposed state : RegistryState)
    : result cas_throw (RegistryState * unit) :=
  let current := stateRevision state in
  throw_if negb (expectedVersion =? current) with HttpCasConflict current ;;
  let state := assign_state state (cloneRegistryState proposed) in
  match advanceStateRevision (E := Empty_set) state current with
  | Ok state => Ok (state, tt)
  | Err (StateRepositoryError code) => Err (CasStateError code)
  | Err (UpdaterError e) => match e with end
  end.

Section Server.
Context {R : Type} {SR : StateRepository R}.
Context (authorize : jstr -> bool) (basePath : jstr) (maxBodyBytes : Z)
        (request_bytes : option TransactionBody -> Z).

Definition response_of_error (e : tx_error cas_throw) : HttpResponse :=
  match e with
  | UpdaterError (HttpCasConflict _) => ErrorResponse 409 (js "VERSION_CONFLICT")
  | UpdaterError (CasStateError code) => ErrorResponse 400 code
  | StateRepositoryError code => ErrorResponse 400 code
  end.
Definition handleTransaction (body : option TransactionBody) (org : jstr) (r : R) : R * HttpResponse :=
  if maxBodyBytes <? request_bytes body then (r, ErrorResponse 400 (js "BODY_TOO_LARGE")) else
  match body with
  | None => (r, ErrorResponse 400 (js "INVALID_TRANSPORT"))
  | Some b =>
      if negb (tb_protocolVersion b =? HTTP_REPOSITORY_PROTOCOL_VERSION)
      then (r, ErrorResponse 501 (js "UNSUPPORTED_TRANSPORT")) else
      let outcome :=
        let? expectedVersion := versionFrom (tb_expectedVersion b) in
        let? proposed := validateAndCloneState (tb_state b) in
        let? (r', _) := repo_transaction org (cas_update expectedVersion proposed) r in
        Ok (r', expectedVersion + 1) in
      match outcome with
      | Ok (r', version) => (r', CommittedResponse HTTP_REPOSITORY_PROTOCOL_VERSION version)
      | Err e => (r, response_of_error e)
      end
  end.
Definition handleRead (org : jstr) (r : R) : R * HttpResponse :=
  match repo_read org r with
  | Ok (r', state) => (r', EnvelopeResponse HTTP_REPOSITORY_PROTOCOL_VERSION (stateRevision state) state)
  | Err _ => (r, ErrorResponse 500 (js "STATE_READ_FAILED"))
  end.
Definition request_path (request : HttpRequest) : jstr :=
  match request with
  | GetRequest p | PostRequest p _ | OtherRequest p => p
  end.
Definition handle (request : HttpRequest) (r : R) : R * HttpResponse :=
  let authorized org (k : R * HttpResponse) :=
    if authorize org then k else (r, ErrorResponse 401 (js "UNAUTHORIZED")) in
  match route basePath (request_path request) with
  | NoRoute status code => (r, ErrorResponse status code)
  | ReadRoute org =>
      authorized org match request with
                     | GetRequest _ => handleRead org r
                     | _ => (r, ErrorResponse 405 (js "METHOD_NOT_ALLOWED"))
                     end
  | TransactionRoute org =>
      authorized org match request with
                     | PostRequest _ body => handleTransaction body org r
                     | _ => (r, ErrorResponse 405 (js "METHOD_NOT_ALLOWED"))
                     end
  end.
End Server.

(** ** The client *)

(** What a call of the client fails with: an error of the updater or of the
    repository, [ConcurrentStateUpdateError], or a [fetch] that is rejected or
    never made (the organization has no URI encoding). *)
Inductive http_failure (E : Type) : Type :=
| Thrown (e : tx_error E)
| ConcurrentStateUpdate
| FetchFailed.
Arguments Thrown {E} e.
Arguments ConcurrentStateUpdate {E}.
Arguments FetchFailed {E}.
Definition UNSUPPORTED_TRANSPORT {E} : http_failure E :=
  Thrown (StateRepositoryError (js "UNSUPPORTED_TRANSPORT")).

(** One fetch: delivered or not, and answered or not. *)
Inductive delivery : Type := Delivered | RequestLost | ResponseLost.
(** What happens around attempt [k]: other clients move the repository before
    its read and before its write, and the two fetches may fail. *)
Record network (R : Type) : Type := {
  before_read : nat -> R -> R;
  before_write : nat -> R -> R;
  read_fetch : nat -> delivery;
  write_fetch : nat -> delivery;
}.
Arguments before_read {R} _ _ _.
Arguments before_write {R} _ _ _.
Arguments read_fetch {R} _ _.
Arguments write_fetch {R} _ _.

Definition unsupported_status (status : Z) : bool := (status =? 404) || (status =? 405) || (status =? 501).
Definition envelope_of_response {E} (response : HttpResponse) : result (http_failure E) (Z * RegistryState) :=
  match response with
  | ErrorResponse status code =>
      if unsupported_status status then Err UNSUPPORTED_TRANSPORT else Err (Thrown (StateRepositoryError code))
  | CommittedResponse _ _ => Err UNSUPPORTED_TRANSPORT
  | EnvelopeResponse protocolVersion version sent =>
      throw_if negb (protocolVersion =? HTTP_REPOSITORY_PROTOCOL_VERSION) with UNSUPPORTED_TRANSPORT ;;
      match validateAndCloneState (cloneRegistryState sent), versionFrom (E := E) (JNum (num_of_Z version)) with
      | Ok state, Ok version =>
          throw_if negb (version =? stateRevision state) with UNSUPPORTED_TRANSPORT ;;
          Ok (version, state)
      | Err e, _ => Err (Thrown e)
      | _, Err e => Err (Thrown e)
      end
  end.
Definition result_of_commit {E} (response : HttpResponse) : result (http_failure E) unit :=
  match response with
  | ErrorResponse status code =>
      if unsupported_status status then Err UNSUPPORTED_TRANSPORT
      else if (status =? 409) || (status =? 412) then Err ConcurrentStateUpdate
      else Err (Thrown (StateRepositoryError code))
  | CommittedResponse protocolVersion _ | EnvelopeResponse protocolVersion _ _ =>
      throw_if negb (protocolVersion =? HTTP_REPOSITORY_PROTOCOL_VERSION) with UNSUPPORTED_TRANSPORT ;;
      Ok tt
  end.

Section Client.
Context {R : Type}.
(** [server request r]: the endpoint, [handle] of a server. *)
Context (server : HttpRequest -> R -> R * HttpResponse).
Context (statePath transactionPath : jstr).

Definition fetch {A E} (d : delivery) (path : option jstr) (request : jstr -> HttpRequest)
    (k : HttpResponse -> result (http_failure E) A) (r : R) : R * result (http_failure E) A :=
  match path with
  | None => (r, Err FetchFailed)
  | Some p =>
      match d with
      | RequestLost => (r, Err FetchFailed)
      | ResponseLost => ((server (request p) r).1, Err FetchFailed)
      | Delivered => let (r', response) := server (request p) r in (r', k response)
      end
  end.
Definition getEnvelope {E} (d : delivery) (org : jstr) : R -> R * result (http_failure E) (Z * RegistryState) :=
  fetch d (clientPath statePath org) GetRequest envelope_of_response.
Definition compareAndSet {E} (d : delivery) (org : jstr) (expectedVersion : Z) (state : RegistryState)
    : R -> R * result (http_failure E) unit :=
  fetch d (clientPath transactionPath org)
    (fun p => PostRequest p (Some {| tb_protocolVersion := HTTP_REPOSITORY_PROTOCOL_VERSION;
                                     tb_expectedVersion := JNum (num_of_Z expectedVersion);
                                     tb_state := cloneRegistryState state |})) result_of_commit.

(** One attempt: the loop body of [transaction]. *)
Definition http_attempt {E A} (org : jstr) (update : RegistryState -> result E (RegistryState * A))
    (net : network R) (k : nat) (r : R) : R * result (http_failure E) A :=
  let (r1, envelope) := getEnvelope (read_fetch net k) org (before_read net k r) in
  match envelope with
  | Err e => (r1, Err e)
  | Ok (version, state) =>
      let updated :=
        let? (working, value) := updater_result (update (cloneRegistryState state)) in
        let? _ := assertRegistryState working in
        Ok (working, value) in
      match updated with
      | Err e => (r1, Err (Thrown e))
      | Ok (working, value) =>
          let (r2, committed) :=
            compareAndSet (write_fetch net k) org version working (before_write net k r1) in
          (r2, let? _ := committed in Ok value)
      end
  end.
(** [attempts] more attempts, numbered from [k]. *)
Fixpoint http_attempts {E A} (org : jstr) (update : RegistryState -> result E (RegistryState * A))
    (net : network R) (attempts k : nat) (r : R) : R * result (http_failure E) A :=
  match attempts with
  | O => (r, Err ConcurrentStateUpdate)
  | S more =>
      match http_attempt org update net k r with
      | (r', Err ConcurrentStateUpdate) => http_attempts org update net more (S k) r'
      | outcome => outcome
      end
  end.
Definition http_transaction {E A} (maxRetries : nat) (org : jstr)
    (update : RegistryState -> result E (RegistryState * A)) (net : network R) (r : R)
    : R * result (http_failure E) A :=
  http_attempts org update net (S maxRetries) 0 r.
Definition http_read {E} (d : delivery) (org : jstr) (r : R) : R * result (http_failure E) RegistryState :=
  let (r', envelope) := getEnvelope d org r in
  (r', let? (_, state) := envelope in Ok (cloneRegistryState state)).
End Client.

(** ** Percent encoding round trip *)

Definition escape_cp (cp : Z) : jstr := concat (percent_byte <$> utf8_of_cp cp).

Lemma unreserved_ascii c : unreserved c = true -> 0 <= c < 128 /\ c <> 37 /\ c <> 47.
Proof.
  unfold unreserved. rewrite !orb_true_iff. intros [[[H|H]|H]|H]; [range_inv; lia..|].
  apply existsb_exists in H as (x & Hx & E). apply Z.eqb_eq in E. subst. cbn in Hx. intuition lia.
Qed.
Lemma hexval_upper n : 0 <= n < 16 -> hexval (upper_hex n) = Some n.
Proof.
  intros H. unfold hexval, upper_hex. destruct (n <? 10) eqn:E; bool_inv.
  - rewrite (proj2 (between_spec _ _ _)) by lia. f_equal; lia.
  - rewrite !(proj2 (between_false _ (55 + n) _)) by lia.
    rewrite (proj2 (between_spec 65 _ _)) by lia. f_equal; lia.
Qed.
Lemma percent_decode_escape p b s : 0 <= b < 256 -> unreserved b = false ->
  percent_decode p (percent_byte b ++ s) = percent_decode (p ++ [b]) s.
Proof.
  intros Hb Hu. unfold percent_byte. rewrite Hu. cbn -[upper_hex Z.div Z.modulo].
  rewrite !hexval_upper by dlia. do 2 f_equal. f_equal. dlia.
Qed.
Lemma percent_decode_bytes p bs s : Forall (fun b => 128 <= b < 256) bs ->
  percent_decode p (concat (percent_byte <$> bs) ++ s) = percent_decode (p ++ bs) s.
Proof.
  intros H. revert p. induction H as [|b bs Hb _ IH]; intros p; cbn [fmap list_fmap concat app].
  - by rewrite app_nil_r.
  - rewrite <- app_assoc, percent_decode_escape, IH, <- app_assoc; [done|lia|].
    destruct (unreserved b) eqn:E; [|done]. apply unreserved_ascii in E. lia.
Qed.
Lemma utf8_multibyte cp : is_scalar cp -> 128 <= cp -> Forall (fun b => 128 <= b < 256) (utf8_of_cp cp).
Proof.
  intros [H _] Hc. unfold utf8_of_cp. repeat case_match; bool_inv; repeat constructor; dlia.
Qed.
Lemma utf8_ascii cp : 0 <= cp < 128 -> utf8_of_cp cp = [cp].
Proof. intros H. unfold utf8_of_cp. by rewrite (proj2 (Z.ltb_lt cp 0x80)) by lia. Qed.
Lemma percent_decode_scalars m l : Forall is_scalar l -> Forall is_scalar m ->
  percent_decode (concat (utf8_of_cp <$> l)) (concat (escape_cp <$> m)) = Some (of_code_points (l ++ m)).
Proof.
  intros Hl Hm. revert l Hl. induction Hm as [|cp m Hcp Hm IH]; intros l Hl.
  { cbn. by rewrite utf8_round_trip, app_nil_r. }
  assert (Hnext : percent_decode (concat (utf8_of_cp <$> l) ++ utf8_of_cp cp) (concat (escape_cp <$> m)) =
    Some (of_code_points (l ++ cp :: m))).
  { replace (l ++ cp :: m) with ((l ++ [cp]) ++ m) by (by rewrite <- app_assoc).
    rewrite <- IH by (apply Forall_app; auto). by rewrite fmap_app, concat_app; cbn; rewrite app_nil_r. }
  cbn [fmap list_fmap concat]. unfold escape_cp at 1. destruct (decide (128 <= cp)) as [Hc|Hc].
  { by rewrite percent_decode_bytes by (by apply utf8_multibyte). }
  assert (0 <= cp < 128) as Ha by (destruct Hcp; lia).
  rewrite utf8_ascii in * by done. cbn [fmap list_fmap concat]. rewrite app_nil_r.
  destruct (unreserved cp) eqn:Eu; [|by rewrite percent_decode_escape by (done || lia)].
  unfold percent_byte. rewrite Eu. apply unreserved_ascii in Eu as (_ & H37 & _).
  cbn [app percent_decode]. rewrite (proj2 (Z.eqb_neq cp 37)) by done.
  rewrite utf8_round_trip by done. pose proof (IH [] ltac:(constructor)) as IH0. cbn [fmap list_fmap concat app] in IH0.
  rewrite IH0.
  unfold of_code_points. rewrite fmap_app, concat_app. cbn [fmap list_fmap concat]. do 2 f_equal.
  unfold utf16_of_cp at 2. by rewrite (proj2 (Z.ltb_lt cp 0x10000)) by lia.
Qed.
Lemma encode_escapes s e : wf_jstr s -> encodeURIComponent s = Some e ->
  e = concat (escape_cp <$> code_points s) /\ Forall is_scalar (code_points s).
Proof.
  unfold encodeURIComponent. intros Hw H. case_match eqn:Hs; simplify_eq. split; [|by apply code_points_scalar].
  rewrite textEncode_well_formed by done. clear. induction (code_points s) as [|cp l IH]; [done|].
  cbn. by rewrite fmap_app, concat_app, IH.
Qed.
Lemma decode_encode s e : wf_jstr s -> encodeURIComponent s = Some e -> decodeURIComponent e = Some s.
Proof.
  intros Hw H. destruct (encode_escapes s e Hw H) as [-> Hs]. unfold decodeURIComponent.
  pose proof (percent_decode_scalars (code_points s) [] ltac:(constructor) Hs) as H0.
  cbn [fmap list_fmap concat app] in H0. by rewrite H0, of_code_points_id.
Qed.

(** ** Routing *)

Lemma percent_byte_chars b : 0 <= b < 256 -> Forall (fun c => c <> 47) (percent_byte b) /\ percent_byte b <> [].
Proof.
  intros Hb. unfold percent_byte. destruct (unreserved b) eqn:E; split; try done.
  - apply unreserved_ascii in E as (_ & _ & H). by repeat constructor.
  - unfold upper_hex. repeat constructor; try case_match; bool_inv; dlia.
Qed.
Lemma encode_chars s e : wf_jstr s -> s <> [] -> encodeURIComponent s = Some e -> 47 ∉ e /\ e <> [].
Proof.
  intros Hw Hne H. split.
  - unfold encodeURIComponent in H. case_match; simplify_eq. pose proof (textEncode_bytes s Hw) as Hb.
    induction Hb as [|b bs Hb _ IH]; [set_solver|]. cbn. apply not_elem_of_app. split; [|done].
    destruct (percent_byte_chars b Hb) as [Hc _]. rewrite Forall_forall in Hc. intros Hin. by apply (Hc 47).
  - intros ->. apply Hne. apply decode_encode in H; [|done]. by injection H.
Qed.
Lemma strip_trailing_id l e : 47 ∉ e -> e <> [] -> strip_trailing (l ++ e) = l ++ e.
Proof.
  intros Hn He. destruct e as [|c e _] using rev_ind; [done|].
  assert (Hr : reverse (l ++ e ++ [c]) = c :: reverse (l ++ e)) by (by rewrite app_assoc, reverse_snoc).
  unfold strip_trailing. rewrite Hr. cbn [drop_slashes].
  rewrite (proj2 (Z.eqb_neq c 47)) by set_solver. rewrite <- Hr, reverse_involutive.
  destruct (l ++ e ++ [c]) eqn:E; [|done]. apply (f_equal length) in E. rewrite !length_app in E. cbn in E. lia.
Qed.

Definition DEFAULT_STATE_PATH : jstr := js "/v1/internal/state".
Definition DEFAULT_TRANSACTION_PATH : jstr := js "/v1/internal/state/transaction".

Definition plain_segment (s : jstr) : bool := negb (jeqb s (js ".")) && negb (jeqb s (js "..")).
Lemma dot_segments_plain l done : forallb plain_segment l = true -> dot_segments done l = done ++ l.
Proof.
  revert done. induction l as [|s l IH]; intros done H; cbn [dot_segments]; [by rewrite app_nil_r|].
  cbn in H. apply andb_true_iff in H as [Hs Hl]. unfold plain_segment in Hs. bool_inv.
  repeat match goal with H : jeqb _ _ = false |- _ => rewrite H end.
  rewrite IH by done. by rewrite <- app_assoc.
Qed.
Lemma resolved_path_plain l e : 47 ∉ e -> plain_segment e = true ->
  forallb plain_segment (tail (split 47 l)) = true -> resolved_path (l ++ 47 :: e) = l ++ 47 :: e.
Proof.
  intros He Hp Hl. rewrite <- (join_split 47 (l ++ 47 :: e)) at 2. unfold resolved_path.
  rewrite split_app_sep, (split_single 47 e) by done. pose proof (split_ne_nil 47 l) as Hn.
  destruct (split 47 l) as [|root segments]; [done|]. cbn [app tail] in *.
  by rewrite dot_segments_plain by (by rewrite forallb_app, Hl; cbn; rewrite Hp).
Qed.
Lemma plain_organization org e : wf_jstr org -> encodeURIComponent org = Some e ->
  org <> js "." -> org <> js ".." -> plain_segment e = true.
Proof.
  intros Hw He H1 H2. apply decode_encode in He; [|done].
  unfold plain_segment. apply andb_true_iff. split; apply negb_true_iff, jeqb_false; intros ->;
    [apply H1|apply H2]; by injection He.
Qed.
(** A request of the client reaches the organization it names, for reads and
    for transactions. *)
Lemma route_client org e : wf_jstr org -> encodeURIComponent org = Some e ->
  org <> [] -> org <> js "." -> org <> js ".." ->
  clientPath DEFAULT_STATE_PATH org = Some (DEFAULT_STATE_PATH ++ 47 :: e) /\
  clientPath DEFAULT_TRANSACTION_PATH org = Some (DEFAULT_TRANSACTION_PATH ++ 47 :: e) /\
  route DEFAULT_STATE_PATH (DEFAULT_STATE_PATH ++ 47 :: e) = ReadRoute org /\
  route DEFAULT_STATE_PATH (DEFAULT_TRANSACTION_PATH ++ 47 :: e) = TransactionRoute org.
Proof.
  intros Hw He Hne H1 H2. destruct (encode_chars _ _ Hw Hne He) as [Hs Hnil].
  pose proof (plain_organization _ _ Hw He H1 H2) as Hp. pose proof (decode_encode _ _ Hw He) as Hd.
  assert (Hi : jeqb e [] || includes (js "/") e = false).
  { apply orb_false_iff. split; [by apply jeqb_false|]. by apply includes_single. }
  assert (Hst : forall l, strip_trailing (l ++ 47 :: e) = l ++ 47 :: e).
  { intros l. replace (l ++ 47 :: e) with ((l ++ [47]) ++ e) by (by rewrite <- app_assoc). by apply strip_trailing_id. }
  assert (Hnt : startsWith ((DEFAULT_STATE_PATH ++ js "/transaction") ++ js "/") (DEFAULT_STATE_PATH ++ 47 :: e) = false).
  { apply not_true_is_false. intros E. apply startsWith_spec in E as [r E]. cbn in E. injection E as ->. set_solver. }
  assert (Hsw : forall l r, startsWith (l ++ js "/") (l ++ 47 :: r) = true).
  { intros l r. apply startsWith_spec. exists r. by rewrite <- app_assoc. }
  assert (Hdr : forall l, drop (length (l ++ js "/")) (l ++ 47 :: e) = e).
  { intros l. change (47 :: e) with (js "/" ++ e). by rewrite app_assoc, drop_app_length. }
  repeat split.
  - unfold clientPath. rewrite He. cbn [fmap option_fmap option_map app]. by rewrite resolved_path_plain.
  - unfold clientPath. rewrite He. cbn [fmap option_fmap option_map app]. by rewrite resolved_path_plain.
  - unfold route. rewrite Hst, Hnt, Hsw. cbn [andb negb]. by rewrite Hdr, Hi, Hd.
  - unfold route. change DEFAULT_TRANSACTION_PATH with (DEFAULT_STATE_PATH ++ js "/transaction").
    rewrite Hst, Hsw. rewrite andb_false_r. cbn [andb negb]. by rewrite Hdr, Hi, Hd.
Qed.
