(* ===== verification/HttpSafety.v ===== *)
(** * The HTTP repository keeps the promises of a repository

    Theorems on HttpRepository.v.  Whatever other clients commit in between and
    whatever messages are lost, a transaction of the client takes effect at
    most once, at one instant, as its updater run on the document of that
    instant and merged into it; it gives up only after as many commits of others
    as it made attempts; and it succeeds when left alone. *)

From Stdlib Require Import ZArith Lia.
From stdpp Require Import base list strings gmap sets relations.
From S2P Require Import Prelude Js Json Numbers Contracts Access PolicyEval Repository HttpRepository.

Local Open Scope Z_scope.

(** ** Revisions *)

Lemma run_update_inv {E A} (f : RegistryState -> result E (RegistryState * A)) s s' a :
  run_update f s = Ok (s', a) ->
  exists updated, f (cloneRegistryState s) = Ok (updated, a) /\
    validRegistryState (cloneRegistryState s) = true /\
    stateRevision s + 1 <= MAX_SAFE_INTEGER /\
    validRegistryState (with_st_metadataRevision (Some (stateRevision s + 1)) updated) = true /\
    s' = cloneRegistryState (with_st_metadataRevision (Some (stateRevision s + 1)) updated).
Proof.
  unfold run_update, assertRegistryState, advanceStateRevision. rewrite stateRevision_clone. intros H.
  destruct (validRegistryState (cloneRegistryState s)) eqn:Ev; cbn [negb rbind] in H; [|done].
  destruct (f _) as [[updated v]|] eqn:Ef; cbn [updater_result rbind] in H; [|done].
  destruct (MAX_SAFE_INTEGER <? stateRevision s + 1) eqn:El; cbn [rbind] in H; [done|]. bool_inv.
  destruct (validRegistryState (with_st_metadataRevision _ updated)) eqn:Ea; cbn [negb rbind] in H; [|done].
  apply Ok_inj in H. injection H as <- <-. eauto 10.
Qed.
Lemma run_update_intro {E A} (f : RegistryState -> result E (RegistryState * A)) s updated a :
  f (cloneRegistryState s) = Ok (updated, a) ->
  validRegistryState (cloneRegistryState s) = true ->
  stateRevision s + 1 <= MAX_SAFE_INTEGER ->
  validRegistryState (with_st_metadataRevision (Some (stateRevision s + 1)) updated) = true ->
  run_update f s = Ok (cloneRegistryState (with_st_metadataRevision (Some (stateRevision s + 1)) updated), a).
Proof.
  intros Hf Hv Hm Ha. unfold run_update, assertRegistryState, advanceStateRevision.
  rewrite stateRevision_clone, Hv, Hf. cbn [negb rbind updater_result].
  rewrite (proj2 (Z.ltb_ge _ _)) by done. cbn [rbind]. by rewrite Ha.
Qed.
Lemma run_update_revision {E A} (f : RegistryState -> result E (RegistryState * A)) s s' a :
  run_update f s = Ok (s', a) -> stateRevision s' = stateRevision s + 1.
Proof. intros (u & _ & _ & _ & _ & ->)%run_update_inv. by rewrite stateRevision_clone. Qed.

Section Evolution.
Context {R : Type} {SR : StateRepository R} {RL : RepositoryLaws R}.

(** What any client can do to a repository. *)
Inductive repo_step : R -> R -> Prop :=
| step_read org r r' s : repo_read org r = Ok (r', s) -> repo_step r r'
| step_transaction E A org (f : RegistryState -> result E (RegistryState * A)) r r' a :
    repo_transaction org f r = Ok (r', a) -> repo_step r r'.
Definition evolves : R -> R -> Prop := rtc repo_step.
Definition revision (r : R) (org : jstr) : Z := stateRevision (document r org).

Lemma repo_step_revision r r' org : repo_step r r' ->
  document r' org = document r org \/ revision r' org = revision r org + 1.
Proof.
  unfold revision. destruct 1 as [o r r' s H|E A o f r r' a H].
  - left. by apply read_document in H as [_ H].
  - destruct (decide (org = o)) as [->|Hne]; [|left; by eapply transaction_isolated].
    right. apply transaction_commits in H. by apply run_update_revision in H.
Qed.
(** A revision names one document. *)
Lemma evolves_revision r r' org : evolves r r' ->
  revision r org <= revision r' org /\
  (revision r org = revision r' org -> document r' org = document r org).
Proof.
  induction 1 as [r|r r1 r2 Hs _ [IHle IHeq]]; [by split|].
  apply (repo_step_revision _ _ org) in Hs as [Hd|Hr].
  - unfold revision in *. rewrite Hd in *. by split.
  - split; [lia|]. intros Heq. lia.
Qed.
End Evolution.

(** ** What the server commits *)

(** The server does not replace its document by the proposed one but merges the
    two: a collection the proposed document does not have keeps its value.  This
    is what an updater amounts to over HTTP. *)
Definition merging {E A} (f : RegistryState -> result E (RegistryState * A)) (s : RegistryState)
    : result E (RegistryState * A) :=
  let? (w, a) := f s in Ok (assign_state s w, a).
(** An updater that drops no optional collection of the document. *)
Definition keeps {A} (old new : option A) : Prop := is_Some old -> is_Some new.
Definition keeps_collections (s s' : RegistryState) : Prop :=
  keeps (st_drafts s) (st_drafts s') /\ keeps (st_feeds s) (st_feeds s') /\
  keeps (st_installReceiptTickets s) (st_installReceiptTickets s') /\
  keeps (st_installReceipts s) (st_installReceipts s') /\
  keeps (st_builderSessions s) (st_builderSessions s').

Lemma assigned_keeps {A} (p o : option A) : keeps o p -> assigned p o = p.
Proof. unfold keeps. destruct p, o; try done. intros H. by destruct H. Qed.
Lemma assign_keeps n s w : keeps_collections s w ->
  with_st_metadataRevision n (assign_state s w) = with_st_metadataRevision n w.
Proof.
  intros (H1 & H2 & H3 & H4 & H5). unfold with_st_metadataRevision, assign_state. cbn.
  by rewrite !assigned_keeps.
Qed.
Lemma assign_clone s w : assign_state s (cloneRegistryState w) = cloneRegistryState (assign_state s w).
Proof. reflexivity. Qed.
Lemma validScannerPolicy_clone s : validScannerPolicy (clone_scanner s) = validScannerPolicy s.
Proof. unfold validScannerPolicy. cbn. by destruct (sp_timeoutSeconds s). Qed.
Lemma validPolicy_clone p : validPolicy (clonePolicy p) = validPolicy p.
Proof.
  unfold validPolicy. cbn. f_equal; [f_equal; [f_equal|]|by destruct (po_evidenceMaxAgeSeconds p)].
  - induction (po_scanners p) as [|s l IH]; [done|]. cbn [map forallb]. by rewrite validScannerPolicy_clone, IH.
  - change (map clone_scanner (po_scanners p)) with (clone_scanner <$> po_scanners p).
    by rewrite <- list_fmap_compose.
  - by destruct (po_evidenceMaxAgeSeconds p).
Qed.
Lemma validRegistryState_clone s : validRegistryState (cloneRegistryState s) = validRegistryState s.
Proof. unfold validRegistryState. cbn. by rewrite validPolicy_clone. Qed.
Lemma valid_revision s : validRegistryState s = true -> 0 <= stateRevision s <= MAX_SAFE_INTEGER.
Proof.
  unfold validRegistryState, stateRevision. intros H. bool_inv. destruct (st_metadataRevision s); cbn; bool_inv; try lia.
  unfold MAX_SAFE_INTEGER. lia.
Qed.
Lemma valid_with_revision n s : validRegistryState s = true -> 0 <= n <= MAX_SAFE_INTEGER ->
  validRegistryState (with_st_metadataRevision (Some n) s) = true.
Proof.
  unfold validRegistryState. cbn. intros H Hn. bool_inv.
  rewrite !(proj2 (Z.leb_le _ _)) by lia. rewrite (proj2 (Z.eqb_eq _ _)) by done. by rewrite andb_true_r.
Qed.

Lemma valid_assign s w : validRegistryState s = true -> validRegistryState w = true ->
  validRegistryState (assign_state s w) = true.
Proof.
  unfold validRegistryState. cbn. intros Hs Hw. bool_inv.
  destruct (st_metadataRevision w), (st_metadataRevision s); cbn in *; bool_inv;
    rewrite ?andb_true_iff, ?Z.eqb_eq, ?Z.leb_le; auto.
Qed.

(** The server's updater on the document the client read commits what the
    client's updater makes of it, merged into this document. *)
Definition committed_state (v : Z) (w : RegistryState) : RegistryState :=
  cloneRegistryState (with_st_metadataRevision (Some (v + 1)) w).

Lemma cas_update_run s w : stateRevision s + 1 <= MAX_SAFE_INTEGER ->
  cas_update (stateRevision s) (cloneRegistryState (cloneRegistryState w)) s =
  Ok (with_st_metadataRevision (Some (stateRevision s + 1)) (cloneRegistryState (assign_state s w)), tt).
Proof.
  intros Hm. unfold cas_update, advanceStateRevision. rewrite Z.eqb_refl. cbn [negb].
  rewrite (proj2 (Z.ltb_ge _ _)) by done. by rewrite !cloneRegistryState_idem, assign_clone.
Qed.
Lemma cas_update_commits v w s s' u : cloneRegistryState s = s ->
  run_update (cas_update v (cloneRegistryState (cloneRegistryState w))) s = Ok (s', u) ->
  v = stateRevision s /\ validRegistryState s = true /\ v + 1 <= MAX_SAFE_INTEGER /\
  s' = committed_state v (assign_state s w).
Proof.
  intros Hc (w' & Hf & Hv & Hm & _ & ->)%run_update_inv. rewrite Hc in *.
  assert (v = stateRevision s) as ->.
  { unfold cas_update in Hf. destruct (Z.eqb_spec v (stateRevision s)); [done|]. by cbn in Hf. }
  rewrite cas_update_run in Hf by done. apply Ok_inj in Hf. injection Hf as <- _.
  repeat split; try done. unfold committed_state. by rewrite !clone_revision, cloneRegistryState_idem.
Qed.
Lemma cas_update_succeeds w s : cloneRegistryState s = s ->
  validRegistryState s = true -> validRegistryState w = true -> stateRevision s + 1 <= MAX_SAFE_INTEGER ->
  run_update (cas_update (stateRevision s) (cloneRegistryState (cloneRegistryState w))) s =
  Ok (committed_state (stateRevision s) (assign_state s w), tt).
Proof.
  intros Hc Hv Hw Hm. pose proof (valid_revision s Hv).
  erewrite run_update_intro; [|by rewrite Hc; apply cas_update_run|by rewrite Hc|done|].
  - unfold committed_state. by rewrite !clone_revision, cloneRegistryState_idem.
  - do 2 (apply valid_with_revision; [|lia]). rewrite validRegistryState_clone. by apply valid_assign.
Qed.
Lemma cas_update_conflict v p s n : cloneRegistryState s = s ->
  run_update (cas_update v p) s = Err (UpdaterError (HttpCasConflict n)) -> stateRevision s <> v.
Proof.
  intros Hc H <-. unfold run_update, cas_update in H. rewrite Hc in H.
  unfold assertRegistryState, advanceStateRevision in H. rewrite Z.eqb_refl in H. cbn [negb] in H.
  repeat case_match; cbn in *; simplify_eq; try done; repeat case_match; simplify_eq.
Qed.
Lemma updater_commits {E A} (f : RegistryState -> result E (RegistryState * A)) s w a :
  cloneRegistryState s = s -> validRegistryState s = true -> f s = Ok (w, a) -> validRegistryState w = true ->
  stateRevision s + 1 <= MAX_SAFE_INTEGER -> run_update f s = Ok (committed_state (stateRevision s) w, a).
Proof.
  intros Hc Hv Hf Hw Hm. pose proof (valid_revision s Hv).
  apply run_update_intro; [by rewrite Hc|by rewrite Hc|done|]. apply valid_with_revision; [done|lia].
Qed.

Lemma merging_commits {E A} (f : RegistryState -> result E (RegistryState * A)) s w a :
  cloneRegistryState s = s -> validRegistryState s = true -> f s = Ok (w, a) -> validRegistryState w = true ->
  stateRevision s + 1 <= MAX_SAFE_INTEGER ->
  run_update (merging f) s = Ok (committed_state (stateRevision s) (assign_state s w), a).
Proof.
  intros Hc Hv Hf Hw Hm. apply updater_commits; [done | done | | by apply valid_assign | done].
  unfold merging. by rewrite Hf.
Qed.
(** Over HTTP an updater that drops no collection is the updater itself. *)
Lemma merging_keeps {E A} (f : RegistryState -> result E (RegistryState * A)) s s' a :
  cloneRegistryState s = s -> (forall w b, f s = Ok (w, b) -> keeps_collections s w /\ validRegistryState w = true) ->
  run_update (merging f) s = Ok (s', a) -> run_update f s = Ok (s', a).
Proof.
  intros Hc Hk (u & Hf & Hv & Hm & _ & ->)%run_update_inv. rewrite Hc in *. unfold merging in Hf.
  destruct (f s) as [[w b]|] eqn:E1; [|done]. cbn [rbind] in Hf. apply Ok_inj in Hf. injection Hf as <- <-.
  destruct (Hk w b eq_refl) as [Hkeep Hw]. rewrite assign_keeps by done. by apply updater_commits.
Qed.

(** ** The client *)

(** Organizations that a request of the client can name. *)
Definition routable (org : jstr) : bool :=
  forallb (fun c => (0 <=? c) && (c <? 65536)) org && well_formed org &&
  negb (jeqb org []) && negb (jeqb org (js ".")) && negb (jeqb org (js "..")).
Lemma routable_paths org : routable org = true -> exists e,
  clientPath DEFAULT_STATE_PATH org = Some (DEFAULT_STATE_PATH ++ 47 :: e) /\
  clientPath DEFAULT_TRANSACTION_PATH org = Some (DEFAULT_TRANSACTION_PATH ++ 47 :: e) /\
  route DEFAULT_STATE_PATH (DEFAULT_STATE_PATH ++ 47 :: e) = ReadRoute org /\
  route DEFAULT_STATE_PATH (DEFAULT_TRANSACTION_PATH ++ 47 :: e) = TransactionRoute org.
Proof.
  unfold routable. rewrite !andb_true_iff, !negb_true_iff, !jeqb_false, forallb_forall.
  intros [[[[Hu Hw] H1] H2] H3]. exists (concat (percent_byte <$> textEncode org)).
  apply route_client; try done; [|by unfold encodeURIComponent; rewrite Hw].
  apply Forall_forall. intros c Hc. apply list_elem_of_In, Hu in Hc. unfold wf_unit. bool_inv. lia.
Qed.
Lemma versionFrom_sent {E} v : 0 <= v <= MAX_SAFE_INTEGER -> versionFrom (E := E) (JNum (num_of_Z v)) = Ok v.
Proof.
  unfold MAX_SAFE_INTEGER. intros H. unfold versionFrom. rewrite num_to_of_Z by lia.
  by rewrite !(proj2 (Z.leb_le _ _)) by (unfold MAX_SAFE_INTEGER; lia).
Qed.
Lemma versionFrom_range {E} value v : versionFrom (E := E) value = Ok v -> 0 <= v <= MAX_SAFE_INTEGER.
Proof.
  unfold versionFrom. intros H. destruct (match value with JStr _ => _ | _ => _ end) eqn:E1; try done.
  destruct (num_to_Z x) as [n|]; [|done]. case_match eqn:E2; [|done]. apply Ok_inj in H. subst. bool_inv. lia.
Qed.
Lemma validateAndClone_valid {E} s s' : validateAndCloneState (E := E) s = Ok s' ->
  s' = cloneRegistryState s /\ validRegistryState s = true.
Proof. unfold validateAndCloneState, assertRegistryState. intros H. ok_inv. by bool_inv. Qed.
Lemma validateAndClone_ok {E} s : validRegistryState s = true ->
  validateAndCloneState (E := E) s = Ok (cloneRegistryState s).
Proof. intros H. unfold validateAndCloneState, assertRegistryState. by rewrite validRegistryState_clone, H. Qed.

Section Client.
Context {R : Type} {SR : StateRepository R} {RL : RepositoryLaws R}.
Context (authorize : jstr -> bool) (maxBodyBytes : Z) (request_bytes : option TransactionBody -> Z).
Context (org : jstr) (Horg : routable org = true).
(** What other clients do; they have the same repository. *)
Context (others : R -> R -> Prop) (others_evolve : forall r r', others r r' -> evolves r r').

Definition endpoint : HttpRequest -> R -> R * HttpResponse :=
  handle authorize DEFAULT_STATE_PATH maxBodyBytes request_bytes.
Definition quiet_step (r r' : R) : Prop := others r r' \/ exists o s, repo_read o r = Ok (r', s).
(** No commit but those of the other clients. *)
Definition uncommitted : R -> R -> Prop := rtc quiet_step.

Lemma uncommitted_evolves r r' : uncommitted r r' -> evolves r r'.
Proof.
  induction 1 as [|r r1 r2 [Ho|(o & s & Hs)] _ IH]; [done| |].
  - etransitivity; [by apply others_evolve|done].
  - eapply rtc_l; [by eapply step_read|done].
Qed.

Lemma getEnvelope_spec {E} d r r' (res : result (http_failure E) _) :
  getEnvelope endpoint DEFAULT_STATE_PATH d org r = (r', res) ->
  uncommitted r r' /\ (forall o, document r' o = document r o) /\
  match res with
  | Ok (v, s) => s = document r org /\ v = revision r org /\ validRegistryState s = true
  | Err e => e <> ConcurrentStateUpdate
  end.
Proof.
  destruct (routable_paths org Horg) as (p & Hp & _ & Hr & _).
  assert (Hget : forall r1 resp, endpoint (GetRequest (DEFAULT_STATE_PATH ++ 47 :: p)) r = (r1, resp) ->
    uncommitted r r1 /\ (forall o, document r1 o = document r o) /\
    match resp with
    | EnvelopeResponse pv v s => v = stateRevision s /\ s = document r org
    | _ => True
    end).
  { intros r1 resp. unfold endpoint, handle. cbn [request_path]. rewrite Hr. unfold handleRead.
    destruct (authorize org); [|by intros [= <- <-]].
    destruct (repo_read org r) as [[r2 s]|] eqn:Er; intros [= <- <-]; [|done].
    pose proof (read_document _ _ _ _ Er) as [-> Hd].
    split; [|done]. apply rtc_once. right. eauto. }
  unfold getEnvelope, fetch. rewrite Hp.
  destruct (endpoint _ r) as [r1 resp] eqn:Ee. destruct (Hget _ _ eq_refl) as (Hu & Hd & Hresp).
  destruct d; intros [= <- <-]; [|by split; [apply rtc_refl|]|done]. split; [done|]. split; [done|].
  destruct resp as [pv v s|pv v|status code]; [|done|by cbn; destruct (unsupported_status status)].
  destruct Hresp as [-> ->]. unfold envelope_of_response. rewrite document_clean.
  destruct (negb _); [done|].
  destruct (validateAndCloneState _) as [s'|] eqn:Ev; [|done].
  apply validateAndClone_valid in Ev as [-> Hv]. rewrite document_clean.
  rewrite versionFrom_sent by (by apply valid_revision). unfold revision.
  by rewrite Z.eqb_refl.
Qed.

(** A delivered write either commits or changes nothing. *)
Definition committed_by (v : Z) (w : RegistryState) (r r' : R) : Prop :=
  repo_step r r' /\ v = revision r org /\ validRegistryState (document r org) = true /\
  v + 1 <= MAX_SAFE_INTEGER /\ document r' org = committed_state v (assign_state (document r org) w) /\
  forall o, o <> org -> document r' o = document r o.

Lemma handleTransaction_spec v w r r' resp :
  handleTransaction maxBodyBytes request_bytes
    (Some {| tb_protocolVersion := HTTP_REPOSITORY_PROTOCOL_VERSION; tb_expectedVersion := JNum (num_of_Z v);
             tb_state := cloneRegistryState w |}) org r = (r', resp) ->
  0 <= v <= MAX_SAFE_INTEGER ->
  (r' = r /\ exists status code, resp = ErrorResponse status code /\
     ((status =? 409) || (status =? 412) = true -> revision r org <> v)) \/
  (committed_by v w r r' /\ resp = CommittedResponse HTTP_REPOSITORY_PROTOCOL_VERSION (v + 1)).
Proof.
  intros H Hv. unfold handleTransaction in H. case_match; [simplify_eq; left; split; [done|]; by eexists _, _|].
  cbn [tb_protocolVersion tb_expectedVersion tb_state] in H. rewrite versionFrom_sent in H by done.
  change (HTTP_REPOSITORY_PROTOCOL_VERSION =? HTTP_REPOSITORY_PROTOCOL_VERSION) with true in H. cbn [negb rbind] in H.
  destruct (validateAndCloneState (E := cas_throw) _) as [proposed|e] eqn:Ev; cbn [rbind] in H.
  2: { left. injection H as <- <-. split; [done|]. unfold validateAndCloneState, assertRegistryState in Ev.
       rewrite !validRegistryState_clone in Ev. destruct (validRegistryState w); cbn in Ev; [done|].
       injection Ev as <-. by eexists _, _. }
  apply validateAndClone_valid in Ev as [-> _].
  destruct (repo_transaction org _ r) as [[r1 u]|e] eqn:Et; cbn [rbind] in H; injection H as <- <-.
  - right. split; [|done]. pose proof (transaction_commits _ _ _ _ _ Et) as Hc.
    apply cas_update_commits in Hc as (Hrev & Hval & Hm & Hdoc); [|by rewrite document_clean].
    repeat split; try done; [by eapply step_transaction|]. intros o Ho. by eapply transaction_isolated.
  - left. split; [done|]. apply transaction_fails in Et.
    destruct e as [[n|code]|code]; eexists _, _; (split; [done|]); try done.
    intros _. eapply cas_update_conflict, Et. by rewrite document_clean.
Qed.

Lemma compareAndSet_spec {E} d v w r r' (res : result (http_failure E) unit) :
  0 <= v <= MAX_SAFE_INTEGER ->
  compareAndSet endpoint DEFAULT_TRANSACTION_PATH d org v w r = (r', res) ->
  (r' = r /\ exists e, res = Err e /\ (e = ConcurrentStateUpdate -> revision r org <> v)) \/
  (committed_by v w r r' /\ (res = Ok tt \/ res = Err FetchFailed)).
Proof.
  intros Hv. destruct (routable_paths org Horg) as (p & _ & Hp & _ & Hr).
  unfold compareAndSet, fetch. rewrite Hp.
  set (b := {| tb_protocolVersion := _ |}).
  assert (Hpost : forall r1 resp, endpoint (PostRequest (DEFAULT_TRANSACTION_PATH ++ 47 :: p) (Some b)) r = (r1, resp) ->
    (r1 = r /\ exists status code, resp = ErrorResponse status code /\
       ((status =? 409) || (status =? 412) = true -> revision r org <> v)) \/
    (committed_by v w r r1 /\ resp = CommittedResponse HTTP_REPOSITORY_PROTOCOL_VERSION (v + 1))).
  { intros r1 resp. unfold endpoint, handle. cbn [request_path]. rewrite Hr.
    destruct (authorize org); [intros H; by eapply handleTransaction_spec|].
    intros [= <- <-]. left. split; [done|]. by eexists _, _. }
  destruct (endpoint _ r) as [r1 resp] eqn:Ee.
  destruct d; intros [= <- <-]; [| |]; try (by left; split; [|eexists]); destruct (Hpost _ _ eq_refl) as
    [(-> & status & code & -> & Hc)|[Hc ->]].
  - left. split; [done|]. cbn [result_of_commit]. destruct (unsupported_status status); [by eexists|].
    destruct (_ || _); eexists; (split; [done|]); [by intros; apply Hc|done].
  - right. split; [done|]. by left.
  - left. split; [done|]. by eexists.
  - right. split; [done|]. by right.
Qed.

(** [r'] is [rc] after one transaction that ran [g]. *)
Definition took_effect {E A} (g : RegistryState -> result E (RegistryState * A)) (rc r' : R) (a : A) : Prop :=
  repo_step rc r' /\ run_update g (document rc org) = Ok (document r' org, a) /\
  forall o, o <> org -> document r' o = document rc o.

Context (net : network R).
Context (Hnet : forall k r, others r (before_read net k r) /\ others r (before_write net k r)).
Context {E A : Type} (f : RegistryState -> result E (RegistryState * A)).


(** The updater took effect, merged; and as it is, unless it drops a collection. *)
Definition effect (rc r' : R) (a : A) : Prop :=
  took_effect (merging f) rc r' a /\
  ((forall w b, f (document rc org) = Ok (w, b) -> keeps_collections (document rc org) w) -> took_effect f rc r' a).

Lemma http_attempt_spec k r r' res :
  http_attempt endpoint DEFAULT_STATE_PATH DEFAULT_TRANSACTION_PATH org f net k r = (r', res) ->
  (uncommitted r r' /\ exists e, res = Err e /\
     (e = ConcurrentStateUpdate -> revision r org + 1 <= revision r' org)) \/
  (exists rc a, uncommitted r rc /\ effect rc r' a /\ (res = Ok a \/ res = Err FetchFailed)).
Proof.
  destruct (Hnet k r) as [Hbr _]. unfold http_attempt.
  destruct (getEnvelope _ _ _ _ _) as [r1 envelope] eqn:Eg. apply getEnvelope_spec in Eg as (Hu & Hd & Henv).
  assert (Hr1 : uncommitted r r1) by (eapply rtc_l; [by left|done]).
  destruct envelope as [[v s]|e]; [|intros [= <- <-]; left; split; [done|]; by eexists].
  destruct Henv as (-> & -> & Hv).
  assert (Hdoc : document (before_read net k r) org = document r1 org) by (symmetry; apply Hd).
  unfold revision at 1. rewrite !Hdoc in *. rewrite document_clean.
  destruct (f (document r1 org)) as [[w a]|e] eqn:Ef; cbn [updater_result rbind];
    [|intros [= <- <-]; left; split; [done|]; by eexists].
  unfold assertRegistryState. destruct (validRegistryState w) eqn:Ew; cbn [negb rbind];
    [|intros [= <- <-]; left; split; [done|]; by eexists].
  destruct (Hnet k r1) as [_ Hbw]. set (r2 := before_write net k r1) in *.
  assert (Hr2 : uncommitted r r2) by (eapply rtc_r; [done|by left]).
  destruct (evolves_revision r1 r2 org (others_evolve _ _ Hbw)) as [Hle Heq].
  assert (Hrev : 0 <= stateRevision (document r1 org) <= MAX_SAFE_INTEGER) by (by apply valid_revision).
  destruct (compareAndSet _ _ _ _ _ _ _) as [r3 c] eqn:Ec. intros [= <- <-].
  apply compareAndSet_spec in Ec as [(-> & e & -> & Hc)|(Hc & Hres)]; [| |done].
  - left. split; [done|]. exists e. split; [done|]. intros ->. specialize (Hc eq_refl).
    destruct (evolves_revision r r1 org (uncommitted_evolves _ _ Hr1)) as [Hle0 _]. unfold revision in *. lia.
  - right. destruct Hc as (Hs & Hrv & Hval & Hm & Hnew & Hiso). exists r2, a. split; [done|].
    assert (Hsame : document r2 org = document r1 org) by (by apply Heq).
    split; [|by destruct Hres as [-> | ->]; [left|right]].
    assert (Hmerged : run_update (merging f) (document r2 org) = Ok (document r3 org, a)).
    { rewrite Hnew, Hsame. apply merging_commits; try done. by rewrite document_clean. }
    split; [by split; [|split]|]. intros Hk. split; [done|]. split; [|done].
    apply merging_keeps; [by rewrite document_clean | | done]. intros w' b Hw'. split; [by eapply Hk|].
    rewrite Hsame, Ef in Hw'. by simplify_eq.
Qed.

Lemma http_attempts_spec n k r r' res :
  http_attempts endpoint DEFAULT_STATE_PATH DEFAULT_TRANSACTION_PATH org f net n k r = (r', res) ->
  (uncommitted r r' /\ exists e, res = Err e /\
     (e = ConcurrentStateUpdate -> revision r org + Z.of_nat n <= revision r' org)) \/
  (exists rc a, uncommitted r rc /\ effect rc r' a /\ (res = Ok a \/ res = Err FetchFailed)).
Proof.
  revert k r. induction n as [|n IH]; intros k r; cbn [http_attempts].
  { intros [= <- <-]. left. split; [apply rtc_refl|]. eexists. split; [done|]. lia. }
  destruct (http_attempt _ _ _ _ _ _ _ _) as [r1 res1] eqn:Ea.
  apply http_attempt_spec in Ea as [(Hu & e & -> & He)|Hdone].
  - destruct e as [e| |]; [intros [= <- <-]; left; split; [done|]; by eexists| |
      intros [= <- <-]; left; split; [done|]; by eexists].
    specialize (He eq_refl). intros [(Hu' & e & -> & He')|(rc & a & Hu' & Hrest)]%IH.
    + left. split; [by etransitivity|]. exists e. split; [done|]. intros ->. specialize (He' eq_refl). lia.
    + right. exists rc, a. split; [by etransitivity|done].
  - destruct Hdone as (rc & a & Hu & Ht & Hres). intros H. right. exists rc, a.
    destruct Hres as [-> | ->]; injection H as <- <-; auto.
Qed.

(** C12. A transaction of the HTTP client is one atomic transaction of the
    repository.  Other clients may commit before each of its reads and between
    each read and write, and any message may be lost: either the repository
    reaches, through the others' steps alone, a state on which the updater is
    run and committed as by [run_update], other organizations untouched, and
    the call returns the updater's value (or failed to hear the answer); or it
    fails and committed nothing.  It never takes effect twice.  What is
    committed is the updater's document merged into the stored one: an optional
    collection that the updater dropped keeps its value, and an updater that
    drops none is committed exactly. *)
Theorem http_transaction_atomic maxRetries r r' res :
  http_transaction endpoint DEFAULT_STATE_PATH DEFAULT_TRANSACTION_PATH maxRetries org f net r = (r', res) ->
  (exists rc a, uncommitted r rc /\ took_effect (merging f) rc r' a /\
     ((forall w b, f (document rc org) = Ok (w, b) -> keeps_collections (document rc org) w) -> took_effect f rc r' a) /\
     (res = Ok a \/ res = Err FetchFailed)) \/
  (uncommitted r r' /\ exists e, res = Err e).
Proof.
  intros H. unfold http_transaction in H. apply http_attempts_spec in H as [(Hu & e & -> & _)|(rc & a & Hu & [Hm Hk] & Hr)].
  - right. split; [done|]. by eexists.
  - left. by exists rc, a.
Qed.

(** The client reports a concurrent update only when others made progress: at
    least [maxRetries + 1] transactions of other clients were committed to the
    organization while it tried. *)
Theorem http_conflict_progress maxRetries r r' :
  http_transaction endpoint DEFAULT_STATE_PATH DEFAULT_TRANSACTION_PATH maxRetries org f net r =
    (r', Err ConcurrentStateUpdate) ->
  uncommitted r r' /\ revision r org + Z.of_nat maxRetries + 1 <= revision r' org.
Proof.
  intros H. unfold http_transaction in H. apply http_attempts_spec in H as [(Hu & e & [= <-] & He)|H].
  - specialize (He eq_refl). split; [done|lia].
  - by destruct H as (rc & a & _ & _ & [|]).
Qed.
End Client.

(** A request that nobody disturbs succeeds. *)
Section Alone.
Context {R : Type} {SR : StateRepository R} {RL : RepositoryLaws R}.
Context (authorize : jstr -> bool) (maxBodyBytes : Z) (request_bytes : option TransactionBody -> Z).

Lemma handleTransaction_alone org w (r : R) :
  let s := document r org in
  let body := Some {| tb_protocolVersion := HTTP_REPOSITORY_PROTOCOL_VERSION;
                      tb_expectedVersion := JNum (num_of_Z (stateRevision s));
                      tb_state := cloneRegistryState w |} in
  validRegistryState s = true -> validRegistryState w = true ->
  stateRevision s + 1 <= MAX_SAFE_INTEGER -> request_bytes body <= maxBodyBytes ->
  exists r', handleTransaction maxBodyBytes request_bytes body org r =
      (r', CommittedResponse HTTP_REPOSITORY_PROTOCOL_VERSION (stateRevision s + 1)) /\
    document r' org = committed_state (stateRevision s) (assign_state s w).
Proof.
  intros s body Hv Hw Hm Hb. pose proof (valid_revision s Hv) as Hrev.
  unfold handleTransaction. rewrite (proj2 (Z.ltb_ge _ _)) by done. subst body.
  cbn [tb_protocolVersion tb_expectedVersion tb_state].
  change (HTTP_REPOSITORY_PROTOCOL_VERSION =? HTTP_REPOSITORY_PROTOCOL_VERSION) with true.
  rewrite versionFrom_sent by done. cbn [negb rbind].
  rewrite validateAndClone_ok by (by rewrite validRegistryState_clone). cbn [rbind].
  pose proof (cas_update_succeeds w s (document_clean r org) Hv Hw Hm) as Hrun.
  destruct (repo_transaction org _ r) as [[r' u]|e] eqn:Et.
  - exists r'. split; [done|]. apply transaction_commits in Et. fold s in Et. rewrite Hrun in Et. by injection Et.
  - apply transaction_fails in Et. fold s in Et. by rewrite Hrun in Et.
Qed.

(** A transaction of the HTTP client returns its updater's value, the updater's
    document merged into the current one, when its first attempt is delivered and no other
    client commits to the organization during it. *)
Theorem http_transaction_alone (org : jstr) (net : network R) {E A}
    (f : RegistryState -> result E (RegistryState * A)) maxRetries r w a :
  routable org = true -> authorize org = true ->
  read_fetch net 0 = Delivered -> write_fetch net 0 = Delivered ->
  (forall q, document (before_read net 0 q) org = document q org) ->
  (forall q, document (before_write net 0 q) org = document q org) ->
  validRegistryState (document r org) = true -> stateRevision (document r org) + 1 <= MAX_SAFE_INTEGER ->
  (forall body, request_bytes body <= maxBodyBytes) ->
  f (document r org) = Ok (w, a) -> validRegistryState w = true ->
  exists r', http_transaction (handle authorize DEFAULT_STATE_PATH maxBodyBytes request_bytes)
      DEFAULT_STATE_PATH DEFAULT_TRANSACTION_PATH maxRetries org f net r = (r', Ok a) /\
    run_update (merging f) (document r org) = Ok (document r' org, a).
Proof.
  intros Horg Hauth Hrd Hwd Hbr Hbw Hv Hm Hb Hf Hw.
  destruct (routable_paths org Horg) as (p & Hp & Hp' & Hr & Hr').
  unfold http_transaction. cbn [http_attempts]. unfold http_attempt, getEnvelope, compareAndSet, fetch.
  rewrite Hp, Hrd, Hp', Hwd. unfold handle. cbn [request_path]. rewrite Hr, Hr', Hauth. unfold handleRead.
  destruct (read_total org (before_read net 0 r)) as (r1 & s & Hs); [by rewrite Hbr|]. rewrite Hs.
  apply read_document in Hs as [-> Hd]. specialize (Hd org). rewrite Hbr in *.
  cbn [envelope_of_response]. rewrite document_clean, validateAndClone_ok by done.
  rewrite versionFrom_sent by (by apply valid_revision). rewrite document_clean, !Z.eqb_refl. cbn [negb].
  rewrite document_clean, Hf. cbn [updater_result rbind]. unfold assertRegistryState. rewrite Hw. cbn [negb rbind].
  assert (Hd2 : document (before_write net 0 r1) org = document r org) by (by rewrite Hbw).
  destruct (handleTransaction_alone org w (before_write net 0 r1)) as (r' & Ht & Hdoc); rewrite ?Hd2; try done.
  rewrite Hd2 in Ht, Hdoc. rewrite Ht. cbn. exists r'. split; [done|]. rewrite Hdoc.
  apply merging_commits; try done. by rewrite document_clean.
Qed.
End Alone.

(** ** Example runs *)

Module HttpDemo.
Definition factory (org : jstr) : RegistryState :=
  defaultRegistryState (initialPolicy None None None None).
#[local] Instance demo_repository : StateRepository MemoryRepository := memory_repository factory.
#[local] Instance demo_laws : RepositoryLaws MemoryRepository := memory_repository_laws factory.
Definition org : jstr := js "acme/eu".
Definition start : MemoryRepository := {| states := ∅ |}.
(** Another client commits. *)
Definition bump (r : MemoryRepository) : MemoryRepository :=
  match memory_transaction factory (E := Empty_set) org (fun s => Ok (with_st_drafts (Some []) s, tt)) r with
  | Ok (r', _) => r'
  | Err _ => r
  end.
Definition others (r r' : MemoryRepository) : Prop := r' = r \/ r' = bump r.
Definition idle : network MemoryRepository := {|
  before_read _ r := r; before_write _ r := r; read_fetch _ := Delivered; write_fetch _ := Delivered |}.
(** The other client interferes with the first attempt. *)
Definition busy : network MemoryRepository := {|
  before_read _ r := r; before_write k r := match k with O => bump r | _ => r end;
  read_fetch _ := Delivered; write_fetch _ := Delivered |}.
Definition update (s : RegistryState) : result Empty_set (RegistryState * Z) :=
  Ok (with_st_packs [] s, stateRevision s).
Definition run (maxRetries : nat) (net : network MemoryRepository) : MemoryRepository * result (http_failure Empty_set) Z :=
  http_transaction (endpoint (fun _ => true) 10 (fun _ => 0)) DEFAULT_STATE_PATH DEFAULT_TRANSACTION_PATH
    maxRetries org update net start.

Lemma others_evolve r r' : others r r' -> evolves r r'.
Proof.
  intros [-> | ->]; [apply rtc_refl|]. unfold bump.
  destruct (memory_transaction _ _ _ _) as [[r' u]|] eqn:E; [|apply rtc_refl].
  apply rtc_once. by eapply (step_transaction Empty_set unit).
Qed.
Lemma busy_others k r : others r (before_read busy k r) /\ others r (before_write busy k r).
Proof. split; [by left|]. destruct k; [by right|by left]. Qed.

Lemma http_transaction_atomic_witness : (run 1 busy).2 = Ok 1 /\
  ((exists rc a, uncommitted others start rc /\ took_effect org (merging update) rc (run 1 busy).1 a /\
     ((forall w b, update (document rc org) = Ok (w, b) -> keeps_collections (document rc org) w) ->
      took_effect org update rc (run 1 busy).1 a) /\
     ((run 1 busy).2 = Ok a \/ (run 1 busy).2 = Err FetchFailed)) \/
   (uncommitted others start (run 1 busy).1 /\ exists e, (run 1 busy).2 = Err e)).
Proof.
  split; [by vm_compute|].
  apply (http_transaction_atomic (fun _ => true) 10 (fun _ => 0) org ltac:(by vm_compute) others others_evolve
    busy busy_others update 1 start (run 1 busy).1 (run 1 busy).2).
  unfold run. by destruct (http_transaction _ _ _ _ _ _ _ _).
Defined.
Lemma http_conflict_progress_witness : (run 0 busy).2 = Err ConcurrentStateUpdate /\
  uncommitted others start (run 0 busy).1 /\ revision start org + 0 + 1 <= revision (run 0 busy).1 org.
Proof.
  assert (H : (run 0 busy).2 = Err ConcurrentStateUpdate) by (by vm_compute). split; [exact H|].
  apply (http_conflict_progress (fun _ => true) 10 (fun _ => 0) org ltac:(by vm_compute) others others_evolve
    busy busy_others update 0 start (run 0 busy).1).
  rewrite <- H. unfold run. by destruct (http_transaction _ _ _ _ _ _ _ _).
Defined.
Lemma http_transaction_alone_witness : exists r',
  run 0 idle = (r', Ok 0) /\ run_update (merging update) (document start org) = Ok (document r' org, 0).
Proof.
  apply (http_transaction_alone (fun _ => true) 10 (fun _ => 0) org idle update 0 start
    (with_st_packs [] (document start org)) 0); try (by vm_compute); try done.
Defined.

(** A document whose proposed version drops a collection keeps it: the server
    merges instead of replacing. *)
Definition drop_drafts (s : RegistryState) : result Empty_set (RegistryState * unit) :=
  Ok (with_st_drafts None s, tt).
Lemma dropped_collection_survives :
  match memory_transaction factory (E := Empty_set) org drop_drafts (bump start),
        http_transaction (endpoint (fun _ => true) 10 (fun _ => 0)) DEFAULT_STATE_PATH DEFAULT_TRANSACTION_PATH
          0 org drop_drafts idle (bump start) with
  | Ok (direct, _), (over_http, Ok _) =>
      st_drafts (document direct org) = None /\ st_drafts (document over_http org) = Some []
  | _, _ => False
  end.
Proof. vm_compute. by split. Qed.
End HttpDemo.
