(* ===== verification/Mutex.v ===== *)
(** * The organization mutex

    [OrganizationMutex] of packages/database/src/state.ts: the operations of
    one organization run one after the other, in the order of the calls.

    A call of [run] is a task.  Its promise [current] is named by the task's
    position in the order of calls; it is resolved when the task is done.  The
    runtime interleaves three kinds of steps: a call, a resumption after
    [await previous], and the end of an operation (the [finally] block). *)

From Stdlib Require Import Lia.
From stdpp Require Import base list strings gmap relations.
From S2P Require Import Prelude Js.

Inductive task_phase : Type :=
| Waiting   (* at [await previous] *)
| Running   (* in [operation()] *)
| Finished. (* after the [finally] block *)
#[export] Instance task_phase_eq_dec : EqDecision task_phase.
Proof. solve_decision. Defined.
Record task : Type := {
  tk_organizationId : jstr;
  tk_previous : option nat; (* [None]: [Promise.resolve()] *)
  tk_phase : task_phase;
}.
Record OrganizationMutex : Type := {
  queues : gmap jstr nat;
  tasks : list task;
}.
Definition with_phase (p : task_phase) (t : task) : task :=
  {| tk_organizationId := tk_organizationId t; tk_previous := tk_previous t; tk_phase := p |}.
Definition resolved (m : OrganizationMutex) (i : nat) : bool :=
  match tasks m !! i with
  | Some t => bool_decide (tk_phase t = Finished)
  | None => false
  end.

(** [run], up to [await previous]. *)
Definition mutex_run (org : jstr) (m : OrganizationMutex) : OrganizationMutex :=
  let current := length (tasks m) in
  {| queues := <[org := current]> (queues m);
     tasks := tasks m ++ [{| tk_organizationId := org; tk_previous := queues m !! org; tk_phase := Waiting |}] |}.
(** [await previous] returns once the promise before is resolved. *)
Definition mutex_resume (i : nat) (m : OrganizationMutex) : option OrganizationMutex :=
  match tasks m !! i with
  | Some t =>
      if bool_decide (tk_phase t = Waiting) &&
         match tk_previous t with None => true | Some p => resolved m p end
      then Some {| queues := queues m; tasks := <[i := with_phase Running t]> (tasks m) |}
      else None
  | None => None
  end.
(** The [finally] block: [release()], and the queue entry goes when it is still
    this task's. *)
Definition mutex_finish (i : nat) (m : OrganizationMutex) : option OrganizationMutex :=
  match tasks m !! i with
  | Some t =>
      if bool_decide (tk_phase t = Running) then
        let org := tk_organizationId t in
        Some {| queues := if bool_decide (queues m !! org = Some i) then delete org (queues m) else queues m;
                tasks := <[i := with_phase Finished t]> (tasks m) |}
      else None
  | None => None
  end.

Inductive mutex_step : OrganizationMutex -> OrganizationMutex -> Prop :=
| step_run org m : mutex_step m (mutex_run org m)
| step_resume i m m' : mutex_resume i m = Some m' -> mutex_step m m'
| step_finish i m m' : mutex_finish i m = Some m' -> mutex_step m m'.
Definition new_mutex : OrganizationMutex := {| queues := ∅; tasks := [] |}.
Definition reachable (m : OrganizationMutex) : Prop := rtc mutex_step new_mutex m.

(** ** Invariant *)

(** The tasks of an organization, by position. *)
Definition task_of (m : OrganizationMutex) (org : jstr) (i : nat) (t : task) : Prop :=
  tasks m !! i = Some t /\ tk_organizationId t = org.
Definition all_finished_before (m : OrganizationMutex) (org : jstr) (n : nat) : Prop :=
  forall j u, (j < n)%nat -> task_of m org j u -> tk_phase u = Finished.

Record mutex_inv (m : OrganizationMutex) : Prop := {
  (** a task waits for the task of its organization just before it *)
  inv_previous i t p : tasks m !! i = Some t -> tk_previous t = Some p ->
    (p < i)%nat /\ (exists u, task_of m (tk_organizationId t) p u) /\
    forall j u, (p < j < i)%nat -> ~ task_of m (tk_organizationId t) j u;
  (** or for none when all are finished *)
  inv_first i t : tasks m !! i = Some t -> tk_previous t = None -> all_finished_before m (tk_organizationId t) i;
  (** the queue entry is the last task, not finished *)
  inv_queue org c : queues m !! org = Some c ->
    (exists t, task_of m org c t /\ tk_phase t <> Finished) /\ forall j u, (c < j)%nat -> ~ task_of m org j u;
  inv_empty org : queues m !! org = None -> forall j u, task_of m org j u -> tk_phase u = Finished;
  (** a started task has only finished tasks before it *)
  inv_order i t : tasks m !! i = Some t -> tk_phase t <> Waiting -> all_finished_before m (tk_organizationId t) i;
}.

Lemma task_of_insert m q i t p org j u : tasks m !! i = Some t ->
  task_of {| queues := q; tasks := <[i := with_phase p t]> (tasks m) |} org j u ->
  exists u', task_of m org j u' /\ tk_previous u = tk_previous u' /\
    tk_organizationId u = tk_organizationId u' /\
    ((j = i /\ tk_phase u = p) \/ (j <> i /\ u = u')).
Proof.
  intros Hi [Hj Ho]. cbn in Hj. destruct (decide (j = i)) as [->|Hne].
  - rewrite list_lookup_insert_eq in Hj by (by eapply lookup_lt_Some). simplify_eq. exists t.
    repeat split; try done. by left.
  - rewrite list_lookup_insert_ne in Hj by done. exists u. repeat split; try done. by right.
Qed.
Lemma task_of_insert_back m q i t p org j u : tasks m !! i = Some t -> task_of m org j u ->
  exists u', task_of {| queues := q; tasks := <[i := with_phase p t]> (tasks m) |} org j u'.
Proof.
  intros Hi [Hj Ho]. destruct (decide (j = i)) as [->|Hne].
  - simplify_eq. eexists. split; cbn; [by rewrite list_lookup_insert_eq by (by eapply lookup_lt_Some)|done].
  - exists u. split; cbn; [by rewrite list_lookup_insert_ne|done].
Qed.
Section Phase.
Context (m : OrganizationMutex) (q : gmap jstr nat) (i : nat) (t : task) (p : task_phase).
Context (Hi : tasks m !! i = Some t) (Ht : tk_phase t <> Finished).
Let m' : OrganizationMutex := {| queues := q; tasks := <[i := with_phase p t]> (tasks m) |}.

Lemma finished_before_phase org n : all_finished_before m org n -> all_finished_before m' org n.
Proof.
  intros H j u Hj Hu. apply task_of_insert in Hu as (u' & Hu' & _ & _ & [[-> _]|[_ ->]]); [| |done].
  - destruct Hu' as [Hl Ho]. simplify_eq. by destruct Ht; eapply H.
  - by eapply H.
Qed.
Lemma previous_phase j u k : mutex_inv m -> tasks m' !! j = Some u -> tk_previous u = Some k ->
  (k < j)%nat /\ (exists v, task_of m' (tk_organizationId u) k v) /\
  forall l v, (k < l < j)%nat -> ~ task_of m' (tk_organizationId u) l v.
Proof.
  intros Hinv Hj Hk. destruct (task_of_insert m q i t p (tk_organizationId u) j u Hi) as (u' & [Hj' _] & Hp & Ho & _);
    [done|]. rewrite Hp in Hk. destruct (inv_previous m Hinv j u' k Hj' Hk) as (Hlt & [v Hv] & Hno). rewrite <- Ho in *.
  split; [done|]. split; [by eapply task_of_insert_back|].
  intros l w Hl Hw. apply task_of_insert in Hw as (w' & Hw' & _); [|done]. by eapply Hno.
Qed.
Lemma first_phase j u : mutex_inv m -> tasks m' !! j = Some u -> tk_previous u = None ->
  all_finished_before m' (tk_organizationId u) j.
Proof.
  intros Hinv Hj Hk. destruct (task_of_insert m q i t p (tk_organizationId u) j u Hi) as (u' & [Hj' _] & Hp & Ho & _);
    [done|]. rewrite Hp in Hk. rewrite Ho. by eapply finished_before_phase, inv_first.
Qed.
Lemma order_phase j u : mutex_inv m -> all_finished_before m (tk_organizationId t) i ->
  tasks m' !! j = Some u -> tk_phase u <> Waiting -> all_finished_before m' (tk_organizationId u) j.
Proof.
  intros Hinv Hb Hj Hu. destruct (task_of_insert m q i t p (tk_organizationId u) j u Hi)
    as (u' & [Hj' _] & _ & Ho & [[-> _]|[_ ->]]); [done| |]; apply finished_before_phase.
  - simplify_eq. by rewrite Ho.
  - by eapply inv_order.
Qed.
End Phase.

Lemma previous_finished m i t : mutex_inv m -> tasks m !! i = Some t ->
  match tk_previous t with None => true | Some p => resolved m p end = true ->
  all_finished_before m (tk_organizationId t) i.
Proof.
  intros Hinv Hi Hp. destruct (tk_previous t) as [p|] eqn:Ep; [|by eapply inv_first].
  destruct (inv_previous m Hinv i t p Hi Ep) as (Hlt & [u [Hu Ho]] & Hno).
  unfold resolved in Hp. rewrite Hu in Hp. apply bool_decide_eq_true in Hp.
  intros j v Hj Hv. destruct (decide (j < p)%nat) as [Hjp|Hjp].
  - eapply (inv_order m Hinv p u Hu); [by rewrite Hp|done|by rewrite Ho].
  - destruct (decide (j = p)) as [->|Hne]; [by destruct Hv; simplify_eq|]. exfalso. eapply (Hno j v); [lia|done].
Qed.

Lemma resume_inv i m m' : mutex_inv m -> mutex_resume i m = Some m' -> mutex_inv m'.
Proof.
  unfold mutex_resume. intros Hinv H. destruct (tasks m !! i) as [t|] eqn:Hi; [|done].
  destruct (bool_decide _ && _) eqn:E; [|done]. apply andb_true_iff in E as [Ew Ep]. simplify_eq. apply bool_decide_eq_true in Ew. assert (Hn : tk_phase t <> Finished) by (by rewrite Ew).
  pose proof (previous_finished m i t Hinv Hi Ep) as Hb. split.
  - intros. by eapply previous_phase.
  - intros. by eapply first_phase.
  - intros org c Hq. cbn in Hq. destruct (inv_queue m Hinv org c Hq) as [(u & [Hc Ho] & Hu) Hlast]. split.
    + destruct (decide (c = i)) as [->|Hne]; [|exists u; repeat split; try done; cbn; by rewrite list_lookup_insert_ne].
      simplify_eq. exists (with_phase Running t). repeat split; try done. cbn.
      by rewrite list_lookup_insert_eq by (by eapply lookup_lt_Some).
    + intros j v Hj Hv. apply task_of_insert in Hv as (v' & Hv' & _); [|done]. by eapply Hlast.
  - intros org Hq j u Hu. cbn in Hq. apply task_of_insert in Hu as (u' & Hu' & _ & _ & Hph); [|done].
    pose proof (inv_empty m Hinv org Hq j u' Hu') as Hf. destruct Hph as [[-> _]|[_ ->]]; [|done].
    by destruct Hu'; simplify_eq.
  - intros. by eapply order_phase.
Qed.
Lemma finish_inv i m m' : mutex_inv m -> mutex_finish i m = Some m' -> mutex_inv m'.
Proof.
  unfold mutex_finish. intros Hinv H. destruct (tasks m !! i) as [t|] eqn:Hi; [|done].
  destruct (bool_decide (tk_phase t = Running)) eqn:Ew; [|done]. simplify_eq. apply bool_decide_eq_true in Ew.
  assert (Hn : tk_phase t <> Finished) by (by rewrite Ew).
  assert (Hb : all_finished_before m (tk_organizationId t) i) by (eapply inv_order; [done..|by rewrite Ew]).
  set (org := tk_organizationId t) in *. split.
  - intros. by eapply previous_phase.
  - intros. by eapply first_phase.
  - intros o c Hq. cbn in Hq.
    assert (Hqm : queues m !! o = Some c /\ c <> i).
    { destruct (bool_decide_reflect (queues m !! org = Some i)) as [Hd|Hd].
      - apply lookup_delete_Some in Hq as [Ho Hq]. split; [done|]. intros ->.
        destruct (inv_queue m Hinv o i Hq) as [(u & [Hu Hou] & _) _]. simplify_eq.
      - split; [done|]. intros ->. destruct (inv_queue m Hinv o i Hq) as [(u & [Hu Hou] & _) _]. simplify_eq. }
    destruct Hqm as [Hqm Hci]. destruct (inv_queue m Hinv o c Hqm) as [(u & [Hc Ho] & Hu) Hlast]. split.
    + exists u. repeat split; try done. cbn. by rewrite list_lookup_insert_ne.
    + intros j v Hj Hv. apply task_of_insert in Hv as (v' & Hv' & _); [|done]. by eapply Hlast.
  - intros o Hq j u Hu. cbn in Hq. apply task_of_insert in Hu as (u' & Hu' & _ & _ & [[_ Hph]|[Hj ->]]); [done| |done].
    destruct (queues m !! o) as [c|] eqn:Hc; [|by eapply inv_empty].
    (* the entry was this task's, and every other task is before it *)
    destruct (bool_decide_reflect (queues m !! org = Some i)) as [Hd|Hd]; [|congruence].
    assert (o = org) as ->.
    { destruct (decide (org = o)); [done|]. rewrite lookup_delete_ne in Hq by done. congruence. }
    destruct (inv_queue m Hinv org i Hd) as [_ Hlast]. destruct (decide (j < i)%nat); [by eapply Hb|].
    exfalso. eapply (Hlast j u'); [lia|done].
  - intros. by eapply order_phase.
Qed.
Lemma task_of_snoc m q t o j u : task_of {| queues := q; tasks := tasks m ++ [t] |} o j u ->
  task_of m o j u \/ (j = length (tasks m) /\ u = t /\ o = tk_organizationId t).
Proof.
  intros [Hj Ho]. cbn in Hj. apply lookup_app_Some in Hj as [Hj|[Hl Hj]]; [by left|]. right.
  apply list_lookup_singleton_Some in Hj as [Hz <-]. split; [lia|]. done.
Qed.
Lemma mutex_run_inv org m : mutex_inv m -> mutex_inv (mutex_run org m).
Proof.
  intros Hinv. unfold mutex_run. set (t := {| tk_organizationId := org |}). set (n := length (tasks m)).
  assert (Hlt : forall o j u, task_of m o j u -> (j < n)%nat) by (intros o j u [Hj _]; by eapply lookup_lt_Some).
  assert (Hsplit : forall j u, (tasks m ++ [t]) !! j = Some u ->
            tasks m !! j = Some u \/ (j = n /\ u = t)).
  { intros j u Hj. apply lookup_app_Some in Hj as [Hj|[Hl Hj]]; [by left|]. right.
    apply list_lookup_singleton_Some in Hj as [Hz <-]. subst n. split; [lia|done]. }
  assert (Hold : forall q o j u, task_of {| queues := q; tasks := tasks m ++ [t] |} o j u -> (j < n)%nat -> task_of m o j u).
  { intros q o j u Hu Hj. apply task_of_snoc in Hu as [|(-> & _)]; [done|]. subst n. lia. }
  assert (Hnew : forall q o j u, task_of m o j u -> task_of {| queues := q; tasks := tasks m ++ [t] |} o j u).
  { intros q o j u [Hj Ho]. split; [cbn; by apply lookup_app_l_Some|done]. }
  split; cbn [queues tasks].
  - intros j u p [Hj|[-> ->]]%Hsplit Hp.
    + destruct (inv_previous m Hinv j u p Hj Hp) as (Hl & [v Hv] & Hno). split; [done|]. split; [by eauto|].
      intros l w Hl' Hw. apply Hold in Hw; [by eapply Hno|]. apply lookup_lt_Some in Hj. subst n. lia.
    + cbn in Hp. destruct (inv_queue m Hinv org p Hp) as [(v & Hv & _) Hlast]. split; [by eapply Hlt|].
      split; [by eauto|]. intros l w Hl Hw. apply Hold in Hw; [|lia]. eapply Hlast; [|done]. lia.
  - intros j u [Hj|[-> ->]]%Hsplit Hp l v Hl Hv.
    + apply Hold in Hv; [|apply lookup_lt_Some in Hj; subst n; lia]. by eapply inv_first.
    + apply Hold in Hv; [|done]. exact (inv_empty m Hinv org Hp _ _ Hv).
  - intros o c Hq. destruct (decide (o = org)) as [->|Hne].
    + rewrite lookup_insert_eq in Hq. simplify_eq. split.
      * exists t. repeat split; try done. cbn. by rewrite lookup_app_r, Nat.sub_diag by done.
      * intros j u Hj [Hu|(-> & _)]%task_of_snoc; [apply Hlt in Hu; lia|lia].
    + rewrite lookup_insert_ne in Hq by done. destruct (inv_queue m Hinv o c Hq) as [(u & Hu & Hp) Hlast].
      split; [by eauto|]. intros j v Hj [Hv|(_ & _ & ->)]%task_of_snoc; [by eapply Hlast|done].
  - intros o Hq j u [Hu|(_ & _ & ->)]%task_of_snoc.
    + destruct (decide (o = org)) as [->|Hne]; [by rewrite lookup_insert_eq in Hq|].
      rewrite lookup_insert_ne in Hq by done. by eapply inv_empty.
    + cbn in Hq. by rewrite lookup_insert_eq in Hq.
  - intros j u [Hj|[-> ->]]%Hsplit Hp l v Hl Hv; [|done].
    apply Hold in Hv; [|apply lookup_lt_Some in Hj; subst n; lia]. by eapply inv_order.
Qed.
Lemma new_mutex_inv : mutex_inv new_mutex.
Proof.
  split; unfold new_mutex; cbn [queues tasks]; try (intros; by rewrite lookup_nil in * ).
  - intros org c Hq. by rewrite lookup_empty in Hq.
  - intros org _ j u [Hj _]. cbn in Hj. by rewrite lookup_nil in Hj.
Qed.
Lemma mutex_step_inv m m' : mutex_step m m' -> mutex_inv m -> mutex_inv m'.
Proof. intros [org x|i x z' Hs|i x z' Hs] Hinv; [by apply mutex_run_inv|by eapply resume_inv|by eapply finish_inv]. Qed.
Lemma reachable_inv m : reachable m -> mutex_inv m.
Proof.
  unfold reachable. generalize new_mutex_inv. generalize new_mutex. intros m0 H0 H.
  induction H as [|x y z Hs _ IH]; [done|]. by eapply IH, mutex_step_inv.
Qed.

(** ** What the mutex promises *)

(** C34. The operations of an organization exclude each other and run in the order
    of their calls: when the operation of a task has started, those of all
    earlier calls for the organization are finished, so no two of them run. *)
Theorem mutex_fifo m org i j t u : reachable m -> task_of m org i t -> task_of m org j u ->
  (i < j)%nat -> tk_phase u <> Waiting -> tk_phase t = Finished.
Proof.
  intros Hr Ht [Hu <-] Hij Hp. by eapply (inv_order m (reachable_inv m Hr) j u Hu Hp i t Hij).
Qed.

(** The first task that is not finished can always go on: it is running, or its
    promise [previous] is resolved. *)
Lemma first_unfinished m org i t : mutex_inv m -> task_of m org i t -> all_finished_before m org i ->
  tk_phase t <> Finished -> is_Some (mutex_resume i m) \/ is_Some (mutex_finish i m).
Proof.
  intros Hinv [Hi Ho] Hb Hn. unfold mutex_resume, mutex_finish. rewrite Hi.
  destruct (tk_phase t) eqn:Ep; [left|right|done]; [|by rewrite bool_decide_true; eauto].
  rewrite bool_decide_true by done. cbn [andb]. destruct (tk_previous t) as [p|] eqn:Epr; [|by eauto].
  destruct (inv_previous m Hinv i t p Hi Epr) as (Hl & [u Hu] & _). unfold resolved.
  rewrite Ho in Hu. pose proof (Hb p u Hl Hu) as Hf. destruct Hu as [Hu _]. rewrite Hu.
  rewrite bool_decide_true by done. by eauto.
Qed.
Lemma finished_or_first m org n : all_finished_before m org n \/
  exists i t, task_of m org i t /\ all_finished_before m org i /\ tk_phase t <> Finished.
Proof.
  induction n as [|n [IH|IH]]; [left; intros j u Hj; lia| |by right].
  destruct (tasks m !! n) as [t|] eqn:Hn.
  - destruct (decide (tk_organizationId t = org /\ tk_phase t <> Finished)) as [[Ho Hp]|Hp].
    + right. by exists n, t.
    + left. intros j u Hj Hu. destruct (decide (j = n)) as [->|Hne]; [|eapply IH; [|done]; lia].
      destruct Hu as [Hu Ho]. simplify_eq. destruct (decide (tk_phase t = Finished)); [done|]. by destruct Hp.
  - left. intros j u Hj Hu. destruct (decide (j = n)) as [->|Hne]; [by destruct Hu; congruence|].
    eapply IH; [|done]; lia.
Qed.
(** Nobody is locked out and nothing leaks: while an operation of an
    organization is not finished, one of that organization can be resumed or
    can finish; once all are finished, the map holds no entry for it. *)
Theorem mutex_progress m org : reachable m ->
  (queues m !! org = None /\ forall i t, task_of m org i t -> tk_phase t = Finished) \/
  (exists i t, task_of m org i t /\ (is_Some (mutex_resume i m) \/ is_Some (mutex_finish i m))).
Proof.
  intros Hr. pose proof (reachable_inv m Hr) as Hinv.
  destruct (finished_or_first m org (length (tasks m))) as [Hall|(i & t & Ht & Hb & Hn)].
  - left. assert (Hf : forall i t, task_of m org i t -> tk_phase t = Finished).
    { intros i t Ht. eapply Hall; [|done]. destruct Ht. by eapply lookup_lt_Some. }
    split; [|done]. destruct (queues m !! org) as [c|] eqn:Hq; [|done].
    destruct (inv_queue m Hinv org c Hq) as [(u & Hu & Hp) _]. by destruct Hp; eapply Hf.
  - right. exists i, t. split; [done|]. by eapply first_unfinished.
Qed.

Module MutexDemo.
(** Two calls for one organization and one for another; the first has finished
    and the second has started. *)
Definition demo : OrganizationMutex := Eval vm_compute in
  let m := mutex_run (js "b") (mutex_run (js "a") (mutex_run (js "a") new_mutex)) in
  default m (m1 ← mutex_resume 0 m; m2 ← mutex_finish 0 m1; mutex_resume 1 m2).
Lemma demo_reachable : reachable demo.
Proof.
  eapply rtc_l; [apply (step_run (js "a"))|]. eapply rtc_l; [apply (step_run (js "a"))|].
  eapply rtc_l; [apply (step_run (js "b"))|]. eapply rtc_l; [by apply (step_resume 0)|].
  eapply rtc_l; [by apply (step_finish 0)|]. eapply rtc_l; [by apply (step_resume 1)|]. apply rtc_refl.
Qed.
Lemma mutex_fifo_witness : exists t u, task_of demo (js "a") 0 t /\ task_of demo (js "a") 1 u /\
  tk_phase u = Running /\ tk_phase t = Finished.
Proof.
  eexists _, _. split; [by split|]. split; [by split|]. split; [done|].
  eapply (mutex_fifo demo (js "a") 0 1 _ {| tk_organizationId := js "a"; tk_previous := Some 0%nat; tk_phase := Running |});
    [exact demo_reachable|by split|by split|lia|done].
Defined.
Lemma mutex_progress_witness : is_Some (queues demo !! js "a") /\ exists i t, task_of demo (js "a") i t /\
  (is_Some (mutex_resume i demo) \/ is_Some (mutex_finish i demo)).
Proof.
  assert (Hq : is_Some (queues demo !! js "a")) by (by vm_compute; eauto). split; [done|].
  destruct (mutex_progress demo (js "a") demo_reachable) as [[Hn _]|H]; [|exact H].
  rewrite Hn in Hq. by destruct Hq.
Defined.
End MutexDemo.
