(* ===== verification/Registry.v ===== *)
(** * Publishing, packs, policy and revocation

    The handlers of packages/core/src/index.ts that change releases, packs and
    the policy.  A handler reads a snapshot of the state, prepares its work and
    then runs a synchronous updater in a repository transaction on the state as
    it is by then; between the two anything may have happened.  So each handler
    is a function of the [snapshot] and the [current] state, and returns the new
    state with the answer, or the error that leaves the state as it was.  [now]
    is the clock before the transaction, [commitNow] the clock inside it; the
    results of [randomId] are arguments. *)

From Stdlib Require Import ZArith Lia.
From stdpp Require Import base list strings sets.
From S2P Require Import Prelude Js Dates Json Bundle Frontmatter Contracts Web Access Names.
From S2P Require Import PolicyEval Resolve State.

Local Open Scope Z_scope.

Definition str (s : jstr) : jsval := JStr s.

Section Handlers.
Context {DR : DateRuntime} {UT : UnicodeTables} {UR : UrlRuntime} {CO : Collation} {CR : Crypto} {BL : Blobs}.
Context (parseDocument : jstr -> option ydocument).
Context (config : Configuration).

(** [putVerifiedBlob]: the store must confirm digest and size. *)
Definition putVerifiedBlob (bytes : list Z) (digest : jstr) : api StoredBlob :=
  match blob_put bytes with
  | None => Err (api_retry "STORAGE_UNAVAILABLE" 503)
  | Some stored =>
      throw_if negb (jeqb (sb_digest stored) digest) ||
               negb (sb_size stored =? Z.of_nat (length bytes)) || jeqb (sb_key stored) []
        with api_error "DIGEST_MISMATCH" 409 ;;
      Ok stored
  end.
(** [bundleError]: the validation errors of the codec as API errors. *)
Definition bundle_result {A} (r : result BundleValidationError A) : api A :=
  match r with
  | Ok a => Ok a
  | Err _ => Err (api_error "BUNDLE_INVALID" 400)
  end.

(** ** [publishSkill] *)

Definition has_version (skills : list SkillVersion) (name version : jstr) : bool :=
  existsb (fun s => jeqb (sk_name s) name && jeqb (sk_version s) version) skills.

Definition scan_job (id resourceId : jstr) (artifact : StoredBlob) (policy : Policy) (revision : jstr)
    (now : Z) : Job := {|
  jb_id := id; jb_organizationId := cfg_organizationId config; jb_kind := ScanJob;
  jb_state := JQueued; jb_resourceId := Some resourceId; jb_artifact := Some artifact;
  jb_policyRevision := revision; jb_policy := policy; jb_import := None; jb_upstream := None;
  jb_openclawSource := JUndef; jb_sourceAcquisition := JUndef;
  jb_sourceCatalogAliases := None; jb_createdAt := toISOString now;
  jb_updatedAt := toISOString now; jb_attempts := 0; jb_leaseToken := None;
  jb_leaseExpiresAt := None; jb_error := None |}.

Record PublishIds : Type := {
  pi_jobId : jstr;
  pi_skillId : jstr;
  pi_auditId : jstr;
}.

(** Everything before the transaction: the release, its scan job and its
    digest. *)
Definition publish_prepare (body : jsval) (principal : Principal) (snapshot : RegistryState)
    (ids : PublishIds) (now : Z) : api (SkillVersion * Job * jstr) :=
  let? name := requireSkillName (field body "name") in
  throw_if negb (canPublishName principal name) with api_error "FORBIDDEN" 403 ;;
  let? version := requireVersion (field body "version") in
  throw_if match field body "description" with
           | JUndef | JStr _ => false
           | _ => true
           end with api_error "INVALID_REQUEST" 400 ;;
  let requestedDescription := stringValue (field body "description") in
  throw_if negb (isObject (field body "bundle")) with api_error "BUNDLE_INVALID" 400 ;;
  let? bundle := bundle_result (validateBundle (field body "bundle")) in
  let? bytes := bundle_result (encodeBundle (bundle_value bundle)) in
  let? metadata := bundle_result (parseSkillMetadata parseDocument (bundle_value bundle)) in
  let digest := digestBytes bytes in
  throw_if has_version (st_skills snapshot) name version with api_error "VERSION_CONFLICT" 409 ;;
  let? stored := putVerifiedBlob bytes digest in
  let policy := clonePolicy (st_policy snapshot) in
  let skill := {|
    sk_id := pi_skillId ids; sk_organizationId := cfg_organizationId config; sk_name := name;
    sk_skillName := default (slug_of name) (normalizeSkillName (JStr (skillName metadata)));
    sk_version := version;
    sk_description := default (default [] (stringValue (JStr (description metadata))))
                        requestedDescription;
    sk_artifact := stored; sk_state := Pending; sk_policyRevision := po_revision policy;
    sk_createdAt := toISOString now; sk_approvedAt := None; sk_provenance := native_provenance;
    sk_fileCount := Z.of_nat (length (files bundle)); sk_scanIds := []; sk_authoring := None |} in
  Ok (skill, scan_job (pi_jobId ids) (pi_skillId ids) stored policy (po_revision policy) now, digest).

(** The updater. *)
Definition publish_commit (principal : Principal) (requestId : jstr) (fallback : Policy)
    (skill : SkillVersion) (job : Job) (digest auditId : jstr) (commitNow : Z) (current : RegistryState)
    : api (RegistryState * Job) :=
  let? mutable := ensureState (Some current) fallback in
  throw_if has_version (st_skills mutable) (sk_name skill) (sk_version skill)
    with api_error "VERSION_CONFLICT" 409 ;;
  let mutable := with_st_skills (st_skills mutable ++ [skill]) mutable in
  let mutable := with_st_jobs (st_jobs mutable ++ [job]) mutable in
  Ok (appendAudit (audit (cfg_organizationId config) principal auditId commitNow
        (js "skill.publish.queued") (sk_id skill)
        [(js "digest", str digest); (js "version", str (sk_version skill));
         (js "requestId", str requestId)]) mutable, job).

Definition publishSkill (body : jsval) (principal : Principal) (requestId : jstr) (ids : PublishIds)
    (now commitNow : Z) (snapshot current : RegistryState) : api (RegistryState * Job) :=
  let? prepared := publish_prepare body principal snapshot ids now in
  let '(skill, job, digest) := prepared in
  publish_commit principal requestId (st_policy snapshot) skill job digest (pi_auditId ids) commitNow
    current.

(** ** [createPack] *)

Definition pack_member_of (skill : SkillVersion) : PackMember := {|
  pm_resourceId := sk_id skill; pm_name := sk_name skill; pm_version := sk_version skill;
  pm_digest := sb_digest (sk_artifact skill) |}.

Fixpoint collect_members (principal : Principal) (snapshot : RegistryState) (now : Z) (ids : list jstr)
    (l : list jsval) : api (list PackMember) :=
  match l with
  | [] => Ok []
  | raw :: rest =>
      throw_if negb (isObject raw) with api_error "INVALID_PACK" 400 ;;
      let? memberVersion := requireVersion (field raw "version") in
      match stringValue (field raw "ref") with
      | None => Err (api_error "INVALID_PACK" 400)
      | Some ref =>
          match resolveResource snapshot principal now KSkill ref (Some memberVersion) with
          | PendingOn _ => Err (api_retry "SCAN_PENDING" 409)
          | Resolved (inl skill) _ =>
              throw_if negb (bool_decide (sk_state skill = Approved)) with api_error "POLICY_BLOCKED" 409 ;;
              throw_if bool_decide (sk_id skill ∈ ids) with api_error "INVALID_PACK" 400 ;;
              let? members := collect_members principal snapshot now (sk_id skill :: ids) rest in
              Ok (pack_member_of skill :: members)
          | _ => Err (api_error "POLICY_BLOCKED" 409)
          end
      end
  end.

Definition member_data (m : PackMember) : jdata := TObj [
  (js "resourceId", TStr (pm_resourceId m)); (js "name", TStr (pm_name m));
  (js "version", TStr (pm_version m)); (js "digest", TStr (pm_digest m))].
Definition manifest_data (name version description : jstr) (members : list PackMember) : jdata := TObj [
  (js "name", TStr name); (js "version", TStr version); (js "description", TStr description);
  (js "members", TArr (member_data <$> members))].
Definition manifest_bytes (name version description : jstr) (members : list PackMember) : list Z :=
  textEncode (stableStringify (manifest_data name version description members)).

Definition has_pack (packs : list PackVersion) (name version : jstr) : bool :=
  existsb (fun p => jeqb (pk_name p) name && jeqb (pk_version p) version) packs.

Definition pack_prepare (body : jsval) (principal : Principal) (snapshot : RegistryState)
    (packId : jstr) (now : Z) : api PackVersion :=
  let? name := requireSkillName (field body "name") in
  throw_if negb (canPublishName principal name) with api_error "FORBIDDEN" 403 ;;
  let? version := requireVersion (field body "version") in
  throw_if match field body "description" with
           | JUndef | JStr _ => false
           | _ => true
           end with api_error "INVALID_PACK" 400 ;;
  let description := default [] (stringValue (field body "description")) in
  match field body "skills" with
  | JArr skills =>
      throw_if bool_decide (skills = []) || (500 <? Z.of_nat (length skills))
        with api_error "INVALID_PACK" 400 ;;
      throw_if has_pack (st_packs snapshot) name version with api_error "VERSION_CONFLICT" 409 ;;
      let? members := collect_members principal snapshot now [] skills in
      Ok {| pk_id := packId; pk_organizationId := cfg_organizationId config; pk_name := name;
            pk_version := version; pk_description := description; pk_members := members;
            pk_manifestDigest := digestBytes (manifest_bytes name version description members);
            pk_state := PackApproved; pk_createdAt := toISOString now;
            pk_policyRevision := po_revision (st_policy snapshot) |}
  | _ => Err (api_error "INVALID_PACK" 400)
  end.

(** The recheck of a member in the transaction. *)
Definition member_current (s : RegistryState) (member : PackMember) : bool :=
  match find_skill s (pm_resourceId member) with
  | Some skill => bool_decide (sk_state skill = Approved) &&
                  jeqb (sb_digest (sk_artifact skill)) (pm_digest member) &&
                  jeqb (sk_policyRevision skill) (po_revision (st_policy s))
  | None => false
  end.
Definition pack_commit (principal : Principal) (requestId : jstr) (fallback : Policy)
    (pack : PackVersion) (auditId : jstr) (commitNow : Z) (current : RegistryState)
    : api (RegistryState * PackVersion) :=
  let? mutable := ensureState (Some current) fallback in
  throw_if has_pack (st_packs mutable) (pk_name pack) (pk_version pack)
    with api_error "VERSION_CONFLICT" 409 ;;
  throw_if negb (forallb (member_current mutable) (pk_members pack))
    with api_retry "POLICY_BLOCKED" 409 ;;
  let mutable := with_st_packs (st_packs mutable ++ [pack]) mutable in
  Ok (appendAudit (audit (cfg_organizationId config) principal auditId commitNow (js "pack.publish")
        (pk_id pack)
        [(js "manifestDigest", str (pk_manifestDigest pack));
         (js "memberCount", JNum (num_of_Z (Z.of_nat (length (pk_members pack)))));
         (js "requestId", str requestId)]) mutable, pack).
Definition createPack (body : jsval) (principal : Principal) (requestId packId auditId : jstr)
    (now commitNow : Z) (snapshot current : RegistryState) : api (RegistryState * PackVersion) :=
  let? pack := pack_prepare body principal snapshot packId now in
  pack_commit principal requestId (st_policy snapshot) pack auditId commitNow current.

(** ** [updatePolicy] *)

Definition updatePolicy (body : jsval) (principal : Principal) (requestId revision auditId : jstr)
    (fresh : nat -> jstr) (commitNow : Z) (snapshot current : RegistryState)
    : api (RegistryState * Policy) :=
  let? policy := parsePolicy fresh body in
  let next := with_po_revision revision policy in
  let? mutable := ensureState (Some current) (st_policy snapshot) in
  let mutable := with_st_policy next mutable in
  Ok (appendAudit (audit (cfg_organizationId config) principal auditId commitNow (js "policy.update")
        (po_revision next)
        [(js "allowUnscanned", JBool (po_allowUnscanned next));
         (js "scannerCount", JNum (num_of_Z (Z.of_nat (length (po_scanners next)))));
         (js "requestId", str requestId)]) mutable, next).

(** ** [rescanSkill] *)

(** Mutation of the release [find] returned. *)
Definition update_skill (id : jstr) (f : SkillVersion -> SkillVersion) (s : RegistryState)
    : RegistryState :=
  with_st_skills (update_first (fun c => jeqb (sk_id c) id) f (st_skills s)) s.
Definition unless_revoked (f : SkillVersion -> SkillVersion) (s : SkillVersion) : SkillVersion :=
  if bool_decide (sk_state s = Revoked) then s else f s.

Definition rescanSkill (id : jstr) (principal : Principal) (requestId jobId auditId : jstr)
    (now commitNow : Z) (snapshot current : RegistryState) : api (RegistryState * Job) :=
  match find_first (fun c => jeqb (sk_id c) id && canReadNamespace principal (sk_name c))
          (st_skills snapshot) with
  | None => Err unavailable
  | Some skill =>
      let job := scan_job jobId (sk_id skill) (sk_artifact skill) (clonePolicy (st_policy snapshot))
                   (po_revision (st_policy snapshot)) now in
      let? mutable := ensureState (Some current) (st_policy snapshot) in
      match find_skill mutable id with
      | None => Err unavailable
      | Some currentSkill =>
          throw_if negb (canReadNamespace principal (sk_name currentSkill)) with unavailable ;;
          let mutable := update_skill id (unless_revoked (with_sk_state Pending)) mutable in
          let mutable := with_st_jobs (st_jobs mutable ++ [job]) mutable in
          Ok (appendAudit (audit (cfg_organizationId config) principal auditId commitNow
                (js "skill.rescan.queued") id
                [(js "digest", str (sb_digest (sk_artifact skill))); (js "requestId", str requestId)])
                mutable, job)
      end
  end.

(** ** [revokeSkill] *)

Definition contains_member (id : jstr) (pack : PackVersion) : bool :=
  existsb (fun m => jeqb (pm_resourceId m) id) (pk_members pack).
Definition revoke_packs (id : jstr) (packs : list PackVersion) : list PackVersion :=
  map (fun p => if contains_member id p then with_pk_state PackRevoked p else p) packs.

Definition revokeSkill (id : jstr) (principal : Principal) (requestId auditId : jstr) (commitNow : Z)
    (snapshot current : RegistryState) : api (RegistryState * SkillVersion) :=
  match find_skill snapshot id with
  | None => Err unavailable
  | Some existing =>
      throw_if negb (canReadNamespace principal (sk_name existing)) with unavailable ;;
      let? mutable := ensureState (Some current) (st_policy snapshot) in
      match find_skill mutable id with
      | None => Err unavailable
      | Some skill =>
          throw_if negb (canReadNamespace principal (sk_name skill)) with unavailable ;;
          let revoked := with_sk_state Revoked skill in
          let mutable := update_skill id (with_sk_state Revoked) mutable in
          let mutable := with_st_packs (revoke_packs id (st_packs mutable)) mutable in
          Ok (appendAudit (audit (cfg_organizationId config) principal auditId commitNow
                (js "skill.revoke") id
                [(js "digest", str (sb_digest (sk_artifact skill))); (js "requestId", str requestId)])
                mutable, revoked)
      end
  end.
End Handlers.
