(* ===== verification/Authoring.v ===== *)
(** * Authoring: releases as files

    packages/authoring/src/index.ts: who may read and write, the gate every
    authoring route reads a release through, and the bounded view of a file.

    The scanner policy is injected: [releaseAdmission] is the dependency of
    that name, [None] when it throws.  The query string is given as the list of
    values of each parameter ([searchParams.getAll]). *)

From Stdlib Require Import ZArith Lia.
From stdpp Require Import base list strings sets.
From S2P Require Import Prelude Js Base64 Json Wire Bundle Contracts Numbers Web Access ReviewSnapshot.

Local Open Scope Z_scope.

(** ** Errors *)

Record AuthoringApiError : Type := {
  au_code : jstr;
  au_status : Z;
  au_details : option (list (jstr * wire));
}.
Abbreviation authoring := (result AuthoringApiError).
Definition authoring_error (code : string) (status : Z) : AuthoringApiError :=
  {| au_code := js code; au_status := status; au_details := None |}.
Definition unavailable_release : AuthoringApiError := authoring_error "NOT_FOUND" 404.

(** ** Principals *)

Definition is_reader_role (principal : Principal) : bool :=
  hasRole principal Reader || hasRole principal Publisher || hasRole principal Admin || hasRole principal Owner.
Definition is_publisher_role (principal : Principal) : bool :=
  hasRole principal Publisher || hasRole principal Admin || hasRole principal Owner.
Definition is_worker_identity (principal : Principal) : bool :=
  bool_decide (pr_identity principal = Some (js "worker")).
Definition scope_allowed (principal : Principal) (allowed : list string) : bool :=
  match pr_scopes principal with
  | None => true
  | Some scopes => existsb (fun s => bool_decide (js s ∈ scopes)) allowed
  end.
Definition assertReader (principal : Principal) : authoring unit :=
  throw_if negb (is_reader_role principal) || is_worker_identity principal
    with authoring_error "FORBIDDEN" 403 ;;
  throw_if negb (scope_allowed principal ["*"; "registry:*"; "skills:read"; "registry:read"]%string)
    with authoring_error "FORBIDDEN" 403 ;;
  Ok tt.
Definition assertPublisher (principal : Principal) : authoring unit :=
  throw_if is_worker_identity principal || negb (is_publisher_role principal)
    with authoring_error "FORBIDDEN" 403 ;;
  throw_if negb (scope_allowed principal ["*"; "registry:*"; "skills:write"; "skills:publish"]%string)
    with authoring_error "FORBIDDEN" 403 ;;
  Ok tt.
(** This package has a copy of [canReadNamespace]. *)
Definition namespaceReadable (principal : Principal) (name : jstr) : bool :=
  if hasRole principal Owner || hasRole principal Admin then true
  else if negb (hasRole principal Reader) && negb (hasRole principal Publisher) then false
  else match pr_namespaces principal with
       | None | Some [] => true
       | Some l =>
           let namespace := if startsWith (js "@") name then default [] (head (split 47 name)) else name in
           existsb (fun candidate => jeqb candidate namespace || jeqb candidate (drop 1 namespace)) l
       end.

(** ** The view of a file *)

Definition DEFAULT_RELEASE_TEXT_PREVIEW_BYTES : Z := 256 * 1024.
Inductive ReleaseFilePreviewState : Type := PreviewText | PreviewBinary | PreviewUnsupported | PreviewOversize.
#[export] Instance ReleaseFilePreviewState_eq_dec : EqDecision ReleaseFilePreviewState.
Proof. solve_decision. Defined.
Record ReleaseFileView : Type := {
  fv_path : jstr;
  fv_size : Z;
  fv_contentDigest : jstr;
  fv_previewState : ReleaseFilePreviewState;
  fv_executable : bool;
  fv_contents : option jstr;
}.

Definition PREVIEW_TEXT_EXTENSIONS : list jstr := js <$> [
  "c"; "cc"; "cfg"; "conf"; "cpp"; "css"; "csv"; "go"; "h"; "hpp"; "html"; "ini"; "java"; "js"; "json";
  "jsx"; "md"; "mjs"; "mts"; "py"; "rs"; "sh"; "sql"; "toml"; "ts"; "tsx"; "txt"; "xml"; "yaml"; "yml"]%string.
Definition BINARY_EXTENSIONS : list jstr := js <$> [
  "7z"; "avi"; "bin"; "bmp"; "class"; "dll"; "doc"; "docx"; "gif"; "gz"; "ico"; "jar"; "jpeg"; "jpg";
  "mp3"; "mp4"; "pdf"; "png"; "so"; "tar"; "wasm"; "webp"; "woff"; "woff2"; "zip"]%string.
Definition PREVIEW_TEXT_FILENAMES : list jstr := js <$> [
  ".editorconfig"; ".gitignore"; ".npmignore"; "dockerfile"; "license"; "makefile"; "readme"]%string.

(** The shape test of this package's [isCanonicalBase64]. *)
Definition base64_shape (value : jstr) : bool :=
  (jlen value mod 4 =? 0) &&
  let padding := if endsWith (js "==") value then 2 else if endsWith (js "=") value then 1 else 0 in
  let dataLength := jlen value - padding in
  negb ((padding =? 1) && negb (dataLength mod 4 =? 3)) &&
  negb ((padding =? 2) && negb (dataLength mod 4 =? 2)) &&
  forallb (fun c => 0 <=? base64Sextet c) (take (Z.to_nat dataLength) value) &&
  forallb (fun c => c =? 61) (drop (Z.to_nat dataLength) value).
Definition decodeFileContent (value : jstr) : authoring (list Z) :=
  throw_if negb (base64_shape value) with authoring_error "ARTIFACT_INVALID" 409 ;;
  match atob value with
  | None => Err (authoring_error "ARTIFACT_INVALID" 409)
  | Some bytes => Ok bytes
  end.

Section View.
Context {UT : UnicodeTables} {CR : Crypto}.

Definition basename (path : jstr) : jstr :=
  toLowerCase (match from_last 47 path with
               | Some (_ :: r) => r
               | _ => path
               end).
(** [dot > 0 ? basename.slice(dot + 1) : '']: a leading dot is no extension. *)
Definition fileExtension (path : jstr) : jstr :=
  match from_last 46 (basename path) with
  | Some (dot :: extension) => if jeqb (dot :: extension) (basename path) then [] else extension
  | _ => []
  end.
Definition isBinaryPath (path : jstr) : bool := bool_decide (fileExtension path ∈ BINARY_EXTENSIONS).
Definition isSupportedTextPath (path : jstr) : bool :=
  bool_decide (basename path ∈ PREVIEW_TEXT_FILENAMES) ||
  bool_decide (fileExtension path ∈ PREVIEW_TEXT_EXTENSIONS).
Definition viewFile (path encodedContent : jstr) (executable : bool) (maxTextPreviewBytes : Z)
    (includeContents : bool) : authoring ReleaseFileView :=
  let? bytes := decodeFileContent encodedContent in
  let view state contents := {|
    fv_path := path; fv_size := jlen bytes; fv_contentDigest := digestBytes bytes;
    fv_previewState := state; fv_executable := executable; fv_contents := contents |} in
  Ok (if isBinaryPath path || bool_decide (0 ∈ bytes) then view PreviewBinary None else
      match textDecode bytes with
      | None => view PreviewBinary None
      | Some text =>
          if negb (isSupportedTextPath path) then view PreviewUnsupported None
          else if maxTextPreviewBytes <? jlen bytes then view PreviewOversize None
          else view PreviewText (if includeContents then Some text else None)
      end).

(** [selectedFilePath]: at most one [path] parameter, a clean relative path. *)
Definition selectedFilePath (values : list jstr) : authoring (option jstr) :=
  match values with
  | [] => Ok None
  | [path] =>
      throw_if jeqb path [] || (4096 <? jlen path) || startsWith (js "/") path || includes (js "\") path ||
               existsb (fun part => jeqb part [] || jeqb part (js ".") || jeqb part (js "..")) (split 47 path)
        with authoring_error "INVALID_REQUEST" 400 ;;
      Ok (Some (normalizeNFC path))
  | _ => Err (authoring_error "INVALID_REQUEST" 400)
  end.
End View.

(** ** The gate *)

Section Gate.
Context {UT : UnicodeTables} {CR : Crypto} {BL : Blobs}.
Context (organizationId : jstr).
Context (releaseAdmission : RegistryState -> SkillVersion -> Principal -> option bool).

Record AuthorizedReleaseSnapshot : Type := {
  as_release : SkillVersion;
  as_bytes : list Z;
  as_files : list BundleFile;
}.
Definition readAuthorizedReleaseSnapshot (state : RegistryState) (principal : Principal) (releaseId : jstr)
    : authoring AuthorizedReleaseSnapshot :=
  match find_first (fun candidate => jeqb (sk_id candidate) releaseId &&
                      jeqb (sk_organizationId candidate) organizationId &&
                      namespaceReadable principal (sk_name candidate)) (st_skills state) with
  | None => Err unavailable_release
  | Some release =>
      throw_if negb (bool_decide (sk_state release = Approved)) ||
               negb (jeqb (sk_policyRevision release) (po_revision (st_policy state)))
        with unavailable_release ;;
      match releaseAdmission state release principal with
      | None => Err (authoring_error "RELEASE_UNAVAILABLE" 503)
      | Some admitted =>
          throw_if negb admitted with unavailable_release ;;
          let artifact := sk_artifact release in
          match blob_get (sb_key artifact) with
          | None => Err (authoring_error "ARTIFACT_UNAVAILABLE" 503)
          | Some bytes =>
              throw_if negb (jeqb (digestBytes bytes) (sb_digest artifact)) || negb (jlen bytes =? sb_size artifact)
                with authoring_error "DIGEST_MISMATCH" 409 ;;
              throw_if negb (isDigest (sb_digest artifact)) with authoring_error "INTERNAL_STATE_INVALID" 500 ;;
              match decodeBundle bytes with
              | Err _ => Err (authoring_error "ARTIFACT_INVALID" 409)
              | Ok bundle =>
                  throw_if negb (sk_fileCount release =? Z.of_nat (length (files bundle)))
                    with authoring_error "INTERNAL_STATE_INVALID" 409 ;;
                  Ok {| as_release := release; as_bytes := bytes; as_files := files bundle |}
              end
          end
      end
  end.

(** The routes [GET /v1/skills/:id/files] and [.../file]: [single] is the
    latter. *)
Definition releaseFiles (state : RegistryState) (principal : option Principal) (releaseId : jstr)
    (single : bool) (pathValues : list jstr) (maxTextPreviewBytes : Z)
    : authoring (SkillVersion * list ReleaseFileView) :=
  match principal with
  | None => Err (authoring_error "UNAUTHORIZED" 401)
  | Some principal =>
      throw_if negb (jeqb (pr_organizationId principal) organizationId)
        with authoring_error "UNAUTHORIZED" 401 ;;
      let? _ := assertReader principal in
      throw_if jeqb releaseId [] || (256 <? jlen releaseId) ||
               existsb (fun c => is_control c || (c =? 47) || (c =? 92)) releaseId
        with unavailable_release ;;
      let? selected := selectedFilePath pathValues in
      throw_if single && bool_decide (selected = None) with authoring_error "INVALID_REQUEST" 400 ;;
      throw_if negb single && negb (bool_decide (selected = None)) with authoring_error "INVALID_REQUEST" 400 ;;
      let? snapshot := readAuthorizedReleaseSnapshot state principal releaseId in
      let wanted := List.filter (fun f => match selected with
                                          | None => true
                                          | Some p => jeqb (path f) p
                                          end) (as_files snapshot) in
      let? views := map_result (fun f => viewFile (path f) (content f) (bool_decide (executable f = Some true))
                                  maxTextPreviewBytes (negb (bool_decide (selected = None)))) wanted in
      throw_if negb (bool_decide (selected = None)) && (length views =? 0)%nat with unavailable_release ;;
      Ok (as_release snapshot, views)
  end.
End Gate.

(** ** Lemmas *)

(** The two copies of the namespace test agree. *)
Lemma namespaceReadable_core principal name : namespaceReadable principal name = canReadNamespace principal name.
Proof.
  unfold namespaceReadable, canReadNamespace. destruct (hasRole principal Owner || hasRole principal Admin); [done|].
  by destruct (negb (hasRole principal Reader) && _).
Qed.
