(* ===== verification/Drafts.v ===== *)
(** * Drafts: data and checks

    The helpers of packages/authoring/src/drafts.ts: the request fields, the
    two forms of a file entry, the canonical bundle, the manifest, the public
    form of a draft with its size limit, and the records that make requests
    repeatable.  The handlers are in DraftHandlers.v.

    A public draft and the envelopes around it are only ever written as JSON,
    so they are [wire] values (Wire.v). *)

From Stdlib Require Import ZArith Lia.
From stdpp Require Import base list strings sets.
From S2P Require Import Prelude Js Dates Base64 Json Wire Bundle Frontmatter Contracts Numbers Web Access Names.
From S2P Require Import PolicyEval Authoring.

Local Open Scope Z_scope.

(** ** Limits and errors *)

Definition MAX_IDEMPOTENCY_RECORDS : nat := 32.
Definition MAX_IDEMPOTENCY_KEY_BYTES : Z := 256.
Definition MAX_PUBLIC_DRAFT_RESPONSE_BYTES : Z := 4500000.
Definition MAX_PUBLICATION_HISTORY : nat := 16.

Definition unavailableDraft : AuthoringApiError := authoring_error "NOT_FOUND" 404.
Definition idempotencyConflict : AuthoringApiError := authoring_error "IDEMPOTENCY_CONFLICT" 409.
Definition DRAFT_CLOSED : AuthoringApiError := authoring_error "DRAFT_CLOSED" 409.
Definition DRAFT_INVALID : AuthoringApiError := authoring_error "DRAFT_INVALID" 409.
Definition DIGEST_MISMATCH : AuthoringApiError := authoring_error "DIGEST_MISMATCH" 409.
Definition INVALID_REQUEST : AuthoringApiError := authoring_error "INVALID_REQUEST" 400.
Definition INVALID_BUNDLE : AuthoringApiError := authoring_error "INVALID_BUNDLE" 400.
(** Any other exception reaches the client as this. *)
Definition INTERNAL_ERROR : AuthoringApiError := authoring_error "INTERNAL_ERROR" 500.
Definition draft_conflict (details : list (jstr * wire)) : AuthoringApiError :=
  {| au_code := js "DRAFT_CONFLICT"; au_status := 409; au_details := Some details |}.
Definition revisionConflict (currentRevision : Z) : AuthoringApiError :=
  draft_conflict [(js "currentRevision", WInt currentRevision)].
Definition publicDraftStateConflict (currentRevision : Z) : AuthoringApiError :=
  draft_conflict [(js "currentRevision", WInt currentRevision)].
Definition draftDigestConflict (currentRevision : option Z) (path : option jstr) : AuthoringApiError :=
  draft_conflict (match currentRevision with
                  | Some r => [(js "currentRevision", WInt r)]
                  | None => []
                  end ++
                  match path with
                  | Some p => [(js "path", WStr p)]
                  | None => []
                  end).

(** ** Request fields *)

Definition isSafeId (value : jstr) : bool :=
  negb (jeqb value []) && (jlen value <=? 256) &&
  negb (existsb (fun c => is_control c || (c =? 47) || (c =? 92)) value).
Definition requireIdempotencyKeyValue (value : option jstr) : authoring jstr :=
  match value with
  | None => Err INVALID_REQUEST
  | Some v =>
      let key := trim v in
      throw_if jeqb key [] || (MAX_IDEMPOTENCY_KEY_BYTES <? jlen key) || CONTROL_CHARACTER key
        with INVALID_REQUEST ;;
      Ok key
  end.
(** [requireIdempotencyKey]: the header, trimmed before it is checked. *)
Definition requireIdempotencyKey (header : option jstr) : authoring jstr :=
  requireIdempotencyKeyValue (option_map trim header).
Definition requireOperationId (value : jsval) : authoring jstr :=
  match value with
  | JStr s => throw_if negb (isSafeId s) with INVALID_REQUEST ;; Ok s
  | _ => Err INVALID_REQUEST
  end.
Definition requireDigest (value : jsval) : authoring jstr :=
  match value with
  | JStr s => throw_if negb (isDigest s) with INVALID_REQUEST ;; Ok s
  | _ => Err INVALID_REQUEST
  end.
Definition requireDraftName (value : jsval) : authoring jstr :=
  match value with
  | JStr s => throw_if negb (skill_name_pattern s) with authoring_error "INVALID_NAME" 400 ;; Ok s
  | _ => Err (authoring_error "INVALID_NAME" 400)
  end.
Definition requireRevision (value : jsval) : authoring Z :=
  match value with
  | JNum x =>
      match num_to_Z x with
      | Some n => throw_if (n <? 1) || (MAX_SAFE_INTEGER <? n) with INVALID_REQUEST ;; Ok n
      | None => Err INVALID_REQUEST
      end
  | _ => Err INVALID_REQUEST
  end.
(** [validSemver] is the test of the semver package. *)
Definition requireDraftVersion (validSemver : jstr -> bool) (value : jsval) : authoring jstr :=
  match value with
  | JStr s => throw_if negb (validSemver s) || negb (version_pattern s)
                with authoring_error "INVALID_VERSION" 400 ;; Ok s
  | _ => Err (authoring_error "INVALID_VERSION" 400)
  end.
(** A query parameter that must be given once. *)
Definition requiredQueryValue (values : list jstr) : authoring jstr :=
  match values with
  | [v] => throw_if jeqb v [] with INVALID_REQUEST ;; Ok v
  | _ => Err INVALID_REQUEST
  end.
Definition requiredQueryRevision (values : list jstr) : authoring Z :=
  let? value := requiredQueryValue values in
  throw_if negb (match value with
                 | c :: r => between 49 c 57 && forallb is_digit r
                 | [] => false
                 end) with INVALID_REQUEST ;;
  requireRevision (JNum (stringToNumber value)).

(** ** Lookup *)

Definition findDraft (state : RegistryState) (draftId : jstr) (principal : Principal) (organizationId : jstr)
    : authoring SkillDraft :=
  match find_first (fun candidate => jeqb (dr_id candidate) draftId &&
                      jeqb (dr_organizationId candidate) organizationId &&
                      namespaceReadable principal (dr_name candidate)) (default [] (st_drafts state)) with
  | None => Err unavailableDraft
  | Some draft => Ok draft
  end.
Definition findIdempotency (draft : SkillDraft) (key subject : jstr) : option SkillDraftIdempotencyRecord :=
  find_first (fun record => jeqb (di_key record) key && jeqb (di_subject record) subject)
    (default [] (dr_idempotency draft)).
Definition findPublication (draft : SkillDraft) (key subject : jstr) : option SkillDraftPublicationRecord :=
  find_first (fun p => jeqb (dp_key p) key && jeqb (dp_subject p) subject) (default [] (dr_publications draft)).
(** The draft a caller created under a key. *)
Definition created_by (organizationId subject key : jstr) (candidate : SkillDraft) : bool :=
  jeqb (dr_organizationId candidate) organizationId && jeqb (dr_actor candidate) subject &&
  bool_decide (di_key <$> dr_createIdempotency candidate = Some key).

(** What a response is made of a public draft. *)
Definition DraftResponseEnvelope : Type := wire -> wire.

(** ** Bundles and manifests *)

Section Bundles.
Context {UT : UnicodeTables} {CR : Crypto} {BL : Blobs}.

Definition bundle_files {A E} (r : result BundleValidationError A) (e : E) : result E A :=
  match r with
  | Ok a => Ok a
  | Err _ => Err e
  end.
(** [canonicalizeBundle]: validated, encoded and decoded again. *)
Definition canonicalizeBundle (value : jsval) : bresult (list BundleFile) :=
  let? validated := validateBundle (JObj [(js "format", JStr BUNDLE_FORMAT); (js "files", value)]) in
  let? bytes := encodeBundle (bundle_value validated) in
  let? bundle := decodeBundle bytes in
  Ok (files bundle).
Definition files_value (l : list BundleFile) : jsval := JArr (file_value <$> l).
Definition encode_files (l : list BundleFile) : authoring (list Z) :=
  bundle_files (encodeBundle (bundle_value {| files := l |})) INTERNAL_ERROR.

Definition compact_entry (f : BundleFile) : authoring SkillDraftFileManifestEntry :=
  match atob (content f) with
  | None => Err DRAFT_INVALID
  | Some bytes => Ok {| me_path := path f; me_size := jlen bytes; me_digest := digestBytes bytes;
                        me_executable := match executable f with Some true => Some true | _ => None end |}
  end.
Definition compactManifest (l : list BundleFile) : authoring (list SkillDraftFileManifestEntry) :=
  map_result compact_entry l.
Definition same_entry (f g : SkillDraftFileManifestEntry) : bool :=
  jeqb (me_path f) (me_path g) && (me_size f =? me_size g) && jeqb (me_digest f) (me_digest g) &&
  bool_decide (me_executable f = me_executable g).
Definition sameManifest (left right : list SkillDraftFileManifestEntry) : bool :=
  (length left =? length right)%nat && forallb (fun fg => same_entry fg.1 fg.2) (zip left right).
Definition same_file (f g : BundleFile) : bool :=
  jeqb (path f) (path g) && jeqb (content f) (content g) && bool_decide (executable f = executable g).
Definition sameFiles (left right : list BundleFile) : bool :=
  (length left =? length right)%nat && forallb (fun fg => same_file fg.1 fg.2) (zip left right).

(** [readDraftBundle]: the sealed object of the current revision. *)
Definition readDraftBundle (draft : SkillDraft) : authoring (list BundleFile) :=
  match blob_get (sb_key (dr_artifact draft)) with
  | None => Err (authoring_error "DRAFT_UNAVAILABLE" 503)
  | Some bytes =>
      let actual := digestBytes bytes in
      throw_if negb (jeqb actual (dr_digest draft)) || negb (jeqb actual (sb_digest (dr_artifact draft))) ||
               negb (jlen bytes =? sb_size (dr_artifact draft)) with DIGEST_MISMATCH ;;
      let? bundle := bundle_files (decodeBundle bytes) DRAFT_INVALID in
      let? encoded := encode_files (files bundle) in
      throw_if negb (jeqb (digestBytes encoded) (dr_digest draft)) || negb (sameFiles (files bundle) (dr_files draft))
        with DRAFT_INVALID ;;
      Ok (files bundle)
  end.
(** [readIdempotencyBundle]: the sealed object of an earlier request. *)
Definition readIdempotencyBundle (record : SkillDraftIdempotencyRecord) : authoring (list BundleFile) :=
  match blob_get (sb_key (di_artifact record)) with
  | None => Err (authoring_error "DRAFT_UNAVAILABLE" 503)
  | Some bytes =>
      let actual := digestBytes bytes in
      throw_if negb (jeqb actual (di_digest record)) || negb (jeqb actual (sb_digest (di_artifact record))) ||
               negb (jlen bytes =? sb_size (di_artifact record)) with DIGEST_MISMATCH ;;
      let? bundle := bundle_files (decodeBundle bytes) DRAFT_INVALID in
      let? manifest := compactManifest (files bundle) in
      throw_if negb (sameManifest manifest (di_manifest record)) with DRAFT_INVALID ;;
      Ok (files bundle)
  end.
Definition putVerifiedDraftBlob (bytes : list Z) (digest : jstr) : authoring StoredBlob :=
  match blob_put bytes with
  | None => Err (authoring_error "STORAGE_UNAVAILABLE" 503)
  | Some stored =>
      throw_if negb (jeqb (sb_digest stored) digest) || negb (sb_size stored =? jlen bytes) ||
               jeqb (sb_key stored) [] with DIGEST_MISMATCH ;;
      Ok stored
  end.
Definition digestText (value : wire) : jstr := digestBytes (textEncode (json_text value)).

(** A draft seen at a recorded revision. *)
Definition with_content (draft : SkillDraft) (revision : Z) (digest : jstr) (artifact : StoredBlob)
    (fs : list BundleFile) (updatedAt : jstr) : SkillDraft := {|
  dr_id := dr_id draft; dr_organizationId := dr_organizationId draft; dr_origin := dr_origin draft;
  dr_name := dr_name draft; dr_skillName := dr_skillName draft; dr_description := dr_description draft;
  dr_baseResourceId := dr_baseResourceId draft; dr_baseDigest := dr_baseDigest draft;
  dr_revision := revision; dr_digest := digest; dr_artifact := artifact; dr_files := fs;
  dr_status := dr_status draft; dr_actor := dr_actor draft; dr_createdAt := dr_createdAt draft;
  dr_updatedAt := updatedAt; dr_createIdempotency := dr_createIdempotency draft;
  dr_idempotency := dr_idempotency draft; dr_publications := dr_publications draft |}.
Definition draftFromIdempotency (draft : SkillDraft) (record : SkillDraftIdempotencyRecord) : authoring SkillDraft :=
  let? fs := readIdempotencyBundle record in
  Ok (with_content draft (di_revision record) (di_digest record) (di_artifact record) fs (di_updatedAt record)).
Definition draftFromCreateRecord (draft : SkillDraft) : authoring SkillDraft :=
  match dr_createIdempotency draft with
  | None => Ok draft
  | Some record => draftFromIdempotency draft record
  end.

(** ** File entries of a request *)

Inductive DraftFileInput : Type :=
| InlineFile (file : BundleFile)
| FileReference (target : jstr) (sourcePath : option jstr) (digest : jstr).
Definition isDraftFileReference (f : DraftFileInput) : bool :=
  match f with
  | InlineFile _ => false
  | FileReference _ _ _ => true
  end.
Definition hasOwnProperty (members : list (jstr * jsval)) (key : string) : bool :=
  existsb (fun kv => jeqb kv.1 (js key)) members.
Definition only_keys (members : list (jstr * jsval)) (keys : list string) : bool :=
  forallb (fun kv => existsb (fun k => jeqb kv.1 (js k)) keys) members.
(** A path alone, checked as the path of an empty file. *)
Definition valid_path (p : jstr) : bool :=
  is_ok (validateBundle (JObj [(js "format", JStr BUNDLE_FORMAT);
                               (js "files", JArr [JObj [(js "path", JStr p); (js "content", JStr [])]])])).
Definition parse_reference (members : list (jstr * jsval)) (p : jstr) : authoring DraftFileInput :=
  throw_if negb (only_keys members ["path"; "sourcePath"; "digest"]%string) with INVALID_BUNDLE ;;
  throw_if negb (valid_path p) with INVALID_BUNDLE ;;
  let? source := match obj_get members (js "sourcePath") with
                 | JUndef => Ok None
                 | JStr s => throw_if negb (valid_path s) with INVALID_BUNDLE ;; Ok (Some s)
                 | _ => Err INVALID_BUNDLE
                 end in
  let? digest := requireDigest (obj_get members (js "digest")) in
  Ok (FileReference p source digest).
Definition parse_inline (members : list (jstr * jsval)) (p : jstr) : authoring DraftFileInput :=
  throw_if negb (only_keys members ["path"; "content"; "executable"]%string) with INVALID_BUNDLE ;;
  match obj_get members (js "content") with
  | JStr c =>
      match obj_get members (js "executable") with
      | JUndef | JBool false => Ok (InlineFile {| path := p; content := c; executable := None |})
      | JBool true => Ok (InlineFile {| path := p; content := c; executable := Some true |})
      | _ => Err INVALID_BUNDLE
      end
  | _ => Err INVALID_BUNDLE
  end.
Definition parse_entry (entry : jsval) : authoring DraftFileInput :=
  match entry with
  | JObj members =>
      match obj_get members (js "path") with
      | JStr p =>
          let hasContent := hasOwnProperty members "content" in
          let hasDigest := hasOwnProperty members "digest" in
          throw_if Bool.eqb hasContent hasDigest with INVALID_BUNDLE ;;
          if hasDigest then parse_reference members p else parse_inline members p
      | _ => Err INVALID_BUNDLE
      end
  | _ => Err INVALID_BUNDLE
  end.
Definition parseDraftFileInputs (value : list jsval) : authoring (list DraftFileInput) :=
  map_result parse_entry value.

Definition input_path (f : DraftFileInput) : jstr :=
  match f with
  | InlineFile file => path file
  | FileReference target _ _ => target
  end.
Definition input_wire (f : DraftFileInput) : wire :=
  match f with
  | FileReference target source digest =>
      WObj ([(js "path", WStr target)] ++
            match source with Some s => [(js "sourcePath", WStr s)] | None => [] end ++
            [(js "digest", WStr digest)])
  | InlineFile file =>
      WObj ([(js "path", WStr (path file)); (js "content", WStr (content file))] ++
            match executable file with Some true => [(js "executable", WBool true)] | _ => [] end)
  end.
Definition canonicalDraftFileInputs (l : list DraftFileInput) : wire :=
  WArr (input_wire <$> js_sort (fun f g => jcompare (input_path f) (input_path g)) l).

(** [new Map(files.map(...))]: the last file of a path wins. *)
Definition file_at (current : list BundleFile) (p : jstr) : option BundleFile :=
  find_first (fun f => jeqb (path f) p) (reverse current).
Definition resolve_input (current : list BundleFile) (f : DraftFileInput) : authoring BundleFile :=
  match f with
  | InlineFile file => Ok file
  | FileReference target source digest =>
      let currentPath := default target source in
      match file_at current currentPath with
      | None => Err (draftDigestConflict None (Some currentPath))
      | Some file =>
          match atob (content file) with
          | None => Err DRAFT_INVALID
          | Some bytes =>
              throw_if negb (jeqb (digestBytes bytes) digest)
                with draftDigestConflict None (Some currentPath) ;;
              Ok {| path := target; content := content file;
                    executable := match executable file with Some true => Some true | _ => None end |}
          end
      end
  end.
Definition resolveDraftFileInputs (current : list BundleFile) (l : list DraftFileInput)
    : authoring (list BundleFile) :=
  let? resolved := map_result (resolve_input current) l in
  bundle_files (canonicalizeBundle (files_value resolved)) INVALID_BUNDLE.

(** ** The public form *)

Definition wire_option {A} (key : string) (f : A -> wire) (o : option A) : list (jstr * wire) :=
  match o with
  | Some a => [(js key, f a)]
  | None => []
  end.
Definition entry_wire (e : SkillDraftFileManifestEntry) : wire :=
  WObj ([(js "path", WStr (me_path e)); (js "size", WInt (me_size e)); (js "digest", WStr (me_digest e))] ++
        wire_option "executable" WBool (me_executable e)).
Definition publicDraftPublication (p : SkillDraftPublicationRecord) : wire :=
  WObj [(js "revision", WInt (dp_revision p)); (js "digest", WStr (dp_digest p));
        (js "version", WStr (dp_version p)); (js "resourceId", WStr (dp_resourceId p));
        (js "jobId", WStr (dp_jobId p)); (js "createdAt", WStr (dp_createdAt p))].
(** [l.slice(-n)]. *)
Definition last_n {A} (n : nat) (l : list A) : list A := drop (length l - n) l.
Definition publications_wire (draft : SkillDraft) : list (jstr * wire) :=
  wire_option "publications" (fun l => WArr (publicDraftPublication <$> last_n MAX_PUBLICATION_HISTORY l))
    (dr_publications draft).
Definition publicDraftWithManifest (draft : SkillDraft) (manifest : list SkillDraftFileManifestEntry) : wire :=
  WObj ([(js "id", WStr (dr_id draft)); (js "origin", WStr (enum_name (dr_origin draft)));
         (js "name", WStr (dr_name draft)); (js "skillName", WStr (dr_skillName draft));
         (js "description", WStr (dr_description draft))] ++
        wire_option "baseResourceId" WStr (dr_baseResourceId draft) ++
        wire_option "baseDigest" WStr (dr_baseDigest draft) ++
        [(js "revision", WInt (dr_revision draft)); (js "digest", WStr (dr_digest draft));
         (js "size", WInt (sb_size (dr_artifact draft))); (js "files", WArr (entry_wire <$> manifest));
         (js "status", WStr (enum_name (dr_status draft))); (js "actor", WStr (dr_actor draft));
         (js "createdAt", WStr (dr_createdAt draft)); (js "updatedAt", WStr (dr_updatedAt draft))] ++
        publications_wire draft).
Definition publicDraftStateFingerprint (draft : SkillDraft) : jstr :=
  json_text (WObj (
    [(js "id", WStr (dr_id draft)); (js "origin", WStr (enum_name (dr_origin draft)));
     (js "name", WStr (dr_name draft)); (js "skillName", WStr (dr_skillName draft));
     (js "description", WStr (dr_description draft))] ++
    wire_option "baseResourceId" WStr (dr_baseResourceId draft) ++
    wire_option "baseDigest" WStr (dr_baseDigest draft) ++
    [(js "revision", WInt (dr_revision draft)); (js "digest", WStr (dr_digest draft));
     (js "status", WStr (enum_name (dr_status draft))); (js "actor", WStr (dr_actor draft));
     (js "createdAt", WStr (dr_createdAt draft)); (js "updatedAt", WStr (dr_updatedAt draft))] ++
    publications_wire draft)).

(** The record of the current revision carries its manifest. *)
Definition current_record (draft : SkillDraft) : option SkillDraftIdempotencyRecord :=
  find_first (fun r => (di_revision r =? dr_revision draft) && jeqb (di_digest r) (dr_digest draft))
    (default [] (dr_idempotency draft) ++ match dr_createIdempotency draft with
                                          | Some r => [r]
                                          | None => []
                                          end).
Definition public_entry (e : SkillDraftFileManifestEntry) : SkillDraftFileManifestEntry :=
  {| me_path := me_path e; me_size := me_size e; me_digest := me_digest e;
     me_executable := match me_executable e with Some true => Some true | _ => None end |}.
Definition publicDraftManifest (draft : SkillDraft) (fs : list BundleFile)
    : authoring (list SkillDraftFileManifestEntry) :=
  match current_record draft with
  | Some record => Ok (public_entry <$> di_manifest record)
  | None => compactManifest fs
  end.
Definition toPublicDraft (draft : SkillDraft) (fs : list BundleFile) : authoring wire :=
  let? manifest := publicDraftManifest draft fs in
  Ok (publicDraftWithManifest draft manifest).

Definition response_bytes (value : wire) : Z := jlen (textEncode (json_text value)).
Definition assertDraftResponseSize (value : wire) : authoring unit :=
  throw_if MAX_PUBLIC_DRAFT_RESPONSE_BYTES <? response_bytes value
    with {| au_code := js "DRAFT_RESPONSE_TOO_LARGE"; au_status := 413;
            au_details := Some [(js "maxBytes", WInt MAX_PUBLIC_DRAFT_RESPONSE_BYTES)] |} ;;
  Ok tt.
Definition draft_envelope (publicDraft : wire) : wire := WObj [(js "draft", publicDraft)].
Definition draft_result_envelope (idempotent : bool) (publicDraft : wire) : wire :=
  WObj [(js "draft", publicDraft); (js "idempotent", WBool idempotent)].
Definition assertDraftEnvelopeFits (draft : SkillDraft) (fs : list BundleFile) (envelope : DraftResponseEnvelope)
    : authoring unit :=
  let? publicDraft := toPublicDraft draft fs in
  assertDraftResponseSize (envelope publicDraft).
Definition assertDraftEnvelopeSizeWithManifest (draft : SkillDraft) (manifest : list SkillDraftFileManifestEntry)
    (envelope : DraftResponseEnvelope) : authoring unit :=
  assertDraftResponseSize (envelope (publicDraftWithManifest draft manifest)).
Definition responsePreflightArtifact (digest : jstr) (size : Z) : StoredBlob :=
  {| sb_key := js "__draft-response-preflight__"; sb_digest := digest; sb_size := size |}.
End Bundles.

(** ** Base releases *)

Definition sameReadableBase (current expected : SkillVersion) (state : RegistryState) (principal : Principal)
    (digest : jstr) : bool :=
  jeqb (sk_id current) (sk_id expected) && jeqb (sk_organizationId current) (sk_organizationId expected) &&
  jeqb (sb_digest (sk_artifact current)) digest && bool_decide (sk_state current = Approved) &&
  jeqb (sk_policyRevision current) (po_revision (st_policy state)) &&
  namespaceReadable principal (sk_name current).
