(* ===== verification/SkillBuilder.v ===== *)
(** * The skill builder: its messages

    packages/skill-builder/src/index.ts: the checks on what passes between the
    registry and the external builder agent - the binding of a draft revision,
    identifiers, prompts, the acceptance of a prompt, patch operations and what
    the registry answers to a proposal.  The HTTP client is not modelled. *)

From Stdlib Require Import ZArith Lia.
From stdpp Require Import base list strings sets.
From S2P Require Import Prelude Js Json Bundle Contracts Numbers Web Access UploadReviews.

Local Open Scope Z_scope.

(** ** Limits *)

Definition MAX_DRAFT_ID_LENGTH : Z := 256.
Definition MAX_SESSION_ID_LENGTH : Z := 256.
Definition MAX_FILE_PATH_LENGTH : Z := 4096.
Definition MAX_CONTEXT_FILES : nat := 128.
Definition MAX_CONTEXT_FILE_BYTES : Z := 10 * 1024 * 1024.
Definition MAX_MODEL_FILE_BYTES : Z := 64 * 1024.
Definition MAX_PATCH_OPERATIONS : nat := 40.
Definition MAX_PATCH_CONTENT_BYTES : Z := 64 * 1024.
Definition MAX_PATCH_TOTAL_BYTES : Z := 256 * 1024.
Definition MAX_BUILDER_MESSAGE_BYTES : Z := 64 * 1024.
Definition MAX_BUILDER_REQUEST_ID_LENGTH : Z := 256.

(** Every check throws the same error; the messages are left out. *)
Inductive SkillBuilderValidationError : Type := InvalidInput.
Abbreviation checked := (result SkillBuilderValidationError).

(** ** Scalars *)

Definition utf8Bytes (value : jstr) : Z := jlen (textEncode value).
Definition boundedIdentifier (value : jsval) (maximum : Z) : checked jstr :=
  match value with
  | JStr s =>
      let result := trim s in
      throw_if (jlen result =? 0) || (maximum <? jlen result) || CONTROL_CHARACTER result with InvalidInput ;;
      Ok result
  | _ => Err InvalidInput
  end.
Definition boundedInteger (value : jsval) (maximum : Z) : checked Z :=
  match value with
  | JNum x =>
      match num_to_Z x with
      | Some n => throw_if (n <? 0) || (maximum <? n) with InvalidInput ;; Ok n
      | None => Err InvalidInput
      end
  | _ => Err InvalidInput
  end.
Definition boundedRevision (value : jsval) : checked Z := boundedInteger value 1000000000.
Definition boundedFileSize (value : jsval) : checked Z := boundedInteger value MAX_CONTEXT_FILE_BYTES.
Definition assertBuilderDigest (value : jsval) : checked jstr :=
  match value with
  | JStr s => throw_if negb (isDigest s) with InvalidInput ;; Ok s
  | _ => Err InvalidInput
  end.
(** The class of white space, controls, slash and backslash. *)
Definition opaque_forbidden (c : Z) : bool := is_js_space c || is_control c || (c =? 47) || (c =? 92).
Definition validateBuilderOpaqueId (value : jsval) (maximum : Z) : checked jstr :=
  match value with
  | JStr s =>
      throw_if (jlen s =? 0) || (maximum <? jlen s) || existsb opaque_forbidden s || hasLoneSurrogate s
        with InvalidInput ;;
      Ok s
  | _ => Err InvalidInput
  end.
Definition validateBuilderRequestId (value : jsval) : checked jstr :=
  validateBuilderOpaqueId value MAX_BUILDER_REQUEST_ID_LENGTH.
Definition validateBuilderMessage (value : jsval) : checked jstr :=
  match value with
  | JStr s =>
      throw_if (jlen (trim s) =? 0) || (MAX_BUILDER_MESSAGE_BYTES <? utf8Bytes s) || hasLoneSurrogate s ||
               UNSUPPORTED_TEXT_CONTROL_CHARACTER s with InvalidInput ;;
      Ok s
  | _ => Err InvalidInput
  end.

(** ** Bindings *)

Record DraftBinding : Type := {
  db_draftId : jstr;
  db_revision : Z;
  db_digest : jstr;
}.
#[export] Instance DraftBinding_eq_dec : EqDecision DraftBinding.
Proof. solve_decision. Defined.
Definition validateDraftBinding (value : jsval) : checked DraftBinding :=
  throw_if negb (isRecord value) with InvalidInput ;;
  let? draftId := boundedIdentifier (field value "draftId") MAX_DRAFT_ID_LENGTH in
  let? revision := boundedRevision (field value "revision") in
  let? digest := assertBuilderDigest (field value "digest") in
  Ok {| db_draftId := draftId; db_revision := revision; db_digest := digest |}.

Section WithUnicode.
Context {UT : UnicodeTables}.

(** ** Paths and contents *)

Definition builder_segment_unsafe (segment : jstr) : bool :=
  unsafe_segment segment || bool_decide (toLowerCase segment ∈ RESERVED_AGENT_SEGMENTS).
Definition validateSafePath (value : jsval) : checked jstr :=
  match value with
  | JStr p =>
      throw_if (jlen p =? 0) || (MAX_FILE_PATH_LENGTH <? jlen p) with InvalidInput ;;
      throw_if hasLoneSurrogate p || negb (jeqb p (normalizeNFC p)) || startsWith [47] p || endsWith [47] p ||
               includes [92] p || includes [58] p || includes [47; 47] p || CONTROL_CHARACTER p with InvalidInput ;;
      throw_if existsb (fun segment => builder_segment_unsafe segment || (255 <? utf8Bytes segment)) (split 47 p)
        with InvalidInput ;;
      Ok p
  | _ => Err InvalidInput
  end.
Definition validatePatchContent (value : jsval) : checked jstr :=
  match value with
  | JStr s =>
      throw_if hasLoneSurrogate s || (MAX_PATCH_CONTENT_BYTES <? utf8Bytes s) with InvalidInput ;;
      Ok s
  | _ => Err InvalidInput
  end.
(** [value === undefined ? undefined : validateSafePath(value)]. *)
Definition optionalPath (value : jsval) : checked (option jstr) :=
  match value with
  | JUndef => Ok None
  | _ => let? p := validateSafePath value in Ok (Some p)
  end.

(** ** Starting a session *)

Record BuilderSessionStartRequest : Type := {
  ss_binding : DraftBinding;
  ss_sessionKey : jstr;
  ss_registrySessionId : jstr;
  ss_message : jstr;
  ss_requestId : jstr;
  ss_requestDigest : jstr;
  ss_selectedPath : option jstr;
}.
Definition validateBuilderSessionStartRequest (value : jsval) : checked BuilderSessionStartRequest :=
  throw_if negb (isRecord value) with InvalidInput ;;
  let? binding := validateDraftBinding value in
  let? sessionKey := validateBuilderOpaqueId (field value "sessionKey") MAX_SESSION_ID_LENGTH in
  let? registrySessionId := validateBuilderOpaqueId (field value "registrySessionId") MAX_SESSION_ID_LENGTH in
  let? message := validateBuilderMessage (field value "message") in
  let? requestId := validateBuilderRequestId (field value "requestId") in
  let? requestDigest := assertBuilderDigest (field value "requestDigest") in
  let? selectedPath := optionalPath (field value "selectedPath") in
  Ok {| ss_binding := binding; ss_sessionKey := sessionKey; ss_registrySessionId := registrySessionId;
        ss_message := message; ss_requestId := requestId; ss_requestDigest := requestDigest;
        ss_selectedPath := selectedPath |}.

Record BuilderSessionAcceptanceExpectation : Type := {
  ex_sessionKey : jstr;
  ex_registrySessionId : jstr;
  ex_binding : DraftBinding;
  ex_requestId : jstr;
  ex_requestDigest : jstr;
  ex_selectedPath : option jstr;
}.
#[export] Instance expectation_eq_dec : EqDecision BuilderSessionAcceptanceExpectation.
Proof. solve_decision. Defined.
(** The agent's session id, and what it says it accepted. *)
Record BuilderSessionAcceptance : Type := {
  ac_sessionId : jstr;
  ac_accepted : BuilderSessionAcceptanceExpectation;
}.
Definition validateBuilderSessionAcceptance (value : jsval) (expected : BuilderSessionAcceptanceExpectation)
    : checked BuilderSessionAcceptance :=
  throw_if negb (isRecord value) ||
           match field value "status" with JStr s => negb (jeqb s (js "accepted")) | _ => true end with InvalidInput ;;
  let? sessionId := validateBuilderOpaqueId (field value "sessionId") MAX_SESSION_ID_LENGTH in
  let? sessionKey := validateBuilderOpaqueId (field value "sessionKey") MAX_SESSION_ID_LENGTH in
  let? registrySessionId := validateBuilderOpaqueId (field value "registrySessionId") MAX_SESSION_ID_LENGTH in
  let? draftId := boundedIdentifier (field value "draftId") MAX_DRAFT_ID_LENGTH in
  let? revision := boundedRevision (field value "revision") in
  let? digest := assertBuilderDigest (field value "digest") in
  let? requestId := validateBuilderRequestId (field value "requestId") in
  let? requestDigest := assertBuilderDigest (field value "requestDigest") in
  let? selectedPath := optionalPath (field value "selectedPath") in
  let accepted := {|
    ex_sessionKey := sessionKey; ex_registrySessionId := registrySessionId;
    ex_binding := {| db_draftId := draftId; db_revision := revision; db_digest := digest |};
    ex_requestId := requestId; ex_requestDigest := requestDigest; ex_selectedPath := selectedPath |} in
  throw_if negb (bool_decide (accepted = expected)) with InvalidInput ;;
  Ok {| ac_sessionId := sessionId; ac_accepted := accepted |}.

(** ** Patch operations *)

Inductive PatchOperationKind : Type := OpAdd | OpEdit | OpRename | OpDelete.
Definition patch_kind (value : jsval) : option PatchOperationKind :=
  match value with
  | JStr s =>
      if jeqb s (js "add") then Some OpAdd else if jeqb s (js "edit") then Some OpEdit
      else if jeqb s (js "rename") then Some OpRename else if jeqb s (js "delete") then Some OpDelete else None
  | _ => None
  end.
(** One operation, and what it adds to the touched paths and the total. *)
Definition validatePatchOperation (entry : jsval) (touched : list jstr) (total : Z)
    : checked (SkillBuilderPatchOperation * list jstr * Z) :=
  throw_if negb (isRecord entry) with InvalidInput ;;
  match patch_kind (field entry "op") with
  | None => Err InvalidInput
  | Some op =>
      let? p := validateSafePath (field entry "path") in
      let key := pathCollisionKey p in
      throw_if bool_decide (key ∈ touched) with InvalidInput ;;
      let touched := touched ++ [key] in
      match op with
      | OpRename =>
          let? newPath := validateSafePath (field entry "newPath") in
          let newKey := pathCollisionKey newPath in
          throw_if jeqb newKey key with InvalidInput ;;
          throw_if bool_decide (newKey ∈ touched) with InvalidInput ;;
          Ok (PatchRename p newPath, touched ++ [newKey], total)
      | OpDelete => Ok (PatchDelete p, touched, total)
      | OpAdd | OpEdit =>
          let? content := validatePatchContent (field entry "content") in
          let total := total + utf8Bytes content in
          throw_if MAX_PATCH_TOTAL_BYTES <? total with InvalidInput ;;
          Ok (PatchWrite (match op with OpAdd => true | _ => false end) p content, touched, total)
      end
  end.
Fixpoint validate_patch_operations (l : list jsval) (touched : list jstr) (total : Z)
    : checked (list SkillBuilderPatchOperation) :=
  match l with
  | [] => Ok []
  | entry :: l =>
      let? (op, touched, total) := validatePatchOperation entry touched total in
      let? ops := validate_patch_operations l touched total in
      Ok (op :: ops)
  end.
Definition validatePatchOperations (value : jsval) : checked (list SkillBuilderPatchOperation) :=
  match value with
  | JArr l =>
      throw_if (length l =? 0)%nat || (MAX_PATCH_OPERATIONS <? length l)%nat with InvalidInput ;;
      validate_patch_operations l [] 0
  | _ => Err InvalidInput
  end.

Record PatchOperationSummary : Type := {
  ps_op : PatchOperationKind;
  ps_path : jstr;
  ps_newPath : option jstr;
  ps_contentBytes : option Z;
}.
Definition summarize (operation : SkillBuilderPatchOperation) : PatchOperationSummary :=
  match operation with
  | PatchWrite add p content =>
      {| ps_op := if add : bool then OpAdd else OpEdit; ps_path := p; ps_newPath := None;
         ps_contentBytes := Some (utf8Bytes content) |}
  | PatchRename p newPath =>
      {| ps_op := OpRename; ps_path := p; ps_newPath := Some newPath; ps_contentBytes := None |}
  | PatchDelete p => {| ps_op := OpDelete; ps_path := p; ps_newPath := None; ps_contentBytes := None |}
  end.
Definition summarizePatchOperations (l : list SkillBuilderPatchOperation) : list PatchOperationSummary :=
  summarize <$> l.
Definition createProposalIdempotencyKey (sessionId callId : jstr) : checked jstr :=
  let? session := validateBuilderOpaqueId (JStr sessionId) MAX_SESSION_ID_LENGTH in
  let? call := validateBuilderOpaqueId (JStr callId) MAX_SESSION_ID_LENGTH in
  Ok (js "skill-builder:" ++ session ++ js ":" ++ call).
End WithUnicode.
