(* ===== verification/DraftHandlers.v ===== *)
(** * Drafts: the handlers

    The routes of packages/authoring/src/drafts.ts that create, read, write and
    publish drafts.  As in Registry.v a handler is a function of the document
    it read before its transaction and of the document at commit.  It returns
    the document it leaves and its answer: an error before or in the
    transaction leaves the document as it is, while the last steps, reading the
    sealed object of a replayed request and the size of the response, can still
    fail after the commit.

    The advisory review requested after a save goes to an injected service and is
    left out. *)

From Stdlib Require Import ZArith Lia.
From stdpp Require Import base list strings sets.
From S2P Require Import Prelude Js Dates Json Wire Bundle Frontmatter Contracts Numbers Web Access Names.
From S2P Require Import PolicyEval State Authoring Drafts Registry.

Local Open Scope Z_scope.

(** A response: its status and its body. *)
Record DraftResponse : Type := {
  rp_status : Z;
  rp_body : wire;
}.
(** The document after a request, and its answer. *)
Abbreviation handled A := (RegistryState * authoring A)%type.
Definition uncommitted_as {A} (current : RegistryState) (r : authoring (RegistryState * authoring A)) : handled A :=
  match r with
  | Ok (s, answer) => (s, answer)
  | Err e => (current, Err e)
  end.

Record DraftIds : Type := {
  ids_draftId : jstr;
  ids_skillId : jstr;
  ids_jobId : jstr;
  ids_auditId : jstr;
}.

Section Handlers.
Context {DR : DateRuntime} {UT : UnicodeTables} {CR : Crypto} {BL : Blobs}.
Context (parseDocument : jstr -> option ydocument).
Context (organizationId : jstr).
Context (releaseAdmission : RegistryState -> SkillVersion -> Principal -> option bool).
Context (releaseAdmissionAtCommit : option (RegistryState -> SkillVersion -> Principal -> bool)).
Context (validSemver : jstr -> bool).

(** A spread into an object literal: a member given before keeps its place. *)
Definition put_member (l : list (jstr * jsval)) (kv : jstr * jsval) : list (jstr * jsval) :=
  if existsb (fun m => jeqb m.1 kv.1) l then (fun m => if jeqb m.1 kv.1 then kv else m) <$> l else l ++ [kv].
Definition option_member (key : string) (o : option jstr) : jstr * jsval :=
  (js key, match o with Some s => JStr s | None => JUndef end).
Definition draft_audit (principal : Principal) (auditId action : jstr) (draft : SkillDraft)
    (extra : list (jstr * jsval)) (createdAt : jstr) : AuditEvent := {|
  ae_id := auditId; ae_organizationId := organizationId; ae_subject := pr_subject principal;
  ae_action := action; ae_resourceId := Some (dr_id draft); ae_createdAt := createdAt;
  ae_details := fold_left put_member extra
                  [option_member "baseResourceId" (dr_baseResourceId draft);
                   option_member "baseDigest" (dr_baseDigest draft);
                   (js "revision", JNum (num_of_Z (dr_revision draft))); (js "digest", JStr (dr_digest draft))] |}.
Definition draft_response (status : Z) (body : wire) : authoring DraftResponse :=
  let? _ := assertDraftResponseSize body in
  Ok {| rp_status := status; rp_body := body |}.

(** ** Creating a draft *)

(** The answer to a repeated creation. *)
Definition replay_create (existing : SkillDraft) (requestDigest : jstr) (principal : Principal)
    : authoring DraftResponse :=
  throw_if negb (namespaceReadable principal (dr_name existing)) with unavailableDraft ;;
  throw_if negb (bool_decide (di_requestDigest <$> dr_createIdempotency existing = Some requestDigest))
    with idempotencyConflict ;;
  let? draft := draftFromCreateRecord existing in
  let? publicDraft := toPublicDraft draft (dr_files draft) in
  draft_response 200 (draft_result_envelope true publicDraft).
Definition create_record (key subject requestDigest digest : jstr) (artifact : StoredBlob)
    (manifest : list SkillDraftFileManifestEntry) (now : jstr) (revision : Z) : SkillDraftIdempotencyRecord := {|
  di_key := key; di_subject := subject; di_requestDigest := requestDigest; di_revision := revision;
  di_digest := digest; di_artifact := artifact; di_manifest := manifest; di_updatedAt := now |}.
(** The literal both kinds of creation build, for a stored artifact. *)
Record NewDraft : Type := {
  nd_origin : SkillDraftOrigin;
  nd_name : jstr;
  nd_skillName : jstr;
  nd_description : jstr;
  nd_base : option (jstr * jstr); (* the id and digest of the base release *)
  nd_digest : jstr;
  nd_files : list BundleFile;
  nd_manifest : list SkillDraftFileManifestEntry;
  nd_requestDigest : jstr;
}.
Definition new_draft (input : NewDraft) (key : jstr) (principal : Principal) (ids : DraftIds) (now : Z)
    (artifact : StoredBlob) : SkillDraft := {|
  dr_id := ids_draftId ids; dr_organizationId := organizationId; dr_origin := nd_origin input;
  dr_name := nd_name input; dr_skillName := nd_skillName input; dr_description := nd_description input;
  dr_baseResourceId := fst <$> nd_base input; dr_baseDigest := snd <$> nd_base input;
  dr_revision := 1; dr_digest := nd_digest input; dr_artifact := artifact; dr_files := nd_files input;
  dr_status := DraftOpen; dr_actor := pr_subject principal;
  dr_createdAt := toISOString now; dr_updatedAt := toISOString now;
  dr_createIdempotency := Some (create_record key (pr_subject principal) (nd_requestDigest input) (nd_digest input)
                                  artifact (nd_manifest input) (toISOString now) 1);
  dr_idempotency := Some []; dr_publications := None |}.
(** The transaction both kinds of creation end with; [extra] are the details of
    the audit event and [base] the check of the base release at commit. *)
Definition create_commit (draft : SkillDraft) (key requestDigest auditId : jstr) (extra : list (jstr * jsval))
    (base : RegistryState -> bool) (principal : Principal) (current : RegistryState)
    : authoring (RegistryState * (SkillDraft * bool)) :=
  let drafts := default [] (st_drafts current) in
  match find_first (created_by organizationId (pr_subject principal) key) drafts with
  | Some existing =>
      throw_if negb (namespaceReadable principal (dr_name existing)) with unavailableDraft ;;
      throw_if negb (bool_decide (di_requestDigest <$> dr_createIdempotency existing = Some requestDigest))
        with idempotencyConflict ;;
      Ok (with_st_drafts (Some drafts) current, (existing, true))
  | None =>
      throw_if negb (base current) with unavailableDraft ;;
      Ok (appendAudit (draft_audit principal auditId (js "draft.create") draft extra (dr_updatedAt draft))
            (with_st_drafts (Some (drafts ++ [draft])) current), (draft, false))
  end.
Definition create_answer (result : SkillDraft * bool) : authoring DraftResponse :=
  let (draft, idempotent) := result in
  let? responseDraft := if idempotent : bool then draftFromCreateRecord draft else Ok draft in
  let? publicDraft := toPublicDraft responseDraft (dr_files responseDraft) in
  draft_response (if idempotent : bool then 200 else 201) (draft_envelope publicDraft).

(** What follows in both: the size of the answer, the upload, the transaction. *)
Definition create_draft (input : NewDraft) (bytes : list Z) (key : jstr) (extra : list (jstr * jsval))
    (base : RegistryState -> bool) (principal : Principal) (ids : DraftIds) (now : Z) (current : RegistryState)
    : authoring (RegistryState * authoring DraftResponse) :=
  let draft := new_draft input key principal ids now in
  let? _ := assertDraftEnvelopeFits (draft (responsePreflightArtifact (nd_digest input) (jlen bytes)))
              (nd_files input) draft_envelope in
  let? stored := putVerifiedDraftBlob bytes (nd_digest input) in
  let? (state, result) := create_commit (draft stored) key (nd_requestDigest input) (ids_auditId ids) extra base
                            principal current in
  Ok (state, create_answer result).

(** [createDraft]: a draft of an approved release.  [existingState] is read
    for the replay, [baseState] for the release. *)
Definition createDraft (body : jsval) (header : option jstr) (resourceId : jstr) (principal : Principal)
    (ids : DraftIds) (now : Z) (existingState baseState current : RegistryState) : handled DraftResponse :=
  uncommitted_as current (
    let? key := requireIdempotencyKey header in
    let? baseDigest := requireDigest (field body "baseDigest") in
    let requestDigest := digestText (WObj [(js "resourceId", WStr resourceId); (js "baseDigest", WStr baseDigest)]) in
    match find_first (created_by organizationId (pr_subject principal) key) (default [] (st_drafts existingState)) with
    | Some existing => Ok (current, replay_create existing requestDigest principal)
    | None =>
        let? snapshot := readAuthorizedReleaseSnapshot organizationId releaseAdmission baseState principal resourceId in
        let release := as_release snapshot in
        throw_if negb (jeqb (sb_digest (sk_artifact release)) baseDigest) with DIGEST_MISMATCH ;;
        let? manifest := compactManifest (as_files snapshot) in
        create_draft
          {| nd_origin := OriginRelease; nd_name := sk_name release; nd_skillName := sk_skillName release;
             nd_description := sk_description release; nd_base := Some (sk_id release, baseDigest);
             nd_digest := sb_digest (sk_artifact release); nd_files := as_files snapshot;
             nd_manifest := manifest; nd_requestDigest := requestDigest |}
          (as_bytes snapshot) key []
          (fun state => match find_first (fun c => jeqb (sk_id c) resourceId) (st_skills state) with
                        | None => false
                        | Some base => sameReadableBase base release state principal baseDigest
                        end) principal ids now current
    end).

Definition draftMetadataOrEmpty (fs : list BundleFile) : jstr * jstr :=
  match parseSkillMetadata parseDocument (bundle_value {| files := fs |}) with
  | Ok metadata => (skillName metadata, description metadata)
  | Err _ => ([], [])
  end.
(** [createUploadDraft]: a draft of uploaded files. *)
Definition createUploadDraft (body : jsval) (header : option jstr) (principal : Principal) (ids : DraftIds)
    (now : Z) (existingState current : RegistryState) : handled DraftResponse :=
  uncommitted_as current (
    let? key := requireIdempotencyKey header in
    let? name := requireDraftName (field body "name") in
    match field body "files" with
    | JArr value =>
        let? fs := bundle_files (canonicalizeBundle (JArr value)) INVALID_BUNDLE in
        throw_if negb (namespaceReadable principal name) with unavailableDraft ;;
        let? encoded := encode_files fs in
        let digest := digestBytes encoded in
        let requestDigest := digestText (WObj [(js "origin", WStr (js "upload")); (js "name", WStr name);
                                               (js "digest", WStr digest)]) in
        match find_first (created_by organizationId (pr_subject principal) key) (default [] (st_drafts existingState)) with
        | Some existing => Ok (current, replay_create existing requestDigest principal)
        | None =>
            let metadata := draftMetadataOrEmpty fs in
            let? manifest := compactManifest fs in
            create_draft
              {| nd_origin := OriginUpload; nd_name := name; nd_skillName := metadata.1;
                 nd_description := metadata.2; nd_base := None; nd_digest := digest; nd_files := fs;
                 nd_manifest := manifest; nd_requestDigest := requestDigest |}
              encoded key [(js "origin", JStr (js "upload"))] (fun _ => true) principal ids now current
        end
    | _ => Err INVALID_REQUEST
    end).

(** ** Reading *)

Definition getDraft (draftId : jstr) (principal : Principal) (state : RegistryState) : authoring DraftResponse :=
  let? draft := findDraft state draftId principal organizationId in
  let? fs := readDraftBundle draft in
  let? publicDraft := toPublicDraft draft fs in
  draft_response 200 (draft_envelope publicDraft).
Record SkillDraftFileView : Type := {
  df_path : jstr;
  df_size : Z;
  df_digest : jstr;
  df_previewState : ReleaseFilePreviewState;
  df_executable : bool;
  df_content : option jstr;
}.
(** [getDraftFile]: one file of exactly the named revision. *)
Definition getDraftFile (paths revisions digests : list jstr) (draftId : jstr) (principal : Principal)
    (state : RegistryState) : authoring SkillDraftFileView :=
  let? selected := selectedFilePath paths in
  match selected with
  | None => Err INVALID_REQUEST
  | Some p =>
      let? revision := requiredQueryRevision revisions in
      let? value := requiredQueryValue digests in
      let? digest := requireDigest (JStr value) in
      let? draft := findDraft state draftId principal organizationId in
      throw_if negb (dr_revision draft =? revision) with revisionConflict (dr_revision draft) ;;
      throw_if negb (jeqb (dr_digest draft) digest) with draftDigestConflict (Some (dr_revision draft)) None ;;
      let? fs := readDraftBundle draft in
      match find_first (fun f => jeqb (path f) p) fs with
      | None => Err unavailableDraft
      | Some file =>
          let? preview := viewFile (path file) (content file) (bool_decide (executable file = Some true))
                            DEFAULT_RELEASE_TEXT_PREVIEW_BYTES false in
          Ok {| df_path := fv_path preview; df_size := fv_size preview; df_digest := fv_contentDigest preview;
                df_previewState := fv_previewState preview; df_executable := fv_executable preview;
                df_content := if bool_decide (fv_previewState preview = PreviewText) then Some (content file)
                              else None |}
      end
  end.
Definition readDraftRevision (draftId : jstr) (principal : Principal) (state : RegistryState)
    : authoring (SkillDraft * list BundleFile) :=
  throw_if negb (jeqb (pr_organizationId principal) organizationId) with authoring_error "UNAUTHORIZED" 401 ;;
  let? _ := assertPublisher principal in
  let? draft := findDraft state draftId principal organizationId in
  let? fs := readDraftBundle draft in
  Ok (draft, fs).

(** ** Saving a revision *)

Inductive WriteKind : Type :=
| UpdateKind
| BuilderProposalKind (proposalId : jsval)
    (onCommit : RegistryState -> SkillDraft -> authoring RegistryState).
Definition defaultDraftResponseEnvelope (kind : WriteKind) (idempotent : bool) : DraftResponseEnvelope :=
  match kind with
  | UpdateKind => draft_result_envelope idempotent
  | BuilderProposalKind _ _ => draft_envelope
  end.
Record DraftRevisionWriteInput : Type := {
  wi_draftId : jstr;
  wi_expectedRevision : jsval;
  wi_files : jsval;
  wi_expectedDigest : jsval; (* [JUndef]: not given *)
  wi_idempotencyKey : option jstr;
  wi_kind : WriteKind;
  wi_envelope : option DraftResponseEnvelope;
}.
Record DraftRevisionWriteResult : Type := {
  wr_draft : SkillDraft;
  wr_files : list BundleFile;
  wr_idempotent : bool;
}.
(** What identifies a request: every field that matters, digested. *)
Definition write_identity (proposal : option jstr) (expectedRevision : Z) (expectedDigest : option jstr)
    (content : string * wire) : jstr :=
  digestText (WObj (
    match proposal with
    | Some id => [(js "kind", WStr (js "builder-proposal")); (js "proposalId", WStr id)]
    | None => []
    end ++
    [(js "expectedRevision", WInt expectedRevision)] ++
    wire_option "expectedDigest" WStr expectedDigest ++
    [(js content.1, content.2)])).

(** The request, as far as it can be checked without its draft. *)
Record WriteRequest : Type := {
  wq_key : jstr;
  wq_expectedRevision : Z;
  wq_expectedDigest : option jstr;
  wq_proposal : option jstr;
  wq_inputs : list DraftFileInput;
}.
Definition has_references (request : WriteRequest) : bool := existsb isDraftFileReference (wq_inputs request).
Definition parse_write (input : DraftRevisionWriteInput) (principal : Principal) : authoring WriteRequest :=
  throw_if negb (jeqb (pr_organizationId principal) organizationId) with authoring_error "UNAUTHORIZED" 401 ;;
  let? _ := assertPublisher principal in
  throw_if negb (isSafeId (wi_draftId input)) with unavailableDraft ;;
  let? key := requireIdempotencyKeyValue (wi_idempotencyKey input) in
  let? expectedRevision := requireRevision (wi_expectedRevision input) in
  let? expectedDigest := match wi_expectedDigest input with
                         | JUndef => Ok None
                         | v => let? d := requireDigest v in Ok (Some d)
                         end in
  match wi_files input with
  | JArr value =>
      let? proposal := match wi_kind input with
                       | UpdateKind => Ok None
                       | BuilderProposalKind id _ => let? s := requireOperationId id in Ok (Some s)
                       end in
      let? inputs := parseDraftFileInputs value in
      throw_if existsb isDraftFileReference inputs && bool_decide (expectedDigest = None) with INVALID_REQUEST ;;
      Ok {| wq_key := key; wq_expectedRevision := expectedRevision; wq_expectedDigest := expectedDigest;
            wq_proposal := proposal; wq_inputs := inputs |}
  | _ => Err INVALID_REQUEST
  end.
(** A sealed bundle: its files, its bytes and their digest. *)
Record Sealed : Type := {
  se_files : list BundleFile;
  se_bytes : list Z;
  se_digest : jstr;
}.
Definition seal (fs : list BundleFile) : authoring Sealed :=
  let? bytes := encode_files fs in
  Ok {| se_files := fs; se_bytes := bytes; se_digest := digestBytes bytes |}.
Definition inline_files (l : list DraftFileInput) : list BundleFile :=
  concat ((fun f => match f with InlineFile file => [file] | FileReference _ _ _ => [] end) <$> l).
(** The bundle of a request without references. *)
Definition full_bundle (request : WriteRequest) : authoring (option Sealed) :=
  if has_references request then Ok None
  else
    let? fs := bundle_files (canonicalizeBundle (files_value (inline_files (wq_inputs request)))) INVALID_BUNDLE in
    let? sealed := seal fs in
    Ok (Some sealed).
Definition request_identity (request : WriteRequest) (full : option Sealed) : jstr :=
  write_identity (wq_proposal request) (wq_expectedRevision request) (wq_expectedDigest request)
    (match full with
     | Some sealed => ("digest"%string, WStr (se_digest sealed))
     | None => ("files"%string, canonicalDraftFileInputs (wq_inputs request))
     end).
(** The tests before and inside the transaction. *)
Definition assert_editable (request : WriteRequest) (draft : SkillDraft) : authoring unit :=
  throw_if negb (dr_revision draft =? wq_expectedRevision request) with revisionConflict (dr_revision draft) ;;
  throw_if negb (bool_decide (dr_status draft = DraftOpen)) with DRAFT_CLOSED ;;
  throw_if match wq_expectedDigest request with
           | Some d => negb (jeqb (dr_digest draft) d)
           | None => false
           end with draftDigestConflict (Some (dr_revision draft)) None ;;
  Ok tt.
Definition next_bundle (request : WriteRequest) (full : option Sealed) (before : SkillDraft) : authoring Sealed :=
  match full with
  | Some sealed => Ok sealed
  | None =>
      let? current := readDraftBundle before in
      let? fs := resolveDraftFileInputs current (wq_inputs request) in
      seal fs
  end.
Definition with_idempotency (l : list SkillDraftIdempotencyRecord) (draft : SkillDraft) : SkillDraft := {|
  dr_id := dr_id draft; dr_organizationId := dr_organizationId draft; dr_origin := dr_origin draft;
  dr_name := dr_name draft; dr_skillName := dr_skillName draft; dr_description := dr_description draft;
  dr_baseResourceId := dr_baseResourceId draft; dr_baseDigest := dr_baseDigest draft;
  dr_revision := dr_revision draft; dr_digest := dr_digest draft; dr_artifact := dr_artifact draft;
  dr_files := dr_files draft; dr_status := dr_status draft; dr_actor := dr_actor draft;
  dr_createdAt := dr_createdAt draft; dr_updatedAt := dr_updatedAt draft;
  dr_createIdempotency := dr_createIdempotency draft; dr_idempotency := Some l;
  dr_publications := dr_publications draft |}.
(** A draft after the write that [record] describes. *)
Definition saved_draft (draft : SkillDraft) (record : SkillDraftIdempotencyRecord) (fs : list BundleFile)
    (records : list SkillDraftIdempotencyRecord) : SkillDraft :=
  with_idempotency records
    (with_content draft (di_revision record) (di_digest record) (di_artifact record) fs (di_updatedAt record)).
(** The draft a caller sees is the first one its lookup finds; it is changed in
    place. *)
Definition is_draft (draftId : jstr) (principal : Principal) (candidate : SkillDraft) : bool :=
  jeqb (dr_id candidate) draftId && jeqb (dr_organizationId candidate) organizationId &&
  namespaceReadable principal (dr_name candidate).
Definition update_draft (draftId : jstr) (principal : Principal) (draft : SkillDraft) (s : RegistryState)
    : RegistryState :=
  with_st_drafts (option_map (update_first (is_draft draftId principal) (fun _ => draft)) (st_drafts s)) s.

Definition write_commit (draftId : jstr) (request : WriteRequest) (identity fingerprint : jstr)
    (record : SkillDraftIdempotencyRecord) (fs : list BundleFile) (kind : WriteKind)
    (envelope : bool -> DraftResponseEnvelope) (principal : Principal) (auditId : jstr) (current : RegistryState)
    : authoring (RegistryState * (SkillDraft * bool)) :=
  let? draft := findDraft current draftId principal organizationId in
  match findIdempotency draft (wq_key request) (pr_subject principal) with
  | Some concurrent =>
      throw_if negb (jeqb (di_requestDigest concurrent) identity) with idempotencyConflict ;;
      let? _ := assertDraftEnvelopeSizeWithManifest
                  (with_content draft (di_revision concurrent) (di_digest concurrent) (di_artifact concurrent)
                     (dr_files draft) (di_updatedAt concurrent)) (di_manifest concurrent) (envelope true) in
      Ok (current, (draft, true))
  | None =>
      let? _ := assert_editable request draft in
      throw_if negb (jeqb (publicDraftStateFingerprint draft) fingerprint)
        with publicDraftStateConflict (dr_revision draft) ;;
      let records := last_n (MAX_IDEMPOTENCY_RECORDS - 1) (default [] (dr_idempotency draft)) ++ [record] in
      let next := saved_draft draft record fs records in
      let? _ := assertDraftEnvelopeSizeWithManifest next (di_manifest record) (envelope false) in
      let state := update_draft draftId principal next current in
      let extra := match wq_proposal request with
                   | Some id => [(js "source", JStr (js "builder-proposal")); (js "proposalId", JStr id)]
                   | None => []
                   end in
      let state := appendAudit (draft_audit principal auditId (js "draft.update") next extra (dr_updatedAt next)) state in
      let? state := match kind with
                    | UpdateKind => Ok state
                    | BuilderProposalKind _ onCommit => onCommit state next
                    end in
      Ok (state, (next, false))
  end.
Definition write_answer (kind : WriteKind) (key subject : jstr) (result : SkillDraft * bool)
    : authoring DraftRevisionWriteResult :=
  let (draft, idempotent) := result in
  let? responseDraft := match idempotent, findIdempotency draft key subject with
                        | true, Some record => draftFromIdempotency draft record
                        | _, _ => Ok draft
                        end in
  let? _ := assertDraftEnvelopeFits responseDraft (dr_files responseDraft)
              (match kind with
               | UpdateKind => draft_result_envelope idempotent
               | BuilderProposalKind _ _ => draft_envelope
               end) in
  Ok {| wr_draft := responseDraft; wr_files := dr_files responseDraft; wr_idempotent := idempotent |}.
(** The answer to a request that an earlier one already carried out. *)
Definition replay_write (before : SkillDraft) (prior : SkillDraftIdempotencyRecord) (identity : jstr)
    (envelope : DraftResponseEnvelope) : authoring DraftRevisionWriteResult :=
  throw_if negb (jeqb (di_requestDigest prior) identity) with idempotencyConflict ;;
  let? replay := draftFromIdempotency before prior in
  let? _ := assertDraftEnvelopeFits replay (dr_files replay) envelope in
  Ok {| wr_draft := replay; wr_files := dr_files replay; wr_idempotent := true |}.

Definition writeDraftRevision (input : DraftRevisionWriteInput) (principal : Principal) (auditId : jstr) (now : Z)
    (snapshot current : RegistryState) : handled DraftRevisionWriteResult :=
  uncommitted_as current (
    let? request := parse_write input principal in
    let subject := pr_subject principal in
    let envelope idempotent := default (defaultDraftResponseEnvelope (wi_kind input) idempotent) (wi_envelope input) in
    let? before := findDraft snapshot (wi_draftId input) principal organizationId in
    let? full := full_bundle request in
    let identity := request_identity request full in
    match findIdempotency before (wq_key request) subject with
    | Some prior => Ok (current, replay_write before prior identity (envelope true))
    | None =>
        let? _ := assert_editable request before in
        let? sealed := next_bundle request full before in
        let? manifest := compactManifest (se_files sealed) in
        let record artifact := create_record (wq_key request) subject identity (se_digest sealed) artifact manifest
                                 (toISOString now) (wq_expectedRevision request + 1) in
        let preflight := record (responsePreflightArtifact (se_digest sealed) (jlen (se_bytes sealed))) in
        let? _ := assertDraftEnvelopeFits
                    (saved_draft before preflight (se_files sealed) (default [] (dr_idempotency before) ++ [preflight]))
                    (se_files sealed) (envelope false) in
        let? stored := putVerifiedDraftBlob (se_bytes sealed) (se_digest sealed) in
        let? (state, result) := write_commit (wi_draftId input) request identity (publicDraftStateFingerprint before)
          (record stored) (se_files sealed) (wi_kind input) envelope principal auditId current in
        Ok (state, write_answer (wi_kind input) (wq_key request) subject result)
    end).
(** [updateDraft]: the PUT of the editor. *)
Definition updateDraft (body : jsval) (header : option jstr) (draftId : jstr) (principal : Principal)
    (auditId : jstr) (now : Z) (snapshot current : RegistryState) : handled DraftResponse :=
  match requireIdempotencyKey header, requireRevision (field body "expectedRevision") with
  | Err e, _ | Ok _, Err e => (current, Err e)
  | Ok key, Ok _ =>
      let (state, answer) := writeDraftRevision
        {| wi_draftId := draftId; wi_expectedRevision := field body "expectedRevision";
           wi_files := field body "files"; wi_expectedDigest := field body "expectedDigest";
           wi_idempotencyKey := Some key; wi_kind := UpdateKind; wi_envelope := None |}
        principal auditId now snapshot current in
      (state,
       let? result := answer in
       let? publicDraft := toPublicDraft (wr_draft result) (wr_files result) in
       draft_response 200 (draft_result_envelope (wr_idempotent result) publicDraft))
  end.

(** ** Publishing *)

Record DraftPublishOperation : Type := {
  op_id : jstr;
  op_resourceId : jstr;
  op_version : jstr;
  op_revision : Z;
  op_digest : jstr;
}.
Definition operationFromPublication (p : SkillDraftPublicationRecord) : DraftPublishOperation := {|
  op_id := dp_jobId p; op_resourceId := dp_resourceId p; op_version := dp_version p;
  op_revision := dp_revision p; op_digest := dp_digest p |}.
Definition base_of (state : RegistryState) (draft : SkillDraft) : option SkillVersion :=
  match dr_baseResourceId draft with
  | None => None
  | Some id => find_first (fun c => jeqb (sk_id c) id) (st_skills state)
  end.
(** The base release of a draft, still what it was made of. *)
Definition current_base (state : RegistryState) (draft : SkillDraft) (principal : Principal) : option SkillVersion :=
  match base_of state draft, dr_baseDigest draft with
  | Some base, Some digest =>
      if jeqb (sk_organizationId base) organizationId && sameReadableBase base base state principal digest
      then Some base else None
  | _, _ => None
  end.
Definition assertCurrentPublishableBase (state : RegistryState) (draft : SkillDraft) (principal : Principal)
    : authoring SkillVersion :=
  match current_base state draft principal with
  | None => Err unavailableDraft
  | Some base =>
      match releaseAdmission state base principal with
      | None => Err (authoring_error "RELEASE_UNAVAILABLE" 503)
      | Some admitted => throw_if negb admitted with unavailableDraft ;; Ok base
      end
  end.
Definition draft_release (before : SkillDraft) (metadata : SkillMetadata) (version : jstr) (policy : Policy)
    (base : option SkillVersion) (principal : Principal) (ids : DraftIds) (now : Z) : SkillVersion := {|
  sk_id := ids_skillId ids; sk_organizationId := organizationId; sk_name := dr_name before;
  sk_skillName := skillName metadata; sk_version := version; sk_description := description metadata;
  sk_artifact := dr_artifact before; sk_state := Pending; sk_policyRevision := po_revision policy;
  sk_createdAt := toISOString now; sk_approvedAt := None;
  sk_provenance := with_pv_sourceDigest (Some (dr_digest before)) native_provenance;
  sk_fileCount := Z.of_nat (length (dr_files before)); sk_scanIds := [];
  sk_authoring := match base with
                  | None => None
                  | Some _ => Some {| ra_baseResourceId := default [] (dr_baseResourceId before);
                                      ra_baseDigest := default [] (dr_baseDigest before);
                                      ra_draftId := dr_id before; ra_draftRevision := dr_revision before;
                                      ra_actor := pr_subject principal |}
                  end |}.
Definition draft_job (before : SkillDraft) (policy : Policy) (ids : DraftIds) (now : Z) : Job := {|
  jb_id := ids_jobId ids; jb_organizationId := organizationId; jb_kind := ScanJob; jb_state := JQueued;
  jb_resourceId := Some (ids_skillId ids); jb_artifact := Some (dr_artifact before);
  jb_policyRevision := po_revision policy; jb_policy := policy; jb_import := None; jb_upstream := None;
  jb_openclawSource := JUndef; jb_sourceAcquisition := JUndef; jb_sourceCatalogAliases := None;
  jb_createdAt := toISOString now; jb_updatedAt := toISOString now; jb_attempts := 0;
  jb_leaseToken := None; jb_leaseExpiresAt := None; jb_error := None |}.
Definition with_publications (l : list SkillDraftPublicationRecord) (draft : SkillDraft) : SkillDraft := {|
  dr_id := dr_id draft; dr_organizationId := dr_organizationId draft; dr_origin := dr_origin draft;
  dr_name := dr_name draft; dr_skillName := dr_skillName draft; dr_description := dr_description draft;
  dr_baseResourceId := dr_baseResourceId draft; dr_baseDigest := dr_baseDigest draft;
  dr_revision := dr_revision draft; dr_digest := dr_digest draft; dr_artifact := dr_artifact draft;
  dr_files := dr_files draft; dr_status := dr_status draft; dr_actor := dr_actor draft;
  dr_createdAt := dr_createdAt draft; dr_updatedAt := dr_updatedAt draft;
  dr_createIdempotency := dr_createIdempotency draft; dr_idempotency := dr_idempotency draft;
  dr_publications := Some l |}.

(** The tests on the draft inside the transaction; the base release at commit. *)
Definition publishable (before draft : SkillDraft) (expectedRevision : Z) (principal : Principal)
    (policyRevision version : jstr) (current : RegistryState) : authoring unit :=
  throw_if negb (dr_revision draft =? expectedRevision) with revisionConflict (dr_revision draft) ;;
  throw_if negb (bool_decide (dr_status draft = DraftOpen)) with DRAFT_CLOSED ;;
  throw_if negb (bool_decide (dr_origin draft = dr_origin before)) ||
           negb (bool_decide (dr_baseResourceId draft = dr_baseResourceId before)) ||
           negb (bool_decide (dr_baseDigest draft = dr_baseDigest before)) with unavailableDraft ;;
  throw_if match dr_origin draft with
           | OriginRelease => bool_decide (current_base current draft principal = None)
           | OriginUpload => negb (bool_decide (dr_baseResourceId draft = None)) ||
                             negb (bool_decide (dr_baseDigest draft = None))
           end with unavailableDraft ;;
  throw_if negb (jeqb (po_revision (st_policy current)) policyRevision) with authoring_error "POLICY_CHANGED" 409 ;;
  throw_if match base_of current draft with
           | None => false
           | Some base => match releaseAdmissionAtCommit with
                          | None => true
                          | Some admitted => negb (admitted current base principal)
                          end
           end with authoring_error "RELEASE_UNAVAILABLE" 503 ;;
  throw_if has_version (st_skills current) (dr_name draft) version with authoring_error "VERSION_CONFLICT" 409 ;;
  Ok tt.
Definition draft_publish_commit (draftId : jstr) (before : SkillDraft) (skill : SkillVersion) (job : Job)
    (publication : SkillDraftPublicationRecord) (principal : Principal) (auditId : jstr) (current : RegistryState)
    : authoring (RegistryState * (DraftPublishOperation * bool)) :=
  let? draft := findDraft current draftId principal organizationId in
  match findPublication draft (dp_key publication) (pr_subject principal) with
  | Some concurrent =>
      throw_if negb (jeqb (dp_requestDigest concurrent) (dp_requestDigest publication)) with idempotencyConflict ;;
      Ok (current, (operationFromPublication concurrent, true))
  | None =>
      let? _ := publishable before draft (dp_revision publication) principal (sk_policyRevision skill)
                  (dp_version publication) current in
      let published := with_publications
        (last_n (MAX_PUBLICATION_HISTORY - 1) (default [] (dr_publications draft)) ++ [publication]) draft in
      let state := with_st_skills (st_skills current ++ [skill]) current in
      let state := with_st_jobs (st_jobs state ++ [job]) state in
      let state := update_draft draftId principal published state in
      let extra := [(js "digest", JStr (dp_digest publication)); (js "version", JStr (dp_version publication));
                    (js "resourceId", JStr (dp_resourceId publication)); (js "jobId", JStr (dp_jobId publication));
                    (js "draftRevision", JNum (num_of_Z (dp_revision publication))); (js "scanRequired", JBool true)] in
      Ok (appendAudit (draft_audit principal auditId (js "draft.publish.queued") published extra
            (dp_createdAt publication)) state, (operationFromPublication publication, false))
  end.

Definition publishDraft (body : jsval) (header : option jstr) (draftId : jstr) (principal : Principal)
    (ids : DraftIds) (now : Z) (snapshot current : RegistryState) : handled (DraftPublishOperation * bool) :=
  uncommitted_as current (
    let? key := requireIdempotencyKey header in
    let? expectedRevision := requireRevision (field body "expectedRevision") in
    let? version := requireDraftVersion validSemver (field body "version") in
    let requestDigest := digestText (WObj [(js "draftId", WStr draftId); (js "expectedRevision", WInt expectedRevision);
                                           (js "version", WStr version)]) in
    let? before := findDraft snapshot draftId principal organizationId in
    match findPublication before key (pr_subject principal) with
    | Some prior =>
        throw_if negb (jeqb (dp_requestDigest prior) requestDigest) with idempotencyConflict ;;
        Ok (current, Ok (operationFromPublication prior, true))
    | None =>
        throw_if negb (dr_revision before =? expectedRevision) with revisionConflict (dr_revision before) ;;
        throw_if negb (bool_decide (dr_status before = DraftOpen)) with DRAFT_CLOSED ;;
        let? fs := readDraftBundle before in
        let? metadata := bundle_files (parseSkillMetadata parseDocument (bundle_value {| files := fs |})) DRAFT_INVALID in
        let? base := match dr_origin before with
                     | OriginRelease => let? b := assertCurrentPublishableBase snapshot before principal in Ok (Some b)
                     | OriginUpload => Ok None
                     end in
        let policy := clonePolicy (st_policy snapshot) in
        let publication := {|
          dp_key := key; dp_subject := pr_subject principal; dp_requestDigest := requestDigest;
          dp_revision := expectedRevision; dp_digest := dr_digest before; dp_version := version;
          dp_resourceId := ids_skillId ids; dp_jobId := ids_jobId ids; dp_createdAt := toISOString now |} in
        let? (state, result) := draft_publish_commit draftId before
          (draft_release before metadata version policy base principal ids now) (draft_job before policy ids now)
          publication principal (ids_auditId ids) current in
        Ok (state, Ok result)
    end).

(** ** The routes *)

(** A request whose route and method matched, with its path parts decoded. *)
Inductive DraftRoute : Type :=
| RouteCreate (resourceId : jstr) (body : jsval) (key : option jstr)
| RouteUpload (body : jsval) (key : option jstr)
| RouteGet (draftId : jstr)
| RouteFile (draftId : jstr) (paths revisions digests : list jstr)
| RouteUpdate (draftId : jstr) (body : jsval) (key : option jstr)
| RoutePublish (draftId : jstr) (body : jsval) (key : option jstr).
Definition route_id (route : DraftRoute) : option jstr :=
  match route with
  | RouteUpload _ _ => None
  | RouteCreate id _ _ | RouteGet id | RouteFile id _ _ _ | RouteUpdate id _ _ | RoutePublish id _ _ => Some id
  end.
Inductive DraftAnswer : Type :=
| AnswerDraft (response : DraftResponse)
| AnswerFile (file : SkillDraftFileView)
| AnswerOperation (operation : DraftPublishOperation) (idempotent : bool).
Definition answered {A} (f : A -> DraftAnswer) (h : handled A) : handled DraftAnswer :=
  (h.1, match h.2 with Ok a => Ok (f a) | Err e => Err e end).
(** Who may use the routes, and for which ids. *)
Definition admitDraftRoute (principal : option Principal) (route : DraftRoute) : authoring Principal :=
  match principal with
  | None => Err (authoring_error "UNAUTHORIZED" 401)
  | Some p =>
      throw_if negb (jeqb (pr_organizationId p) organizationId) with authoring_error "UNAUTHORIZED" 401 ;;
      let? _ := match route with
                | RouteCreate _ _ _ => assertPublisher p
                | _ => Ok tt
                end in
      throw_if match route_id route with Some id => negb (isSafeId id) | None => false end with unavailableDraft ;;
      let? _ := assertPublisher p in
      Ok p
  end.
(** [draftHandler]: [existing] is what the first read of the request returned,
    [snapshot] the second one of [createDraft]. *)
Definition draftHandler (principal : option Principal) (route : DraftRoute) (ids : DraftIds) (now : Z)
    (existing snapshot current : RegistryState) : handled DraftAnswer :=
  match admitDraftRoute principal route with
  | Err e => (current, Err e)
  | Ok p =>
      match route with
      | RouteCreate id body key => answered AnswerDraft (createDraft body key id p ids now existing snapshot current)
      | RouteUpload body key => answered AnswerDraft (createUploadDraft body key p ids now existing current)
      | RouteGet id => answered AnswerDraft (current, getDraft id p existing)
      | RouteFile id paths revisions digests =>
          answered AnswerFile (current, getDraftFile paths revisions digests id p existing)
      | RouteUpdate id body key => answered AnswerDraft (updateDraft body key id p (ids_auditId ids) now existing current)
      | RoutePublish id body key =>
          answered (fun r => AnswerOperation r.1 r.2) (publishDraft body key id p ids now existing current)
      end
  end.
End Handlers.

(** ** The admission the registry injects *)

(** [createAuthoringHandlerDependencies] of packages/core/src/index.ts, with the
    clock of the call. *)
Definition core_admission {DR : DateRuntime} (config : Configuration) (now : Z) (state : RegistryState)
    (release : SkillVersion) (principal : Principal) : bool :=
  jeqb (pr_organizationId principal) (cfg_organizationId config) && canReadNamespace principal (sk_name release) &&
  skillCurrentlyApproved state release now.
