(* ===== verification/Builder.v ===== *)
(** * Builder proposals

    The builder routes of packages/authoring/src/drafts.ts: an external agent,
    bound to one revision of a draft, proposes patch operations; a person
    applies or rejects them.  Applying goes through [writeDraftRevision], whose
    transaction also settles the proposal and rebinds the session.

    A URL query is given as the values of its parameters. *)

From Stdlib Require Import ZArith Lia.
From stdpp Require Import base list strings sets.
From S2P Require Import Prelude Js Dates Base64 Json Wire Bundle Contracts Numbers Web Access Names PolicyEval.
From S2P Require Import Provenance State Authoring Drafts SkillBuilder DraftHandlers.

Local Open Scope Z_scope.

Definition MAX_BUILDER_PROPOSALS : nat := 32.
Definition MAX_BUILDER_REQUEST_KEY_BYTES : Z := 512.
Definition MAX_BUILDER_PREVIEW_BYTES : Z := 16 * 1024.
Definition DRAFT_CONFLICT : AuthoringApiError := authoring_error "DRAFT_CONFLICT" 409.
Definition METHOD_NOT_ALLOWED : AuthoringApiError := authoring_error "METHOD_NOT_ALLOWED" 405.

(** ** Records *)

Definition sessions (s : RegistryState) : list SkillBuilderSessionRecord := default [] (st_builderSessions s).
Definition with_proposal_state (v : SkillBuilderProposalState) (updatedAt : jstr) (p : SkillBuilderProposalRecord)
    : SkillBuilderProposalRecord := {|
  bp_id := bp_id p; bp_idempotencyKey := bp_idempotencyKey p; bp_requestDigest := bp_requestDigest p;
  bp_organizationId := bp_organizationId p; bp_draftId := bp_draftId p; bp_subject := bp_subject p;
  bp_sessionId := bp_sessionId p; bp_baseRevision := bp_baseRevision p; bp_baseDigest := bp_baseDigest p;
  bp_proposedDigest := bp_proposedDigest p; bp_operations := bp_operations p; bp_state := v;
  bp_createdAt := bp_createdAt p; bp_updatedAt := updatedAt |}.
(** A session with other proposals, bound to a revision. *)
Definition with_session_proposals (l : list SkillBuilderProposalRecord) (revision : Z) (digest updatedAt : jstr)
    (b : SkillBuilderSessionRecord) : SkillBuilderSessionRecord := {|
  bs_id := bs_id b; bs_organizationId := bs_organizationId b; bs_subject := bs_subject b;
  bs_draftId := bs_draftId b; bs_draftRevision := revision; bs_draftDigest := digest;
  bs_sessionKey := bs_sessionKey b; bs_eveSessionId := bs_eveSessionId b; bs_activeTurnId := bs_activeTurnId b;
  bs_activeRequestId := bs_activeRequestId b; bs_state := bs_state b; bs_requests := bs_requests b;
  bs_proposals := l; bs_createdAt := bs_createdAt b; bs_updatedAt := updatedAt |}.
Definition is_terminal (b : SkillBuilderSessionRecord) : bool :=
  match bs_state b with
  | SessionFailed | SessionStopped | SessionCompleted => true
  | SessionReady | SessionRunning => false
  end.

(** ** Request fields *)

Section Builder.
Context {DR : DateRuntime} {UT : UnicodeTables} {CR : Crypto} {BL : Blobs}.
Context (organizationId : jstr).

Definition requireBuilderRequestKey (header : option jstr) : authoring jstr :=
  match header with
  | None => Err INVALID_REQUEST
  | Some h =>
      let key := trim h in
      throw_if jeqb key [] || (MAX_BUILDER_REQUEST_KEY_BYTES <? jlen key) || CONTROL_CHARACTER key
        with INVALID_REQUEST ;;
      Ok key
  end.
Definition requireSafeBuilderId (value : jsval) : authoring jstr :=
  match value with
  | JStr s => throw_if negb (isSafeId s) with INVALID_REQUEST ;; Ok s
  | _ => Err INVALID_REQUEST
  end.
(** Every failure of a check is this answer. *)
Definition builder_checked {A} (r : checked A) : authoring A :=
  match r with
  | Ok a => Ok a
  | Err _ => Err INVALID_REQUEST
  end.
Definition parseBuilderBodyBinding (body : jsval) (draftId : jstr) : authoring DraftBinding :=
  let revision := match nullish (field body "revision") (field body "draftRevision") with
                  | JStr s => JNum (stringToNumber s)
                  | v => v
                  end in
  let? binding := builder_checked (validateDraftBinding (JObj [
    (js "draftId", nullish (field body "draftId") (JStr draftId)); (js "revision", revision);
    (js "digest", nullish (field body "digest") (field body "draftDigest"))])) in
  throw_if negb (jeqb (db_draftId binding) draftId) with INVALID_REQUEST ;;
  Ok binding.
(** [searchParams.get]. *)
Definition query_get (values : list jstr) : jsval :=
  match values with
  | v :: _ => JStr v
  | [] => JNull
  end.
Definition parseBuilderBinding (revisions digests : list jstr) (draftId : jstr) : authoring DraftBinding :=
  parseBuilderBodyBinding (JObj [(js "draftId", JStr draftId); (js "revision", query_get revisions);
                                 (js "digest", query_get digests)]) draftId.
Definition parseBuilderOperations (value : jsval) : authoring (list SkillBuilderPatchOperation) :=
  builder_checked (validatePatchOperations value).

(** ** Lookup *)

Definition findBuilderDraft (state : RegistryState) (binding : DraftBinding) (principal : Principal)
    (internalBuilder : bool) : authoring SkillDraft :=
  match find_first (fun d => jeqb (dr_id d) (db_draftId binding) && jeqb (dr_organizationId d) organizationId)
          (default [] (st_drafts state)) with
  | None => Err unavailableDraft
  | Some draft =>
      throw_if negb internalBuilder && negb (namespaceReadable principal (dr_name draft)) with unavailableDraft ;;
      throw_if negb (dr_revision draft =? db_revision binding) || negb (jeqb (dr_digest draft) (db_digest binding)) ||
               negb (bool_decide (dr_status draft = DraftOpen)) with revisionConflict (dr_revision draft) ;;
      Ok draft
  end.
Definition is_session (draftId sessionId : jstr) (b : SkillBuilderSessionRecord) : bool :=
  jeqb (bs_id b) sessionId && jeqb (bs_organizationId b) organizationId && jeqb (bs_draftId b) draftId.
Definition findBuilderSession (state : RegistryState) (draftId sessionId : jstr) : option SkillBuilderSessionRecord :=
  find_first (is_session draftId sessionId) (sessions state).
Definition update_builder_session (draftId sessionId : jstr) (f : SkillBuilderSessionRecord -> SkillBuilderSessionRecord)
    (s : RegistryState) : RegistryState :=
  with_st_builderSessions (option_map (update_first (is_session draftId sessionId) f) (st_builderSessions s)) s.
Definition is_proposal (proposalId : jstr) (principal : Principal) (p : SkillBuilderProposalRecord) : bool :=
  jeqb (bp_id p) proposalId && jeqb (bp_subject p) (pr_subject principal).
Definition find_proposal (b : SkillBuilderSessionRecord) (proposalId : jstr) (principal : Principal)
    : option SkillBuilderProposalRecord := find_first (is_proposal proposalId principal) (bs_proposals b).

(** ** Files *)

Inductive DraftFileKind : Type := KindText | KindBinary | KindOversize.
#[export] Instance DraftFileKind_eq_dec : EqDecision DraftFileKind.
Proof. solve_decision. Defined.
Definition builderFileKind (bytes : list Z) : DraftFileKind :=
  if MAX_MODEL_FILE_BYTES <? jlen bytes then KindOversize
  else if bool_decide (0 ∈ bytes) then KindBinary
  else match textDecode bytes with
       | Some _ => KindText
       | None => KindBinary
       end.
Definition decodeDraftBase64 (value : jstr) : authoring (list Z) :=
  match atob value with
  | None => Err DRAFT_INVALID
  | Some bytes => Ok bytes
  end.
Definition has_path (p : jstr) (f : BundleFile) : bool := jeqb (path f) p.
Definition apply_operation (operation : SkillBuilderPatchOperation) (fs : list BundleFile) : authoring (list BundleFile) :=
  match operation with
  | PatchWrite true p c =>
      throw_if existsb (has_path p) fs with DRAFT_CONFLICT ;;
      Ok (fs ++ [{| path := p; content := btoa (textEncode c); executable := None |}])
  | PatchWrite false p c =>
      match find_first (has_path p) fs with
      | None => Err DRAFT_CONFLICT
      | Some f =>
          let? bytes := decodeDraftBase64 (content f) in
          throw_if negb (bool_decide (builderFileKind bytes = KindText)) with DRAFT_CONFLICT ;;
          Ok (update_first (has_path p)
                (fun f => {| path := path f; content := btoa (textEncode c); executable := executable f |}) fs)
      end
  | PatchRename p newPath =>
      throw_if negb (existsb (has_path p) fs) || existsb (has_path newPath) fs with DRAFT_CONFLICT ;;
      Ok (update_first (has_path p)
            (fun f => {| path := newPath; content := content f; executable := executable f |}) fs)
  | PatchDelete p =>
      throw_if negb (existsb (has_path p) fs) with DRAFT_CONFLICT ;;
      Ok (remove_first (has_path p) fs)
  end.
Fixpoint apply_operations (operations : list SkillBuilderPatchOperation) (fs : list BundleFile)
    : authoring (list BundleFile) :=
  match operations with
  | [] => Ok fs
  | operation :: rest =>
      let? fs := apply_operation operation fs in
      apply_operations rest fs
  end.
Definition applyBuilderOperations (fs : list BundleFile) (operations : list SkillBuilderPatchOperation)
    : authoring (list BundleFile) :=
  let? fs := apply_operations operations fs in
  bundle_files (canonicalizeBundle (files_value fs)) INVALID_BUNDLE.

(** ** The public form of a proposal *)

Definition boundedPreview (encodedContent : option jstr) : option jstr :=
  match encodedContent with
  | None | Some [] => None
  | Some encoded =>
      match atob encoded with
      | None => None
      | Some bytes =>
          if negb (bool_decide (builderFileKind bytes = KindText)) || (MAX_BUILDER_PREVIEW_BYTES <? jlen bytes) then None
          else option_map (take (Z.to_nat MAX_BUILDER_PREVIEW_BYTES)) (textDecode bytes)
      end
  end.
Definition preview_wire (o : option jstr) : wire :=
  match o with
  | Some s => WStr s
  | None => WNull
  end.
Definition operation_path (operation : SkillBuilderPatchOperation) : jstr :=
  match operation with
  | PatchWrite _ p _ | PatchRename p _ | PatchDelete p => p
  end.
Definition builderPreviews (before : list BundleFile) (operation : SkillBuilderPatchOperation) : list (jstr * wire) :=
  let old := content <$> file_at before (operation_path operation) in
  let after := match operation with
               | PatchDelete _ => None
               | PatchRename _ _ => boundedPreview old
               | PatchWrite _ _ c => Some c
               end in
  [(js "before", preview_wire (boundedPreview old));
   (js "after", preview_wire (option_map (take (Z.to_nat MAX_BUILDER_PREVIEW_BYTES)) after))].
Definition operation_name (operation : SkillBuilderPatchOperation) : string :=
  match operation with
  | PatchWrite true _ _ => "add"
  | PatchWrite false _ _ => "edit"
  | PatchRename _ _ => "rename"
  | PatchDelete _ => "delete"
  end.
(** An operation as it is stored and digested. *)
Definition operation_wire (operation : SkillBuilderPatchOperation) : wire :=
  WObj ([(js "op", WStr (js (operation_name operation))); (js "path", WStr (operation_path operation))] ++
        match operation with
        | PatchWrite _ _ c => [(js "content", WStr c)]
        | PatchRename _ newPath => [(js "newPath", WStr newPath)]
        | PatchDelete _ => []
        end).
Definition public_operation (before : option (list BundleFile)) (operation : SkillBuilderPatchOperation) : wire :=
  WObj ([(js "op", WStr (js (operation_name operation))); (js "path", WStr (operation_path operation))] ++
        match operation with
        | PatchWrite _ _ c => [(js "contentBytes", WInt (utf8Bytes c))]
        | PatchRename _ newPath => [(js "newPath", WStr newPath)]
        | PatchDelete _ => []
        end ++
        match before with
        | Some fs => builderPreviews fs operation
        | None => []
        end).
Definition publicBuilderProposal (p : SkillBuilderProposalRecord) (before : option (list BundleFile)) : wire :=
  WObj [(js "id", WStr (bp_id p)); (js "draftId", WStr (bp_draftId p)); (js "baseRevision", WInt (bp_baseRevision p));
        (js "baseDigest", WStr (bp_baseDigest p)); (js "proposedDigest", WStr (bp_proposedDigest p));
        (js "state", WStr (enum_name (bp_state p))); (js "sessionId", WStr (bp_sessionId p));
        (js "createdAt", WStr (bp_createdAt p));
        (js "operations", WArr (public_operation before <$> bp_operations p))].

(** ** Reading *)

Record BuilderContextFile : Type := {
  cf_path : jstr;
  cf_sizeBytes : Z;
  cf_digest : jstr;
  cf_kind : DraftFileKind;
  cf_contentAvailable : bool;
}.
Definition context_file (f : BundleFile) : authoring BuilderContextFile :=
  let? bytes := decodeDraftBase64 (content f) in
  let kind := builderFileKind bytes in
  Ok {| cf_path := path f; cf_sizeBytes := jlen bytes; cf_digest := digestBytes bytes; cf_kind := kind;
        cf_contentAvailable := bool_decide (kind = KindText) && (jlen bytes <=? MAX_MODEL_FILE_BYTES) |}.
Definition builderContext (revisions digests : list jstr) (draftId : jstr) (principal : Principal)
    (internalBuilder : bool) (state : RegistryState) : authoring (DraftBinding * list BuilderContextFile) :=
  let? binding := parseBuilderBinding revisions digests draftId in
  let? draft := findBuilderDraft state binding principal internalBuilder in
  let? fs := readDraftBundle draft in
  let? views := map_result context_file (take MAX_CONTEXT_FILES fs) in
  Ok (binding, views).
Record BuilderFileView : Type := {
  bv_binding : DraftBinding;
  bv_path : jstr;
  bv_contentDigest : jstr;
  bv_content : jstr;
}.
Definition builderFile (revisions digests paths : list jstr) (draftId : jstr) (principal : Principal)
    (internalBuilder : bool) (state : RegistryState) : authoring BuilderFileView :=
  let? binding := parseBuilderBinding revisions digests draftId in
  match paths with
  | [p] =>
      throw_if jeqb p [] with INVALID_REQUEST ;;
      let? draft := findBuilderDraft state binding principal internalBuilder in
      let? fs := readDraftBundle draft in
      match find_first (has_path p) fs with
      | None => Err unavailableDraft
      | Some f =>
          let? bytes := decodeDraftBase64 (content f) in
          throw_if negb (bool_decide (builderFileKind bytes = KindText)) || (MAX_MODEL_FILE_BYTES <? jlen bytes)
            with authoring_error "INVALID_REQUEST" 409 ;;
          match textDecode bytes with
          | None => Err (authoring_error "INVALID_REQUEST" 409)
          | Some text => Ok {| bv_binding := binding; bv_path := p; bv_contentDigest := digestBytes bytes;
                               bv_content := text |}
          end
      end
  | _ => Err INVALID_REQUEST
  end.
Definition listBuilderProposals (revisions digests : list jstr) (draftId : jstr) (principal : Principal)
    (state : RegistryState) : authoring (list SkillBuilderProposalRecord * list BundleFile) :=
  let? binding := parseBuilderBinding revisions digests draftId in
  let? draft := findBuilderDraft state binding principal false in
  let mine b := jeqb (bs_organizationId b) organizationId && jeqb (bs_draftId b) (dr_id draft) &&
                jeqb (bs_subject b) (pr_subject principal) in
  let bound p := (bp_baseRevision p =? db_revision binding) && jeqb (bp_baseDigest p) (db_digest binding) in
  let proposals := concat ((fun b => List.filter bound (bs_proposals b)) <$> List.filter mine (sessions state)) in
  let? fs := readDraftBundle draft in
  Ok (proposals, fs).

(** ** Proposing *)

Definition proposal_request_digest (draftId : jstr) (binding : DraftBinding) (sessionId : jstr)
    (operations : list SkillBuilderPatchOperation) : jstr :=
  digestText (WObj [(js "draftId", WStr draftId); (js "revision", WInt (db_revision binding));
                    (js "digest", WStr (db_digest binding)); (js "sessionId", WStr sessionId);
                    (js "operations", WArr (operation_wire <$> operations))]).
Definition proposal_commit (draftId sessionId : jstr) (binding : DraftBinding) (subject : jstr)
    (proposal : SkillBuilderProposalRecord) (current : RegistryState)
    : authoring (RegistryState * (SkillBuilderProposalRecord * bool)) :=
  match findBuilderSession current draftId sessionId with
  | None => Err unavailableDraft
  | Some session =>
      throw_if negb (jeqb (bs_subject session) subject) with unavailableDraft ;;
      throw_if is_terminal session with DRAFT_CONFLICT ;;
      match find_first (fun p => jeqb (bp_idempotencyKey p) (bp_idempotencyKey proposal)) (bs_proposals session) with
      | Some existing =>
          throw_if negb (jeqb (bp_requestDigest existing) (bp_requestDigest proposal)) with idempotencyConflict ;;
          Ok (current, (existing, true))
      | None =>
          throw_if negb (bs_draftRevision session =? db_revision binding) ||
                   negb (jeqb (bs_draftDigest session) (db_digest binding))
            with revisionConflict (bs_draftRevision session) ;;
          Ok (update_builder_session draftId sessionId (fun b =>
                with_session_proposals (last_n (MAX_BUILDER_PROPOSALS - 1) (bs_proposals b) ++ [proposal])
                  (bs_draftRevision b) (bs_draftDigest b) (bp_createdAt proposal) b) current, (proposal, false))
      end
  end.
Definition createBuilderProposal (body : jsval) (header : option jstr) (draftId : jstr) (principal : Principal)
    (proposalId : jstr) (now : Z) (snapshot current : RegistryState) : handled DraftResponse :=
  uncommitted_as current (
    let? binding := parseBuilderBodyBinding body draftId in
    let? sessionId := requireSafeBuilderId (field body "sessionId") in
    let? key := requireBuilderRequestKey header in
    let? operations := parseBuilderOperations (field body "operations") in
    let? draft := findBuilderDraft snapshot binding principal true in
    match findBuilderSession snapshot draftId sessionId with
    | None => Err DRAFT_CONFLICT
    | Some session =>
        throw_if negb (bs_draftRevision session =? db_revision binding) ||
                 negb (jeqb (bs_draftDigest session) (db_digest binding)) with DRAFT_CONFLICT ;;
        throw_if is_terminal session with DRAFT_CONFLICT ;;
        let? before := readDraftBundle draft in
        let? after := applyBuilderOperations before operations in
        let? encoded := encode_files after in
        let proposal := {|
          bp_id := proposalId; bp_idempotencyKey := key;
          bp_requestDigest := proposal_request_digest draftId binding sessionId operations;
          bp_organizationId := organizationId; bp_draftId := draftId; bp_subject := bs_subject session;
          bp_sessionId := sessionId; bp_baseRevision := db_revision binding; bp_baseDigest := db_digest binding;
          bp_proposedDigest := digestBytes encoded; bp_operations := operations; bp_state := ProposalPending;
          bp_createdAt := toISOString now; bp_updatedAt := toISOString now |} in
        let? (state, result) := proposal_commit draftId sessionId binding (bs_subject session) proposal current in
        Ok (state, Ok {| rp_status := if snd result : bool then 200 else 201;
                         rp_body := WObj [(js "proposal", publicBuilderProposal (fst result) (Some before))] |})
    end).

(** ** Applying *)

(** The callback of the write: inside the transaction that saves the revision
    the proposal becomes applied and the session is bound to the new revision. *)
Definition apply_proposal (draftId sessionId proposalId : jstr) (binding : DraftBinding) (principal : Principal)
    (commitNow : Z) (mutable : RegistryState) (updated : SkillDraft) : authoring RegistryState :=
  match findBuilderSession mutable draftId sessionId with
  | None => Err unavailableDraft
  | Some session =>
      match find_proposal session proposalId principal with
      | None => Err unavailableDraft
      | Some proposal =>
          throw_if negb (jeqb (bs_subject session) (pr_subject principal)) with unavailableDraft ;;
          throw_if negb (bool_decide (bp_state proposal = ProposalPending)) ||
                   negb (bs_draftRevision session =? db_revision binding) ||
                   negb (jeqb (bs_draftDigest session) (db_digest binding)) ||
                   negb (dr_revision updated =? db_revision binding + 1) ||
                   negb (jeqb (dr_digest updated) (bp_proposedDigest proposal)) with DRAFT_CONFLICT ;;
          Ok (update_builder_session draftId sessionId (fun b =>
                with_session_proposals
                  (update_first (is_proposal proposalId principal)
                     (with_proposal_state ProposalApplied (toISOString commitNow)) (bs_proposals b))
                  (dr_revision updated) (dr_digest updated) (toISOString commitNow) b) mutable)
      end
  end.
Definition proposal_draft_wire (proposal : SkillBuilderProposalRecord) (before : option (list BundleFile))
    (publicDraft : wire) : wire :=
  WObj [(js "proposal", publicBuilderProposal proposal before); (js "draft", publicDraft)].
Definition mark_applied (p : SkillBuilderProposalRecord) : SkillBuilderProposalRecord :=
  with_proposal_state ProposalApplied (bp_updatedAt p) p.
(** The draft the size check runs on before the write. *)
Definition apply_preflight (draft : SkillDraft) (subject : jstr) (binding : DraftBinding) (after : list BundleFile)
    (encoded : list Z) (manifest : list SkillDraftFileManifestEntry) (now : Z) : SkillDraft :=
  let digest := digestBytes encoded in
  let record := create_record (js "__draft-response-preflight__") subject digest digest
                  (responsePreflightArtifact digest (jlen encoded)) manifest (toISOString now)
                  (db_revision binding + 1) in
  saved_draft draft record after (default [] (dr_idempotency draft) ++ [record]).
(** [applyBuilderProposal]: [refreshed] is read again when the write was
    already done by an earlier request. *)
Definition applyBuilderProposal (body : jsval) (header : option jstr) (draftId proposalId : jstr)
    (principal : Principal) (auditId : jstr) (now commitNow : Z) (state snapshot refreshed current : RegistryState)
    : handled DraftResponse :=
  uncommitted_as current (
    let? binding := parseBuilderBodyBinding body draftId in
    let? sessionId := requireSafeBuilderId (field body "sessionId") in
    let? key := requireBuilderRequestKey header in
    match findBuilderSession state draftId sessionId with
    | None => Err unavailableDraft
    | Some session =>
    match find_proposal session proposalId principal with
    | None => Err unavailableDraft
    | Some proposal =>
    throw_if negb (jeqb (bs_subject session) (pr_subject principal)) with unavailableDraft ;;
    match bp_state proposal with
    | ProposalApplied =>
        let? currentDraft := findDraft state draftId principal organizationId in
        let? fs := readDraftBundle currentDraft in
        let? publicDraft := toPublicDraft currentDraft fs in
        Ok (current, draft_response 200 (proposal_draft_wire proposal None publicDraft))
    | ProposalRejected | ProposalStale => Err DRAFT_CONFLICT
    | ProposalPending =>
        let? draft := findBuilderDraft state binding principal false in
        throw_if negb (bp_baseRevision proposal =? db_revision binding) ||
                 negb (jeqb (bp_baseDigest proposal) (db_digest binding)) with revisionConflict (dr_revision draft) ;;
        let? before := readDraftBundle draft in
        let? after := applyBuilderOperations before (bp_operations proposal) in
        let? encoded := encode_files after in
        let? manifest := compactManifest after in
        let envelope := proposal_draft_wire (mark_applied proposal) (Some before) in
        let? _ := assertDraftEnvelopeFits (apply_preflight draft (pr_subject principal) binding after encoded manifest now)
                    after envelope in
        let (state', answer) := writeDraftRevision organizationId
          {| wi_draftId := draftId; wi_expectedRevision := JNum (num_of_Z (bp_baseRevision proposal));
             wi_files := files_value after; wi_expectedDigest := JUndef; wi_idempotencyKey := Some key;
             wi_kind := BuilderProposalKind (JStr proposalId)
                          (apply_proposal draftId sessionId proposalId binding principal commitNow);
             wi_envelope := Some envelope |} principal auditId now snapshot current in
        Ok (state',
          let? written := answer in
          let settled s := match findBuilderSession s draftId sessionId with
                           | None => None
                           | Some b => find_proposal b proposalId principal
                           end in
          let? updated := match settled (if wr_idempotent written then refreshed else state') with
                          | Some p => throw_if wr_idempotent written && negb (bool_decide (bp_state p = ProposalApplied))
                                        with DRAFT_CONFLICT ;; Ok p
                          | None => Err DRAFT_CONFLICT
                          end in
          let? publicDraft := toPublicDraft (wr_draft written) (wr_files written) in
          draft_response 200 (proposal_draft_wire updated (Some before) publicDraft))
    end
    end
    end).

(** ** Rejecting *)

Definition rejectBuilderProposal (body : jsval) (header : option jstr) (draftId proposalId : jstr)
    (principal : Principal) (auditId : jstr) (now : Z) (current : RegistryState) : handled DraftResponse :=
  uncommitted_as current (
    let? binding := parseBuilderBodyBinding body draftId in
    let? sessionId := requireSafeBuilderId (field body "sessionId") in
    let? _ := requireBuilderRequestKey header in
    let? draft := findBuilderDraft current binding principal false in
    match findBuilderSession current draftId sessionId with
    | None => Err unavailableDraft
    | Some session =>
        match find_proposal session proposalId principal with
        | None => Err unavailableDraft
        | Some proposal =>
            let answer p := Ok {| rp_status := 200; rp_body := WObj [(js "proposal", publicBuilderProposal p None)] |} in
            if bool_decide (bp_state proposal = ProposalPending) then
              let rejected := with_proposal_state ProposalRejected (toISOString now) in
              let state := update_builder_session draftId sessionId (fun b =>
                with_session_proposals (update_first (is_proposal proposalId principal) rejected (bs_proposals b))
                  (bs_draftRevision b) (bs_draftDigest b) (toISOString now) b) current in
              Ok (appendAudit (draft_audit organizationId principal auditId (js "draft.builder.proposal.rejected") draft
                    [(js "source", JStr (js "builder-proposal")); (js "proposalId", JStr proposalId)] (toISOString now))
                    state, answer (rejected proposal))
            else Ok (current, answer proposal)
        end
    end).

(** ** The routes *)

Definition isBuilderServiceRequest (toolIdentity : option jstr) (principal : Principal) : bool :=
  negb (is_worker_identity principal) && negb (hasRole principal Worker) && is_publisher_role principal &&
  match pr_scopes principal with
  | Some scopes => bool_decide (js "skills:builder" ∈ scopes)
  | None => false
  end && bool_decide (toolIdentity = Some (js "skill-builder")).
Inductive BuilderRoute : Type :=
| RouteContext (revisions digests : list jstr)
| RouteBuilderFile (revisions digests paths : list jstr)
| RouteProposals (revisions digests : list jstr)
| RoutePropose (body : jsval) (key : option jstr)
| RouteApply (proposalId : jstr) (body : jsval) (key : option jstr)
| RouteReject (proposalId : jstr) (body : jsval) (key : option jstr).
(** The routes the agent itself may use. *)
Definition isBuilderInternalRoute (route : BuilderRoute) : bool :=
  match route with
  | RouteContext _ _ | RouteBuilderFile _ _ _ | RouteProposals _ _ | RoutePropose _ _ => true
  | RouteApply _ _ _ | RouteReject _ _ _ => false
  end.
Inductive BuilderAnswer : Type :=
| AnswerContext (binding : DraftBinding) (files : list BuilderContextFile)
| AnswerContent (view : BuilderFileView)
| AnswerProposals (proposals : list SkillBuilderProposalRecord) (before : list BundleFile)
| AnswerProposal (response : DraftResponse).
Record BuilderIds : Type := {
  bi_proposalId : jstr;
  bi_auditId : jstr;
}.
(** Who may use a route: the agent, or a publisher. *)
Definition admitBuilderRoute (principal : option Principal) (toolIdentity : option jstr) (draftId : jstr)
    (route : BuilderRoute) : authoring (Principal * bool) :=
  match principal with
  | None => Err (authoring_error "UNAUTHORIZED" 401)
  | Some p =>
      throw_if negb (jeqb (pr_organizationId p) organizationId) with authoring_error "UNAUTHORIZED" 401 ;;
      throw_if negb (isSafeId draftId) with unavailableDraft ;;
      let internal := isBuilderServiceRequest toolIdentity p in
      throw_if internal && negb (isBuilderInternalRoute route) with authoring_error "FORBIDDEN" 403 ;;
      let? _ := if internal then Ok tt else assertPublisher p in
      throw_if match route with
               | RoutePropose _ _ => negb internal
               | _ => false
               end with authoring_error "FORBIDDEN" 403 ;;
      throw_if match route with
               | RouteApply id _ _ | RouteReject id _ _ => negb (isSafeId id)
               | _ => false
               end with unavailableDraft ;;
      Ok (p, internal)
  end.
(** [handleBuilderDraftRoute]. *)
Definition builderHandler (principal : option Principal) (toolIdentity : option jstr) (draftId : jstr)
    (route : BuilderRoute) (ids : BuilderIds) (now commitNow : Z)
    (state snapshot refreshed current : RegistryState) : handled BuilderAnswer :=
  match admitBuilderRoute principal toolIdentity draftId route with
  | Err e => (current, Err e)
  | Ok (p, internal) =>
      let proposal (h : handled DraftResponse) :=
        (h.1, match h.2 with Ok a => Ok (AnswerProposal a) | Err e => Err e end) in
      match route with
      | RouteContext revisions digests =>
          (current, let? (binding, fs) := builderContext revisions digests draftId p internal state in
                    Ok (AnswerContext binding fs))
      | RouteBuilderFile revisions digests paths =>
          (current, let? view := builderFile revisions digests paths draftId p internal state in
                    Ok (AnswerContent view))
      | RouteProposals revisions digests =>
          (current, let? (proposals, fs) := listBuilderProposals revisions digests draftId p state in
                    Ok (AnswerProposals proposals fs))
      | RoutePropose body key =>
          proposal (createBuilderProposal body key draftId p (bi_proposalId ids) now state current)
      | RouteApply proposalId body key =>
          proposal (applyBuilderProposal body key draftId proposalId p (bi_auditId ids) now commitNow state snapshot
                      refreshed current)
      | RouteReject proposalId body key =>
          proposal (rejectBuilderProposal body key draftId proposalId p (bi_auditId ids) now current)
      end
  end.
End Builder.
