(* ===== verification/BuilderSessions.v ===== *)
(** * Builder sessions

    packages/core/src/builder.ts: the facade a browser uses to talk to the
    external builder agent about one revision of a draft.  The registry keeps
    a session per draft revision and subject, admits one prompt at a time and
    records every prompt under its request id.

    A request that calls the agent runs several transactions; each is a
    definition of its own, so that other requests can come between them.  What
    the agent answers is an argument.  The path of a prompt always names its
    session, so the branch of [sendPrompt] without one is left out. *)

From Stdlib Require Import ZArith Lia.
From stdpp Require Import base list strings sets.
From S2P Require Import Prelude Js Dates Json Wire Bundle Contracts Numbers Web Access Names Provenance.
From S2P Require Import UploadReviews Authoring Drafts SkillBuilder DraftHandlers Builder.

Local Open Scope Z_scope.

Definition MAX_TURNS : nat := 200.
Definition MAX_TURN_TEXT_BYTES : Z := 64 * 1024.
Definition MAX_REQUESTS : nat := 64.
Definition MAX_PROMPT_BYTES : Z := 8000.
Definition MAX_REQUEST_ID_BYTES : Z := 256.

(** [BuilderApiError]: a code and a status, as in the authoring routes. *)
Definition builderError (code : string) (status : Z) : AuthoringApiError := authoring_error code status.
Definition STALE_BINDING : AuthoringApiError := builderError "STALE_BINDING" 409.
Definition BUILDER_BUSY : AuthoringApiError := builderError "BUILDER_BUSY" 409.
Definition SESSION_NOT_FOUND : AuthoringApiError := builderError "BUILDER_SESSION_NOT_FOUND" 404.
Definition SESSION_TERMINAL : AuthoringApiError := builderError "BUILDER_SESSION_TERMINAL" 409.
Definition RECONCILIATION_REQUIRED : AuthoringApiError := builderError "BUILDER_RECONCILIATION_REQUIRED" 409.
Definition BUILDER_UPSTREAM : AuthoringApiError := builderError "BUILDER_UPSTREAM" 502.

(** ** Changing a session *)

(** What a prompt changes of a session. *)
Record SessionProgress : Type := {
  sp_eveSessionId : jstr;
  sp_activeTurnId : option jstr;
  sp_activeRequestId : option jstr;
  sp_state : SkillBuilderSessionState;
  sp_requests : list SkillBuilderRequestRecord;
  sp_updatedAt : jstr;
}.
Definition progress (b : SkillBuilderSessionRecord) : SessionProgress := {|
  sp_eveSessionId := bs_eveSessionId b; sp_activeTurnId := bs_activeTurnId b;
  sp_activeRequestId := bs_activeRequestId b; sp_state := bs_state b; sp_requests := bs_requests b;
  sp_updatedAt := bs_updatedAt b |}.
Definition with_progress (p : SessionProgress) (b : SkillBuilderSessionRecord) : SkillBuilderSessionRecord := {|
  bs_id := bs_id b; bs_organizationId := bs_organizationId b; bs_subject := bs_subject b;
  bs_draftId := bs_draftId b; bs_draftRevision := bs_draftRevision b; bs_draftDigest := bs_draftDigest b;
  bs_sessionKey := bs_sessionKey b; bs_eveSessionId := sp_eveSessionId p; bs_activeTurnId := sp_activeTurnId p;
  bs_activeRequestId := sp_activeRequestId p; bs_state := sp_state p; bs_requests := sp_requests p;
  bs_proposals := bs_proposals b; bs_createdAt := bs_createdAt b; bs_updatedAt := sp_updatedAt p |}.

Definition request_of (b : SkillBuilderSessionRecord) (id : jstr) : option SkillBuilderRequestRecord :=
  find_first (fun r => jeqb (br_id r) id) (bs_requests b).
Definition with_request_state (v : SkillBuilderRequestState) (updatedAt : jstr) (r : SkillBuilderRequestRecord)
    : SkillBuilderRequestRecord := {|
  br_id := br_id r; br_requestDigest := br_requestDigest r; br_state := v; br_proposalId := br_proposalId r;
  br_createdAt := br_createdAt r; br_updatedAt := updatedAt |}.
(** The requests of a session after [rememberRequest]. *)
Definition rememberRequest (requests : list SkillBuilderRequestRecord) (id requestDigest : jstr)
    (state : SkillBuilderRequestState) (now : jstr) : authoring (list SkillBuilderRequestRecord) :=
  match find_first (fun r => jeqb (br_id r) id) requests with
  | Some current =>
      throw_if negb (jeqb (br_requestDigest current) requestDigest) with idempotencyConflict ;;
      Ok (update_first (fun r => jeqb (br_id r) id) (with_request_state state now) requests)
  | None =>
      Ok (last_n (MAX_REQUESTS - 1) requests ++
          [{| br_id := id; br_requestDigest := requestDigest; br_state := state; br_proposalId := None;
              br_createdAt := now; br_updatedAt := now |}])
  end.
Definition is_terminal_restartable (b : SkillBuilderSessionRecord) : bool :=
  is_terminal b &&
  match bs_activeRequestId b with Some (_ :: _) => false | _ => true end &&
  negb (existsb (fun r => bool_decide (br_state r = RequestAccepted) || bool_decide (br_state r = RequestUncertain))
          (bs_requests b)) &&
  negb (existsb (fun p => bool_decide (bp_state p = ProposalPending)) (bs_proposals b)).

Section Sessions.
Context {DR : DateRuntime} {UT : UnicodeTables} {UR : UrlRuntime} {CO : Collation} {CR : Crypto}.
Context (organizationId : jstr).

(** ** Request fields *)

Definition boundedText (value : jsval) (maximumBytes : Z) : authoring jstr :=
  match value with
  | JStr s =>
      throw_if (jlen (trim s) =? 0) || (maximumBytes <? utf8Bytes s) || UNSUPPORTED_TEXT_CONTROL_CHARACTER s
        with INVALID_REQUEST ;;
      Ok s
  | _ => Err INVALID_REQUEST
  end.
Definition optionalSelectedPath (value : jsval) : authoring (option jstr) :=
  match value with
  | JUndef => Ok None
  | JStr s => throw_if (jlen s =? 0) || (4096 <? jlen s) || CONTROL_CHARACTER s with INVALID_REQUEST ;; Ok (Some s)
  | _ => Err INVALID_REQUEST
  end.
(** [boundedSessionId] of a string. *)
Definition boundedSessionId (s : jstr) : authoring unit := throw_if negb (isSafeId s) with INVALID_REQUEST ;; Ok tt.
Definition is_blank (values : list jstr) : bool := match values with v :: _ => jeqb (trim v) [] | [] => true end.
Definition parseBindingFromRequest (revisions digests : list jstr) (draftId : jstr) (fallbackRevision : Z)
    (fallbackDigest : jstr) (required : bool) : authoring DraftBinding :=
  throw_if required && (is_blank revisions || is_blank digests) with INVALID_REQUEST ;;
  let revision := match revisions with
                  | v :: _ => if is_blank revisions then num_of_Z fallbackRevision else stringToNumber v
                  | [] => num_of_Z fallbackRevision
                  end in
  let digest := match digests with
                | v :: _ => if is_blank digests then fallbackDigest else v
                | [] => fallbackDigest
                end in
  let? binding := builder_checked (validateDraftBinding (JObj [
    (js "draftId", JStr draftId); (js "revision", JNum revision); (js "digest", JStr digest)])) in
  throw_if negb (jeqb (db_draftId binding) draftId) with INVALID_REQUEST ;;
  Ok binding.
Definition is_undefined (v : jsval) : bool := match v with JUndef => true | _ => false end.
(** [value !== undefined && value !== draftId]. *)
Definition other_draft (value : jsval) (draftId : jstr) : bool :=
  match value with
  | JUndef => false
  | JStr s => negb (jeqb s draftId)
  | _ => true
  end.
Definition assertBodyBinding (body : jsval) (binding : DraftBinding) (draftId : jstr) : authoring unit :=
  throw_if other_draft (field body "draftId") draftId with STALE_BINDING ;;
  let rawRevision := nullish (field body "revision") (field body "draftRevision") in
  let rawDigest := nullish (field body "digest") (field body "draftDigest") in
  throw_if is_undefined rawRevision || is_undefined rawDigest with INVALID_REQUEST ;;
  let revision := match rawRevision with JStr s => JNum (stringToNumber s) | v => v end in
  match validateDraftBinding (JObj [(js "draftId", JStr draftId); (js "revision", revision); (js "digest", rawDigest)]) with
  | Err _ => Err STALE_BINDING
  | Ok candidate =>
      throw_if negb (db_revision candidate =? db_revision binding) || negb (jeqb (db_digest candidate) (db_digest binding))
        with STALE_BINDING ;;
      Ok tt
  end.
Definition assertOptionalBodyBinding (body : jsval) (binding : DraftBinding) (draftId : jstr) : authoring unit :=
  throw_if other_draft (field body "draftId") draftId with STALE_BINDING ;;
  let hasRevision := negb (is_undefined (field body "revision")) || negb (is_undefined (field body "draftRevision")) in
  let hasDigest := negb (is_undefined (field body "digest")) || negb (is_undefined (field body "draftDigest")) in
  if negb hasRevision && negb hasDigest then Ok tt else assertBodyBinding body binding draftId.
(** The headers of a request that changes something. *)
Definition assertSameOriginMutation (fetchSite origin cookie : option jstr) (publicOrigin : jstr) : authoring unit :=
  let denied := builderError "CSRF_DENIED" 403 in
  throw_if match fetchSite with Some site => jeqb (toLowerCase site) (js "cross-site") | None => false end with denied ;;
  match origin with
  | None | Some [] => throw_if match cookie with Some (_ :: _) => true | _ => false end with denied ;; Ok tt
  | Some o =>
      match parseURL o, parseURL publicOrigin with
      | Some u, Some v => throw_if negb (jeqb (url_origin u) (url_origin v)) with denied ;; Ok tt
      | _, _ => Err denied
      end
  end.

(** ** Access *)

(** [readBoundDraft]: the open draft, for a publisher who can read it. *)
Definition readBoundDraft (state : RegistryState) (draftId : jstr) (principal : Principal) : authoring SkillDraft :=
  match find_first (fun d => jeqb (dr_id d) draftId && jeqb (dr_organizationId d) organizationId)
          (default [] (st_drafts state)) with
  | None => Err unavailableDraft
  | Some draft =>
      throw_if negb (namespaceReadable principal (dr_name draft)) with unavailableDraft ;;
      let? _ := assertPublisher principal in
      throw_if negb (bool_decide (dr_status draft = DraftOpen)) with DRAFT_CLOSED ;;
      Ok draft
  end.
(** What every route of the facade establishes first: the current revision. *)
Definition bound_revision (state : RegistryState) (revisions digests : list jstr) (draftId : jstr)
    (principal : Principal) (required : bool) : authoring DraftBinding :=
  let? draft := readBoundDraft state draftId principal in
  let? binding := parseBindingFromRequest revisions digests draftId (dr_revision draft) (dr_digest draft) required in
  throw_if negb (db_revision binding =? dr_revision draft) || negb (jeqb (db_digest binding) (dr_digest draft))
    with STALE_BINDING ;;
  Ok binding.
Definition is_owned (draftId sessionId : jstr) (principal : Principal) (b : SkillBuilderSessionRecord) : bool :=
  jeqb (bs_id b) sessionId && jeqb (bs_organizationId b) (pr_organizationId principal) &&
  jeqb (bs_subject b) (pr_subject principal) && jeqb (bs_draftId b) draftId.
Definition findOwnedSession (state : RegistryState) (draftId sessionId : jstr) (principal : Principal)
    : authoring SkillBuilderSessionRecord :=
  match find_first (is_owned draftId sessionId principal) (sessions state) with
  | None => Err SESSION_NOT_FOUND
  | Some b => Ok b
  end.
Definition binds (b : SkillBuilderSessionRecord) (binding : DraftBinding) : bool :=
  (bs_draftRevision b =? db_revision binding) && jeqb (bs_draftDigest b) (db_digest binding).
Definition assertSessionBinding (b : SkillBuilderSessionRecord) (principal : Principal) (binding : DraftBinding)
    (requireEve : bool) : authoring unit :=
  throw_if negb (jeqb (bs_organizationId b) (pr_organizationId principal)) ||
           negb (jeqb (bs_subject b) (pr_subject principal)) || negb (jeqb (bs_draftId b) (db_draftId binding)) ||
           negb (binds b binding) || requireEve && jeqb (bs_eveSessionId b) [] with STALE_BINDING ;;
  Ok tt.
Definition compareUpdated (left right : SkillBuilderSessionRecord) : comparison :=
  Z.compare (localeCompare (bs_updatedAt left) (bs_updatedAt right)) 0.

(** The first session a test accepts, changed in place. *)
Definition change_session (p : SkillBuilderSessionRecord -> bool) (b : SkillBuilderSessionRecord) (s : RegistryState)
    : RegistryState := with_st_builderSessions (option_map (update_first p (fun _ => b)) (st_builderSessions s)) s.

(** ** Creating a session *)

Definition new_session (principal : Principal) (binding : DraftBinding) (id key now : jstr)
    : SkillBuilderSessionRecord := {|
  bs_id := id; bs_organizationId := pr_organizationId principal; bs_subject := pr_subject principal;
  bs_draftId := db_draftId binding; bs_draftRevision := db_revision binding; bs_draftDigest := db_digest binding;
  bs_sessionKey := key; bs_eveSessionId := []; bs_activeTurnId := None; bs_activeRequestId := None;
  bs_state := SessionReady; bs_requests := []; bs_proposals := []; bs_createdAt := now; bs_updatedAt := now |}.
(** Sessions of the caller for a revision. *)
Definition sessions_of (principal : Principal) (binding : DraftBinding) (l : list SkillBuilderSessionRecord)
    : list SkillBuilderSessionRecord :=
  List.filter (fun b => jeqb (bs_organizationId b) (pr_organizationId principal) &&
                        jeqb (bs_subject b) (pr_subject principal) && jeqb (bs_draftId b) (db_draftId binding) &&
                        binds b binding) l.
Definition createPendingSession (principal : Principal) (binding : DraftBinding) (id key : jstr) (now : Z)
    (current : RegistryState) : RegistryState * SkillBuilderSessionRecord :=
  let l := sessions current in
  let candidates := List.filter (fun b => negb (is_terminal_restartable b)) (sessions_of principal binding l) in
  match last (js_sort compareUpdated candidates) with
  | Some existing => (with_st_builderSessions (Some l) current, existing)
  | None =>
      let record := new_session principal binding id key (toISOString now) in
      (with_st_builderSessions (Some (l ++ [record])) current, record)
  end.
(** [createSession], after the binding. *)
Definition createSession (body : jsval) (binding : DraftBinding) (draftId : jstr) (principal : Principal)
    (id key : jstr) (now : Z) (current : RegistryState) : handled SkillBuilderSessionRecord :=
  uncommitted_as current (
    let? _ := assertBodyBinding body binding draftId in
    let? _ := boundedText (field body "requestId") MAX_REQUEST_ID_BYTES in
    let (state, record) := createPendingSession principal binding id key now current in
    Ok (state, Ok record)).

(** ** A prompt *)

Definition builder_request_digest (binding : DraftBinding) (sessionId prompt : jstr) (selectedPath : option jstr) : jstr :=
  digestText (WObj ([(js "draftId", WStr (db_draftId binding)); (js "revision", WInt (db_revision binding));
                     (js "digest", WStr (db_digest binding)); (js "sessionId", WStr sessionId);
                     (js "prompt", WStr prompt)] ++ wire_option "selectedPath" WStr selectedPath)).
Definition unresolved_request (b : SkillBuilderSessionRecord) (state : SkillBuilderRequestState) : option jstr :=
  br_id <$> find_first (fun r => bool_decide (br_state r = state)) (bs_requests b).
(** The request that occupies a session. *)
Definition active_request (b : SkillBuilderSessionRecord) : option jstr :=
  match bs_activeRequestId b with
  | Some id => Some id
  | None => unresolved_request b RequestAccepted
  end.
(** The tests of [reserveRequest] on a request that is not completed. *)
Definition assert_reservable (b : SkillBuilderSessionRecord) (requestId : jstr) : authoring unit :=
  throw_if match unresolved_request b RequestUncertain with
           | Some id => negb (jeqb id requestId)
           | None => false
           end with RECONCILIATION_REQUIRED ;;
  throw_if is_terminal b with SESSION_TERMINAL ;;
  throw_if match active_request b with
           | Some (c :: id) => negb (jeqb (c :: id) requestId)
           | _ => false
           end with BUILDER_BUSY ;;
  throw_if bool_decide (br_state <$> request_of b requestId = Some RequestAccepted) ||
           bool_decide (bs_state b = SessionRunning) with BUILDER_BUSY ;;
  Ok tt.
Definition reserveRequest (sessionId requestId : jstr) (binding : DraftBinding) (requestDigest : jstr)
    (principal : Principal) (now : Z) (current : RegistryState)
    : authoring (RegistryState * SkillBuilderSessionRecord) :=
  let? b := findOwnedSession current (db_draftId binding) sessionId principal in
  let? _ := assertSessionBinding b principal binding false in
  throw_if match request_of b requestId with
           | Some r => negb (jeqb (br_requestDigest r) requestDigest)
           | None => false
           end with idempotencyConflict ;;
  if bool_decide (br_state <$> request_of b requestId = Some RequestCompleted) then Ok (current, b)
  else
    let? _ := assert_reservable b requestId in
    let? requests := rememberRequest (bs_requests b) requestId requestDigest RequestAccepted (toISOString now) in
    let reserved := with_progress {|
      sp_eveSessionId := bs_eveSessionId b; sp_activeTurnId := bs_activeTurnId b;
      sp_activeRequestId := Some requestId; sp_state := bs_state b; sp_requests := requests;
      sp_updatedAt := bs_updatedAt b |} b in
    Ok (change_session (is_owned (db_draftId binding) sessionId principal) reserved current, reserved).

Record PromptRequest : Type := {
  pq_prompt : jstr;
  pq_requestId : jstr;
  pq_selectedPath : option jstr;
}.
(** [sendPrompt] up to the call of the agent. *)
Definition sendPrompt (body : jsval) (binding : DraftBinding) (sessionId : jstr) (principal : Principal) (now : Z)
    (snapshot current : RegistryState) : handled (PromptRequest * SkillBuilderSessionRecord) :=
  uncommitted_as current (
    let? _ := assertOptionalBodyBinding body binding (db_draftId binding) in
    let? prompt := boundedText (field body "prompt") MAX_PROMPT_BYTES in
    let? requestId := boundedText (field body "requestId") MAX_REQUEST_ID_BYTES in
    let? selectedPath := optionalSelectedPath (field body "selectedPath") in
    let? candidate := findOwnedSession snapshot (db_draftId binding) sessionId principal in
    let? _ := assertSessionBinding candidate principal binding false in
    let requestDigest := builder_request_digest binding (bs_id candidate) prompt selectedPath in
    let? (state, record) := reserveRequest (bs_id candidate) requestId binding requestDigest principal now current in
    Ok (state, Ok ({| pq_prompt := prompt; pq_requestId := requestId; pq_selectedPath := selectedPath |}, record))).

(** The request is bound to the agent's session. *)
Definition is_bound (sessionId : jstr) (binding : DraftBinding) (b : SkillBuilderSessionRecord) : bool :=
  jeqb (bs_id b) sessionId && jeqb (bs_draftId b) (db_draftId binding).
Definition bindAcceptedSession (sessionId requestId : jstr) (binding : DraftBinding) (eveSessionId : jstr) (now : Z)
    (current : RegistryState) : authoring (RegistryState * SkillBuilderSessionRecord) :=
  match find_first (is_bound sessionId binding) (sessions current) with
  | None => Err STALE_BINDING
  | Some b =>
      throw_if negb (binds b binding) with STALE_BINDING ;;
      throw_if is_terminal b with SESSION_TERMINAL ;;
      throw_if negb (jeqb (bs_eveSessionId b) []) && negb (jeqb (bs_eveSessionId b) eveSessionId) with BUILDER_UPSTREAM ;;
      match request_of b requestId with
      | None => Err BUILDER_UPSTREAM
      | Some request =>
          let? requests := rememberRequest (bs_requests b) requestId (br_requestDigest request) RequestCompleted
                             (toISOString now) in
          let accepted := with_progress {|
            sp_eveSessionId := eveSessionId; sp_activeTurnId := bs_activeTurnId b;
            sp_activeRequestId := bs_activeRequestId b; sp_state := SessionRunning; sp_requests := requests;
            sp_updatedAt := toISOString now |} b in
          Ok (change_session (is_bound sessionId binding) accepted current, accepted)
      end
  end.
(** [markRequest]; nothing happens without the session. *)
Definition has_id (sessionId : jstr) (b : SkillBuilderSessionRecord) : bool := jeqb (bs_id b) sessionId.
Definition frees (status : SkillBuilderRequestState) : bool :=
  bool_decide (status = RequestFailed) || bool_decide (status = RequestUncertain).
Definition markRequest (sessionId requestId requestDigest : jstr) (status : SkillBuilderRequestState) (now : Z)
    (current : RegistryState) : authoring RegistryState :=
  match find_first (has_id sessionId) (sessions current) with
  | None => Ok current
  | Some b =>
      let? requests := rememberRequest (bs_requests b) requestId requestDigest status (toISOString now) in
      let active := if frees status && bool_decide (bs_activeRequestId b = Some requestId) then None
                    else bs_activeRequestId b in
      Ok (change_session (has_id sessionId) (with_progress {|
            sp_eveSessionId := bs_eveSessionId b; sp_activeTurnId := bs_activeTurnId b;
            sp_activeRequestId := active; sp_state := bs_state b; sp_requests := requests;
            sp_updatedAt := bs_updatedAt b |} b) current)
  end.
Definition acceptance_expected (record : SkillBuilderSessionRecord) (binding : DraftBinding) (request : PromptRequest)
    (requestDigest : jstr) : BuilderSessionAcceptanceExpectation := {|
  ex_sessionKey := bs_sessionKey record; ex_registrySessionId := bs_id record; ex_binding := binding;
  ex_requestId := pq_requestId request; ex_requestDigest := requestDigest;
  ex_selectedPath := pq_selectedPath request |}.
(** The transaction after the call: [response] is the parsed body of a
    successful answer.  Anything but the expected acceptance leaves the request
    uncertain. *)
Definition settlePrompt (record : SkillBuilderSessionRecord) (request : PromptRequest) (binding : DraftBinding)
    (response : option jsval) (now : Z) (current : RegistryState) : handled SkillBuilderSessionRecord :=
  uncommitted_as current (
    match request_of record (pq_requestId request) with
    | None => Err (builderError "BUILDER_UNAVAILABLE" 500)
    | Some r =>
        let accepted := match response with
                        | None => None
                        | Some value =>
                            match validateBuilderSessionAcceptance value
                                    (acceptance_expected record binding request (br_requestDigest r)) with
                            | Ok a => Some (ac_sessionId a)
                            | Err _ => None
                            end
                        end in
        match accepted with
        | Some eveSessionId =>
            let? (state, bound) := bindAcceptedSession (bs_id record) (pq_requestId request) binding eveSessionId now current in
            Ok (state, Ok bound)
        | None =>
            let? state := markRequest (bs_id record) (pq_requestId request) (br_requestDigest r) RequestUncertain now current in
            Ok (state, Err BUILDER_UPSTREAM)
        end
    end).

(** ** What the agent reports *)

Definition parse_event (line : jstr) : authoring (option jsval) :=
  if jeqb (trim line) [] then Ok None
  else match json_parse line with
       | None => Err BUILDER_UPSTREAM
       | Some value => Ok (if isRecord value then Some value else None)
       end.
Definition parse_events (text : jstr) : authoring (list jsval) :=
  let? events := map_result parse_event (split 10 text) in
  Ok (omap id events).
Record SessionSnapshot : Type := {
  sn_activeTurnId : option jstr;
  sn_lifecycle : option SkillBuilderSessionState;
  sn_terminalBoundary : option SkillBuilderSessionState;
}.
Definition event_is (event : jsval) (names : list string) : bool :=
  match field event "type" with
  | JStr s => existsb (fun n => jeqb s (js n)) names
  | _ => false
  end.
Definition snapshot_event (s : SessionSnapshot) (event : jsval) : SessionSnapshot :=
  let turn := match field (field event "data") "turnId" with
              | JStr (c :: id) => Some (c :: id)
              | _ => sn_activeTurnId s
              end in
  let report lifecycle boundary :=
    {| sn_activeTurnId := turn; sn_lifecycle := Some lifecycle; sn_terminalBoundary := boundary |} in
  if event_is event ["session.waiting"]%string
  then report (default SessionReady (sn_terminalBoundary s)) (sn_terminalBoundary s)
  else if event_is event ["session.failed"; "turn.failed"; "step.failed"]%string
  then report SessionFailed (Some SessionFailed)
  else if event_is event ["session.completed"]%string then report SessionCompleted None
  else if event_is event ["turn.cancelled"]%string then report SessionStopped (Some SessionStopped)
  else if event_is event ["turn.started"; "step.started"; "message.received"]%string then report SessionRunning None
  else {| sn_activeTurnId := turn; sn_lifecycle := sn_lifecycle s; sn_terminalBoundary := sn_terminalBoundary s |}.
Definition session_snapshot (events : list jsval) : SessionSnapshot :=
  fold_left snapshot_event events {| sn_activeTurnId := None; sn_lifecycle := None; sn_terminalBoundary := None |}.

Definition settled_lifecycle (l : option SkillBuilderSessionState) : bool :=
  match l with
  | Some SessionReady | Some SessionFailed | Some SessionStopped | Some SessionCompleted => true
  | Some SessionRunning | None => false
  end.
(** The updater of [reconcileSnapshot]; a stopped session stays so. *)
Definition reconciled (snapshot : SessionSnapshot) (now : jstr) (b : SkillBuilderSessionRecord)
    : SkillBuilderSessionRecord :=
  if bool_decide (bs_state b = SessionStopped)
  then with_progress {| sp_eveSessionId := bs_eveSessionId b; sp_activeTurnId := bs_activeTurnId b;
         sp_activeRequestId := bs_activeRequestId b; sp_state := bs_state b; sp_requests := bs_requests b;
         sp_updatedAt := now |} b
  else
    let settled := settled_lifecycle (sn_lifecycle snapshot) in
    with_progress {|
      sp_eveSessionId := bs_eveSessionId b;
      sp_activeTurnId := if settled then None
                         else match sn_activeTurnId snapshot with Some t => Some t | None => bs_activeTurnId b end;
      sp_activeRequestId := if settled then None else bs_activeRequestId b;
      sp_state := default (bs_state b) (sn_lifecycle snapshot);
      sp_requests := bs_requests b; sp_updatedAt := now |} b.
Definition reconcileSnapshot (sessionId : jstr) (snapshot : SessionSnapshot) (now : Z) (current : RegistryState)
    : RegistryState :=
  match find_first (has_id sessionId) (sessions current) with
  | None => current
  | Some b => change_session (has_id sessionId) (reconciled snapshot (toISOString now) b) current
  end.

(** ** Loading a session *)

(** The record [loadSession] works on. *)
Definition loaded_session (state : RegistryState) (binding : DraftBinding) (principal : Principal)
    (requestedSessionId : option jstr) : authoring SkillBuilderSessionRecord :=
  let mine := List.filter (fun b => jeqb (bs_organizationId b) organizationId &&
                jeqb (bs_subject b) (pr_subject principal) && jeqb (bs_draftId b) (db_draftId binding)) (sessions state) in
  match match requestedSessionId with
        | None => last (js_sort compareUpdated (List.filter (fun b => binds b binding) mine))
        | Some id => find_first (has_id id) mine
        end with
  | None => Err SESSION_NOT_FOUND
  | Some record => let? _ := assertSessionBinding record principal binding false in Ok record
  end.
(** [loadSession]: [text] is the agent's event stream, asked for when the
    session has a conversation. *)
Definition loadSession (binding : DraftBinding) (principal : Principal) (requestedSessionId : option jstr)
    (text : jstr) (now : Z) (snapshot current : RegistryState)
    : handled (SkillBuilderSessionRecord * list jsval) :=
  uncommitted_as current (
    let? record := loaded_session snapshot binding principal requestedSessionId in
    if jeqb (bs_eveSessionId record) [] then Ok (current, Ok (record, []))
    else
      let? events := parse_events text in
      let seen := session_snapshot events in
      let shown := with_progress {|
        sp_eveSessionId := bs_eveSessionId record;
        sp_activeTurnId := if settled_lifecycle (sn_lifecycle seen) then None
                           else match sn_activeTurnId seen with Some t => Some t | None => bs_activeTurnId record end;
        sp_activeRequestId := bs_activeRequestId record;
        sp_state := default (bs_state record) (sn_lifecycle seen);
        sp_requests := bs_requests record; sp_updatedAt := bs_updatedAt record |} record in
      Ok (reconcileSnapshot (bs_id record) seen now current, Ok (shown, events))).

(** ** Stopping *)

Definition stop_request_digest (binding : DraftBinding) (sessionId requestId : jstr) : jstr :=
  digestText (WObj [(js "kind", WStr (js "stop")); (js "draftId", WStr (db_draftId binding));
                    (js "revision", WInt (db_revision binding)); (js "digest", WStr (db_digest binding));
                    (js "sessionId", WStr sessionId); (js "requestId", WStr requestId)]).
Definition cancel_confirmed (response : jsval) : bool :=
  isRecord response && match field response "ok" with JBool true => true | _ => false end &&
  match field response "status" with
  | JStr s => jeqb s (js "accepted") || jeqb s (js "no_active_turn")
  | _ => false
  end.
(** [stopSession]: [response] is the agent's answer to the cancellation. *)
Definition stopSession (body : jsval) (binding : DraftBinding) (sessionId : jstr) (principal : Principal)
    (response : jsval) (now : Z) (snapshot current : RegistryState) : handled unit :=
  uncommitted_as current (
    let? requestId := boundedText (field body "requestId") MAX_REQUEST_ID_BYTES in
    let? record := findOwnedSession snapshot (db_draftId binding) sessionId principal in
    let? _ := assertSessionBinding record principal binding true in
    throw_if negb (bool_decide (bs_state record = SessionRunning)) with builderError "BUILDER_NOT_ACTIVE" 409 ;;
    throw_if negb (cancel_confirmed response) with BUILDER_UPSTREAM ;;
    match find_first (has_id (bs_id record)) (sessions current) with
    | None => Ok (current, Ok tt)
    | Some b =>
        let? requests := rememberRequest (bs_requests b) requestId (stop_request_digest binding sessionId requestId)
                           RequestCompleted (toISOString now) in
        Ok (change_session (has_id (bs_id record)) (with_progress {|
              sp_eveSessionId := bs_eveSessionId b; sp_activeTurnId := None; sp_activeRequestId := None;
              sp_state := SessionStopped; sp_requests := requests; sp_updatedAt := toISOString now |} b) current,
            Ok tt)
    end).

(** [streamSession]: the session must have a conversation. *)
Definition streamSession (binding : DraftBinding) (sessionId : jstr) (principal : Principal) (text : jstr) (now : Z)
    (snapshot current : RegistryState) : handled (SkillBuilderSessionRecord * list jsval) :=
  match findOwnedSession snapshot (db_draftId binding) sessionId principal with
  | Err e => (current, Err e)
  | Ok record =>
      match assertSessionBinding record principal binding true with
      | Err e => (current, Err e)
      | Ok _ => loadSession binding principal (Some sessionId) text now snapshot current
      end
  end.

(** ** The routes *)

Record BffHeaders : Type := {
  hd_fetchSite : option jstr;
  hd_origin : option jstr;
  hd_cookie : option jstr;
}.
Inductive BffOperation : Type :=
| OpenSession (body : jsval) (id key : jstr)
| LoadSession (sessionId : option jstr) (text : jstr)
| StreamSession (sessionId text : jstr)
| PromptSession (sessionId : jstr) (body : jsval)
| StopSession (sessionId : jstr) (body response : jsval).
Definition is_mutation (operation : BffOperation) : bool :=
  match operation with
  | OpenSession _ _ _ | PromptSession _ _ | StopSession _ _ _ => true
  | LoadSession _ _ | StreamSession _ _ => false
  end.
Definition operation_session (operation : BffOperation) : option jstr :=
  match operation with
  | OpenSession _ _ _ => None
  | LoadSession id _ => id
  | StreamSession id _ | PromptSession id _ | StopSession id _ _ => Some id
  end.
Inductive BffAnswer : Type :=
| AnswerSession (record : SkillBuilderSessionRecord) (events : list jsval)
| AnswerReserved (request : PromptRequest) (record : SkillBuilderSessionRecord)
| AnswerStopped.
Definition bff_answered {A} (f : A -> BffAnswer) (h : handled A) : handled BffAnswer :=
  (h.1, match h.2 with Ok a => Ok (f a) | Err e => Err e end).
(** What the facade checks before it dispatches: [bound] is the document the
    draft is read from. *)
Definition bff_admission (publicOrigin : jstr) (headers : BffHeaders) (revisions digests : list jstr)
    (draftId : jstr) (principal : Principal) (operation : BffOperation) (bound : RegistryState)
    : authoring DraftBinding :=
  let? _ := if is_mutation operation
            then assertSameOriginMutation (hd_fetchSite headers) (hd_origin headers) (hd_cookie headers) publicOrigin
            else Ok tt in
  let? binding := bound_revision bound revisions digests draftId principal true in
  let? _ := match operation_session operation with
            | Some id => boundedSessionId id
            | None => Ok tt
            end in
  Ok binding.
(** [createBuilderBffHandler], without the availability probe. *)
Definition builderBffHandler (publicOrigin : jstr) (headers : BffHeaders) (revisions digests : list jstr)
    (draftId : jstr) (principal : Principal) (operation : BffOperation) (now : Z)
    (bound snapshot current : RegistryState) : handled BffAnswer :=
  match bff_admission publicOrigin headers revisions digests draftId principal operation bound with
  | Err e => (current, Err e)
  | Ok binding =>
      match operation with
      | OpenSession body id key =>
          bff_answered (fun record => AnswerSession record [])
            (createSession body binding draftId principal id key now current)
      | LoadSession id text =>
          bff_answered (fun r => AnswerSession r.1 r.2) (loadSession binding principal id text now snapshot current)
      | StreamSession id text =>
          bff_answered (fun r => AnswerSession r.1 r.2) (streamSession binding id principal text now snapshot current)
      | PromptSession id body =>
          bff_answered (fun r => AnswerReserved r.1 r.2) (sendPrompt body binding id principal now snapshot current)
      | StopSession id body response =>
          bff_answered (fun _ => AnswerStopped) (stopSession body binding id principal response now snapshot current)
      end
  end.
(** A prompt that was answered before is not sent again. *)
Definition already_answered (record : SkillBuilderSessionRecord) (requestId : jstr) : bool :=
  bool_decide (br_state <$> request_of record requestId = Some RequestCompleted) &&
  negb (jeqb (bs_eveSessionId record) []).

(** ** The session shown to the browser *)

Inductive TurnRole : Type := TurnUser | TurnAssistant.
Record BuilderTurn : Type := {
  tn_id : jstr;
  tn_role : TurnRole;
  tn_content : jstr;
  tn_createdAt : jstr;
}.
Definition boundedEventText (value : jsval) : option jstr :=
  match value with
  | JStr (c :: s) => Some (take (Z.to_nat MAX_TURN_TEXT_BYTES) (c :: s))
  | _ => None
  end.
Definition event_turn (now : jstr) (turns : list BuilderTurn) (event : jsval) : list BuilderTurn :=
  let data := field event "data" in
  let at_ := match field (field event "meta") "at" with JStr s => s | _ => now end in
  let turn role name :=
    match boundedEventText (nullish (field data "message") (field data "text")) with
    | None => turns
    | Some content =>
        turns ++ [{| tn_id := match field (field event "meta") "id" with
                              | JStr s => s
                              | _ => js name ++ js_of_Z (Z.of_nat (length turns))
                              end; tn_role := role; tn_content := content; tn_createdAt := at_ |}]
    end in
  if event_is event ["message.received"]%string then turn TurnUser "user-"%string
  else if event_is event ["message.completed"]%string then turn TurnAssistant "assistant-"%string
  else turns.
Record BuilderSessionDto : Type := {
  dto_id : jstr;
  dto_binding : DraftBinding;
  dto_state : SkillBuilderSessionState;
  dto_turns : list BuilderTurn;
  dto_proposal : option wire;
}.
Definition toSessionDto (b : SkillBuilderSessionRecord) (events : list jsval) (now : jstr) : BuilderSessionDto := {|
  dto_id := bs_id b;
  dto_binding := {| db_draftId := bs_draftId b; db_revision := bs_draftRevision b; db_digest := bs_draftDigest b |};
  dto_state := bs_state b;
  dto_turns := last_n MAX_TURNS (fold_left (event_turn now) events []);
  dto_proposal := (fun p => publicBuilderProposal p None) <$>
    find_first (fun p => negb (bool_decide (bp_state p = ProposalStale))) (reverse (bs_proposals b)) |}.
End Sessions.
