(* ===== verification/DraftState.v ===== *)
(** * What a draft is

    The invariant of one draft, how a draft may change, and what the three
    transactions of DraftHandlers.v do to the list of drafts.  A draft names its
    content three times: the sealed object in the store, its digest, and the
    files the document carries; the invariant ties them together, for the
    current revision and for every request that can still be replayed. *)

From Stdlib Require Import ZArith Lia.
From stdpp Require Import base list list_numbers strings sets.
From S2P Require Import Prelude Js Dates Base64 Json Numbers Wire Bundle Frontmatter Contracts Web.
From S2P Require Import Access Names PolicyEval State Authoring Drafts SkillBuilder DraftHandlers.
From S2P Require Import Builder BuilderSessions.

Local Open Scope Z_scope.

Definition drafts (s : RegistryState) : list SkillDraft := default [] (st_drafts s).
Definition records (d : SkillDraft) : list SkillDraftIdempotencyRecord := default [] (dr_idempotency d).
Definition publications (d : SkillDraft) : list SkillDraftPublicationRecord := default [] (dr_publications d).
Definition record_key (r : SkillDraftIdempotencyRecord) : jstr * jstr := (di_key r, di_subject r).
Definition publication_key (p : SkillDraftPublicationRecord) : jstr * jstr := (dp_key p, dp_subject p).

(** ** Sealed content *)

Section Sealed.
Context {UT : UnicodeTables} {CR : Crypto} {BL : Blobs}.

(** The store confirmed these bytes, the encoding of these files. *)
Record sealed_as (artifact : StoredBlob) (digest : jstr) (fs : list BundleFile) : Prop := {
  sa_stored : exists bytes, blob_put bytes = Some artifact /\ decodeBundle bytes = Ok {| files := fs |} /\
    digestBytes bytes = digest /\ sb_digest artifact = digest /\ sb_size artifact = jlen bytes;
}.
(** The files a record seals are those of its manifest. *)
Record sealed_record (r : SkillDraftIdempotencyRecord) (fs : list BundleFile) : Prop := {
  sr_sealed : sealed_as (di_artifact r) (di_digest r) fs;
  sr_manifest : compactManifest fs = Ok (di_manifest r);
}.

(** [decodeBundle] re-encodes what it read. *)
Lemma decode_encodes bytes b : decodeBundle bytes = Ok b -> encodeBundle (bundle_value b) = Ok bytes.
Proof.
  intros H. unfold decodeBundle in H. ok_step.
  destruct (textDecode bytes) as [s|]; [|done]. destruct (json_parse s) as [v|]; [|done].
  ok_inv. bool_inv. by apply bytesEqual_true in G0 as ->.
Qed.
(** The object the handlers write is the bundle. *)
Lemma bundle_literal fs : JObj [(js "format", JStr BUNDLE_FORMAT); (js "files", files_value fs)] = bundle_value {| files := fs |}.
Proof.
  unfold bundle_value, files_value, file_value. cbn [files]. unfold bundle_data. cbn [embed fmap list_fmap fst snd].
  rewrite <- list_fmap_compose. reflexivity.
Qed.
Lemma canonicalize_decodes v fs : canonicalizeBundle v = Ok fs ->
  exists bytes, decodeBundle bytes = Ok {| files := fs |} /\ encode_files fs = Ok bytes.
Proof.
  unfold canonicalizeBundle. intros H. ok_inv. exists a0. destruct a1 as [fs]. split; [done|].
  cbn [files]. unfold encode_files. by rewrite (decode_encodes _ _ E1).
Qed.
Lemma encode_decoded bytes fs bytes' : decodeBundle bytes = Ok {| files := fs |} ->
  encode_files fs = Ok bytes' -> bytes' = bytes.
Proof. unfold encode_files. intros H%decode_encodes. rewrite H. by intros [= ->]. Qed.

Lemma putVerified_spec bytes digest stored : putVerifiedDraftBlob bytes digest = Ok stored ->
  blob_put bytes = Some stored /\ sb_digest stored = digest /\ sb_size stored = jlen bytes.
Proof.
  unfold putVerifiedDraftBlob. destruct (blob_put bytes) as [s|]; [|done]. intros H. ok_inv. bool_inv.
  split; [done|]. split; [by apply jeqb_true | done].
Qed.

Lemma sameFiles_refl fs : sameFiles fs fs = true.
Proof.
  unfold sameFiles. rewrite Nat.eqb_refl. cbn [andb]. induction fs as [|f fs IH]; [done|].
  cbn [zip zip_with forallb fst snd]. unfold same_file at 1. rewrite !jeqb_refl, bool_decide_true by done.
  exact IH.
Qed.
Lemma sameFiles_eq l l' : sameFiles l l' = true -> l = l'.
Proof.
  unfold sameFiles. intros [Hl%Nat.eqb_eq Hall]%andb_true_iff. revert l' Hl Hall.
  induction l as [|[p c e] l IH]; intros [|[p' c' e'] l'] Hl Hall; try done.
  cbn in Hl, Hall. apply andb_true_iff in Hall as [Hf Hall]. unfold same_file in Hf. cbn in Hf.
  apply andb_true_iff in Hf as [[->%jeqb_true ->%jeqb_true]%andb_true_iff He]. apply bool_decide_eq_true in He as ->.
  f_equal. apply IH; [lia | done].
Qed.
Lemma sameManifest_refl l : sameManifest l l = true.
Proof.
  unfold sameManifest. rewrite Nat.eqb_refl. cbn [andb]. induction l as [|e l IH]; [done|].
  cbn [zip zip_with forallb fst snd]. unfold same_entry at 1.
  rewrite !jeqb_refl, Z.eqb_refl, bool_decide_true by done. exact IH.
Qed.

(** A store that gives back what it confirmed. *)
Class StoreLaw : Prop := {
  store_get bytes artifact : blob_put bytes = Some artifact -> blob_get (sb_key artifact) = Some bytes;
}.
Lemma read_sealed `{StoreLaw} d : sealed_as (dr_artifact d) (dr_digest d) (dr_files d) ->
  readDraftBundle d = Ok (dr_files d).
Proof.
  intros [(bytes & Hput & Hdec & Hdig & Ha & Hs)]. unfold readDraftBundle.
  rewrite (store_get _ _ Hput), Hdig, Ha, Hs, jeqb_refl, Z.eqb_refl, Hdec. cbn [negb orb bundle_files rbind files].
  unfold encode_files. rewrite (decode_encodes _ _ Hdec). cbn [bundle_files rbind].
  by rewrite Hdig, jeqb_refl, sameFiles_refl.
Qed.
Lemma read_record `{StoreLaw} r fs : sealed_record r fs -> readIdempotencyBundle r = Ok fs.
Proof.
  intros [[(bytes & Hput & Hdec & Hdig & Ha & Hs)] Hm]. unfold readIdempotencyBundle.
  rewrite (store_get _ _ Hput), Hdig, Ha, Hs, jeqb_refl, Z.eqb_refl, Hdec. cbn [negb orb bundle_files rbind files].
  rewrite Hm. cbn [rbind]. by rewrite sameManifest_refl.
Qed.

(** What is read back is never anything but the sealed files. *)
Lemma read_draft_exact d fs : readDraftBundle d = Ok fs ->
  fs = dr_files d /\ exists bytes, blob_get (sb_key (dr_artifact d)) = Some bytes /\
    digestBytes bytes = dr_digest d /\ decodeBundle bytes = Ok {| files := fs |}.
Proof.
  unfold readDraftBundle. destruct (blob_get _) as [bytes|] eqn:Eg; [|done]. intros H. ok_inv.
  bool_inv. destruct (decodeBundle bytes) as [[fs']|] eqn:Ed; [|done]. cbn [bundle_files] in E. ok_inv.
  cbn [files] in *. bool_inv. split.
  - by apply sameFiles_eq.
  - exists bytes. split; [done|]. split; [by apply jeqb_true | done].
Qed.

(** An entry of a manifest is written as it is stored. *)
Lemma compact_public l m : compactManifest l = Ok m -> public_entry <$> m = m.
Proof.
  intros H%map_result_Ok_Forall2. induction H as [|f e l m He _ IH]; [done|].
  rewrite fmap_cons, IH. f_equal. unfold compact_entry in He. destruct (atob _); [|done]. ok_inv.
  unfold public_entry. cbn. by destruct (executable f) as [[]|].
Qed.
End Sealed.

(** ** How a draft changes *)

(** What a draft is and whose: fixed at its creation. *)
Definition identity (d : SkillDraft) :=
  ((dr_id d, dr_organizationId d, dr_origin d, dr_name d),
   (dr_skillName d, dr_description d, dr_baseResourceId d, dr_baseDigest d),
   (dr_status d, dr_actor d, dr_createdAt d, dr_createIdempotency d)).
(** What a revision stands for. *)
Definition revision_content (d : SkillDraft) :=
  (dr_digest d, dr_artifact d, dr_files d, dr_updatedAt d, dr_idempotency d).

(** The revision only grows, a revision stands for one content, and the record
    of a request is kept for the thirty-one revisions that follow it. *)
Record draft_step (d d' : SkillDraft) : Prop := {
  ds_identity : identity d' = identity d;
  ds_revision : dr_revision d < dr_revision d' \/
                (dr_revision d' = dr_revision d /\ revision_content d' = revision_content d);
  ds_records r : r ∈ records d -> dr_revision d' < di_revision r + Z.of_nat MAX_IDEMPOTENCY_RECORDS ->
                 r ∈ records d';
}.
#[export] Instance draft_step_preorder : PreOrder draft_step.
Proof.
  split.
  - intros d. split; auto.
  - intros d e f [Hi [H|[H Hc]] Hr] [Hi' [H'|[H' Hc']] Hr'].
    all: split; [congruence | try (left; lia); right; split; congruence | ].
    all: intros r Hin Hlt; apply Hr'; [apply Hr; [done|lia] | done].
Qed.

Lemma last_n_small {A} n (l : list A) : (length l <= n)%nat -> last_n n l = l.
Proof. intros H. unfold last_n. by rewrite (proj2 (Nat.sub_0_le _ _)). Qed.
Lemma last_n_length {A} n (l : list A) : (length (last_n n l) <= n)%nat.
Proof. unfold last_n. rewrite length_drop. lia. Qed.
Lemma last_n_fmap {A B} (f : A -> B) n l : f <$> last_n n l = last_n n (f <$> l).
Proof. unfold last_n. by rewrite fmap_drop, length_fmap. Qed.
Lemma elem_of_last_n {A} n (l : list A) x : x ∈ last_n n l -> x ∈ l.
Proof. unfold last_n. intros H. rewrite <- (take_drop (length l - n) l). by apply elem_of_app; right. Qed.
Lemma last_n_NoDup {A} n (l : list A) : NoDup l -> NoDup (last_n n l).
Proof.
  unfold last_n. intros H. rewrite <- (take_drop (length l - n) l) in H. by apply NoDup_app in H as (_ & _ & ?).
Qed.

(** The revisions whose requests a draft at [revision] remembers. *)
Definition remembered (revision : Z) : list Z :=
  let n := Z.min (Z.of_nat MAX_IDEMPOTENCY_RECORDS) (revision - 1) in seqZ (revision - n + 1) n.
Lemma remembered_next revision : 1 <= revision ->
  last_n (MAX_IDEMPOTENCY_RECORDS - 1) (remembered revision) ++ [revision + 1] = remembered (revision + 1).
Proof.
  intros Hr. unfold remembered, last_n. change (Z.of_nat MAX_IDEMPOTENCY_RECORDS) with 32.
  change (MAX_IDEMPOTENCY_RECORDS - 1)%nat with 31%nat. rewrite length_seqZ.
  destruct (Z.le_gt_cases revision 32).
  - rewrite !Z.min_r by lia. rewrite (proj2 (Nat.sub_0_le _ _)) by lia. rewrite drop_0.
    replace (revision + 1 - 1) with (revision - 1 + 1) by lia. rewrite seqZ_app by lia.
    f_equal; [f_equal; lia|]. rewrite seqZ_cons, seqZ_nil by lia. f_equal. lia.
  - rewrite !Z.min_l by lia. change (Z.to_nat 32 - 31)%nat with 1%nat.
    transitivity (seqZ (revision - 30) 31 ++ [revision + 1]).
    + f_equal. rewrite (seqZ_cons _ 32) by lia. cbn [drop]. rewrite drop_0. f_equal. lia.
    + replace (seqZ (revision + 1 - 32 + 1) 32) with (seqZ (revision - 30) (31 + 1)) by (f_equal; lia).
      rewrite seqZ_app by lia. f_equal.
      rewrite seqZ_cons, seqZ_nil by lia. f_equal. lia.
Qed.
Lemma remembered_bound revision k : k ∈ remembered revision ->
  1 < k <= revision /\ revision < k + Z.of_nat MAX_IDEMPOTENCY_RECORDS.
Proof. unfold remembered. intros ?%elem_of_seqZ. change (Z.of_nat MAX_IDEMPOTENCY_RECORDS) with 32 in *. lia. Qed.

(** ** The invariant of a draft *)

Section Invariant.
Context {UT : UnicodeTables} {CR : Crypto} {BL : Blobs}.
Context (organizationId : jstr).

(** The record of the request that made the current revision. *)
Record describes (r : SkillDraftIdempotencyRecord) (d : SkillDraft) : Prop := {
  de_revision : di_revision r = dr_revision d;
  de_digest : di_digest r = dr_digest d;
  de_sealed : sealed_record r (dr_files d);
}.
Record draft_ok (d : SkillDraft) : Prop := {
  ok_organization : dr_organizationId d = organizationId;
  ok_open : dr_status d = DraftOpen;
  ok_revision : 1 <= dr_revision d;
  ok_artifact : sealed_as (dr_artifact d) (dr_digest d) (dr_files d);
  ok_created : exists r fs, dr_createIdempotency d = Some r /\ di_subject r = dr_actor d /\ di_revision r = 1 /\
    sealed_record r fs /\ (dr_revision d = 1 -> describes r d);
  ok_records : di_revision <$> records d = remembered (dr_revision d);
  ok_sealed : Forall (fun r => exists fs, sealed_record r fs) (records d);
  ok_keys : NoDup (record_key <$> records d);
  ok_current r : r ∈ records d -> di_revision r = dr_revision d -> describes r d;
  ok_publications : (length (publications d) <= MAX_PUBLICATION_HISTORY)%nat;
  ok_published : NoDup (publication_key <$> publications d);
}.

Lemma record_bound d r : draft_ok d -> r ∈ records d ->
  1 < di_revision r <= dr_revision d /\ dr_revision d < di_revision r + Z.of_nat MAX_IDEMPOTENCY_RECORDS.
Proof.
  intros O Hr. apply remembered_bound. rewrite <- (ok_records d O). by apply list_elem_of_fmap_2.
Qed.

(** The record the public form is made of is the one of the current revision. *)
Lemma current_record_describes d : draft_ok d -> exists r, current_record d = Some r /\ describes r d.
Proof.
  intros O. destruct (ok_created d O) as (c & fs & Hc & _ & Hrev & _ & Hdesc).
  unfold current_record. rewrite Hc. change (default [] (dr_idempotency d)) with (records d).
  destruct (Z.eq_dec (dr_revision d) 1) as [H1|H1].
  - exists c. specialize (Hdesc H1). split; [|done].
    assert (records d = []) as ->.
    { apply length_zero_iff_nil. rewrite <- (length_fmap di_revision), (ok_records d O), H1. done. }
    cbn. destruct Hdesc as [-> -> _]. by rewrite Z.eqb_refl, jeqb_refl.
  - assert (Hin : dr_revision d ∈ remembered (dr_revision d)).
    { unfold remembered. apply elem_of_seqZ. pose proof (ok_revision d O).
      change (Z.of_nat MAX_IDEMPOTENCY_RECORDS) with 32. lia. }
    rewrite <- (ok_records d O) in Hin. apply list_elem_of_fmap in Hin as (r & Hr & Hin).
    pose proof (ok_current d O r Hin (eq_sym Hr)) as Hd.
    destruct (find_first_is_Some (fun r => (di_revision r =? dr_revision d) && jeqb (di_digest r) (dr_digest d))
                (records d ++ [c]) r) as [x Hx].
    { set_solver. }
    { destruct Hd as [-> -> _]. by rewrite Z.eqb_refl, jeqb_refl. }
    rewrite Hx. exists x. split; [done|]. apply find_first_Some in Hx as [Hx Hp]. bool_inv.
    apply elem_of_app in Hx as [Hx|Hx%list_elem_of_singleton]; [by apply ok_current|]. subst x. lia.
Qed.
(** So the manifest a client is shown is that of the current files. *)
Lemma public_manifest d : draft_ok d -> publicDraftManifest d (dr_files d) = compactManifest (dr_files d).
Proof.
  intros O. destruct (current_record_describes d O) as (r & Hr & [_ _ [_ Hm]]).
  unfold publicDraftManifest. rewrite Hr, Hm. f_equal. by apply (compact_public (dr_files d)).
Qed.
End Invariant.

(** * What a builder session is

    The invariant of one session, how a session and a proposal may change, and
    the three ways a transaction of Builder.v or BuilderSessions.v changes the
    list of sessions.  A session admits one prompt at a time and remembers the
    last prompts; a proposal is decided once. *)

(** ** The requests of a session *)

(** At most 64 prompts under distinct names, and at most one of them accepted
    and not settled: the one the session calls active, if it names one. *)
Record requests_ok (active : option jstr) (l : list SkillBuilderRequestRecord) : Prop := {
  ro_count : (length l <= MAX_REQUESTS)%nat;
  ro_ids : NoDup (br_id <$> l);
  ro_named r : r ∈ l -> br_id r <> [];
  ro_accepted r r' : r ∈ l -> r' ∈ l -> br_state r = RequestAccepted -> br_state r' = RequestAccepted -> r = r';
  ro_active r : r ∈ l -> br_state r = RequestAccepted -> active = None \/ active = Some (br_id r);
}.
Lemma requests_ok_empty active : requests_ok active [].
Proof. split; [cbn; unfold MAX_REQUESTS; lia | constructor | intros r | intros r r' | intros r];
    by intros ?%not_elem_of_nil. Qed.
Lemma requests_ok_inactive active l : requests_ok active l -> requests_ok None l.
Proof. intros []. split; auto. Qed.

Lemma update_first_found {A} (p : A -> bool) (f : A -> A) (l : list A) x :
  find_first p l = Some x -> f x ∈ update_first p f l.
Proof.
  induction l as [|y l IH]; cbn; [done|]. destruct (p y); [intros [= ->]; by left | intros H; right; by apply IH].
Qed.
Lemma remember_spec l id digest state now l' : rememberRequest l id digest state now = Ok l' ->
  (exists r, r ∈ l' /\ br_id r = id /\ br_state r = state /\ br_requestDigest r = digest) /\
  (forall r, r ∈ l' -> br_id r <> id -> r ∈ l) /\
  (forall r, r ∈ l' -> br_id r = id -> NoDup (br_id <$> l') -> br_state r = state) /\
  (NoDup (br_id <$> l) -> NoDup (br_id <$> l')) /\
  ((length l <= MAX_REQUESTS)%nat -> (length l' <= MAX_REQUESTS)%nat).
Proof.
  unfold rememberRequest. destruct (find_first _ l) as [current|] eqn:Ef.
  - intros H. ok_inv. apply negb_false_iff, jeqb_true in G as <-.
    pose proof (find_first_Some _ _ _ Ef) as [Hin Hid%jeqb_true].
    set (f := with_request_state state now).
    pose proof (update_first_found _ f _ _ Ef) as Hex. cbv beta in Hex.
    split; [by exists (f current)|].
    split; [|split; [|split]].
    + intros r Hr Hne. apply update_first_elem in Hr as [Hr|(x & Hx & ->)]; [done|].
      rewrite Ef in Hx. injection Hx as <-. by destruct Hne.
    + intros r Hr Hrid Hnd. assert (r = f current) as ->; [|done].
      apply (NoDup_key_inj br_id (update_first (fun r => jeqb (br_id r) id) f l)); try done.
      by rewrite Hrid, <- Hid.
    + rewrite (update_first_fmap br_id); [done|]. by intros.
    + by rewrite length_update_first.
  - intros [= <-]. set (r0 := Build_SkillBuilderRequestRecord _ _ _ _ _ _).
    assert (Hnone : id ∉ br_id <$> l).
    { intros (r & -> & Hr)%list_elem_of_fmap. apply find_first_None in Ef.
      apply (proj1 (Forall_forall _ _) Ef) in Hr. by rewrite jeqb_refl in Hr. }
    split; [exists r0; split; [set_solver | done]|]. split; [|split; [|split]].
    + intros r [Hr%elem_of_last_n| ->%list_elem_of_singleton]%elem_of_app Hne; [done | by destruct Hne].
    + intros r [Hr%elem_of_last_n| ->%list_elem_of_singleton]%elem_of_app Hrid _; [|done].
      exfalso. apply Hnone. rewrite <- Hrid. by apply list_elem_of_fmap_2.
    + intros Hnd. rewrite fmap_app, last_n_fmap. apply NoDup_app. split; [by apply last_n_NoDup|].
      split; [|apply NoDup_singleton]. intros k Hk ->%list_elem_of_singleton. by apply elem_of_last_n in Hk.
    + intros _. rewrite length_app. pose proof (last_n_length (MAX_REQUESTS - 1) l) as Hl.
      unfold MAX_REQUESTS in *. change (64 - 1)%nat with 63%nat in *. cbn [length]. lia.
Qed.

(** A request recorded as settled, and one reserved while none is accepted. *)
Lemma remember_settled active l id digest state now l' : requests_ok active l -> id <> [] ->
  rememberRequest l id digest state now = Ok l' -> state <> RequestAccepted -> requests_ok active l'.
Proof.
  intros [Hc Hi Hn Ha Hact] Hid H Hst. apply remember_spec in H as (_ & Hold & Hnew & Hnd & Hlen).
  assert (Hacc : forall r, r ∈ l' -> br_state r = RequestAccepted -> r ∈ l).
  { intros r Hr Hs. destruct (decide (br_id r = id)) as [E|E]; [|by apply Hold].
    rewrite (Hnew r Hr E (Hnd Hi)) in Hs. done. }
  split; auto.
  intros r Hr. destruct (decide (br_id r = id)) as [->|E]; [done | by apply Hn, Hold].
Qed.
Lemma remember_accepted l id digest now l' active : requests_ok active l -> id <> [] ->
  (forall r, r ∈ l -> br_state r <> RequestAccepted) ->
  rememberRequest l id digest RequestAccepted now = Ok l' -> requests_ok (Some id) l'.
Proof.
  intros [Hc Hi Hn _ _] Hid Hnone H. apply remember_spec in H as (_ & Hold & Hnew & Hnd & Hlen).
  assert (Hacc : forall r, r ∈ l' -> br_state r = RequestAccepted -> br_id r = id).
  { intros r Hr Hs. destruct (decide (br_id r = id)) as [E|E]; [done|]. by destruct (Hnone r (Hold r Hr E)). }
  split; auto.
  - intros r Hr. destruct (decide (br_id r = id)) as [->|E]; [done | by apply Hn, Hold].
  - intros r r' Hr Hr' Hs Hs'. apply (NoDup_key_inj br_id l'); auto. by rewrite (Hacc r), (Hacc r').
  - intros r Hr Hs. right. by rewrite (Hacc r).
Qed.

(** ** Proposals *)

(** Everything but its state. *)
Definition proposal_content (p : SkillBuilderProposalRecord) :=
  ((bp_id p, bp_idempotencyKey p, bp_requestDigest p, bp_organizationId p, bp_draftId p, bp_subject p),
   (bp_sessionId p, bp_baseRevision p, bp_baseDigest p, bp_proposedDigest p, bp_operations p, bp_createdAt p)).
(** A pending proposal is applied or rejected, once. *)
Record proposal_step (p p' : SkillBuilderProposalRecord) : Prop := {
  ps_content : proposal_content p' = proposal_content p;
  ps_decided : p' = p \/ bp_state p = ProposalPending /\
                 (bp_state p' = ProposalApplied \/ bp_state p' = ProposalRejected);
}.
#[export] Instance proposal_step_preorder : PreOrder proposal_step.
Proof.
  split.
  - intros p. split; auto.
  - intros p q r [Hc Hd] [Hc' Hd']. split; [congruence|].
    destruct Hd as [->|[Hp Hq]]; [done|]. destruct Hd' as [->|[Hq' _]]; [by right|].
    destruct Hq; congruence.
Qed.
(** A proposal names its session, and is never marked stale. *)
Record belongs (b : SkillBuilderSessionRecord) (p : SkillBuilderProposalRecord) : Prop := {
  bl_session : bp_sessionId p = bs_id b;
  bl_draft : bp_draftId p = bs_draftId b;
  bl_subject : bp_subject p = bs_subject b;
  bl_state : bp_state p <> ProposalStale;
}.

(** ** Sessions *)

Section Session.
Context (organizationId : jstr).

Record session_ok (b : SkillBuilderSessionRecord) : Prop := {
  so_organization : bs_organizationId b = organizationId;
  so_requests : requests_ok (bs_activeRequestId b) (bs_requests b);
  so_count : (length (bs_proposals b) <= MAX_BUILDER_PROPOSALS)%nat;
  so_ids : NoDup (bp_id <$> bs_proposals b);
  so_keys : NoDup (bp_idempotencyKey <$> bs_proposals b);
  so_belongs p : p ∈ bs_proposals b -> belongs b p;
}.

Definition session_identity (b : SkillBuilderSessionRecord) :=
  (bs_id b, bs_organizationId b, bs_subject b, bs_draftId b, bs_sessionKey b, bs_createdAt b).
(** A session is of one subject and draft, talks to one agent session, and only
    moves to later revisions. *)
Record session_step (b b' : SkillBuilderSessionRecord) : Prop := {
  st_identity : session_identity b' = session_identity b;
  st_conversation : bs_eveSessionId b <> [] -> bs_eveSessionId b' = bs_eveSessionId b;
  st_binding : (bs_draftRevision b' = bs_draftRevision b /\ bs_draftDigest b' = bs_draftDigest b) \/
               bs_draftRevision b < bs_draftRevision b';
}.
#[export] Instance session_step_preorder : PreOrder session_step.
Proof.
  split.
  - intros b. split; auto.
  - intros b c d [Hi He Hb] [Hi' He' Hb']. split; [congruence| |].
    + intros H. specialize (He H). rewrite <- He. apply He'. congruence.
    + destruct Hb as [[? ?]|?], Hb' as [[? ?]|?]; [left; split; congruence|right; lia..].
Qed.
Lemma session_step_id b b' : session_step b b' -> bs_id b' = bs_id b.
Proof. intros [H _ _]. unfold session_identity in H. congruence. Qed.

(** What a transaction does to the proposals of a session: [fresh] of one that
    is added, [evidence] of one that is decided. *)
Inductive proposals_move (fresh evidence : SkillBuilderProposalRecord -> Prop)
    (l l' : list SkillBuilderProposalRecord) : Prop :=
| ProposalsKept : l' = l -> proposals_move fresh evidence l l'
| ProposalAdded p : bp_state p = ProposalPending -> fresh p -> (forall q, q ∈ l' -> q = p \/ q ∈ l) ->
    proposals_move fresh evidence l l'
| ProposalSettled p p' : p ∈ l -> bp_state p = ProposalPending -> proposal_step p p' ->
    evidence p' ->
    (forall q, q ∈ l' -> q = p' \/ (q ∈ l /\ bp_id q <> bp_id p)) ->
    proposals_move fresh evidence l l'.
Inductive session_change (fresh evidence : SkillBuilderProposalRecord -> Prop)
    (l l' : list SkillBuilderSessionRecord) : Prop :=
| SessionsSame : l' = l -> session_change fresh evidence l l'
| SessionAdded b : l' = l ++ [b] -> session_ok b -> bs_id b ∉ bs_id <$> l -> bs_proposals b = [] ->
    session_change fresh evidence l l'
| SessionMoved test b b' : find_first test l = Some b -> l' = update_first test (fun _ => b') l ->
    session_step b b' -> (session_ok b -> session_ok b') ->
    proposals_move fresh evidence (bs_proposals b) (bs_proposals b') ->
    session_change fresh evidence l l'.

(** ** What a change of the sessions does to the proposals *)

Definition offered (l : list SkillBuilderSessionRecord) (p : SkillBuilderProposalRecord) : Prop :=
  exists b, b ∈ l /\ p ∈ bs_proposals b.
(** Proposals under one id are of one session. *)
Definition one_session (l : list SkillBuilderSessionRecord) : Prop :=
  forall p q, offered l p -> offered l q -> bp_id p = bp_id q -> bp_sessionId p = bp_sessionId q.

Inductive offers_move (fresh evidence : SkillBuilderProposalRecord -> Prop)
    (P P' : SkillBuilderProposalRecord -> Prop) : Prop :=
| OffersKept : (forall p, P' p -> P p) -> offers_move fresh evidence P P'
| OfferAdded p : bp_state p = ProposalPending -> fresh p -> (forall q, P' q -> q = p \/ P q) ->
    offers_move fresh evidence P P'
| OfferSettled p p' : P p -> bp_state p = ProposalPending -> proposal_step p p' ->
    evidence p' ->
    (forall q, P' q -> q = p' \/ (P q /\ bp_id q <> bp_id p)) ->
    offers_move fresh evidence P P'.

Context {fresh evidence : SkillBuilderProposalRecord -> Prop}.

Lemma session_change_steps l l' b : session_change fresh evidence l l' -> b ∈ l ->
  exists b', b' ∈ l' /\ session_step b b'.
Proof.
  intros [->|c -> _ _ _|test c c' Hf -> Hst _ _] Hb; [by exists b | exists b; split; [set_solver | done]|].
  assert (HR : Forall2 session_step l (update_first test (fun _ => c') l))
    by (eapply update_found_Forall2; [intros z; reflexivity | exact Hf | exact Hst]).
  apply list_elem_of_lookup in Hb as [i Hi].
  destruct (Forall2_lookup_l _ _ _ _ _ HR Hi) as (b' & Hi' & Hs). exists b'. split; [|done].
  by eapply list_elem_of_lookup_2.
Qed.
Lemma session_change_ok l l' : session_change fresh evidence l l' -> Forall session_ok l -> Forall session_ok l'.
Proof.
  intros [->|c -> Hc _ _|test c c' Hf -> _ Hc _] Hl; [done | by apply Forall_app; split; [|constructor]|].
  apply find_first_Some in Hf as [Hin _]. apply update_first_Forall; [|done]. intros _ _ _ _.
  apply Hc. by apply (proj1 (Forall_forall _ _) Hl).
Qed.
Lemma session_change_ids l l' : session_change fresh evidence l l' -> NoDup (bs_id <$> l) -> NoDup (bs_id <$> l').
Proof.
  intros [->|c -> _ Hc _|test c c' Hf -> Hst _ _] Hl; [done| |].
  - rewrite fmap_app. apply NoDup_app. split; [done|]. split; [|apply NoDup_singleton].
    by intros k Hk ->%list_elem_of_singleton.
  - assert (HR : Forall2 session_step l (update_first test (fun _ => c') l))
      by (eapply update_found_Forall2; [intros z; reflexivity | exact Hf | exact Hst]).
    replace (bs_id <$> update_first test (fun _ => c') l) with (bs_id <$> l); [done|]. clear -HR.
    induction HR as [|x y l1 l2 Hxy _ IH]; [done|]. by rewrite !fmap_cons, (session_step_id _ _ Hxy), IH.
Qed.

(** The session a change found is the only one it replaced. *)
Lemma update_found_others {A K} (key : A -> K) (p : A -> bool) (l : list A) x x' y :
  NoDup (key <$> l) -> find_first p l = Some x ->
  y ∈ update_first p (fun _ => x') l -> y = x' \/ (y ∈ l /\ key y <> key x).
Proof.
  induction l as [|z l IH]; cbn; [done|]. intros [Hz Hnd]%NoDup_cons. destruct (p z).
  - intros [= ->] [->|Hy]%elem_of_cons; [by left|]. right. split; [by right|].
    intros E. apply Hz. rewrite <- E. by apply list_elem_of_fmap_2.
  - intros Hf [->|Hy]%elem_of_cons.
    + right. split; [by left|]. intros E. apply Hz. rewrite E. apply list_elem_of_fmap_2.
      by apply find_first_Some in Hf as [].
    + destruct (IH Hnd Hf Hy) as [->|[? ?]]; [by left | right; split; [by right | done]].
Qed.
Lemma session_change_offers l l' : session_change fresh evidence l l' -> NoDup (bs_id <$> l) ->
  Forall session_ok l -> one_session l -> offers_move fresh evidence (offered l) (offered l').
Proof.
  intros [->|c -> _ _ Hc|test c c' Hf -> _ _ Hp] Hnd Hok Hone.
  - by apply OffersKept.
  - apply OffersKept. intros p (b & [Hb| ->%list_elem_of_singleton]%elem_of_app & Hin); [by exists b|].
    rewrite Hc in Hin. by apply not_elem_of_nil in Hin.
  - assert (Hq : forall q, offered (update_first test (fun _ => c') l) q ->
              q ∈ bs_proposals c' \/ (exists b, b ∈ l /\ q ∈ bs_proposals b /\ bs_id b <> bs_id c)).
    { intros q (b & Hb & Hin). destruct (update_found_others bs_id _ _ _ _ _ Hnd Hf Hb) as [->|[? ?]]; eauto. }
    apply find_first_Some in Hf as [Hcl _].
    destruct Hp as [Hl|p Hst Hfr Hl|p p' Hin Hst Hs Hv Hl].
    + apply OffersKept. intros q [Hin|(b & Hb & Hin & _)]%Hq; [exists c; by rewrite <- Hl | by exists b].
    + apply (OfferAdded _ _ _ _ p); [done..|].
      intros q [[->|Hin]%Hl|(b & Hb & Hin & _)]%Hq; [by left | right; by exists c | right; by exists b].
    + apply (OfferSettled _ _ _ _ p p'); [by exists c | done..|].
      intros q [[->|[Hqin Hne]]%Hl|(b & Hb & Hqin & Hne)]%Hq; [by left | right; split; [by exists c | done]|].
      right. split; [by exists b|]. intros E. apply Hne.
      pose proof (Hone q p ltac:(by exists b) ltac:(by exists c) E) as Hs'.
      pose proof (proj1 (Forall_forall _ _) Hok _ Hb) as Ob. pose proof (proj1 (Forall_forall _ _) Hok _ Hcl) as Oc.
      by rewrite <- (bl_session _ _ (so_belongs _ Ob _ Hqin)), <- (bl_session _ _ (so_belongs _ Oc _ Hin)).
Qed.
End Session.
