(* ===== verification/BuilderPatches.v ===== *)
(** * Patch operations against a file tree

    The reference for the patch operations of a proposal: a bundle as a finite
    map from paths to contents, and each operation as an update of it.
    [applyBuilderOperations], which works on the array of files and re-encodes
    the bundle at the end, implements the reference. *)

From Stdlib Require Import ZArith Lia Sorted.
From stdpp Require Import base gmap list strings.
From S2P Require Import Prelude Js Dates Base64 Json Wire Bundle Frontmatter Contracts Numbers Web Access Names.
From S2P Require Import PolicyEval State Authoring Drafts.
From S2P Require Import SkillBuilder DraftHandlers Builder DraftState.

Local Open Scope Z_scope.

(** ** The reference *)

Definition entry (f : BundleFile) : jstr * bool :=
  (content f, match executable f with Some true => true | _ => false end).
Definition tree (fs : list BundleFile) : gmap jstr (jstr * bool) :=
  list_to_map ((fun f => (path f, entry f)) <$> fs).

Section Patches.
Context {UT : UnicodeTables}.

Definition is_text (c : jstr) : bool :=
  match atob c with
  | Some bytes => bool_decide (builderFileKind bytes = KindText)
  | None => false
  end.
Definition encoded (c : jstr) : jstr := btoa (textEncode c).
Definition patch (operation : SkillBuilderPatchOperation) (t : gmap jstr (jstr * bool))
    : option (gmap jstr (jstr * bool)) :=
  match operation with
  | PatchWrite true p c =>
      match t !! p with
      | Some _ => None
      | None => Some (<[p := (encoded c, false)]> t)
      end
  | PatchWrite false p c =>
      match t !! p with
      | Some (old, e) => if is_text old then Some (<[p := (encoded c, e)]> t) else None
      | None => None
      end
  | PatchRename p newPath =>
      match t !! p, t !! newPath with
      | Some x, None => Some (<[newPath := x]> (delete p t))
      | _, _ => None
      end
  | PatchDelete p =>
      match t !! p with
      | Some _ => Some (delete p t)
      | None => None
      end
  end.
Definition patches (operations : list SkillBuilderPatchOperation) (t : gmap jstr (jstr * bool))
    : option (gmap jstr (jstr * bool)) := foldl (fun acc o => acc ≫= patch o) (Some t) operations.
(** The paths an operation names. *)
Definition named (operation : SkillBuilderPatchOperation) : list jstr :=
  match operation with
  | PatchWrite _ p _ | PatchDelete p => [p]
  | PatchRename p newPath => [p; newPath]
  end.

(** ** The list of files *)

Lemma tree_cons f fs : tree (f :: fs) = <[path f := entry f]> (tree fs).
Proof. done. Qed.
Lemma tree_keys fs : ((fun f => (path f, entry f)) <$> fs).*1 = path <$> fs.
Proof. by rewrite <- list_fmap_compose. Qed.
Lemma tree_None fs p : p ∉ path <$> fs -> tree fs !! p = None.
Proof. intros H. apply not_elem_of_list_to_map_1. by rewrite tree_keys. Qed.
Lemma tree_snoc fs f : path f ∉ path <$> fs -> tree (fs ++ [f]) = <[path f := entry f]> (tree fs).
Proof. intros H. unfold tree. rewrite fmap_app. apply list_to_map_snoc. by rewrite tree_keys. Qed.
Lemma tree_perm fs fs' : NoDup (path <$> fs) -> fs ≡ₚ fs' -> tree fs = tree fs'.
Proof. intros Hnd Hp. apply list_to_map_proper; [by rewrite tree_keys | by rewrite Hp]. Qed.
Lemma tree_canonical fs : tree (canonical_file <$> fs) = tree fs.
Proof.
  unfold tree. f_equal. rewrite <- list_fmap_compose. apply list_fmap_ext. intros _ [p c [[]|]] _; done.
Qed.

Lemma tree_find fs p : tree fs !! p = entry <$> find_first (has_path p) fs.
Proof.
  induction fs as [|f fs IH]; [done|]. rewrite tree_cons. cbn [find_first]. unfold has_path at 1.
  destruct (jeqb (path f) p) eqn:E.
  - apply jeqb_true in E as <-. by rewrite lookup_insert_eq.
  - apply jeqb_false in E. by rewrite lookup_insert_ne.
Qed.
Lemma tree_exists fs p : existsb (has_path p) fs = bool_decide (is_Some (tree fs !! p)).
Proof.
  rewrite tree_find. induction fs as [|f fs IH]; [done|]. cbn [existsb find_first].
  destruct (has_path p f); [done|]. exact IH.
Qed.

(** Replacing the file at a path, possibly moving it. *)
Lemma tree_update p g f fs : NoDup (path <$> fs) -> find_first (has_path p) fs = Some f ->
  path (g f) ∉ path <$> remove_first (has_path p) fs ->
  tree (update_first (has_path p) g fs) = <[path (g f) := entry (g f)]> (delete p (tree fs)) /\
  NoDup (path <$> update_first (has_path p) g fs).
Proof.
  induction fs as [|x fs IH]; [done|]. rewrite fmap_cons. intros [Hx Hnd]%NoDup_cons. cbn [find_first update_first remove_first].
  destruct (has_path p x) eqn:E.
  - intros [= ->] Hg. unfold has_path in E. apply jeqb_true in E as <-. rewrite !tree_cons.
    rewrite delete_insert_id by (by apply tree_None). split; [done|]. rewrite fmap_cons. by constructor.
  - intros Hf [Hne Hg]%not_elem_of_cons. destruct (IH Hnd Hf Hg) as [IHt Hnd'].
    unfold has_path in E. apply jeqb_false in E. rewrite !tree_cons, IHt.
    split.
    + rewrite delete_insert_ne by done. apply insert_insert_ne. congruence.
    + rewrite fmap_cons. constructor; [|done]. intros (y & Hy & Hin)%list_elem_of_fmap.
      apply update_first_elem in Hin as [Hin|(z & Hz & ->)].
      * apply Hx. rewrite Hy. by apply list_elem_of_fmap_2.
      * rewrite Hf in Hz. injection Hz as <-. congruence.
Qed.
Lemma tree_remove p fs : NoDup (path <$> fs) ->
  tree (remove_first (has_path p) fs) = delete p (tree fs) /\ NoDup (path <$> remove_first (has_path p) fs).
Proof.
  induction fs as [|x fs IH]; [cbn; by rewrite delete_empty|]. rewrite fmap_cons. intros [Hx Hnd]%NoDup_cons.
  cbn [remove_first]. rewrite tree_cons. destruct (has_path p x) eqn:E.
  - unfold has_path in E. apply jeqb_true in E as <-. split; [|done]. rewrite delete_insert_id; [done|]. by apply tree_None.
  - destruct (IH Hnd) as [IHt Hnd']. unfold has_path in E. apply jeqb_false in E.
    rewrite delete_insert_ne, tree_cons, IHt by done. split; [done|]. rewrite fmap_cons. constructor; [|done].
    intros (y & Hy & Hin)%list_elem_of_fmap. apply Hx. rewrite Hy. apply list_elem_of_fmap_2.
    by eapply elem_of_sublist; [exact Hin | apply remove_first_sublist].
Qed.

(** ** Each operation *)

Lemma apply_operation_tree operation fs : NoDup (path <$> fs) ->
  match apply_operation operation fs with
  | Ok fs' => patch operation (tree fs) = Some (tree fs') /\ NoDup (path <$> fs')
  | Err _ => patch operation (tree fs) = None
  end.
Proof.
  intros Hnd. destruct operation as [[] p c|p newPath|p]; cbn [apply_operation patch].
  - rewrite tree_exists. destruct (tree fs !! p) as [x|] eqn:E; [by rewrite bool_decide_true|].
    rewrite bool_decide_false by (by intros []).
    assert (Hp : p ∉ path <$> fs).
    { intros (f & -> & Hf)%list_elem_of_fmap. rewrite tree_find in E.
      destruct (find_first_is_Some (has_path (path f)) fs f Hf) as [x Hx]; [apply jeqb_refl|]. by rewrite Hx in E. }
    split; [by rewrite tree_snoc|]. rewrite fmap_app. apply NoDup_app. split; [done|]. split; [|apply NoDup_singleton].
    by intros q Hq ->%list_elem_of_singleton.
  - rewrite tree_find. destruct (find_first (has_path p) fs) as [f|] eqn:Ef; [|done]. cbn [fmap option_fmap option_map].
    unfold entry, is_text, decodeDraftBase64. destruct (atob (content f)) as [bytes|]; [|done]. cbn [rbind].
    destruct (bool_decide (builderFileKind bytes = KindText)); [|done]. cbn [negb].
    pose proof (find_first_Some _ _ _ Ef) as [Hin Hp%jeqb_true].
    assert (Hrest : path f ∉ path <$> remove_first (has_path p) fs).
    { intros H. assert (Hq : path <$> fs ≡ₚ path f :: (path <$> remove_first (has_path p) fs))
        by (rewrite (remove_first_perm _ _ _ Ef) at 1; done).
      rewrite Hq in Hnd. by apply NoDup_cons in Hnd as []. }
    destruct (tree_update p (fun f => {| path := path f; content := encoded c; executable := executable f |}) f fs Hnd Ef Hrest)
      as [Ht Hnd']. unfold encoded in *. rewrite Ht. split; [|done]. cbn [path]. rewrite Hp, insert_delete_eq. done.
  - rewrite !tree_exists. destruct (tree fs !! p) as [x|] eqn:Ex; [|by rewrite bool_decide_false by (by intros [])].
    rewrite bool_decide_true by done. cbn [negb orb].
    destruct (tree fs !! newPath) as [y|] eqn:Ey; [by rewrite bool_decide_true|].
    rewrite bool_decide_false by (by intros []). rewrite tree_find in Ex.
    destruct (find_first (has_path p) fs) as [f|] eqn:Ef; [|done]. injection Ex as <-.
    assert (Hnew : newPath ∉ path <$> remove_first (has_path p) fs).
    { intros (g & -> & Hg)%list_elem_of_fmap. rewrite tree_find in Ey.
      assert (Hg' : g ∈ fs) by (by eapply elem_of_sublist; [exact Hg | apply remove_first_sublist]).
      destruct (find_first_is_Some (has_path (path g)) fs g Hg') as [x Hx]; [apply jeqb_refl|]. by rewrite Hx in Ey. }
    destruct (tree_update p (fun f => {| path := newPath; content := content f; executable := executable f |}) f fs
                Hnd Ef Hnew) as [-> Hnd']. done.
  - rewrite tree_exists. destruct (tree fs !! p) as [x|] eqn:Ex; [|by rewrite bool_decide_false by (by intros [])].
    rewrite bool_decide_true by done. cbn [negb]. destruct (tree_remove p fs Hnd) as [-> ?]. done.
Qed.
Lemma apply_operations_tree operations fs : NoDup (path <$> fs) ->
  match apply_operations operations fs with
  | Ok fs' => patches operations (tree fs) = Some (tree fs') /\ NoDup (path <$> fs')
  | Err _ => patches operations (tree fs) = None
  end.
Proof.
  unfold patches. revert fs. induction operations as [|o l IH]; intros fs Hnd; [done|].
  cbn [apply_operations foldl]. pose proof (apply_operation_tree o fs Hnd) as H.
  change (Some (tree fs) ≫= patch o) with (patch o (tree fs)).
  destruct (apply_operation o fs) as [fs'|]; cbn [rbind].
  - destruct H as [-> Hnd']. by apply IH.
  - rewrite H. clear. by induction l.
Qed.
Lemma apply_operations_wf operations fs fs' : apply_operations operations fs = Ok fs' ->
  Forall (fun f => wf_jstr (path f)) fs -> Forall (fun o => Forall wf_jstr (named o)) operations ->
  Forall (fun f => wf_jstr (path f)) fs'.
Proof.
  revert fs. induction operations as [|o l IH]; intros fs H Hfs Ho; [by injection H as <-|].
  inversion Ho as [|? ? Hn Hl]; subst. cbn [apply_operations] in H. ok_inv. apply (IH a); [done| |done]. clear IH H.
  destruct o as [[] p c|p q|p]; cbn [apply_operation named] in *; inversion Hn as [|? ? Hp Hq]; subst.
  - ok_inv. apply Forall_app. split; [done|]. by constructor.
  - destruct (find_first _ _); [|done]. ok_inv. apply update_first_Forall; [|done]. by intros x _ _.
  - ok_inv. apply update_first_Forall; [|done]. intros x _ _ _. by inversion Hq.
  - ok_inv. eapply sublist_Forall; [apply remove_first_sublist | done].
Qed.

(** ** Encoding the result *)

Lemma validate_written f index w : validateFile (file_value f) index = Ok w -> file w = canonical_file f.
Proof.
  destruct (obj_get_path f) as (props & E & Hk & Hp & Hc & Hx). unfold validateFile. rewrite E, Hk, Hp, Hc, Hx.
  cbn [rbind]. destruct (validatePath _ _) as [p|] eqn:Ep; [|done]. apply validatePath_iff in Ep as [[= <-] _]. cbn [rbind].
  intros H. ok_inv. unfold canonical_file. cbn [file]. by destruct (executable f) as [[]|]; ok_inv.
Qed.
Lemma validate_canonical f index : validateFile (file_value (canonical_file f)) index = validateFile (file_value f) index.
Proof.
  destruct (obj_get_path f) as (props & E & Hk & Hp & Hc & Hx).
  destruct (obj_get_path (canonical_file f)) as (props' & E' & Hk' & Hp' & Hc' & Hx').
  unfold validateFile. rewrite E, E', Hk, Hk', Hp, Hp', Hc, Hc', Hx, Hx'. by destruct f as [? ? [[]|]].
Qed.
Lemma validate_files_written fs index seen total fs' :
  validate_files index seen total (file_value <$> fs) = Ok fs' -> fs' = canonical_file <$> fs.
Proof.
  revert index seen total fs'. induction fs as [|f fs IH]; intros index seen total fs' H; [by injection H as <-|].
  rewrite fmap_cons in H. cbn [validate_files] in H. destruct (validateFile (file_value f) index) as [w|] eqn:Ew; [|done].
  cbn [rbind] in H. ok_inv. by rewrite fmap_cons, (validate_written _ _ _ Ew), <- (IH _ _ _ _ E).
Qed.
Lemma validate_files_canonical fs index seen total :
  validate_files index seen total (file_value <$> (canonical_file <$> fs)) =
  validate_files index seen total (file_value <$> fs).
Proof.
  revert index seen total. induction fs as [|f fs IH]; intros index seen total; [done|].
  rewrite !fmap_cons. cbn [validate_files]. rewrite validate_canonical. destruct (validateFile _ _) as [w|]; [|done].
  cbn [rbind]. by rewrite IH.
Qed.
Lemma validateBundle_written fs :
  validateBundle (bundle_value {| files := fs |}) = validateBundle (bundle_value {| files := canonical_file <$> fs |}) /\
  forall b, validateBundle (bundle_value {| files := fs |}) = Ok b -> files b = canonical_file <$> fs.
Proof.
  destruct (bundle_value_files fs) as (props & E & Hk & Hp & Hf).
  destruct (bundle_value_files (canonical_file <$> fs)) as (props' & E' & Hk' & Hp' & Hf').
  unfold validateBundle. rewrite E, E', Hk, Hk', Hp, Hp', Hf, Hf', validate_files_canonical, !length_fmap.
  split; [done|]. intros b H. cbn [rbind] in H. destruct (validate_files _ _ _ _) as [l|] eqn:Ev.
  - apply validate_files_written in Ev as ->. ok_inv. done.
  - destruct (negb _); [done|]. destruct (_ =? _)%nat; [done|]. by destruct (_ <? _).
Qed.
Context {CR : Crypto}.
Lemma canonicalize_written fs : Forall (fun f => wf_jstr (path f)) fs ->
  match canonicalizeBundle (files_value fs) with
  | Ok after => bundle_spec (canonical_file <$> fs) /\ after = js_sort comparePaths (canonical_file <$> fs)
  | Err _ => ~ bundle_spec (canonical_file <$> fs)
  end.
Proof.
  intros Hwf. destruct (validateBundle_written fs) as [He Hok]. unfold canonicalizeBundle. rewrite bundle_literal.
  destruct (validateBundle (bundle_value {| files := fs |})) as [b|] eqn:Ev; cbn [rbind].
  - specialize (Hok b eq_refl). pose proof (validateBundle_spec _ _ Ev) as Hs. destruct b as [l]. cbn [files] in *. subst l.
    rewrite (encodeBundle_Ok _ _ (validateBundle_complete _ Hs)). cbn [rbind files].
    rewrite decode_wire; [done | done |]. apply Forall_fmap. eapply Forall_impl; [exact Hwf|]. done.
  - intros Hs%validateBundle_complete. congruence.
Qed.

(** ** The implementation *)

(** The files of a tree, in some order. *)
Lemma tree_files fs : NoDup (path <$> fs) -> canonical_file <$> fs ≡ₚ
  (fun kv : jstr * (jstr * bool) => {| path := kv.1; content := kv.2.1; executable := if kv.2.2 then Some true else None |})
    <$> map_to_list (tree fs).
Proof.
  intros Hnd. unfold tree. rewrite map_to_list_to_map by (by rewrite tree_keys). rewrite <- list_fmap_compose.
  apply reflexive_eq, list_fmap_ext. by intros _ [p c [[]|]] _.
Qed.
Lemma same_tree fs fs' : NoDup (path <$> fs) -> NoDup (path <$> fs') -> tree fs = tree fs' ->
  canonical_file <$> fs ≡ₚ canonical_file <$> fs'.
Proof. intros H H' E. rewrite (tree_files fs H), (tree_files fs' H'). by rewrite E. Qed.

(** Operations leave the paths they do not name alone. *)
Lemma patch_frame o t t' p : patch o t = Some t' -> p ∉ named o -> t' !! p = t !! p.
Proof.
  destruct o as [[] q c|q q'|q]; cbn [patch named].
  - destruct (t !! q); [done|]. intros [= <-] Hp. apply lookup_insert_ne. set_solver.
  - destruct (t !! q) as [[old e]|]; [|done]. destruct (is_text old); [|done]. intros [= <-] Hp.
    apply lookup_insert_ne. set_solver.
  - destruct (t !! q), (t !! q'); try done. intros [= <-] Hp. rewrite lookup_insert_ne by set_solver.
    apply lookup_delete_ne. set_solver.
  - destruct (t !! q); [|done]. intros [= <-] Hp. apply lookup_delete_ne. set_solver.
Qed.
Lemma patches_frame l t t' p : patches l t = Some t' -> p ∉ concat (named <$> l) -> t' !! p = t !! p.
Proof.
  unfold patches. revert t. induction l as [|o l IH]; intros t; cbn [foldl]; [by intros [= <-]|].
  rewrite fmap_cons. cbn [concat]. intros H [Ho Hl]%not_elem_of_app.
  change (Some t ≫= patch o) with (patch o t) in H. destruct (patch o t) as [t1|] eqn:Eo.
  - rewrite (IH t1 H Hl). by eapply patch_frame.
  - exfalso. clear -H. by induction l.
Qed.

(** C33. [applyBuilderOperations] does what the operations say on a file tree:
    when it succeeds, its result is a valid bundle in path order whose tree is
    the one the operations make, unchanged at every path they do not name; it fails only when an operation does not apply
    to the tree it meets, or when no valid bundle has the tree they make. *)
Theorem builder_operations_tree (fs : list BundleFile) (operations : list SkillBuilderPatchOperation) :
  NoDup (path <$> fs) -> Forall (fun f => wf_jstr (path f)) fs ->
  Forall (fun o => Forall wf_jstr (named o)) operations ->
  match applyBuilderOperations fs operations with
  | Ok after => patches operations (tree fs) = Some (tree after) /\ bundle_spec after /\ StronglySorted path_le after /\
                forall p, p ∉ concat (named <$> operations) -> tree after !! p = tree fs !! p
  | Err e => match patches operations (tree fs) with
             | None => True
             | Some t => e = INVALID_BUNDLE /\ forall after, bundle_spec after -> tree after <> t
             end
  end.
Proof.
  intros Hnd Hwf Ho. unfold applyBuilderOperations. pose proof (apply_operations_tree operations fs Hnd) as H.
  destruct (apply_operations operations fs) as [l|] eqn:El; cbn [rbind]; [|by rewrite H].
  destruct H as [Ht Hl]. pose proof (apply_operations_wf _ _ _ El Hwf Ho) as Hlw.
  pose proof (canonicalize_written l Hlw) as Hc. rewrite Ht.
  assert (Hkeys : NoDup (path <$> (canonical_file <$> l))).
  { by replace (path <$> (canonical_file <$> l)) with (path <$> l) by (by rewrite <- list_fmap_compose). }
  destruct (canonicalizeBundle (files_value l)) as [after|]; cbn [bundle_files].
  - destruct Hc as [Hs ->].
    assert (E : tree l = tree (js_sort comparePaths (canonical_file <$> l))).
    { rewrite <- (tree_canonical l). apply tree_perm; [done|]. by rewrite js_sort_perm. }
    rewrite <- E. split; [done|]. split; [by rewrite js_sort_perm|]. split; [apply comparePaths_sorted|].
    intros p. by apply patches_frame.
  - split; [done|]. intros after Hs E. apply Hc. pose proof (bundle_distinct _ Hs) as Hd%distinct_paths.
    rewrite <- (canonical_files _ Hs) in Hs. by rewrite (same_tree _ _ Hd Hl E) in Hs.
Qed.
End Patches.

(** ** Witness *)

Module PatchesWitness.
#[local] Existing Instance ascii_tables.
Definition demo_operations : list SkillBuilderPatchOperation := [
  PatchWrite true (js "notes.md") (js "hello"); PatchRename (js "scripts/run.sh") (js "scripts/go.sh");
  PatchWrite false (js "scripts/go.sh") (js "echo ho"); PatchDelete (js "notes.md")].
Definition demo_result : list BundleFile := Eval vm_compute in
  match applyBuilderOperations (files demo_bundle) demo_operations with Ok fs => fs | Err _ => [] end.
Lemma demo_applied : applyBuilderOperations (files demo_bundle) demo_operations = Ok demo_result /\ demo_result <> [].
Proof. split; [vm_compute; reflexivity | done]. Qed.
Lemma builder_operations_tree_witness :
  patches demo_operations (tree (files demo_bundle)) = Some (tree demo_result) /\ bundle_spec demo_result.
Proof.
  assert (H := builder_operations_tree (files demo_bundle) demo_operations).
  rewrite (proj1 demo_applied) in H. destruct H as (H1 & H2 & _).
  - apply (bool_decide_unpack _). vm_compute. exact I.
  - apply (bool_decide_unpack _). vm_compute. exact I.
  - apply (bool_decide_unpack _). vm_compute. exact I.
  - split; [exact H1 | exact H2].
Defined.
End PatchesWitness.
