(* ===== verification/DraftCommits.v ===== *)
(** * What the draft handlers do to the document

    Inversion of the handlers: a request leaves the document as it is, or it
    adds a draft, saves a revision, or publishes one.  Each case comes with
    what the request had established before its transaction, and with the
    answer. *)

From Stdlib Require Import ZArith Lia.
From stdpp Require Import base list list_numbers strings sets.
From S2P Require Import Prelude Js Dates Base64 Json Wire Bundle Frontmatter Contracts Numbers Web Access Names.
From S2P Require Import PolicyEval State Registry Authoring Drafts DraftHandlers DraftState.

Local Open Scope Z_scope.

(** A branch of a handler that leaves the document alone. *)
Ltac unchanged := intros [= <- _]; by left.

Section Commits.
Context {DR : DateRuntime} {UT : UnicodeTables} {CR : Crypto} {BL : Blobs}.
Context (organizationId : jstr).

(** ** Lookup *)

Lemma findDraft_spec s draftId principal d : findDraft s draftId principal organizationId = Ok d ->
  find_first (is_draft organizationId draftId principal) (drafts s) = Some d /\
  d ∈ drafts s /\ dr_id d = draftId /\ dr_organizationId d = organizationId /\
  namespaceReadable principal (dr_name d) = true.
Proof.
  unfold findDraft, drafts, is_draft. destruct (find_first _ _) as [d'|] eqn:E; [|done]. intros [= ->].
  split; [done|]. apply find_first_Some in E as [Hin Hp].
  apply andb_true_iff in Hp as [[?%jeqb_true ?%jeqb_true]%andb_true_iff ?]. done.
Qed.
Lemma drafts_update draftId principal d s :
  drafts (update_draft organizationId draftId principal d s) =
  update_first (is_draft organizationId draftId principal) (fun _ => d) (drafts s).
Proof. unfold update_draft, drafts. cbn. by destruct (st_drafts s). Qed.
Lemma findIdempotency_None d key subject : findIdempotency d key subject = None ->
  (key, subject) ∉ record_key <$> records d.
Proof.
  unfold findIdempotency, records. intros Hn (r & Heq & Hr)%list_elem_of_fmap.
  apply find_first_None in Hn. apply (proj1 (Forall_forall _ _) Hn) in Hr.
  injection Heq as -> ->. by rewrite !jeqb_refl in Hr.
Qed.
Lemma findIdempotency_Some d key subject r : findIdempotency d key subject = Some r ->
  r ∈ records d /\ record_key r = (key, subject).
Proof.
  unfold findIdempotency, records. intros [Hin Hp]%find_first_Some. bool_inv.
  apply jeqb_true in Hp, H. split; [done|]. unfold record_key. congruence.
Qed.
Lemma findPublication_None d key subject : findPublication d key subject = None ->
  (key, subject) ∉ publication_key <$> publications d.
Proof.
  unfold findPublication, publications. intros Hn (r & Heq & Hr)%list_elem_of_fmap.
  apply find_first_None in Hn. apply (proj1 (Forall_forall _ _) Hn) in Hr.
  injection Heq as -> ->. by rewrite !jeqb_refl in Hr.
Qed.

(** ** The public form depends on the size of the artifact, not on its key *)

Lemma public_artifact draft artifact artifact' revision digest fs updatedAt m : sb_size artifact = sb_size artifact' ->
  publicDraftWithManifest (with_content draft revision digest artifact fs updatedAt) m =
  publicDraftWithManifest (with_content draft revision digest artifact' fs updatedAt) m.
Proof. unfold publicDraftWithManifest. cbn [dr_artifact with_content]. by intros ->. Qed.

(** ** Sealing *)

Lemma seal_spec fs sealed bytes : decodeBundle bytes = Ok {| files := fs |} -> seal fs = Ok sealed ->
  sealed = {| se_files := fs; se_bytes := bytes; se_digest := digestBytes bytes |}.
Proof.
  unfold seal. intros Hd H. ok_inv. by rewrite (encode_decoded _ _ _ Hd E).
Qed.
(** A sealed bundle is its own canonical form. *)
Definition canonical_seal (sealed : Sealed) : Prop :=
  decodeBundle (se_bytes sealed) = Ok {| files := se_files sealed |} /\
  se_digest sealed = digestBytes (se_bytes sealed).
Lemma canonicalize_seal v fs sealed : canonicalizeBundle v = Ok fs -> seal fs = Ok sealed -> canonical_seal sealed.
Proof.
  intros (bytes & Hd & _)%canonicalize_decodes Hs. by rewrite (seal_spec _ _ _ Hd Hs).
Qed.
Lemma full_bundle_seal request sealed : full_bundle request = Ok (Some sealed) -> canonical_seal sealed.
Proof.
  unfold full_bundle. destruct (has_references request); [done|]. intros H. ok_inv.
  destruct (canonicalizeBundle _) as [fs|] eqn:Ec; [|done]. cbn in E. ok_inv. by eapply canonicalize_seal.
Qed.
Lemma next_bundle_seal request full before sealed : full_bundle request = Ok full ->
  next_bundle request full before = Ok sealed -> canonical_seal sealed.
Proof.
  intros Hf H. unfold next_bundle in H. destruct full as [s|].
  - injection H as <-. by eapply full_bundle_seal.
  - ok_inv. unfold resolveDraftFileInputs in E0. ok_inv.
    destruct (canonicalizeBundle _) as [fs|] eqn:Ec; [|done]. cbn in E0. ok_inv. by eapply canonicalize_seal.
Qed.
Lemma canonical_seal_stored sealed stored : canonical_seal sealed ->
  putVerifiedDraftBlob (se_bytes sealed) (se_digest sealed) = Ok stored ->
  sealed_as stored (se_digest sealed) (se_files sealed).
Proof.
  intros [Hd He] (Hp & Hdig & Hs)%putVerified_spec. split. exists (se_bytes sealed). split; [done|]. split; [done|]. auto.
Qed.

(** ** Saving *)

(** The record of a save, and the draft it makes. *)
Definition save_record (request : WriteRequest) (subject identity : jstr) (sealed : Sealed) (artifact : StoredBlob)
    (manifest : list SkillDraftFileManifestEntry) (now : Z) : SkillDraftIdempotencyRecord :=
  create_record (wq_key request) subject identity (se_digest sealed) artifact manifest (toISOString now)
    (wq_expectedRevision request + 1).
Definition save_next (draft : SkillDraft) (record : SkillDraftIdempotencyRecord) (fs : list BundleFile) : SkillDraft :=
  saved_draft draft record fs (last_n (MAX_IDEMPOTENCY_RECORDS - 1) (records draft) ++ [record]).
Definition write_envelope (input : DraftRevisionWriteInput) (idempotent : bool) : DraftResponseEnvelope :=
  default (defaultDraftResponseEnvelope (wi_kind input) idempotent) (wi_envelope input).

Section Save.
Context (input : DraftRevisionWriteInput) (principal : Principal) (now : Z) (snapshot current : RegistryState).
Abbreviation subject := (pr_subject principal).
Abbreviation draftId := (wi_draftId input).

(** What a committed save has checked: the request, the draft it read, the
    sealed bundle, and the draft at commit. *)
Record saving (request : WriteRequest) (before : SkillDraft) (full : option Sealed) (sealed : Sealed)
    (stored : StoredBlob) (manifest : list SkillDraftFileManifestEntry) (draft : SkillDraft) : Prop := {
  sv_request : parse_write organizationId input principal = Ok request;
  sv_before : findDraft snapshot draftId principal organizationId = Ok before;
  sv_full : full_bundle request = Ok full;
  sv_sealed : next_bundle request full before = Ok sealed;
  sv_manifest : compactManifest (se_files sealed) = Ok manifest;
  sv_stored : putVerifiedDraftBlob (se_bytes sealed) (se_digest sealed) = Ok stored;
  sv_draft : findDraft current draftId principal organizationId = Ok draft;
  sv_fresh : findIdempotency draft (wq_key request) subject = None;
  sv_editable : assert_editable request before = Ok tt /\ assert_editable request draft = Ok tt;
  sv_fingerprint : publicDraftStateFingerprint draft = publicDraftStateFingerprint before;
}.
Definition saving_next (request : WriteRequest) (full : option Sealed) (sealed : Sealed) (stored : StoredBlob)
    (manifest : list SkillDraftFileManifestEntry) (draft : SkillDraft) : SkillDraft :=
  save_next draft (save_record request subject (request_identity request full) sealed stored manifest now)
    (se_files sealed).

Inductive written : RegistryState -> authoring DraftRevisionWriteResult -> Prop :=
| Written request before full sealed stored manifest draft next a s' :
    saving request before full sealed stored manifest draft ->
    next = saving_next request full sealed stored manifest draft ->
    assertDraftEnvelopeSizeWithManifest next manifest (write_envelope input false) = Ok tt ->
    ae_organizationId a = organizationId ->
    (let state := appendAudit a (update_draft organizationId draftId principal next current) in
     match wi_kind input with
     | UpdateKind => s' = state
     | BuilderProposalKind _ onCommit => onCommit state next = Ok s'
     end) ->
    written s' (write_answer (wi_kind input) (wq_key request) subject (next, false)).

Lemma assert_editable_tt request draft u : assert_editable request draft = Ok u -> assert_editable request draft = Ok tt.
Proof. by destruct u. Qed.

Lemma write_cases auditId s' r :
  writeDraftRevision organizationId input principal auditId now snapshot current = (s', r) ->
  s' = current \/ written s' r.
Proof.
  unfold writeDraftRevision.
  destruct (parse_write _ _ _) as [request|] eqn:Erq; [|unchanged]. cbn [rbind].
  destruct (findDraft snapshot _ _ _) as [before|] eqn:Eb; [|unchanged]. cbn [rbind].
  destruct (full_bundle request) as [full|] eqn:Ef; [|unchanged]. cbn [rbind].
  destruct (findIdempotency before _ _) as [prior|]; [unchanged|].
  destruct (assert_editable request before) as [u|] eqn:Ee; [|unchanged]. cbn [rbind].
  destruct (next_bundle _ _ _) as [sealed|] eqn:Es; [|unchanged]. cbn [rbind].
  destruct (compactManifest _) as [manifest|] eqn:Em; [|unchanged]. cbn [rbind].
  destruct (assertDraftEnvelopeFits _ _ _) as [u'|]; [|unchanged]. cbn [rbind].
  destruct (putVerifiedDraftBlob _ _) as [stored|] eqn:Ep; [|unchanged]. cbn [rbind].
  unfold write_commit.
  destruct (findDraft current _ _ _) as [draft|] eqn:Ed; [|unchanged]. cbn [rbind].
  destruct (findIdempotency draft _ _) as [concurrent|] eqn:Ei.
  { destruct (negb _); [unchanged|].
    destruct (assertDraftEnvelopeSizeWithManifest _ _ _); unchanged. }
  destruct (assert_editable request draft) as [u''|] eqn:Ee'; [|unchanged]. cbn [rbind].
  destruct (negb (jeqb (publicDraftStateFingerprint draft) _)) eqn:Efp; [unchanged|].
  apply negb_false_iff, jeqb_true in Efp.
  destruct (assertDraftEnvelopeSizeWithManifest _ _ _) as [[]|] eqn:Ez; [|unchanged]. cbn [rbind].
  set (next := saved_draft draft _ _ _) in *.
  assert (Hsave : saving request before full sealed stored manifest draft).
  { split; try done. split; by eapply assert_editable_tt. }
  destruct (match wi_kind input with UpdateKind => _ | BuilderProposalKind _ _ => _ end) as [state|] eqn:Eo;
    [|unchanged].
  intros [= <- <-]. right.
  refine (Written request before full sealed stored manifest draft next _ _ Hsave _ Ez _ _); [done| |].
  2: { destruct (wi_kind input); [exact (eq_sym (Ok_inj _ _ Eo)) | exact Eo]. }
  done.
Qed.
End Save.

(** ** Creating *)

Lemma with_drafts_id s : with_st_drafts (st_drafts s) s = s.
Proof. by destruct s. Qed.

Lemma create_commit_cases draft key requestDigest auditId extra base principal current s' result :
  create_commit organizationId draft key requestDigest auditId extra base principal current = Ok (s', result) ->
  (s' = current /\ result.2 = true) \/
  (find_first (created_by organizationId (pr_subject principal) key) (drafts current) = None /\
   base current = true /\ result = (draft, false) /\ exists a, ae_organizationId a = organizationId /\
     s' = appendAudit a (with_st_drafts (Some (drafts current ++ [draft])) current)).
Proof.
  unfold create_commit, drafts. destruct (find_first _ _) as [existing|] eqn:Ef.
  - intros H. ok_inv. left. split; [|done].
    destruct (st_drafts current) as [l|] eqn:El; [|done]. cbn [default from_option]. change (id l) with l. rewrite <- El. apply with_drafts_id.
  - intros H. ok_inv. right. split; [done|]. split; [by apply negb_false_iff|]. split; [done|]. eexists. split; [|reflexivity]. done.
Qed.

(** A draft at its creation. *)
Record fresh_draft (principal : Principal) (ids : DraftIds) (d : SkillDraft) : Prop := {
  fh_id : dr_id d = ids_draftId ids;
  fh_ok : draft_ok organizationId d;
  fh_actor : dr_actor d = pr_subject principal;
  fh_revision : dr_revision d = 1;
  fh_records : records d = [];
  fh_publications : publications d = [];
}.
Lemma new_draft_fresh input key principal ids now artifact :
  sealed_as artifact (nd_digest input) (nd_files input) ->
  compactManifest (nd_files input) = Ok (nd_manifest input) ->
  fresh_draft principal ids (new_draft organizationId input key principal ids now artifact).
Proof.
  intros Hs Hm. split; try done. split; try done.
  - eexists _, (nd_files input). split; [reflexivity|]. by split_and!.
  - constructor.
  - intros r Hin. by apply not_elem_of_nil in Hin.
  - cbn. lia.
  - constructor.
Qed.
(** Its public form has the manifest of its record, and the size of its
    artifact, whose key does not show. *)
Lemma new_draft_public input key principal ids now artifact :
  public_entry <$> nd_manifest input = nd_manifest input ->
  toPublicDraft (new_draft organizationId input key principal ids now artifact) (nd_files input) =
  Ok (publicDraftWithManifest (new_draft organizationId input key principal ids now artifact) (nd_manifest input)).
Proof.
  intros Hp. unfold toPublicDraft, publicDraftManifest, current_record.
  cbn [new_draft dr_idempotency dr_createIdempotency default from_option app find_first id create_record
       di_revision dr_revision di_digest dr_digest di_manifest].
  rewrite jeqb_refl. cbn [Z.eqb Pos.eqb andb rbind create_record di_manifest]. by rewrite Hp.
Qed.
Lemma new_draft_artifact input key principal ids now artifact artifact' m : sb_size artifact = sb_size artifact' ->
  publicDraftWithManifest (new_draft organizationId input key principal ids now artifact) m =
  publicDraftWithManifest (new_draft organizationId input key principal ids now artifact') m.
Proof. unfold publicDraftWithManifest. cbn [dr_artifact new_draft]. by intros ->. Qed.

(** The two ways to create one. *)
Record from_release (principal : Principal) (resourceId : jstr) (current : RegistryState) (d : SkillDraft) : Prop := {
  fr_origin : dr_origin d = OriginRelease;
  fr_base : dr_baseResourceId d = Some resourceId /\ dr_baseDigest d = Some (dr_digest d);
  fr_current : exists x, find_first (fun c => jeqb (sk_id c) resourceId) (st_skills current) = Some x /\
    sk_state x = Approved /\ sk_policyRevision x = po_revision (st_policy current) /\
    sb_digest (sk_artifact x) = dr_digest d /\ namespaceReadable principal (sk_name x) = true;
}.
Record from_upload (principal : Principal) (d : SkillDraft) : Prop := {
  fu_origin : dr_origin d = OriginUpload;
  fu_base : dr_baseResourceId d = None /\ dr_baseDigest d = None;
  fu_readable : namespaceReadable principal (dr_name d) = true;
}.
(** A creation that changed the document: the draft it added, and its answer. *)
Inductive creation (principal : Principal) (ids : DraftIds) (P : SkillDraft -> Prop) (current : RegistryState)
    : RegistryState -> authoring DraftResponse -> Prop :=
| Creation d a m : fresh_draft principal ids d -> P d -> ae_organizationId a = organizationId ->
    compactManifest (dr_files d) = Ok m ->
    creation principal ids P current
      (appendAudit a (with_st_drafts (Some (drafts current ++ [d])) current))
      (Ok {| rp_status := 201; rp_body := draft_envelope (publicDraftWithManifest d m) |}).


Lemma create_draft_cases (P : SkillDraft -> Prop) input bytes key extra base principal ids now current s' r :
  decodeBundle bytes = Ok {| files := nd_files input |} -> digestBytes bytes = nd_digest input ->
  compactManifest (nd_files input) = Ok (nd_manifest input) ->
  (forall artifact, base current = true -> P (new_draft organizationId input key principal ids now artifact)) ->
  create_draft organizationId input bytes key extra base principal ids now current = Ok (s', r) ->
  s' = current \/ creation principal ids P current s' r.
Proof.
  intros Hd Hdig Hm HP H. unfold create_draft in H. ok_inv. destruct a1 as [s1 result]. ok_inv.
  pose proof (compact_public _ _ Hm) as Hpub. apply putVerified_spec in E0 as (Hput & Hd0 & Hsize).
  assert (Hseal : sealed_as a0 (nd_digest input) (nd_files input)) by (split; eauto 10).
  apply create_commit_cases in E1 as [[-> _]|(_ & Hb & Hr & audit & Ha & ->)]; [by left|]. right.
  subst result. unfold create_answer. cbn [rbind].
  change (dr_files (new_draft organizationId input key principal ids now a0)) with (nd_files input).
  unfold assertDraftEnvelopeFits in E. rewrite new_draft_public in E |- * by done. cbn [rbind] in E |- *.
  unfold draft_response. rewrite (new_draft_artifact _ _ _ _ _ _ a0) in E by (by rewrite Hsize).
  rewrite E. cbn [rbind]. eapply Creation; [by apply new_draft_fresh | by apply HP | done..].
Qed.

Lemma release_snapshot_decodes admission state principal resourceId snapshot :
  readAuthorizedReleaseSnapshot organizationId admission state principal resourceId = Ok snapshot ->
  sk_id (as_release snapshot) = resourceId /\
  decodeBundle (as_bytes snapshot) = Ok {| files := as_files snapshot |} /\
  digestBytes (as_bytes snapshot) = sb_digest (sk_artifact (as_release snapshot)).
Proof.
  unfold readAuthorizedReleaseSnapshot. destruct (find_first _ _) as [x|] eqn:Ef; [|done]. intros H. ok_inv.
  destruct (admission state x principal); [|done]. ok_inv.
  destruct (blob_get _) as [bytes|]; [|done]. ok_inv. bool_inv.
  destruct (decodeBundle bytes) as [[fs]|] eqn:Ed; [|done]. ok_inv. cbn.
  apply find_first_Some in Ef as [_ Hx]. bool_inv. apply jeqb_true in H0, H2. auto.
Qed.

Lemma sameReadableBase_spec x expected state principal digest :
  sameReadableBase x expected state principal digest = true ->
  sk_state x = Approved /\ sk_policyRevision x = po_revision (st_policy state) /\
  sb_digest (sk_artifact x) = digest /\ namespaceReadable principal (sk_name x) = true.
Proof.
  unfold sameReadableBase. rewrite !andb_true_iff.
  intros (((((_ & _) & Hd%jeqb_true) & Hs) & Hp%jeqb_true) & Hr). by apply bool_decide_eq_true in Hs.
Qed.
Lemma createDraft_cases admission body header resourceId principal ids now existing base current s' r :
  createDraft organizationId admission body header resourceId principal ids now existing base current = (s', r) ->
  s' = current \/ creation principal ids (from_release principal resourceId current) current s' r.
Proof.
  unfold createDraft, uncommitted_as.
  destruct (rbind _ _) as [[s t]|e] eqn:E; intros [= <- <-]; [|by left]. ok_inv.
  destruct (find_first _ _) as [existing'|]; [apply Ok_inj in E; injection E as <- _; by left|]. ok_inv.
  apply negb_false_iff, jeqb_true in G. apply release_snapshot_decodes in E2 as (Hid & Hd & Hdig).
  eapply (create_draft_cases (from_release principal resourceId current)) in E;
    [exact E | exact Hd | exact Hdig | exact E3 |].
  intros artifact Hb. cbn beta in Hb. destruct (find_first _ _) as [x|] eqn:Ex; [|done].
  apply sameReadableBase_spec in Hb as (Hst & Hpol & Hdig' & Hr).
  split; [done | by cbn; rewrite Hid, G |]. exists x. cbn. by rewrite G.
Qed.
Lemma createUploadDraft_cases parseDocument body header principal ids now existing current s' r :
  createUploadDraft parseDocument organizationId body header principal ids now existing current = (s', r) ->
  s' = current \/ creation principal ids (from_upload principal) current s' r.
Proof.
  unfold createUploadDraft, uncommitted_as.
  destruct (rbind _ _) as [[s t]|e] eqn:E; intros [= <- <-]; [|by left]. ok_inv.
  destruct (field body "files") as [| | | | |value|]; try done. ok_inv.
  destruct (find_first _ _) as [existing'|]; [apply Ok_inj in E; injection E as <- _; by left|]. ok_inv.
  destruct (canonicalizeBundle _) as [fs|] eqn:Ec; [|done]. cbn [bundle_files] in *. ok_inv.
  apply canonicalize_decodes in Ec as (bytes & Hd & He).
  match goal with H : encode_files _ = Ok _ |- _ => rewrite H in He; injection He as -> end.
  eapply (create_draft_cases (from_upload principal)) in E; [exact E | exact Hd | done | done |].
  intros artifact _. split; try done. cbn. by apply negb_false_iff.
Qed.

(** ** Publishing *)

Definition publish_next (draft : SkillDraft) (publication : SkillDraftPublicationRecord) : SkillDraft :=
  with_publications (last_n (MAX_PUBLICATION_HISTORY - 1) (publications draft) ++ [publication]) draft.
(** The document with a release and its scan job added. *)
Definition with_release (skill : SkillVersion) (job : Job) (s : RegistryState) : RegistryState :=
  with_st_jobs (st_jobs s ++ [job]) (with_st_skills (st_skills s ++ [skill]) s).

Section Publish.
Context (parseDocument : jstr -> option ydocument).
Context (admission : RegistryState -> SkillVersion -> Principal -> option bool).
Context (admissionAtCommit : option (RegistryState -> SkillVersion -> Principal -> bool)).
Context (draftId : jstr) (principal : Principal) (ids : DraftIds) (now : Z) (snapshot current : RegistryState).
Abbreviation policy := (clonePolicy (st_policy snapshot)).

(** What a committed publication has checked, and what it publishes. *)
Record publishing (before draft : SkillDraft) (metadata : SkillMetadata) (base : option SkillVersion)
    (publication : SkillDraftPublicationRecord) : Prop := {
  pb_before : findDraft snapshot draftId principal organizationId = Ok before;
  pb_draft : findDraft current draftId principal organizationId = Ok draft;
  pb_revision : dp_revision publication = dr_revision before /\ dp_revision publication = dr_revision draft;
  pb_digest : dp_digest publication = dr_digest before;
  pb_ids : dp_resourceId publication = ids_skillId ids /\ dp_jobId publication = ids_jobId ids;
  pb_subject : dp_subject publication = pr_subject principal;
  pb_fresh : findPublication draft (dp_key publication) (dp_subject publication) = None;
  pb_content : exists fs, readDraftBundle before = Ok fs /\
    parseSkillMetadata parseDocument (bundle_value {| files := fs |}) = Ok metadata;
  pb_base : match dr_origin before with
            | OriginRelease => exists b,
                assertCurrentPublishableBase organizationId admission snapshot before principal = Ok b /\ base = Some b
            | OriginUpload => base = None
            end;
  pb_publishable : publishable organizationId admissionAtCommit before draft (dr_revision before) principal
    (po_revision policy) (dp_version publication) current = Ok tt;
}.
Definition published_release (before : SkillDraft) (metadata : SkillMetadata) (base : option SkillVersion)
    (publication : SkillDraftPublicationRecord) : SkillVersion :=
  draft_release organizationId before metadata (dp_version publication) policy base principal ids now.
Inductive publication_made (key : jstr) (revision : Z) (version : jstr)
    : RegistryState -> authoring (DraftPublishOperation * bool) -> Prop :=
| PublicationMade before draft metadata base publication a :
    publishing before draft metadata base publication -> ae_organizationId a = organizationId ->
    dp_key publication = key -> dp_revision publication = revision -> dp_version publication = version ->
    publication_made key revision version
      (appendAudit a (update_draft organizationId draftId principal (publish_next draft publication)
         (with_release (published_release before metadata base publication)
            (draft_job organizationId before policy ids now) current)))
      (Ok (operationFromPublication publication, false)).

(** A request that changed nothing failed, or repeats a publication on record. *)
Definition publication_repeated (r : authoring (DraftPublishOperation * bool)) : Prop :=
  match r with
  | Err _ => True
  | Ok (operation, _) => exists s d key p, s ∈ [snapshot; current] /\
      findDraft s draftId principal organizationId = Ok d /\
      findPublication d key (pr_subject principal) = Some p /\ operation = operationFromPublication p
  end.
Ltac repeated :=
  intros [= <- <-]; left; split; [done|]; cbn; first [done | eexists _, _, _, _; split_and!; [|done..]; set_solver].
Lemma publish_cases validSemver body header s' r :
  publishDraft parseDocument organizationId admission admissionAtCommit validSemver body header draftId principal ids
    now snapshot current = (s', r) ->
  (s' = current /\ publication_repeated r) \/ exists key revision version,
    requireIdempotencyKey header = Ok key /\ requireRevision (field body "expectedRevision") = Ok revision /\
    requireDraftVersion validSemver (field body "version") = Ok version /\
    publication_made key revision version s' r.
Proof.
  unfold publishDraft.
  destruct (requireIdempotencyKey header) as [key|]; [|repeated]. cbn [rbind].
  destruct (requireRevision _) as [revision|] eqn:Erv; [|repeated]. cbn [rbind].
  destruct (requireDraftVersion _ _) as [version|] eqn:Ev; [|repeated]. cbn [rbind].
  destruct (findDraft snapshot _ _ _) as [before|] eqn:Eb; [|repeated]. cbn [rbind].
  destruct (findPublication before _ _) as [prior|] eqn:Epr; [destruct (negb _); repeated|].
  destruct (negb (dr_revision before =? revision)) eqn:Er; [repeated|].
  apply negb_false_iff, Z.eqb_eq in Er as <-.
  destruct (negb _); [repeated|].
  destruct (readDraftBundle before) as [fs|] eqn:Ef; [|repeated]. cbn [rbind].
  destruct (parseSkillMetadata _ _) as [metadata|] eqn:Em; [|repeated]. cbn [bundle_files rbind].
  destruct (match dr_origin before with OriginRelease => _ | OriginUpload => _ end) as [base|] eqn:Ebase;
    [|repeated]. cbn [rbind].
  unfold draft_publish_commit.
  destruct (findDraft current _ _ _) as [draft|] eqn:Ed; [|repeated]. cbn [rbind dp_key].
  destruct (findPublication draft _ _) as [concurrent|] eqn:Ei; [destruct (negb _); repeated|].
  destruct (publishable _ _ _ _ _ _ _ _ _) as [[]|] eqn:Ep; [|repeated]. cbn [rbind].
  set (publication := Build_SkillDraftPublicationRecord _ _ _ _ _ _ _ _ _) in *.
  intros [= <- <-]. right. exists key, (dr_revision before), version. split_and!; try done.
  refine (PublicationMade _ _ _ before draft metadata base publication _ _ _ _ _ _); [|done..].
  split; try done; [|by exists fs|].
  - split; [done|]. unfold publishable in Ep. ok_inv. by bool_inv.
  - destruct (dr_origin before); [ok_inv; eauto | by ok_inv].
Qed.
End Publish.

(** ** The invariant of a draft survives *)

Lemma save_next_fields draft record fs :
  dr_revision (save_next draft record fs) = di_revision record /\
  dr_digest (save_next draft record fs) = di_digest record /\
  dr_artifact (save_next draft record fs) = di_artifact record /\
  dr_files (save_next draft record fs) = fs /\
  records (save_next draft record fs) = last_n (MAX_IDEMPOTENCY_RECORDS - 1) (records draft) ++ [record] /\
  publications (save_next draft record fs) = publications draft /\
  identity (save_next draft record fs) = identity draft.
Proof. by repeat split. Qed.

Lemma save_next_ok draft record fs : draft_ok organizationId draft ->
  di_revision record = dr_revision draft + 1 -> sealed_record record fs ->
  record_key record ∉ record_key <$> records draft ->
  draft_ok organizationId (save_next draft record fs).
Proof.
  intros O Hrev Hs Hkey. destruct (save_next_fields draft record fs) as (Er & Ed & Ea & Ef & El & Ep & Ei).
  assert (Hin : forall r, r ∈ last_n (MAX_IDEMPOTENCY_RECORDS - 1) (records draft) -> r ∈ records draft)
    by (intros r; apply elem_of_last_n).
  split; rewrite ?Er, ?Ed, ?Ea, ?Ef, ?El, ?Ep.
  - apply (ok_organization _ _ O).
  - apply (ok_open _ _ O).
  - pose proof (ok_revision _ _ O). lia.
  - apply Hs.
  - destruct (ok_created _ _ O) as (c & fs' & Hc & Hsub & H1 & Hsc & _). exists c, fs'.
    pose proof (ok_revision _ _ O). split_and!; try done. intros; lia.
  - rewrite fmap_app, last_n_fmap, (ok_records _ _ O). cbn [fmap list_fmap]. rewrite Hrev.
    apply remembered_next, O.
  - apply Forall_app. split; [|by apply Forall_singleton; exists fs].
    apply Forall_forall. intros r Hr. by apply (proj1 (Forall_forall _ _) (ok_sealed _ _ O)), Hin.
  - rewrite fmap_app, last_n_fmap. apply NoDup_app. split; [apply last_n_NoDup, O|].
    split; [|apply NoDup_singleton]. intros k Hk ->%list_elem_of_singleton. by apply elem_of_last_n in Hk.
  - intros r [Hr%Hin| ->%list_elem_of_singleton]%elem_of_app Hrr; [|by split].
    apply (record_bound _ _ _ O) in Hr. lia.
  - apply O.
  - apply O.
Qed.
Lemma save_next_step draft record fs : draft_ok organizationId draft ->
  di_revision record = dr_revision draft + 1 -> draft_step draft (save_next draft record fs).
Proof.
  intros O Hrev. destruct (save_next_fields draft record fs) as (Er & _ & _ & _ & El & _ & Ei).
  split; [done | left; lia |]. intros r Hr Hlt. rewrite El. rewrite Er, Hrev in Hlt. apply elem_of_app. left.
  (* the dropped record, if any, is the oldest *)
  pose proof (ok_records _ _ O) as Hrem. apply list_elem_of_lookup in Hr as [i Hi].
  assert (Hk : (di_revision <$> records draft) !! i = Some (di_revision r)) by (by rewrite list_lookup_fmap, Hi).
  rewrite Hrem in Hk. unfold remembered in Hk. apply lookup_seqZ in Hk as [Hk Hn].
  assert (Hlen : length (records draft) = length (remembered (dr_revision draft)))
    by (rewrite <- Hrem; by rewrite length_fmap).
  unfold remembered in Hlen. rewrite length_seqZ in Hlen.
  change (Z.of_nat MAX_IDEMPOTENCY_RECORDS) with 32 in *.
  unfold last_n. change (MAX_IDEMPOTENCY_RECORDS - 1)%nat with 31%nat.
  apply list_elem_of_lookup. exists (i - (length (records draft) - 31))%nat.
  rewrite lookup_drop, <- Hi. f_equal. lia.
Qed.

Lemma publish_next_ok draft p : draft_ok organizationId draft ->
  publication_key p ∉ publication_key <$> publications draft ->
  draft_ok organizationId (publish_next draft p).
Proof.
  intros [] Hkey. split; try done.
  - destruct ok_created as (r & fs & Hc & Hs & Hr & Hsr & Hd). exists r, fs. split_and!; try done.
    intros H1. by destruct (Hd H1).
  - intros r Hr Hrev. by destruct (ok_current r Hr Hrev).
  - change (publications (publish_next draft p)) with
      (last_n (MAX_PUBLICATION_HISTORY - 1) (publications draft) ++ [p]).
    rewrite length_app. pose proof (last_n_length (MAX_PUBLICATION_HISTORY - 1) (publications draft)).
    unfold MAX_PUBLICATION_HISTORY in *. cbn [length]. lia.
  - change (publications (publish_next draft p)) with
      (last_n (MAX_PUBLICATION_HISTORY - 1) (publications draft) ++ [p]).
    rewrite fmap_app, last_n_fmap. apply NoDup_app. split; [by apply last_n_NoDup|].
    split; [|apply NoDup_singleton]. intros k Hk ->%list_elem_of_singleton. by apply elem_of_last_n in Hk.
Qed.
Lemma publish_next_step draft p : draft_step draft (publish_next draft p).
Proof. split; [done | by right | done]. Qed.

(** A committed save leaves a draft like the one it found. *)
Section Saved.
Context (input : DraftRevisionWriteInput) (principal : Principal) (now : Z) (snapshot current : RegistryState).
Context {request : WriteRequest} {before draft : SkillDraft} {full : option Sealed} {sealed : Sealed}.
Context {stored : StoredBlob} {manifest : list SkillDraftFileManifestEntry}.
Context (S : saving input principal snapshot current request before full sealed stored manifest draft).
Abbreviation next := (saving_next principal now request full sealed stored manifest draft).

Lemma editable_spec d : assert_editable request d = Ok tt ->
  dr_revision d = wq_expectedRevision request /\ dr_status d = DraftOpen /\
  (forall digest, wq_expectedDigest request = Some digest -> dr_digest d = digest).
Proof.
  clear S. unfold assert_editable. intros H. ok_inv. bool_inv. split_and!; try done. intros digest Hd. rewrite Hd in G1.
  by apply negb_false_iff, jeqb_true in G1.
Qed.
Lemma saving_ok : draft_ok organizationId draft ->
  draft_ok organizationId next /\ draft_step draft next /\ dr_revision next = wq_expectedRevision request + 1 /\
  dr_digest next = se_digest sealed /\ dr_files next = se_files sealed.
Proof.
  intros O. destruct S as [_ _ Hf Hn Hm Hp _ Hi [_ He] _].
  apply editable_spec in He as (Hrev & _ & _). apply findIdempotency_None in Hi.
  pose proof (next_bundle_seal _ _ _ _ Hf Hn) as Hc. pose proof (canonical_seal_stored _ _ Hc Hp) as Hs.
  split; [|split; [|by split_and!]].
  - apply save_next_ok; [done | cbn; lia | by split | done].
  - apply save_next_step; [done | cbn; lia].
Qed.
Lemma saving_public : draft_ok organizationId draft ->
  toPublicDraft next (dr_files next) = Ok (publicDraftWithManifest next manifest).
Proof.
  intros (On & _ & _ & _ & Hf)%saving_ok. unfold toPublicDraft. rewrite (public_manifest _ _ On), Hf.
  by rewrite (sv_manifest _ _ _ _ _ _ _ _ _ _ _ S).
Qed.
End Saved.

(** ** The PUT *)

Definition update_input (body : jsval) (key draftId : jstr) : DraftRevisionWriteInput := {|
  wi_draftId := draftId; wi_expectedRevision := field body "expectedRevision"; wi_files := field body "files";
  wi_expectedDigest := field body "expectedDigest"; wi_idempotencyKey := Some key; wi_kind := UpdateKind;
  wi_envelope := None |}.
(** A PUT that changed the document: the answer is the saved draft. *)
Inductive updated (input : DraftRevisionWriteInput) (principal : Principal) (now : Z) (snapshot current : RegistryState)
    : RegistryState -> authoring DraftResponse -> Prop :=
| Updated request before full sealed stored manifest draft next a r :
    saving input principal snapshot current request before full sealed stored manifest draft ->
    next = saving_next principal now request full sealed stored manifest draft ->
    ae_organizationId a = organizationId ->
    (draft_ok organizationId draft ->
     r = Ok {| rp_status := 200; rp_body := draft_result_envelope false (publicDraftWithManifest next manifest) |}) ->
    updated input principal now snapshot current
      (appendAudit a (update_draft organizationId (wi_draftId input) principal next current)) r.
Lemma updateDraft_cases body header draftId principal auditId now snapshot current s' r :
  updateDraft organizationId body header draftId principal auditId now snapshot current = (s', r) ->
  s' = current \/ exists key, requireIdempotencyKey header = Ok key /\
    updated (update_input body key draftId) principal now snapshot current s' r.
Proof.
  unfold updateDraft. destruct (requireIdempotencyKey header) as [key|]; [|unchanged].
  destruct (requireRevision _); [|unchanged]. fold (update_input body key draftId).
  destruct (writeDraftRevision _ _ _ _ _ _ _) as [s1 answer] eqn:E. intros [= <- <-].
  apply write_cases in E as [->|E]; [by left|]. right. exists key. split; [done|].
  destruct E as [request before full sealed stored manifest draft next audit s1 Hs Hn Hfit Horg Hst].
  cbn [wi_kind update_input] in Hst. cbv zeta in Hst. subst s1. eapply Updated; [exact Hs | exact Hn | done|].
  intros O. apply (saving_public _ _ now _ _ Hs) in O. rewrite <- Hn in O.
  assert (Hsize : assertDraftResponseSize (draft_result_envelope false (publicDraftWithManifest next manifest)) = Ok tt)
    by exact Hfit.
  unfold write_answer, assertDraftEnvelopeFits. cbn [wi_kind update_input rbind]. rewrite O. cbn [rbind].
  rewrite Hsize. cbn [rbind wr_draft wr_files wr_idempotent]. rewrite O. cbn [rbind]. unfold draft_response.
  by rewrite Hsize.
Qed.

(** ** The routes *)

Section Routes.
Context (parseDocument : jstr -> option ydocument).
Context (admission : RegistryState -> SkillVersion -> Principal -> option bool).
Context (admissionAtCommit : option (RegistryState -> SkillVersion -> Principal -> bool)).
Context (validSemver : jstr -> bool).
Context (ids : DraftIds) (now : Z) (existing current : RegistryState).

(** What a request did, when it changed the document. *)
Inductive draft_effect (principal : Principal) : RegistryState -> Prop :=
| EffectCreate d a :
    fresh_draft principal ids d -> ae_organizationId a = organizationId ->
    draft_effect principal (appendAudit a (with_st_drafts (Some (drafts current ++ [d])) current))
| EffectSave input request before full sealed stored manifest draft a :
    saving input principal existing current request before full sealed stored manifest draft ->
    ae_organizationId a = organizationId ->
    draft_effect principal (appendAudit a (update_draft organizationId (wi_draftId input) principal
      (saving_next principal now request full sealed stored manifest draft) current))
| EffectPublish draftId before draft metadata base publication a :
    publishing parseDocument admission admissionAtCommit draftId principal ids existing current before draft
      metadata base publication ->
    ae_organizationId a = organizationId ->
    draft_effect principal (appendAudit a (update_draft organizationId draftId principal
      (publish_next draft publication)
      (with_release (published_release principal ids now existing before metadata base publication)
         (draft_job organizationId before (clonePolicy (st_policy existing)) ids now) current))).

Lemma admit_spec principal route p : admitDraftRoute organizationId principal route = Ok p ->
  principal = Some p /\ pr_organizationId p = organizationId /\ assertPublisher p = Ok tt.
Proof.
  unfold admitDraftRoute. destruct principal as [q|]; [|done]. intros H. ok_inv.
  split; [done|]. split; [by apply negb_false_iff, jeqb_true in G|]. by destruct a0.
Qed.

Definition is_file_route (route : DraftRoute) : bool :=
  match route with RouteGet _ | RouteFile _ _ _ _ => true | _ => false end.
Lemma draftHandler_effect principal route snapshot s' r :
  draftHandler parseDocument organizationId admission admissionAtCommit validSemver principal route ids now existing
    snapshot current = (s', r) ->
  s' = current \/
  exists p, principal = Some p /\ pr_organizationId p = organizationId /\ assertPublisher p = Ok tt /\
    draft_effect p s' /\ (Forall (draft_ok organizationId) (drafts current) -> is_ok r = true).
Proof.
  unfold draftHandler. destruct (admitDraftRoute _ _ _) as [p|] eqn:Ea; [|unchanged].
  apply admit_spec in Ea as (-> & Hp & Hpub).
  assert (Hcreate : forall P h, h.1 = current \/ creation p ids P current h.1 h.2 ->
            (s', r) = answered AnswerDraft h ->
            s' = current \/ exists q, Some p = Some q /\ pr_organizationId q = organizationId /\
              assertPublisher q = Ok tt /\ draft_effect q s' /\
              (Forall (draft_ok organizationId) (drafts current) -> is_ok r = true)).
  { intros P [s1 r1] [H|H] [= -> ->]; [by left|]. cbn in H |- *. right. exists p.
    inversion H; subst. split_and!; try done. by apply EffectCreate. }
  destruct route; intros H; symmetry in H.
  - eapply Hcreate; [|exact H]. destruct (createDraft _ _ _ _ _ _ _ _ _ _) eqn:E. by eapply createDraft_cases.
  - eapply Hcreate; [|exact H]. destruct (createUploadDraft _ _ _ _ _ _ _ _ _) eqn:E.
    by eapply createUploadDraft_cases.
  - injection H as -> ->. by left.
  - injection H as -> ->. by left.
  - destruct (updateDraft _ _ _ _ _ _ _ _ _) as [s1 r1] eqn:E. injection H as -> ->.
    apply updateDraft_cases in E as [->|(k & _ & E)]; [by left|]. right. exists p.
    destruct E as [request before full sealed stored manifest draft next audit r1 Hs -> Horg Hr].
    split_and!; try done; [by eapply EffectSave|]. intros Hall. cbn.
    pose proof (findDraft_spec _ _ _ _ (sv_draft _ _ _ _ _ _ _ _ _ _ _ Hs)) as (_ & Hin & _).
    apply (proj1 (Forall_forall _ _) Hall) in Hin. by rewrite (Hr Hin).
  - destruct (publishDraft _ _ _ _ _ _ _ _ _ _ _ _ _) as [s1 r1] eqn:E. injection H as -> ->.
    apply publish_cases in E as [[-> _]|(k & n & v & _ & _ & _ & E)]; [by left|]. right. exists p. destruct E.
    split_and!; try done. by eapply EffectPublish.
Qed.
End Routes.
End Commits.
