(* ===== verification/BuilderCommits.v ===== *)
(** * What the builder's transactions do to the document

    Inversion of the operations of BuilderSessions.v and Builder.v: every one
    leaves the document as it is or changes the list of sessions in one of the
    three ways of DraftState.v; applying a proposal also saves a revision of
    its draft, and rejecting one adds an audit event. *)

From Stdlib Require Import ZArith Lia.
From stdpp Require Import base list strings sets.
From S2P Require Import Prelude Js Dates Base64 Json Wire Bundle Frontmatter Contracts Numbers Web Access Names.
From S2P Require Import PolicyEval Provenance State Registry Authoring Drafts SkillBuilder DraftHandlers.
From S2P Require Import Builder BuilderSessions DraftState DraftCommits.

Local Open Scope Z_scope.

(** ** The list of sessions *)

Lemma update_first_const {A} (p : A -> bool) (f : A -> A) (l : list A) x : find_first p l = Some x ->
  update_first p f l = update_first p (fun _ => f x) l.
Proof.
  induction l as [|y l IH]; cbn; [done|]. destruct (p y); [by intros [= ->] | intros H; by rewrite IH].
Qed.
Lemma sessions_change test b s : sessions (change_session test b s) = update_first test (fun _ => b) (sessions s).
Proof. unfold change_session, sessions. cbn. by destruct (st_builderSessions s). Qed.

(** Only the sessions of the document changed. *)
Definition only_sessions (s s' : RegistryState) : Prop := exists o, s' = with_st_builderSessions o s.
Lemma only_sessions_same s : only_sessions s s.
Proof. exists (st_builderSessions s). by destruct s. Qed.
Lemma only_sessions_change test b s : only_sessions s (change_session test b s).
Proof. by eexists. Qed.

(** ** Sizes of responses *)

Lemma code_points_cons x r : code_points (x :: r) =
  if is_high x then match r with
                    | d :: r' => if is_low d then combine_surrogates x d :: code_points r' else x :: code_points r
                    | [] => [x]
                    end
  else x :: code_points r.
Proof. done. Qed.
(** An ASCII character is not part of a surrogate pair. *)
Lemma code_points_split a c b : is_ascii c -> code_points (a ++ c :: b) = code_points a ++ c :: code_points b.
Proof.
  intros Hc. unfold is_ascii in Hc.
  assert (Hh : is_high c = false) by (apply between_false; lia).
  assert (Hl : is_low c = false) by (apply between_false; lia).
  remember (length a) as n eqn:Hn. revert a Hn. induction n as [n IH] using lt_wf_ind. intros a ->.
  assert (Hrec : forall a', (length a' < length a)%nat -> code_points (a' ++ c :: b) = code_points a' ++ c :: code_points b)
    by (intros a' Ha; by eapply IH). clear IH.
  destruct a as [|x a]; [cbn [app code_points]; by rewrite Hh|]. cbn [app].
  rewrite !(code_points_cons x), (Hrec a) by (cbn; lia). destruct (is_high x); [|done].
  destruct a as [|y a]; cbn [app]; [by rewrite Hl|]. destruct (is_low y); [|done]. by rewrite Hrec by (cbn; lia).
Qed.
Lemma textEncode_split a c b : is_ascii c -> textEncode (a ++ c :: b) = textEncode a ++ c :: textEncode b.
Proof.
  intros Hc. change (c :: textEncode b) with ([c] ++ textEncode b).
  rewrite <- (textEncode_app_ascii [c] b) by (by constructor). cbn [app].
  unfold textEncode. rewrite (code_points_split _ _ _ Hc), fmap_app, concat_app. do 2 f_equal.
  exact (f_equal _ (eq_sym (code_points_split [] c b Hc))).
Qed.
(** A member less makes a smaller response. *)
Lemma smaller_response k v w :
  assertDraftResponseSize (WObj [(k, v); (js "draft", w)]) = Ok tt -> assertDraftResponseSize (draft_envelope w) = Ok tt.
Proof.
  unfold assertDraftResponseSize, response_bytes, draft_envelope. intros H.
  set (member := quote (js "draft") ++ 58 :: json_text w ++ [125]).
  assert (E1 : json_text (WObj [(js "draft", w)]) = [] ++ 123 :: member).
  { unfold member. cbn [json_text fmap list_fmap join fst snd app]. by rewrite <- !app_assoc. }
  assert (E2 : json_text (WObj [(k, v); (js "draft", w)]) = (123 :: quote k ++ 58 :: json_text v) ++ 44 :: member).
  { unfold member. cbn [json_text fmap list_fmap join fst snd app]. by rewrite <- !app_assoc. }
  rewrite E1. rewrite E2 in H. rewrite textEncode_split in H |- * by done.
  unfold jlen in *. rewrite !length_app in H |- *. cbn [length textEncode] in *. change (length (textEncode [])) with 0%nat.
  destruct (_ <? _) eqn:E in H; [done|]. bool_inv. rewrite (proj2 (Z.ltb_ge _ _)); [done|]. lia.
Qed.

Section Commits.
Context {DR : DateRuntime} {UT : UnicodeTables} {UR : UrlRuntime} {CO : Collation} {CR : Crypto} {BL : Blobs}.
Context (organizationId : jstr) (fresh evidence : SkillBuilderProposalRecord -> Prop).
Abbreviation session_ok := (session_ok organizationId).
Abbreviation session_change := (session_change organizationId fresh evidence).

(** A transaction on the sessions alone. *)
Definition sessions_move (s s' : RegistryState) : Prop :=
  only_sessions s s' /\ session_change (sessions s) (sessions s').
Lemma sessions_move_same s : sessions_move s s.
Proof. split; [apply only_sessions_same | by apply SessionsSame]. Qed.

(** ** Progress of a prompt *)

Lemma with_progress_step b p : (bs_eveSessionId b <> [] -> sp_eveSessionId p = bs_eveSessionId b) ->
  session_step b (with_progress p b).
Proof. intros H. split; [done | exact H | by left]. Qed.
Lemma with_progress_ok b p :
  (requests_ok (bs_activeRequestId b) (bs_requests b) -> requests_ok (sp_activeRequestId p) (sp_requests p)) ->
  session_ok b -> session_ok (with_progress p b).
Proof. intros H []. split; cbn; auto. intros q [] %so_belongs. by split. Qed.
Lemma progress_move s test b p : find_first test (sessions s) = Some b ->
  (bs_eveSessionId b <> [] -> sp_eveSessionId p = bs_eveSessionId b) ->
  (requests_ok (bs_activeRequestId b) (bs_requests b) -> requests_ok (sp_activeRequestId p) (sp_requests p)) ->
  sessions_move s (change_session test (with_progress p b) s).
Proof.
  intros Hf He Hr. split; [apply only_sessions_change|]. rewrite sessions_change.
  eapply SessionMoved; [exact Hf | done | by apply with_progress_step | by apply with_progress_ok | by apply ProposalsKept].
Qed.

(** A reserved session had no accepted prompt, and no other open question. *)
Lemma unresolved_spec b state : match unresolved_request b state with
  | Some id => exists r, r ∈ bs_requests b /\ br_state r = state /\ br_id r = id
  | None => forall r, r ∈ bs_requests b -> br_state r <> state
  end.
Proof.
  unfold unresolved_request. destruct (find_first _ _) as [r|] eqn:E; cbn.
  - apply find_first_Some in E as [Hin Hp%bool_decide_eq_true]. by exists r.
  - intros r Hr Hs. apply find_first_None in E. apply (proj1 (Forall_forall _ _) E) in Hr.
    by apply bool_decide_eq_false in Hr.
Qed.
Lemma request_found b r : NoDup (br_id <$> bs_requests b) -> r ∈ bs_requests b -> request_of b (br_id r) = Some r.
Proof.
  intros Hnd Hr. unfold request_of.
  destruct (find_first_is_Some (fun x => jeqb (br_id x) (br_id r)) (bs_requests b) r) as [x Hx]; [done | by rewrite jeqb_refl|].
  rewrite Hx. f_equal. apply find_first_Some in Hx as [Hx Hid%jeqb_true]. by apply (NoDup_key_inj br_id (bs_requests b)).
Qed.
Lemma reservable_free b requestId : requests_ok (bs_activeRequestId b) (bs_requests b) ->
  assert_reservable b requestId = Ok tt -> forall r, r ∈ bs_requests b -> br_state r <> RequestAccepted.
Proof.
  intros O H r Hr Hs. unfold assert_reservable in H. ok_inv. clear G. apply orb_false_iff in G2 as [G2 _].
  apply bool_decide_eq_false in G2.
  assert (Hact : active_request b = Some (br_id r)).
  { unfold active_request. destruct (ro_active _ _ O r Hr Hs) as [->| ->]; [|done].
    pose proof (unresolved_spec b RequestAccepted) as Hu. destruct (unresolved_request _ _) as [id|].
    - destruct Hu as (r' & Hr' & Hs' & <-). by rewrite (ro_accepted _ _ O r r').
    - by destruct (Hu r Hr). }
  rewrite Hact in G1. pose proof (ro_named _ _ O r Hr) as Hn.
  destruct (br_id r) as [|c id] eqn:Eid; [done|]. apply negb_false_iff, jeqb_true in G1. subst requestId.
  rewrite <- Eid, (request_found b r (ro_ids _ _ O) Hr) in G2. cbn in G2. congruence.
Qed.
Lemma boundedText_named v n s : boundedText v n = Ok s -> s <> [].
Proof. unfold boundedText. destruct v; try done. intros H. ok_inv. by intros ->. Qed.

(** ** The operations of the facade *)

Lemma create_move principal binding id key now s : pr_organizationId principal = organizationId ->
  id ∉ bs_id <$> sessions s -> sessions_move s (createPendingSession principal binding id key now s).1.
Proof.
  intros Hp Hid. unfold createPendingSession. destruct (last _) as [b|]; cbn [fst].
  - split; [by eexists | by apply SessionsSame].
  - split; [by eexists|]. eapply SessionAdded; [reflexivity | | done | done].
    split; cbn; [done | apply requests_ok_empty | unfold MAX_BUILDER_PROPOSALS; lia | constructor | constructor|].
    by intros p ?%not_elem_of_nil.
Qed.
Lemma owned_spec s draftId sessionId principal b : findOwnedSession s draftId sessionId principal = Ok b ->
  find_first (is_owned draftId sessionId principal) (sessions s) = Some b.
Proof. unfold findOwnedSession. destruct (find_first _ _); [|done]. by intros [= ->]. Qed.

Lemma reserve_move sessionId requestId binding digest principal now s s' b :
  Forall session_ok (sessions s) -> requestId <> [] ->
  reserveRequest sessionId requestId binding digest principal now s = Ok (s', b) -> sessions_move s s'.
Proof.
  intros Hall Hid H. unfold reserveRequest in H. ok_step. apply owned_spec in E.
  pose proof (find_first_Some _ _ _ E) as [Hin _]. apply (proj1 (Forall_forall _ _) Hall) in Hin.
  ok_step. ok_step. destruct (bool_decide _); [injection H as <- <-; apply sessions_move_same|].
  ok_inv. destruct a1. apply progress_move; [done | done |]. intros O. cbn.
  eapply remember_accepted; [exact O | done | by eapply reservable_free | done].
Qed.
Lemma prompt_move body binding sessionId principal now snapshot s s' r : Forall session_ok (sessions s) ->
  sendPrompt body binding sessionId principal now snapshot s = (s', r) -> sessions_move s s'.
Proof.
  intros Hall H. unfold sendPrompt in H.
  destruct (rbind _ _) as [[s1 r1]|] eqn:E; cbn [uncommitted_as] in H; injection H as <- <-; [|apply sessions_move_same].
  ok_inv. destruct a5 as [s2 b]. ok_inv. eapply reserve_move; [done | by eapply boundedText_named | done].
Qed.
Lemma bind_move sessionId requestId binding eve now s s' b : requestId <> [] ->
  bindAcceptedSession sessionId requestId binding eve now s = Ok (s', b) -> sessions_move s s'.
Proof.
  intros Hid H. unfold bindAcceptedSession in H. destruct (find_first _ _) as [b0|] eqn:Ef; [|done].
  ok_step. ok_step. ok_step. destruct (request_of b0 requestId) as [request|]; [|done]. ok_inv.
  apply progress_move; [done| |].
  - intros Hne. cbn. apply andb_false_iff in G1 as [G1|G1].
    + by apply negb_false_iff, jeqb_true in G1.
    + by apply negb_false_iff, jeqb_true in G1.
  - intros O. cbn. by eapply remember_settled.
Qed.
Lemma mark_move sessionId requestId digest status now s s' : requestId <> [] -> status <> RequestAccepted ->
  markRequest sessionId requestId digest status now s = Ok s' -> sessions_move s s'.
Proof.
  intros Hid Hst H. unfold markRequest in H.
  destruct (find_first _ _) as [b|] eqn:Ef; [|injection H as <-; apply sessions_move_same]. ok_inv.
  apply progress_move; [done | done|]. intros O. cbn.
  assert (O' : requests_ok (bs_activeRequestId b) a) by (by eapply remember_settled).
  destruct (frees status && _); [by eapply requests_ok_inactive | done].
Qed.
Lemma settle_move record request binding response now s s' r : pq_requestId request <> [] ->
  settlePrompt record request binding response now s = (s', r) -> sessions_move s s'.
Proof.
  intros Hid H. unfold settlePrompt in H. destruct (request_of record _) as [rr|]; [|injection H as <- <-; apply sessions_move_same].
  destruct (match response with None => _ | Some _ => _ end) as [eve|].
  - destruct (bindAcceptedSession _ _ _ _ _ _) as [[s1 b]|] eqn:E; cbn in H; injection H as <- <-; [|apply sessions_move_same].
    by eapply bind_move.
  - destruct (markRequest _ _ _ _ _ _) as [s1|] eqn:E; cbn in H; injection H as <- <-; [|apply sessions_move_same].
    eapply mark_move; [done | | done]. done.
Qed.
Lemma reconciled_progress snapshot now b : exists p, reconciled snapshot now b = with_progress p b /\
  sp_eveSessionId p = bs_eveSessionId b /\ sp_requests p = bs_requests b /\
  (sp_activeRequestId p = None \/ sp_activeRequestId p = bs_activeRequestId b).
Proof.
  unfold reconciled. destruct (bool_decide _); eexists; (split; [reflexivity|]); cbn; (split; [done|]); (split; [done|]).
  - by right.
  - destruct (settled_lifecycle _); auto.
Qed.
Lemma reconcile_move sessionId snapshot now s : sessions_move s (reconcileSnapshot sessionId snapshot now s).
Proof.
  unfold reconcileSnapshot. destruct (find_first _ _) as [b|] eqn:Ef; [|apply sessions_move_same].
  destruct (reconciled_progress snapshot (toISOString now) b) as (p & -> & He & Hr & Ha).
  apply progress_move; [done | by intros |]. intros O. rewrite Hr.
  destruct Ha as [->| ->]; [by eapply requests_ok_inactive | done].
Qed.
Lemma load_move binding principal id text now snapshot s s' r :
  loadSession organizationId binding principal id text now snapshot s = (s', r) -> sessions_move s s'.
Proof.
  unfold loadSession. destruct (rbind _ _) as [[s1 r1]|] eqn:E; cbn [uncommitted_as]; intros [= <- <-]; [|apply sessions_move_same].
  ok_inv. destruct (jeqb _ _); [injection E as <- <-; apply sessions_move_same|]. ok_inv. apply reconcile_move.
Qed.
Lemma stream_move binding id principal text now snapshot s s' r :
  streamSession organizationId binding id principal text now snapshot s = (s', r) -> sessions_move s s'.
Proof.
  unfold streamSession. destruct (findOwnedSession _ _ _ _); [|intros [= <- _]; apply sessions_move_same].
  destruct (assertSessionBinding _ _ _ _); [apply load_move | intros [= <- _]; apply sessions_move_same].
Qed.
Lemma stop_move body binding sessionId principal response now snapshot s s' r :
  stopSession body binding sessionId principal response now snapshot s = (s', r) -> sessions_move s s'.
Proof.
  unfold stopSession. destruct (rbind _ _) as [[s1 r1]|] eqn:E; cbn [uncommitted_as]; intros [= <- <-]; [|apply sessions_move_same].
  ok_inv. destruct (find_first _ _) as [b|] eqn:Ef; [|injection E as <- <-; apply sessions_move_same]. ok_inv.
  apply progress_move; [done | done|]. intros O. cbn.
  eapply requests_ok_inactive, remember_settled; [done | by eapply boundedText_named | done | done].
Qed.

Definition opened_id (operation : BffOperation) : option jstr :=
  match operation with
  | OpenSession _ id _ => Some id
  | _ => None
  end.
Lemma bff_move publicOrigin headers revisions digests draftId principal operation now bound snapshot s s' r :
  builderBffHandler organizationId publicOrigin headers revisions digests draftId principal operation now bound snapshot s
    = (s', r) ->
  pr_organizationId principal = organizationId -> Forall session_ok (sessions s) ->
  (forall id, opened_id operation = Some id -> id ∉ bs_id <$> sessions s) -> sessions_move s s'.
Proof.
  intros H Hp Hall Hid. unfold builderBffHandler in H.
  destruct (bff_admission _ _ _ _ _ _ _ _) as [binding|]; [|injection H as <- _; apply sessions_move_same].
  unfold bff_answered in H. destruct operation as [body id key|id text|id text|id body|id body response].
  - injection H as <- _. unfold createSession. destruct (assertBodyBinding _ _ _); cbn; [|apply sessions_move_same].
    destruct (boundedText _ _); cbn; [|apply sessions_move_same].
    pose proof (create_move principal binding id key now s Hp (Hid id eq_refl)) as Hm.
    by destruct (createPendingSession _ _ _ _ _ _) as [s1 b].
  - destruct (loadSession _ _ _ _ _ _ _ _) eqn:E. injection H as <- _. by eapply load_move.
  - destruct (streamSession _ _ _ _ _ _ _ _) eqn:E. injection H as <- _. by eapply stream_move.
  - destruct (sendPrompt _ _ _ _ _ _ _) eqn:E. injection H as <- _. by eapply prompt_move.
  - destruct (stopSession _ _ _ _ _ _ _ _) eqn:E. injection H as <- _. by eapply stop_move.
Qed.

(** ** The sessions of a draft *)

Lemma session_spec s draftId sessionId b : findBuilderSession organizationId s draftId sessionId = Some b ->
  b ∈ sessions s /\ bs_id b = sessionId /\ bs_draftId b = draftId.
Proof.
  unfold findBuilderSession. intros [Hin Hp]%find_first_Some. unfold is_session in Hp.
  apply andb_true_iff in Hp as [[?%jeqb_true _]%andb_true_iff ?%jeqb_true]. done.
Qed.
Lemma sessions_update s draftId sessionId f b : findBuilderSession organizationId s draftId sessionId = Some b ->
  sessions (update_builder_session organizationId draftId sessionId f s) =
  update_first (is_session organizationId draftId sessionId) (fun _ => f b) (sessions s).
Proof.
  unfold findBuilderSession. intros H. rewrite <- (update_first_const _ f _ _ H).
  unfold update_builder_session, sessions. cbn. by destruct (st_builderSessions s).
Qed.
Lemma only_sessions_update s draftId sessionId f :
  only_sessions s (update_builder_session organizationId draftId sessionId f s).
Proof. by eexists. Qed.
Lemma proposal_spec b proposalId principal p : find_proposal b proposalId principal = Some p ->
  p ∈ bs_proposals b /\ bp_id p = proposalId /\ bp_subject p = pr_subject principal.
Proof.
  unfold find_proposal. intros [Hin [?%jeqb_true ?%jeqb_true]%andb_true_iff]%find_first_Some. done.
Qed.

(** Adding a proposal. *)
Lemma propose_ok b p now : session_ok b -> bp_sessionId p = bs_id b -> bp_draftId p = bs_draftId b ->
  bp_subject p = bs_subject b -> bp_state p = ProposalPending ->
  bp_id p ∉ bp_id <$> bs_proposals b -> bp_idempotencyKey p ∉ bp_idempotencyKey <$> bs_proposals b ->
  session_ok (with_session_proposals (last_n (MAX_BUILDER_PROPOSALS - 1) (bs_proposals b) ++ [p])
    (bs_draftRevision b) (bs_draftDigest b) now b).
Proof.
  intros [Ho Hr Hc Hi Hk Hb] Hs Hd Hsub Hst Hid Hkey.
  assert (Hnd : forall (f : SkillBuilderProposalRecord -> jstr), NoDup (f <$> bs_proposals b) ->
            f p ∉ f <$> bs_proposals b ->
            NoDup (f <$> last_n (MAX_BUILDER_PROPOSALS - 1) (bs_proposals b) ++ [p])).
  { intros f Hf Hp. rewrite fmap_app, last_n_fmap. apply NoDup_app. split; [by apply last_n_NoDup|].
    split; [|apply NoDup_singleton]. intros k Hk' ->%list_elem_of_singleton. by apply elem_of_last_n in Hk'. }
  split; cbn [with_session_proposals bs_organizationId bs_activeRequestId bs_requests bs_proposals]; auto.
  - rewrite length_app. pose proof (last_n_length (MAX_BUILDER_PROPOSALS - 1) (bs_proposals b)).
    unfold MAX_BUILDER_PROPOSALS in *. change (32 - 1)%nat with 31%nat in *. cbn [length]. lia.
  - intros q [Hq%elem_of_last_n| ->%list_elem_of_singleton]%elem_of_app; [by destruct (Hb q Hq); split|].
    split; try done. by rewrite Hst.
Qed.
Lemma proposal_commit_move draftId sessionId binding subject p s s' r :
  Forall session_ok (sessions s) -> bp_sessionId p = sessionId -> bp_draftId p = draftId -> bp_subject p = subject ->
  bp_state p = ProposalPending -> fresh p ->
  (forall b, b ∈ sessions s -> bp_id p ∉ bp_id <$> bs_proposals b) ->
  proposal_commit organizationId draftId sessionId binding subject p s = Ok (s', r) -> sessions_move s s'.
Proof.
  intros Hall Hs Hd Hsub Hst Hfr Hid H. unfold proposal_commit in H.
  destruct (findBuilderSession _ _ _ _) as [b|] eqn:Eb; [|done]. ok_step. ok_step.
  destruct (find_first _ (bs_proposals b)) as [existing|] eqn:Ee; [ok_inv; apply sessions_move_same|]. ok_inv.
  pose proof (session_spec _ _ _ _ Eb) as (Hin & Hbs & Hbd). apply negb_false_iff, jeqb_true in G.
  split; [apply only_sessions_update|]. rewrite (sessions_update _ _ _ _ b Eb).
  eapply SessionMoved; [exact Eb | done | | |].
  - split; cbn; auto.
  - intros O. apply propose_ok; try done; try congruence; [by apply Hid|].
    intros (q & Hq & Hqin)%list_elem_of_fmap. apply find_first_None in Ee.
    apply (proj1 (Forall_forall _ _) Ee) in Hqin. by rewrite <- Hq, jeqb_refl in Hqin.
  - eapply ProposalAdded; [exact Hst | exact Hfr|]. cbn.
    intros q [Hq%elem_of_last_n| ->%list_elem_of_singleton]%elem_of_app; auto.
Qed.
Lemma propose_move body header draftId principal proposalId now snapshot s s' r :
  Forall session_ok (sessions s) -> (forall p, bp_id p = proposalId -> fresh p) ->
  (forall b, b ∈ sessions s -> proposalId ∉ bp_id <$> bs_proposals b) ->
  createBuilderProposal organizationId body header draftId principal proposalId now snapshot s = (s', r) ->
  sessions_move s s'.
Proof.
  intros Hall Hfr Hid H. unfold createBuilderProposal in H.
  destruct (rbind _ _) as [[s1 r1]|] eqn:E; cbn [uncommitted_as] in H; injection H as <- <-; [|apply sessions_move_same].
  ok_inv. destruct (findBuilderSession _ snapshot _ _) as [session|]; [|done]. ok_inv.
  destruct a7 as [s2 result]. ok_inv.
  eapply proposal_commit_move; [exact Hall | | | | | | |exact E8]; try done. by apply Hfr.
Qed.

(** Deciding one. *)
Lemma settle_proposals l p principal v now : p ∈ l -> NoDup (bp_id <$> l) ->
  find_first (is_proposal (bp_id p) principal) l = Some p ->
  let l' := update_first (is_proposal (bp_id p) principal) (with_proposal_state v now) l in
  (bp_id <$> l' = bp_id <$> l) /\ (bp_idempotencyKey <$> l' = bp_idempotencyKey <$> l) /\ length l' = length l /\
  (forall q, q ∈ l' -> q = with_proposal_state v now p \/ (q ∈ l /\ bp_id q <> bp_id p)).
Proof.
  intros Hp Hnd Hf l'. assert (Hids : bp_id <$> l' = bp_id <$> l) by (by apply update_first_fmap).
  split; [done|]. split; [by apply update_first_fmap|]. split; [apply length_update_first|].
  intros q Hq. destruct (decide (bp_id q = bp_id p)) as [E|E].
  - left. apply (NoDup_key_inj bp_id l'); [by rewrite Hids | done | by apply update_first_found | done].
  - right. apply update_first_elem in Hq as [Hq|(x & Hx & ->)]; [done|].
    rewrite Hf in Hx. injection Hx as <-. by destruct E.
Qed.
Lemma decided_step p v now : bp_state p = ProposalPending -> (v = ProposalApplied \/ v = ProposalRejected) ->
  proposal_step p (with_proposal_state v now p).
Proof. intros Hp Hv. split; [done | by right]. Qed.
Lemma settle_ok b p principal v revision digest now now' : session_ok b ->
  find_proposal b (bp_id p) principal = Some p -> v <> ProposalStale ->
  session_ok (with_session_proposals
    (update_first (is_proposal (bp_id p) principal) (with_proposal_state v now) (bs_proposals b)) revision digest now' b).
Proof.
  intros [Ho Hr Hc Hi Hk Hb] Hf Hv. pose proof (proposal_spec _ _ _ _ Hf) as (Hin & _).
  destruct (settle_proposals _ _ principal v now Hin Hi Hf) as (Hids & Hkeys & Hlen & Hq).
  split; cbn [with_session_proposals bs_organizationId bs_activeRequestId bs_requests bs_proposals];
    rewrite ?Hids, ?Hkeys, ?Hlen; auto.
  intros q [->|[Hin' _]]%Hq; [|by destruct (Hb q Hin'); split].
  destruct (Hb p Hin). by split.
Qed.
Lemma settle_change s draftId sessionId b p principal v revision digest now :
  findBuilderSession organizationId s draftId sessionId = Some b ->
  find_proposal b (bp_id p) principal = Some p -> bp_state p = ProposalPending -> session_ok b ->
  (v = ProposalRejected /\ revision = bs_draftRevision b /\ digest = bs_draftDigest b \/
   v = ProposalApplied /\ bs_draftRevision b < revision) -> evidence (with_proposal_state v now p) ->
  session_change (sessions s) (sessions (update_builder_session organizationId draftId sessionId (fun b =>
    with_session_proposals (update_first (is_proposal (bp_id p) principal) (with_proposal_state v now) (bs_proposals b))
      revision digest now b) s)).
Proof.
  intros Hb Hp Hst O Hv Hev. rewrite (sessions_update _ _ _ _ b Hb).
  pose proof (proposal_spec _ _ _ _ Hp) as (Hin & _).
  eapply SessionMoved; [exact Hb | done | | |].
  - split; [done | by intros |]. cbn. destruct Hv as [(_ & -> & ->)|(_ & ?)]; auto.
  - intros _. apply settle_ok; [done | done |]. destruct Hv as [[-> _]|[-> _]]; done.
  - eapply (ProposalSettled _ _ _ _ p (with_proposal_state v now p)); [done | done | | |].
    + apply decided_step; [done|]. destruct Hv as [[-> _]|[-> _]]; auto.
    + done.
    + cbn. eapply settle_proposals; [done | apply O | done].
Qed.

(** What a rejection did, when it changed the document. *)
Lemma reject_cases body header draftId proposalId principal auditId now s s' r :
  rejectBuilderProposal organizationId body header draftId proposalId principal auditId now s = (s', r) ->
  (s' = s /\ (is_ok r = true -> exists b p, b ∈ sessions s /\ p ∈ bs_proposals b /\ bp_id p = proposalId /\
     bp_state p <> ProposalPending)) \/
  exists a b p, ae_organizationId a = organizationId /\ is_ok r = true /\
    findBuilderSession organizationId s draftId (bs_id b) = Some b /\ find_proposal b proposalId principal = Some p /\
    bp_state p = ProposalPending /\
    s' = appendAudit a (update_builder_session organizationId draftId (bs_id b) (fun b =>
      with_session_proposals (update_first (is_proposal proposalId principal)
        (with_proposal_state ProposalRejected (toISOString now)) (bs_proposals b))
        (bs_draftRevision b) (bs_draftDigest b) (toISOString now) b) s).
Proof.
  intros H. unfold rejectBuilderProposal in H.
  destruct (rbind _ _) as [[s1 r1]|] eqn:E; cbn [uncommitted_as] in H; injection H as <- <-; [|by left].
  ok_inv. destruct (findBuilderSession _ _ _ _) as [b|] eqn:Eb; [|done].
  destruct (find_proposal b _ _) as [p|] eqn:Ep; [|done].
  pose proof (session_spec _ _ _ _ Eb) as (Hin & Hid & _). pose proof (proposal_spec _ _ _ _ Ep) as (Hpin & Hpid & _).
  destruct (bool_decide _) eqn:Es; injection E as <- <-.
  - apply bool_decide_eq_true in Es. right. subst a0. eexists _, b, p.
    split; [|split; [done | split; [done | split; [done | split; [done | reflexivity]]]]]. done.
  - apply bool_decide_eq_false in Es. left. split; [done|]. intros _. by exists b, p.
Qed.
Lemma reject_move s draftId b p proposalId principal now : Forall session_ok (sessions s) ->
  findBuilderSession organizationId s draftId (bs_id b) = Some b -> find_proposal b proposalId principal = Some p ->
  bp_state p = ProposalPending -> (forall q, bp_state q = ProposalRejected -> evidence q) ->
  sessions_move s (update_builder_session organizationId draftId (bs_id b) (fun b =>
    with_session_proposals (update_first (is_proposal proposalId principal)
      (with_proposal_state ProposalRejected now) (bs_proposals b)) (bs_draftRevision b) (bs_draftDigest b) now b) s).
Proof.
  intros Hall Eb Ep Es Hev. pose proof (session_spec _ _ _ _ Eb) as (Hin & _).
  apply (proj1 (Forall_forall _ _) Hall) in Hin.
  pose proof (proposal_spec _ _ _ _ Ep) as (_ & Hid & _). subst proposalId.
  split; [apply only_sessions_update|].
  rewrite (sessions_update _ _ _ _ b Eb).
  pose proof (settle_change s draftId (bs_id b) b p principal ProposalRejected (bs_draftRevision b) (bs_draftDigest b)
    now Eb Ep Es Hin) as Hc. rewrite (sessions_update _ _ _ _ b Eb) in Hc. apply Hc; [by left | by apply Hev].
Qed.

(** ** Applying *)

Lemma decode_valid bytes fs : decodeBundle bytes = Ok {| files := fs |} ->
  bundle_spec fs /\ encodeBundle (bundle_value {| files := fs |}) = Ok bytes.
Proof.
  intros H. split; [|by apply decode_encodes]. unfold decodeBundle in H. ok_step.
  destruct (textDecode bytes) as [t|]; [|done]. destruct (json_parse t) as [v|]; [|done]. ok_inv.
  exact (validateBundle_spec _ _ E).
Qed.
Lemma canonicalize_again bytes fs : decodeBundle bytes = Ok {| files := fs |} ->
  canonicalizeBundle (files_value fs) = Ok fs.
Proof.
  intros H. pose proof (decode_valid _ _ H) as [Hs He]. unfold canonicalizeBundle. rewrite bundle_literal.
  rewrite (validateBundle_complete _ Hs). cbn [rbind]. rewrite He. cbn [rbind]. by rewrite H.
Qed.
Lemma parse_canonical fs : bundle_spec fs -> parseDraftFileInputs (file_value <$> fs) = Ok (InlineFile <$> fs).
Proof.
  intros [_ _ Hs _ _]. unfold parseDraftFileInputs. induction Hs as [|[p c e] fs [_ _ Hx _ _] _ IH]; [done|].
  rewrite !fmap_cons. cbn [map_result]. rewrite IH. cbn [rbind].
  destruct Hx as [He|He]; cbn in He; subst e; reflexivity.
Qed.
Lemma inline_canonical fs : inline_files (InlineFile <$> fs) = fs /\ existsb isDraftFileReference (InlineFile <$> fs) = false.
Proof. unfold inline_files. induction fs as [|f fs [IH1 IH2]]; [done|]. cbn in *. by rewrite IH1. Qed.

Section Apply.
Context (body : jsval) (draftId proposalId : jstr) (principal : Principal) (now commitNow : Z).
Context (state snapshot refreshed current : RegistryState).

(** The write an apply asks for. *)
Definition apply_input (binding : DraftBinding) (sessionId key : jstr) (proposal : SkillBuilderProposalRecord)
    (before after : list BundleFile) : DraftRevisionWriteInput := {|
  wi_draftId := draftId; wi_expectedRevision := JNum (num_of_Z (bp_baseRevision proposal));
  wi_files := files_value after; wi_expectedDigest := JUndef; wi_idempotencyKey := Some key;
  wi_kind := BuilderProposalKind (JStr proposalId)
               (apply_proposal organizationId draftId sessionId proposalId binding principal commitNow);
  wi_envelope := Some (proposal_draft_wire (mark_applied proposal) (Some before)) |}.
(** What is answered after a write that was not a replay. *)
Definition apply_answer (sessionId : jstr) (before : list BundleFile) (s' : RegistryState)
    (answer : authoring DraftRevisionWriteResult) : authoring DraftResponse :=
  let? written := answer in
  let settled s := match findBuilderSession organizationId s draftId sessionId with
                   | None => None
                   | Some b => find_proposal b proposalId principal
                   end in
  let? updated := match settled (if wr_idempotent written then refreshed else s') with
                  | Some p => throw_if wr_idempotent written && negb (bool_decide (bp_state p = ProposalApplied))
                                with DRAFT_CONFLICT ;; Ok p
                  | None => Err DRAFT_CONFLICT
                  end in
  let? publicDraft := toPublicDraft (wr_draft written) (wr_files written) in
  draft_response 200 (proposal_draft_wire updated (Some before) publicDraft).

(** An apply that changed the document. *)
Inductive applied_by : RegistryState -> authoring DraftResponse -> Prop :=
| AppliedBy binding sessionId key session proposal draft before after request b full sealed stored manifest
    target next a s' :
    parseBuilderBodyBinding body draftId = Ok binding ->
    findBuilderSession organizationId state draftId sessionId = Some session ->
    find_proposal session proposalId principal = Some proposal ->
    bs_subject session = pr_subject principal -> bp_state proposal = ProposalPending ->
    findBuilderDraft organizationId state binding principal false = Ok draft ->
    bp_baseRevision proposal = db_revision binding -> bp_baseDigest proposal = db_digest binding ->
    readDraftBundle draft = Ok before -> applyBuilderOperations before (bp_operations proposal) = Ok after ->
    saving organizationId (apply_input binding sessionId key proposal before after) principal snapshot current
      request b full sealed stored manifest target ->
    next = saving_next principal now request full sealed stored manifest target ->
    assertDraftEnvelopeSizeWithManifest next manifest
      (proposal_draft_wire (mark_applied proposal) (Some before)) = Ok tt ->
    ae_organizationId a = organizationId ->
    apply_proposal organizationId draftId sessionId proposalId binding principal commitNow
      (appendAudit a (update_draft organizationId draftId principal next current)) next = Ok s' ->
    applied_by s' (apply_answer sessionId before s'
      (write_answer (wi_kind (apply_input binding sessionId key proposal before after)) (wq_key request)
         (pr_subject principal) (next, false))).
Lemma apply_cases header auditId s' r :
  applyBuilderProposal organizationId body header draftId proposalId principal auditId now commitNow state snapshot
    refreshed current = (s', r) -> s' = current \/ applied_by s' r.
Proof.
  unfold applyBuilderProposal.
  destruct (parseBuilderBodyBinding _ _) as [binding|] eqn:Eb; [|unchanged]. cbn [rbind].
  destruct (requireSafeBuilderId _) as [sessionId|]; [|unchanged]. cbn [rbind].
  destruct (requireBuilderRequestKey _) as [key|]; [|unchanged]. cbn [rbind].
  destruct (findBuilderSession _ state _ _) as [session|] eqn:Es; [|unchanged].
  destruct (find_proposal session _ _) as [proposal|] eqn:Ep; [|unchanged].
  destruct (negb (jeqb (bs_subject session) _)) eqn:Esub; [unchanged|].
  apply negb_false_iff, jeqb_true in Esub.
  destruct (bp_state proposal) eqn:Est; [| |unchanged|unchanged].
  2: { destruct (findDraft state _ _ _) as [d|]; [|unchanged]. cbn [rbind].
       destruct (readDraftBundle d) as [fs|]; [|unchanged]. cbn [rbind].
       destruct (toPublicDraft d fs); unchanged. }
  destruct (findBuilderDraft _ _ _ _ _) as [draft|] eqn:Ed; [|unchanged]. cbn [rbind].
  destruct (negb (bp_baseRevision proposal =? _) || _) eqn:Ebase; [unchanged|].
  apply orb_false_iff in Ebase as [Eb1%negb_false_iff%Z.eqb_eq Eb2%negb_false_iff%jeqb_true].
  destruct (readDraftBundle draft) as [before|] eqn:Ebf; [|unchanged]. cbn [rbind].
  destruct (applyBuilderOperations _ _) as [after|] eqn:Eaf; [|unchanged]. cbn [rbind].
  destruct (encode_files after) as [encoded|]; [|unchanged]. cbn [rbind].
  destruct (compactManifest after) as [m|]; [|unchanged]. cbn [rbind].
  destruct (assertDraftEnvelopeFits _ _ _) as [u|]; [|unchanged]. cbn [rbind].
  fold (apply_input binding sessionId key proposal before after).
  destruct (writeDraftRevision _ _ _ _ _ _ _) as [s1 answer] eqn:Ew. cbn [uncommitted_as].
  fold (apply_answer sessionId before s1 answer). intros [= <- <-].
  apply write_cases in Ew as [->|Ew]; [by left|]. right.
  destruct Ew as [request b full sealed stored manifest target next a s1 Hs Hn Hfit Horg Hc].
  eapply AppliedBy; try exact Hs; try done.
Qed.
End Apply.

(** What the callback found in the transaction. *)
Record settled_by (binding : DraftBinding) (sessionId draftId proposalId : jstr) (principal : Principal) (commitNow : Z)
    (mutable : RegistryState) (next : SkillDraft) (s' : RegistryState) (b : SkillBuilderSessionRecord)
    (p : SkillBuilderProposalRecord) : Prop := {
  sb_session : findBuilderSession organizationId mutable draftId sessionId = Some b;
  sb_proposal : find_proposal b proposalId principal = Some p;
  sb_subject : bs_subject b = pr_subject principal;
  sb_pending : bp_state p = ProposalPending;
  sb_binding : bs_draftRevision b = db_revision binding /\ bs_draftDigest b = db_digest binding;
  sb_next : dr_revision next = db_revision binding + 1 /\ dr_digest next = bp_proposedDigest p;
  sb_state : s' = update_builder_session organizationId draftId sessionId (fun b =>
    with_session_proposals (update_first (is_proposal proposalId principal)
      (with_proposal_state ProposalApplied (toISOString commitNow)) (bs_proposals b))
      (dr_revision next) (dr_digest next) (toISOString commitNow) b) mutable;
}.
Lemma apply_proposal_spec binding sessionId draftId proposalId principal commitNow mutable next s' :
  apply_proposal organizationId draftId sessionId proposalId binding principal commitNow mutable next = Ok s' ->
  exists b p, settled_by binding sessionId draftId proposalId principal commitNow mutable next s' b p.
Proof.
  unfold apply_proposal. destruct (findBuilderSession _ _ _ _) as [b|] eqn:Eb; [|done].
  destruct (find_proposal b _ _) as [p|] eqn:Ep; [|done]. intros H. ok_step. exists b, p.
  apply negb_false_iff, jeqb_true in G. 
  destruct (_ || _) eqn:Eg; [done|]. cbn in H. apply Ok_inj in H.
  rewrite !orb_false_iff, !negb_false_iff, bool_decide_eq_true, !Z.eqb_eq, !jeqb_true in Eg.
  destruct Eg as ((((? & ?) & ?) & ?) & ?). by split.
Qed.

(** The bounds a binding was checked for. *)
Lemma boundedInteger_spec v maximum n : boundedInteger v maximum = Ok n -> 0 <= n <= maximum.
Proof.
  unfold boundedInteger. destruct v as [| | |x| | |]; try done. destruct (num_to_Z x) as [m|]; [|done].
  destruct (_ || _) eqn:E; [done|]. intros [= ->]%Ok_inj. bool_inv. lia.
Qed.
Lemma binding_spec body draftId binding : parseBuilderBodyBinding body draftId = Ok binding ->
  db_draftId binding = draftId /\ 0 <= db_revision binding <= 1000000000.
Proof.
  unfold parseBuilderBodyBinding, builder_checked. intros H. ok_inv.
  apply negb_false_iff, jeqb_true in G. split; [done|].
  destruct (validateDraftBinding _) as [b|] eqn:Eb; [|done]. apply Ok_inj in E as ->.
  unfold validateDraftBinding, boundedRevision in Eb. ok_inv. by apply boundedInteger_spec in E0.
Qed.

(** The save an apply asked for is of the revision the proposal names, and its
    files are the result of the operations. *)
Lemma apply_saves binding sessionId key proposal fs after draftId proposalId principal commitNow snapshot current
    request b full sealed stored manifest target :
  saving organizationId (apply_input draftId proposalId principal commitNow binding sessionId key proposal fs after)
    principal snapshot current request b full sealed stored manifest target ->
  0 <= bp_baseRevision proposal <= 1000000000 ->
  applyBuilderOperations fs (bp_operations proposal) = Ok after ->
  wq_expectedRevision request = bp_baseRevision proposal /\ se_files sealed = after.
Proof.
  intros [Hrq _ Hf Hn _ _ _ _ _ _] Hrev Haf. unfold applyBuilderOperations in Haf. ok_inv.
  destruct (canonicalizeBundle _) as [fs'|] eqn:Ec; [|done]. apply Ok_inj in Haf as ->.
  apply canonicalize_decodes in Ec as (bytes & Hd & _). pose proof (decode_valid _ _ Hd) as [Hs _].
  unfold parse_write in Hrq. cbn [apply_input wi_draftId wi_idempotencyKey wi_expectedRevision wi_expectedDigest
    wi_files wi_kind files_value requireRevision] in Hrq.
  rewrite num_to_of_Z in Hrq by lia. rewrite (parse_canonical _ Hs) in Hrq.
  destruct (inline_canonical after) as [Hi Hr]. ok_inv. cbn [wq_expectedRevision]. split; [done|].
  unfold full_bundle, has_references in Hf. cbn [wq_inputs] in Hf. rewrite Hr, Hi, (canonicalize_again _ _ Hd) in Hf.
  cbn [bundle_files rbind] in Hf. unfold seal in Hf. ok_inv. cbn [next_bundle] in Hn. by apply Ok_inj in Hn as <-.
Qed.

(** The answer to an apply that saved: the proposal as applied, and the draft. *)
Lemma applied_answer binding sessionId key proposal fs after draftId proposalId principal now commitNow snapshot refreshed
    current request before full sealed stored manifest target mutable b p s' :
  let input := apply_input draftId proposalId principal commitNow binding sessionId key proposal fs after in
  let next := saving_next principal now request full sealed stored manifest target in
  saving organizationId input principal snapshot current request before full sealed stored manifest target ->
  draft_ok organizationId target ->
  assertDraftEnvelopeSizeWithManifest next manifest (proposal_draft_wire (mark_applied proposal) (Some fs)) = Ok tt ->
  settled_by binding sessionId draftId proposalId principal commitNow mutable next s' b p ->
  proposal_content p = proposal_content proposal ->
  apply_answer draftId proposalId principal refreshed sessionId fs s'
    (write_answer (wi_kind input) (wq_key request) (pr_subject principal) (next, false)) =
  Ok {| rp_status := 200;
        rp_body := proposal_draft_wire (mark_applied p) (Some fs) (publicDraftWithManifest next manifest) |}.
Proof.
  intros input next Hs O Hfit S Hc. pose proof (saving_public _ _ _ now _ _ Hs O) as Hpub. fold next in Hpub.
  unfold assertDraftEnvelopeSizeWithManifest in Hfit.
  assert (Hw : forall p', bp_state p' = ProposalApplied -> proposal_content p' = proposal_content proposal ->
            publicBuilderProposal p' (Some fs) = publicBuilderProposal (mark_applied proposal) (Some fs)).
  { intros p' Hst Hc'. unfold proposal_content in Hc'. injection Hc' as Hid _ _ _ Hd _ Hse Hbr Hbd Hpd Hop Hcr.
    unfold publicBuilderProposal. cbn [mark_applied with_proposal_state bp_id bp_draftId bp_baseRevision bp_baseDigest
      bp_proposedDigest bp_state bp_sessionId bp_createdAt bp_operations].
    by rewrite Hst, Hid, Hd, Hse, Hbr, Hbd, Hpd, Hop, Hcr. }
  unfold write_answer, apply_answer, assertDraftEnvelopeFits. cbn [wi_kind input apply_input rbind]. rewrite Hpub.
  cbn [rbind]. rewrite (smaller_response _ _ _ Hfit). cbn [rbind wr_idempotent wr_draft wr_files andb].
  destruct S as [Hb Hp _ _ _ _ ->]. unfold findBuilderSession. rewrite (sessions_update _ _ _ _ _ Hb).
  pose proof (find_first_Some _ _ _ Hb) as [_ Hb'].
  rewrite (find_first_update_found _ _ _ _ Hb) by exact Hb'. unfold find_proposal. cbn [bs_proposals with_session_proposals].
  unfold find_proposal in Hp. pose proof (find_first_Some _ _ _ Hp) as [_ Hp'].
  rewrite (update_first_const _ _ _ _ Hp), (find_first_update_found _ _ _ _ Hp) by exact Hp'.
  cbn [rbind]. rewrite Hpub. cbn [rbind]. unfold draft_response, proposal_draft_wire in Hfit |- *.
  rewrite (Hw (with_proposal_state ProposalApplied (toISOString commitNow) p)) by done.
  rewrite (Hw (mark_applied p)) by done. by rewrite Hfit.
Qed.

(** ** The routes *)

Lemma admit_builder_spec principal tool draftId route p internal :
  admitBuilderRoute organizationId principal tool draftId route = Ok (p, internal) ->
  principal = Some p /\ pr_organizationId p = organizationId /\ internal = isBuilderServiceRequest tool p /\
  (if internal then isBuilderInternalRoute route = true else assertPublisher p = Ok tt).
Proof.
  unfold admitBuilderRoute. destruct principal as [q|]; [|done]. intros H. ok_inv. split; [done|].
  split; [by apply negb_false_iff, jeqb_true in G|]. split; [done|].
  destruct (isBuilderServiceRequest tool p); [|by destruct a].
  by destruct (isBuilderInternalRoute route).
Qed.
(** A request that changed the document was a proposal of the agent, or a
    decision of a publisher. *)
Inductive builder_effect (principal : Principal) (draftId : jstr) (ids : BuilderIds) (now commitNow : Z)
    (state snapshot refreshed current : RegistryState) : BuilderRoute -> bool -> RegistryState -> authoring DraftResponse -> Prop :=
| EffectPropose body key s' r :
    createBuilderProposal organizationId body key draftId principal (bi_proposalId ids) now state current = (s', r) ->
    builder_effect principal draftId ids now commitNow state snapshot refreshed current (RoutePropose body key) true s' r
| EffectApply proposalId body key s' r :
    applyBuilderProposal organizationId body key draftId proposalId principal (bi_auditId ids) now commitNow state
      snapshot refreshed current = (s', r) ->
    builder_effect principal draftId ids now commitNow state snapshot refreshed current
      (RouteApply proposalId body key) false s' r
| EffectReject proposalId body key s' r :
    rejectBuilderProposal organizationId body key draftId proposalId principal (bi_auditId ids) now current = (s', r) ->
    builder_effect principal draftId ids now commitNow state snapshot refreshed current
      (RouteReject proposalId body key) false s' r.
Lemma builder_cases principal tool draftId route ids now commitNow state snapshot refreshed current s' r :
  builderHandler organizationId principal tool draftId route ids now commitNow state snapshot refreshed current
    = (s', r) ->
  s' = current \/ exists p internal answer, principal = Some p /\ pr_organizationId p = organizationId /\
    internal = isBuilderServiceRequest tool p /\
    (if internal then True else assertPublisher p = Ok tt) /\
    r = match answer with Ok a => Ok (AnswerProposal a) | Err e => Err e end /\
    builder_effect p draftId ids now commitNow state snapshot refreshed current route internal s' answer.
Proof.
  unfold builderHandler. destruct (admitBuilderRoute _ _ _ _ _) as [[p internal]|] eqn:Ea; [|unchanged].
  pose proof (admit_builder_spec _ _ _ _ _ _ Ea) as (-> & Hp & Hi & Hr).
  assert (Hpropose : forall body key, route = RoutePropose body key -> internal = true).
  { intros body key ->. unfold admitBuilderRoute in Ea. ok_inv. by apply negb_false_iff in G2. }
  destruct route as [| | |body key|proposalId body key|proposalId body key]; try unchanged.
  - destruct (createBuilderProposal _ _ _ _ _ _ _ _ _) as [s1 r1] eqn:E. cbn [fst snd]. intros [= <- <-]. right.
    exists p, internal, r1. split_and!; try done; [by destruct internal|]. rewrite (Hpropose body key eq_refl).
    by apply EffectPropose.
  - destruct (applyBuilderProposal _ _ _ _ _ _ _ _ _ _ _ _ _) as [s1 r1] eqn:E. cbn [fst snd]. intros [= <- <-]. right.
    destruct internal; [done|]. exists p, false, r1. split_and!; try done. by apply EffectApply.
  - destruct (rejectBuilderProposal _ _ _ _ _ _ _ _ _) as [s1 r1] eqn:E. cbn [fst snd]. intros [= <- <-]. right.
    destruct internal; [done|]. exists p, false, r1. split_and!; try done. by apply EffectReject.
Qed.
End Commits.
