(* ===== verification/Install.v ===== *)
(** * Installing: authorizations, grants, transfers and receipts

    The install handlers of packages/core/src/index.ts, with the conventions of
    [Registry.v]: [snapshot] is the state read first, [current] the state of the
    transaction. *)

From Stdlib Require Import ZArith Lia.
From stdpp Require Import base list strings sets.
From S2P Require Import Prelude Js Dates Contracts Web Access Names PolicyEval Resolve State.

Local Open Scope Z_scope.

Definition TRANSFER_TTL_SECONDS : Z := 60.
Definition INSTALL_RECEIPT_TTL_SECONDS : Z := 24 * 60 * 60.
Definition INSTALL_RECEIPT_RETENTION_SECONDS : Z := 90 * 24 * 60 * 60.
Definition MAX_INSTALL_RECEIPTS : Z := 100000.
Definition MAX_INSTALL_RECEIPT_TICKETS : Z := 100000.
Definition MAX_CLIENT_VERSION_LENGTH : Z := 128.

(** [cloneResolution]: a JSON round trip, the identity on this data. *)
Definition cloneResolution (r : Resolution) : Resolution := r.

Definition str (s : jstr) : jsval := JStr s.

(** ** Public views *)

Record InstallReceiptTicketMetadata : Type := {
  tm_id : jstr;
  tm_authorizationId : jstr;
  tm_expiresAt : jstr;
}.
Definition publicReceiptTicket (ticket : InstallReceiptTicket) : InstallReceiptTicketMetadata := {|
  tm_id := it_id ticket; tm_authorizationId := it_authorizationId ticket;
  tm_expiresAt := it_expiresAt ticket |}.
Record InstallReceiptResolutionMetadata : Type := {
  rm_kind : ResourceKind;
  rm_resourceId : jstr;
  rm_name : jstr;
  rm_version : jstr;
  rm_digest : jstr;
  rm_members : list PackMember;
}.
Definition publicReceiptResolution (r : Resolution) : InstallReceiptResolutionMetadata := {|
  rm_kind := rs_kind r; rm_resourceId := rs_resourceId r; rm_name := rs_name r;
  rm_version := rs_version r; rm_digest := rs_digest r;
  rm_members := (fun m => {| pm_resourceId := sk_id m; pm_name := sk_name m; pm_version := sk_version m;
                             pm_digest := sb_digest (sk_artifact m) |}) <$> rs_members r |}.
Record InstallReceiptMetadata : Type := {
  im_id : jstr;
  im_ticketId : jstr;
  im_authorizationId : jstr;
  im_createdAt : jstr;
  im_expiresAt : jstr;
  im_changed : bool;
  im_agent : InstallReceiptAgent;
  im_platform : InstallReceiptPlatform;
  im_clientVersion : jstr;
  im_resolution : InstallReceiptResolutionMetadata;
}.
Definition publicInstallReceipt (r : InstallReceipt) : InstallReceiptMetadata := {|
  im_id := ir_id r; im_ticketId := ir_ticketId r; im_authorizationId := ir_authorizationId r;
  im_createdAt := ir_createdAt r; im_expiresAt := ir_expiresAt r; im_changed := ir_changed r;
  im_agent := ir_agent r; im_platform := ir_platform r; im_clientVersion := ir_clientVersion r;
  im_resolution := publicReceiptResolution (ir_resolution r) |}.

(** ** [parseInstallReceiptInput] *)

Record InstallReceiptInput : Type := {
  ri_authorizationId : jstr;
  ri_changed : bool;
  ri_agent : InstallReceiptAgent;
  ri_platform : InstallReceiptPlatform;
  ri_clientVersion : jstr;
}.
Definition INVALID_RECEIPT : RegistryApiError := api_error "INVALID_RECEIPT" 400.
Definition parseInstallReceiptInput (body : jsval) : api InstallReceiptInput :=
  let? authorizationId := require INVALID_RECEIPT
    (non_empty (option_map trim (stringValue (field body "authorizationId")))) in
  throw_if (256 <? jlen authorizationId) with INVALID_RECEIPT ;;
  match field body "changed" with
  | JBool changed =>
      let? agent := require INVALID_RECEIPT (enum_value InstallReceiptAgent (field body "agent")) in
      let? platform :=
        require INVALID_RECEIPT (enum_value InstallReceiptPlatform (field body "platform")) in
      let? clientVersion := require INVALID_RECEIPT
        (non_empty (option_map trim (stringValue (field body "clientVersion")))) in
      throw_if (MAX_CLIENT_VERSION_LENGTH <? jlen clientVersion) || existsb control_unit clientVersion
        with INVALID_RECEIPT ;;
      Ok {| ri_authorizationId := authorizationId; ri_changed := changed; ri_agent := agent;
            ri_platform := platform; ri_clientVersion := clientVersion |}
  | _ => Err INVALID_RECEIPT
  end.
Definition sameInstallReceiptInput (receipt : InstallReceipt) (input : InstallReceiptInput) : bool :=
  Bool.eqb (ir_changed receipt) (ri_changed input) &&
  bool_decide (ir_agent receipt = ri_agent input) &&
  bool_decide (ir_platform receipt = ri_platform input) &&
  jeqb (ir_clientVersion receipt) (ri_clientVersion input).

Section Handlers.
Context {DR : DateRuntime} {CO : Collation} {CR : Crypto} {BL : Blobs}.
Context (config : Configuration).
Definition org : jstr := cfg_organizationId config.

(** ** [createInstallAuthorization] *)

Definition live_tickets (now : Z) (l : list InstallReceiptTicket) : list InstallReceiptTicket :=
  List.filter (fun t => negb (timestampExpired (Some (it_expiresAt t)) now)) l.

Record AuthorizationIds : Type := {
  ai_authorizationId : jstr;
  ai_ticketId : jstr;
  ai_auditId : jstr;
}.
(** The authorization and the receipt ticket, prepared on the snapshot. *)
Definition authorization_prepare (body : jsval) (principal : Principal) (ids : AuthorizationIds)
    (now : Z) (snapshot : RegistryState) : api (InstallAuthorization * InstallReceiptTicket) :=
  let requested := if isObject (field body "resolution") then field body "resolution" else body in
  let? resolution := resolveRequestedResolution snapshot principal now requested in
  let? _ := assertCurrentResolution snapshot principal now resolution in
  Ok ({| ia_id := ai_authorizationId ids; ia_organizationId := org;
         ia_subject := pr_subject principal; ia_resolution := cloneResolution resolution;
         ia_expiresAt := toISOString (now + TRANSFER_TTL_SECONDS * 1000) |},
      {| it_id := ai_ticketId ids; it_organizationId := org; it_subject := pr_subject principal;
         it_authorizationId := ai_authorizationId ids; it_resolution := cloneResolution resolution;
         it_issuedAt := toISOString now;
         it_expiresAt := toISOString (now + INSTALL_RECEIPT_TTL_SECONDS * 1000) |}).
Definition authorization_commit (principal : Principal) (requestId auditId : jstr) (fallback : Policy)
    (authorization : InstallAuthorization) (ticket : InstallReceiptTicket) (commitNow : Z)
    (current : RegistryState)
    : api (RegistryState * (InstallAuthorization * InstallReceiptTicketMetadata)) :=
  let resolution := ia_resolution authorization in
  let? mutable := ensureState (Some current) fallback in
  match resolveResource mutable principal commitNow (rs_kind resolution) (rs_resourceId resolution)
          (Some (rs_version resolution)) with
  | Resolved _ currentResolution =>
      throw_if negb (sameResolution currentResolution resolution) with api_retry "POLICY_BLOCKED" 409 ;;
      let live := live_tickets commitNow (tickets mutable) in
      throw_if (MAX_INSTALL_RECEIPT_TICKETS <=? Z.of_nat (length live))
        with api_retry "ANALYTICS_LIMIT" 503 ;;
      let mutable := with_st_authorizations (st_authorizations mutable ++ [authorization]) mutable in
      let mutable := with_st_installReceiptTickets (Some (live ++ [ticket])) mutable in
      Ok (appendAudit (audit org principal auditId commitNow (js "install.authorization.create")
            (ia_id authorization)
            [(js "resourceId", str (rs_resourceId resolution)); (js "digest", str (rs_digest resolution));
             (js "requestId", str requestId)]) mutable,
          (authorization, publicReceiptTicket ticket))
  | _ => Err (api_retry "POLICY_BLOCKED" 409)
  end.
Definition createInstallAuthorization (body : jsval) (principal : Principal) (requestId : jstr)
    (ids : AuthorizationIds) (now commitNow : Z) (snapshot current : RegistryState)
    : api (RegistryState * (InstallAuthorization * InstallReceiptTicketMetadata)) :=
  let? prepared := authorization_prepare body principal ids now snapshot in
  authorization_commit principal requestId (ai_auditId ids) (st_policy snapshot) prepared.1 prepared.2
    commitNow current.

(** ** [validateInstallAuthorization] *)

Definition owned_authorization (id : jstr) (principal : Principal) (a : InstallAuthorization) : bool :=
  jeqb (ia_id a) id && jeqb (ia_subject a) (pr_subject principal).
(** The caller's authorization, unexpired and for a plan that is still current. *)
Definition live_authorization (id : jstr) (principal : Principal) (now : Z) (s : RegistryState)
    : api InstallAuthorization :=
  match find_first (owned_authorization id principal) (st_authorizations s) with
  | None => Err unavailable
  | Some a =>
      throw_if timestampExpired (Some (ia_expiresAt a)) now with unavailable ;;
      let? _ := assertCurrentResolution s principal now (ia_resolution a) in
      Ok a
  end.
Definition validateInstallAuthorization (id : jstr) (principal : Principal) (requestId auditId : jstr)
    (now commitNow : Z) (snapshot current : RegistryState)
    : api (RegistryState * (InstallAuthorization * option InstallReceiptTicketMetadata)) :=
  let? _ := live_authorization id principal now snapshot in
  let? mutable := ensureState (Some current) (st_policy snapshot) in
  let? currentAuthorization := live_authorization id principal commitNow mutable in
  let renew := with_ia_expiresAt (toISOString (commitNow + TRANSFER_TTL_SECONDS * 1000)) in
  let authorization := renew currentAuthorization in
  let mutable := with_st_authorizations
    (update_first (owned_authorization id principal) renew (st_authorizations mutable)) mutable in
  let mutable := appendAudit (audit org principal auditId commitNow (js "install.authorization.validate")
    id [(js "resourceId", str (rs_resourceId (ia_resolution authorization)));
        (js "requestId", str requestId)]) mutable in
  let ticket := find_first (fun t => jeqb (it_authorizationId t) (ia_id authorization) &&
                                     jeqb (it_subject t) (pr_subject principal)) (tickets mutable) in
  Ok (mutable, (authorization, option_map publicReceiptTicket ticket)).

(** ** [createInstallReceipt] *)

Definition retained (now : Z) (r : InstallReceipt) : bool :=
  match dateParse (ir_createdAt r) with
  | Some createdAt => now - INSTALL_RECEIPT_RETENTION_SECONDS * 1000 <=? createdAt
  | None => false
  end.
Definition receipt_ticket (input : InstallReceiptInput) (principal : Principal)
    (t : InstallReceiptTicket) : bool :=
  negb (jeqb (it_id t) []) && jeqb (it_authorizationId t) (ri_authorizationId input) &&
  jeqb (it_organizationId t) org && jeqb (it_subject t) (pr_subject principal).
(** [list.slice(-n)]. *)
Definition slice_last {A} (n : Z) (l : list A) : list A := drop (length l - Z.to_nat n) l.

Definition receipt_commit (input : InstallReceiptInput) (principal : Principal)
    (requestId receiptId auditId : jstr) (now : Z) (mutable : RegistryState)
    : api (RegistryState * (InstallReceipt * Z)) :=
  let kept := List.filter (retained now) (receipts mutable) in
  let mutable := with_st_installReceipts (Some kept) mutable in
  match find_first (fun r => jeqb (ir_authorizationId r) (ri_authorizationId input)) kept with
  | Some existing =>
      throw_if negb (jeqb (ir_organizationId existing) org) ||
               negb (jeqb (ir_subject existing) (pr_subject principal)) with unavailable ;;
      throw_if negb (sameInstallReceiptInput existing input) with api_error "RECEIPT_CONFLICT" 409 ;;
      Ok (mutable, (existing, 200))
  | None =>
      match find_first (receipt_ticket input principal) (tickets mutable) with
      | None => Err unavailable
      | Some ticket =>
          throw_if timestampExpired (Some (it_expiresAt ticket)) now with unavailable ;;
          throw_if negb (jeqb (rs_organizationId (it_resolution ticket)) org)
            with INTERNAL_STATE_INVALID ;;
          throw_if (MAX_INSTALL_RECEIPTS <=? Z.of_nat (length kept)) with api_retry "ANALYTICS_LIMIT" 503 ;;
          let receipt := {|
            ir_id := receiptId; ir_organizationId := org; ir_subject := pr_subject principal;
            ir_authorizationId := ri_authorizationId input; ir_ticketId := it_id ticket;
            ir_resolution := cloneResolution (it_resolution ticket); ir_changed := ri_changed input;
            ir_agent := ri_agent input; ir_platform := ri_platform input;
            ir_clientVersion := ri_clientVersion input; ir_createdAt := toISOString now;
            ir_expiresAt := it_expiresAt ticket |} in
          let live := live_tickets now (tickets mutable) in
          let live := if MAX_INSTALL_RECEIPT_TICKETS <? Z.of_nat (length live)
                      then slice_last MAX_INSTALL_RECEIPT_TICKETS live else live in
          let mutable := with_st_installReceipts (Some (kept ++ [receipt])) mutable in
          let mutable := with_st_installReceiptTickets (Some live) mutable in
          Ok (appendAudit (audit org principal auditId now (js "install.receipt.create") (ir_id receipt)
                [(js "authorizationId", str (ir_authorizationId receipt));
                 (js "resourceId", str (rs_resourceId (ir_resolution receipt)));
                 (js "digest", str (rs_digest (ir_resolution receipt)));
                 (js "changed", JBool (ir_changed receipt)); (js "agent", str (enum_name (ir_agent receipt)));
                 (js "platform", str (enum_name (ir_platform receipt))); (js "requestId", str requestId)])
                mutable, (receipt, 201))
      end
  end.
Definition createInstallReceipt (body : jsval) (principal : Principal)
    (requestId receiptId auditId : jstr) (now : Z) (snapshot current : RegistryState)
    : api (RegistryState * (InstallReceipt * Z)) :=
  let? input := parseInstallReceiptInput body in
  let? mutable := ensureState (Some current) (st_policy snapshot) in
  receipt_commit input principal requestId receiptId auditId now mutable.

(** ** [createDownloadGrant] and [serveTransferGrant] *)

Definition createDownloadGrant (digest : jstr) (body : jsval) (principal : Principal)
    (requestId grantId auditId : jstr) (now commitNow : Z) (snapshot current : RegistryState)
    : api (RegistryState * (TransferGrant * Z)) :=
  throw_if negb (isDigest digest) with api_error "INVALID_DIGEST" 400 ;;
  match stringValue (field body "resourceId"), stringValue (field body "authorizationId") with
  | Some resourceId, Some authorizationId =>
      let? _ := live_authorization authorizationId principal now snapshot in
      let? mutable := ensureState (Some current) (st_policy snapshot) in
      let? authorization := live_authorization authorizationId principal commitNow mutable in
      match find_first (fun m => jeqb (sk_id m) resourceId && jeqb (sb_digest (sk_artifact m)) digest)
              (rs_members (ia_resolution authorization)) with
      | None => Err unavailable
      | Some member =>
          throw_if negb (bool_decide (sk_state member = Approved)) with unavailable ;;
          let grant := {|
            tg_id := grantId; tg_organizationId := org; tg_subject := pr_subject principal;
            tg_resourceId := resourceId; tg_authorizationId := authorizationId;
            tg_digest := sb_digest (sk_artifact member);
            tg_expiresAt := toISOString (commitNow + TRANSFER_TTL_SECONDS * 1000) |} in
          let mutable := with_st_grants (st_grants mutable ++ [grant]) mutable in
          Ok (appendAudit (audit org principal auditId commitNow (js "artifact.download.grant") resourceId
                [(js "digest", str digest); (js "authorizationId", str authorizationId);
                 (js "requestId", str requestId)]) mutable,
              (grant, sb_size (sk_artifact member)))
      end
  | _, _ => Err (api_error "INVALID_REQUEST" 400)
  end.

(** The bytes of a granted transfer; nothing is written. *)
Definition serveTransferGrant (grantId : jstr) (principal : Principal) (now : Z)
    (state : RegistryState) : api (list Z) :=
  match find_first (fun g => jeqb (tg_id g) grantId) (st_grants state) with
  | None => Err unavailable
  | Some grant =>
      throw_if negb (jeqb (tg_organizationId grant) org) ||
               negb (jeqb (tg_subject grant) (pr_subject principal)) ||
               timestampExpired (Some (tg_expiresAt grant)) now with unavailable ;;
      match find_first (fun a => jeqb (ia_id a) (tg_authorizationId grant) &&
                                 jeqb (ia_subject a) (tg_subject grant)) (st_authorizations state) with
      | None => Err unavailable
      | Some authorization =>
          throw_if timestampExpired (Some (ia_expiresAt authorization)) now with unavailable ;;
          let? _ := assertCurrentResolution state principal now (ia_resolution authorization) in
          match find_skill state (tg_resourceId grant) with
          | None => Err unavailable
          | Some skill =>
              throw_if negb (skillCurrentlyApproved state skill now) ||
                       negb (jeqb (sb_digest (sk_artifact skill)) (tg_digest grant)) with unavailable ;;
              match blob_get (sb_key (sk_artifact skill)) with
              | None => Err (api_retry "ARTIFACT_UNAVAILABLE" 503)
              | Some bytes =>
                  throw_if negb (jeqb (digestBytes bytes) (tg_digest grant))
                    with api_error "DIGEST_MISMATCH" 409 ;;
                  Ok bytes
              end
          end
      end
  end.
End Handlers.
