(* ===== verification/Jobs.v ===== *)
(** * Worker jobs: claiming, artifacts and fenced completion

    The job handlers of packages/core/src/index.ts, with the conventions of
    [Registry.v].  A worker claims a job under a lease token that expires;
    completing it needs that token while the lease runs.  [completeJob] is
    split the way it runs: [complete_prepare] on the snapshot, [complete_commit]
    in the transaction. *)

From Stdlib Require Import ZArith Lia.
From stdpp Require Import base list strings sets.
From S2P Require Import Prelude Js Dates Bundle Frontmatter Contracts Web Access Names PolicyEval.
From S2P Require Import Resolve Provenance OpenClawFeed ScanEvidence State Registry.

Local Open Scope Z_scope.

Section Jobs.
Context {DR : DateRuntime} {UT : UnicodeTables} {UR : UrlRuntime} {CR : Crypto} {BL : Blobs}.
Context (parseDocument : jstr -> option ydocument).
Context (config : Configuration).
Abbreviation org := (cfg_organizationId config).

Definition update_job (id : jstr) (f : Job -> Job) (s : RegistryState) : RegistryState :=
  with_st_jobs (update_first (fun j => jeqb (jb_id j) id) f (st_jobs s)) s.

(** ** [claimJob] *)

Definition claimable (now : Z) (job : Job) : bool :=
  jeqb (jb_organizationId job) org &&
  (bool_decide (jb_state job = JQueued) ||
   (bool_decide (jb_state job = JRunning) && timestampExpired (jb_leaseExpiresAt job) now)).
Definition lease (leaseToken : jstr) (now : Z) (job : Job) : Job :=
  with_jb_updatedAt (toISOString now)
    (with_jb_leaseExpiresAt (Some (toISOString (now + cfg_leaseSeconds config * 1000)))
      (with_jb_leaseToken (Some leaseToken)
        (with_jb_attempts (jb_attempts job + 1)
          (with_jb_state JRunning job)))).

(** What a worker receives of a job ([serializeJobForWorker]). *)
Record WorkerJob : Type := {
  wj_job : Job;
  wj_fencingToken : option jstr;
  wj_artifactDigest : option jstr;
  wj_attempt : Z;
  wj_expiresAt : option jstr;
}.
Definition serializeJobForWorker (job : Job) : WorkerJob := {|
  wj_job := job; wj_fencingToken := jb_leaseToken job;
  wj_artifactDigest := option_map sb_digest (jb_artifact job); wj_attempt := jb_attempts job;
  wj_expiresAt := jb_leaseExpiresAt job |}.

(** [toISOString] of a lease beyond the range of [Date] throws. *)
Definition claimJob (principal : Principal) (requestId leaseToken auditId : jstr) (now : Z)
    (current : RegistryState) : api (RegistryState * option WorkerJob) :=
  let? mutable := ensureState (Some current) defaultPolicy in
  match find_first (claimable now) (st_jobs mutable) with
  | None => Ok (mutable, None)
  | Some candidate =>
      throw_if negb (valid_time (now + cfg_leaseSeconds config * 1000))
        with api_error "INTERNAL_ERROR" 500 ;;
      let claimed := lease leaseToken now candidate in
      let mutable := with_st_jobs (update_first (claimable now) (lease leaseToken now) (st_jobs mutable))
                       mutable in
      Ok (appendAudit (audit org principal auditId now (js "job.claim") (jb_id candidate)
            [(js "attempt", JNum (num_of_Z (jb_attempts claimed))); (js "requestId", JStr requestId)])
            mutable, Some (serializeJobForWorker claimed))
  end.

(** ** [serveJobArtifact] *)

(** [token] and [requestedDigest] are the request's headers. *)
Definition serveJobArtifact (id : jstr) (token requestedDigest : option jstr) (now : Z)
    (state : RegistryState) : api (list Z) :=
  match non_empty token, non_empty requestedDigest with
  | Some token, Some requestedDigest =>
      throw_if negb (isDigest requestedDigest) with api_error "INVALID_LEASE" 400 ;;
      match find_job state id with
      | None => Err unavailable
      | Some job =>
          throw_if negb (bool_decide (jb_state job = JRunning)) ||
                   negb (bool_decide (jb_leaseToken job = Some token))
            with api_error "LEASE_FENCED" 409 ;;
          throw_if timestampExpired (jb_leaseExpiresAt job) now with api_retry "LEASE_EXPIRED" 409 ;;
          match jb_artifact job with
          | None => Err (api_error "DIGEST_MISMATCH" 409)
          | Some artifact =>
              throw_if negb (jeqb (sb_digest artifact) requestedDigest)
                with api_error "DIGEST_MISMATCH" 409 ;;
              match blob_get (sb_key artifact) with
              | None => Err (api_retry "ARTIFACT_UNAVAILABLE" 503)
              | Some bytes =>
                  throw_if negb (jeqb (digestBytes bytes) (sb_digest artifact)) ||
                           negb (Z.of_nat (length bytes) =? sb_size artifact)
                    with api_error "DIGEST_MISMATCH" 409 ;;
                  Ok bytes
              end
          end
      end
  | _, _ => Err (api_error "INVALID_LEASE" 400)
  end.

(** ** [completeJob]: before the transaction *)

Record Imported : Type := {
  im_bundle : SkillBundle;
  im_stored : StoredBlob;
  im_digest : jstr;
  im_metadata : SkillMetadata;
}.
(** What the transaction works with.  [cp_error] is [body.error] when it is a
    string that is not empty. *)
Record Completion : Type := {
  cp_leaseToken : jstr;
  cp_error : option jstr;
  cp_imported : option Imported;
  cp_scanResults : list ScanResult;
  cp_provenance : jsval;
}.

Definition import_bundle (body : jsval) (requestedDigest : option jstr) : api Imported :=
  throw_if negb (isObject (field body "bundle")) with api_error "INVALID_JOB_RESULT" 400 ;;
  let? bundle := bundle_result (validateBundle (field body "bundle")) in
  let? bytes := bundle_result (encodeBundle (bundle_value bundle)) in
  let digest := digestBytes bytes in
  let? stored := putVerifiedBlob bytes digest in
  let? metadata := bundle_result (parseSkillMetadata parseDocument (bundle_value bundle)) in
  throw_if match requestedDigest with
           | Some d => negb (jeqb d digest)
           | None => false
           end with api_error "DIGEST_MISMATCH" 409 ;;
  Ok {| im_bundle := bundle; im_stored := stored; im_digest := digest; im_metadata := metadata |}.

Definition parse_scan_results (raw : jsval) (job : Job) (expectedDigest : option jstr) (now : Z)
    : api (list ScanResult) :=
  match raw with
  | JUndef => Ok []
  | JArr l =>
      match non_empty expectedDigest with
      | None => Err INVALID_SCAN_RESULT
      | Some digest =>
          let? results := map_result (fun v => parseScanResult v job org digest now) l in
          throw_if negb (all_distinct (sr_scannerId <$> results)) with INVALID_SCAN_RESULT ;;
          throw_if negb (all_distinct (sr_id <$> results)) with INVALID_SCAN_RESULT ;;
          Ok results
      end
  | _ => Err INVALID_SCAN_RESULT
  end.

(** The job of the snapshot, under the caller's lease. *)
Definition leased_job (id leaseToken : jstr) (requestedDigest : option jstr) (now : Z)
    (snapshot : RegistryState) : api Job :=
  match find_job snapshot id with
  | None => Err unavailable
  | Some job =>
      throw_if match requestedDigest, jb_artifact job with
               | Some d, Some artifact => negb (jeqb d (sb_digest artifact))
               | _, _ => false
               end with api_error "DIGEST_MISMATCH" 409 ;;
      throw_if negb (bool_decide (jb_state job = JRunning)) ||
               negb (bool_decide (jb_leaseToken job = Some leaseToken))
        with api_error "LEASE_FENCED" 409 ;;
      throw_if timestampExpired (jb_leaseExpiresAt job) now with api_retry "LEASE_EXPIRED" 409 ;;
      Ok job
  end.

Definition complete_prepare (id : jstr) (body : jsval) (now : Z) (snapshot : RegistryState)
    : api Completion :=
  let? leaseToken := require (api_error "INVALID_LEASE" 400) (stringValue (field body "leaseToken")) in
  let requestedDigest := stringValue (field body "artifactDigest") in
  let? job := leased_job id leaseToken requestedDigest now snapshot in
  throw_if match field body "error" with
           | JUndef | JStr _ => false
           | _ => true
           end with api_error "INVALID_JOB_RESULT" 400 ;;
  let error := stringValue (field body "error") in
  let importing := bool_decide (jb_kind job = ImportJob) && bool_decide (error = None) in
  let? _ := if importing then validateOpenClawJobFeed job now else Ok tt in
  let? imported := if importing
                   then let? i := import_bundle body requestedDigest in Ok (Some i)
                   else Ok None in
  let expectedDigest := match imported with
                        | Some i => Some (im_digest i)
                        | None => option_map sb_digest (jb_artifact job)
                        end in
  let? scanResults := match error with
                      | Some _ => Ok []
                      | None => parse_scan_results (field body "scanResults") job expectedDigest now
                      end in
  Ok {| cp_leaseToken := leaseToken; cp_error := error; cp_imported := imported;
        cp_scanResults := scanResults; cp_provenance := field body "provenance" |}.

(** ** [completeJob]: the updater *)

Definition clear_lease (job : Job) : Job :=
  with_jb_leaseExpiresAt None (with_jb_leaseToken None job).
Definition set_error (error : option jstr) (job : Job) : Job :=
  match non_empty error with
  | Some e => with_jb_error (Some e) job
  | None => job
  end.
Definition finished (error : option jstr) (now : Z) (job : Job) : Job :=
  set_error error (clear_lease (with_jb_updatedAt (toISOString now) (with_jb_state JCompleted job))).

Definition fenced (leaseToken : jstr) (now : Z) (job : Job) : bool :=
  negb (bool_decide (jb_state job = JRunning)) ||
  negb (bool_decide (jb_leaseToken job = Some leaseToken)) ||
  timestampExpired (jb_leaseExpiresAt job) now.

Section Commit.
Context (id : jstr) (principal : Principal) (requestId auditId skillId : jstr) (now : Z).
Definition job_audit (action : jstr) (details : list (jstr * jsval)) : AuditEvent :=
  audit org principal auditId now action id details.

(** The policy changed while the worker was busy: the job starts over under the
    new policy. *)
Definition requeued (policy : Policy) (job : Job) : Job :=
  clear_lease (with_jb_updatedAt (toISOString now)
    (with_jb_policyRevision (po_revision policy)
      (with_jb_policy (clonePolicy policy) (with_jb_state JQueued job)))).
Definition stale_skill (policy : Policy) : SkillVersion -> SkillVersion :=
  unless_revoked (fun s => with_sk_policyRevision (po_revision policy) (with_sk_state Pending s)).
Definition complete_requeue (job : Job) (mutable : RegistryState) : RegistryState * Job :=
  let policy := st_policy mutable in
  let mutable := update_job id (requeued policy) mutable in
  let mutable := match non_empty (jb_resourceId job) with
                 | Some resourceId => update_skill resourceId (stale_skill policy) mutable
                 | None => mutable
                 end in
  (appendAudit (job_audit (js "job.requeue.policy-changed") [(js "requestId", JStr requestId)]) mutable,
   requeued policy job).

(** The worker reported an error. *)
Definition failed (error : jstr) (job : Job) : Job :=
  with_jb_updatedAt (toISOString now)
    (with_jb_error (Some (redactJobError error)) (with_jb_state JFailed job)).
Definition complete_failed (error : jstr) (job : Job) (mutable : RegistryState) : RegistryState * Job :=
  let mutable := update_job id (failed error) mutable in
  let mutable := match non_empty (jb_resourceId job) with
                 | Some resourceId =>
                     update_skill resourceId (unless_revoked (with_sk_state ScanErrorState)) mutable
                 | None => mutable
                 end in
  (appendAudit (job_audit (js "job.complete.failed") [(js "requestId", JStr requestId)]) mutable,
   failed error job).

(** A scan came back: the evidence is stored and the release takes the state
    the policy gives it, unless it has been revoked. *)
Definition scanned_skill (evaluation : PolicyEvaluation) (revision : jstr) (results : list ScanResult)
    (skill : SkillVersion) : SkillVersion :=
  let skill := with_sk_scanIds (dedup (sk_scanIds skill ++ (sr_id <$> results))) skill in
  let skill := unless_revoked (with_sk_state (pe_state evaluation)) skill in
  let skill := with_sk_policyRevision revision skill in
  if bool_decide (pe_state evaluation = Approved)
  then with_sk_approvedAt (Some (toISOString now)) skill else skill.
Definition complete_audit (evaluation : PolicyEvaluation) (resourceId digest : jstr)
    (results : list ScanResult) : AuditEvent :=
  job_audit (js "job.complete." ++ enum_name (pe_state evaluation))
    [(js "resourceId", JStr resourceId); (js "digest", JStr digest);
     (js "scanCount", JNum (num_of_Z (Z.of_nat (length results)))); (js "requestId", JStr requestId)].
Definition complete_scan (results : list ScanResult) (job : Job) (mutable : RegistryState)
    : api (RegistryState * Job) :=
  match (match non_empty (jb_resourceId job) with
         | Some resourceId => find_skill mutable resourceId
         | None => None
         end) with
  | None => Err (api_error "NOT_AVAILABLE" 404)
  | Some skill =>
      match jb_artifact job with
      | None => Err (api_error "DIGEST_MISMATCH" 409)
      | Some artifact =>
          throw_if negb (jeqb (sb_digest (sk_artifact skill)) (sb_digest artifact))
            with api_error "DIGEST_MISMATCH" 409 ;;
          let evaluation := evaluatePolicy (jb_policy job) results (sb_digest artifact)
                              (sk_fileCount skill) now in
          let mutable := with_st_scans (st_scans mutable ++ results) mutable in
          let mutable := update_skill (sk_id skill)
                           (scanned_skill evaluation (jb_policyRevision job) results) mutable in
          let mutable := update_job id (finished (pe_error evaluation) now) mutable in
          Ok (appendAudit (complete_audit evaluation (sk_id skill) (sb_digest (sk_artifact skill)) results)
                mutable, finished (pe_error evaluation) now job)
      end
  end.

(** An import came back: the release is created in the state the policy gives
    it. *)
Definition imported_job (skill : SkillVersion) (evaluation : PolicyEvaluation) (job : Job) : Job :=
  finished (pe_error evaluation) now
    (with_jb_artifact (Some (sk_artifact skill)) (with_jb_resourceId (Some (sk_id skill)) job)).
Definition complete_import (imported : option Imported) (results : list ScanResult) (provenance : jsval)
    (job : Job) (mutable : RegistryState) : api (RegistryState * Job) :=
  match jb_import job, imported with
  | Some request, Some imported =>
      throw_if has_version (st_skills mutable) (iq_name request) (iq_version request)
        with api_error "VERSION_CONFLICT" 409 ;;
      let fileCount := Z.of_nat (length (files (im_bundle imported))) in
      let evaluation := evaluatePolicy (jb_policy job) results (im_digest imported) fileCount now in
      let? provenance := normalizeProvenance provenance request (im_digest imported) (jb_upstream job) in
      let skill := {|
        sk_id := skillId; sk_organizationId := org; sk_name := iq_name request;
        sk_skillName := default (slug_of (iq_name request))
                          (normalizeSkillName (JStr (skillName (im_metadata imported))));
        sk_version := iq_version request;
        sk_description := default [] (stringValue (JStr (description (im_metadata imported))));
        sk_artifact := im_stored imported; sk_state := pe_state evaluation;
        sk_policyRevision := jb_policyRevision job; sk_createdAt := toISOString now;
        sk_approvedAt := if bool_decide (pe_state evaluation = Approved)
                         then Some (toISOString now) else None;
        sk_provenance := provenance; sk_fileCount := fileCount; sk_scanIds := sr_id <$> results;
        sk_authoring := None |} in
      let mutable := with_st_skills (st_skills mutable ++ [skill]) mutable in
      let mutable := with_st_scans (st_scans mutable ++ results) mutable in
      let mutable := update_job id (imported_job skill evaluation) mutable in
      Ok (appendAudit (complete_audit evaluation (sk_id skill) (im_digest imported) results) mutable,
          imported_job skill evaluation job)
  | _, _ => Err (api_error "INVALID_JOB_RESULT" 400)
  end.

Definition complete_commit (completion : Completion) (fallback : Policy) (current : RegistryState)
    : api (RegistryState * Job) :=
  let? mutable := ensureState (Some current) fallback in
  match find_job mutable id with
  | None => Err (api_error "LEASE_FENCED" 409)
  | Some job =>
      throw_if fenced (cp_leaseToken completion) now job with api_error "LEASE_FENCED" 409 ;;
      if negb (jeqb (po_revision (st_policy mutable)) (jb_policyRevision job))
      then Ok (complete_requeue job mutable)
      else
        let? _ := if bool_decide (jb_kind job = ImportJob) && bool_decide (cp_error completion = None)
                  then validateOpenClawJobFeed job now else Ok tt in
        match cp_error completion with
        | Some error => Ok (complete_failed error job mutable)
        | None =>
            match jb_kind job with
            | ScanJob => complete_scan (cp_scanResults completion) job mutable
            | ImportJob => complete_import (cp_imported completion) (cp_scanResults completion)
                             (cp_provenance completion) job mutable
            end
        end
  end.
End Commit.

Definition completeJob (id : jstr) (body : jsval) (principal : Principal)
    (requestId auditId skillId : jstr) (now commitNow : Z) (snapshot current : RegistryState)
    : api (RegistryState * Job) :=
  let? completion := complete_prepare id body now snapshot in
  complete_commit id principal requestId auditId skillId commitNow completion (st_policy snapshot)
    current.

(** ** [handleJobsRoute]: where the token comes from *)

(** The token of the header and the token of the body must agree. *)
Definition fencing_token (header : option jstr) (body : jsval) : api (option jstr) :=
  let headerToken := non_empty header in
  let bodyToken := match stringValue (field body "fencingToken") with
                   | Some t => Some t
                   | None => stringValue (field body "leaseToken")
                   end in
  throw_if match headerToken, bodyToken with
           | Some h, Some b => negb (jeqb h b)
           | _, _ => false
           end with api_error "LEASE_FENCED" 409 ;;
  Ok (match headerToken with Some h => Some h | None => bodyToken end).
End Jobs.
