(* ===== verification/Feeds.v ===== *)
(** * Catalog feeds and upstreams

    The feed and upstream handlers of packages/core/src/index.ts: the trusted
    origins of the configuration, the parsers of feeds and their updates,
    [handleFeedsRoute] and [createUpstream], and how a feed is read as the
    upstream of an import. *)

From Stdlib Require Import ZArith Lia.
From stdpp Require Import base list strings sets.
From S2P Require Import Prelude Js Dates Contracts Web Access Names PolicyEval Provenance State.
From S2P Require Import Registry.

Local Open Scope Z_scope.

Definition INVALID_FEED : RegistryApiError := api_error "INVALID_FEED" 400.
Definition INVALID_UPSTREAM : RegistryApiError := api_error "INVALID_UPSTREAM" 400.
(** What [errorResponse] makes of an error that is not a [RegistryApiError]. *)
Definition INTERNAL_ERROR : RegistryApiError := api_error "INTERNAL_ERROR" 500.
Definition VERSION_CONFLICT : RegistryApiError := api_error "VERSION_CONFLICT" 409.
Definition FORBIDDEN : RegistryApiError := api_error "FORBIDDEN" 403.

(** [state.feeds ?? []]. *)
Definition feeds (s : RegistryState) : list Feed := default [] (st_feeds s).

(** [text.replace(/\/$/u, '')]. *)
Definition strip_trailing_slash (s : jstr) : jstr :=
  if endsWith (js "/") s then without_last s else s.

(** [Object.keys(body).some((key) => !allowed.has(key))]. *)
Definition unsupported_field (allowed : list string) (body : jsval) : bool :=
  match body with
  | JObj l => existsb (fun kv => negb (bool_decide (kv.1 ∈ js <$> allowed))) l
  | _ => false
  end.

(** [/^@[a-z0-9][a-z0-9._-]{0,63}$/]. *)
Definition namespace_pattern (s : jstr) : bool :=
  match s with
  | 64 :: r => slug_like is_lower_alnum 63 r
  | _ => false
  end.

Section Parsers.
Context {UT : UnicodeTables} {UR : UrlRuntime}.

(** ** The trusted origins *)

(** The two fields of the configuration that decide which URLs are used. *)
Record UpstreamConfiguration : Type := {
  uc_allowLoopbackUpstreams : bool;
  uc_trustedSkillsShBaseUrls : list jstr;
}.
Definition INVALID_CONFIGURATION : RegistryApiError := api_error "INVALID_CONFIGURATION" 500.
Definition has_credentials (parsed : URL) : bool :=
  negb (jeqb (url_username parsed) []) || negb (jeqb (url_password parsed) []).
Definition has_query (parsed : URL) : bool :=
  negb (jeqb (url_search parsed) []) || negb (jeqb (url_hash parsed) []).
Definition normalizeTrustedSkillsShBaseUrls (value : jsval) : api (list jstr) :=
  match (if is_undef value then JArr [JStr (js "https://skills.sh")] else value) with
  | JArr values =>
      map_result (fun candidate =>
        match candidate with
        | JStr s =>
            throw_if jeqb s [] || (2048 <? jlen s) with INVALID_CONFIGURATION ;;
            match parseURL s with
            | None => Err INVALID_CONFIGURATION
            | Some parsed =>
                throw_if negb (jeqb (url_protocol parsed) (js "https:")) || has_credentials parsed ||
                         has_query parsed with INVALID_CONFIGURATION ;;
                Ok (strip_trailing_slash (url_href parsed))
            end
        | _ => Err INVALID_CONFIGURATION
        end) values
  | _ => Err INVALID_CONFIGURATION
  end.

Context (uconfig : UpstreamConfiguration).
Abbreviation allowLoopback := (uc_allowLoopbackUpstreams uconfig).

(** An [http:] URL of the machine itself, where the configuration allows it. *)
Definition loopback_test (parsed : URL) : bool :=
  allowLoopback && jeqb (url_protocol parsed) (js "http:") && isLoopbackHost (url_hostname parsed).
Definition isTrustedFeedBaseUrl (value : option jstr) : bool :=
  match non_empty value with
  | None => false
  | Some v =>
      match parseURL v with
      | None => false
      | Some parsed =>
          bool_decide (strip_trailing_slash (url_href parsed) ∈ uc_trustedSkillsShBaseUrls uconfig) ||
          loopback_test parsed
      end
  end.
Definition assertTrustedFeedBaseUrl (feed : Feed) : api unit :=
  throw_if negb (isTrustedFeedBaseUrl (Some (fd_baseUrl feed))) with api_error "FEED_UNTRUSTED" 503 ;;
  Ok tt.

(** ** The parsers *)

Definition requireFeedName (value : jsval) : api jstr :=
  match value with
  | JStr s => throw_if negb (slug_like is_lower_alnum 63 s) with INVALID_FEED ;; Ok s
  | _ => Err INVALID_FEED
  end.
Definition parseFeedRepositories (value : jsval) : api (option (list jstr)) :=
  match value with
  | JUndef => Ok None
  | _ =>
      let? repositories := require INVALID_FEED (all_strings (fun _ => true) value) in
      throw_if existsb (fun repository =>
                 jeqb repository [] || (2048 <? jlen repository) ||
                 negb (isWellFormedUnicodeString repository) || existsb control_unit repository) repositories
        with INVALID_FEED ;;
      Ok (Some (normalizeSkillsDirectorySource <$> repositories))
  end.
Definition parseFeedBaseUrl (value : jsval) : api jstr :=
  match (if is_undef value then JStr (js "https://skills.sh") else value) with
  | JStr raw =>
      throw_if jeqb raw [] || (2048 <? jlen raw) with INVALID_FEED ;;
      match parseURL raw with
      | None => Err INVALID_FEED
      | Some parsed =>
          throw_if negb (jeqb (url_protocol parsed) (js "https:")) && negb (loopback_test parsed)
            with INVALID_FEED ;;
          throw_if has_credentials parsed || has_query parsed with INVALID_FEED ;;
          throw_if isLoopbackHost (url_hostname parsed) && negb allowLoopback with INVALID_FEED ;;
          let normalized := strip_trailing_slash (url_href parsed) in
          throw_if negb (bool_decide (normalized ∈ uc_trustedSkillsShBaseUrls uconfig)) &&
                   negb (loopback_test parsed) with INVALID_FEED ;;
          Ok normalized
      end
  | _ => Err INVALID_FEED
  end.
Definition parseFeedNamespace (value : jsval) : api jstr :=
  match value with
  | JStr s => throw_if negb (namespace_pattern s) with INVALID_FEED ;; Ok s
  | _ => Err INVALID_FEED
  end.
(** [enabled] of a body; absent is the default. *)
Definition parse_enabled (fallback : bool) (value : jsval) (e : RegistryApiError) : api bool :=
  match value with
  | JUndef => Ok fallback
  | JBool b => Ok b
  | _ => Err e
  end.

(** A parsed feed; [kind] is always 'skills-sh'. *)
Record FeedInput : Type := {
  fi_name : jstr;
  fi_enabled : bool;
  fi_repositories : option (list jstr);
  fi_baseUrl : jstr;
  fi_namespace : jstr;
}.
Definition parseFeed (body : jsval) : api FeedInput :=
  throw_if unsupported_field ["name"; "kind"; "enabled"; "repositories"; "baseUrl"; "namespace"]%string body
    with INVALID_FEED ;;
  let? name := requireFeedName (field body "name") in
  throw_if match field body "kind" with
           | JStr s => negb (jeqb s (js "skills-sh"))
           | _ => true
           end with INVALID_FEED ;;
  let? enabled := parse_enabled true (field body "enabled") INVALID_FEED in
  let? repositories := parseFeedRepositories (field body "repositories") in
  let? baseUrl := parseFeedBaseUrl (field body "baseUrl") in
  let? namespace := parseFeedNamespace (if is_undef (field body "namespace") then JStr (64 :: name)
                                        else field body "namespace") in
  Ok {| fi_name := name; fi_enabled := enabled; fi_repositories := repositories; fi_baseUrl := baseUrl;
        fi_namespace := namespace |}.

(** The members of an update that are present. *)
Record FeedPatch : Type := {
  fp_enabled : option bool;
  fp_repositories : option (option (list jstr));
  fp_baseUrl : option jstr;
  fp_namespace : option jstr;
}.
(** [if (value !== undefined) patch.member = parse(value)]. *)
Definition present {A} (value : jsval) (parse : jsval -> api A) : api (option A) :=
  match value with
  | JUndef => Ok None
  | _ => let? a := parse value in Ok (Some a)
  end.
Definition parseFeedPatch (body : jsval) : api FeedPatch :=
  throw_if unsupported_field ["enabled"; "repositories"; "baseUrl"; "namespace"]%string body with INVALID_FEED ;;
  let? enabled := present (field body "enabled") (fun v => parse_enabled true v INVALID_FEED) in
  let? repositories := present (field body "repositories") parseFeedRepositories in
  let? baseUrl := present (field body "baseUrl") parseFeedBaseUrl in
  let? namespace := present (field body "namespace") parseFeedNamespace in
  Ok {| fp_enabled := enabled; fp_repositories := repositories; fp_baseUrl := baseUrl;
        fp_namespace := namespace |}.
End Parsers.

(** ** Feeds as they are read *)

Definition feedNamespace (feed : Feed) : jstr := default (64 :: fd_name feed) (fd_namespace feed).
Definition feedAsUpstream (feed : Feed) : Upstream := {|
  us_id := fd_id feed; us_organizationId := fd_organizationId feed; us_name := fd_name feed;
  us_kind := USkillsSh; us_enabled := fd_enabled feed;
  us_repositories := Some (default [js "*"] (fd_repositories feed));
  us_baseUrl := Some (fd_baseUrl feed); us_credentialEnv := fd_credentialEnv feed;
  us_namespace := feedNamespace feed; us_configRevision := Some (fd_configRevision feed) |}.
(** [kind] is always 'skills-sh'. *)
Record PublicFeed : Type := {
  pf_id : jstr;
  pf_name : jstr;
  pf_enabled : bool;
  pf_configRevision : jstr;
  pf_repositories : option (list jstr);
  pf_baseUrl : jstr;
  pf_namespace : jstr;
}.
Definition publicFeed (feed : Feed) : PublicFeed := {|
  pf_id := fd_id feed; pf_name := fd_name feed; pf_enabled := fd_enabled feed;
  pf_configRevision := fd_configRevision feed; pf_repositories := fd_repositories feed;
  pf_baseUrl := fd_baseUrl feed; pf_namespace := feedNamespace feed |}.
Definition assertFeedNameAvailable (s : RegistryState) (name : jstr) (exceptFeedId : option jstr) : api unit :=
  throw_if existsb (fun feed => negb (bool_decide (Some (fd_id feed) = exceptFeedId)) && jeqb (fd_name feed) name)
             (feeds s) with VERSION_CONFLICT ;;
  Ok tt.
(** [{ ...current, ...patch }]. *)
Definition patched (patch : FeedPatch) (current : Feed) : Feed := {|
  fd_id := fd_id current; fd_organizationId := fd_organizationId current; fd_name := fd_name current;
  fd_enabled := default (fd_enabled current) (fp_enabled patch);
  fd_repositories := default (fd_repositories current) (fp_repositories patch);
  fd_baseUrl := default (fd_baseUrl current) (fp_baseUrl patch);
  fd_namespace := match fp_namespace patch with Some n => Some n | None => fd_namespace current end;
  fd_credentialEnv := fd_credentialEnv current; fd_configRevision := fd_configRevision current |}.
Definition with_configRevision (revision : jstr) (feed : Feed) : Feed := {|
  fd_id := fd_id feed; fd_organizationId := fd_organizationId feed; fd_name := fd_name feed;
  fd_enabled := fd_enabled feed; fd_repositories := fd_repositories feed; fd_baseUrl := fd_baseUrl feed;
  fd_namespace := fd_namespace feed; fd_credentialEnv := fd_credentialEnv feed;
  fd_configRevision := revision |}.

(** ** The array of feed objects

    [indexOf] compares objects by reference.  An object of the stored array is
    named by its position there; an object the updater allocates has no name of
    that kind. *)
Definition FeedObject : Type := option nat * Feed.
Definition feed_objects (l : list Feed) : list FeedObject := imap (fun i feed => (Some i, feed)) l.
(** [array.indexOf(object)]: [None] is -1. *)
Fixpoint index_of (object : option nat) (l : list FeedObject) : option nat :=
  match l with
  | [] => None
  | x :: l' => if bool_decide (x.1 = object /\ object <> None) then Some 0%nat else S <$> index_of object l'
  end.
(** [array[index]]. *)
Definition element_at (index : option nat) (l : list FeedObject) : option Feed :=
  match index with
  | Some i => snd <$> l !! i
  | None => None
  end.
(** [array[index] = allocated]; index -1 sets a property that is no element. *)
Definition set_element (index : option nat) (allocated : Feed) (l : list FeedObject) : list FeedObject :=
  match index with
  | Some i => <[i := (None, allocated)]> l
  | None => l
  end.

(** ** [handleFeedsRoute] *)

Section Handlers.
Context {DR : DateRuntime} {UT : UnicodeTables} {UR : UrlRuntime}.
Context (config : Configuration) (uconfig : UpstreamConfiguration).
Abbreviation org := (cfg_organizationId config).

Inductive FeedAnswer : Type :=
| FeedList (l : list PublicFeed)
| FeedBody (status : Z) (feed : PublicFeed)
| FeedMethodNotAllowed.
Record FeedIds : Type := {
  fe_id : jstr;
  fe_configRevision : jstr;
  fe_auditId : jstr;
}.

Definition new_feed (candidate : FeedInput) (ids : FeedIds) : Feed := {|
  fd_id := fe_id ids; fd_organizationId := org; fd_name := fi_name candidate;
  fd_enabled := fi_enabled candidate; fd_repositories := fi_repositories candidate;
  fd_baseUrl := fi_baseUrl candidate; fd_namespace := Some (fi_namespace candidate);
  fd_credentialEnv := None; fd_configRevision := fe_configRevision ids |}.
(** The updater of [POST]. *)
Definition create_feed_commit (principal : Principal) (requestId : jstr) (candidate : FeedInput) (ids : FeedIds)
    (now : Z) (current : RegistryState) : api (RegistryState * Feed) :=
  let? mutable := ensureState (Some current) defaultPolicy in
  let? _ := assertFeedNameAvailable mutable (fi_name candidate) None in
  throw_if existsb (fun existing => jeqb (fd_name existing) (fi_name candidate)) (feeds mutable)
    with VERSION_CONFLICT ;;
  let created := new_feed candidate ids in
  let mutable := with_st_feeds (Some (feeds mutable ++ [created])) mutable in
  Ok (appendAudit (audit org principal (fe_auditId ids) now (js "feed.create") (fd_id created)
        [(js "feed", str (fd_name created)); (js "kind", str (js "skills-sh"));
         (js "requestId", str requestId)]) mutable, created).
Definition createFeed (body : jsval) (principal : Principal) (requestId : jstr) (ids : FeedIds) (now : Z)
    (current : RegistryState) : api (RegistryState * Feed) :=
  let? _ := requireAdmin principal in
  let? candidate := parseFeed uconfig body in
  create_feed_commit principal requestId candidate ids now current.

(** The updater of [PATCH]: what it returns is the element of the array at the
    index of the object it has just replaced. *)
Definition update_feed_commit (id : jstr) (principal : Principal) (requestId : jstr) (patch : FeedPatch)
    (ids : FeedIds) (now : Z) (current : RegistryState) : api (RegistryState * option Feed) :=
  let? mutable := ensureState (Some current) defaultPolicy in
  let objects := feed_objects (feeds mutable) in
  match find_first (fun object => jeqb (fd_id object.2) id) objects with
  | None => Err unavailable
  | Some (reference, existing) =>
      let next := patched patch existing in
      let? _ := assertFeedNameAvailable mutable (fd_name next) (Some (fd_id existing)) in
      let objects := set_element (index_of reference objects)
                       (with_configRevision (fe_configRevision ids) next) objects in
      let mutable := with_st_feeds (Some (objects.*2)) mutable in
      Ok (appendAudit (audit org principal (fe_auditId ids) now (js "feed.update") (fd_id existing)
            [(js "feed", str (fd_name existing)); (js "enabled", JBool (fd_enabled next));
             (js "requestId", str requestId)]) mutable,
          element_at (index_of reference objects) objects)
  end.
(** A body that was committed, and the answer made of it: [publicFeed] of
    [undefined] throws a [TypeError] outside the transaction. *)
Definition updateFeed (id : jstr) (body : jsval) (principal : Principal) (requestId : jstr) (ids : FeedIds)
    (now : Z) (current : RegistryState) : RegistryState * api FeedAnswer :=
  match (let? _ := requireAdmin principal in
         let? patch := parseFeedPatch uconfig body in
         update_feed_commit id principal requestId patch ids now current) with
  | Err e => (current, Err e)
  | Ok (s', Some updated) => (s', Ok (FeedBody 200 (publicFeed updated)))
  | Ok (s', None) => (s', Err INTERNAL_ERROR)
  end.

(** [rest] are the decoded segments after [/v1/feeds]; [snapshot] is the state
    the request reads, [current] the one its transaction runs on. *)
Definition handleFeedsRoute (method : HttpMethod) (rest : list jstr) (body : jsval) (principal : Principal)
    (requestId : jstr) (ids : FeedIds) (now : Z) (snapshot : api RegistryState) (current : RegistryState)
    : RegistryState * api FeedAnswer :=
  match rest with
  | [] =>
      match method with
      | GET => (current,
          let? _ := requireReader principal in
          let? state := snapshot in
          Ok (FeedList (publicFeed <$>
                List.filter (fun feed => canReadNamespace principal (feedNamespace feed)) (feeds state))))
      | POST =>
          match createFeed body principal requestId ids now current with
          | Ok (s', feed) => (s', Ok (FeedBody 201 (publicFeed feed)))
          | Err e => (current, Err e)
          end
      | _ => (current, Ok FeedMethodNotAllowed)
      end
  | [id] =>
      match (let? state := snapshot in
             require unavailable (find_first (fun feed => jeqb (fd_id feed) id) (feeds state))) with
      | Err e => (current, Err e)
      | Ok existing =>
          match method with
          | GET => (current,
              let? _ := requireReader principal in
              throw_if negb (canReadNamespace principal (feedNamespace existing)) with FORBIDDEN ;;
              Ok (FeedBody 200 (publicFeed existing)))
          | PATCH => updateFeed id body principal requestId ids now current
          | _ => (current, Ok FeedMethodNotAllowed)
          end
      end
  | _ => (current, Err (api_error "NOT_FOUND" 404))
  end.

(** ** [createUpstream] *)

(** The upstream a body describes; [id] is drawn after the checks. *)
Definition parse_upstream (body : jsval) (principal : Principal) (id : jstr) : api Upstream :=
  let? name := require INVALID_UPSTREAM (stringValue (field body "name")) in
  throw_if negb (slug_like is_alnum 127 name) with INVALID_UPSTREAM ;;
  let? kind := require INVALID_UPSTREAM (enum_value UpstreamKind (field body "kind")) in
  let? namespace := require INVALID_UPSTREAM (stringValue (field body "namespace")) in
  throw_if negb (namespace_pattern namespace) with INVALID_UPSTREAM ;;
  throw_if negb (canReadNamespace principal namespace) with FORBIDDEN ;;
  let baseUrl := stringValue (field body "baseUrl") in
  let? _ :=
    match baseUrl with
    | None => Ok tt
    | Some base =>
        match parseURL base with
        | None => Err INVALID_UPSTREAM
        | Some parsed =>
            throw_if has_credentials parsed with INVALID_UPSTREAM ;;
            throw_if negb (jeqb (url_protocol parsed) (js "https:")) && negb (loopback_test uconfig parsed)
              with INVALID_UPSTREAM ;;
            throw_if isLoopbackHost (url_hostname parsed) && negb (uc_allowLoopbackUpstreams uconfig)
              with INVALID_UPSTREAM ;;
            Ok tt
        end
    end in
  let credentialEnv := stringValue (field body "credentialEnv") in
  throw_if malformed credentialEnv env_name with INVALID_UPSTREAM ;;
  let? repositories :=
    match field body "repositories" with
    | JArr l => let? texts := require INVALID_UPSTREAM (all_strings (fun _ => true) (JArr l)) in Ok (Some texts)
    | _ => Ok None
    end in
  throw_if bool_decide (kind = USkillsSh) && bool_decide (default [] repositories = []) with INVALID_UPSTREAM ;;
  throw_if existsb (fun r => jeqb r [] || (2048 <? jlen r) || existsb control_unit r) (default [] repositories)
    with INVALID_UPSTREAM ;;
  let? enabled := parse_enabled true (field body "enabled") INVALID_UPSTREAM in
  Ok {| us_id := id; us_organizationId := org; us_name := name; us_kind := kind; us_enabled := enabled;
        us_repositories := repositories; us_baseUrl := baseUrl; us_credentialEnv := credentialEnv;
        us_namespace := namespace; us_configRevision := None |}.
Definition createUpstream (body : jsval) (principal : Principal) (requestId upstreamId auditId : jstr) (now : Z)
    (current : RegistryState) : api (RegistryState * Upstream) :=
  let? _ := requireAdmin principal in
  let? upstream := parse_upstream body principal upstreamId in
  let? mutable := ensureState (Some current) defaultPolicy in
  throw_if existsb (fun candidate => jeqb (us_name candidate) (us_name upstream)) (st_upstreams mutable)
    with VERSION_CONFLICT ;;
  let mutable := with_st_upstreams (st_upstreams mutable ++ [upstream]) mutable in
  Ok (appendAudit (audit org principal auditId now (js "upstream.create") (us_id upstream)
        [(js "kind", str (enum_name (us_kind upstream))); (js "namespace", str (us_namespace upstream));
         (js "requestId", str requestId)]) mutable, upstream).
End Handlers.
