(* ===== verification/Imports.v ===== *)
(** * Pull-through imports

    [resolveOrQueueImport] of packages/core/src/index.ts with its parser, its
    cache key and the tests of identity: a request for an upstream skill joins
    the import that is running, is answered from an approved release, or queues
    an import job.  As in [Registry], a handler is a function of the state it
    read and the state its transaction runs on. *)

From Stdlib Require Import ZArith Lia.
From stdpp Require Import base list strings sets.
From S2P Require Import Prelude Js Dates Json Contracts Web Access Names PolicyEval Resolve Provenance State.
From S2P Require Import Registry.

Local Open Scope Z_scope.

Definition INVALID_IMPORT : RegistryApiError := api_error "INVALID_IMPORT" 400.

(** ** [parseImportRequest] *)

Definition optionalImportField (value : jsval) : api (option jstr) :=
  match value with
  | JUndef | JNull | JStr [] => Ok None
  | JStr s => throw_if (4096 <? jlen s) || existsb control_unit s with INVALID_IMPORT ;; Ok (Some s)
  | _ => Err INVALID_IMPORT
  end.
Definition parseExternalSnapshotHash (value : jsval) : api SnapshotHash :=
  match value with
  | JUndef => Ok HashAbsent
  | JNull => Ok HashNull
  | JStr s =>
      throw_if jeqb s [] || (256 <? jlen s) || existsb control_unit s with INVALID_IMPORT ;; Ok (Hash s)
  | _ => Err INVALID_IMPORT
  end.
(** A relative path without empty, [.] or [..] segments. *)
Definition unsafe_path (path : jstr) : bool :=
  (4096 <? jlen path) || startsWith (js "/") path || endsWith (js "/") path || includes [92] path ||
  existsb control_unit path ||
  existsb (fun part => jeqb part [] || jeqb part (js "..") || jeqb part (js ".")) (split 47 path).
Definition parseImportRequest (body : jsval) : api ImportRequest :=
  let upstreamId := stringValue (field body "upstreamId") in
  let path := stringValue (field body "path") in
  let? name := requireSkillName (field body "name") in
  let? version := requireVersion (field body "version") in
  let? upstreamId := require INVALID_IMPORT upstreamId in
  let? path := require INVALID_IMPORT path in
  throw_if unsafe_path path with INVALID_IMPORT ;;
  let? repository := optionalImportField (field body "repository") in
  let? ref := optionalImportField (field body "ref") in
  let? externalId := optionalImportField (field body "externalId") in
  let? externalSourceType :=
    match field body "externalSourceType" with
    | JUndef | JNull | JStr [] => Ok None
    | v => let? t := require INVALID_IMPORT (enum_value ExternalSourceType v) in Ok (Some t)
    end in
  let? externalSnapshotHash := parseExternalSnapshotHash (field body "externalSnapshotHash") in
  throw_if match externalId with
           | Some id => negb (jeqb id path)
           | None => false
           end with INVALID_IMPORT ;;
  Ok {| iq_upstreamId := upstreamId; iq_repository := repository; iq_path := path; iq_ref := ref;
        iq_name := name; iq_version := version; iq_externalId := externalId;
        iq_externalSourceType := externalSourceType; iq_externalSnapshotHash := externalSnapshotHash;
        iq_feedId := None; iq_feedName := None; iq_feedConfigRevision := None; iq_sourceReference := None;
        iq_sourceCatalogId := None; iq_sourceCatalogConfigRevision := None;
        iq_sourceCatalogProviderVersion := None |}.

Definition DIRECTORY_ID_MAX_SEGMENTS : nat := 64.
Definition requireDirectoryId (value : jsval) : api jstr :=
  match value with
  | JStr s =>
      throw_if jeqb s [] || negb (isWellFormedUnicodeString s) || (2048 <? jlen (textEncode s)) ||
               negb (jeqb (trim s) s) ||
               existsb (fun c => control_unit c || (c =? 63) || (c =? 35) || (c =? 37) || (c =? 92)) s
        with api_error "INVALID_REQUEST" 400 ;;
      throw_if (length (split 47 s) <? 2)%nat || (DIRECTORY_ID_MAX_SEGMENTS <? length (split 47 s))%nat ||
               existsb (fun part => negb (isSafeDirectorySegment part)) (split 47 s)
        with api_error "INVALID_REQUEST" 400 ;;
      Ok s
  | _ => Err (api_error "INVALID_REQUEST" 400)
  end.

(** ** Identity of requests and upstreams *)

(** [value ?? null]. *)
Definition text_or_null (o : option jstr) : jdata :=
  match o with
  | Some s => TStr s
  | None => TNull
  end.
Definition hash_text (h : SnapshotHash) : option jstr :=
  match h with
  | Hash s => Some s
  | _ => None
  end.
Definition cache_key_data (organizationId : jstr) (request : ImportRequest) : jdata := TObj [
  (js "organizationId", TStr organizationId);
  (js "upstreamId", TStr (iq_upstreamId request));
  (js "path", TStr (iq_path request));
  (js "ref", text_or_null (iq_ref request));
  (js "name", TStr (iq_name request));
  (js "version", TStr (iq_version request));
  (js "repository", text_or_null (iq_repository request));
  (js "externalId", text_or_null (iq_externalId request));
  (js "externalSourceType", text_or_null (enum_name <$> iq_externalSourceType request));
  (js "externalSnapshotHash", text_or_null (hash_text (iq_externalSnapshotHash request)));
  (js "feedId", text_or_null (iq_feedId request));
  (js "feedName", text_or_null (iq_feedName request));
  (js "feedConfigRevision", text_or_null (iq_feedConfigRevision request));
  (js "sourceReference", text_or_null (iq_sourceReference request));
  (js "sourceCatalogId", text_or_null (iq_sourceCatalogId request));
  (js "sourceCatalogConfigRevision", text_or_null (iq_sourceCatalogConfigRevision request))].
Definition importCacheKey (organizationId : jstr) (request : ImportRequest) : jstr :=
  stableStringify (cache_key_data organizationId request).
Definition importRequestsMatch (left right : ImportRequest) : bool :=
  jeqb (importCacheKey (js "__request__") left) (importCacheKey (js "__request__") right).

Definition upstream_origin_data (upstream : Upstream) : jdata := TObj [
  (js "id", TStr (us_id upstream));
  (js "name", TStr (us_name upstream));
  (js "kind", TStr (enum_name (us_kind upstream)));
  (js "namespace", TStr (us_namespace upstream));
  (js "baseUrl", text_or_null (us_baseUrl upstream));
  (js "credentialEnv", text_or_null (us_credentialEnv upstream));
  (js "repositories", TArr (TStr <$> js_sort jcompare (default [] (us_repositories upstream))));
  (js "configRevision", text_or_null (us_configRevision upstream))].
Definition sameUpstreamOrigin (left right : Upstream) : bool :=
  jeqb (stableStringify (upstream_origin_data left)) (stableStringify (upstream_origin_data right)).

Definition active (job : Job) : bool :=
  bool_decide (jb_state job = JQueued) || bool_decide (jb_state job = JRunning).
Definition completed (job : Job) : bool := bool_decide (jb_state job = JCompleted).
Definition is_import (job : Job) : bool := bool_decide (jb_kind job = ImportJob).

Section Importing.
Context {DR : DateRuntime} {UT : UnicodeTables} {UR : UrlRuntime}.

(** [external] agrees with the record around it; [provider] is always
    'skills.sh'. *)
Definition external_matches (external : ExternalProvenance) (pv : Provenance) (externalId : jstr) : bool :=
  jeqb (ep_externalId external) externalId &&
  bool_decide (Some (ep_source external) = pv_repository pv) &&
  jeqb (ep_externalId external) (ep_source external ++ js "/" ++ ep_slug external) &&
  bool_decide (ep_externalSnapshotHash external = hash_text (pv_externalSnapshotHash pv)) &&
  (bool_decide (pv_externalSourceType pv = None) ||
   bool_decide (Some (ep_sourceType external) = pv_externalSourceType pv)).
(** [expected === undefined || actual === expected]. *)
Definition agrees {A} `{EqDecision A} (expected actual : option A) : bool :=
  match expected with
  | None => true
  | Some _ => bool_decide (actual = expected)
  end.
Definition skills_sh_matches (pv : Provenance) (revision : jstr) (request : ImportRequest) : bool :=
  match non_empty (iq_externalId request) with
  | None => false
  | Some externalId =>
      bool_decide (pv_externalId pv = Some externalId) && bool_decide (pv_path pv = Some externalId) &&
      agrees (iq_externalSourceType request) (pv_externalSourceType pv) &&
      (bool_decide (iq_externalSnapshotHash request = HashAbsent) ||
       bool_decide (pv_externalSnapshotHash pv = iq_externalSnapshotHash request)) &&
      isValidSkillsShRevision revision (iq_externalSnapshotHash request) &&
      match pv_external pv with
      | None => true
      | Some external => external_matches external pv externalId
      end
  end.
Definition importProvenanceMatches (skill : SkillVersion) (request : ImportRequest) (upstream : Upstream)
    : bool :=
  let pv := sk_provenance skill in
  match non_empty (pv_repository pv), pv_revision pv with
  | Some repository, Some revision =>
      jeqb (enum_name (pv_kind pv)) (enum_name (us_kind upstream)) &&
      bool_decide (pv_upstreamId pv = Some (us_id upstream)) &&
      bool_decide (pv_upstreamId pv = Some (iq_upstreamId request)) &&
      bool_decide (pv_path pv = Some (iq_path request)) &&
      isValidImportRevision upstream revision (iq_externalSnapshotHash request) &&
      agrees (iq_repository request) (Some repository) &&
      provenanceRepositoryMatches upstream repository &&
      agrees (iq_feedId request) (pv_feedId pv) &&
      agrees (iq_feedName request) (pv_feedName pv) &&
      agrees (iq_feedConfigRevision request) (pv_feedConfigRevision pv) &&
      agrees (iq_sourceReference request) (pv_sourceReference pv) &&
      match iq_sourceCatalogId request with
      | None => true
      | Some catalog => bool_decide (pv_externalSource pv = Some catalog) &&
                        bool_decide (pv_externalId pv = iq_externalId request)
      end &&
      (negb (bool_decide (us_kind upstream = USkillsSh)) || skills_sh_matches pv revision request) &&
      match pv_sourceDigest pv with
      | None => true
      | Some d => isDigest d && jeqb d (sb_digest (sk_artifact skill))
      end
  | _, _ => false
  end.

Definition findImportUpstream (s : RegistryState) (request : ImportRequest) (principal : Principal)
    : api Upstream :=
  match find_first (fun candidate => jeqb (us_organizationId candidate) (pr_organizationId principal) &&
                                     jeqb (us_id candidate) (iq_upstreamId request) && us_enabled candidate)
          (st_upstreams s) with
  | None => Err unavailable
  | Some selected =>
      throw_if negb (canReadNamespace principal (us_namespace selected)) ||
               negb (upstreamAllowsImport selected (iq_repository request)) ||
               (bool_decide (us_kind selected = USkillsSh) &&
                (bool_decide (non_empty (iq_externalId request) = None) ||
                 negb (bool_decide (iq_externalId request = Some (iq_path request)))))
        with unavailable ;;
      Ok selected
  end.

(** ** [resolveOrQueueImport] *)

Context (config : Configuration).
Abbreviation org := (cfg_organizationId config).

Inductive ImportResolutionResult : Type :=
| ImportAccepted (job : Job)
| ImportResolved (job : Job) (resolution : Resolution).

(** A new import job for the policy in force. *)
Definition import_job (id : jstr) (request : ImportRequest) (upstream : Upstream) (now : Z) (s : RegistryState)
    : Job := {|
  jb_id := id; jb_organizationId := org; jb_kind := ImportJob; jb_state := JQueued; jb_resourceId := None;
  jb_artifact := None; jb_policyRevision := po_revision (st_policy s); jb_policy := clonePolicy (st_policy s);
  jb_import := Some request; jb_upstream := Some upstream; jb_openclawSource := JUndef;
  jb_sourceAcquisition := JUndef; jb_sourceCatalogAliases := None; jb_createdAt := toISOString now;
  jb_updatedAt := toISOString now; jb_attempts := 0; jb_leaseToken := None; jb_leaseExpiresAt := None;
  jb_error := None |}.
Definition queue_job (job : Job) (s : RegistryState) : RegistryState := with_st_jobs (st_jobs s ++ [job]) s.

Section Commit.
Context (request : ImportRequest) (upstream : Upstream) (s : RegistryState).

Definition sameJobSource (candidate : Job) : bool :=
  jeqb (jb_organizationId candidate) org && is_import candidate &&
  match jb_import candidate with
  | Some i => importRequestsMatch i request
  | None => false
  end &&
  match jb_upstream candidate with
  | Some u => sameUpstreamOrigin u upstream
  | None => false
  end.
(** [candidate.import?.name === name && candidate.import.version === version]. *)
Definition same_target (candidate : Job) : bool :=
  match jb_import candidate with
  | Some i => jeqb (iq_name i) (iq_name request) && jeqb (iq_version i) (iq_version request)
  | None => false
  end.
Definition activeTargets : list Job :=
  List.filter (fun candidate => active candidate && is_import candidate && same_target candidate) (st_jobs s).
Definition existingSkill : option SkillVersion :=
  find_first (fun skill => jeqb (sk_organizationId skill) org && jeqb (sk_name skill) (iq_name request) &&
                           jeqb (sk_version skill) (iq_version request)) (st_skills s).
Definition completedTarget (skill : SkillVersion) : option Job :=
  find_first (fun candidate => completed candidate && sameJobSource candidate &&
                               bool_decide (jb_resourceId candidate = Some (sk_id skill))) (st_jobs s).
Definition completedWithoutSkill : option Job :=
  find_first (fun candidate => completed candidate && sameJobSource candidate &&
                               bool_decide (non_empty (jb_resourceId candidate) = None)) (st_jobs s).
End Commit.

Definition import_details (request : ImportRequest) (requestId : jstr) (digest : option jstr)
    : list (jstr * jsval) :=
  [(js "cacheKey", str (importCacheKey org request)); (js "upstreamId", str (iq_upstreamId request));
   (js "name", str (iq_name request)); (js "version", str (iq_version request))] ++
  match digest with
  | Some d => [(js "digest", str d)]
  | None => []
  end ++ [(js "requestId", str requestId)].

(** The updater, from the upstream it found on. *)
Definition import_commit (request : ImportRequest) (upstream : Upstream) (principal : Principal)
    (requestId jobId auditId : jstr) (now : Z) (mutable : RegistryState)
    : api (RegistryState * ImportResolutionResult) :=
  let event action id digest :=
    audit org principal auditId now (js action) id (import_details request requestId digest) in
  match activeTargets request mutable with
  | (_ :: _) as targets =>
      match find_first (sameJobSource request upstream) targets with
      | Some activeTarget =>
          throw_if negb (forallb (sameJobSource request upstream) targets) with PROVENANCE_CONFLICT ;;
          Ok (appendAudit (event "skill.import.joined"%string (jb_id activeTarget) None) mutable,
              ImportAccepted activeTarget)
      | None => Err PROVENANCE_CONFLICT
      end
  | [] =>
      match existingSkill request mutable with
      | Some skill =>
          match completedTarget request upstream mutable skill with
          | Some target =>
              throw_if negb (importProvenanceMatches skill request upstream &&
                             skillCurrentlyApproved mutable skill now) with PROVENANCE_CONFLICT ;;
              Ok (appendAudit (event "skill.import.cache-hit"%string (jb_id target)
                                 (Some (sb_digest (sk_artifact skill)))) mutable,
                  ImportResolved target (skillResolution skill))
          | None => Err PROVENANCE_CONFLICT
          end
      | None =>
          throw_if bool_decide (completedWithoutSkill request upstream mutable <> None)
            with PROVENANCE_CONFLICT ;;
          let job := import_job jobId request upstream now mutable in
          Ok (appendAudit (event "skill.import.queued"%string (jb_id job) None) (queue_job job mutable),
              ImportAccepted job)
      end
  end.

Definition resolveOrQueueImport (body : jsval) (principal : Principal) (requestId jobId auditId : jstr)
    (now : Z) (snapshot current : RegistryState) : api (RegistryState * ImportResolutionResult) :=
  let? request := parseImportRequest body in
  throw_if negb (canPublishName principal (iq_name request)) with api_error "FORBIDDEN" 403 ;;
  let? upstream := findImportUpstream snapshot request principal in
  let? _ := if bool_decide (us_kind upstream = USkillsSh)
            then (let? _ := requireDirectoryId (JStr (iq_path request)) in Ok tt) else Ok tt in
  let? mutable := ensureState (Some current) (st_policy snapshot) in
  let? currentUpstream := findImportUpstream mutable request principal in
  throw_if negb (sameUpstreamOrigin currentUpstream upstream) with PROVENANCE_CONFLICT ;;
  import_commit request currentUpstream principal requestId jobId auditId now mutable.

(** [createImportJob] and [resolveProxyRequest] behind their routes. *)
Record ImportAnswer : Type := {
  ans_status : Z;
  ans_operation : option Job;
  ans_resolution : option Resolution;
}.
Definition import_answer (result : ImportResolutionResult) : ImportAnswer :=
  match result with
  | ImportAccepted job => {| ans_status := 202; ans_operation := Some job; ans_resolution := None |}
  | ImportResolved job resolution =>
      {| ans_status := 200; ans_operation := Some job; ans_resolution := Some resolution |}
  end.
Definition proxy_answer (result : ImportResolutionResult) : ImportAnswer :=
  match result with
  | ImportAccepted job => {| ans_status := 202; ans_operation := Some job; ans_resolution := None |}
  | ImportResolved _ resolution =>
      {| ans_status := 200; ans_operation := None; ans_resolution := Some resolution |}
  end.
Definition answered (answer : ImportResolutionResult -> ImportAnswer)
    (r : api (RegistryState * ImportResolutionResult)) : api (RegistryState * ImportAnswer) :=
  let? committed := r in Ok (committed.1, answer committed.2).
Definition createImportJob (body : jsval) (principal : Principal) (requestId jobId auditId : jstr) (now : Z)
    (snapshot current : RegistryState) : api (RegistryState * ImportAnswer) :=
  let? _ := requirePublisher principal in
  answered import_answer (resolveOrQueueImport body principal requestId jobId auditId now snapshot current).
Definition resolveProxyRequest (body : jsval) (principal : Principal) (requestId jobId auditId : jstr) (now : Z)
    (snapshot current : RegistryState) : api (RegistryState * ImportAnswer) :=
  let? _ := requireReader principal in
  let? _ := requireRouteScopes principal (js_list ["imports:create"; "skills:publish"; "proxy:resolve"]%string) in
  let? _ := requirePublisher principal in
  answered proxy_answer (resolveOrQueueImport body principal requestId jobId auditId now snapshot current).
End Importing.
