(* ===== verification/Directory.v ===== *)
(** * Catalog rows of the skills.sh directory

    How packages/core/src/index.ts reads one row of the public catalog before it
    queues an import: the detail route with its nested-id fallback, the bounded
    search for a row's source type, and [createDirectoryImport].  The client is
    injected: a record of its calls, each of which answers or is rejected. *)

From Stdlib Require Import ZArith Lia.
From stdpp Require Import base list strings sets.
From S2P Require Import Prelude Js Dates Contracts Web Access Names PolicyEval Resolve Provenance State.
From S2P Require Import Registry Feeds Imports.

Local Open Scope Z_scope.

(** ** Rows and rejections *)

Record CatalogRow : Type := {
  cr_id : jstr;
  cr_source : jstr;
  cr_slug : jstr;
  cr_sourceType : jstr;
}.
(** [files] is [null] when [dd_files] is [None]; of a file only the path is
    kept. *)
Record DirectoryDetail : Type := {
  dd_id : jstr;
  dd_source : jstr;
  dd_slug : jstr;
  dd_hash : option jstr;
  dd_files : option (list jstr);
}.
Inductive DirectoryErrorCode : Type :=
| de_invalid_input | de_invalid_response | de_unavailable | de_not_found | de_rate_limited
| de_unauthorized | de_redirect_denied | de_request_timeout | de_http_error.
#[export] Instance DirectoryErrorCode_eq_dec : EqDecision DirectoryErrorCode.
Proof. solve_decision. Defined.
Record SkillsDirectoryError : Type := {
  de_code : DirectoryErrorCode;
  de_status : option Z;
  de_detailIdentityMismatch : bool;
  de_detailInvalidPath : bool;
}.
(** A rejected call; other errors reach the caller as they are. *)
Inductive Rejection : Type :=
| DirectoryRejection (e : SkillsDirectoryError)
| OtherRejection.
Abbreviation call A := (result Rejection A) (only parsing).

Record SearchOptions : Type := {
  so_q : jstr;
  so_owner : option jstr;
}.
(** The calls of a client, as what they answer; [findExact] is optional. *)
Record DirectoryClient : Type := {
  dc_detail : jstr -> call DirectoryDetail;
  dc_findExact : option (jstr -> call CatalogRow);
  dc_search : SearchOptions -> call (list CatalogRow);
  dc_list : nat -> call (list CatalogRow * bool);
}.

Definition DIRECTORY_INTEGRITY : RegistryApiError := api_retry "DIRECTORY_INTEGRITY" 502.
Definition directoryUnavailable : RegistryApiError := api_error "DIRECTORY_NOT_CONFIGURED" 503.
Definition directoryApiError (e : SkillsDirectoryError) : RegistryApiError :=
  match de_code e with
  | de_not_found => unavailable
  | de_invalid_input => api_error "INVALID_REQUEST" 400
  | de_unavailable | de_rate_limited | de_request_timeout | de_http_error =>
      api_retry "DIRECTORY_UNAVAILABLE" 503
  | _ => api_error "DIRECTORY_UNAVAILABLE" 503
  end.
Definition rejection_error (r : Rejection) : RegistryApiError :=
  match r with
  | DirectoryRejection e => directoryApiError e
  | OtherRejection => INTERNAL_ERROR
  end.

(** ** [classifyNestedDetailFallback] of packages/directory/src/client.ts *)

Definition MAX_IDENTIFIER_BYTES : Z := 2048.
Definition MAX_IDENTIFIER_SEGMENTS : nat := 64.
Definition MAX_IDENTIFIER_SEGMENT_BYTES : Z := 512.
Definition normalizeSkillId (value : jstr) : option jstr :=
  if jeqb value [] || (MAX_IDENTIFIER_BYTES <? jlen (textEncode value)) || negb (jeqb (trim value) value) ||
     negb (well_formed value) ||
     existsb (fun c => control_unit c || (c =? 63) || (c =? 35) || (c =? 37) || (c =? 92)) value then None
  else if (length (split 47 value) <? 2)%nat || (MAX_IDENTIFIER_SEGMENTS <? length (split 47 value))%nat ||
          existsb (fun segment => jeqb segment [] || jeqb segment (js ".") || jeqb segment (js "..") ||
                     (MAX_IDENTIFIER_SEGMENT_BYTES <? jlen (textEncode segment))) (split 47 value)
  then None else Some value.
Definition isNestedSkillId (value : jstr) : bool :=
  match normalizeSkillId value with
  | Some id => (3 <=? length (split 47 id))%nat
  | None => false
  end.
Definition nested_fallback (e : SkillsDirectoryError) (id : jstr) : bool :=
  isNestedSkillId id &&
  (de_detailIdentityMismatch e || de_detailInvalidPath e ||
   (bool_decide (de_code e = de_not_found) && bool_decide (de_status e = Some 404))).

(** ** [resolveDirectoryDetail] *)

(** [id === `${source}/${slug}`] with safe parts. *)
Definition consistent_identity (requested id source slug : jstr) : bool :=
  jeqb id requested && jeqb id (source ++ js "/" ++ slug) && negb (jeqb source []) && negb (jeqb slug []) &&
  isSafeDirectoryExternalValue source && isSafeDirectoryExternalValue slug.
Definition source_type (row : CatalogRow) : option ExternalSourceType :=
  enum_of ExternalSourceType (cr_sourceType row).
Definition detailFromExactCatalogRow (row : CatalogRow) (requestedId : jstr) : api DirectoryDetail :=
  throw_if negb (consistent_identity requestedId (cr_id row) (cr_source row) (cr_slug row)) ||
           bool_decide (source_type row = None) with DIRECTORY_INTEGRITY ;;
  throw_if negb (existsb (Z.eqb 47) (cr_slug row)) with unavailable ;;
  Ok {| dd_id := cr_id row; dd_source := cr_source row; dd_slug := cr_slug row; dd_hash := None;
        dd_files := None |}.
Definition resolveDirectoryDetail (client : DirectoryClient) (id : jstr)
    : api (DirectoryDetail * option CatalogRow) :=
  match dc_detail client id with
  | Ok detail => Ok (detail, None)
  | Err (DirectoryRejection e) =>
      match dc_findExact client with
      | Some findExact =>
          throw_if negb (nested_fallback e id) with directoryApiError e ;;
          match findExact id with
          | Ok row => let? detail := detailFromExactCatalogRow row id in Ok (detail, Some row)
          | Err r => Err (rejection_error r)
          end
      | None => Err (directoryApiError e)
      end
  | Err OtherRejection => Err INTERNAL_ERROR
  end.

(** ** [lookupDirectoryCatalogRow] *)

Definition directoryLookupRequest {A} (answer : call A) : api (option A) :=
  match answer with
  | Ok a => Ok (Some a)
  | Err (DirectoryRejection e) =>
      throw_if negb (bool_decide (de_code e = de_not_found)) with directoryApiError e ;; Ok None
  | Err OtherRejection => Err INTERNAL_ERROR
  end.
Definition exactDirectoryCatalogRow (rows : list CatalogRow) (detail : DirectoryDetail)
    : api (option CatalogRow) :=
  let sameId := List.filter (fun row => jeqb (cr_id row) (dd_id detail)) rows in
  throw_if (1 <? length sameId)%nat with DIRECTORY_INTEGRITY ;;
  match sameId with
  | row :: _ =>
      Ok (if negb (jeqb (cr_source row) (dd_source detail)) || negb (jeqb (cr_slug row) (dd_slug detail)) ||
             negb (jeqb (cr_id row) (cr_source row ++ js "/" ++ cr_slug row)) ||
             bool_decide (source_type row = None)
          then None else Some row)
  | [] => Ok None
  end.
Definition owner_ok (owner : jstr) : bool :=
  negb (jeqb owner []) && (jlen owner <=? 512) &&
  negb (existsb (fun c => control_unit c || (c =? 47) || (c =? 92)) owner).
Definition directorySearchOwner (source : jstr) : option jstr :=
  let parts := split 47 source in
  match parts with
  | [owner; _] => if owner_ok owner then Some owner
                  else None
  | _ :: owner :: _ :: _ =>
      if starts_folded (js "github.com/") source && owner_ok owner then Some owner else None
  | _ => None
  end.
(** A search that may be missing, and the row it has. *)
Definition searched_row (client : DirectoryClient) (options : SearchOptions) (detail : DirectoryDetail)
    : api (option CatalogRow) :=
  let? rows := directoryLookupRequest (dc_search client options) in
  match rows with
  | Some l => exactDirectoryCatalogRow l detail
  | None => Ok None
  end.
Definition DIRECTORY_METADATA_LOOKUP_MAX_PAGES : nat := 100.
Fixpoint walk_pages (pages : nat) (client : DirectoryClient) (detail : DirectoryDetail) (page : nat)
    : api CatalogRow :=
  match pages with
  | O => Err DIRECTORY_INTEGRITY
  | S pages' =>
      let? listed := directoryLookupRequest (dc_list client page) in
      match listed with
      | None => walk_pages pages' client detail (S page)
      | Some (rows, hasMore) =>
          let? found := exactDirectoryCatalogRow rows detail in
          match found with
          | Some row => Ok row
          | None => if hasMore then walk_pages pages' client detail (S page) else Err DIRECTORY_INTEGRITY
          end
      end
  end.
Definition lookupDirectoryCatalogRow (client : DirectoryClient) (detail : DirectoryDetail) : api CatalogRow :=
  let owner := directorySearchOwner (dd_source detail) in
  let? found :=
    if (2 <=? length (code_points (dd_slug detail)))%nat then
      let? narrow := searched_row client {| so_q := dd_slug detail; so_owner := owner |} detail in
      match narrow, owner with
      | None, Some _ => searched_row client {| so_q := dd_slug detail; so_owner := None |} detail
      | _, _ => Ok narrow
      end
    else Ok None in
  match found with
  | Some row => Ok row
  | None => walk_pages DIRECTORY_METADATA_LOOKUP_MAX_PAGES client detail 0
  end.

(** The detail of one id with the row that names its source type, if one is
    needed; [allowed] is the test of the selected upstream, made before the
    catalog is searched. *)
Definition catalog_entry (client : DirectoryClient) (id : jstr) (allowed : jstr -> bool)
    : api (DirectoryDetail * option CatalogRow) :=
  let? resolution := resolveDirectoryDetail client id in
  let '(detail, catalogRow) := resolution in
  throw_if negb (consistent_identity id (dd_id detail) (dd_source detail) (dd_slug detail))
    with DIRECTORY_INTEGRITY ;;
  throw_if negb (allowed (dd_source detail)) with unavailable ;;
  match catalogRow with
  | Some row => Ok (detail, Some row)
  | None =>
      if bool_decide (dd_hash detail = None) || bool_decide (dd_files detail = None)
      then let? row := lookupDirectoryCatalogRow client detail in Ok (detail, Some row)
      else Ok (detail, None)
  end.

(** ** [createDirectoryImport] *)

Section DirectoryImport.
Context {DR : DateRuntime} {UT : UnicodeTables} {UR : UrlRuntime} {CO : Collation}.
Context (config : Configuration) (uconfig : UpstreamConfiguration).
Context (directoryForBase : jstr -> option DirectoryClient).
Abbreviation org := (cfg_organizationId config).

(** [upstream.baseUrl?.trim() || 'https://skills.sh'], as the URL prints it. *)
Definition skillsShDirectoryBaseUrl (upstream : Upstream) : jstr :=
  let raw := default (js "https://skills.sh") (non_empty (trim <$> us_baseUrl upstream)) in
  match parseURL raw with
  | Some parsed => strip_trailing_slash (url_href parsed)
  | None => raw
  end.
Definition isTrustedSkillsShBaseUrl (upstream : Upstream) : bool :=
  isTrustedFeedBaseUrl uconfig (Some (skillsShDirectoryBaseUrl upstream)).

(** [left.id.localeCompare(right.id)] as a comparator. *)
Definition by_id {A} (id : A -> jstr) (left right : A) : comparison :=
  Z.compare (localeCompare (id left) (id right)) 0.
Definition UPSTREAM_MAPPING_REQUIRED : RegistryApiError := api_error "UPSTREAM_MAPPING_REQUIRED" 409.

Definition cached_request_of (s : RegistryState) (id name version : jstr) (principal : Principal)
    (requestedUpstreamId : option jstr) (job : Job) : bool :=
  jeqb (jb_organizationId job) (pr_organizationId principal) && is_import job &&
  (active job || completed job) &&
  match jb_import job with
  | None => false
  | Some request =>
      bool_decide (iq_externalId request = Some id) && jeqb (iq_path request) id &&
      jeqb (iq_name request) name && jeqb (iq_version request) version &&
      agrees requestedUpstreamId (Some (iq_upstreamId request)) &&
      match find_first (fun upstream => jeqb (us_id upstream) (iq_upstreamId request)) (st_upstreams s) with
      | None => false
      | Some current => bool_decide (us_kind current = USkillsSh) && us_enabled current &&
                        canReadNamespace principal (us_namespace current) &&
                        upstreamAllowsImport current (iq_repository request)
      end
  end.
Definition findDirectoryCachedImportRequest (s : RegistryState) (id name version : jstr) (principal : Principal)
    (requestedUpstreamId : option jstr) : api (option ImportRequest) :=
  match js_sort (by_id jb_id)
          (List.filter (cached_request_of s id name version principal requestedUpstreamId) (st_jobs s)) with
  | [] => Ok None
  | [job] => Ok (jb_import job)
  | _ => Err UPSTREAM_MAPPING_REQUIRED
  end.
(** [{ ...request }] as the body of another request. *)
Definition optional_member (k : string) (o : option jstr) : list (jstr * jsval) :=
  match o with
  | Some s => [(js k, JStr s)]
  | None => []
  end.
Definition hash_value (h : SnapshotHash) : jsval :=
  match h with
  | HashAbsent => JUndef
  | HashNull => JNull
  | Hash s => JStr s
  end.
Definition request_body (request : ImportRequest) : jsval := JObj (
  [(js "upstreamId", JStr (iq_upstreamId request)); (js "path", JStr (iq_path request));
   (js "name", JStr (iq_name request)); (js "version", JStr (iq_version request))] ++
  optional_member "repository" (iq_repository request) ++ optional_member "ref" (iq_ref request) ++
  optional_member "externalId" (iq_externalId request) ++
  optional_member "externalSourceType" (enum_name <$> iq_externalSourceType request) ++
  [(js "externalSnapshotHash", hash_value (iq_externalSnapshotHash request))]).

Definition directory_import_body (selected : Upstream) (name version : jstr)
    (entry : DirectoryDetail * option CatalogRow) : jsval :=
  let '(detail, row) := entry in
  JObj ([(js "upstreamId", JStr (us_id selected)); (js "repository", JStr (dd_source detail));
         (js "path", JStr (dd_id detail)); (js "name", JStr name); (js "version", JStr version);
         (js "externalId", JStr (dd_id detail));
         (js "externalSnapshotHash", match dd_hash detail with Some h => JStr h | None => JNull end)] ++
        optional_member "externalSourceType" (cr_sourceType <$> row) ++
        optional_member "ref" (non_empty (dd_hash detail))).

(** What a directory import asks of [createImportJob]. *)
Definition directory_request (body : jsval) (principal : Principal) (state : RegistryState) : api jsval :=
  let? id := requireDirectoryId (match stringValue (field body "id") with Some s => JStr s | None => JUndef end) in
  let? name := requireSkillName (field body "name") in
  let? version := requireVersion (field body "version") in
  throw_if negb (canPublishName principal name) with FORBIDDEN ;;
  let? requestedUpstreamId := optionalImportField (field body "upstreamId") in
  let eligible := js_sort (by_id us_id)
    (List.filter (fun upstream => jeqb (us_organizationId upstream) org &&
                                  bool_decide (us_kind upstream = USkillsSh) && us_enabled upstream &&
                                  canReadNamespace principal (us_namespace upstream)) (st_upstreams state)) in
  let mapping upstreamId := find_first (fun upstream => jeqb (us_id upstream) upstreamId) eligible in
  let selected := match requestedUpstreamId with
                  | Some upstreamId => mapping upstreamId
                  | None => match eligible with
                            | [upstream] => Some upstream
                            | _ => None
                            end
                  end in
  throw_if bool_decide (requestedUpstreamId <> None) && negb (bool_decide (is_Some selected)) with unavailable ;;
  let? cached := findDirectoryCachedImportRequest state id name version principal requestedUpstreamId in
  match cached with
  | Some request =>
      let? upstream := require directoryUnavailable
        (match selected with Some upstream => Some upstream | None => mapping (iq_upstreamId request) end) in
      throw_if negb (isTrustedSkillsShBaseUrl upstream) with directoryUnavailable ;;
      Ok (request_body request)
  | None =>
      match selected with
      | None => Err (if bool_decide (eligible = []) then unavailable else UPSTREAM_MAPPING_REQUIRED)
      | Some upstream =>
          throw_if negb (isTrustedSkillsShBaseUrl upstream) with directoryUnavailable ;;
          let? client := require directoryUnavailable (directoryForBase (skillsShDirectoryBaseUrl upstream)) in
          let? entry := catalog_entry client id (fun source => upstreamAllowsImport upstream (Some source)) in
          Ok (directory_import_body upstream name version entry)
      end
  end.
(** [state] is read before the catalog is asked, [snapshot] by the import. *)
Definition createDirectoryImport (body : jsval) (principal : Principal) (requestId jobId auditId : jstr) (now : Z)
    (state snapshot current : RegistryState) : api (RegistryState * ImportAnswer) :=
  let? _ := requirePublisher principal in
  let? importBody := directory_request body principal state in
  answered import_answer
    (resolveOrQueueImport config importBody principal requestId jobId auditId now snapshot current).
End DirectoryImport.
