(* ===== verification/SourceImports.v ===== *)
(** * Imports by source reference and by catalog identity

    The two forms of [POST /v1/proxy/resolve] of packages/core/src/index.ts that
    name no release: a canonical source reference ([@github/owner/repo/path])
    and the external id of a catalog feed.  Both look for an import of the same
    source first, and queue one under a name derived from the source and a
    generated version. *)

From Stdlib Require Import ZArith Lia.
From stdpp Require Import base list strings sets.
From S2P Require Import Prelude Js Dates Contracts Web Access Names PolicyEval Resolve Provenance State.
From S2P Require Import Registry Feeds Imports Directory.

Local Open Scope Z_scope.

Definition INVALID_PROXY_REQUEST : RegistryApiError := api_error "INVALID_PROXY_REQUEST" 400.

(** ** The counter of one request *)

Definition MAX_REQUEST_DIAGNOSTIC_EVENTS : Z := 4096.
Record RequestUpstreamCounter : Type := {
  ct_events : Z;
  ct_catalog : Z;
  ct_source : Z;
  ct_queuedJobsCreated : Z;
  ct_overflow : bool;
}.
Inductive CounterEvent : Type := CatalogRequest | SourceRequest | QueuedJob.
Definition createRequestUpstreamCounter : RequestUpstreamCounter :=
  {| ct_events := 0; ct_catalog := 0; ct_source := 0; ct_queuedJobsCreated := 0; ct_overflow := false |}.
(** [record(kind)] and [recordQueuedJob()]. *)
Definition record_event (event : CounterEvent) (c : RequestUpstreamCounter) : RequestUpstreamCounter :=
  if MAX_REQUEST_DIAGNOSTIC_EVENTS <=? ct_events c
  then {| ct_events := ct_events c; ct_catalog := ct_catalog c; ct_source := ct_source c;
          ct_queuedJobsCreated := ct_queuedJobsCreated c; ct_overflow := true |}
  else {| ct_events := ct_events c + 1;
          ct_catalog := match event with CatalogRequest => ct_catalog c + 1 | _ => ct_catalog c end;
          ct_source := match event with SourceRequest => ct_source c + 1 | _ => ct_source c end;
          ct_queuedJobsCreated := match event with
                                  | QueuedJob => ct_queuedJobsCreated c + 1
                                  | _ => ct_queuedJobsCreated c
                                  end;
          ct_overflow := ct_overflow c |}.

(** ** The parsers *)

(** [field === undefined || typeof field === 'boolean'], as a boolean. *)
Definition parse_refresh (value : jsval) : api bool := parse_enabled false value INVALID_PROXY_REQUEST.

Definition isTransparentProxyRequest (body : jsval) : bool :=
  (negb (is_undef (field body "externalId")) || negb (is_undef (field body "feed"))) &&
  is_undef (field body "path").

Definition reference_part (part : jstr) : bool :=
  negb (jeqb part (js ".")) && negb (jeqb part (js "..")) && (jlen part <=? 512) && safe_part part.
Definition parseCanonicalSourceReference (reference : jstr) : api CanonicalSourceIdentity :=
  throw_if (2048 <? jlen reference) || negb (isWellFormedUnicodeString reference) ||
           existsb (fun c => control_unit c || (c =? 92) || (c =? 63) || (c =? 35) || (c =? 37)) reference ||
           negb (startsWith (js "@") reference) with INVALID_PROXY_REQUEST ;;
  let parts := split 47 (drop 1 reference) in
  throw_if (length parts <? 3)%nat || existsb (fun part => negb (reference_part part)) parts
    with INVALID_PROXY_REQUEST ;;
  match parts with
  | provider :: owner :: repository :: path =>
      throw_if negb (jeqb provider (js "github")) with INVALID_PROXY_REQUEST ;;
      Ok {| cs_provider := ProviderGithub; cs_host := js "github.com";
            cs_repository := owner ++ js "/" ++ repository; cs_path := join (js "/") path;
            cs_revision := None |}
  | _ => Err INVALID_PROXY_REQUEST
  end.

Record SourceReferenceRequest : Type := {
  sq_reference : jstr;
  sq_revision : option jstr;
  sq_refresh : bool;
}.
Definition parseSourceReferenceRequest (body : jsval) : api SourceReferenceRequest :=
  throw_if unsupported_field ["reference"; "revision"; "refresh"]%string body with INVALID_PROXY_REQUEST ;;
  let? reference := require INVALID_PROXY_REQUEST (stringValue (field body "reference")) in
  let? _ := parseCanonicalSourceReference reference in
  let? revision :=
    match field body "revision" with
    | JUndef => Ok None
    | v => let? text := require INVALID_PROXY_REQUEST (stringValue v) in
           throw_if negb (commit_pattern text) with INVALID_PROXY_REQUEST ;; Ok (Some text)
    end in
  let? refresh := parse_refresh (field body "refresh") in
  Ok {| sq_reference := reference; sq_revision := revision; sq_refresh := refresh |}.

Record TransparentProxyRequest : Type := {
  tq_feed : option jstr;
  tq_externalId : jstr;
  tq_refresh : bool;
}.
Definition parseTransparentProxyRequest (body : jsval) : api TransparentProxyRequest :=
  throw_if unsupported_field ["feed"; "externalId"; "refresh"]%string body with INVALID_PROXY_REQUEST ;;
  let? feed := present (field body "feed") requireFeedName in
  let? externalId := requireDirectoryId (field body "externalId") in
  let? refresh := parse_refresh (field body "refresh") in
  Ok {| tq_feed := feed; tq_externalId := externalId; tq_refresh := refresh |}.

(** ** Names and versions *)

(** [digest.slice('sha256:'.length, 'sha256:'.length + 48)]. *)
Definition short_digest (digest : jstr) : jstr := take 48 (drop (length (js "sha256:")) digest).
Definition sourceManagedName {CR : Crypto} (upstream : Upstream) (source : CanonicalSourceIdentity) : jstr :=
  let provider := match cs_provider source with
                  | ProviderGithub => js "github"
                  | ProviderWellKnown => js "well-known"
                  | ProviderSnapshot => js "snapshot"
                  end in
  let digest := digestBytes (textEncode (js "source:" ++ provider ++ js ":" ++ cs_host source ++ js ":" ++
                                         cs_repository source ++ js ":" ++ cs_path source)) in
  let namespace := if startsWith (js "@") (us_namespace upstream) then drop 1 (us_namespace upstream)
                   else us_namespace upstream in
  js "@" ++ namespace ++ js "/source-" ++ short_digest digest.
Definition transparentManagedName {CR : Crypto} (namespace externalId : jstr) : jstr :=
  namespace ++ js "/skills-sh-" ++ short_digest (digestBytes (textEncode (js "skills.sh:" ++ externalId))).
(** From the text [randomId('revision')] returned. *)
Definition generatedTransparentVersion {UT : UnicodeTables} (random : jstr) : jstr :=
  let suffix := toLowerCase (List.filter (fun c => is_alnum c || (c =? 45)) random) in
  let suffix := drop (length suffix - 40) suffix in
  js "0.0.0+skills-sh." ++ match suffix with [] => js "revision" | _ => suffix end.

Section Sources.
Context {DR : DateRuntime} {UT : UnicodeTables} {UR : UrlRuntime} {CO : Collation} {CR : Crypto}.

(** Newest first: [right.createdAt.localeCompare(left.createdAt) ||
    right.id.localeCompare(left.id)]. *)
Definition newest_first (left right : Job) : comparison :=
  match Z.compare (localeCompare (jb_createdAt right) (jb_createdAt left)) 0 with
  | Eq => Z.compare (localeCompare (jb_id right) (jb_id left)) 0
  | c => c
  end.

(** ** Canonical sources *)

Definition snapshot_source (externalId : jstr) : CanonicalSourceIdentity :=
  {| cs_provider := ProviderSnapshot; cs_host := js "skills.sh"; cs_repository := js "skills.sh";
     cs_path := externalId; cs_revision := None |}.
(** The catalog snapshot a record names consistently. *)
Definition snapshot_identity (pv : Provenance) : option CanonicalSourceIdentity :=
  match non_empty (pv_externalId pv) with
  | Some externalId =>
      if bool_decide (pv_kind pv = PKSkillsSh) && isSafeDirectoryExternalValue externalId &&
         bool_decide (pv_path pv = Some externalId)
      then Some (snapshot_source externalId) else None
  | None => None
  end.
Definition github_identity (pv : Provenance) : option CanonicalSourceIdentity :=
  match non_empty (pv_repository pv), pv_resolvedCommit pv with
  | Some repository, Some commit =>
      if bool_decide (verifiedSourceOrigin (pv_sourceProviderOrigin pv) = Some (js "github.com")) &&
         commit_pattern commit
      then
        match (if bool_decide (pv_kind pv = PKSkillsSh) then pv_skillPath pv else pv_path pv) with
        | Some path =>
            if isSafeSourcePath path && isSafeRepository repository
            then Some {| cs_provider := ProviderGithub; cs_host := js "github.com";
                         cs_repository := repository; cs_path := path; cs_revision := Some commit |}
            else None
        | None => None
        end
      else None
  | _, _ => None
  end.
Definition well_known_identity (pv : Provenance) : option CanonicalSourceIdentity :=
  match non_empty (verifiedSourceOrigin (pv_sourceProviderOrigin pv)), non_empty (pv_repository pv) with
  | Some _, Some _ =>
      if isCommit (pv_resolvedCommit pv) || isDigest (default [] (pv_externalDigest pv))
      then wellKnownCanonicalFromProvenance pv else None
  | _, _ => None
  end.
(** The source of a release; its [digest] is the artifact's. *)
Definition canonicalSourceFromSkill (skill : SkillVersion) : option CanonicalSourceIdentity :=
  let pv := sk_provenance skill in
  match pv_sourceResolutionKind pv with
  | Some SRSnapshot => snapshot_identity pv
  | Some SRGithub => github_identity pv
  | Some SRWellKnown => match well_known_identity pv with
                        | Some canonical => Some canonical
                        | None => snapshot_identity pv
                        end
  | None => None
  end.
Definition sourceIdentityMatches (actual requested : CanonicalSourceIdentity) (requestedRevision : option jstr)
    : bool :=
  bool_decide (cs_provider actual = cs_provider requested) && jeqb (cs_host actual) (cs_host requested) &&
  jeqb (cs_repository actual) (cs_repository requested) && jeqb (cs_path actual) (cs_path requested) &&
  agrees requestedRevision (cs_revision actual).

(** ** Requests by source reference *)

Definition sourceHostMatchesUpstream (host : jstr) (upstream : Upstream) : bool :=
  match non_empty (us_baseUrl upstream) with
  | None => jeqb host (js "github.com")
  | Some base => match parseURL base with
                 | Some parsed => jeqb (toLowerCase (url_hostname parsed)) (toLowerCase host)
                 | None => false
                 end
  end.
(** The literal of a provider; no upstream has kind 'well-known' or
    'snapshot'. *)
Definition provider_kind (provider : SourceProvider) : option UpstreamKind :=
  match provider with
  | ProviderGithub => Some UGithub
  | _ => None
  end.
Definition findSourceReferenceUpstream (s : RegistryState) (source : CanonicalSourceIdentity)
    (principal : Principal) : api Upstream :=
  match js_sort (by_id us_id)
          (List.filter (fun upstream =>
             jeqb (us_organizationId upstream) (pr_organizationId principal) &&
             bool_decide (Some (us_kind upstream) = provider_kind (cs_provider source)) &&
             us_enabled upstream && canReadNamespace principal (us_namespace upstream) &&
             upstreamAllowsImport upstream (Some (cs_repository source)) &&
             sourceHostMatchesUpstream (cs_host source) upstream) (st_upstreams s)) with
  | [] => Err unavailable
  | [upstream] => Ok upstream
  | _ => Err UPSTREAM_MAPPING_REQUIRED
  end.

Inductive SourceResult : Type :=
| SourceAccepted (job : Job)
| SourceResolved (job : Job) (resolution : Resolution) (source : CanonicalSourceIdentity).

(** The imports of one source, newest first. *)
Definition source_job (organizationId : jstr) (source : CanonicalSourceIdentity) (upstream : Upstream)
    (managedName : jstr) (job : Job) : bool :=
  jeqb (jb_organizationId job) organizationId && is_import job &&
  match jb_import job with
  | Some request => jeqb (iq_upstreamId request) (us_id upstream) &&
                    bool_decide (iq_repository request = Some (cs_repository source)) &&
                    jeqb (iq_path request) (cs_path source) && jeqb (iq_name request) managedName
  | None => false
  end &&
  match jb_upstream job with
  | Some u => sameUpstreamOrigin u upstream
  | None => false
  end.
Definition source_candidates (organizationId : jstr) (source : CanonicalSourceIdentity) (upstream : Upstream)
    (managedName : jstr) (s : RegistryState) : list Job :=
  js_sort newest_first (List.filter (source_job organizationId source upstream managedName) (st_jobs s)).
(** The release of a completed import that answers the request. *)
Definition source_release (s : RegistryState) (source : CanonicalSourceIdentity) (revision : option jstr)
    (allowed : SkillVersion -> bool) (now : Z) (job : Job) : option SourceResult :=
  match (if completed job then non_empty (jb_resourceId job) else None) with
  | None => None
  | Some resourceId =>
      match find_skill s resourceId with
      | None => None
      | Some skill =>
          if allowed skill && skillCurrentlyApproved s skill now then
            match canonicalSourceFromSkill skill with
            | Some canonical => if sourceIdentityMatches canonical source revision
                                then Some (SourceResolved job (skillResolution skill) canonical) else None
            | None => None
            end
          else None
      end
  end.
Fixpoint first_some {A B} (f : A -> option B) (l : list A) : option B :=
  match l with
  | [] => None
  | x :: l' => match f x with
               | Some b => Some b
               | None => first_some f l'
               end
  end.
Definition findSourceCachedResult (s : RegistryState) (source : CanonicalSourceIdentity)
    (requestedRevision : option jstr) (upstream : Upstream) (managedName : jstr) (principal : Principal)
    (now : Z) : option SourceResult :=
  first_some (fun job =>
    if active job then Some (SourceAccepted job)
    else source_release s source requestedRevision (fun skill => canReadNamespace principal (sk_name skill))
           now job)
    (source_candidates (pr_organizationId principal) source upstream managedName s).

(** What [sourceReferenceResponse] says of the source; [sn_digest] is the digest
    of the source it prints. *)
Record SourceAnswer : Type := {
  sn_status : Z;
  sn_reference : jstr;
  sn_source : option CanonicalSourceIdentity;
  sn_digest : option jstr;
  sn_operation : option Job;
  sn_resolution : option Resolution;
}.
Definition at_revision (source : CanonicalSourceIdentity) (revision : option jstr) : CanonicalSourceIdentity :=
  match revision with
  | None => source
  | Some r => {| cs_provider := cs_provider source; cs_host := cs_host source;
                 cs_repository := cs_repository source; cs_path := cs_path source; cs_revision := Some r |}
  end.
Definition sourceReferenceResponse (result : SourceResult) (requested : CanonicalSourceIdentity)
    (requestedRevision : option jstr) : SourceAnswer :=
  match result with
  | SourceResolved _ resolution canonical =>
      {| sn_status := 200; sn_reference := sourceReferenceFromCanonical canonical; sn_source := Some canonical;
         sn_digest := Some (rs_digest resolution); sn_operation := None; sn_resolution := Some resolution |}
  | SourceAccepted job =>
      {| sn_status := 202; sn_reference := sourceReferenceFromCanonical (at_revision requested requestedRevision);
         sn_source := match requestedRevision with
                      | Some _ => Some (at_revision requested requestedRevision)
                      | None => None
                      end;
         sn_digest := None; sn_operation := Some job; sn_resolution := None |}
  end.

Context (config : Configuration).
Abbreviation org := (cfg_organizationId config).

(** [randomId] and the clock of one transaction. *)
Record ImportIds : Type := {
  id_random : jstr;
  id_jobId : jstr;
  id_auditId : jstr;
}.
Definition source_request (source : CanonicalSourceIdentity) (requestedRevision : option jstr)
    (managedName : jstr) (upstream : Upstream) (random : jstr) : ImportRequest := {|
  iq_upstreamId := us_id upstream; iq_repository := Some (cs_repository source); iq_path := cs_path source;
  iq_ref := requestedRevision; iq_name := managedName; iq_version := generatedTransparentVersion random;
  iq_externalId := None; iq_externalSourceType := None; iq_externalSnapshotHash := HashAbsent;
  iq_feedId := None; iq_feedName := None; iq_feedConfigRevision := None;
  iq_sourceReference := Some (sourceReferenceFromCanonical (at_revision source requestedRevision));
  iq_sourceCatalogId := None; iq_sourceCatalogConfigRevision := None;
  iq_sourceCatalogProviderVersion := None |}.
(** The updater of [queueSourceReferenceImport]. *)
Definition source_commit (source : CanonicalSourceIdentity) (requestedRevision : option jstr) (refresh : bool)
    (managedName : jstr) (upstream : Upstream) (principal : Principal) (requestId : jstr) (ids : ImportIds)
    (now : Z) (fallback : Policy) (current : RegistryState) : api (RegistryState * SourceResult) :=
  let? mutable := ensureState (Some current) fallback in
  let? mapping := require PROVENANCE_CONFLICT
    (find_first (fun candidate => jeqb (us_id candidate) (us_id upstream)) (st_upstreams mutable)) in
  throw_if negb (us_enabled mapping) || negb (sameUpstreamOrigin mapping upstream) ||
           negb (canReadNamespace principal (us_namespace mapping)) with PROVENANCE_CONFLICT ;;
  (* candidates are selected by the id of the upstream and the origin it has now *)
  let candidates := source_candidates org source mapping managedName mutable in
  match find_first active candidates with
  | Some job => Ok (mutable, SourceAccepted job)
  | None =>
      match (if refresh then None
             else first_some (source_release mutable source requestedRevision (fun _ => true) now) candidates) with
      | Some result => Ok (mutable, result)
      | None =>
          let job := import_job config (id_jobId ids)
                       (source_request source requestedRevision managedName upstream (id_random ids)) mapping now
                       mutable in
          Ok (appendAudit (audit org principal (id_auditId ids) now (js "source.proxy.queued") (jb_id job)
                [(js "reference", str (sourceReferenceFromCanonical (at_revision source requestedRevision)));
                 (js "upstreamId", str (us_id upstream)); (js "refresh", JBool refresh);
                 (js "requestId", str requestId)]) (queue_job job mutable), SourceAccepted job)
      end
  end.
(** [state] is read by the request, [snapshot] before the transaction. *)
Definition resolveSourceReferenceRequest (body : jsval) (principal : Principal) (requestId : jstr)
    (ids : ImportIds) (readNow now : Z) (state snapshot current : RegistryState)
    : api (RegistryState * SourceAnswer) :=
  let? _ := requireReader principal in
  let? _ := requireRouteScopes principal (js_list ["proxy:resolve"]%string) in
  let? request := parseSourceReferenceRequest body in
  let? source := parseCanonicalSourceReference (sq_reference request) in
  let? upstream := findSourceReferenceUpstream state source principal in
  let managedName := sourceManagedName upstream source in
  match (if sq_refresh request then None
         else findSourceCachedResult state source (sq_revision request) upstream managedName principal readNow) with
  | Some cached => Ok (current, sourceReferenceResponse cached source (sq_revision request))
  | None =>
      let? committed := source_commit source (sq_revision request) (sq_refresh request) managedName upstream
                          principal requestId ids now (st_policy snapshot) current in
      Ok (committed.1, sourceReferenceResponse committed.2 source (sq_revision request))
  end.
End Sources.
