(* ===== verification/FeedImports.v ===== *)
(** * Imports by catalog identity

    The transparent form of [POST /v1/proxy/resolve] of packages/core/src/index.ts:
    the external id of a catalog feed is answered from an import of the same
    identity under the feed's current configuration, or queued.  The directory
    client of the feed is injected. *)

From Stdlib Require Import ZArith Lia.
From stdpp Require Import base list strings sets.
From S2P Require Import Prelude Js Dates Contracts Web Access Names PolicyEval Resolve Provenance State.
From S2P Require Import Registry Feeds Imports Directory SourceImports.

Local Open Scope Z_scope.

Section Transparent.
Context {DR : DateRuntime} {UT : UnicodeTables} {UR : UrlRuntime} {CO : Collation} {CR : Crypto}.
Context (config : Configuration) (uconfig : UpstreamConfiguration).
Abbreviation org := (cfg_organizationId config).

(** ** [findTransparentFeed] *)

Definition findTransparentFeed (s : RegistryState) (name : option jstr) (principal : Principal) : api Feed :=
  let candidates := List.filter (fun candidate =>
    jeqb (fd_organizationId candidate) (pr_organizationId principal) &&
    agrees name (Some (fd_name candidate))) (feeds s) in
  let enabledCandidates := List.filter fd_enabled candidates in
  throw_if bool_decide (name = None) && (1 <? length enabledCandidates)%nat with api_error "FEED_REQUIRED" 409 ;;
  let? feed := require (api_error "FEED_NOT_FOUND" 404)
    (head (match name with None => enabledCandidates | Some _ => candidates end)) in
  throw_if negb (fd_enabled feed) with api_error "FEED_DISABLED" 409 ;;
  let? _ := assertTrustedFeedBaseUrl uconfig feed in
  throw_if negb (canReadNamespace principal (feedNamespace feed)) with FORBIDDEN ;;
  Ok feed.

(** ** Answers from what was imported *)

Inductive TransparentResult : Type :=
| TransparentAccepted (job : Job)
| TransparentResolved (job : Job) (skill : SkillVersion).

(** The imports of one identity under the feed's configuration. *)
Definition transparent_job (externalId : jstr) (upstream : Upstream) (principal : Principal) (job : Job) : bool :=
  jeqb (jb_organizationId job) (pr_organizationId principal) && is_import job &&
  match jb_import job with
  | None => false
  | Some request =>
      bool_decide (iq_externalId request = Some externalId) && jeqb (iq_path request) externalId &&
      jeqb (iq_upstreamId request) (us_id upstream) &&
      bool_decide (iq_feedId request = Some (us_id upstream)) &&
      bool_decide (iq_feedName request = Some (us_name upstream)) &&
      bool_decide (iq_feedConfigRevision request = us_configRevision upstream) &&
      match jb_upstream job with
      | Some u => sameUpstreamOrigin u upstream
      | None => false
      end &&
      upstreamAllowsImport upstream (iq_repository request) && canReadNamespace principal (iq_name request)
  end.
(** A scan of the release that is not finished. *)
Definition active_scan (organizationId resourceId : jstr) (s : RegistryState) : option Job :=
  find_first (fun candidate => jeqb (jb_organizationId candidate) organizationId &&
                               bool_decide (jb_kind candidate = ScanJob) &&
                               bool_decide (jb_resourceId candidate = Some resourceId) && active candidate)
    (st_jobs s).
Definition cached_release (s : RegistryState) (upstream : Upstream) (principal : Principal) (now : Z)
    (job : Job) : option TransparentResult :=
  match (if completed job then non_empty (jb_resourceId job) else None), jb_import job with
  | Some resourceId, Some request =>
      match find_skill s resourceId with
      | None => None
      | Some skill =>
          if negb (canReadNamespace principal (sk_name skill)) then None
          else
            match (if bool_decide (sk_state skill = Pending)
                   then active_scan (pr_organizationId principal) (sk_id skill) s else None) with
            | Some scanJob => Some (TransparentAccepted scanJob)
            | None =>
                if skillCurrentlyApproved s skill now && importProvenanceMatches skill request upstream
                then Some (TransparentResolved job skill) else None
            end
      end
  | _, _ => None
  end.
Definition findTransparentCachedResult (s : RegistryState) (externalId : jstr) (upstream : Upstream)
    (principal : Principal) (now : Z) : option TransparentResult :=
  if negb (isTrustedFeedBaseUrl uconfig (us_baseUrl upstream)) then None
  else first_some (fun job => if active job then Some (TransparentAccepted job)
                              else cached_release s upstream principal now job)
         (js_sort newest_first (List.filter (transparent_job externalId upstream principal) (st_jobs s))).

(** ** [transparentProxyResponse] *)

Record TransparentAnswer : Type := {
  ta_status : Z;
  ta_feed : jstr;
  ta_externalId : jstr;
  ta_reference : option jstr;
  ta_source : option CanonicalSourceIdentity;
  ta_diagnostics : option RequestUpstreamCounter;
  ta_resolution : option Resolution;
  ta_operation : option Job;
}.
Definition canReadTransparentDiagnostics (principal : Principal) : api bool :=
  if negb (hasRole principal Owner) && negb (hasRole principal Admin) then Ok false
  else hasAnyScope principal [js "registry:admin"].
Definition transparentProxyResponse (result : TransparentResult) (feed : Feed) (externalId : jstr)
    (principal : Principal) (counter : RequestUpstreamCounter) : api TransparentAnswer :=
  let source := match result with
                | TransparentResolved _ skill => canonicalSourceFromSkill skill
                | TransparentAccepted _ => None
                end in
  let? readable := canReadTransparentDiagnostics principal in
  Ok {| ta_status := match result with TransparentResolved _ _ => 200 | TransparentAccepted _ => 202 end;
        ta_feed := fd_name feed; ta_externalId := externalId;
        ta_reference := sourceReferenceFromCanonical <$> source; ta_source := source;
        ta_diagnostics := if readable then Some counter else None;
        ta_resolution := match result with
                         | TransparentResolved _ skill => Some (skillResolution skill)
                         | TransparentAccepted _ => None
                         end;
        ta_operation := match result with
                        | TransparentAccepted job => Some job
                        | TransparentResolved _ _ => None
                        end |}.

(** ** [queueTransparentImport] *)

(** The request of a catalog row; the version is drawn when it is queued. *)
Definition transparent_template (feed : Feed) (detail : DirectoryDetail) (row : option CatalogRow)
    (externalId version : jstr) : ImportRequest := {|
  iq_upstreamId := fd_id feed; iq_repository := Some (dd_source detail); iq_path := externalId; iq_ref := None;
  iq_name := transparentManagedName (feedNamespace feed) externalId; iq_version := version;
  iq_externalId := Some externalId;
  iq_externalSourceType := match row with Some r => source_type r | None => None end;
  iq_externalSnapshotHash := match dd_hash detail with Some h => Hash h | None => HashNull end;
  iq_feedId := Some (fd_id feed); iq_feedName := Some (fd_name feed);
  iq_feedConfigRevision := Some (fd_configRevision feed); iq_sourceReference := None;
  iq_sourceCatalogId := None; iq_sourceCatalogConfigRevision := None;
  iq_sourceCatalogProviderVersion := None |}.
Definition with_iq_version (version : jstr) (request : ImportRequest) : ImportRequest := {|
  iq_upstreamId := iq_upstreamId request; iq_repository := iq_repository request; iq_path := iq_path request;
  iq_ref := iq_ref request; iq_name := iq_name request; iq_version := version;
  iq_externalId := iq_externalId request; iq_externalSourceType := iq_externalSourceType request;
  iq_externalSnapshotHash := iq_externalSnapshotHash request; iq_feedId := iq_feedId request;
  iq_feedName := iq_feedName request; iq_feedConfigRevision := iq_feedConfigRevision request;
  iq_sourceReference := iq_sourceReference request; iq_sourceCatalogId := iq_sourceCatalogId request;
  iq_sourceCatalogConfigRevision := iq_sourceCatalogConfigRevision request;
  iq_sourceCatalogProviderVersion := iq_sourceCatalogProviderVersion request |}.

Definition template_job (template : ImportRequest) (upstream : Upstream) (job : Job) : bool :=
  jeqb (jb_organizationId job) org && is_import job &&
  match jb_import job with
  | None => false
  | Some request =>
      bool_decide (iq_externalId request = iq_externalId template) && jeqb (iq_path request) (iq_path template) &&
      jeqb (iq_upstreamId request) (iq_upstreamId template) &&
      bool_decide (iq_feedId request = iq_feedId template) &&
      bool_decide (iq_feedName request = iq_feedName template) &&
      bool_decide (iq_feedConfigRevision request = iq_feedConfigRevision template) &&
      bool_decide (iq_repository request = iq_repository template) &&
      bool_decide (iq_externalSourceType request = iq_externalSourceType template) &&
      bool_decide (iq_externalSnapshotHash request = iq_externalSnapshotHash template)
  end &&
  match jb_upstream job with
  | Some u => sameUpstreamOrigin u upstream
  | None => false
  end.
Definition template_release (s : RegistryState) (template : ImportRequest) (upstream : Upstream)
    (refresh : bool) (now : Z) (job : Job) : option TransparentResult :=
  match (if completed job then non_empty (jb_resourceId job) else None), jb_import job with
  | Some resourceId, Some request =>
      match find_skill s resourceId with
      | None => None
      | Some skill =>
          if negb (skillCurrentlyApproved s skill now) then
            TransparentAccepted <$> active_scan org (sk_id skill) s
          else if importProvenanceMatches skill request upstream &&
                  (negb refresh || negb (bool_decide (iq_externalSnapshotHash template = HashNull)))
          then Some (TransparentResolved job skill) else None
      end
  | _, _ => None
  end.
(** The updater; [upstream] is the feed as it was read just before. *)
Definition transparent_commit (template : ImportRequest) (feed : Feed) (upstream : Upstream) (refresh : bool)
    (principal : Principal) (requestId : jstr) (ids : ImportIds) (now : Z) (fallback : Policy)
    (current : RegistryState) : api (RegistryState * TransparentResult * bool) :=
  let? mutable := ensureState (Some current) fallback in
  let? currentFeed := require PROVENANCE_CONFLICT
    (find_first (fun candidate => jeqb (fd_id candidate) (fd_id feed)) (feeds mutable)) in
  throw_if negb (jeqb (fd_name currentFeed) (fd_name feed)) || negb (fd_enabled currentFeed) ||
           negb (canReadNamespace principal (feedNamespace currentFeed)) with PROVENANCE_CONFLICT ;;
  let? _ := assertTrustedFeedBaseUrl uconfig currentFeed in
  let currentUpstream := feedAsUpstream currentFeed in
  throw_if negb (sameUpstreamOrigin currentUpstream upstream) with PROVENANCE_CONFLICT ;;
  let candidates := js_sort newest_first (List.filter (template_job template currentUpstream) (st_jobs mutable)) in
  match find_first active candidates with
  | Some job => Ok (mutable, TransparentAccepted job, false)
  | None =>
      match first_some (template_release mutable template currentUpstream refresh now) candidates with
      | Some result => Ok (mutable, result, false)
      | None =>
          let request := with_iq_version (generatedTransparentVersion (id_random ids)) template in
          let job := import_job config (id_jobId ids) request currentUpstream now mutable in
          Ok (appendAudit (audit org principal (id_auditId ids) now (js "skill.proxy.queued") (jb_id job)
                [(js "externalId", str (default [] (iq_externalId template)));
                 (js "feed", str (default [] (iq_feedName template)));
                 (js "feedId", str (default [] (iq_feedId template)));
                 (js "feedConfigRevision", str (default [] (iq_feedConfigRevision template)));
                 (js "upstreamId", str (iq_upstreamId template)); (js "version", str (iq_version request));
                 (js "refresh", JBool refresh); (js "requestId", str requestId)])
                (queue_job job mutable), TransparentAccepted job, true)
      end
  end.
Definition queueTransparentImport (template : ImportRequest) (feed : Feed) (refresh : bool)
    (principal : Principal) (requestId : jstr) (ids : ImportIds) (now : Z) (counter : RequestUpstreamCounter)
    (snapshot current : RegistryState)
    : api (RegistryState * TransparentResult * RequestUpstreamCounter) :=
  let? configuredFeed := require PROVENANCE_CONFLICT
    (find_first (fun candidate => jeqb (fd_id candidate) (fd_id feed)) (feeds snapshot)) in
  throw_if negb (jeqb (fd_name configuredFeed) (fd_name feed)) || negb (fd_enabled configuredFeed)
    with PROVENANCE_CONFLICT ;;
  let? committed := transparent_commit template feed (feedAsUpstream configuredFeed) refresh principal requestId
                      ids now (st_policy snapshot) current in
  let '(s', result, created) := committed in
  Ok (s', result, if created then record_event QueuedJob counter else counter).

(** [state] is read by the request, [snapshot] after the directory answered;
    [observed] are the upstream requests the directory client reported. *)
Definition resolveTransparentProxyRequest (body : jsval) (principal : Principal) (requestId : jstr)
    (ids : ImportIds) (readNow now : Z) (directoryForBase : jstr -> option DirectoryClient)
    (observed : list CounterEvent) (state snapshot current : RegistryState)
    : api (RegistryState * TransparentAnswer) :=
  let? _ := requireReader principal in
  let? _ := requireRouteScopes principal (js_list ["proxy:resolve"]%string) in
  let? request := parseTransparentProxyRequest body in
  let? feed := findTransparentFeed state (tq_feed request) principal in
  let upstream := feedAsUpstream feed in
  match (if tq_refresh request then None
         else findTransparentCachedResult state (tq_externalId request) upstream principal readNow) with
  | Some cached =>
      let? answer := transparentProxyResponse cached feed (tq_externalId request) principal
                       createRequestUpstreamCounter in
      Ok (current, answer)
  | None =>
      let? directory := require directoryUnavailable (directoryForBase (fd_baseUrl feed)) in
      let? entry := catalog_entry directory (tq_externalId request)
                      (fun source => upstreamAllowsImport upstream (Some source)) in
      let template := transparent_template feed entry.1 entry.2 (tq_externalId request) [] in
      let counter := foldl (fun c event => record_event event c) createRequestUpstreamCounter observed in
      let? queued := queueTransparentImport template feed (tq_refresh request) principal requestId ids now counter
                       snapshot current in
      let '(s', result, counter) := queued in
      let? answer := transparentProxyResponse result feed (tq_externalId request) principal counter in
      Ok (s', answer)
  end.
End Transparent.
