(* ===== verification/CatalogImports.v ===== *)
(** * Imports that a catalog queues

    Three more transactions of packages/core/src/index.ts on the registry's
    document, and one of apps/web/server/bootstrap-adoption.ts: the import of an
    entry of a trusted OpenClaw feed ([createOpenClawImportQueue], with the
    normalization of packages/openclaw/src/feed.ts), the import of a source that
    a federated catalog resolved ([resolveSourceCatalogRequest],
    [queueSourceCatalogImport]), the record of a published feed
    ([refreshOpenClawPublication]) and that of an adopted organization.  Unlike
    the requests of [Imports], the first two name the release themselves, from a
    digest of its source, and carry a descriptor of the source that a worker
    reads ([jb_openclawSource], [jb_sourceAcquisition]).  The catalog client is
    injected: what it answers is an argument. *)

From Stdlib Require Import ZArith Lia SpecFloat.
From stdpp Require Import base list strings sets.
From S2P Require Import Prelude Js Dates Numbers Json Wire Contracts Web Access Names PolicyEval Resolve Provenance.
From S2P Require Import OpenClawFeed State Registry Feeds Imports Directory SourceImports FeedImports.

Local Open Scope Z_scope.

(** ** [stableStringify] of any value

    [None] is [undefined], which an array joins as the empty text and a template
    prints. *)
Fixpoint stableStringifyValue (v : jsval) : option jstr :=
  match v with
  | JArr l => Some (91 :: join [44] ((fun x => default [] (stableStringifyValue x)) <$> l) ++ [93])
  | JObj l =>
      Some (123 :: join [44] ((fun kv => quote kv.1 ++ 58 :: kv.2) <$>
        js_sort (fun a b => jcompare a.1 b.1)
          ((fun kv => (kv.1, default (js "undefined") (stableStringifyValue kv.2))) <$> l)) ++ [125])
  | _ => json_stringify v
  end.
Definition same_value (left right : jsval) : bool :=
  bool_decide (stableStringifyValue left = stableStringifyValue right).
(** The text of an object, which is never [undefined]. *)
Definition stable_text (v : jsval) : jstr := default [] (stableStringifyValue v).
Definition member (key : string) (value : option jstr) : list (jstr * jsval) :=
  match value with
  | Some s => [(js key, JStr s)]
  | None => []
  end.

(** [digest.slice('sha256:'.length, 'sha256:'.length + n)]. *)
Definition digest_slice (n : nat) (digest : jstr) : jstr := take n (drop (length (js "sha256:")) digest).

(** ** Entries of an OpenClaw feed *)

Inductive OpenClawEntryType : Type := EntryPlugin | EntrySkill.
#[export] Instance OpenClawEntryType_eq_dec : EqDecision OpenClawEntryType.
Proof. solve_decision. Defined.
#[export] Instance OpenClawEntryType_enum : StringEnum OpenClawEntryType := {|
  enum_values := [EntryPlugin; EntrySkill];
  enum_name v := match v with EntryPlugin => js "plugin" | EntrySkill => js "skill" end |}.
Inductive OpenClawFeedState : Type :=
  FeedAvailable | FeedRecommended | FeedDisabled | FeedBlocked | FeedDeprecated.
#[export] Instance OpenClawFeedState_eq_dec : EqDecision OpenClawFeedState.
Proof. solve_decision. Defined.
#[export] Instance OpenClawFeedState_enum : StringEnum OpenClawFeedState := {|
  enum_values := [FeedAvailable; FeedRecommended; FeedDisabled; FeedBlocked; FeedDeprecated];
  enum_name v := match v with
    | FeedAvailable => js "available"
    | FeedRecommended => js "recommended"
    | FeedDisabled => js "disabled"
    | FeedBlocked => js "blocked"
    | FeedDeprecated => js "deprecated"
    end |}.
Record OpenClawGithubSource : Type := {
  og_repo : jstr;
  og_path : jstr;
  og_commit : jstr;
  og_contentHash : jstr;
}.
Record OpenClawInstallCandidate : Type := {
  oc_sourceRef : jstr;
  oc_package : jstr;
  oc_version : jstr;
  oc_integrity : jstr;
  oc_github : option OpenClawGithubSource;
}.
Record OpenClawFeedEntry : Type := {
  oe_type : OpenClawEntryType;
  oe_id : jstr;
  oe_title : jstr;
  oe_description : option jstr;
  oe_icon : option jstr;
  oe_version : jstr;
  oe_state : OpenClawFeedState;
  oe_featured : option bool;
  oe_featuredAt : option spec_float;
  oe_publisherId : jstr;
  oe_publisherTrust : jstr;
  oe_candidates : list OpenClawInstallCandidate;
}.
(** [OpenClawNormalizedSource]: a hosted package, or a folder of a
    repository. *)
Inductive OpenClawNormalizedSource : Type :=
| HostedSource (packageName version artifactDigest : jstr)
| FolderSource (repo path commit contentHash : jstr).
Record OpenClawNormalizedCandidate : Type := {
  on_entryId : jstr;
  on_entryType : OpenClawEntryType;
  on_publisherId : jstr;
  on_publisherTrust : jstr;
  on_candidate : OpenClawInstallCandidate;
  on_source : OpenClawNormalizedSource;
}.
Definition OPENCLAW_SOURCE_CLAWHUB : jstr := js "public-clawhub".
Definition OPENCLAW_SOURCE_GITHUB : jstr := js "public-github".

(** The values of these records, as they are stored. *)
Definition source_kind (source : OpenClawNormalizedSource) : jstr :=
  match source with
  | HostedSource _ _ _ => OPENCLAW_SOURCE_CLAWHUB
  | FolderSource _ _ _ _ => OPENCLAW_SOURCE_GITHUB
  end.
Definition openclaw_source_value (source : OpenClawNormalizedSource) : jsval :=
  JObj ((js "kind", JStr (source_kind source)) :: (js "sourceRef", JStr (source_kind source)) ::
    match source with
    | HostedSource packageName version artifactDigest =>
        [(js "packageName", JStr packageName); (js "version", JStr version);
         (js "artifactDigest", JStr artifactDigest)]
    | FolderSource repo path commit contentHash =>
        [(js "repo", JStr repo); (js "path", JStr path); (js "commit", JStr commit);
         (js "contentHash", JStr contentHash)]
    end).
Definition candidate_value (candidate : OpenClawInstallCandidate) : jsval :=
  JObj ([(js "sourceRef", JStr (oc_sourceRef candidate)); (js "package", JStr (oc_package candidate));
         (js "version", JStr (oc_version candidate)); (js "integrity", JStr (oc_integrity candidate))] ++
    match oc_github candidate with
    | None => []
    | Some g => [(js "github", JObj [(js "repo", JStr (og_repo g)); (js "path", JStr (og_path g));
                                     (js "commit", JStr (og_commit g)); (js "contentHash", JStr (og_contentHash g))])]
    end).
Definition entry_value (entry : OpenClawFeedEntry) : jsval :=
  JObj ([(js "type", JStr (enum_name (oe_type entry))); (js "id", JStr (oe_id entry));
         (js "title", JStr (oe_title entry))] ++
    member "description" (oe_description entry) ++ member "icon" (oe_icon entry) ++
    [(js "version", JStr (oe_version entry)); (js "state", JStr (enum_name (oe_state entry)))] ++
    match oe_featured entry with Some b => [(js "featured", JBool b)] | None => [] end ++
    match oe_featuredAt entry with Some n => [(js "featuredAt", JNum n)] | None => [] end ++
    [(js "publisher", JObj [(js "id", JStr (oe_publisherId entry)); (js "trust", JStr (oe_publisherTrust entry))]);
     (js "install", JObj [(js "candidates", JArr (candidate_value <$> oe_candidates entry))])]).

(** [/^[^/\\\s]+\/[^/\\\s]+$/u]. *)
Definition owner_and_repository (repo : jstr) : bool :=
  match split 47 repo with
  | [owner; name] => negb (jeqb owner []) && negb (jeqb name []) &&
                     forallb (fun c => negb ((c =? 92) || is_js_space c)) (owner ++ name)
  | _ => false
  end.
Definition hex_lower (n : nat) (s : jstr) : bool := Nat.eqb (length s) n && forallb is_hex_lower s.
(** [validateGithubSource], as a boolean. *)
Definition validateGithubSource (g : OpenClawGithubSource) : bool :=
  owner_and_repository (og_repo g) &&
  (jeqb (og_path g) [] ||
   forallb (fun part => negb (jeqb part []) && negb (jeqb part (js ".")) && negb (jeqb part (js "..")))
     (split 47 (og_path g))) &&
  negb (includes [92] (og_path g)) && hex_lower 40 (og_commit g).
(** [None] is [OpenClawValidationError]. *)
Definition normalizeOpenClawCandidate (entry : OpenClawFeedEntry) (candidate : OpenClawInstallCandidate)
    : option OpenClawNormalizedCandidate :=
  let normalized source := Some {|
    on_entryId := oe_id entry; on_entryType := oe_type entry; on_publisherId := oe_publisherId entry;
    on_publisherTrust := oe_publisherTrust entry; on_candidate := candidate; on_source := source |} in
  if negb (jeqb (oc_package candidate) (oe_id entry)) || negb (jeqb (oc_version candidate) (oe_version entry))
  then None
  else if jeqb (oc_sourceRef candidate) OPENCLAW_SOURCE_CLAWHUB then
    match oc_github candidate with
    | Some _ => None
    | None => if isDigest (oc_integrity candidate)
              then normalized (HostedSource (oc_package candidate) (oc_version candidate) (oc_integrity candidate))
              else None
    end
  else if jeqb (oc_sourceRef candidate) OPENCLAW_SOURCE_GITHUB then
    match oc_github candidate with
    | None => None
    | Some g =>
        if validateGithubSource g && hex_lower 64 (og_contentHash g) &&
           jeqb (oc_version candidate) (og_commit g) &&
           jeqb (oc_integrity candidate) (js "sha256:" ++ og_contentHash g)
        then normalized (FolderSource (og_repo g) (og_path g) (og_commit g) (og_contentHash g)) else None
    end
  else None.
Definition normalizeOpenClawQueueEntry (entry : OpenClawFeedEntry) : api OpenClawNormalizedCandidate :=
  throw_if negb (bool_decide (oe_type entry = EntrySkill)) || negb (bool_decide (oe_state entry = FeedAvailable))
    with OPENCLAW_CONSUMER_UNAVAILABLE ;;
  match oe_candidates entry with
  | [candidate] => require OPENCLAW_CONSUMER_UNAVAILABLE (normalizeOpenClawCandidate entry candidate)
  | _ => Err OPENCLAW_CONSUMER_UNAVAILABLE
  end.

Definition openClawQueueSourceIdentity (source : OpenClawNormalizedSource) : jstr :=
  match source with
  | HostedSource packageName version artifactDigest =>
      source_kind source ++ js ":" ++ packageName ++ js "@" ++ version ++ js ":" ++ artifactDigest
  | FolderSource repo path commit contentHash =>
      source_kind source ++ js ":" ++ repo ++ js ":" ++ path ++ js "@" ++ commit ++ js ":" ++ contentHash
  end.
Definition openClawQueueVersion (entryVersion : jstr) (source : OpenClawNormalizedSource) : jstr :=
  if version_pattern entryVersion then entryVersion
  else js "0.0.0+openclaw." ++ match source with
                               | HostedSource _ _ artifactDigest => digest_slice 32 artifactDigest
                               | FolderSource _ _ commit _ => take 32 commit
                               end.

Section Catalog.
Context {DR : DateRuntime} {UT : UnicodeTables} {UR : UrlRuntime} {CO : Collation} {CR : Crypto}.

(** ** The queue of OpenClaw imports *)

Record OpenClawImportQueue : Type := {
  qu_organizationId : jstr;
  qu_namespace : jstr;
  qu_sourceProviderOrigin : jstr;
}.
(** [/^@[a-z0-9][a-z0-9._-]{0,63}$/u]. *)
Definition validateOpenClawQueueNamespace (value : jstr) : api jstr :=
  throw_if negb (startsWith (js "@") value && slug_like is_lower_alnum 63 (drop 1 value)) with INVALID_CONFIGURATION ;;
  Ok value.
Definition validateOpenClawSourceProviderOrigin (value : jstr) : api jstr :=
  throw_if jeqb value [] || (512 <? jlen value) with INVALID_CONFIGURATION ;;
  let? parsed := require INVALID_CONFIGURATION (parseURL value) in
  throw_if negb (jeqb (url_protocol parsed) (js "https:")) || negb (jeqb (url_username parsed) []) ||
           negb (jeqb (url_password parsed) []) || negb (jeqb (url_pathname parsed) (js "/")) ||
           negb (jeqb (url_search parsed) []) || negb (jeqb (url_hash parsed) []) with INVALID_CONFIGURATION ;;
  Ok (url_origin parsed).
Definition createOpenClawImportQueue (organizationId namespace sourceProviderOrigin : jstr)
    : api OpenClawImportQueue :=
  let? namespace := validateOpenClawQueueNamespace namespace in
  let? origin := validateOpenClawSourceProviderOrigin sourceProviderOrigin in
  throw_if jeqb organizationId [] with INVALID_CONFIGURATION ;;
  Ok {| qu_organizationId := organizationId; qu_namespace := namespace; qu_sourceProviderOrigin := origin |}.

(** [oq_compatibilityProfile] is [JUndef] when none is active. *)
Record OpenClawImportQueueRequest : Type := {
  oq_aborted : bool;
  oq_tenantId : jstr;
  oq_principal : Principal;
  oq_feedId : jstr;
  oq_feedSequence : spec_float;
  oq_feedDigest : jstr;
  oq_sourceUrl : jstr;
  oq_feedGeneratedAt : jstr;
  oq_feedExpiresAt : jstr;
  oq_compatibilityProfile : jsval;
  oq_externalId : jstr;
  oq_entry : OpenClawFeedEntry;
}.
Inductive OpenClawOperationState : Type := OperationQueued | OperationRunning.
Record OpenClawImportOperation : Type := {
  op_operationId : jstr;
  op_operationState : OpenClawOperationState;
}.

(** The members [sameOpenClawQueueFeed] compares. *)
Definition feed_value (input : OpenClawImportQueueRequest) : jsval :=
  JObj ([(js "id", JStr (oq_feedId input)); (js "sequence", JNum (oq_feedSequence input));
         (js "digest", JStr (oq_feedDigest input)); (js "sourceUrl", JStr (oq_sourceUrl input));
         (js "generatedAt", JStr (oq_feedGeneratedAt input)); (js "expiresAt", JStr (oq_feedExpiresAt input))] ++
    match oq_compatibilityProfile input with
    | JUndef => []
    | profile => [(js "compatibilityProfile", profile)]
    end).
Definition sameOpenClawQueueFeed (left right : jsval) : bool :=
  isObject left && isObject right &&
  forallb (fun key => strict_equal (field left key) (field right key))
    ["id"; "sequence"; "digest"; "sourceUrl"; "generatedAt"; "expiresAt"; "compatibilityProfile"]%string.

Definition openclaw_upstream (queue : OpenClawImportQueue) (source : OpenClawNormalizedSource) : Upstream :=
  let origin := qu_sourceProviderOrigin queue in
  let identity_digest := digestBytes (textEncode (origin ++ 0 :: openClawQueueSourceIdentity source)) in
  {| us_id := js "openclaw-" ++ digest_slice 32 identity_digest; us_organizationId := qu_organizationId queue;
     us_name := match source with
                | HostedSource _ _ _ => js "openclaw-clawhub"
                | FolderSource _ _ _ _ => js "openclaw-github"
                end;
     us_kind := match source with
                | HostedSource _ _ _ => URegistry
                | FolderSource _ _ _ _ => UGithub
                end;
     us_enabled := true;
     us_repositories := Some [match source with
                              | HostedSource _ _ _ => origin
                              | FolderSource repo _ _ _ => repo
                              end];
     us_baseUrl := Some match source with
                        | HostedSource _ _ _ => origin
                        | FolderSource _ _ _ _ => js "https://api.github.com"
                        end;
     us_credentialEnv := None; us_namespace := qu_namespace queue; us_configRevision := None |}.
Definition openclaw_request (queue : OpenClawImportQueue) (input : OpenClawImportQueueRequest)
    (source : OpenClawNormalizedSource) : ImportRequest :=
  let sourceKey := digestBytes (textEncode (openClawQueueSourceIdentity source)) in
  {| iq_upstreamId := us_id (openclaw_upstream queue source);
     iq_repository := Some match source with
                           | HostedSource _ _ _ => qu_sourceProviderOrigin queue
                           | FolderSource repo _ _ _ => repo
                           end;
     iq_path := match source with
                | HostedSource packageName _ _ => packageName
                | FolderSource _ path _ _ => path
                end;
     iq_ref := match source with
               | HostedSource _ _ _ => None
               | FolderSource _ _ commit _ => Some commit
               end;
     iq_name := qu_namespace queue ++ js "/openclaw-" ++ digest_slice 48 sourceKey;
     iq_version := openClawQueueVersion (oe_version (oq_entry input)) source;
     iq_externalId := Some (oq_externalId input); iq_externalSourceType := None;
     iq_externalSnapshotHash := HashAbsent; iq_feedId := None; iq_feedName := None;
     iq_feedConfigRevision := None; iq_sourceReference := None; iq_sourceCatalogId := None;
     iq_sourceCatalogConfigRevision := None; iq_sourceCatalogProviderVersion := None |}.
Definition openclaw_descriptor (input : OpenClawImportQueueRequest) (source : OpenClawNormalizedSource) : jsval :=
  JObj [(js "source", openclaw_source_value source); (js "entry", entry_value (oq_entry input));
        (js "feed", feed_value input)].

(** A new import job with a descriptor, for the policy in force. *)
Definition catalog_job (organizationId id : jstr) (request : ImportRequest) (upstream : Upstream)
    (openclawSource sourceAcquisition : jsval) (now : Z) (s : RegistryState) : Job := {|
  jb_id := id; jb_organizationId := organizationId; jb_kind := ImportJob; jb_state := JQueued;
  jb_resourceId := None; jb_artifact := None; jb_policyRevision := po_revision (st_policy s);
  jb_policy := clonePolicy (st_policy s); jb_import := Some request; jb_upstream := Some upstream;
  jb_openclawSource := openclawSource; jb_sourceAcquisition := sourceAcquisition;
  jb_sourceCatalogAliases := None; jb_createdAt := toISOString now; jb_updatedAt := toISOString now;
  jb_attempts := 0; jb_leaseToken := None; jb_leaseExpiresAt := None; jb_error := None |}.

Section Enqueue.
Context (queue : OpenClawImportQueue) (input : OpenClawImportQueueRequest) (source : OpenClawNormalizedSource).

Definition same_openclaw_source (job : Job) : bool :=
  let request := openclaw_request queue input source in
  let upstream := openclaw_upstream queue source in
  let descriptor := jb_openclawSource job in
  jeqb (jb_organizationId job) (qu_organizationId queue) && is_import job && isObject descriptor &&
  match jb_import job, jb_upstream job with
  | Some i, Some u =>
      bool_decide (iq_externalId i = Some (oq_externalId input)) && jeqb (iq_name i) (iq_name request) &&
      jeqb (us_id u) (us_id upstream) && sameUpstreamOrigin u upstream
  | _, _ => false
  end &&
  isObject (field descriptor "source") && same_value (field descriptor "source") (openclaw_source_value source) &&
  sameOpenClawQueueFeed (field descriptor "feed") (feed_value input).
(** The completed import the search finds: its release, when it is approved
    now, or the scan that is still to decide it. *)
Definition finished_operation (queueNow : Z) (mutable : RegistryState) (candidates : list Job)
    : option OpenClawImportOperation :=
  match find_first (fun job => completed job && bool_decide (non_empty (jb_resourceId job) <> None)) candidates with
  | None => None
  | Some done =>
      match find_skill mutable (default [] (jb_resourceId done)) with
      | None => None
      | Some skill =>
          if skillCurrentlyApproved mutable skill queueNow
          then Some {| op_operationId := jb_id done; op_operationState := OperationRunning |}
          else (fun scan => {| op_operationId := jb_id scan; op_operationState := OperationRunning |}) <$>
               find_first (fun job => bool_decide (jb_kind job = ScanJob) &&
                                      bool_decide (jb_resourceId job = Some (sk_id skill)) && active job)
                 (st_jobs mutable)
      end
  end.
(** The updater. *)
Definition enqueue_commit (jobId auditId : jstr) (queueNow now : Z) (mutable : RegistryState)
    : api (RegistryState * OpenClawImportOperation) :=
  let request := openclaw_request queue input source in
  let candidates := js_sort newest_first (List.filter same_openclaw_source (st_jobs mutable)) in
  match find_first active candidates with
  | Some job =>
      Ok (mutable, {| op_operationId := jb_id job;
                      op_operationState := if bool_decide (jb_state job = JQueued) then OperationQueued
                                           else OperationRunning |})
  | None =>
      match finished_operation queueNow mutable candidates with
      | Some operation => Ok (mutable, operation)
      | None =>
          throw_if existsb (fun skill => jeqb (sk_organizationId skill) (qu_organizationId queue) &&
                              jeqb (sk_name skill) (iq_name request) && jeqb (sk_version skill) (iq_version request))
                     (st_skills mutable) with PROVENANCE_CONFLICT ;;
          let job := catalog_job (qu_organizationId queue) jobId request (openclaw_upstream queue source)
                       (openclaw_descriptor input source) JUndef queueNow mutable in
          Ok (appendAudit (audit (qu_organizationId queue) (oq_principal input) auditId now
                (js "openclaw.import.queued") (jb_id job)
                [(js "feedId", JStr (oq_feedId input)); (js "feedSequence", JNum (oq_feedSequence input));
                 (js "feedDigest", JStr (oq_feedDigest input)); (js "externalId", JStr (oq_externalId input));
                 (js "source", JStr (source_kind source))]) (queue_job job mutable),
              {| op_operationId := jb_id job; op_operationState := OperationQueued |})
      end
  end.
End Enqueue.
(** [queueNow] is read when the request comes in, [now] when it commits. *)
Definition enqueue (queue : OpenClawImportQueue) (input : OpenClawImportQueueRequest) (jobId auditId : jstr)
    (queueNow now : Z) (current : RegistryState) : api (RegistryState * OpenClawImportOperation) :=
  throw_if oq_aborted input with api_error "REQUEST_ABORTED" 400 ;;
  throw_if negb (jeqb (oq_tenantId input) (qu_organizationId queue)) ||
           negb (jeqb (pr_organizationId (oq_principal input)) (qu_organizationId queue))
    with api_error "FORBIDDEN" 403 ;;
  throw_if negb (canReadNamespace (oq_principal input) (qu_namespace queue)) with api_error "FORBIDDEN" 403 ;;
  let? _ := validateOpenClawQueueFeed (oq_feedId input) (oq_feedSequence input) (oq_feedDigest input)
              (oq_sourceUrl input) (oq_feedGeneratedAt input) (oq_feedExpiresAt input)
              (oq_compatibilityProfile input) queueNow in
  let? normalized := normalizeOpenClawQueueEntry (oq_entry input) in
  throw_if negb (isDigest (oq_feedDigest input)) with OPENCLAW_CONSUMER_UNAVAILABLE ;;
  throw_if match num_to_Z (oq_feedSequence input) with
           | Some n => (n <? 0) || (MAX_SAFE_INTEGER <? n)
           | None => true
           end with OPENCLAW_CONSUMER_UNAVAILABLE ;;
  let? mutable := ensureState (Some current) defaultPolicy in
  enqueue_commit queue input (on_source normalized) jobId auditId queueNow now mutable.

(** ** Sources of a catalog *)

(** [SourceAcquisition] of packages/source-catalog: where a worker finds the
    files. *)
Record CatalogFile : Type := {
  cf_path : jstr;
  cf_size : spec_float;
  cf_sha256 : jstr;
}.
Inductive SourceAcquisition : Type :=
| AcquireFromGithub (repository path ref : jstr) (sourceProviderOrigin contentDigest : option jstr)
| AcquireFromRegistry (baseUrl package version : jstr) (sourceProviderOrigin artifactDigest : option jstr)
| AcquireFromOpenclaw (source : OpenClawNormalizedSource) (sourceProviderOrigin : option jstr)
    (allowedArtifactOrigins : option (list jstr))
| AcquireFromTessl (workspace tile version fingerprint skillPath : jstr) (artifactDigest : option jstr)
    (sourceProviderOrigin : jstr)
| AcquireFromPolyskill (name version contentDigest sourceProviderOrigin : jstr)
| AcquireFromClawhub (owner slug version : jstr) (files : list CatalogFile) (artifactDigest : option jstr)
    (sourceProviderOrigin : jstr).
Definition catalog_file_value (f : CatalogFile) : jsval :=
  JObj [(js "path", JStr (cf_path f)); (js "size", JNum (cf_size f)); (js "sha256", JStr (cf_sha256 f))].
(** The object, as it is stored with a job. *)
Definition acquisition_value (a : SourceAcquisition) : jsval :=
  match a with
  | AcquireFromGithub repository path ref origin digest =>
      JObj ([(js "kind", JStr (js "github")); (js "repository", JStr repository); (js "path", JStr path);
             (js "ref", JStr ref)] ++ member "sourceProviderOrigin" origin ++ member "contentDigest" digest)
  | AcquireFromRegistry baseUrl package version origin digest =>
      JObj ([(js "kind", JStr (js "registry")); (js "baseUrl", JStr baseUrl); (js "package", JStr package);
             (js "version", JStr version)] ++ member "sourceProviderOrigin" origin ++ member "artifactDigest" digest)
  | AcquireFromOpenclaw source origin origins =>
      JObj ([(js "kind", JStr (js "openclaw")); (js "source", openclaw_source_value source)] ++
            member "sourceProviderOrigin" origin ++
            match origins with
            | Some l => [(js "allowedArtifactOrigins", JArr (JStr <$> l))]
            | None => []
            end)
  | AcquireFromTessl workspace tile version fingerprint skillPath digest origin =>
      JObj ([(js "kind", JStr (js "tessl")); (js "workspace", JStr workspace); (js "tile", JStr tile);
             (js "version", JStr version); (js "fingerprint", JStr fingerprint); (js "skillPath", JStr skillPath)] ++
            member "artifactDigest" digest ++ [(js "sourceProviderOrigin", JStr origin)])
  | AcquireFromPolyskill name version digest origin =>
      JObj [(js "kind", JStr (js "polyskill")); (js "name", JStr name); (js "version", JStr version);
            (js "contentDigest", JStr digest); (js "sourceProviderOrigin", JStr origin)]
  | AcquireFromClawhub owner slug version files digest origin =>
      JObj ([(js "kind", JStr (js "clawhub")); (js "owner", JStr owner); (js "slug", JStr slug);
             (js "version", JStr version); (js "files", JArr (catalog_file_value <$> files))] ++
            member "artifactDigest" digest ++ [(js "sourceProviderOrigin", JStr origin)])
  end.

(** What the registry uses of a [SourceResolution]; [sx_installable] is that of
    its row. *)
Record SourceResolution : Type := {
  sx_externalId : jstr;
  sx_installable : bool;
  sx_reference : jstr;
  sx_version : jstr;
  sx_snapshotDigest : option jstr;
  sx_acquisition : SourceAcquisition;
  sx_configRevision : jstr;
}.
Inductive SourceAvailability : Type :=
| SourceAvailable
| SourceUnavailable (retryable : option bool)
| SourceDisabled.
(** What it uses of a [SourceDescriptor]. *)
Record SourceDescriptor : Type := {
  sd_availability : SourceAvailability;
  sd_configRevision : jstr;
}.

Definition INVALID_SOURCE_RESOLVE : RegistryApiError := api_error "INVALID_SOURCE_RESOLVE" 400.
Record SourceCatalogResolveInput : Type := {
  si_sourceId : jstr;
  si_externalId : jstr;
  si_refresh : bool;
}.
Definition parseSourceResolveRequest (body : jsval) (sourceId : jstr) : api SourceCatalogResolveInput :=
  throw_if unsupported_field ["externalId"; "refresh"]%string body with INVALID_SOURCE_RESOLVE ;;
  throw_if negb (slug_like is_lower_alnum 127 sourceId) with INVALID_SOURCE_RESOLVE ;;
  let? externalId := require INVALID_SOURCE_RESOLVE (stringValue (field body "externalId")) in
  throw_if (1024 <? jlen externalId) || existsb control_unit externalId with INVALID_SOURCE_RESOLVE ;;
  let? refresh := parse_enabled false (field body "refresh") INVALID_SOURCE_RESOLVE in
  Ok {| si_sourceId := sourceId; si_externalId := externalId; si_refresh := refresh |}.

(** [/^@?[a-z0-9][a-z0-9._-]{0,63}$/u], the sign removed; ['sources'] when no
    namespace of the caller has this form. *)
Definition catalog_namespace (s : jstr) : bool :=
  slug_like is_lower_alnum 63 (if startsWith (js "@") s then drop 1 s else s).
Definition sourceCatalogNamespace (principal : Principal) : jstr :=
  let candidate := default (js "sources") (find_first catalog_namespace (default [] (pr_namespaces principal))) in
  toLowerCase (if startsWith (js "@") candidate then drop 1 candidate else candidate).

Definition below_path (path : jstr) : jstr := if jeqb path [] then [] else js "/" ++ path.
Definition sourceCatalogReference (resolution : SourceResolution) : jstr :=
  match sx_acquisition resolution with
  | AcquireFromGithub repository path _ _ _ => js "@github/" ++ repository ++ below_path path
  | AcquireFromOpenclaw (FolderSource repo path _ _) _ _ => js "@github/" ++ repo ++ below_path path
  | AcquireFromOpenclaw (HostedSource packageName version _) _ _ =>
      js "@clawhub/" ++ packageName ++ js "@" ++ version
  | AcquireFromTessl workspace tile version _ skillPath _ _ =>
      js "@tessl/" ++ workspace ++ js "/" ++ tile ++ below_path skillPath ++ js "@" ++ version
  | AcquireFromPolyskill name version _ _ => js "@polyskill/" ++ name ++ js "@" ++ version
  | AcquireFromClawhub owner slug version _ _ _ =>
      js "@clawhub/" ++ owner ++ js "/" ++ slug ++ js "@" ++ version
  | AcquireFromRegistry _ _ _ _ _ => sx_reference resolution
  end.
Definition or_null (value : option jstr) : jsval :=
  match value with
  | Some s => JStr s
  | None => JNull
  end.
Definition github_physical (repository path ref : jsval) : jsval :=
  JObj [(js "kind", JStr (js "github")); (js "repository", repository); (js "path", path); (js "ref", ref)].
(** The version of an import, from what identifies its bytes. *)
Definition physical_version (a : SourceAcquisition) : jsval :=
  match a with
  | AcquireFromGithub repository path ref _ _ => github_physical (JStr repository) (JStr path) (JStr ref)
  | AcquireFromOpenclaw (FolderSource repo path commit _) _ _ => github_physical (JStr repo) (JStr path) (JStr commit)
  | AcquireFromOpenclaw (HostedSource packageName version artifactDigest) _ _ =>
      JObj [(js "kind", JStr (js "clawhub")); (js "packageName", JStr packageName); (js "version", JStr version);
            (js "artifactDigest", JStr artifactDigest)]
  | AcquireFromTessl workspace tile version fingerprint skillPath digest _ =>
      JObj [(js "kind", JStr (js "tessl")); (js "workspace", JStr workspace); (js "tile", JStr tile);
            (js "version", JStr version); (js "skillPath", JStr skillPath); (js "fingerprint", JStr fingerprint);
            (js "artifactDigest", or_null digest)]
  | AcquireFromPolyskill name version digest _ =>
      JObj [(js "kind", JStr (js "polyskill")); (js "name", JStr name); (js "version", JStr version);
            (js "contentDigest", JStr digest)]
  | AcquireFromClawhub owner slug version files digest _ =>
      JObj [(js "kind", JStr (js "clawhub")); (js "owner", JStr owner); (js "slug", JStr slug);
            (js "version", JStr version); (js "files", JArr (catalog_file_value <$> files));
            (js "artifactDigest", or_null digest)]
  | AcquireFromRegistry baseUrl package version _ digest =>
      JObj [(js "kind", JStr (js "registry")); (js "baseUrl", JStr baseUrl); (js "package", JStr package);
            (js "version", JStr version); (js "artifactDigest", or_null digest)]
  end.
Definition sourceCatalogVersion (resolution : SourceResolution) : jstr :=
  js "0.0.0+source." ++
  short_digest (digestBytes (textEncode (stable_text (physical_version (sx_acquisition resolution))))).

(** [sourceCatalogAcquisitionBase]: the upstream a worker reads from. *)
Record AcquisitionBase : Type := {
  ab_kind : UpstreamKind;
  ab_baseUrl : jstr;
  ab_repository : jstr;
  ab_path : jstr;
  ab_ref : jstr;
}.
Definition sourceCatalogAcquisitionBase (a : SourceAcquisition) : AcquisitionBase :=
  let github repository path ref :=
    {| ab_kind := UGithub; ab_baseUrl := js "https://api.github.com"; ab_repository := repository;
       ab_path := path; ab_ref := ref |} in
  let registry baseUrl path ref :=
    {| ab_kind := URegistry; ab_baseUrl := baseUrl; ab_repository := baseUrl; ab_path := path; ab_ref := ref |} in
  match a with
  | AcquireFromGithub repository path ref _ _ => github repository path ref
  | AcquireFromOpenclaw (FolderSource repo path commit _) _ _ => github repo path commit
  | AcquireFromOpenclaw (HostedSource packageName version _) origin _ =>
      registry (default (js "https://clawhub.ai") origin) packageName version
  | AcquireFromTessl workspace tile version _ skillPath _ origin =>
      registry origin (workspace ++ js "/" ++ tile ++ js "/" ++ skillPath) version
  | AcquireFromPolyskill name version _ origin => registry origin name version
  | AcquireFromClawhub owner slug version _ _ origin => registry origin (js "@" ++ owner ++ js "/" ++ slug) version
  | AcquireFromRegistry baseUrl package version _ _ => registry baseUrl package version
  end.
Record SourceCatalogMapping : Type := {
  cm_sourceId : jstr;
  cm_reference : jstr;
  cm_externalId : jstr;
  cm_importRequest : ImportRequest;
  cm_upstream : Upstream;
  cm_acquisition : jsval;
}.
Definition sourceCatalogMapping (sourceId : jstr) (resolution : SourceResolution)
    (reference managedName version : jstr) (principal : Principal) (configRevision : jstr)
    : SourceCatalogMapping :=
  let acquisition := acquisition_value (sx_acquisition resolution) in
  let source_identity := stable_text (JObj [(js "sourceId", JStr sourceId); (js "reference", JStr reference);
    (js "acquisition", acquisition); (js "configRevision", JStr configRevision)]) in
  let upstreamId := js "source-" ++
    digest_slice 32 (digestBytes (textEncode (js "source-catalog" ++ 0 :: source_identity))) in
  let base := sourceCatalogAcquisitionBase (sx_acquisition resolution) in
  {| cm_sourceId := sourceId; cm_reference := reference; cm_externalId := sx_externalId resolution;
     cm_importRequest := {|
       iq_upstreamId := upstreamId; iq_repository := Some (ab_repository base); iq_path := ab_path base;
       iq_ref := Some (ab_ref base); iq_name := managedName; iq_version := version;
       iq_externalId := Some (sx_externalId resolution); iq_externalSourceType := None;
       iq_externalSnapshotHash := match sx_snapshotDigest resolution with
                                  | Some digest => Hash digest
                                  | None => HashAbsent
                                  end;
       iq_feedId := None; iq_feedName := None; iq_feedConfigRevision := None;
       iq_sourceReference := Some reference; iq_sourceCatalogId := Some sourceId;
       iq_sourceCatalogConfigRevision := Some configRevision;
       iq_sourceCatalogProviderVersion := Some (sx_version resolution) |};
     cm_upstream := {|
       us_id := upstreamId; us_organizationId := pr_organizationId principal; us_name := js "source-" ++ sourceId;
       us_kind := ab_kind base; us_enabled := true; us_repositories := Some [ab_repository base];
       us_baseUrl := Some (ab_baseUrl base); us_credentialEnv := None;
       us_namespace := sourceCatalogNamespace principal; us_configRevision := Some configRevision |};
     cm_acquisition := acquisition |}.

(** ** Queuing the import of a catalog's source *)

Record SourceCatalogQueueResult : Type := {
  cr_status : Z;
  cr_job : Job;
  cr_resolution : option Resolution;
  cr_reference : jstr;
  cr_sourceId : jstr;
  cr_externalId : jstr;
}.
Definition picked (keys : list string) (kind : string) (value : jsval) : jsval :=
  JObj ((js "kind", JStr (js kind)) :: ((fun key => (js key, field value key)) <$> keys)).
(** [sourceCatalogPhysicalAcquisition], on what a job carries. *)
Definition sourceCatalogPhysicalAcquisition (value : jsval) : jsval :=
  let kind := field value "kind" in
  let kind_is k := strict_equal kind (JStr (js k)) in
  if kind_is "github" then github_physical (field value "repository") (field value "path") (field value "ref")
  else if kind_is "openclaw" then
    let source := field value "source" in
    if strict_equal (field source "kind") (JStr OPENCLAW_SOURCE_GITHUB)
    then github_physical (field source "repo") (field source "path") (field source "commit")
    else picked ["source"]%string "openclaw" value
  else if kind_is "tessl" then
    picked ["workspace"; "tile"; "version"; "skillPath"; "fingerprint"]%string "tessl" value
  else if kind_is "polyskill" then picked ["name"; "version"; "contentDigest"]%string "polyskill" value
  else if kind_is "clawhub" then picked ["owner"; "slug"; "version"; "files"]%string "clawhub" value
  else if kind_is "registry" then
    let digest := field value "artifactDigest" in
    JObj [(js "kind", JStr (js "registry")); (js "baseUrl", field value "baseUrl");
          (js "package", field value "package"); (js "version", field value "version");
          (js "artifactDigest", nullish digest JNull)]
  else value.
Definition sameUpstreamPhysical (left right : Upstream) : bool :=
  let repositories u := TArr (TStr <$> js_sort jcompare (default [] (us_repositories u))) in
  bool_decide (us_kind left = us_kind right) && bool_decide (us_baseUrl left = us_baseUrl right) &&
  jeqb (stableStringify (repositories left)) (stableStringify (repositories right)).

Definition with_aliases (aliases : list SourceCatalogAlias) (j : Job) : Job := {|
  jb_id := jb_id j; jb_organizationId := jb_organizationId j; jb_kind := jb_kind j; jb_state := jb_state j;
  jb_resourceId := jb_resourceId j; jb_artifact := jb_artifact j; jb_policyRevision := jb_policyRevision j;
  jb_policy := jb_policy j; jb_import := jb_import j; jb_upstream := jb_upstream j;
  jb_openclawSource := jb_openclawSource j; jb_sourceAcquisition := jb_sourceAcquisition j;
  jb_sourceCatalogAliases := Some aliases; jb_createdAt := jb_createdAt j; jb_updatedAt := jb_updatedAt j;
  jb_attempts := jb_attempts j; jb_leaseToken := jb_leaseToken j; jb_leaseExpiresAt := jb_leaseExpiresAt j;
  jb_error := jb_error j |}.
Definition MAX_SOURCE_ALIASES : nat := 32.
Definition has_alias (sourceId externalId configRevision : jstr) (aliases : list SourceCatalogAlias) : bool :=
  existsb (fun a => jeqb (sa_sourceId a) sourceId && jeqb (sa_externalId a) externalId &&
                    jeqb (sa_configRevision a) configRevision) aliases.

(** From the text [randomId('source-retry')] returned. *)
Definition sourceCatalogRetryVersion (random : jstr) : jstr :=
  let suffix := toLowerCase (List.filter (fun c => is_alnum c || (c =? 45)) random) in
  let suffix := drop (length suffix - 48) suffix in
  js "0.0.0+source-retry." ++ match suffix with [] => js "attempt" | _ => suffix end.

Section Queue.
Context (config : Configuration).
Abbreviation org := (cfg_organizationId config).
Context (mapping : SourceCatalogMapping) (principal : Principal).

Definition same_catalog_source (job : Job) : bool :=
  let wanted := cm_importRequest mapping in
  jeqb (jb_organizationId job) org && is_import job &&
  match jb_import job, jb_upstream job with
  | Some request, Some upstream =>
      bool_decide (iq_sourceCatalogId request = Some (cm_sourceId mapping)) &&
      bool_decide (iq_sourceCatalogConfigRevision request = iq_sourceCatalogConfigRevision wanted) &&
      bool_decide (iq_sourceReference request = Some (cm_reference mapping)) &&
      bool_decide (iq_externalId request = Some (cm_externalId mapping)) &&
      jeqb (iq_name request) (iq_name wanted) && jeqb (iq_version request) (iq_version wanted) &&
      sameUpstreamOrigin upstream (cm_upstream mapping)
  | _, _ => false
  end && same_value (jb_sourceAcquisition job) (cm_acquisition mapping).
Definition sourceCatalogPhysicalJobMatches (job : Job) : bool :=
  let wanted := cm_importRequest mapping in
  match jb_import job, jb_upstream job with
  | Some request, Some upstream =>
      negb (bool_decide (iq_sourceCatalogId request = Some (cm_sourceId mapping))) &&
      jeqb (jb_organizationId job) (us_organizationId (cm_upstream mapping)) && is_import job &&
      bool_decide (iq_sourceReference request = Some (cm_reference mapping)) &&
      jeqb (iq_name request) (iq_name wanted) && sameUpstreamPhysical upstream (cm_upstream mapping) &&
      if is_undef (jb_sourceAcquisition job)
      then bool_decide (iq_repository request = iq_repository wanted) &&
           jeqb (iq_path request) (iq_path wanted) && bool_decide (iq_ref request = iq_ref wanted)
      else same_value (sourceCatalogPhysicalAcquisition (jb_sourceAcquisition job))
             (sourceCatalogPhysicalAcquisition (cm_acquisition mapping))
  | _, _ => false
  end.
(** The approved release of a completed candidate. *)
Definition catalog_release (mutable : RegistryState) (now : Z) (candidate : Job) : option (Job * SkillVersion) :=
  match (if completed candidate then non_empty (jb_resourceId candidate) else None) with
  | None => None
  | Some resourceId =>
      match find_first (fun entry => jeqb (sk_id entry) resourceId && jeqb (sk_organizationId entry) org)
              (st_skills mutable) with
      | Some skill => if skillCurrentlyApproved mutable skill now && canReadNamespace principal (sk_name skill)
                      then Some (candidate, skill) else None
      | None => None
      end
  end.
Definition addSourceCatalogAlias (job : Job) : Job :=
  let aliases := default [] (jb_sourceCatalogAliases job) in
  let wanted := iq_sourceCatalogConfigRevision (cm_importRequest mapping) in
  if match wanted with
     | Some revision => has_alias (cm_sourceId mapping) (cm_externalId mapping) revision aliases
     | None => false
     end then job
  else
    let aliases := if (MAX_SOURCE_ALIASES <=? length aliases)%nat then drop 1 aliases else aliases in
    with_aliases (aliases ++ [{| sa_sourceId := cm_sourceId mapping; sa_externalId := cm_externalId mapping;
                                 sa_configRevision := default (js "unknown") wanted |}]) job.
Definition update_job_object (job : Job) (f : Job -> Job) (s : RegistryState) : RegistryState :=
  with_st_jobs (update_first (fun j => jeqb (jb_id j) (jb_id job)) f (st_jobs s)) s.

(** The request to queue: a release in the way that is neither approved nor
    pending, or was imported from an earlier configuration of the same catalog,
    gives the new attempt a version of its own. *)
Definition retry_request (random : jstr) (mutable : RegistryState) : api ImportRequest :=
  let wanted := cm_importRequest mapping in
  match find_first (fun skill => jeqb (sk_organizationId skill) org && jeqb (sk_name skill) (iq_name wanted) &&
                                 jeqb (sk_version skill) (iq_version wanted)) (st_skills mutable) with
  | None => Ok wanted
  | Some conflicting =>
      let conflictingJob := find_first (fun job => bool_decide (jb_resourceId job = Some (sk_id conflicting)) &&
                              is_import job && jeqb (jb_organizationId job) org) (st_jobs mutable) in
      let sameCatalogPriorRevision :=
        match conflictingJob with
        | Some job => match jb_import job with
                      | Some request =>
                          bool_decide (iq_sourceCatalogId request = Some (cm_sourceId mapping)) &&
                          negb (bool_decide (iq_sourceCatalogConfigRevision request =
                                             iq_sourceCatalogConfigRevision wanted))
                      | None => false
                      end
        | None => false
        end in
      throw_if (bool_decide (sk_state conflicting = Approved) || bool_decide (sk_state conflicting = Pending)) &&
               negb sameCatalogPriorRevision with PROVENANCE_CONFLICT ;;
      Ok (with_iq_version (sourceCatalogRetryVersion random) wanted)
  end.
(** [id_random] is what [randomId('source-retry')] would return, and
    [currentRevision] what the catalog answers inside the transaction. *)
Definition queueSourceCatalogImport (refresh : bool) (requestId : jstr) (ids : ImportIds) (now : Z)
    (currentRevision : api jstr) (current : RegistryState) : api (RegistryState * SourceCatalogQueueResult) :=
  let? mutable := ensureState (Some current) defaultPolicy in
  let? revision := currentRevision in
  throw_if negb (bool_decide (Some revision = iq_sourceCatalogConfigRevision (cm_importRequest mapping)))
    with api_retry "SOURCE_CONFIGURATION_CHANGED" 409 ;;
  let answer status job resolution :=
    {| cr_status := status; cr_job := job; cr_resolution := resolution; cr_reference := cm_reference mapping;
       cr_sourceId := cm_sourceId mapping; cr_externalId := cm_externalId mapping |} in
  let candidates := js_sort newest_first (List.filter same_catalog_source (st_jobs mutable)) in
  match find_first active candidates with
  | Some job => Ok (mutable, answer 202 job None)
  | None =>
  match first_some (catalog_release mutable now) candidates with
  | Some (job, skill) => Ok (mutable, answer 200 job (Some (skillResolution skill)))
  | None =>
  let physicalCandidates := js_sort newest_first (List.filter sourceCatalogPhysicalJobMatches (st_jobs mutable)) in
  match find_first active physicalCandidates with
  | Some job => Ok (update_job_object job addSourceCatalogAlias mutable, answer 202 (addSourceCatalogAlias job) None)
  | None =>
  match first_some (catalog_release mutable now) physicalCandidates with
  | Some (job, skill) =>
      Ok (update_job_object job addSourceCatalogAlias mutable,
          answer 200 (addSourceCatalogAlias job) (Some (skillResolution skill)))
  | None =>
      let? request := retry_request (id_random ids) mutable in
      let job := catalog_job org (id_jobId ids) request (cm_upstream mapping) JUndef (cm_acquisition mapping) now
                   mutable in
      Ok (appendAudit (audit org principal (id_auditId ids) now (js "source.import.queued") (jb_id job)
            [(js "sourceId", JStr (cm_sourceId mapping)); (js "externalId", JStr (cm_externalId mapping));
             (js "reference", JStr (cm_reference mapping)); (js "refresh", JBool refresh);
             (js "requestId", JStr requestId)]) (queue_job job mutable), answer 202 job None)
  end
  end
  end
  end.
End Queue.

(** ** [resolveSourceCatalogRequest] *)

Section Resolve.
Context (config : Configuration).

Definition findSourceCatalogCachedResult (s : RegistryState) (sourceId externalId configRevision : jstr)
    (principal : Principal) (now : Z) : option SourceCatalogQueueResult :=
  let cached job :=
    jeqb (jb_organizationId job) (pr_organizationId principal) && is_import job &&
    match jb_import job with
    | Some request =>
        (bool_decide (iq_sourceCatalogId request = Some sourceId) &&
         bool_decide (iq_sourceCatalogConfigRevision request = Some configRevision) &&
         bool_decide (iq_externalId request = Some externalId) ||
         has_alias sourceId externalId configRevision (default [] (jb_sourceCatalogAliases job))) &&
        canReadNamespace principal (iq_name request)
    | None => false
    end in
  let candidates := js_sort newest_first (List.filter cached (st_jobs s)) in
  let reference job := match jb_import job with
                       | Some request => non_empty (iq_sourceReference request)
                       | None => None
                       end in
  let answer status job resolution reference :=
    {| cr_status := status; cr_job := job; cr_resolution := resolution; cr_reference := reference;
       cr_sourceId := sourceId; cr_externalId := externalId |} in
  let release job :=
    match (if completed job then non_empty (jb_resourceId job) else None), reference job with
    | Some resourceId, Some text =>
        match find_first (fun entry => jeqb (sk_id entry) resourceId &&
                            jeqb (sk_organizationId entry) (pr_organizationId principal)) (st_skills s) with
        | Some skill => if skillCurrentlyApproved s skill now && canReadNamespace principal (sk_name skill)
                        then Some (answer 200 job (Some (skillResolution skill)) text) else None
        | None => None
        end
    | _, _ => None
    end in
  match find_first active candidates with
  | Some job => match reference job with
                | Some text => Some (answer 202 job None text)
                | None => first_some release candidates
                end
  | None => first_some release candidates
  end.
(** [descriptor], [resolved] and [currentRevision] are what the catalog answers,
    with the errors [sourceCatalogApiError] makes of its failures. *)
Definition resolveSourceCatalogRequest (input : SourceCatalogResolveInput) (principal : Principal) (requestId : jstr)
    (ids : ImportIds) (readNow now : Z) (descriptor : api SourceDescriptor) (resolved : api SourceResolution)
    (currentRevision : api jstr) (snapshot current : RegistryState)
    : api (RegistryState * SourceCatalogQueueResult) :=
  let? descriptor := descriptor in
  let? _ := match sd_availability descriptor with
            | SourceDisabled => Err (api_error "SOURCE_DISABLED" 403)
            | SourceUnavailable retryable =>
                Err {| api_code := js "SOURCE_UNAVAILABLE"; api_status := 503;
                       api_retryable := default false retryable |}
            | SourceAvailable => Ok tt
            end in
  let expectedRevision := sd_configRevision descriptor in
  let namespace := sourceCatalogNamespace principal in
  throw_if negb (canReadNamespace principal (js "@" ++ namespace ++ js "/source")) with api_error "FORBIDDEN" 403 ;;
  match (if si_refresh input then None
         else findSourceCatalogCachedResult snapshot (si_sourceId input) (si_externalId input) expectedRevision
                principal readNow) with
  | Some cached => Ok (current, cached)
  | None =>
      let? resolution := resolved in
      throw_if negb (jeqb (sx_configRevision resolution) expectedRevision)
        with api_retry "SOURCE_CONFIGURATION_CHANGED" 409 ;;
      throw_if negb (sx_installable resolution) with api_error "SOURCE_NOT_INSTALLABLE" 409 ;;
      let reference := sourceCatalogReference resolution in
      let nameDigest := digestBytes (textEncode (js "source-catalog" ++ 0 :: reference)) in
      let managedName := js "@" ++ namespace ++ js "/source-" ++ short_digest nameDigest in
      let mapping := sourceCatalogMapping (si_sourceId input) resolution reference managedName
                       (sourceCatalogVersion resolution) principal expectedRevision in
      queueSourceCatalogImport config mapping principal (si_refresh input) requestId ids now currentRevision current
  end.
(** [POST /v1/sources/:id/resolve] of [handleSourceCatalogRoute]. *)
Definition resolveSourceRoute (sourceId : jstr) (body : jsval) (principal : Principal) (requestId : jstr)
    (ids : ImportIds) (readNow now : Z) (descriptor : api SourceDescriptor) (resolved : api SourceResolution)
    (currentRevision : api jstr) (snapshot current : RegistryState)
    : api (RegistryState * SourceCatalogQueueResult) :=
  let? _ := requireReader principal in
  let? _ := requireRouteScopes principal (js_list ["proxy:resolve"]%string) in
  let? input := parseSourceResolveRequest body sourceId in
  resolveSourceCatalogRequest input principal requestId ids readNow now descriptor resolved currentRevision snapshot
    current.
End Resolve.
End Catalog.

(** ** Events on the audit trail *)

(** The transaction of [refreshOpenClawPublication], once a publication is
    stored. *)
Definition publication_commit (config : Configuration) (principal : Principal) (requestId auditId feedId : jstr)
    (sequence : spec_float) (entryCount now : Z) (current : RegistryState) : api RegistryState :=
  let? mutable := ensureState (Some current) defaultPolicy in
  Ok (appendAudit (audit (cfg_organizationId config) principal auditId now (js "openclaw.publication.refresh") feedId
        [(js "feedId", JStr feedId); (js "sequence", JNum sequence);
         (js "entryCount", JNum (num_of_Z entryCount)); (js "requestId", JStr requestId)]) mutable).

Definition BOOTSTRAP_ADOPTION_ACTION : jstr := js "identity.bootstrap-adopted".
Record BootstrapAdoptionBinding : Type := {
  bb_organizationId : jstr;
  bb_userId : jstr;
  bb_sessionId : jstr;
  bb_proofTokenId : jstr;
  bb_proofSubject : jstr;
}.
(** [appendAdoptionAudit]: the event is written once, and a second identity is
    refused. *)
Definition appendAdoptionAudit (input : BootstrapAdoptionBinding) (auditId : jstr) (now : Z) (state : RegistryState)
    : api RegistryState :=
  let existing := List.filter (fun e => jeqb (ae_action e) BOOTSTRAP_ADOPTION_ACTION &&
                    jeqb (ae_organizationId e) (bb_organizationId input)) (st_audit state) in
  throw_if existsb (fun e => negb (strict_equal (obj_get (ae_details e) (js "userId")) (JStr (bb_userId input)))) existing
    with api_error "BOOTSTRAP_ADOPTION_CONFLICT" 409 ;;
  match existing with
  | _ :: _ => Ok state
  | [] =>
      Ok (appendAudit {|
        ae_id := auditId; ae_organizationId := bb_organizationId input; ae_subject := bb_userId input;
        ae_action := BOOTSTRAP_ADOPTION_ACTION; ae_resourceId := None; ae_createdAt := toISOString now;
        ae_details := [(js "userId", JStr (bb_userId input)); (js "sessionId", JStr (bb_sessionId input));
                       (js "proofTokenId", JStr (bb_proofTokenId input));
                       (js "proofSubject", JStr (bb_proofSubject input))] |} state)
  end.
