(* ===== verification/ImportState.v ===== *)
(** * What the import and feed handlers do to the document

    Every handler of [Feeds], [Imports], [Directory], [SourceImports],
    [FeedImports] and [CatalogImports] reduced to the change it makes: at most
    one feed, upstream or import job.  The file also reads the results of the searches backwards. *)

From Stdlib Require Import ZArith Lia.
From stdpp Require Import base list strings sets.
From S2P Require Import Prelude Js Dates Json Contracts Web Access Names PolicyEval Resolve Provenance State.
From S2P Require Import Registry Feeds Imports Directory SourceImports FeedImports CatalogImports.

Local Open Scope Z_scope.

(** ** Lists *)

Lemma first_some_Some {A B} (f : A -> option B) l b : first_some f l = Some b -> exists x, x ∈ l /\ f x = Some b.
Proof.
  induction l as [|x l IH]; cbn; [done|]. destruct (f x) as [b'|] eqn:E.
  - intros [= ->]. exists x. by split; [left|].
  - intros (y & Hy & Hf)%IH. exists y. by split; [right|].
Qed.
Lemma first_some_None {A B} (f : A -> option B) l : first_some f l = None <-> Forall (fun x => f x = None) l.
Proof.
  induction l as [|x l IH]; cbn; [by split; [constructor|]|].
  rewrite Forall_cons, <- IH. destruct (f x); naive_solver.
Qed.
Lemma elem_of_js_sort {A} (cmp : A -> A -> comparison) l x : x ∈ js_sort cmp l <-> x ∈ l.
Proof. by rewrite js_sort_perm. Qed.
Lemma elem_of_sorted_filter {A} (cmp : A -> A -> comparison) p l (x : A) :
  x ∈ js_sort cmp (List.filter p l) <-> x ∈ l /\ p x = true.
Proof. by rewrite elem_of_js_sort, !list_elem_of_In, List.filter_In. Qed.
Lemma filter_nil_Forall {A} (p : A -> bool) l : List.filter p l = [] <-> Forall (fun x => p x = false) l.
Proof.
  induction l as [|x l IH]; cbn; [by split; [constructor|]|].
  rewrite Forall_cons. destruct (p x); [split; [done | by intros [? _]] | rewrite IH; tauto].
Qed.

(** ** Import jobs *)

(** An import that a catalog queued: it carries the descriptor of its source
    that only the server writes. *)
Definition server_owned (job : Job) : bool :=
  isObject (jb_openclawSource job) || negb (is_undef (jb_sourceAcquisition job)).
(** The name and version an import job is for. *)
Definition import_target (job : Job) : option (jstr * jstr) :=
  if is_import job then (fun request => (iq_name request, iq_version request)) <$> jb_import job else None.
Definition target_of (request : ImportRequest) : jstr * jstr := (iq_name request, iq_version request).
(** No import of the release is queued or running. *)
Definition idle (s : RegistryState) (target : jstr * jstr) : Prop :=
  Forall (fun job => active job = true -> import_target job <> Some target) (st_jobs s).

Lemma target_spec job target : import_target job = Some target <->
  jb_kind job = ImportJob /\ exists request, jb_import job = Some request /\ target_of request = target.
Proof.
  unfold import_target, is_import. case_bool_decide as E; [|split; [done | by intros [? _]]].
  destruct (jb_import job) as [request|]; cbn; split; try done.
  - intros [= <-]. eauto.
  - intros (_ & r & [= ->] & <-). done.
  - by intros (_ & r & ? & _).
Qed.
Lemma same_target_spec request job :
  is_import job && same_target request job = true <-> import_target job = Some (target_of request).
Proof.
  unfold same_target, import_target, target_of. destruct (is_import job); [|done]. cbn.
  destruct (jb_import job) as [i|]; [|done]. cbn. rewrite andb_true_iff, !jeqb_true.
  split; [by intros [-> ->] | by intros [= -> ->]].
Qed.
Lemma activeTargets_spec request s job : job ∈ activeTargets request s <->
  job ∈ st_jobs s /\ active job = true /\ import_target job = Some (target_of request).
Proof.
  unfold activeTargets. rewrite list_elem_of_In, List.filter_In, <- list_elem_of_In, <- andb_assoc, andb_true_iff.
  by rewrite same_target_spec.
Qed.
Lemma idle_spec request s : activeTargets request s = [] <-> idle s (target_of request).
Proof.
  unfold idle. split.
  - intros E. apply Forall_forall. intros job Hin Ha Ht.
    assert (Hj : job ∈ activeTargets request s) by by apply activeTargets_spec. rewrite E in Hj.
    by apply not_elem_of_nil in Hj.
  - intros H. destruct (activeTargets request s) as [|job l] eqn:E; [done|].
    assert (Hj : job ∈ activeTargets request s) by (rewrite E; by left).
    apply activeTargets_spec in Hj as (Hin & Ha & Ht). by destruct (proj1 (Forall_forall _ _) H job Hin Ha).
Qed.
(** A version no job asks for. *)
Definition unused_version (s : RegistryState) (version : jstr) : Prop :=
  Forall (fun job => forall request, jb_import job = Some request -> iq_version request <> version) (st_jobs s).
Lemma unused_idle s name version : unused_version s version -> idle s (name, version).
Proof.
  unfold unused_version, idle. intros H. eapply Forall_impl; [exact H|]. cbv beta.
  intros job Hv _ Ht. apply target_spec in Ht as (_ & request & Hr & [= _ E]). by apply (Hv request).
Qed.

(** An upstream, or a feed read as one. *)
Definition configured_source (s : RegistryState) (upstream : Upstream) : Prop :=
  upstream ∈ st_upstreams s \/ exists feed, feed ∈ feeds s /\ upstream = feedAsUpstream feed.

Lemma ensure_current s policy s' : ensureState (Some s) policy = Ok s' -> s' = fill_collections s.
Proof. by intros [-> _]%ensureState_ok. Qed.

Section Effects.
Context {DR : DateRuntime} {UT : UnicodeTables} {UR : UrlRuntime} {CO : Collation} {CR : Crypto}.
Context (config : Configuration).
Abbreviation org := (cfg_organizationId config).

(** The feed revision a request carries is one the request read. *)
Definition feed_of (state : RegistryState) (request : ImportRequest) : Prop :=
  forall revision, iq_feedConfigRevision request = Some revision ->
    exists feed, feed ∈ feeds state /\ fd_configRevision feed = revision.
(** The change of one import request that read [state]. *)
Inductive import_effect (jobId : jstr) (state current s' : RegistryState) : Prop :=
| ImportSame : s' = current \/ s' = fill_collections current -> import_effect jobId state current s'
| ImportAudited e : ae_organizationId e = org -> s' = appendAudit e (fill_collections current) ->
    import_effect jobId state current s'
| ImportQueued e request upstream now :
    ae_organizationId e = org -> idle current (target_of request) -> configured_source current upstream ->
    feed_of state request ->
    s' = appendAudit e (queue_job (import_job config jobId request upstream now (fill_collections current))
                          (fill_collections current)) ->
    import_effect jobId state current s'.
Lemma parseImportRequest_no_feed body request : parseImportRequest body = Ok request ->
  iq_feedConfigRevision request = None.
Proof. unfold parseImportRequest. intros H. by ok_inv. Qed.

Lemma findImportUpstream_spec s request principal upstream :
  findImportUpstream s request principal = Ok upstream ->
  upstream ∈ st_upstreams s /\ us_organizationId upstream = pr_organizationId principal /\
  us_id upstream = iq_upstreamId request /\ us_enabled upstream = true /\
  canReadNamespace principal (us_namespace upstream) = true /\
  upstreamAllowsImport upstream (iq_repository request) = true /\
  (us_kind upstream = USkillsSh -> iq_externalId request = Some (iq_path request) /\ iq_path request <> []).
Proof.
  unfold findImportUpstream. destruct (find_first _ _) as [u|] eqn:E; [|done]. intros H. ok_inv.
  apply find_first_Some in E as [Hin [[Ho%jeqb_true Hi%jeqb_true]%andb_true_iff He]%andb_true_iff].
  apply orb_false_iff in G as [[G1%negb_false_iff G2%negb_false_iff]%orb_false_iff G3].
  split_and!; try done. intros Hk. rewrite (bool_decide_true _ Hk) in G3. cbn [andb] in G3.
  apply orb_false_iff in G3 as [G3%bool_decide_eq_false G4%negb_false_iff%bool_decide_eq_true].
  split; [done|]. rewrite G4 in G3. by destruct (iq_path request).
Qed.

Lemma import_commit_effect request upstream principal requestId jobId auditId now state current s' r :
  upstream ∈ st_upstreams current ->
  import_commit config request upstream principal requestId jobId auditId now (fill_collections current) = Ok (s', r) ->
  iq_feedConfigRevision request = None -> import_effect jobId state current s'.
Proof.
  intros Hup H Hn. unfold import_commit in H. destruct (activeTargets _ _) as [|t l] eqn:Et.
  - apply idle_spec in Et. destruct (existingSkill _ _ _) as [skill|].
    + destruct (completedTarget _ _ _ _ _) as [target|]; [|done]. ok_inv. eapply ImportAudited; [|reflexivity]; done.
    + ok_inv. eapply ImportQueued; [| |by left| |reflexivity]; [done|exact Et|].
      intros rev. by rewrite Hn.
  - destruct (find_first _ _) as [target|]; [|done]. ok_inv. eapply ImportAudited; [|reflexivity]; done.
Qed.
Lemma resolveOrQueueImport_cases body principal requestId jobId auditId now snapshot current s' r :
  resolveOrQueueImport config body principal requestId jobId auditId now snapshot current = Ok (s', r) ->
  exists request before upstream, parseImportRequest body = Ok request /\
    canPublishName principal (iq_name request) = true /\
    findImportUpstream snapshot request principal = Ok before /\
    (us_kind before = USkillsSh -> is_ok (requireDirectoryId (JStr (iq_path request))) = true) /\
    findImportUpstream current request principal = Ok upstream /\
    sameUpstreamOrigin upstream before = true /\
    import_commit config request upstream principal requestId jobId auditId now (fill_collections current) = Ok (s', r).
Proof.
  unfold resolveOrQueueImport. intros H.
  destruct (parseImportRequest body) as [request|] eqn:Hp; [|done]. cbn [rbind] in H.
  destruct (canPublishName _ _) eqn:Hc; [|done]. cbn [negb] in H.
  destruct (findImportUpstream snapshot _ _) as [before|] eqn:Hb; [|done]. cbn [rbind] in H.
  assert (Hdir : us_kind before = USkillsSh -> is_ok (requireDirectoryId (JStr (iq_path request))) = true).
  { intros Hk. rewrite bool_decide_true in H by done. by destruct (requireDirectoryId _). }
  match type of H with rbind ?c _ = _ => destruct c; [|done] end. cbn [rbind] in H.
  destruct (ensureState _ _) as [mutable|] eqn:He; [|done]. apply ensure_current in He as ->. cbn [rbind] in H.
  destruct (findImportUpstream (fill_collections current) _ _) as [upstream|] eqn:Hu; [|done]. cbn [rbind] in H.
  destruct (sameUpstreamOrigin _ _) eqn:Hs; [|done]. cbn [negb] in H.
  by exists request, before, upstream.
Qed.
(** A request that reads the document it commits on. *)
Lemma resolveOrQueueImport_at body principal requestId jobId auditId now request upstream current :
  parseImportRequest body = Ok request -> canPublishName principal (iq_name request) = true ->
  findImportUpstream current request principal = Ok upstream ->
  (us_kind upstream = USkillsSh -> is_ok (requireDirectoryId (JStr (iq_path request))) = true) ->
  st_schemaVersion current = 1 ->
  resolveOrQueueImport config body principal requestId jobId auditId now (fill_collections current) current =
  import_commit config request upstream principal requestId jobId auditId now (fill_collections current).
Proof.
  intros Hp Hc Hu Hdir Hv. unfold resolveOrQueueImport. rewrite Hp. cbn [rbind]. rewrite Hc. cbn [negb].
  assert (Hu' : findImportUpstream (fill_collections current) request principal = Ok upstream) by exact Hu.
  rewrite Hu'. cbn [rbind].
  replace (if bool_decide (us_kind upstream = USkillsSh)
           then (let? _ := requireDirectoryId (JStr (iq_path request)) in Ok tt) else Ok tt)
    with (Ok (E := RegistryApiError) tt).
  2: { case_bool_decide as Hk; [|done]. specialize (Hdir Hk). by destruct (requireDirectoryId _). }
  cbn [rbind]. unfold ensureState. cbn [default from_option id]. rewrite Hv. cbn [Z.eqb Pos.eqb negb rbind].
  rewrite Hu'. cbn [rbind]. rewrite (proj2 (jeqb_true _ _) eq_refl : sameUpstreamOrigin upstream upstream = true).
  done.
Qed.
Lemma import_effect_of body principal requestId jobId auditId now snapshot current s' r :
  resolveOrQueueImport config body principal requestId jobId auditId now snapshot current = Ok (s', r) ->
  import_effect jobId snapshot current s'.
Proof.
  intros (request & before & upstream & Hp & _ & _ & _ & Hu & _ & H)%resolveOrQueueImport_cases.
  apply findImportUpstream_spec in Hu as [Hin _]. apply parseImportRequest_no_feed in Hp.
  by eapply import_commit_effect.
Qed.

Lemma source_commit_effect source revision refresh managedName upstream principal requestId ids now fallback
    state current s' r :
  source_commit config source revision refresh managedName upstream principal requestId ids now fallback current
    = Ok (s', r) ->
  unused_version current (generatedTransparentVersion (id_random ids)) ->
  import_effect (id_jobId ids) state current s'.
Proof.
  unfold source_commit. intros H Hv. destruct (ensureState _ _) as [m|] eqn:He; [|done].
  apply ensure_current in He as ->. cbn [rbind] in H.
  destruct (find_first _ (st_upstreams _)) as [mapping|] eqn:Em; [|done]. cbn [require rbind] in H.
  apply find_first_Some in Em as [Hin _].
  destruct (_ || _ || _) eqn:Eg in H; [done|].
  destruct (find_first active _) as [job|]; [injection H as <- _; apply ImportSame; by right|].
  destruct (if refresh then _ else _) as [result|]; [injection H as <- _; apply ImportSame; by right|].
  injection H as <- _. eapply ImportQueued; [| |left; exact Hin| |reflexivity]; [done|by apply unused_idle|done].
Qed.
Lemma source_effect body principal requestId ids readNow now state snapshot current s' r :
  resolveSourceReferenceRequest config body principal requestId ids readNow now state snapshot current = Ok (s', r) ->
  unused_version current (generatedTransparentVersion (id_random ids)) ->
  import_effect (id_jobId ids) state current s'.
Proof.
  unfold resolveSourceReferenceRequest. intros H Hv. do 5 ok_step. cbn [rbind] in H.
  destruct (if sq_refresh _ then _ else _) as [cached|]; [injection H as <- _; apply ImportSame; by left|].
  destruct (source_commit _ _ _ _ _ _ _ _ _ _ _ _) as [[s2 r2]|] eqn:E4; [|done]. cbn [rbind fst] in H.
  injection H as <- _. by eapply source_commit_effect.
Qed.

Context (uconfig : UpstreamConfiguration).

(** What [queueTransparentImport] finds when it commits. *)
Record transparent_commits (template : ImportRequest) (feed : Feed) (upstream : Upstream) (refresh : bool)
    (principal : Principal) (requestId : jstr) (ids : ImportIds) (now : Z) (current s' : RegistryState)
    (result : TransparentResult) (created : bool) (currentFeed : Feed) : Prop := {
  tc_feed : currentFeed ∈ feeds current;
  tc_id : fd_id currentFeed = fd_id feed;
  tc_name : fd_name currentFeed = fd_name feed;
  tc_enabled : fd_enabled currentFeed = true;
  tc_readable : canReadNamespace principal (feedNamespace currentFeed) = true;
  tc_trusted : isTrustedFeedBaseUrl uconfig (Some (fd_baseUrl currentFeed)) = true;
  tc_origin : sameUpstreamOrigin (feedAsUpstream currentFeed) upstream = true;
  tc_result :
    let m := fill_collections current in
    let candidates := js_sort newest_first
      (List.filter (template_job config template (feedAsUpstream currentFeed)) (st_jobs current)) in
    (exists job, job ∈ candidates /\ active job = true /\ s' = m /\ result = TransparentAccepted job /\
       created = false) \/
    (Forall (fun job => active job = false) candidates /\
     exists job, job ∈ candidates /\ s' = m /\ created = false /\
       template_release config m template (feedAsUpstream currentFeed) refresh now job = Some result) \/
    (Forall (fun job => active job = false) candidates /\
     Forall (fun job => template_release config m template (feedAsUpstream currentFeed) refresh now job = None)
       candidates /\
     exists e, ae_organizationId e = org /\ created = true /\
       let job := import_job config (id_jobId ids)
                    (with_iq_version (generatedTransparentVersion (id_random ids)) template)
                    (feedAsUpstream currentFeed) now m in
       result = TransparentAccepted job /\ s' = appendAudit e (queue_job job m));
}.
Lemma transparent_commit_cases template feed upstream refresh principal requestId ids now fallback current s'
    result created :
  transparent_commit config uconfig template feed upstream refresh principal requestId ids now fallback current
    = Ok (s', result, created) ->
  exists currentFeed, transparent_commits template feed upstream refresh principal requestId ids now current s'
    result created currentFeed.
Proof.
  unfold transparent_commit. intros H. destruct (ensureState _ _) as [m|] eqn:He; [|done].
  apply ensure_current in He as ->. cbn [rbind] in H.
  destruct (find_first _ (feeds _)) as [cur|] eqn:Ef; [|done]. cbn [require rbind] in H.
  apply find_first_Some in Ef as [Hin Hid%jeqb_true].
  destruct (_ || _ || _) eqn:Eg in H; [done|]. unfold assertTrustedFeedBaseUrl in H.
  destruct (isTrustedFeedBaseUrl _ _) eqn:Et in H; [|done]. cbn [negb rbind] in H.
  destruct (sameUpstreamOrigin _ _) eqn:Es in H; [|done]. cbn [negb] in H.
  apply orb_false_iff in Eg as [[G1%negb_false_iff%jeqb_true G2%negb_false_iff]%orb_false_iff G3%negb_false_iff].
  exists cur. split; try done. cbv zeta. destruct (find_first active _) as [job|] eqn:Ea.
  { injection H as <- <- <-. left. apply find_first_Some in Ea as [Hj Ha]. by exists job. }
  right. apply find_first_None in Ea. destruct (first_some _ _) as [res|] eqn:Er.
  - injection H as <- <- <-. left. split; [done|]. apply first_some_Some in Er as (job & Hj & Hr).
    by exists job.
  - injection H as <- <- <-. right. apply first_some_None in Er. split; [done|]. split; [done|].
    eexists. split; [|split; [reflexivity|split; reflexivity]]. reflexivity.
Qed.
Lemma findTransparentFeed_spec s name principal feed : findTransparentFeed uconfig s name principal = Ok feed ->
  feed ∈ feeds s /\ fd_organizationId feed = pr_organizationId principal /\ fd_enabled feed = true /\
  isTrustedFeedBaseUrl uconfig (Some (fd_baseUrl feed)) = true /\
  canReadNamespace principal (feedNamespace feed) = true.
Proof.
  unfold findTransparentFeed, assertTrustedFeedBaseUrl. intros H. destruct (_ && _) in H; [done|].
  destruct (head _) as [f|] eqn:Eh; [|done]. cbn [require rbind] in H.
  destruct (fd_enabled f) eqn:E1; [|done]. cbn [negb] in H.
  destruct (isTrustedFeedBaseUrl _ _) eqn:E2; [|done]. cbn [negb rbind] in H.
  destruct (canReadNamespace _ _) eqn:E3; [|done]. cbn [negb] in H. injection H as <-.
  assert (Hin : f ∈ feeds s /\ jeqb (fd_organizationId f) (pr_organizationId principal) = true).
  { apply head_Some_elem_of in Eh. assert (Hc : f ∈ List.filter (fun candidate =>
      jeqb (fd_organizationId candidate) (pr_organizationId principal) && agrees name (Some (fd_name candidate))) (feeds s))
      by (destruct name; [done | by apply elem_of_List_filter in Eh as [? _]]).
    by apply elem_of_List_filter in Hc as [? [? _]%andb_true_iff]. }
  destruct Hin as [Hin Ho%jeqb_true]. by split_and!.
Qed.
Lemma findTransparentFeed_in s name principal feed : findTransparentFeed uconfig s name principal = Ok feed ->
  feed ∈ feeds s.
Proof. by intros [? _]%findTransparentFeed_spec. Qed.
Lemma transparent_effect body principal requestId ids readNow now directoryForBase observed state snapshot
    current s' r :
  resolveTransparentProxyRequest config uconfig body principal requestId ids readNow now directoryForBase observed
    state snapshot current = Ok (s', r) ->
  unused_version current (generatedTransparentVersion (id_random ids)) ->
  import_effect (id_jobId ids) state current s'.
Proof.
  unfold resolveTransparentProxyRequest. intros H Hv. do 3 ok_step.
  destruct (findTransparentFeed _ _ _ _) as [feed|] eqn:Hfeed; [|done]. cbn [rbind] in H.
  destruct (if tq_refresh _ then _ else _) as [cached|].
  { destruct (transparentProxyResponse _ _ _ _ _); [|done]. injection H as <- _. apply ImportSame. by left. }
  do 2 ok_step. unfold queueTransparentImport in H.
  destruct (find_first _ (feeds snapshot)) as [configured|]; [|done]. cbn [require rbind] in H.
  destruct (_ || _) in H; [done|].
  destruct (transparent_commit _ _ _ _ _ _ _ _ _ _ _ _) as [[[s2 res] created]|] eqn:Ec; [|done].
  cbn [rbind] in H. destruct (transparentProxyResponse _ _ _ _ _); [|done]. injection H as <- _.
  apply transparent_commit_cases in Ec as (cur & [Hin _ _ _ _ _ _ Hres]). cbv zeta in Hres.
  destruct Hres as [(? & _ & _ & -> & _)|[(_ & ? & _ & -> & _)|(_ & _ & e & He & _ & _ & ->)]];
    [apply ImportSame; by right..|].
  eapply ImportQueued; [| |right; exists cur; by split| |reflexivity]; [done|by apply unused_idle|].
  intros rev [= <-]. exists feed. split; [|done]. by eapply findTransparentFeed_in.
Qed.

(** What a release shows when its provenance matches a request. *)
Record imported_from (skill : SkillVersion) (request : ImportRequest) (upstream : Upstream) : Prop := {
  if_kind : enum_name (pv_kind (sk_provenance skill)) = enum_name (us_kind upstream);
  if_upstream : pv_upstreamId (sk_provenance skill) = Some (us_id upstream);
  if_path : pv_path (sk_provenance skill) = Some (iq_path request);
  if_repository : exists repository, pv_repository (sk_provenance skill) = Some repository /\
    (iq_repository request = None \/ iq_repository request = Some repository) /\
    provenanceRepositoryMatches upstream repository = true;
  if_revision : exists revision, pv_revision (sk_provenance skill) = Some revision /\
    isValidImportRevision upstream revision (iq_externalSnapshotHash request) = true;
  if_feed : (iq_feedId request = None \/ pv_feedId (sk_provenance skill) = iq_feedId request) /\
    (iq_feedConfigRevision request = None \/
     pv_feedConfigRevision (sk_provenance skill) = iq_feedConfigRevision request);
  if_digest : pv_sourceDigest (sk_provenance skill) = None \/
    pv_sourceDigest (sk_provenance skill) = Some (sb_digest (sk_artifact skill));
}.
Lemma agrees_spec {A} `{EqDecision A} (expected actual : option A) :
  agrees expected actual = true <-> expected = None \/ actual = expected.
Proof.
  destruct expected; cbn; [|by split; [left|]]. rewrite bool_decide_eq_true.
  split; [by right | by intros [?|?]].
Qed.
Lemma importProvenanceMatches_spec skill request upstream :
  importProvenanceMatches skill request upstream = true -> imported_from skill request upstream.
Proof.
  unfold importProvenanceMatches. destruct (non_empty (pv_repository _)) as [repository|] eqn:Hr; [|done].
  destruct (pv_revision _) as [revision|] eqn:Hv; [|done]. rewrite !andb_true_iff, !agrees_spec, !bool_decide_eq_true.
  intros [[[[[[[[[[[[[H1 H2] H3] H4] H5] H6] H7] H8] H9] H10] H11] H12] H13] H14].
  assert (Hrep : pv_repository (sk_provenance skill) = Some repository)
    by (destruct (pv_repository (sk_provenance skill)) as [[|c r]|]; cbn in Hr; congruence).
  split; try done.
  - by apply jeqb_true in H1.
  - exists repository. split; [done|]. split; [|done]. destruct H6 as [?|<-]; [by left | by right].
  - by exists revision.
  - destruct (pv_sourceDigest _) as [d|]; [|by left]. right.
    by apply andb_true_iff in H14 as [_ ->%jeqb_true].
Qed.

(** ** Feeds and upstreams *)

Lemma index_of_imap i (l : list Feed) k x : l !! i = Some x ->
  index_of (Some (k + i)%nat) (imap (fun j feed => (Some (k + j)%nat, feed)) l) = Some i.
Proof.
  revert i k. induction l as [|y l IH]; intros i k Hi; [done|]. rewrite imap_cons. cbn [index_of fst].
  destruct i as [|i].
  - rewrite bool_decide_true; [done|]. by rewrite Nat.add_0_r.
  - rewrite bool_decide_false by (intros [[= ?] _]; lia). cbn in Hi. specialize (IH i (S k) Hi).
    replace (S k + i)%nat with (k + S i)%nat in IH by lia.
    rewrite (imap_ext _ (fun j feed => (Some (S k + j)%nat, feed))); [by rewrite IH|].
    intros j ? _. cbn. do 2 f_equal. lia.
Qed.
Lemma index_of_None i (l : list FeedObject) : Forall (fun x => x.1 <> Some i) l -> index_of (Some i) l = None.
Proof.
  induction 1 as [|x l Hx _ IH]; [done|]. cbn [index_of].
  by rewrite bool_decide_false, IH by by intros [? _].
Qed.
(** The object the search found, by its place in the array. *)
Lemma find_object_at p k (l : list Feed) ref f :
  find_first (fun object => p object.2) (imap (fun j feed => (Some (k + j)%nat, feed)) l) = Some (ref, f) ->
  exists i, ref = Some (k + i)%nat /\ l !! i = Some f /\ find_first p l = Some f /\
    forall g, <[i := g]> l = update_first p (fun _ => g) l.
Proof.
  revert k. induction l as [|x l IH]; intros k; [done|]. rewrite imap_cons. cbn [find_first snd update_first].
  destruct (p x) eqn:E.
  - intros [= <- <-]. exists 0%nat. cbn. by rewrite Nat.add_0_r.
  - intros H. destruct (IH (S k)) as (i & -> & Hi & Hf & Hu).
    { rewrite <- H. f_equal. apply imap_ext. intros j ? _. cbn. do 2 f_equal. lia. }
    exists (S i). split; [f_equal; lia|]. split; [done|]. split; [done|]. intros g. cbn. by rewrite Hu.
Qed.
Lemma find_object p l ref f : find_first (fun object => p object.2) (feed_objects l) = Some (ref, f) ->
  exists i, index_of ref (feed_objects l) = Some i /\ find_first p l = Some f /\
    (forall g, (set_element (Some i) g (feed_objects l)).*2 = update_first p (fun _ => g) l) /\
    (forall g, index_of ref (set_element (Some i) g (feed_objects l)) = None).
Proof.
  intros H. destruct (find_object_at p 0 l ref f H) as (i & -> & Hi & Hf & Hu). exists i.
  split; [by apply (index_of_imap i l 0 f)|]. split; [done|]. split.
  - intros g. cbn [set_element]. rewrite list_fmap_insert, <- Hu. cbn. f_equal. unfold feed_objects.
    rewrite fmap_imap. apply list_eq. intros j. rewrite list_lookup_imap. by destruct (l !! j).
  - intros g. apply index_of_None, Forall_lookup. intros j x. cbn [set_element]. rewrite list_lookup_insert_Some.
    intros [(<- & <- & _)|(Hne & Hx)]; [done|]. unfold feed_objects in Hx. rewrite list_lookup_imap in Hx.
    destruct (l !! j); [|done]. cbn in Hx. injection Hx as <-. cbn. intros [= E]. lia.
Qed.

(** A feed after an update: the same feed under a new revision. *)
Definition feed_updated (patch : FeedPatch) (revision : jstr) (feed : Feed) : Feed :=
  with_configRevision revision (patched patch feed).
Lemma update_feed_cases id principal requestId patch ids now current s' updated :
  update_feed_commit config id principal requestId patch ids now current = Ok (s', updated) ->
  updated = None /\ exists existing e, find_first (fun feed => jeqb (fd_id feed) id) (feeds current) = Some existing /\
    ae_organizationId e = org /\
    s' = appendAudit e (with_st_feeds (Some (update_first (fun feed => jeqb (fd_id feed) id)
           (fun _ => feed_updated patch (fe_configRevision ids) existing) (feeds current)))
           (fill_collections current)).
Proof.
  unfold update_feed_commit. intros H. destruct (ensureState _ _) as [m|] eqn:He; [|done].
  apply ensure_current in He as ->. cbn [rbind] in H. change (feeds (fill_collections current)) with (feeds current) in H.
  destruct (@find_first (option nat * Feed) (fun object => jeqb (fd_id object.2) id) (feed_objects (feeds current)))
    as [[ref existing]|] eqn:Ef; [|done].
  destruct (find_object (fun feed => jeqb (fd_id feed) id) _ _ _ Ef) as (i & Hi & Hf & Hset & Hnone).
  destruct (assertFeedNameAvailable _ _ _); [|done]. cbn [rbind] in H. rewrite Hi in H.
  rewrite Hset, Hnone in H. injection H as <- <-. split; [done|]. exists existing. eexists.
  split; [done|]. split; [|reflexivity]. done.
Qed.

(** The change of one feed request. *)
Inductive feed_effect (ids : FeedIds) (current s' : RegistryState) : Prop :=
| FeedsSame : s' = current -> feed_effect ids current s'
| FeedCreated e candidate : ae_organizationId e = org ->
    fi_name candidate ∉ fd_name <$> feeds current ->
    s' = appendAudit e (with_st_feeds (Some (feeds current ++ [new_feed config candidate ids]))
           (fill_collections current)) -> feed_effect ids current s'
| FeedUpdated e id patch existing : ae_organizationId e = org ->
    find_first (fun feed => jeqb (fd_id feed) id) (feeds current) = Some existing ->
    s' = appendAudit e (with_st_feeds (Some (update_first (fun feed => jeqb (fd_id feed) id)
           (fun _ => feed_updated patch (fe_configRevision ids) existing) (feeds current)))
           (fill_collections current)) -> feed_effect ids current s'.
Lemma createFeed_cases body principal requestId ids now current s' feed :
  createFeed config uconfig body principal requestId ids now current = Ok (s', feed) ->
  exists candidate e, requireAdmin principal = Ok tt /\ parseFeed uconfig body = Ok candidate /\
    feed = new_feed config candidate ids /\ fi_name candidate ∉ fd_name <$> feeds current /\
    ae_organizationId e = org /\
    s' = appendAudit e (with_st_feeds (Some (feeds current ++ [feed])) (fill_collections current)).
Proof.
  unfold createFeed, create_feed_commit. intros H.
  destruct (requireAdmin principal) as [[]|] eqn:Ea; [|done]. cbn [rbind] in H.
  destruct (parseFeed uconfig body) as [candidate|] eqn:Ep; [|done]. cbn [rbind] in H.
  destruct (ensureState _ _) as [m|] eqn:He; [|done]. apply ensure_current in He as ->. cbn [rbind] in H.
  destruct (assertFeedNameAvailable _ _ _); [|done]. cbn [rbind] in H.
  change (feeds (fill_collections current)) with (feeds current) in H.
  destruct (existsb _ _) eqn:Ex; [done|]. injection H as <- <-. exists candidate. eexists.
  split; [done|]. split; [done|]. split; [done|]. split; [|split; [|reflexivity]; done].
  intros (f & Hn & Hin)%list_elem_of_fmap. apply not_true_iff_false in Ex. apply Ex, existsb_exists.
  exists f. split; [by apply list_elem_of_In|]. by apply jeqb_true.
Qed.
Lemma feed_effect_of method rest body principal requestId ids now snapshot current s' r :
  handleFeedsRoute config uconfig method rest body principal requestId ids now snapshot current = (s', r) ->
  feed_effect ids current s'.
Proof.
  unfold handleFeedsRoute. intros H.
  assert (Hs : forall x, (current, x) = (s', r) -> feed_effect ids current s') by (intros x [= <- _]; by apply FeedsSame).
  destruct rest as [|id [|? ?]]; [| |by eapply Hs].
  - destruct method; try by eapply Hs.
    destruct (createFeed _ _ _ _ _ _ _ _) as [[s2 feed]|] eqn:Ec; [|by eapply Hs]. injection H as <- _.
    apply createFeed_cases in Ec as (candidate & e & _ & _ & -> & Hf & He & ->). by eapply FeedCreated.
  - destruct (rbind snapshot _) as [existing|]; [|by eapply Hs]. destruct method; try by eapply Hs.
    unfold updateFeed in H. destruct (rbind (requireAdmin _) _) as [[s2 updated]|] eqn:Eu; [|by eapply Hs].
    destruct (requireAdmin principal); [|done]. cbn [rbind] in Eu.
    destruct (parseFeedPatch _ _) as [patch|]; [|done]. cbn [rbind] in Eu.
    apply update_feed_cases in Eu as (-> & existing' & e & Hf & He & ->). injection H as <- _.
    by eapply FeedUpdated.
Qed.

Lemma parse_upstream_spec body principal id upstream : parse_upstream config uconfig body principal id = Ok upstream ->
  us_id upstream = id /\ us_organizationId upstream = org /\ us_configRevision upstream = None.
Proof.
  unfold parse_upstream. intros H. repeat first [progress ok_step | match type of H with
    | (match ?c with _ => _ end) = Ok _ => destruct c end]; by try discriminate.
Qed.
Lemma createUpstream_cases body principal requestId upstreamId auditId now current s' upstream :
  createUpstream config uconfig body principal requestId upstreamId auditId now current = Ok (s', upstream) ->
  exists e, ae_organizationId e = org /\ parse_upstream config uconfig body principal upstreamId = Ok upstream /\
    us_name upstream ∉ us_name <$> st_upstreams current /\
    s' = appendAudit e (with_st_upstreams (st_upstreams current ++ [upstream]) (fill_collections current)).
Proof.
  unfold createUpstream. intros H. destruct (requireAdmin _); [|done]. cbn [rbind] in H.
  destruct (parse_upstream _ _ _ _ _) as [u|] eqn:Ep; [|done]. cbn [rbind] in H.
  destruct (ensureState _ _) as [m|] eqn:He; [|done]. apply ensure_current in He as ->. cbn [rbind] in H.
  destruct (existsb _ _) eqn:Ex; [done|]. injection H as <- <-. eexists. split; [|split; [done|split; [|reflexivity]]];
    [done|]. intros (c & Hn & Hin)%list_elem_of_fmap. apply not_true_iff_false in Ex. apply Ex, existsb_exists.
  exists c. split; [by apply list_elem_of_In|]. by apply jeqb_true.
Qed.
(** ** Imports that a catalog queues *)

(** The change of one of their requests: an access alias on a job, or a job
    with a descriptor. *)
Inductive catalog_effect (jobId : jstr) (current s' : RegistryState) : Prop :=
| CatalogSame : s' = current \/ s' = fill_collections current -> catalog_effect jobId current s'
| CatalogAliased mapping job :
    s' = update_job_object job (addSourceCatalogAlias mapping) (fill_collections current) ->
    catalog_effect jobId current s'
| CatalogQueued e request upstream source acquisition now :
    ae_organizationId e = org -> us_organizationId upstream = org -> iq_feedConfigRevision request = None ->
    server_owned (catalog_job org jobId request upstream source acquisition now current) = true ->
    s' = appendAudit e (queue_job (catalog_job org jobId request upstream source acquisition now current)
                          (fill_collections current)) ->
    catalog_effect jobId current s'.
Lemma enqueue_effect queue input jobId auditId queueNow now current s' r : qu_organizationId queue = org ->
  enqueue queue input jobId auditId queueNow now current = Ok (s', r) -> catalog_effect jobId current s'.
Proof.
  intros Ho H. unfold enqueue in H. ok_inv. apply ensure_current in E1 as ->. unfold enqueue_commit in H.
  destruct (find_first active _); [injection H as <- _; apply CatalogSame; by right|].
  destruct (finished_operation _ _ _); [injection H as <- _; apply CatalogSame; by right|]. ok_inv.
  rewrite Ho. eapply (CatalogQueued _ _ _ _ (openclaw_request queue input (on_source a0))
    (openclaw_upstream queue (on_source a0)) (openclaw_descriptor input (on_source a0)) JUndef queueNow);
    [| | | |reflexivity]; [reflexivity | exact Ho | reflexivity | reflexivity].
Qed.

Lemma retry_request_feed mapping random mutable request : retry_request config mapping random mutable = Ok request ->
  iq_feedConfigRevision request = iq_feedConfigRevision (cm_importRequest mapping).
Proof. unfold retry_request. destruct (find_first _ _); intros H; by ok_inv. Qed.
Lemma queue_catalog_effect mapping principal refresh requestId ids now currentRevision current s' r :
  us_organizationId (cm_upstream mapping) = org -> iq_feedConfigRevision (cm_importRequest mapping) = None ->
  is_undef (cm_acquisition mapping) = false ->
  queueSourceCatalogImport config mapping principal refresh requestId ids now currentRevision current = Ok (s', r) ->
  catalog_effect (id_jobId ids) current s'.
Proof.
  intros Ho Hf Ha H. unfold queueSourceCatalogImport in H. do 2 ok_step. apply ensure_current in E as ->. ok_step.
  destruct (find_first active _); [injection H as <- _; apply CatalogSame; by right|].
  destruct (first_some _ _) as [[job skill]|]; [injection H as <- _; apply CatalogSame; by right|].
  destruct (find_first active _) as [job|]; [injection H as <- _; by eapply CatalogAliased|].
  destruct (first_some _ _) as [[job skill]|]; [injection H as <- _; by eapply CatalogAliased|].
  ok_inv. eapply CatalogQueued; [| | | |reflexivity]; [done | done | |].
  - by rewrite (retry_request_feed _ _ _ _ E).
  - unfold server_owned. cbn. by rewrite Ha.
Qed.
Lemma acquisition_object a : is_undef (acquisition_value a) = false.
Proof. by destruct a. Qed.
Lemma catalog_effect_of sourceId body principal requestId ids readNow now descriptor resolved currentRevision snapshot
    current s' r : pr_organizationId principal = org ->
  resolveSourceRoute config sourceId body principal requestId ids readNow now descriptor resolved currentRevision
    snapshot current = Ok (s', r) -> catalog_effect (id_jobId ids) current s'.
Proof.
  intros Ho H. unfold resolveSourceRoute in H. do 3 ok_step. unfold resolveSourceCatalogRequest in H. do 3 ok_step.
  destruct (if si_refresh _ then _ else _) as [cached|]; [injection H as <- _; apply CatalogSame; by left|].
  do 3 ok_step. eapply queue_catalog_effect; [| | |exact H]; [done | done | apply acquisition_object].
Qed.

Lemma adoption_effect input auditId now current s' : bb_organizationId input = org ->
  appendAdoptionAudit input auditId now current = Ok s' ->
  s' = current \/ exists e, ae_organizationId e = org /\ s' = appendAudit e current.
Proof.
  intros Ho H. unfold appendAdoptionAudit in H. ok_step. destruct (List.filter _ _); injection H as <-; [right|by left].
  eexists. by split; [|reflexivity].
Qed.
End Effects.
