(* ===== verification/ImportIdentity.v ===== *)
(** * What identifies a request, an upstream and a source

    The texts the import queue compares instead of records determine the
    records: the cache key of a request, the origin of an upstream and the
    canonical reference of a source. *)

From Stdlib Require Import ZArith Lia.
From stdpp Require Import base list strings sets sorting.
From S2P Require Import Prelude Js Json Contracts Web Access Names PolicyEval Provenance State.
From S2P Require Import Registry Feeds Imports Directory SourceImports.

Local Open Scope Z_scope.

(** ** [stableStringify] is [stringify] of the members in order *)

Definition by_key {A} (a b : jstr * A) : comparison := jcompare a.1 b.1.
Lemma sort_insert_fmap {A B} (f : A -> B) c d x l : (forall a b, d (f a) (f b) = c a b) ->
  sort_insert d (f x) (f <$> l) = f <$> sort_insert c x l.
Proof.
  intros H. induction l as [|y l IH]; [done|]. cbn. rewrite H. destruct (c x y); [done..|].
  cbn. by rewrite <- IH.
Qed.
Lemma js_sort_fmap {A B} (f : A -> B) c d l : (forall a b, d (f a) (f b) = c a b) ->
  js_sort d (f <$> l) = f <$> js_sort c l.
Proof.
  intros H. induction l as [|x l IH]; [done|]. cbn. fold (js_sort d (f <$> l)). fold (js_sort c l).
  rewrite IH. by apply sort_insert_fmap.
Qed.
Lemma stable_object l : Forall (fun kv => stableStringify kv.2 = stringify kv.2) l ->
  stableStringify (TObj l) = stringify (TObj (js_sort by_key l)).
Proof.
  intros H. cbn [stableStringify]. rewrite (js_sort_fmap _ by_key) by done.
  change (stringify (TObj (js_sort by_key l))) with
    (123 :: join [44] (member_text stringify <$> js_sort by_key l) ++ [125]).
  rewrite <- list_fmap_compose. do 3 f_equal. apply list_fmap_ext. intros i kv Hkv. unfold member_text. cbn.
  do 2 f_equal. apply list_elem_of_lookup_2 in Hkv. rewrite js_sort_perm in Hkv.
  by apply (proj1 (Forall_forall _ _) H).
Qed.
Lemma stable_text s : stableStringify (TStr s) = stringify (TStr s).
Proof. done. Qed.
Lemma stable_text_or_null o : stableStringify (text_or_null o) = stringify (text_or_null o).
Proof. by destruct o. Qed.
Lemma stable_texts l : stableStringify (TArr (TStr <$> l)) = stringify (TArr (TStr <$> l)).
Proof. cbn. do 3 f_equal. rewrite <- !list_fmap_compose. by apply list_fmap_ext. Qed.

(** Two objects with the same keys and the same text have the same members. *)
Definition members_ok (l : list (jstr * jdata)) : Prop :=
  NoDup l.*1 /\ Forall (fun kv => (wf_jstr kv.1 /\ jdata_ok kv.2) /\ stableStringify kv.2 = stringify kv.2) l.
Lemma stable_injective l l' : members_ok l -> members_ok l' ->
  stableStringify (TObj l) = stableStringify (TObj l') ->
  member_of embed <$> js_sort by_key l = member_of embed <$> js_sort by_key l'.
Proof.
  assert (Hok : forall l, members_ok l -> stableStringify (TObj l) = stringify (TObj (js_sort by_key l)) /\
            jdata_ok (TObj (js_sort by_key l))).
  { clear l l'. intros l [Hnd Hl]. split.
    - apply stable_object. eapply Forall_impl; [exact Hl|]. by intros kv [_ ?].
    - apply jdata_ok_obj. rewrite js_sort_perm. split; [done|]. eapply Forall_impl; [exact Hl|]. by intros kv [? _]. }
  intros [-> H1]%Hok [-> H2]%Hok E. apply (f_equal json_parse) in E. rewrite !json_parse_stringify in E by done.
  by injection E.
Qed.
Lemma embed_text_inj o o' : embed (text_or_null o) = embed (text_or_null o') -> o = o'.
Proof. destruct o, o'; cbn; congruence. Qed.
Lemma embed_texts_inj l l' : embed (TArr (TStr <$> l)) = embed (TArr (TStr <$> l')) -> l = l'.
Proof.
  cbn. intros [= H]. revert l' H. induction l as [|s l IH]; intros [|s' l'] H; try done.
  cbn in H. injection H as -> H. f_equal. by apply IH.
Qed.

(** ** Requests *)

(** The strings of a request are made of UTF-16 units. *)
Definition wf_opt (o : option jstr) : Prop :=
  match o with
  | Some s => wf_jstr s
  | None => True
  end.
Definition wf_request (r : ImportRequest) : Prop :=
  Forall wf_jstr [iq_upstreamId r; iq_path r; iq_name r; iq_version r] /\
  Forall wf_opt [iq_ref r; iq_repository r; iq_externalId r; hash_text (iq_externalSnapshotHash r); iq_feedId r;
    iq_feedName r; iq_feedConfigRevision r; iq_sourceReference r; iq_sourceCatalogId r;
    iq_sourceCatalogConfigRevision r].
(** What the cache key is made of. *)
Definition request_key (r : ImportRequest) :=
  (iq_upstreamId r, iq_path r, iq_name r, iq_version r, iq_ref r, iq_repository r, iq_externalId r,
   iq_externalSourceType r, hash_text (iq_externalSnapshotHash r),
   (iq_feedId r, iq_feedName r, iq_feedConfigRevision r),
   (iq_sourceReference r, iq_sourceCatalogId r, iq_sourceCatalogConfigRevision r)).

Lemma text_or_null_ok o : wf_opt o -> jdata_ok (text_or_null o).
Proof. by destruct o. Qed.
Lemma enum_text_ok (t : option ExternalSourceType) : wf_opt (enum_name <$> t).
Proof. destruct t as [[]|]; [apply js_wf..|done]. Qed.

Definition key_members (organizationId : jstr) (r : ImportRequest) : list (jstr * jdata) :=
  match cache_key_data organizationId r with
  | TObj l => l
  | _ => []
  end.
Lemma key_members_ok organizationId r : wf_jstr organizationId -> wf_request r ->
  members_ok (key_members organizationId r).
Proof.
  intros Ho [H1 H2]. split; [by apply (bool_decide_unpack _); vm_compute|].
  rewrite !Forall_cons in H1. rewrite !Forall_cons in H2. destruct_and!.
  unfold key_members, cache_key_data. repeat (apply Forall_cons; split); [..|constructor]; cbn [fst snd];
    (split; [split; [apply js_wf|]|]);
    first [apply stable_text | apply stable_text_or_null | apply text_or_null_ok, enum_text_ok
          | by apply text_or_null_ok | done].
Qed.

(** A member of the object that was printed. *)
Definition key_get (organizationId : jstr) (r : ImportRequest) (k : string) : jsval :=
  obj_get (member_of embed <$> js_sort by_key (key_members organizationId r)) (js k).
Lemma key_fields organizationId r :
  key_get organizationId r "upstreamId" = JStr (iq_upstreamId r) /\
  key_get organizationId r "path" = JStr (iq_path r) /\
  key_get organizationId r "name" = JStr (iq_name r) /\
  key_get organizationId r "version" = JStr (iq_version r) /\
  key_get organizationId r "ref" = embed (text_or_null (iq_ref r)) /\
  key_get organizationId r "repository" = embed (text_or_null (iq_repository r)) /\
  key_get organizationId r "externalId" = embed (text_or_null (iq_externalId r)) /\
  key_get organizationId r "externalSourceType" = embed (text_or_null (enum_name <$> iq_externalSourceType r)) /\
  key_get organizationId r "externalSnapshotHash" = embed (text_or_null (hash_text (iq_externalSnapshotHash r))) /\
  key_get organizationId r "feedId" = embed (text_or_null (iq_feedId r)) /\
  key_get organizationId r "feedName" = embed (text_or_null (iq_feedName r)) /\
  key_get organizationId r "feedConfigRevision" = embed (text_or_null (iq_feedConfigRevision r)) /\
  key_get organizationId r "sourceReference" = embed (text_or_null (iq_sourceReference r)) /\
  key_get organizationId r "sourceCatalogId" = embed (text_or_null (iq_sourceCatalogId r)) /\
  key_get organizationId r "sourceCatalogConfigRevision" =
    embed (text_or_null (iq_sourceCatalogConfigRevision r)).
Proof. split_and!; reflexivity. Qed.
Lemma enum_option_inj (t t' : option ExternalSourceType) : enum_name <$> t = enum_name <$> t' -> t = t'.
Proof. destruct t, t'; cbn; intros H; try done. f_equal. by apply enum_name_inj; injection H. Qed.

(** Two import requests have the same cache key exactly when they ask for the
    same thing: the texts [importRequestsMatch] compares agree iff upstream,
    path, name, version, ref, repository, external identity, feed and source
    catalog agree, a missing snapshot hash and a [null] one being the same. *)
Theorem requests_match_iff (left right : ImportRequest) : wf_request left -> wf_request right ->
  importRequestsMatch left right = true <-> request_key left = request_key right.
Proof.
  intros Hl Hr. unfold importRequestsMatch, importCacheKey. rewrite jeqb_true. split.
  - intros E. apply stable_injective in E; [|by apply key_members_ok; [apply js_wf|]..].
    assert (G : forall k, key_get (js "__request__") left k = key_get (js "__request__") right k)
      by (intros k; unfold key_get, key_members, cache_key_data; exact (f_equal (fun l => obj_get l (js k)) E)).
    destruct (key_fields (js "__request__") left) as (L1 & L2 & L3 & L4 & L5 & L6 & L7 & L8 & L9 & L10 & L11 & L12 & L13 & L14 & L15).
    destruct (key_fields (js "__request__") right) as (R1 & R2 & R3 & R4 & R5 & R6 & R7 & R8 & R9 & R10 & R11 & R12 & R13 & R14 & R15).
    rewrite G in L1, L2, L3, L4, L5, L6, L7, L8, L9, L10, L11, L12, L13, L14, L15.
    rewrite R1 in L1; rewrite R2 in L2; rewrite R3 in L3; rewrite R4 in L4; rewrite R5 in L5; rewrite R6 in L6;
    rewrite R7 in L7; rewrite R8 in L8; rewrite R9 in L9; rewrite R10 in L10; rewrite R11 in L11; rewrite R12 in L12;
    rewrite R13 in L13; rewrite R14 in L14; rewrite R15 in L15.
    injection L1 as L1; injection L2 as L2; injection L3 as L3; injection L4 as L4.
    apply embed_text_inj in L5, L6, L7, L8, L9, L10, L11, L12, L13, L14, L15. apply enum_option_inj in L8.
    unfold request_key. by rewrite L1, L2, L3, L4, L5, L6, L7, L8, L9, L10, L11, L12, L13, L14, L15.
  - unfold request_key, cache_key_data. intros [= -> -> -> -> -> -> -> -> -> -> -> -> -> -> ->]. done.
Qed.

(** ** Upstreams *)

Definition wf_upstream (u : Upstream) : Prop :=
  Forall wf_jstr [us_id u; us_name u; us_namespace u] /\
  Forall wf_opt [us_baseUrl u; us_credentialEnv u; us_configRevision u] /\
  Forall wf_jstr (default [] (us_repositories u)).
Definition upstream_origin (u : Upstream) :=
  (us_id u, us_name u, us_kind u, us_namespace u, us_baseUrl u, us_credentialEnv u, us_configRevision u).
Definition origin_members (u : Upstream) : list (jstr * jdata) :=
  match upstream_origin_data u with
  | TObj l => l
  | _ => []
  end.
Definition jle (s t : jstr) : Prop := jcompare s t <> Gt.
#[local] Instance jle_trans : Transitive jle.
Proof. intros s t u. apply jcompare_le_trans. Qed.
#[local] Instance jle_antisym : AntiSymm eq jle.
Proof.
  intros s t H1 H2. unfold jle in *. rewrite jcompare_antisym in H2. apply jcompare_eq.
  by destruct (jcompare s t).
Qed.
(** The default order of [Array.prototype.sort] depends only on the elements. *)
Lemma js_sort_texts l l' : js_sort jcompare l = js_sort jcompare l' <-> l ≡ₚ l'.
Proof.
  split.
  - intros E. by rewrite <- (js_sort_perm jcompare l), E, js_sort_perm.
  - intros H. apply (StronglySorted_unique jle); [| |by rewrite !js_sort_perm];
      (apply js_sort_sorted; [apply _ | done |]); intros x y Hgt; unfold jle;
      rewrite jcompare_antisym, Hgt; done.
Qed.
Lemma origin_members_ok u : wf_upstream u -> members_ok (origin_members u).
Proof.
  intros (H1 & H2 & H3). split; [by apply (bool_decide_unpack _); vm_compute|].
  rewrite !Forall_cons in H1. rewrite !Forall_cons in H2. destruct_and!.
  assert (Hk : wf_jstr (enum_name (us_kind u))) by (destruct (us_kind u); apply js_wf).
  assert (Hr : jdata_ok (TArr (TStr <$> js_sort jcompare (default [] (us_repositories u))))).
  { apply jdata_ok_arr, Forall_fmap. by rewrite js_sort_perm. }
  unfold origin_members, upstream_origin_data.
  repeat (apply Forall_cons; split); [..|constructor]; cbn [fst snd]; (split; [split; [apply js_wf|]|]);
    first [apply stable_text | apply stable_text_or_null | apply stable_texts | by apply text_or_null_ok | done].
Qed.
Definition origin_get (u : Upstream) (k : string) : jsval :=
  obj_get (member_of embed <$> js_sort by_key (origin_members u)) (js k).
Lemma origin_fields u :
  origin_get u "id" = JStr (us_id u) /\ origin_get u "name" = JStr (us_name u) /\
  origin_get u "kind" = JStr (enum_name (us_kind u)) /\ origin_get u "namespace" = JStr (us_namespace u) /\
  origin_get u "baseUrl" = embed (text_or_null (us_baseUrl u)) /\
  origin_get u "credentialEnv" = embed (text_or_null (us_credentialEnv u)) /\
  origin_get u "repositories" = embed (TArr (TStr <$> js_sort jcompare (default [] (us_repositories u)))) /\
  origin_get u "configRevision" = embed (text_or_null (us_configRevision u)).
Proof. split_and!; reflexivity. Qed.

Lemma sameUpstreamOrigin_refl u : sameUpstreamOrigin u u = true.
Proof. by apply jeqb_true. Qed.
Lemma sameUpstreamOrigin_trans u v x : sameUpstreamOrigin u v = true -> sameUpstreamOrigin v x = true ->
  sameUpstreamOrigin u x = true.
Proof. unfold sameUpstreamOrigin. rewrite !jeqb_true. congruence. Qed.
Lemma same_origin_spec left right : wf_upstream left -> wf_upstream right ->
  sameUpstreamOrigin left right = true <->
  upstream_origin left = upstream_origin right /\
  default [] (us_repositories left) ≡ₚ default [] (us_repositories right).
Proof.
  intros Hl Hr. unfold sameUpstreamOrigin. rewrite jeqb_true, <- js_sort_texts. split.
  - intros E. apply stable_injective in E; [|by apply origin_members_ok..].
    assert (G : forall k, origin_get left k = origin_get right k)
      by (intros k; exact (f_equal (fun l => obj_get l (js k)) E)).
    destruct (origin_fields left) as (L1 & L2 & L3 & L4 & L5 & L6 & L7 & L8).
    destruct (origin_fields right) as (R1 & R2 & R3 & R4 & R5 & R6 & R7 & R8).
    rewrite G in L1, L2, L3, L4, L5, L6, L7, L8.
    rewrite R1 in L1; rewrite R2 in L2; rewrite R3 in L3; rewrite R4 in L4; rewrite R5 in L5; rewrite R6 in L6;
    rewrite R7 in L7; rewrite R8 in L8.
    injection L1 as L1; injection L2 as L2; injection L4 as L4.
    assert (Hk : us_kind right = us_kind left) by (apply (enum_name_inj (A := UpstreamKind)); congruence).
    apply embed_text_inj in L5, L6, L8. apply embed_texts_inj in L7.
    split; [|done]. unfold upstream_origin. by rewrite L1, L2, Hk, L4, L5, L6, L8.
  - unfold upstream_origin, upstream_origin_data. intros [[= -> -> -> -> -> -> ->] ->]. done.
Qed.
(** [sameUpstreamOrigin] is equality of configuration: two upstreams have the
    same origin text exactly when they agree on id, name, kind, namespace, base
    URL, credential variable and revision and list the same repositories, in
    any order; whether they are enabled plays no part. *)
Theorem same_origin_iff (left right : Upstream) : wf_upstream left -> wf_upstream right ->
  sameUpstreamOrigin left right = true <->
  upstream_origin left = upstream_origin right /\
  default [] (us_repositories left) ≡ₚ default [] (us_repositories right).
Proof. apply same_origin_spec. Qed.

(** ** Source references *)

Lemma split_join_parts l : l <> [] -> Forall (fun p => 47 ∉ p) l -> split 47 (join [47] l) = l.
Proof.
  intros Hne H. induction H as [|p l Hp Hl IH]; [done|].
  destruct l as [|p' l]; [by apply split_single|].
  change (join [47] (p :: p' :: l)) with (p ++ 47 :: join [47] (p' :: l)).
  by rewrite split_app_sep, IH, split_single.
Qed.
Lemma join_cons (p : jstr) l : l <> [] -> join [47] (p :: l) = p ++ 47 :: join [47] l.
Proof. by destruct l. Qed.
Lemma join_ne_nil (l : list jstr) : l <> [] -> Forall (fun p => p <> []) l -> join [47] l <> [].
Proof. destruct l as [|p [|p' l]]; [done| |]; intros _ H; inversion H; subst; cbn; [done|]. by destruct p. Qed.

(** The characters of a part are none that the reference forbids. *)
Lemma reference_part_spec part : reference_part part = true ->
  part <> [] /\ Forall (fun c => is_ascii c /\ c <> 47) part /\
  existsb (fun c => control_unit c || (c =? 92) || (c =? 63) || (c =? 35) || (c =? 37)) part = false.
Proof.
  unfold reference_part, safe_part. rewrite !andb_true_iff, !negb_true_iff. intros [_ [Hne%jeqb_false Hc]].
  split; [done|]. rewrite forallb_forall in Hc.
  assert (Hd : forall c, In c part -> is_ascii c /\ c <> 47 /\
    control_unit c || (c =? 92) || (c =? 63) || (c =? 35) || (c =? 37) = false).
  { intros c Hin. apply Hc in Hin. clear -Hin.
    unfold is_alnum, name_punct, is_digit, is_lower, is_upper, between, control_unit, is_ascii in *.
    split_and!; lia. }
  split.
  - apply Forall_forall. intros c Hin%list_elem_of_In. destruct (Hd c Hin) as (? & ? & _). done.
  - apply not_true_iff_false. intros (c & Hin & Hb)%existsb_exists. destruct (Hd c Hin) as (_ & _ & ?). congruence.
Qed.
Lemma print_parts owner repository path : Forall (fun p => p <> []) path ->
  sourceReferenceFromCanonical {| cs_provider := ProviderGithub; cs_host := js "github.com";
    cs_repository := owner ++ js "/" ++ repository; cs_path := join (js "/") path; cs_revision := None |}
  = 64 :: join [47] (js "github" :: owner :: repository :: path).
Proof.
  intros Hp. unfold sourceReferenceFromCanonical. cbn [cs_provider cs_host cs_path cs_repository]. cbv zeta.
  rewrite jeqb_refl. change (js "/") with [47]. destruct path as [|p path].
  - change (jeqb (join [47] []) []) with true. cbv iota. change (js "@github/") with (64 :: js "github" ++ [47]).
    rewrite (join_cons (js "github")), (join_cons owner) by done. cbn [app]. rewrite <- !app_assoc. done.
  - rewrite (proj2 (jeqb_false (join [47] (p :: path)) [])) by by apply join_ne_nil.
    rewrite (join_cons (js "github")), (join_cons owner), (join_cons repository) by done.
    change (js "@github/") with (64 :: js "github" ++ [47]). cbn [app]. rewrite <- !app_assoc. done.
Qed.
(** The sources a reference can name: parts without dots and slashes alone, of
    bounded length. *)
Definition nameable (owner repository : jstr) (path : list jstr) : Prop :=
  Forall (fun p => reference_part p = true) (owner :: repository :: path) /\
  jlen (join [47] (js "github" :: owner :: repository :: path)) <= 2047.

(** A source reference is parsed and printed without loss: what
    [parseCanonicalSourceReference] accepts names a nameable GitHub source whose
    canonical reference is the text itself, and the canonical reference of every
    nameable source is accepted and gives the source back. *)
Theorem source_reference_roundtrip (reference : jstr) (source : CanonicalSourceIdentity) :
  parseCanonicalSourceReference reference = Ok source <->
  reference = sourceReferenceFromCanonical source /\
  exists owner repository path, nameable owner repository path /\
    source = {| cs_provider := ProviderGithub; cs_host := js "github.com";
                cs_repository := owner ++ js "/" ++ repository; cs_path := join (js "/") path;
                cs_revision := None |}.
Proof.
  unfold parseCanonicalSourceReference. split.
  - intros H. destruct (_ || _ || _ || _) eqn:G in H; [done|].
    destruct (_ || _) eqn:G2 in H; [done|].
    destruct (split 47 (drop 1 reference)) as [|provider [|owner [|repository path]]] eqn:Es; try done.
    destruct (jeqb provider (js "github")) eqn:Hp; [|done]. apply jeqb_true in Hp as ->. cbn [negb] in H.
    injection H as <-. apply orb_false_iff in G as [[[G1 _]%orb_false_iff _]%orb_false_iff G4%negb_false_iff].
    apply orb_false_iff in G2 as [_ G2].
    assert (Hall : Forall (fun p => reference_part p = true) (js "github" :: owner :: repository :: path)).
    { apply Forall_forall. intros p Hin%list_elem_of_In. apply negb_false_iff.
      apply not_true_iff_false. intros Hb. apply not_true_iff_false in G2. apply G2, existsb_exists. by exists p. }
    apply Forall_cons in Hall as [_ Hall].
    assert (Hr : reference = 64 :: join [47] (js "github" :: owner :: repository :: path)).
    { rewrite <- Es, join_split. destruct reference as [|c r]; [done|]. cbn in G4.
      apply andb_true_iff in G4 as [E _]. apply Z.eqb_eq in E. assert (c = 64) as -> by (rewrite <- E; reflexivity).
      done. }
    split; [|exists owner, repository, path; split; [|done]].
    + etransitivity; [exact Hr | symmetry; apply print_parts]. apply Forall_cons in Hall as [_ [_ Hall]%Forall_cons].
      eapply Forall_impl; [exact Hall|]. by intros p [? _]%reference_part_spec.
    + split; [done|]. apply Z.ltb_ge in G1. rewrite Hr in G1. unfold jlen in *. cbn [length] in G1. lia.
  - intros [-> (owner & repository & path & [Hall Hlen] & ->)].
    assert (Hne : Forall (fun p => p <> []) path).
    { apply Forall_cons in Hall as [_ [_ Hall]%Forall_cons]. eapply Forall_impl; [exact Hall|].
      by intros p [? _]%reference_part_spec. }
    rewrite print_parts by done. set (parts := js "github" :: owner :: repository :: path).
    assert (Hall' : Forall (fun p => reference_part p = true) parts) by (constructor; [by vm_compute | done]).
    assert (Hchars : Forall (fun p => Forall (fun c => is_ascii c /\ c <> 47) p) parts).
    { eapply Forall_impl; [exact Hall'|]. by intros p (_ & ? & _)%reference_part_spec. }
    assert (Hascii : Forall is_ascii (64 :: join [47] parts)).
    { constructor; [done|]. clear -Hchars. induction Hchars as [|p l Hp Hl IH]; [constructor|].
      assert (Forall is_ascii p) by (eapply Forall_impl; [exact Hp | by intros c [? _]]).
      destruct l; [done|]. rewrite join_cons by done. apply Forall_app. split; [done|]. by constructor. }
    assert (Hbad : existsb (fun c => control_unit c || (c =? 92) || (c =? 63) || (c =? 35) || (c =? 37))
              (64 :: join [47] parts) = false).
    { cbn [existsb]. change (existsb ?f (join _ _)) with (existsb f (join [47] parts)). clear -Hall'.
      assert (He : existsb (fun c => control_unit c || (c =? 92) || (c =? 63) || (c =? 35) || (c =? 37))
                (join [47] parts) = false); [|by rewrite He].
      induction Hall' as [|p l Hp Hl IH]; [done|]. apply reference_part_spec in Hp as (_ & _ & Hb).
      destruct l; [done|]. rewrite join_cons, existsb_app, Hb by done. cbn [orb existsb]. by rewrite IH. }
    rewrite Hbad. destruct (ascii_well_formed _ Hascii) as [_ Hwf].
    change (isWellFormedUnicodeString (64 :: join [47] parts)) with (well_formed (64 :: join [47] parts)).
    rewrite Hwf. rewrite (proj2 (Z.ltb_ge 2048 _)) by (unfold jlen in *; cbn [length]; fold parts in Hlen; lia).
    change (drop 1 (64 :: join [47] parts)) with (join [47] parts). change (startsWith (js "@") (64 :: join [47] parts)) with true.
    cbn [orb negb].
    rewrite split_join_parts; [|done|].
    2: { eapply Forall_impl; [exact Hchars|]. cbv beta. intros p Hp H47.
         by apply (proj1 (Forall_forall _ _) Hp) in H47 as [_ ?]. }
    assert (Hparts : existsb (fun part => negb (reference_part part)) parts = false).
    { apply not_true_iff_false. intros (p & Hin%list_elem_of_In & Hb)%existsb_exists. apply (proj1 (Forall_forall _ _) Hall') in Hin.
      by rewrite Hin in Hb. }
    by rewrite Hparts.
Qed.

(** ** The body of a repeated request *)

Lemma stringValue_Some v s : stringValue v = Some s -> v = JStr s /\ s <> [].
Proof. destruct v as [| | | |[|c t]| |]; cbn; try done. by intros [= <-]. Qed.
Lemma optionalImportField_again v o : optionalImportField v = Ok o ->
  optionalImportField (match o with Some s => JStr s | None => JUndef end) = Ok o.
Proof.
  destruct v as [| | | |s| |]; cbn; try done; [by intros [= <-]..|]. destruct s as [|c s]; [by intros [= <-]|].
  destruct (_ || _) eqn:E; [done|]. intros [= <-]. cbn. cbn in E. by rewrite E.
Qed.
Lemma parseExternalSnapshotHash_again v h : parseExternalSnapshotHash v = Ok h ->
  parseExternalSnapshotHash (hash_value h) = Ok h.
Proof.
  destruct v as [| | | |s| |]; cbn; try done; [by intros [= <-]..|].
  destruct (_ || _ || _) eqn:E; [done|]. intros [= <-]. cbn. by rewrite E.
Qed.
Definition text_value (o : option jstr) : jsval :=
  match o with
  | Some s => JStr s
  | None => JUndef
  end.
Lemma request_body_fields r :
  field (request_body r) "upstreamId" = JStr (iq_upstreamId r) /\ field (request_body r) "path" = JStr (iq_path r) /\
  field (request_body r) "name" = JStr (iq_name r) /\ field (request_body r) "version" = JStr (iq_version r) /\
  field (request_body r) "repository" = text_value (iq_repository r) /\
  field (request_body r) "ref" = text_value (iq_ref r) /\
  field (request_body r) "externalId" = text_value (iq_externalId r) /\
  field (request_body r) "externalSourceType" = text_value (enum_name <$> iq_externalSourceType r) /\
  field (request_body r) "externalSnapshotHash" = hash_value (iq_externalSnapshotHash r).
Proof.
  unfold request_body. destruct (iq_repository r), (iq_ref r), (iq_externalId r), (iq_externalSourceType r);
    split_and!; reflexivity.
Qed.
(** A request that was queued is asked for again without change: the body
    [createDirectoryImport] makes of the request of an import it finds is
    parsed to the same request. *)
Theorem request_body_roundtrip (body : jsval) (request : ImportRequest) :
  parseImportRequest body = Ok request -> parseImportRequest (request_body request) = Ok request.
Proof.
  intros H. unfold parseImportRequest in H. do 4 ok_step. apply require_Ok, stringValue_Some in E1 as [_ Hup], E2 as [_ Hpath].
  rename a into name, a0 into version, a1 into upstreamId, a2 into path.
  assert (Hn : field body "name" = JStr name).
  { unfold requireSkillName in E. destruct (stringValue _) eqn:Es; [|done]. apply stringValue_Some in Es as [-> _].
    by ok_inv. }
  assert (Hv : field body "version" = JStr version).
  { unfold requireVersion in E0. destruct (stringValue _) eqn:Es; [|done]. apply stringValue_Some in Es as [-> _].
    by ok_inv. }
  rewrite Hn in E. rewrite Hv in E0. destruct (unsafe_path path) eqn:Hsafe; [done|].
  destruct (optionalImportField (field body "repository")) as [repository|] eqn:Hr; [|done]. cbn [rbind] in H.
  destruct (optionalImportField (field body "ref")) as [ref|] eqn:Href; [|done]. cbn [rbind] in H.
  destruct (optionalImportField (field body "externalId")) as [externalId|] eqn:Hx; [|done]. cbn [rbind] in H.
  match type of H with rbind ?c _ = _ => destruct c as [sourceType|] eqn:Ht; [|done] end. cbn [rbind] in H.
  destruct (parseExternalSnapshotHash _) as [hash|] eqn:Hh; [|done]. cbn [rbind] in H.
  destruct (match externalId with Some _ => _ | None => _ end) eqn:Hm in H; [done|]. injection H as <-.
  match goal with |- parseImportRequest (request_body ?r) = _ =>
    destruct (request_body_fields r) as (F1 & F2 & F3 & F4 & F5 & F6 & F7 & F8 & F9) end.
  cbn [iq_upstreamId iq_path iq_name iq_version iq_repository iq_ref iq_externalId iq_externalSourceType
       iq_externalSnapshotHash] in *.
  unfold parseImportRequest. rewrite F1, F2, F3, F4, F5, F6, F7, F8, F9, E, E0. cbn [rbind].
  destruct upstreamId as [|c u]; [done|]. destruct path as [|d p]; [done|]. cbn [stringValue require rbind].
  rewrite Hsafe. unfold text_value.
  rewrite (optionalImportField_again _ _ Hr), (optionalImportField_again _ _ Href), (optionalImportField_again _ _ Hx).
  cbn [rbind]. replace (match match enum_name <$> sourceType with Some s => JStr s | None => JUndef end with
    | JUndef | JNull | JStr [] => Ok None
    | v => let? t := require INVALID_IMPORT (enum_value ExternalSourceType v) in Ok (Some t)
    end) with (Ok (E := RegistryApiError) sourceType) by by destruct sourceType as [[]|].
  cbn [rbind]. rewrite (parseExternalSnapshotHash_again _ _ Hh). cbn [rbind]. by rewrite Hm.
Qed.

(** ** Bounds *)

Lemma record_event_spec n c event :
  ct_events c = Z.min n MAX_REQUEST_DIAGNOSTIC_EVENTS -> 0 <= n ->
  ct_catalog c + ct_source c + ct_queuedJobsCreated c = ct_events c ->
  ct_overflow c = (MAX_REQUEST_DIAGNOSTIC_EVENTS <? n) ->
  let c' := record_event event c in
  ct_events c' = Z.min (n + 1) MAX_REQUEST_DIAGNOSTIC_EVENTS /\
  ct_catalog c' + ct_source c' + ct_queuedJobsCreated c' = ct_events c' /\
  ct_overflow c' = (MAX_REQUEST_DIAGNOSTIC_EVENTS <? n + 1).
Proof.
  intros He Hn Hs Ho. cbv zeta. unfold record_event, MAX_REQUEST_DIAGNOSTIC_EVENTS in *.
  destruct (4096 <=? ct_events c) eqn:E; cbn.
  - apply Z.leb_le in E. split_and!; [lia | done |]. symmetry. apply Z.ltb_lt. lia.
  - apply Z.leb_gt in E. split_and!; [lia | destruct event; lia |]. rewrite Ho.
    rewrite (proj2 (Z.ltb_ge 4096 n)), (proj2 (Z.ltb_ge 4096 (n + 1))) by lia. done.
Qed.
(** The diagnostics of one request are bounded and exact: after any sequence of
    observations the counts add up to their number or to 4096, whichever is
    less, and [overflow] says whether some were not counted. *)
Theorem counter_exact (events : list CounterEvent) :
  let c := foldl (fun c event => record_event event c) createRequestUpstreamCounter events in
  ct_catalog c + ct_source c + ct_queuedJobsCreated c = Z.min (Z.of_nat (length events)) 4096 /\
  ct_overflow c = (4096 <? Z.of_nat (length events)).
Proof.
  cbv zeta.
  assert (G : let c := foldl (fun c event => record_event event c) createRequestUpstreamCounter events in
    ct_events c = Z.min (Z.of_nat (length events)) MAX_REQUEST_DIAGNOSTIC_EVENTS /\
    ct_catalog c + ct_source c + ct_queuedJobsCreated c = ct_events c /\
    ct_overflow c = (MAX_REQUEST_DIAGNOSTIC_EVENTS <? Z.of_nat (length events))).
  { cbv zeta. induction events as [|event events (H1 & H2 & H3)] using rev_ind; [done|].
    rewrite foldl_snoc, length_app. cbn [length]. rewrite Nat2Z.inj_add.
    apply record_event_spec; [done | lia | done..]. }
  unfold MAX_REQUEST_DIAGNOSTIC_EVENTS in G. destruct G as (H1 & H2 & H3). split; [lia | done].
Qed.

Lemma exact_row rows detail row : exactDirectoryCatalogRow rows detail = Ok (Some row) ->
  row ∈ rows /\ cr_id row = dd_id detail /\ cr_source row = dd_source detail /\ cr_slug row = dd_slug detail /\
  source_type row <> None.
Proof.
  unfold exactDirectoryCatalogRow. destruct (_ <? _)%nat; [done|].
  destruct (List.filter _ _) as [|r l] eqn:Ef; [done|]. intros [= H].
  destruct (_ || _ || _ || _) eqn:G in H; [done|]. injection H as ->.
  assert (Hin : row ∈ List.filter (fun row => jeqb (cr_id row) (dd_id detail)) rows) by (rewrite Ef; by left).
  apply elem_of_List_filter in Hin as [Hin Hid%jeqb_true].
  rewrite !orb_false_iff, !negb_false_iff, !jeqb_true, bool_decide_eq_false in G.
  destruct G as [[[H1 H2] H3] H4]. done.
Qed.
Lemma walk_pages_row pages client detail page row : walk_pages pages client detail page = Ok row ->
  cr_id row = dd_id detail /\ cr_source row = dd_source detail /\ cr_slug row = dd_slug detail /\
  source_type row <> None.
Proof.
  revert page. induction pages as [|pages IH]; intros page; cbn; [done|].
  destruct (directoryLookupRequest _) as [[[rows more]|]|]; cbn; try done; [|apply IH].
  destruct (exactDirectoryCatalogRow _ _) as [[r|]|] eqn:E; cbn; try done.
  - intros [= ->]. by apply exact_row in E as [_ ?].
  - destruct more; [apply IH | done].
Qed.
Lemma searched_row_spec client options detail row : searched_row client options detail = Ok (Some row) ->
  cr_id row = dd_id detail /\ cr_source row = dd_source detail /\ cr_slug row = dd_slug detail /\
  source_type row <> None.
Proof.
  unfold searched_row. destruct (directoryLookupRequest _) as [[rows|]|]; cbn; try done.
  by intros [_ ?]%exact_row.
Qed.
Lemma lookup_row client detail row : lookupDirectoryCatalogRow client detail = Ok row ->
  cr_id row = dd_id detail /\ cr_source row = dd_source detail /\ cr_slug row = dd_slug detail /\
  source_type row <> None.
Proof.
  unfold lookupDirectoryCatalogRow. set (found := if (2 <=? _)%nat then _ else _).
  destruct found as [[r|]|] eqn:E; cbn [rbind]; try done; [|apply walk_pages_row].
  intros [= <-]. subst found. destruct (2 <=? _)%nat; [|done].
  destruct (searched_row _ _ _) as [[r'|]|] eqn:E1 in E; cbn [rbind] in E; try done.
  - injection E as ->. by eapply searched_row_spec.
  - destruct (directorySearchOwner _); [|done]. by eapply searched_row_spec.
Qed.
(** Whatever the directory answers, an import is queued only for the identity
    that was asked for: the detail has the requested id, made of a safe source
    and slug the upstream allows, and the row that gives the source type is the
    row of this id, source and slug; only a detail with a snapshot hash and
    files goes without one. *)
Theorem catalog_identity (client : DirectoryClient) (id : jstr) (allowed : jstr -> bool)
    (detail : DirectoryDetail) (row : option CatalogRow) :
  catalog_entry client id allowed = Ok (detail, row) ->
  dd_id detail = id /\ id = dd_source detail ++ js "/" ++ dd_slug detail /\
  isSafeDirectoryExternalValue (dd_source detail) = true /\ isSafeDirectoryExternalValue (dd_slug detail) = true /\
  allowed (dd_source detail) = true /\
  match row with
  | Some r => cr_id r = id /\ cr_source r = dd_source detail /\ cr_slug r = dd_slug detail /\ source_type r <> None
  | None => dd_hash detail <> None /\ dd_files detail <> None
  end.
Proof.
  unfold catalog_entry. intros H. destruct (resolveDirectoryDetail client id) as [[d catalogRow]|] eqn:Er; [|done].
  cbn [rbind] in H. destruct (consistent_identity _ _ _ _) eqn:Ec; [|done]. cbn [negb] in H.
  destruct (allowed _) eqn:Ea; [|done]. cbn [negb] in H.
  assert (Hd : d = detail) by (repeat case_match; cbn in H; simplify_eq; try done; ok_inv; congruence). subst d.
  unfold consistent_identity in Ec. rewrite !andb_true_iff, !jeqb_true in Ec.
  destruct Ec as [[[[[Hid Hsrc] _] _] Hs1] Hs2]. split_and!; try done; [congruence|].
  destruct catalogRow as [r|].
  - injection H as <-. unfold resolveDirectoryDetail in Er. destruct (dc_detail _ _) as [|[e|]]; try done.
    destruct (dc_findExact _) as [findExact|]; [|done]. destruct (negb _); [done|].
    destruct (findExact id) as [r'|]; [|done]. unfold detailFromExactCatalogRow in Er.
    destruct (_ || _) eqn:G in Er; [done|]. destruct (negb _) in Er; [done|]. cbn [rbind] in Er. simplify_eq. cbn in *.
    apply orb_false_iff in G as [G1%negb_false_iff G2%bool_decide_eq_false]. done.
  - destruct (_ || _) eqn:G in H.
    + destruct (lookupDirectoryCatalogRow _ _) as [r|] eqn:El; [|done]. injection H as <-.
      apply lookup_row in El as (-> & -> & -> & ?). done.
    + injection H as <-. apply orb_false_iff in G as [G1%bool_decide_eq_false G2%bool_decide_eq_false]. done.
Qed.

(** ** A concrete pair of requests *)

Definition null_hash_import : ImportRequest := {|
  iq_upstreamId := iq_upstreamId demo_import; iq_repository := iq_repository demo_import;
  iq_path := iq_path demo_import; iq_ref := iq_ref demo_import; iq_name := iq_name demo_import;
  iq_version := iq_version demo_import; iq_externalId := None; iq_externalSourceType := None;
  iq_externalSnapshotHash := HashNull; iq_feedId := None; iq_feedName := None; iq_feedConfigRevision := None;
  iq_sourceReference := None; iq_sourceCatalogId := None; iq_sourceCatalogConfigRevision := None;
  iq_sourceCatalogProviderVersion := Some (js "v2") |}.
Lemma demo_import_wf : wf_request demo_import /\ wf_request null_hash_import.
Proof. split; (split; repeat (apply Forall_cons; split); first [apply js_wf | done | apply Forall_nil; done]). Qed.
Lemma requests_match_iff_witness : importRequestsMatch demo_import null_hash_import = true.
Proof.
  apply (requests_match_iff demo_import null_hash_import (proj1 demo_import_wf) (proj2 demo_import_wf)).
  reflexivity.
Defined.
