(* ===== verification/System.v ===== *)
(** * The registry as a transition system

    One organization's registry document evolves by the committed transactions
    of its handlers.  A [World] is the current document with the documents it
    had before; a handler works on a snapshot that is any of these and commits
    on the current one, so every interleaving of their requests is a sequence of
    [step]s.  There is a step for every transaction that writes a collection of
    the record, whoever sends the request, and one for those that write only
    members the record does not have.  The file proves the invariants of this
    system and what every run preserves.  [randomId] is assumed to return ids
    that are not in use. *)

From Stdlib Require Import ZArith Lia SpecFloat.
From stdpp Require Import base list strings sets.
From S2P Require Import Prelude Js Dates Bundle Frontmatter Contracts Web Access Names PolicyEval.
From S2P Require Import Resolve Provenance OpenClawFeed ScanEvidence State Registry Install Jobs.
From S2P Require Import Feeds Imports Directory SourceImports FeedImports CatalogImports ImportState.
From S2P Require Import Authoring Drafts SkillBuilder DraftHandlers Builder BuilderSessions DraftState.
From S2P Require Import DraftCommits BuilderCommits.

Local Open Scope Z_scope.

Record World : Type := {
  w_state : RegistryState;
  w_past : list RegistryState;
}.
Definition w_all (w : World) : list RegistryState := w_state w :: w_past w.
(** Every policy that was ever in force. *)
Definition w_policies (w : World) : list Policy := st_policy <$> w_all w.

Section System.
Context {DR : DateRuntime} {UT : UnicodeTables} {UR : UrlRuntime} {CO : Collation} {CR : Crypto} {BL : Blobs}.
Context (parseDocument : jstr -> option ydocument).
Context (config : Configuration).
Abbreviation org := (cfg_organizationId config).

(** ** Steps *)

(** A proposal id no document has. *)
Definition unused_proposal (w : World) (id : jstr) : Prop :=
  forall s p, s ∈ w_all w -> offered (sessions s) p -> bp_id p <> id.

(** A feed revision no document has. *)
Definition unused_revision (w : World) (revision : jstr) : Prop :=
  forall s feed, s ∈ w_all w -> feed ∈ feeds s -> fd_configRevision feed <> revision.

(** The state a handler read before its transaction. *)
Definition observed (w : World) (snapshot : RegistryState) : Prop :=
  exists s, s ∈ w_all w /\ readState (Some s) org = Ok snapshot.
Definition commit (w : World) (s : RegistryState) : World :=
  {| w_state := s; w_past := w_all w |}.

Inductive step (w : World) : World -> Prop :=
| step_publish body principal requestId ids now commitNow snapshot s' r :
    observed w snapshot ->
    publishSkill parseDocument config body principal requestId ids now commitNow snapshot (w_state w)
      = Ok (s', r) ->
    pi_skillId ids ∉ sk_id <$> st_skills (w_state w) ->
    pi_jobId ids ∉ jb_id <$> st_jobs (w_state w) ->
    step w (commit w s')
| step_pack body principal requestId packId auditId now commitNow snapshot s' r :
    observed w snapshot ->
    createPack config body principal requestId packId auditId now commitNow snapshot (w_state w)
      = Ok (s', r) ->
    step w (commit w s')
| step_policy body principal requestId revision auditId fresh commitNow snapshot s' r :
    observed w snapshot ->
    updatePolicy config body principal requestId revision auditId fresh commitNow snapshot (w_state w)
      = Ok (s', r) ->
    revision ∉ po_revision <$> w_policies w ->
    step w (commit w s')
| step_rescan id principal requestId jobId auditId now commitNow snapshot s' r :
    observed w snapshot ->
    rescanSkill config id principal requestId jobId auditId now commitNow snapshot (w_state w)
      = Ok (s', r) ->
    jobId ∉ jb_id <$> st_jobs (w_state w) ->
    step w (commit w s')
| step_revoke id principal requestId auditId commitNow snapshot s' r :
    observed w snapshot ->
    revokeSkill config id principal requestId auditId commitNow snapshot (w_state w) = Ok (s', r) ->
    step w (commit w s')
| step_authorize body principal requestId ids now commitNow snapshot s' r :
    observed w snapshot ->
    createInstallAuthorization config body principal requestId ids now commitNow snapshot (w_state w)
      = Ok (s', r) ->
    step w (commit w s')
| step_validate id principal requestId auditId now commitNow snapshot s' r :
    observed w snapshot ->
    validateInstallAuthorization config id principal requestId auditId now commitNow snapshot (w_state w)
      = Ok (s', r) ->
    step w (commit w s')
| step_receipt body principal requestId receiptId auditId now snapshot s' r :
    observed w snapshot ->
    createInstallReceipt config body principal requestId receiptId auditId now snapshot (w_state w)
      = Ok (s', r) ->
    step w (commit w s')
| step_grant digest body principal requestId grantId auditId now commitNow snapshot s' r :
    observed w snapshot ->
    createDownloadGrant config digest body principal requestId grantId auditId now commitNow snapshot
      (w_state w) = Ok (s', r) ->
    step w (commit w s')
| step_claim principal requestId leaseToken auditId now s' r :
    claimJob config principal requestId leaseToken auditId now (w_state w) = Ok (s', r) ->
    step w (commit w s')
| step_complete id body principal requestId auditId skillId now commitNow snapshot s' r :
    observed w snapshot ->
    completeJob parseDocument config id body principal requestId auditId skillId now commitNow snapshot
      (w_state w) = Ok (s', r) ->
    skillId ∉ sk_id <$> st_skills (w_state w) ->
    step w (commit w s')
(** A draft request reads the stored document as it is; the semver test is any
    function. *)
| step_draft validSemver principal route ids now readNow commitNow existing snapshot s' r :
    existing ∈ w_all w -> snapshot ∈ w_all w ->
    draftHandler parseDocument org (fun s x p => Some (core_admission config readNow s x p))
      (Some (core_admission config commitNow)) validSemver principal route ids now existing snapshot (w_state w)
      = (s', r) ->
    ids_draftId ids ∉ dr_id <$> drafts (w_state w) ->
    ids_skillId ids ∉ sk_id <$> st_skills (w_state w) ->
    ids_jobId ids ∉ jb_id <$> st_jobs (w_state w) ->
    step w (commit w s')
(** A request of the builder: a proposal of the agent, or a decision. *)
| step_builder principal toolIdentity draftId route ids now commitNow state snapshot refreshed s' r :
    state ∈ w_all w -> snapshot ∈ w_all w -> refreshed ∈ w_all w ->
    builderHandler org principal toolIdentity draftId route ids now commitNow state snapshot refreshed (w_state w)
      = (s', r) ->
    unused_proposal w (bi_proposalId ids) ->
    step w (commit w s')
(** A request of the browser to the builder facade, for a session. *)
| step_session publicOrigin headers revisions digests draftId principal operation now bound snapshot s' r :
    bound ∈ w_all w -> snapshot ∈ w_all w ->
    builderBffHandler org publicOrigin headers revisions digests draftId principal operation now bound snapshot
      (w_state w) = (s', r) ->
    pr_organizationId principal = org ->
    (forall id, opened_id operation = Some id -> id ∉ bs_id <$> sessions (w_state w)) ->
    step w (commit w s')
(** The agent's answer to a prompt that was reserved before. *)
| step_settle record request binding response now s' r :
    (exists s, s ∈ w_all w /\ record ∈ sessions s) -> pq_requestId request <> [] ->
    settlePrompt record request binding response now (w_state w) = (s', r) ->
    step w (commit w s')
(** Feeds and upstreams, under any configuration of the trusted origins. *)
| step_feed uconfig method rest body principal requestId ids now read s' r :
    (exists s, s ∈ w_all w /\ read = readState (Some s) org) ->
    handleFeedsRoute config uconfig method rest body principal requestId ids now read (w_state w) = (s', r) ->
    fe_id ids ∉ fd_id <$> feeds (w_state w) -> unused_revision w (fe_configRevision ids) ->
    step w (commit w s')
| step_upstream uconfig body principal requestId upstreamId auditId now s' r :
    createUpstream config uconfig body principal requestId upstreamId auditId now (w_state w) = Ok (s', r) ->
    upstreamId ∉ us_id <$> st_upstreams (w_state w) ->
    step w (commit w s')
(** An import request: of a release by its upstream and path, by a source
    reference, or by the external id of a feed. *)
| step_import body principal requestId jobId auditId now snapshot s' r :
    observed w snapshot ->
    resolveOrQueueImport config body principal requestId jobId auditId now snapshot (w_state w) = Ok (s', r) ->
    jobId ∉ jb_id <$> st_jobs (w_state w) ->
    step w (commit w s')
| step_source body principal requestId ids readNow now state snapshot s' r :
    observed w state -> observed w snapshot ->
    resolveSourceReferenceRequest config body principal requestId ids readNow now state snapshot (w_state w)
      = Ok (s', r) ->
    id_jobId ids ∉ jb_id <$> st_jobs (w_state w) ->
    unused_version (w_state w) (generatedTransparentVersion (id_random ids)) ->
    step w (commit w s')
| step_transparent uconfig directoryForBase reported body principal requestId ids readNow now state snapshot s' r :
    observed w state -> observed w snapshot ->
    resolveTransparentProxyRequest config uconfig body principal requestId ids readNow now directoryForBase reported
      state snapshot (w_state w) = Ok (s', r) ->
    id_jobId ids ∉ jb_id <$> st_jobs (w_state w) ->
    unused_version (w_state w) (generatedTransparentVersion (id_random ids)) ->
    step w (commit w s')
(** An import that a catalog queues, whatever the catalog client answers, or an
    entry of a trusted OpenClaw feed. *)
| step_catalog sourceId body principal requestId ids readNow now descriptor resolved currentRevision snapshot s' r :
    observed w snapshot ->
    resolveSourceRoute config sourceId body principal requestId ids readNow now descriptor resolved currentRevision
      snapshot (w_state w) = Ok (s', r) ->
    pr_organizationId principal = org ->
    id_jobId ids ∉ jb_id <$> st_jobs (w_state w) ->
    step w (commit w s')
| step_openclaw queue input jobId auditId queueNow now s' r :
    qu_organizationId queue = org ->
    enqueue queue input jobId auditId queueNow now (w_state w) = Ok (s', r) ->
    jobId ∉ jb_id <$> st_jobs (w_state w) ->
    step w (commit w s')
(** The record of a published OpenClaw feed, and that of an adopted
    organization. *)
| step_publication principal requestId auditId feedId sequence entryCount now s' :
    publication_commit config principal requestId auditId feedId sequence entryCount now (w_state w) = Ok s' ->
    step w (commit w s')
| step_adoption input auditId now s' :
    bb_organizationId input = org ->
    appendAdoptionAudit input auditId now (w_state w) = Ok s' ->
    step w (commit w s')
(** A transaction of a service that keeps members of its own in the document
    (both kinds of reviews, search, billing, OpenClaw proofs and snapshots): it
    leaves the collections modelled here as they are, except that [requeue] and
    [updateFindingDecision] of the upload reviews append an event of theirs
    ([ReviewQueue.review_audit]); any event of the organization is allowed. *)
| step_elsewhere : step w (commit w (w_state w))
| step_reviewed event : ae_organizationId event = org ->
    step w (commit w (appendAudit event (w_state w))).

Inductive run (w : World) : World -> Prop :=
| run_refl : run w w
| run_step w' w'' : run w w' -> step w' w'' -> run w w''.

(** ** How the parts of the document change *)

(** A release keeps its identity and its bytes; what changes is its state, and
    a revoked release stays revoked. *)
Record release_step (x x' : SkillVersion) : Prop := {
  rst_id : sk_id x' = sk_id x;
  rst_organization : sk_organizationId x' = sk_organizationId x;
  rst_name : sk_name x' = sk_name x;
  rst_version : sk_version x' = sk_version x;
  rst_artifact : sk_artifact x' = sk_artifact x;
  rst_files : sk_fileCount x' = sk_fileCount x;
  rst_provenance : sk_provenance x' = sk_provenance x;
  rst_scans : sk_scanIds x ⊆ sk_scanIds x';
  rst_revoked : sk_state x = Revoked -> sk_state x' = Revoked;
}.
(** A pack keeps its identity and members; it can only become revoked. *)
Record pack_step (x x' : PackVersion) : Prop := {
  pst_id : pk_id x' = pk_id x;
  pst_organization : pk_organizationId x' = pk_organizationId x;
  pst_name : pk_name x' = pk_name x;
  pst_version : pk_version x' = pk_version x;
  pst_members : pk_members x' = pk_members x;
  pst_manifest : pk_manifestDigest x' = pk_manifestDigest x;
  pst_revision : pk_policyRevision x' = pk_policyRevision x;
  pst_state : pk_state x' = pk_state x \/ pk_state x' = PackRevoked;
}.

(** Evidence under which a release was approved: a policy that was in force
    under the revision the release carries, and results on record under the
    ids the release lists that satisfied it at some moment. *)
Definition approved_with (policies : list Policy) (scans : list ScanResult) (x : SkillVersion) : Prop :=
  sk_state x = Approved -> exists policy results now,
    policy ∈ policies /\ po_revision policy = sk_policyRevision x /\
    Forall (fun r => r ∈ scans /\ sr_id r ∈ sk_scanIds x) results /\
    policy_satisfied policy results (sb_digest (sk_artifact x)) (sk_fileCount x) now.

(** A job belongs to the organization, carries a copy of a policy that was in
    force, and has a lease while it runs. *)
Record job_ok (policies : list Policy) (j : Job) : Prop := {
  jo_organization : jb_organizationId j = org;
  jo_policy : exists policy, policy ∈ policies /\ jb_policy j = clonePolicy policy /\
    jb_policyRevision j = po_revision policy;
  jo_lease : jb_state j = JRunning ->
    exists token expiry, jb_leaseToken j = Some token /\ jb_leaseExpiresAt j = Some expiry;
  jo_upstream : forall u, jb_upstream j = Some u -> us_organizationId u = org;
}.
(** Two queued or running imports of one release are one job, unless a catalog
    queued one of them. *)
Definition one_active (jobs : list Job) : Prop :=
  forall j j' target, j ∈ jobs -> j' ∈ jobs -> active j = true -> active j' = true ->
    server_owned j = false -> server_owned j' = false ->
    import_target j = Some target -> import_target j' = Some target -> j = j'.
(** Feeds and upstreams belong to the organization; no name or id is used twice. *)
Record catalog_ok (s : RegistryState) : Prop := {
  co_upstreams : Forall (fun u => us_organizationId u = org) (st_upstreams s);
  co_upstream_ids : NoDup (us_id <$> st_upstreams s);
  co_upstream_names : NoDup (us_name <$> st_upstreams s);
  co_feeds : Forall (fun f => fd_organizationId f = org) (feeds s);
  co_feed_ids : NoDup (fd_id <$> feeds s);
  co_feed_names : NoDup (fd_name <$> feeds s);
}.

(** One transaction changes a collection in place or appends one entry. *)
Inductive change {A} (R : A -> A -> Prop) (P : A -> Prop) (l : list A) : list A -> Prop :=
| Changed l' : Forall2 R l l' -> change R P l l'
| Added x : P x -> change R P l (l ++ [x]).

Lemma change_same {A} (R : A -> A -> Prop) `{!Reflexive R} P l : change R P l l.
Proof. apply Changed. by apply Forall2_same. Qed.
Lemma change_update {A} (R : A -> A -> Prop) `{!Reflexive R} P p f l :
  (forall x, x ∈ l -> p x = true -> R x (f x)) -> change R P l (update_first p f l).
Proof. intros Hf. apply Changed. by apply update_first_Forall2. Qed.
Lemma change_Forall {A} (R : A -> A -> Prop) (P Q : A -> Prop) l l' :
  change R P l l' -> (forall x y, R x y -> Q x -> Q y) -> (forall x, P x -> Q x) ->
  Forall Q l -> Forall Q l'.
Proof.
  intros [l'' HR|x Hx] H1 H2 HQ.
  - induction HR; inversion HQ; constructor; eauto.
  - apply Forall_app. split; [done|]. by repeat constructor; apply H2.
Qed.
Lemma change_NoDup {A K} (key : A -> K) (R : A -> A -> Prop) P l l' :
  change R P l l' -> (forall x y, R x y -> key y = key x) -> (forall x, P x -> key x ∉ key <$> l) ->
  NoDup (key <$> l) -> NoDup (key <$> l').
Proof.
  intros [l'' HR|x Hx] Hkey HP Hnd.
  - replace (key <$> l'') with (key <$> l); [done|]. clear Hnd HP.
    induction HR as [|a b xs ys Hab _ IH]; [done|]. by rewrite !fmap_cons, (Hkey a b Hab), IH.
  - rewrite fmap_app. apply NoDup_app. split; [done|]. split; [|apply NoDup_singleton].
    intros k Hk ->%list_elem_of_singleton. by eapply HP.
Qed.

#[local] Instance release_step_refl : Reflexive release_step.
Proof. intros x. by split. Qed.
#[local] Instance pack_step_refl : Reflexive pack_step.
Proof. intros x. split; auto. Qed.

(** ** The invariant *)

Definition skill_key (x : SkillVersion) : jstr * jstr := (sk_name x, sk_version x).
Definition pack_key (x : PackVersion) : jstr * jstr := (pk_name x, pk_version x).

(** A publication a draft remembers names a release with those bytes. *)
Definition published (skills : list SkillVersion) (d : SkillDraft) (p : SkillDraftPublicationRecord) : Prop :=
  exists x, x ∈ skills /\ sk_id x = dp_resourceId p /\ sk_name x = dr_name d /\ sk_version x = dp_version p /\
    sb_digest (sk_artifact x) = dp_digest p.
(** The drafts of a document are earlier forms of those of another. *)
Definition drafts_before (l l' : list SkillDraft) : Prop :=
  Forall (fun d => exists d', d' ∈ l' /\ draft_step d d') l.

(** The sessions of a document are earlier forms of those of another. *)
Definition sessions_before (l l' : list SkillBuilderSessionRecord) : Prop :=
  Forall (fun b => exists b', b' ∈ l' /\ session_step b b') l.
(** A proposal took effect between two lists of drafts: its draft was at the
    revision the proposal was made for, and is now at the next, with the files
    its operations make. *)
Definition took_effect (l l' : list SkillDraft) (p : SkillBuilderProposalRecord) : Prop :=
  exists d d', d ∈ l /\ d' ∈ l' /\ dr_id d = bp_draftId p /\ dr_id d' = bp_draftId p /\
    dr_revision d = bp_baseRevision p /\ dr_digest d = bp_baseDigest p /\
    dr_revision d' = bp_baseRevision p + 1 /\ dr_digest d' = bp_proposedDigest p /\
    applyBuilderOperations (dr_files d) (bp_operations p) = Ok (dr_files d').
(** A decision: one to apply takes effect in the same transaction. *)
Definition decided (l l' : list SkillDraft) (p : SkillBuilderProposalRecord) : Prop :=
  bp_state p = ProposalApplied -> took_effect l l' p.
Definition applied_in (w : World) (p : SkillBuilderProposalRecord) : Prop :=
  exists s s', s ∈ w_all w /\ s' ∈ w_all w /\ took_effect (drafts s) (drafts s') p.

(** The feed revision an import carries is one a document had. *)
Definition read_feed (w : World) (j : Job) : Prop :=
  forall request revision, jb_import j = Some request -> iq_feedConfigRevision request = Some revision ->
    exists s feed, s ∈ w_all w /\ feed ∈ feeds s /\ fd_configRevision feed = revision.

Record inv (w : World) : Prop := {
  inv_org : in_organization org (w_state w);
  inv_versions : NoDup (skill_key <$> st_skills (w_state w));
  inv_skill_ids : NoDup (sk_id <$> st_skills (w_state w));
  inv_packs : NoDup (pack_key <$> st_packs (w_state w));
  inv_job_ids : NoDup (jb_id <$> st_jobs (w_state w));
  inv_jobs : Forall (job_ok (w_policies w)) (st_jobs (w_state w));
  inv_approved : Forall (approved_with (w_policies w) (st_scans (w_state w))) (st_skills (w_state w));
  inv_policies p q : p ∈ w_policies w -> q ∈ w_policies w -> po_revision p = po_revision q -> p = q;
  inv_receipts : NoDup (ir_authorizationId <$> receipts (w_state w));
  inv_drafts : Forall (draft_ok org) (drafts (w_state w));
  inv_draft_ids : NoDup (dr_id <$> drafts (w_state w));
  inv_draft_history : Forall (fun s => drafts_before (drafts s) (drafts (w_state w))) (w_all w);
  inv_publications s d p : s ∈ w_all w -> d ∈ drafts s -> p ∈ publications d ->
                           published (st_skills (w_state w)) d p;
  inv_sessions : Forall (session_ok org) (sessions (w_state w));
  inv_session_ids : NoDup (bs_id <$> sessions (w_state w));
  inv_session_history : Forall (fun s => sessions_before (sessions s) (sessions (w_state w))) (w_all w);
  inv_proposals s p p' : s ∈ w_all w -> offered (sessions s) p -> offered (sessions (w_state w)) p' ->
                         bp_id p = bp_id p' -> proposal_step p p';
  inv_applied s p : s ∈ w_all w -> offered (sessions s) p -> bp_state p = ProposalApplied -> applied_in w p;
  inv_applied_once s s' p p' : s ∈ w_all w -> s' ∈ w_all w -> offered (sessions s) p -> offered (sessions s') p' ->
                         bp_state p = ProposalApplied -> bp_state p' = ProposalApplied ->
                         bp_draftId p = bp_draftId p' -> bp_baseRevision p = bp_baseRevision p' -> bp_id p = bp_id p';
  inv_catalog : catalog_ok (w_state w);
  inv_upstream_history : Forall (fun s => st_upstreams s `prefix_of` st_upstreams (w_state w)) (w_all w);
  inv_feed_revisions s s' f f' : s ∈ w_all w -> s' ∈ w_all w -> f ∈ feeds s -> f' ∈ feeds s' ->
                         fd_id f = fd_id f' -> fd_configRevision f = fd_configRevision f' -> f = f';
  inv_imports : one_active (st_jobs (w_state w));
  inv_feed_jobs : Forall (read_feed w) (st_jobs (w_state w));
  inv_schema : st_schemaVersion (w_state w) = 1;
}.

(** What one transaction does to the document. *)
Definition new_skill (s : RegistryState) (x : SkillVersion) : Prop :=
  sk_organizationId x = org /\ skill_key x ∉ skill_key <$> st_skills s /\
  sk_id x ∉ sk_id <$> st_skills s.
Definition new_pack (s : RegistryState) (x : PackVersion) : Prop :=
  pk_organizationId x = org /\ pack_key x ∉ pack_key <$> st_packs s.

Section Delta.
(** The lease tokens the transaction hands out. *)
Context {granted : jstr -> Prop}.
(** The running jobs run under the token they had, or under a new one. *)
Record job_step (policies : list Policy) (j j' : Job) : Prop := {
  js_id : jb_id j' = jb_id j;
  js_kind : jb_kind j' = jb_kind j;
  js_import : jb_import j' = jb_import j;
  js_upstream : jb_upstream j' = jb_upstream j;
  js_owned : server_owned j' = server_owned j;
  js_running : jb_state j' = JRunning ->
    (jb_state j = JRunning /\ jb_leaseToken j' = jb_leaseToken j) \/
    (exists token, jb_leaseToken j' = Some token /\ granted token);
  js_active : active j' = true -> active j = true;
  js_ok : job_ok policies j -> job_ok policies j';
}.
Record new_job (w : World) (policies : list Policy) (j : Job) : Prop := {
  nj_ok : job_ok policies j;
  nj_id : jb_id j ∉ jb_id <$> st_jobs (w_state w);
  nj_queued : jb_state j = JQueued;
  nj_idle : forall target, server_owned j = false -> import_target j = Some target -> idle (w_state w) target;
  nj_feed : read_feed w j;
}.
Definition new_upstream (s : RegistryState) (u : Upstream) : Prop :=
  us_organizationId u = org /\ us_id u ∉ us_id <$> st_upstreams s /\ us_name u ∉ us_name <$> st_upstreams s.
Record feed_step (w : World) (f f' : Feed) : Prop := {
  fs_id : fd_id f' = fd_id f;
  fs_organization : fd_organizationId f' = fd_organizationId f;
  fs_name : fd_name f' = fd_name f;
  fs_revision : f' = f \/ unused_revision w (fd_configRevision f');
}.
Record added_feed (w : World) (f : Feed) : Prop := {
  af_organization : fd_organizationId f = org;
  af_id : fd_id f ∉ fd_id <$> feeds (w_state w);
  af_name : fd_name f ∉ fd_name <$> feeds (w_state w);
  af_revision : unused_revision w (fd_configRevision f);
}.
Definition added_draft (s : RegistryState) (d : SkillDraft) : Prop := dr_id d ∉ dr_id <$> drafts s.
#[export] Instance job_step_refl policies : Reflexive (job_step policies).
Proof. by intros j; split; try left. Qed.
#[local] Instance feed_step_refl w : Reflexive (feed_step w).
Proof. intros f. by split; try left. Qed.

Record delta (w : World) (s' : RegistryState) : Prop := {
  d_skills : change release_step (new_skill (w_state w)) (st_skills (w_state w)) (st_skills s');
  d_approved : Forall (approved_with (st_policy s' :: w_policies w) (st_scans s')) (st_skills s');
  d_packs : change pack_step (new_pack (w_state w)) (st_packs (w_state w)) (st_packs s');
  d_jobs : change (job_step (st_policy s' :: w_policies w))
             (new_job w (st_policy s' :: w_policies w)) (st_jobs (w_state w)) (st_jobs s');
  d_scans : exists new, st_scans s' = st_scans (w_state w) ++ new /\
              Forall (fun r => sr_organizationId r = org) new;
  d_policy : st_policy s' = st_policy (w_state w) \/
             po_revision (st_policy s') ∉ po_revision <$> w_policies w;
  d_authorizations : Forall (fun x => ia_organizationId x = org /\
                       rs_organizationId (ia_resolution x) = org) (st_authorizations s');
  d_tickets : Forall (fun x => it_organizationId x = org /\
                rs_organizationId (it_resolution x) = org) (tickets s');
  d_receipts : Forall (fun x => ir_organizationId x = org /\
                 rs_organizationId (ir_resolution x) = org) (receipts s');
  d_receipt_keys : NoDup (ir_authorizationId <$> receipts s');
  d_grants : Forall (fun x => tg_organizationId x = org) (st_grants s');
  d_audit : Forall (fun x => ae_organizationId x = org) (st_audit s');
  d_drafts : change draft_step (added_draft (w_state w)) (drafts (w_state w)) (drafts s');
  d_draft_ok : Forall (draft_ok org) (drafts s');
  d_publications d p : d ∈ drafts s' -> p ∈ publications d ->
                       (exists d0, d0 ∈ drafts (w_state w) /\ dr_name d0 = dr_name d /\ p ∈ publications d0) \/
                       published (st_skills s') d p;
  d_sessions : session_change org (fun p => unused_proposal w (bp_id p))
                 (decided (drafts (w_state w)) (drafts s')) (sessions (w_state w)) (sessions s');
  d_upstreams : change eq (new_upstream (w_state w)) (st_upstreams (w_state w)) (st_upstreams s');
  d_feeds : change (feed_step w) (added_feed w) (feeds (w_state w)) (feeds s');
  d_schema : st_schemaVersion s' = 1;
}.

Lemma job_ok_mono policies policies' j : policies ⊆ policies' -> job_ok policies j -> job_ok policies' j.
Proof.
  intros Hsub [Ho (p & Hp & Hpol) Hl Hu]. split; [done| |done..]. exists p. split; [by apply Hsub | done].
Qed.
Lemma approved_mono policies policies' scans scans' x :
  policies ⊆ policies' -> scans ⊆ scans' ->
  approved_with policies scans x -> approved_with policies' scans' x.
Proof.
  intros Hp Hs Ha Hst. destruct (Ha Hst) as (p & results & now & Hin & Hrev & Hall & Hsat).
  exists p, results, now. split; [by apply Hp|]. split; [done|]. split; [|done].
  eapply Forall_impl; [exact Hall|]. cbv beta. intros r [? ?]. split; [by apply Hs | done].
Qed.

Lemma change_elem {A} (R : A -> A -> Prop) `{!Reflexive R} P l l' x :
  change R P l l' -> x ∈ l -> exists x', x' ∈ l' /\ R x x'.
Proof.
  intros [l'' HR|y Hy] Hx; [|exists x; split; [set_solver | done]].
  induction HR as [|a b xs ys Hab _ IH]; [by apply not_elem_of_nil in Hx|].
  apply elem_of_cons in Hx as [->|Hx]; [by exists b; split; [left|]|].
  destruct (IH Hx) as (x' & Hin & Hr). exists x'. split; [by right | done].
Qed.
Lemma published_step skills skills' d p P :
  change release_step P skills skills' -> published skills d p -> published skills' d p.
Proof.
  intros Hc (x & Hx & Hid & Hn & Hv & Hd). eapply change_elem in Hc as (x' & Hx' & Hs); [|apply _|exact Hx].
  exists x'. destruct Hs. split_and!; congruence.
Qed.
Lemma drafts_before_same l : drafts_before l l.
Proof. apply Forall_forall. intros d Hd. by exists d. Qed.
Lemma drafts_before_change l l' l'' P :
  drafts_before l l' -> change draft_step P l' l'' -> drafts_before l l''.
Proof.
  intros Hl Hc. eapply Forall_impl; [exact Hl|]. cbv beta. intros d (d' & Hd' & Hs).
  eapply change_elem in Hc as (d'' & Hd'' & Hs'); [|apply _|exact Hd'].
  exists d''. split; [done | by transitivity d'].
Qed.

(** ** Proposals over time *)

Lemma proposal_same_id p p' : proposal_step p p' -> bp_id p' = bp_id p.
Proof. intros [H _]. unfold proposal_content in H. congruence. Qed.
Lemma one_session_now w : inv w -> one_session (sessions (w_state w)).
Proof.
  intros I p q Hp Hq E. pose proof (inv_proposals w I (w_state w) p q ltac:(by left) Hp Hq E) as [H _].
  unfold proposal_content in H. congruence.
Qed.
Lemma offers_delta w s' : inv w -> delta w s' ->
  offers_move (fun p => unused_proposal w (bp_id p)) (decided (drafts (w_state w)) (drafts s'))
    (offered (sessions (w_state w))) (offered (sessions s')).
Proof. intros I D. eapply session_change_offers; [apply D | apply I | apply I | by apply one_session_now]. Qed.

Lemma proposals_delta w s' s p p' : inv w -> delta w s' -> s ∈ s' :: w_all w -> offered (sessions s) p ->
  offered (sessions s') p' -> bp_id p = bp_id p' -> proposal_step p p'.
Proof.
  intros I D. pose proof (inv_proposals w I) as Hinv.
  assert (Hcur : w_state w ∈ w_all w) by (by left).
  assert (Hold : forall s p p', s ∈ w_all w -> offered (sessions s) p -> offered (sessions s') p' ->
            bp_id p = bp_id p' -> proposal_step p p').
  { clear s p p'. intros s p p' Hs Hp Hp' E.
    destruct (offers_delta w s' I D) as [Hk|p0 _ Hf Hk|p0 p1 H0 _ Hst _ Hk].
    - by apply (Hinv s); [| |apply Hk|].
    - destruct (Hk _ Hp') as [->|?]; [by destruct (Hf s p Hs Hp)|by apply (Hinv s)].
    - destruct (Hk _ Hp') as [->|[? _]]; [|by apply (Hinv s)].
      transitivity p0; [|done]. apply (Hinv s); [done..|]. by rewrite E, (proposal_same_id _ _ Hst). }
  intros [->|Hs]%elem_of_cons Hp Hp' E; [|by eapply Hold].
  destruct (offers_delta w s' I D) as [Hk|p0 _ Hf Hk|p0 p1 H0 _ Hst _ Hk].
  - by apply (Hold (w_state w)); [|apply Hk|..].
  - destruct (Hk _ Hp) as [->|?]; [|by apply (Hold (w_state w))].
    destruct (Hk _ Hp') as [->|Hp0]; [done|]. by destruct (Hf (w_state w) p' Hcur Hp0).
  - destruct (Hk _ Hp) as [->|[? _]]; [|by apply (Hold (w_state w))].
    destruct (Hk _ Hp') as [->|[_ Hne]]; [done|]. by rewrite <- E, (proposal_same_id _ _ Hst) in Hne.
Qed.

(** At most one proposal takes effect in a transaction. *)
Lemma newly_applied w s' : inv w -> delta w s' -> exists new : SkillBuilderProposalRecord -> Prop,
  (forall p q, new p -> new q -> p = q) /\
  (forall p, new p -> took_effect (drafts (w_state w)) (drafts s') p) /\
  forall s p, s ∈ s' :: w_all w -> offered (sessions s) p -> bp_state p = ProposalApplied ->
    (exists s0, s0 ∈ w_all w /\ offered (sessions s0) p) \/ new p.
Proof.
  intros I D. assert (Hcur : w_state w ∈ w_all w) by (by left).
  destruct (offers_delta w s' I D) as [Hk|p0 Hst Hf Hk|p0 p1 H0 _ Hst Hv Hk].
  - exists (fun _ => False). split; [done|]. split; [done|].
    intros s p [->|Hs]%elem_of_cons Hp _; left; eauto.
  - exists (fun _ => False). split; [done|]. split; [done|].
    intros s p [->|Hs]%elem_of_cons Hp Ha; left; [|by eauto].
    destruct (Hk _ Hp) as [->|?]; [congruence | by eauto].
  - exists (fun p => p = p1 /\ bp_state p1 = ProposalApplied). split; [by intros p q [-> _] [-> _]|].
    split; [intros p [-> Ha]; by apply Hv|].
    intros s p [->|Hs]%elem_of_cons Hp Ha; [|left; by eauto].
    destruct (Hk _ Hp) as [->|[? _]]; [by right | left; by eauto].
Qed.
Lemma applied_delta w s' s p : inv w -> delta w s' -> s ∈ s' :: w_all w -> offered (sessions s) p ->
  bp_state p = ProposalApplied -> applied_in (commit w s') p.
Proof.
  intros I D Hs Hp Ha. destruct (newly_applied w s' I D) as (new & _ & Hev & Hall).
  destruct (Hall s p Hs Hp Ha) as [(s0 & Hs0 & Hp0)|Hn].
  - destruct (inv_applied w I s0 p Hs0 Hp0 Ha) as (s1 & s2 & ? & ? & ?). exists s1, s2.
    split; [by right | split; [by right | done]].
  - exists (w_state w), s'. split; [right; by left|]. split; [by left | by apply Hev].
Qed.
(** A draft whose revision a proposal made is past the proposal's base. *)
Lemma applied_past w p d : inv w -> applied_in w p -> d ∈ drafts (w_state w) -> dr_id d = bp_draftId p ->
  bp_baseRevision p < dr_revision d.
Proof.
  intros I (s1 & s2 & _ & Hs2 & d1 & d2 & _ & Hd2 & _ & Hid & _ & _ & Hrev & _) Hd E.
  apply (proj1 (Forall_forall _ _) (inv_draft_history w I)) in Hs2.
  apply (proj1 (Forall_forall _ _) Hs2) in Hd2 as (d3 & Hd3 & Hst).
  assert (d3 = d) as ->.
  { apply (NoDup_key_inj dr_id (drafts (w_state w))); [apply I | done..|].
    pose proof (ds_identity _ _ Hst) as Hi. unfold identity in Hi. congruence. }
  destruct (ds_revision _ _ Hst) as [?|[? _]]; lia.
Qed.
Lemma applied_once_delta w s' s1 s2 p p' : inv w -> delta w s' -> s1 ∈ s' :: w_all w -> s2 ∈ s' :: w_all w ->
  offered (sessions s1) p -> offered (sessions s2) p' -> bp_state p = ProposalApplied ->
  bp_state p' = ProposalApplied -> bp_draftId p = bp_draftId p' -> bp_baseRevision p = bp_baseRevision p' ->
  bp_id p = bp_id p'.
Proof.
  intros I D H1 H2 Hp Hp' Ha Ha' Ed Eb. destruct (newly_applied w s' I D) as (new & Huniq & Hev & Hall).
  assert (Hclash : forall q q', (exists s0, s0 ∈ w_all w /\ offered (sessions s0) q) -> new q' ->
            bp_state q = ProposalApplied -> bp_draftId q = bp_draftId q' -> bp_baseRevision q = bp_baseRevision q' -> False).
  { intros q q' (s0 & Hs0 & Hq) (d & d' & Hd & _ & Hid & _ & Hrev & _)%Hev Hqa E1 E2.
    pose proof (applied_past w q d I (inv_applied w I s0 q Hs0 Hq Hqa) Hd ltac:(congruence)). lia. }
  destruct (Hall _ _ H1 Hp Ha) as [Ho|Hn], (Hall _ _ H2 Hp' Ha') as [Ho'|Hn'].
  - destruct Ho as (t & Ht & Hpt), Ho' as (t' & Ht' & Hpt'). by eapply (inv_applied_once w I t t').
  - by destruct (Hclash p p').
  - by destruct (Hclash p' p).
  - by rewrite (Huniq p p').
Qed.

(** ** Imports and the catalog over time *)

Lemma change_eq {A} (P : A -> Prop) l l' : change eq P l l' -> l' = l \/ exists x, P x /\ l' = l ++ [x].
Proof.
  intros [l'' H|x Hx]; [left | right; by exists x].
  induction H as [|? ? ? ? -> _ IH]; [done | by f_equal].
Qed.
Lemma job_step_target policies j j' : job_step policies j j' -> import_target j' = import_target j.
Proof. intros []. unfold import_target, is_import. by rewrite js_kind0, js_import0. Qed.
(** An element of the list after a change comes from one before it, or is the
    new one. *)
Lemma change_back {A} (R : A -> A -> Prop) `{!Reflexive R} P l l' x' : change R P l l' -> x' ∈ l' ->
  (exists x, x ∈ l /\ R x x') \/ (P x' /\ l' = l ++ [x']).
Proof.
  intros [l'' HR|y Hy] Hx.
  - left. induction HR as [|a b xs ys Hab _ IH]; [by apply not_elem_of_nil in Hx|].
    apply elem_of_cons in Hx as [->|Hx]; [exists a; split; [by left | done]|].
    destruct (IH Hx) as (x & ? & ?). exists x. split; [by right | done].
  - apply elem_of_app in Hx as [Hx| ->%list_elem_of_singleton]; [left; by exists x' | by right].
Qed.
Lemma one_active_delta w s' : inv w -> delta w s' -> NoDup (jb_id <$> st_jobs s') -> one_active (st_jobs s').
Proof.
  intros I D Hnd j j' target Hj Hj' Ha Ha' Hw Hw' Ht Ht'. apply (NoDup_key_inj jb_id (st_jobs s')); [done..|].
  destruct (change_back _ _ _ _ _ (d_jobs w s' D) Hj) as [(x & Hx & Hs)|[Hn E]],
    (change_back _ _ _ _ _ (d_jobs w s' D) Hj') as [(x' & Hx' & Hs')|[Hn' E']].
  - rewrite (job_step_target _ _ _ Hs) in Ht. rewrite (job_step_target _ _ _ Hs') in Ht'.
    rewrite (js_id _ _ _ Hs), (js_id _ _ _ Hs'). f_equal.
    apply (inv_imports w I x x' target); [done..| | | | |done|done]; try (by eapply js_active).
    + by rewrite <- (js_owned _ _ _ Hs).
    + by rewrite <- (js_owned _ _ _ Hs').
  - rewrite (job_step_target _ _ _ Hs) in Ht. exfalso.
    by apply (proj1 (Forall_forall _ _) (nj_idle _ _ _ Hn' _ Hw' Ht') x Hx (js_active _ _ _ Hs Ha)).
  - rewrite (job_step_target _ _ _ Hs') in Ht'. exfalso.
    by apply (proj1 (Forall_forall _ _) (nj_idle _ _ _ Hn _ Hw Ht) x' Hx' (js_active _ _ _ Hs' Ha')).
  - rewrite E in E'. by apply app_inj_tail in E' as [_ ->].
Qed.
Lemma catalog_delta w s' : inv w -> delta w s' -> catalog_ok s'.
Proof.
  intros I D. destruct (inv_catalog w I). pose proof (d_upstreams w s' D) as Du. pose proof (d_feeds w s' D) as Df.
  split.
  - eapply change_Forall; [exact Du | by intros x y -> | by intros x [] | done].
  - eapply change_NoDup; [exact Du | by intros x y -> | by intros x (_ & ? & _) | done].
  - eapply change_NoDup; [exact Du | by intros x y -> | by intros x (_ & _ & ?) | done].
  - eapply change_Forall; [exact Df | intros x y [] ?; congruence | by intros x [] | done].
  - eapply change_NoDup; [exact Df | by intros x y [] | by intros x [] | done].
  - eapply change_NoDup; [exact Df | by intros x y [] | by intros x [] | done].
Qed.
Lemma feed_revisions_delta w s' s1 s2 f f' : inv w -> delta w s' -> NoDup (fd_id <$> feeds s') ->
  s1 ∈ s' :: w_all w -> s2 ∈ s' :: w_all w -> f ∈ feeds s1 -> f' ∈ feeds s2 -> fd_id f = fd_id f' ->
  fd_configRevision f = fd_configRevision f' -> f = f'.
Proof.
  intros I D Hnd.
  assert (Hnew : forall s f f', s ∈ w_all w -> f ∈ feeds s' -> f' ∈ feeds s -> fd_id f = fd_id f' ->
            fd_configRevision f = fd_configRevision f' -> f = f').
  { clear s1 s2 f f'. intros s f f' Hs Hf Hf' Hid Hrev.
    destruct (change_back _ _ _ _ _ (d_feeds w s' D) Hf) as [(x & Hx & Hst)|[Hn _]].
    - destruct (fs_revision _ _ _ Hst) as [->|Hu]; [|by destruct (Hu s f' Hs Hf')].
      apply (inv_feed_revisions w I (w_state w) s); [by left | done..].
    - by destruct (af_revision _ _ Hn s f' Hs Hf'). }
  intros [->|H1]%elem_of_cons [->|H2]%elem_of_cons Hf Hf' Hid Hrev.
  - by apply (NoDup_key_inj fd_id (feeds s')).
  - by eapply Hnew.
  - symmetry. by eapply Hnew.
  - by apply (inv_feed_revisions w I s1 s2).
Qed.

(** The invariant survives such a change. *)
Lemma inv_delta w s' : inv w -> delta w s' -> inv (commit w s').
Proof.
  intros I D. destruct (inv_org w I). destruct (d_scans w s' D) as (new & Hscans & Hnew).
  assert (Hjobs : Forall (job_ok (st_policy s' :: w_policies w)) (st_jobs s')).
  { eapply change_Forall; [apply D | intros x y [] ?; auto | by intros x [] |].
    eapply Forall_impl; [apply (inv_jobs w I)|]. intros j. apply job_ok_mono. set_solver. }
  assert (Hids : NoDup (jb_id <$> st_jobs s')).
  { eapply change_NoDup; [apply D | by intros x y [] | by intros x [] | apply I]. }
  pose proof (catalog_delta w s' I D) as Hcat.
  split; cbn [commit w_state]; try apply D; try done.
  - split; try apply D.
    + eapply change_Forall; [apply D | intros x y [] ?; congruence | by intros x [? _] | done].
    + eapply change_Forall; [apply D | intros x y [] ?; congruence | by intros x [? _] | done].
    + eapply Forall_impl; [exact Hjobs|]. by intros j [].
    + rewrite Hscans. by apply Forall_app.
  - eapply change_NoDup; [apply D | | by intros x (_ & ? & _) | apply I].
    intros x y []. unfold skill_key. congruence.
  - eapply change_NoDup; [apply D | by intros x y [] | by intros x (_ & _ & ?) | apply I].
  - eapply change_NoDup; [apply D | | by intros x [_ ?] | apply I].
    intros x y []. unfold pack_key. congruence.
  - intros p q. change (w_policies (commit w s')) with (st_policy s' :: w_policies w).
    assert (Hin : st_policy s' ∈ w_policies w \/ po_revision (st_policy s') ∉ po_revision <$> w_policies w)
      by (destruct (d_policy w s' D) as [->|?]; [by left; left | by right]).
    rewrite !elem_of_cons. intros [->|Hp] [->|Hq] Hrev; try done; [| |by eapply (inv_policies w I)];
      (destruct Hin as [Hin|Hfresh]; [by eapply (inv_policies w I)|]; exfalso; apply Hfresh).
    + rewrite Hrev. by apply list_elem_of_fmap_2.
    + rewrite <- Hrev. by apply list_elem_of_fmap_2.
  - eapply change_NoDup; [apply D | | by intros x ? | apply I].
    intros d d' []. unfold identity in *. congruence.
  - change (w_all (commit w s')) with (s' :: w_all w). constructor; [apply drafts_before_same|].
    eapply Forall_impl; [apply (inv_draft_history w I)|]. intros s Hs. by eapply drafts_before_change, D.
  - intros s d p. change (w_all (commit w s')) with (s' :: w_all w). intros [->|Hs]%elem_of_cons Hd Hp.
    + destruct (d_publications w s' D d p Hd Hp) as [(d0 & Hd0 & Hname & Hp0)|]; [|done].
      eapply published_step; [apply D|]. pose proof (inv_publications w I (w_state w) d0 p) as Hk.
      unfold published in *. rewrite <- Hname. apply Hk; [by left | done..].
    + eapply published_step; [apply D|]. by eapply (inv_publications w I).
  - eapply session_change_ok; [apply D | apply I].
  - eapply session_change_ids; [apply D | apply I].
  - change (w_all (commit w s')) with (s' :: w_all w). constructor.
    + apply Forall_forall. intros b Hb. by exists b.
    + eapply Forall_impl; [apply (inv_session_history w I)|]. intros s Hs. eapply Forall_impl; [exact Hs|].
      cbv beta. intros b (b' & Hb' & Hst). destruct (session_change_steps _ _ _ b' (d_sessions w s' D) Hb') as (c & Hc & Hst').
      exists c. split; [done | by transitivity b'].
  - intros s p p'. by apply proposals_delta.
  - intros s p. by apply applied_delta.
  - intros s1 s2 p p'. by eapply applied_once_delta.
  - change (w_all (commit w s')) with (s' :: w_all w). constructor; [done|].
    eapply Forall_impl; [apply (inv_upstream_history w I)|]. cbv beta. intros s Hs.
    destruct (change_eq _ _ _ (d_upstreams w s' D)) as [->|(u & _ & ->)]; [done|]. by apply prefix_app_r.
  - intros s1 s2 f f'. apply feed_revisions_delta; [done..|]. apply Hcat.
  - by apply (one_active_delta w).
  - assert (Hmono : forall j, read_feed w j -> read_feed (commit w s') j).
    { intros j Hj request rev Hi Hr. destruct (Hj request rev Hi Hr) as (s0 & f & Hs & Hf). exists s0, f.
      split; [by right | done]. }
    eapply change_Forall; [apply D | | by intros j []; auto | eapply Forall_impl; [apply (inv_feed_jobs w I) | exact Hmono]].
    intros j j' Hs Hj request rev. rewrite (js_import _ _ _ Hs). apply Hj.
Qed.

(** ** Building a change

    Each mutation of the document as a transformer of [delta]. *)

Lemma delta_same w : inv w -> delta w (w_state w).
Proof.
  intros I. destruct (inv_org w I). split; try done; try (apply change_same; apply _); try apply I.
  - eapply Forall_impl; [apply (inv_approved w I)|]. intros x. apply approved_mono; set_solver.
  - exists []. by rewrite app_nil_r.
  - by left.
  - left. by exists d.
  - by apply SessionsSame.
Qed.
Lemma delta_fill w : inv w -> delta w (fill_collections (w_state w)).
Proof.
  intros I. destruct (inv_org w I). split; cbn; try done; try (apply change_same; apply _); try apply I.
  - eapply Forall_impl; [apply (inv_approved w I)|]. intros x. apply approved_mono; set_solver.
  - exists []. by rewrite app_nil_r.
  - by left.
  - left. by exists d.
  - by apply SessionsSame.
Qed.

Section Transformers.
Context (w : World) (s : RegistryState) (D : delta w s).

Lemma delta_audit e : ae_organizationId e = org -> delta w (appendAudit e s).
Proof. intros He. destruct D. split; try done. cbn. apply Forall_app. split; [done|]. by constructor. Qed.
Lemma delta_grants l : Forall (fun x => tg_organizationId x = org) l -> delta w (with_st_grants l s).
Proof. intros Hl. destruct D. by split. Qed.
Lemma delta_authorizations l :
  Forall (fun x => ia_organizationId x = org /\ rs_organizationId (ia_resolution x) = org) l ->
  delta w (with_st_authorizations l s).
Proof. intros Hl. destruct D. by split. Qed.
Lemma delta_tickets l :
  Forall (fun x => it_organizationId x = org /\ rs_organizationId (it_resolution x) = org) l ->
  delta w (with_st_installReceiptTickets (Some l) s).
Proof. intros Hl. destruct D. by split. Qed.
Lemma delta_receipts l :
  Forall (fun x => ir_organizationId x = org /\ rs_organizationId (ir_resolution x) = org) l ->
  NoDup (ir_authorizationId <$> l) -> delta w (with_st_installReceipts (Some l) s).
Proof. intros Hl Hnd. destruct D. by split. Qed.
Lemma delta_jobs l :
  change (job_step (st_policy s :: w_policies w)) (new_job w (st_policy s :: w_policies w))
    (st_jobs (w_state w)) l ->
  delta w (with_st_jobs l s).
Proof. intros Hl. destruct D. by split. Qed.
Lemma delta_upstreams l : change eq (new_upstream (w_state w)) (st_upstreams (w_state w)) l ->
  delta w (with_st_upstreams l s).
Proof. intros Hl. destruct D. by split. Qed.
Lemma delta_feeds l : change (feed_step w) (added_feed w) (feeds (w_state w)) l ->
  delta w (with_st_feeds (Some l) s).
Proof. intros Hl. destruct D. by split. Qed.
Lemma delta_drafts l : sessions s = sessions (w_state w) ->
  change draft_step (added_draft (w_state w)) (drafts (w_state w)) (default [] l) ->
  Forall (draft_ok org) (default [] l) ->
  (forall d p, d ∈ default [] l -> p ∈ publications d ->
     (exists d0, d0 ∈ drafts (w_state w) /\ dr_name d0 = dr_name d /\ p ∈ publications d0) \/
     published (st_skills s) d p) ->
  delta w (with_st_drafts l s).
Proof. intros Hs Hl Ho Hp. destruct D. split; try done. by apply SessionsSame. Qed.
Lemma delta_packs l :
  change pack_step (new_pack (w_state w)) (st_packs (w_state w)) l -> delta w (with_st_packs l s).
Proof. intros Hl. destruct D. by split. Qed.
Lemma delta_skills l : drafts s = drafts (w_state w) ->
  change release_step (new_skill (w_state w)) (st_skills (w_state w)) l ->
  Forall (approved_with (st_policy s :: w_policies w) (st_scans s)) l ->
  delta w (with_st_skills l s).
Proof.
  intros Hs Hl Ha. destruct D. split; try done. intros d p Hd Hp. left. exists d. by rewrite <- Hs.
Qed.
Lemma delta_scans new :
  st_scans s = st_scans (w_state w) -> Forall (fun r => sr_organizationId r = org) new ->
  delta w (with_st_scans (st_scans s ++ new) s).
Proof.
  intros Hs Hnew. destruct D. split; try done; cbn.
  - eapply Forall_impl; [eassumption|]. intros x. apply approved_mono; set_solver.
  - exists new. by rewrite Hs.
Qed.
End Transformers.

Lemma delta_policy w policy : inv w -> po_revision policy ∉ po_revision <$> w_policies w ->
  delta w (with_st_policy policy (fill_collections (w_state w))).
Proof.
  intros I Hp. pose proof (delta_fill w I) as D. destruct D. split; try done; cbn.
  - eapply Forall_impl; [apply (inv_approved w I)|]. intros x. apply approved_mono; set_solver.
  - apply change_same. apply _.
  - by right.
Qed.
Lemma delta_update_skill w s id f : delta w s -> st_skills s = st_skills (w_state w) ->
  drafts s = drafts (w_state w) ->
  (forall x, x ∈ st_skills s -> sk_id x = id ->
     release_step x (f x) /\
     (approved_with (st_policy s :: w_policies w) (st_scans s) x ->
      approved_with (st_policy s :: w_policies w) (st_scans s) (f x))) ->
  delta w (update_skill id f s).
Proof.
  intros D Hs Hd Hf. apply delta_skills; [done|done| |].
  - rewrite Hs. apply change_update; [apply _|]. intros x Hx Hid%jeqb_true. rewrite <- Hs in Hx. by apply Hf.
  - apply update_first_Forall; [|apply D]. intros x Hx Hid%jeqb_true. by apply Hf.
Qed.
Lemma delta_update_jobs w s p f : delta w s -> st_jobs s = st_jobs (w_state w) ->
  (forall j, j ∈ st_jobs s -> p j = true -> job_step (st_policy s :: w_policies w) j (f j)) ->
  delta w (with_st_jobs (update_first p f (st_jobs s)) s).
Proof.
  intros D Hs Hf. apply delta_jobs; [done|]. rewrite Hs in *. by apply change_update; [apply _|].
Qed.
Lemma delta_update_job w s id f : delta w s -> st_jobs s = st_jobs (w_state w) ->
  (forall j, j ∈ st_jobs s -> jb_id j = id -> job_step (st_policy s :: w_policies w) j (f j)) ->
  delta w (update_job id f s).
Proof. intros D Hs Hf. apply delta_update_jobs; [done..|]. intros j Hj Hid%jeqb_true. by apply Hf. Qed.

(** A change of the state of a release that does not approve it. *)
Lemma not_approved policies scans x : sk_state x <> Approved -> approved_with policies scans x.
Proof. by intros Hs Ha. Qed.
Lemma unless_revoked_step f x : (sk_state x <> Revoked -> release_step x (f x)) ->
  release_step x (unless_revoked f x).
Proof. unfold unless_revoked. intros Hf. case_bool_decide; [done | by apply Hf]. Qed.
Lemma unless_revoked_not_approved f x : sk_state (f x) <> Approved ->
  sk_state (unless_revoked f x) <> Approved.
Proof. unfold unless_revoked. intros Hf. case_bool_decide as E; [by rewrite E | done]. Qed.

(** ** Handlers *)

Lemma observed_policy w sn : observed w sn -> st_policy sn ∈ w_policies w.
Proof.
  intros (s & Hs & H). unfold readState in H. ok_inv. apply ensureState_ok in E as [-> _].
  change (st_policy s ∈ w_policies w). by apply list_elem_of_fmap_2.
Qed.
Lemma observed_org w sn : observed w sn -> in_organization org sn.
Proof.
  intros (s & Hs & H). unfold readState in H. ok_inv. by apply validateStateStatuses_ok in E0 as [? _].
Qed.

Lemma has_version_false skills name version :
  has_version skills name version = false -> (name, version) ∉ skill_key <$> skills.
Proof.
  intros Hf (x & Heq & Hx)%list_elem_of_fmap. injection Heq as -> ->.
  assert (Ht : has_version skills (sk_name x) (sk_version x) = true); [|congruence].
  apply existsb_elem. exists x. by rewrite !jeqb_refl.
Qed.
Lemma has_pack_false packs name version :
  has_pack packs name version = false -> (name, version) ∉ pack_key <$> packs.
Proof.
  intros Hf (x & Heq & Hx)%list_elem_of_fmap. injection Heq as -> ->.
  assert (Ht : has_pack packs (pk_name x) (pk_version x) = true); [|congruence].
  apply existsb_elem. exists x. by rewrite !jeqb_refl.
Qed.

Lemma scan_job_ok policies id resourceId artifact policy now : policy ∈ policies ->
  job_ok policies (scan_job config id resourceId artifact (clonePolicy policy) (po_revision policy) now).
Proof. intros Hp. split; [done | by exists policy | done..]. Qed.

Lemma publish_prepare_spec body principal snapshot ids now skill job digest :
  publish_prepare parseDocument config body principal snapshot ids now = Ok (skill, job, digest) ->
  sk_organizationId skill = org /\ sk_state skill = Pending /\ sk_id skill = pi_skillId ids /\
  exists artifact, job = scan_job config (pi_jobId ids) (pi_skillId ids) artifact
    (clonePolicy (st_policy snapshot)) (po_revision (st_policy snapshot)) now.
Proof. unfold publish_prepare. intros H. ok_inv. simplify_eq. repeat split; eauto. Qed.

Lemma publish_delta w body principal requestId ids now commitNow snapshot s' r :
  inv w -> observed w snapshot ->
  publishSkill parseDocument config body principal requestId ids now commitNow snapshot (w_state w)
    = Ok (s', r) ->
  pi_skillId ids ∉ sk_id <$> st_skills (w_state w) ->
  pi_jobId ids ∉ jb_id <$> st_jobs (w_state w) -> delta w s'.
Proof.
  intros I Ho H Hid Hjob. unfold publishSkill in H. ok_step. destruct a as [[skill job] digest].
  apply publish_prepare_spec in E as (Horg & Hst & Hsid & artifact & ->).
  unfold publish_commit in H. ok_inv. apply ensureState_ok in E as [-> _].
  apply has_version_false in G. pose proof (delta_fill w I) as D.
  apply delta_audit; [|done]. apply delta_jobs; [apply delta_skills; [done|done| |]|].
  - apply Added. split; [done|]. split; [done|]. by rewrite Hsid.
  - apply Forall_app. split; [apply D|]. constructor; [|done]. apply not_approved. by rewrite Hst.
  - apply Added. split; [|done..]. apply scan_job_ok. right. by apply observed_policy.
Qed.
Lemma pack_prepare_spec body principal snapshot packId now pack :
  pack_prepare config body principal snapshot packId now = Ok pack -> pk_organizationId pack = org.
Proof.
  unfold pack_prepare. intros H. ok_inv. destruct (field body "skills"); try done. by ok_inv.
Qed.
Lemma pack_delta w body principal requestId packId auditId now commitNow snapshot s' r :
  inv w ->
  createPack config body principal requestId packId auditId now commitNow snapshot (w_state w)
    = Ok (s', r) -> delta w s'.
Proof.
  intros I H. unfold createPack, pack_commit in H. ok_inv. apply pack_prepare_spec in E.
  apply ensureState_ok in E0 as [-> _]. pose proof (delta_fill w I) as D.
  apply delta_audit; [|done]. apply delta_packs; [done|]. apply Added.
  split; [done | by apply has_pack_false].
Qed.

Lemma policy_delta w body principal requestId revision auditId fresh commitNow snapshot s' r :
  inv w ->
  updatePolicy config body principal requestId revision auditId fresh commitNow snapshot (w_state w)
    = Ok (s', r) ->
  revision ∉ po_revision <$> w_policies w -> delta w s'.
Proof.
  intros I H Hrev. unfold updatePolicy in H. ok_inv. apply ensureState_ok in E0 as [-> _].
  apply delta_audit; [|done]. by apply delta_policy.
Qed.

Lemma rescan_delta w id principal requestId jobId auditId now commitNow snapshot s' r :
  inv w -> observed w snapshot ->
  rescanSkill config id principal requestId jobId auditId now commitNow snapshot (w_state w)
    = Ok (s', r) ->
  jobId ∉ jb_id <$> st_jobs (w_state w) -> delta w s'.
Proof.
  intros I Ho H Hjob. unfold rescanSkill in H. destruct (find_first _ _) as [skill|]; [|done]. ok_inv.
  apply ensureState_ok in E as [-> _]. destruct (find_skill _ _); [|done]. ok_inv.
  pose proof (delta_fill w I) as D. apply delta_audit; [|done]. apply delta_jobs.
  - apply delta_update_skill; [done..|]. intros x _ _. split.
    + apply unless_revoked_step. by split.
    + intros _. by apply not_approved, unless_revoked_not_approved.
  - apply Added. split; [|done..]. apply scan_job_ok. right. by apply observed_policy.
Qed.

Lemma revoke_packs_step id packs : Forall2 pack_step packs (revoke_packs id packs).
Proof. apply map_Forall2. intros p _. destruct (contains_member id p); split; cbn; auto. Qed.
Lemma revoke_delta w id principal requestId auditId commitNow snapshot s' r :
  inv w ->
  revokeSkill config id principal requestId auditId commitNow snapshot (w_state w) = Ok (s', r) ->
  delta w s'.
Proof.
  intros I H. unfold revokeSkill in H. destruct (find_skill _ _) as [?|]; [|done]. ok_inv.
  apply ensureState_ok in E as [-> _]. destruct (find_skill _ _); [|done]. ok_inv.
  pose proof (delta_fill w I) as D. apply delta_audit; [|done]. apply delta_packs.
  - apply delta_update_skill; [done..|]. intros x _ _. split; [by split|].
    intros _. by apply not_approved.
  - apply Changed, revoke_packs_step.
Qed.

(** ** Installing *)

Lemma resolution_organization state principal now r :
  in_organization org state -> resolution_ok state principal now r -> rs_organizationId r = org.
Proof.
  intros Hio [Hm Hsk Hpk]. destruct (rs_kind r).
  - destruct (Hsk eq_refl) as (skill & Hms & ->). apply Forall_singleton in Hm as [Hin _].
    by apply (proj1 (Forall_forall _ _) (io_skills _ _ Hio)).
  - destruct (Hpk eq_refl) as (pack & Hin & _ & _ & _ & -> & _).
    by apply (proj1 (Forall_forall _ _) (io_packs _ _ Hio)).
Qed.
Lemma requested_resolution_ok state principal now requested r :
  resolveRequestedResolution state principal now requested = Ok r -> resolution_ok state principal now r.
Proof.
  unfold resolveRequestedResolution. intros H. ok_inv.
  destruct (match stringValue (field requested "ref") with Some _ => _ | None => _ end); [|done]. ok_inv.
  destruct (resolveResource _ _ _ _ _ _) as [res c| |] eqn:Er; try done. ok_inv.
  apply resolveResource_ok in Er as [Er _]. destruct (field requested "members"); ok_inv; done.
Qed.

Lemma authorize_delta w body principal requestId ids now commitNow snapshot s' r :
  inv w -> observed w snapshot ->
  createInstallAuthorization config body principal requestId ids now commitNow snapshot (w_state w)
    = Ok (s', r) -> delta w s'.
Proof.
  intros I Ho H. unfold createInstallAuthorization, authorization_prepare in H. ok_inv. cbn [fst snd] in H.
  apply requested_resolution_ok, resolution_organization in E0; [|by apply (observed_org w)].
  unfold authorization_commit in H. ok_inv. apply ensureState_ok in E as [-> _].
  destruct (resolveResource _ _ _ _ _ _); try done. ok_inv.
  pose proof (delta_fill w I) as D. destruct (inv_org w I). apply delta_audit; [|done].
  apply delta_tickets; [apply delta_authorizations; [done|]|].
  - apply Forall_app. split; [done|]. by repeat constructor.
  - apply Forall_app. split; [by apply filter_Forall|]. by repeat constructor.
Qed.

Lemma validate_delta w id principal requestId auditId now commitNow snapshot s' r :
  inv w ->
  validateInstallAuthorization config id principal requestId auditId now commitNow snapshot (w_state w)
    = Ok (s', r) -> delta w s'.
Proof.
  intros I H. unfold validateInstallAuthorization in H. ok_inv. apply ensureState_ok in E0 as [-> _].
  pose proof (delta_fill w I) as D. destruct (inv_org w I). apply delta_audit; [|done].
  apply delta_authorizations; [done|]. by apply update_first_Forall.
Qed.

Lemma grant_delta w digest body principal requestId grantId auditId now commitNow snapshot s' r :
  inv w ->
  createDownloadGrant config digest body principal requestId grantId auditId now commitNow snapshot
    (w_state w) = Ok (s', r) -> delta w s'.
Proof.
  intros I H. unfold createDownloadGrant in H. ok_inv.
  destruct (stringValue _); [|done]. destruct (stringValue _); [|done]. ok_inv.
  apply ensureState_ok in E0 as [-> _]. destruct (find_first _ _); [|done]. ok_inv.
  pose proof (delta_fill w I) as D. destruct (inv_org w I). apply delta_audit; [|done].
  apply delta_grants; [done|]. apply Forall_app. split; [done|]. by repeat constructor.
Qed.
Lemma receipt_delta w body principal requestId receiptId auditId now snapshot s' r :
  inv w ->
  createInstallReceipt config body principal requestId receiptId auditId now snapshot (w_state w)
    = Ok (s', r) -> delta w s'.
Proof.
  intros I H. unfold createInstallReceipt in H. ok_inv. apply ensureState_ok in E0 as [-> _].
  pose proof (delta_fill w I) as D. destruct (inv_org w I).
  unfold receipt_commit in H. set (kept := List.filter _ _) in H.
  assert (Hk : Forall (fun x => ir_organizationId x = org /\ rs_organizationId (ir_resolution x) = org) kept)
    by (by apply filter_Forall).
  assert (Hnd : NoDup (ir_authorizationId <$> kept)) by (apply filter_NoDup_fmap, I).
  assert (Dk : delta w (with_st_installReceipts (Some kept) (fill_collections (w_state w))))
    by (by apply delta_receipts).
  destruct (find_first _ kept) as [existing|] eqn:Ef; [by ok_inv|].
  destruct (find_first (receipt_ticket _ _ _) _) as [ticket|] eqn:Et; [|done]. ok_inv. bool_inv.
  apply find_first_Some in Et as [Hin _].
  assert (Ht : Forall (fun x => it_organizationId x = org /\ rs_organizationId (it_resolution x) = org)
            (live_tickets now (tickets (w_state w)))) by (by apply filter_Forall).
  apply delta_audit; [|done]. apply delta_tickets; [apply delta_receipts; [done| |]|].
  - apply Forall_app. split; [done|]. apply Forall_singleton. split; [done|]. cbn.
    by apply (proj1 (Forall_forall _ _) io_tickets) in Hin as [_ ?].
  - rewrite fmap_app. apply NoDup_app. split; [done|]. split; [|apply NoDup_singleton].
    intros k (x & -> & Hx)%list_elem_of_fmap Hk1%list_elem_of_singleton. cbn in Hk1.
    apply find_first_None in Ef. apply (proj1 (Forall_forall _ _) Ef) in Hx.
    by apply jeqb_false in Hx.
  - case_match; [by apply Forall_drop | done].
Qed.

(** ** Jobs *)

Lemma claimable_active now j : claimable config now j = true -> active j = true.
Proof. unfold claimable, active. destruct (jb_state j); rewrite ?andb_false_r; done. Qed.
Lemma claim_delta w principal requestId leaseToken auditId now s' r :
  inv w -> claimJob config principal requestId leaseToken auditId now (w_state w) = Ok (s', r) ->
  (forall wj, r = Some wj -> granted leaseToken) -> delta w s'.
Proof.
  intros I H Hg. unfold claimJob in H. ok_inv. apply ensureState_ok in E as [-> _].
  pose proof (delta_fill w I) as D. destruct (find_first _ _) as [job|]; [|by ok_inv]. ok_inv. specialize (Hg _ eq_refl).
  apply delta_audit; [|done]. apply (delta_update_jobs w (fill_collections (w_state w))); [done..|].
  intros j _ Hc. split; try done; [intros _; right; by exists leaseToken | by intros _; eapply claimable_active|].
  intros [Ho Hp _ Hu]. split; [done | done | | done]. cbn. eauto.
Qed.

(** A job that has left the running state needs no lease. *)
Definition same_origin (j j' : Job) : Prop :=
  jb_id j' = jb_id j /\ jb_organizationId j' = jb_organizationId j /\ jb_policy j' = jb_policy j /\
  jb_policyRevision j' = jb_policyRevision j /\ jb_kind j' = jb_kind j /\ jb_import j' = jb_import j /\
  jb_upstream j' = jb_upstream j /\ server_owned j' = server_owned j.
Lemma stopped_step policies j j' : same_origin j j' -> active j' = false -> job_step policies j j'.
Proof.
  intros (Hid & Ho & Hp & Hr & Hk & Hi & Hu & Hw) Hs. split; try done; [| by rewrite Hs|].
  { intros Hrun. unfold active in Hs. by rewrite Hrun in Hs. }
  intros [Ho' (p & Hin & Hp' & Hr') _ Hu'].
  split; [congruence | exists p; by rewrite Hp, Hr | | by rewrite Hu].
  intros Hrun. unfold active in Hs. rewrite Hrun in Hs. done.
Qed.
Lemma finished_step policies e now j j' : same_origin j j' -> job_step policies j (finished e now j').
Proof.
  intros Ho. unfold finished, set_error. by destruct (non_empty e); apply stopped_step.
Qed.

Lemma fenced_active leaseToken now j : fenced leaseToken now j = false -> active j = true.
Proof. unfold fenced, active. by destruct (jb_state j). Qed.

Lemma parse_scan_results_org raw job digest now results :
  parse_scan_results config raw job digest now = Ok results ->
  Forall (fun r => sr_organizationId r = org) results.
Proof.
  unfold parse_scan_results. destruct raw; intros H; try done; ok_inv; [done|].
  destruct (non_empty digest); [|done]. ok_inv. apply map_result_Ok_Forall2 in E.
  clear -E. induction E as [|x y xs ys Hx _ IH]; constructor; [|done].
  by apply parseScanResult_ok in Hx as [].
Qed.
Section Completion.
Context (w : World) (I : inv w) (id : jstr) (principal : Principal).
Context (requestId auditId skillId : jstr) (now : Z) (job : Job).
Abbreviation current := (fill_collections (w_state w)).
Context (Hjob : find_job current id = Some job).

Lemma job_in : job ∈ st_jobs (w_state w) /\ job_ok (w_policies w) job.
Proof.
  apply find_job_Some in Hjob as [Hin _]. split; [done|].
  by apply (proj1 (Forall_forall _ _) (inv_jobs w I)).
Qed.

Lemma requeue_delta s' r : active job = true ->
  complete_requeue config id principal requestId auditId now job current = (s', r) -> delta w s'.
Proof.
  unfold complete_requeue. intros Hrun [= <- _]. pose proof (delta_fill w I) as D.
  apply delta_audit; [|done].
  assert (Dj : delta w (update_job id (requeued now (st_policy current)) current)).
  { apply delta_update_job; [done..|]. intros j Hj Hid. split; try done.
    - intros _. apply find_job_Some in Hjob as [Hjin Hjid].
      assert (j = job) as -> by (apply (NoDup_key_inj jb_id (st_jobs (w_state w))); [apply I | done | done | congruence]).
      done.
    - intros [Ho _ _ Hu]. split; [done| |done..]. exists (st_policy current). split; [by left | done]. }
  destruct (non_empty _); [|done]. apply delta_update_skill; [done..|]. intros x _ _. split.
  - apply unless_revoked_step. by split.
  - intros _. by apply not_approved, unless_revoked_not_approved.
Qed.

Lemma failed_delta error s' r :
  complete_failed config id principal requestId auditId now error job current = (s', r) -> delta w s'.
Proof.
  unfold complete_failed. intros [= <- _]. pose proof (delta_fill w I) as D.
  apply delta_audit; [|done].
  assert (Dj : delta w (update_job id (failed now error) current)).
  { apply delta_update_job; [done..|]. intros j _ _. by apply stopped_step. }
  destruct (non_empty _); [|done]. apply delta_update_skill; [done..|]. intros x _ _. split.
  - apply unless_revoked_step. by split.
  - intros _. by apply not_approved, unless_revoked_not_approved.
Qed.

(** What the evaluation of a job's policy copy says about the policies. *)
Lemma approved_by_job results digest fileCount policies :
  w_policies w ⊆ policies ->
  pe_state (evaluatePolicy (jb_policy job) results digest fileCount now) = Approved ->
  exists policy, policy ∈ policies /\ po_revision policy = jb_policyRevision job /\
    policy_satisfied policy results digest fileCount now.
Proof.
  intros Hsub Hev. destruct job_in as [_ [_ (p & Hp & Hcopy & Hrev) _]].
  exists p. split; [by apply Hsub|]. split; [done|].
  rewrite Hcopy, evaluatePolicy_clone in Hev. by apply evaluatePolicy_spec.
Qed.

Lemma scanned_skill_step evaluation revision results x :
  release_step x (scanned_skill now evaluation revision results x).
Proof using DR now.
  clear I Hjob parseDocument granted. unfold scanned_skill, unless_revoked. cbv zeta.
  repeat case_bool_decide; split; try done; cbn; try (intros ?; congruence);
    intros i Hi; apply elem_of_dedup; set_solver.
Qed.
Lemma scanned_skill_fields evaluation revision results x :
  sk_policyRevision (scanned_skill now evaluation revision results x) = revision /\
  sk_scanIds (scanned_skill now evaluation revision results x) =
    dedup (sk_scanIds x ++ (sr_id <$> results)) /\
  (sk_state (scanned_skill now evaluation revision results x) = Approved -> pe_state evaluation = Approved).
Proof using DR now. clear I Hjob parseDocument granted. unfold scanned_skill, unless_revoked. cbv zeta. repeat case_bool_decide; cbn in *; repeat split; congruence. Qed.

Lemma scan_delta results s' r : Forall (fun x => sr_organizationId x = org) results ->
  complete_scan config id principal requestId auditId now results job current = Ok (s', r) -> delta w s'.
Proof.
  intros Hres H. unfold complete_scan in H.
  destruct (match non_empty _ with Some _ => _ | None => _ end) as [skill|] eqn:Es; [|done].
  destruct (non_empty _) as [rid|]; [|done]. apply find_skill_Some in Es as [Hin _].
  destruct (jb_artifact job) as [artifact|]; [|done]. ok_inv. bool_inv. apply jeqb_true in G.
  set (ev := evaluatePolicy _ _ _ _ _) in *. pose proof (delta_fill w I) as D.
  apply delta_audit; [|done]. apply delta_update_job; [|done|intros j _ _; by apply finished_step].
  apply delta_update_skill; [by apply (delta_scans w current)|done|done|]. cbn [with_st_scans st_scans st_skills st_policy].
  intros x Hx Hid. assert (x = skill) as ->.
  { apply (NoDup_key_inj sk_id (st_skills (w_state w))); [apply I | done..]. }
  split; [apply scanned_skill_step|]. intros _ Ha.
  destruct (scanned_skill_step ev (jb_policyRevision job) results skill) as [_ _ _ _ Hart Hfc _ _ _].
  destruct (scanned_skill_fields ev (jb_policyRevision job) results skill) as (Hrev & Hids & Hst).
  apply Hst in Ha. apply (approved_by_job _ _ _ (st_policy current :: w_policies w)) in Ha; [|set_solver].
  destruct Ha as (p & Hp & Hprev & Hsat). exists p, results, now.
  split; [done|]. split; [congruence|]. split; [|by rewrite Hart, Hfc, G].
  rewrite Hids. apply Forall_forall. intros x Hx'. split; [set_solver|].
  apply elem_of_dedup, elem_of_app. right. by apply list_elem_of_fmap_2.
Qed.

Lemma import_delta imported results provenance s' r :
  Forall (fun x => sr_organizationId x = org) results ->
  (forall i, imported = Some i -> sb_digest (im_stored i) = im_digest i) ->
  skillId ∉ sk_id <$> st_skills (w_state w) ->
  complete_import config id principal requestId auditId skillId now imported results provenance job current
    = Ok (s', r) -> delta w s'.
Proof.
  intros Hres Himp Hfresh H. unfold complete_import in H.
  destruct (jb_import job) as [request|]; [|done]. destruct imported as [imported|]; [|done]. ok_inv.
  apply has_version_false in G. specialize (Himp imported eq_refl).
  set (ev := evaluatePolicy _ _ _ _ _). pose proof (delta_fill w I) as D.
  apply delta_audit; [|done]. apply delta_update_job; [|done|intros j _ _; by apply finished_step].
  apply (delta_skills w (with_st_scans (st_scans current ++ results) current)); [by apply (delta_scans w current)|done| |].
  - apply Added. by split.
  - apply Forall_app. cbn [with_st_scans st_scans st_policy]. split.
    { eapply Forall_impl; [apply (inv_approved w I)|]. intros x. apply approved_mono; set_solver. }
    apply Forall_singleton. intros Ha. cbn in Ha.
    apply (approved_by_job _ _ _ (st_policy current :: w_policies w)) in Ha; [|set_solver].
    destruct Ha as (p & Hp & Hprev & Hsat). exists p, results, now.
    split; [done|]. split; [done|]. split; [|cbn; by rewrite Himp].
    apply Forall_forall. intros x Hx'. split; [set_solver|]. by apply list_elem_of_fmap_2.
Qed.
End Completion.

Lemma putVerifiedBlob_digest bytes digest stored :
  putVerifiedBlob bytes digest = Ok stored -> sb_digest stored = digest.
Proof. unfold putVerifiedBlob. destruct (blob_put bytes); [|done]. intros H. ok_inv. bool_inv. by apply jeqb_true. Qed.
Lemma complete_prepare_spec id body now snapshot c :
  complete_prepare parseDocument config id body now snapshot = Ok c ->
  Forall (fun r => sr_organizationId r = org) (cp_scanResults c) /\
  (forall i, cp_imported c = Some i -> sb_digest (im_stored i) = im_digest i).
Proof.
  unfold complete_prepare. intros H. ok_inv. cbn. split.
  - destruct (stringValue (field body "error")); ok_inv; [done|]. by eapply parse_scan_results_org.
  - intros i ->. destruct (_ && _); ok_inv; [|done]. simplify_eq. unfold import_bundle in *. ok_inv.
    cbn. by eapply putVerifiedBlob_digest.
Qed.

Lemma complete_delta w id body principal requestId auditId skillId now commitNow snapshot s' r :
  inv w ->
  completeJob parseDocument config id body principal requestId auditId skillId now commitNow snapshot
    (w_state w) = Ok (s', r) ->
  skillId ∉ sk_id <$> st_skills (w_state w) -> delta w s'.
Proof.
  intros I H Hid. unfold completeJob in H. ok_step. apply complete_prepare_spec in E as [Hres Himp].
  unfold complete_commit in H. ok_inv. apply ensureState_ok in E as [-> _].
  destruct (find_job _ id) as [job|] eqn:Hjob; [|done]. ok_inv.
  destruct (negb _).
  { assert (Hact : active job = true) by (match goal with Hf : fenced _ _ _ = false |- _ => exact (fenced_active _ _ _ Hf) end).
    ok_inv. by eapply requeue_delta. }
  ok_inv.
  destruct (cp_error a); [ok_inv; by eapply failed_delta|].
  destruct (jb_kind job); [by eapply scan_delta | by eapply import_delta].
Qed.

(** ** Drafts *)

Lemma delta_update_draft w s draftId principal draft next : inv w -> delta w s ->
  drafts s = drafts (w_state w) -> sessions s = sessions (w_state w) ->
  findDraft (w_state w) draftId principal org = Ok draft ->
  draft_ok org next -> draft_step draft next ->
  (forall p, p ∈ publications next -> p ∈ publications draft \/ published (st_skills s) next p) ->
  delta w (update_draft org draftId principal next s).
Proof.
  intros I D Hs Hss (Hf & Hin & _)%findDraft_spec Hn Hst Hp. pose proof (drafts_update org draftId principal next s) as Hu.
  unfold update_draft, drafts in *. cbn [with_st_drafts st_drafts] in Hu.
  apply delta_drafts; [done|done|rewrite Hu, Hs..].
  - apply Changed. by eapply update_found_Forall2.
  - apply update_first_Forall; [by intros|]. apply (inv_drafts w I).
  - intros d p Hd Hpd. apply update_first_elem in Hd as [Hd|(x & Hx & ->)]; [left; by exists d|].
    destruct (Hp p Hpd) as [Hp0|Hp0]; [|by right]. left. exists draft. split; [done|]. split; [|done].
    pose proof (ds_identity _ _ Hst) as Hi. unfold identity in Hi. congruence.
Qed.
(** A draft that was read before still has the name and origin it had. *)
Lemma read_before w snapshot draftId principal before draft : inv w -> snapshot ∈ w_all w ->
  findDraft snapshot draftId principal org = Ok before ->
  findDraft (w_state w) draftId principal org = Ok draft -> draft_step before draft.
Proof.
  intros I Hs (_ & Hb & Hbid & _)%findDraft_spec (_ & Hd & Hdid & _)%findDraft_spec.
  apply (proj1 (Forall_forall _ _) (inv_draft_history w I)) in Hs.
  apply (proj1 (Forall_forall _ _) Hs) in Hb as (d' & Hd' & Hst).
  assert (d' = draft) as ->; [|done].
  apply (NoDup_key_inj dr_id (drafts (w_state w))); [apply I | done | done|].
  pose proof (ds_identity _ _ Hst) as Hi. unfold identity in Hi. congruence.
Qed.

Lemma save_delta w input principal now snapshot request before full sealed stored manifest draft a : inv w ->
  saving org input principal snapshot (w_state w) request before full sealed stored manifest draft ->
  ae_organizationId a = org ->
  delta w (appendAudit a (update_draft org (wi_draftId input) principal
    (saving_next principal now request full sealed stored manifest draft) (w_state w))).
Proof.
  intros I Hs Ha. apply delta_audit; [|done].
  pose proof (sv_draft _ _ _ _ _ _ _ _ _ _ _ _ Hs) as Hf. pose proof (findDraft_spec _ _ _ _ _ Hf) as (_ & Hin & _).
  apply (proj1 (Forall_forall _ _) (inv_drafts w I)) in Hin.
  destruct (saving_ok _ _ _ now _ _ Hs Hin) as (Hok & Hst & _).
  eapply delta_update_draft; [done|by apply delta_same|done..|]. intros q Hq. by left.
Qed.
Lemma publish_draft_delta w draftId p ids now existing before draft metadata base publication readNow commitNow :
  inv w -> existing ∈ w_all w ->
  publishing org parseDocument (fun s x q => Some (core_admission config readNow s x q))
    (Some (core_admission config commitNow)) draftId p ids existing (w_state w) before draft metadata base
    publication ->
  ids_skillId ids ∉ sk_id <$> st_skills (w_state w) ->
  ids_jobId ids ∉ jb_id <$> st_jobs (w_state w) ->
  delta w (update_draft org draftId p (publish_next draft publication)
    (with_release (published_release org p ids now existing before metadata base publication)
       (draft_job org before (clonePolicy (st_policy existing)) ids now) (w_state w))).
Proof.
  intros I He Hp Hskill Hjob. pose proof (delta_same w I) as D. destruct Hp as [Hb Hd Hrev Hdig [Hrid _] _ Hfresh _ _ Hpub].
  pose proof (read_before _ _ _ _ _ _ I He Hb Hd) as Hst. pose proof (ds_identity _ _ Hst) as Hi.
  assert (Hname : dr_name draft = dr_name before) by (unfold identity in Hi; congruence).
  pose proof (findDraft_spec _ _ _ _ _ Hb) as (_ & Hbin & _).
  pose proof (findDraft_spec _ _ _ _ _ Hd) as (_ & Hdin & _).
  apply (proj1 (Forall_forall _ _) (inv_drafts w I)) in Hdin as Hok.
  unfold publishable in Hpub. ok_inv. apply has_version_false in G5. rewrite Hname in G5.
  set (skill := published_release _ _ _ _ _ _ _ _ _).
  eapply delta_update_draft; [done| |done|done|exact Hd| | |].
  - unfold with_release. apply delta_jobs; [apply delta_skills; [done|done| |]|].
    + apply Added. split; [done|]. split; done.
    + apply Forall_app. split; [apply D|]. constructor; [|done]. by apply not_approved.
    + apply Added. split; [|done..]. split; [done| |done..]. exists (st_policy existing).
      split; [|done]. right. by apply list_elem_of_fmap_2.
  - apply publish_next_ok; [done|]. by apply findPublication_None.
  - apply publish_next_step.
  - intros q Hq. change (publications (publish_next draft publication)) with
      (last_n (MAX_PUBLICATION_HISTORY - 1) (publications draft) ++ [publication]) in Hq.
    apply elem_of_app in Hq as [Hq%elem_of_last_n| ->%list_elem_of_singleton]; [by left|]. right.
    exists skill. split; [apply elem_of_app; right; by left|]. split; [done|]. split; [done|]. split; [done|].
    rewrite Hdig. destruct Hrev as [Hr Hr']. destruct (ds_revision _ _ Hst) as [?|[_ Hc]]; [lia|].
    unfold revision_content in Hc. injection Hc as Hcd Hca _ _ _.
    destruct (ok_artifact _ _ Hok) as [(bytes & _ & _ & _ & Hsd & _)].
    change (sk_artifact skill) with (dr_artifact before). congruence.
Qed.

Lemma draft_delta w validSemver principal route ids now readNow commitNow existing snapshot s' r :
  inv w -> existing ∈ w_all w ->
  draftHandler parseDocument org (fun s x p => Some (core_admission config readNow s x p))
    (Some (core_admission config commitNow)) validSemver principal route ids now existing snapshot (w_state w)
    = (s', r) ->
  ids_draftId ids ∉ dr_id <$> drafts (w_state w) ->
  ids_skillId ids ∉ sk_id <$> st_skills (w_state w) ->
  ids_jobId ids ∉ jb_id <$> st_jobs (w_state w) -> delta w s'.
Proof.
  intros I He H Hid Hskill Hjob. pose proof (delta_same w I) as D.
  apply draftHandler_effect in H as [->|(p & _ & _ & _ & [d a Hd Ha|input ? ? ? ? ? ? draft a Hs Ha|
    draftId before draft metadata base publication a Hp Ha] & _)]; [done|..].
  - apply delta_audit; [|done]. apply delta_drafts; [done|done|..]; cbn [default from_option id].
    + apply Added. unfold added_draft. by rewrite (fh_id _ _ _ _ Hd).
    + apply Forall_app. split; [apply I|]. apply Forall_singleton, Hd.
    + intros d' q [Hd'| ->%list_elem_of_singleton]%elem_of_app Hq; [left; by exists d'|].
      by rewrite (fh_publications _ _ _ _ Hd) in Hq; apply not_elem_of_nil in Hq.
  - by eapply save_delta.
  - apply delta_audit; [|done]. eapply publish_draft_delta; eauto.
Qed.

(** ** The builder *)

Lemma delta_sessions w s s' : delta w s -> sessions s = sessions (w_state w) ->
  sessions_move org (fun p => unused_proposal w (bp_id p)) (decided (drafts (w_state w)) (drafts s)) s s' ->
  delta w s'.
Proof. intros D Hs [[o ->] Hc]. rewrite Hs in Hc. destruct D. by split. Qed.
(** A draft that was read before is, at the same revision, the same. *)
Lemma same_revision w s d d' : inv w -> s ∈ w_all w -> d ∈ drafts s -> d' ∈ drafts (w_state w) ->
  dr_id d = dr_id d' -> dr_revision d = dr_revision d' ->
  draft_step d d' /\ dr_digest d = dr_digest d' /\ dr_files d = dr_files d'.
Proof.
  intros I Hs Hd Hd' Hid Hrev. apply (proj1 (Forall_forall _ _) (inv_draft_history w I)) in Hs.
  apply (proj1 (Forall_forall _ _) Hs) in Hd as (d1 & Hd1 & Hst).
  assert (d1 = d') as ->.
  { apply (NoDup_key_inj dr_id (drafts (w_state w))); [apply I | done..|].
    pose proof (ds_identity _ _ Hst) as Hi. unfold identity in Hi. congruence. }
  split; [done|]. destruct (ds_revision _ _ Hst) as [?|[_ Hc]]; [lia|].
  unfold revision_content in Hc. by injection Hc as -> _ -> _ _.
Qed.
Lemma findBuilderDraft_spec s binding principal internal d : findBuilderDraft org s binding principal internal = Ok d ->
  d ∈ drafts s /\ dr_id d = db_draftId binding /\ dr_revision d = db_revision binding /\
  dr_digest d = db_digest binding.
Proof.
  unfold findBuilderDraft. destruct (find_first _ _) as [d0|] eqn:E; [|done]. intros H. ok_inv.
  apply find_first_Some in E as [Hin [Hid%jeqb_true _]%andb_true_iff].
  rewrite !orb_false_iff, !negb_false_iff, Z.eqb_eq, jeqb_true in G0. by destruct G0 as [[? ?] _].
Qed.

(** What an apply that changed the document did. *)
Record application (w : World) (draftId proposalId : jstr) (principal : Principal) (commitNow : Z)
    (b : SkillBuilderSessionRecord) (p : SkillBuilderProposalRecord) (target next : SkillDraft) (a : AuditEvent)
    (s' : RegistryState) : Prop := {
  ap_session : findBuilderSession org (w_state w) draftId (bs_id b) = Some b;
  ap_proposal : find_proposal b proposalId principal = Some p;
  ap_pending : bp_state p = ProposalPending;
  ap_subject : bs_subject b = pr_subject principal;
  ap_bound : bs_draftRevision b = bp_baseRevision p /\ bs_draftDigest b = bp_baseDigest p;
  ap_target : findDraft (w_state w) draftId principal org = Ok target;
  ap_base : dr_revision target = bp_baseRevision p /\ dr_digest target = bp_baseDigest p;
  ap_files : applyBuilderOperations (dr_files target) (bp_operations p) = Ok (dr_files next);
  ap_next : dr_revision next = bp_baseRevision p + 1 /\ dr_digest next = bp_proposedDigest p;
  ap_identity : identity next = identity target;
  ap_ok : draft_ok org next;
  ap_audit : ae_organizationId a = org;
  ap_state : s' = update_builder_session org draftId (bs_id b) (fun b =>
    with_session_proposals (update_first (is_proposal proposalId principal)
      (with_proposal_state ProposalApplied (toISOString commitNow)) (bs_proposals b))
      (dr_revision next) (dr_digest next) (toISOString commitNow) b)
    (appendAudit a (update_draft org draftId principal next (w_state w)));
  ap_delta : delta w (appendAudit a (update_draft org draftId principal next (w_state w)));
}.
Lemma apply_application w draftId proposalId principal now commitNow body state snapshot refreshed s' r : inv w ->
  state ∈ w_all w ->
  applied_by org body draftId proposalId principal now commitNow state snapshot refreshed (w_state w) s' r ->
  exists b p target next a manifest, application w draftId proposalId principal commitNow b p target next a s' /\
    compactManifest (dr_files next) = Ok manifest /\
    r = Ok {| rp_status := 200; rp_body := proposal_draft_wire (mark_applied p) (Some (dr_files target))
                                             (publicDraftWithManifest next manifest) |}.
Proof.
  intros I Hst H. destruct H as [binding sessionId key session proposal draft before after request b0 full sealed stored
    manifest target next a s' Hbind Hsess Hprop _ _ Hdraft Hrev Hdig Hread Hafter Hs Hn Hfit Ha Hc].
  apply apply_proposal_spec in Hc as (b & p & S).
  apply binding_spec in Hbind as [Hbid Hbounds]. rewrite <- Hrev in Hbounds.
  assert (Hw : wq_expectedRevision request = bp_baseRevision proposal /\ se_files sealed = after)
    by (eapply apply_saves; [exact Hs | done | done]). destruct Hw as [Hwrev Hwfiles].
  pose proof (save_delta w _ _ now _ _ _ _ _ _ _ _ a I Hs Ha) as D. rewrite <- Hn in D.
  pose proof (sv_draft _ _ _ _ _ _ _ _ _ _ _ _ Hs) as Hf. pose proof (findDraft_spec _ _ _ _ _ Hf) as (_ & Hin & Hid & _).
  cbn [apply_input wi_draftId] in Hf, Hid, D.
  pose proof (proj1 (Forall_forall _ _) (inv_drafts w I) _ Hin) as O.
  destruct (saving_ok _ _ _ now _ _ Hs O) as (Hok & Hstep & Hnrev & _ & Hnfiles). rewrite <- Hn in Hok, Hstep, Hnrev, Hnfiles.
  pose proof (sv_editable _ _ _ _ _ _ _ _ _ _ _ _ Hs) as [_ He]. apply editable_spec in He as (Htrev & _ & _).
  pose proof (session_spec _ _ _ _ _ Hsess) as (Hsin & Hsid & _).
  pose proof (proposal_spec _ _ _ _ Hprop) as (Hpin & Hpid & _).
  pose proof (sb_session _ _ _ _ _ _ _ _ _ _ _ _ S) as Hcs. pose proof (session_spec _ _ _ _ _ Hcs) as (Hcin & Hcid & _).
  pose proof (sb_proposal _ _ _ _ _ _ _ _ _ _ _ _ S) as Hcp. pose proof (proposal_spec _ _ _ _ Hcp) as (Hcpin & Hcpid & _).
  assert (Hcont : proposal_content p = proposal_content proposal).
  { apply (inv_proposals w I state); [done | by exists session | by exists b | congruence]. }
  pose proof Hcont as Hcont'. unfold proposal_content in Hcont'. injection Hcont' as _ _ _ _ _ _ _ Hb1 Hb2 Hb3 Hb4 _.
  pose proof (findBuilderDraft_spec _ _ _ _ _ Hdraft) as (Hdin & Hdid & Hdrev & Hddig).
  destruct (same_revision w state draft target I Hst Hdin Hin ltac:(congruence) ltac:(congruence)) as (_ & Etd & Etf).
  apply read_draft_exact in Hread as [-> _].
  exists b, p, target, next, a, manifest. split; [|split].
  - destruct S as [Hbs Hbp Hsub Hpend [Hbr Hbd] [Hn1 Hn2] Hs1]. split; try done; rewrite ?Hcid; try done.
    + split; congruence.
    + split; congruence.
    + rewrite <- Etf, Hb4, Hnfiles. by rewrite Hwfiles.
    + split; congruence.
    + apply Hstep.
  - rewrite Hnfiles. apply (sv_manifest _ _ _ _ _ _ _ _ _ _ _ _ Hs).
  - rewrite <- Etf. rewrite Hn in Hfit, S |- *. by eapply applied_answer.
Qed.
Lemma application_delta w draftId proposalId principal commitNow b p target next a s' : inv w ->
  application w draftId proposalId principal commitNow b p target next a s' -> delta w s'.
Proof.
  intros I A. pose proof (proposal_spec _ _ _ _ (ap_proposal _ _ _ _ _ _ _ _ _ _ _ A)) as (Hpin & Hpid & _).
  pose proof (session_spec _ _ _ _ _ (ap_session _ _ _ _ _ _ _ _ _ _ _ A)) as (Hbin & _ & Hbd).
  pose proof (proj1 (Forall_forall _ _) (inv_sessions w I) _ Hbin) as Ob.
  destruct A as [Hb Hp Hpend _ [Hbr _] Hf [Hr Hd] Hfiles [Hn Hnd] Hi _ Ha -> D].
  pose proof (findDraft_spec _ _ _ _ _ Hf) as (Hff & Hin & Hid & Horg & Hread).
  eapply delta_sessions; [exact D | done|]. split; [apply only_sessions_update|]. subst proposalId.
  eapply settle_change; [exact Hb | done..| |]; [right; split; [done | lia]|]. intros _.
  exists target, next. cbn [with_proposal_state bp_draftId bp_baseRevision bp_baseDigest bp_proposedDigest bp_operations].
  rewrite (bl_draft _ _ (so_belongs _ _ Ob _ Hpin)), Hbd. unfold identity in Hi.
  split_and!; try done; try congruence.
  change (drafts (appendAudit a ?s)) with (drafts s). rewrite drafts_update.
  eapply find_first_Some, find_first_update_found; [exact Hff|]. unfold is_draft.
  injection Hi as -> -> _ -> _ _ _ _ _ _ _ _. by rewrite Hid, Horg, Hread, !jeqb_refl.
Qed.

Lemma builder_delta w principal toolIdentity draftId route ids now commitNow state snapshot refreshed s' r :
  inv w -> state ∈ w_all w ->
  builderHandler org principal toolIdentity draftId route ids now commitNow state snapshot refreshed (w_state w)
    = (s', r) ->
  unused_proposal w (bi_proposalId ids) -> delta w s'.
Proof.
  intros I Hst H Hid. pose proof (delta_same w I) as D.
  apply builder_cases in H as [->|(p & internal & answer & _ & _ & _ & _ & _ & E)]; [done|].
  destruct E as [body key s1 r1 E|proposalId body key s1 r1 E|proposalId body key s1 r1 E].
  - eapply delta_sessions; [exact D | done|]. eapply propose_move; [apply I| | |exact E].
    + by intros q ->.
    + intros b Hb (q & Hq & Hin)%list_elem_of_fmap. by destruct (Hid (w_state w) q ltac:(by left) ltac:(by exists b)).
  - apply apply_cases in E as [->|E]; [done|].
    destruct (apply_application _ _ _ _ _ _ _ _ _ _ _ _ I Hst E) as (b & q & target & next & a & m & A & _).
    by eapply application_delta.
  - apply reject_cases in E as [[-> _]|(a & b & q & Ha & _ & Hb & Hq & Hpend & ->)]; [done|].
    apply delta_audit; [|done]. eapply delta_sessions; [exact D | done|].
    eapply reject_move; [apply I | done..|]. intros q' Hr Hap. congruence.
Qed.
Lemma session_delta w publicOrigin headers revisions digests draftId principal operation now bound snapshot s' r :
  inv w -> builderBffHandler org publicOrigin headers revisions digests draftId principal operation now bound snapshot
    (w_state w) = (s', r) ->
  pr_organizationId principal = org ->
  (forall id, opened_id operation = Some id -> id ∉ bs_id <$> sessions (w_state w)) -> delta w s'.
Proof.
  intros I H Hp Hid. eapply delta_sessions; [by apply delta_same | done|].
  eapply bff_move; [exact H | done | apply I | done].
Qed.
Lemma settle_delta w record request binding response now s' r : inv w -> pq_requestId request <> [] ->
  settlePrompt record request binding response now (w_state w) = (s', r) -> delta w s'.
Proof. intros I Hid H. eapply delta_sessions; [by apply delta_same | done|]. by eapply settle_move. Qed.

(** ** Imports, feeds and upstreams *)

Lemma configured_org s u : catalog_ok s -> configured_source s u -> us_organizationId u = org.
Proof.
  intros C [Hu|(f & Hf & ->)].
  - by apply (proj1 (Forall_forall _ _) (co_upstreams _ C)) in Hu.
  - by apply (proj1 (Forall_forall _ _) (co_feeds _ C)) in Hf.
Qed.
Lemma effect_delta w jobId state s' : inv w -> (exists s, s ∈ w_all w /\ feeds state = feeds s) ->
  import_effect config jobId state (w_state w) s' ->
  jobId ∉ jb_id <$> st_jobs (w_state w) -> delta w s'.
Proof.
  intros I (s0 & Hs0 & Hfeeds) [[->| ->]|e He ->|e request upstream now He Hidle Hsrc Hfeed ->] Hid.
  - by apply delta_same.
  - by apply delta_fill.
  - apply delta_audit; [by apply delta_fill | done].
  - apply delta_audit; [|done]. apply delta_jobs; [by apply delta_fill|]. apply Added. split; [|done|done| |].
    + split; [done| |done|].
      * exists (st_policy (w_state w)). split; [by left | done].
      * intros u [= <-]. eapply configured_org; [apply I | done].
    + by intros target _ [= <-].
    + intros r rev [= <-] Hrev. destruct (Hfeed rev Hrev) as (f & Hf & Hr). rewrite Hfeeds in Hf. by exists s0, f.
Qed.
(** An access alias changes nothing a run of a job depends on. *)
Lemma alias_step policies mapping j : job_step policies j (addSourceCatalogAlias mapping j).
Proof.
  unfold addSourceCatalogAlias. cbv zeta. destruct (match _ with Some _ => _ | None => _ end); [done|].
  split; try done; [by left | intros []; by split].
Qed.
Lemma observed_feeds w s : observed w s -> exists s0, s0 ∈ w_all w /\ feeds s = feeds s0.
Proof.
  intros (s0 & Hs & H). exists s0. split; [done|]. unfold readState in H. ok_inv.
  by apply ensureState_ok in E as [-> _].
Qed.
Lemma import_request_delta w body principal requestId jobId auditId now snapshot s' r : inv w -> observed w snapshot ->
  resolveOrQueueImport config body principal requestId jobId auditId now snapshot (w_state w) = Ok (s', r) ->
  jobId ∉ jb_id <$> st_jobs (w_state w) -> delta w s'.
Proof. intros I Ho H Hid. apply (effect_delta w jobId snapshot); [done | by apply observed_feeds | by eapply import_effect_of | done]. Qed.
Lemma source_delta w body principal requestId ids readNow now state snapshot s' r : inv w -> observed w state ->
  resolveSourceReferenceRequest config body principal requestId ids readNow now state snapshot (w_state w)
    = Ok (s', r) ->
  id_jobId ids ∉ jb_id <$> st_jobs (w_state w) ->
  unused_version (w_state w) (generatedTransparentVersion (id_random ids)) -> delta w s'.
Proof. intros I Ho H Hid Hv. apply (effect_delta w (id_jobId ids) state); [done | by apply observed_feeds | by eapply source_effect | done]. Qed.
Lemma transparent_delta w uconfig directoryForBase reported body principal requestId ids readNow now state snapshot
    s' r : inv w -> observed w state ->
  resolveTransparentProxyRequest config uconfig body principal requestId ids readNow now directoryForBase reported
    state snapshot (w_state w) = Ok (s', r) ->
  id_jobId ids ∉ jb_id <$> st_jobs (w_state w) ->
  unused_version (w_state w) (generatedTransparentVersion (id_random ids)) -> delta w s'.
Proof. intros I Ho H Hid Hv. apply (effect_delta w (id_jobId ids) state); [done | by apply observed_feeds | by eapply transparent_effect | done]. Qed.
Lemma upstream_delta w uconfig body principal requestId upstreamId auditId now s' r : inv w ->
  createUpstream config uconfig body principal requestId upstreamId auditId now (w_state w) = Ok (s', r) ->
  upstreamId ∉ us_id <$> st_upstreams (w_state w) -> delta w s'.
Proof.
  intros I (e & He & Hp & Hn & ->)%createUpstream_cases Hid. apply parse_upstream_spec in Hp as (<- & Ho & _).
  apply delta_audit; [|done]. apply delta_upstreams; [by apply delta_fill|]. by apply Added.
Qed.
Lemma catalog_effect_delta w jobId s' : inv w -> catalog_effect config jobId (w_state w) s' ->
  jobId ∉ jb_id <$> st_jobs (w_state w) -> delta w s'.
Proof.
  intros I [[->| ->]|mapping job ->|e request upstream source acquisition now He Hu Hf Hw ->] Hid.
  - by apply delta_same.
  - by apply delta_fill.
  - apply delta_update_jobs; [by apply delta_fill | done|]. intros j _ _. by apply alias_step.
  - apply delta_audit; [|done]. apply delta_jobs; [by apply delta_fill|]. apply Added. split; [|done|done| |].
    + split; [done| |done|].
      * exists (st_policy (w_state w)). split; [by left | done].
      * by intros u [= <-].
    + intros target Ho. congruence.
    + intros r rev [= <-] Hrev. congruence.
Qed.
Lemma catalog_import_delta w sourceId body principal requestId ids readNow now descriptor resolved currentRevision
    snapshot s' r : inv w ->
  resolveSourceRoute config sourceId body principal requestId ids readNow now descriptor resolved currentRevision
    snapshot (w_state w) = Ok (s', r) ->
  pr_organizationId principal = org -> id_jobId ids ∉ jb_id <$> st_jobs (w_state w) -> delta w s'.
Proof. intros I H Hp Hid. apply (catalog_effect_delta w (id_jobId ids)); [done | by eapply catalog_effect_of | done]. Qed.
Lemma openclaw_delta w queue input jobId auditId queueNow now s' r : inv w -> qu_organizationId queue = org ->
  enqueue queue input jobId auditId queueNow now (w_state w) = Ok (s', r) ->
  jobId ∉ jb_id <$> st_jobs (w_state w) -> delta w s'.
Proof. intros I Ho H Hid. apply (catalog_effect_delta w jobId); [done | by eapply enqueue_effect | done]. Qed.
Lemma publication_delta w principal requestId auditId feedId sequence entryCount now s' : inv w ->
  publication_commit config principal requestId auditId feedId sequence entryCount now (w_state w) = Ok s' -> delta w s'.
Proof.
  intros I H. unfold publication_commit in H. ok_inv. apply ensureState_ok in E as [-> _].
  apply delta_audit; [by apply delta_fill | done].
Qed.
Lemma adoption_delta w input auditId now s' : inv w -> bb_organizationId input = org ->
  appendAdoptionAudit input auditId now (w_state w) = Ok s' -> delta w s'.
Proof.
  intros I Ho [->|(e & He & ->)]%(adoption_effect config); [by apply delta_same| |done].
  by apply delta_audit; [apply delta_same|].
Qed.
Lemma reviewed_delta w event : inv w -> ae_organizationId event = org -> delta w (appendAudit event (w_state w)).
Proof. intros I He. by apply delta_audit; [apply delta_same|]. Qed.
Lemma feed_delta w uconfig method rest body principal requestId ids now read s' r : inv w ->
  handleFeedsRoute config uconfig method rest body principal requestId ids now read (w_state w) = (s', r) ->
  fe_id ids ∉ fd_id <$> feeds (w_state w) -> unused_revision w (fe_configRevision ids) -> delta w s'.
Proof.
  intros I H%feed_effect_of Hid Hrev. destruct H as [->|e candidate He Hn ->|e id patch existing He Hf ->].
  - by apply delta_same.
  - apply delta_audit; [|done]. apply delta_feeds; [by apply delta_fill|]. by apply Added.
  - apply delta_audit; [|done]. apply delta_feeds; [by apply delta_fill|]. apply find_first_Some in Hf as [Hin Hfid].
    apply change_update; [apply _|]. intros f Hfin Hf'. apply jeqb_true in Hfid, Hf'.
    assert (f = existing) as ->
      by (apply (NoDup_key_inj fd_id (feeds (w_state w))); [apply (inv_catalog w I) | done | done | congruence]).
    split; [done..|]. by right.
Qed.

End Delta.

#[local] Hint Resolve import_request_delta source_delta transparent_delta upstream_delta feed_delta : ts.
#[local] Hint Resolve builder_delta session_delta settle_delta : ts.
#[local] Hint Resolve catalog_import_delta openclaw_delta publication_delta adoption_delta reviewed_delta delta_same : ts.
#[local] Hint Resolve draft_delta publish_delta pack_delta policy_delta rescan_delta revoke_delta authorize_delta
  validate_delta receipt_delta grant_delta claim_delta complete_delta : ts.

(** A claim handed out a lease under a token. *)
Definition claimed (w w' : World) (token : jstr) : Prop :=
  exists principal requestId auditId now s' wj,
    claimJob config principal requestId token auditId now (w_state w) = Ok (s', Some wj) /\ w' = commit w s'.
(** Every step is one such change; only a claim hands out a token. *)
Lemma step_delta w w' : inv w -> step w w' ->
  exists s', w' = commit w s' /\ delta (granted := claimed w w') w s'.
Proof.
  intros I H. inversion H; subst; (eexists; split; [reflexivity|]);
    try (by eauto with ts). eapply claim_delta; [done..|]. intros wj ->. by repeat eexists.
Qed.
Lemma step_inv w w' : inv w -> step w w' -> inv w'.
Proof. intros I H. destruct (step_delta w w' I H) as (s' & -> & D). by eapply inv_delta. Qed.
Lemma run_inv w w' : inv w -> run w w' -> inv w'.
Proof. intros I. induction 1; eauto using step_inv. Qed.

Definition initial (policy : Policy) : World :=
  {| w_state := createEmptyRegistryState policy; w_past := [] |}.
Lemma initial_inv policy : inv (initial policy).
Proof.
  assert (Hno : forall s p, s ∈ w_all (initial policy) -> offered (sessions s) p -> False).
  { by intros s p ->%list_elem_of_singleton (b & ?%not_elem_of_nil & _). }
  assert (Hcat : catalog_ok (w_state (initial policy))) by (split; constructor).
  assert (Hup : Forall (fun s => st_upstreams s `prefix_of` st_upstreams (w_state (initial policy)))
            (w_all (initial policy))) by by apply Forall_singleton.
  split; try (by intros; exfalso; eapply Hno); try exact Hcat; try exact Hup; cbn; try constructor; try constructor.
  - by intros p q ->%list_elem_of_singleton ->%list_elem_of_singleton.
  - by intros s d p ->%list_elem_of_singleton ?%not_elem_of_nil.
  - intros s s' f f' ->%list_elem_of_singleton _ Hf. by apply not_elem_of_nil in Hf.
  - intros j j' target Hj. by apply not_elem_of_nil in Hj.
Qed.
End System.
