(* ===== verification/Scenario.v ===== *)
(** * A concrete registry

    One organization from an empty document to an installed and then revoked
    release: publish, claim, complete the scan, build a pack, authorize, grant,
    record the receipt, revoke.  The states are computed by the handlers with
    concrete instances of the environment; the witnesses of the other files are
    taken from them. *)

From Stdlib Require Import ZArith Lia.
From stdpp Require Import base list strings sets.
From S2P Require Import Prelude Js Dates Numbers Bundle Frontmatter Contracts Web Access Names.
From S2P Require Import PolicyEval Resolve Provenance OpenClawFeed ScanEvidence State Registry Install.
From S2P Require Import Jobs Feeds Imports Directory SourceImports FeedImports ImportState System.

Local Open Scope Z_scope.

Module Demo.
#[local] Existing Instance iso_runtime.
#[local] Existing Instance ascii_tables.
#[local] Existing Instance no_urls.
#[local] Existing Instance unit_collation.

(** A stand-in with the size of SHA-256, and a store that confirms every
    upload. *)
Definition crypto : Crypto := {| sha256 _ := repeat 170 32 |}.
#[local] Existing Instance crypto.
Definition blobs : Blobs := {|
  blob_put bytes := Some {| sb_key := js "blob_1"; sb_digest := demo_digest;
                            sb_size := Z.of_nat (length bytes) |};
  blob_get _ := Some demo_bytes |}.
#[local] Existing Instance blobs.
Definition config : Configuration := normalizeConfiguration [] (js "acme") num_zero num_zero.

Definition t0 : Z := 1700000000000.
Definition admin : Principal := {|
  pr_organizationId := js "acme"; pr_subject := js "alice"; pr_roles := [Owner];
  pr_namespaces := None; pr_scopes := None; pr_identity := None; pr_display := JUndef |}.
Definition worker : Principal := {|
  pr_organizationId := js "acme"; pr_subject := js "w1"; pr_roles := [Worker];
  pr_namespaces := None; pr_scopes := None; pr_identity := None; pr_display := JUndef |}.

(** The state a handler returned. *)
Definition after {A} (r : api (RegistryState * A)) : RegistryState :=
  match r with
  | Ok (s, _) => s
  | Err _ => createEmptyRegistryState demo_policy
  end.

Definition w0 : World := initial demo_policy.
Definition publish_body : jsval := JObj [
  (js "name", JStr (js "@tools/demo")); (js "version", JStr (js "1.0.0"));
  (js "bundle", bundle_value demo_bundle)].
Definition publish_ids : PublishIds :=
  {| pi_jobId := js "job_1"; pi_skillId := js "skill_1"; pi_auditId := js "audit_1" |}.
Abbreviation publish := (publishSkill demo_parseDocument config publish_body admin (js "req") publish_ids
  t0 t0 (w_state w0) (w_state w0)).
Definition published : RegistryState := Eval vm_compute in after publish.
Definition w1 : World := commit w0 published.

Abbreviation claim := (claimJob config worker (js "req") (js "lease_1") (js "audit_2") (t0 + 1000) (w_state w1)).
Definition claimed : RegistryState := Eval vm_compute in after claim.
Definition w2 : World := commit w1 claimed.

Definition completion_body : jsval := JObj [
  (js "leaseToken", JStr (js "lease_1")); (js "scanResults", JArr [demo_scan_report "scan_1" 2 ["low"]])].
Abbreviation complete := (completeJob demo_parseDocument config (js "job_1") completion_body worker (js "req")
  (js "audit_3") (js "skill_2") (t0 + 2000) (t0 + 2000) (w_state w2)
  (w_state w2)).
Definition approved : RegistryState := Eval vm_compute in after complete.
Definition w3 : World := commit w2 approved.

Definition pack_body : jsval := JObj [
  (js "name", JStr (js "@tools/kit")); (js "version", JStr (js "1.0.0"));
  (js "skills", JArr [JObj [(js "ref", JStr (js "@tools/demo")); (js "version", JStr (js "1.0.0"))]])].
Abbreviation pack := (createPack config pack_body admin (js "req") (js "pack_1") (js "audit_4") (t0 + 3000)
  (t0 + 3000) (w_state w3)
  (w_state w3)).
Definition packed : RegistryState := Eval vm_compute in after pack.
Definition w4 : World := commit w3 packed.

Definition authorization_body : jsval := JObj [
  (js "kind", JStr (js "pack")); (js "ref", JStr (js "@tools/kit")); (js "version", JStr (js "1.0.0"))].
Definition authorization_ids : AuthorizationIds :=
  {| ai_authorizationId := js "auth_1"; ai_ticketId := js "ticket_1"; ai_auditId := js "audit_5" |}.
Abbreviation authorize := (createInstallAuthorization config authorization_body admin (js "req")
  authorization_ids (t0 + 4000) (t0 + 4000) (w_state w4)
  (w_state w4)).
Definition authorized : RegistryState := Eval vm_compute in after authorize.
Definition w5 : World := commit w4 authorized.

Definition grant_body : jsval := JObj [
  (js "resourceId", JStr (js "skill_1")); (js "authorizationId", JStr (js "auth_1"))].
Abbreviation grant := (createDownloadGrant config demo_digest grant_body admin (js "req") (js "grant_1")
  (js "audit_6") (t0 + 5000) (t0 + 5000) (w_state w5)
  (w_state w5)).
Definition granted : RegistryState := Eval vm_compute in after grant.
Definition w6 : World := commit w5 granted.

Definition receipt_body : jsval := JObj [
  (js "authorizationId", JStr (js "auth_1")); (js "changed", JBool true);
  (js "agent", JStr (js "claude")); (js "platform", JStr (js "linux"));
  (js "clientVersion", JStr (js "1.2.3"))].
Abbreviation receipt := (createInstallReceipt config receipt_body admin (js "req") (js "receipt_1")
  (js "audit_7") (t0 + 6000) (w_state w6)
  (w_state w6)).
Definition received : RegistryState := Eval vm_compute in after receipt.
Definition w7 : World := commit w6 received.

Abbreviation revoke := (revokeSkill config (js "skill_1") admin (js "req") (js "audit_8") (t0 + 7000) (w_state w7)
  (w_state w7)).
Definition revoked : RegistryState := Eval vm_compute in after revoke.
Definition w8 : World := commit w7 revoked.

(** ** The run *)

Lemma succeeded {A} (r : api (RegistryState * A)) s : is_ok r = true -> after r = s ->
  exists a, r = Ok (s, a).
Proof. destruct r as [[s' a]|]; [|done]. intros _ <-. by exists a. Qed.
Lemma observed_current w : is_ok (readState (Some (w_state w)) (js "acme")) = true ->
  fill_collections (w_state w) = w_state w -> observed config w (w_state w).
Proof.
  intros H Hf. exists (w_state w). split; [by left|]. change (cfg_organizationId config) with (js "acme").
  destruct (readState _ _) as [s'|] eqn:E; [|done]. unfold readState in E. ok_inv.
  apply ensureState_ok in E0 as [-> _]. by rewrite Hf.
Qed.

Abbreviation demo_step := (step demo_parseDocument config).
Abbreviation demo_run := (run demo_parseDocument config).

(** The side conditions of a step: the snapshot is the current state, the new
    ids are not in use. *)
Ltac demo_side :=
  first [ apply observed_current; vm_compute; reflexivity
        | apply (bool_decide_unpack _); vm_compute; exact I ].

Lemma publish_ok : exists a, publish = Ok (published, a).
Proof. apply succeeded; vm_compute; reflexivity. Qed.
Lemma claim_ok : exists a, claim = Ok (claimed, a).
Proof. apply succeeded; vm_compute; reflexivity. Qed.
Lemma complete_ok : exists a, complete = Ok (approved, a).
Proof. apply succeeded; vm_compute; reflexivity. Qed.
Lemma pack_ok : exists a, pack = Ok (packed, a).
Proof. apply succeeded; vm_compute; reflexivity. Qed.
Lemma authorize_ok : exists a, authorize = Ok (authorized, a).
Proof. apply succeeded; vm_compute; reflexivity. Qed.
Lemma grant_ok : exists a, grant = Ok (granted, a).
Proof. apply succeeded; vm_compute; reflexivity. Qed.
Lemma receipt_ok : exists a, receipt = Ok (received, a).
Proof. apply succeeded; vm_compute; reflexivity. Qed.
Lemma revoke_ok : exists a, revoke = Ok (revoked, a).
Proof. apply succeeded; vm_compute; reflexivity. Qed.

Lemma step_1 : demo_step w0 w1.
Proof.
  destruct publish_ok as [a Ha].
  refine (step_publish _ _ w0 _ _ _ _ _ _ _ _ _ _ Ha _ _); demo_side.
Qed.
Lemma step_2 : demo_step w1 w2.
Proof.
  destruct claim_ok as [a Ha].
  refine (step_claim _ _ w1 _ _ _ _ _ _ _ Ha).
Qed.
Lemma step_3 : demo_step w2 w3.
Proof.
  destruct complete_ok as [a Ha].
  refine (step_complete _ _ w2 _ _ _ _ _ _ _ _ _ _ _ _ Ha _); demo_side.
Qed.
Lemma step_4 : demo_step w3 w4.
Proof.
  destruct pack_ok as [a Ha].
  refine (step_pack _ _ w3 _ _ _ _ _ _ _ _ _ _ _ Ha); demo_side.
Qed.
Lemma step_5 : demo_step w4 w5.
Proof.
  destruct authorize_ok as [a Ha].
  refine (step_authorize _ _ w4 _ _ _ _ _ _ _ _ _ _ Ha); demo_side.
Qed.
Lemma step_6 : demo_step w5 w6.
Proof.
  destruct grant_ok as [a Ha].
  refine (step_grant _ _ w5 _ _ _ _ _ _ _ _ _ _ _ _ Ha); demo_side.
Qed.
Lemma step_7 : demo_step w6 w7.
Proof.
  destruct receipt_ok as [a Ha].
  refine (step_receipt _ _ w6 _ _ _ _ _ _ _ _ _ _ Ha); demo_side.
Qed.
Lemma step_8 : demo_step w7 w8.
Proof.
  destruct revoke_ok as [a Ha].
  refine (step_revoke _ _ w7 _ _ _ _ _ _ _ _ _ Ha); demo_side.
Qed.

Lemma run_approved : demo_run w0 w3.
Proof. eauto using run_refl, run_step, step_1, step_2, step_3. Qed.
Lemma run_received : demo_run w0 w7.
Proof. eauto using run_step, run_approved, step_4, step_5, step_6, step_7. Qed.
Lemma run_from_received : demo_run w7 w8.
Proof. eauto using run_refl, run_step, step_8. Qed.
End Demo.

(** * A concrete registry with an upstream and a feed

    One organization imports three releases: one by its upstream and path, one
    by a source reference, and one by the external id of a catalog feed; then
    the feed is updated.  The states are computed by the handlers; the witnesses
    of [ImportSafety] and [FeedSafety] are taken from them. *)

Module ImportDemo.
#[local] Existing Instance iso_runtime.
#[local] Existing Instance ascii_tables.
#[local] Existing Instance unit_collation.
#[local] Existing Instance Demo.crypto.
#[local] Existing Instance Demo.blobs.
Abbreviation config := Demo.config.
Abbreviation t0 := Demo.t0.
Abbreviation admin := Demo.admin.
Abbreviation worker := Demo.worker.

(** A runtime that knows two origins. *)
Definition origin_url (host : jstr) : URL := {|
  url_protocol := js "https:"; url_username := []; url_password := []; url_hostname := host; url_port := [];
  url_pathname := js "/"; url_search := []; url_hash := []; url_origin := js "https://" ++ host;
  url_href := js "https://" ++ host ++ js "/" |}.
Definition urls : UrlRuntime := {|
  parseURL s := find_first (fun url => jeqb s (url_origin url) || jeqb s (url_href url))
                  [origin_url (js "skills.sh"); origin_url (js "github.com")] |}.
#[local] Existing Instance urls.
Definition uconfig : UpstreamConfiguration :=
  {| uc_allowLoopbackUpstreams := false; uc_trustedSkillsShBaseUrls := [js "https://skills.sh"] |}.

Abbreviation after := Demo.after.
Definition w0 : World := initial demo_policy.

(** ** An upstream and an import by path *)

Definition upstream_body : jsval := JObj [
  (js "name", JStr (js "acme")); (js "kind", JStr (js "github")); (js "namespace", JStr (js "@tools"));
  (js "repositories", JArr [JStr (js "acme/skills")])].
Abbreviation configure := (createUpstream config uconfig upstream_body admin (js "req") (js "up_1") (js "audit_1") t0
  (w_state w0)).
Definition configured : RegistryState := Eval vm_compute in after configure.
Definition w1 : World := commit w0 configured.

Definition import_body : jsval := JObj [
  (js "upstreamId", JStr (js "up_1")); (js "repository", JStr (js "acme/skills"));
  (js "path", JStr (js "skills/fmt"));
  (js "name", JStr (js "@tools/fmt")); (js "version", JStr (js "1.0.0"))].
Abbreviation import := (resolveOrQueueImport config import_body admin (js "req") (js "job_1") (js "audit_2") (t0 + 1000)
  (w_state w1) (w_state w1)).
Definition queued : RegistryState := Eval vm_compute in after import.
Definition w2 : World := commit w1 queued.

Abbreviation claim_on w := (claimJob config worker (js "req") (js "lease") (js "audit_3") (t0 + 2000) (w_state w))
  (only parsing).
Definition claimed : RegistryState := Eval vm_compute in after (claim_on w2).
Definition w3 : World := commit w2 claimed.

Definition report_of (id job : string) : jsval :=
  match demo_scan_report id 2 ["low"%string] with
  | JObj l => JObj ((fun kv => if jeqb kv.1 (js "jobId") then (kv.1, JStr (js job)) else kv) <$> l)
  | v => v
  end.
Definition completion_of (scan job : string) (provenance : jsval) : jsval := JObj [
  (js "leaseToken", JStr (js "lease")); (js "bundle", bundle_value demo_bundle);
  (js "scanResults", JArr [report_of scan job]); (js "provenance", provenance)].
Abbreviation complete_on w scan job skill provenance :=
  (completeJob demo_parseDocument config (js job) (completion_of scan job provenance) worker (js "req")
     (js "audit_4") (js skill) (t0 + 3000) (t0 + 3000) (w_state w) (w_state w)) (only parsing).
Definition commit_1 : jstr := repeat 97 40.
Definition provenance_1 : jsval := JObj [
  (js "kind", JStr (js "github")); (js "upstreamId", JStr (js "up_1"));
  (js "repository", JStr (js "acme/skills")); (js "path", JStr (js "skills/fmt"));
  (js "revision", JStr commit_1); (js "resolvedCommit", JStr commit_1);
  (js "sourceResolutionKind", JStr (js "github")); (js "sourceProviderOrigin", JStr (js "https://github.com"))].
Abbreviation complete_1 := (complete_on w3 "scan_1" "job_1" "skill_1" provenance_1).
Definition imported : RegistryState := Eval vm_compute in after complete_1.
Definition w4 : World := commit w3 imported.

(** The same request again. *)
Abbreviation again := (resolveOrQueueImport config import_body admin (js "req") (js "job_9") (js "audit_5") (t0 + 4000)
  (w_state w4) (w_state w4)).

(** ** A feed and an import by external id *)

Definition feed_body : jsval := JObj [(js "name", JStr (js "catalog")); (js "kind", JStr (js "skills-sh"))].
Definition feed_ids : FeedIds :=
  {| fe_id := js "feed_1"; fe_configRevision := js "feed-config_1"; fe_auditId := js "audit_6" |}.
Abbreviation feeds_route w method rest body ids :=
  (handleFeedsRoute config uconfig method rest body admin (js "req") ids (t0 + 5000)
     (readState (Some (w_state w)) (js "acme")) (w_state w)) (only parsing).
Definition with_feed : RegistryState := Eval vm_compute in fst (feeds_route w4 POST [] feed_body feed_ids).
Definition w5 : World := commit w4 with_feed.

Definition snapshot_hash : jstr := js "sha256:" ++ repeat 98 64.
Definition directory : DirectoryClient := {|
  dc_detail id := Ok {| dd_id := id; dd_source := js "acme/skills"; dd_slug := js "fmt";
                        dd_hash := Some snapshot_hash; dd_files := Some [js "SKILL.md"] |};
  dc_findExact := None; dc_search _ := Ok []; dc_list _ := Ok ([], false) |}.
Definition external_body : jsval := JObj [(js "externalId", JStr (js "acme/skills/fmt"))].
Definition ids_of (random job audit : string) : ImportIds :=
  {| id_random := js random; id_jobId := js job; id_auditId := js audit |}.
Abbreviation external w ids := (resolveTransparentProxyRequest config uconfig external_body admin (js "req") ids
  (t0 + 6000) (t0 + 6000) (fun _ => Some directory) [CatalogRequest] (w_state w) (w_state w) (w_state w)) (only parsing).
Definition external_queued : RegistryState := Eval vm_compute in after (external w5 (ids_of "r1" "job_2" "audit_7")).
Definition w6 : World := commit w5 external_queued.
Definition external_claimed : RegistryState := Eval vm_compute in after (claim_on w6).
Definition w7 : World := commit w6 external_claimed.
Definition provenance_2 : jsval := JObj [
  (js "kind", JStr (js "skills-sh")); (js "upstreamId", JStr (js "feed_1"));
  (js "repository", JStr (js "acme/skills")); (js "path", JStr (js "acme/skills/fmt"));
  (js "externalId", JStr (js "acme/skills/fmt")); (js "externalSnapshotHash", JStr snapshot_hash);
  (js "revision", JStr snapshot_hash)].
Abbreviation complete_2 := (complete_on w7 "scan_2" "job_2" "skill_2" provenance_2).
Definition external_imported : RegistryState := Eval vm_compute in after complete_2.
Definition w8 : World := commit w7 external_imported.
Abbreviation external_again := (external w8 (ids_of "r9" "job_9" "audit_9")).

(** ** An import by source reference *)

Definition source_body : jsval := JObj [(js "reference", JStr (js "@github/acme/skills/skills/fmt"))].
Abbreviation source w ids := (resolveSourceReferenceRequest config source_body admin (js "req") ids
  (t0 + 7000) (t0 + 7000) (w_state w) (w_state w) (w_state w)) (only parsing).
Definition source_queued : RegistryState := Eval vm_compute in after (source w8 (ids_of "r2" "job_3" "audit_8")).
Definition w9 : World := commit w8 source_queued.
Definition source_claimed : RegistryState := Eval vm_compute in after (claim_on w9).
Definition w10 : World := commit w9 source_claimed.
Definition source_reference : (jstr * jsval) :=
  (js "sourceReference", JStr (js "@github/acme/skills/skills/fmt")).
Definition provenance_3 : jsval :=
  match provenance_1 with
  | JObj l => JObj (source_reference :: l)
  | v => v
  end.
Abbreviation complete_3 := (complete_on w10 "scan_3" "job_3" "skill_3" provenance_3).
Definition source_imported : RegistryState := Eval vm_compute in after complete_3.
Definition w11 : World := commit w10 source_imported.
Abbreviation source_again := (source w11 (ids_of "r9" "job_9" "audit_9")).

(** ** The feed is updated *)

Definition patch_body : jsval := JObj [(js "repositories", JArr [JStr (js "acme/skills")])].
Definition patch_ids : FeedIds :=
  {| fe_id := js "feed_9"; fe_configRevision := js "feed-config_2"; fe_auditId := js "audit_10" |}.
Abbreviation patch := (feeds_route w11 PATCH [js "feed_1"] patch_body patch_ids).
Definition feed_patched : RegistryState := Eval vm_compute in fst patch.
Definition w12 : World := commit w11 feed_patched.

(** ** The run *)

Abbreviation demo_step := (step demo_parseDocument config).
Abbreviation demo_run := (run demo_parseDocument config).

(** The side conditions of a step. *)
Lemma observed_now w : is_ok (readState (Some (w_state w)) (js "acme")) = true ->
  fill_collections (w_state w) = w_state w -> observed config w (w_state w).
Proof.
  intros H Hf. exists (w_state w). split; [by left|]. change (cfg_organizationId config) with (js "acme").
  destruct (readState _ _) as [s'|] eqn:E; [|done]. unfold readState in E. ok_inv.
  apply ensureState_ok in E0 as [-> _]. by rewrite Hf.
Qed.
Lemma unused_of (revision : jstr) w :
  forallb (fun s => forallb (fun f => negb (jeqb (fd_configRevision f) revision)) (feeds s)) (w_all w) = true ->
  unused_revision w revision.
Proof.
  intros H s f Hs Hf E. apply list_elem_of_In in Hs, Hf. rewrite forallb_forall in H. specialize (H s Hs).
  rewrite forallb_forall in H. specialize (H f Hf). by rewrite E, jeqb_refl in H.
Qed.
Lemma unused_version_of (version : jstr) s :
  forallb (fun j => match jb_import j with Some r => negb (jeqb (iq_version r) version) | None => true end)
    (st_jobs s) = true -> unused_version s version.
Proof.
  intros H. apply Forall_forall. intros j Hj r Hr E. apply list_elem_of_In in Hj. rewrite forallb_forall in H.
  specialize (H j Hj). by rewrite Hr, E, jeqb_refl in H.
Qed.
Ltac demo_side :=
  first [ apply observed_now; vm_compute; reflexivity
        | apply unused_of; vm_compute; reflexivity
        | apply unused_version_of; vm_compute; reflexivity
        | apply (bool_decide_unpack _); vm_compute; exact I ].
Ltac computed := apply Demo.succeeded; vm_compute; reflexivity.

Lemma configure_ok : exists a, configure = Ok (configured, a). Proof. computed. Qed.
Lemma import_ok : exists a, import = Ok (queued, a). Proof. computed. Qed.
Lemma claim_1_ok : exists a, claim_on w2 = Ok (claimed, a). Proof. computed. Qed.
Lemma complete_1_ok : exists a, complete_1 = Ok (imported, a). Proof. computed. Qed.
Lemma external_ok : exists a, external w5 (ids_of "r1" "job_2" "audit_7") = Ok (external_queued, a).
Proof. computed. Qed.
Lemma claim_2_ok : exists a, claim_on w6 = Ok (external_claimed, a). Proof. computed. Qed.
Lemma complete_2_ok : exists a, complete_2 = Ok (external_imported, a). Proof. computed. Qed.
Lemma source_ok : exists a, source w8 (ids_of "r2" "job_3" "audit_8") = Ok (source_queued, a).
Proof. computed. Qed.
Lemma claim_3_ok : exists a, claim_on w9 = Ok (source_claimed, a). Proof. computed. Qed.
Lemma complete_3_ok : exists a, complete_3 = Ok (source_imported, a). Proof. computed. Qed.
Lemma feed_created : exists r, feeds_route w4 POST [] feed_body feed_ids = (with_feed, r).
Proof. eexists. vm_compute. reflexivity. Qed.
Lemma feed_patched_ok : exists r, patch = (feed_patched, r).
Proof. eexists. vm_compute. reflexivity. Qed.

Lemma hop_1 : demo_step w0 w1.
Proof. destruct configure_ok as [a Ha]. refine (step_upstream _ _ w0 _ _ _ _ _ _ _ _ _ Ha _); demo_side. Qed.
Lemma hop_2 : demo_step w1 w2.
Proof. destruct import_ok as [a Ha]. refine (step_import _ _ w1 _ _ _ _ _ _ _ _ _ _ Ha _); demo_side. Qed.
Lemma hop_3 : demo_step w2 w3.
Proof. destruct claim_1_ok as [a Ha]. exact (step_claim _ _ w2 _ _ _ _ _ _ _ Ha). Qed.
Lemma hop_4 : demo_step w3 w4.
Proof. destruct complete_1_ok as [a Ha]. refine (step_complete _ _ w3 _ _ _ _ _ _ _ _ _ _ _ _ Ha _); demo_side. Qed.
Lemma hop_5 : demo_step w4 w5.
Proof.
  destruct feed_created as [r Hr]. refine (step_feed _ _ w4 _ _ _ _ _ _ _ _ _ _ _ _ Hr _ _);
    [exists (w_state w4); split; [by left|reflexivity] | demo_side..].
Qed.
Lemma hop_6 : demo_step w5 w6.
Proof.
  destruct external_ok as [a Ha]. refine (step_transparent _ _ w5 _ _ _ _ _ _ _ _ _ _ _ _ _ _ _ Ha _ _); demo_side.
Qed.
Lemma hop_7 : demo_step w6 w7.
Proof. destruct claim_2_ok as [a Ha]. exact (step_claim _ _ w6 _ _ _ _ _ _ _ Ha). Qed.
Lemma hop_8 : demo_step w7 w8.
Proof. destruct complete_2_ok as [a Ha]. refine (step_complete _ _ w7 _ _ _ _ _ _ _ _ _ _ _ _ Ha _); demo_side. Qed.
Lemma hop_9 : demo_step w8 w9.
Proof. destruct source_ok as [a Ha]. refine (step_source _ _ w8 _ _ _ _ _ _ _ _ _ _ _ _ Ha _ _); demo_side. Qed.
Lemma hop_10 : demo_step w9 w10.
Proof. destruct claim_3_ok as [a Ha]. exact (step_claim _ _ w9 _ _ _ _ _ _ _ Ha). Qed.
Lemma hop_11 : demo_step w10 w11.
Proof. destruct complete_3_ok as [a Ha]. refine (step_complete _ _ w10 _ _ _ _ _ _ _ _ _ _ _ _ Ha _); demo_side. Qed.
Lemma hop_12 : demo_step w11 w12.
Proof.
  destruct feed_patched_ok as [r Hr]. refine (step_feed _ _ w11 _ _ _ _ _ _ _ _ _ _ _ _ Hr _ _);
    [exists (w_state w11); split; [by left|reflexivity] | demo_side..].
Qed.

Lemma run_configured : demo_run w0 w1.
Proof. eauto using run_refl, run_step, hop_1. Qed.
Lemma run_import_queued : demo_run w0 w2.
Proof. eauto using run_step, run_configured, hop_2. Qed.
Lemma run_claimed : demo_run w2 w3.
Proof. eauto using run_refl, run_step, hop_3. Qed.
Lemma run_imported : demo_run w0 w4.
Proof. eauto using run_step, run_import_queued, hop_3, hop_4. Qed.
Lemma run_external : demo_run w0 w8.
Proof. eauto using run_step, run_imported, hop_5, hop_6, hop_7, hop_8. Qed.
Lemma run_source : demo_run w0 w11.
Proof. eauto using run_step, run_external, hop_9, hop_10, hop_11. Qed.
Lemma run_patched : demo_run w0 w12.
Proof. eauto using run_step, run_source, hop_12. Qed.
End ImportDemo.
