(* ===== verification/DraftScenario.v ===== *)
(** * A concrete draft

    A draft of an uploaded skill: created, saved with one file replaced and the
    other named by its digest, published.  The store keeps every object under
    its own bytes. *)

From Stdlib Require Import ZArith Lia.
From stdpp Require Import base list list_numbers strings sets.
From S2P Require Import Prelude Js Dates Json Numbers Wire Bundle Frontmatter Contracts Web Access Names.
From S2P Require Import PolicyEval State Registry Authoring Drafts SkillBuilder DraftHandlers Builder.
From S2P Require Import BuilderSessions DraftState DraftCommits BuilderCommits System.
From S2P Require Import Scenario.

Local Open Scope Z_scope.

Module DraftDemo.
#[local] Existing Instance iso_runtime.
#[local] Existing Instance ascii_tables.
#[local] Existing Instance no_urls.
#[local] Existing Instance unit_collation.
Definition crypto : Crypto := {|
  sha256 bytes :=
    let h := fold_left (fun acc b => (acc * 257 + b + 1) mod 2 ^ 251) bytes 7 in
    (fun i => (h / 2 ^ (8 * i)) mod 256) <$> seqZ 0 32 |}.
#[local] Existing Instance crypto.
Definition blobs : Blobs := {|
  blob_put bytes := Some {| sb_key := bytes; sb_digest := digestBytes bytes; sb_size := jlen bytes |};
  blob_get key := Some key |}.
#[local] Existing Instance blobs.
Lemma blobs_law : StoreLaw.
Proof. split. by intros bytes artifact [= <-]. Qed.

Definition config : Configuration := Demo.config.
Definition validSemver (s : jstr) : bool := negb (jeqb s []).
Definition w0 : World := initial demo_policy.
Definition ids (n : string) : DraftIds := {|
  ids_draftId := js "draft_" ++ js n; ids_skillId := js "skill_" ++ js n; ids_jobId := js "job_" ++ js n;
  ids_auditId := js "audit_" ++ js n |}.
Definition doc {A} (h : handled A) : RegistryState := h.1.

Abbreviation serve route n now state := (draftHandler demo_parseDocument (cfg_organizationId config)
  (fun s x p => Some (core_admission config now s x p)) (Some (core_admission config now)) validSemver
  (Some Demo.admin) route (ids n) now state state state).

Definition upload_route : DraftRoute := RouteUpload
  (JObj [(js "name", JStr (js "@tools/demo")); (js "files", JArr (file_value <$> files demo_bundle))]) (Some (js "k1")).
Definition uploaded : RegistryState := Eval vm_compute in doc (serve upload_route "1" Demo.t0 (w_state w0)).
Definition w1 : World := commit w0 uploaded.

Definition the_draft (s : RegistryState) : option SkillDraft := head (drafts s).
Definition current_digest (s : RegistryState) : jstr := from_option dr_digest [] (the_draft s).

(** The script unchanged, named by its digest; the manifest replaced. *)
Definition script_digest : jstr := Eval vm_compute in digestBytes (textEncode (js "echo hi")).
Definition update_body : jsval := Eval vm_compute in JObj [
  (js "expectedRevision", JNum (num_of_Z 1)); (js "expectedDigest", JStr (current_digest uploaded));
  (js "files", JArr [
     JObj [(js "path", JStr (js "scripts/run.sh")); (js "digest", JStr script_digest)];
     JObj [(js "path", JStr (js "SKILL.md")); (js "content", JStr (js "LS0tCm5hbWU6IGIKLS0tCg=="))]])].
Definition update_route : DraftRoute := RouteUpdate (js "draft_1") update_body (Some (js "k2")).
Definition saved : RegistryState := Eval vm_compute in doc (serve update_route "2" (Demo.t0 + 1000) (w_state w1)).
Definition w2 : World := commit w1 saved.

Definition publish_body : jsval := JObj [
  (js "expectedRevision", JNum (num_of_Z 2)); (js "version", JStr (js "1.0.0"))].
Definition publish_route : DraftRoute := RoutePublish (js "draft_1") publish_body (Some (js "k3")).
Definition queued : RegistryState := Eval vm_compute in doc (serve publish_route "3" (Demo.t0 + 2000) (w_state w2)).
Definition w3 : World := commit w2 queued.

(** ** The run *)

Abbreviation demo_step := (step demo_parseDocument config).
Abbreviation demo_run := (run demo_parseDocument config).

(** A request on the current document is a step. *)
Lemma served_step w route n now s : fst (serve route n now (w_state w)) = s ->
  ids_draftId (ids n) ∉ dr_id <$> drafts (w_state w) -> ids_skillId (ids n) ∉ sk_id <$> st_skills (w_state w) ->
  ids_jobId (ids n) ∉ jb_id <$> st_jobs (w_state w) -> demo_step w (commit w s).
Proof.
  intros H H1 H2 H3. destruct (serve route n now (w_state w)) as [s1 r] eqn:E. cbn [fst] in H. subst s1.
  refine (step_draft _ _ w validSemver _ _ _ _ _ _ _ _ _ _ _ _ E H1 H2 H3); by left.
Qed.
Lemma run_uploaded : demo_run w0 w1.
Proof.
  eapply run_step; [apply run_refl|].
  refine (served_step w0 upload_route "1" Demo.t0 _ _ _ _ _); [vm_compute; reflexivity|..];
    apply (bool_decide_unpack _); vm_compute; exact I.
Qed.
Lemma step_saved : demo_step w1 w2.
Proof.
  refine (served_step w1 update_route "2" (Demo.t0 + 1000) _ _ _ _ _); [vm_compute; reflexivity|..];
    apply (bool_decide_unpack _); vm_compute; exact I.
Qed.
Lemma run_saved : demo_run w0 w2.
Proof. eapply run_step; [apply run_uploaded | apply step_saved]. Qed.
Lemma step_queued : demo_step w2 w3.
Proof.
  refine (served_step w2 publish_route "3" (Demo.t0 + 2000) _ _ _ _ _); [vm_compute; reflexivity|..];
    apply (bool_decide_unpack _); vm_compute; exact I.
Qed.
Lemma run_from_saved : demo_run w2 w3.
Proof. eapply run_step; [apply run_refl | apply step_queued]. Qed.
Lemma run_queued : demo_run w0 w3.
Proof. eapply run_step; [apply run_saved | apply step_queued]. Qed.

(** The scenario is what it says. *)
Example draft_revisions :
  (dr_revision <$> the_draft uploaded, dr_revision <$> the_draft saved,
   (fun d => length (publications d)) <$> the_draft queued, length (st_skills queued), length (st_jobs queued))
  = (Some 1, Some 2, Some 1%nat, 1%nat, 1%nat).
Proof. vm_compute. reflexivity. Qed.
End DraftDemo.

(** * A concrete builder session

    On the draft of DraftScenario.v: a session is opened, a prompt reserved and
    accepted by the agent, the agent proposes an edit and a new file, and the
    publisher applies it. *)

Module BuilderDemo.
Import DraftDemo.
#[local] Existing Instance iso_runtime.
#[local] Existing Instance ascii_tables.
#[local] Existing Instance no_urls.
#[local] Existing Instance unit_collation.
#[local] Existing Instance crypto.
#[local] Existing Instance blobs.
Abbreviation org := (cfg_organizationId config).

Definition agent : Principal := {|
  pr_organizationId := js "acme"; pr_subject := js "builder"; pr_roles := [Publisher];
  pr_namespaces := None; pr_scopes := Some [js "skills:builder"]; pr_identity := None; pr_display := JUndef |}.
Definition tool : option jstr := Some (js "skill-builder").
Definition draft1 : jstr := js "draft_1".
Definition digest1 : jstr := Eval vm_compute in current_digest uploaded.
Definition revisions : list jstr := [js "1"].
Definition digests : list jstr := Eval vm_compute in [digest1].
Definition headers : BffHeaders := {| hd_fetchSite := None; hd_origin := None; hd_cookie := None |}.
Definition bound_fields : list (jstr * jsval) := Eval vm_compute in
  [(js "revision", JNum (num_of_Z 1)); (js "digest", JStr digest1)].

(** ** The session *)

Abbreviation facade operation now w := (builderBffHandler org [] headers revisions digests draft1 Demo.admin operation now
  (w_state w) (w_state w) (w_state w)).
Definition open_operation : BffOperation :=
  OpenSession (JObj (bound_fields ++ [(js "requestId", JStr (js "open-1"))])) (js "session_1") (js "key_1").
Definition opened : RegistryState := Eval vm_compute in doc (facade open_operation (Demo.t0 + 1000) w1).
Definition b1 : World := commit w1 opened.

Definition prompt_operation : BffOperation :=
  PromptSession (js "session_1") (JObj [(js "prompt", JStr (js "say more")); (js "requestId", JStr (js "r1"))]).
Definition reserved : RegistryState := Eval vm_compute in doc (facade prompt_operation (Demo.t0 + 2000) b1).
Definition b2 : World := commit b1 reserved.

Definition the_session (s : RegistryState) : option SkillBuilderSessionRecord := head (sessions s).
Definition session_of (s : RegistryState) : SkillBuilderSessionRecord :=
  default (new_session Demo.admin {| db_draftId := []; db_revision := 0; db_digest := [] |} [] [] []) (the_session s).
Definition reserved_session : SkillBuilderSessionRecord := Eval vm_compute in session_of reserved.
Definition request1 : PromptRequest :=
  {| pq_prompt := js "say more"; pq_requestId := js "r1"; pq_selectedPath := None |}.
Definition binding1 : DraftBinding := Eval vm_compute in {| db_draftId := draft1; db_revision := 1; db_digest := digest1 |}.
Definition request_digest : jstr := Eval vm_compute in
  from_option br_requestDigest [] (head (bs_requests reserved_session)).
Definition acceptance : jsval := Eval vm_compute in JObj ([
  (js "status", JStr (js "accepted")); (js "sessionId", JStr (js "eve_1")); (js "sessionKey", JStr (js "key_1"));
  (js "registrySessionId", JStr (js "session_1")); (js "draftId", JStr draft1);
  (js "requestId", JStr (js "r1")); (js "requestDigest", JStr request_digest)] ++ bound_fields).
Abbreviation settle w := (settlePrompt reserved_session request1 binding1 (Some acceptance) (Demo.t0 + 3000) (w_state w)).
Definition accepted : RegistryState := Eval vm_compute in doc (settle b2).
Definition b3 : World := commit b2 accepted.

(** ** The proposal *)

Definition operations_value : jsval := JArr [
  JObj [(js "op", JStr (js "add")); (js "path", JStr (js "notes.md")); (js "content", JStr (js "hello"))];
  JObj [(js "op", JStr (js "edit")); (js "path", JStr (js "scripts/run.sh")); (js "content", JStr (js "echo ho"))]].
Definition propose_body : jsval := Eval vm_compute in JObj (bound_fields ++ [
  (js "sessionId", JStr (js "session_1")); (js "operations", operations_value)]).
Definition builder_ids (n : string) : BuilderIds :=
  {| bi_proposalId := js "proposal_" ++ js n; bi_auditId := js "audit_p" ++ js n |}.
Abbreviation request who identity route n now w := (builderHandler org (Some who) identity draft1 route (builder_ids n) now now
  (w_state w) (w_state w) (w_state w) (w_state w)).
Definition propose_route : BuilderRoute := RoutePropose propose_body (Some (js "p1")).
Definition proposed : RegistryState := Eval vm_compute in doc (request agent tool propose_route "1" (Demo.t0 + 4000) b3).
Definition b4 : World := commit b3 proposed.

Definition apply_body : jsval := Eval vm_compute in JObj (bound_fields ++ [(js "sessionId", JStr (js "session_1"))]).
Definition apply_route : BuilderRoute := RouteApply (js "proposal_1") apply_body (Some (js "a1")).
Definition applied : RegistryState := Eval vm_compute in doc (request Demo.admin None apply_route "2" (Demo.t0 + 5000) b4).
Definition b5 : World := commit b4 applied.

Example builder_run_is :
  ((fun b => bs_eveSessionId b) <$> the_session accepted, (fun b => bp_state <$> bs_proposals b) <$> the_session proposed,
   (fun b => (bp_state <$> bs_proposals b, bs_draftRevision b)) <$> the_session applied,
   dr_revision <$> the_draft applied, (fun d => path <$> dr_files d) <$> the_draft applied) =
  (Some (js "eve_1"), Some [ProposalPending], Some ([ProposalApplied], 2), Some 2,
   Some [js "SKILL.md"; js "notes.md"; js "scripts/run.sh"]).
Proof. vm_compute. reflexivity. Qed.

(** ** The run *)

Lemma facade_step w operation now s : fst (facade operation now w) = s ->
  match opened_id operation with Some id => id ∉ bs_id <$> sessions (w_state w) | None => True end ->
  demo_step w (commit w s).
Proof.
  intros H Hid. destruct (facade operation now w) as [s1 r] eqn:E. cbn [fst] in H. subst s1.
  refine (step_session _ _ w _ _ _ _ _ _ _ _ _ _ _ _ _ _ E _ _); [by left | by left | reflexivity |].
  intros id Ho. by rewrite Ho in Hid.
Qed.
(** No proposal has the id, decided on the lists. *)
Definition proposal_ids (w : World) : list jstr :=
  w_all w ≫= (fun s => sessions s ≫= (fun b => bp_id <$> bs_proposals b)).
Lemma unused_dec w id : id ∉ proposal_ids w -> unused_proposal w id.
Proof.
  intros H s p Hs (b & Hb & Hp) <-. apply H. unfold proposal_ids. apply list_elem_of_bind. exists s. split; [|done].
  apply list_elem_of_bind. exists b. split; [|done]. by apply list_elem_of_fmap_2.
Qed.
Lemma builder_step w who identity route n now s : fst (request who identity route n now w) = s ->
  bi_proposalId (builder_ids n) ∉ proposal_ids w -> demo_step w (commit w s).
Proof.
  intros H Hid%unused_dec. destruct (request who identity route n now w) as [s1 r] eqn:E. cbn [fst] in H. subst s1.
  refine (step_builder _ _ w _ _ _ _ _ _ _ _ _ _ _ _ _ _ _ E Hid); by left.
Qed.

Lemma run_opened : demo_run w0 b1.
Proof.
  eapply run_step; [apply run_uploaded|].
  refine (facade_step w1 open_operation (Demo.t0 + 1000) _ _ _); [vm_compute; reflexivity|].
  apply (bool_decide_unpack _); vm_compute; exact I.
Qed.
Lemma run_reserved : demo_run w0 b2.
Proof.
  eapply run_step; [apply run_opened|].
  refine (facade_step b1 prompt_operation (Demo.t0 + 2000) _ _ _); [vm_compute; reflexivity | exact I].
Qed.
Lemma run_accepted : demo_run w0 b3.
Proof.
  eapply run_step; [apply run_reserved|]. destruct (settle b2) as [s r] eqn:E.
  assert (Hs : fst (settle b2) = accepted) by (vm_compute; reflexivity). rewrite E in Hs. cbn [fst] in Hs. subst s.
  refine (step_settle _ _ b2 _ _ _ _ _ _ _ _ _ E); [|done].
  exists reserved. split; [by left|]. by left.
Qed.
Lemma run_proposed : demo_run w0 b4.
Proof.
  eapply run_step; [apply run_accepted|].
  refine (builder_step b3 agent tool propose_route "1" (Demo.t0 + 4000) _ _ _); [vm_compute; reflexivity|].
  apply (bool_decide_unpack _); vm_compute; exact I.
Qed.
Lemma step_applied : demo_step b4 b5.
Proof.
  refine (builder_step b4 Demo.admin None apply_route "2" (Demo.t0 + 5000) _ _ _); [vm_compute; reflexivity|].
  apply (bool_decide_unpack _); vm_compute; exact I.
Qed.
Lemma run_applied : demo_run w0 b5.
Proof. eapply run_step; [apply run_proposed | apply step_applied]. Qed.
End BuilderDemo.
