(* ===== verification/Safety.v ===== *)
(** * What every run of the registry preserves

    The invariants of [System.v] and what follows for releases, packs and
    evidence along all interleavings of requests. *)

From Stdlib Require Import ZArith Lia.
From stdpp Require Import base list strings sets.
From S2P Require Import Prelude Js Dates Json Bundle Frontmatter Contracts Web Access Names PolicyEval.
From S2P Require Import Resolve ScanEvidence State Registry Install Jobs System Scenario.

Local Open Scope Z_scope.

(** ** Histories *)

#[export] Instance release_step_preorder : PreOrder release_step.
Proof.
  split; [by intros x; split|]. intros x y z [] []. split; try congruence; [set_solver | auto].
Qed.
#[export] Instance pack_step_preorder : PreOrder pack_step.
Proof.
  split; [intros x; split; auto|]. intros x y z [? ? ? ? ? ? ? Hy] [? ? ? ? ? ? ? Hz]. split; try congruence.
  destruct Hz as [->|]; auto.
Qed.

Section Safety.
Context {DR : DateRuntime} {UT : UnicodeTables} {UR : UrlRuntime} {CO : Collation} {CR : Crypto} {BL : Blobs}.
Context (parseDocument : jstr -> option ydocument) (config : Configuration).
Abbreviation org := (cfg_organizationId config).
Abbreviation run := (run parseDocument config).
Abbreviation inv := (inv config).

(** A property of one collection that every change preserves holds of runs. *)
Lemma run_history {A} (collection : RegistryState -> list A) (R : A -> A -> Prop) `{!PreOrder R} w w' x :
  (forall granted v s', delta config (granted := granted) v s' -> exists P, change R P (collection (w_state v)) (collection s')) ->
  inv w -> run w w' -> x ∈ collection (w_state w) ->
  exists x', x' ∈ collection (w_state w') /\ R x x'.
Proof.
  intros Hd I Hrun Hx. induction Hrun as [|v v' Hr IH Hs]; [by exists x|].
  destruct IH as (y & Hy & Hxy).
  destruct (step_delta parseDocument config v v') as (s' & -> & D); [|done|].
  { by eapply run_inv. }
  destruct (Hd _ v s' D) as [P HP]. eapply change_elem in HP as (z & Hz & Hyz); [|apply _|done].
  exists z. split; [done | by transitivity y].
Qed.
Lemma run_releases w w' x : inv w -> run w w' -> x ∈ st_skills (w_state w) ->
  exists x', x' ∈ st_skills (w_state w') /\ release_step x x'.
Proof. apply run_history; [apply _|]. intros g v s' D. eexists. apply D. Qed.
Lemma run_packs w w' x : inv w -> run w w' -> x ∈ st_packs (w_state w) ->
  exists x', x' ∈ st_packs (w_state w') /\ pack_step x x'.
Proof. apply run_history; [apply _|]. intros g v s' D. eexists. apply D. Qed.

(** ** Theorems *)

(** C7. From the empty document, no sequence of requests, however they interleave,
    mixes organizations or breaks a key: every record belongs to the configured
    organization, a name and version stand for one release and for one pack,
    release and job ids are unique, a policy revision stands for one policy,
    and an authorization has at most one receipt. *)
Theorem registry_isolated (policy : Policy) (w : World) :
  run (initial policy) w ->
  in_organization org (w_state w) /\
  NoDup ((fun x => (sk_name x, sk_version x)) <$> st_skills (w_state w)) /\
  NoDup ((fun x => (pk_name x, pk_version x)) <$> st_packs (w_state w)) /\
  NoDup (sk_id <$> st_skills (w_state w)) /\ NoDup (jb_id <$> st_jobs (w_state w)) /\
  NoDup (ir_authorizationId <$> receipts (w_state w)) /\
  (forall p q, p ∈ w_policies w -> q ∈ w_policies w -> po_revision p = po_revision q -> p = q).
Proof. intros H. apply run_inv in H; [|apply initial_inv]. destruct H. auto 10. Qed.

(** C1. No release is ever approved without evidence: the registry holds a policy
    that was in force under the revision the release carries, and stored scan
    results, listed by the release, that satisfied this policy for the bytes of
    the release. *)
Theorem approval_has_evidence (policy : Policy) (w : World) (x : SkillVersion) :
  run (initial policy) w -> x ∈ st_skills (w_state w) -> sk_state x = Approved ->
  exists p results now,
    p ∈ w_policies w /\ po_revision p = sk_policyRevision x /\
    Forall (fun r => r ∈ st_scans (w_state w) /\ sr_id r ∈ sk_scanIds x) results /\
    policy_satisfied p results (sb_digest (sk_artifact x)) (sk_fileCount x) now.
Proof.
  intros H Hx Ha. apply run_inv in H; [|apply initial_inv].
  by apply (proj1 (Forall_forall _ _) (inv_approved _ _ H)) in Hx; apply Hx.
Qed.

(** C8. Releases and packs are immutable: whatever happens after a document was
    reached, a release keeps its identity, name, version, bytes and provenance
    and never returns from revocation, and a pack keeps its members, manifest
    and policy revision and changes at most to revoked. *)
Theorem releases_immutable (policy : Policy) (w w' : World) :
  run (initial policy) w -> run w w' ->
  (forall x, x ∈ st_skills (w_state w) -> exists x', x' ∈ st_skills (w_state w') /\ release_step x x') /\
  (forall x, x ∈ st_packs (w_state w) -> exists x', x' ∈ st_packs (w_state w') /\ pack_step x x').
Proof.
  intros H Hr. apply run_inv in H; [|apply initial_inv].
  split; intros x; [by apply run_releases | by apply run_packs].
Qed.

(** C2. A revoked release is gone for good: in every later document it resolves in
    no plan, alone or in a pack, and no transfer of it is served. *)
Theorem revoked_never_served (policy : Policy) (w w' : World) (x : SkillVersion) :
  run (initial policy) w -> run w w' -> x ∈ st_skills (w_state w) -> sk_state x = Revoked ->
  (forall principal now kind ref version resource r,
     resolveResource (w_state w') principal now kind ref version = Resolved resource r ->
     sk_id x ∉ sk_id <$> rs_members r) /\
  (forall grantId principal now g,
     find_first (fun g => jeqb (tg_id g) grantId) (st_grants (w_state w')) = Some g ->
     tg_resourceId g = sk_id x ->
     is_ok (serveTransferGrant config grantId principal now (w_state w')) = false).
Proof.
  intros H Hr Hx Hrev. apply run_inv in H; [|apply initial_inv].
  destruct (run_releases w w' x H Hr Hx) as (x' & Hx' & Hs).
  apply run_inv in Hr as I'; [|done]. pose proof (rst_revoked _ _ Hs Hrev) as Hrev'.
  assert (Huniq : forall y, y ∈ st_skills (w_state w') -> sk_id y = sk_id x ->
            forall now, skillCurrentlyApproved (w_state w') y now = false).
  { intros y Hy Hid now. assert (y = x') as ->.
    { apply (NoDup_key_inj sk_id (st_skills (w_state w'))); [apply I' | done | done |].
      by rewrite (rst_id _ _ Hs). }
    unfold skillCurrentlyApproved. by rewrite Hrev'. }
  split.
  - intros principal now kind ref version resource r [Hok _]%resolveResource_ok (y & Hid & Hy)%list_elem_of_fmap.
    apply (proj1 (Forall_forall _ _) (ro_members _ _ _ _ Hok)) in Hy as (Hin & Happ & _).
    by rewrite (Huniq y) in Happ.
  - intros grantId principal now g Hg Hid. unfold serveTransferGrant. rewrite Hg, Hid.
    destruct (_ || _); [done|]. destruct (find_first _ (st_authorizations _)); [|done].
    destruct (timestampExpired _ _); [done|]. destruct (assertCurrentResolution _ _ _ _); [|done].
    cbn [rbind]. destruct (find_skill _ _) as [y|] eqn:Ey; [|done].
    apply find_skill_Some in Ey as [Hy Hyid]. by rewrite (Huniq y).
Qed.
End Safety.

(** ** Witnesses *)

Definition demo_release (w : World) : SkillVersion :=
  match st_skills (w_state w) with
  | x :: _ => x
  | [] => {| sk_id := []; sk_organizationId := []; sk_name := []; sk_skillName := []; sk_version := [];
             sk_description := []; sk_artifact := {| sb_key := []; sb_digest := []; sb_size := 0 |};
             sk_state := Pending; sk_policyRevision := []; sk_createdAt := []; sk_approvedAt := None;
             sk_provenance := native_provenance; sk_fileCount := 0; sk_scanIds := [];
             sk_authoring := None |}
  end.

Lemma registry_isolated_witness : in_organization (js "acme") (w_state Demo.w7).
Proof. exact (proj1 (registry_isolated _ Demo.config _ Demo.w7 Demo.run_received)). Defined.

Lemma approval_has_evidence_witness : exists p results now,
  p ∈ w_policies Demo.w3 /\ po_revision p = js "policy-1" /\
  Forall (fun r => r ∈ st_scans (w_state Demo.w3) /\ sr_id r ∈ sk_scanIds (demo_release Demo.w3)) results /\
  policy_satisfied (DR := iso_runtime) p results demo_digest 2 now.
Proof.
  apply (approval_has_evidence _ Demo.config _ Demo.w3 (demo_release Demo.w3) Demo.run_approved);
    [left | vm_compute; reflexivity].
Defined.

Lemma releases_immutable_witness : exists x',
  x' ∈ st_skills (w_state Demo.w8) /\ release_step (demo_release Demo.w7) x'.
Proof.
  apply (releases_immutable _ Demo.config _ Demo.w7 Demo.w8 Demo.run_received Demo.run_from_received).
  left.
Defined.

Lemma revoked_never_served_witness :
  is_ok (serveTransferGrant (DR := iso_runtime) (CO := unit_collation) (CR := Demo.crypto)
    (BL := Demo.blobs) Demo.config (js "grant_1") Demo.admin (Demo.t0 + 8000) (w_state Demo.w8)) = false.
Proof.
  destruct (revoked_never_served (DR := iso_runtime) (UT := ascii_tables) (UR := no_urls)
    (CO := unit_collation) (CR := Demo.crypto) (BL := Demo.blobs) demo_parseDocument Demo.config demo_policy Demo.w8 Demo.w8 (demo_release Demo.w8)) as [_ Hs].
  - exact (run_step _ _ _ _ _ Demo.run_received Demo.step_8).
  - apply run_refl.
  - left.
  - vm_compute. reflexivity.
  - eapply Hs; vm_compute; reflexivity.
Defined.

(** * Packs

    The guarantees of the pack handlers of [Registry.v]: what a pack is
    committed with, that its manifest text determines it, and that revoking a
    release takes its packs down. *)

(** ** The manifest text *)

Definition sorted_member (m : PackMember) : jdata := TObj [
  (js "digest", TStr (pm_digest m)); (js "name", TStr (pm_name m));
  (js "resourceId", TStr (pm_resourceId m)); (js "version", TStr (pm_version m))].
Definition sorted_manifest (name version description : jstr) (members : list PackMember) : jdata := TObj [
  (js "description", TStr description); (js "members", TArr (sorted_member <$> members));
  (js "name", TStr name); (js "version", TStr version)].

Lemma stable_member m : stableStringify (member_data m) = stringify (sorted_member m).
Proof. reflexivity. Qed.
Lemma stable_manifest name version description members :
  stableStringify (manifest_data name version description members) =
  stringify (sorted_manifest name version description members).
Proof.
  assert (Hm : stableStringify (TArr (member_data <$> members)) = stringify (TArr (sorted_member <$> members))).
  { cbn [stableStringify stringify]. do 3 f_equal. rewrite <- !list_fmap_compose.
    apply list_fmap_ext. intros i m _. apply stable_member. }
  unfold manifest_data, sorted_manifest. cbn [stableStringify] in *.
  cbn [fmap list_fmap fst snd]. cbn [stableStringify]. rewrite Hm. reflexivity.
Qed.

Definition wf_member (m : PackMember) : Prop :=
  wf_jstr (pm_resourceId m) /\ wf_jstr (pm_name m) /\ wf_jstr (pm_version m) /\ wf_jstr (pm_digest m).

Lemma sorted_manifest_ok name version description members :
  wf_jstr name -> wf_jstr version -> wf_jstr description -> Forall wf_member members ->
  jdata_ok (sorted_manifest name version description members).
Proof.
  intros Hn Hv Hd Hm.
  assert (Hkey : forall s, Forall (fun c => 0 <= c < 65536) (js s)).
  { intros s. eapply Forall_impl; [apply js_ascii|]. cbn. lia. }
  apply jdata_ok_obj. split; [by apply (bool_decide_unpack _); vm_compute|].
  repeat constructor; cbn [fst snd]; try done; try apply Hkey.
  apply jdata_ok_arr, Forall_fmap. eapply Forall_impl; [exact Hm|].
  intros m (H1 & H2 & H3 & H4). apply jdata_ok_obj.
  split; [by apply (bool_decide_unpack _); vm_compute|].
  repeat constructor; cbn [fst snd]; try done; apply Hkey.
Qed.

(** The manifest text determines the pack: two packs whose manifests are the
    same bytes have the same name, version, description and members, so the
    manifest digest identifies them as well as the hash does. *)
Theorem manifest_bytes_injective (name version description name' version' description' : jstr)
    (members members' : list PackMember) :
  wf_jstr name -> wf_jstr version -> wf_jstr description -> Forall wf_member members ->
  wf_jstr name' -> wf_jstr version' -> wf_jstr description' -> Forall wf_member members' ->
  manifest_bytes name version description members = manifest_bytes name' version' description' members' <->
  name = name' /\ version = version' /\ description = description' /\ members = members'.
Proof.
  unfold manifest_bytes. rewrite !stable_manifest. intros Hn Hv Hd Hm Hn' Hv' Hd' Hm'.
  split; [intros Heq | by intros (-> & -> & -> & ->)].
  pose proof (sorted_manifest_ok _ _ _ _ Hn Hv Hd Hm) as Hok.
  pose proof (sorted_manifest_ok _ _ _ _ Hn' Hv' Hd' Hm') as Hok'.
  destruct (stringify_ok _ Hok) as [Hw Hwell]. destruct (stringify_ok _ Hok') as [Hw' Hwell'].
  apply (f_equal textDecode) in Heq. rewrite !textDecode_textEncode in Heq by (done || by intros r).
  apply (inj Some), (f_equal json_parse) in Heq. rewrite !json_parse_stringify in Heq by done.
  injection Heq as -> Hms -> ->. split; [done|]. split; [done|]. split; [done|].
  clear -Hms. revert members' Hms. induction members as [|m members IH]; intros [|m' members'] H; try done.
  injection H as H1 H2 H3 H4 H. f_equal; [|by apply IH]. destruct m, m'. cbn in *. congruence.
Qed.

(** ** Creating and revoking *)

Section PackSafety.
Context {DR : DateRuntime} {UT : UnicodeTables} {UR : UrlRuntime} {CO : Collation} {CR : Crypto} {BL : Blobs}.
Context (config : Configuration).

Lemma resolved_skill state principal now ref version x r :
  resolveResource state principal now KSkill ref version = Resolved (inl x) r ->
  installable state principal now x.
Proof.
  intros H. assert (Hr : r = skillResolution x).
  { cbn [resolveResource] in H. unfold resolve_skill in H.
    destruct (chooseVersion _ _ _) as [y|]; [|by repeat case_match].
    destruct (bool_decide _); [by case_match|]. destruct (negb _); [done|]. by injection H as <- <-. }
  apply resolveResource_ok in H as [[Hm _ _] _]. subst r. exact (proj1 (Forall_singleton _ _) Hm).
Qed.

Lemma collect_members_ok principal snapshot now ids l members :
  collect_members principal snapshot now ids l = Ok members ->
  length members = length l /\ NoDup (pm_resourceId <$> members) /\
  Forall (fun m => pm_resourceId m ∉ ids) members /\
  Forall (fun m => exists x, installable snapshot principal now x /\ m = pack_member_of x) members.
Proof.
  revert ids members; induction l as [|raw l IH]; intros ids members H; cbn [collect_members] in H.
  { ok_inv. repeat split; constructor. }
  ok_inv. destruct (stringValue _) as [ref|]; [|done].
  destruct (resolveResource _ _ _ _ _ _) as [[x|p] r| |] eqn:Er; try done. ok_inv. bool_inv.
  apply IH in E0 as (Hlen & Hnd & Hids & Hall).
  apply resolved_skill in Er.
  cbn [length]. split; [congruence|]. rewrite fmap_cons, NoDup_cons. split.
  { split; [|done]. intros (m & Hm & Hin)%list_elem_of_fmap.
    apply (proj1 (Forall_forall _ _) Hids) in Hin. apply Hin. rewrite <- Hm. by left. }
  split; constructor; eauto. eapply Forall_impl; [exact Hids|]. cbn. set_solver.
Qed.
(** A pack is committed with members that are good at that moment: each names a
    release of the current document, by id and digest, that is approved under
    the current policy revision; the members are pairwise different and at most
    500, they were installable for the caller when the request was read, the
    caller may publish the name, no pack has this name and version yet, and the
    manifest digest is that of the manifest text. *)
Theorem pack_members_current (body : jsval) (principal : Principal) (requestId packId auditId : jstr)
    (now commitNow : Z) (snapshot current s' : RegistryState) (pack : PackVersion) :
  createPack config body principal requestId packId auditId now commitNow snapshot current
    = Ok (s', pack) ->
  st_packs s' = st_packs current ++ [pack] /\ st_skills s' = st_skills current /\
  Forall (fun m => exists x, x ∈ st_skills current /\ sk_id x = pm_resourceId m /\
            sb_digest (sk_artifact x) = pm_digest m /\ sk_state x = Approved /\
            sk_policyRevision x = po_revision (st_policy current)) (pk_members pack) /\
  Forall (fun m => exists x, installable snapshot principal now x /\ m = pack_member_of x)
    (pk_members pack) /\
  NoDup (pm_resourceId <$> pk_members pack) /\ (1 <= length (pk_members pack) <= 500)%nat /\
  canPublishName principal (pk_name pack) = true /\
  (pk_name pack, pk_version pack) ∉ pack_key <$> st_packs current /\
  pk_manifestDigest pack =
    digestBytes (manifest_bytes (pk_name pack) (pk_version pack) (pk_description pack) (pk_members pack)).
Proof.
  unfold createPack, pack_prepare. intros H. ok_step.
  ok_inv. destruct (field body "skills") as [| | | | | skills |]; try done. ok_inv. bool_inv.
  apply collect_members_ok in E2 as (Hlen & Hnd & _ & Hinst). unfold pack_commit in H. ok_inv. state_inv.
  apply negb_false_iff in G4. apply has_pack_false in G3. cbn.
  do 2 (split; [done|]). split.
  { apply Forall_forall. intros m Hm. apply forallb_forall with (x := m) in G4; [|by apply list_elem_of_In].
    unfold member_current in G4. destruct (find_skill _ _) as [x|] eqn:Ex; [|done]. bool_inv.
    apply find_skill_Some in Ex as [Hx Hid].
    jeqb_inv. by exists x. }
  do 2 (split; [done|]). split; [|done].
  rewrite Hlen. destruct skills; [done|]. cbn [length] in *. lia.
Qed.

(** Revoking a release takes every pack that contains it down in the same
    transaction: the release is revoked, exactly the packs that list it become
    revoked, and nothing resolves to such a pack any more. *)
Theorem revoke_cascades (id : jstr) (principal : Principal) (requestId auditId : jstr) (commitNow : Z)
    (snapshot current s' : RegistryState) (x : SkillVersion) :
  revokeSkill config id principal requestId auditId commitNow snapshot current = Ok (s', x) ->
  find_skill s' id = Some x /\ sk_state x = Revoked /\
  Forall2 (fun p p' => p' = if contains_member id p then with_pk_state PackRevoked p else p)
    (st_packs current) (st_packs s') /\
  (forall principal' now kind ref version p r,
     resolveResource s' principal' now kind ref version = Resolved (inr p) r ->
     contains_member id p = false).
Proof.
  unfold revokeSkill. intros H. destruct (find_skill snapshot id) as [y|]; [|done]. ok_inv. state_inv.
  destruct (find_skill _ id) as [z|] eqn:Ez; [|done]. ok_inv.
  split. { apply (find_first_update (fun c => jeqb (sk_id c) id)); [done|]. by intros c. }
  split; [done|]. split; [by apply map_Forall2|].
  intros principal' now kind ref version p r Hr. destruct kind; cbn [resolveResource] in Hr.
  { unfold resolve_skill in Hr. by repeat case_match. }
  unfold resolve_pack in Hr. destruct (chooseVersion _ _ _) as [q|] eqn:Eq; [|done].
  destruct (_ || _) eqn:G1 in Hr; [done|]. bool_inv.
  destruct (pack_members _ _ _ _); [|done]. simplify_eq.
  apply chooseVersion_elem, elem_of_List_filter in Eq as [Hin _]. cbn in Hin.
  apply list_elem_of_fmap in Hin as (p0 & -> & _).
  destruct (contains_member id p0) eqn:Ec; [by cbn in *|done].
Qed.
End PackSafety.

(** ** Witnesses *)

#[local] Existing Instances iso_runtime ascii_tables no_urls unit_collation Demo.crypto Demo.blobs.

Definition demo_member : PackMember :=
  {| pm_resourceId := js "skill_1"; pm_name := js "@tools/demo"; pm_version := js "1.0.0";
     pm_digest := demo_digest |}.
Lemma manifest_bytes_injective_witness :
  manifest_bytes (js "@tools/kit") (js "1.0.0") [] [demo_member] <>
  manifest_bytes (js "@tools/kit") (js "1.0.0") [] [].
Proof.
  assert (Hk : forall s, wf_jstr (js s)).
  { intros s. eapply Forall_impl; [apply js_ascii|]. unfold wf_unit. cbn. lia. }
  assert (Hm : Forall wf_member [demo_member]).
  { constructor; [|constructor]. repeat split; try apply Hk. by apply (bool_decide_unpack _); vm_compute. }
  rewrite (manifest_bytes_injective (js "@tools/kit") (js "1.0.0") [] (js "@tools/kit") (js "1.0.0") []
           [demo_member] []); try apply Hk; try exact Hm; try constructor.
  intros (_ & _ & _ & H). discriminate H.
Defined.

Lemma pack_members_current_witness : exists pack,
  Demo.pack = Ok (Demo.packed, pack) /\ canPublishName Demo.admin (pk_name pack) = true /\
  NoDup (pm_resourceId <$> pk_members pack).
Proof.
  destruct Demo.pack_ok as [pack Hp]. exists pack. split; [exact Hp|].
  destruct (pack_members_current _ _ _ _ _ _ _ _ _ _ _ _ Hp) as (_ & _ & _ & _ & Hnd & _ & Hc & _).
  split; [exact Hc | exact Hnd].
Defined.

Lemma revoke_cascades_witness : exists x,
  Demo.revoke = Ok (Demo.revoked, x) /\ sk_state x = Revoked /\
  Forall (fun p => pk_state p = PackRevoked) (st_packs Demo.revoked).
Proof.
  destruct Demo.revoke_ok as [x Hx]. exists x. split; [exact Hx|].
  destruct (revoke_cascades _ _ _ _ _ _ _ _ _ _ Hx) as (_ & Hs & _ & _).
  split; [exact Hs|]. repeat constructor.
Defined.
