(* ===== verification/ImportSafety.v ===== *)
(** * What the import queue guarantees

    Theorems about import jobs and feeds along all interleavings of requests:
    imports of a release are exclusive and joined, answers come only from
    releases that are approved now and were imported from the source that is
    configured now, and a change of a feed fences what was imported before. *)

From Stdlib Require Import ZArith Lia.
From stdpp Require Import base list strings sets.
From S2P Require Import Prelude Js Dates Json Bundle Frontmatter Contracts Web Access Names PolicyEval.
From S2P Require Import Resolve Provenance OpenClawFeed ScanEvidence State.
From S2P Require Import Registry Jobs Feeds Imports Directory SourceImports FeedImports ImportState.
From S2P Require Import ImportIdentity System Scenario Safety.

Local Open Scope Z_scope.

(** ** Histories *)

(** What a job keeps. *)
Record job_origin (j j' : Job) : Prop := {
  jg_id : jb_id j' = jb_id j;
  jg_kind : jb_kind j' = jb_kind j;
  jg_import : jb_import j' = jb_import j;
  jg_upstream : jb_upstream j' = jb_upstream j;
}.
#[export] Instance job_origin_preorder : PreOrder job_origin.
Proof. split; [by intros x; split|]. intros x y z [] []. split; congruence. Qed.
Lemma job_origin_target j j' : job_origin j j' -> import_target j' = import_target j.
Proof. intros []. unfold import_target, is_import. by rewrite jg_kind0, jg_import0. Qed.

Lemma change_weaken {A} (R R' : A -> A -> Prop) P l l' : (forall x y, R x y -> R' x y) ->
  change R P l l' -> change R' P l l'.
Proof. intros H [l'' HR|x Hx]; [|by apply Added]. apply Changed. by eapply Forall2_impl. Qed.
Lemma forallb_false {A} (p : A -> bool) l : forallb p l = false -> exists x, x ∈ l /\ p x = false.
Proof.
  induction l as [|y l IH]; cbn; [done|]. intros [H|H]%andb_false_iff; [exists y; split; [by left | done]|].
  destruct (IH H) as (x & ? & ?). exists x. split; [by right | done].
Qed.
Lemma find_first_app {A} (p : A -> bool) l l' x : find_first p l = Some x -> find_first p (l ++ l') = Some x.
Proof. induction l as [|y l IH]; cbn; [done|]. by destruct (p y). Qed.
Lemma find_first_prefix {A} (p : A -> bool) l l' x :
  l `prefix_of` l' -> find_first p l = Some x -> find_first p l' = Some x.
Proof. intros [k ->]. apply find_first_app. Qed.

Section ImportSafety.
Context {DR : DateRuntime} {UT : UnicodeTables} {UR : UrlRuntime} {CO : Collation} {CR : Crypto} {BL : Blobs}.
Context (parseDocument : jstr -> option ydocument) (config : Configuration).
Abbreviation org := (cfg_organizationId config).
Abbreviation run := (run parseDocument config).
Abbreviation step := (step parseDocument config).
Abbreviation inv := (inv config).
Abbreviation observed := (observed config).

Lemma run_jobs w w' j : inv w -> run w w' -> j ∈ st_jobs (w_state w) ->
  exists j', j' ∈ st_jobs (w_state w') /\ job_origin j j'.
Proof.
  apply (run_history parseDocument config st_jobs job_origin). intros g v s' D. eexists.
  eapply change_weaken; [|apply D]. by intros x y [].
Qed.
Lemma run_all w w' : inv w -> run w w' -> forall s, s ∈ w_all w -> s ∈ w_all w'.
Proof.
  intros I. induction 1 as [|v v' Hr IH Hs]; [done|]. intros s H.
  destruct (step_delta parseDocument config v v') as (s' & -> & _); [by eapply run_inv | done|].
  right. by apply IH.
Qed.
Lemma observed_fill w s : observed w s -> exists s0, s0 ∈ w_all w /\ s = fill_collections s0.
Proof.
  intros (s0 & Hs & H). exists s0. split; [done|]. unfold readState in H. ok_inv.
  by apply ensureState_ok in E as [-> _].
Qed.

Lemma findImportUpstream_grows s s' request principal u : st_upstreams s `prefix_of` st_upstreams s' ->
  findImportUpstream s request principal = Ok u -> findImportUpstream s' request principal = Ok u.
Proof.
  intros Hp. unfold findImportUpstream. destruct (find_first _ (st_upstreams s)) eqn:E; [|done].
  by rewrite (find_first_prefix _ _ _ _ Hp E).
Qed.
(** The upstream a request reads and the one its transaction finds are one. *)
Lemma observed_upstream w snapshot request principal u : inv w -> observed w snapshot ->
  findImportUpstream snapshot request principal = Ok u ->
  findImportUpstream (w_state w) request principal = Ok u.
Proof.
  intros I (s & Hs & ->)%observed_fill. apply findImportUpstream_grows.
  by apply (proj1 (Forall_forall _ _) (inv_upstream_history config w I)) in Hs.
Qed.

(** ** Jobs of a source *)

(** A queued or running import of the source a request asks for. *)
Record import_of (request : ImportRequest) (upstream : Upstream) (job : Job) : Prop := {
  io_target : import_target job = Some (target_of request);
  io_source : sameJobSource config request upstream job = true;
}.
Lemma accepted_import request upstream principal requestId jobId auditId now current s' job :
  import_commit config request upstream principal requestId jobId auditId now (fill_collections current)
    = Ok (s', ImportAccepted job) ->
  import_of request upstream job /\ active job = true /\ job ∈ st_jobs s' /\
  ((job ∈ st_jobs current /\ st_jobs s' = st_jobs current) \/
   (job = import_job config jobId request upstream now current /\ st_jobs s' = st_jobs current ++ [job] /\
    idle current (target_of request) /\ existingSkill config request current = None)).
Proof.
  unfold import_commit. destruct (activeTargets _ _) as [|t l] eqn:Et.
  - apply idle_spec in Et. destruct (existingSkill _ _ _) as [skill|] eqn:Ex.
    { destruct (completedTarget _ _ _ _ _); [|done]. by destruct (negb _). }
    destruct (bool_decide _); [done|]. intros [= <- <-]. split; [|split; [done|]].
    + split; [done|]. unfold sameJobSource. cbn. rewrite jeqb_refl, sameUpstreamOrigin_refl.
      unfold importRequestsMatch. by rewrite jeqb_refl.
    + split; [apply elem_of_app; right; by left | right]. by split_and!.
  - destruct (find_first _ _) as [target|] eqn:Ef; [|done]. destruct (negb _); [done|]. intros [= <- <-].
    apply find_first_Some in Ef as [Hin Hs]. rewrite <- Et in Hin. apply activeTargets_spec in Hin as (Hin & Ha & Ht).
    split; [by split|]. split; [done|]. split; [done|]. by left.
Qed.
Lemma import_of_origin request upstream j j' : jb_organizationId j' = org -> job_origin j j' ->
  import_of request upstream j -> import_of request upstream j'.
Proof.
  intros Ho Hj [Ht Hs]. split; [by rewrite (job_origin_target _ _ Hj)|]. destruct Hj as [_ Hk Hi Hu].
  unfold sameJobSource, is_import in *. rewrite Hk, Hi, Hu, Ho, jeqb_refl.
  by destruct (jeqb (jb_organizationId j) org).
Qed.
(** Another queued or running import of the same release, where a catalog or
    an OpenClaw feed queued one of the two. *)
Record rival (w : World) (job j : Job) : Prop := {
  rv_in : j ∈ st_jobs (w_state w);
  rv_active : active j = true;
  rv_target : import_target j = import_target job;
  rv_other : j <> job;
  rv_owned : server_owned j = true \/ server_owned job = true;
}.
Lemma active_rival w request job j : inv w -> job ∈ st_jobs (w_state w) -> active job = true ->
  import_target job = Some (target_of request) ->
  j ∈ activeTargets request (fill_collections (w_state w)) -> j = job \/ rival w job j.
Proof.
  intros I Hin Ha Ht (Hj & Hja & Hjt)%activeTargets_spec.
  destruct (server_owned j) eqn:Ho, (server_owned job) eqn:Ho'.
  4: { left. by apply (inv_imports config w I j job (target_of request)). }
  all: assert (Hd : j = job \/ j <> job) by (destruct (decide (jb_id j = jb_id job)) as [E|E];
    [left; by apply (NoDup_key_inj jb_id (st_jobs (w_state w))); [apply I|..] | right; congruence]).
  all: destruct Hd as [->|Hd]; [by left | right; split; [done | done | congruence | done | tauto]].
Qed.
(** A queued or running import is joined, unless it has a rival. *)
Lemma import_joins w request upstream principal requestId jobId auditId now job : inv w ->
  job ∈ st_jobs (w_state w) -> active job = true -> import_of request upstream job ->
  let answer := import_commit config request upstream principal requestId jobId auditId now
                  (fill_collections (w_state w)) in
  (exists s', answer = Ok (s', ImportAccepted job) /\ st_jobs s' = st_jobs (w_state w)) \/
  (exists j, rival w job j /\
     (answer = Err PROVENANCE_CONFLICT \/
      exists s', answer = Ok (s', ImportAccepted j) /\ st_jobs s' = st_jobs (w_state w))).
Proof.
  intros I Hin Ha [Ht Hs] answer. subst answer. unfold import_commit.
  pose proof (fun j => active_rival w request job j I Hin Ha Ht) as Hall.
  assert (Hj : job ∈ activeTargets request (fill_collections (w_state w))) by by apply activeTargets_spec.
  destruct (activeTargets _ _) as [|t l] eqn:Et; [by apply not_elem_of_nil in Hj|]. rewrite <- Et in *.
  assert (Hfound : exists target, find_first (sameJobSource config request upstream)
            (activeTargets request (fill_collections (w_state w))) = Some target /\
            target ∈ activeTargets request (fill_collections (w_state w))).
  { destruct (find_first _ _) as [target|] eqn:Ef; [exists target; split; [done|]; by apply find_first_Some in Ef as [? _]|].
    apply find_first_None in Ef. pose proof (proj1 (Forall_forall _ _) Ef job Hj). cbv beta in *. congruence. }
  destruct Hfound as (target & -> & Htarget).
  destruct (forallb _ _) eqn:Eall; cbn [negb].
  - destruct (Hall target Htarget) as [->|Hr]; [left; by eexists|].
    right. exists target. split; [done|]. right. by eexists.
  - right. destruct (forallb_false _ _ Eall) as (j & Hjin & Hjs).
    destruct (Hall j Hjin) as [->|Hr]; [congruence|]. exists j. split; [done | by left].
Qed.

(** ** Theorems *)

(** A release is imported once at a time: in every document the registry can
    reach, two import jobs that requests queued and that are queued or running
    for the same name and version are one job. *)
Theorem import_exclusive (policy : Policy) (w : World) (j j' : Job) (request request' : ImportRequest) :
  run (initial policy) w -> j ∈ st_jobs (w_state w) -> j' ∈ st_jobs (w_state w) ->
  jb_kind j = ImportJob -> jb_kind j' = ImportJob -> active j = true -> active j' = true ->
  server_owned j = false -> server_owned j' = false ->
  jb_import j = Some request -> jb_import j' = Some request' ->
  iq_name request = iq_name request' -> iq_version request = iq_version request' -> j = j'.
Proof.
  intros H Hj Hj' Hk Hk' Ha Ha' Hw Hw' Hr Hr' Hn Hv. apply run_inv in H; [|apply initial_inv].
  apply (inv_imports config w H j j' (target_of request)); [done..| |]; apply target_spec; split; try done.
  - by exists request.
  - exists request'. split; [done|]. unfold target_of. congruence.
Qed.

(** C16. An import that was accepted is joined until it is done: whatever steps the
    registry took since, as long as the job is queued or running the same
    request of the same principal queues no second job.  It is answered with
    this job, unless a second import of the same name and version is queued or
    running and a catalog or an OpenClaw feed queued one of the two; then it is
    answered with that one, or refused with PROVENANCE_CONFLICT. *)
Theorem import_request_joins (policy : Policy) (w w' : World) (body : jsval) (principal : Principal)
    (requestId jobId auditId : jstr) (now : Z) (snapshot s1 : RegistryState) (job job' : Job)
    (requestId' jobId' auditId' : jstr) (now' : Z) (snapshot' : RegistryState) :
  run (initial policy) w -> observed w snapshot ->
  resolveOrQueueImport config body principal requestId jobId auditId now snapshot (w_state w)
    = Ok (s1, ImportAccepted job) ->
  jobId ∉ jb_id <$> st_jobs (w_state w) ->
  run (commit w s1) w' -> job' ∈ st_jobs (w_state w') -> jb_id job' = jb_id job -> active job' = true ->
  readState (Some (w_state w')) org = Ok snapshot' ->
  let answer :=
    resolveOrQueueImport config body principal requestId' jobId' auditId' now' snapshot' (w_state w') in
  (exists s2, answer = Ok (s2, ImportAccepted job') /\ st_jobs s2 = st_jobs (w_state w')) \/
  (exists j, rival w' job' j /\
     (answer = Err PROVENANCE_CONFLICT \/
      exists s2, answer = Ok (s2, ImportAccepted j) /\ st_jobs s2 = st_jobs (w_state w'))).
Proof.
  intros Hrun Ho H Hid Hrun' Hj' Hjid Ha' Hread answer. subst answer. apply run_inv in Hrun; [|apply initial_inv].
  pose proof (import_request_delta (granted := fun _ => False) config w _ _ _ _ _ _ _ _ _ Hrun Ho H Hid) as D.
  pose proof (inv_delta config w s1 Hrun D) as I1. pose proof (run_inv _ _ _ _ I1 Hrun') as I'.
  apply resolveOrQueueImport_cases in H as (request & before & upstream & Hp & Hc & Hb & Hdir & Hu & _ & H).
  pose proof (observed_upstream w snapshot request principal before Hrun Ho Hb) as Hb'.
  assert (before = upstream) as -> by congruence.
  apply accepted_import in H as (Hof & _ & Hin & _).
  destruct (run_jobs (commit w s1) w' job I1 Hrun' Hin) as (j2 & Hj2 & Horig).
  assert (j2 = job') as ->.
  { apply (NoDup_key_inj jb_id (st_jobs (w_state w'))); [apply I' | done | done |]. by rewrite (jg_id _ _ Horig). }
  assert (Hof' : import_of request upstream job').
  { eapply import_of_origin; [|exact Horig | exact Hof].
    by apply (proj1 (Forall_forall _ _) (inv_jobs config w' I')) in Hj' as []. }
  assert (Hu' : findImportUpstream (w_state w') request principal = Ok upstream).
  { eapply findImportUpstream_grows; [|exact Hu].
    assert (Hw : w_state w ∈ w_all w') by (apply (run_all (commit w s1) w' I1 Hrun'); right; by left).
    by apply (proj1 (Forall_forall _ _) (inv_upstream_history config w' I')) in Hw. }
  unfold readState in Hread. ok_inv. apply ensureState_ok in E as [-> Hsv].
  rewrite (resolveOrQueueImport_at config _ _ _ _ _ _ request upstream) by done. by apply import_joins.
Qed.

(** C10. An import request is answered with a release only if the release may be
    installed now: it has the requested name and version, is approved by current
    evidence under the current policy, was imported from the requested source
    as the upstream is configured now, which is enabled, readable for the caller
    and allows the repository; nothing but the audit trail changes. *)
Theorem import_resolution_governed (policy : Policy) (w : World) (body : jsval) (principal : Principal)
    (requestId jobId auditId : jstr) (now : Z) (snapshot s' : RegistryState) (job : Job) (r : Resolution) :
  run (initial policy) w -> observed w snapshot ->
  resolveOrQueueImport config body principal requestId jobId auditId now snapshot (w_state w)
    = Ok (s', ImportResolved job r) ->
  exists request upstream skill,
    parseImportRequest body = Ok request /\ canPublishName principal (iq_name request) = true /\
    upstream ∈ st_upstreams (w_state w) /\ us_id upstream = iq_upstreamId request /\
    us_enabled upstream = true /\ canReadNamespace principal (us_namespace upstream) = true /\
    upstreamAllowsImport upstream (iq_repository request) = true /\
    skill ∈ st_skills (w_state w) /\ r = skillResolution skill /\
    sk_name skill = iq_name request /\ sk_version skill = iq_version request /\
    sk_state skill = Approved /\ sk_policyRevision skill = po_revision (st_policy (w_state w)) /\
    policy_satisfied (st_policy (w_state w)) (scans_of (w_state w) skill) (sb_digest (sk_artifact skill))
      (sk_fileCount skill) now /\
    imported_from skill request upstream /\
    job ∈ st_jobs (w_state w) /\ jb_state job = JCompleted /\ jb_resourceId job = Some (sk_id skill) /\
    st_jobs s' = st_jobs (w_state w) /\ st_skills s' = st_skills (w_state w).
Proof.
  intros Hrun Ho H. apply run_inv in Hrun; [|apply initial_inv].
  apply resolveOrQueueImport_cases in H as (request & before & upstream & Hp & Hc & _ & _ & Hu & _ & H).
  apply findImportUpstream_spec in Hu as (Hin & _ & Hid & He & Hread & Hallow & _).
  unfold import_commit in H. destruct (activeTargets _ _) as [|t l].
  2: { by destruct (find_first _ _) as [target|]; [destruct (forallb _ (t :: l))|]. }
  destruct (existingSkill _ _ _) as [skill|] eqn:Ex; [|by destruct (bool_decide _)].
  destruct (completedTarget _ _ _ _ _) as [target|] eqn:Ec; [|done].
  destruct (_ && _) eqn:G in H; [|done]. cbn [negb] in H. injection H as <- <- <-.
  apply find_first_Some in Ex as [Hskill [[_ Hn%jeqb_true]%andb_true_iff Hv%jeqb_true]%andb_true_iff].
  apply find_first_Some in Ec as [Hjob [[Hdone _]%andb_true_iff Hres%bool_decide_eq_true]%andb_true_iff].
  apply andb_true_iff in G as [Hpv%importProvenanceMatches_spec Happ].
  apply skillCurrentlyApproved_iff in Happ as (Hst & Hrev & Hsat%evaluatePolicy_spec).
  exists request, upstream, skill. split_and!; try done. by apply bool_decide_eq_true in Hdone.
Qed.

(** A request that queues a job queues exactly one: the job carries the parsed
    request, a copy of the policy in force and the upstream as it is
    configured, which is enabled, readable for the caller and allows the
    repository; no import of the release is running and the version is not
    taken; only this job and one audit event are added to the document. *)
Theorem import_queued_exact (policy : Policy) (w : World) (body : jsval) (principal : Principal)
    (requestId jobId auditId : jstr) (now : Z) (snapshot s' : RegistryState) (job : Job) :
  run (initial policy) w -> observed w snapshot ->
  resolveOrQueueImport config body principal requestId jobId auditId now snapshot (w_state w)
    = Ok (s', ImportAccepted job) ->
  job ∉ st_jobs (w_state w) ->
  exists request upstream e,
    parseImportRequest body = Ok request /\ canPublishName principal (iq_name request) = true /\
    upstream ∈ st_upstreams (w_state w) /\ us_id upstream = iq_upstreamId request /\
    us_enabled upstream = true /\ canReadNamespace principal (us_namespace upstream) = true /\
    upstreamAllowsImport upstream (iq_repository request) = true /\
    job = import_job config jobId request upstream now (w_state w) /\
    (forall j, j ∈ st_jobs (w_state w) -> active j = true -> import_target j <> Some (target_of request)) /\
    (iq_name request, iq_version request) ∉ skill_key <$> st_skills (w_state w) /\
    s' = with_st_audit (st_audit (w_state w) ++ [e])
           (with_st_jobs (st_jobs (w_state w) ++ [job]) (fill_collections (w_state w))).
Proof.
  intros Hrun Ho H Hnew. apply run_inv in Hrun; [|apply initial_inv].
  apply resolveOrQueueImport_cases in H as (request & before & upstream & Hp & Hc & _ & _ & Hu & _ & H).
  pose proof (accepted_import _ _ _ _ _ _ _ _ _ _ H) as (_ & _ & _ & [[Hin _]|(Hjob & _ & Hidle & Hex)]); [done|].
  apply findImportUpstream_spec in Hu as (Hin & _ & Hid & He & Hread & Hallow & _).
  unfold import_commit in H. rewrite (proj2 (idle_spec request (fill_collections (w_state w))) Hidle) in H.
  change (existingSkill config request (fill_collections (w_state w))) with
    (existingSkill config request (w_state w)) in H. rewrite Hex in H.
  destruct (bool_decide _); [done|]. injection H as <- _. exists request, upstream. eexists.
  split_and!; try done.
  - intros j Hj. by apply (proj1 (Forall_forall _ _) Hidle).
  - intros (x & Hk & Hx)%list_elem_of_fmap. injection Hk as Hn Hv. apply find_first_None in Hex.
    apply (proj1 (Forall_forall _ _) Hex) in Hx as Hx'.
    apply (proj1 (Forall_forall _ _) (io_skills _ _ (inv_org config w Hrun))) in Hx.
    by rewrite Hx, Hn, Hv, !jeqb_refl in Hx'.
  - by subst job.
Qed.
End ImportSafety.

(** ** Concrete runs *)

Module ImportWitnesses.
Import ImportDemo.
#[local] Existing Instance iso_runtime.
#[local] Existing Instance ascii_tables.
#[local] Existing Instance unit_collation.
#[local] Existing Instance Demo.crypto.
#[local] Existing Instance Demo.blobs.
#[local] Existing Instance urls.

Definition job_of (s : RegistryState) (n : nat) : Job := nth n (st_jobs s) demo_scan_job.
Definition imported_request (job : Job) : ImportRequest := default demo_import (jb_import job).
Definition first_job : Job := Eval vm_compute in job_of queued 0.
Definition running_job : Job := Eval vm_compute in job_of claimed 0.
Definition done_job : Job := Eval vm_compute in job_of imported 0.

Lemma import_exclusive_witness : exists j j',
  j ∈ st_jobs (w_state w3) /\ j' ∈ st_jobs (w_state w3) /\ active j = true /\ j = j'.
Proof.
  exists running_job, running_job. split; [by left|]. split; [by left|]. split; [reflexivity|].
  apply (import_exclusive demo_parseDocument config demo_policy w3 running_job running_job
           (imported_request running_job) (imported_request running_job)
           (run_step _ _ _ _ _ run_import_queued hop_3)); first [by left | reflexivity].
Defined.

Lemma import_accepted : import = Ok (queued, ImportAccepted first_job).
Proof. vm_compute. reflexivity. Qed.
Lemma observed_1 : observed config w1 (w_state w1).
Proof. apply observed_now; vm_compute; reflexivity. Qed.
Lemma import_request_joins_witness : exists s2,
  resolveOrQueueImport config import_body admin (js "req2") (js "job_2") (js "audit_9") (t0 + 2500)
    (w_state w3) (w_state w3) = Ok (s2, ImportAccepted running_job) /\ st_jobs s2 = st_jobs (w_state w3).
Proof.
  destruct (import_request_joins demo_parseDocument config demo_policy w1 w3 import_body admin (js "req") (js "job_1")
    (js "audit_2") (t0 + 1000) (w_state w1) queued first_job running_job (js "req2") (js "job_2") (js "audit_9")
    (t0 + 2500) (w_state w3) run_configured observed_1 import_accepted) as [H|(j & [Hin _ _ Hne _] & _)].
  - apply (bool_decide_unpack _). vm_compute. exact I.
  - exact run_claimed.
  - by left.
  - reflexivity.
  - reflexivity.
  - vm_compute. reflexivity.
  - exact H.
  - by apply list_elem_of_singleton in Hin as ->.
Defined.

Definition resolved_again : RegistryState := Eval vm_compute in after again.
Lemma again_resolved : exists r, again = Ok (resolved_again, ImportResolved done_job r).
Proof. eexists. vm_compute. reflexivity. Qed.
Lemma observed_4 : observed config w4 (w_state w4).
Proof. apply observed_now; vm_compute; reflexivity. Qed.

Lemma import_resolution_governed_witness : exists request upstream skill,
  parseImportRequest import_body = Ok request /\ upstream ∈ st_upstreams (w_state w4) /\
  skill ∈ st_skills (w_state w4) /\ sk_state skill = Approved /\ imported_from skill request upstream.
Proof.
  destruct again_resolved as [r Hr].
  destruct (import_resolution_governed demo_parseDocument config demo_policy w4 import_body admin (js "req")
    (js "job_9") (js "audit_5") (t0 + 4000) (w_state w4) resolved_again done_job r run_imported observed_4 Hr)
    as (request & upstream & skill & Hp & _ & Hu & _ & _ & _ & _ & Hs & _ & _ & _ & Ha & _ & _ & Hi & _).
  exists request, upstream, skill. by split_and!.
Defined.

Lemma import_queued_exact_witness : exists request upstream,
  parseImportRequest import_body = Ok request /\ upstream ∈ st_upstreams (w_state w1) /\
  first_job = import_job config (js "job_1") request upstream (t0 + 1000) (w_state w1).
Proof.
  destruct (import_queued_exact demo_parseDocument config demo_policy w1 import_body admin (js "req") (js "job_1")
    (js "audit_2") (t0 + 1000) (w_state w1) queued first_job run_configured observed_1 import_accepted)
    as (request & upstream & e & Hp & _ & Hu & _ & _ & _ & _ & Hj & _).
  - apply not_elem_of_nil.
  - exists request, upstream. by split_and!.
Defined.
End ImportWitnesses.
