(* ===== verification/FeedSafety.v ===== *)
(** * What catalog feeds and source references guarantee

    Answers without an import job come from releases that are approved now and
    whose provenance names the feed or the source that was asked; the revision
    of a feed identifies its configuration in the whole history, so that an
    update fences every import made before it; and what the feed handlers
    answer and store. *)

From Stdlib Require Import ZArith Lia.
From stdpp Require Import base list strings sets.
From S2P Require Import Prelude Js Dates Json Bundle Frontmatter Contracts Web Access Names PolicyEval.
From S2P Require Import Resolve Provenance State.
From S2P Require Import Registry Jobs Feeds Imports Directory SourceImports FeedImports ImportState.
From S2P Require Import System Scenario Safety ImportSafety.

Local Open Scope Z_scope.

Section FeedSafety.
Context {DR : DateRuntime} {UT : UnicodeTables} {UR : UrlRuntime} {CO : Collation} {CR : Crypto} {BL : Blobs}.
Context (parseDocument : jstr -> option ydocument) (config : Configuration).
Abbreviation org := (cfg_organizationId config).
Abbreviation run := (run parseDocument config).
Abbreviation step := (step parseDocument config).
Abbreviation inv := (inv config).
Abbreviation observed := (observed config).

(** ** Releases that answer *)

(** The release may be installed from this document now. *)
Record servable (s : RegistryState) (now : Z) (skill : SkillVersion) : Prop := {
  se_member : skill ∈ st_skills s;
  se_state : sk_state skill = Approved;
  se_revision : sk_policyRevision skill = po_revision (st_policy s);
  se_evidence : policy_satisfied (st_policy s) (scans_of s skill) (sb_digest (sk_artifact skill))
                  (sk_fileCount skill) now;
}.
Lemma servable_of s now id skill : find_skill s id = Some skill -> skillCurrentlyApproved s skill now = true ->
  servable s now skill.
Proof.
  intros [Hin _]%find_skill_Some (H1 & H2 & H3%evaluatePolicy_spec)%skillCurrentlyApproved_iff. by split.
Qed.
Lemma servable_fill s now skill : servable (fill_collections s) now skill <-> servable s now skill.
Proof. split; intros []; by split. Qed.

(** The feed may be used by the caller. *)
Record usable_feed (uconfig : UpstreamConfiguration) (s : RegistryState) (principal : Principal)
    (feed : Feed) : Prop := {
  uf_member : feed ∈ feeds s;
  uf_enabled : fd_enabled feed = true;
  uf_trusted : isTrustedFeedBaseUrl uconfig (Some (fd_baseUrl feed)) = true;
  uf_readable : canReadNamespace principal (feedNamespace feed) = true;
}.
(** What the record of a release says of the feed it was imported from. *)
Record imported_by_feed (feed : Feed) (revision externalId : jstr) (skill : SkillVersion) : Prop := {
  ib_path : pv_path (sk_provenance skill) = Some externalId;
  ib_feed : pv_feedId (sk_provenance skill) = Some (fd_id feed);
  ib_upstream : pv_upstreamId (sk_provenance skill) = Some (fd_id feed);
  ib_revision : pv_feedConfigRevision (sk_provenance skill) = Some revision;
  ib_repository : exists repository, pv_repository (sk_provenance skill) = Some repository /\
    provenanceRepositoryMatches (feedAsUpstream feed) repository = true;
}.
Lemma imported_by_feed_of skill request feed revision externalId :
  imported_from skill request (feedAsUpstream feed) -> iq_path request = externalId ->
  iq_feedId request = Some (fd_id feed) -> iq_feedConfigRevision request = Some revision ->
  imported_by_feed feed revision externalId skill.
Proof.
  intros [_ Hu Hp (r & Hr & _ & Ha) _ [[Hf|Hf] [Hv|Hv]] _] <- Hf' Hv'; try congruence.
  split; [done|congruence|done|congruence|]. by exists r.
Qed.

(** A cached answer is an import of the feed as it is configured. *)
Lemma transparent_cached_spec uconfig s externalId feed principal now job skill :
  findTransparentCachedResult uconfig s externalId (feedAsUpstream feed) principal now
    = Some (TransparentResolved job skill) ->
  servable s now skill /\ imported_by_feed feed (fd_configRevision feed) externalId skill.
Proof.
  unfold findTransparentCachedResult. destruct (negb _); [done|].
  intros (j & [_ Hj]%elem_of_sorted_filter & H)%first_some_Some. cbv beta in H.
  destruct (active j); [done|]. unfold cached_release in H.
  destruct (if completed j then _ else _) as [id|]; [|done].
  destruct (jb_import j) as [request|] eqn:Ei; [|done].
  destruct (find_skill s id) as [x|] eqn:Ex; [|done]. destruct (negb _) in H; [done|].
  destruct (if bool_decide (sk_state x = Pending) then _ else _); [done|].
  destruct (_ && _) eqn:G in H; [|done]. injection H as <- <-.
  apply andb_true_iff in G as [Ha Hp%importProvenanceMatches_spec].
  split; [by eapply servable_of|].
  unfold transparent_job in Hj. rewrite Ei in Hj. apply andb_true_iff in Hj as [_ Hj].
  rewrite !andb_true_iff in Hj. destruct Hj as [[[[[[[[_ H2] _] H4] _] H6] _] _] _].
  apply jeqb_true in H2. apply bool_decide_eq_true in H4, H6. by eapply imported_by_feed_of.
Qed.
Lemma template_release_spec s template feed refresh now job result skill :
  template_release config s template (feedAsUpstream feed) refresh now job = Some (TransparentResolved result skill) ->
  template_job config template (feedAsUpstream feed) job = true ->
  iq_feedId template = Some (fd_id feed) ->
  servable s now skill /\
  forall revision, iq_feedConfigRevision template = Some revision ->
    imported_by_feed feed revision (iq_path template) skill.
Proof.
  unfold template_release. intros H Hj Hf. destruct (if completed job then _ else _) as [id|]; [|done].
  destruct (jb_import job) as [request|] eqn:Ei; [|done].
  destruct (find_skill s id) as [x|] eqn:Ex; [|done].
  destruct (skillCurrentlyApproved s x now) eqn:Ea; cbn [negb] in H.
  2: { by destruct (active_scan _ _ _). }
  destruct (importProvenanceMatches _ _ _) eqn:Ep; cbn [andb] in H; [|done].
  destruct (_ || _) in H; [|done]. injection H as _ <-.
  split; [by eapply servable_of|]. intros revision Hv. apply importProvenanceMatches_spec in Ep.
  unfold template_job in Hj. rewrite Ei, !andb_true_iff in Hj.
  destruct Hj as [[_ [[[[[[[[_ H2] _] H4] _] H6] _] _] _]] _].
  apply jeqb_true in H2. apply bool_decide_eq_true in H4, H6.
  eapply imported_by_feed_of; [exact Ep | done | congruence | congruence].
Qed.

(** C11. A catalog request is answered with a release only if the release may be
    installed now and was imported from the feed under the configuration the
    request read: the feed is enabled, trusted and readable for the caller, the
    release is approved by current evidence under the current policy of the
    document it was taken from, and its record names the external id, the feed,
    the revision of the feed and a repository the feed allows; such an answer
    changes no job and no release. *)
Theorem transparent_resolution_governed (policy : Policy) (w : World) (uconfig : UpstreamConfiguration)
    (directoryForBase : jstr -> option DirectoryClient) (reported : list CounterEvent) (body : jsval)
    (principal : Principal) (requestId : jstr) (ids : ImportIds) (readNow now : Z)
    (state snapshot s' : RegistryState) (answer : TransparentAnswer) (r : Resolution) :
  run (initial policy) w -> observed w state -> observed w snapshot ->
  resolveTransparentProxyRequest config uconfig body principal requestId ids readNow now directoryForBase reported
    state snapshot (w_state w) = Ok (s', answer) ->
  ta_resolution answer = Some r ->
  exists request read feed skill s t,
    parseTransparentProxyRequest body = Ok request /\ ta_externalId answer = tq_externalId request /\
    usable_feed uconfig state principal read /\
    (s = state /\ t = readNow /\ feed = read \/ s = w_state w /\ t = now /\ fd_id feed = fd_id read) /\
    usable_feed uconfig s principal feed /\ servable s t skill /\ r = skillResolution skill /\
    imported_by_feed feed (fd_configRevision read) (tq_externalId request) skill /\
    (s' = w_state w \/ s' = fill_collections (w_state w)).
Proof.
  intros _ _ _ H Hr. unfold resolveTransparentProxyRequest in H. do 3 ok_step.
  rename a1 into request.
  destruct (findTransparentFeed _ _ _ _) as [read|] eqn:Hfeed; [|done]. cbn [rbind] in H.
  apply findTransparentFeed_spec in Hfeed as (Hin & _ & He & Ht & Hc).
  assert (Hread : usable_feed uconfig state principal read) by by split.
  destruct (if tq_refresh _ then _ else _) as [cached|] eqn:Ecached.
  - unfold transparentProxyResponse in H. destruct (canReadTransparentDiagnostics _); [|done].
    injection H as <- <-. cbn in Hr |- *. destruct cached as [|job skill]; [done|]. injection Hr as <-.
    destruct (tq_refresh _); [done|]. apply transparent_cached_spec in Ecached as [Hs Hi].
    exists request, read, read, skill, state, readNow. split_and!; try done; left; by split_and?.
  - do 2 ok_step. unfold queueTransparentImport in H.
    destruct (find_first _ (feeds snapshot)) as [configured|] eqn:Ec; [|done]. cbn [require rbind] in H.
    destruct (_ || _) in H; [done|].
    destruct (transparent_commit _ _ _ _ _ _ _ _ _ _ _ _) as [[[s2 res] created]|] eqn:Et; [|done].
    cbn [rbind] in H. unfold transparentProxyResponse in H. destruct (canReadTransparentDiagnostics _); [|done].
    injection H as <- <-. cbn in Hr |- *. destruct res as [|job skill]; [done|]. injection Hr as <-.
    apply transparent_commit_cases in Et as (feed & [Hf Hid _ Hen Hrd Htr _ Hres]). cbv zeta in Hres.
    destruct Hres as [(? & _ & _ & _ & ? & _)|[(_ & j & Hj & -> & _ & Hrel)|(_ & _ & e & _ & _ & ? & _)]]; [done| |done].
    apply elem_of_sorted_filter in Hj as [_ Hj].
    eapply template_release_spec in Hrel as [Hs Hi]; [|exact Hj | by cbn; rewrite Hid].
    exists request, read, feed, skill, (w_state w), now. split_and!; try done.
    + right. by split_and!.
    + by apply servable_fill.
    + by apply Hi.
    + by right.
Qed.

(** ** Sources *)

Lemma source_release_spec s source revision allowed now job result resolution canonical :
  source_release s source revision allowed now job = Some (SourceResolved result resolution canonical) ->
  exists skill, servable s now skill /\ allowed skill = true /\ resolution = skillResolution skill /\
    canonicalSourceFromSkill skill = Some canonical /\ sourceIdentityMatches canonical source revision = true.
Proof.
  unfold source_release. destruct (if completed job then _ else _) as [id|]; [|done].
  destruct (find_skill s id) as [skill|] eqn:Ex; [|done].
  destruct (_ && _) eqn:G; [|done]. apply andb_true_iff in G as [Ga Gc].
  destruct (canonicalSourceFromSkill skill) as [c|] eqn:Ec; [|done].
  destruct (sourceIdentityMatches _ _ _) eqn:Em; [|done]. intros [= _ <- <-].
  exists skill. split_and!; try done. by eapply servable_of.
Qed.
(** The release has the source that was asked, at the revision if one was asked. *)
Definition same_source (actual requested : CanonicalSourceIdentity) (revision : option jstr) : Prop :=
  cs_provider actual = cs_provider requested /\ cs_host actual = cs_host requested /\
  cs_repository actual = cs_repository requested /\ cs_path actual = cs_path requested /\
  (revision = None \/ cs_revision actual = revision).
Lemma sourceIdentityMatches_iff actual requested revision :
  sourceIdentityMatches actual requested revision = true <-> same_source actual requested revision.
Proof.
  unfold sourceIdentityMatches, same_source. rewrite !andb_true_iff, !jeqb_true, bool_decide_eq_true, agrees_spec.
  tauto.
Qed.
Lemma findSourceReferenceUpstream_spec s source principal upstream :
  findSourceReferenceUpstream s source principal = Ok upstream ->
  upstream ∈ st_upstreams s /\ us_organizationId upstream = pr_organizationId principal /\
  us_kind upstream = UGithub /\ cs_provider source = ProviderGithub /\ us_enabled upstream = true /\
  canReadNamespace principal (us_namespace upstream) = true /\
  upstreamAllowsImport upstream (Some (cs_repository source)) = true /\
  sourceHostMatchesUpstream (cs_host source) upstream = true /\
  forall other, other ∈ st_upstreams s -> us_organizationId other = pr_organizationId principal ->
    us_kind other = UGithub -> us_enabled other = true -> canReadNamespace principal (us_namespace other) = true ->
    upstreamAllowsImport other (Some (cs_repository source)) = true ->
    sourceHostMatchesUpstream (cs_host source) other = true -> other = upstream.
Proof.
  unfold findSourceReferenceUpstream. set (p := fun u : Upstream => _).
  destruct (js_sort _ _) as [|u [|]] eqn:E; [done| |done]. intros [= ->].
  assert (Hall : forall x, x ∈ st_upstreams s /\ p x = true <-> x = upstream).
  { intros x. rewrite <- (elem_of_sorted_filter (by_id us_id) p), E. apply list_elem_of_singleton. }
  destruct (proj2 (Hall upstream) eq_refl) as [Hin Hp]. subst p. cbv beta in Hp. rewrite !andb_true_iff in Hp.
  destruct Hp as [[[[[H1%jeqb_true H2%bool_decide_eq_true] H3] H4] H5] H6].
  assert (Hk : cs_provider source = ProviderGithub) by by destruct (cs_provider source).
  rewrite Hk in H2. injection H2 as H2. split_and!; try done.
  intros x Hx ? ? ? ? ? ?. apply Hall. split; [done|]. cbv beta. rewrite !andb_true_iff, jeqb_true, bool_decide_eq_true, Hk.
  split_and!; try done. cbn. congruence.
Qed.

(** A source reference is answered with a release only if the release may be
    installed now and has exactly the source that was asked: the caller reads
    the namespace of the only upstream that serves the source, the release is
    approved by current evidence under the current policy of the document it
    was taken from, its record gives the same provider, host, repository and
    path, and the commit too where one was asked; what is answered is the
    reference of that record and the digest of the artifact. *)
Theorem source_resolution_governed (policy : Policy) (w : World) (body : jsval) (principal : Principal)
    (requestId : jstr) (ids : ImportIds) (readNow now : Z) (state snapshot s' : RegistryState)
    (answer : SourceAnswer) (r : Resolution) :
  run (initial policy) w -> observed w state -> observed w snapshot ->
  resolveSourceReferenceRequest config body principal requestId ids readNow now state snapshot (w_state w)
    = Ok (s', answer) ->
  sn_resolution answer = Some r ->
  exists request source upstream skill canonical s t,
    parseSourceReferenceRequest body = Ok request /\
    parseCanonicalSourceReference (sq_reference request) = Ok source /\
    findSourceReferenceUpstream state source principal = Ok upstream /\
    us_enabled upstream = true /\ canReadNamespace principal (us_namespace upstream) = true /\
    upstreamAllowsImport upstream (Some (cs_repository source)) = true /\
    (s = state /\ t = readNow \/ s = w_state w /\ t = now) /\ servable s t skill /\
    canonicalSourceFromSkill skill = Some canonical /\ same_source canonical source (sq_revision request) /\
    r = skillResolution skill /\ sn_source answer = Some canonical /\
    sn_reference answer = sourceReferenceFromCanonical canonical /\
    sn_digest answer = Some (sb_digest (sk_artifact skill)) /\
    (s' = w_state w \/ s' = fill_collections (w_state w)).
Proof.
  intros _ _ _ H Hr. unfold resolveSourceReferenceRequest in H. do 2 ok_step.
  destruct (parseSourceReferenceRequest body) as [request|] eqn:Ep; [|done]. cbn [rbind] in H.
  destruct (parseCanonicalSourceReference _) as [source|] eqn:Es; [|done]. cbn [rbind] in H.
  destruct (findSourceReferenceUpstream _ _ _) as [upstream|] eqn:Eu; [|done]. cbn [rbind] in H.
  pose proof Eu as (_ & _ & _ & _ & Hen & Hrd & Hal & _)%findSourceReferenceUpstream_spec.
  destruct (if sq_refresh request then _ else _) as [cached|] eqn:Ec.
  - injection H as <- <-. destruct cached as [|job resolution canonical]; [done|]. injection Hr as ->.
    destruct (sq_refresh request); [done|]. unfold findSourceCachedResult in Ec.
    apply first_some_Some in Ec as (j & _ & Hj). cbv beta in Hj. destruct (active j); [done|].
    apply source_release_spec in Hj as (skill & Hs & _ & -> & Hcan & Hm%sourceIdentityMatches_iff).
    exists request, source, upstream, skill, canonical, state, readNow. split_and!; try done; left; by split_and?.
  - destruct (source_commit _ _ _ _ _ _ _ _ _ _ _ _) as [[s2 res]|] eqn:Et; [|done]. cbn [rbind fst snd] in H.
    injection H as <- <-. destruct res as [|job resolution canonical]; [done|]. injection Hr as ->.
    unfold source_commit in Et. destruct (ensureState _ _) as [m|] eqn:He; [|done].
    apply ensure_current in He as ->. cbn [rbind] in Et.
    destruct (find_first _ (st_upstreams _)) as [mapping|]; [|done]. cbn [require rbind] in Et.
    destruct (_ || _ || _) in Et; [done|]. destruct (find_first active _); [done|].
    clear Ec. destruct (if sq_refresh request then _ else _) as [result|] eqn:Ef; [|done]. injection Et as <- ->.
    destruct (sq_refresh request); [done|]. apply first_some_Some in Ef as (j & _ & Hj).
    apply source_release_spec in Hj as (skill & Hs & _ & -> & Hcan & Hm%sourceIdentityMatches_iff).
    exists request, source, upstream, skill, canonical, (w_state w), now.
    split_and!; try done; [right; by split_and? | by apply servable_fill | by right].
Qed.

(** ** Revisions of a feed *)

(** The revision of a feed identifies its configuration: whenever two documents
    of one history hold a feed with the same id and the same revision, it is the
    same feed with the same repositories, base URL, namespace and switch. *)
Theorem feed_revision_identifies (policy : Policy) (w : World) (s s' : RegistryState) (f f' : Feed) :
  run (initial policy) w -> s ∈ w_all w -> s' ∈ w_all w -> f ∈ feeds s -> f' ∈ feeds s' ->
  fd_id f = fd_id f' -> fd_configRevision f = fd_configRevision f' -> f = f'.
Proof. intros H. apply run_inv in H; [|apply initial_inv]. by apply (inv_feed_revisions config w H). Qed.

(** No feed of the history had this revision before. *)
Definition fresh_since (w : World) (id : jstr) (s : RegistryState) : Prop :=
  forall feed, feed ∈ feeds s -> fd_id feed = id -> unused_revision w (fd_configRevision feed).
Lemma unused_weaken w w' revision : (forall s, s ∈ w_all w -> s ∈ w_all w') ->
  unused_revision w' revision -> unused_revision w revision.
Proof. intros H Hu s f Hs. apply Hu. by apply H. Qed.
Lemma fresh_delta granted w v s' id : (forall s, s ∈ w_all w -> s ∈ w_all v) ->
  delta config (granted := granted) v s' ->
  fresh_since w id (w_state v) -> fresh_since w id s'.
Proof.
  intros Hw D H f Hf Hid. pose proof (d_feeds config v s' D) as Hc. inversion Hc as [l HR E|x Hx E].
  - apply list_elem_of_lookup in Hf as [i Hi].
    destruct (Forall2_lookup_r _ _ _ _ _ HR Hi) as (f0 & Hi0 & [Hfid _ _ Hrev]).
    apply list_elem_of_lookup_2 in Hi0. destruct Hrev as [->|Hu].
    + by apply H.
    + by eapply unused_weaken.
  - rewrite <- E in Hf. apply elem_of_app in Hf as [Hf| ->%list_elem_of_singleton].
    + by apply H.
    + destruct Hx as [_ _ _ Hu]. by eapply unused_weaken.
Qed.
Lemma fresh_run w w' id : inv w' -> forall w'', (forall s, s ∈ w_all w -> s ∈ w_all w') ->
  fresh_since w id (w_state w') -> run w' w'' -> fresh_since w id (w_state w'').
Proof.
  intros I w'' Hw H. induction 1 as [|v v' Hr IH Hs]; [done|].
  pose proof (run_inv parseDocument config _ _ I Hr) as Iv.
  destruct (step_delta parseDocument config v v' Iv Hs) as (s' & -> & D).
  eapply fresh_delta; [|exact D|exact IH]. intros s Hin. eapply run_all; [exact I|exact Hr|by apply Hw].
Qed.
Lemma feed_updated_fresh w id patch ids existing : inv w ->
  find_first (fun feed => jeqb (fd_id feed) id) (feeds (w_state w)) = Some existing ->
  forall feed, feed ∈ update_first (fun feed => jeqb (fd_id feed) id)
    (fun _ => feed_updated patch (fe_configRevision ids) existing) (feeds (w_state w)) ->
  fd_id feed = id -> fd_configRevision feed = fe_configRevision ids.
Proof.
  intros I Hf feed Hin Hid. pose proof (co_feed_ids _ _ (inv_catalog config w I)) as Hnd.
  revert Hf Hin Hnd. induction (feeds (w_state w)) as [|x l IH]; [done|]. cbn. destruct (jeqb (fd_id x) id) eqn:E.
  - intros [= ->] [->|Hin]%elem_of_cons [Hx _]%NoDup_cons; [done|]. apply jeqb_true in E. exfalso. apply Hx.
    apply list_elem_of_fmap. exists feed. split; [congruence|done].
  - intros Hf [->|Hin]%elem_of_cons [_ Hl]%NoDup_cons; [|by apply IH]. apply jeqb_false in E. congruence.
Qed.

(** What [PATCH] of a feed does: it stores the updated feed and answers 500, or
    changes nothing and answers an error. *)
Lemma patch_cases uconfig id body principal requestId ids now read current s' r :
  handleFeedsRoute config uconfig PATCH [id] body principal requestId ids now read current = (s', r) ->
  (s' = current /\ exists e, r = Err e) \/
  (r = Err INTERNAL_ERROR /\ exists patch existing e,
     requireAdmin principal = Ok tt /\ parseFeedPatch uconfig body = Ok patch /\
     find_first (fun feed => jeqb (fd_id feed) id) (feeds current) = Some existing /\
     ae_organizationId e = org /\
     s' = appendAudit e (with_st_feeds (Some (update_first (fun feed => jeqb (fd_id feed) id)
            (fun _ => feed_updated patch (fe_configRevision ids) existing) (feeds current)))
            (fill_collections current))).
Proof.
  unfold handleFeedsRoute, updateFeed. destruct (rbind read _) as [x|e]; [|intros [= <- <-]; left; by eauto].
  destruct (rbind (requireAdmin _) _) as [[s2 updated]|e] eqn:E; [|intros [= <- <-]; left; by eauto].
  destruct (requireAdmin principal) as [[]|] eqn:Ea; [|done]. cbn [rbind] in E.
  destruct (parseFeedPatch uconfig body) as [patch|] eqn:Ep; [|done]. cbn [rbind] in E.
  apply update_feed_cases in E as (-> & existing & e & Hf & He & ->). intros [= <- <-]. right. split; [done|].
  by exists patch, existing, e.
Qed.

(** C15. An update of a feed fences what was imported before it: once [PATCH] has
    stored a change, in every later document no import job that existed before
    the update answers a request for the feed, whatever the feed is then. *)
Theorem feed_update_fences (policy : Policy) (w w' : World) (uconfig : UpstreamConfiguration) (id : jstr)
    (body : jsval) (principal : Principal) (requestId : jstr) (ids : FeedIds) (now : Z) (read : api RegistryState)
    (s1 : RegistryState) (r : api FeedAnswer) (feed : Feed) (job job' : Job) (externalId : jstr)
    (caller : Principal) :
  run (initial policy) w ->
  handleFeedsRoute config uconfig PATCH [id] body principal requestId ids now read (w_state w) = (s1, r) ->
  fe_id ids ∉ fd_id <$> feeds (w_state w) -> unused_revision w (fe_configRevision ids) ->
  s1 <> w_state w ->
  run (commit w s1) w' ->
  feed ∈ feeds (w_state w') -> fd_id feed = id ->
  job ∈ st_jobs (w_state w) -> job' ∈ st_jobs (w_state w') -> jb_id job' = jb_id job ->
  transparent_job externalId (feedAsUpstream feed) caller job' = false.
Proof.
  intros Hrun H Hid Hrev Hs Hrun' Hfeed Hfid Hjob Hjob' Hjid. apply run_inv in Hrun; [|apply initial_inv].
  assert (I1 : inv (commit w s1)) by by eapply (inv_delta config (granted := fun _ => False)), feed_delta.
  pose proof (run_inv _ _ _ _ I1 Hrun') as I'.
  apply patch_cases in H as [[-> _]|(_ & patch & existing & e & _ & _ & Hf & _ & ->)]; [done|].
  assert (Hfresh : fresh_since w id (w_state w')).
  { eapply fresh_run; [exact I1 | | | exact Hrun'].
    - intros s Hin. by right.
    - intros f Hin Hfi. by rewrite (feed_updated_fresh w id patch ids existing Hrun Hf f Hin Hfi). }
  pose proof (proj1 (Forall_forall _ _) (inv_feed_jobs config w Hrun) job Hjob) as Hread.
  destruct (run_jobs parseDocument config _ w' job I1 Hrun') as (j2 & Hj2 & [Hg _ Hi _]); [done|].
  assert (j2 = job') as ->.
  { apply (NoDup_key_inj jb_id (st_jobs (w_state w'))); [apply I' | done | done | congruence]. }
  apply not_true_iff_false. unfold transparent_job. rewrite Hi. destruct (jb_import job) as [request|] eqn:Er.
  2: { by rewrite andb_false_r. }
  rewrite !andb_true_iff. intros [_ [[[[_ Hv%bool_decide_eq_true] _] _] _]]. cbn in Hv.
  destruct (Hread request (fd_configRevision feed)) as (s & f & Hsin & Hfin & E); [done|congruence|].
  by apply (Hfresh feed Hfeed Hfid s f).
Qed.

(** A [PATCH] of a feed never answers with a feed: either nothing is stored and
    the answer is an error, or the caller is an administrator, the feed with
    this id is replaced by the patched feed under the new revision, one audit
    event is added, and the answer is 500. *)
Theorem feed_patch_answer (uconfig : UpstreamConfiguration) (id : jstr) (body : jsval) (principal : Principal)
    (requestId : jstr) (ids : FeedIds) (now : Z) (read : api RegistryState) (current s' : RegistryState)
    (r : api FeedAnswer) :
  handleFeedsRoute config uconfig PATCH [id] body principal requestId ids now read current = (s', r) ->
  (s' = current /\ exists e, r = Err e) \/
  (r = Err INTERNAL_ERROR /\ exists patch existing e,
     requireAdmin principal = Ok tt /\ parseFeedPatch uconfig body = Ok patch /\
     find_first (fun feed => jeqb (fd_id feed) id) (feeds current) = Some existing /\
     ae_organizationId e = org /\
     s' = appendAudit e (with_st_feeds (Some (update_first (fun feed => jeqb (fd_id feed) id)
            (fun _ => feed_updated patch (fe_configRevision ids) existing) (feeds current)))
            (fill_collections current))).
Proof. apply patch_cases. Qed.

(** ** What is stored can be read *)

(** A repository the state validation refuses. *)
Definition bad_repository (repository : jstr) : bool :=
  jeqb repository [] || (2048 <? jlen repository) || negb (isWellFormedUnicodeString repository) ||
  existsb control_unit repository.
Lemma validate_feeds_bad organizationId names l feed repositories : feed ∈ l ->
  fd_repositories feed = Some repositories -> existsb bad_repository repositories = true ->
  is_ok (validate_feeds organizationId names l) = false.
Proof.
  intros Hin Hr Hb. revert names. induction l as [|x l IH]; intros names; [by apply not_elem_of_nil in Hin|].
  cbn [validate_feeds]. destruct (assertOrganization _ _); [|done]. cbn [rbind].
  destruct (validateFeedState x) eqn:E; [|done]. cbn [rbind]. destruct (bool_decide _); [done|].
  apply elem_of_cons in Hin as [<-|Hin]; [|by apply IH].
  exfalso. unfold validateFeedState in E. rewrite Hr in E. unfold bad_repository in Hb. cbn [default from_option id] in E.
  rewrite Hb in E. destruct (_ || _) in E; [done|]. match type of E with (if ?c then _ else _) = _ => destruct c; [done|] end.
  destruct (parseURL _) in E; [|done]. by destruct (_ || _) in E.
Qed.

Lemma parseFeed_repositories uconfig body candidate : parseFeed uconfig body = Ok candidate ->
  parseFeedRepositories (field body "repositories") = Ok (fi_repositories candidate).
Proof.
  unfold parseFeed. intros H. destruct (parseFeedRepositories _) as [repositories|].
  - by ok_inv.
  - by repeat ok_step.
Qed.
Lemma readState_bad_feed s feed repositories repository : feed ∈ feeds s ->
  fd_repositories feed = Some repositories -> repository ∈ repositories -> bad_repository repository = true ->
  is_ok (readState (Some s) org) = false.
Proof.
  intros Hin Hr Hrep Hb. apply not_true_iff_false. intros Hok. unfold readState in Hok.
  destruct (ensureState _ _) as [m|] eqn:He; [|done]. apply ensure_current in He as ->. cbn [rbind] in Hok.
  destruct (validateStateStatuses _ _) eqn:Hv; [|done]. unfold validateStateStatuses in Hv.
  do 6 (match type of Hv with rbind ?c _ = _ => destruct c; [|done] end; cbn [rbind] in Hv).
  match type of Hv with rbind ?c _ = _ => destruct c eqn:Ef; [|done] end.
  apply (f_equal is_ok) in Ef. rewrite (validate_feeds_bad _ _ _ feed repositories) in Ef; [done..|].
  apply existsb_exists. exists repository. by rewrite <- list_elem_of_In.
Qed.
Lemma unreadable_feed_route uconfig method id body principal requestId ids now read current :
  is_ok read = false ->
  exists e, handleFeedsRoute config uconfig method [id] body principal requestId ids now read current = (current, Err e).
Proof. intros H. unfold handleFeedsRoute. destruct read as [|e]; [done|]. by exists e. Qed.

(** A feed that is stored can lock the registry: the repositories of a new feed
    are checked before they are normalised, and when one of them normalises to
    a text the state validation refuses, the feed is stored, every later read of
    the document fails, and with it every request on this feed, of any method. *)
Theorem feed_create_can_lock (uconfig : UpstreamConfiguration) (body : jsval) (principal : Principal)
    (requestId : jstr) (ids : FeedIds) (now : Z) (current s' : RegistryState) (feed : Feed)
    (repositories : list jstr) (repository : jstr) :
  createFeed config uconfig body principal requestId ids now current = Ok (s', feed) ->
  parseFeedRepositories (field body "repositories") = Ok (Some repositories) ->
  repository ∈ repositories -> bad_repository repository = true ->
  is_ok (readState (Some s') org) = false /\
  forall method body' principal' requestId' ids' now',
    exists e, handleFeedsRoute config uconfig method [fd_id feed] body' principal' requestId' ids' now'
      (readState (Some s') org) s' = (s', Err e).
Proof.
  intros H Hp Hin Hb. apply createFeed_cases in H as (candidate & e & _ & Hc & Hf & _ & _ & ->).
  apply parseFeed_repositories in Hc. rewrite Hp in Hc.
  assert (Hread : is_ok (readState (Some (appendAudit e (with_st_feeds (Some (feeds current ++ [feed]))
             (fill_collections current)))) org) = false).
  { apply (readState_bad_feed _ feed repositories repository); [|subst feed; cbn; congruence | done | done].
    cbn. apply elem_of_app. right. by left. }
  split; [done|]. intros method body' principal' requestId' ids' now'. by apply unreadable_feed_route.
Qed.
End FeedSafety.

(** ** Concrete runs *)

Module FeedWitnesses.
Import ImportDemo.
#[local] Existing Instance iso_runtime.
#[local] Existing Instance ascii_tables.
#[local] Existing Instance unit_collation.
#[local] Existing Instance Demo.crypto.
#[local] Existing Instance Demo.blobs.
#[local] Existing Instance urls.

Definition served_external : RegistryState := Eval vm_compute in after external_again.
Lemma external_resolved : exists answer r,
  external_again = Ok (served_external, answer) /\ ta_resolution answer = Some r.
Proof. do 2 eexists. vm_compute. split; reflexivity. Qed.
Lemma observed_8 : observed config w8 (w_state w8).
Proof. apply observed_now; vm_compute; reflexivity. Qed.
Lemma transparent_resolution_governed_witness : exists feed skill s t,
  usable_feed uconfig s admin feed /\ servable s t skill /\
  exists revision, imported_by_feed feed revision (js "acme/skills/fmt") skill.
Proof.
  destruct external_resolved as (answer & r & Ha & Hr).
  destruct (transparent_resolution_governed demo_parseDocument config demo_policy w8 uconfig (fun _ => Some directory)
    [CatalogRequest] external_body admin (js "req") (ids_of "r9" "job_9" "audit_9") (t0 + 6000) (t0 + 6000)
    (w_state w8) (w_state w8) served_external answer r run_external observed_8 observed_8 Ha Hr)
    as (request & read & feed & skill & s & t & Hp & _ & _ & _ & Hf & Hs & _ & Hi & _).
  exists feed, skill, s, t. split; [exact Hf|]. split; [exact Hs|]. exists (fd_configRevision read).
  vm_compute in Hp. injection Hp as <-. exact Hi.
Defined.

Definition served_source : RegistryState := Eval vm_compute in after source_again.
Lemma source_resolved : exists answer r, source_again = Ok (served_source, answer) /\ sn_resolution answer = Some r.
Proof. do 2 eexists. vm_compute. split; reflexivity. Qed.
Lemma observed_11 : observed config w11 (w_state w11).
Proof. apply observed_now; vm_compute; reflexivity. Qed.
Lemma source_resolution_governed_witness : exists skill canonical s t,
  servable s t skill /\ canonicalSourceFromSkill skill = Some canonical /\
  exists source revision, same_source canonical source revision.
Proof.
  destruct source_resolved as (answer & r & Ha & Hr).
  destruct (source_resolution_governed demo_parseDocument config demo_policy w11 source_body admin (js "req")
    (ids_of "r9" "job_9" "audit_9") (t0 + 7000) (t0 + 7000) (w_state w11) (w_state w11) served_source answer r
    run_source observed_11 observed_11 Ha Hr)
    as (request & source & upstream & skill & canonical & s & t & _ & _ & _ & _ & _ & _ & _ & Hs & Hc & Hm & _).
  exists skill, canonical, s, t. split; [exact Hs|]. split; [exact Hc|]. by exists source, (sq_revision request).
Defined.

Definition feed_of_state (s : RegistryState) : Feed :=
  nth 0 (feeds s) {|
    fd_id := []; fd_organizationId := []; fd_name := []; fd_enabled := false; fd_repositories := None;
    fd_baseUrl := []; fd_namespace := None; fd_credentialEnv := None; fd_configRevision := [] |}.
Definition first_feed : Feed := Eval vm_compute in feed_of_state with_feed.
Definition later_feed : Feed := Eval vm_compute in feed_of_state feed_patched.
Lemma feed_revision_identifies_witness : exists s s' f f',
  s ∈ w_all w12 /\ s' ∈ w_all w12 /\ s <> s' /\ f ∈ feeds s /\ f' ∈ feeds s' /\ f = f'.
Proof.
  exists with_feed, source_imported, first_feed, first_feed.
  split; [do 7 right; by left|]. split; [right; by left|].
  split; [intros H; apply (f_equal (fun s => length (st_jobs s))) in H; vm_compute in H; discriminate H|].
  split; [by left|]. split; [by left|].
  apply (feed_revision_identifies demo_parseDocument config demo_policy w12 with_feed source_imported first_feed
           first_feed run_patched); first [do 7 right; by left | right; by left | by left | reflexivity].
Defined.

Definition feed_job : Job := Eval vm_compute in ImportWitnesses.job_of source_imported 1.
Lemma feed_update_fences_witness :
  transparent_job (js "acme/skills/fmt") (feedAsUpstream first_feed) admin feed_job = true /\
  transparent_job (js "acme/skills/fmt") (feedAsUpstream later_feed) admin feed_job = false.
Proof.
  split; [vm_compute; reflexivity|].
  destruct feed_patched_ok as [r Hr].
  apply (feed_update_fences demo_parseDocument config demo_policy w11 w12 uconfig (js "feed_1") patch_body admin
           (js "req") patch_ids (t0 + 5000) _ feed_patched r later_feed feed_job feed_job (js "acme/skills/fmt") admin
           run_source Hr).
  - apply (bool_decide_unpack _). vm_compute. exact I.
  - apply unused_of. vm_compute. reflexivity.
  - intros H. apply (f_equal (fun s => length (st_audit s))) in H. vm_compute in H. discriminate H.
  - apply run_refl.
  - by left.
  - reflexivity.
  - right. by left.
  - right. by left.
  - reflexivity.
Defined.

Lemma feed_patch_answer_witness : snd patch = Err INTERNAL_ERROR /\ fst patch = feed_patched.
Proof.
  destruct feed_patched_ok as [r Hr].
  destruct (feed_patch_answer config uconfig (js "feed_1") patch_body admin (js "req") patch_ids (t0 + 5000)
    (readState (Some (w_state w11)) (js "acme")) (w_state w11) feed_patched r Hr) as [[Hs _]|[Hs _]].
  - apply (f_equal (fun s => length (st_audit s))) in Hs. vm_compute in Hs. discriminate Hs.
  - rewrite Hr. by split.
Defined.

Definition lock_body : jsval := JObj [
  (js "name", JStr (js "broken")); (js "kind", JStr (js "skills-sh"));
  (js "repositories", JArr [JStr (js "https://github.com/")])].
Abbreviation lock := (createFeed config uconfig lock_body admin (js "req") feed_ids t0 (w_state w0)).
Definition locked : RegistryState := Eval vm_compute in after lock.
Lemma locked_ok : exists feed, lock = Ok (locked, feed).
Proof. eexists. vm_compute. reflexivity. Qed.
Lemma feed_create_can_lock_witness :
  is_ok (readState (Some (w_state w0)) (js "acme")) = true /\ is_ok (readState (Some locked) (js "acme")) = false.
Proof.
  split; [vm_compute; reflexivity|]. destruct locked_ok as [feed Hf].
  refine (proj1 (feed_create_can_lock config uconfig lock_body admin (js "req") feed_ids t0 (w_state w0) locked feed
    [[]] [] Hf _ _ _)); [vm_compute; reflexivity | by left | reflexivity].
Defined.
End FeedWitnesses.
