(* ===== verification/DraftSafety.v ===== *)
(** * What the drafts guarantee

    Along every run of the registry: a request that reports an error changed
    nothing, no save overwrites another, a repeated save is answered with what
    it saved, what a draft says of its content is true, and a publication adds
    exactly the saved bytes as a release that still has to be scanned. *)

From Stdlib Require Import ZArith Lia.
From stdpp Require Import base list list_numbers strings sets.
From S2P Require Import Prelude Js Dates Json Wire Bundle Frontmatter Contracts Numbers Web Access Names PolicyEval.
From S2P Require Import State Registry Authoring Drafts SkillBuilder DraftHandlers Builder BuilderSessions DraftState.
From S2P Require Import DraftCommits BuilderCommits System Scenario DraftScenario Safety.

Local Open Scope Z_scope.

Section DraftSafety.
Context {DR : DateRuntime} {UT : UnicodeTables} {UR : UrlRuntime} {CO : Collation} {CR : Crypto} {BL : Blobs}.
Context (parseDocument : jstr -> option ydocument) (config : Configuration) (validSemver : jstr -> bool).
Abbreviation org := (cfg_organizationId config).
Abbreviation run := (run parseDocument config).
Abbreviation inv := (inv config).
Abbreviation draft_ok := (draft_ok org).

(** The handlers as the registry composes them, with the clocks of the calls. *)
Definition registry_drafts (principal : option Principal) (route : DraftRoute) (ids : DraftIds)
    (now readNow commitNow : Z) (existing snapshot current : RegistryState) : handled DraftAnswer :=
  draftHandler parseDocument org (fun s x p => Some (core_admission config readNow s x p))
    (Some (core_admission config commitNow)) validSemver principal route ids now existing snapshot current.
Definition registry_publish (body : jsval) (key : option jstr) (draftId : jstr) (principal : Principal)
    (ids : DraftIds) (now readNow commitNow : Z) (snapshot current : RegistryState)
    : handled (DraftPublishOperation * bool) :=
  publishDraft parseDocument org (fun s x p => Some (core_admission config readNow s x p))
    (Some (core_admission config commitNow)) validSemver body key draftId principal ids now snapshot current.

Lemma run_drafts w w' d : inv w -> run w w' -> d ∈ drafts (w_state w) ->
  exists d', d' ∈ drafts (w_state w') /\ draft_step d d'.
Proof. apply run_history; [apply _|]. intros g v s' D. eexists. apply D. Qed.
(** A draft found by id in a later document is the later form of the draft. *)
Lemma run_draft w w' d d' : inv w -> run w w' -> d ∈ drafts (w_state w) -> d' ∈ drafts (w_state w') ->
  dr_id d' = dr_id d -> draft_step d d'.
Proof.
  intros I Hrun Hd Hd' Hid. destruct (run_drafts w w' d I Hrun Hd) as (d1 & H1 & Hs).
  assert (d1 = d') as ->; [|done]. pose proof (run_inv _ _ _ _ I Hrun) as I'.
  apply (NoDup_key_inj dr_id (drafts (w_state w'))); [apply I' | done | done|].
  pose proof (ds_identity _ _ Hs) as Hi. unfold identity in Hi. congruence.
Qed.
Lemma draft_in_ok w d : inv w -> d ∈ drafts (w_state w) -> draft_ok d.
Proof. intros I. apply (proj1 (Forall_forall _ _) (inv_drafts _ w I)). Qed.

(** A request for a draft that reports an error has changed nothing: whatever
    the requests before it and however they interleaved, a request that changed
    the document is answered with success, its response within the size
    limit. *)
Theorem draft_commit_answered (policy : Policy) (w : World) principal route ids now readNow commitNow existing
    snapshot s' r :
  run (initial policy) w ->
  registry_drafts principal route ids now readNow commitNow existing snapshot (w_state w) = (s', r) ->
  is_ok r = false -> s' = w_state w.
Proof.
  intros I%run_inv H Hr; [|apply initial_inv].
  apply draftHandler_effect in H as [->|(p & _ & _ & _ & _ & Hok)]; [done|].
  rewrite Hok in Hr; [done | apply I].
Qed.

(** C31. What a document says of a draft is true, in every reachable document: the
    revision is positive, the store confirmed the bytes the artifact names,
    they are the canonical encoding of the files and have the digest of the
    draft, the manifest shown to clients is that of the files, and the requests
    of the last 32 revisions are on record, one for each.  Every draft ever
    stored is an earlier form of one of these: its revision did not grow
    backwards, and an equal revision has the same content. *)
Theorem draft_invariant (policy : Policy) (w : World) :
  run (initial policy) w ->
  (forall d, d ∈ drafts (w_state w) ->
     1 <= dr_revision d /\ sealed_as (dr_artifact d) (dr_digest d) (dr_files d) /\
     publicDraftManifest d (dr_files d) = compactManifest (dr_files d) /\
     di_revision <$> records d = remembered (dr_revision d) /\
     NoDup (record_key <$> records d) /\ NoDup (publication_key <$> publications d) /\
     (length (publications d) <= MAX_PUBLICATION_HISTORY)%nat) /\
  (forall s d, s ∈ w_all w -> d ∈ drafts s -> exists d', d' ∈ drafts (w_state w) /\ draft_step d d') /\
  NoDup (dr_id <$> drafts (w_state w)).
Proof.
  intros I%run_inv; [|apply initial_inv]. split; [|split; [|apply I]].
  - intros d O%draft_in_ok; [|done]. rewrite (public_manifest org d O). split_and!; try done; apply O.
  - intros s d Hs Hd. apply (proj1 (Forall_forall _ _) (inv_draft_history _ w I)) in Hs.
    by apply (proj1 (Forall_forall _ _) Hs) in Hd.
Qed.

(** ** Saving *)

Lemma resolve_inline current inputs : existsb isDraftFileReference inputs = false ->
  map_result (resolve_input current) inputs = Ok (inline_files inputs).
Proof.
  unfold inline_files. induction inputs as [|[file|target source digest] inputs IH]; [done| |done].
  intros H. cbn in H |- *. by rewrite IH.
Qed.
(** A save without references is a save whose references are all resolved. *)
Lemma next_bundle_resolves request full before sealed : full_bundle request = Ok full ->
  next_bundle request full before = Ok sealed ->
  resolveDraftFileInputs (dr_files before) (wq_inputs request) = Ok (se_files sealed).
Proof.
  intros Hf H. unfold full_bundle, has_references in Hf. unfold resolveDraftFileInputs.
  destruct (existsb _ _) eqn:Er.
  - apply Ok_inj in Hf as <-. cbn [next_bundle] in H. ok_inv.
    apply read_draft_exact in E as [-> _]. unfold resolveDraftFileInputs in E0. rewrite E0.
    unfold seal in H. ok_inv. done.
  - ok_inv. rewrite (resolve_inline _ _ Er). cbn [rbind]. rewrite E. apply Ok_inj in H as <-.
    unfold seal in E0. ok_inv. done.
Qed.

Lemma parse_update body key draftId principal request :
  parse_write org (update_input body key draftId) principal = Ok request ->
  requireIdempotencyKeyValue (Some key) = Ok (wq_key request) /\
  requireRevision (field body "expectedRevision") = Ok (wq_expectedRevision request) /\
  exists value, field body "files" = JArr value /\ parseDraftFileInputs value = Ok (wq_inputs request).
Proof.
  unfold parse_write. cbn [wi_draftId wi_idempotencyKey wi_expectedRevision wi_expectedDigest wi_files wi_kind update_input].
  intros H. ok_inv. destruct (field body "files") as [| | | | |value|]; try done. ok_inv. cbn.
  split_and!; try done. by exists value.
Qed.

(** A save does exactly what it says: when a PUT changed the document, the draft
    it found was at the revision the request expected, and the only changes are
    an audit event and this draft, which keeps its identity, moves to the next
    revision and has as its files the canonical bundle of the request's entries,
    unchanged-file references resolved in the files the draft had; the response
    is the saved draft. *)
Theorem draft_save_exact (policy : Policy) (w : World) body header draftId principal auditId now snapshot s' r :
  run (initial policy) w -> snapshot ∈ w_all w ->
  updateDraft org body header draftId principal auditId now snapshot (w_state w) = (s', r) ->
  s' <> w_state w ->
  exists n value inputs draft next manifest audit,
    requireRevision (field body "expectedRevision") = Ok n /\
    field body "files" = JArr value /\ parseDraftFileInputs value = Ok inputs /\
    findDraft (w_state w) draftId principal org = Ok draft /\ dr_revision draft = n /\
    resolveDraftFileInputs (dr_files draft) inputs = Ok (dr_files next) /\
    dr_revision next = n + 1 /\ identity next = identity draft /\
    sealed_as (dr_artifact next) (dr_digest next) (dr_files next) /\
    s' = appendAudit audit (update_draft org draftId principal next (w_state w)) /\
    compactManifest (dr_files next) = Ok manifest /\
    r = Ok {| rp_status := 200; rp_body := draft_result_envelope false (publicDraftWithManifest next manifest) |}.
Proof.
  intros I%run_inv Hsn H Hne; [|apply initial_inv].
  apply updateDraft_cases in H as [?|(key & _ & U)]; [done|].
  destruct U as [request before full sealed stored manifest draft next a r Hs Hn Ha Hr].
  pose proof (sv_draft _ _ _ _ _ _ _ _ _ _ _ _ Hs) as Hd. pose proof (findDraft_spec _ _ _ _ _ Hd) as (_ & Hin & _).
  pose proof (draft_in_ok _ _ I Hin) as O.
  destruct (saving_ok _ _ _ now _ _ Hs O) as (Hok & _ & Hrev & Hdig & Hfs). rewrite <- Hn in *.
  destruct Hs as [Hrq Hb Hf Hnb Hm _ _ _ [He1 He2] _].
  apply editable_spec in He1 as (Hr1 & _), He2 as (Hr2 & _).
  destruct (parse_update _ _ _ _ _ Hrq) as (_ & Hrr & value & Hv & Hi).
  pose proof (read_before _ _ _ _ _ _ _ I Hsn Hb Hd) as Hst.
  destruct (ds_revision _ _ Hst) as [?|[_ Hc]]; [lia|]. unfold revision_content in Hc. injection Hc as _ _ Hcf _ _.
  exists (wq_expectedRevision request), value, (wq_inputs request), draft, next, manifest, a.
  split_and!; try done.
  - rewrite Hcf, Hfs. by eapply next_bundle_resolves.
  - by rewrite Hn.
  - apply Hok.
  - by rewrite Hfs.
  - by apply Hr.
Qed.

(** A request that expects a draft at a revision: a save or a publication of the
    draft, or a decision on a proposal of the builder. *)
Definition draft_request (route : DraftRoute) (draftId : jstr) (n : Z) : Prop :=
  match route with
  | RouteUpdate id body _ | RoutePublish id body _ =>
      id = draftId /\ requireRevision (field body "expectedRevision") = Ok n
  | _ => False
  end.
Definition decision_request (route : BuilderRoute) (draftId : jstr) (n : Z) : Prop :=
  match route with
  | RouteApply _ body _ | RouteReject _ body _ =>
      exists binding, parseBuilderBodyBinding body draftId = Ok binding /\ db_revision binding = n
  | _ => False
  end.

Section Stale.
(** A draft that has passed the revision [n] in every document that follows. *)
Context (w' : World) (draftId : jstr) (n : Z).
Context (passed : forall d, d ∈ drafts (w_state w') -> dr_id d = draftId -> n < dr_revision d).

Lemma stale_update body header principal auditId now snapshot s' r :
  requireRevision (field body "expectedRevision") = Ok n ->
  updateDraft org body header draftId principal auditId now snapshot (w_state w') = (s', r) -> s' = w_state w'.
Proof.
  intros Hn [?|(key & _ & U)]%updateDraft_cases; [done|]. exfalso.
  destruct U as [request before full sealed stored manifest draft next a r [Hrq _ _ _ _ _ Hf _ [_ He] _] _ _ _].
  apply editable_spec in He as (Hrev & _). destruct (parse_update _ _ _ _ _ Hrq) as (_ & Hrr & _).
  apply findDraft_spec in Hf as (_ & Hin & Hid & _). cbn [wi_draftId update_input] in Hid.
  pose proof (passed draft Hin Hid). rewrite Hrr in Hn. injection Hn. lia.
Qed.
Lemma stale_publish body header principal ids now readNow commitNow snapshot s' r :
  requireRevision (field body "expectedRevision") = Ok n ->
  registry_publish body header draftId principal ids now readNow commitNow snapshot (w_state w') = (s', r) ->
  s' = w_state w'.
Proof.
  intros Hn [[? _]|(key & m & version & _ & Hm & _ & M)]%publish_cases; [done|]. exfalso.
  destruct M as [before draft metadata base publication a [_ Hd [_ Hr] _ _ _ _ _ _ _] _ _ Hrev _].
  apply findDraft_spec in Hd as (_ & Hin & Hid & _). pose proof (passed draft Hin Hid).
  rewrite Hm in Hn. injection Hn. lia.
Qed.
Lemma stale_decision principal toolIdentity route ids now commitNow state snapshot refreshed s' r :
  decision_request route draftId n ->
  builderHandler org principal toolIdentity draftId route ids now commitNow state snapshot refreshed (w_state w')
    = (s', r) -> s' = w_state w'.
Proof.
  intros Hroute [?|(p & internal & answer & _ & _ & _ & _ & _ & E)]%builder_cases; [done|].
  destruct E as [body key s1 r1 E|proposalId body key s1 r1 E|proposalId body key s1 r1 E]; [done| |];
    destruct Hroute as (binding & Hb & Hn).
  - apply apply_cases in E as [?|E]; [done|]. exfalso.
    destruct E as [binding' sessionId key' session proposal draft before after request b full sealed stored manifest
      target next a s2 Hb' _ _ _ _ _ Hrev _ _ Hafter Hs _ _ _ _].
    assert (binding' = binding) as -> by congruence. apply binding_spec in Hb as [_ Hbounds].
    assert (Hw : wq_expectedRevision request = bp_baseRevision proposal)
      by (eapply apply_saves; [exact Hs | by rewrite Hrev | done]).
    destruct Hs as [_ _ _ _ _ _ Hf _ [_ He] _]. apply editable_spec in He as (Hr & _).
    apply findDraft_spec in Hf as (_ & Hin & Hid & _). pose proof (passed target Hin Hid). lia.
  - unfold rejectBuilderProposal in E. rewrite Hb in E. cbn [rbind] in E.
    destruct (findBuilderDraft org (w_state w') binding p false) as [d|] eqn:Ed.
    + apply findBuilderDraft_spec in Ed as (Hin & Hid & Hr & _). apply binding_spec in Hb as [Hbid _].
      pose proof (passed d Hin ltac:(congruence)). lia.
    + destruct (requireSafeBuilderId _); cbn [rbind uncommitted_as] in E; [|by injection E as <-].
      destruct (requireBuilderRequestKey _); cbn [rbind uncommitted_as] in E; by injection E as <-.
Qed.
End Stale.

(** C4. No save is lost: once a draft has passed a revision, whatever was read
    before and whatever happened since, no request that expects that revision
    changes the document: no save, no publication, and no decision to apply or
    reject a proposal of the builder.  A proposal made for any revision changes
    the sessions of the builder and no draft. *)
Theorem draft_no_lost_update (policy : Policy) (w w' : World) d n :
  run (initial policy) w -> d ∈ drafts (w_state w) -> n < dr_revision d -> run w w' ->
  (forall principal route ids now readNow commitNow existing snapshot s' r,
     draft_request route (dr_id d) n ->
     registry_drafts principal route ids now readNow commitNow existing snapshot (w_state w') = (s', r) ->
     s' = w_state w') /\
  (forall principal toolIdentity route ids now commitNow state snapshot refreshed s' r,
     decision_request route (dr_id d) n ->
     builderHandler org principal toolIdentity (dr_id d) route ids now commitNow state snapshot refreshed (w_state w')
       = (s', r) ->
     s' = w_state w') /\
  (forall principal toolIdentity body key ids now commitNow state snapshot refreshed s' r,
     unused_proposal w' (bi_proposalId ids) ->
     builderHandler org principal toolIdentity (dr_id d) (RoutePropose body key) ids now commitNow state snapshot
       refreshed (w_state w') = (s', r) ->
     only_sessions (w_state w') s' /\ drafts s' = drafts (w_state w')).
Proof.
  intros I%run_inv Hd Hlt Hrun; [|apply initial_inv]. pose proof (run_inv _ _ _ _ I Hrun) as I'.
  assert (passed : forall d', d' ∈ drafts (w_state w') -> dr_id d' = dr_id d -> n < dr_revision d').
  { intros d' Hd' Hid. destruct (ds_revision _ _ (run_draft w w' d d' I Hrun Hd Hd' Hid)) as [?|[? _]]; lia. }
  split; [|split].
  - intros principal route ids now readNow commitNow existing snapshot s' r Hroute H. unfold registry_drafts, draftHandler in H.
    destruct (admitDraftRoute org principal route) as [p|]; [|by injection H as <-].
    destruct route as [| | | |id body key|id body key]; try done; destruct Hroute as [-> Hn].
    + destruct (updateDraft _ _ _ _ _ _ _ _ _) as [s1 r1] eqn:E. injection H as <- _. by eapply stale_update.
    + destruct (publishDraft _ _ _ _ _ _ _ _ _ _ _ _ _) as [s1 r1] eqn:E. injection H as <- _. by eapply stale_publish.
  - intros principal toolIdentity route ids now commitNow state snapshot refreshed s' r. by apply stale_decision.
  - intros principal toolIdentity body key ids now commitNow state snapshot refreshed s' r Hid H.
    apply builder_cases in H as [->|(p & internal & answer & _ & _ & _ & _ & _ & E)].
    { split; [apply only_sessions_same | done]. }
    inversion E as [body' key' s1 r1 Ep| |]; subst.
    apply (propose_move org (fun q => bp_id q = bi_proposalId ids) (fun _ => False)) in Ep as [[o ->] _];
      [| apply I' | done |]; [split; [by exists o | done]|].
    intros b Hb (q & Hq & Hin)%list_elem_of_fmap. by destruct (Hid (w_state w') q ltac:(by left) ltac:(by exists b)).
Qed.

(** ** Replays *)

(** The public form of a draft seen at a revision on record. *)
Lemma replay_public d r fs : draft_ok d -> r ∈ records d -> sealed_record r fs ->
  let replay := with_content d (di_revision r) (di_digest r) (di_artifact r) fs (di_updatedAt r) in
  toPublicDraft replay fs = Ok (publicDraftWithManifest replay (di_manifest r)).
Proof.
  intros O Hr [_ Hm]. unfold toPublicDraft, publicDraftManifest.
  assert (Hc : current_record (with_content d (di_revision r) (di_digest r) (di_artifact r) fs (di_updatedAt r)) = Some r).
  { unfold current_record. cbn [dr_idempotency dr_createIdempotency dr_revision dr_digest with_content].
    change (default [] (dr_idempotency d)) with (records d).
    destruct (ok_created _ _ O) as (c & fs' & -> & _ & H1 & _ & _).
    destruct (find_first_is_Some (fun x => (di_revision x =? di_revision r) && jeqb (di_digest x) (di_digest r))
                (records d ++ [c]) r) as [x Hx].
    { set_solver. }
    { by rewrite Z.eqb_refl, jeqb_refl. }
    rewrite Hx. f_equal. apply find_first_Some in Hx as [Hx Hp]. bool_inv.
    pose proof (record_bound _ _ _ O Hr). apply elem_of_app in Hx as [Hx|Hx%list_elem_of_singleton]; [|subst; lia].
    apply (NoDup_key_inj di_revision (records d)); try done. rewrite (ok_records _ _ O). apply NoDup_seqZ. }
  rewrite Hc. cbn [rbind]. by rewrite (compact_public _ _ Hm).
Qed.

Lemma findIdempotency_record d r : draft_ok d -> r ∈ records d ->
  findIdempotency d (di_key r) (di_subject r) = Some r.
Proof.
  intros O Hr. unfold findIdempotency. change (default [] (dr_idempotency d)) with (records d).
  destruct (find_first_is_Some (fun x => jeqb (di_key x) (di_key r) && jeqb (di_subject x) (di_subject r))
              (records d) r) as [x Hx]; [done | by rewrite !jeqb_refl |].
  rewrite Hx. f_equal. apply find_first_Some in Hx as [Hx Hp]. bool_inv. apply jeqb_true in Hp, H.
  apply (NoDup_key_inj record_key (records d)); [apply O | done..|]. unfold record_key. congruence.
Qed.

(** A draft that a caller could see, the caller can still see. *)
Lemma found_later w w' d draftId principal : inv w -> run w w' -> d ∈ drafts (w_state w) ->
  dr_id d = draftId -> namespaceReadable principal (dr_name d) = true ->
  exists d', findDraft (w_state w') draftId principal org = Ok d' /\ draft_step d d' /\ draft_ok d'.
Proof.
  intros I Hrun Hd <- Hr. destruct (run_drafts w w' d I Hrun Hd) as (d' & Hd' & Hst).
  pose proof (run_inv _ _ _ _ I Hrun) as I'. pose proof (draft_in_ok _ _ I' Hd') as O'.
  exists d'. split; [|done]. unfold findDraft. change (default [] (st_drafts (w_state w'))) with (drafts (w_state w')).
  pose proof (ds_identity _ _ Hst) as Hi. unfold identity in Hi. injection Hi as Hid _ _ Hn _ _ _ _ _ _ _ _.
  destruct (find_first_is_Some (fun c => jeqb (dr_id c) (dr_id d) && jeqb (dr_organizationId c) org &&
              namespaceReadable principal (dr_name c)) (drafts (w_state w')) d') as [x Hx]; [done| |].
  { by rewrite Hid, Hn, Hr, jeqb_refl, (ok_organization _ _ O'), jeqb_refl. }
  rewrite Hx. apply find_first_Some in Hx as [Hx [[Hxid%jeqb_true _]%andb_true_iff _]%andb_true_iff].
  do 2 f_equal. apply (NoDup_key_inj dr_id (drafts (w_state w'))); [apply I' | done..| congruence].
Qed.

(** A PUT whose request is on record is answered from the record. *)
Lemma update_on_record `{!StoreLaw} state body header key draftId principal auditId now request full d record fs :
  requireIdempotencyKey header = Ok key ->
  parse_write org (update_input body key draftId) principal = Ok request ->
  full_bundle request = Ok full -> findDraft state draftId principal org = Ok d -> draft_ok d ->
  record ∈ records d -> record_key record = (wq_key request, pr_subject principal) ->
  di_requestDigest record = request_identity request full -> sealed_record record fs ->
  updateDraft org body header draftId principal auditId now state state =
  (state, draft_response 200 (draft_result_envelope true (publicDraftWithManifest
            (with_content d (di_revision record) (di_digest record) (di_artifact record) fs (di_updatedAt record))
            (di_manifest record)))).
Proof.
  intros Hkey Hrq Hf Hc O Hrec Hk Hident Hsr. unfold updateDraft. rewrite Hkey.
  destruct (parse_update _ _ _ _ _ Hrq) as (_ & Hrr & _). rewrite Hrr.
  fold (update_input body key draftId). unfold writeDraftRevision. rewrite Hrq. cbn [rbind].
  change (wi_draftId (update_input body key draftId)) with draftId. rewrite Hc, Hf. cbn [rbind].
  injection Hk as <- <-. rewrite (findIdempotency_record _ _ O Hrec). cbn [uncommitted_as]. unfold replay_write.
  rewrite Hident, jeqb_refl. cbn [negb]. unfold draftFromIdempotency, assertDraftEnvelopeFits.
  rewrite (read_record _ _ Hsr). cbn [rbind dr_files with_content].
  set (replay := with_content d _ _ _ _ _).
  pose proof (replay_public d record _ O Hrec Hsr : toPublicDraft replay fs = _) as Hp. rewrite Hp. cbn [rbind].
  change (default (defaultDraftResponseEnvelope (wi_kind (update_input body key draftId)) true)
            (wi_envelope (update_input body key draftId))) with (draft_result_envelope true).
  fold replay. f_equal. unfold draft_response.
  destruct (assertDraftResponseSize _) as [u|e] eqn:Ez; cbn [rbind]; [|done].
  cbn [wr_draft wr_files wr_idempotent]. change (dr_files replay) with fs. rewrite Hp. cbn [rbind].
  fold replay. by rewrite Ez.
Qed.

(** A repeated save is answered with what the first one saved: once a PUT has
    changed the document, the same request of the same caller, at any time in
    the next 31 revisions and whatever happened in between, changes nothing and
    is answered with the revision, digest and manifest it had saved; the only
    error it can meet is the limit on the size of the response. *)
Theorem draft_save_replay `{!StoreLaw} (policy : Policy) (w w' : World) body header draftId principal auditId now snapshot
    s1 r1 auditId' now' s2 r2 :
  run (initial policy) w ->
  updateDraft org body header draftId principal auditId now snapshot (w_state w) = (s1, r1) -> s1 <> w_state w ->
  run (commit w s1) w' ->
  updateDraft org body header draftId principal auditId' now' (w_state w') (w_state w') = (s2, r2) ->
  exists saved manifest current,
    r1 = Ok {| rp_status := 200; rp_body := draft_result_envelope false (publicDraftWithManifest saved manifest) |} /\
    requireRevision (field body "expectedRevision") = Ok (dr_revision saved - 1) /\
    findDraft (w_state w') draftId principal org = Ok current /\
    (dr_revision current < dr_revision saved + Z.of_nat MAX_IDEMPOTENCY_RECORDS ->
     s2 = w_state w' /\
     r2 = draft_response 200 (draft_result_envelope true (publicDraftWithManifest
            (with_content current (dr_revision saved) (dr_digest saved) (dr_artifact saved) (dr_files saved)
               (dr_updatedAt saved)) manifest))).
Proof.
  intros I%run_inv H1 Hne Hrun H2; [|apply initial_inv].
  apply updateDraft_cases in H1 as [?|(key & Hkey & U)]; [done|].
  destruct U as [request before full sealed stored manifest draft next a r Hs Hn Ha Hr].
  pose proof (sv_draft _ _ _ _ _ _ _ _ _ _ _ _ Hs) as Hd. pose proof (findDraft_spec _ _ _ _ _ Hd) as (Hff & Hin & Hid & Horg & Hread).
  pose proof (draft_in_ok _ _ I Hin) as O.
  pose proof (inv_delta (granted := fun _ => False) _ _ _ I (save_delta _ _ _ _ now _ _ _ _ _ _ _ _ _ I Hs Ha)) as I1. rewrite <- Hn in I1.
  destruct (saving_ok _ _ _ now _ _ Hs O) as (Hok & _ & Hrev & Hdig & Hfs). rewrite <- Hn in *.
  assert (Hnext : next ∈ drafts (w_state (commit w (appendAudit a (update_draft org draftId principal next (w_state w)))))).
  { cbn [commit w_state]. change (drafts (appendAudit a ?s)) with (drafts s). rewrite drafts_update.
    eapply find_first_Some, find_first_update_found; [exact Hff|].
    unfold is_draft. subst next. cbn. cbn in Hid, Horg, Hread. by rewrite Hid, Horg, Hread, !jeqb_refl. }
  assert (Hkept : namespaceReadable principal (dr_name next) = true) by (by subst next).
  destruct (found_later _ w' next draftId principal I1 Hrun Hnext) as (current & Hc & Hst & Oc); [by subst next|done|].
  exists next, manifest, current. split; [by apply Hr|]. split.
  { destruct (parse_update _ _ _ _ _ (sv_request _ _ _ _ _ _ _ _ _ _ _ _ Hs)) as (_ & -> & _). f_equal. lia. }
  split; [done|]. intros Hbound.
  set (record := save_record request (pr_subject principal) (request_identity request full) sealed stored manifest now).
  assert (Hrec : record ∈ records current).
  { apply (ds_records _ _ Hst); [|subst next; exact Hbound]. subst next. apply elem_of_app. right. by left. }
  destruct Hs as [Hrq Hb Hf Hnb Hm Hp _ _ _ _].
  assert (Hsr : sealed_record record (se_files sealed)).
  { split; [|done]. eapply canonical_seal_stored; [by eapply next_bundle_seal | done]. }
  rewrite (update_on_record _ _ _ _ _ _ _ _ _ _ _ _ _ Hkey Hrq Hf Hc Oc Hrec eq_refl eq_refl Hsr) in H2.
  split; [exact (eq_sym (f_equal fst H2))|]. rewrite <- (f_equal snd H2 : _ = r2). by rewrite Hn.
Qed.

(** ** Publishing *)

Lemma base_admitted admissionAtCommit before draft n principal policyRevision version current :
  publishable org admissionAtCommit before draft n principal policyRevision version current = Ok tt ->
  dr_origin draft = OriginRelease ->
  exists base, base ∈ st_skills current /\ dr_baseResourceId draft = Some (sk_id base) /\
    dr_baseDigest draft = Some (sb_digest (sk_artifact base)) /\
    exists admitted, admissionAtCommit = Some admitted /\ admitted current base principal = true.
Proof.
  intros H Ho. unfold publishable in H. rewrite Ho in H. ok_inv. bool_inv.
  destruct (current_base org current draft principal) as [base|] eqn:Eb; [|done].
  unfold current_base in Eb. destruct (base_of current draft) as [b|] eqn:Ebo; [|done].
  destruct (dr_baseDigest draft) as [digest|]; [|done]. destruct (_ && _) eqn:Ec; [|done]. injection Eb as ->.
  apply andb_true_iff in Ec as [_ (_ & _ & Hd & _)%sameReadableBase_spec]. exists base.
  unfold base_of in Ebo. destruct (dr_baseResourceId draft) as [id|]; [|done].
  apply find_first_Some in Ebo as [Hin Hid%jeqb_true]. split; [done|]. split; [by rewrite Hid|].
  split; [by rewrite Hd|]. destruct admissionAtCommit as [admitted|]; [|done]. exists admitted.
  split; [done|]. by apply negb_false_iff.
Qed.

(** C6. Publishing a draft adds exactly the saved revision, still to be scanned: when
    it changed the document, the draft was at the revision the request named,
    the new release is pending, has the artifact, digest and files of this
    revision and the metadata parsed from them, and a name and version no
    release had; its queued job scans these bytes under the policy in force; a
    draft made of a release is only published while that release is still
    approved.  Nothing else changes but the record of the publication and an
    audit event. *)
Theorem draft_publication_exact (policy : Policy) (w : World) body header draftId principal ids now readNow commitNow
    snapshot s' r :
  run (initial policy) w -> snapshot ∈ w_all w ->
  registry_publish body header draftId principal ids now readNow commitNow snapshot (w_state w) = (s', r) ->
  s' <> w_state w ->
  exists draft version release job publication audit metadata,
    findDraft (w_state w) draftId principal org = Ok draft /\
    requireRevision (field body "expectedRevision") = Ok (dr_revision draft) /\
    requireDraftVersion validSemver (field body "version") = Ok version /\
    s' = appendAudit audit (update_draft org draftId principal (publish_next draft publication)
           (with_release release job (w_state w))) /\
    r = Ok (operationFromPublication publication, false) /\
    (sk_state release = Pending /\ sk_name release = dr_name draft /\ sk_version release = version /\
     sk_artifact release = dr_artifact draft /\ sb_digest (sk_artifact release) = dr_digest draft /\
     sk_fileCount release = Z.of_nat (length (dr_files draft)) /\
     (sk_name release, sk_version release) ∉ skill_key <$> st_skills (w_state w)) /\
    (parseSkillMetadata parseDocument (bundle_value {| files := dr_files draft |}) = Ok metadata /\
     sk_skillName release = skillName metadata /\ sk_description release = description metadata) /\
    (jb_kind job = ScanJob /\ jb_state job = JQueued /\ jb_resourceId job = Some (sk_id release) /\
     jb_artifact job = Some (dr_artifact draft) /\ jb_policy job = clonePolicy (st_policy (w_state w))) /\
    (op_resourceId (operationFromPublication publication) = sk_id release /\
     op_id (operationFromPublication publication) = jb_id job /\ dp_digest publication = dr_digest draft) /\
    (dr_origin draft = OriginRelease -> exists base, base ∈ st_skills (w_state w) /\
       dr_baseResourceId draft = Some (sk_id base) /\ dr_baseDigest draft = Some (sb_digest (sk_artifact base)) /\
       skillCurrentlyApproved (w_state w) base commitNow = true).
Proof.
  intros I%run_inv Hsn H Hne; [|apply initial_inv].
  apply publish_cases in H as [[? _]|(key & n & version & _ & Hrr & Hv & M)]; [done|].
  destruct M as [before draft metadata base publication a P Ha _ Hrev Hver].
  destruct P as [Hb Hd [Hr1 Hr2] Hdig [Hrid Hjid] _ _ (fs & Hread & Hmeta) _ Hpub].
  pose proof (findDraft_spec _ _ _ _ _ Hd) as (_ & Hin & _). pose proof (draft_in_ok _ _ I Hin) as O.
  pose proof (read_before _ _ _ _ _ _ _ I Hsn Hb Hd) as Hst. pose proof (ds_identity _ _ Hst) as Hi.
  destruct (ds_revision _ _ Hst) as [?|[_ Hc]]; [lia|]. unfold revision_content in Hc. injection Hc as Hcd Hca Hcf _ _.
  assert (Hname : dr_name draft = dr_name before) by (unfold identity in Hi; congruence).
  apply read_draft_exact in Hread as [-> _].
  assert (Hpol : st_policy snapshot = st_policy (w_state w)).
  { apply (inv_policies _ w I); [by apply list_elem_of_fmap_2 | by left|].
    pose proof Hpub as Hp. unfold publishable in Hp. ok_inv. apply negb_false_iff, jeqb_true in G3. done. }
  exists draft, version, (published_release org principal ids now snapshot before metadata base publication),
    (draft_job org before (clonePolicy (st_policy snapshot)) ids now), publication, a, metadata.
  cbn [published_release draft_release sk_state sk_name sk_version sk_artifact sk_fileCount sk_skillName
       sk_description sk_id draft_job jb_kind jb_state jb_resourceId jb_artifact jb_policy jb_id
       operationFromPublication op_resourceId op_id].
  rewrite <- Hrev, Hr2 in Hrr. destruct (ok_artifact _ _ O) as [(bytes & _ & _ & _ & Hsd & _)].
  split_and!; try done; try congruence.
  - pose proof Hpub as Hp. unfold publishable in Hp. ok_inv. apply has_version_false in G5. congruence.
  - intros Ho. destruct (base_admitted _ _ _ _ _ _ _ _ Hpub Ho) as (b & Hbin & Hbid & Hbd & adm & Ha2 & Hadm).
    exists b. injection Ha2 as <-. unfold core_admission in Hadm. by apply andb_true_iff in Hadm as [_ ?].
Qed.

(** A publication is never answered with an operation that did not happen: the
    release an answer names, new or repeated, is in the document the request
    left, with the name of the draft, the version and the digest of the
    answer. *)
Theorem draft_operation_exists (policy : Policy) (w : World) body header draftId principal ids now readNow commitNow
    snapshot s' operation idempotent :
  run (initial policy) w -> snapshot ∈ w_all w ->
  ids_skillId ids ∉ sk_id <$> st_skills (w_state w) -> ids_jobId ids ∉ jb_id <$> st_jobs (w_state w) ->
  registry_publish body header draftId principal ids now readNow commitNow snapshot (w_state w)
    = (s', Ok (operation, idempotent)) ->
  exists release, release ∈ st_skills s' /\ sk_id release = op_resourceId operation /\
    sk_version release = op_version operation /\ sb_digest (sk_artifact release) = op_digest operation.
Proof.
  intros I%run_inv Hsn Hskill Hjob H; [|apply initial_inv].
  assert (Hold : forall skills d p, published skills d p -> exists release,
            release ∈ skills /\ sk_id release = dp_resourceId p /\
            sk_version release = dp_version p /\ sb_digest (sk_artifact release) = dp_digest p).
  { intros skills d p (x & Hx & ? & _ & ? & ?). by exists x. }
  apply publish_cases in H as [[-> (s & d & k & p & Hs & Hd & Hp & ->)]|(k & n & v & _ & _ & _ & M)].
  - apply findDraft_spec in Hd as (_ & Hd & _). apply find_first_Some in Hp as [Hp _].
    apply (Hold _ d), (inv_publications _ w I s); [|done..].
    apply elem_of_cons in Hs as [->| ->%list_elem_of_singleton]; [done | by left].
  - inversion M as [before draft metadata base publication a P Ha Hk Hn Hv Hs1 Hr1]. subst.
    pose proof (publish_draft_delta (granted := fun _ => False) _ _ w draftId principal ids now snapshot _ _ _ _ _ _ _ I Hsn P Hskill Hjob) as D.
    destruct P as [_ Hd _ _ _ _ _ _ _ _]. pose proof (findDraft_spec _ _ _ _ _ Hd) as (Hf & Hin & Hid & Horg & Hr).
    apply (Hold _ (publish_next draft publication)).
    assert (Hnext : publish_next draft publication ∈ drafts (update_draft org draftId principal
              (publish_next draft publication) (with_release (published_release org principal ids now snapshot before
                 metadata base publication) (draft_job org before (clonePolicy (st_policy snapshot)) ids now) (w_state w)))).
    { rewrite drafts_update. eapply find_first_Some, find_first_update_found; [exact Hf|].
      unfold is_draft. cbn. by rewrite Hid, Horg, Hr, !jeqb_refl. }
    destruct (d_publications _ _ _ D _ publication Hnext) as [(d0 & Hd0 & Hn0 & Hp0)|Hp0]; [| |exact Hp0].
    { apply elem_of_app. right. by left. }
    pose proof (inv_publications _ w I (w_state w) d0 publication) as Hp. unfold published in *. rewrite Hn0 in Hp.
    destruct Hp as (x & Hx & Hrest); [by left|done..|]. exists x. split; [|done]. apply elem_of_app. by left.
Qed.
End DraftSafety.

(** ** Witnesses *)

Module DraftWitness.
Import DraftDemo.
#[local] Existing Instance iso_runtime.
#[local] Existing Instance ascii_tables.
#[local] Existing Instance no_urls.
#[local] Existing Instance unit_collation.
#[local] Existing Instance crypto.
#[local] Existing Instance blobs.
#[local] Existing Instance blobs_law.
Abbreviation org := (cfg_organizationId config).

(** A stale save: the same body under another key. *)
Definition stale_route : DraftRoute := RouteUpdate (js "draft_1") update_body (Some (js "k9")).
Abbreviation stale := (registry_drafts demo_parseDocument config validSemver (Some Demo.admin) stale_route (ids "4")
  (Demo.t0 + 3000) Demo.t0 Demo.t0 (w_state w2) (w_state w2) (w_state w2)).
Lemma draft_commit_answered_witness : is_ok (snd stale) = false /\ fst stale = w_state w2.
Proof.
  assert (H : is_ok (snd stale) = false) by (vm_compute; reflexivity). split; [exact H|].
  exact (draft_commit_answered demo_parseDocument config validSemver demo_policy w2 _ _ _ _ _ _ _ _ _ _ run_saved
           (surjective_pairing _) H).
Defined.

Lemma queued_draft : exists d, the_draft queued = Some d /\ d ∈ drafts (w_state w3) /\ dr_revision d = 2.
Proof. eexists. split; [reflexivity|]. split; [by left | reflexivity]. Qed.
Lemma draft_invariant_witness : exists d, the_draft queued = Some d /\
  publicDraftManifest d (dr_files d) = compactManifest (dr_files d) /\ di_revision <$> records d = [2].
Proof.
  destruct (draft_invariant demo_parseDocument config demo_policy w3 run_queued) as [H _].
  destruct queued_draft as (d & E & Hd & Hr). destruct (H d Hd) as (_ & _ & Hm & Hk & _).
  exists d. split; [exact E|]. split; [exact Hm|]. rewrite Hk, Hr. vm_compute. reflexivity.
Defined.

Abbreviation save := (updateDraft org update_body (Some (js "k2")) (js "draft_1") Demo.admin (js "audit_2")
  (Demo.t0 + 1000) (w_state w1) (w_state w1)).
Lemma save_state : fst save = saved /\ saved <> w_state w1.
Proof.
  split; [vm_compute; reflexivity|]. intros H. apply (f_equal (fun s => length (st_audit s))) in H. vm_compute in H.
  discriminate H.
Qed.
Lemma draft_save_exact_witness : exists draft next,
  findDraft (w_state w1) (js "draft_1") Demo.admin org = Ok draft /\ dr_revision next = 2 /\
  identity next = identity draft /\ sealed_as (dr_artifact next) (dr_digest next) (dr_files next).
Proof.
  destruct save_state as [Hs Hne].
  destruct (draft_save_exact demo_parseDocument config demo_policy w1 update_body (Some (js "k2")) (js "draft_1")
              Demo.admin (js "audit_2") (Demo.t0 + 1000) (w_state w1) (fst save) (snd save) run_uploaded)
    as (n & value & inputs & draft & next & m & a & Hn & _ & _ & Hd & _ & _ & Hr & Hi & Hsl & _).
  - left.
  - apply surjective_pairing.
  - by rewrite Hs.
  - exists draft, next. split; [exact Hd|]. split; [|split; [exact Hi | exact Hsl]].
    rewrite Hr. apply (f_equal (fun r => match r with Ok z => z + 1 | Err _ => 0 end)) in Hn. cbn beta iota in Hn.
    rewrite <- Hn. vm_compute. reflexivity.
Defined.

(** Requests made for the first revision: the save again, a publication, and the
    decision to apply a proposal. *)
Definition stale_publish_route : DraftRoute :=
  RoutePublish (js "draft_1") (JObj [(js "expectedRevision", JNum (num_of_Z 1)); (js "version", JStr (js "1.0.0"))])
    (Some (js "k9")).
Abbreviation late route := (registry_drafts demo_parseDocument config validSemver (Some Demo.admin) route (ids "4")
  (Demo.t0 + 3000) Demo.t0 Demo.t0 (w_state w1) (w_state w1) (w_state w3)).
Abbreviation late_apply := (builderHandler org (Some Demo.admin) None BuilderDemo.draft1 BuilderDemo.apply_route (BuilderDemo.builder_ids "2") (Demo.t0 + 5000)
  (Demo.t0 + 5000) (w_state w1) (w_state w1) (w_state w1) (w_state w3)).
Lemma draft_no_lost_update_witness :
  fst (late stale_route) = w_state w3 /\ fst (late stale_publish_route) = w_state w3 /\ fst late_apply = w_state w3.
Proof.
  destruct (the_draft saved) as [d|] eqn:E; [|vm_compute in E; discriminate E].
  assert (Hid : dr_id d = BuilderDemo.draft1) by (vm_compute in E; injection E as <-; reflexivity).
  destruct (draft_no_lost_update demo_parseDocument config validSemver demo_policy w2 w3 d 1 run_saved) as (H1 & H2 & _).
  - unfold the_draft in E. by apply head_Some_elem_of in E.
  - vm_compute in E. injection E as <-. reflexivity.
  - exact run_from_saved.
  - rewrite Hid in H1, H2. split_and!.
    + eapply H1; [|apply surjective_pairing]. split; [reflexivity | vm_compute; reflexivity].
    + eapply H1; [|apply surjective_pairing]. split; [reflexivity | vm_compute; reflexivity].
    + eapply H2; [|apply surjective_pairing]. exists BuilderDemo.binding1. split; [vm_compute; reflexivity | reflexivity].
Defined.

Abbreviation again := (updateDraft org update_body (Some (js "k2")) (js "draft_1") Demo.admin (js "audit_9")
  (Demo.t0 + 3000) (w_state w3) (w_state w3)).
Lemma draft_save_replay_witness : fst again = w_state w3.
Proof.
  destruct save_state as [Hs Hne].
  destruct (draft_save_replay demo_parseDocument config demo_policy w1 w3 update_body (Some (js "k2")) (js "draft_1")
              Demo.admin (js "audit_2") (Demo.t0 + 1000) (w_state w1) (fst save) (snd save) (js "audit_9")
              (Demo.t0 + 3000) (fst again) (snd again) run_uploaded (surjective_pairing _))
    as (next & m & current & _ & Hn & Hc & Hk).
  - by rewrite Hs.
  - rewrite Hs. exact run_from_saved.
  - apply surjective_pairing.
  - apply Hk. apply (f_equal (fun r => match r with Ok z => z + 1 | Err _ => 0 end)) in Hn. cbn beta iota in Hn.
    replace (dr_revision next - 1 + 1) with (dr_revision next) in Hn by lia. rewrite <- Hn.
    apply (f_equal (fun r => match r with Ok d => dr_revision d | Err _ => 0 end)) in Hc. cbn beta iota in Hc.
    rewrite <- Hc. vm_compute. reflexivity.
Defined.

Abbreviation publish := (registry_publish demo_parseDocument config validSemver publish_body (Some (js "k3"))
  (js "draft_1") Demo.admin (ids "3") (Demo.t0 + 2000) (Demo.t0 + 2000) (Demo.t0 + 2000) (w_state w2) (w_state w2)).
Definition queued_operation : DraftPublishOperation := Eval vm_compute in
  match snd publish with
  | Ok (operation, _) => operation
  | Err _ => {| op_id := []; op_resourceId := []; op_version := []; op_revision := 0; op_digest := [] |}
  end.
Lemma publish_served : publish = (queued, Ok (queued_operation, false)).
Proof. vm_compute. reflexivity. Qed.
Lemma queued_new : queued <> w_state w2.
Proof. intros H. apply (f_equal (fun s => length (st_audit s))) in H. vm_compute in H. discriminate H. Qed.
Lemma publish_ids_fresh : ids_skillId (ids "3") ∉ sk_id <$> st_skills (w_state w2) /\
  ids_jobId (ids "3") ∉ jb_id <$> st_jobs (w_state w2).
Proof. split; apply (bool_decide_unpack _); vm_compute; exact I. Qed.

Lemma draft_publication_exact_witness : exists draft release,
  findDraft (w_state w2) (js "draft_1") Demo.admin org = Ok draft /\ sk_state release = Pending /\
  sk_artifact release = dr_artifact draft /\ sb_digest (sk_artifact release) = dr_digest draft.
Proof.
  destruct (draft_publication_exact demo_parseDocument config validSemver demo_policy w2 _ _ _ _ _ _ _ _ _ _ _
              run_saved (list_elem_of_here _ _) publish_served queued_new)
    as (draft & version & release & job & p & a & m & Hd & _ & _ & _ & _ & (Hst & _ & _ & Ha & Hg & _) & _).
  by exists draft, release.
Defined.

Lemma draft_operation_exists_witness : exists release,
  release ∈ st_skills queued /\ sk_id release = op_resourceId queued_operation /\
  sb_digest (sk_artifact release) = op_digest queued_operation.
Proof.
  destruct (draft_operation_exists demo_parseDocument config validSemver demo_policy w2 _ _ _ _ _ _ _ _ _ _ _ _
              run_saved (list_elem_of_here _ _) (proj1 publish_ids_fresh) (proj2 publish_ids_fresh) publish_served)
    as (release & Hin & Hid & _ & Hg).
  by exists release.
Defined.
End DraftWitness.
