(* ===== verification/BuilderSafety.v ===== *)
(** * What the builder guarantees

    Along every run of the registry: on the builder's routes the agent only
    proposes; a proposal takes effect once, on exactly the revision it was made
    for, with exactly the files its operations make; and a session has at most
    one prompt under way. *)

From Stdlib Require Import ZArith Lia.
From stdpp Require Import base list list_numbers strings sets.
From S2P Require Import Prelude Js Dates Numbers Json Wire Bundle Frontmatter Contracts Web Access Names PolicyEval.
From S2P Require Import State Registry Authoring Drafts SkillBuilder DraftHandlers Builder BuilderSessions DraftState.
From S2P Require Import DraftCommits BuilderCommits System Scenario DraftScenario.

Local Open Scope Z_scope.

Section BuilderSafety.
Context {DR : DateRuntime} {UT : UnicodeTables} {UR : UrlRuntime} {CO : Collation} {CR : Crypto} {BL : Blobs}.
Context (parseDocument : jstr -> option ydocument) (config : Configuration).
Abbreviation org := (cfg_organizationId config).
Abbreviation run := (run parseDocument config).

(** C3. Applying a proposal does exactly what was proposed: when an apply request
    changed the document, its caller is a publisher and not the agent, and the
    proposal was pending in the caller's own session, which was bound to the
    proposal's base revision; the draft was at that revision and digest; it
    keeps its identity and moves to the next revision, its files are the result
    of the proposal's operations on the files it had, and its digest is the one
    the proposal announced; in the same transaction the proposal becomes
    applied and the session is bound to the new revision.  Nothing else changes
    but an audit event, and the answer shows the proposal and the saved
    draft. *)
Theorem builder_apply_exact (policy : Policy) (w : World) principal toolIdentity draftId proposalId body key ids now
    commitNow state snapshot refreshed s' r :
  run (initial policy) w -> state ∈ w_all w ->
  builderHandler org principal toolIdentity draftId (RouteApply proposalId body key) ids now commitNow state snapshot
    refreshed (w_state w) = (s', r) ->
  s' <> w_state w ->
  exists p session proposal draft next audit manifest,
    (principal = Some p /\ assertPublisher p = Ok tt /\ isBuilderServiceRequest toolIdentity p = false) /\
    (findBuilderSession org (w_state w) draftId (bs_id session) = Some session /\
     find_proposal session proposalId p = Some proposal /\ bp_state proposal = ProposalPending /\
     bs_subject session = pr_subject p /\
     bs_draftRevision session = bp_baseRevision proposal /\ bs_draftDigest session = bp_baseDigest proposal) /\
    (findDraft (w_state w) draftId p org = Ok draft /\
     dr_revision draft = bp_baseRevision proposal /\ dr_digest draft = bp_baseDigest proposal) /\
    (identity next = identity draft /\ dr_revision next = bp_baseRevision proposal + 1 /\
     dr_digest next = bp_proposedDigest proposal /\
     applyBuilderOperations (dr_files draft) (bp_operations proposal) = Ok (dr_files next) /\
     sealed_as (dr_artifact next) (dr_digest next) (dr_files next)) /\
    s' = update_builder_session org draftId (bs_id session) (fun b =>
           with_session_proposals (update_first (is_proposal proposalId p)
             (with_proposal_state ProposalApplied (toISOString commitNow)) (bs_proposals b))
             (dr_revision next) (dr_digest next) (toISOString commitNow) b)
           (appendAudit audit (update_draft org draftId p next (w_state w))) /\
    compactManifest (dr_files next) = Ok manifest /\
    r = Ok (AnswerProposal {| rp_status := 200;
          rp_body := proposal_draft_wire (mark_applied proposal) (Some (dr_files draft))
                       (publicDraftWithManifest next manifest) |}).
Proof.
  intros I%run_inv Hst H Hne; [|apply initial_inv].
  apply builder_cases in H as [?|(p & internal & answer & -> & _ & Hi & Hp & -> & E)]; [done|].
  inversion E as [|? ? ? ? ? Ea|]; subst. apply apply_cases in Ea as [?|Ea]; [done|].
  eapply (apply_application _ (granted := fun _ => False)) in Ea as (b & q & d & next & a & m & A & Hm & ->); [|done..].
  destruct A as [Hb Hq Hpend Hsub [Hbr Hbd] Hd [Hr Hdig] Hf [Hn Hnd] Hid Hok _ Hs _].
  rewrite <- H2 in Hp. exists p, b, q, d, next, a, m. split_and!; try done. apply Hok.
Qed.

(** What the document says of a proposal is true, in every reachable document.
    A proposal on record never changes but to be applied or rejected, once.  One
    that is applied took effect: the draft stood at the base revision and digest
    of the proposal and was, at the next revision, the result of its operations,
    with the digest it announced.  Two applied proposals for the same revision
    of a draft are the same proposal. *)
Theorem builder_proposal_invariant (policy : Policy) (w : World) :
  run (initial policy) w ->
  (forall s p p', s ∈ w_all w -> offered (sessions s) p -> offered (sessions (w_state w)) p' -> bp_id p = bp_id p' ->
     proposal_step p p') /\
  (forall p, offered (sessions (w_state w)) p -> bp_state p = ProposalApplied -> applied_in w p) /\
  (forall s s' p p', s ∈ w_all w -> s' ∈ w_all w -> offered (sessions s) p -> offered (sessions s') p' ->
     bp_state p = ProposalApplied -> bp_state p' = ProposalApplied -> bp_draftId p = bp_draftId p' ->
     bp_baseRevision p = bp_baseRevision p' -> bp_id p = bp_id p').
Proof.
  intros I%run_inv; [|apply initial_inv]. split; [|split].
  - intros s p p'. apply (inv_proposals _ w I).
  - intros p Hp. apply (inv_applied _ w I (w_state w)); [by left | done].
  - intros s s' p p'. apply (inv_applied_once _ w I).
Qed.

(** C14. On the builder's routes the agent only proposes: a request to one of
    them under the agent's identity, whichever it is, changes nothing of the
    document but the list of builder sessions; no proposal on record changes,
    none is removed but to make room, and the only one that can be added is
    pending and has the fresh id.  A request to apply or reject under that
    identity changes nothing.  (The draft routes know no such identity: they
    judge every principal by its role and scopes.) *)
Theorem builder_agent_confined (policy : Policy) (w : World) p toolIdentity draftId route ids now commitNow
    state snapshot refreshed s' r :
  run (initial policy) w -> unused_proposal w (bi_proposalId ids) ->
  isBuilderServiceRequest toolIdentity p = true ->
  builderHandler org (Some p) toolIdentity draftId route ids now commitNow state snapshot refreshed (w_state w) = (s', r) ->
  only_sessions (w_state w) s' /\
  (forall q, offered (sessions s') q -> offered (sessions (w_state w)) q \/
     (bp_state q = ProposalPending /\ bp_id q = bi_proposalId ids)) /\
  (isBuilderInternalRoute route = false -> s' = w_state w).
Proof.
  intros I%run_inv Hid Hs H; [|apply initial_inv].
  apply builder_cases in H as [->|(p' & internal & answer & [= <-] & _ & -> & _ & -> & E)].
  { split; [apply only_sessions_same|]. auto. }
  rewrite Hs in E. inversion E as [body key s1 r1 Ep| |]; subst. clear E.
  apply (propose_move org (fun q => bp_id q = bi_proposalId ids) (fun _ => False)) in Ep as [Ho Hc]; [| | done |].
  - split; [done|]. split; [|done].
    pose proof (session_change_offers org _ _ Hc (inv_session_ids _ w I) (inv_sessions _ w I) (one_session_now _ w I)) as M.
    intros q Hq. destruct M as [Hk|q0 Hst Hf Hk|q0 q1 H0 _ _ Hv Hk]; [left; by apply Hk| |].
    + destruct (Hk q Hq) as [->|?]; auto.
    + destruct Hv.
  - apply I.
  - intros b Hb (q & Hq & Hin)%list_elem_of_fmap. by destruct (Hid (w_state w) q ltac:(by left) ltac:(by exists b)).
Qed.

(** Rejecting changes nothing but the state of one pending proposal: when a
    reject request changed the document, its caller is a publisher and not the
    agent, the proposal was pending in a session of the draft and proposed for
    the caller, and it becomes rejected; the draft, every other proposal and the
    revision the session is bound to stay, and an audit event is added.  The
    request is answered with success. *)
Theorem builder_reject_exact (policy : Policy) (w : World) principal toolIdentity draftId proposalId body key ids now
    commitNow state snapshot refreshed s' r :
  run (initial policy) w ->
  builderHandler org principal toolIdentity draftId (RouteReject proposalId body key) ids now commitNow state snapshot
    refreshed (w_state w) = (s', r) ->
  s' <> w_state w ->
  exists p session proposal audit,
    (principal = Some p /\ assertPublisher p = Ok tt /\ isBuilderServiceRequest toolIdentity p = false) /\
    (findBuilderSession org (w_state w) draftId (bs_id session) = Some session /\
     find_proposal session proposalId p = Some proposal /\ bp_state proposal = ProposalPending) /\
    is_ok r = true /\ drafts s' = drafts (w_state w) /\
    s' = appendAudit audit (update_builder_session org draftId (bs_id session) (fun b =>
           with_session_proposals (update_first (is_proposal proposalId p)
             (with_proposal_state ProposalRejected (toISOString now)) (bs_proposals b))
             (bs_draftRevision b) (bs_draftDigest b) (toISOString now) b) (w_state w)) /\
    (forall q, offered (sessions s') q -> offered (sessions (w_state w)) q \/
       (bp_state q = ProposalRejected /\ proposal_step proposal q)).
Proof.
  intros I%run_inv H Hne; [|apply initial_inv].
  apply builder_cases in H as [?|(p & internal & answer & -> & _ & Hi & Hp & -> & E)]; [done|].
  inversion E as [| |? ? ? ? ? Er]; subst. rewrite <- H2 in Hp.
  apply reject_cases in Er as [[? _]|(a & b & q & _ & Ha & Hb & Hq & Hpend & Hs)]; [done|].
  exists p, b, q, a. split_and!; try done.
  - by destruct answer.
  - by rewrite Hs.
  - intros q' Hq'. rewrite Hs in Hq'. pose proof (session_spec _ _ _ _ _ Hb) as (Hbin & _).
    pose proof (proposal_spec _ _ _ _ Hq) as (Hqin & Hqid & _).
    change (sessions (appendAudit a ?s)) with (sessions s) in Hq'. rewrite (sessions_update _ _ _ _ _ _ Hb) in Hq'.
    destruct Hq' as (c & [Hc|(x & Hx & ->)]%update_first_elem & Hin); [left; by exists c|].
    cbn [bs_proposals with_session_proposals] in Hin. apply update_first_elem in Hin as [Hin|(y & Hy & ->)]; [left; by exists b|].
    unfold find_proposal in Hq. rewrite Hq in Hy. injection Hy as <-. right. split; [done|]. apply decided_step; auto.
Qed.

(** C32. Every session, in every reachable document: at most 64 prompts under
    distinct names, at most one of them accepted and not answered, and at most
    32 proposals under distinct ids and keys, all made for the session's draft
    and subject.  A session is never lost, and never changes its owner, its
    draft or the agent session it talks to; the revision it is bound to does not
    go back. *)
Theorem builder_session_invariant (policy : Policy) (w : World) :
  run (initial policy) w ->
  (forall b, b ∈ sessions (w_state w) ->
     (length (bs_requests b) <= MAX_REQUESTS)%nat /\ NoDup (br_id <$> bs_requests b) /\
     (forall r r', r ∈ bs_requests b -> r' ∈ bs_requests b -> br_state r = RequestAccepted ->
        br_state r' = RequestAccepted -> r = r') /\
     (length (bs_proposals b) <= MAX_BUILDER_PROPOSALS)%nat /\ NoDup (bp_id <$> bs_proposals b) /\
     NoDup (bp_idempotencyKey <$> bs_proposals b) /\
     (forall p, p ∈ bs_proposals b -> bp_sessionId p = bs_id b /\ bp_draftId p = bs_draftId b /\
        bp_subject p = bs_subject b)) /\
  NoDup (bs_id <$> sessions (w_state w)) /\
  (forall s b, s ∈ w_all w -> b ∈ sessions s -> exists b', b' ∈ sessions (w_state w) /\
     session_identity b' = session_identity b /\ (bs_eveSessionId b <> [] -> bs_eveSessionId b' = bs_eveSessionId b) /\
     bs_draftRevision b <= bs_draftRevision b').
Proof.
  intros I%run_inv; [|apply initial_inv]. split; [|split; [apply I|]].
  - intros b Hb. pose proof (proj1 (Forall_forall _ _) (inv_sessions _ w I) _ Hb) as O. destruct (so_requests _ _ O).
    split_and!; try done; try apply O. intros p Hp. by destruct (so_belongs _ _ O _ Hp).
  - intros s b Hs Hb. apply (proj1 (Forall_forall _ _) (inv_session_history _ w I)) in Hs.
    apply (proj1 (Forall_forall _ _) Hs) in Hb as (b' & Hb' & [Hi He Hr]). exists b'. split_and!; try done.
    destruct Hr as [[-> _]|?]; lia.
Qed.

(** What a reservation found, and made. *)
Lemma reserve_spec sessionId requestId binding digest principal now s s' record :
  Forall (session_ok org) (sessions s) ->
  reserveRequest sessionId requestId binding digest principal now s = Ok (s', record) ->
  exists b, b ∈ sessions s /\ bs_id b = bs_id record /\ bs_subject b = pr_subject principal /\
    ((s' = s /\ record = b /\ br_state <$> request_of b requestId = Some RequestCompleted) \/
     (record ∈ sessions s' /\ bs_state b <> SessionRunning /\
      (forall r, r ∈ bs_requests b -> br_state r <> RequestAccepted) /\
      (exists r, r ∈ bs_requests record /\ br_id r = requestId /\ br_state r = RequestAccepted) /\
      (forall r, r ∈ bs_requests record -> br_state r = RequestAccepted -> br_id r = requestId) /\
      bs_activeRequestId record = Some requestId)).
Proof.
  intros Hall H. unfold reserveRequest in H. ok_step. apply owned_spec in E.
  pose proof (find_first_Some _ _ _ E) as [Hin Hown]. pose proof (proj1 (Forall_forall _ _) Hall _ Hin) as O.
  unfold is_owned in Hown. apply andb_true_iff in Hown as [[[_ _]%andb_true_iff Hsub%jeqb_true]%andb_true_iff _].
  ok_step. ok_step. exists a. destruct (bool_decide _) eqn:Ec.
  - injection H as <- <-. apply bool_decide_eq_true in Ec. split_and!; try done. by left.
  - ok_inv. split_and!; try done. right. destruct a1.
    pose proof (reservable_free a requestId (so_requests _ _ O) E1) as Hfree.
    assert (Hrun : bs_state a <> SessionRunning).
    { unfold assert_reservable in E1. ok_inv.
      match goal with H : _ || bool_decide (bs_state a = SessionRunning) = false |- _ => apply orb_false_iff in H as [_ H] end.
      by eapply bool_decide_eq_false. }
    apply remember_spec in E2 as ((r & Hr & Hid & Hst & _) & Hold & _).
    split; [|split; [done | split; [done | split; [by exists r | split; [|done]]]]].
    + rewrite sessions_change. exact (update_first_found _ (fun _ => with_progress _ a) _ _ E).
    + intros r' Hr' Hst'. destruct (decide (br_id r' = requestId)) as [|Hne]; [done|]. by destruct (Hfree r' (Hold r' Hr' Hne)).
Qed.
(** A session has one prompt under way: when the facade accepts a prompt, either
    it was already answered, and nothing changes; or no prompt of the session
    was accepted and unanswered and the agent was not running, no other prompt
    is of uncertain outcome, and now this one, and no other, is accepted. *)
Theorem builder_prompt_exclusive (policy : Policy) (w : World) publicOrigin headers revisions digests draftId principal
    sessionId body now bound snapshot s' request record :
  run (initial policy) w ->
  builderBffHandler org publicOrigin headers revisions digests draftId principal (PromptSession sessionId body) now bound
    snapshot (w_state w) = (s', Ok (AnswerReserved request record)) ->
  let id := pq_requestId request in
  exists b, b ∈ sessions (w_state w) /\ bs_id b = bs_id record /\ bs_subject b = pr_subject principal /\
    ((s' = w_state w /\ record = b /\ br_state <$> request_of b id = Some RequestCompleted) \/
     (record ∈ sessions s' /\ bs_state b <> SessionRunning /\
      (forall r, r ∈ bs_requests b -> br_state r <> RequestAccepted) /\
      (exists r, r ∈ bs_requests record /\ br_id r = id /\ br_state r = RequestAccepted) /\
      (forall r, r ∈ bs_requests record -> br_state r = RequestAccepted -> br_id r = id) /\
      bs_activeRequestId record = Some id)).
Proof.
  intros I%run_inv H; [|apply initial_inv]. cbv zeta. unfold builderBffHandler in H.
  destruct (bff_admission _ _ _ _ _ _ _ _) as [binding|]; [|done]. unfold bff_answered in H.
  destruct (sendPrompt _ _ _ _ _ _ _) as [s1 r1] eqn:E. cbn [fst snd] in H. injection H as -> Hr.
  destruct r1 as [[request' record']|]; [|done]. cbn [fst snd] in Hr. injection Hr as -> ->.
  unfold sendPrompt in E. destruct (rbind _ _) as [[s2 r2]|] eqn:Es; cbn [uncommitted_as] in E; [|done].
  injection E as -> ->. ok_inv. destruct a5 as [s3 b3]. ok_inv. cbn [pq_requestId].
  eapply reserve_spec; [apply I | exact E5].
Qed.
End BuilderSafety.

(** ** Witnesses *)

Module BuilderWitness.
Import DraftDemo BuilderDemo.
#[local] Existing Instance iso_runtime.
#[local] Existing Instance ascii_tables.
#[local] Existing Instance no_urls.
#[local] Existing Instance unit_collation.
#[local] Existing Instance crypto.
#[local] Existing Instance blobs.

Abbreviation apply4 := (request Demo.admin None apply_route "2" (Demo.t0 + 5000) b4).
Lemma apply_served : fst apply4 = applied /\ applied <> w_state b4.
Proof.
  split; [vm_compute; reflexivity|]. intros H. apply (f_equal (fun s => length (st_audit s))) in H. vm_compute in H.
  discriminate H.
Qed.
Lemma builder_apply_exact_witness : exists proposal draft next,
  bp_id proposal = js "proposal_1" /\ bp_state proposal = ProposalPending /\
  findDraft (w_state b4) draft1 Demo.admin org = Ok draft /\
  applyBuilderOperations (dr_files draft) (bp_operations proposal) = Ok (dr_files next) /\
  dr_digest next = bp_proposedDigest proposal.
Proof.
  destruct apply_served as [Hs Hne].
  destruct (builder_apply_exact demo_parseDocument config demo_policy b4 (Some Demo.admin) None draft1 (js "proposal_1")
              apply_body (Some (js "a1")) (builder_ids "2") (Demo.t0 + 5000) (Demo.t0 + 5000) (w_state b4) (w_state b4)
              (w_state b4) (fst apply4) (snd apply4) run_proposed)
    as (p & b & q & d & next & a & m & (Hp & _) & (_ & Hq & Hst & _) & (Hd & _) & (_ & _ & Hdig & Hf & _) & _).
  - left.
  - apply surjective_pairing.
  - by rewrite Hs.
  - injection Hp as <-. exists q, d, next. split; [|split_and!; assumption].
    unfold find_proposal in Hq. apply find_first_Some in Hq as [_ [Hid _]%andb_true_iff]. by apply jeqb_true.
Defined.

Definition proposal_of (s : RegistryState) : option SkillBuilderProposalRecord := the_session s ≫= fun b => head (bs_proposals b).
Lemma applied_proposal : exists p, proposal_of applied = Some p /\ bp_state p = ProposalApplied /\
  offered (sessions (w_state b5)) p.
Proof.
  eexists. split; [vm_compute; reflexivity|]. split; [reflexivity|]. eexists. split; [by left | by left].
Qed.
Lemma builder_proposal_invariant_witness : exists p, proposal_of applied = Some p /\ applied_in b5 p.
Proof.
  destruct (builder_proposal_invariant demo_parseDocument config demo_policy b5 run_applied) as (_ & H & _).
  destruct applied_proposal as (p & E & Hs & Ho). exists p. split; [exact E | exact (H p Ho Hs)].
Defined.

Abbreviation propose3 := (request agent tool propose_route "1" (Demo.t0 + 4000) b3).
Lemma builder_agent_confined_witness : only_sessions (w_state b3) (fst propose3) /\
  forall q, offered (sessions (fst propose3)) q ->
    offered (sessions (w_state b3)) q \/ (bp_state q = ProposalPending /\ bp_id q = js "proposal_1").
Proof.
  destruct (builder_agent_confined demo_parseDocument config demo_policy b3 agent tool draft1 propose_route
              (builder_ids "1") (Demo.t0 + 4000) (Demo.t0 + 4000) (w_state b3) (w_state b3) (w_state b3)
              (fst propose3) (snd propose3) run_accepted) as (H1 & H2 & _).
  - apply unused_dec. apply (bool_decide_unpack _). vm_compute. exact I.
  - vm_compute. reflexivity.
  - apply surjective_pairing.
  - split; [exact H1 | exact H2].
Defined.

Definition reject_route : BuilderRoute := RouteReject (js "proposal_1") apply_body (Some (js "x1")).
Abbreviation reject4 := (request Demo.admin None reject_route "3" (Demo.t0 + 6000) b4).
Lemma reject_changes : fst reject4 <> w_state b4.
Proof.
  intros H. apply (f_equal (fun s => length (st_audit s))) in H. vm_compute in H. discriminate H.
Qed.
Lemma builder_reject_exact_witness : is_ok (snd reject4) = true /\ drafts (fst reject4) = drafts (w_state b4).
Proof.
  destruct (builder_reject_exact demo_parseDocument config demo_policy b4 (Some Demo.admin) None draft1 (js "proposal_1")
              apply_body (Some (js "x1")) (builder_ids "3") (Demo.t0 + 6000) (Demo.t0 + 6000) (w_state b4) (w_state b4)
              (w_state b4) (fst reject4) (snd reject4) run_proposed)
    as (p & b & q & a & _ & _ & Hok & Hd & _).
  - apply surjective_pairing.
  - exact reject_changes.
  - split; [exact Hok | exact Hd].
Defined.

Lemma applied_session : exists b, the_session applied = Some b /\ b ∈ sessions (w_state b5).
Proof. eexists. split; [vm_compute; reflexivity | by left]. Qed.
Lemma builder_session_invariant_witness : exists b, the_session applied = Some b /\
  (length (bs_requests b) <= MAX_REQUESTS)%nat /\ NoDup (bp_id <$> bs_proposals b).
Proof.
  destruct (builder_session_invariant demo_parseDocument config demo_policy b5 run_applied) as [H _].
  destruct applied_session as (b & E & Hb). destruct (H b Hb) as (H1 & _ & _ & _ & H2 & _).
  exists b. split; [exact E | split; [exact H1 | exact H2]].
Defined.

Abbreviation prompt1 := (facade prompt_operation (Demo.t0 + 2000) b1).
Lemma prompt_served : prompt1 = (reserved, Ok (AnswerReserved request1 reserved_session)).
Proof. vm_compute. reflexivity. Qed.
Lemma builder_prompt_exclusive_witness : exists b, b ∈ sessions (w_state b1) /\ bs_id b = bs_id reserved_session /\
  bs_subject b = pr_subject Demo.admin.
Proof.
  destruct (builder_prompt_exclusive demo_parseDocument config demo_policy b1 _ _ _ _ _ _ _ _ _ _ _ _ _ _
              run_opened prompt_served) as (b & Hb & Hid & Hs & _).
  by exists b.
Defined.
End BuilderWitness.
