(* ===== verification/JobSafety.v ===== *)
(** * Leases and completion

    What the lease protocol of [Jobs.v] guarantees: a completion counts only
    under the current lease and only once, a claim takes a job away from every
    earlier holder, evidence produced under an outdated policy decides nothing,
    and a release approved by a completion is served from then on. *)

From Stdlib Require Import ZArith Lia.
From stdpp Require Import base list strings sets.
From S2P Require Import Prelude Js Dates Bundle Frontmatter Contracts Web Access Names PolicyEval.
From S2P Require Import Resolve ScanEvidence State Registry Jobs Imports System Scenario Safety.

Local Open Scope Z_scope.

Section JobSafety.
Context {DR : DateRuntime} {UT : UnicodeTables} {UR : UrlRuntime} {CO : Collation} {CR : Crypto} {BL : Blobs}.
Context (parseDocument : jstr -> option ydocument) (config : Configuration).
Abbreviation org := (cfg_organizationId config).
Abbreviation LEASE_FENCED := (api_error "LEASE_FENCED" 409).

(** ** Looking a job up after a change *)

Lemma find_job_update s id f job :
  (forall j, jb_id (f j) = jb_id j) -> find_job s id = Some job ->
  find_job (update_job id f s) id = Some (f job).
Proof. intros Hf Hj. apply find_first_update; [done|]. intros y. by rewrite Hf. Qed.
Lemma set_error_fields e j : jb_id (set_error e j) = jb_id j /\
  jb_organizationId (set_error e j) = jb_organizationId j /\ jb_policy (set_error e j) = jb_policy j /\
  jb_policyRevision (set_error e j) = jb_policyRevision j /\ jb_state (set_error e j) = jb_state j.
Proof. unfold set_error. by destruct (non_empty e). Qed.
Lemma finished_id e now j : jb_id (finished e now j) = jb_id j.
Proof. unfold finished. by destruct (set_error_fields e (clear_lease
  (with_jb_updatedAt (toISOString now) (with_jb_state JCompleted j)))) as (-> & _). Qed.
Lemma finished_state e now j : jb_state (finished e now j) = JCompleted.
Proof. unfold finished. by destruct (set_error_fields e (clear_lease
  (with_jb_updatedAt (toISOString now) (with_jb_state JCompleted j)))) as (_ & _ & _ & _ & ->). Qed.
Lemma find_skill_update s id f x :
  (forall y, sk_id (f y) = sk_id y) -> find_skill s id = Some x ->
  find_skill (update_skill id f s) id = Some (f x).
Proof. intros Hf Hj. apply find_first_update; [done|]. intros y. by rewrite Hf. Qed.

(** Without a running job under the caller's token nothing is committed. *)
Lemma commit_fenced id principal requestId auditId skillId now completion fallback current :
  st_schemaVersion current = 1 ->
  (forall job, find_job current id = Some job -> fenced (cp_leaseToken completion) now job = true) ->
  complete_commit config id principal requestId auditId skillId now completion fallback current
    = Err LEASE_FENCED.
Proof.
  intros Hv Hf. unfold complete_commit.
  assert (ensureState (Some current) fallback = Ok (fill_collections current)) as ->
    by (unfold ensureState; cbn; by rewrite Hv). cbn [rbind].
  change (find_job (fill_collections current) id) with (find_job current id).
  destruct (find_job current id) as [job|] eqn:E; [|done]. by rewrite (Hf job).
Qed.

(** A commit needs the running job and its token; afterwards the job does not
    run, and it is queued again exactly when the policy has changed. *)
Lemma commit_running id principal requestId auditId skillId now completion fallback current s' r :
  complete_commit config id principal requestId auditId skillId now completion fallback current
    = Ok (s', r) ->
  st_schemaVersion s' = 1 /\
  (exists job, find_job current id = Some job /\ fenced (cp_leaseToken completion) now job = false /\
     (jb_state r = JQueued <-> po_revision (st_policy current) <> jb_policyRevision job)) /\
  find_job s' id = Some r /\ jb_state r <> JRunning.
Proof.
  unfold complete_commit. intros H. ok_inv. apply ensureState_ok in E as [-> Hv].
  destruct (find_job _ id) as [job|] eqn:Ej; [|done]. ok_inv.
  assert (Hq : forall P Q : Prop, P -> Q -> (P <-> Q)) by tauto.
  assert (Hn : forall P Q : Prop, ~ P -> ~ Q -> (P <-> Q)) by tauto.
  destruct (negb _) eqn:Epol.
  { apply negb_true_iff, jeqb_false in Epol. ok_inv. split; [by destruct (non_empty _)|].
    split; [by eexists; split_and!; [..|apply Hq]|]. split; [|done]. destruct (non_empty _); by apply (find_job_update _ id (requeued _ _)). }
  apply negb_false_iff, jeqb_true in Epol.
  assert (Hp : ~ po_revision (st_policy current) <> jb_policyRevision job) by (intros Hne; by apply Hne).
  ok_inv. destruct (cp_error completion) as [error|].
  { ok_inv. split; [by destruct (non_empty _)|].
    split; [by eexists; split_and!; [..|apply Hn]|]. split; [|done]. destruct (non_empty _); by apply (find_job_update _ id (failed _ _)). }
  destruct (jb_kind job); [unfold complete_scan in H | unfold complete_import in H].
  - destruct (match non_empty _ with Some _ => _ | None => _ end) as [skill|]; [|done].
    destruct (jb_artifact job); [|done]. ok_inv. split; [done|].
    split; [by eexists; split_and!; [..|apply Hn; [rewrite finished_state|]]|].
    rewrite finished_state. split; [|done].
    apply (find_job_update _ id (finished _ _)); [intros; apply finished_id | done].
  - destruct (jb_import job); [|done]. destruct (cp_imported completion); [|done]. ok_inv.
    split; [done|].
    split; [by eexists; split_and!; [..|apply Hn; [unfold imported_job; rewrite finished_state|]]|].
    unfold imported_job. rewrite finished_state. split; [|done].
    apply (find_job_update _ id (imported_job _ _ _)); [|done].
    intros j. unfold imported_job. by rewrite finished_id.
Qed.

Lemma not_running_fenced token now job : jb_state job <> JRunning -> fenced token now job = true.
Proof. intros H. unfold fenced. by rewrite bool_decide_false. Qed.
Lemma fenced_false token now job : fenced token now job = false ->
  jb_state job = JRunning /\ jb_leaseToken job = Some token /\
  timestampExpired (jb_leaseExpiresAt job) now = false.
Proof. unfold fenced. intros H. bool_inv. auto. Qed.

(** ** A job after its completion *)

(** A job that is over stays over. *)
Record job_over (j j' : Job) : Prop := {
  jv_id : jb_id j' = jb_id j;
  jv_over : active j = false -> active j' = false;
}.
#[export] Instance job_over_preorder : PreOrder job_over.
Proof. split; [by intros x; split|]. intros x y z [] []. split; [congruence | auto]. Qed.
Lemma find_job_later w w' id job job' : inv config w -> run parseDocument config w w' ->
  find_job (w_state w) id = Some job -> find_job (w_state w') id = Some job' -> job_over job job'.
Proof.
  intros I Hrun [Hin Hid]%find_job_Some [Hin' Hid']%find_job_Some.
  destruct (run_history parseDocument config st_jobs job_over w w' job) as (j & Hj & Ho); [|done|done|done|].
  - intros g v s' D. eexists. destruct (d_jobs _ _ _ D) as [l H|x Hx]; [|by apply Added].
    apply Changed. eapply Forall2_impl; [exact H|]. intros x y [Hxid _ _ _ _ _ Hact _]. split; [done|].
    intros Hx. destruct (active y); [by rewrite Hact in Hx | done].
  - assert (j = job') as ->; [|done]. pose proof (run_inv _ _ _ _ I Hrun) as I'.
    apply (NoDup_key_inj jb_id (st_jobs (w_state w'))); [apply I' | done | done |].
    rewrite (jv_id _ _ Ho). congruence.
Qed.
(** A job runs under a token only if it did before or the token was handed out
    since. *)
Definition handed_out (w w' : World) (token : jstr) : Prop :=
  exists w1 w2, run parseDocument config w w1 /\ claimed config w1 w2 token /\ run parseDocument config w2 w'.
Definition runs_under (token : jstr) (j : Job) : Prop := jb_state j = JRunning /\ jb_leaseToken j = Some token.
Lemma running_under w w' id token : inv config w -> run parseDocument config w w' ->
  (forall job, job ∈ st_jobs (w_state w) -> jb_id job = id -> ~ runs_under token job) ->
  forall job, job ∈ st_jobs (w_state w') -> jb_id job = id -> runs_under token job -> handed_out w w' token.
Proof.
  intros I Hrun H0. induction Hrun as [|v v' Hr IH Hs]; intros job Hjob Hid Hunder; [by destruct (H0 job)|].
  destruct (step_delta parseDocument config v v' (run_inv _ _ _ _ I Hr) Hs) as (s' & -> & D).
  destruct (change_back _ _ _ _ _ (d_jobs _ _ _ D) Hjob) as [(x & Hx & Hst)|[Hnew _]].
  - destruct Hunder as [Hrun Htok]. destruct (js_running _ _ _ _ Hst Hrun) as [[Hxr Hxt]|(token' & Ht & Hg)].
    + destruct (IH x Hx) as (w1 & w2 & H1 & Hc & H2); [by rewrite <- (js_id _ _ _ _ Hst)|split; congruence|].
      exists w1, w2. split_and!; [done..|]. by eapply run_step.
    + assert (token' = token) as -> by congruence. exists v, (commit v s').
      split_and!; [done | done | apply run_refl].
  - destruct Hunder as [Hrun _]. by rewrite (nj_queued _ _ _ _ Hnew) in Hrun.
Qed.

(** C5. A completion is accepted only while the job runs under the token the worker
    presents and before that lease expires, checked inside the transaction.
    Afterwards the job does not run, and it is queued again only if the policy
    changed since it was queued.  If it is not, the job is over: in every later
    document every completion of it, whatever it carries, is fenced off.  If it
    is, it must be claimed again: a completion under the same token is fenced
    off in every later document, unless a claim handed out that very token
    again. *)
Theorem completion_fenced_once (policy : Policy) (w : World) (id : jstr) (body : jsval) (principal : Principal)
    (requestId auditId skillId : jstr) (now commitNow : Z) (snapshot s' : RegistryState) (r : Job) :
  run parseDocument config (initial policy) w -> skillId ∉ sk_id <$> st_skills (w_state w) ->
  completeJob parseDocument config id body principal requestId auditId skillId now commitNow snapshot
    (w_state w) = Ok (s', r) ->
  exists job token,
    (find_job (w_state w) id = Some job /\ stringValue (field body "leaseToken") = Some token /\
     jb_state job = JRunning /\ jb_leaseToken job = Some token /\
     timestampExpired (jb_leaseExpiresAt job) commitNow = false) /\
    (find_job s' id = Some r /\ jb_state r <> JRunning /\
     (jb_state r = JQueued <-> po_revision (st_policy (w_state w)) <> jb_policyRevision job)) /\
    forall w', run parseDocument config (commit w s') w' ->
      forall principal' requestId' auditId' skillId' now' completion fallback,
        let answer := complete_commit config id principal' requestId' auditId' skillId' now' completion fallback
                        (w_state w') in
        (jb_state r <> JQueued -> answer = Err LEASE_FENCED) /\
        (cp_leaseToken completion = token -> answer = Err LEASE_FENCED \/ handed_out (commit w s') w' token).
Proof.
  intros I%run_inv Hfresh H; [|apply initial_inv]. pose proof H as H'. unfold completeJob in H. ok_step.
  assert (Htok : stringValue (field body "leaseToken") = Some (cp_leaseToken a)).
  { unfold complete_prepare in E. ok_inv. by apply require_Ok in E0. }
  apply commit_running in H as (_ & (job & Hjob & Hf & Hq) & Hr & Hst). apply fenced_false in Hf as (Hrun & Ht & Hexp).
  assert (I1 : inv config (commit w s')).
  { eapply (inv_delta config (granted := fun _ => False)); [exact I|]. by eapply complete_delta. }
  exists job, (cp_leaseToken a). split; [done|]. split; [done|]. intros w' Hrun' principal' requestId' auditId' skillId'
    now' completion fallback answer. subst answer. pose proof (run_inv _ _ _ _ I1 Hrun') as I'. split.
  - intros Hover. apply commit_fenced; [apply I'|]. intros job' Hjob'. apply not_running_fenced.
    pose proof (jv_over _ _ (find_job_later _ _ id r job' I1 Hrun' Hr Hjob')) as Hv. unfold active in Hv.
    by destruct (jb_state r), (jb_state job'); try (specialize (Hv eq_refl)).
  - intros Hsame. destruct (find_job (w_state w') id) as [job'|] eqn:Ej.
    + destruct (decide (jb_state job' = JRunning)) as [Hjr|Hjr];
        [destruct (decide (jb_leaseToken job' = Some (cp_leaseToken a))) as [Hjt|Hjt]|].
      * right. apply find_job_Some in Ej as [Hin Hid]. eapply running_under; [exact I1 | exact Hrun' | | done | done | done].
        intros j Hj Hjid [Hjrun _]. assert (j = r) as ->; [|done]. apply find_job_Some in Hr as [Hrin Hrid].
        apply (NoDup_key_inj jb_id (st_jobs s')); [apply I1 | done | done | congruence].
      * left. apply commit_fenced; [apply I'|]. intros j Hj. assert (j = job') as -> by congruence.
        unfold fenced. rewrite (bool_decide_false (jb_leaseToken _ = _)) by congruence. by rewrite orb_true_r.
      * left. apply commit_fenced; [apply I'|]. intros j Hj. assert (j = job') as -> by congruence.
        by apply not_running_fenced.
    + left. apply commit_fenced; [apply I'|]. intros j Hj. congruence.
Qed.

(** ** Claims *)

(** A claim hands out one job that was queued or whose lease had run out, under
    the new token and with one more attempt; from then on a completion with any
    other token, in particular that of the previous holder, is fenced off. *)
Theorem claim_takes_over (principal : Principal) (requestId leaseToken auditId : jstr) (now : Z)
    (current s' : RegistryState) (wj : WorkerJob) :
  claimJob config principal requestId leaseToken auditId now current = Ok (s', Some wj) ->
  NoDup (jb_id <$> st_jobs current) ->
  exists job, job ∈ st_jobs current /\ wj_job wj = lease config leaseToken now job /\
    jb_organizationId job = org /\
    (jb_state job = JQueued \/
     jb_state job = JRunning /\ timestampExpired (jb_leaseExpiresAt job) now = true) /\
    find_job s' (jb_id job) = Some (wj_job wj) /\ wj_fencingToken wj = Some leaseToken /\
    forall principal' requestId' auditId' skillId' now' completion fallback,
      cp_leaseToken completion <> leaseToken ->
      complete_commit config (jb_id job) principal' requestId' auditId' skillId' now' completion fallback s'
        = Err LEASE_FENCED.
Proof.
  unfold claimJob. intros H Hnd. ok_inv. apply ensureState_ok in E as [-> Hv].
  destruct (find_first _ _) as [job|] eqn:Ef; [|by ok_inv]. ok_inv.
  pose proof (find_first_Some _ _ _ Ef) as [Hin Hc]. unfold claimable in Hc.
  apply andb_true_iff in Hc as [Ho Hc]. apply jeqb_true in Ho.
  set (s' := appendAudit _ _). exists job. split; [done|]. split; [done|]. split; [done|]. split.
  { apply orb_true_iff in Hc as [Hc|Hc]; bool_inv; auto. }
  assert (Hfind : find_job s' (jb_id job) = Some (lease config leaseToken now job)).
  { apply find_first_update_first; [done | apply jeqb_refl |]. intros y Hy Hid%jeqb_true.
    by apply (NoDup_key_inj jb_id (st_jobs current)). }
  split; [done|]. split; [done|]. intros. apply commit_fenced; [done|]. intros j Hj. simplify_eq.
  unfold fenced. rewrite (bool_decide_false (jb_leaseToken _ = _)) by (cbn; congruence).
  by rewrite orb_true_r.
Qed.
(** ** Verdicts *)

Lemma prepare_error id body now snapshot c :
  complete_prepare parseDocument config id body now snapshot = Ok c ->
  cp_error c = stringValue (field body "error").
Proof. unfold complete_prepare. intros H. by ok_inv. Qed.

(** The policy copy of a job under the current revision is the policy. *)
Lemma job_policy_current w job : inv config w -> job ∈ st_jobs (w_state w) ->
  jb_policyRevision job = po_revision (st_policy (w_state w)) ->
  jb_policy job = clonePolicy (st_policy (w_state w)).
Proof.
  intros I Hin Hrev. apply (proj1 (Forall_forall _ _) (inv_jobs _ _ I)) in Hin as [_ (p & Hp & Hc & Hr) _].
  rewrite Hc. f_equal. eapply (inv_policies _ _ I); [done | by left | congruence].
Qed.

(** The evidence of a release after a scan: some of the old, all of the new. *)
Lemma scans_of_scanned (s s' : RegistryState) x x' results :
  st_scans s' = st_scans s ++ results ->
  sk_scanIds x' = dedup (sk_scanIds x ++ (sr_id <$> results)) ->
  exists old, scans_of s' x' = old ++ results.
Proof.
  intros Hs Hi. unfold scans_of. rewrite Hs, List.filter_app.
  eexists. f_equal. rewrite Hi. clear Hs Hi.
  enough (Hall : forall l, l ⊆ results -> List.filter (fun scan => bool_decide
            (sr_id scan ∈ dedup (sk_scanIds x ++ (sr_id <$> results)))) l = l) by (by apply Hall).
  induction l as [|r l IH]; intros Hl; [done|]. cbn. rewrite bool_decide_true.
  - rewrite IH; [done|]. set_solver.
  - apply elem_of_dedup, elem_of_app. right. apply list_elem_of_fmap_2, Hl. by left.
Qed.

Lemma complete_scan_result id principal requestId auditId now results job mutable s' r :
  complete_scan config id principal requestId auditId now results job mutable = Ok (s', r) ->
  exists x, jb_resourceId job = Some (sk_id x) /\ find_skill mutable (sk_id x) = Some x /\
    let evaluation := evaluatePolicy (jb_policy job) results (sb_digest (sk_artifact x)) (sk_fileCount x) now in
    find_skill s' (sk_id x) = Some (scanned_skill now evaluation (jb_policyRevision job) results x) /\
    st_scans s' = st_scans mutable ++ results /\ st_policy s' = st_policy mutable.
Proof.
  unfold complete_scan. intros H.
  destruct (match non_empty _ with Some _ => _ | None => _ end) as [x|] eqn:Es; [|done].
  destruct (non_empty (jb_resourceId job)) as [rid|] eqn:Er; [|done].
  assert (Hrid : jb_resourceId job = Some rid) by (destruct (jb_resourceId job) as [[|]|]; cbn in Er; congruence).
  pose proof (find_skill_Some _ _ _ Es) as [_ <-].
  destruct (jb_artifact job) as [artifact|]; [|done]. ok_inv. bool_inv. apply jeqb_true in G.
  exists x. rewrite G. split; [done|]. split; [done|]. cbv zeta. split; [|done].
  apply (find_skill_update _ _ (scanned_skill _ _ _ _)); [|done].
  intros y. unfold scanned_skill, unless_revoked. cbv zeta. by repeat case_bool_decide.
Qed.

(** A completed scan gives the release the verdict of the policy in force on
    the reported results, with one exception: a release revoked meanwhile stays
    revoked.  And the verdict holds at once: a release this approves passes the
    gate of resolution and transfer in the new document. *)
Theorem scan_verdict_current (policy : Policy) (w : World) (id : jstr) (body : jsval)
    (principal : Principal) (requestId auditId skillId : jstr) (now commitNow : Z)
    (snapshot s' : RegistryState) (job r : Job) :
  run parseDocument config (initial policy) w ->
  find_job (w_state w) id = Some job -> jb_kind job = ScanJob ->
  jb_policyRevision job = po_revision (st_policy (w_state w)) ->
  stringValue (field body "error") = None ->
  completeJob parseDocument config id body principal requestId auditId skillId now commitNow snapshot
    (w_state w) = Ok (s', r) ->
  exists x x' results, jb_resourceId job = Some (sk_id x) /\
    find_skill (w_state w) (sk_id x) = Some x /\ find_skill s' (sk_id x) = Some x' /\
    st_scans s' = st_scans (w_state w) ++ results /\
    sk_state x' = (if decide (sk_state x = Revoked) then Revoked
                   else pe_state (evaluatePolicy (st_policy (w_state w)) results
                                    (sb_digest (sk_artifact x)) (sk_fileCount x) commitNow)) /\
    (sk_state x' = Approved -> skillCurrentlyApproved s' x' commitNow = true).
Proof.
  intros Hrun Hjob Hkind Hrev Herr H. apply run_inv in Hrun as I; [|apply initial_inv].
  pose proof (find_job_Some _ _ _ Hjob) as [Hin _].
  pose proof (job_policy_current w job I Hin Hrev) as Hpol.
  unfold completeJob in H. ok_step. apply prepare_error in E. rewrite Herr in E.
  unfold complete_commit in H. ok_inv. apply ensureState_ok in E0 as [-> _].
  change (find_job (fill_collections (w_state w)) id) with (find_job (w_state w) id) in H.
  rewrite Hjob in H. ok_inv. change (st_policy (fill_collections (w_state w))) with (st_policy (w_state w)) in H.
  rewrite Hrev, jeqb_refl, Hkind, E in H. cbn [negb bool_decide andb rbind] in H.
  apply complete_scan_result in H as (x & Hrid & Hx & Hx' & Hscans & Hp).
  rewrite Hpol, evaluatePolicy_clone in Hx'.
  set (e := evaluatePolicy _ _ _ _ _) in *. set (x' := scanned_skill _ _ _ _ _) in *.
  exists x, x', (cp_scanResults a). split; [done|]. split; [done|]. split; [done|]. split; [done|].
  assert (Hst : sk_state x' = if decide (sk_state x = Revoked) then Revoked else pe_state e).
  { unfold x', scanned_skill, unless_revoked. cbv zeta.
    destruct (decide (sk_state x = Revoked)); repeat case_bool_decide; cbn in *; congruence. }
  split; [done|]. intros Ha. apply skillCurrentlyApproved_iff.
  destruct (scanned_skill_fields commitNow e (jb_policyRevision job) (cp_scanResults a) x) as (Hr & Hi & Hs).
  destruct (scanned_skill_step commitNow e (jb_policyRevision job) (cp_scanResults a) x) as [_ _ _ _ Hart Hfc _ _ _].
  destruct (scans_of_scanned (w_state w) s' x x' (cp_scanResults a)) as [old Hold]; [done | done |].
  unfold x' in *. rewrite Hr, Hart, Hfc, Hold, Hp. split; [done|]. split; [done|].
  apply evaluatePolicy_extend. by apply Hs.
Qed.

(** Evidence for an outdated policy decides nothing: when the policy changed
    while the worker was busy, the job goes back to the queue under the policy
    in force, no result is stored, and the release is pending, or revoked if it
    was. *)
Theorem stale_policy_requeues (id : jstr) (body : jsval) (principal : Principal)
    (requestId auditId skillId : jstr) (now commitNow : Z) (snapshot current s' : RegistryState)
    (job r : Job) :
  find_job current id = Some job ->
  jb_policyRevision job <> po_revision (st_policy current) ->
  completeJob parseDocument config id body principal requestId auditId skillId now commitNow snapshot
    current = Ok (s', r) ->
  find_job s' id = Some r /\ jb_state r = JQueued /\ jb_leaseToken r = None /\
  jb_policy r = clonePolicy (st_policy current) /\ jb_policyRevision r = po_revision (st_policy current) /\
  st_scans s' = st_scans current /\ length (st_skills s') = length (st_skills current) /\
  (forall rid x, jb_resourceId job = Some rid -> rid <> [] -> find_skill s' rid = Some x ->
     sk_state x = Revoked \/ sk_state x = Pending /\ sk_policyRevision x = po_revision (st_policy current)).
Proof.
  intros Hjob Hrev H. unfold completeJob in H. ok_step. unfold complete_commit in H. ok_inv.
  apply ensureState_ok in E0 as [-> _].
  change (find_job (fill_collections current) id) with (find_job current id) in H.
  rewrite Hjob in H. ok_inv. change (st_policy (fill_collections current)) with (st_policy current) in H.
  rewrite (proj2 (jeqb_false _ _)) in H by congruence. cbn [negb] in H. ok_inv.
  split; [destruct (non_empty _); by apply (find_job_update _ id (requeued _ _))|].
  do 4 (split; [done|]). split; [by destruct (non_empty _)|].
  assert (Hlen : forall (p : SkillVersion -> bool) f l, length (update_first p f l) = length l).
  { intros p f l. induction l as [|y l IH]; cbn; [done|]. destruct (p y); cbn; congruence. }
  split; [destruct (non_empty _); [apply Hlen | done]|].
  intros rid x Hr Hne Hx. rewrite Hr in Hx. destruct rid as [|c rid]; [done|]. cbn [non_empty] in Hx.
  set (s1 := update_job _ _ _) in Hx.
  change (find_skill (update_skill (c :: rid) (stale_skill (st_policy current)) s1) (c :: rid) = Some x) in Hx.
  destruct (find_skill s1 (c :: rid)) as [y|] eqn:Ey.
  - erewrite (find_skill_update _ _ (stale_skill _)) in Hx; [|intros z; unfold stale_skill, unless_revoked; by case_bool_decide|done].
    injection Hx as <-. unfold stale_skill, unless_revoked. case_bool_decide; [by left|]. by right.
  - unfold update_skill, find_skill in Hx. cbn in Hx. rewrite update_first_nomatch in Hx by done.
    unfold find_skill in Ey. cbn in Ey. congruence.
Qed.
End JobSafety.

(** ** Witnesses *)

#[local] Existing Instances iso_runtime ascii_tables no_urls unit_collation Demo.crypto Demo.blobs.

Lemma completion_fenced_once_witness : exists r,
  Demo.complete = Ok (Demo.approved, r) /\ find_job Demo.approved (js "job_1") = Some r /\
  forall now' completion, complete_commit Demo.config (js "job_1") Demo.worker (js "req") (js "audit_9") (js "skill_9") now'
    completion demo_policy Demo.approved = Err (api_error "LEASE_FENCED" 409).
Proof.
  destruct Demo.complete_ok as [r Hr]. exists r. split; [exact Hr|].
  assert (Hrun : run demo_parseDocument Demo.config Demo.w0 Demo.w2)
    by exact (run_step _ _ _ _ _ (run_step _ _ _ _ _ (run_refl _ _ _) Demo.step_1) Demo.step_2).
  assert (Hnew : js "skill_2" ∉ sk_id <$> st_skills (w_state Demo.w2))
    by (apply (bool_decide_unpack _); vm_compute; exact I).
  destruct (completion_fenced_once _ _ demo_policy Demo.w2 _ _ _ _ _ _ _ _ _ _ r Hrun Hnew Hr)
    as (job & token & _ & (Hf & _ & _) & Hall).
  split; [exact Hf|]. intros now' completion.
  apply (Hall (commit Demo.w2 Demo.approved) (run_refl _ _ _)).
  vm_compute in Hf. injection Hf as <-. vm_compute. discriminate.
Defined.

Lemma claim_takes_over_witness : exists wj,
  Demo.claim = Ok (Demo.claimed, Some wj) /\
  exists job, job ∈ st_jobs Demo.published /\ jb_state job = JQueued /\
    find_job Demo.claimed (jb_id job) = Some (wj_job wj).
Proof.
  assert (H : exists wj, Demo.claim = Ok (Demo.claimed, Some wj)) by (eexists; vm_compute; reflexivity).
  destruct H as [wj H]. exists wj. split; [exact H|].
  destruct (claim_takes_over _ _ _ _ _ _ _ _ _ H) as (job & Hin & _ & _ & Hst & Hf & _).
  { apply (bool_decide_unpack _). vm_compute. exact I. }
  exists job. split; [exact Hin|]. split; [|exact Hf].
  destruct Hst as [Hst|[Hst _]]; [exact Hst|]. exfalso.
  apply list_elem_of_singleton in Hin. subst job. discriminate Hst.
Defined.

Lemma scan_verdict_current_witness : exists x',
  find_skill Demo.approved (js "skill_1") = Some x' /\ sk_state x' = Approved /\
  skillCurrentlyApproved Demo.approved x' (Demo.t0 + 2000) = true.
Proof.
  destruct Demo.complete_ok as [r Hr].
  destruct (find_job (w_state Demo.w2) (js "job_1")) as [job|] eqn:Ej; [|discriminate Ej].
  assert (Hrun : run demo_parseDocument Demo.config Demo.w0 Demo.w2)
    by exact (run_step _ _ _ _ _ (run_step _ _ _ _ _ (run_refl _ _ _) Demo.step_1) Demo.step_2).
  assert (Hkind : jb_kind job = ScanJob) by (vm_compute in Ej; injection Ej as <-; reflexivity).
  assert (Hrev : jb_policyRevision job = po_revision (st_policy (w_state Demo.w2)))
    by (vm_compute in Ej; injection Ej as <-; reflexivity).
  assert (Herr : stringValue (field Demo.completion_body "error") = None) by reflexivity.
  destruct (scan_verdict_current _ _ demo_policy Demo.w2 _ _ _ _ _ _ _ _ _ _ job _ Hrun Ej Hkind Hrev
              Herr Hr) as (x & x' & results & Hrid & _ & Hx' & _ & _ & Hc).
  assert (Hid : sk_id x = js "skill_1") by (vm_compute in Ej; injection Ej as <-; injection Hrid as Hrid; rewrite <- Hrid; reflexivity).
  rewrite Hid in Hx'. exists x'. split; [exact Hx'|].
  assert (Ha : sk_state x' = Approved) by (vm_compute in Hx'; injection Hx' as <-; reflexivity).
  split; [exact Ha | exact (Hc Ha)].
Defined.

Definition demo_policy_changed : RegistryState :=
  with_st_policy (with_po_revision (js "policy-2") demo_policy) Demo.claimed.
Lemma stale_policy_requeues_witness : exists s' r,
  completeJob demo_parseDocument Demo.config (js "job_1") Demo.completion_body Demo.worker
    (js "req") (js "audit_3") (js "skill_2") (Demo.t0 + 2000) (Demo.t0 + 2000) Demo.claimed
    demo_policy_changed = Ok (s', r) /\ jb_state r = JQueued /\ st_scans s' = [].
Proof.
  destruct (completeJob demo_parseDocument Demo.config (js "job_1") Demo.completion_body Demo.worker
    (js "req") (js "audit_3") (js "skill_2") (Demo.t0 + 2000) (Demo.t0 + 2000) Demo.claimed
    demo_policy_changed) as [[s' r]|] eqn:E; [|vm_compute in E; discriminate E].
  exists s', r. split; [reflexivity|].
  destruct (find_job demo_policy_changed (js "job_1")) as [job|] eqn:Ej; [|discriminate Ej].
  assert (Hrev : jb_policyRevision job <> po_revision (st_policy demo_policy_changed))
    by (vm_compute in Ej; injection Ej as <-; vm_compute; discriminate).
  destruct (stale_policy_requeues _ _ _ _ _ _ _ _ _ _ _ _ _ _ _ Ej Hrev E) as (_ & Hq & _ & _ & _ & Hs & _).
  split; [exact Hq | exact Hs].
Defined.
