(* ===== verification/InstallSafety.v ===== *)
(** * What an installation can obtain

    The guarantees of [Install.v]: authorizations and grants are for what is
    approved at the moment they are committed, transferred bytes are the
    approved bytes, and reporting an installation is idempotent. *)

From Stdlib Require Import ZArith Lia.
From stdpp Require Import base list strings sets.
From S2P Require Import Prelude Js Dates Bundle Frontmatter Contracts Web Access Names PolicyEval.
From S2P Require Import Resolve ScanEvidence State Install System Scenario.

Local Open Scope Z_scope.

Section InstallSafety.
Context {DR : DateRuntime} {CO : Collation} {CR : Crypto} {BL : Blobs}.
Context (config : Configuration).
Abbreviation org := (cfg_organizationId config).

(** ** Plans *)

(** A member of a plan that is still current is a release that is installable
    now, with the id, name, version and digest of the plan. *)
Lemma plan_member state principal now current r m :
  resolution_ok state principal now current -> same_plan current r -> m ∈ rs_members r ->
  exists x, installable state principal now x /\ member_key x = member_key m.
Proof.
  intros Hok Hsame Hm. injection Hsame as _ _ _ _ _ _ Hkeys.
  assert (Hin : member_key m ∈ member_key <$> rs_members current)
    by (rewrite Hkeys; by apply list_elem_of_fmap_2).
  apply list_elem_of_fmap in Hin as (x & Hx & Hin). exists x. split; [|done].
  by apply (proj1 (Forall_forall _ _) (ro_members _ _ _ _ Hok)).
Qed.

Lemma live_authorization_ok id principal now s a :
  live_authorization id principal now s = Ok a ->
  a ∈ st_authorizations s /\ ia_id a = id /\ ia_subject a = pr_subject principal /\
  timestampExpired (Some (ia_expiresAt a)) now = false /\
  exists current, resolution_ok s principal now current /\ same_plan current (ia_resolution a).
Proof.
  unfold live_authorization. destruct (find_first _ _) as [b|] eqn:E; [|done]. intros H. ok_inv.
  apply find_first_Some in E as [Hin Ho]. unfold owned_authorization in Ho. bool_inv.
  apply jeqb_true in H, Ho. apply assertCurrentResolution_ok in E0. auto 10.
Qed.

(** ** Theorems *)

(** An authorization is issued only for a plan that is current when it is
    committed: the same plan resolves then, so all its members are approved
    with current evidence and readable by the caller; it belongs to the caller
    and lasts a minute, its receipt ticket a day. *)
Theorem authorization_current (body : jsval) (principal : Principal) (requestId : jstr)
    (ids : AuthorizationIds) (now commitNow : Z) (snapshot current s' : RegistryState)
    (a : InstallAuthorization) (ticket : InstallReceiptTicketMetadata) :
  createInstallAuthorization config body principal requestId ids now commitNow snapshot current
    = Ok (s', (a, ticket)) ->
  (exists plan, resolution_ok current principal commitNow plan /\ same_plan plan (ia_resolution a)) /\
  st_authorizations s' = st_authorizations current ++ [a] /\
  ia_subject a = pr_subject principal /\ ia_organizationId a = org /\
  ia_expiresAt a = toISOString (now + 60000) /\
  tm_authorizationId ticket = ia_id a /\ tm_expiresAt ticket = toISOString (now + 86400000).
Proof.
  unfold createInstallAuthorization, authorization_prepare, authorization_commit. intros H. ok_inv.
  cbn [fst snd ia_resolution cloneResolution] in H. state_inv.
  destruct (resolveResource _ _ _ _ _ _) as [res plan| |] eqn:Er; try done. ok_inv.
  apply resolveResource_ok in Er as [Hok _]. apply negb_false_iff, sameResolution_spec in G.
  repeat split; try done. exists plan. by split; [destruct Hok; split|].
Qed.

(** A download grant is for bytes that are approved when it is committed: the
    caller's live authorization lists a release with the granted id and digest,
    which is in the registry, approved with current evidence and readable by
    the caller; the grant is the caller's own and lasts a minute. *)
Theorem grant_current (digest : jstr) (body : jsval) (principal : Principal)
    (requestId grantId auditId : jstr) (now commitNow : Z) (snapshot current s' : RegistryState)
    (g : TransferGrant) (size : Z) :
  createDownloadGrant config digest body principal requestId grantId auditId now commitNow snapshot current
    = Ok (s', (g, size)) ->
  (exists x, x ∈ st_skills current /\ sk_id x = tg_resourceId g /\
     sb_digest (sk_artifact x) = tg_digest g /\
     skillCurrentlyApproved current x commitNow = true /\
     canReadNamespace principal (sk_name x) = true) /\
  (exists a, a ∈ st_authorizations current /\ ia_id a = tg_authorizationId g /\
     ia_subject a = pr_subject principal /\
     timestampExpired (Some (ia_expiresAt a)) commitNow = false) /\
  st_grants s' = st_grants current ++ [g] /\ tg_digest g = digest /\
  tg_subject g = pr_subject principal /\ tg_organizationId g = org /\
  tg_expiresAt g = toISOString (commitNow + 60000).
Proof.
  unfold createDownloadGrant. intros H. ok_inv.
  destruct (stringValue _) as [resourceId|]; [|done]. destruct (stringValue _) as [authId|]; [|done]. ok_inv.
  state_inv.
  apply live_authorization_ok in E1 as (Hin & Hid & Hsub & Hexp & plan & Hok & Hsame).
  destruct (find_first _ _) as [m|] eqn:Em; [|done]. ok_inv.
  apply find_first_Some in Em as [Hm Hmatch]. bool_inv. apply jeqb_true in H, Hmatch.
  destruct (plan_member _ _ _ _ _ _ Hok Hsame Hm) as (x & (Hx & Ha & Hread) & Hkey).
  injection Hkey as Hxid _ Hdig _. cbn. split; [exists x; rewrite Hxid, Hdig, Hmatch; by split|].
  split; [by exists a1|]. by rewrite Hmatch.
Qed.

(** C9. What a transfer returns are the approved bytes: the grant belongs to the
    caller and has not expired, its authorization is still for a current plan,
    the release is approved with current evidence at this moment, and the bytes
    hash to the digest of both the grant and the release. *)
Theorem transfer_serves_approved (grantId : jstr) (principal : Principal) (now : Z)
    (state : RegistryState) (bytes : list Z) :
  serveTransferGrant config grantId principal now state = Ok bytes ->
  exists g a x, g ∈ st_grants state /\ tg_id g = grantId /\ tg_subject g = pr_subject principal /\
    tg_organizationId g = org /\ timestampExpired (Some (tg_expiresAt g)) now = false /\
    a ∈ st_authorizations state /\ ia_id a = tg_authorizationId g /\
    timestampExpired (Some (ia_expiresAt a)) now = false /\
    (exists plan, resolution_ok state principal now plan /\ same_plan plan (ia_resolution a)) /\
    x ∈ st_skills state /\ sk_id x = tg_resourceId g /\ skillCurrentlyApproved state x now = true /\
    sb_digest (sk_artifact x) = tg_digest g /\ digestBytes bytes = tg_digest g.
Proof.
  unfold serveTransferGrant. intros H.
  destruct (find_first _ (st_grants state)) as [g|] eqn:Eg; [|done]. ok_inv.
  destruct (find_first _ (st_authorizations state)) as [a|] eqn:Ea; [|done]. ok_inv.
  destruct (find_skill _ _) as [x|] eqn:Ex; [|done]. ok_inv.
  destruct (blob_get _) as [b|]; [|done]. ok_inv. bool_inv.
  apply find_first_Some in Eg as [Hg Hgid]. apply find_first_Some in Ea as [Ha Haid].
  apply find_skill_Some in Ex as [Hx Hxid]. apply assertCurrentResolution_ok in E.
  bool_inv. jeqb_inv.
  exists g, a, x. auto 20.
Qed.
(** ** Receipts *)

(** The receipt on record for an authorization, as a report sees it. *)
Definition on_record (input : InstallReceiptInput) (s : RegistryState) : option InstallReceipt :=
  find_first (fun r => jeqb (ir_authorizationId r) (ri_authorizationId input)) (receipts s).

Lemma receipt_commit_records input principal requestId receiptId auditId now mutable s' r status :
  receipt_commit config input principal requestId receiptId auditId now mutable = Ok (s', (r, status)) ->
  on_record input s' = Some r /\ ir_organizationId r = org /\ ir_subject r = pr_subject principal /\
  sameInstallReceiptInput r input = true /\ st_schemaVersion s' = st_schemaVersion mutable.
Proof.
  unfold receipt_commit. set (kept := List.filter _ _). intros H.
  destruct (find_first _ kept) as [existing|] eqn:Ef; ok_inv.
  - bool_inv. apply jeqb_true in H, G. done.
  - destruct (find_first (receipt_ticket _ _ _) _) as [ticket|]; [|done]. ok_inv. cbn. split.
    { apply find_first_app_None; [done | apply jeqb_refl]. }
    unfold sameInstallReceiptInput. cbn.
    by rewrite !bool_decide_true, jeqb_refl, Bool.eqb_reflx by done.
Qed.

(** A receipt on record answers every further report of its authorization. *)
Lemma receipt_commit_again input principal requestId receiptId auditId now mutable r :
  on_record input mutable = Some r -> retained now r = true ->
  ir_organizationId r = org -> ir_subject r = pr_subject principal ->
  receipt_commit config input principal requestId receiptId auditId now mutable =
  if sameInstallReceiptInput r input
  then Ok (with_st_installReceipts (Some (List.filter (retained now) (receipts mutable))) mutable, (r, 200))
  else Err (api_error "RECEIPT_CONFLICT" 409).
Proof.
  intros Hr Hk Ho Hs. unfold receipt_commit.
  rewrite (find_first_filter _ _ _ r Hr Hk). rewrite Ho, Hs, !jeqb_refl. cbn [negb orb].
  by destruct (sameInstallReceiptInput r input).
Qed.

(** Reporting an installation is idempotent: after a report was accepted, the
    same caller repeating it gets the same receipt with status 200 and nothing
    is recorded twice, while a report for the same authorization that says
    something else is refused; both for as long as the receipt is retained. *)
Theorem receipt_idempotent (body : jsval) (principal : Principal) (requestId receiptId auditId : jstr)
    (now : Z) (snapshot current s' : RegistryState) (r : InstallReceipt) (status : Z)
    (body' : jsval) (input' : InstallReceiptInput) (requestId' receiptId' auditId' : jstr) (now' : Z)
    (snapshot' : RegistryState) :
  createInstallReceipt config body principal requestId receiptId auditId now snapshot current
    = Ok (s', (r, status)) ->
  retained now' r = true ->
  parseInstallReceiptInput body' = Ok input' -> ri_authorizationId input' = ir_authorizationId r ->
  if sameInstallReceiptInput r input'
  then exists s'', createInstallReceipt config body' principal requestId' receiptId' auditId' now' snapshot' s'
                     = Ok (s'', (r, 200)) /\ receipts s'' ⊆ receipts s'
  else createInstallReceipt config body' principal requestId' receiptId' auditId' now' snapshot' s'
         = Err (api_error "RECEIPT_CONFLICT" 409).
Proof.
  unfold createInstallReceipt. intros H Hret Hin' Hid. ok_inv. state_inv. rewrite Hin'. cbn [rbind].
  apply receipt_commit_records in H as (Hrec & Ho & Hs & _ & Hv). cbn in Hv.
  assert (ensureState (Some s') (st_policy snapshot') = Ok (fill_collections s')) as ->
    by (unfold ensureState; cbn; by rewrite Hv, H0). cbn [rbind].
  assert (Hrec' : on_record input' (fill_collections s') = Some r).
  { unfold on_record in *. rewrite Hid. apply find_first_Some in Hrec as Hr.
    destruct Hr as [_ Hkey%jeqb_true]. rewrite Hkey. exact Hrec. }
  rewrite (receipt_commit_again _ _ _ _ _ _ _ r Hrec' Hret Ho Hs).
  destruct (sameInstallReceiptInput r input'); [|done]. eexists. split; [done|]. cbn.
  intros x [Hx _]%elem_of_List_filter. done.
Qed.
End InstallSafety.

(** ** Witnesses *)

#[local] Existing Instances iso_runtime ascii_tables no_urls unit_collation Demo.crypto Demo.blobs.

Lemma authorization_current_witness : exists a t,
  Demo.authorize = Ok (Demo.authorized, (a, t)) /\ ia_subject a = js "alice" /\
  exists plan, resolution_ok Demo.packed Demo.admin (Demo.t0 + 4000) plan /\ same_plan plan (ia_resolution a).
Proof.
  destruct Demo.authorize_ok as [[a t] Ha]. exists a, t. split; [exact Ha|].
  destruct (authorization_current _ _ _ _ _ _ _ _ _ _ _ _ Ha) as (Hp & _ & Hs & _).
  split; [exact Hs | exact Hp].
Defined.

Lemma grant_current_witness : exists g size,
  Demo.grant = Ok (Demo.granted, (g, size)) /\ tg_digest g = demo_digest /\
  exists x, x ∈ st_skills Demo.authorized /\ sk_id x = tg_resourceId g.
Proof.
  destruct Demo.grant_ok as [[g size] Hg]. exists g, size. split; [exact Hg|].
  destruct (grant_current _ _ _ _ _ _ _ _ _ _ _ _ _ _ Hg) as ((x & Hx & Hid & _) & _ & _ & Hd & _).
  split; [exact Hd | exists x; split; [exact Hx | exact Hid]].
Defined.

Lemma transfer_serves_approved_witness : exists x,
  x ∈ st_skills Demo.granted /\ skillCurrentlyApproved Demo.granted x (Demo.t0 + 6000) = true /\
  digestBytes demo_bytes = sb_digest (sk_artifact x).
Proof.
  assert (H : serveTransferGrant Demo.config (js "grant_1") Demo.admin (Demo.t0 + 6000) Demo.granted
              = Ok demo_bytes) by (vm_compute; reflexivity).
  destruct (transfer_serves_approved _ _ _ _ _ _ H)
    as (g & a & x & _ & _ & _ & _ & _ & _ & _ & _ & _ & Hx & _ & Ha & Hd & Hb).
  exists x. split; [exact Hx|]. split; [exact Ha|]. rewrite Hd. exact Hb.
Defined.

Lemma receipt_idempotent_witness : exists r s'',
  Demo.receipt = Ok (Demo.received, (r, 201)) /\
  createInstallReceipt Demo.config Demo.receipt_body Demo.admin (js "again") (js "receipt_2") (js "audit_9")
    (Demo.t0 + 9000) Demo.received Demo.received = Ok (s'', (r, 200)).
Proof.
  assert (H : exists r, Demo.receipt = Ok (Demo.received, (r, 201))) by (eexists; vm_compute; reflexivity).
  destruct H as [r H]. exists r.
  assert (Hr : Demo.receipt = Ok (Demo.received, (r, 201))) by exact H.
  vm_compute in Hr. injection Hr as Hr.
  assert (Hin : exists input, parseInstallReceiptInput Demo.receipt_body = Ok input /\
            ri_authorizationId input = ir_authorizationId r /\ sameInstallReceiptInput r input = true)
    by (eexists; rewrite <- Hr; vm_compute; repeat split).
  destruct Hin as (input & Hin & Hid & Hsame).
  assert (Hret : retained (Demo.t0 + 9000) r = true) by (rewrite <- Hr; vm_compute; reflexivity).
  pose proof (receipt_idempotent _ _ _ _ _ _ _ _ _ _ _ _ Demo.receipt_body input (js "again")
                (js "receipt_2") (js "audit_9") (Demo.t0 + 9000) Demo.received H Hret Hin Hid) as Hi.
  rewrite Hsame in Hi. destruct Hi as (s'' & Hs & _). exists s''. split; [exact H | exact Hs].
Defined.

(** Resolution at the demo registry. *)
Lemma resolveResource_sound_witness : exists resource r,
  resolveResource Demo.packed Demo.admin (Demo.t0 + 4000) KPack (js "@tools/kit") None = Resolved resource r /\
  Forall (installable Demo.packed Demo.admin (Demo.t0 + 4000)) (rs_members r).
Proof.
  assert (H : exists resource r, resolveResource Demo.packed Demo.admin (Demo.t0 + 4000) KPack
                (js "@tools/kit") None = Resolved resource r) by (do 2 eexists; vm_compute; reflexivity).
  destruct H as (resource & r & H). exists resource, r. split; [exact H|].
  exact (ro_members _ _ _ _ (proj1 (resolveResource_sound _ _ _ _ _ _ _ _ H))).
Defined.
Lemma requested_resolution_current_witness : exists r,
  resolveRequestedResolution Demo.packed Demo.admin (Demo.t0 + 4000) Demo.authorization_body = Ok r /\
  Forall (installable Demo.packed Demo.admin (Demo.t0 + 4000)) (rs_members r).
Proof.
  assert (H : exists r, resolveRequestedResolution Demo.packed Demo.admin (Demo.t0 + 4000)
                Demo.authorization_body = Ok r) by (eexists; vm_compute; reflexivity).
  destruct H as [r H]. exists r. split; [exact H|].
  exact (ro_members _ _ _ _ (proj1 (requested_resolution_current _ _ _ _ _ H))).
Defined.
