(* ===== verification/TokenCodec.v ===== *)
(** * Encodings of the API tokens

    The helpers of packages/api-tokens/src/index.ts below the service: unpadded
    base64url, the comparison of signatures, the cookie header and the
    [Authorization] header, [Date.toUTCString], and the replacing [TextDecoder].
    The HMAC belongs to Web Crypto and is a parameter. *)

From Stdlib Require Import ZArith Lia.
From stdpp Require Import base list strings sets.
From S2P Require Import Prelude Js Dates Names.

Local Open Scope Z_scope.

(** ** Signatures *)

(** [crypto.subtle.sign('HMAC', key, message)] with SHA-256: 32 bytes. *)
Class Hmac := {
  hmac_sign : list Z -> list Z -> list Z;
}.
Class HmacLaws (H : Hmac) : Prop := {
  hmac_size key message : length (hmac_sign key message) = 32%nat;
  hmac_bytes key message : wf_bytes (hmac_sign key message);
}.

Definition timingSafeEqual (left right : list Z) : bool :=
  foldl (fun difference index => Z.lor difference (Z.lxor (nth index left 0) (nth index right 0)))
    (Z.lxor (Z.of_nat (length left)) (Z.of_nat (length right)))
    (seq 0 (Nat.max (length left) (length right))) =? 0.

(** ** Unpadded base64url *)

Definition BASE64URL : jstr :=
  js "ABCDEFGHIJKLMNOPQRSTUVWXYZabcdefghijklmnopqrstuvwxyz0123456789-_".
Definition b64url_char (n : Z) : Z := nth (Z.to_nat n) BASE64URL 0.
Fixpoint base64UrlEncode (bytes : list Z) : jstr :=
  match bytes with
  | first :: second :: third :: rest =>
      b64url_char (Z.shiftr first 2) ::
      b64url_char (Z.lor (Z.shiftl (Z.land first 3) 4) (Z.shiftr second 4)) ::
      b64url_char (Z.lor (Z.shiftl (Z.land second 15) 2) (Z.shiftr third 6)) ::
      b64url_char (Z.land third 63) :: base64UrlEncode rest
  | [first; second] =>
      [b64url_char (Z.shiftr first 2);
       b64url_char (Z.lor (Z.shiftl (Z.land first 3) 4) (Z.shiftr second 4));
       b64url_char (Z.lor (Z.shiftl (Z.land second 15) 2) 0)]
  | [first] =>
      [b64url_char (Z.shiftr first 2); b64url_char (Z.lor (Z.shiftl (Z.land first 3) 4) 0)]
  | [] => []
  end.

(** [BASE64URL.indexOf(character)], from the position reached. *)
Fixpoint index_in (alphabet : jstr) (c index : Z) : option Z :=
  match alphabet with
  | [] => None
  | d :: alphabet' => if d =? c then Some index else index_in alphabet' c (index + 1)
  end.
(** The result of a bit operation: a signed 32-bit integer. *)
Definition to_int32 (n : Z) : Z :=
  let m := n mod 2 ^ 32 in if m <? 2 ^ 31 then m else m - 2 ^ 32.
Fixpoint decode_digits (buffer bits : Z) (value : jstr) : option (list Z) :=
  match value with
  | [] => Some []
  | character :: value' =>
      match index_in BASE64URL character 0 with
      | None => None
      | Some digit =>
          let buffer := Z.lor (to_int32 (Z.shiftl buffer 6)) digit in
          let bits := bits + 6 in
          if 8 <=? bits then
            cons (Z.land (Z.shiftr buffer (bits - 8)) 255) <$> decode_digits buffer (bits - 8) value'
          else decode_digits buffer bits value'
      end
  end.
Definition b64url_unit (c : Z) : bool := is_alnum c || (c =? 95) || (c =? 45).
Definition base64UrlDecode (value : jstr) : option (list Z) :=
  if negb (forallb b64url_unit value) || (jlen value mod 4 =? 1) then None else decode_digits 0 0 value.

(** ** Headers *)

(** [part.indexOf('=')], as what is before and after it. *)
Fixpoint split_at_equals (part : jstr) : option (jstr * jstr) :=
  match part with
  | [] => None
  | c :: part' =>
      if c =? 61 then Some ([], part')
      else (fun parts => (c :: parts.1, parts.2)) <$> split_at_equals part'
  end.
(** The [Map] of the cookies: a later cookie of a name replaces an earlier. *)
Definition cookie_entry (part : jstr) : option (jstr * jstr) :=
  match split_at_equals part with
  | Some (name, value) => if jeqb (trim name) [] then None else Some (trim name, trim value)
  | None => None
  end.
Definition parseCookieHeader (header : option jstr) : list (jstr * jstr) :=
  match header with
  | None | Some [] => []
  | Some text => omap cookie_entry (split 59 text)
  end.
(** [map.get(name)]. *)
Definition cookie_value (name : jstr) (cookies : list (jstr * jstr)) : option jstr :=
  snd <$> find_first (fun entry => jeqb entry.1 name) (reverse cookies).

Definition blank_or_tab (c : Z) : bool := (c =? 32) || (c =? 9).
(** What remains after [/^Bearer[ \t]+/iu]. *)
Definition after_bearer (text : jstr) : option jstr :=
  if starts_folded (js "bearer") text then
    match span_while blank_or_tab (drop 6 text) with
    | ([], _) => None
    | (_, rest) => Some rest
    end
  else None.
(** [/^Bearer[ \t]+([^ \t]+)$/iu] on a header that is not empty. *)
Definition bearerToken (header : option jstr) : option jstr :=
  match header with
  | None | Some [] => None
  | Some text =>
      match after_bearer text with
      | Some (c :: rest) => if existsb blank_or_tab (c :: rest) then None else Some (c :: rest)
      | _ => None
      end
  end.

(** ** [new Date(ms).toUTCString()] *)

Definition WEEKDAYS : list string := ["Sun"; "Mon"; "Tue"; "Wed"; "Thu"; "Fri"; "Sat"]%string.
Definition MONTHS : list string :=
  ["Jan"; "Feb"; "Mar"; "Apr"; "May"; "Jun"; "Jul"; "Aug"; "Sep"; "Oct"; "Nov"; "Dec"]%string.
Definition utc_year (y : Z) : jstr :=
  if between 0 y 9999 then pad4 y
  else if y <? 0 then 45 :: (if between 0 (- y) 9999 then pad4 (- y) else pad6 (- y))
  else drop (if y <? 100000 then 1 else 0) (pad6 y).
Definition toUTCString (ms : Z) : jstr :=
  let days := ms / MS_PER_DAY in
  let t := ms mod MS_PER_DAY in
  let '(y, m, d) := civil_from_days days in
  js (nth (Z.to_nat ((days + 4) mod 7)) WEEKDAYS ""%string) ++ js ", " ++ pad2 d ++ 32 ::
  js (nth (Z.to_nat (m - 1)) MONTHS ""%string) ++ 32 :: utc_year y ++ 32 ::
  pad2 (t / 3600000) ++ 58 :: pad2 (t / 60000 mod 60) ++ 58 :: pad2 (t / 1000 mod 60) ++ js " GMT".

Example epoch_text : toUTCString 0 = js "Thu, 01 Jan 1970 00:00:00 GMT".
Proof. reflexivity. Qed.

(** ** [new TextDecoder().decode(bytes)]

    An ill-formed sequence is replaced by U+FFFD: [needed] continuation bytes
    are missing, of which the next is between [lower] and [upper]. *)
Fixpoint utf8_replace (needed : nat) (cp lower upper : Z) (bs : list Z) : list Z :=
  match bs with
  | [] => match needed with O => [] | S _ => [0xfffd] end
  | b :: r =>
      let start :=
        if b <? 0x80 then b :: utf8_replace 0 0 0x80 0xbf r
        else if between 0xc2 b 0xdf then utf8_replace 1 (b - 0xc0) 0x80 0xbf r
        else if between 0xe0 b 0xef then
          utf8_replace 2 (b - 0xe0) (if b =? 0xe0 then 0xa0 else 0x80) (if b =? 0xed then 0x9f else 0xbf) r
        else if between 0xf0 b 0xf4 then
          utf8_replace 3 (b - 0xf0) (if b =? 0xf0 then 0x90 else 0x80) (if b =? 0xf4 then 0x8f else 0xbf) r
        else 0xfffd :: utf8_replace 0 0 0x80 0xbf r in
      match needed with
      | O => start
      | S n =>
          if between lower b upper then
            match n with
            | O => cp * 64 + (b - 0x80) :: utf8_replace 0 0 0x80 0xbf r
            | S _ => utf8_replace n (cp * 64 + (b - 0x80)) 0x80 0xbf r
            end
          else 0xfffd :: start
      end
  end.
Definition textDecodeReplace (bs : list Z) : jstr := of_code_points (utf8_replace 0 0 0x80 0xbf (strip_bom bs)).

(** ** Comparing signatures *)

Lemma foldl_lor_zero {A} (f : A -> Z) l a :
  foldl (fun d i => Z.lor d (f i)) a l = 0 <-> a = 0 /\ Forall (fun i => f i = 0) l.
Proof.
  revert a. induction l as [|x l IH]; intros a; cbn; [split; [by split|by intros []]|].
  rewrite IH, Forall_cons, Z.lor_eq_0_iff. tauto.
Qed.
(** The loop over the longer of the two decides equality. *)
Lemma timingSafeEqual_spec left right : timingSafeEqual left right = true <-> left = right.
Proof.
  unfold timingSafeEqual. rewrite Z.eqb_eq, foldl_lor_zero, Z.lxor_eq_0_iff. split.
  - intros [Hl Hall]. apply Nat2Z.inj in Hl. rewrite Hl, Nat.max_id in Hall.
    apply (nth_ext _ _ 0 0); [done|]. intros n Hn. rewrite Forall_forall in Hall.
    apply Z.lxor_eq_0_iff, Hall. apply elem_of_seq. lia.
  - intros ->. split; [done|]. apply Forall_forall. intros n _. apply Z.lxor_nilpotent.
Qed.

(** ** The round trip of base64url *)

Lemma lor_shift a b k : 0 <= k -> 0 <= b < 2 ^ k -> Z.lor (Z.shiftl a k) b = a * 2 ^ k + b.
Proof.
  intros Hk Hb. rewrite <- Z.shiftl_mul_pow2 by done.
  assert (H : Z.land (Z.shiftl a k) b = 0).
  { apply Z.bits_inj'. intros n Hn. rewrite Z.land_spec, Z.bits_0.
    destruct (decide (n < k)) as [Hl|Hl]; [by rewrite Z.shiftl_spec_low|].
    destruct (decide (b = 0)) as [->|]; [by rewrite Z.bits_0, andb_false_r|].
    rewrite (Z.bits_above_log2 b n); [apply andb_false_r|lia|].
    apply Z.log2_lt_pow2; [lia|]. apply (Z.lt_le_trans _ (2 ^ k)); [lia|]. apply Z.pow_le_mono_r; lia. }
  rewrite (Z.add_nocarry_lxor _ _ H). symmetry. by apply Z.lxor_lor.
Qed.
Lemma land_3 n : Z.land n 3 = n mod 4.
Proof. exact (Z.land_ones n 2 ltac:(lia)). Qed.
Lemma land_15 n : Z.land n 15 = n mod 16.
Proof. exact (Z.land_ones n 4 ltac:(lia)). Qed.
Lemma land_63 n : Z.land n 63 = n mod 64.
Proof. exact (Z.land_ones n 6 ltac:(lia)). Qed.
Lemma land_255 n : Z.land n 255 = n mod 256.
Proof. exact (Z.land_ones n 8 ltac:(lia)). Qed.
Lemma shiftr_div n k : 0 <= k -> Z.shiftr n k = n / 2 ^ k.
Proof. apply Z.shiftr_div_pow2. Qed.

(** The encoding by arithmetic. *)
Lemma base64UrlEncode_nil : base64UrlEncode [] = [].
Proof. done. Qed.
Lemma base64UrlEncode_one a : base64UrlEncode [a] = [b64url_char (a / 4); b64url_char (a mod 4 * 16)].
Proof. cbn. rewrite land_3, Z.lor_0_r, Z.shiftl_mul_pow2, shiftr_div by lia. done. Qed.
Lemma base64UrlEncode_two a b : 0 <= b < 256 -> base64UrlEncode [a; b] =
  [b64url_char (a / 4); b64url_char (a mod 4 * 16 + b / 16); b64url_char (b mod 16 * 4)].
Proof.
  intros Hb. cbn. rewrite land_3, land_15, Z.lor_0_r, !shiftr_div, lor_shift, Z.shiftl_mul_pow2 by dlia. done.
Qed.
Lemma base64UrlEncode_three a b c l : 0 <= b < 256 -> 0 <= c < 256 -> base64UrlEncode (a :: b :: c :: l) =
  b64url_char (a / 4) :: b64url_char (a mod 4 * 16 + b / 16) ::
  b64url_char (b mod 16 * 4 + c / 64) :: b64url_char (c mod 64) :: base64UrlEncode l.
Proof.
  intros Hb Hc. cbn [base64UrlEncode]. rewrite land_3, land_15, land_63, !shiftr_div, !lor_shift by dlia. done.
Qed.

Lemma b64url_char_ok n : 0 <= n < 64 ->
  index_in BASE64URL (b64url_char n) 0 = Some n /\ b64url_unit (b64url_char n) = true.
Proof.
  intros Hn. unfold b64url_char.
  assert (H : forallb (fun k => let c := nth k BASE64URL 0 in
                bool_decide (index_in BASE64URL c 0 = Some (Z.of_nat k)) && b64url_unit c) (seq 0 64) = true)
    by (vm_compute; reflexivity).
  rewrite forallb_forall in H. specialize (H (Z.to_nat n) ltac:(apply in_seq; lia)). cbn zeta in H. bool_inv.
  rewrite Z2Nat.id in * by lia. done.
Qed.

Lemma to_int32_congr n : exists k, to_int32 n = n + k * 2 ^ 32.
Proof.
  unfold to_int32. case_match; [exists (- (n / 2 ^ 32))|exists (- (n / 2 ^ 32) - 1)];
    pose proof (Z.div_mod n (2 ^ 32) ltac:(lia)); lia.
Qed.
(** A digit pushed into the buffer, whatever the buffer holds. *)
Lemma push_digit buffer d : 0 <= d < 64 ->
  exists k, Z.lor (to_int32 (Z.shiftl buffer 6)) d = buffer * 64 + d + k * 2 ^ 32.
Proof.
  intros Hd. destruct (to_int32_congr (Z.shiftl buffer 6)) as [k ->]. exists k.
  rewrite Z.shiftl_mul_pow2 by lia.
  replace (buffer * 2 ^ 6 + k * 2 ^ 32) with (Z.shiftl (buffer + k * 2 ^ 26) 6) by (rewrite Z.shiftl_mul_pow2; lia).
  rewrite lor_shift by lia. lia.
Qed.
Lemma decode_digit buffer bits d value : 0 <= d < 64 -> 0 <= bits ->
  exists k, decode_digits buffer bits (b64url_char d :: value) =
    let buffer' := buffer * 64 + d + k * 2 ^ 32 in
    if 2 <=? bits then cons ((buffer' / 2 ^ (bits - 2)) mod 256) <$> decode_digits buffer' (bits - 2) value
    else decode_digits buffer' (bits + 6) value.
Proof.
  intros Hd Hb. destruct (push_digit buffer d Hd) as [k Hk]. exists k. cbn [decode_digits].
  destruct (b64url_char_ok d Hd) as [-> _]. rewrite Hk. cbn zeta.
  replace (8 <=? bits + 6) with (2 <=? bits) by lia.
  destruct (2 <=? bits) eqn:E; [|done]. bool_inv.
  replace (bits + 6 - 8) with (bits - 2) by lia. by rewrite land_255, shiftr_div by lia.
Qed.

(** Decodes the next digit; the number of bits waiting is known. *)
Ltac digit_step :=
  match goal with |- context [decode_digits ?b ?n (b64url_char ?d :: ?r)] =>
    let k := fresh "k" in
    destruct (decode_digit b n d r) as [k ->]; [dlia | lia |]; cbv zeta;
    let more := eval vm_compute in (n + 6) in change (n + 6) with more;
    let fewer := eval vm_compute in (n - 2) in change (n - 2) with fewer;
    let full := eval vm_compute in (2 <=? n) in change (2 <=? n) with full;
    cbv iota
  end.

Lemma decode_digits_encode bytes : wf_bytes bytes -> forall buffer,
  decode_digits buffer 0 (base64UrlEncode bytes) = Some bytes.
Proof.
  unfold wf_bytes. induction bytes as [|a|a b|a b c l IH] using list_triple_ind; intros Hb buffer;
    repeat match goal with H : Forall _ (_ :: _) |- _ => inversion_clear H end.
  - done.
  - rewrite base64UrlEncode_one. do 2 digit_step. cbn [decode_digits fmap option_fmap option_map].
    change (2 ^ 4) with 16. f_equal. f_equal. dlia.
  - rewrite base64UrlEncode_two by done. do 3 digit_step. cbn [decode_digits fmap option_fmap option_map].
    change (2 ^ 4) with 16. change (2 ^ 2) with 4. f_equal. f_equal; [dlia|]. f_equal. dlia.
  - rewrite base64UrlEncode_three by done. do 4 digit_step. rewrite IH by done.
    cbn [fmap option_fmap option_map].
    change (2 ^ 4) with 16. change (2 ^ 2) with 4. change (2 ^ 0) with 1. f_equal.
    f_equal; [dlia|]. f_equal; [dlia|]. f_equal. dlia.
Qed.
Lemma base64UrlEncode_units bytes : wf_bytes bytes -> Forall (fun c => b64url_unit c = true) (base64UrlEncode bytes).
Proof.
  unfold wf_bytes. induction bytes as [|a|a b|a b c l IH] using list_triple_ind; intros Hb;
    repeat match goal with H : Forall _ (_ :: _) |- _ => inversion_clear H end; [constructor|..];
    rewrite ?base64UrlEncode_one, ?base64UrlEncode_two, ?base64UrlEncode_three by done;
    repeat (constructor; [apply b64url_char_ok; dlia|]); auto.
Qed.
Lemma base64UrlEncode_length bytes : wf_bytes bytes -> jlen (base64UrlEncode bytes) mod 4 <> 1.
Proof.
  unfold wf_bytes, jlen. induction bytes as [|a|a b|a b c l IH] using list_triple_ind; intros Hb;
    repeat match goal with H : Forall _ (_ :: _) |- _ => inversion_clear H end; [done..|].
  rewrite base64UrlEncode_three by done. cbn [length]. specialize (IH ltac:(done)). dlia.
Qed.
(** Decoding gives the encoded bytes back. *)
Lemma base64url_roundtrip bytes : wf_bytes bytes -> base64UrlDecode (base64UrlEncode bytes) = Some bytes.
Proof.
  intros Hb. unfold base64UrlDecode.
  assert (forallb b64url_unit (base64UrlEncode bytes) = true) as ->.
  { apply forallb_forall. intros c Hc. pose proof (base64UrlEncode_units bytes Hb) as H.
    rewrite Forall_forall in H. apply H, list_elem_of_In, Hc. }
  rewrite (proj2 (Z.eqb_neq _ _)) by (by apply base64UrlEncode_length). by apply decode_digits_encode.
Qed.

(** ** Decoding what was encoded *)

(** The second byte of a scalar's encoding is in its range. *)
Ltac second_byte :=
  match goal with |- context [between (if ?c then ?x else ?y) ?b ?z] =>
    rewrite (proj2 (between_spec (if c then x else y) b z)) by (repeat case_match; bool_inv; dlia)
  end.
Lemma utf8_replace_of_cp cp r : is_scalar cp ->
  utf8_replace 0 0 0x80 0xbf (utf8_of_cp cp ++ r) = cp :: utf8_replace 0 0 0x80 0xbf r.
Proof.
  intros [Hr Hs]. range_inv. unfold utf8_of_cp.
  destruct (cp <? 0x80) eqn:E1; bool_inv.
  { cbn. by rewrite (proj2 (Z.ltb_lt cp 0x80)) by dlia. }
  destruct (cp <? 0x800) eqn:E2; bool_inv.
  { cbn [app utf8_replace]. cbv zeta. rewrite (proj2 (Z.ltb_ge _ _)) by dlia.
    rewrite !(proj2 (between_spec _ _ _)) by dlia. f_equal. dlia. }
  destruct (cp <? 0x10000) eqn:E3; bool_inv.
  { cbn [app utf8_replace]. cbv zeta. rewrite (proj2 (Z.ltb_ge _ _)) by dlia.
    rewrite (proj2 (between_false 0xc2 _ _)) by dlia.
    rewrite (proj2 (between_spec 0xe0 _ _)) by dlia.
    second_byte.
    rewrite (proj2 (between_spec _ _ _)) by dlia. f_equal. dlia. }
  cbn [app utf8_replace]. cbv zeta. rewrite (proj2 (Z.ltb_ge _ _)) by dlia.
  rewrite !(proj2 (between_false _ (240 + _) _)) by dlia.
  rewrite (proj2 (between_spec 0xf0 _ _)) by dlia.
  second_byte.
  rewrite !(proj2 (between_spec _ _ _)) by dlia. f_equal. dlia.
Qed.
Lemma textDecodeReplace_encode s : wf_jstr s -> well_formed s = true -> (forall r, s <> 0xfeff :: r) ->
  textDecodeReplace (textEncode s) = s.
Proof.
  intros Hwf Hs Hbom. unfold textDecodeReplace. rewrite strip_bom_textEncode, textEncode_well_formed by done.
  rewrite <- (of_code_points_id s) at 2 by done. f_equal.
  induction (code_points_scalar s Hwf Hs) as [|cp l Hcp Hl IH]; [done|]. cbn [fmap list_fmap concat].
  by rewrite utf8_replace_of_cp, IH.
Qed.
