(* ===== verification/Tokens.v ===== *)
(** * API tokens: roles, scopes and records

    The data of packages/api-tokens/src/index.ts and its pure functions: what a
    membership and a session are read as, the roles and scopes a token may
    carry, its expiry and the principal it stands for. *)

From Stdlib Require Import ZArith Lia SpecFloat.
From stdpp Require Import base list strings sets.
From S2P Require Import Prelude Js Dates Json Wire Contracts Numbers Web Access Names TokenCodec.

Local Open Scope Z_scope.

(** ** Errors

    [ApiTokenError]; anything else that is thrown is [OtherError]. *)
Inductive token_error : Type :=
| ApiTokenError (code message : jstr) (status : Z)
| OtherError.
#[export] Instance token_error_eq_dec : EqDecision token_error.
Proof. solve_decision. Defined.
Abbreviation tokens A := (result token_error A) (only parsing).
Definition api_token_error (code message : string) (status : Z) : token_error :=
  ApiTokenError (js code) (js message) status.
Definition ApiTokenConfigurationError (message : string) : token_error :=
  api_token_error "API_TOKEN_CONFIGURATION" message 500.
Definition ApiTokenRepositoryError (message : string) : token_error :=
  api_token_error "API_TOKEN_REPOSITORY" message 500.
Definition field_error (fieldName what : string) : token_error :=
  ApiTokenError (js "INVALID_REQUEST") (js fieldName ++ js what) 400.

(** ** Constants *)

Definition DEFAULT_API_TOKEN_PREFIX : jstr := js "psk_".
Definition DEFAULT_API_TOKEN_TTL_SECONDS : Z := 90 * 24 * 60 * 60.
Definition DEFAULT_API_TOKEN_MAX_TTL_SECONDS : Z := 365 * 24 * 60 * 60.
Definition DEFAULT_API_TOKEN_MAX_LIST : Z := 100.
Definition API_TOKEN_ID_MAX_LENGTH : Z := 128.
Definition API_TOKEN_NAME_MAX_LENGTH : Z := 128.
Definition API_TOKEN_SCOPE_MAX_LENGTH : Z := 128.
Definition API_TOKEN_MAX_SCOPES : Z := 64.
Definition API_TOKEN_SESSION_PROTOCOL_VERSION : Z := 1.
Definition DEFAULT_API_TOKEN_SESSION_COOKIE : jstr := js "pskills_session".
Definition API_TOKEN_SESSION_AUDIENCE : jstr := js "private-skills-api-token".
Definition API_TOKEN_SESSION_COOKIE_PREFIX : jstr := js "api-token-session-v1".
Definition API_TOKEN_SESSION_COOKIE_MAX_LENGTH : Z := 8192.

Definition ROLE_RANK (role : Role) : Z :=
  match role with
  | Owner => 4
  | Admin => 3
  | Publisher => 2
  | Reader => 1
  | Worker => 0
  end.

(** ** Data *)

Record OrganizationSession : Type := {
  os_userId : jstr;
  os_organizationId : jstr;
  os_sessionId : option jstr;
}.
Record NormalizedMembership : Type := {
  nm_userId : jstr;
  nm_organizationId : jstr;
  nm_roles : list Role;
  nm_scopes : list jstr;
  nm_display : option PrincipalDisplayMetadata;
}.
Record ApiTokenRecord : Type := {
  tr_id : jstr;
  tr_organizationId : jstr;
  tr_userId : jstr;
  tr_name : jstr;
  tr_tokenHash : jstr;
  tr_roleCeiling : Role;
  tr_scopes : list jstr;
  tr_expiresAt : jstr;
  tr_createdAt : jstr;
  tr_revokedAt : option jstr;
}.
#[export] Instance ApiTokenRecord_eq_dec : EqDecision ApiTokenRecord.
Proof. solve_decision. Defined.
Definition with_tr_revokedAt (v : option jstr) (r : ApiTokenRecord) : ApiTokenRecord := {|
  tr_id := tr_id r; tr_organizationId := tr_organizationId r; tr_userId := tr_userId r; tr_name := tr_name r;
  tr_tokenHash := tr_tokenHash r; tr_roleCeiling := tr_roleCeiling r; tr_scopes := tr_scopes r;
  tr_expiresAt := tr_expiresAt r; tr_createdAt := tr_createdAt r; tr_revokedAt := v |}.
(** What lists and responses show of a record. *)
Record ApiTokenMetadata : Type := {
  tm_id : jstr;
  tm_organizationId : jstr;
  tm_userId : jstr;
  tm_name : jstr;
  tm_roleCeiling : Role;
  tm_scopes : list jstr;
  tm_expiresAt : jstr;
  tm_createdAt : jstr;
  tm_revokedAt : option jstr;
}.
Definition metadata (record : ApiTokenRecord) : ApiTokenMetadata := {|
  tm_id := tr_id record; tm_organizationId := tr_organizationId record; tm_userId := tr_userId record;
  tm_name := tr_name record; tm_roleCeiling := tr_roleCeiling record; tm_scopes := tr_scopes record;
  tm_expiresAt := tr_expiresAt record; tm_createdAt := tr_createdAt record; tm_revokedAt := tr_revokedAt record |}.
(** [identity] is always ['user'] and [namespaces] is not set. *)
Record ApiTokenPrincipal : Type := {
  tp_organizationId : jstr;
  tp_subject : jstr;
  tp_roles : list Role;
  tp_scopes : list jstr;
  tp_display : option PrincipalDisplayMetadata;
  tp_tokenId : jstr;
}.
Record CreateApiTokenResult : Type := {
  ct_metadata : ApiTokenMetadata;
  ct_token : jstr;
}.
Definition cloneMetadataWithToken (record : ApiTokenRecord) (token : jstr) : CreateApiTokenResult :=
  {| ct_metadata := metadata record; ct_token := token |}.
Inductive ApiTokenAuditAction : Type := TokenCreated | TokenRevoked.
Record ApiTokenAuditEvent : Type := {
  ta_action : ApiTokenAuditAction;
  ta_organizationId : jstr;
  ta_actorId : jstr;
  ta_subject : jstr;
  ta_resourceId : jstr;
  ta_tokenId : jstr;
  ta_createdAt : jstr;
  ta_details : option (Role * jstr * Z);  (* [roleCeiling], [expiresAt], [scopeCount]; none when revoked *)
}.

(** ** Strings *)

Definition nonEmptyString (value : jsval) (fieldName : string) (maxLength : Z) : tokens jstr :=
  match value with
  | JStr s =>
      let normalized := trim s in
      throw_if jeqb normalized [] || (maxLength <? jlen normalized) with field_error fieldName " is invalid" ;;
      Ok normalized
  | _ => Err (field_error fieldName " is required")
  end.
(** A first letter or digit, then characters of a class. *)
Definition identifier (more : Z -> bool) (s : jstr) : bool :=
  match s with
  | c :: r => is_alnum c && forallb more r
  | [] => false
  end.
Definition id_char (c : Z) : bool :=
  is_alnum c || (c =? 46) || (c =? 95) || (c =? 58) || (c =? 45).
Definition scope_char (c : Z) : bool := id_char c || (c =? 42).
Definition boundedId (value : jsval) (fieldName : string) : tokens jstr :=
  let? id := nonEmptyString value fieldName API_TOKEN_ID_MAX_LENGTH in
  throw_if negb (identifier id_char id) with field_error fieldName " is invalid" ;;
  Ok id.
Definition normalizeName (value : jsval) : tokens jstr :=
  nonEmptyString value "Token name" API_TOKEN_NAME_MAX_LENGTH.
Definition normalizeScope (value : jsval) : tokens jstr :=
  let? scope := nonEmptyString value "Token scope" API_TOKEN_SCOPE_MAX_LENGTH in
  throw_if negb (jeqb scope (js "*")) && negb (identifier scope_char scope)
    with api_token_error "INVALID_SCOPE" "Token scope is invalid" 400 ;;
  Ok scope.
Definition normalizeScopes (value : jsval) : tokens (list jstr) :=
  match value with
  | JUndef => Ok []
  | JArr l =>
      throw_if API_TOKEN_MAX_SCOPES <? Z.of_nat (length l)
        with api_token_error "INVALID_SCOPE" "Token scopes must be a bounded array" 400 ;;
      let? scopes := map_result normalizeScope l in
      Ok (dedup scopes)
  | _ => Err (api_token_error "INVALID_SCOPE" "Token scopes must be a bounded array" 400)
  end.

(** ** Roles *)

Definition normalizeRole (value : jsval) : tokens Role :=
  let refused := Err (api_token_error "INVALID_ROLE" "Token role ceiling is invalid" 400) in
  match value with
  | JStr s =>
      let role := if jeqb s (js "member") then js "reader"
                  else if jeqb s (js "manager") then js "admin" else s in
      match enum_of Role role with
      | None => refused
      | Some Worker => Err (api_token_error "ROLE_ESCALATION" "API tokens cannot use the worker role" 403)
      | Some r => Ok r
      end
  | _ => refused
  end.
Definition normalizeIdentityRole (value : jsval) : tokens (option Role) :=
  match value with
  | JUndef => Ok None
  | _ => let? role := normalizeRole value in Ok (Some role)
  end.
Definition normalizeRoleList (value : jsval) : tokens (list Role) :=
  let supplied := match value with JUndef => [] | JArr l => l | _ => [value] end in
  let? roles := map_result normalizeRole supplied in
  Ok (dedup roles).
Definition highestRole (roles : list Role) : Role :=
  foldl (fun highest role => if ROLE_RANK highest <? ROLE_RANK role then role else highest) Reader roles.
Definition roleAtMost (requested maximum : Role) : bool := ROLE_RANK requested <=? ROLE_RANK maximum.
Definition isManagementRole (role : Role) : bool := bool_decide (role = Owner) || bool_decide (role = Admin).
Definition canManageAll (membership : NormalizedMembership) : bool :=
  existsb isManagementRole (nm_roles membership).
Definition effectiveRole (membership : NormalizedMembership) (ceiling : Role) : Role :=
  let highest := highestRole (nm_roles membership) in
  if ROLE_RANK ceiling <=? ROLE_RANK highest then ceiling else highest.

(** ** Scopes *)

(** [scope.endsWith(':*') && required.startsWith(scope.slice(0, -1))]. *)
Definition wildcard_covers (scope required : jstr) : bool :=
  endsWith (js ":*") scope && startsWith (without_last scope) required.
Definition scope_covers (required scope : jstr) : bool :=
  jeqb scope (js "*") || jeqb scope required || wildcard_covers scope required.
Definition hasScope (granted : list jstr) (required : jstr) : bool :=
  existsb (scope_covers required) granted.
Definition READER_SCOPES : list jstr :=
  js <$> ["registry:read"; "skills:read"; "resolve:read"; "operations:read"; "install:authorize";
          "install:receipt"; "artifacts:download"; "packs:read"; "scans:read"; "upstreams:read"]%string.
Definition PUBLISHER_SCOPES : list jstr :=
  js <$> ["registry:read"; "skills:read"; "skills:publish"; "resolve:read"; "operations:read";
          "install:authorize"; "install:receipt"; "artifacts:download"; "packs:read"; "packs:publish";
          "scans:read"; "upstreams:read"; "imports:create"]%string.
Definition roleScopes (role : Role) : list jstr :=
  match role with
  | Owner | Admin => [js "*"]
  | Publisher => PUBLISHER_SCOPES
  | Reader => READER_SCOPES
  | Worker => []
  end.
(** The body of the two loops: the scope a pair contributes. *)
Definition scope_meet (leftScope rightScope : jstr) : option jstr :=
  if jeqb leftScope (js "*") then Some rightScope
  else if jeqb rightScope (js "*") then Some leftScope
  else if jeqb leftScope rightScope then Some leftScope
  else if wildcard_covers leftScope rightScope then Some rightScope
  else if wildcard_covers rightScope leftScope then Some leftScope
  else None.
Definition intersectScopes (left right : list jstr) : list jstr :=
  dedup (concat ((fun leftScope => omap (scope_meet leftScope) right) <$> left)).
Definition scopesForToken (record : ApiTokenRecord) (membership : NormalizedMembership) : list jstr :=
  intersectScopes (intersectScopes (tr_scopes record) (nm_scopes membership))
    (roleScopes (effectiveRole membership (tr_roleCeiling record))).

(** ** Memberships and sessions *)

(** [left ?? right]. *)
Definition nullish (left right : jsval) : jsval :=
  match left with
  | JUndef | JNull => right
  | _ => left
  end.
(** [value === text]. *)
Definition is_text (value : jsval) (text : jstr) : bool :=
  match value with
  | JStr s => jeqb s text
  | _ => false
  end.
Definition normalizeMembership (value : jsval) (organizationId userId : jstr) : option NormalizedMembership :=
  if falsy value || match field value "active" with JBool false => true | _ => false end ||
     negb (is_text (field value "organizationId") organizationId) || negb (is_text (field value "userId") userId)
  then None
  else
    let sourceRoles := nullish (field value "roles")
                         (if is_undef (field value "role") then JUndef else JArr [field value "role"]) in
    match normalizeRoleList sourceRoles with
    | Err _ | Ok [] => None
    | Ok roles =>
        let scopes := if is_undef (field value "scopes") then Ok (roleScopes (highestRole roles))
                      else normalizeScopes (field value "scopes") in
        match scopes with
        | Err _ => None
        | Ok scopes =>
            Some {| nm_userId := userId; nm_organizationId := organizationId; nm_roles := roles;
                    nm_scopes := scopes;
                    nm_display := normalizePrincipalDisplayMetadata (field value "display") |}
        end
    end.
Definition normalizeSession (value : jsval) : option OrganizationSession :=
  match value with
  | JObj _ | JArr _ =>
      let userId := nullish (nullish (nullish (field value "userId") (field value "subject"))
                               (field (field value "user") "id"))
                      (field (field value "session") "userId") in
      let organizationId := nullish (nullish (nullish (field value "organizationId") (field value "orgId"))
                                       (field value "activeOrganizationId"))
                              (field (field value "session") "activeOrganizationId") in
      if falsy userId || falsy organizationId then None
      else
        let sessionId := nullish (field value "sessionId") (field (field value "session") "id") in
        match nonEmptyString userId "session user id" 256,
              nonEmptyString organizationId "session organization id" 256,
              (if is_undef sessionId then Ok None
               else let? id := nonEmptyString sessionId "session id" 256 in Ok (Some id)) with
        | Ok u, Ok o, Ok id => Some {| os_userId := u; os_organizationId := o; os_sessionId := id |}
        | _, _, _ => None
        end
  | _ => None
  end.
(** A session as the value a later call receives. *)
Definition session_value (session : OrganizationSession) : jsval :=
  JObj ([(js "userId", JStr (os_userId session)); (js "organizationId", JStr (os_organizationId session))] ++
        match os_sessionId session with Some id => [(js "sessionId", JStr id)] | None => [] end).

(** ** Expiry *)

Definition num_sub (x y : spec_float) : spec_float := SFsub 53 1024 x y.
(** [new Date(ms).toISOString()], which throws a [RangeError] outside the range
    of time values. *)
Definition dateText (ms : Z) : tokens jstr :=
  if valid_time ms then Ok (toISOString ms) else Err OtherError.
Definition numberDateText (x : spec_float) : tokens jstr :=
  match num_trunc x with
  | Some ms => dateText ms
  | None => Err OtherError
  end.
Definition parseExpiry `{DateRuntime} (value expiresInSeconds : jsval) (nowMs : Z)
    (defaultTtl maxTtl : spec_float) : tokens jstr :=
  let refused (message : string) := Err (api_token_error "INVALID_EXPIRY" message 400) in
  let seconds (x : spec_float) := num_mul x (num_of_Z 1000) in
  let now := num_of_Z nowMs in
  let? expiryMs :=
    match value with
    | JUndef =>
        match expiresInSeconds with
        | JUndef => Ok (num_add now (seconds defaultTtl))
        | JNum x => if num_finite x && negb (num_le x num_zero) then Ok (num_add now (seconds x))
                    else refused "Token expiry duration is invalid"%string
        | _ => refused "Token expiry duration is invalid"%string
        end
    | JNum x => if num_finite x then Ok (if num_lt x (num_of_Z 1000000000000) then seconds x else x)
                else refused "Token expiry is invalid"%string
    | JStr s => match dateParse s with
                | Some ms => Ok (num_of_Z ms)
                | None => refused "Token expiry is invalid"%string
                end
    | _ => refused "Token expiry is invalid"%string
    end in
  let lifetime := num_sub expiryMs now in
  throw_if negb (num_finite expiryMs) || num_le lifetime num_zero
    with api_token_error "INVALID_EXPIRY" "Token expiry must be in the future" 400 ;;
  throw_if num_lt (num_add (seconds maxTtl) (num_of_Z 999)) lifetime
    with api_token_error "INVALID_EXPIRY" "Token expiry exceeds the maximum lifetime" 400 ;;
  numberDateText expiryMs.

(** ** Principals *)

Definition display_value (display : PrincipalDisplayMetadata) : jsval :=
  let member (key : string) (o : option jstr) := match o with Some s => [(js key, JStr s)] | None => [] end in
  JObj (member "userName"%string (pd_userName display) ++ member "userEmail"%string (pd_userEmail display) ++
        member "organizationName"%string (pd_organizationName display) ++
        member "organizationSlug"%string (pd_organizationSlug display)).
Definition optional_display (display : option PrincipalDisplayMetadata) : jsval :=
  match display with Some d => display_value d | None => JUndef end.
Definition clonePrincipal (principal : ApiTokenPrincipal) : ApiTokenPrincipal := {|
  tp_organizationId := tp_organizationId principal; tp_subject := tp_subject principal;
  tp_roles := tp_roles principal; tp_scopes := tp_scopes principal;
  tp_display := normalizePrincipalDisplayMetadata (optional_display (tp_display principal));
  tp_tokenId := tp_tokenId principal |}.
(** The object the authenticator hands to the registry. *)
Definition principal_value (principal : ApiTokenPrincipal) : jsval :=
  JObj ([(js "organizationId", JStr (tp_organizationId principal)); (js "subject", JStr (tp_subject principal));
         (js "roles", JArr ((fun role => JStr (enum_name role)) <$> tp_roles principal));
         (js "scopes", JArr (JStr <$> tp_scopes principal))] ++
        match tp_display principal with Some d => [(js "display", display_value d)] | None => [] end ++
        [(js "identity", JStr (js "user")); (js "tokenId", JStr (tp_tokenId principal))]).
Definition sessionFromPrincipal (principal : ApiTokenPrincipal) : OrganizationSession := {|
  os_userId := tp_subject principal; os_organizationId := tp_organizationId principal; os_sessionId := None |}.

(** ** Responses *)

Definition metadata_members (m : ApiTokenMetadata) : list (jstr * wire) :=
  [(js "id", WStr (tm_id m)); (js "organizationId", WStr (tm_organizationId m)); (js "userId", WStr (tm_userId m));
   (js "name", WStr (tm_name m)); (js "roleCeiling", WStr (enum_name (tm_roleCeiling m)));
   (js "scopes", WArr (WStr <$> tm_scopes m)); (js "expiresAt", WStr (tm_expiresAt m));
   (js "createdAt", WStr (tm_createdAt m))] ++
  match tm_revokedAt m with Some at_ => [(js "revokedAt", WStr at_)] | None => [] end.
Definition metadata_wire (m : ApiTokenMetadata) : wire := WObj (metadata_members m).
Definition created_wire (created : CreateApiTokenResult) : wire :=
  WObj (metadata_members (ct_metadata created) ++ [(js "token", WStr (ct_token created))]).
