(* ===== verification/TokenStore.v ===== *)
(** * API tokens: the repository of records

    [ApiTokenRepository] of packages/api-tokens/src/index.ts: the operations
    the service is written against, what it relies on ([TokenStoreLaws]), and
    [MemoryApiTokenRepository], two maps kept in step, which satisfies it.

    Records are only added and only ever change by being revoked, once:
    [store_later] is that order, and everything the service shows under
    interference of other requests rests on it. *)

From Stdlib Require Import ZArith Lia.
From stdpp Require Import base list strings sets.
From S2P Require Import Prelude Js Contracts Web Tokens.

Local Open Scope Z_scope.

(** ** The interface *)

Class TokenStore (S : Type) := {
  repo_create : ApiTokenRecord -> S -> tokens unit * S;
  repo_findByHash : jstr -> S -> tokens (option ApiTokenRecord);
  repo_findById : jstr -> jstr -> S -> tokens (option ApiTokenRecord);
  repo_list : jstr -> option jstr -> Z -> S -> tokens (list ApiTokenRecord);
  repo_revoke : jstr -> jstr -> jstr -> S -> tokens (option ApiTokenRecord) * S;
}.

(** The records a store holds, oldest first, as the operations see them. *)
Definition has_hash (tokenHash : jstr) (r : ApiTokenRecord) : bool := jeqb (tr_tokenHash r) tokenHash.
Definition is_record (organizationId id : jstr) (r : ApiTokenRecord) : bool :=
  jeqb (tr_id r) id && jeqb (tr_organizationId r) organizationId.
Definition listed (organizationId : jstr) (subject : option jstr) (r : ApiTokenRecord) : bool :=
  jeqb (tr_organizationId r) organizationId &&
  match subject with Some s => jeqb (tr_userId r) s | None => true end.
(** [record.revokedAt ??= revokedAt], or [COALESCE(revoked_at, $3)]. *)
Definition revoke_record (revokedAt : jstr) (r : ApiTokenRecord) : ApiTokenRecord :=
  match tr_revokedAt r with
  | None => with_tr_revokedAt (Some revokedAt) r
  | Some _ => r
  end.
Definition unique_records (l : list ApiTokenRecord) : Prop := NoDup (tr_id <$> l) /\ NoDup (tr_tokenHash <$> l).

(** A call may fail, and then changes nothing; when it does not, it answers
    from the records. *)
Class TokenStoreLaws (S : Type) `{TokenStore S} := {
  store_records : S -> list ApiTokenRecord;
  store_ok : S -> Prop;
  store_unique s : store_ok s -> unique_records (store_records s);
  create_law r s : store_ok s ->
    let '(answer, s') := repo_create r s in
    store_ok s' /\
    match answer with
    | Ok _ => store_records s' = store_records s ++ [r]
    | Err _ => store_records s' = store_records s
    end;
  findByHash_law h s : store_ok s ->
    match repo_findByHash h s with
    | Ok found => found = find_first (has_hash h) (store_records s)
    | Err _ => True
    end;
  findById_law o id s : store_ok s ->
    match repo_findById o id s with
    | Ok found => found = find_first (is_record o id) (store_records s)
    | Err _ => True
    end;
  list_law o subject limit s : store_ok s ->
    match repo_list o subject limit s with
    | Ok l => exists sorted, Permutation sorted (List.filter (listed o subject) (store_records s)) /\
                l = take (Z.to_nat limit) sorted
    | Err _ => True
    end;
  revoke_law o id at_ s : store_ok s ->
    let '(answer, s') := repo_revoke o id at_ s in
    store_ok s' /\
    match answer with
    | Ok found =>
        store_records s' = update_first (is_record o id) (revoke_record at_) (store_records s) /\
        found = find_first (is_record o id) (store_records s')
    | Err _ => store_records s' = store_records s
    end;
}.
(** A store whose calls do not fail, but for a duplicate. *)
Class ReliableStore (S : Type) `{TokenStoreLaws S} : Prop := {
  create_reliable r s : store_ok s -> unique_records (store_records s ++ [r]) -> (repo_create r s).1 = Ok tt;
  findByHash_reliable h s : store_ok s -> is_ok (repo_findByHash h s) = true;
  findById_reliable o id s : store_ok s -> is_ok (repo_findById o id s) = true;
  revoke_reliable o id at_ s : store_ok s -> is_ok (repo_revoke o id at_ s).1 = true;
}.

(** ** [MemoryApiTokenRepository] *)

(** A [Map] with its order of insertion. *)
Definition map_get {A} (k : jstr) (m : list (jstr * A)) : option A :=
  snd <$> find_first (fun entry => jeqb entry.1 k) m.
Definition map_has {A} (k : jstr) (m : list (jstr * A)) : bool := existsb (fun entry => jeqb entry.1 k) m.
Definition map_set {A} (k : jstr) (v : A) (m : list (jstr * A)) : list (jstr * A) :=
  if map_has k m then update_first (fun entry => jeqb entry.1 k) (fun entry => (entry.1, v)) m else m ++ [(k, v)].

Record MemoryApiTokenRepository : Type := {
  mr_records : list (jstr * ApiTokenRecord);
  mr_hashes : list (jstr * jstr);
}.
Definition memory_insert (message : string) (record : ApiTokenRecord) (m : MemoryApiTokenRepository)
    : tokens MemoryApiTokenRepository :=
  throw_if map_has (tr_id record) (mr_records m) || map_has (tr_tokenHash record) (mr_hashes m)
    with ApiTokenRepositoryError message ;;
  Ok {| mr_records := map_set (tr_id record) record (mr_records m);
        mr_hashes := map_set (tr_tokenHash record) (tr_id record) (mr_hashes m) |}.
Definition new_memory (initial : list ApiTokenRecord) : tokens MemoryApiTokenRepository :=
  foldl (fun m record => let? m := m in memory_insert "Duplicate initial API token record" record m)
    (Ok {| mr_records := []; mr_hashes := [] |}) initial.
Definition memory_create (record : ApiTokenRecord) (m : MemoryApiTokenRepository)
    : tokens unit * MemoryApiTokenRepository :=
  match memory_insert "API token record already exists" record m with
  | Ok m' => (Ok tt, m')
  | Err e => (Err e, m)
  end.
Definition memory_findByHash (tokenHash : jstr) (m : MemoryApiTokenRepository) : option ApiTokenRecord :=
  match map_get tokenHash (mr_hashes m) with
  | None => None
  | Some id => map_get id (mr_records m)
  end.
Definition memory_findById (organizationId tokenId : jstr) (m : MemoryApiTokenRepository)
    : option ApiTokenRecord :=
  match map_get tokenId (mr_records m) with
  | Some record => if jeqb (tr_organizationId record) organizationId then Some record else None
  | None => None
  end.
Definition newest_first `{Collation} (left right : ApiTokenRecord) : comparison :=
  localeCompare (tr_createdAt right) (tr_createdAt left) ?= 0.
Definition memory_list `{Collation} (organizationId : jstr) (subject : option jstr) (limit : Z)
    (m : MemoryApiTokenRepository) : list ApiTokenRecord :=
  take (Z.to_nat limit) (js_sort newest_first (List.filter (listed organizationId subject) (mr_records m).*2)).
Definition memory_revoke (organizationId tokenId revokedAt : jstr) (m : MemoryApiTokenRepository)
    : option ApiTokenRecord * MemoryApiTokenRepository :=
  match map_get tokenId (mr_records m) with
  | Some record =>
      if negb (jeqb (tr_organizationId record) organizationId) then (None, m)
      else
        let record' := revoke_record revokedAt record in
        (Some record', {| mr_records := map_set tokenId record' (mr_records m); mr_hashes := mr_hashes m |})
  | None => (None, m)
  end.
#[export] Instance memory_store `{Collation} : TokenStore MemoryApiTokenRepository := {|
  repo_create := memory_create;
  repo_findByHash h m := Ok (memory_findByHash h m);
  repo_findById o id m := Ok (memory_findById o id m);
  repo_list o subject limit m := Ok (memory_list o subject limit m);
  repo_revoke o id at_ m := let '(found, m') := memory_revoke o id at_ m in (Ok found, m')
|}.

(** ** Records only get older *)

Definition record_later (r r' : ApiTokenRecord) : Prop :=
  r' = r \/ (tr_revokedAt r = None /\ exists at_, r' = with_tr_revokedAt (Some at_) r).
Definition store_later (l l' : list ApiTokenRecord) : Prop :=
  exists kept added, l' = kept ++ added /\ Forall2 record_later l kept.
#[export] Instance record_later_preorder : PreOrder record_later.
Proof.
  split.
  - intros r. by left.
  - intros r1 r2 r3 [-> | (H1 & at_ & ->)] [-> | (H2 & at_' & ->)]; [by left|by right; eauto..|]. done.
Qed.
#[export] Instance store_later_preorder : PreOrder store_later.
Proof.
  split.
  - intros l. exists l, []. rewrite app_nil_r. split; [done|]. by apply Forall2_same.
  - intros l1 l2 l3 (k & a & -> & Hk) (k' & a' & -> & Hk').
    apply Forall2_app_inv_l in Hk' as (k1 & k2 & Hk1 & _ & ->).
    exists k1, (k2 ++ a'). rewrite <- app_assoc. split; [done|]. by etrans.
Qed.
Lemma revoke_record_later at_ r : record_later r (revoke_record at_ r).
Proof. unfold revoke_record. destruct (tr_revokedAt r) eqn:E; [by left|]. right. eauto. Qed.
Lemma record_later_same r r' : record_later r r' ->
  tr_id r' = tr_id r /\ tr_tokenHash r' = tr_tokenHash r /\ tr_organizationId r' = tr_organizationId r /\
  tr_userId r' = tr_userId r /\ tr_roleCeiling r' = tr_roleCeiling r /\ tr_scopes r' = tr_scopes r /\
  tr_expiresAt r' = tr_expiresAt r.
Proof. by intros [-> | (_ & at_ & ->)]. Qed.
(** What was revoked stays revoked, with the time of its revocation. *)
Lemma record_later_revoked r r' at_ : record_later r r' -> tr_revokedAt r = Some at_ -> r' = r.
Proof. by intros [-> | (H & _)] E; [|congruence]. Qed.

Lemma store_later_snoc l r : store_later l (l ++ [r]).
Proof. exists l, [r]. split; [done|]. by apply Forall2_same. Qed.
Lemma store_later_revoke p at_ l : store_later l (update_first p (revoke_record at_) l).
Proof.
  exists (update_first p (revoke_record at_) l), []. rewrite app_nil_r. split; [done|].
  apply update_first_Forall2; [intros r; by left|]. intros r _ _. apply revoke_record_later.
Qed.
Lemma store_later_elem l l' r : store_later l l' -> r ∈ l -> exists r', r' ∈ l' /\ record_later r r'.
Proof.
  intros (k & a & -> & Hk) Hr. apply list_elem_of_lookup in Hr as [i Hi].
  destruct (Forall2_lookup_l _ _ _ _ _ Hk Hi) as (r' & Hr' & Hl). exists r'. split; [|done].
  apply elem_of_app. left. by eapply list_elem_of_lookup_2.
Qed.

(** ** Finding a record by one of its unique values *)

Lemma unique_by_hash l r : unique_records l -> r ∈ l -> find_first (has_hash (tr_tokenHash r)) l = Some r.
Proof.
  intros [_ Hnd] Hr. apply (find_first_unique_key tr_tokenHash); [done|done|apply jeqb_refl|].
  intros y Hy. by apply jeqb_true in Hy.
Qed.
Lemma unique_by_id l r : unique_records l -> r ∈ l ->
  find_first (is_record (tr_organizationId r) (tr_id r)) l = Some r.
Proof.
  intros [Hnd _] Hr. apply (find_first_unique_key tr_id); [done|done|unfold is_record; by rewrite !jeqb_refl|].
  intros y Hy. unfold is_record in Hy. bool_inv. by apply jeqb_true.
Qed.

(** ** The memory repository is a store *)

Section Memory.
Context {CO : Collation}.

Definition memory_records (m : MemoryApiTokenRepository) : list ApiTokenRecord := (mr_records m).*2.
(** The two maps are in step. *)
Definition memory_ok (m : MemoryApiTokenRepository) : Prop :=
  mr_records m = (fun r => (tr_id r, r)) <$> memory_records m /\
  mr_hashes m = (fun r => (tr_tokenHash r, tr_id r)) <$> memory_records m /\
  unique_records (memory_records m).

Lemma memory_get m id : memory_ok m ->
  map_get id (mr_records m) = find_first (fun r => jeqb (tr_id r) id) (memory_records m).
Proof. intros [E _]. unfold map_get. rewrite E, find_first_fmap. by destruct (find_first _ _). Qed.
Lemma memory_get_hash m h : memory_ok m ->
  map_get h (mr_hashes m) = tr_id <$> find_first (has_hash h) (memory_records m).
Proof. intros (_ & E & _). unfold map_get. rewrite E, find_first_fmap. by destruct (find_first _ _). Qed.
Lemma map_has_false {A} k (m : list (jstr * A)) : map_has k m = false -> k ∉ m.*1.
Proof.
  intros H Hin. apply list_elem_of_fmap in Hin as (e & -> & He).
  assert (map_has e.1 m = true) by (apply existsb_exists; exists e; rewrite <- list_elem_of_In; split; [done|apply jeqb_refl]).
  congruence.
Qed.

Lemma memory_insert_ok message r m m' : memory_ok m -> memory_insert message r m = Ok m' ->
  memory_ok m' /\ memory_records m' = memory_records m ++ [r].
Proof.
  intros (Er & Eh & Hu1 & Hu2) H. unfold memory_insert in H.
  destruct (_ || _) eqn:G; [done|]. apply orb_false_iff in G as [G1 G2]. injection H as <-.
  assert (Hid : tr_id r ∉ (mr_records m).*1) by by apply map_has_false.
  assert (Hh : tr_tokenHash r ∉ (mr_hashes m).*1) by by apply map_has_false.
  rewrite Er, <- list_fmap_compose in Hid. rewrite Eh, <- list_fmap_compose in Hh.
  assert (Hm : memory_records {| mr_records := map_set (tr_id r) r (mr_records m);
                 mr_hashes := map_set (tr_tokenHash r) (tr_id r) (mr_hashes m) |} = memory_records m ++ [r]).
  { unfold memory_records, map_set. cbn. by rewrite G1, fmap_app. }
  split; [|done]. unfold memory_ok. rewrite Hm. unfold map_set. cbn [mr_records mr_hashes].
  rewrite G1, G2, Er, Eh, !fmap_app. split; [done|]. split; [done|].
  unfold unique_records. rewrite !fmap_app, !NoDup_app.
  repeat split; try done; try (intros x Hx ->%list_elem_of_singleton); try done; apply NoDup_singleton.
Qed.
Lemma memory_insert_reliable message r m : memory_ok m -> unique_records (memory_records m ++ [r]) ->
  is_ok (memory_insert message r m) = true.
Proof.
  intros (Er & Eh & _) [Hu1 Hu2]. unfold memory_insert.
  rewrite fmap_app, NoDup_app in Hu1, Hu2. destruct Hu1 as (_ & Hid & _), Hu2 as (_ & Hh & _).
  assert (map_has (tr_id r) (mr_records m) = false) as ->.
  { apply not_true_iff_false. intros Hx. unfold map_has in Hx. rewrite Er, existsb_fmap in Hx.
    apply existsb_exists in Hx as (x & Hx & Hj). apply jeqb_true in Hj. cbn in Hj. rewrite <- list_elem_of_In in Hx.
    apply (Hid (tr_id x)); [by apply list_elem_of_fmap_2 | rewrite Hj; apply list_elem_of_singleton, eq_refl]. }
  assert (map_has (tr_tokenHash r) (mr_hashes m) = false) as ->; [|done].
  apply not_true_iff_false. intros Hx. unfold map_has in Hx. rewrite Eh, existsb_fmap in Hx.
  apply existsb_exists in Hx as (x & Hx & Hj). apply jeqb_true in Hj. cbn in Hj. rewrite <- list_elem_of_In in Hx.
  apply (Hh (tr_tokenHash x)); [by apply list_elem_of_fmap_2 | rewrite Hj; apply list_elem_of_singleton, eq_refl].
Qed.

Lemma memory_ok_new : memory_ok {| mr_records := []; mr_hashes := [] |}.
Proof. repeat split; constructor. Qed.

Lemma memory_findById_spec o id m : memory_ok m ->
  memory_findById o id m = find_first (is_record o id) (memory_records m).
Proof.
  intros Hm. unfold memory_findById. rewrite (memory_get m id Hm). symmetry.
  apply (find_first_and tr_id (fun r => jeqb (tr_id r) id)); [apply Hm|].
  intros x y Hx Hy. apply jeqb_true in Hx, Hy. congruence.
Qed.
Lemma memory_findByHash_spec h m : memory_ok m ->
  memory_findByHash h m = find_first (has_hash h) (memory_records m).
Proof.
  intros Hm. unfold memory_findByHash. rewrite memory_get_hash by done.
  destruct (find_first (has_hash h) (memory_records m)) as [r|] eqn:E; cbn; [|done].
  rewrite (memory_get m _ Hm). apply find_first_Some in E as [Hr _].
  apply (find_first_unique_key tr_id); [apply Hm|done|apply jeqb_refl|]. intros y Hy. by apply jeqb_true.
Qed.

Lemma hash_pairs (l l' : list ApiTokenRecord) : tr_id <$> l' = tr_id <$> l -> tr_tokenHash <$> l' = tr_tokenHash <$> l ->
  (fun r => (tr_tokenHash r, tr_id r)) <$> l = (fun r => (tr_tokenHash r, tr_id r)) <$> l'.
Proof.
  revert l. induction l' as [|x l' IH]; intros [|y l]; cbn; intros H1 H2; try done.
  injection H1 as ? ?. injection H2 as ? ?. f_equal; [congruence|auto].
Qed.
Lemma memory_revoke_spec o id at_ m : memory_ok m ->
  let '(found, m') := memory_revoke o id at_ m in
  memory_ok m' /\ memory_records m' = update_first (is_record o id) (revoke_record at_) (memory_records m) /\
  found = find_first (is_record o id) (memory_records m').
Proof.
  intros Hm. unfold memory_revoke. rewrite (memory_get m id Hm).
  assert (Hnone : find_first (is_record o id) (memory_records m) = None ->
            memory_ok m /\ memory_records m = update_first (is_record o id) (revoke_record at_) (memory_records m) /\
            None = find_first (is_record o id) (memory_records m)).
  { intros E. split; [done|]. split; [|done]. symmetry. by apply update_first_nomatch. }
  pose proof (memory_findById_spec o id m Hm) as Hf. unfold memory_findById in Hf. rewrite (memory_get m id Hm) in Hf.
  destruct (find_first (fun r => jeqb (tr_id r) id) (memory_records m)) as [r|] eqn:E; [|by apply Hnone].
  destruct (jeqb (tr_organizationId r) o) eqn:Eo; cbn [negb]; [|by apply Hnone].
  clear Hnone. apply find_first_Some in E as [Hr Hid]. apply jeqb_true in Hid as <-.
  pose proof Hm as (Er & Eh & Hu).
  set (l' := update_first (is_record o (tr_id r)) (revoke_record at_) (memory_records m)).
  assert (Hset : map_set (tr_id r) (revoke_record at_ r) (mr_records m) = (fun r => (tr_id r, r)) <$> l').
  { unfold map_set. assert (map_has (tr_id r) (mr_records m) = true) as ->.
    { unfold map_has. rewrite Er, existsb_fmap. apply existsb_exists. exists r. rewrite <- list_elem_of_In.
      split; [done|]. apply jeqb_refl. }
    rewrite Er at 1. unfold l'.
    rewrite (update_first_pairs _ _ _ (revoke_record at_)).
    - f_equal. apply update_first_ext; [|done]. intros x Hx. unfold is_record. cbn.
      destruct (jeqb (tr_id x) (tr_id r)) eqn:Ex; [|done]. apply jeqb_true in Ex.
      by rewrite (NoDup_key_inj tr_id _ x r (proj1 Hu) Hx Hr Ex), Eo.
    - intros x Hx Hk. cbn in *. apply jeqb_true in Hk.
      rewrite (NoDup_key_inj tr_id _ x r (proj1 Hu) Hx Hr Hk).
      unfold revoke_record. by destruct (tr_revokedAt r). }
  assert (Hkeys : tr_id <$> l' = tr_id <$> memory_records m /\ tr_tokenHash <$> l' = tr_tokenHash <$> memory_records m).
  { unfold l'. split; apply update_first_fmap; intros x _; unfold revoke_record; by destruct (tr_revokedAt x). }
  assert (Hl : memory_records {| mr_records := map_set (tr_id r) (revoke_record at_ r) (mr_records m);
                                 mr_hashes := mr_hashes m |} = l').
  { unfold memory_records. cbn [mr_records]. rewrite Hset, <- list_fmap_compose. apply list_fmap_id. }
  cbv zeta. split; [|split; [done|]].
  - unfold memory_ok. rewrite Hl. cbn [mr_records mr_hashes]. split; [done|].
    destruct Hkeys as [Hk1 Hk2]. split; [|unfold unique_records; by rewrite Hk1, Hk2].
    rewrite Eh. by apply hash_pairs.
  - rewrite Hl. unfold l'. symmetry.
    apply find_first_update; [by rewrite <- Hf|]. intros y Hy. unfold revoke_record. by destruct (tr_revokedAt y).
Qed.

#[export] Instance memory_store_laws : TokenStoreLaws MemoryApiTokenRepository.
Proof.
  refine {| store_records := memory_records; store_ok := memory_ok |}.
  - by intros s (_ & _ & H).
  - intros r s Hs. cbn. unfold memory_create. destruct (memory_insert _ r s) as [m'|e] eqn:E; [|by split].
    by eapply memory_insert_ok.
  - intros h s Hs. cbn. by apply memory_findByHash_spec.
  - intros o id s Hs. cbn. by apply memory_findById_spec.
  - intros o subject limit s Hs. cbn. eexists. split; [apply js_sort_perm | done].
  - intros o id at_ s Hs. cbn. pose proof (memory_revoke_spec o id at_ s Hs) as H.
    destruct (memory_revoke o id at_ s) as [found m']. tauto.
Defined.
#[export] Instance memory_store_reliable : ReliableStore MemoryApiTokenRepository.
Proof.
  split; try done.
  - intros r s Hs Hu. cbn. unfold memory_create.
    pose proof (memory_insert_reliable "API token record already exists" r s Hs Hu) as H.
    by destruct (memory_insert _ r s).
  - intros o id at_ s Hs. cbn. by destruct (memory_revoke o id at_ s).
Qed.
End Memory.
