(* ===== verification/TokenService.v ===== *)
(** * API tokens: the service

    [DefaultApiTokenService] of packages/api-tokens/src/index.ts.  A method is a
    program: what it awaits, and everything else outside of it that it reads, is a
    [call], answered by the world, and other requests act between two calls. *)

From Stdlib Require Import ZArith Lia SpecFloat.
From stdpp Require Import base list strings sets.
From S2P Require Import Prelude Js Dates Json Wire Contracts Numbers Web Access Names TokenCodec Tokens.

Local Open Scope Z_scope.

(** ** Requests *)

(** Header names are lower case and unique, as [Headers] keeps them; the body
    is the chunks its stream yields, [None] a read that fails. *)
Record HttpRequest : Type := {
  rq_url : jstr;
  rq_method : jstr;
  rq_headers : list (jstr * jstr);
  rq_body : option (list (option (list Z)));
}.
(** [request.headers.get(name)]. *)
Definition header (name : string) (request : HttpRequest) : option jstr :=
  snd <$> find_first (fun entry => jeqb entry.1 (js name)) (rq_headers request).
Definition has_header (name : string) (request : HttpRequest) : bool :=
  match header name request with Some _ => true | None => false end.
Definition hasCookie (request : HttpRequest) : bool :=
  match header "cookie" request with Some cookie => negb (blank cookie) | None => false end.

(** ** Calls and programs *)

(** What the service asks of its environment.  [None] as the answer of the
    identity provider or the token generator is a rejection. *)
Inductive call : Type -> Type :=
| Now : call Z
| GetOrganizationSession (request : HttpRequest) : call (option jsval)
| GetMembership (organizationId userId : jstr) : call (option jsval)
| GenerateToken : call (option jsval)
| RandomUUID : call (option jstr)
| RandomBytes (size : nat) : call (list Z)
| CreateRecord (record : ApiTokenRecord) : call (tokens unit)
| FindByHash (tokenHash : jstr) : call (tokens (option ApiTokenRecord))
| FindById (organizationId tokenId : jstr) : call (tokens (option ApiTokenRecord))
| ListRecords (organizationId : jstr) (subject : option jstr) (limit : Z) : call (tokens (list ApiTokenRecord))
| RevokeRecord (organizationId tokenId revokedAt : jstr) : call (tokens (option ApiTokenRecord))
| AppendAudit (event : ApiTokenAuditEvent) : call unit.

Inductive prog (A : Type) : Type :=
| Return (r : tokens A)
| Await (X : Type) (c : call X) (k : X -> prog A).
Arguments Return {A} r.
Arguments Await {A X} c k.

Fixpoint bind {A B} (p : prog A) (f : A -> prog B) : prog B :=
  match p with
  | Return (Ok a) => f a
  | Return (Err e) => Return (Err e)
  | Await c k => Await c (fun x => bind (k x) f)
  end.
(** [try { ... } catch (error) { ... }]. *)
Fixpoint catch {A} (p : prog A) (f : token_error -> prog A) : prog A :=
  match p with
  | Return (Ok a) => Return (Ok a)
  | Return (Err e) => f e
  | Await c k => Await c (fun x => catch (k x) f)
  end.
Definition ret {A} (a : A) : prog A := Return (Ok a).
Definition throw {A} (e : token_error) : prog A := Return (Err e).

Declare Scope prog_scope.
Delimit Scope prog_scope with prog.
Notation "'let!' x ':=' p 'in' k" := (bind p (fun x => k))
  (at level 200, x pattern, p at level 100, k at level 200, right associativity) : prog_scope.
Notation "'await' x ':=' c 'in' k" := (Await c (fun x => k))
  (at level 200, x pattern, c at level 100, k at level 200, right associativity) : prog_scope.
Local Open Scope prog_scope.

(** ** Configuration *)

Record ApiTokenServiceOptions : Type := {
  op_audit : bool;
  op_tokenGenerator : bool;
  op_tokenPrefix : option jstr;
  op_defaultTtlSeconds : option spec_float;
  op_maxTtlSeconds : option spec_float;
  op_maxList : option spec_float;
  op_sessionSecret : option (jstr + list Z);
  op_sessionCookieName : option jstr;
  op_sessionSecureCookies : option jsval;
}.
Record ApiTokenServiceConfig : Type := {
  cf_audit : bool;
  cf_tokenGenerator : bool;
  cf_tokenPrefix : jstr;
  cf_defaultTtlSeconds : spec_float;
  cf_maxTtlSeconds : spec_float;
  cf_maxList : Z;
  cf_sessionKey : option (list Z);
  cf_sessionCookieName : jstr;
  cf_sessionSecureCookies : bool;
}.
Definition token_prefix (s : jstr) : bool :=
  match s with
  | c :: r => (is_lower c || is_upper c) && (jlen r <=? 15) &&
              forallb (fun d => is_alnum d || (d =? 95) || (d =? 45)) r
  | [] => false
  end.
Definition cookie_name_char (c : Z) : bool :=
  is_alnum c || bool_decide (c ∈ js "!#$%&'*+.^_`|~-").
Definition normalizeCookieName (value : jstr) : tokens jstr :=
  throw_if bool_decide (value = []) || negb (forallb cookie_name_char value)
    with ApiTokenConfigurationError "API token session cookie name is invalid" ;;
  Ok value.
Definition positive (x : spec_float) : bool := num_finite x && negb (num_le x num_zero).
Definition newService (options : ApiTokenServiceOptions) : tokens ApiTokenServiceConfig :=
  let tokenPrefix := default DEFAULT_API_TOKEN_PREFIX (op_tokenPrefix options) in
  throw_if negb (token_prefix tokenPrefix) with ApiTokenConfigurationError "API token prefix is invalid" ;;
  let defaultTtl := default (num_of_Z DEFAULT_API_TOKEN_TTL_SECONDS) (op_defaultTtlSeconds options) in
  let maxTtl := default (num_of_Z DEFAULT_API_TOKEN_MAX_TTL_SECONDS) (op_maxTtlSeconds options) in
  let maxList := default (num_of_Z DEFAULT_API_TOKEN_MAX_LIST) (op_maxList options) in
  let? cookieName := normalizeCookieName (default DEFAULT_API_TOKEN_SESSION_COOKIE (op_sessionCookieName options)) in
  let? secure := match nullish (default JUndef (op_sessionSecureCookies options)) (JBool true) with
                 | JBool b => Ok b
                 | _ => Err (ApiTokenConfigurationError "API token session secure-cookie setting is invalid")
                 end in
  let? sessionKey :=
    match op_sessionSecret options with
    | None => Ok None
    | Some secret =>
        let bytes := match secret with inl text => textEncode text | inr bytes => bytes end in
        throw_if Z.of_nat (length bytes) <? 32
          with ApiTokenConfigurationError "API token session secret must contain at least 32 bytes" ;;
        Ok (Some bytes)
    end in
  let limits := ApiTokenConfigurationError "API token lifetime or list limits are invalid" in
  throw_if negb (positive defaultTtl) || negb (positive maxTtl) || num_lt maxTtl defaultTtl with limits ;;
  match safe_integer maxList with
  | None => Err limits
  | Some maxList =>
      throw_if (maxList <=? 0) || (1000 <? maxList) with limits ;;
      Ok {| cf_audit := op_audit options; cf_tokenGenerator := op_tokenGenerator options;
            cf_tokenPrefix := tokenPrefix; cf_defaultTtlSeconds := defaultTtl; cf_maxTtlSeconds := maxTtl;
            cf_maxList := maxList; cf_sessionKey := sessionKey; cf_sessionCookieName := cookieName;
            cf_sessionSecureCookies := secure |}
  end.

(** ** The service *)

Section Service.
Context {DR : DateRuntime} {CR : Crypto} {HM : Hmac}.
Context (config : ApiTokenServiceConfig).

Definition unauthorized : token_error :=
  api_token_error "UNAUTHORIZED" "A Better Auth organization session is required" 401.
Definition inactive_membership : token_error :=
  api_token_error "FORBIDDEN" "The current organization membership is not active" 403.
Definition token_not_found : token_error := api_token_error "TOKEN_NOT_FOUND" "Token was not found" 404.

Definition membershipFor (organizationId userId : jstr) : prog (option NormalizedMembership) :=
  await answer := GetMembership organizationId userId in
  ret (match answer with
        | Some value => normalizeMembership value organizationId userId
        | None => None
        end).
Definition resolveManagementContext (request : HttpRequest) (requireCookie : bool)
    : prog (OrganizationSession * NormalizedMembership) :=
  if requireCookie && (negb (hasCookie request) || has_header "authorization" request) then throw unauthorized
  else
    await answer := GetOrganizationSession request in
    match answer ≫= normalizeSession with
    | None => throw unauthorized
    | Some session =>
        let! membership := membershipFor (os_organizationId session) (os_userId session) in
        match membership with
        | None => throw inactive_membership
        | Some membership => ret (session, membership)
        end
    end.
Definition emitAudit (event : ApiTokenAuditEvent) : prog unit :=
  if cf_audit config then await _ := AppendAudit event in ret tt else ret tt.
(** The first steps of the three management methods. *)
Definition sessionMembership (session : OrganizationSession) : prog NormalizedMembership :=
  let! membership := membershipFor (os_organizationId session) (os_userId session) in
  match membership with
  | None => throw inactive_membership
  | Some membership => ret membership
  end.
Definition tokenHash (token : jstr) : jstr := digestBytes (textEncode token).

(** *** Creating *)

Definition bad_token_char (c : Z) : bool := (c =? 13) || (c =? 10) || (c =? 9) || (c =? 32).
Definition token_material (candidate : jstr) : bool :=
  (20 <=? jlen candidate) && (jlen candidate <=? 512) && negb (existsb bad_token_char candidate).
(** [this.tokenGenerator()]: the injected generator, or the default one. *)
Definition generateToken : prog jsval :=
  if cf_tokenGenerator config then
    await candidate := GenerateToken in
    match candidate with Some v => ret v | None => throw OtherError end
  else
    await bytes := RandomBytes 32 in
    ret (JStr (cf_tokenPrefix config ++ base64UrlEncode bytes)).
Definition tokenId : prog jstr :=
  await uuid := RandomUUID in
  match uuid with
  | Some uuid => Return (boundedId (JStr (js "st_" ++ uuid)) "Token id")
  | None =>
      await bytes := RandomBytes 18 in
      Return (boundedId (JStr (js "st_" ++ base64UrlEncode bytes)) "Token id")
  end.
(** The attempts left after this one; a failed creation but the last is tried again. *)
Fixpoint create_attempts (left_ : nat) (record : jstr -> ApiTokenRecord) : prog (ApiTokenRecord * jstr) :=
  let! candidate := generateToken in
  match candidate with
  | JStr candidate =>
      if negb (token_material candidate)
      then throw (ApiTokenConfigurationError "API token generator returned invalid material")
      else
        let next := record (tokenHash candidate) in
        await created := CreateRecord next in
        match created with
        | Ok _ => ret (next, candidate)
        | Err e => match left_ with O => throw e | S left_ => create_attempts left_ record end
        end
  | _ => throw (ApiTokenConfigurationError "API token generator returned invalid material")
  end.
(** What a creation asks for, once it is checked against the membership. *)
Definition requested_grant (membership : NormalizedMembership) (session : OrganizationSession) (input : jsval)
    : tokens (jstr * Role * list jstr) :=
  throw_if negb (is_undef (field input "organizationId")) &&
           negb (is_text (field input "organizationId") (os_organizationId session))
    with api_token_error "FORBIDDEN" "Token organization must match the active organization session" 403 ;;
  let? name := normalizeName (field input "name") in
  let? supplied := normalizeIdentityRole (nullish (field input "roleCeiling") (field input "role")) in
  let highest := highestRole (nm_roles membership) in
  let requestedRole := default highest supplied in
  throw_if negb (roleAtMost requestedRole highest)
    with api_token_error "ROLE_ESCALATION" "Token role exceeds the current membership role" 403 ;;
  let roleCap := roleScopes requestedRole in
  let? requestedScopes := if is_undef (field input "scopes") then Ok roleCap
                          else normalizeScopes (field input "scopes") in
  throw_if existsb (fun scope => negb (hasScope (nm_scopes membership) scope) || negb (hasScope roleCap scope))
             requestedScopes
    with api_token_error "SCOPE_ESCALATION" "Token scopes exceed the current membership grants" 403 ;;
  Ok (name, requestedRole, requestedScopes).
Definition createToken (context input : jsval) : prog CreateApiTokenResult :=
  match normalizeSession context with
  | None => throw unauthorized
  | Some session =>
      let! membership := sessionMembership session in
      let! (name, requestedRole, requestedScopes) := Return (requested_grant membership session input) in
      await nowMs := Now in
      let! expiresAt := Return (parseExpiry (field input "expiresAt") (field input "expiresInSeconds") nowMs
                                  (cf_defaultTtlSeconds config) (cf_maxTtlSeconds config)) in
      let! createdAt := Return (dateText nowMs) in
      let! id := tokenId in
      let! (record, rawToken) := create_attempts 2 (fun hash => {|
        tr_id := id; tr_organizationId := os_organizationId session; tr_userId := os_userId session;
        tr_name := name; tr_tokenHash := hash; tr_roleCeiling := requestedRole; tr_scopes := requestedScopes;
        tr_expiresAt := expiresAt; tr_createdAt := createdAt; tr_revokedAt := None |}) in
      let! _ := emitAudit {|
        ta_action := TokenCreated; ta_organizationId := os_organizationId session;
        ta_actorId := os_userId session; ta_subject := os_userId session; ta_resourceId := tr_id record;
        ta_tokenId := tr_id record; ta_createdAt := createdAt;
        ta_details := Some (tr_roleCeiling record, tr_expiresAt record, Z.of_nat (length (tr_scopes record))) |} in
      ret (cloneMetadataWithToken record rawToken)
  end.

(** *** Listing *)

Record ApiTokenListOptions : Type := {
  lo_includeRevoked : bool;
  lo_subject : option jstr;
  lo_limit : option Z;
}.
Definition listTokens (context : jsval) (options : ApiTokenListOptions) : prog (list ApiTokenMetadata) :=
  match normalizeSession context with
  | None => throw unauthorized
  | Some session =>
      let! membership := sessionMembership session in
      let! requestedSubject :=
        match lo_subject options with
        | None => ret None
        | Some subject => Return (let? s := nonEmptyString (JStr subject) "Token subject" 256 in Ok (Some s))
        end in
      let subject := if canManageAll membership then requestedSubject else Some (os_userId session) in
      let limit := match lo_limit options with
                   | None => cf_maxList config
                   | Some limit => Z.min (cf_maxList config) (Z.max 1 limit)
                   end in
      await answer := ListRecords (os_organizationId session) subject limit in
      let! rows := Return answer in
      ret (metadata <$> List.filter (fun record =>
              lo_includeRevoked options || bool_decide (tr_revokedAt record = None)) rows)
  end.

(** *** Revoking *)

Definition revokeToken (context : jsval) (token : jsval) : prog ApiTokenMetadata :=
  match normalizeSession context with
  | None => throw unauthorized
  | Some session =>
      let! cleanId := Return (boundedId token "Token id") in
      let! membership := sessionMembership session in
      await answer := FindById (os_organizationId session) cleanId in
      let! existing := Return answer in
      match existing with
      | None => throw token_not_found
      | Some existing =>
          if negb (jeqb (tr_userId existing) (os_userId session)) && negb (canManageAll membership)
          then throw (api_token_error "FORBIDDEN"
                        "Only organization administrators can revoke another member token" 403)
          else
            let! revokedAt := match tr_revokedAt existing with
                              | Some revokedAt => ret revokedAt
                              | None => await now := Now in Return (dateText now)
                              end in
            await answer := RevokeRecord (os_organizationId session) cleanId revokedAt in
            let! revoked := Return answer in
            match revoked with
            | None => throw token_not_found
            | Some revoked =>
                await now := Now in
                let! createdAt := Return (dateText now) in
                let! _ := emitAudit {|
                  ta_action := TokenRevoked; ta_organizationId := os_organizationId session;
                  ta_actorId := os_userId session; ta_subject := os_userId session; ta_resourceId := cleanId;
                  ta_tokenId := cleanId; ta_createdAt := createdAt; ta_details := None |} in
                ret (metadata revoked)
            end
      end
  end.

(** *** Authenticating *)

(** A failing lookup is no record. *)
Definition found_or_none (answer : tokens (option ApiTokenRecord)) : option ApiTokenRecord :=
  match answer with Ok found => found | Err _ => None end.
Definition recordForRawToken (rawToken : jstr) : prog (option ApiTokenRecord) :=
  let token := default rawToken (after_bearer rawToken) in
  if negb (token_material token) then ret None
  else await answer := FindByHash (tokenHash token) in ret (found_or_none answer).
(** What is left of [principalForRecord] once the membership is known. *)
Definition principal_of (record : ApiTokenRecord) (membership : NormalizedMembership) : ApiTokenPrincipal :=
  clonePrincipal {|
    tp_organizationId := tr_organizationId record; tp_subject := tr_userId record;
    tp_roles := [effectiveRole membership (tr_roleCeiling record)];
    tp_scopes := scopesForToken record membership; tp_display := nm_display membership;
    tp_tokenId := tr_id record |}.
Definition principalForRecord (record : ApiTokenRecord) : prog (option ApiTokenPrincipal) :=
  match tr_revokedAt record, dateParse (tr_expiresAt record) with
  | None, Some expiry =>
      await now := Now in
      if expiry <=? now then ret None
      else
        let! membership := membershipFor (tr_organizationId record) (tr_userId record) in
        ret (principal_of record <$> membership)
  | _, _ => ret None
  end.
Definition authenticateBearerToken (rawToken : jstr) : prog (option ApiTokenPrincipal) :=
  let! record := recordForRawToken rawToken in
  match record with
  | None => ret None
  | Some record => principalForRecord record
  end.

(** *** Browser sessions *)

Record ApiTokenSessionClaims : Type := {
  sc_tokenId : jstr;
  sc_organizationId : jstr;
  sc_userId : jstr;
  sc_exp : Z;
}.
Definition sessionClaimString (value : jsval) (maxLength : Z) : option jstr :=
  match value with
  | JStr s => if (jlen s =? 0) || (maxLength <? jlen s) || existsb control_unit s then None else Some s
  | _ => None
  end.
Definition parseApiTokenSessionClaims (value : jsval) : option ApiTokenSessionClaims :=
  if negb (isObject value) then None
  else
    match sessionClaimString (field value "tokenId") API_TOKEN_ID_MAX_LENGTH,
          sessionClaimString (field value "organizationId") 256,
          sessionClaimString (field value "userId") 256,
          field value "v", field value "exp" with
    | Some tokenId, Some organizationId, Some userId, JNum v, JNum exp =>
        match num_to_Z v, safe_integer exp with
        | Some v, Some exp =>
            if (v =? API_TOKEN_SESSION_PROTOCOL_VERSION) &&
               is_text (field value "aud") API_TOKEN_SESSION_AUDIENCE && identifier id_char tokenId && (0 <? exp)
            then Some {| sc_tokenId := tokenId; sc_organizationId := organizationId; sc_userId := userId;
                         sc_exp := exp |}
            else None
        | _, _ => None
        end
    | _, _, _, _, _ => None
    end.
Definition claims_wire (claims : ApiTokenSessionClaims) : wire :=
  WObj [(js "v", WInt API_TOKEN_SESSION_PROTOCOL_VERSION); (js "aud", WStr API_TOKEN_SESSION_AUDIENCE);
        (js "tokenId", WStr (sc_tokenId claims)); (js "organizationId", WStr (sc_organizationId claims));
        (js "userId", WStr (sc_userId claims)); (js "exp", WInt (sc_exp claims))].

(** The signature of a value under the configured key. *)
Definition session_signature (key : list Z) (value : jstr) : list Z := hmac_sign key (textEncode value).
Definition signSession (value : jstr) : jstr :=
  match cf_sessionKey config with
  | None => []
  | Some key => base64UrlEncode (session_signature key value)
  end.
Definition verifySession (value suppliedSignature : jstr) : bool :=
  match cf_sessionKey config, base64UrlDecode suppliedSignature with
  | Some key, Some supplied =>
      (Z.of_nat (length supplied) =? 32) && timingSafeEqual supplied (session_signature key value)
  | _, _ => false
  end.
(** What a cookie claims, once its signature is verified. *)
Definition cookie_claims (raw : jstr) : option ApiTokenSessionClaims :=
  if jeqb raw [] || (API_TOKEN_SESSION_COOKIE_MAX_LENGTH <? jlen raw) then None
  else
    match split 46 raw with
    | [prefix; encoded; signature] =>
        if negb (jeqb prefix API_TOKEN_SESSION_COOKIE_PREFIX) || jeqb encoded [] || jeqb signature [] ||
           negb (verifySession (prefix ++ 46 :: encoded) signature) then None
        else
          (base64UrlDecode encoded ≫= fun bytes => json_parse (textDecodeReplace bytes)) ≫=
          parseApiTokenSessionClaims
    | _ => None
    end.
Definition browserSessionPrincipal (request : HttpRequest) : prog (option ApiTokenPrincipal) :=
  match cf_sessionKey config with
  | None => ret None
  | Some _ =>
      match cookie_value (cf_sessionCookieName config) (parseCookieHeader (header "cookie" request)) ≫=
            cookie_claims with
      | None => ret None
      | Some claims =>
          catch
            (await now := Now in
             if sc_exp claims <=? now / 1000 then ret None
             else
               await answer := FindById (sc_organizationId claims) (sc_tokenId claims) in
               let! record := Return answer in
               match record with
               | Some record =>
                   if jeqb (tr_organizationId record) (sc_organizationId claims) &&
                      jeqb (tr_userId record) (sc_userId claims)
                   then principalForRecord record
                   else ret None
               | None => ret None
               end)
            (fun _ => ret None)
      end
  end.
(** The attributes of the cookie, after its value. *)
Definition cookie_text (value : jstr) (maxAge : Z) (expires : jstr) : jstr :=
  join (js "; ")
    ([cf_sessionCookieName config ++ 61 :: value; js "Path=/"; js "HttpOnly"; js "SameSite=Lax";
      js "Max-Age=" ++ js_of_Z maxAge; js "Expires=" ++ expires] ++
     if cf_sessionSecureCookies config then [js "Secure"] else []).
Definition session_cookie_value (claims : ApiTokenSessionClaims) : jstr :=
  let signedValue := API_TOKEN_SESSION_COOKIE_PREFIX ++ 46 ::
                     base64UrlEncode (textEncode (json_text (claims_wire claims))) in
  signedValue ++ 46 :: signSession signedValue.
Definition createSession (rawToken : jstr) : prog (option (jstr * ApiTokenPrincipal)) :=
  match cf_sessionKey config with
  | None => ret None
  | Some _ =>
      let! record := recordForRawToken rawToken in
      match record with
      | None => ret None
      | Some record =>
          let! principal := principalForRecord record in
          match principal, dateParse (tr_expiresAt record) with
          | Some principal, Some expiresAtMs =>
              await nowMs := Now in
              let exp := expiresAtMs / 1000 in
              if exp <=? nowMs / 1000 then ret None
              else
                let claims := {| sc_tokenId := tr_id record; sc_organizationId := tr_organizationId record;
                                 sc_userId := tr_userId record; sc_exp := exp |} in
                let maxAge := Z.max 1 ((expiresAtMs - nowMs) / 1000) in
                ret (Some (cookie_text (session_cookie_value claims) maxAge (toUTCString expiresAtMs),
                            clonePrincipal principal))
          | _, _ => ret None
          end
      end
  end.
Definition clearSessionCookie : jstr := cookie_text [] 0 (js "Thu, 01 Jan 1970 00:00:00 GMT").

Definition authenticate (request : HttpRequest) : prog (option ApiTokenPrincipal) :=
  if has_header "authorization" request then
    match bearerToken (header "authorization" request) with
    | None => ret None
    | Some token => authenticateBearerToken token
    end
  else browserSessionPrincipal request.
End Service.
