(* ===== verification/TokenRoutes.v ===== *)
(** * API tokens: the routes

    [createHandler] of packages/api-tokens/src/index.ts: which requests are
    token requests, the check of the origin of a mutation that a cookie
    authenticates, the bounded body, and the answers.  [URL] is the platform's and
    a parameter; the stream of the body yields the chunks of the request. *)

From Stdlib Require Import ZArith Lia SpecFloat.
From stdpp Require Import base list strings sets.
From S2P Require Import Prelude Js Dates Json Wire Contracts Numbers Web Access Names TokenCodec Tokens TokenService.

Local Open Scope Z_scope.
Local Open Scope prog_scope.

(** ** [searchParams.get(name)] *)

(** The bytes of a percent-encoded text, with [+] as a space. *)
Fixpoint percent_bytes (s : jstr) : list Z :=
  match s with
  | 37 :: ((a :: b :: r) as s') =>
      match hexval a, hexval b with
      | Some h, Some l => h * 16 + l :: percent_bytes r
      | _, _ => 37 :: percent_bytes s'
      end
  | c :: s' => (if c =? 43 then 32 else c) :: percent_bytes s'
  | [] => []
  end.
Definition decode_component (s : jstr) : jstr := of_code_points (utf8_replace 0 0 0x80 0xbf (percent_bytes s)).
Definition query_entry (part : jstr) : option (jstr * jstr) :=
  match part with
  | [] => None
  | _ => let parts := default (part, []) (split_at_equals part) in
         Some (decode_component parts.1, decode_component parts.2)
  end.
(** [search] begins with a question mark when it is not empty. *)
Definition search_param (name : jstr) (search : jstr) : option jstr :=
  snd <$> find_first (fun entry => jeqb entry.1 name) (omap query_entry (split 38 (drop 1 search))).

(** ** Responses *)

Record Response : Type := {
  rs_status : Z;
  rs_body : wire;
  rs_allow : option jstr;
}.
Definition jsonResponse (value : wire) (status : Z) : Response :=
  {| rs_status := status; rs_body := value; rs_allow := None |}.
Definition errorResponse (error : token_error) : Response :=
  match error with
  | ApiTokenError code message status =>
      jsonResponse (WObj [(js "code", WStr code); (js "message", WStr message)]) status
  | OtherError =>
      jsonResponse (WObj [(js "code", WStr (js "API_TOKEN_ERROR"));
                          (js "message", WStr (js "API token operation failed"))]) 500
  end.
Definition methodNotAllowed (allow : list string) : Response := {|
  rs_status := 405;
  rs_body := WObj [(js "code", WStr (js "METHOD_NOT_ALLOWED")); (js "message", WStr (js "Method is not allowed"))];
  rs_allow := Some (join (js ", ") (js <$> allow)) |}.

(** ** Paths *)

Fixpoint drop_slashes (s : jstr) : jstr :=
  match s with
  | c :: r => if c =? 47 then drop_slashes r else s
  | [] => []
  end.
(** [text.replace(/\/+$/u, '')]. *)
Definition without_trailing_slashes (s : jstr) : jstr := reverse (drop_slashes (reverse s)).
Definition non_empty (s fallback : jstr) : jstr := match s with [] => fallback | _ => s end.

Section Routes.
Context {UR : UrlRuntime}.

Definition requestPath (request : HttpRequest) : tokens jstr :=
  match parseURL (rq_url request) with
  | Some url => Ok (non_empty (without_trailing_slashes (url_pathname url)) (js "/"))
  | None => Err (api_token_error "INVALID_REQUEST" "Request URL is invalid" 400)
  end.
Definition prefix_char (c : Z) : bool := is_alnum c || (c =? 47) || (c =? 95) || (c =? 45).
Definition safeRoutePrefix (value : option jstr) : tokens jstr :=
  let prefix := non_empty (without_trailing_slashes (default (js "/v1/tokens") value)) (js "/v1/tokens") in
  throw_if negb (startsWith (js "/") prefix) || includes (js "..") prefix ||
           (jlen prefix <=? 1) || negb (forallb prefix_char prefix)
    with ApiTokenConfigurationError "API token route prefix is invalid" ;;
  Ok prefix.
Definition isTokenRoute (path prefix : jstr) : bool :=
  jeqb path prefix || startsWith (prefix ++ [47]) path.
(** [path.slice(prefix.length).replace(/^\//u, '')]. *)
Definition route_suffix (path prefix : jstr) : jstr :=
  match drop (length prefix) path with
  | c :: r => if c =? 47 then r else c :: r
  | [] => []
  end.

(** ** Origins *)

(** The origin of a text that is an origin URL: no credentials, path, query or fragment. *)
Definition origin_only (url : URL) : option jstr :=
  if jeqb (url_origin url) (js "null") || negb (jeqb (url_username url) []) || negb (jeqb (url_password url) []) ||
     negb (jeqb (url_pathname url) (js "/")) || negb (jeqb (url_search url) []) || negb (jeqb (url_hash url) [])
  then None else Some (url_origin url).
Definition normalizeTrustedOrigin (value : jsval) (fieldName : string) : tokens jstr :=
  let refused (what : string) := Err (ApiTokenError (js "API_TOKEN_CONFIGURATION") (js fieldName ++ js what) 500) in
  match value with
  | JStr s =>
      if blank s then refused " is required"%string
      else match parseURL s with
           | None => refused " is invalid"%string
           | Some url => match origin_only url with
                         | Some origin => Ok origin
                         | None => refused " must be an origin URL"%string
                         end
           end
  | _ => refused " is required"%string
  end.
(** [undefined] options are [JUndef]. *)
Definition configuredTrustedOrigins (canonicalOrigin trustedOrigins : jsval) : tokens (list jstr) :=
  let? canonical := if is_undef canonicalOrigin then Ok []
                    else let? origin := normalizeTrustedOrigin canonicalOrigin "Canonical API token origin" in
                         Ok [origin] in
  let? trusted := match trustedOrigins with
                  | JUndef => Ok []
                  | JArr l => map_result (fun v => normalizeTrustedOrigin v "Trusted API token origin") l
                  | _ => Err (ApiTokenConfigurationError "Trusted API token origins must be an array")
                  end in
  Ok (dedup (canonical ++ trusted)).
Definition normalizeRequestOrigin (value : jstr) : option jstr := parseURL value ≫= origin_only.
Definition enforceCookieMutationOrigin (request : HttpRequest) (trustedOrigins : list jstr) (allowMissing : bool)
    : tokens unit :=
  throw_if bool_decide (trustedOrigins = []) with api_token_error "API_TOKEN_ORIGIN_NOT_CONFIGURED"
    "A trusted origin is required for cookie-authenticated token mutations" 500 ;;
  match header "origin" request with
  | Some supplied =>
      if blank supplied then
        if allowMissing then Ok tt
        else Err (api_token_error "CSRF_ORIGIN_MISSING"
                    "An Origin header is required for cookie-authenticated token mutations" 403)
      else
        let mismatch := Err (api_token_error "CSRF_ORIGIN_MISMATCH" "Request origin is not trusted" 403) in
        match normalizeRequestOrigin supplied with
        | None => mismatch
        | Some origin => if bool_decide (origin ∈ trustedOrigins) then Ok tt else mismatch
        end
  | None =>
      if allowMissing then Ok tt
      else Err (api_token_error "CSRF_ORIGIN_MISSING"
                  "An Origin header is required for cookie-authenticated token mutations" 403)
  end.

(** ** Bodies *)

Definition too_large : token_error := api_token_error "PAYLOAD_TOO_LARGE" "Request body is too large" 413.
(** The reading loop: the bytes of the chunks, while they are within the bound. *)
Fixpoint read_chunks (maxBodyBytes total : Z) (chunks : list (option (list Z))) : tokens (list Z) :=
  match chunks with
  | [] => Ok []
  | None :: _ => Err OtherError
  | Some chunk :: chunks' =>
      let total := total + Z.of_nat (length chunk) in
      throw_if maxBodyBytes <? total with too_large ;;
      let? rest := read_chunks maxBodyBytes total chunks' in
      Ok (chunk ++ rest)
  end.
Definition bodyJson (value : jsval) : tokens jsval :=
  throw_if negb (isObject value) with api_token_error "INVALID_REQUEST" "Request body must be an object" 400 ;;
  Ok value.
Definition declared_too_large (request : HttpRequest) (maxBodyBytes : Z) : bool :=
  match header "content-length" request with
  | Some length_ => let n := stringToNumber length_ in num_finite n && num_lt (num_of_Z maxBodyBytes) n
  | None => false
  end.
Definition readBoundedJson (request : HttpRequest) (maxBodyBytes : Z) : tokens jsval :=
  throw_if declared_too_large request maxBodyBytes with too_large ;;
  let? text := match rq_body request with
               | None => Ok []
               | Some chunks =>
                   let? bytes := read_chunks maxBodyBytes 0 chunks in
                   Ok (textDecodeReplace bytes)
               end in
  match json_parse text with
  | Some value => bodyJson value
  | None => Err (api_token_error "INVALID_REQUEST" "Request body is invalid JSON" 400)
  end.
Definition CREATE_FIELDS : list string :=
  ["name"; "roleCeiling"; "role"; "scopes"; "expiresAt"; "expiresInSeconds"; "organizationId"]%string.
(** The fields that are not [undefined]. *)
Definition parseCreateInput (body : jsval) : jsval :=
  JObj (omap (fun key => if is_undef (field body key) then None else Some (js key, field body key)) CREATE_FIELDS).

(** ** The handler *)

Record TokenRouteOptions : Type := {
  ro_routePrefix : option jstr;
  ro_maxBodyBytes : option spec_float;
  ro_canonicalOrigin : jsval;
  ro_trustedOrigins : jsval;
  ro_missingOrigin : option jstr;
}.
Record TokenRouteConfig : Type := {
  rc_prefix : jstr;
  rc_maxBodyBytes : Z;
  rc_trustedOrigins : list jstr;
  rc_allowMissing : bool;
}.
Definition createHandler (options : TokenRouteOptions) : tokens TokenRouteConfig :=
  let? prefix := safeRoutePrefix (ro_routePrefix options) in
  let limit := ApiTokenConfigurationError "API token request body limit is invalid" in
  match safe_integer (default (num_of_Z (64 * 1024)) (ro_maxBodyBytes options)) with
  | None => Err limit
  | Some maxBodyBytes =>
      throw_if (maxBodyBytes <=? 0) || (1000000 <? maxBodyBytes) with limit ;;
      let? trustedOrigins := configuredTrustedOrigins (ro_canonicalOrigin options) (ro_trustedOrigins options) in
      let missingOrigin := default (js "deny") (ro_missingOrigin options) in
      throw_if negb (jeqb missingOrigin (js "deny")) && negb (jeqb missingOrigin (js "allow"))
        with ApiTokenConfigurationError "Missing API token origin policy is invalid" ;;
      Ok {| rc_prefix := prefix; rc_maxBodyBytes := maxBodyBytes; rc_trustedOrigins := trustedOrigins;
            rc_allowMissing := jeqb missingOrigin (js "allow") |}
  end.

Section Handler.
Context {DR : DateRuntime} {CR : Crypto} {HM : Hmac}.
Context (config : ApiTokenServiceConfig) (routes : TokenRouteConfig).

Definition bearer_of (request : HttpRequest) : option jstr := bearerToken (header "authorization" request).
(** [await service.authenticate(request)], which must give a principal. *)
Definition authenticated (request : HttpRequest) : prog ApiTokenPrincipal :=
  let! principal := authenticate config request in
  match principal with
  | Some principal => ret principal
  | None => throw (api_token_error "UNAUTHORIZED" "Authentication is required" 401)
  end.
Definition enforce_origin (request : HttpRequest) : prog unit :=
  Return (enforceCookieMutationOrigin request (rc_trustedOrigins routes) (rc_allowMissing routes)).
(** [new URL(request.url).searchParams.get('includeRevoked') === 'true']. *)
Definition includeRevoked (request : HttpRequest) : tokens bool :=
  match parseURL (rq_url request) with
  | Some url => Ok (bool_decide (search_param (js "includeRevoked") (url_search url) = Some (js "true")))
  | None => Err OtherError
  end.
Definition tokens_wire (l : list ApiTokenMetadata) : wire :=
  WObj [(js "tokens", WArr (metadata_wire <$> l))].

Definition post_token (request : HttpRequest) : prog Response :=
  let! _ := match bearer_of request with None => enforce_origin request | Some _ => ret tt end in
  let! (session, _) := resolveManagementContext request true in
  let! body := Return (readBoundedJson request (rc_maxBodyBytes routes)) in
  let! created := createToken config (session_value session) (parseCreateInput body) in
  ret (jsonResponse (created_wire created) 201).
Definition get_tokens (request : HttpRequest) : prog Response :=
  match bearer_of request with
  | Some _ =>
      let! principal := authenticated request in
      let! revoked := Return (includeRevoked request) in
      let subject := if existsb isManagementRole (tp_roles principal) then None else Some (tp_subject principal) in
      let! l := listTokens config (session_value (sessionFromPrincipal principal))
                  {| lo_includeRevoked := revoked; lo_subject := subject; lo_limit := None |} in
      ret (jsonResponse (tokens_wire l) 200)
  | None =>
      let! (session, _) := resolveManagementContext request true in
      let! revoked := Return (includeRevoked request) in
      let! l := listTokens config (session_value session)
                  {| lo_includeRevoked := revoked; lo_subject := None; lo_limit := None |} in
      ret (jsonResponse (tokens_wire l) 200)
  end.
(** The session a revocation acts for. *)
Definition revoker (request : HttpRequest) (tokenId : jstr) : prog OrganizationSession :=
  match bearer_of request with
  | Some _ =>
      let! principal := authenticated request in
      if negb (jeqb (tp_tokenId principal) tokenId) && negb (existsb isManagementRole (tp_roles principal))
      then throw (api_token_error "FORBIDDEN" "A bearer token can revoke only itself" 403)
      else ret (sessionFromPrincipal principal)
  | None =>
      let! _ := enforce_origin request in
      let! (session, _) := resolveManagementContext request true in
      ret session
  end.
Definition revoke_alias (method suffix : jstr) : bool :=
  jeqb method (js "POST") && endsWith (js "/revoke") suffix.
(** [suffix.slice(0, -'/revoke'.length).replace(/\/$/u, '')], or the suffix. *)
Definition raw_token_id (method suffix : jstr) : jstr :=
  if revoke_alias method suffix then
    let id := take (length suffix - 7) suffix in
    if endsWith [47] id then without_last id else id
  else suffix.
Definition revoke_route (request : HttpRequest) (method suffix : jstr) : prog Response :=
  let rawId := raw_token_id method suffix in
  if jeqb rawId [] || bool_decide (47 ∈ rawId) then throw token_not_found
  else
    let! tokenId := Return (boundedId (JStr rawId) "Token id") in
    if negb (jeqb method (js "DELETE")) && negb (revoke_alias method suffix)
    then ret (methodNotAllowed ["DELETE"; "POST"]%string)
    else
      let! session := revoker request tokenId in
      let! revoked := revokeToken config (session_value session) (JStr tokenId) in
      ret (jsonResponse (WObj [(js "revoked", WBool true); (js "token", metadata_wire revoked)]) 200).

(** [request.method.toUpperCase()]: a method is an ASCII token. *)
Definition ascii_upper (c : Z) : Z := if is_lower c then c - 32 else c.
Definition token_route (request : HttpRequest) (path : jstr) : prog Response :=
  let suffix := route_suffix path (rc_prefix routes) in
  let method := ascii_upper <$> rq_method request in
  match suffix with
  | [] =>
      if jeqb method (js "POST") then post_token request
      else if jeqb method (js "GET") then get_tokens request
      else ret (methodNotAllowed ["GET"; "POST"]%string)
  | _ => revoke_route request method suffix
  end.
(** [None]: the request is for another handler. *)
Definition handler (request : HttpRequest) : prog (option Response) :=
  match requestPath request with
  | Err e => ret (Some (errorResponse e))
  | Ok path =>
      if negb (isTokenRoute path (rc_prefix routes)) then ret None
      else catch (let! response := token_route request path in ret (Some response))
             (fun error => ret (Some (errorResponse error)))
  end.
End Handler.
End Routes.
