(* ===== verification/TokenRuns.v ===== *)
(** * API tokens: running the service among other requests

    What the programs of TokenService.v do when the environment answers their
    calls.  Between two calls other requests may act on the repository: they add
    records and revoke them, nothing else ([later]).  [always p s post] says that
    whatever the environment answers and whatever happens in between, [p]
    started in [s] ends with a result and a store that satisfy [post].

    [pool_run_ok] is the reason to reason so: requests that are served at the
    same time, their calls interleaved in any order, each satisfy what [always]
    shows of them alone.  [exec] runs one request alone. *)

From Stdlib Require Import ZArith Lia SpecFloat.
From stdpp Require Import base list strings sets relations.
From S2P Require Import Prelude Js Dates Json Numbers Wire Contracts Web Access Names TokenCodec Tokens.
From S2P Require Import TokenStore TokenService TokenRoutes.

Local Open Scope Z_scope.
Local Open Scope prog_scope.

(** What the calls outside of the repository may answer. *)
Record Environment : Type := {
  env_now : Z -> Prop;
  env_session : HttpRequest -> option jsval -> Prop;
  env_member : jstr -> jstr -> option jsval -> Prop;
  env_token : option jsval -> Prop;
  env_uuid : option jstr -> Prop;
  env_bytes : nat -> list Z -> Prop;
}.
(** Anything the types allow. *)
Definition any_environment : Environment := {|
  env_now _ := True; env_session _ _ := True; env_member _ _ _ := True; env_token _ := True;
  env_uuid _ := True; env_bytes _ _ := True |}.

Section Runs.
Context {S : Type} {TS : TokenStore S} {TL : TokenStoreLaws S}.

Definition later (s s' : S) : Prop := store_ok s' /\ store_later (store_records s) (store_records s').
Definition answers (env : Environment) {X} (c : call X) (s : S) : X -> S -> Prop :=
  match c with
  | Now => fun x s' => env_now env x /\ s' = s
  | GetOrganizationSession request => fun x s' => env_session env request x /\ s' = s
  | GetMembership organizationId userId => fun x s' => env_member env organizationId userId x /\ s' = s
  | GenerateToken => fun x s' => env_token env x /\ s' = s
  | RandomUUID => fun x s' => env_uuid env x /\ s' = s
  | RandomBytes size => fun x s' => env_bytes env size x /\ s' = s
  | CreateRecord record => fun x s' => (x, s') = repo_create record s
  | FindByHash tokenHash => fun x s' => x = repo_findByHash tokenHash s /\ s' = s
  | FindById organizationId tokenId => fun x s' => x = repo_findById organizationId tokenId s /\ s' = s
  | ListRecords organizationId subject limit => fun x s' => x = repo_list organizationId subject limit s /\ s' = s
  | RevokeRecord organizationId tokenId revokedAt =>
      fun x s' => (x, s') = repo_revoke organizationId tokenId revokedAt s
  | AppendAudit _ => fun _ s' => s' = s
  end.
Fixpoint always {A} (env : Environment) (p : prog A) (s : S) (post : tokens A -> S -> Prop) : Prop :=
  match p with
  | Return r => forall s', later s s' -> post r s'
  | Await c k => forall s1, later s s1 -> forall x s2, answers env c s1 x s2 -> always env (k x) s2 post
  end.

(** ** Time only passes *)

Lemma later_refl s : store_ok s -> later s s.
Proof. by split. Qed.
Lemma later_ok s s' : later s s' -> store_ok s'.
Proof. by intros []. Qed.
Lemma later_trans s1 s2 s3 : later s1 s2 -> later s2 s3 -> later s1 s3.
Proof. intros [_ H1] [? H2]. split; [done|]. by etrans. Qed.
(** No answer does more than the others may. *)
Lemma answers_later env {X} (c : call X) s x s' : store_ok s -> answers env c s x s' -> later s s'.
Proof.
  intros Hs H. destruct c; cbn in H;
    try (destruct H as [_ ->]; by apply later_refl); try (subst; by apply later_refl).
  - pose proof (create_law record s Hs) as Hc. rewrite <- H in Hc. destruct Hc as [Hok Hr]. split; [done|].
    destruct x; rewrite Hr; [apply store_later_snoc | done].
  - pose proof (revoke_law organizationId tokenId revokedAt s Hs) as Hc. rewrite <- H in Hc.
    destruct Hc as [Hok Hr]. split; [done|].
    destruct x; [destruct Hr as [-> _]; apply store_later_revoke | by rewrite Hr].
Qed.

(** ** Reasoning about programs *)

Lemma always_mono {A} env (p : prog A) s (post post' : tokens A -> S -> Prop) :
  always env p s post -> (forall r s', store_ok s' -> later s s' -> post r s' -> post' r s') -> store_ok s ->
  always env p s post'.
Proof.
  revert s. induction p as [r|X c k IH]; intros s H Hpost Hs; cbn in *.
  - intros s' Hl. apply Hpost; [by eapply later_ok | done | auto].
  - intros s1 H1 x s2 Hx. pose proof (answers_later env c s1 x s2 (later_ok _ _ H1) Hx) as H2.
    apply IH; [by eapply H | | by eapply later_ok].
    intros r s' Hok Hl. apply Hpost; [done|]. eapply later_trans; [exact H1|]. by eapply later_trans.
Qed.
Lemma always_later {A} env (p : prog A) s s' post : later s s' -> always env p s post -> always env p s' post.
Proof.
  intros Hl. destruct p as [r|X c k]; cbn; intros H.
  - intros s'' Hl'. apply H. by eapply later_trans.
  - intros s1 H1. apply H. by eapply later_trans.
Qed.
Lemma always_bind {A B} env (p : prog A) (f : A -> prog B) s (post : tokens B -> S -> Prop) :
  always env p s (fun r s' => match r with
                              | Ok a => always env (f a) s' post
                              | Err e => forall s'', later s' s'' -> post (Err e) s''
                              end) ->
  store_ok s -> always env (bind p f) s post.
Proof.
  revert s. induction p as [[a|e]|X c k IH]; intros s H Hs; cbn in *.
  - apply H. by apply later_refl.
  - intros s' Hl. eapply H; [by apply later_refl | done].
  - intros s1 H1 x s2 Hx. apply IH; [by eapply H|].
    eapply later_ok, answers_later; [by eapply later_ok | done].
Qed.
Lemma always_catch {A} env (p : prog A) f s (post : tokens A -> S -> Prop) :
  always env p s (fun r s' => match r with
                              | Ok a => forall s'', later s' s'' -> post (Ok a) s''
                              | Err e => always env (f e) s' post
                              end) ->
  store_ok s -> always env (catch p f) s post.
Proof.
  revert s. induction p as [[a|e]|X c k IH]; intros s H Hs; cbn in *.
  - intros s' Hl. eapply H; [by apply later_refl | done].
  - apply H. by apply later_refl.
  - intros s1 H1 x s2 Hx. apply IH; [by eapply H|].
    eapply later_ok, answers_later; [by eapply later_ok | done].
Qed.
Lemma always_return {A} env (r : tokens A) s (post : tokens A -> S -> Prop) :
  (forall s', later s s' -> post r s') -> always env (Return r) s post.
Proof. done. Qed.

(** ** Requests served at the same time *)

Section Pool.
Context {A : Type}.

(** One request takes its next step. *)
Inductive pool_step (env : Environment) : list (prog A) * S -> list (prog A) * S -> Prop :=
| pool_await ps s i X (c : call X) k x s' : ps !! i = Some (Await c k) -> answers env c s x s' ->
    pool_step env (ps, s) (<[i := k x]> ps, s').
(** What is known of each request so far. *)
Definition pool_ok (env : Environment) (posts : list (tokens A -> S -> Prop)) (w : list (prog A) * S) : Prop :=
  store_ok w.2 /\ Forall2 (fun p post => always env p w.2 post) w.1 posts.

Lemma pool_step_ok env posts w w' : pool_step env w w' -> pool_ok env posts w -> pool_ok env posts w'.
Proof.
  intros Hstep [Hs Hall]. destruct Hstep as [ps s i X c k x s' Hi Hx]. cbn in *.
  assert (Hl : later s s') by by eapply answers_later.
  split; cbn; [by eapply later_ok|]. apply Forall2_lookup. intros j.
  destruct (decide (i = j)) as [<-|Hne].
  - rewrite list_lookup_insert_eq by by eapply lookup_lt_Some.
    destruct (Forall2_lookup_l _ _ _ _ _ Hall Hi) as (post & -> & Hp). constructor.
    cbn in Hp. eapply Hp; [by apply later_refl | done].
  - rewrite list_lookup_insert_ne by done.
    pose proof (proj1 (Forall2_lookup _ _ _) Hall j) as Hj.
    destruct Hj; constructor. by eapply always_later.
Qed.
Lemma pool_run_ok env posts w w' : rtc (pool_step env) w w' -> pool_ok env posts w -> pool_ok env posts w'.
Proof. induction 1; eauto using pool_step_ok. Qed.
End Pool.

(** ** Execution

    One request alone, in an environment whose answers are given. *)
Record TokenWorld : Type := {
  w_now : Z;
  w_session : HttpRequest -> option jsval;
  w_member : jstr -> jstr -> option jsval;
  w_token : option jsval;
  w_uuid : option jstr;
  w_bytes : nat -> list Z;
}.
Definition world_env (w : TokenWorld) : Environment := {|
  env_now t := t = w_now w; env_session request x := x = w_session w request;
  env_member o u x := x = w_member w o u; env_token x := x = w_token w; env_uuid x := x = w_uuid w;
  env_bytes n x := x = w_bytes w n |}.
Definition perform (w : TokenWorld) {X} (c : call X) (s : S) : X * S :=
  match c in call X return X * S with
  | Now => (w_now w, s)
  | GetOrganizationSession request => (w_session w request, s)
  | GetMembership organizationId userId => (w_member w organizationId userId, s)
  | GenerateToken => (w_token w, s)
  | RandomUUID => (w_uuid w, s)
  | RandomBytes size => (w_bytes w size, s)
  | CreateRecord record => repo_create record s
  | FindByHash tokenHash => (repo_findByHash tokenHash s, s)
  | FindById organizationId tokenId => (repo_findById organizationId tokenId s, s)
  | ListRecords organizationId subject limit => (repo_list organizationId subject limit s, s)
  | RevokeRecord organizationId tokenId revokedAt => repo_revoke organizationId tokenId revokedAt s
  | AppendAudit _ => (tt, s)
  end.
Fixpoint exec {A} (w : TokenWorld) (p : prog A) (s : S) : tokens A * S :=
  match p with
  | Return r => (r, s)
  | Await c k => let '(x, s') := perform w c s in exec w (k x) s'
  end.
Lemma perform_answers w {X} (c : call X) s : answers (world_env w) c s (perform w c s).1 (perform w c s).2.
Proof. destruct c; cbn; try done; [by destruct (repo_create _ _) | by destruct (repo_revoke _ _ _ _)]. Qed.
(** What holds of every run holds of the execution. *)
Lemma exec_always {A} w (p : prog A) s post : store_ok s -> always (world_env w) p s post ->
  post (exec w p s).1 (exec w p s).2.
Proof.
  revert s. induction p as [r|X c k IH]; intros s Hs H; cbn in *; [by apply H, later_refl|].
  pose proof (perform_answers w c s) as Hp. destruct (perform w c s) as [x s'] eqn:E. cbn in Hp.
  apply IH; [|by eapply H; [apply later_refl|]]. eapply later_ok, answers_later; [exact Hs | exact Hp].
Qed.

End Runs.

(** * API tokens: a concrete run

    An owner and a member of one organization: tokens are created, exchanged for
    a browser session and revoked, on the memory repository and with concrete
    instances of the platform.  The states are executed by the service; the
    witnesses of the token files are taken from them. *)

Module TokenDemo.
#[local] Existing Instance iso_runtime.
#[local] Existing Instance unit_collation.

(** Stand-ins with the sizes of SHA-256 and its HMAC. *)
Definition demo_digest_bytes (bs : list Z) : list Z := (fun b => b mod 256) <$> take 32 (bs ++ repeat 0 32).
Definition crypto : Crypto := {| sha256 := demo_digest_bytes |}.
#[local] Existing Instance crypto.
Definition hmac : Hmac := {| hmac_sign key message := demo_digest_bytes (reverse message ++ key) |}.
#[local] Existing Instance hmac.
Lemma demo_digest_size bs : length (demo_digest_bytes bs) = 32%nat /\ wf_bytes (demo_digest_bytes bs).
Proof.
  unfold demo_digest_bytes. split.
  - rewrite length_fmap, length_take, length_app, repeat_length. lia.
  - apply Forall_fmap, Forall_forall. intros b _. cbn. apply Z.mod_pos_bound. lia.
Qed.
Lemma hmac_laws : HmacLaws hmac.
Proof. split; intros; apply demo_digest_size. Qed.

(** ** The environment *)

Definition t0 : Z := 1700000000000.
Definition options : ApiTokenServiceOptions := {|
  op_audit := true; op_tokenGenerator := false; op_tokenPrefix := None; op_defaultTtlSeconds := None;
  op_maxTtlSeconds := None; op_maxList := None; op_sessionSecret := Some (inl (js "0123456789abcdef0123456789abcdef"));
  op_sessionCookieName := None; op_sessionSecureCookies := None |}.
Definition config : ApiTokenServiceConfig := Eval vm_compute in
  match newService options with
  | Ok config => config
  | Err _ => {| cf_audit := true; cf_tokenGenerator := false; cf_tokenPrefix := []; cf_defaultTtlSeconds := S754_nan;
                cf_maxTtlSeconds := S754_nan; cf_maxList := 0; cf_sessionKey := None; cf_sessionCookieName := [];
                cf_sessionSecureCookies := true |}
  end.
Definition key : list Z := Eval vm_compute in textEncode (js "0123456789abcdef0123456789abcdef").
Definition acme : jstr := js "acme".
Definition alice : jstr := js "alice".
Definition session (user : jstr) : jsval := JObj [(js "userId", JStr user); (js "organizationId", JStr acme)].
Definition member_value (user : jstr) (role : string) : jsval :=
  JObj [(js "userId", JStr user); (js "organizationId", JStr acme); (js "role", JStr (js role))].
Definition members (organizationId user : jstr) : option jsval :=
  if jeqb user alice then Some (member_value alice "owner")
  else if jeqb user (js "bob") then Some (member_value (js "bob") "member") else Some JNull.
Definition world (now : Z) : TokenWorld := {|
  w_now := now; w_session _ := Some (session alice); w_member := members; w_token := None;
  w_uuid := Some (js "0001"); w_bytes n := repeat 7 n |}.
Definition empty_store : MemoryApiTokenRepository := {| mr_records := []; mr_hashes := [] |}.

(** ** A token, from creation to revocation *)

Definition create_input : jsval := JObj [(js "name", JStr (js "ci")); (js "roleCeiling", JStr (js "reader"))].
Abbreviation create := (exec (world t0) (createToken config (session alice) create_input) empty_store).
Definition created_store : MemoryApiTokenRepository := Eval vm_compute in create.2.
Definition no_metadata : ApiTokenMetadata := {|
  tm_id := []; tm_organizationId := []; tm_userId := []; tm_name := []; tm_roleCeiling := Reader; tm_scopes := [];
  tm_expiresAt := []; tm_createdAt := []; tm_revokedAt := None |}.
Definition created : CreateApiTokenResult := Eval vm_compute in
  match create.1 with Ok c => c | Err _ => {| ct_metadata := no_metadata; ct_token := [] |} end.
Lemma run_create : create = (Ok created, created_store).
Proof. vm_compute. reflexivity. Qed.
Definition token : jstr := Eval vm_compute in ct_token created.
Definition record : ApiTokenRecord := Eval vm_compute in
  match store_records created_store with
  | r :: _ => r
  | [] => {| tr_id := []; tr_organizationId := []; tr_userId := []; tr_name := []; tr_tokenHash := [];
             tr_roleCeiling := Reader; tr_scopes := []; tr_expiresAt := []; tr_createdAt := []; tr_revokedAt := None |}
  end.

Abbreviation exchange := (exec (world (t0 + 1000)) (createSession config token) created_store).
Definition set_cookie : jstr := Eval vm_compute in
  match exchange.1 with Ok (Some (cookie, _)) => cookie | _ => [] end.
Abbreviation revoke := (exec (world (t0 + 2000)) (revokeToken config (session alice) (JStr (tr_id record))) created_store).
Definition revoked_store : MemoryApiTokenRepository := Eval vm_compute in revoke.2.
Definition revoked : ApiTokenMetadata := Eval vm_compute in match revoke.1 with Ok m => m | Err _ => no_metadata end.
Lemma run_exchange : exists p, exchange.1 = Ok (Some (set_cookie, p)).
Proof. eexists. vm_compute. reflexivity. Qed.
Lemma memory_ok_by (m : MemoryApiTokenRepository) :
  bool_decide (mr_records m = (fun r => (tr_id r, r)) <$> memory_records m) &&
  bool_decide (mr_hashes m = (fun r => (tr_tokenHash r, tr_id r)) <$> memory_records m) &&
  all_distinct (tr_id <$> memory_records m) && all_distinct (tr_tokenHash <$> memory_records m) = true -> memory_ok m.
Proof. intros H. bool_inv. unfold memory_ok, unique_records. rewrite !all_distinct_NoDup in *. done. Qed.
Lemma created_store_ok : store_ok created_store.
Proof. apply memory_ok_by. vm_compute. reflexivity. Qed.
Lemma empty_store_ok : store_ok empty_store.
Proof. apply memory_ok_by. vm_compute. reflexivity. Qed.
Lemma run_revoke : revoke = (Ok revoked, revoked_store).
Proof. vm_compute. reflexivity. Qed.

(** ** Requests *)

Definition request_with (headers : list (string * jstr)) : HttpRequest := {|
  rq_url := js "https://skills.example/v1/tokens"; rq_method := js "POST";
  rq_headers := (fun h => (js h.1, h.2)) <$> headers; rq_body := None |}.
Definition bearer_request : HttpRequest := request_with [("authorization"%string, js "Bearer " ++ token)].
(** The pair a browser sends back: what precedes the attributes. *)
Definition cookie_header : jstr := Eval vm_compute in hd [] (split 59 set_cookie).
(** The value of the cookie, and what it claims. *)
Definition session_text : jstr := Eval vm_compute in drop 16 cookie_header.
Definition claims : ApiTokenSessionClaims := {|
  sc_tokenId := js "st_0001"; sc_organizationId := acme; sc_userId := alice; sc_exp := 1707776000 |}.
Lemma session_text_claims : cookie_claims config session_text = Some claims.
Proof. vm_compute. reflexivity. Qed.
Definition browser_request : HttpRequest := request_with [("cookie"%string, cookie_header)].
Definition urls : UrlRuntime := {|
  parseURL text :=
    if jeqb text (js "https://skills.example/v1/tokens") then
      Some {| url_protocol := js "https:"; url_username := []; url_password := []; url_hostname := js "skills.example";
              url_port := []; url_pathname := js "/v1/tokens"; url_search := []; url_hash := [];
              url_origin := js "https://skills.example"; url_href := text |}
    else if jeqb text (js "https://evil.example") then
      Some {| url_protocol := js "https:"; url_username := []; url_password := []; url_hostname := js "evil.example";
              url_port := []; url_pathname := js "/"; url_search := []; url_hash := [];
              url_origin := js "https://evil.example"; url_href := text |}
    else None |}.
Definition routes : TokenRouteConfig := {|
  rc_prefix := js "/v1/tokens"; rc_maxBodyBytes := 65536; rc_trustedOrigins := [js "https://skills.example"];
  rc_allowMissing := false |}.

(** ** A list that leaves an active token out *)

(** Bob's first token is active; the hundred he created after it are revoked. *)
Definition bob_record (n : nat) : ApiTokenRecord := {|
  tr_id := js "st_" ++ js_of_nat n; tr_organizationId := acme; tr_userId := js "bob"; tr_name := js "laptop";
  tr_tokenHash := js "sha256:" ++ js_of_nat n; tr_roleCeiling := Reader; tr_scopes := [js "registry:read"];
  tr_expiresAt := toISOString (t0 + 86400000); tr_createdAt := toISOString (t0 + Z.of_nat n);
  tr_revokedAt := if Nat.eqb n 0 then None else Some (toISOString (t0 + 500)) |}.
Definition bob_store : MemoryApiTokenRepository := Eval vm_compute in
  match new_memory (bob_record <$> seq 0 101) with Ok m => m | Err _ => empty_store end.
Lemma bob_store_ok : store_ok bob_store.
Proof. apply memory_ok_by. vm_compute. reflexivity. Qed.
Definition active_only : ApiTokenListOptions := {| lo_includeRevoked := false; lo_subject := None; lo_limit := None |}.
End TokenDemo.
