(* ===== verification/TokenScopes.v ===== *)
(** * API tokens: what a token may do

    The scopes of a token are the intersection of what it was created with,
    of what its user's membership grants now and of what its role may have.  The
    theorems show that [intersectScopes] is that intersection for every scope, that
    a token never carries more than it was given, and what the registry's own
    checks make of the principal. *)

From Stdlib Require Import ZArith Lia SpecFloat.
From stdpp Require Import base list strings sets.
From S2P Require Import Prelude Js Frontmatter Contracts Access Names Tokens TokenStore TokenService.
From S2P Require Import TokenRuns.

Local Open Scope Z_scope.

(** ** Scopes *)

Lemma wildcard_spec w x : wildcard_covers w x = true <-> exists p r, w = p ++ [58; 42] /\ x = p ++ 58 :: r.
Proof.
  unfold wildcard_covers. rewrite andb_true_iff, endsWith_spec. change (js ":*") with [58; 42].
  assert (Hcut : forall p, without_last (p ++ [58; 42]) = p ++ [58]).
  { intros p. unfold without_last. rewrite length_app. cbn [length].
    change [58; 42] with ([58] ++ [42]). rewrite app_assoc. rewrite take_app_le by (rewrite length_app; cbn; lia).
    apply take_ge. rewrite length_app. cbn. lia. }
  split.
  - intros [[p ->] H]. rewrite Hcut in H. apply startsWith_spec in H as [r ->].
    exists p, r. split; [done|]. by rewrite <- app_assoc.
  - intros (p & r & -> & ->). split; [eauto|]. rewrite Hcut. apply startsWith_spec. exists r. by rewrite <- app_assoc.
Qed.
Lemma scope_covers_spec x w : scope_covers x w = true <->
  w = js "*" \/ w = x \/ exists p r, w = p ++ [58; 42] /\ x = p ++ 58 :: r.
Proof. unfold scope_covers. rewrite !orb_true_iff, !jeqb_true, wildcard_spec. tauto. Qed.
Lemma hasScope_spec l x : hasScope l x = true <-> exists w, w ∈ l /\ scope_covers x w = true.
Proof. apply existsb_elem. Qed.

(** Where two wildcards meet, one is inside the other. *)
Lemma prefix_cut (p q r : jstr) : p ++ 58 :: r = q ++ [58; 42] ->
  (p = q /\ r = [42]) \/ exists s, q = p ++ 58 :: s /\ r = s ++ [58; 42].
Proof.
  revert q. induction p as [|c p IH]; intros q H; destruct q as [|d q]; cbn in H.
  - injection H as ->. by left.
  - injection H as <- ->. right. by exists q.
  - injection H as -> H. destruct p as [|? [|? ?]]; cbn in H; discriminate.
  - injection H as <- H. apply IH in H as [[-> ->] | (s & -> & ->)]; [by left|]. right. by exists s.
Qed.
Lemma scope_covers_refl x : scope_covers x x = true.
Proof. apply scope_covers_spec. auto. Qed.
Lemma scope_covers_trans a b x : scope_covers b a = true -> scope_covers x b = true -> scope_covers x a = true.
Proof.
  rewrite !scope_covers_spec. intros [-> | [-> | (p & r & -> & ->)]]; [by left|done|].
  intros [H | [<- | (q & t & H & ->)]].
  - exfalso. change (js "*") with [42] in H. destruct p as [|? [|? ?]]; discriminate.
  - right; right. eauto.
  - right; right. exists p. apply prefix_cut in H as [[-> _] | (s & -> & _)]; [eauto|].
    eexists. split; [done|]. by rewrite <- app_assoc.
Qed.

(** The scope a pair contributes is the meet of the two. *)
Lemma prefixes_nest (p q r t : jstr) : p ++ 58 :: r = q ++ 58 :: t ->
  p = q \/ (exists u, q = p ++ 58 :: u) \/ (exists u, p = q ++ 58 :: u).
Proof.
  revert q. induction p as [|c p IH]; intros [|d q] H; cbn in H; [by left| | |].
  - injection H as <- _. right; left. by exists q.
  - injection H as -> _. right; right. by exists p.
  - injection H as <- H. apply IH in H as [-> | [[u ->] | [u ->]]]; [by left|right; left; by exists u|right; right; by exists u].
Qed.
Lemma scope_meet_spec a b x :
  match scope_meet a b with Some m => scope_covers x m | None => false end = scope_covers x a && scope_covers x b.
Proof.
  unfold scope_meet.
  assert (Hstar : scope_covers x (js "*") = true) by (apply scope_covers_spec; auto).
  destruct (jeqb a (js "*")) eqn:Ea; [apply jeqb_true in Ea as ->; by rewrite Hstar|].
  destruct (jeqb b (js "*")) eqn:Eb; [apply jeqb_true in Eb as ->; by rewrite Hstar, andb_true_r|].
  destruct (jeqb a b) eqn:Eab; [apply jeqb_true in Eab as ->; by rewrite andb_diag|].
  assert (Hsub : forall u v, wildcard_covers u v = true -> scope_covers x u && scope_covers x v = scope_covers x v).
  { intros u v Huv. destruct (scope_covers x v) eqn:Ev; [|apply andb_false_r]. rewrite andb_true_r.
    apply (scope_covers_trans u v); [|done]. unfold scope_covers. rewrite Huv. by rewrite !orb_true_r. }
  destruct (wildcard_covers a b) eqn:Wab; [by rewrite Hsub|].
  destruct (wildcard_covers b a) eqn:Wba; [by rewrite andb_comm, Hsub|].
  symmetry. apply not_true_iff_false. rewrite andb_true_iff, !scope_covers_spec.
  apply jeqb_false in Ea, Eb, Eab.
  assert (Na : forall p r, ~ (a = p ++ [58; 42] /\ b = p ++ 58 :: r)).
  { intros p r H. apply not_true_iff_false in Wab. apply Wab, wildcard_spec. eauto. }
  assert (Nb : forall p r, ~ (b = p ++ [58; 42] /\ a = p ++ 58 :: r)).
  { intros p r H. apply not_true_iff_false in Wba. apply Wba, wildcard_spec. eauto. }
  intros [[Ha | [Ha | (p & r & Ha & Hx)]] [Hb | [Hb | (q & t & Hb & Hy)]]]; try done; subst.
  - done.
  - by apply (Nb q t).
  - by apply (Na p r).
  - apply prefixes_nest in Hy as [-> | [[u ->] | [u ->]]]; [done| |].
    + apply (Na p (u ++ [58; 42])). split; [done|]. by rewrite <- app_assoc.
    + apply (Nb q (u ++ [58; 42])). split; [done|]. by rewrite <- app_assoc.
Qed.
Lemma intersect_covers left right x :
  hasScope (intersectScopes left right) x = hasScope left x && hasScope right x.
Proof.
  apply eq_true_iff_eq. rewrite andb_true_iff, !hasScope_spec. unfold intersectScopes. split.
  - intros (m & Hm & Hx). rewrite elem_of_dedup in Hm. apply elem_of_concat in Hm as (l & Hl & Hm).
    apply list_elem_of_fmap in Hl as (a & -> & Ha). apply list_elem_of_omap in Hm as (b & Hb & Hab).
    pose proof (scope_meet_spec a b x) as H. rewrite Hab, Hx in H. symmetry in H. apply andb_true_iff in H as [].
    split; eauto.
  - intros [(a & Ha & Hxa) (b & Hb & Hxb)].
    pose proof (scope_meet_spec a b x) as H. rewrite Hxa, Hxb in H.
    destruct (scope_meet a b) as [m|] eqn:Em; [|done]. exists m. split; [|done].
    rewrite elem_of_dedup. apply elem_of_concat. exists (omap (scope_meet a) right).
    split; [by apply (list_elem_of_fmap_2 (fun leftScope => omap (scope_meet leftScope) right))|].
    apply list_elem_of_omap. eauto.
Qed.

(** ** Roles *)

Lemma highest_from roles r0 : ROLE_RANK r0 <= ROLE_RANK (foldl (fun highest role =>
    if ROLE_RANK highest <? ROLE_RANK role then role else highest) r0 roles) /\
  Forall (fun r => ROLE_RANK r <= ROLE_RANK (foldl (fun highest role =>
    if ROLE_RANK highest <? ROLE_RANK role then role else highest) r0 roles)) roles.
Proof.
  revert r0. induction roles as [|r roles IH]; intros r0; cbn; [split; [lia|constructor]|].
  destruct (ROLE_RANK r0 <? ROLE_RANK r) eqn:E; bool_inv; [destruct (IH r)|destruct (IH r0)];
    (split; [lia|constructor; [lia|done]]).
Qed.
(** A role that is not the worker's, and as high as any that is held. *)
Lemma highestRole_top roles : 1 <= ROLE_RANK (highestRole roles) /\
  Forall (fun r => ROLE_RANK r <= ROLE_RANK (highestRole roles)) roles.
Proof. exact (highest_from roles Reader). Qed.
Lemma effectiveRole_bound m ceiling :
  ROLE_RANK (effectiveRole m ceiling) <= ROLE_RANK ceiling /\
  ROLE_RANK (effectiveRole m ceiling) <= ROLE_RANK (highestRole (nm_roles m)) /\
  (ceiling <> Worker -> effectiveRole m ceiling <> Worker).
Proof.
  unfold effectiveRole. pose proof (highestRole_top (nm_roles m)) as [Hp _].
  case_match eqn:E; bool_inv; (split; [lia|]; split; [lia|]); [done|].
  intros _ Hw. rewrite Hw in Hp. cbn in Hp. lia.
Qed.
Lemma rank_one r : ROLE_RANK r <= 1 -> r <> Worker -> r = Reader.
Proof. destruct r; cbn; (lia || done). Qed.

(** ** Display metadata *)

Lemma trimStart_none s : trimStart s = [] -> Forall (fun c => is_js_space c = true) s.
Proof. induction s as [|c s IH]; cbn; [constructor|]. destruct (is_js_space c) eqn:E; [|done]. constructor; auto. Qed.
Lemma trimStart_prefix_id c s : is_js_space c = false -> trimStart (c :: s) = c :: s.
Proof. cbn. by intros ->. Qed.
Lemma trim_shape s : trim s = [] \/ exists t, trim s = t /\ trimStart t = t /\ trimStart (reverse t) = reverse t.
Proof.
  assert (Hfix : forall u, trimStart (trimStart u) = trimStart u).
  { induction u as [|c u IH]; cbn; [done|]. destruct (is_js_space c) eqn:E; [done|]. by apply trimStart_prefix_id. }
  unfold trim. destruct (trimStart s) as [|c r] eqn:Es; [by left|].
  assert (Hc : is_js_space c = false).
  { pose proof (Hfix s) as H. rewrite Es in H. cbn in H. destruct (is_js_space c) eqn:E; [|done].
    apply (f_equal length) in H. cbn in H. pose proof (trimStart_suffix r) as [p Hp].
    apply (f_equal length) in Hp. rewrite length_app in Hp. lia. }
  right. exists (reverse (trimStart (reverse (c :: r)))). split; [done|]. rewrite reverse_involutive. split; [|apply Hfix].
  rewrite reverse_cons.
  assert (Hl : forall u, exists v, trimStart (u ++ [c]) = v ++ [c]).
  { induction u as [|d u [v Hv]]; cbn; [rewrite Hc; by exists []|].
    destruct (is_js_space d); [eauto|]. by exists (d :: u). }
  destruct (Hl (reverse r)) as [v ->]. rewrite reverse_app. cbn. by rewrite Hc.
Qed.
Lemma trim_idem s : trim (trim s) = trim s.
Proof.
  destruct (trim_shape s) as [-> | (t & -> & H1 & H2)]; [done|].
  unfold trim. by rewrite H1, H2, reverse_involutive.
Qed.
Lemma blank_trim s : trim s <> [] -> blank (trim s) = false.
Proof. intros H. unfold blank. rewrite trim_idem. by apply jeqb_false. Qed.
Lemma identifier_not_blank more s : identifier more s = true -> blank s = false.
Proof.
  destruct s as [|c r]; [done|]. intros H. cbn in H. bool_inv. apply jeqb_false.
  assert (Hc : is_js_space c = false).
  { match goal with H : is_alnum c = true |- _ => apply alnum_facts in H; tauto end. }
  unfold trim. rewrite trimStart_prefix_id by done. intros E. apply (f_equal reverse) in E.
  rewrite reverse_involutive in E. apply trimStart_none in E. rewrite reverse_cons, Forall_app, Forall_singleton in E.
  destruct E. congruence.
Qed.

Lemma safe_display s t : safePrincipalDisplayValue s = Some t -> safePrincipalDisplayValue (JStr t) = Some t.
Proof.
  destruct s; cbn; try done. destruct (_ || _) eqn:E; [done|]. intros [= <-]. by rewrite trim_idem, E.
Qed.
Lemma normalized_display v d : normalizePrincipalDisplayMetadata v = Some d ->
  normalizePrincipalDisplayMetadata (display_value d) = Some d.
Proof.
  unfold normalizePrincipalDisplayMetadata at 1. destruct (negb (isObject v)); [done|]. cbv zeta.
  set (safe := safePrincipalDisplayValue).
  destruct (safe (field v "userName")) as [a|] eqn:Ea; destruct (safe (field v "userEmail")) as [b|] eqn:Eb;
    destruct (safe (field v "organizationName")) as [c|] eqn:Ec; destruct (safe (field v "organizationSlug")) as [e|] eqn:Ee;
    intros H; try done; injection H as <-;
    repeat match goal with H : safe _ = Some _ |- _ => apply safe_display in H end;
    lazy -[safePrincipalDisplayValue];
    repeat match goal with H : safePrincipalDisplayValue (JStr _) = Some _ |- _ => rewrite H end; done.
Qed.

(** ** Well-formed records and memberships *)

(** What every record the service writes satisfies. *)
Record record_wf (r : ApiTokenRecord) : Prop := {
  rw_organizationId : blank (tr_organizationId r) = false;
  rw_userId : blank (tr_userId r) = false;
  rw_ceiling : tr_roleCeiling r <> Worker;
  rw_scopes : Forall (fun s => blank s = false) (tr_scopes r);
}.
Lemma normalizeScope_ok v s : normalizeScope v = Ok s -> blank s = false.
Proof.
  unfold normalizeScope. intros H. ok_inv. destruct (jeqb s (js "*")) eqn:Es; [by apply jeqb_true in Es as ->|].
  cbn in *. bool_inv. by eapply identifier_not_blank.
Qed.
Lemma normalizeScopes_ok v l : normalizeScopes v = Ok l -> Forall (fun s => blank s = false) l.
Proof.
  destruct v; cbn; try done; [intros [= <-]; constructor|]. intros H. ok_inv.
  apply Forall_forall. intros s Hs. rewrite elem_of_dedup in Hs.
  apply map_result_Ok_Forall2 in E. apply list_elem_of_lookup in Hs as [i Hi].
  destruct (Forall2_lookup_r _ _ _ _ _ E Hi) as (v & _ & Hv). by eapply normalizeScope_ok.
Qed.
Lemma roleScopes_ok r : Forall (fun s => blank s = false) (roleScopes r).
Proof. destruct r; repeat (constructor; [vm_compute; reflexivity|]); constructor. Qed.
Lemma normalizeMembership_ok v o u m : normalizeMembership v o u = Some m ->
  nm_organizationId m = o /\ nm_userId m = u /\ Forall (fun s => blank s = false) (nm_scopes m) /\
  (forall d, nm_display m = Some d -> normalizePrincipalDisplayMetadata (display_value d) = Some d).
Proof.
  unfold normalizeMembership. destruct (_ || _); [done|]. cbv zeta.
  destruct (normalizeRoleList _) as [[|r roles]|]; try done.
  destruct (if is_undef _ then _ else _) as [scopes|] eqn:Es; [|done]. intros [= <-]. cbn. split; [done|].
  split; [done|]. split; [|intros d; apply normalized_display].
  destruct (is_undef _); [injection Es as <-; apply roleScopes_ok | by eapply normalizeScopes_ok].
Qed.
Lemma scope_meet_from a b m : scope_meet a b = Some m -> m = a \/ m = b.
Proof. unfold scope_meet. repeat case_match; intros [=]; subst; auto. Qed.
Lemma intersectScopes_Forall (P : jstr -> Prop) left right :
  Forall P left -> Forall P right -> Forall P (intersectScopes left right).
Proof.
  intros Hl Hr. rewrite Forall_forall in *. intros m Hm. unfold intersectScopes in Hm.
  rewrite elem_of_dedup in Hm. apply elem_of_concat in Hm as (l & Hl' & Hm).
  apply list_elem_of_fmap in Hl' as (a & -> & Ha). apply list_elem_of_omap in Hm as (b & Hb & Hab).
  apply scope_meet_from in Hab as [-> | ->]; auto.
Qed.

(** ** The registry's view of the principal *)

Lemma mapM_strings (l : list jstr) : Forall (fun s => blank s = false) l ->
  all_strings (fun s => negb (blank s)) (JArr (JStr <$> l)) = Some l.
Proof.
  unfold all_strings. induction 1 as [|s l Hs Hl IH]; [done|]. cbn. rewrite Hs. cbn in *. by rewrite IH.
Qed.
Lemma roles_of_names l : roles_of (JArr ((fun role => JStr (enum_name role)) <$> l)) = Some l.
Proof.
  unfold roles_of. apply mapM_Some. apply Forall2_fmap_l, Forall2_same. intros r. cbv beta iota. by apply enum_of_name.
Qed.
Lemma principal_fields p :
  field (principal_value p) "organizationId" = JStr (tp_organizationId p) /\
  field (principal_value p) "subject" = JStr (tp_subject p) /\
  field (principal_value p) "roles" = JArr ((fun role => JStr (enum_name role)) <$> tp_roles p) /\
  field (principal_value p) "scopes" = JArr (JStr <$> tp_scopes p) /\
  field (principal_value p) "namespaces" = JUndef /\
  field (principal_value p) "display" = optional_display (tp_display p) /\
  field (principal_value p) "identity" = JStr (js "user").
Proof. unfold principal_value. destruct (tp_display p); repeat split. Qed.
(** [assertPrincipal] accepts the principal of a token, as a user. *)
Lemma principal_accepted p : blank (tp_organizationId p) = false -> blank (tp_subject p) = false ->
  tp_roles p <> [] -> Worker ∉ tp_roles p -> Forall (fun s => blank s = false) (tp_scopes p) ->
  assertPrincipal (principal_value p) (tp_organizationId p) = Ok {|
    pr_organizationId := tp_organizationId p; pr_subject := tp_subject p; pr_roles := tp_roles p;
    pr_namespaces := None; pr_scopes := Some (tp_scopes p); pr_identity := Some (js "user");
    pr_display := optional_display (tp_display p) |}.
Proof.
  intros Ho Hs Hne Hw Hsc. destruct (principal_fields p) as (Fo & Fs & Fr & Fsc & Fn & Fd & Fi).
  unfold assertPrincipal. rewrite Fo, Fs, Fr, Fsc, Fn, Fd, Fi. change (falsy (principal_value p)) with false. cbv iota.
  rewrite Ho, Hs, jeqb_refl. cbn [orb negb].
  change (jeqb (js "user") (js "user")) with true. cbn [orb negb rbind].
  rewrite mapM_strings by done. cbn [rbind]. rewrite roles_of_names.
  destruct (tp_roles p) as [|r l]; [done|].
  rewrite (bool_decide_false (Worker ∈ r :: l)) by done.
  change (bool_decide (Some (js "user") = Some (js "worker"))) with false. by rewrite andb_false_r.
Qed.

Lemma principal_of_fields r m :
  tp_organizationId (principal_of r m) = tr_organizationId r /\ tp_subject (principal_of r m) = tr_userId r /\
  tp_tokenId (principal_of r m) = tr_id r /\
  tp_roles (principal_of r m) = [effectiveRole m (tr_roleCeiling r)] /\
  tp_scopes (principal_of r m) = scopesForToken r m.
Proof. done. Qed.
Lemma scopesForToken_covers r m x : hasScope (scopesForToken r m) x =
  hasScope (tr_scopes r) x && hasScope (nm_scopes m) x &&
  hasScope (roleScopes (effectiveRole m (tr_roleCeiling r))) x.
Proof. unfold scopesForToken. by rewrite !intersect_covers. Qed.
Lemma reader_scope_plain w : w ∈ READER_SCOPES -> w <> js "*" /\ endsWith (js ":*") w = false.
Proof.
  assert (Hall : forallb (fun w => negb (jeqb w (js "*")) && negb (endsWith (js ":*") w)) READER_SCOPES = true)
    by (vm_compute; reflexivity).
  rewrite forallb_forall in Hall. intros Hw%list_elem_of_In%Hall. bool_inv. split; [|done]. by apply jeqb_false.
Qed.
Lemma reader_scopes_exact x : hasScope READER_SCOPES x = true -> x ∈ READER_SCOPES.
Proof.
  rewrite hasScope_spec. intros (w & Hw & Hx). apply scope_covers_spec in Hx.
  destruct (reader_scope_plain w Hw) as [Hs He].
  destruct Hx as [-> | [-> | (p & r & -> & _)]]; [done|done|].
  assert (endsWith (js ":*") (p ++ [58; 42]) = true) by (apply endsWith_spec; by exists p). congruence.
Qed.
(** A principal whose scopes are the reader's passes only where one of them is accepted. *)
Lemma reader_scopes_required p l required : pr_scopes p = Some l -> Forall (fun s => s ∈ READER_SCOPES) l ->
  requireRouteScopes p required = Ok tt ->
  required = [] \/ exists scope, scope ∈ required /\ scope ∈ READER_SCOPES.
Proof.
  intros Hp Hin Hreq. destruct required as [|c required]; [by left|]. right.
  unfold requireRouteScopes, hasAnyScope, principalScopes in Hreq. rewrite Hp in Hreq.
  destruct (existsb blank l); [done|]. cbn [rbind] in Hreq.
  rewrite Forall_forall in Hin. destruct l as [|w l]; [done|].
  rewrite bool_decide_false in Hreq by (intros H%Hin%reader_scope_plain; by destruct H).
  cbn [rbind] in Hreq. destruct (existsb _ (w :: l)) eqn:E; [|done].
  apply existsb_elem in E as (g & Hg & Hb). specialize (Hin g Hg). destruct (reader_scope_plain g Hin) as [Hs He].
  rewrite (proj2 (jeqb_false g _) Hs) in Hb. cbn [orb] in Hb. apply existsb_elem in Hb as (x & Hx & Hgr).
  unfold scope_grants in Hgr. rewrite He, orb_false_r in Hgr. apply jeqb_true in Hgr as ->. eauto.
Qed.

(** ** Theorems *)

(** [intersectScopes] is the intersection of what its arguments grant: a scope
    is granted by the result exactly when both lists grant it, wildcards included. *)
Theorem scope_intersection (left right : list jstr) (scope : jstr) :
  hasScope (intersectScopes left right) scope = hasScope left scope && hasScope right scope.
Proof. apply intersect_covers. Qed.

(** C20. The principal made of a token belongs to the token's organization and user, has one
    role, no higher than the token's ceiling and the membership's highest, and is granted
    exactly the scopes the token, the membership and that role all grant. *)
Theorem token_principal_confined (record : ApiTokenRecord) (membership : NormalizedMembership) :
  let p := principal_of record membership in
  tp_organizationId p = tr_organizationId record /\ tp_subject p = tr_userId record /\
  tp_tokenId p = tr_id record /\
  exists role, tp_roles p = [role] /\
    ROLE_RANK role <= ROLE_RANK (tr_roleCeiling record) /\
    ROLE_RANK role <= ROLE_RANK (highestRole (nm_roles membership)) /\
    forall scope, hasScope (tp_scopes p) scope =
      hasScope (tr_scopes record) scope && hasScope (nm_scopes membership) scope &&
      hasScope (roleScopes role) scope.
Proof.
  destruct (principal_of_fields record membership) as (Ho & Hs & Ht & Hr & Hsc).
  cbv zeta. rewrite Ho, Hs, Ht, Hr, Hsc. do 3 (split; [done|]).
  exists (effectiveRole membership (tr_roleCeiling record)).
  destruct (effectiveRole_bound membership (tr_roleCeiling record)) as (H1 & H2 & _).
  do 3 (split; [done|]). apply scopesForToken_covers.
Qed.

(** A reader's token stays a reader in the registry: whatever the current membership,
    [assertPrincipal] accepts its principal as a user with the reader's role, publishing is
    refused, and a route passes its scope check only where one of the reader's scopes
    is accepted. *)
Theorem reader_token_reads_only (record : ApiTokenRecord) (value : jsval) (membership : NormalizedMembership)
    (required : list jstr) :
  record_wf record -> tr_roleCeiling record = Reader ->
  normalizeMembership value (tr_organizationId record) (tr_userId record) = Some membership ->
  exists p, assertPrincipal (principal_value (principal_of record membership)) (tr_organizationId record) = Ok p /\
    pr_roles p = [Reader] /\ assertUserPrincipal p = Ok tt /\
    requirePublisher p = Err (api_error "FORBIDDEN" 403) /\
    (requireRouteScopes p required = Ok tt -> required = [] \/ exists scope, scope ∈ required /\ scope ∈ READER_SCOPES).
Proof.
  intros Hwf Hc Hm. pose proof (normalizeMembership_ok _ _ _ _ Hm) as (_ & _ & Hms & _).
  destruct (principal_of_fields record membership) as (Ho & Hs & _ & Hr & Hsc).
  destruct (effectiveRole_bound membership (tr_roleCeiling record)) as (H1 & _ & H3).
  assert (Hrole : effectiveRole membership (tr_roleCeiling record) = Reader).
  { apply rank_one; [by rewrite Hc in H1 at 2|]. apply H3. by rewrite Hc. }
  rewrite Hrole in Hr.
  assert (Hall : Forall (fun s => blank s = false) (scopesForToken record membership)).
  { unfold scopesForToken. apply intersectScopes_Forall; [|apply roleScopes_ok].
    apply intersectScopes_Forall; [apply Hwf | done]. }
  assert (Hin : Forall (fun s => s ∈ READER_SCOPES) (scopesForToken record membership)).
  { apply Forall_forall. intros s Hin. apply reader_scopes_exact.
    assert (hasScope (scopesForToken record membership) s = true) as H
      by (apply hasScope_spec; exists s; split; [done|apply scope_covers_refl]).
    rewrite scopesForToken_covers, Hrole in H. by apply andb_true_iff in H as []. }
  eexists. split.
  { rewrite <- Ho. apply principal_accepted; rewrite ?Ho, ?Hs, ?Hr, ?Hsc; [apply Hwf|apply Hwf|done| |done].
    by intros H%list_elem_of_singleton. }
  cbn [pr_roles]. rewrite Hr. split; [done|]. split; [done|]. split; [done|].
  by apply (reader_scopes_required _ (scopesForToken record membership)).
Qed.

Module ScopeWitness.
Import TokenDemo.
Lemma record_ok : record_wf record.
Proof.
  split; [reflexivity|reflexivity|discriminate|].
  repeat (constructor; [vm_compute; reflexivity|]). constructor.
Qed.
Lemma reader_token_reads_only_witness : exists p,
  assertPrincipal (principal_value (principal_of record
    {| nm_userId := alice; nm_organizationId := acme; nm_roles := [Owner]; nm_scopes := [js "*"]; nm_display := None |})) acme = Ok p /\
  pr_roles p = [Reader] /\ requirePublisher p = Err (api_error "FORBIDDEN" 403).
Proof.
  destruct (reader_token_reads_only record (member_value alice "owner")
    {| nm_userId := alice; nm_organizationId := acme; nm_roles := [Owner]; nm_scopes := [js "*"]; nm_display := None |}
    [js "skills:publish"] record_ok eq_refl) as (p & Hp & Hr & _ & Hpub & _); [vm_compute; reflexivity|].
  exists p. split; [exact Hp|]. split; [exact Hr | exact Hpub].
Defined.

(** The same record, created with the scope of the whole registry. *)
Definition registry_wide : ApiTokenRecord := {|
  tr_id := tr_id record; tr_organizationId := acme; tr_userId := alice; tr_name := tr_name record;
  tr_tokenHash := tr_tokenHash record; tr_roleCeiling := Owner; tr_scopes := [js "registry:*"];
  tr_expiresAt := tr_expiresAt record; tr_createdAt := tr_createdAt record; tr_revokedAt := None |}.
(** The scope [registry:*] means two things: the token service lets it cover the
    [registry:] scopes only, and so does not grant [skills:publish] to the token of an owner
    created with it, while the registry accepts the token's principal on a route
    that requires [skills:publish]. *)
Theorem registry_wildcard_disagrees :
  exists membership p, normalizeMembership (member_value alice "owner") acme alice = Some membership /\
    hasScope (tp_scopes (principal_of registry_wide membership)) (js "skills:publish") = false /\
    assertPrincipal (principal_value (principal_of registry_wide membership)) acme = Ok p /\
    requireRouteScopes p [js "skills:publish"] = Ok tt.
Proof. do 2 eexists. split; [vm_compute; reflexivity|]. split; [vm_compute; reflexivity|]. split; vm_compute; reflexivity. Qed.
End ScopeWitness.
