(* ===== verification/TokenCookies.v ===== *)
(** * API tokens: the cookie of a browser session

    A session cookie names a token and is signed: [session_cookie_value] writes
    it and [cookie_claims] reads it.  Reading inverts writing for every claim the
    service makes, within the length the reader accepts; what is read was signed
    with the configured key; and the browser's [Cookie] header gives the value back. *)

From Stdlib Require Import ZArith Lia SpecFloat.
From stdpp Require Import base list strings sets.
From S2P Require Import Prelude Js Dates Json Wire Contracts Numbers Web Access Names.
From S2P Require Import TokenCodec Tokens TokenService TokenRoutes TokenRuns TokenScopes.

Local Open Scope Z_scope.

(** ** Sizes *)

Lemma utf8_length cp : (length (utf8_of_cp cp) <= 4)%nat.
Proof. unfold utf8_of_cp. repeat case_match; cbn; lia. Qed.
Lemma textEncode_cons c s : is_high c = false -> textEncode (c :: s) = utf8_of_cp (scalar_of_cp c) ++ textEncode s.
Proof. intros H. unfold textEncode. cbn [code_points]. by rewrite H. Qed.
Lemma textEncode_pair c d s : is_high c = true -> is_low d = true ->
  textEncode (c :: d :: s) = utf8_of_cp (scalar_of_cp (combine_surrogates c d)) ++ textEncode s.
Proof. intros H1 H2. unfold textEncode. cbn [code_points]. by rewrite H1, H2. Qed.
Lemma unicode_escape_size c s : length (textEncode (unicode_escape c ++ s)) = (6 + length (textEncode s))%nat.
Proof. by rewrite textEncode_app_ascii, length_app by apply unicode_escape_ascii. Qed.
Lemma quote_unit_size c s : is_high c = false ->
  (length (textEncode (quote_unit c ++ s)) <= 6 + length (textEncode s))%nat.
Proof.
  intros Hh. unfold quote_unit. repeat case_match;
    try (rewrite textEncode_app_ascii by (repeat constructor; unfold is_ascii; lia); cbn; lia).
  - by rewrite unicode_escape_size.
  - cbn [app]. rewrite textEncode_cons, length_app by done. pose proof (utf8_length (scalar_of_cp c)). lia.
Qed.
(** Quoting takes at most six bytes for a unit. *)
Lemma quote_body_size s rest : (length (textEncode (quote_body s ++ rest)) <= 6 * length s + length (textEncode rest))%nat.
Proof.
  induction s as [|c|c d r IH1 IH2] using list_pair_ind; [done|..].
  - cbn [quote_body]. destruct (is_high c) eqn:Eh; [rewrite unicode_escape_size; cbn; lia|].
    destruct (is_low c) eqn:El; rewrite app_nil_r; [rewrite unicode_escape_size; cbn; lia|].
    pose proof (quote_unit_size c rest Eh). cbn [length]. lia.
  - cbn [quote_body length] in *. destruct (is_high c) eqn:Eh; [destruct (is_low d) eqn:El|].
    + cbn [app]. rewrite textEncode_pair, length_app by done.
      pose proof (utf8_length (scalar_of_cp (combine_surrogates c d))). lia.
    + rewrite <- app_assoc, unicode_escape_size. cbn [quote_body] in *. lia.
    + destruct (is_low c) eqn:El; rewrite <- app_assoc; [rewrite unicode_escape_size; lia|].
      eapply Nat.le_trans; [by apply quote_unit_size|]. lia.
Qed.

Lemma digits_value_lower s acc : Forall (fun c => is_digit c = true) s -> 0 <= acc ->
  acc * 10 ^ jlen s <= foldl (fun acc c => acc * 10 + (c - 48)) acc s.
Proof.
  revert acc. unfold jlen. induction s as [|c s IH]; intros acc Hs Ha; cbn [foldl length].
  - cbn. lia.
  - apply Forall_cons in Hs as [Hc Hs]. unfold is_digit in Hc. range_inv.
    etrans; [|apply IH; [done|lia]].
    rewrite Nat2Z.inj_succ, Z.pow_succ_r by lia.
    pose proof (Z.pow_nonneg 10 (Z.of_nat (length s)) ltac:(lia)). nia.
Qed.
Lemma js_of_Z_size n k : 0 < n -> n < 10 ^ k -> 0 <= k -> jlen (js_of_Z n) <= k.
Proof.
  intros Hn Hk Hk0. pose proof (digits_value_Z n ltac:(lia)) as Hv.
  pose proof (js_of_uint_digits (N.to_uint (Z.to_N n))) as Hd. fold (js_of_Z n) in Hd.
  destruct (js_of_Z n) as [|c r] eqn:E; [unfold jlen; cbn; lia|].
  apply Forall_cons in Hd as [Hc Hd].
  assert (Hc' : c <> 48).
  { intros ->. unfold js_of_Z in E. destruct (N.to_uint (Z.to_N n)) eqn:En; cbn in E; try discriminate.
    apply to_uint_head in En as ->. injection E as <-. cbn in Hv. lia. }
  unfold digits_value in Hv. cbn [foldl] in Hv. unfold is_digit in Hc. range_inv.
  pose proof (digits_value_lower r (0 * 10 + (c - 48)) Hd ltac:(lia)) as Hl. rewrite Hv in Hl.
  assert (Hp : 10 ^ jlen r < 10 ^ k).
  { pose proof (Z.pow_nonneg 10 (jlen r) ltac:(lia)). nia. }
  apply Z.pow_lt_mono_r_iff in Hp; [|lia|lia]. unfold jlen in *. cbn [length]. lia.
Qed.
Lemma base64UrlEncode_size bytes : wf_bytes bytes -> 3 * jlen (base64UrlEncode bytes) <= 4 * Z.of_nat (length bytes) + 8.
Proof.
  unfold wf_bytes, jlen. induction bytes as [|a|a b|a b c l IH] using list_triple_ind; intros Hb;
    repeat match goal with H : Forall _ (_ :: _) |- _ => inversion_clear H end; [done|done|done|].
  rewrite base64UrlEncode_three by done. cbn [length]. specialize (IH ltac:(done)). lia.
Qed.

(** ** Writing and reading a cookie *)

(** What the claims of a session satisfy. *)
Record claims_wf (claims : ApiTokenSessionClaims) : Prop := {
  cw_tokenId : identifier id_char (sc_tokenId claims) = true /\ jlen (sc_tokenId claims) <= 128;
  cw_organizationId : wf_jstr (sc_organizationId claims) /\
    sessionClaimString (JStr (sc_organizationId claims)) 256 = Some (sc_organizationId claims);
  cw_userId : wf_jstr (sc_userId claims) /\
    sessionClaimString (JStr (sc_userId claims)) 256 = Some (sc_userId claims);
  cw_exp : 0 < sc_exp claims <= MAX_SAFE_INTEGER;
}.

Lemma id_char_ascii c : id_char c = true -> 32 < c < 127.
Proof.
  unfold id_char, is_alnum, is_digit, is_lower, is_upper.
  rewrite !orb_true_iff, !Z.eqb_eq, !between_spec. lia.
Qed.
Lemma identifier_chars s : identifier id_char s = true -> Forall (fun c => 32 < c < 127) s /\ s <> [].
Proof.
  destruct s as [|c r]; [done|]. cbn. rewrite andb_true_iff, forallb_forall. intros [Hc Hr]. split; [|done].
  constructor; [apply id_char_ascii; unfold id_char; by rewrite Hc|].
  apply Forall_forall. intros d Hd. by apply id_char_ascii, Hr, list_elem_of_In.
Qed.
Lemma claim_of_identifier s : identifier id_char s = true -> jlen s <= 128 ->
  wf_jstr s /\ sessionClaimString (JStr s) API_TOKEN_ID_MAX_LENGTH = Some s.
Proof.
  intros H Hl. destruct (identifier_chars s H) as [Hc Hne]. split.
  - eapply Forall_impl; [exact Hc|]. unfold wf_unit. cbn. lia.
  - cbn. unfold API_TOKEN_ID_MAX_LENGTH.
    assert (jlen s =? 0 = false) as -> by (apply Z.eqb_neq; destruct s; [done|unfold jlen; cbn [length]; lia]).
    assert (128 <? jlen s = false) as -> by lia. cbn [orb].
    assert (existsb control_unit s = false) as ->; [|done].
    apply not_true_iff_false. intros (c & Hin & Hb)%existsb_elem. rewrite Forall_forall in Hc. specialize (Hc c Hin).
    unfold control_unit in Hb. cbn in Hc. lia.
Qed.
Lemma claim_size s n : sessionClaimString (JStr s) n = Some s -> jlen s <= n.
Proof. cbn. destruct (_ || _) eqn:E; [done|]. bool_inv. lia. Qed.

Lemma textEncode_ascii p : Forall is_ascii p -> textEncode p = p.
Proof. intros H. rewrite <- (app_nil_r p) at 1. rewrite textEncode_app_ascii by done. apply app_nil_r. Qed.
(** Bounds the bytes of a quoted text and names them. *)
Ltac quoted s r :=
  let H := fresh "Hq" in pose proof (quote_body_size s r) as H;
  let n := fresh "n" in set (n := length (textEncode (quote_body s ++ r))) in *; clearbody n.

Section Cookies.
Context {HM : Hmac} {HL : HmacLaws HM}.
Context (config : ApiTokenServiceConfig) (key : list Z) (Hkey : cf_sessionKey config = Some key).

Lemma claims_wire_ok claims : claims_wf claims -> wire_ok (claims_wire claims).
Proof.
  intros [[Hid Hlen] [Ho _] [Hu _] He]. destruct (claim_of_identifier _ Hid Hlen) as [Ht _].
  apply wire_ok_obj. split.
  - apply all_distinct_NoDup. vm_compute. reflexivity.
  - repeat (constructor; [split; [apply js_wf | first [assumption | exact (js_wf _) | cbn; unfold API_TOKEN_SESSION_PROTOCOL_VERSION; lia]]|]). constructor.
Qed.
(** The claims are what the parsed document says. *)
Lemma parse_claims claims : claims_wf claims ->
  parseApiTokenSessionClaims (wire_value (claims_wire claims)) = Some claims.
Proof.
  intros [[Hid Hlen] [_ Ho] [_ Hu] He]. destruct (claim_of_identifier _ Hid Hlen) as [_ Ht].
  set (v := wire_value (claims_wire claims)). unfold parseApiTokenSessionClaims.
  change (negb (isObject v)) with false. cbv iota.
  change (field v "tokenId") with (JStr (sc_tokenId claims)).
  change (field v "organizationId") with (JStr (sc_organizationId claims)).
  change (field v "userId") with (JStr (sc_userId claims)).
  change (field v "exp") with (JNum (num_of_Z (sc_exp claims))).
  change (field v "v") with (JNum (num_of_Z 1)).
  change (field v "aud") with (JStr API_TOKEN_SESSION_AUDIENCE).
  rewrite Ht, Ho, Hu. change (num_to_Z (num_of_Z 1)) with (Some 1). cbv iota.
  unfold safe_integer. unfold MAX_SAFE_INTEGER in *. rewrite num_to_of_Z by lia.
  rewrite (proj2 (Z.leb_le _ _)) by lia. unfold is_text. rewrite jeqb_refl, Hid.
  rewrite (proj2 (Z.ltb_lt 0 _)) by lia. cbn. by destruct claims.
Qed.

Lemma claims_members k1 k2 k3 k4 k5 k6 n1 t2 t3 t4 t5 n6 :
  json_text (WObj [(k1, WInt n1); (k2, WStr t2); (k3, WStr t3); (k4, WStr t4); (k5, WStr t5); (k6, WInt n6)]) =
  [123; 34] ++ quote_body k1 ++ [34; 58] ++ js_of_Z n1 ++ [44; 34] ++
  quote_body k2 ++ [34; 58; 34] ++ quote_body t2 ++ [34; 44; 34] ++
  quote_body k3 ++ [34; 58; 34] ++ quote_body t3 ++ [34; 44; 34] ++
  quote_body k4 ++ [34; 58; 34] ++ quote_body t4 ++ [34; 44; 34] ++
  quote_body k5 ++ [34; 58; 34] ++ quote_body t5 ++ [34; 44; 34] ++
  quote_body k6 ++ [34; 58] ++ js_of_Z n6 ++ [125].
Proof.
  cbn [json_text fmap list_fmap join fst snd]. unfold quote.
  repeat (rewrite <- app_assoc || rewrite <- app_comm_cons || cbn [app]). done.
Qed.
Lemma digits_ascii n : Forall is_ascii (js_of_Z n).
Proof.
  eapply Forall_impl; [apply js_of_uint_digits|]. unfold is_digit, is_ascii. cbn. intros c Hc. range_inv. lia.
Qed.
Lemma members_size k1 k2 k3 k4 k5 k6 n1 t2 t3 t4 t5 n6 :
  (length (textEncode (json_text (WObj [(k1, WInt n1); (k2, WStr t2); (k3, WStr t3); (k4, WStr t4); (k5, WStr t5);
     (k6, WInt n6)]))) <=
   40 + length (js_of_Z n1) + length (js_of_Z n6) + 6 * (length k1 + length k2 + length k3 + length k4 + length k5 +
     length k6 + length t2 + length t3 + length t4 + length t5))%nat.
Proof.
  rewrite claims_members. pose proof (digits_ascii n1) as D1. pose proof (digits_ascii n6) as D6.
  set (d1 := js_of_Z n1) in *. set (d6 := js_of_Z n6) in *. clearbody d1 d6.
  repeat match goal with
  | |- context [textEncode (quote_body ?s ++ ?r)] => quoted s r
  | _ : context [textEncode (quote_body ?s ++ ?r)] |- _ => quoted s r
  | _ => progress rewrite textEncode_app_ascii, length_app in * by (done || (repeat constructor; unfold is_ascii; lia))
  end.
  rewrite textEncode_ascii in * by (repeat constructor; unfold is_ascii; lia). cbn [length] in *. lia.
Qed.
Lemma claims_text_size claims : claims_wf claims ->
  Z.of_nat (length (textEncode (json_text (claims_wire claims)))) <= 4260.
Proof.
  intros [[Hid Hlen] [_ Ho] [_ Hu] He]. apply claim_size in Ho, Hu.
  assert (Hd : jlen (js_of_Z (sc_exp claims)) <= 16).
  { apply js_of_Z_size; [lia| |lia]. unfold MAX_SAFE_INTEGER in He. lia. }
  unfold claims_wire.
  pose proof (members_size (js "v") (js "aud") (js "tokenId") (js "organizationId") (js "userId") (js "exp")
    API_TOKEN_SESSION_PROTOCOL_VERSION API_TOKEN_SESSION_AUDIENCE (sc_tokenId claims) (sc_organizationId claims)
    (sc_userId claims) (sc_exp claims)) as H.
  change (length (js "v")) with 1%nat in H. change (length (js "aud")) with 3%nat in H.
  change (length (js "tokenId")) with 7%nat in H. change (length (js "organizationId")) with 14%nat in H.
  change (length (js "userId")) with 6%nat in H. change (length (js "exp")) with 3%nat in H.
  change (length API_TOKEN_SESSION_AUDIENCE) with 24%nat in H.
  change (length (js_of_Z API_TOKEN_SESSION_PROTOCOL_VERSION)) with 1%nat in H.
  unfold jlen in *. lia.
Qed.

(** The cookie is within the length the reader accepts, and its parts are free
    of the characters that separate them. *)
Lemma session_cookie_parts claims : claims_wf claims -> exists encoded signature,
  session_cookie_value config claims = API_TOKEN_SESSION_COOKIE_PREFIX ++ 46 :: encoded ++ 46 :: signature /\
  Forall (fun c => b64url_unit c = true) encoded /\ Forall (fun c => b64url_unit c = true) signature /\
  encoded <> [] /\ signature <> [] /\ jlen (session_cookie_value config claims) <= API_TOKEN_SESSION_COOKIE_MAX_LENGTH /\
  base64UrlDecode encoded = Some (textEncode (json_text (claims_wire claims))) /\
  base64UrlDecode signature = Some (session_signature key (API_TOKEN_SESSION_COOKIE_PREFIX ++ 46 :: encoded)).
Proof.
  intros Hc. pose proof (claims_text_size claims Hc) as Hsize. pose proof (claims_wire_ok claims Hc) as Hw.
  assert (Hb : wf_bytes (textEncode (json_text (claims_wire claims)))) by apply textEncode_bytes, json_text_ok, Hw.
  set (bytes := textEncode (json_text (claims_wire claims))) in *.
  set (encoded := base64UrlEncode bytes).
  assert (Hs : wf_bytes (session_signature key (API_TOKEN_SESSION_COOKIE_PREFIX ++ 46 :: encoded))) by apply hmac_bytes.
  assert (Hl : length (session_signature key (API_TOKEN_SESSION_COOKIE_PREFIX ++ 46 :: encoded)) = 32%nat) by apply hmac_size.
  set (mac := session_signature key (API_TOKEN_SESSION_COOKIE_PREFIX ++ 46 :: encoded)) in *.
  exists encoded, (base64UrlEncode mac).
  assert (E : session_cookie_value config claims =
    API_TOKEN_SESSION_COOKIE_PREFIX ++ 46 :: encoded ++ 46 :: base64UrlEncode mac).
  { unfold session_cookie_value, signSession. rewrite Hkey. fold bytes encoded mac. by rewrite <- app_assoc. }
  split; [done|]. split; [by apply base64UrlEncode_units|]. split; [by apply base64UrlEncode_units|].
  split; [|split; [|split; [|split; by apply base64url_roundtrip]]].
  - intros Hn. pose proof (base64url_roundtrip bytes Hb) as Hr. fold encoded in Hr. rewrite Hn in Hr.
    injection Hr as Hr. unfold bytes in Hr. discriminate.
  - intros Hn. pose proof (base64url_roundtrip mac Hs) as Hr. rewrite Hn in Hr. injection Hr as <-. discriminate.
  - rewrite E. pose proof (base64UrlEncode_size bytes Hb) as H1. pose proof (base64UrlEncode_size mac Hs) as H2.
    fold encoded in H1. rewrite Hl in H2. unfold jlen in *.
    change (length (API_TOKEN_SESSION_COOKIE_PREFIX ++ 46 :: encoded ++ 46 :: base64UrlEncode mac))
      with (20 + S (length (encoded ++ 46%Z :: base64UrlEncode mac)))%nat.
    rewrite length_app. cbn [length]. unfold API_TOKEN_SESSION_COOKIE_MAX_LENGTH. lia.
Qed.
Lemma unit_not_dot s : Forall (fun c => b64url_unit c = true) s -> 46 ∉ s.
Proof. intros H Hin. rewrite Forall_forall in H. by specialize (H 46 Hin). Qed.
Lemma split_dots (p e s : jstr) : 46 ∉ p -> 46 ∉ e -> 46 ∉ s -> split 46 (p ++ 46 :: e ++ 46 :: s) = [p; e; s].
Proof. intros. by rewrite !split_app_sep, !split_single. Qed.

(** What is read from a cookie that was written is what it was written from. *)
Lemma cookie_read claims : claims_wf claims -> cookie_claims config (session_cookie_value config claims) = Some claims.
Proof.
  intros Hc. destruct (session_cookie_parts claims Hc) as (e & s & E & He & Hs & Hne & Hns & Hlen & Hde & Hds).
  unfold cookie_claims. rewrite (proj2 (Z.ltb_ge _ _) Hlen), E.
  rewrite (proj2 (jeqb_false _ [])) by discriminate. cbn [orb].
  rewrite split_dots by first [by apply unit_not_dot | apply (bool_decide_unpack _); vm_compute; exact I].
  rewrite jeqb_refl, (proj2 (jeqb_false e [])), (proj2 (jeqb_false s [])) by done. cbn [negb orb].
  unfold verifySession. rewrite Hkey, Hds.
  assert (forall v, length (session_signature key v) = 32%nat) as -> by (intros v; apply hmac_size).
  change (Z.of_nat 32 =? 32) with true.
  rewrite (proj2 (timingSafeEqual_spec _ _)) by done. cbn [andb negb]. rewrite Hde. cbn [mbind option_bind].
  pose proof (claims_wire_ok claims Hc) as Hw. destruct (json_text_ok _ Hw) as [Hwf Hok].
  rewrite textDecodeReplace_encode by (try done; intros r; discriminate).
  rewrite json_parse_wire by done. cbn [mbind option_bind]. by apply parse_claims.
Qed.
(** A cookie that is read carries the signature of its claims. *)
Lemma cookie_signed raw claims : cookie_claims config raw = Some claims ->
  exists encoded signature, raw = API_TOKEN_SESSION_COOKIE_PREFIX ++ 46 :: encoded ++ 46 :: signature /\
    base64UrlDecode signature = Some (session_signature key (API_TOKEN_SESSION_COOKIE_PREFIX ++ 46 :: encoded)).
Proof.
  unfold cookie_claims. destruct (_ || _); [done|].
  pose proof (join_split 46 raw) as Hraw.
  destruct (split 46 raw) as [|p [|e [|s [|]]]]; try done.
  destruct (_ || negb (verifySession _ _ _)) eqn:E; [done|]. intros _. bool_inv.
  match goal with H : jeqb p _ = true |- _ => apply jeqb_true in H as -> end.
  exists e, s. split.
  - rewrite <- Hraw. cbn [join]. done.
  - match goal with H : verifySession _ _ _ = true |- _ => unfold verifySession in H; rewrite Hkey in H;
      destruct (base64UrlDecode s) as [d|]; [|done] end.
    bool_inv. f_equal. by apply timingSafeEqual_spec.
Qed.
End Cookies.

(** ** The [Cookie] header *)

Lemma cookie_name_facts c : cookie_name_char c = true -> c <> 59 /\ c <> 61 /\ is_js_space c = false.
Proof.
  unfold cookie_name_char. rewrite orb_true_iff, bool_decide_eq_true. intros [H|H].
  - destruct (alnum_facts c H) as (_ & H61 & Hs & _ & _). split; [|done]. intros ->. discriminate.
  - assert (Hall : forallb (fun c => negb (c =? 59) && negb (c =? 61) && negb (is_js_space c)) (js "!#$%&'*+.^_`|~-") = true)
      by (vm_compute; reflexivity).
    rewrite forallb_forall in Hall. apply list_elem_of_In, Hall in H. bool_inv. repeat split; try done; lia.
Qed.
Lemma trimStart_clean s : Forall (fun c => is_js_space c = false) s -> trimStart s = s.
Proof. intros []; [done|]. by apply trimStart_prefix_id. Qed.
Lemma trim_clean s : Forall (fun c => is_js_space c = false) s -> trim s = s.
Proof.
  intros H. unfold trim. rewrite (trimStart_clean s) by done.
  rewrite trimStart_clean by by apply Forall_reverse. apply reverse_involutive.
Qed.
Lemma split_at_equals_spec name value : 61 ∉ name -> split_at_equals (name ++ 61 :: value) = Some (name, value).
Proof.
  induction name as [|c name IH]; intros H; [done|]. apply not_elem_of_cons in H as [Hc Hn]. cbn.
  rewrite (proj2 (Z.eqb_neq c 61)) by done. by rewrite IH.
Qed.
Definition cookie_pair (name value : jstr) : jstr := name ++ 61 :: value.
Lemma cookie_header_read name value : name <> [] -> forallb cookie_name_char name = true ->
  Forall (fun c => is_js_space c = false) value -> 59 ∉ value ->
  cookie_value name (parseCookieHeader (Some (cookie_pair name value))) = Some value.
Proof.
  intros Hne Hn Hv Hs. rewrite forallb_forall in Hn.
  assert (Hfacts : Forall (fun c => c <> 59 /\ c <> 61 /\ is_js_space c = false) name).
  { apply Forall_forall. intros c Hc. by apply cookie_name_facts, Hn, list_elem_of_In. }
  assert (H59 : 59 ∉ cookie_pair name value).
  { unfold cookie_pair. rewrite elem_of_app, elem_of_cons. intros [Hin|[Hin|Hin]]; [|done|done].
    rewrite Forall_forall in Hfacts. by destruct (Hfacts 59 Hin). }
  assert (E : parseCookieHeader (Some (cookie_pair name value)) = omap cookie_entry (split 59 (cookie_pair name value))).
  { unfold parseCookieHeader. by destruct (cookie_pair name value). }
  rewrite E, split_single by done. cbn [omap list_omap].
  assert (He : cookie_entry (cookie_pair name value) = Some (name, value)).
  { unfold cookie_entry, cookie_pair. rewrite split_at_equals_spec.
    - assert (Hname : Forall (fun c => is_js_space c = false) name).
      { eapply Forall_impl; [exact Hfacts|]. by intros c (_ & _ & ?). }
      rewrite !trim_clean by done. by rewrite (proj2 (jeqb_false name [])).
    - intros Hin. rewrite Forall_forall in Hfacts. by destruct (Hfacts 61 Hin) as (_ & ? & _). }
  rewrite He. unfold cookie_value. cbn. by rewrite jeqb_refl.
Qed.
Lemma unit_facts c : b64url_unit c = true -> c <> 59 /\ is_js_space c = false.
Proof.
  unfold b64url_unit. rewrite !orb_true_iff, !Z.eqb_eq. intros [[H | ->] | ->]; [|done|done].
  destruct (alnum_facts c H) as (_ & _ & Hs & _ & _). split; [|done]. intros ->. discriminate.
Qed.
Lemma session_cookie_clean `{HmacLaws} config key claims : cf_sessionKey config = Some key -> claims_wf claims ->
  Forall (fun c => is_js_space c = false) (session_cookie_value config claims) /\
  59 ∉ session_cookie_value config claims /\ session_cookie_value config claims <> [].
Proof.
  intros Hk Hc. destruct (session_cookie_parts config key Hk claims Hc) as (e & s & E & He & Hs & _). rewrite E.
  assert (Hall : Forall (fun c => c <> 59 /\ is_js_space c = false)
            (API_TOKEN_SESSION_COOKIE_PREFIX ++ 46 :: e ++ 46 :: s)).
  { apply Forall_app; split; [repeat (constructor; [vm_compute; split; congruence|]); constructor|].
    constructor; [done|]. apply Forall_app; split; [eapply Forall_impl; [exact He|]; intros c; apply unit_facts|].
    constructor; [done|]. eapply Forall_impl; [exact Hs|]. intros c. apply unit_facts. }
  split; [eapply Forall_impl; [exact Hall|]; cbn; tauto|]. split; [|discriminate].
  intros Hin. rewrite Forall_forall in Hall. by destruct (Hall 59 Hin).
Qed.

(** With a session key, reading a written session cookie gives back its claims, for all
    claims a token can have and within the length the reader accepts; and a cookie is
    read only when it carries the signature of its claims under that key. *)
Theorem session_cookie_codec {HM : Hmac} {HL : HmacLaws HM} (config : ApiTokenServiceConfig) (key : list Z) :
  cf_sessionKey config = Some key ->
  (forall claims, claims_wf claims -> cookie_claims config (session_cookie_value config claims) = Some claims) /\
  (forall raw claims, cookie_claims config raw = Some claims ->
     exists encoded signature, raw = API_TOKEN_SESSION_COOKIE_PREFIX ++ 46 :: encoded ++ 46 :: signature /\
       base64UrlDecode signature = Some (session_signature key (API_TOKEN_SESSION_COOKIE_PREFIX ++ 46 :: encoded))).
Proof. intros Hk. split; [by apply (cookie_read config key) | by apply (cookie_signed config key)]. Qed.

Module CookieWitness.
Import TokenDemo.
Lemma session_cookie_codec_witness : exists encoded signature,
  session_text = API_TOKEN_SESSION_COOKIE_PREFIX ++ 46 :: encoded ++ 46 :: signature /\
  base64UrlDecode signature = Some (session_signature (HM := hmac) key (API_TOKEN_SESSION_COOKIE_PREFIX ++ 46 :: encoded)).
Proof. exact (proj2 (session_cookie_codec (HM := hmac) (HL := hmac_laws) config key eq_refl) session_text claims session_text_claims). Defined.
End CookieWitness.
