(* ===== verification/TokenSafety.v ===== *)
(** * API tokens: what the service guarantees

    The theorems about the methods of TokenService.v, whatever other requests do
    at the same time: what a creation stores, that a created token authenticates
    and a revoked one never again does, that a session cookie stands for its token,
    and what a list shows. *)

From Stdlib Require Import ZArith Lia SpecFloat.
From stdpp Require Import base list strings sets relations.
From S2P Require Import Prelude Js Dates Json Wire Contracts Numbers Web Access Names.
From S2P Require Import TokenCodec Tokens TokenStore TokenService TokenRoutes TokenRuns TokenScopes.
From S2P Require Import TokenCookies.

Local Open Scope Z_scope.
Local Open Scope prog_scope.

Section Guarantees.
Context {S : Type} {TS : TokenStore S} {TL : TokenStoreLaws S}.
Context {DR : DateRuntime} {CR : Crypto} {HM : Hmac}.
Context (config : ApiTokenServiceConfig).

(** ** Steps *)

Lemma revoked_stays s s' r : later s s' -> r ∈ store_records s -> tr_revokedAt r <> None -> r ∈ store_records s'.
Proof.
  intros [_ Hl] Hr Hv. destruct (store_later_elem _ _ r Hl Hr) as (r' & Hr' & Hlater).
  destruct (tr_revokedAt r) as [at_|] eqn:E; [|done]. by rewrite <- (record_later_revoked r r' at_ Hlater E).
Qed.
Lemma find_hash s r : store_ok s -> r ∈ store_records s ->
  found_or_none (repo_findByHash (tr_tokenHash r) s) = Some r \/
  exists e, repo_findByHash (tr_tokenHash r) s = Err e.
Proof.
  intros Hs Hr. pose proof (findByHash_law (tr_tokenHash r) s Hs) as H.
  destruct (repo_findByHash (tr_tokenHash r) s) as [found|e]; [left|right; eauto]. cbn. rewrite H.
  apply unique_by_hash; [by apply store_unique | done].
Qed.
Lemma find_id s r : store_ok s -> r ∈ store_records s ->
  repo_findById (tr_organizationId r) (tr_id r) s = Ok (Some r) \/
  exists e, repo_findById (tr_organizationId r) (tr_id r) s = Err e.
Proof.
  intros Hs Hr. pose proof (findById_law (tr_organizationId r) (tr_id r) s Hs) as H.
  destruct (repo_findById (tr_organizationId r) (tr_id r) s) as [found|e]; [left|right; eauto]. rewrite H.
  f_equal. apply unique_by_id; [by apply store_unique | done].
Qed.
Lemma always_audit {A} env event (k : prog A) s post : store_ok s ->
  (forall s', later s s' -> always env k s' post) -> always env (bind (emitAudit config event) (fun _ => k)) s post.
Proof.
  intros Hs H. unfold emitAudit. destruct (cf_audit config); cbn; [|by apply H, later_refl].
  intros s1 H1 x s2 ->. by apply H.
Qed.
(** A principal is made only of a record that is not revoked. *)
Lemma revoked_no_principal env r s : tr_revokedAt r <> None ->
  always env (principalForRecord r) s (fun a _ => a = Ok None).
Proof. intros H. unfold principalForRecord. destruct (tr_revokedAt r); [done | congruence]. Qed.

(** ** A revoked token is never accepted *)

(** The raw token a header or an exchange names. *)
Definition names_token (raw : jstr) (r : ApiTokenRecord) : Prop :=
  tokenHash (default raw (after_bearer raw)) = tr_tokenHash r.
(** The record a session cookie is about. *)
Definition cookie_names (request : HttpRequest) (r : ApiTokenRecord) : Prop :=
  exists raw claims, cookie_value (cf_sessionCookieName config) (parseCookieHeader (header "cookie" request)) = Some raw /\
    cookie_claims config raw = Some claims /\
    sc_organizationId claims = tr_organizationId r /\ sc_tokenId claims = tr_id r.

Lemma revoked_bearer env raw r s : store_ok s -> r ∈ store_records s -> tr_revokedAt r <> None -> names_token raw r ->
  always env (authenticateBearerToken raw) s (fun a _ => a = Ok None).
Proof.
  intros Hs Hr Hv Hn. unfold authenticateBearerToken, recordForRawToken. cbv zeta.
  destruct (negb _); [done|]. cbn [bind]. intros s1 H1 x s2 [-> ->]. rewrite Hn.
  assert (Hr1 : r ∈ store_records s1) by by eapply revoked_stays.
  destruct (find_hash s1 r (later_ok _ _ H1) Hr1) as [-> | [e ->]]; cbn [found_or_none bind ret].
  - by apply revoked_no_principal.
  - done.
Qed.
Lemma revoked_cookie env request r s : store_ok s -> r ∈ store_records s -> tr_revokedAt r <> None ->
  cookie_names request r -> always env (browserSessionPrincipal config request) s (fun a _ => a = Ok None).
Proof.
  intros Hs Hr Hv (raw & claims & Hc & Hcl & Ho & Ht). unfold browserSessionPrincipal.
  destruct (cf_sessionKey config); [|done]. rewrite Hc. cbn [mbind option_bind]. rewrite Hcl.
  cbn [catch]. intros s1 H1 now s2 [_ ->].
  destruct (sc_exp claims <=? now / 1000); [done|]. cbn [catch bind]. intros s3 H3 x s4 [-> ->].
  assert (Hr3 : r ∈ store_records s3) by by apply (revoked_stays s s3); [exact (later_trans _ _ _ H1 H3)|..].
  rewrite Ho, Ht. destruct (find_id s3 r (later_ok _ _ H3) Hr3) as [-> | [e ->]]; cbn [bind catch]; [|done].
  rewrite jeqb_refl. destruct (jeqb (tr_userId r) (sc_userId claims)); cbn [andb]; [|done].
  apply always_catch; [|by eapply later_ok].
  eapply always_mono; [by apply revoked_no_principal| |by eapply later_ok].
  intros a s' _ _ ->. done.
Qed.

(** C17. Revocation is final: when [revokeToken] answers, the record it answers with is stored as
    revoked, and no request that starts later, whatever happens in between and whatever the
    environment answers, is authenticated by that token or by a session cookie for it. *)
Theorem revocation_final (env : Environment) (context token : jsval) (s : S) :
  store_ok s ->
  always env (revokeToken config context token) s (fun answer s' => forall m, answer = Ok m ->
    exists r, r ∈ store_records s' /\ metadata r = m /\ tr_revokedAt r <> None /\
      forall later_env s'', later s' s'' ->
        (forall raw, names_token raw r ->
           always later_env (authenticateBearerToken raw) s'' (fun a _ => a = Ok None)) /\
        (forall request, cookie_names request r ->
           always later_env (browserSessionPrincipal config request) s'' (fun a _ => a = Ok None))).
Proof.
  intros Hs. unfold revokeToken. destruct (normalizeSession context) as [session|]; [|done].
  destruct (boundedId token "Token id") as [id|e]; [|done]. unfold sessionMembership, membershipFor. cbn [bind].
  intros s1 H1 x s2 [_ ->]. destruct (match x with Some _ => _ | None => _ end) as [membership|]; [|done].
  cbn [bind ret]. intros s3 H3 y s4 [-> ->]. destruct (repo_findById _ id s3) as [[existing|]|e]; [|done..].
  cbn [bind]. destruct (_ && _); [done|].
  assert (Hrevoke : forall at_ s5, later s3 s5 ->
    forall z s6, (z, s6) = repo_revoke (os_organizationId session) id at_ s5 -> forall found, z = Ok (Some found) ->
    store_ok s6 /\ found ∈ store_records s6 /\ tr_revokedAt found <> None).
  { intros at_ s5 H5 z s6 Hz found ->. pose proof (revoke_law (os_organizationId session) id at_ s5 (later_ok _ _ H5)) as Hlaw.
    rewrite <- Hz in Hlaw. destruct Hlaw as (Hok & Hrec & Hf). split; [done|].
    symmetry in Hf. pose proof (find_first_Some _ _ _ Hf) as [Hin _]. split; [done|].
    rewrite Hrec in Hf. clear Hrec Hin Hz.
    destruct (find_first (is_record (os_organizationId session) id) (store_records s5)) as [old|] eqn:Eo.
    - rewrite (find_first_update _ _ _ old) in Hf; [|done|].
      + injection Hf as <-. unfold revoke_record. destruct (tr_revokedAt old) eqn:E; cbn; congruence.
      + intros y. unfold is_record, revoke_record. by destruct (tr_revokedAt y).
    - by rewrite update_first_nomatch, Eo in Hf. }
  assert (Hrest : forall at_ s5, later s3 s5 -> always env
    (await answer := RevokeRecord (os_organizationId session) id at_ in
     let! revoked := Return answer in
     match revoked with
     | None => throw token_not_found
     | Some revoked =>
         await now := Now in
         let! createdAt := Return (dateText now) in
         let! _ := emitAudit config {|
           ta_action := TokenRevoked; ta_organizationId := os_organizationId session;
           ta_actorId := os_userId session; ta_subject := os_userId session; ta_resourceId := id;
           ta_tokenId := id; ta_createdAt := createdAt; ta_details := None |} in
         ret (metadata revoked)
     end) s5 (fun answer s' => forall m, answer = Ok m ->
       exists r, r ∈ store_records s' /\ metadata r = m /\ tr_revokedAt r <> None)).
  { intros at_ s5 H5 s6 H6 z s7 Hz. cbn in Hz. pose proof (Hrevoke at_ s6 (later_trans _ _ _ H5 H6) z s7 Hz) as Hf.
    destruct z as [[found|]|e]; [|done..]. destruct (Hf found eq_refl) as (Hok & Hin & Hne). clear Hf.
    cbn [bind]. intros s8 H8 now s9 [_ ->]. destruct (dateText now) as [createdAt|e]; [|done].
    cbn [bind]. apply always_audit; [by eapply later_ok|]. intros s10 H10 s11 H11 m [= <-].
    exists found. split; [|done]. eapply revoked_stays; [|exact Hin|done].
    eapply later_trans; [exact H8|]. by eapply later_trans. }
  eapply always_mono; [| |by eapply later_ok].
  - destruct (tr_revokedAt existing); cbn [bind ret]; [apply Hrest, later_refl; by eapply later_ok|].
    intros s5 H5 now s6 [_ ->]. destruct (dateText now) as [at_|e]; [|done]. cbn [bind]. by apply Hrest.
  - intros a s' Hok _ Hpost m Hm. destruct (Hpost m Hm) as (r & Hr & Hmr & Hv). exists r.
    do 3 (split; [done|]). intros env' s'' Hl.
    assert (Hr' : r ∈ store_records s'') by by eapply revoked_stays.
    split; intros; [by eapply revoked_bearer; [eapply later_ok|..] | by eapply revoked_cookie; [eapply later_ok|..]].
Qed.

(** ** What a creation stores *)

Lemma generate_spec env (k : jsval -> prog (ApiTokenRecord * jstr)) s post : store_ok s ->
  (forall v s', later s s' -> always env (k v) s' post) ->
  (forall s', later s s' -> post (Err OtherError) s') ->
  always env (bind (generateToken config) k) s post.
Proof.
  intros Hs Hk He. unfold generateToken. destruct (cf_tokenGenerator config); cbn [bind];
    intros s1 H1 x s2 [_ ->]; [|by apply Hk].
  destruct x; cbn [bind throw ret]; [by apply Hk|]. intros s' Hl. apply He. by eapply later_trans.
Qed.
Definition stored (s : S) (r : ApiTokenRecord) : Prop := exists r', r' ∈ store_records s /\ record_later r r'.
Lemma stored_later s s' r : later s s' -> stored s r -> stored s' r.
Proof.
  intros [_ Hl] (r' & Hr & H). destruct (store_later_elem _ _ r' Hl Hr) as (r'' & Hr'' & H'). exists r''. split; [done|].
  by etrans.
Qed.
Lemma create_attempts_spec env n record s : store_ok s ->
  always env (create_attempts config n record) s (fun a s' => forall r raw, a = Ok (r, raw) ->
    r = record (tokenHash raw) /\ token_material raw = true /\ stored s' r).
Proof.
  revert s. induction n as [|n IH]; intros s Hs; cbn [create_attempts]; apply generate_spec; try done; intros v s1 H1;
    (destruct v as [| | | |candidate| |]; try done); destruct (negb (token_material candidate)) eqn:Em; try done;
    apply negb_false_iff in Em; intros s2 H2 x s3 Hx; unfold answers in Hx;
    pose proof (create_law (record (tokenHash candidate)) s2 (later_ok _ _ H2)) as Hc; rewrite <- Hx in Hc;
    destruct Hc as [Hok Hr]; destruct x as [[]|e].
  1, 3: intros s4 H4 r raw [= <- <-]; do 2 (split; [done|]); apply (stored_later s3); [done|];
    exists (record (tokenHash candidate)); split; [rewrite Hr; apply elem_of_app; right; by apply list_elem_of_singleton|by left].
  - done.
  - by apply IH.
Qed.

(** The record of a creation, and how it was arrived at. *)
Record creation (env : Environment) (context input : jsval) (created : CreateApiTokenResult)
    (session : OrganizationSession) (membership : NormalizedMembership) (r : ApiTokenRecord) : Prop := {
  cr_session : normalizeSession context = Some session;
  cr_membership : exists v, env_member env (os_organizationId session) (os_userId session) (Some v) /\
    normalizeMembership v (os_organizationId session) (os_userId session) = Some membership;
  cr_grant : requested_grant membership session input = Ok (tr_name r, tr_roleCeiling r, tr_scopes r);
  cr_owner : tr_organizationId r = os_organizationId session /\ tr_userId r = os_userId session;
  cr_shown : ct_metadata created = metadata r;
  cr_hash : tr_tokenHash r = tokenHash (ct_token created);
  cr_material : token_material (ct_token created) = true;
  cr_fresh : tr_revokedAt r = None;
}.
Lemma tokenId_spec {A} env (k : jstr -> prog A) s post : store_ok s ->
  (forall id s', later s s' -> always env (k id) s' post) ->
  (forall e s', later s s' -> post (Err e) s') -> always env (bind tokenId k) s post.
Proof.
  intros Hs Hk He. unfold tokenId. cbn [bind]. intros s1 H1 uuid s2 [_ ->].
  assert (Hid : forall v s3, later s s3 -> always env (bind (Return (boundedId v "Token id")) k) s3 post).
  { intros v s3 H3. destruct (boundedId v "Token id") as [id|e]; cbn [bind]; [by apply Hk|].
    intros s' Hl. apply He. by eapply later_trans. }
  destruct uuid as [uuid|]; [by apply Hid|]. cbn [bind]. intros s3 H3 bytes s4 [_ ->]. apply Hid. by eapply later_trans.
Qed.
Lemma createToken_spec env context input s : store_ok s ->
  always env (createToken config context input) s (fun a s' => forall created, a = Ok created ->
    exists session membership r, creation env context input created session membership r /\ stored s' r).
Proof.
  intros Hs. unfold createToken. destruct (normalizeSession context) as [session|] eqn:Ese; [|done].
  unfold sessionMembership, membershipFor. cbn [bind]. intros s1 H1 x s2 [Hx ->].
  destruct x as [v|]; [|done].
  destruct (normalizeMembership v _ _) as [membership|] eqn:Em; [|done]. cbn [bind ret].
  destruct (requested_grant membership session input) as [[[name role] scopes]|e] eqn:Eg; [|done].
  cbn [bind]. intros s3 H3 now s4 [_ ->]. destruct (parseExpiry _ _ _ _ _) as [expiresAt|e]; [|done]. cbn [bind].
  destruct (dateText now) as [createdAt|e]; [|done]. cbn [bind].
  apply tokenId_spec; [by eapply later_ok| |done]. intros id s5 H5.
  apply always_bind; [|by eapply later_ok].
  eapply always_mono; [apply create_attempts_spec; by eapply later_ok| |by eapply later_ok].
  intros a s6 Hok H6 Ha. destruct a as [[r raw]|e]; [|done]. destruct (Ha r raw eq_refl) as (Hr & Hm & Hst).
  apply always_audit; [done|]. intros s7 H7 s8 H8 created [= <-].
  exists session, membership, r. split; [|exact (stored_later s6 s8 r (later_trans _ _ _ H7 H8) Hst)].
  subst r. split; cbn; eauto.
Qed.

Lemma normalizeRole_user v r : normalizeRole v = Ok r -> r <> Worker.
Proof. unfold normalizeRole. destruct v; try done. destruct (enum_of Role _) as [[]|]; try done; by intros [= <-]. Qed.
Lemma normalizeIdentityRole_user v r : normalizeIdentityRole v = Ok (Some r) -> r <> Worker.
Proof. unfold normalizeIdentityRole. destruct v; try done; intros H; ok_inv; by eapply normalizeRole_user. Qed.
Lemma grant_bounds membership session input name role scopes :
  requested_grant membership session input = Ok (name, role, scopes) ->
  ROLE_RANK role <= ROLE_RANK (highestRole (nm_roles membership)) /\ role <> Worker /\
  Forall (fun s => blank s = false /\ hasScope (nm_scopes membership) s = true /\ hasScope (roleScopes role) s = true) scopes.
Proof.
  unfold requested_grant. intros H. ok_inv. unfold roleAtMost in *. bool_inv.
  assert (Hw : default (highestRole (nm_roles membership)) a0 <> Worker).
  { destruct a0 as [r|]; cbn; [by apply normalizeIdentityRole_user in E0|].
    intros Hw. pose proof (highestRole_top (nm_roles membership)) as [Hp _]. rewrite Hw in Hp. cbn in Hp. lia. }
  revert G0 G1 E1 Hw. generalize (default (highestRole (nm_roles membership)) a0). intros role G0 G1 E1 Hw.
  do 2 (split; [done|]). apply Forall_forall. intros x Hx.
  assert (Hall : Forall (fun s => blank s = false) scopes).
  { destruct (is_undef (field input "scopes")); [apply Ok_inj in E1 as <-; apply roleScopes_ok | by apply normalizeScopes_ok in E1]. }
  rewrite Forall_forall in Hall. split; [by apply Hall|].
  destruct (hasScope (nm_scopes membership) x) eqn:E2, (hasScope (roleScopes role) x) eqn:E3; try done; exfalso;
    apply not_true_iff_false in G1; apply G1, existsb_elem; exists x; by rewrite E2, ?E3.
Qed.

(** ** A live token is accepted *)

(** The environment shows the token's user the membership, before the token expires. *)
Record live (env : Environment) (r : ApiTokenRecord) (membership : NormalizedMembership) : Prop := {
  lv_clock : exists expiry, dateParse (tr_expiresAt r) = Some expiry /\ forall t, env_now env t -> 0 <= t < expiry;
  lv_member : forall x, env_member env (tr_organizationId r) (tr_userId r) x ->
    exists v, x = Some v /\ normalizeMembership v (tr_organizationId r) (tr_userId r) = Some membership;
}.
Definition revoked_in (s : S) (r : ApiTokenRecord) : Prop :=
  exists r', r' ∈ store_records s /\ record_later r r' /\ tr_revokedAt r' <> None.
Definition accepted (r : ApiTokenRecord) (membership : NormalizedMembership)
    (answer : tokens (option ApiTokenPrincipal)) (s : S) : Prop :=
  answer = Ok (Some (principal_of r membership)) \/ (answer = Ok None /\ revoked_in s r).

Lemma live_record env r r' membership s : store_ok s -> live env r membership -> tr_revokedAt r = None ->
  record_later r r' -> r' ∈ store_records s -> always env (principalForRecord r') s (accepted r membership).
Proof.
  intros Hs [(expiry & He & Hclock) Hm] Hn Hl Hr. unfold principalForRecord.
  destruct (tr_revokedAt r') as [at_|] eqn:Ev.
  { intros s' Hs'. right. split; [done|]. exists r'. split; [|by rewrite Ev].
    eapply revoked_stays; [done|done|by rewrite Ev]. }
  destruct Hl as [-> | (_ & at_ & ->)]; [|done]. rewrite He. cbn [bind].
  intros s1 H1 now s2 [Ht ->]. apply Hclock in Ht. rewrite (proj2 (Z.leb_gt _ _)) by lia.
  unfold membershipFor. cbn [bind]. intros s3 H3 x s4 [Hx ->]. destruct (Hm x Hx) as (v & -> & Hv).
  cbn [bind ret]. rewrite Hv. intros s5 _. by left.
Qed.

(** ** Whom the service accepts *)

(** The session cookie of a request carries the signature of its claims. *)
Definition cookie_is_signed (request : HttpRequest) : Prop :=
  exists key encoded signature, cf_sessionKey config = Some key /\
    cookie_value (cf_sessionCookieName config) (parseCookieHeader (header "cookie" request)) =
      Some (API_TOKEN_SESSION_COOKIE_PREFIX ++ 46 :: encoded ++ 46 :: signature) /\
    base64UrlDecode signature = Some (session_signature key (API_TOKEN_SESSION_COOKIE_PREFIX ++ 46 :: encoded)).
(** How a request names the record of a token. *)
Definition request_names (request : HttpRequest) (r : ApiTokenRecord) : Prop :=
  match header "authorization" request with
  | Some text => exists token, bearerToken (Some text) = Some token /\ names_token token r
  | None => cookie_names request r /\ cookie_is_signed request
  end.
(** A principal the environment vouches for: the record is there, not revoked
    when it was read and not expired, and the membership is the user's. *)
Definition vouched (env : Environment) (s : S) (r : ApiTokenRecord) (p : ApiTokenPrincipal) : Prop :=
  stored s r /\ tr_revokedAt r = None /\
  (exists now expiry, env_now env now /\ dateParse (tr_expiresAt r) = Some expiry /\ now < expiry) /\
  exists v membership, env_member env (tr_organizationId r) (tr_userId r) (Some v) /\
    normalizeMembership v (tr_organizationId r) (tr_userId r) = Some membership /\ p = principal_of r membership.

Lemma principal_sound env r s : store_ok s -> r ∈ store_records s ->
  always env (principalForRecord r) s (fun a s' => forall p, a = Ok (Some p) -> vouched env s' r p).
Proof.
  intros Hs Hr. unfold principalForRecord. destruct (tr_revokedAt r) eqn:Ev; [done|].
  destruct (dateParse (tr_expiresAt r)) as [expiry|] eqn:Ed; [|done].
  cbn [bind]. intros s1 H1 now s2 [Hnow ->]. destruct (expiry <=? now) eqn:El; [done|]. bool_inv.
  unfold membershipFor. cbn [bind]. intros s3 H3 x s4 [Hx ->].
  destruct x as [v|]; [|done]. cbn [bind ret]. destruct (normalizeMembership v _ _) as [membership|] eqn:Em; [|done].
  intros s5 H5 p [= <-]. repeat split; [|done|by eauto|by eauto].
  apply (stored_later s); [|exists r; split; [done|by left]].
  eapply later_trans; [exact H1|]. by eapply later_trans.
Qed.

(** C18. A principal that [authenticate] returns is vouched for: it is made of a stored record that
    was not revoked when it was read and has not expired, and of the membership the
    identity provider gave; and the request names that record, by a bearer token with its
    hash or, without an [Authorization] header, by a signed cookie. *)
Theorem authenticate_sound (env : Environment) (request : HttpRequest) (s : S) :
  store_ok s ->
  always env (authenticate config request) s (fun answer s' => forall p, answer = Ok (Some p) ->
    exists r, vouched env s' r p /\ request_names request r).
Proof.
  intros Hs. unfold authenticate, has_header, request_names. destruct (header "authorization" request) as [text|].
  - destruct (bearerToken (Some text)) as [token|]; [|done].
    unfold authenticateBearerToken, recordForRawToken. cbv zeta. destruct (negb _); [done|]. cbn [bind].
    intros s1 H1 x s2 [-> ->].
    pose proof (findByHash_law (tokenHash (default token (after_bearer token))) s1 (later_ok _ _ H1)) as Hlaw.
    destruct (repo_findByHash _ s1) as [found|e]; cbn [found_or_none ret bind]; [|done]. subst found.
    destruct (find_first _ (store_records s1)) as [r|] eqn:Ef; cbn [bind]; [|done].
    apply find_first_Some in Ef as [Hr Hh]. unfold has_hash in Hh. apply jeqb_true in Hh.
    eapply always_mono; [apply principal_sound; [by eapply later_ok|exact Hr]| |by eapply later_ok].
    intros a s' _ _ Hpost p Hp. exists r. split; [by apply Hpost|]. exists token. by split.
  - unfold browserSessionPrincipal. destruct (cf_sessionKey config) as [key|] eqn:Hk; [|done].
    destruct (cookie_value _ _) as [raw|] eqn:Ec; [|done]. cbn [mbind option_bind].
    destruct (cookie_claims config raw) as [claims|] eqn:Ecl; [|done]. cbn [catch].
    intros s1 H1 now s2 [_ ->]. destruct (sc_exp claims <=? now / 1000); [done|]. cbn [catch bind].
    intros s3 H3 x s4 [-> ->]. pose proof (findById_law (sc_organizationId claims) (sc_tokenId claims) s3 (later_ok _ _ H3)) as Hlaw.
    destruct (repo_findById _ _ s3) as [found|e]; cbn [bind]; [|done]. subst found.
    destruct (find_first _ (store_records s3)) as [r|] eqn:Ef; [|done].
    apply find_first_Some in Ef as [Hr Hid]. unfold is_record in Hid. bool_inv.
    destruct (_ && _); [|done]. apply always_catch; [|by eapply later_ok].
    eapply always_mono; [apply principal_sound; [by eapply later_ok|exact Hr]| |by eapply later_ok].
    intros a s' Hok _ Hpost. destruct a as [o|e]; [|done]. intros s'' Hl p [= ->]. exists r.
    destruct (Hpost p eq_refl) as (Hst & Hv). split; [split; [by eapply stored_later|exact Hv]|].
    split; [exists raw, claims; do 2 (split; [done|]); by rewrite !jeqb_true in *|].
    destruct (cookie_signed config key Hk raw claims Ecl) as (encoded & signature & -> & Hs').
    by exists key, encoded, signature.
Qed.


(** ** What a list shows *)

(** A list holds tokens of the session's organization only, at most the configured number, the
    user's own unless the membership manages, and no revoked one unless they are asked for. *)
Theorem list_confined (env : Environment) (context : jsval) (options : ApiTokenListOptions) (s : S) :
  store_ok s ->
  always env (listTokens config context options) s (fun answer _ => forall l, answer = Ok l ->
    exists session v membership, normalizeSession context = Some session /\
      env_member env (os_organizationId session) (os_userId session) (Some v) /\
      normalizeMembership v (os_organizationId session) (os_userId session) = Some membership /\
      Z.of_nat (length l) <= Z.max 0 (cf_maxList config) /\
      Forall (fun m => tm_organizationId m = os_organizationId session /\
                       (lo_includeRevoked options = false -> tm_revokedAt m = None) /\
                       (canManageAll membership = false -> tm_userId m = os_userId session) /\
                       (forall subject, lo_subject options = Some subject -> canManageAll membership = true ->
                          tm_userId m = trim subject)) l).
Proof.
  intros Hs. unfold listTokens. destruct (normalizeSession context) as [session|] eqn:Ese; [|done].
  unfold sessionMembership, membershipFor. cbn [bind]. intros s1 H1 x s2 [Hx ->].
  destruct x as [v|]; [|done]. destruct (normalizeMembership v _ _) as [membership|] eqn:Em; [|done]. cbn [bind ret].
  assert (Hsub : forall o, match lo_subject options with
            | None => ret None
            | Some subject => Return (let? s := nonEmptyString (JStr subject) "Token subject" 256 in Ok (Some s))
            end = Return (Ok o) -> o = trim <$> lo_subject options).
  { intros o. destruct (lo_subject options) as [subject|]; cbn; [|by intros [= <-]].
    destruct (_ || _); cbn; by intros [= <-]. }
  destruct (match lo_subject options with Some _ => _ | None => _ end) as [[o|e]|] eqn:Eo; [|done|].
  2:{ destruct (lo_subject options); discriminate. }
  specialize (Hsub o eq_refl). subst o. cbn [bind]. intros s3 H3 rows s4 [-> ->].
  set (limit := match lo_limit options with None => cf_maxList config | Some limit => _ end).
  assert (Hlimit : limit <= cf_maxList config) by (unfold limit; destruct (lo_limit options); lia).
  set (subject := if canManageAll membership then _ else _).
  pose proof (list_law (os_organizationId session) subject limit s3 (later_ok _ _ H3)) as Hlaw.
  destruct (repo_list _ _ _ s3) as [rows|e]; cbn [bind ret]; [|done].
  intros s5 _ l [= <-]. exists session, v, membership. do 3 (split; [done|]).
  destruct Hlaw as (sorted & Hperm & ->). split.
  - rewrite length_fmap. etrans; [apply Nat2Z.inj_le, List.filter_length_le|]. rewrite length_take. lia.
  - apply Forall_fmap, Forall_forall. intros r [Hr Hv]%elem_of_List_filter. cbn.
    assert (Hin : r ∈ sorted) by (by eapply elem_of_take_inv || (rewrite <- (take_drop (Z.to_nat limit) sorted), elem_of_app; by left)).
    rewrite Hperm in Hin. apply elem_of_List_filter in Hin as [_ Hl]. unfold listed in Hl. bool_inv.
    split; [by apply jeqb_true|]. split; [|split].
    + intros E. rewrite E in Hv. by apply bool_decide_eq_true in Hv.
    + intros E. unfold subject in Hl. rewrite E in Hl. by apply jeqb_true.
    + intros u Hu E. unfold subject in Hl. rewrite E, Hu in Hl. by apply jeqb_true.
Qed.

Context {TR : ReliableStore S}.
Lemma live_bearer env raw r membership s : store_ok s -> live env r membership -> tr_revokedAt r = None ->
  stored s r -> names_token raw r -> token_material (default raw (after_bearer raw)) = true ->
  always env (authenticateBearerToken raw) s (accepted r membership).
Proof.
  intros Hs Hlive Hn Hr Ht Hm. unfold authenticateBearerToken, recordForRawToken. cbv zeta. rewrite Hm. cbn [negb bind].
  intros s1 H1 x s2 [-> ->]. rewrite Ht. apply (stored_later _ _ _ H1) in Hr as (r' & Hr' & Hl).
  destruct (record_later_same r r' Hl) as (_ & Eh & _). rewrite <- Eh.
  pose proof (findByHash_reliable (tr_tokenHash r') s1 (later_ok _ _ H1)) as Hok.
  destruct (find_hash s1 r' (later_ok _ _ H1) Hr') as [-> | [e E]]; [|by rewrite E in Hok].
  cbn [bind ret]. by apply (live_record env r r'); [eapply later_ok|..].
Qed.
Lemma clean_not_bearer raw : token_material raw = true -> after_bearer raw = None.
Proof.
  unfold token_material. intros H. bool_inv. unfold after_bearer. destruct (starts_folded _ _); [|done].
  destruct (span_while blank_or_tab (drop 6 raw)) as [u rest] eqn:E. destruct u as [|c u]; [done|].
  exfalso. match goal with H : existsb _ raw = false |- _ => apply not_true_iff_false in H; apply H end.
  pose proof (span_while_rest blank_or_tab (drop 6 raw)) as [Hu _]. rewrite E in Hu. cbn in Hu.
  apply Forall_cons in Hu as [Hc _]. apply existsb_elem. exists c. split.
  - rewrite <- (take_drop 6 raw), elem_of_app. right. destruct (drop 6 raw) as [|d r]; [done|]. cbn in E.
    destruct (blank_or_tab d); [|done]. destruct (span_while blank_or_tab r). injection E as <- _ _. by left.
  - unfold blank_or_tab in Hc. unfold bad_token_char. rewrite orb_true_iff, !Z.eqb_eq in Hc.
    destruct Hc as [-> | ->]; done.
Qed.

(** C19. A creation stores a record that belongs to the session's user and organization, with the
    hash of the token it answers with; its ceiling is not above the membership's highest
    role, and under that membership the token grants exactly the scopes it was created with. *)
Theorem creation_confined (env : Environment) (context input : jsval) (s : S) :
  store_ok s ->
  always env (createToken config context input) s (fun answer s' => forall created, answer = Ok created ->
    exists session membership r, creation env context input created session membership r /\ stored s' r /\
      tr_roleCeiling r <> Worker /\ ROLE_RANK (tr_roleCeiling r) <= ROLE_RANK (highestRole (nm_roles membership)) /\
      forall scope, hasScope (scopesForToken r membership) scope = hasScope (tr_scopes r) scope).
Proof.
  intros Hs. eapply always_mono; [by apply createToken_spec| |done].
  intros a s' _ _ H created Ha. destruct (H created Ha) as (session & membership & r & Hc & Hr).
  exists session, membership, r. destruct (grant_bounds _ _ _ _ _ _ (cr_grant _ _ _ _ _ _ _ Hc)) as (Hrank & Hw & Hall).
  do 4 (split; [done|]). intros x. rewrite scopesForToken_covers.
  assert (effectiveRole membership (tr_roleCeiling r) = tr_roleCeiling r) as ->.
  { unfold effectiveRole. by rewrite (proj2 (Z.leb_le _ _) Hrank). }
  destruct (hasScope (tr_scopes r) x) eqn:Ex; [|done]. apply hasScope_spec in Ex as (w & Hin & Hx).
  rewrite Forall_forall in Hall. destruct (Hall w Hin) as (_ & Hm & Hrole).
  apply hasScope_spec in Hm as (m & Hm & Hmw). apply hasScope_spec in Hrole as (c & Hc' & Hcw).
  assert (hasScope (nm_scopes membership) x = true) as ->.
  { apply hasScope_spec. exists m. split; [done|]. by eapply scope_covers_trans. }
  cbn [andb]. apply hasScope_spec. exists c. split; [done|]. by eapply scope_covers_trans.
Qed.

(** C21. A created token works: on a store that does not fail, while it has not expired and the
    membership holds, every later request with the token gets its principal, unless the
    token has been revoked. *)
Theorem created_token_authenticates (env : Environment) (context input : jsval) (s : S) :
  store_ok s ->
  always env (createToken config context input) s (fun answer s' => forall created, answer = Ok created ->
    exists r, metadata r = ct_metadata created /\ tr_revokedAt r = None /\ stored s' r /\
      forall later_env membership s'', later s' s'' -> live later_env r membership ->
        always later_env (authenticateBearerToken (ct_token created)) s'' (accepted r membership)).
Proof.
  intros Hs. eapply always_mono; [by apply createToken_spec| |done].
  intros a s' _ _ H created Ha. destruct (H created Ha) as (session & membership & r & [] & Hr).
  exists r. do 3 (split; [done|]). intros env' m s'' Hl Hlive. pose proof (clean_not_bearer _ cr_material0) as Hb.
  apply live_bearer; [by eapply later_ok|done|done|by eapply stored_later| |]; unfold names_token; by rewrite Hb.
Qed.

(** ** A session cookie stands for its token *)

(** The record's fields are what a claim may hold. *)
Record claimable (r : ApiTokenRecord) : Prop := {
  cl_id : identifier id_char (tr_id r) = true /\ jlen (tr_id r) <= 128;
  cl_organizationId : wf_jstr (tr_organizationId r) /\
    sessionClaimString (JStr (tr_organizationId r)) 256 = Some (tr_organizationId r);
  cl_userId : wf_jstr (tr_userId r) /\ sessionClaimString (JStr (tr_userId r)) 256 = Some (tr_userId r);
  cl_expiry : forall expiry, dateParse (tr_expiresAt r) = Some expiry -> expiry <= MAX_TIME_VALUE;
}.
Definition cookie_request (value : jstr) (request : HttpRequest) : Prop :=
  header "authorization" request = None /\
  header "cookie" request = Some (cookie_pair (cf_sessionCookieName config) value).
Definition second_before_expiry (env : Environment) (r : ApiTokenRecord) : Prop :=
  forall expiry t, dateParse (tr_expiresAt r) = Some expiry -> env_now env t -> t / 1000 < expiry / 1000.
Context {HL : HmacLaws HM}.
Lemma cookie_session env claims r membership request s key : cf_sessionKey config = Some key -> claims_wf claims ->
  forallb cookie_name_char (cf_sessionCookieName config) = true -> cf_sessionCookieName config <> [] ->
  cookie_request (session_cookie_value config claims) request -> store_ok s ->
  sc_tokenId claims = tr_id r -> sc_organizationId claims = tr_organizationId r -> sc_userId claims = tr_userId r ->
  (forall t, env_now env t -> t / 1000 < sc_exp claims) ->
  live env r membership -> tr_revokedAt r = None -> stored s r ->
  always env (authenticate config request) s (accepted r membership).
Proof.
  intros Hk Hc Hname Hne [Ha Hcookie] Hs Ht Ho Hu Hexp Hlive Hn Hr.
  destruct (session_cookie_clean config key claims Hk Hc) as (Hv & H59 & _).
  unfold authenticate, has_header. rewrite Ha. unfold browserSessionPrincipal. rewrite Hk, Hcookie.
  rewrite cookie_header_read by done. cbn [mbind option_bind]. rewrite (cookie_read config key Hk) by done.
  cbn [catch]. intros s1 H1 now s2 [Hnow ->]. rewrite (proj2 (Z.leb_gt _ _)) by by apply Hexp.
  cbn [catch bind]. intros s3 H3 x s4 [-> ->].
  assert (H03 : later s s3) by by eapply later_trans.
  apply (stored_later _ _ _ H03) in Hr as (r' & Hr' & Hl).
  destruct (record_later_same r r' Hl) as (Ei & _ & Eo & Eu & _).
  rewrite Ht, Ho, <- Ei, <- Eo. pose proof (findById_reliable (tr_organizationId r') (tr_id r') s3 (later_ok _ _ H03)) as Hok.
  destruct (find_id s3 r' (later_ok _ _ H03) Hr') as [-> | [e E]]; [|by rewrite E in Hok]. cbn [bind].
  rewrite Hu, <- Eu, !jeqb_refl. cbn [andb]. apply always_catch; [|by eapply later_ok].
  eapply always_mono; [apply (live_record env r r' membership); try done; by eapply later_ok| |by eapply later_ok].
  intros a s' Hok' _ [-> | (-> & Hrev)] s'' Hl''; [by left|]. right. split; [done|].
  destruct Hrev as (r2 & Hr2 & Hl2 & Hv2). exists r2. split; [by eapply revoked_stays | done].
Qed.

(** The cookie [createSession] sets stands for the token: a later request that carries its value
    is authenticated as the token itself would be, until the second the token expires in,
    unless the token has been revoked. *)
Theorem session_exchange (env : Environment) (raw : jstr) (s : S) :
  store_ok s -> forallb cookie_name_char (cf_sessionCookieName config) = true -> cf_sessionCookieName config <> [] ->
  (forall t, env_now env t -> 0 <= t) ->
  always env (createSession config raw) s (fun answer s' => forall cookie p, answer = Ok (Some (cookie, p)) ->
    exists r value attributes, names_token raw r /\ stored s' r /\ tr_revokedAt r = None /\
      cookie = cookie_pair (cf_sessionCookieName config) value ++ js "; " ++ attributes /\
      forall later_env membership s'' request, claimable r -> later s' s'' -> live later_env r membership ->
        second_before_expiry later_env r -> cookie_request value request ->
        always later_env (authenticate config request) s'' (accepted r membership)).
Proof.
  intros Hs Hname Hne Hclock. unfold createSession. destruct (cf_sessionKey config) as [key|] eqn:Hk; [|done].
  unfold recordForRawToken. cbv zeta. destruct (negb _); [done|]. cbn [bind].
  intros s1 H1 x s2 [-> ->].
  pose proof (findByHash_law (tokenHash (default raw (after_bearer raw))) s1 (later_ok _ _ H1)) as Hlaw.
  destruct (repo_findByHash _ s1) as [found|e]; cbn [found_or_none ret bind]; [|done]. subst found.
  destruct (find_first _ (store_records s1)) as [r|] eqn:Ef; cbn [bind]; [|done].
  apply find_first_Some in Ef as [Hr Hh]. unfold has_hash in Hh. apply jeqb_true in Hh.
  apply always_bind; [|by eapply later_ok].
  unfold principalForRecord. destruct (tr_revokedAt r) as [|] eqn:Ev; [done|].
  destruct (dateParse (tr_expiresAt r)) as [expiry|] eqn:Ed; [|done].
  cbn [bind]. intros s3 H3 t s4 [_ ->]. destruct (expiry <=? t); [done|]. unfold membershipFor. cbn [bind].
  intros s5 H5 y s6 [_ ->]. destruct (match y with Some _ => _ | None => _ end) as [m|]; cbn [bind ret fmap option_fmap option_map]; [|done].
  intros s7 H7 s8 H8 now s9 [Hnow ->]. destruct (expiry / 1000 <=? now / 1000) eqn:Eexp; [done|]. bool_inv.
  intros s10 H10 cookie p [= <- <-].
  assert (H110 : later s1 s10).
  { repeat (eapply later_trans; [eassumption|]). by apply later_refl, (later_ok s8). }
  assert (Hst : stored s1 r) by (exists r; split; [done|by left]).
  set (claims := {| sc_tokenId := tr_id r; sc_organizationId := tr_organizationId r; sc_userId := tr_userId r;
                    sc_exp := expiry / 1000 |}).
  exists r, (session_cookie_value config claims). eexists. split; [by symmetry|].
  split; [by eapply stored_later|]. split; [done|]. split; [reflexivity|].
  intros env' membership s'' request [Hid Ho Hu Hexp] Hl Hlive Hsec Hreq.
  assert (Hwf : claims_wf claims).
  { split; cbn; try done. apply Hclock in Hnow. specialize (Hexp expiry Ed).
    unfold MAX_TIME_VALUE in Hexp. unfold MAX_SAFE_INTEGER. dlia. }
  apply (cookie_session env' claims r membership request s'' key); try done.
  - by eapply later_ok.
  - intros t' Ht'. by apply Hsec.
  - eapply stored_later; [|exact Hst]. by eapply later_trans.
Qed.
End Guarantees.

(** ** Interleaving and the memory repository *)

Section Requests.
Context {S : Type} {TS : TokenStore S} {TL : TokenStoreLaws S}.

(** Requests served at the same time, their calls interleaved in any order on one store, each
    end with a result that satisfies what holds of it under the interference of others. *)
Theorem interleaving_sound {A} (env : Environment) (ps ps' : list (prog A)) (s s' : S)
    (posts : list (tokens A -> S -> Prop)) :
  store_ok s -> Forall2 (fun p post => always env p s post) ps posts ->
  rtc (pool_step env) (ps, s) (ps', s') ->
  forall i r post, ps' !! i = Some (Return r) -> posts !! i = Some post -> post r s'.
Proof.
  intros Hs Hall Hrun i r post Hi Hp.
  destruct (pool_run_ok env posts _ _ Hrun (conj Hs Hall)) as [Hs' Hall'].
  destruct (Forall2_lookup_l _ _ _ _ _ Hall' Hi) as (post' & Hp' & H). cbn in *.
  assert (post' = post) as -> by congruence. by apply H, later_refl.
Qed.
End Requests.

(** The two maps of [MemoryApiTokenRepository] implement one list of records with unique ids and
    hashes: a creation succeeds exactly when it keeps them unique and appends the record, the
    lookups find the record in the list, and a revocation marks it once. *)
Theorem memory_refines `{Collation} (m : MemoryApiTokenRepository) :
  memory_ok m ->
  (forall r, let '(answer, m') := memory_create r m in
     memory_ok m' /\ (answer = Ok tt <-> unique_records (memory_records m ++ [r])) /\
     (answer = Ok tt -> memory_records m' = memory_records m ++ [r]) /\ (answer <> Ok tt -> m' = m)) /\
  (forall h, memory_findByHash h m = find_first (has_hash h) (memory_records m)) /\
  (forall o id, memory_findById o id m = find_first (is_record o id) (memory_records m)) /\
  (forall o id at_, let '(found, m') := memory_revoke o id at_ m in
     memory_ok m' /\ memory_records m' = update_first (is_record o id) (revoke_record at_) (memory_records m) /\
     found = find_first (is_record o id) (memory_records m')).
Proof.
  intros Hm. split; [|split; [|split]].
  - intros r. unfold memory_create. pose proof (memory_insert_reliable "API token record already exists" r m Hm) as Hrel.
    destruct (memory_insert _ r m) as [m'|e] eqn:E.
    + destruct (memory_insert_ok _ _ _ _ Hm E) as [Hok Hr]. split; [done|]. split; [|split; [done|done]].
      split; [intros _; rewrite <- Hr; apply Hok | done].
    + split; [done|]. split; [|split; done]. split; [done|]. intros Hu. by specialize (Hrel Hu).
  - intros h. by apply memory_findByHash_spec.
  - intros o id. by apply memory_findById_spec.
  - intros o id at_. by apply memory_revoke_spec.
Qed.

(** ** Runs *)

Module TokenWitnesses.
Import TokenDemo.
#[local] Existing Instance iso_runtime.
#[local] Existing Instance unit_collation.
#[local] Existing Instance crypto.
#[local] Existing Instance hmac.
#[local] Existing Instance hmac_laws.

Lemma revocation_final_witness : exists r, r ∈ store_records revoked_store /\ metadata r = revoked /\
  tr_revokedAt r <> None /\
  (exec (world (t0 + 3000)) (authenticateBearerToken token) revoked_store).1 = Ok None.
Proof.
  pose proof (exec_always (world (t0 + 2000)) _ _ _ created_store_ok
    (revocation_final config (world_env (world (t0 + 2000))) (session alice) (JStr (tr_id record)) created_store
       created_store_ok)) as H.
  rewrite run_revoke in H. destruct (H revoked eq_refl) as (r & Hr & Hm & Hv & _).
  exists r. split; [exact Hr|]. split; [exact Hm|]. split; [exact Hv|]. vm_compute. reflexivity.
Defined.

Lemma created_reader_live r m : tr_expiresAt r = tr_expiresAt record -> tr_organizationId r = acme ->
  tr_userId r = alice -> normalizeMembership (member_value alice "owner") acme alice = Some m ->
  live (world_env (world (t0 + 1500))) r m.
Proof.
  intros He Ho Hu Hm. split.
  - exists 1707776000000. rewrite He. split; [vm_compute; reflexivity|]. intros t ->. vm_compute. split; congruence.
  - intros x ->. rewrite Ho, Hu. exists (member_value alice "owner"). split; [reflexivity | exact Hm].
Qed.
Definition owner_membership : NormalizedMembership :=
  {| nm_userId := alice; nm_organizationId := acme; nm_roles := [Owner]; nm_scopes := [js "*"]; nm_display := None |}.
Lemma owner_normalized : normalizeMembership (member_value alice "owner") acme alice = Some owner_membership.
Proof. vm_compute. reflexivity. Qed.

Lemma created_token_authenticates_witness : exists r, metadata r = ct_metadata created /\
  let run := exec (world (t0 + 1500)) (authenticateBearerToken (ct_token created)) created_store in
  accepted r owner_membership run.1 run.2.
Proof.
  pose proof (exec_always (world t0) _ _ _ empty_store_ok
    (created_token_authenticates config (world_env (world t0)) (session alice) create_input empty_store empty_store_ok)) as H.
  rewrite run_create in H. destruct (H created eq_refl) as (r & Hm & _ & _ & Ha).
  exists r. split; [exact Hm|]. apply (exec_always _ _ _ _ created_store_ok), Ha.
  - apply later_refl, created_store_ok.
  - apply created_reader_live; [exact (f_equal tm_expiresAt Hm)|exact (f_equal tm_organizationId Hm)|
      exact (f_equal tm_userId Hm)|exact owner_normalized].
Defined.

Lemma creation_confined_witness : exists r, stored created_store r /\ tr_roleCeiling r <> Worker.
Proof.
  pose proof (exec_always (world t0) _ _ _ empty_store_ok
    (creation_confined config (world_env (world t0)) (session alice) create_input empty_store empty_store_ok)) as H.
  rewrite run_create in H. destruct (H created eq_refl) as (se & m & r & _ & Hr & Hw & _).
  exists r. split; [exact Hr | exact Hw].
Defined.

Lemma authenticate_sound_witness : exists p r,
  (exec (world (t0 + 1500)) (authenticate config browser_request) created_store).1 = Ok (Some p) /\
  vouched (world_env (world (t0 + 1500))) created_store r p /\ request_names config browser_request r.
Proof.
  pose proof (exec_always (world (t0 + 1500)) _ _ _ created_store_ok
    (authenticate_sound config (world_env (world (t0 + 1500))) browser_request created_store created_store_ok)) as H.
  assert (E : exists p, exec (world (t0 + 1500)) (authenticate config browser_request) created_store =
            (Ok (Some p), created_store)) by (eexists; vm_compute; reflexivity).
  destruct E as [p E]. rewrite E in H. destruct (H p eq_refl) as (r & Hv & Hn).
  exists p, r. rewrite E. split; [reflexivity|]. split; [exact Hv | exact Hn].
Defined.

Lemma exchanged_claimable r : tr_id r = tr_id record -> tr_organizationId r = acme -> tr_userId r = alice ->
  tr_expiresAt r = tr_expiresAt record -> claimable r.
Proof.
  intros Hi Ho Hu He. split.
  - rewrite Hi. split; [vm_compute; reflexivity | vm_compute; congruence].
  - rewrite Ho. split; [apply js_wf | vm_compute; reflexivity].
  - rewrite Hu. split; [apply js_wf | vm_compute; reflexivity].
  - intros expiry. rewrite He. intros E. vm_compute in E. injection E as <-. vm_compute. congruence.
Qed.
Lemma only_record r : stored created_store r -> tr_revokedAt r = None -> r = record.
Proof.
  intros (r' & Hr & Hl) Hn. apply list_elem_of_singleton in Hr as ->.
  destruct Hl as [H | (_ & at_ & H)]; [by symmetry|]. apply (f_equal tr_revokedAt) in H. discriminate.
Qed.
Lemma cookie_value_unique v attributes :
  set_cookie = cookie_pair (cf_sessionCookieName config) v ++ js "; " ++ attributes -> 59 ∉ v -> v = session_text.
Proof.
  intros E Hv.
  assert (H : split 59 set_cookie = cookie_pair (cf_sessionCookieName config) v :: split 59 (drop 1 (js "; ") ++ attributes)).
  { rewrite E. change (js "; ") with (59 :: drop 1 (js "; ")). cbn [app]. rewrite split_app_sep, split_single; [done|].
    unfold cookie_pair. rewrite elem_of_app, elem_of_cons. intros [Hin|[Hin|Hin]]; [|done|done].
    revert Hin. apply (bool_decide_unpack _). vm_compute. exact I. }
  apply (f_equal (fun l => drop 16 (hd [] l))) in H. cbn [hd] in H. symmetry. exact H.
Qed.
Lemma session_exchange_witness : exists r value, names_token token r /\
  let run := exec (world (t0 + 1500)) (authenticate config
    (request_with [("cookie"%string, cookie_pair (cf_sessionCookieName config) value)])) created_store in
  accepted r owner_membership run.1 run.2.
Proof.
  pose proof (exec_always (world (t0 + 1000)) _ _ _ created_store_ok
    (session_exchange config (world_env (world (t0 + 1000))) token created_store created_store_ok
       (eq_refl true) ltac:(discriminate) ltac:(intros t ->; vm_compute; congruence))) as H.
  assert (E : exists p, exchange = (Ok (Some (set_cookie, p)), created_store)) by (eexists; vm_compute; reflexivity).
  destruct E as [p E]. rewrite E in H. destruct (H set_cookie p eq_refl) as (r & value & attributes & Hn & Hst & Hv & _ & Ha).
  exists r, value. split; [exact Hn|]. rewrite (only_record r Hst Hv) in *.
  apply (exec_always _ _ _ _ created_store_ok), Ha.
  - by apply exchanged_claimable.
  - apply later_refl, created_store_ok.
  - by apply created_reader_live; [..|exact owner_normalized].
  - intros expiry t E' ->. vm_compute in E'. injection E' as <-. vm_compute. reflexivity.
  - split; reflexivity.
Defined.

Lemma list_confined_witness : (exec (world (t0 + 3500)) (listTokens config (session alice)
    {| lo_includeRevoked := false; lo_subject := Some alice; lo_limit := None |}) created_store).1 = Ok [metadata record] /\
  tm_userId (metadata record) = trim alice.
Proof.
  pose proof (exec_always (world (t0 + 3500)) _ _ _ created_store_ok
    (list_confined config (world_env (world (t0 + 3500))) (session alice)
       {| lo_includeRevoked := false; lo_subject := Some alice; lo_limit := None |} created_store created_store_ok)) as H.
  assert (E : exec (world (t0 + 3500)) (listTokens config (session alice)
    {| lo_includeRevoked := false; lo_subject := Some alice; lo_limit := None |}) created_store = (Ok [metadata record], created_store))
    by (vm_compute; reflexivity).
  rewrite E in *. split; [reflexivity|].
  destruct (H _ eq_refl) as (se & v & m & Hse & Hv & Hm & _ & Hall).
  apply Forall_cons in Hall as [(_ & _ & _ & Hs) _]. apply Hs; [reflexivity|].
  assert (Hse' : normalizeSession (session alice) = Some {| os_userId := alice; os_organizationId := acme; os_sessionId := None |})
    by (vm_compute; reflexivity).
  rewrite Hse' in Hse. apply (inj Some) in Hse as <-.
  assert (v = member_value alice "owner") as -> by (apply (inj Some); exact Hv).
  change (normalizeMembership (member_value alice "owner") acme alice = Some m) in Hm.
  rewrite owner_normalized in Hm. apply (inj Some) in Hm as <-. reflexivity.
Defined.

Lemma memory_refines_witness : memory_findByHash (tr_tokenHash record) created_store = Some record.
Proof. etrans; [apply (proj1 (proj2 (memory_refines created_store created_store_ok)))|]. vm_compute. reflexivity. Defined.

(** Two requests with the token, their calls taken in turn. *)
Ltac pool_next i := eapply rtc_l; [eapply (pool_await _ _ _ i); [reflexivity | split; reflexivity]|]; cbn [insert list_insert].
Lemma token_accepted env : env = world_env (world (t0 + 1500)) ->
  always env (authenticateBearerToken token) created_store (accepted record owner_membership).
Proof.
  intros ->. apply live_bearer.
  - exact created_store_ok.
  - by apply created_reader_live; [..|exact owner_normalized].
  - reflexivity.
  - exists record. split; [by left | by left].
  - vm_compute. reflexivity.
  - vm_compute. reflexivity.
Qed.
Lemma interleaving_sound_witness : exists ps s a,
  rtc (pool_step (world_env (world (t0 + 1500)))) ([authenticateBearerToken token; authenticateBearerToken token], created_store) (ps, s) /\
  ps !! 0%nat = Some (Return a) /\ accepted record owner_membership a s.
Proof.
  set (env := world_env (world (t0 + 1500))).
  assert (Hrun : exists ps a, rtc (pool_step env) ([authenticateBearerToken token; authenticateBearerToken token], created_store) (ps, created_store) /\
            ps !! 0%nat = Some (Return a)).
  { do 2 eexists. split.
    - pool_next 0%nat. pool_next 1%nat. pool_next 1%nat. pool_next 0%nat. pool_next 0%nat. apply rtc_refl.
    - reflexivity. }
  destruct Hrun as (ps & a & Hrun & Ha). exists ps, created_store, a. split; [exact Hrun|]. split; [exact Ha|].
  apply (interleaving_sound env _ ps created_store created_store
    [accepted record owner_membership; accepted record owner_membership] created_store_ok
    ltac:(repeat constructor; by apply token_accepted) Hrun 0%nat a); [exact Ha | reflexivity].
Defined.

(** [listTokens] takes its page before it drops revoked tokens: a user with a hundred newer
    revoked tokens is shown no token at all, although an older one is active. *)
Theorem list_hides_active :
  (exec (world (t0 + 3500)) (listTokens config (session (js "bob")) active_only) bob_store).1 = Ok [] /\
  exists r, r ∈ store_records bob_store /\ tr_userId r = js "bob" /\ tr_revokedAt r = None /\
    iso_parse (tr_expiresAt r) = Some (t0 + 86400000).
Proof.
  split; [vm_compute; reflexivity|]. exists (bob_record 0). split.
  - apply list_elem_of_In, (nth_error_In _ 0). vm_compute. reflexivity.
  - repeat split; vm_compute; reflexivity.
Qed.
End TokenWitnesses.
