(* ===== verification/TokenRouteSafety.v ===== *)
(** * API tokens: what the routes guarantee

    A mutation that only a cookie could authenticate is refused before anything is
    asked or changed when its origin is not trusted, and a token cannot be used
    to create another.  A list asked for with a token shows the principal's own
    tokens unless its effective role manages. *)

From Stdlib Require Import ZArith Lia SpecFloat.
From stdpp Require Import base list strings sets relations.
From S2P Require Import Prelude Js Dates Json Wire Contracts Numbers Web Access Names.
From S2P Require Import TokenCodec Tokens TokenStore TokenService TokenRoutes TokenRuns TokenScopes.
From S2P Require Import TokenSafety.

Local Open Scope Z_scope.
Local Open Scope prog_scope.

Section RouteGuarantees.
Context {UR : UrlRuntime} {DR : DateRuntime} {CR : Crypto} {HM : Hmac}.
Context (config : ApiTokenServiceConfig) (routes : TokenRouteConfig).

(** The origin of the request is not one of the trusted origins. *)
Definition untrusted_origin (request : HttpRequest) : Prop :=
  match header "origin" request with
  | Some supplied =>
      if blank supplied then rc_allowMissing routes = false
      else forall origin, normalizeRequestOrigin supplied = Some origin -> origin ∉ rc_trustedOrigins routes
  | None => rc_allowMissing routes = false
  end.
(** The method as [toUpperCase] gives it. *)
Definition upper_method (request : HttpRequest) : jstr := ascii_upper <$> rq_method request.
Definition mutation (request : HttpRequest) : Prop :=
  upper_method request = js "POST" \/ upper_method request = js "DELETE".

Lemma origin_refused request : rc_trustedOrigins routes <> [] -> untrusted_origin request ->
  exists e, enforceCookieMutationOrigin request (rc_trustedOrigins routes) (rc_allowMissing routes) = Err e /\
    rs_status (errorResponse e) = 403.
Proof.
  intros Hne Hu. unfold enforceCookieMutationOrigin. rewrite bool_decide_false by done.
  unfold untrusted_origin in Hu. destruct (header "origin" request) as [supplied|]; [|rewrite Hu; eauto].
  destruct (blank supplied); [rewrite Hu; eauto|].
  destruct (normalizeRequestOrigin supplied) as [origin|]; [|eauto].
  rewrite bool_decide_false by by apply Hu. eauto.
Qed.
Lemma boundedId_status v what e : boundedId v what = Err e -> rs_status (errorResponse e) = 400.
Proof.
  unfold boundedId, nonEmptyString. destruct v; cbn; try (intros [= <-]; done).
  destruct (_ || _); cbn; [intros [= <-]; done|]. destruct (negb _); [intros [= <-]; done | done].
Qed.

(** A mutation without a bearer token whose origin is not trusted is answered with an error
    at once: nothing is asked of the identity provider and the store is not touched. *)
Theorem untrusted_origin_refused (request : HttpRequest) (path : jstr) :
  requestPath request = Ok path -> isTokenRoute path (rc_prefix routes) = true ->
  mutation request -> bearer_of request = None -> rc_trustedOrigins routes <> [] -> untrusted_origin request ->
  exists response, handler config routes request = ret (Some response) /\
    (rs_status response = 403 \/ rs_status response = 400 \/ rs_status response = 404 \/ rs_status response = 405).
Proof.
  intros Hp Hroute Hm Hb Hne Hu. destruct (origin_refused request Hne Hu) as (e & He & Hs).
  unfold handler. rewrite Hp, Hroute. cbn [negb]. unfold token_route. fold (upper_method request).
  destruct (route_suffix path (rc_prefix routes)) as [|c suffix].
  - destruct Hm as [-> | ->].
    + change (jeqb (js "POST") (js "POST")) with true. cbv iota.
      unfold post_token, enforce_origin. rewrite Hb, He. cbn [bind catch]. eauto.
    + change (jeqb (js "DELETE") (js "POST")) with false. change (jeqb (js "DELETE") (js "GET")) with false.
      cbn [bind catch ret]. eexists. split; [done|]. cbn. auto.
  - unfold revoke_route. destruct (jeqb _ [] || _); [cbn [bind catch throw]; eexists; split; [done|]; cbn; auto|].
    destruct (boundedId _ _) as [id|e'] eqn:Eid; cbn [bind catch].
    2:{ eexists. split; [done|]. right; left. by eapply boundedId_status. }
    destruct (_ && _); [cbn [bind catch ret]; eexists; split; [done|]; cbn; auto|].
    unfold revoker, enforce_origin. rewrite Hb, He. cbn [bind catch]. eauto.
Qed.

(** C39. A request that carries an [Authorization] header never creates a token: the answer is an
    error, made without any call. *)
Theorem token_cannot_mint (request : HttpRequest) :
  has_header "authorization" request = true -> requestPath request = Ok (rc_prefix routes) ->
  upper_method request = js "POST" ->
  exists response, handler config routes request = ret (Some response) /\
    (rs_status response = 401 \/ rs_status response = 403 \/ rs_status response = 500).
Proof.
  intros Ha Hp Hm. unfold handler. rewrite Hp. unfold isTokenRoute. rewrite jeqb_refl. cbn [orb negb].
  unfold token_route, route_suffix. rewrite drop_all. fold (upper_method request). rewrite Hm.
  change (jeqb (js "POST") (js "POST")) with true. cbv iota. unfold post_token.
  assert (Hmint : exists response, catch (bind (bind (resolveManagementContext request true)
      (fun '(session, _) =>
         let! body := Return (readBoundedJson request (rc_maxBodyBytes routes)) in
         let! created := createToken config (session_value session) (parseCreateInput body) in
         ret (jsonResponse (created_wire created) 201))) (fun response => ret (Some response)))
      (fun error => ret (Some (errorResponse error))) = ret (Some response) /\
    (rs_status response = 401 \/ rs_status response = 403 \/ rs_status response = 500)).
  { unfold resolveManagementContext. rewrite Ha, orb_true_r. cbn [andb bind catch throw].
    eexists. split; [done|]. cbn. auto. }
  destruct (bearer_of request); [done|]. unfold enforce_origin.
  destruct (enforceCookieMutationOrigin _ _ _) as [[]|e] eqn:Ee; [done|]. cbn [bind catch]. eexists. split; [done|].
  unfold enforceCookieMutationOrigin in Ee.
  destruct (bool_decide (rc_trustedOrigins routes = [])); [injection Ee as <-; cbn; auto|].
  destruct (header "origin" request) as [o|]; [destruct (blank o)|].
  - destruct (rc_allowMissing routes); [done|]. injection Ee as <-. cbn. auto.
  - destruct (normalizeRequestOrigin o); [destruct (bool_decide _)|]; try done; injection Ee as <-; cbn; auto.
  - destruct (rc_allowMissing routes); [done|]. injection Ee as <-. cbn. auto.
Qed.

(** ** Lists by a token *)

Lemma session_of_value session session' : normalizeSession (session_value session) = Some session' ->
  os_userId session' = trim (os_userId session) /\ os_organizationId session' = trim (os_organizationId session).
Proof.
  unfold normalizeSession, session_value. destruct (os_sessionId session) as [sid|]; cbn [app];
    set (v := JObj _); cbv zeta;
    change (field v "userId") with (JStr (os_userId session));
    change (field v "organizationId") with (JStr (os_organizationId session));
    cbn [nullish]; destruct (_ || _); try done;
    unfold nonEmptyString at 1 2; destruct (jeqb (trim (os_userId session)) [] || _); cbn [rbind]; try done;
    destruct (jeqb (trim (os_organizationId session)) [] || _); cbn [rbind]; try done;
    destruct (if is_undef _ then _ else _); try done; by intros [= <-].
Qed.
Context {S : Type} {TS : TokenStore S} {TL : TokenStoreLaws S}.

(** A list asked for with a token is made for the principal the token stands for: when its
    effective role does not manage, every token shown is that user's, in that organization. *)
Theorem token_lists_own (env : Environment) (request : HttpRequest) (raw : jstr) (s : S) :
  store_ok s -> bearer_of request = Some raw ->
  always env (get_tokens config request) s (fun answer s' => forall response, answer = Ok response ->
    exists r p l, vouched env s' r p /\ names_token raw r /\ response = jsonResponse (tokens_wire l) 200 /\
      (existsb isManagementRole (tp_roles p) = false ->
       Forall (fun m => tm_organizationId m = trim (tr_organizationId r) /\ tm_userId m = trim (tr_userId r)) l)).
Proof.
  intros Hs Hb. unfold get_tokens. rewrite Hb. apply always_bind; [|done].
  unfold authenticated. apply always_bind; [|done].
  eapply always_mono; [by apply authenticate_sound| |done].
  intros a s1 Hok1 H1 Ha. destruct a as [[p|]|e]; [|done..].
  intros s2 H2. destruct (Ha p eq_refl) as (r & Hv & Hn).
  destruct (includeRevoked request) as [revoked|e]; [|done]. cbn [bind].
  assert (Hok2 : store_ok s2) by by eapply later_ok.
  apply always_bind; [|done]. eapply always_mono; [by apply list_confined| |done].
  intros b s3 Hok3 H3 Hl. destruct b as [l|e]; [|done]. intros s4 H4 response [= <-].
  destruct (Hl l eq_refl) as (session & v & membership & Hse & _ & _ & _ & Hall).
  exists r, p, l. split; [|split; [|split; [done|]]].
  - destruct Hv as (Hst & Hv). split; [|exact Hv]. apply (stored_later s1); [|done].
    eapply later_trans; [exact H2|]. by eapply later_trans.
  - unfold request_names in Hn. unfold bearer_of in Hb. destruct (header "authorization" request); [|done].
    destruct Hn as (token & Ht & Hn). by simplify_eq.
  - intros Hrole. rewrite Hrole in Hall. apply session_of_value in Hse as [Hu Ho].
    destruct Hv as (_ & _ & _ & v' & m' & _ & _ & ->).
    eapply Forall_impl; [exact Hall|]. cbn. intros m (Hmo & _ & Hself & Hsub).
    split; [by rewrite Hmo, Ho|]. destruct (canManageAll membership); [by apply Hsub|]. by rewrite Hself, Hu.
Qed.
End RouteGuarantees.

Module RouteWitnesses.
Import TokenDemo.
#[local] Existing Instance iso_runtime.
#[local] Existing Instance unit_collation.
#[local] Existing Instance crypto.
#[local] Existing Instance hmac.
#[local] Existing Instance urls.

Definition forged_request : HttpRequest :=
  request_with [("cookie"%string, cookie_header); ("origin"%string, js "https://evil.example")].
Lemma untrusted_origin_refused_witness : exists response,
  handler config routes forged_request = ret (Some response) /\
  (rs_status response = 403 \/ rs_status response = 400 \/ rs_status response = 404 \/ rs_status response = 405).
Proof.
  apply (untrusted_origin_refused config routes forged_request (js "/v1/tokens")); try (vm_compute; reflexivity).
  - left. vm_compute. reflexivity.
  - discriminate.
  - unfold untrusted_origin. intros origin H Hin. vm_compute in H, Hin. injection H as <-.
    apply list_elem_of_singleton in Hin. discriminate.
Defined.

Lemma token_cannot_mint_witness : exists response,
  handler config routes bearer_request = ret (Some response) /\
  (rs_status response = 401 \/ rs_status response = 403 \/ rs_status response = 500).
Proof. apply (token_cannot_mint config routes bearer_request); vm_compute; reflexivity. Defined.

Lemma token_lists_own_witness : exists response r p l,
  (exec (world (t0 + 1500)) (get_tokens config bearer_request) created_store).1 = Ok response /\
  vouched (world_env (world (t0 + 1500))) created_store r p /\ response = jsonResponse (tokens_wire l) 200.
Proof.
  pose proof (exec_always (world (t0 + 1500)) _ _ _ created_store_ok
    (token_lists_own config (world_env (world (t0 + 1500))) bearer_request token created_store created_store_ok
       ltac:(vm_compute; reflexivity))) as H.
  assert (E : exists response, exec (world (t0 + 1500)) (get_tokens config bearer_request) created_store =
            (Ok response, created_store)) by (eexists; vm_compute; reflexivity).
  destruct E as [response E]. rewrite E in *. destruct (H response eq_refl) as (r & p & l & Hv & _ & Hr & _).
  exists response, r, p, l. split; [reflexivity|]. split; [exact Hv | exact Hr].
Defined.
End RouteWitnesses.
