(* ===== verification/Acquire.v ===== *)
(** * Acquiring skills: limits, paths and bundles

    The part of packages/upstreams/src/index.ts every upstream goes through
    once its bytes are there: the limits of an acquisition, the safety of
    paths, the validation and serialization of the acquired bundle, and how a
    bundle is made of files.  A thrown [UpstreamAcquisitionError] keeps its
    code; its message is not modelled. *)

From Stdlib Require Import ZArith Lia SpecFloat.
From stdpp Require Import base list sorting strings sets.
From S2P Require Import Prelude Js Base64 Json Numbers Bundle.

Local Open Scope Z_scope.

Inductive acquisition_error : Type :=
| UpstreamAcquisitionError (code : jstr).
#[export] Instance acquisition_error_eq_dec : EqDecision acquisition_error.
Proof. solve_decision. Defined.
Definition refuse (code : string) : acquisition_error := UpstreamAcquisitionError (js code).
Abbreviation acquired := (result acquisition_error).

(** [value.toLocaleUpperCase('en-US')]. *)
Class UpperTable := {
  toUpperCase : jstr -> jstr;
}.
Definition ascii_upper_table : UpperTable :=
  {| toUpperCase s := (fun c => if is_lower c then c - 32 else c) <$> s |}.

(** ** Limits *)

Record AcquisitionLimits : Type := {
  maxFiles : Z;
  maxFileBytes : Z;
  maxExpandedBytes : Z;
  maxPathBytes : Z;
  maxResponseBytes : Z;
  maxBinaryBytes : Z;
  maxBinaryTotalBytes : Z;
  maxBinaryFiles : Z;
  maxRedirects : Z;
  maxAttempts : Z;
  concurrency : Z;
  maxRequestsPerSecond : Z;
  requestTimeoutMs : Z;
  maxRegistryHops : Z;
}.
Definition DEFAULT_ACQUISITION_LIMITS : AcquisitionLimits := {|
  maxFiles := 2000;
  maxFileBytes := 10 * 1024 * 1024;
  maxExpandedBytes := 100 * 1024 * 1024;
  maxPathBytes := 4096;
  maxResponseBytes := 20 * 1024 * 1024;
  maxBinaryBytes := 10 * 1024 * 1024;
  maxBinaryTotalBytes := 100 * 1024 * 1024;
  maxBinaryFiles := 2000;
  maxRedirects := 3;
  maxAttempts := 3;
  concurrency := 4;
  maxRequestsPerSecond := 64;
  requestTimeoutMs := 20000;
  maxRegistryHops := 3 |}.

(** A limit of [{ ...DEFAULT_ACQUISITION_LIMITS, ...input }], which must be a
    safe integer of at least [least]. *)
Definition limit_of (input : list (jstr * jsval)) (key : string) (fallback least : Z) : acquired Z :=
  match find_first (fun kv => jeqb kv.1 (js key)) input with
  | None => Ok fallback
  | Some (_, JNum x) =>
      match safe_integer x with
      | Some z => if z <? least then Err (refuse "invalid_limits") else Ok z
      | None => Err (refuse "invalid_limits")
      end
  | Some _ => Err (refuse "invalid_limits")
  end.
Definition mergeLimits (input : list (jstr * jsval)) : acquired AcquisitionLimits :=
  let d := DEFAULT_ACQUISITION_LIMITS in
  let? files := limit_of input "maxFiles" (maxFiles d) 1 in
  let? fileBytes := limit_of input "maxFileBytes" (maxFileBytes d) 1 in
  let? expandedBytes := limit_of input "maxExpandedBytes" (maxExpandedBytes d) 1 in
  let? pathBytes := limit_of input "maxPathBytes" (maxPathBytes d) 1 in
  let? responseBytes := limit_of input "maxResponseBytes" (maxResponseBytes d) 1 in
  let? redirects := limit_of input "maxRedirects" (maxRedirects d) 1 in
  let? attempts := limit_of input "maxAttempts" (maxAttempts d) 1 in
  let? parallel := limit_of input "concurrency" (concurrency d) 1 in
  let? rate := limit_of input "maxRequestsPerSecond" (maxRequestsPerSecond d) 1 in
  let? timeout := limit_of input "requestTimeoutMs" (requestTimeoutMs d) 1 in
  let? hops := limit_of input "maxRegistryHops" (maxRegistryHops d) 1 in
  let? binaryBytes := limit_of input "maxBinaryBytes" (maxBinaryBytes d) 0 in
  let? binaryTotalBytes := limit_of input "maxBinaryTotalBytes" (maxBinaryTotalBytes d) 0 in
  let? binaryFiles := limit_of input "maxBinaryFiles" (maxBinaryFiles d) 0 in
  Ok {| maxFiles := files; maxFileBytes := fileBytes; maxExpandedBytes := expandedBytes;
        maxPathBytes := pathBytes; maxResponseBytes := responseBytes; maxBinaryBytes := binaryBytes;
        maxBinaryTotalBytes := binaryTotalBytes; maxBinaryFiles := binaryFiles; maxRedirects := redirects;
        maxAttempts := attempts; concurrency := parallel; maxRequestsPerSecond := rate;
        requestTimeoutMs := timeout; maxRegistryHops := hops |}.

(** ** Bytes *)

Definition containsBinaryMarker (bytes : list Z) : bool := existsb (fun byte => byte =? 0) bytes.
Definition isBinaryBytes (bytes : list Z) : bool :=
  containsBinaryMarker bytes || match textDecode bytes with Some _ => false | None => true end.

(** The base64 pattern of quanta, the last of which may be padded. *)
Fixpoint base64_pattern (s : jstr) : bool :=
  match s with
  | [] => true
  | a :: b :: c :: d :: r =>
      let unit_ (x : Z) := 0 <=? base64Sextet x in
      unit_ a && unit_ b &&
      ((unit_ c && unit_ d && base64_pattern r) ||
       (bool_decide (r = []) && (d =? 61) && ((c =? 61) || unit_ c)))
  | _ => false
  end.
(** [Buffer.from(value, 'base64')] of a text that has the pattern. *)
Definition bufferFromBase64 (value : jstr) : list Z := default [] (atob value).
Definition isCanonicalBase64 (value : jstr) : bool :=
  base64_pattern value && jeqb (btoa (bufferFromBase64 value)) value.

Section Acquisition.
Context {U : UnicodeTables} {UP : UpperTable}.

(** ** Paths *)

(** [/^[A-Za-z]:/]. *)
Definition drive_prefix (s : jstr) : bool :=
  match s with
  | a :: b :: _ => (is_lower a || is_upper a) && (b =? 58)
  | _ => false
  end.
Definition DEVICE_STEMS : list jstr :=
  [js "CON"; js "PRN"; js "AUX"; js "NUL"] ++
  ((fun d => js "COM" ++ [d]) <$> seqZ 49 9) ++ ((fun d => js "LPT" ++ [d]) <$> seqZ 49 9).
(** [part.split('.')[0].toLocaleUpperCase('en-US')] is a device name. *)
Definition device_segment (part : jstr) : bool :=
  bool_decide (toUpperCase (hd [] (split 46 part)) ∈ DEVICE_STEMS).
Definition unsafe_part (part : jstr) : bool :=
  jeqb part [] || jeqb part (js ".") || jeqb part (js "..") || endsWith (js ".") part || endsWith (js " ") part ||
  includes [58] part || WINDOWS_RESERVED_CHARACTER part.
Definition reserved_part (part : jstr) : bool :=
  bool_decide (toLowerCase part ∈ [js ".claude-plugin"; js ".agents"; js ".codex"; js ".cursor"; js ".windsurf"; js ".mcp"]) ||
  jeqb (toLowerCase part) (js ".mcp.json").
Definition validateSkillPath (pathInput : jstr) (limits : AcquisitionLimits) (rejectReserved : bool)
    : acquired jstr :=
  throw_if jlen pathInput =? 0 with refuse "invalid_path" ;;
  throw_if hasLoneSurrogate pathInput || includes [0] pathInput || includes [92] pathInput ||
           CONTROL_CHARACTER pathInput || startsWith [47] pathInput || drive_prefix pathInput ||
           startsWith [47; 47] pathInput
    with refuse "invalid_path" ;;
  let path := normalizeNFC pathInput in
  throw_if maxPathBytes limits <? jlen (textEncode path) with refuse "path_length_limit" ;;
  let parts := split 47 path in
  throw_if existsb unsafe_part parts with refuse "invalid_path" ;;
  throw_if existsb device_segment parts with refuse "invalid_path" ;;
  throw_if rejectReserved && existsb reserved_part parts with refuse "plugin_payload" ;;
  Ok path.
Definition validatePathValue (value : jsval) (limits : AcquisitionLimits) (rejectReserved : bool) : acquired jstr :=
  match value with
  | JStr pathInput => validateSkillPath pathInput limits rejectReserved
  | _ => Err (refuse "invalid_path")
  end.

(** ** Bundles *)

Definition pathKey (path : jstr) : jstr := toLowerCase (normalizeNFC path).
Definition keys_within (props : list (jstr * jsval)) (allowed : list jstr) : bool :=
  forallb (fun kv => bool_decide (kv.1 ∈ allowed)) props.

(** The loop's counters: the paths and keys so far, and the bytes of them. *)
Record Tally : Type := {
  ty_seen : list jstr;
  ty_keys : list jstr;
  ty_expanded : Z;
  ty_binaryBytes : Z;
  ty_binaryFiles : Z;
}.
Definition empty_tally : Tally :=
  {| ty_seen := []; ty_keys := []; ty_expanded := 0; ty_binaryBytes := 0; ty_binaryFiles := 0 |}.
(** The counters after a file's content, or the limit it exceeds. *)
Definition count_file (limits : AcquisitionLimits) (path : jstr) (bytes : list Z) (tally : Tally) : acquired Tally :=
  let size := Z.of_nat (length bytes) in
  throw_if maxFileBytes limits <? size with refuse "file_size_limit" ;;
  let expanded := ty_expanded tally + size in
  throw_if maxExpandedBytes limits <? expanded with refuse "expanded_size_limit" ;;
  let next files binary := {|
    ty_seen := path :: ty_seen tally; ty_keys := pathKey path :: ty_keys tally; ty_expanded := expanded;
    ty_binaryBytes := binary; ty_binaryFiles := files |} in
  if isBinaryBytes bytes then
    let files := ty_binaryFiles tally + 1 in
    let binary := ty_binaryBytes tally + size in
    throw_if maxBinaryFiles limits <? files with refuse "binary_file_limit" ;;
    throw_if (maxBinaryBytes limits <? size) || (maxBinaryTotalBytes limits <? binary)
      with refuse "binary_size_limit" ;;
    throw_if jeqb path (js "SKILL.md") with refuse "binary_file" ;;
    Ok (next files binary)
  else Ok (next (ty_binaryFiles tally) (ty_binaryBytes tally)).
Definition acquire_file (limits : AcquisitionLimits) (tally : Tally) (rawFile : jsval) : acquired (BundleFile * Tally) :=
  match rawFile with
  | JObj props =>
      match obj_get props (js "path") with
      | JStr rawPath =>
          throw_if negb (keys_within props FILE_KEYS) with refuse "invalid_bundle" ;;
          let? path := validateSkillPath rawPath limits true in
          throw_if bool_decide (pathKey path ∈ ty_keys tally) || bool_decide (path ∈ ty_seen tally)
            with refuse "path_collision" ;;
          match obj_get props (js "content") with
          | JStr content =>
              throw_if negb (isCanonicalBase64 content) with refuse "binary_file" ;;
              let? tally := count_file limits path (bufferFromBase64 content) tally in
              let? executable := match obj_get props (js "executable") with
                                 | JUndef => Ok None
                                 | JBool flag => Ok (if flag then Some true else None)
                                 | _ => Err (refuse "invalid_bundle")
                                 end in
              Ok ({| path := path; content := content; executable := executable |}, tally)
          | _ => Err (refuse "binary_file")
          end
      | _ => Err (refuse "invalid_bundle")
      end
  | _ => Err (refuse "invalid_bundle")
  end.
Fixpoint acquire_files (limits : AcquisitionLimits) (tally : Tally) (l : list jsval) : acquired (list BundleFile) :=
  match l with
  | [] => Ok []
  | rawFile :: l' =>
      let? (file, tally) := acquire_file limits tally rawFile in
      let? files := acquire_files limits tally l' in
      Ok (file :: files)
  end.
Definition validate_bundle_within (limits : AcquisitionLimits) (candidate : jsval) : acquired SkillBundle :=
  match candidate with
  | JObj props =>
      throw_if (match obj_get props (js "format") with
                | JStr format => negb (jeqb format BUNDLE_FORMAT)
                | _ => true
                end) with refuse "invalid_bundle" ;;
      throw_if negb (keys_within props BUNDLE_KEYS) with refuse "invalid_bundle" ;;
      match obj_get props (js "files") with
      | JArr l =>
          throw_if maxFiles limits <? Z.of_nat (length l) with refuse "file_count_limit" ;;
          let? files := acquire_files limits empty_tally l in
          throw_if negb (existsb (fun file => jeqb (path file) (js "SKILL.md")) files)
            with refuse "missing_skill_file" ;;
          Ok {| files := js_sort comparePaths files |}
      | _ => Err (refuse "invalid_bundle")
      end
  | _ => Err (refuse "invalid_bundle")
  end.
Definition validateSkillBundle (candidate : jsval) (limitsInput : list (jstr * jsval)) : acquired SkillBundle :=
  let? limits := mergeLimits limitsInput in
  validate_bundle_within limits candidate.
Definition serializeSkillBundle (bundle : SkillBundle) : acquired (list Z) :=
  let? normalized := validateSkillBundle (bundle_value bundle) [] in
  Ok (textEncode (stringify (bundle_data (files normalized)))).

(** *** A bundle of files *)

Record RawFile : Type := {
  rf_path : jstr;
  rf_bytes : list Z;
  rf_executable : bool;
}.
Definition raw_value (file : RawFile) : jsval :=
  JObj ([(js "path", JStr (rf_path file)); (js "content", JStr (btoa (rf_bytes file)))] ++
        if rf_executable file then [(js "executable", JBool true)] else []).
Definition with_rf_path (p : jstr) (file : RawFile) : RawFile :=
  {| rf_path := p; rf_bytes := rf_bytes file; rf_executable := rf_executable file |}.
(** The last segment, in lower case, is [skill.md]. *)
Definition is_skill_file (file : RawFile) : bool :=
  jeqb (List.last (split 47 (toLowerCase (rf_path file))) []) (js "skill.md").
(** [text.slice(0, text.lastIndexOf('/'))], or the empty text. *)
Definition directory_of (p : jstr) : jstr := join [47] (removelast (split 47 p)).
Definition within_directory (prefix : jstr) (file : RawFile) : acquired RawFile :=
  if jeqb prefix [] then Ok file
  else
    throw_if negb (jeqb (rf_path file) prefix) && negb (startsWith (prefix ++ [47]) (rf_path file))
      with refuse "invalid_source" ;;
    let relative := if jeqb (rf_path file) prefix then [] else drop (length prefix + 1) (rf_path file) in
    throw_if jeqb relative [] with refuse "invalid_path" ;;
    Ok (with_rf_path relative file).
Definition bundleFromRawFiles (limits : AcquisitionLimits) (input : list RawFile) : acquired SkillBundle :=
  throw_if maxFiles limits <? Z.of_nat (length input) with refuse "file_count_limit" ;;
  let? normalized := map_result (fun file =>
                       let? p := validateSkillPath (rf_path file) limits false in
                       Ok (with_rf_path p file)) input in
  match List.filter is_skill_file normalized with
  | [] => Err (refuse "missing_skill_file")
  | [skill] =>
      let? selected := map_result (within_directory (directory_of (rf_path skill))) normalized in
      validate_bundle_within limits
        (JObj [(js "format", JStr BUNDLE_FORMAT); (js "files", JArr (raw_value <$> selected))])
  | _ => Err (refuse "ambiguous_source")
  end.
End Acquisition.
