(* ===== verification/Archive.v ===== *)
(** * Reading archives

    The ZIP and tar readers of packages/upstreams/src/index.ts and what is
    selected from an archive: nothing is written to a file system, so an archive
    is a list of bytes and its content a list of entries.  The parts of the file
    that is read next are lists too: [subarray] is [take] after [drop].
    Decompression is zlib's. *)

From Stdlib Require Import ZArith Lia.
From stdpp Require Import base list strings sets.
From S2P Require Import Prelude Js Names Numbers Web Bundle Acquire.

Local Open Scope Z_scope.

(** [inflateRawSync] and [gunzipSync] with [maxOutputLength]; [None] when they
    throw. *)
Class Zlib := {
  inflateRaw : Z -> list Z -> option (list Z);
  gunzip : Z -> list Z -> option (list Z);
}.

(** ** Entries *)

Definition WELL_KNOWN_MAX_ARCHIVE_FILES : Z := 1000.
Definition WELL_KNOWN_MAX_ARCHIVE_BYTES : Z := 50 * 1024 * 1024.
Definition MAX_TAR_PAX_HEADER_BYTES : Z := 64 * 1024.

Inductive ArchiveEntry : Type :=
| ArchiveDirectoryEntry (path : jstr)
| ArchiveFileEntry (path : jstr) (bytes : list Z).
#[export] Instance ArchiveEntry_eq_dec : EqDecision ArchiveEntry.
Proof. solve_decision. Defined.
Definition entry_path (entry : ArchiveEntry) : jstr :=
  match entry with ArchiveDirectoryEntry p | ArchiveFileEntry p _ => p end.
(** The files of a list of entries, as the readers without directories return them. *)
Definition file_entries (entries : list ArchiveEntry) : list (jstr * list Z) :=
  omap (fun entry => match entry with
                     | ArchiveFileEntry p bytes => Some (p, bytes)
                     | ArchiveDirectoryEntry _ => None
                     end) entries.

Section Archives.
Context {U : UnicodeTables} {UP : UpperTable} {ZL : Zlib}.
Context (limits : AcquisitionLimits) (includeDirectories : bool).

Definition validateArchivePath (value : jstr) : acquired jstr :=
  throw_if jeqb value [] || startsWith [47] value || startsWith [92] value || includes [92] value ||
           includes [0] value || drive_prefix value
    with refuse "invalid_path" ;;
  validateSkillPath value limits false.
(** The path of an entry, if no entry before had it. *)
Definition new_path (value : jstr) (seen : list jstr) : acquired jstr :=
  let? path := validateArchivePath value in
  throw_if bool_decide (path ∈ seen) with refuse "path_collision" ;;
  Ok path.
Definition expanded_limit : Z := Z.min (maxExpandedBytes limits) WELL_KNOWN_MAX_ARCHIVE_BYTES.
Definition directory_entry (path : jstr) : list ArchiveEntry :=
  if includeDirectories then [ArchiveDirectoryEntry path] else [].

(** ** tar *)

Definition subarray (bytes : list Z) (start size : nat) : list Z := take size (drop start bytes).
Definition all_zero (bytes : list Z) : bool := forallb (fun byte => byte =? 0) bytes.
Definition USTAR : list Z := [117; 115; 116; 97; 114].
Definition isTarHeaderMagic (header : list Z) : bool :=
  let magic := subarray header 257 6 in
  bool_decide (magic = USTAR ++ [0]) || bool_decide (magic = USTAR ++ [32]).
Definition tar_pad (byte : Z) : bool := (byte =? 0) || (byte =? 32).
Fixpoint skip_pad (bytes : list Z) : list Z :=
  match bytes with
  | byte :: rest => if tar_pad byte then skip_pad rest else bytes
  | [] => []
  end.
Fixpoint octal_value (result : Z) (digits : list Z) : acquired Z :=
  match digits with
  | [] => Ok result
  | byte :: rest =>
      let digit := byte - 48 in
      throw_if (digit <? 0) || (7 <? digit) with refuse "invalid_archive" ;;
      let result := result * 8 + digit in
      throw_if MAX_SAFE_INTEGER <? result with refuse "invalid_archive" ;;
      octal_value result rest
  end.
(** The digits without the padding before and after them. *)
Definition readTarOctal (bytes : list Z) (start size : nat) : acquired Z :=
  octal_value 0 (skip_pad (reverse (skip_pad (reverse (subarray bytes start size))))).
Fixpoint until_zero (bytes : list Z) : list Z :=
  match bytes with
  | byte :: rest => if byte =? 0 then [] else byte :: until_zero rest
  | [] => []
  end.
Definition readTarString (bytes : list Z) (start size : nat) : acquired jstr :=
  match textDecode (until_zero (subarray bytes start size)) with
  | Some text => Ok (trim text)
  | None => Err (refuse "invalid_archive")
  end.
Definition sum_bytes (bytes : list Z) : Z := foldr Z.add 0 bytes.
(** The checksum counts its own field as spaces. *)
Definition tar_checksum (header : list Z) : Z :=
  sum_bytes (take 148 header) + 8 * 32 + sum_bytes (drop 156 header).

(** *** The PAX global header *)

Fixpoint index_of_byte (byte : Z) (bytes : list Z) : option nat :=
  match bytes with
  | [] => None
  | b :: rest => if b =? byte then Some O else S <$> index_of_byte byte rest
  end.
Fixpoint pax_length (length_ : Z) (digits : list Z) : acquired Z :=
  match digits with
  | [] => Ok length_
  | byte :: rest =>
      let digit := byte - 48 in
      throw_if (digit <? 0) || (9 <? digit) with refuse "invalid_archive" ;;
      let length_ := length_ * 10 + digit in
      throw_if MAX_SAFE_INTEGER <? length_ with refuse "invalid_archive" ;;
      pax_length length_ rest
  end.
(** [/^-?[0-9]+(?:\.[0-9]+)?$/]. *)
Definition decimal_text (value : jstr) : bool :=
  let digits s := match s with c :: r => if c =? 45 then r else s | [] => [] end in
  match split 46 (digits value) with
  | [whole] => negb (jeqb whole []) && forallb is_digit whole
  | [whole; fraction] => negb (jeqb whole []) && forallb is_digit whole &&
                         negb (jeqb fraction []) && forallb is_digit fraction
  | _ => false
  end.
Definition pax_metadata (key value : jstr) : acquired unit :=
  if jeqb key (js "comment") then
    throw_if negb (jlen value =? 40) || negb (forallb is_hex_lower value) with refuse "unsupported_archive" ;; Ok tt
  else if jeqb key (js "mtime") || jeqb key (js "atime") || jeqb key (js "ctime") then
    throw_if negb (decimal_text value) || negb (num_finite (stringToNumber value))
      with refuse "unsupported_archive" ;; Ok tt
  else if jeqb key (js "uid") || jeqb key (js "gid") then
    throw_if jeqb value [] || negb (forallb is_digit value) ||
             match safe_integer (stringToNumber value) with Some _ => false | None => true end
      with refuse "unsupported_archive" ;; Ok tt
  else Err (refuse "unsupported_archive").
(** A record at the head of the bytes: its key, and how long it is. *)
Definition pax_record (bytes : list Z) (keys : list jstr) : acquired (jstr * nat) :=
  match index_of_byte 32 bytes with
  | None => Err (refuse "invalid_archive")
  | Some space =>
      throw_if (space =? 0)%nat || (20 <? space)%nat with refuse "invalid_archive" ;;
      let? length_ := pax_length 0 (take space bytes) in
      throw_if (length_ <? Z.of_nat space + 5) || (Z.of_nat (length bytes) <? length_)
        with refuse "invalid_archive" ;;
      let size := Z.to_nat length_ in
      throw_if negb (nth (size - 1) bytes (-1) =? 10) with refuse "invalid_archive" ;;
      let record := subarray bytes (space + 1) (size - 1 - (space + 1)) in
      match index_of_byte 61 record with
      | None | Some O => Err (refuse "invalid_archive")
      | Some equals =>
          match textDecode (take equals record), textDecode (drop (S equals) record) with
          | Some key, Some value =>
              throw_if includes [0] key || includes [0] value || bool_decide (key ∈ keys)
                with refuse "unsupported_archive" ;;
              let? _ := pax_metadata key value in
              Ok (key, size)
          | _, _ => Err (refuse "invalid_archive")
          end
      end
  end.
(** A record has at least six bytes, so that the number of bytes bounds the
    number of rounds. *)
Fixpoint pax_records (fuel : nat) (bytes : list Z) (keys : list jstr) : acquired unit :=
  match bytes, fuel with
  | [], _ => Ok tt
  | _, O => Err (refuse "invalid_archive")
  | _, S fuel =>
      let? (key, size) := pax_record bytes keys in
      pax_records fuel (drop size bytes) (key :: keys)
  end.
Definition validateTarPaxGlobalHeader (bytes : list Z) : acquired unit :=
  throw_if bool_decide (bytes = []) || (MAX_TAR_PAX_HEADER_BYTES <? Z.of_nat (length bytes))
    with refuse "invalid_archive" ;;
  pax_records (length bytes) bytes [].

(** *** The archive *)

Record TarHeader : Type := {
  th_path : jstr;
  th_size : Z;
  th_type : Z;
}.
Definition read_tar_header (header : list Z) : acquired TarHeader :=
  throw_if negb (isTarHeaderMagic header) with refuse "invalid_archive" ;;
  let? storedChecksum := readTarOctal header 148 8 in
  throw_if negb (storedChecksum =? tar_checksum header) with refuse "digest_mismatch" ;;
  let? name := readTarString header 0 100 in
  let? prefix := readTarString header 345 155 in
  let? size := readTarOctal header 124 12 in
  throw_if (maxFileBytes limits <? size) || (WELL_KNOWN_MAX_ARCHIVE_BYTES <? size) with refuse "archive_limit" ;;
  Ok {| th_path := if jeqb prefix [] then name else prefix ++ 47 :: name;
        th_size := size; th_type := nth 156 header 0 |}.
(** What an entry adds: its entries, and the paths and bytes counted. *)
Definition tar_entry (header : TarHeader) (content : list Z) (seen : list jstr) (total : Z)
    : acquired (list ArchiveEntry * list jstr * Z) :=
  if (th_type header =? 0) || (th_type header =? 0x30) then
    let? path := new_path (th_path header) seen in
    let total := total + Z.of_nat (length content) in
    throw_if expanded_limit <? total with refuse "archive_limit" ;;
    Ok ([ArchiveFileEntry path content], path :: seen, total)
  else if th_type header =? 0x35 then
    if jeqb (th_path header) [] then Ok ([], seen, total)
    else
      let directory := if endsWith [47] (th_path header) then removelast (th_path header) else th_path header in
      let? path := new_path directory seen in
      Ok (directory_entry path, path :: seen, total)
  else if th_type header =? 0x67 then
    throw_if Z.min (maxFileBytes limits) MAX_TAR_PAX_HEADER_BYTES <? th_size header with refuse "archive_limit" ;;
    let? _ := validateTarPaxGlobalHeader content in
    Ok ([], seen, total)
  else Err (refuse "unsupported_archive").
(** The whole blocks of an entry of [size] bytes. *)
Definition tar_blocks (size : Z) : nat := Z.to_nat ((size + 511) / 512 * 512).
(** The loop on what is left of the archive; a round takes a header at least. *)
Fixpoint tar_entries (fuel : nat) (bytes : list Z) (seen : list jstr) (total : Z) : acquired (list ArchiveEntry) :=
  match fuel with
  | O => Err (refuse "invalid_archive")
  | S fuel =>
      throw_if (length bytes <? 512)%nat with refuse "invalid_archive" ;;
      let header := take 512 bytes in
      let rest := drop 512 bytes in
      if all_zero header then
        throw_if (length rest <? 512)%nat || negb (all_zero (take 512 rest)) with refuse "invalid_archive" ;;
        throw_if negb (all_zero (drop 512 rest)) with refuse "invalid_archive" ;;
        Ok []
      else
        let? h := read_tar_header header in
        let blocks := tar_blocks (th_size h) in
        throw_if (length rest <? blocks)%nat with refuse "invalid_archive" ;;
        let? (entries, seen, total) := tar_entry h (take (Z.to_nat (th_size h)) rest) seen total in
        let? more := tar_entries fuel (drop blocks rest) seen total in
        Ok (entries ++ more)
  end.
Definition tar_fuel (bytes : list Z) : nat := S (length bytes / 512).
Definition extractTarArchive (bytes : list Z) : acquired (list ArchiveEntry) :=
  let? entries := tar_entries (tar_fuel bytes) bytes [] 0 in
  throw_if bool_decide (entries = []) with refuse "source_not_found" ;;
  Ok entries.

(** ** ZIP *)

Definition byte_at (bytes : list Z) (offset : Z) : Z := nth (Z.to_nat offset) bytes 0.
Definition byte_length (bytes : list Z) : Z := Z.of_nat (length bytes).
(** [bytes.subarray(start, end)], or [slice]. *)
Definition range (bytes : list Z) (start end_ : Z) : list Z :=
  subarray bytes (Z.to_nat start) (Z.to_nat (end_ - start)).
Definition readU16 (bytes : list Z) (offset : Z) : acquired Z :=
  throw_if (offset <? 0) || (byte_length bytes <? offset + 2) with refuse "invalid_archive" ;;
  Ok (byte_at bytes offset + 256 * byte_at bytes (offset + 1)).
Definition readU32 (bytes : list Z) (offset : Z) : acquired Z :=
  throw_if (offset <? 0) || (byte_length bytes <? offset + 4) with refuse "invalid_archive" ;;
  Ok (byte_at bytes offset + 2 ^ 8 * byte_at bytes (offset + 1) +
      2 ^ 16 * byte_at bytes (offset + 2) + 2 ^ 24 * byte_at bytes (offset + 3)).
Definition sameBytes (left right : list Z) : bool :=
  (length left =? length right)%nat && forallb (fun pair => pair.1 =? pair.2) (zip left right).
(** The bits of the 32-bit operations, as an unsigned number. *)
Definition crc32_bit (result : Z) : Z :=
  Z.lxor (Z.shiftr result 1) (if Z.odd result then 0xedb88320 else 0).
Definition crc32_byte (result byte : Z) : Z := Nat.iter 8 crc32_bit (Z.lxor result byte).
Definition crc32Bytes (value : list Z) : Z := Z.lxor (foldl crc32_byte 0xffffffff value) 0xffffffff.

(** *** Text of names *)

(** The characters [TextDecoder('latin1')], which is windows-1252, gives the
    bytes from 0x80 to 0x9f. *)
Definition WINDOWS_1252 : list Z :=
  [0x20ac; 0x81; 0x201a; 0x192; 0x201e; 0x2026; 0x2020; 0x2021; 0x2c6; 0x2030; 0x160; 0x2039; 0x152; 0x8d; 0x17d; 0x8f;
   0x90; 0x2018; 0x2019; 0x201c; 0x201d; 0x2022; 0x2013; 0x2014; 0x2dc; 0x2122; 0x161; 0x203a; 0x153; 0x9d; 0x17e; 0x178].
Definition windows1252 (byte : Z) : Z :=
  if between 0x80 byte 0x9f then nth (Z.to_nat (byte - 0x80)) WINDOWS_1252 byte else byte.

(** *** The central directory *)

(** From the last position the end record can have to the first. *)
Definition eocd_at (bytes : list Z) (offset : Z) : bool :=
  (byte_at bytes offset =? 0x50) && (byte_at bytes (offset + 1) =? 0x4b) &&
  (byte_at bytes (offset + 2) =? 5) && (byte_at bytes (offset + 3) =? 6).
Fixpoint find_eocd (candidates : nat) (bytes : list Z) (offset lower : Z) : Z :=
  match candidates with
  | O => -1
  | S candidates =>
      if offset <? lower then -1
      else if (0 <=? offset) && eocd_at bytes offset then offset
      else find_eocd candidates bytes (offset - 1) lower
  end.
Definition findZipEndOfCentralDirectory (bytes : list Z) : Z :=
  find_eocd (length bytes) bytes (byte_length bytes - 22) (Z.max 0 (byte_length bytes - 65557)).

Record ZipDirectory : Type := {
  zd_entryCount : Z;
  zd_centralOffset : Z;
  zd_centralSize : Z;
}.
Definition zd_centralEnd (d : ZipDirectory) : Z := zd_centralOffset d + zd_centralSize d.
Definition readZipDirectory (bytes : list Z) : acquired ZipDirectory :=
  let eocd := findZipEndOfCentralDirectory bytes in
  throw_if eocd <? 0 with refuse "invalid_archive" ;;
  let? diskNumber := readU16 bytes (eocd + 4) in
  let? centralDisk := readU16 bytes (eocd + 6) in
  let? entriesOnDisk := readU16 bytes (eocd + 8) in
  let? entryCount := readU16 bytes (eocd + 10) in
  let? centralSize := readU32 bytes (eocd + 12) in
  let? centralOffset := readU32 bytes (eocd + 16) in
  let? commentLength := readU16 bytes (eocd + 20) in
  throw_if negb (diskNumber =? 0) || negb (centralDisk =? 0) || negb (entriesOnDisk =? entryCount) ||
           negb (eocd + 22 + commentLength =? byte_length bytes)
    with refuse "invalid_archive" ;;
  throw_if (entryCount =? 0xffff) || (centralSize =? 0xffffffff) || (centralOffset =? 0xffffffff)
    with refuse "unsupported_archive" ;;
  throw_if (Z.min WELL_KNOWN_MAX_ARCHIVE_FILES (maxFiles limits) <? entryCount) ||
           negb (centralOffset + centralSize =? eocd)
    with refuse "archive_limit" ;;
  Ok {| zd_entryCount := entryCount; zd_centralOffset := centralOffset; zd_centralSize := centralSize |}.

(** [cursor + 46 > end || readU32(view, cursor) !== 0x02014b50]. *)
Definition at_central_record (bytes : list Z) (cursor end_ : Z) : acquired unit :=
  throw_if end_ <? cursor + 46 with refuse "invalid_archive" ;;
  let? signature := readU32 bytes cursor in
  throw_if negb (signature =? 0x02014b50) with refuse "invalid_archive" ;;
  Ok tt.
(** The length of the record at the cursor. *)
Definition central_record_size (bytes : list Z) (cursor : Z) : acquired Z :=
  let? nameLength := readU16 bytes (cursor + 28) in
  let? extraLength := readU16 bytes (cursor + 30) in
  let? commentLength := readU16 bytes (cursor + 32) in
  Ok (46 + nameLength + extraLength + commentLength).
Fixpoint collect_offsets (entryCount : nat) (bytes : list Z) (d : ZipDirectory) (cursor : Z) (seen : list Z)
    : acquired (list Z) :=
  match entryCount with
  | O =>
      throw_if negb (cursor =? zd_centralEnd d) with refuse "invalid_archive" ;;
      Ok []
  | S entryCount =>
      let? _ := at_central_record bytes cursor (zd_centralEnd d) in
      let? size := central_record_size bytes cursor in
      throw_if zd_centralEnd d <? cursor + size with refuse "invalid_archive" ;;
      let? localOffset := readU32 bytes (cursor + 42) in
      throw_if (zd_centralOffset d <=? localOffset) || bool_decide (localOffset ∈ seen)
        with refuse "invalid_archive" ;;
      let? offsets := collect_offsets entryCount bytes d (cursor + size) (localOffset :: seen) in
      Ok (localOffset :: offsets)
  end.
Definition collectZipLocalOffsets (bytes : list Z) (d : ZipDirectory) : acquired (list Z) :=
  collect_offsets (Z.to_nat (zd_entryCount d)) bytes d (zd_centralOffset d) [].
Definition nextZipLocalOffset (offsets : list Z) (current centralOffset : Z) : acquired Z :=
  let boundary := foldl (fun boundary offset =>
                           if (current <? offset) && (offset <? boundary) then offset else boundary)
                    centralOffset offsets in
  throw_if boundary <=? current with refuse "invalid_archive" ;;
  Ok boundary.

(** *** Records *)

Record CentralRecord : Type := {
  cr_flags : Z;
  cr_method : Z;
  cr_crc : Z;
  cr_compressedSize : Z;
  cr_uncompressedSize : Z;
  cr_name : list Z;
  cr_localOffset : Z;
  cr_end : Z;
  cr_creatorOs : Z;
  cr_attributes : Z;
}.
Definition read_central_record (bytes : list Z) (d : ZipDirectory) (cursor : Z) : acquired CentralRecord :=
  let? _ := at_central_record bytes cursor (byte_length bytes) in
  let? flags := readU16 bytes (cursor + 8) in
  let? method := readU16 bytes (cursor + 10) in
  let? compressedSize := readU32 bytes (cursor + 20) in
  let? uncompressedSize := readU32 bytes (cursor + 24) in
  let? nameLength := readU16 bytes (cursor + 28) in
  let? size := central_record_size bytes cursor in
  let? localOffset := readU32 bytes (cursor + 42) in
  throw_if (zd_centralEnd d <? cursor + size) || Z.testbit flags 0 with refuse "unsupported_archive" ;;
  throw_if negb (method =? 0) && negb (method =? 8) with refuse "unsupported_archive" ;;
  throw_if (maxFileBytes limits <? uncompressedSize) || (WELL_KNOWN_MAX_ARCHIVE_BYTES <? uncompressedSize) ||
           (maxResponseBytes limits <? compressedSize)
    with refuse "archive_limit" ;;
  let? versionMadeBy := readU16 bytes (cursor + 4) in
  let? attributes := readU32 bytes (cursor + 38) in
  let? crc := readU32 bytes (cursor + 16) in
  Ok {| cr_flags := flags; cr_method := method; cr_crc := crc; cr_compressedSize := compressedSize;
        cr_uncompressedSize := uncompressedSize; cr_name := range bytes (cursor + 46) (cursor + 46 + nameLength);
        cr_localOffset := localOffset; cr_end := cursor + size; cr_creatorOs := Z.shiftr versionMadeBy 8;
        cr_attributes := attributes |}.
Definition record_name (r : CentralRecord) : acquired jstr :=
  if Z.testbit (cr_flags r) 11 then
    match textDecode (cr_name r) with
    | Some name => Ok name
    | None => Err (refuse "invalid_archive")
    end
  else Ok (windows1252 <$> cr_name r).
(** [externalAttributes >>> 16 & 0xf000]. *)
Definition unix_type (r : CentralRecord) : Z := Z.land (Z.shiftr (cr_attributes r) 16) 0xf000.
Definition dos_directory (r : CentralRecord) : bool :=
  ((cr_creatorOs r =? 0) || (cr_creatorOs r =? 10)) && Z.testbit (cr_attributes r) 4.
Definition unix_directory (r : CentralRecord) : bool := (cr_creatorOs r =? 3) && (unix_type r =? 0x4000).
Definition unix_special (r : CentralRecord) : bool :=
  (cr_creatorOs r =? 3) && negb (unix_type r =? 0) && negb (unix_type r =? 0x8000) && negb (unix_type r =? 0x4000).

(** *** Local headers *)

Record LocalHeader : Type := {
  lh_flags : Z;
  lh_method : Z;
  lh_crc : Z;
  lh_compressedSize : Z;
  lh_uncompressedSize : Z;
  lh_nameLength : Z;
  lh_extraLength : Z;
}.
Definition read_local_header (bytes : list Z) (d : ZipDirectory) (localOffset : Z) : acquired LocalHeader :=
  throw_if byte_length bytes <? localOffset + 30 with refuse "invalid_archive" ;;
  let? signature := readU32 bytes localOffset in
  throw_if negb (signature =? 0x04034b50) with refuse "invalid_archive" ;;
  throw_if zd_centralOffset d <=? localOffset with refuse "invalid_archive" ;;
  let? flags := readU16 bytes (localOffset + 6) in
  let? method := readU16 bytes (localOffset + 8) in
  let? crc := readU32 bytes (localOffset + 14) in
  let? compressedSize := readU32 bytes (localOffset + 18) in
  let? uncompressedSize := readU32 bytes (localOffset + 22) in
  let? nameLength := readU16 bytes (localOffset + 26) in
  let? extraLength := readU16 bytes (localOffset + 28) in
  Ok {| lh_flags := flags; lh_method := method; lh_crc := crc; lh_compressedSize := compressedSize;
        lh_uncompressedSize := uncompressedSize; lh_nameLength := nameLength; lh_extraLength := extraLength |}.
Definition has_descriptor (r : CentralRecord) : bool := Z.testbit (cr_flags r) 3.
(** A value of the local header is the central one; with a data descriptor it
    may be zero. *)
Definition local_value (r : CentralRecord) (local central : Z) : bool :=
  (local =? central) || (has_descriptor r && (local =? 0)).
Definition local_matches (r : CentralRecord) (h : LocalHeader) : bool :=
  (lh_flags h =? cr_flags r) && (lh_method h =? cr_method r) && local_value r (lh_crc h) (cr_crc r) &&
  local_value r (lh_compressedSize h) (cr_compressedSize r) &&
  local_value r (lh_uncompressedSize h) (cr_uncompressedSize r).
(** Where the data descriptor after the data ends; it must fill the space to
    the next record. *)
Definition descriptor_end (bytes : list Z) (r : CentralRecord) (dataEnd boundary : Z) : acquired Z :=
  if has_descriptor r then
    let descriptorBytes := boundary - dataEnd in
    let? signed := if descriptorBytes =? 16 then
                     let? signature := readU32 bytes dataEnd in Ok (signature =? 0x08074b50)
                   else Ok false in
    let descriptorLength := if signed : bool then 16 else 12 in
    throw_if negb (descriptorBytes =? descriptorLength) with refuse "invalid_archive" ;;
    let offset := if signed then dataEnd + 4 else dataEnd in
    let? crc := readU32 bytes offset in
    let? compressedSize := readU32 bytes (offset + 4) in
    let? uncompressedSize := readU32 bytes (offset + 8) in
    throw_if negb (crc =? cr_crc r) || negb (compressedSize =? cr_compressedSize r) ||
             negb (uncompressedSize =? cr_uncompressedSize r)
      with refuse "digest_mismatch" ;;
    Ok (dataEnd + descriptorLength)
  else Ok dataEnd.
(** Where the data of a record begins, and where the entry ends. *)
Definition zip_data (bytes : list Z) (d : ZipDirectory) (offsets : list Z) (r : CentralRecord)
    : acquired (Z * Z) :=
  let? h := read_local_header bytes d (cr_localOffset r) in
  throw_if negb (local_matches r h) with refuse "invalid_archive" ;;
  let? boundary := nextZipLocalOffset offsets (cr_localOffset r) (zd_centralOffset d) in
  let nameEnd := cr_localOffset r + 30 + lh_nameLength h in
  let dataStart := nameEnd + lh_extraLength h in
  throw_if boundary <? dataStart with refuse "invalid_archive" ;;
  throw_if negb (sameBytes (range bytes (cr_localOffset r + 30) nameEnd) (cr_name r))
    with refuse "invalid_archive" ;;
  let dataEnd := dataStart + cr_compressedSize r in
  throw_if boundary <? dataEnd with refuse "invalid_archive" ;;
  let? entryEnd := descriptor_end bytes r dataEnd boundary in
  Ok (dataStart, entryEnd).
Definition zip_content (bytes : list Z) (r : CentralRecord) (dataStart : Z) : acquired (list Z) :=
  let data := range bytes dataStart (dataStart + cr_compressedSize r) in
  let content := if cr_method r =? 0 then Some data
                 else inflateRaw (Z.min (cr_uncompressedSize r)
                                    (Z.min (maxFileBytes limits) WELL_KNOWN_MAX_ARCHIVE_BYTES)) data in
  match content with
  | None => Err (refuse "invalid_archive")
  | Some content =>
      throw_if negb (byte_length content =? cr_uncompressedSize r) with refuse "size_mismatch" ;;
      throw_if negb (crc32Bytes content =? cr_crc r) with refuse "digest_mismatch" ;;
      Ok content
  end.

(** *** The archive *)

Record ZipState : Type := {
  zs_seen : list jstr;
  zs_ranges : list (Z * Z);
  zs_total : Z;
}.
Definition overlaps (start end_ : Z) (other : Z * Z) : bool := (start <? other.2) && (other.1 <? end_).
Definition zip_file (bytes : list Z) (d : ZipDirectory) (offsets : list Z) (r : CentralRecord) (name : jstr)
    (state : ZipState) : acquired (list ArchiveEntry * ZipState) :=
  let? path := new_path name (zs_seen state) in
  let? (dataStart, entryEnd) := zip_data bytes d offsets r in
  throw_if existsb (overlaps (cr_localOffset r) entryEnd) (zs_ranges state) with refuse "invalid_archive" ;;
  let? content := zip_content bytes r dataStart in
  let total := zs_total state + byte_length content in
  throw_if expanded_limit <? total with refuse "archive_limit" ;;
  Ok ([ArchiveFileEntry path content],
      {| zs_seen := path :: zs_seen state; zs_ranges := (cr_localOffset r, entryEnd) :: zs_ranges state;
         zs_total := total |}).
Definition zip_entry (bytes : list Z) (d : ZipDirectory) (offsets : list Z) (r : CentralRecord) (state : ZipState)
    : acquired (list ArchiveEntry * ZipState) :=
  let? name := record_name r in
  throw_if unix_special r with refuse "unsupported_archive" ;;
  throw_if (dos_directory r || unix_directory r) && negb (endsWith [47] name) with refuse "unsupported_archive" ;;
  if endsWith [47] name then
    let directory := removelast name in
    if jeqb directory [] then Ok ([], state)
    else
      let? path := new_path directory (zs_seen state) in
      Ok (directory_entry path, {| zs_seen := path :: zs_seen state; zs_ranges := zs_ranges state;
                                   zs_total := zs_total state |})
  else zip_file bytes d offsets r name state.
Fixpoint zip_entries (entryCount : nat) (bytes : list Z) (d : ZipDirectory) (offsets : list Z) (cursor : Z)
    (state : ZipState) : acquired (list ArchiveEntry) :=
  match entryCount with
  | O =>
      throw_if negb (cursor =? zd_centralEnd d) with refuse "invalid_archive" ;;
      Ok []
  | S entryCount =>
      let? r := read_central_record bytes d cursor in
      let? (entries, state) := zip_entry bytes d offsets r state in
      let? more := zip_entries entryCount bytes d offsets (cr_end r) state in
      Ok (entries ++ more)
  end.
Definition extractZipArchive (bytes : list Z) : acquired (list ArchiveEntry) :=
  let? d := readZipDirectory bytes in
  let? offsets := collectZipLocalOffsets bytes d in
  zip_entries (Z.to_nat (zd_entryCount d)) bytes d offsets (zd_centralOffset d)
    {| zs_seen := []; zs_ranges := []; zs_total := 0 |}.

(** ** Which reader *)

Definition is_zip (bytes : list Z) : bool :=
  (4 <=? byte_length bytes) && (byte_at bytes 0 =? 0x50) && (byte_at bytes 1 =? 0x4b) &&
  ((byte_at bytes 2 =? 3) || (byte_at bytes 2 =? 5) || (byte_at bytes 2 =? 7)).
Definition is_gzip (bytes : list Z) : bool :=
  (2 <=? byte_length bytes) && (byte_at bytes 0 =? 0x1f) && (byte_at bytes 1 =? 0x8b).
Definition gunzip_limit : Z :=
  expanded_limit + Z.min (maxFiles limits) WELL_KNOWN_MAX_ARCHIVE_FILES * 1024 + 1024.
Definition extractArchive (bytes : list Z) (contentType artifactUrl : jstr) : acquired (list ArchiveEntry) :=
  let lowerType := toLowerCase contentType in
  let lowerURL := toLowerCase artifactUrl in
  if is_zip bytes then extractZipArchive bytes
  else if is_gzip bytes || includes (js "gzip") lowerType || endsWith (js ".tar.gz") lowerURL ||
          endsWith (js ".tgz") lowerURL then
    match gunzip gunzip_limit bytes with
    | Some decompressed => extractTarArchive decompressed
    | None => Err (refuse "invalid_archive")
    end
  else if includes (js "tar") lowerType || endsWith (js ".tar") lowerURL then extractTarArchive bytes
  else Err (refuse "unsupported_archive").
End Archives.

Section Selection.
Context {U : UnicodeTables} {UP : UpperTable} {ZL : Zlib} {CR : Crypto} {CO : Collation}.

Definition extractWellKnownArchive (limits : AcquisitionLimits) (bytes : list Z) (contentType artifactUrl : jstr)
    : acquired (list (jstr * list Z)) :=
  let? entries := extractArchive limits false bytes contentType artifactUrl in
  Ok (file_entries entries).
Definition extractOpenClawArchive (limits : AcquisitionLimits) (bytes : list Z) (contentType artifactUrl : jstr)
    : acquired (list ArchiveEntry) := extractArchive limits true bytes contentType artifactUrl.
Definition extractTesslArchive (bytes : list Z) (contentType artifactUrl : jstr) (limitsInput : list (jstr * jsval))
    : acquired (list (jstr * list Z)) :=
  let? limits := mergeLimits limitsInput in
  extractWellKnownArchive limits bytes contentType artifactUrl.
End Selection.
