(* ===== verification/AcquireSources.v ===== *)
(** * Selecting skills from sources

    How packages/upstreams/src/index.ts picks the files of a skill out of what
    a source delivered: the directory of a Tessl or OpenClaw archive, the files
    of a ClawHub release checked against its manifest, the files of a GitHub
    tree, and the entries of a well-known discovery index. *)

From Stdlib Require Import ZArith Lia SpecFloat.
From stdpp Require Import base list strings sets.
From S2P Require Import Prelude Js Base64 Json Numbers Bundle Web Access Names Acquire Archive.

Local Open Scope Z_scope.

Section Sources.
Context {U : UnicodeTables} {UP : UpperTable} {ZL : Zlib} {CR : Crypto} {CO : Collation}.

(** ** Tessl *)

(** A directory of an archive, and a path below it. *)
Definition below (directory : jstr) : jstr := if jeqb directory [] then [] else directory ++ [47].
Definition validateTesslSkillPath (value : jsval) (limits : AcquisitionLimits) : acquired jstr :=
  match value with
  | JStr p =>
      throw_if endsWith [47] p with refuse "invalid_path" ;;
      if jeqb p [] then Ok [] else validateSkillPath p limits false
  | _ => Err (refuse "invalid_path")
  end.
Definition selectTesslSkillDirectory (files : list (jstr * list Z)) (skillPath : jsval)
    (limitsInput : list (jstr * jsval)) : acquired (list (jstr * list Z)) :=
  let? limits := mergeLimits limitsInput in
  let? selectedPath := validateTesslSkillPath skillPath limits in
  throw_if bool_decide (files = []) with refuse "source_not_found" ;;
  let prefix := below selectedPath in
  let selected := (fun file => (drop (length prefix) file.1, file.2)) <$>
                  List.filter (fun file => startsWith prefix file.1) files in
  throw_if negb (existsb (fun file => jeqb file.1 (js "SKILL.md")) selected) with refuse "source_not_found" ;;
  let? _ := map_result (fun file => validateSkillPath file.1 limits false) selected in
  throw_if maxFiles limits <? Z.of_nat (length selected) with refuse "file_count_limit" ;;
  Ok selected.

(** ** ClawHub *)

Record ClawHubSourceFile : Type := {
  ch_path : jstr;
  ch_size : Z;
  ch_sha256 : jstr;
}.
#[export] Instance ClawHubSourceFile_eq_dec : EqDecision ClawHubSourceFile.
Proof. solve_decision. Defined.
Definition hex_text (length_ : Z) (s : jstr) : bool := (jlen s =? length_) && forallb is_hex_lower s.
Definition validateClawHubCoordinate (value : jsval) : acquired jstr :=
  match value with
  | JStr s =>
      throw_if jeqb s [] || (256 <? jlen s) || hasLoneSurrogate s || CONTROL_CHARACTER s || includes [47] s ||
               includes [92] s || jeqb s (js ".") || jeqb s (js "..") ||
               negb (match s with
                     | c :: r => is_alnum c && forallb (fun d => is_alnum d || (d =? 46) || (d =? 95) || (d =? 45)) r
                     | [] => false
                     end)
        with refuse "invalid_source" ;;
      Ok s
  | _ => Err (refuse "invalid_source")
  end.
Definition manifest_file (limits : AcquisitionLimits) (seen : list jstr) (total : Z) (entry : jsval)
    : acquired ClawHubSourceFile :=
  throw_if negb (isRecord entry) with refuse "invalid_source" ;;
  let? path := validatePathValue (field entry "path") limits false in
  throw_if bool_decide (path ∈ seen) with refuse "path_collision" ;;
  match field entry "size" with
  | JNum x =>
      match safe_integer x with
      | Some size =>
          throw_if (size <? 0) || (maxFileBytes limits <? size) with refuse "file_size_limit" ;;
          match field entry "sha256" with
          | JStr sha256 =>
              throw_if negb (hex_text 64 sha256) with refuse "invalid_source" ;;
              throw_if maxExpandedBytes limits <? total + size with refuse "expanded_size_limit" ;;
              Ok {| ch_path := path; ch_size := size; ch_sha256 := sha256 |}
          | _ => Err (refuse "invalid_source")
          end
      | None => Err (refuse "file_size_limit")
      end
  | _ => Err (refuse "file_size_limit")
  end.
Fixpoint manifest_files (limits : AcquisitionLimits) (seen : list jstr) (total : Z) (l : list jsval)
    : acquired (list ClawHubSourceFile) :=
  match l with
  | [] => Ok []
  | entry :: l' =>
      let? file := manifest_file limits seen total entry in
      let? files := manifest_files limits (ch_path file :: seen) (total + ch_size file) l' in
      Ok (file :: files)
  end.
Definition validateClawHubManifest (value : jsval) (limits : AcquisitionLimits) : acquired (list ClawHubSourceFile) :=
  match value with
  | JArr l =>
      throw_if bool_decide (length l = O) with refuse "invalid_source" ;;
      throw_if maxFiles limits <? Z.of_nat (length l) with refuse "file_count_limit" ;;
      manifest_files limits [] 0 l
  | _ => Err (refuse "invalid_source")
  end.
(** A manifest as the value a later validation receives. *)
Definition manifest_value (files : list ClawHubSourceFile) : jsval :=
  JArr ((fun f => JObj [(js "path", JStr (ch_path f)); (js "size", JNum (num_of_Z (ch_size f)));
                        (js "sha256", JStr (ch_sha256 f))]) <$> files).
Definition manifest_line (file : ClawHubSourceFile) : jstr :=
  ch_path file ++ 0 :: js_of_nat (Z.to_nat (ch_size file)) ++ 0 :: ch_sha256 file.
Definition by_collation (left right : jstr) : comparison := localeCompare left right ?= 0.
Definition clawHubManifestKey (files : list ClawHubSourceFile) : jstr :=
  join [10] (js_sort by_collation (manifest_line <$> files)).
Definition assertClawHubManifestEqual (expected actual : jsval) (limits : AcquisitionLimits) : acquired unit :=
  let? expected := validateClawHubManifest expected limits in
  let? actual := validateClawHubManifest actual limits in
  throw_if negb (jeqb (clawHubManifestKey expected) (clawHubManifestKey actual)) with refuse "digest_mismatch" ;;
  Ok tt.

(** *** Responses *)

Definition clawHubPayloadRecords (value : jsval) : acquired (list jsval) :=
  throw_if negb (isRecord value) with refuse "invalid_response" ;;
  let data := field value "data" in
  let records v := if isRecord v then [v] else [] in
  Ok ([value] ++ records data ++ (if isRecord data then records (field data "attributes") else []) ++
      records (field value "attributes")).
Definition clawHubPathValue (path : list string) (record : jsval) : jsval :=
  foldl (fun value segment => if isRecord value then field value segment else JUndef) record path.
Definition first_string (values : list jsval) : option jstr :=
  match find_first (fun v => match v with JStr s => negb (jeqb s []) | _ => false end) values with
  | Some (JStr s) => Some s
  | _ => None
  end.
Definition clawHubFirstString (records : list jsval) (paths : list (list string)) : option jstr :=
  first_string (concat ((fun record => (fun path => clawHubPathValue path record) <$> paths) <$> records)).
(** [text.replace(/^@/u, '')]. *)
Definition without_at (s : jstr) : jstr :=
  match s with
  | c :: r => if c =? 64 then r else s
  | [] => []
  end.
Definition clawHubDetailIdentity (value : jsval) : acquired (jstr * jstr) :=
  let? records := clawHubPayloadRecords value in
  match clawHubFirstString records [["owner"; "handle"]; ["ownerHandle"]; ["owner"]]%string,
        clawHubFirstString records [["skill"; "slug"]; ["slug"]]%string with
  | Some owner, Some slug =>
      let? owner := validateClawHubCoordinate (JStr (without_at owner)) in
      let? slug := validateClawHubCoordinate (JStr slug) in
      Ok (owner, slug)
  | _, _ => Err (refuse "invalid_response")
  end.
Definition clawHubVersionValue (value : jsval) : acquired jstr :=
  let? records := clawHubPayloadRecords value in
  match clawHubFirstString records [["version"; "version"]; ["version"]; ["release"; "version"]]%string with
  | Some version => validateClawHubCoordinate (JStr version)
  | None => Err (refuse "invalid_response")
  end.
Definition is_array (value : jsval) : bool := match value with JArr _ => true | _ => false end.
Definition clawHubVersionManifest (value : jsval) (limits : AcquisitionLimits) : acquired (list ClawHubSourceFile) :=
  let? records := clawHubPayloadRecords value in
  let paths := [["files"]; ["version"; "files"]; ["release"; "files"]]%string in
  let raw := find_first is_array
               ((fun record => default JUndef (find_first is_array ((fun p => clawHubPathValue p record) <$> paths)))
                <$> records) in
  validateClawHubManifest (default JUndef raw) limits.

(** *** The downloaded archive *)

Record ClawHubSource : Type := {
  cs_owner : jstr;
  cs_slug : jstr;
  cs_version : jstr;
}.
Definition is_str (value : jsval) (text : jstr) : bool := match value with JStr s => jeqb s text | _ => false end.
Definition metadata_owner (value : jsval) : option jstr :=
  match value with
  | JStr s => Some s
  | _ => if isRecord value then match field value "handle" with JStr s => Some s | _ => None end else None
  end.
Definition owner_agrees (source : ClawHubSource) (value : jsval) : bool :=
  is_undef value ||
  match metadata_owner value with Some owner => jeqb (without_at owner) (cs_owner source) | None => false end.
Definition validateClawHubDownloadMetadata (bytes : list Z) (source : ClawHubSource) (limits : AcquisitionLimits)
    : acquired unit :=
  throw_if Z.min (maxFileBytes limits) (64 * 1024) <? byte_length bytes with refuse "invalid_archive" ;;
  match textDecode bytes ≫= json_parse with
  | None => Err (refuse "invalid_archive")
  | Some value =>
      throw_if negb (isRecord value) with refuse "invalid_archive" ;;
      let slug := field value "slug" in
      let version := field value "version" in
      let owners := [field value "owner"; field value "ownerHandle"] in
      throw_if negb (is_undef slug) && negb (is_str slug (cs_slug source)) with refuse "digest_mismatch" ;;
      throw_if negb (is_undef version) && negb (is_str version (cs_version source)) with refuse "digest_mismatch" ;;
      throw_if negb (forallb (owner_agrees source) owners) with refuse "digest_mismatch" ;;
      throw_if (match field value "ownerId" with
                | JUndef => false
                | JStr s => jeqb s [] || (256 <? jlen s) || hasLoneSurrogate s || CONTROL_CHARACTER s
                | _ => true
                end) with refuse "invalid_archive" ;;
      throw_if (match field value "publishedAt" with
                | JUndef => false
                | JNum x => match safe_integer x with Some z => z <? 0 | None => true end
                | _ => true
                end) with refuse "invalid_archive" ;;
      throw_if is_undef slug && is_undef version && forallb is_undef owners with refuse "invalid_archive" ;;
      Ok tt
  end.
(** [_meta.json], the wrapper's own member. *)
Definition is_wrapper (file : jstr * list Z) : bool := jeqb file.1 (js "_meta.json").
(** The map of the downloaded files by path. *)
Fixpoint files_by_path (limits : AcquisitionLimits) (seen : list (jstr * list Z)) (l : list (jstr * list Z))
    : acquired (list (jstr * list Z)) :=
  match l with
  | [] => Ok seen
  | (p, bytes) :: l' =>
      let? path := validateSkillPath p limits false in
      throw_if bool_decide (path ∈ seen.*1) with refuse "path_collision" ;;
      files_by_path limits (seen ++ [(path, bytes)]) l'
  end.
(** The digest without its [sha256:] prefix. *)
Definition hexDigest (bytes : list Z) : jstr := concat (hex_byte <$> sha256 bytes).
Definition verified_file (actual : list (jstr * list Z)) (file : ClawHubSourceFile) : acquired (jstr * list Z) :=
  match find_first (fun f => jeqb f.1 (ch_path file)) actual with
  | None => Err (refuse "digest_mismatch")
  | Some (_, bytes) =>
      throw_if negb (byte_length bytes =? ch_size file) with refuse "size_mismatch" ;;
      throw_if negb (jeqb (hexDigest bytes) (ch_sha256 file)) with refuse "digest_mismatch" ;;
      Ok (ch_path file, bytes)
  end.
Definition verifyClawHubArchiveFiles (archiveFiles : list (jstr * list Z)) (manifest : jsval)
    (limits : AcquisitionLimits) (source : option ClawHubSource) : acquired (list (jstr * list Z)) :=
  let? expected := validateClawHubManifest manifest limits in
  let? _ := match List.filter is_wrapper archiveFiles, source with
            | [], _ => Ok tt
            | [wrapper], Some source => validateClawHubDownloadMetadata wrapper.2 source limits
            | _, _ => Err (refuse "digest_mismatch")
            end in
  let skillArchiveFiles := List.filter (fun file => negb (is_wrapper file)) archiveFiles in
  throw_if negb (length skillArchiveFiles =? length expected)%nat with refuse "digest_mismatch" ;;
  let? actual := files_by_path limits [] skillArchiveFiles in
  let? verified := map_result (verified_file actual) expected in
  throw_if existsb (fun f => negb (existsb (fun e => jeqb (ch_path e) f.1) expected)) actual
    with refuse "digest_mismatch" ;;
  Ok verified.
Definition verifyClawHubArchive (bytes : list Z) (manifest : jsval) (contentType artifactUrl : jstr)
    (limitsInput : list (jstr * jsval)) : acquired (list (jstr * list Z)) :=
  let? limits := mergeLimits limitsInput in
  let? normalizedManifest := validateClawHubManifest manifest limits in
  let? files := extractWellKnownArchive limits bytes contentType artifactUrl in
  verifyClawHubArchiveFiles files (manifest_value normalizedManifest) limits None.

(** ** OpenClaw *)

Definition first_segment (p : jstr) : jstr := hd [] (split 47 p).
(** The loop over the entries: the roots found so far, of which there may be one. *)
Fixpoint archive_roots (roots : list jstr) (entries : list ArchiveEntry) : acquired (list jstr) :=
  match entries with
  | [] => Ok roots
  | entry :: entries' =>
      let first := first_segment (entry_path entry) in
      throw_if jeqb first [] || jeqb first (js ".") || jeqb first (js "..") with refuse "invalid_path" ;;
      let roots := if bool_decide (first ∈ roots) then roots else roots ++ [first] in
      throw_if (1 <? length roots)%nat with refuse "invalid_source" ;;
      archive_roots roots entries'
  end.
Definition inferOpenClawGithubArchiveRoot (entries : list ArchiveEntry) (commit : jstr) (limits : AcquisitionLimits)
    : acquired jstr :=
  let? roots := archive_roots [] entries in
  match roots with
  | root :: _ =>
      throw_if jeqb root [] || negb (endsWith (45 :: commit) root) with refuse "digest_mismatch" ;;
      let? _ := validateSkillPath root limits false in
      Ok root
  | [] => Err (refuse "digest_mismatch")
  end.
Definition with_entry_path (p : jstr) (entry : ArchiveEntry) : ArchiveEntry :=
  match entry with
  | ArchiveDirectoryEntry _ => ArchiveDirectoryEntry p
  | ArchiveFileEntry _ bytes => ArchiveFileEntry p bytes
  end.
(** The path of an entry below the selected directory of the root. *)
Definition relative_path (archiveRoot selectedPath : jstr) (entry : ArchiveEntry) : option jstr :=
  let prefix := archiveRoot ++ [47] in
  if negb (startsWith prefix (entry_path entry)) then None
  else
    let withoutRoot := drop (length prefix) (entry_path entry) in
    if jeqb withoutRoot [] || jeqb withoutRoot selectedPath then None
    else if negb (startsWith (below selectedPath) withoutRoot) then None
    else
      let relative := drop (length (below selectedPath)) withoutRoot in
      if jeqb relative [] then None else Some relative.
Fixpoint select_entries (archiveRoot selectedPath : jstr) (limits : AcquisitionLimits) (entries : list ArchiveEntry)
    : acquired (list ArchiveEntry) :=
  match entries with
  | [] => Ok []
  | entry :: entries' =>
      match relative_path archiveRoot selectedPath entry with
      | None => select_entries archiveRoot selectedPath limits entries'
      | Some relative =>
          let? safe := validateSkillPath relative limits false in
          let? more := select_entries archiveRoot selectedPath limits entries' in
          Ok (with_entry_path safe entry :: more)
      end
  end.
Definition is_skill_entry (entry : ArchiveEntry) : bool :=
  match entry with
  | ArchiveFileEntry p _ => jeqb p (js "SKILL.md")
  | ArchiveDirectoryEntry _ => false
  end.
Definition selectOpenClawGithubFolder (entries : list ArchiveEntry) (archiveRoot selectedPath : jstr)
    (limits : AcquisitionLimits) : acquired (list ArchiveEntry) :=
  let? output := select_entries archiveRoot selectedPath limits entries in
  throw_if negb (existsb is_skill_entry output) with refuse "source_not_found" ;;
  Ok output.

(** The proper ancestors of a path, the outermost first. *)
Definition ancestors (p : jstr) : list jstr :=
  let parts := split 47 p in
  (fun n => join [47] (take n parts)) <$> seq 1 (length parts - 1).
(** The files and the directories a folder has so far. *)
Definition folder_entry (entry : ArchiveEntry) (folder : list (jstr * list Z) * list jstr)
    : acquired (list (jstr * list Z) * list jstr) :=
  let '(files, directories) := folder in
  match entry with
  | ArchiveDirectoryEntry p =>
      throw_if bool_decide (p ∈ files.*1) with refuse "path_collision" ;;
      Ok (files, p :: directories)
  | ArchiveFileEntry p bytes =>
      throw_if bool_decide (p ∈ files.*1) || bool_decide (p ∈ directories) with refuse "path_collision" ;;
      let files := files ++ [(p, bytes)] in
      throw_if existsb (fun directory => bool_decide (directory ∈ files.*1)) (ancestors p)
        with refuse "path_collision" ;;
      Ok (files, ancestors p ++ directories)
  end.
Fixpoint folder_entries (folder : list (jstr * list Z) * list jstr) (entries : list ArchiveEntry)
    : acquired (list (jstr * list Z) * list jstr) :=
  match entries with
  | [] => Ok folder
  | entry :: entries' =>
      let? folder := folder_entry entry folder in
      folder_entries folder entries'
  end.
Definition folder_line (file : jstr * list Z) : jstr :=
  file.1 ++ 0 :: js_of_nat (length file.2) ++ 0 :: hexDigest file.2.
(** The text the digest of a folder is taken of. *)
Definition folder_text (files : list (jstr * list Z)) : jstr :=
  join [10] (folder_line <$> js_sort (fun left right => by_collation left.1 right.1) files).
Definition digestOpenClawFolder (entries : list ArchiveEntry) : acquired jstr :=
  let? (files, _) := folder_entries ([], []) entries in
  throw_if bool_decide (files = []) with refuse "source_not_found" ;;
  Ok (hexDigest (textEncode (folder_text files))).
End Sources.

(** * Acquiring a directory of a GitHub repository

    What packages/upstreams/src/index.ts does with the answers of the GitHub
    API: the repository, path and ref of a request, the entries of the tree, and
    the blobs of the selected files, each checked against the object id the tree
    pins it to.  The requests themselves are in [HttpClient]. *)

(** [createHash('sha1')]: 20 bytes. *)
Class Sha1 := {
  sha1 : list Z -> list Z;
}.

(** What the GitHub API answers for a blob, once parsed: [None] is [null]. *)
Section Github.
Context {U : UnicodeTables} {UP : UpperTable} {UR : UrlRuntime} {SH : Sha1}.

(** ** Requests *)

Fixpoint drop_leading (c : Z) (s : jstr) : jstr :=
  match s with
  | d :: r => if d =? c then drop_leading c r else s
  | [] => []
  end.
(** [text.replace(/^\/+|\/+$/g, '')]. *)
Definition without_outer_slashes (s : jstr) : jstr := reverse (drop_leading 47 (reverse (drop_leading 47 s))).
(** [text.replace(/\.git$/i, '')]. *)
Definition without_git (s : jstr) : jstr :=
  if jeqb (ascii_lower <$> drop (length s - 4) s) (js ".git") && (4 <=? length s)%nat
  then take (length s - 4) s else s.
Definition repository_char (c : Z) : bool := is_alnum c || (c =? 95) || (c =? 46) || (c =? 45).
Definition repository_part (part : jstr) : bool :=
  negb (jeqb part []) && forallb repository_char part && negb (jeqb part (js ".")) && negb (jeqb part (js "..")).
Definition repository_identity (candidate : jstr) : acquired jstr :=
  match split 47 (without_git (without_outer_slashes candidate)) with
  | [owner; name] =>
      throw_if negb (repository_part owner) || negb (repository_part name) with refuse "invalid_repository" ;;
      Ok (owner ++ 47 :: name)
  | _ => Err (refuse "invalid_repository")
  end.
Definition normalizeRepositoryIdentity (value : jstr) : acquired jstr :=
  let candidate := trim value in
  if startsWith (js "https://") candidate || startsWith (js "http://") candidate then
    match parseURL candidate with
    | None => Err (refuse "invalid_repository")
    | Some url =>
        throw_if negb (jeqb (url_protocol url) (js "https:")) ||
                 negb (jeqb (toLowerCase (url_hostname url)) (js "github.com")) ||
                 negb (jeqb (url_username url) []) || negb (jeqb (url_password url) []) ||
                 negb (jeqb (url_search url) []) || negb (jeqb (url_hash url) [])
          with refuse "invalid_repository" ;;
        repository_identity (url_pathname url)
    end
  else if startsWith (js "github.com/") candidate then repository_identity (drop 11 candidate)
  else repository_identity candidate.
Definition normalizeRepository (repositoryInput : option jstr) (allowlist : list jstr) : acquired jstr :=
  throw_if bool_decide (allowlist = []) with refuse "repository_denied" ;;
  let requested := match repositoryInput with
                   | Some text => if jeqb (trim text) [] then None else Some text
                   | None => None
                   end in
  let requested := match requested, allowlist with
                   | Some text, _ => Some text
                   | None, [only] => Some only
                   | None, _ => None
                   end in
  match requested with
  | None | Some [] => Err (refuse "repository_required")
  | Some text =>
      let? repository := normalizeRepositoryIdentity text in
      let? allowed := map_result normalizeRepositoryIdentity allowlist in
      throw_if negb (existsb (fun entry => jeqb (toLowerCase entry) (toLowerCase repository)) allowed)
        with refuse "repository_denied" ;;
      Ok repository
  end.
Definition validateSourceDirectory (pathInput : option jstr) (limits : AcquisitionLimits) : acquired jstr :=
  match pathInput with
  | None => Err (refuse "path_required")
  | Some [] => Ok []
  | Some p =>
      throw_if includes [92] p || startsWith [47] p || endsWith [47] p with refuse "invalid_path" ;;
      let? _ := validateSkillPath p limits true in
      Ok p
  end.
Definition is_hex (c : Z) : bool := is_digit c || between 97 c 102 || between 65 c 70.
(** [/^[0-9a-f]{40}$/i]. *)
Definition object_id (s : jstr) : bool := (jlen s =? 40) && forallb is_hex s.
Definition validateRef (ref : option jstr) : acquired jstr :=
  let value := trim (default [] ref) in
  throw_if jeqb value [] || (256 <? jlen value) || includes [0] value || startsWith [45] value
    with refuse "ref_required" ;;
  throw_if includes [46; 46] value && negb (object_id value) with refuse "invalid_ref" ;;
  Ok value.
Definition requireSha (value : jsval) : acquired jstr :=
  match value with
  | JStr s => throw_if negb (object_id s) with refuse "invalid_source" ;; Ok (toLowerCase s)
  | _ => Err (refuse "invalid_source")
  end.

(** ** The tree *)

(** [size] and [sha] are as the tree has them. *)
Record GitTreeEntry : Type := {
  ge_path : jstr;
  ge_mode : jstr;
  ge_sha : jsval;
  ge_size : jsval;
}.
Definition text_or_empty (value : jsval) : jstr := match value with JStr s => s | _ => [] end.
(** The part of a path below the selected directory, if it is there. *)
Definition below_directory (selectedPath path : jstr) : option jstr :=
  let prefix := if jeqb selectedPath [] then [] else selectedPath ++ [47] in
  if negb (startsWith prefix path) || jeqb path selectedPath then None
  else match drop (length prefix) path with
       | [] => None
       | relative => Some relative
       end.
(** [None]: not a file of the directory. *)
Definition tree_entry (selectedPath : jstr) (limits : AcquisitionLimits) (raw : jsval)
    : acquired (option GitTreeEntry) :=
  match raw, field raw "path" with
  | JObj _, JStr path =>
      match below_directory selectedPath path with
      | None => Ok None
      | Some relative =>
          let mode := text_or_empty (field raw "mode") in
          let type := text_or_empty (field raw "type") in
          if jeqb type (js "tree") then Ok None
          else
            throw_if negb (jeqb type (js "blob")) || jeqb mode (js "120000") || jeqb mode (js "160000")
              with refuse "unsupported_source_entry" ;;
            throw_if negb (jeqb mode (js "100644")) && negb (jeqb mode (js "100755"))
              with refuse "unsupported_source_entry" ;;
            let? safePath := validateSkillPath relative limits true in
            Ok (Some {| ge_path := safePath; ge_mode := mode; ge_sha := field raw "sha"; ge_size := field raw "size" |})
      end
  | _, _ => Err (refuse "invalid_source")
  end.
Fixpoint select_tree (selectedPath : jstr) (limits : AcquisitionLimits) (count : Z) (tree : list jsval)
    : acquired (list GitTreeEntry) :=
  match tree with
  | [] => Ok []
  | raw :: tree' =>
      let? entry := tree_entry selectedPath limits raw in
      match entry with
      | None => select_tree selectedPath limits count tree'
      | Some entry =>
          throw_if maxFiles limits <? count + 1 with refuse "file_count_limit" ;;
          let? entries := select_tree selectedPath limits (count + 1) tree' in
          Ok (entry :: entries)
      end
  end.
Definition selectTreeEntries (tree : list jsval) (selectedPath : jstr) (limits : AcquisitionLimits)
    : acquired (list GitTreeEntry) := select_tree selectedPath limits 0 tree.
(** The sizes the tree declares, added up while they are within the limit. *)
Fixpoint declared_bytes (limits : AcquisitionLimits) (total : spec_float) (entries : list GitTreeEntry)
    : acquired unit :=
  match entries with
  | [] => Ok tt
  | entry :: entries' =>
      match ge_size entry with
      | JNum size =>
          let total := num_add total size in
          throw_if num_lt (num_of_Z (maxExpandedBytes limits)) total with refuse "expanded_size_limit" ;;
          declared_bytes limits total entries'
      | _ => declared_bytes limits total entries'
      end
  end.
(** The tree the API answers with, for a resolved commit. *)
Definition github_tree (treeResponse : jsval) (revision selectedPath : jstr) (limits : AcquisitionLimits)
    : acquired (list GitTreeEntry) :=
  throw_if (match field treeResponse "truncated" with JBool b => b | _ => false end) with refuse "tree_truncated" ;;
  throw_if (match field treeResponse "truncated" with JBool b => b | _ => true end) with refuse "invalid_source" ;;
  throw_if negb (is_undef (field treeResponse "sha")) &&
           negb (match field treeResponse "sha" with JStr s => jeqb s revision | _ => false end)
    with refuse "digest_mismatch" ;;
  match field treeResponse "tree" with
  | JArr tree =>
      let? entries := selectTreeEntries tree selectedPath limits in
      throw_if bool_decide (length entries = O) with refuse "source_not_found" ;;
      throw_if maxFiles limits <? Z.of_nat (length entries) with refuse "file_count_limit" ;;
      let? _ := declared_bytes limits num_zero entries in
      Ok entries
  | _ => Err (refuse "invalid_source")
  end.

(** ** Blobs *)

Record GithubFile : Type := {
  gf_path : jstr;
  gf_bytes : list Z;
  gf_executable : bool;
}.
(** [text.replace(/\s+/g, '')]. *)
Definition without_spaces (s : jstr) : jstr := List.filter (fun c => negb (is_js_space c)) s.
Definition hex_bytes (bytes : list Z) : jstr := concat (hex_byte <$> bytes).
(** The object git hashes for a blob. *)
Definition git_object (bytes : list Z) : list Z :=
  textEncode (js "blob " ++ js_of_nat (length bytes) ++ [0]) ++ bytes.
Definition git_object_id (bytes : list Z) : jstr := hex_bytes (sha1 (git_object bytes)).
(** A size that is a number is the size of the bytes. *)
Definition size_agrees (value : jsval) (bytes : list Z) : bool :=
  match value with
  | JNum x => match num_to_Z x with Some z => z =? Z.of_nat (length bytes) | None => false end
  | _ => true
  end.
(** [entry.sha] is a string here: every caller has passed it to [requireSha]. *)
Definition decodeGithubBlob (blob : jsval) (entry : GitTreeEntry) (entrySha : jstr) (limits : AcquisitionLimits)
    : acquired GithubFile :=
  match field blob "encoding", field blob "content" with
  | JStr encoding, JStr content =>
      throw_if negb (jeqb encoding (js "base64")) with refuse "invalid_source" ;;
      let clean := without_spaces content in
      throw_if negb (base64_pattern clean) with refuse "invalid_source" ;;
      let bytes := bufferFromBase64 clean in
      throw_if maxFileBytes limits <? Z.of_nat (length bytes) with refuse "file_size_limit" ;;
      throw_if (match field blob "size" with
                | JUndef => false
                | JNum x => match safe_integer x with Some z => z <? 0 | None => true end
                | _ => true
                end) with refuse "invalid_source" ;;
      throw_if negb (size_agrees (ge_size entry) bytes) with refuse "size_mismatch" ;;
      throw_if negb (size_agrees (field blob "size") bytes) with refuse "size_mismatch" ;;
      throw_if (match field blob "sha" with
                | JStr s => negb (jeqb (toLowerCase s) (toLowerCase entrySha))
                | _ => false
                end) with refuse "digest_mismatch" ;;
      throw_if object_id entrySha && negb (jeqb (git_object_id bytes) (toLowerCase entrySha))
        with refuse "digest_mismatch" ;;
      throw_if (match textDecode bytes with None => maxBinaryBytes limits <? Z.of_nat (length bytes) | Some _ => false end)
        with refuse "binary_size_limit" ;;
      throw_if isBinaryBytes bytes && jeqb (ge_path entry) (js "SKILL.md") with refuse "binary_file" ;;
      Ok {| gf_path := ge_path entry; gf_bytes := bytes; gf_executable := jeqb (ge_mode entry) (js "100755") |}
  | _, _ => Err (refuse "invalid_source")
  end.
(** One of the concurrent blob requests: what is checked before it is sent, and
    its answer. *)
Definition declared_size_ok (limits : AcquisitionLimits) (size : jsval) : acquired unit :=
  match size with
  | JUndef => Ok tt
  | JNum x =>
      match safe_integer x with
      | Some z =>
          throw_if z <? 0 with refuse "invalid_source" ;;
          throw_if maxFileBytes limits <? z with refuse "file_size_limit" ;;
          Ok tt
      | None => Err (refuse "invalid_source")
      end
  | _ => Err (refuse "invalid_source")
  end.
Definition github_file (limits : AcquisitionLimits) (entry : GitTreeEntry) (blob : jsval) : acquired GithubFile :=
  let? _ := requireSha (ge_sha entry) in
  let? _ := declared_size_ok limits (ge_size entry) in
  decodeGithubBlob blob entry (text_or_empty (ge_sha entry)) limits.
(** [blobs] holds an answer for each entry, in order; the request of an entry
    without one has failed. *)
Fixpoint github_files (limits : AcquisitionLimits) (entries : list GitTreeEntry) (blobs : list jsval)
    : acquired (list GithubFile) :=
  match entries, blobs with
  | entry :: entries', blob :: blobs' =>
      let? file := github_file limits entry blob in
      let? files := github_files limits entries' blobs' in
      Ok (file :: files)
  | _ :: _, [] => Err (refuse "upstream_network_error")
  | [], _ => Ok []
  end.

(** ** The bundle *)

Fixpoint expanded_within (limits : AcquisitionLimits) (total : Z) (files : list GithubFile) : acquired unit :=
  match files with
  | [] => Ok tt
  | file :: files' =>
      let total := total + Z.of_nat (length (gf_bytes file)) in
      throw_if maxExpandedBytes limits <? total with refuse "expanded_size_limit" ;;
      expanded_within limits total files'
  end.
Definition github_raw (file : GithubFile) : RawFile :=
  {| rf_path := gf_path file; rf_bytes := gf_bytes file; rf_executable := gf_executable file |}.
Definition github_bundle (limits : AcquisitionLimits) (files : list GithubFile) : acquired SkillBundle :=
  let? _ := expanded_within limits 0 files in
  validate_bundle_within limits
    (JObj [(js "format", JStr BUNDLE_FORMAT); (js "files", JArr (raw_value <$> (github_raw <$> files)))]).
(** [acquireGithub] after the commit is resolved, as a function of the answers to
    its requests for the tree and the blobs; how they are sent is the client's
    ([HttpClient.v]) and their URLs are not part of this definition. *)
Definition acquireGithub (limits : AcquisitionLimits) (selectedPath revision : jstr) (treeResponse : jsval)
    (blobs : list jsval) : acquired SkillBundle :=
  let? entries := github_tree treeResponse revision selectedPath limits in
  let? files := github_files limits entries blobs in
  github_bundle limits files.
End Github.
