(* ===== verification/HttpClient.v ===== *)
(** * The HTTP client of acquisitions

    [assertSafeURL] and [isPrivateAddress] of packages/upstreams/src/index.ts,
    the check of every URL before a request is sent to it ([isIP] is Node's), and
    [HttpClient.bytes]: a request with its redirects and retries, every hop of
    which is checked before it is sent.  DNS, [fetch] and the abort signals are
    its environment; the waiting of the throttle and of the retries is not
    modelled. *)

From Stdlib Require Import ZArith Lia.
From stdpp Require Import base list strings sets.
From S2P Require Import Prelude Js Json Numbers Web Names Acquire.

Local Open Scope Z_scope.

(** ** [isIP(text)] of node:net *)

(** A decimal octet without leading zeros. *)
Definition ipv4_octet (s : jstr) : bool :=
  (jlen s <=? 3) && negb (jeqb s []) && forallb is_digit s && (digits_value s <=? 255) &&
  ((jlen s =? 1) || negb (startsWith [48] s)).
Definition isIPv4 (s : jstr) : bool :=
  match split 46 s with
  | [a; b; c; d] => ipv4_octet a && ipv4_octet b && ipv4_octet c && ipv4_octet d
  | _ => false
  end.
Definition hex_unit (c : Z) : bool := is_digit c || between 97 c 102 || between 65 c 70.
Definition ipv6_group (s : jstr) : bool :=
  negb (jeqb s []) && (jlen s <=? 4) && forallb hex_unit s.
(** How many groups a list of segments stands for: the last may be an IPv4
    address, which stands for two. *)
Fixpoint ipv6_groups (segments : list jstr) : option Z :=
  match segments with
  | [] => Some 0
  | [last] => if isIPv4 last then Some 2 else if ipv6_group last then Some 1 else None
  | segment :: rest => if ipv6_group segment then Z.succ <$> ipv6_groups rest else None
  end.
Definition segments_of (s : jstr) : list jstr := if jeqb s [] then [] else split 58 s.
(** What is before the first [::] and after it. *)
Fixpoint split_double_colon (s : jstr) : option (jstr * jstr) :=
  match s with
  | 58 :: 58 :: rest => Some ([], rest)
  | c :: rest => (fun parts => (c :: parts.1, parts.2)) <$> split_double_colon rest
  | [] => None
  end.
Definition ipv6_address (s : jstr) : bool :=
  match split_double_colon s with
  | None => bool_decide (ipv6_groups (segments_of s) = Some 8)
  | Some (before, after) =>
      forallb ipv6_group (segments_of before) &&
      match ipv6_groups (segments_of after) with
      | Some n => Z.of_nat (length (segments_of before)) + n <=? 7
      | None => false
      end
  end.
Definition zone_char (c : Z) : bool := is_alnum c || (c =? 45) || (c =? 46) || (c =? 58).
(** An address may carry a zone after a percent sign. *)
Definition isIPv6 (s : jstr) : bool :=
  match split 37 s with
  | [address] => ipv6_address address
  | [address; zone] => ipv6_address address && negb (jeqb zone []) && forallb zone_char zone
  | _ => false
  end.
Definition isIP (s : jstr) : Z := if isIPv4 s then 4 else if isIPv6 s then 6 else 0.

Section Hosts.
Context {U : UnicodeTables}.

Definition stripIPv6Brackets (hostname : jstr) : jstr :=
  if startsWith [91] hostname && endsWith [93] hostname then removelast (drop 1 hostname) else hostname.
(** The first two octets decide. *)
Definition private_octets (a b : Z) : bool :=
  (a =? 0) || (a =? 10) || (a =? 127) || (224 <=? a) || ((a =? 169) && (b =? 254)) ||
  ((a =? 172) && (16 <=? b) && (b <=? 31)) || ((a =? 192) && (b =? 168)) || ((a =? 100) && (64 <=? b) && (b <=? 127)).
Definition private_ipv4 (address : jstr) : bool :=
  match digits_value <$> split 46 address with
  | a :: b :: _ => private_octets a b
  | _ => false
  end.
(** [normalized.replace(/^::ffff:/, '')]. *)
Definition without_mapped_prefix (s : jstr) : jstr := if startsWith (js "::ffff:") s then drop 7 s else s.
Definition private_ipv6_prefixes : list jstr :=
  [js "fc"; js "fd"; js "fe8"; js "fe9"; js "fea"; js "feb"; js "ff"].
Definition isPrivateAddress (address : jstr) : bool :=
  let normalized := stripIPv6Brackets (toLowerCase address) in
  if includes [37] normalized then true
  else if isIP normalized =? 4 then private_ipv4 normalized
  else if isIP normalized =? 6 then
    let compact := without_mapped_prefix normalized in
    if isIP compact =? 4 then private_ipv4 compact
    else jeqb normalized (js "::") || jeqb normalized (js "::1") ||
         existsb (fun prefix => startsWith prefix normalized) private_ipv6_prefixes
  else true.
Definition isLoopbackHost (hostname : jstr) : bool :=
  let normalized := stripIPv6Brackets (toLowerCase hostname) in
  if jeqb normalized (js "localhost") then true
  else if isIP normalized =? 4 then
    match digits_value <$> split 46 normalized with a :: _ => a =? 127 | [] => false end
  else (isIP normalized =? 6) && jeqb normalized (js "::1").
Definition isObviouslyLocalName (hostname : jstr) : bool :=
  let lower := stripIPv6Brackets (toLowerCase hostname) in
  jeqb lower (js "localhost") || endsWith (js ".localhost") lower || endsWith (js ".local") lower ||
  endsWith (js ".internal") lower || jeqb lower (js "metadata.google.internal").
Definition assertSafeURL (url : URL) (allowLoopback : bool) : acquired unit :=
  throw_if negb (jeqb (url_protocol url) (js "https:")) &&
           negb (allowLoopback && jeqb (url_protocol url) (js "http:") && isLoopbackHost (url_hostname url))
    with refuse "insecure_upstream" ;;
  throw_if negb (jeqb (url_username url) []) || negb (jeqb (url_password url) []) with refuse "unsafe_url" ;;
  throw_if jeqb (url_hostname url) [] || endsWith [46] (url_hostname url) with refuse "unsafe_url" ;;
  let hostname := stripIPv6Brackets (url_hostname url) in
  let directIp := negb (isIP hostname =? 0) in
  throw_if directIp && isPrivateAddress hostname && negb (allowLoopback && isLoopbackHost hostname)
    with refuse "ssrf_denied" ;;
  throw_if negb directIp && negb allowLoopback && isObviouslyLocalName (url_hostname url) with refuse "ssrf_denied" ;;
  Ok tt.
(** [assertResolvedPublicHost] after the lookup, which is not made of an
    address; [None] is a lookup that failed. *)
Definition resolved_public (allowLoopback : bool) (addresses : option (list jstr)) : acquired unit :=
  match addresses with
  | None | Some [] => Err (refuse "dns_denied")
  | Some addresses =>
      throw_if negb allowLoopback && existsb isPrivateAddress addresses with refuse "ssrf_denied" ;;
      throw_if allowLoopback && existsb (fun address => negb (isLoopbackHost address)) addresses
        with refuse "ssrf_denied" ;;
      Ok tt
  end.
End Hosts.

(** ** The client *)

(** [new URL(location, base)]; [None] when it throws. *)
Class UrlResolver := {
  resolveURL : jstr -> URL -> option URL;
}.

(** ** Requests and answers *)

Definition MAX_REQUEST_BODY_BYTES : Z := 2 * 1024 * 1024.
Record ClientRequest : Type := {
  cq_method : option jstr;
  cq_headers : list (jstr * jstr);
  cq_body : option jstr;
  cq_retryable : option bool;
  cq_allowCrossOriginRedirectWithoutAuth : bool;
  cq_stripCredentialsOnRedirect : bool;
  cq_rejectRedirects : bool;
}.
(** What is handed to [fetch], with [redirect: 'manual']. *)
Record FetchRequest : Type := {
  fq_url : URL;
  fq_method : jstr;
  fq_headers : list (jstr * jstr);
  fq_body : option jstr;
}.
(** The body is the chunks of its stream, [None] a read that fails. *)
Record FetchResponse : Type := {
  fr_status : Z;
  fr_headers : list (jstr * jstr);
  fr_body : list (option (list Z));
}.
Inductive FetchAnswer : Type :=
| Answered (response : FetchResponse)
| Aborted
| Failed.
Inductive AbortedSignal : Type := AcquisitionSignal | RequestSignal.

(** The environment: DNS, [fetch], and whether a signal is aborted by now. *)
Record Network (W : Type) : Type := {
  lookup : jstr -> W -> option (list jstr) * W;
  fetch : FetchRequest -> W -> FetchAnswer * W;
  signals : W -> option AbortedSignal * W;
}.
Arguments lookup {W}.
Arguments fetch {W}.
Arguments signals {W}.

(** A method that awaits its environment. *)
Definition io (W A : Type) : Type := W -> acquired A * W.
Definition io_return {W A} (r : acquired A) : io W A := fun w => (r, w).
Definition io_bind {W A B} (p : io W A) (f : A -> io W B) : io W B := fun w =>
  let '(r, w) := p w in
  match r with
  | Ok a => f a w
  | Err e => (Err e, w)
  end.
Definition io_await {W A B} (call : W -> A * W) (f : A -> io W B) : io W B := fun w =>
  let '(a, w) := call w in f a w.
Declare Scope io_scope.
Notation "'let!' x ':=' p 'in' k" := (io_bind p (fun x => k))
  (at level 200, x pattern, p at level 100, k at level 200, right associativity) : io_scope.
Notation "'await' x ':=' c 'in' k" := (io_await c (fun x => k))
  (at level 200, x pattern, c at level 100, k at level 200, right associativity) : io_scope.
Local Open Scope io_scope.

Definition isRedirectStatus (status : Z) : bool :=
  (status =? 301) || (status =? 302) || (status =? 303) || (status =? 307) || (status =? 308).
Definition isRetryableStatus (status : Z) : bool :=
  (status =? 408) || (status =? 425) || (status =? 429) || (500 <=? status).
(** [response.headers.get(name)]: names are lower case. *)
Definition response_header (name : string) (response : FetchResponse) : option jstr :=
  snd <$> find_first (fun entry => jeqb entry.1 (js name)) (fr_headers response).

Section Client.
Context {U : UnicodeTables} {RS : UrlResolver}.
Context {W : Type} (net : Network W).
Context (limits : AcquisitionLimits) (allowLoopback : bool) (fixedOrigin : jstr).

Definition credential_header (name : jstr) : bool :=
  let lower := toLowerCase name in
  jeqb lower (js "authorization") || jeqb lower (js "cookie") || jeqb lower (js "proxy-authorization").
Definition withoutCredentialHeaders (headers : list (jstr * jstr)) : list (jstr * jstr) :=
  List.filter (fun header => negb (credential_header header.1)) headers.

Definition assertResolvedPublicHost (url : URL) : io W unit :=
  let! _ := io_return (assertSafeURL url allowLoopback) in
  let hostname := stripIPv6Brackets (url_hostname url) in
  if negb (isIP hostname =? 0) then io_return (Ok tt)
  else
    await addresses := lookup net hostname in
    io_return (resolved_public allowLoopback addresses).

(** *** One request and its repetitions *)

Definition aborted_code (signal : AbortedSignal) : acquisition_error :=
  match signal with
  | AcquisitionSignal => refuse "cancelled"
  | RequestSignal => refuse "request_cancelled"
  end.
(** [left_] repetitions are left before [maxAttempts]. *)
Fixpoint requestOnce (left_ : nat) (retryable : bool) (request : FetchRequest) : io W FetchResponse :=
  await aborted := signals net in
  match aborted with
  | Some signal => io_return (Err (aborted_code signal))
  | None =>
      await answer := fetch net request in
      match answer with
      | Answered response => io_return (Ok response)
      | Aborted | Failed =>
          await aborted := signals net in
          match aborted, left_ with
          | Some signal, _ => io_return (Err (aborted_code signal))
          | None, S left_ =>
              if retryable then requestOnce left_ retryable request
              else io_return (Err (refuse (if answer is Aborted then "upstream_timeout" else "upstream_network_error")))
          | None, O => io_return (Err (refuse (if answer is Aborted then "upstream_timeout" else "upstream_network_error")))
          end
      end
  end.

(** *** The body of a response *)

Definition declared_over (response : FetchResponse) : bool :=
  match response_header "content-length" response with
  | Some text => negb (jeqb text []) && forallb is_digit text && (maxResponseBytes limits <? digits_value text)
  | None => false
  end.
(** [None] is a read that failed, or was cut off by a signal. *)
Fixpoint read_body (total : Z) (chunks : list (option (list Z))) : acquired (option (list Z)) :=
  match chunks with
  | [] => Ok (Some [])
  | None :: _ => Ok None
  | Some chunk :: chunks' =>
      let total := total + Z.of_nat (length chunk) in
      throw_if maxResponseBytes limits <? total with refuse "response_size_limit" ;;
      let? rest := read_body total chunks' in
      Ok ((fun bytes => chunk ++ bytes) <$> rest)
  end.
Definition readResponseBytes (response : FetchResponse) : io W (list Z) :=
  if declared_over response then io_return (Err (refuse "response_size_limit"))
  else
    let! bytes := io_return (read_body 0 (fr_body response)) in
    match bytes with
    | Some bytes => io_return (Ok bytes)
    | None =>
        await aborted := signals net in
        io_return (Err (match aborted with
               | Some signal => aborted_code signal
               | None => refuse "upstream_network_error"
               end))
    end.

(** *** The loop *)

Record ClientState : Type := {
  ct_url : URL;
  ct_headers : list (jstr * jstr);
  ct_method : option jstr;
  ct_body : option jstr;
  ct_redirects : Z;
  ct_attempts : Z;
}.
Definition is_get_request (method : option jstr) : bool :=
  match method with Some m => jeqb m (js "GET") | None => true end.
Definition fetch_request (state : ClientState) : FetchRequest := {|
  fq_url := ct_url state; fq_method := default (js "GET") (ct_method state); fq_headers := ct_headers state;
  fq_body := ct_body state |}.
(** The state after a redirect that is followed. *)
Definition redirected (request : ClientRequest) (response : FetchResponse) (state : ClientState)
    : acquired ClientState :=
  throw_if cq_rejectRedirects request with refuse "redirect_denied" ;;
  match response_header "location" response with
  | None | Some [] => Err (refuse "redirect_denied")
  | Some location =>
      throw_if limits.(maxRedirects) <=? ct_redirects state with refuse "redirect_denied" ;;
      match resolveURL location (ct_url state) with
      | None => Err (refuse "redirect_denied")
      | Some next =>
          let? _ := assertSafeURL next allowLoopback in
          let crossOrigin := negb (jeqb (url_origin next) (url_origin (ct_url state))) in
          let headers := if cq_stripCredentialsOnRedirect request || crossOrigin
                         then withoutCredentialHeaders (ct_headers state) else ct_headers state in
          throw_if crossOrigin && negb (cq_allowCrossOriginRedirectWithoutAuth request)
            with refuse "redirect_denied" ;;
          let status := fr_status response in
          let becomes_get := (status =? 303) ||
            (((status =? 301) || (status =? 302)) &&
             match ct_method state with Some m => negb (jeqb m []) && negb (jeqb m (js "GET")) | None => false end) in
          Ok {| ct_url := next; ct_headers := headers;
                ct_method := if becomes_get then Some (js "GET") else ct_method state;
                ct_body := if becomes_get then None else ct_body state;
                ct_redirects := ct_redirects state + 1; ct_attempts := ct_attempts state |}
      end
  end.
Definition retried (state : ClientState) : ClientState := {|
  ct_url := ct_url state; ct_headers := ct_headers state; ct_method := ct_method state; ct_body := ct_body state;
  ct_redirects := ct_redirects state; ct_attempts := ct_attempts state + 1 |}.
(** No outcome of the code: what a loop that does not end would be. *)
Definition out_of_fuel : acquisition_error := refuse "out_of_fuel".
(** Every round but the last redirects or retries, at most [maxRedirects] and
    [maxAttempts] times.  The body of a refused detail request changes the
    details of its error only. *)
Fixpoint client_loop (fuel : nat) (start : URL) (retryable : bool) (request : ClientRequest) (state : ClientState)
    : io W (list Z * FetchResponse) :=
  match fuel with
  | O => io_return (Err out_of_fuel)
  | S fuel =>
      let! _ := io_return (assertSafeURL (ct_url state) allowLoopback) in
      let! _ := assertResolvedPublicHost (ct_url state) in
      if negb (jeqb (url_origin (ct_url state)) fixedOrigin) &&
         negb (cq_allowCrossOriginRedirectWithoutAuth request) &&
         negb (jeqb (url_href (ct_url state)) (url_href start))
      then io_return (Err (refuse "redirect_denied"))
      else
        let! response := requestOnce (Z.to_nat (maxAttempts limits - 1 - ct_attempts state)) retryable
                           (fetch_request state) in
        let status := fr_status response in
        if isRedirectStatus status then
          let! next := io_return (redirected request response state) in
          client_loop fuel start retryable request next
        else if (status <? 200) || (300 <=? status) then
          if retryable && isRetryableStatus status && (ct_attempts state + 1 <? maxAttempts limits)
          then client_loop fuel start retryable request (retried state)
          else io_return (Err (refuse "upstream_http_error"))
        else
          let! bytes := readResponseBytes response in
          io_return (Ok (bytes, response))
  end.
Definition client_fuel : nat := Z.to_nat (maxRedirects limits + maxAttempts limits).
(** [HttpClient.bytes]; the request's optional retry flag defaults to GET. *)
Definition client_bytes (url : URL) (request : ClientRequest) : io W (list Z * FetchResponse) :=
  let retryable := default (is_get_request (cq_method request)) (cq_retryable request) in
  if match cq_body request with
     | Some body => MAX_REQUEST_BODY_BYTES <? Z.of_nat (length (textEncode body))
     | None => false
     end
  then io_return (Err (refuse "request_size_limit"))
  else client_loop client_fuel url retryable request {|
         ct_url := url; ct_headers := cq_headers request; ct_method := cq_method request; ct_body := cq_body request;
         ct_redirects := 0; ct_attempts := 0 |}.
(** [HttpClient.jsonWithHeaders] and [HttpClient.json]. *)
Definition client_jsonWithHeaders (url : URL) (request : ClientRequest) : io W (jsval * FetchResponse) :=
  let! (bytes, response) := client_bytes url request in
  match textDecode bytes ≫= json_parse with
  | Some value => io_return (Ok (value, response))
  | None => io_return (Err (refuse "invalid_response"))
  end.
Definition client_json (url : URL) (request : ClientRequest) : io W jsval :=
  let! (value, _) := client_jsonWithHeaders url request in
  io_return (Ok value).
End Client.
