(* ===== verification/AcquireRemote.v ===== *)
(** * Acquiring a skill from a remote source

    Three acquisitions of packages/upstreams/src/index.ts from their first check
    to the provenance they return.  [acquireRegistrySkill]: another registry
    resolves the reference, authorizes the installation and describes the
    transfer of the artifact, whose bytes must hash to the digest it resolved;
    every request carries the chain of registries it has come through.
    [acquireTesslSource] and [acquireClawHubSource]: the provider confirms the
    version that was queued, and its archive is read and checked.

    [new URL] and the setters of a URL are the platform's, the environment
    variables and the resolver of a token are arguments, and [now] is the clock
    where the code reads it.  An exception of the language stands under its name
    where a code would be. *)

From Stdlib Require Import ZArith Lia SpecFloat.
From stdpp Require Import base list strings sets.
From S2P Require Import Prelude HttpRepository Js Dates Json Numbers Wire Contracts Web Access Names PolicyEval.
From S2P Require Import Provenance Bundle Acquire Archive AcquireSources HttpClient.

Local Open Scope Z_scope.
Local Open Scope io_scope.

(** [url.pathname = text] and [url.searchParams.set(key, value)]. *)
Class UrlSetter := {
  setPathname : jstr -> URL -> URL;
  setSearchParam : jstr -> jstr -> URL -> URL;
}.

(** ** Strings and values *)

(** [text.replace(/\/+/g, '/')]. *)
Fixpoint squeeze_slashes (s : jstr) : jstr :=
  match s with
  | 47 :: r => match r with 47 :: _ => squeeze_slashes r | _ => 47 :: squeeze_slashes r end
  | c :: r => c :: squeeze_slashes r
  | [] => []
  end.
(** [text.replace(/\/$/, '')]. *)
Definition without_final_slash (s : jstr) : jstr := if endsWith [47] s then removelast s else s.
Definition base_pathname (pathname : jstr) : jstr :=
  match without_final_slash (squeeze_slashes pathname) with [] => [47] | text => text end.
Definition line_break (c : Z) : bool := (c =? 13) || (c =? 10).
(** ** The base URL and the URLs below it *)

Section Urls.
Context {U : UnicodeTables} {UR : UrlRuntime} {RS : UrlResolver} {US : UrlSetter}.

Definition parseFixedBase (value : jstr) (allowLoopbackForTests : bool) : acquired URL :=
  match parseURL value with
  | None => Err (refuse "invalid_upstream_base")
  | Some url =>
      let loopback := isLoopbackHost (url_hostname url) in
      throw_if (negb allowLoopbackForTests || negb loopback) && negb (jeqb (url_protocol url) (js "https:"))
        with refuse "insecure_upstream" ;;
      throw_if negb (jeqb (url_username url) []) || negb (jeqb (url_password url) []) ||
               negb (jeqb (url_search url) []) || negb (jeqb (url_hash url) [])
        with refuse "invalid_upstream_base" ;;
      throw_if jeqb (url_hostname url) [] || (negb (jeqb (url_port url) []) && negb (forallb is_digit (url_port url)))
        with refuse "invalid_upstream_base" ;;
      Ok (setPathname (base_pathname (url_pathname url)) url)
  end.
Definition normalizeRegistryBase (value : option jstr) (allowLoopbackForTests : bool) : acquired URL :=
  match value with
  | None | Some [] => Err (refuse "invalid_upstream_base")
  | Some value => parseFixedBase value allowLoopbackForTests
  end.
Definition encoded_part (part : jstr) : acquired jstr :=
  match encodeURIComponent part with
  | Some encoded => Ok encoded
  | None => Err (refuse "URIError")
  end.
Definition appendBasePath (base : URL) (parts : list jstr) : acquired URL :=
  let prefix := if jeqb (url_pathname base) (js "/") then [] else without_final_slash (url_pathname base) in
  let? encoded := map_result encoded_part parts in
  match parseURL (url_origin base) ≫= resolveURL (prefix ++ 47 :: join [47] encoded) with
  | Some url => Ok url
  | None => Err (refuse "TypeError")
  end.
Definition resolveDescriptorURL (value : jstr) (base : URL) (allowLoopbackForTests : bool) : acquired URL :=
  match resolveURL value base with
  | None => Err (refuse "invalid_registry_response")
  | Some url => let? _ := assertSafeURL url allowLoopbackForTests in Ok url
  end.
End Urls.

(** ** Credentials *)

Definition MAX_TOKEN_BYTES : Z := 4096.
Definition MAX_CHAIN_BYTES : Z := 4096.
(** [/^[A-Z_][A-Z0-9_]*$/]. *)
Definition environment_name (name : jstr) : bool :=
  match name with
  | c :: rest => (is_upper c || (c =? 95)) && forallb (fun c => is_upper c || is_digit c || (c =? 95)) rest
  | [] => false
  end.
Definition credentialHeader (env : jstr -> option jstr) (upstream : Upstream) : acquired (option jstr) :=
  match us_credentialEnv upstream with
  | None | Some [] => Ok None
  | Some name =>
      throw_if negb (environment_name name) with refuse "invalid_credential_ref" ;;
      match env name with
      | None | Some [] => Err (refuse "credential_missing")
      | Some value =>
          throw_if (MAX_TOKEN_BYTES <? jlen (textEncode value)) || existsb line_break value
            with refuse "invalid_credential" ;;
          Ok (Some (js "Bearer " ++ value))
      end
  end.

(** ** What the other registry answers *)

Definition requireSha256Digest (value : jsval) : acquired jstr :=
  match value with
  | JStr digest => if isDigest digest then Ok digest else Err (refuse "invalid_registry_response")
  | _ => Err (refuse "invalid_registry_response")
  end.
Definition requireString (value : jsval) : acquired jstr :=
  match value with
  | JStr text =>
      throw_if jeqb text [] || (512 <? jlen text) || existsb line_break text with refuse "invalid_registry_response" ;;
      Ok text
  | _ => Err (refuse "invalid_registry_response")
  end.
Definition parseResolution (value : jsval) : acquired (list (jstr * jsval)) :=
  match value with
  | JObj props =>
      throw_if negb (strict_equal (obj_get props (js "kind")) (JStr (js "skill"))) with refuse "invalid_registry_response" ;;
      let? _ := match obj_get props (js "digest") with
                | JUndef => Ok []
                | digest => requireSha256Digest digest
                end in
      Ok props
  | _ => Err (refuse "invalid_registry_response")
  end.
Definition parseAuthorization (value : jsval) : acquired (list (jstr * jsval)) :=
  match value with
  | JObj props =>
      match obj_get props (js "id") with
      | JStr id =>
          throw_if jeqb id [] || (256 <? jlen id) || existsb line_break id with refuse "invalid_registry_response" ;;
          Ok props
      | _ => Err (refuse "invalid_registry_response")
      end
  | _ => Err (refuse "invalid_registry_response")
  end.
Definition assertAuthorizationMatchesResolution (authorization resolution : list (jstr * jsval)) : acquired unit :=
  let differs (authorized : list (jstr * jsval)) (key : string) :=
    negb (strict_equal (obj_get authorized (js key)) (obj_get resolution (js key))) in
  throw_if negb (is_undef (obj_get authorization (js "organizationId"))) && differs authorization "organizationId"
    with refuse "invalid_registry_response" ;;
  match obj_get authorization (js "resolution") with
  | JUndef => Ok tt
  | JObj authorized =>
      throw_if differs authorized "kind" || differs authorized "resourceId" || differs authorized "digest" ||
               (negb (is_undef (obj_get authorized (js "organizationId"))) && differs authorized "organizationId")
        with refuse "invalid_registry_response" ;;
      Ok tt
  | _ => Err (refuse "invalid_registry_response")
  end.

(** The method is always GET. *)
Record ParsedTransferDescriptor : Type := {
  td_url : jstr;
  td_headers : list (jstr * jsval);
  td_expiresAt : option jstr;
  td_size : option Z;
  td_digest : jstr;
}.
Definition descriptor_size (value : jsval) : acquired (option Z) :=
  match value with
  | JUndef => Ok None
  | JNum x =>
      match safe_integer x with
      | Some size => if size <? 0 then Err (refuse "invalid_registry_response") else Ok (Some size)
      | None => Err (refuse "invalid_registry_response")
      end
  | _ => Err (refuse "invalid_registry_response")
  end.
Definition descriptor_expiry (value : jsval) : acquired (option jstr) :=
  match value with
  | JUndef => Ok None
  | JStr text =>
      throw_if (128 <? jlen text) || existsb line_break text with refuse "invalid_registry_response" ;;
      Ok (Some text)
  | _ => Err (refuse "invalid_registry_response")
  end.
Definition parseTransferDescriptor (value : jsval) : acquired ParsedTransferDescriptor :=
  match value with
  | JObj props =>
      match obj_get props (js "url") with
      | JStr url =>
          let method := obj_get props (js "method") in
          throw_if (8192 <? jlen url) || (negb (is_undef method) && negb (strict_equal method (JStr (js "GET"))))
            with refuse "invalid_registry_response" ;;
          let? headers := match obj_get props (js "headers") with
                          | JUndef => Ok []
                          | JObj headers => Ok headers
                          | _ => Err (refuse "invalid_registry_response")
                          end in
          let? size := descriptor_size (obj_get props (js "size")) in
          let? digest := requireSha256Digest (obj_get props (js "digest")) in
          let? expiresAt := descriptor_expiry (obj_get props (js "expiresAt")) in
          Ok {| td_url := url; td_headers := headers; td_expiresAt := expiresAt; td_size := size; td_digest := digest |}
      | _ => Err (refuse "invalid_registry_response")
      end
  | _ => Err (refuse "invalid_registry_response")
  end.

Section Transfer.
Context {U : UnicodeTables}.

(** [/^[!#$%&'*+.^_`|~0-9A-Za-z-]+$/]. *)
Definition header_char (c : Z) : bool :=
  is_alnum c || existsb (Z.eqb c) [33; 35; 36; 37; 38; 39; 42; 43; 46; 94; 95; 96; 124; 126; 45].
Definition blocked_headers : list jstr :=
  [js "host"; js "cookie"; js "authorization"; js "proxy-authorization"; js "content-length"; js "connection"].
(** Assigning a string to [__proto__] does nothing. *)
Fixpoint sanitizeTransferHeaders (value : list (jstr * jsval)) : acquired (list (jstr * jstr)) :=
  match value with
  | [] => Ok []
  | (key, JStr raw) :: value' =>
      throw_if jeqb key [] || negb (forallb header_char key) || (8192 <? jlen raw) || existsb line_break raw
        with refuse "invalid_registry_response" ;;
      let? headers := sanitizeTransferHeaders value' in
      let lower := toLowerCase key in
      Ok (if existsb (jeqb lower) blocked_headers || jeqb key (js "__proto__") then headers else (key, raw) :: headers)
  | _ :: _ => Err (refuse "invalid_registry_response")
  end.
End Transfer.

(** [maxRegistryHops] is a safe integer, so that [Number(text)] and the number
    the digits spell compare to it alike. *)
Definition remote_hop_refused (text : jstr) (hop : Z) (limits : AcquisitionLimits) : bool :=
  jeqb text [] || negb (forallb is_digit text) || (maxRegistryHops limits <=? digits_value text) ||
  (digits_value text <? hop).
Definition remote_chain (text : jstr) : list jstr :=
  List.filter (fun item => negb (jeqb item [])) (trim <$> split 44 text).
Definition enforceRemoteProxyHeaders (response : FetchResponse) (hop : Z) (limits : AcquisitionLimits) : acquired unit :=
  let? _ := match response_header "x-private-skills-proxy-hop" response with
            | Some text => if remote_hop_refused text hop limits then Err (refuse "proxy_hop_limit") else Ok tt
            | None => Ok tt
            end in
  match response_header "x-private-skills-proxy-chain" response with
  | Some text =>
      throw_if MAX_CHAIN_BYTES <? jlen text with refuse "proxy_hop_limit" ;;
      throw_if negb (bool_decide (NoDup (remote_chain text))) with refuse "proxy_cycle" ;;
      Ok tt
  | None => Ok tt
  end.

(** ** The acquisition *)

Record AcquireSkillOptions : Type := {
  ao_limits : option (list (jstr * jsval));
  ao_allowLoopbackForTests : option bool;
  ao_registryChain : option (list jstr);
  ao_registryHop : option spec_float;
}.
Record AcquisitionResult : Type := {
  ar_bundle : SkillBundle;
  ar_provenance : Provenance;
}.
Definition registry_identity (upstream : Upstream) (base : URL) : jstr :=
  us_id upstream ++ js "@" ++ url_origin base ++ url_pathname base.
(** The hop, and the chain the requests carry. *)
Definition proxy_step (upstream : Upstream) (base : URL) (options : AcquireSkillOptions) (limits : AcquisitionLimits)
    : acquired (Z * list jstr) :=
  let chain := default [] (ao_registryChain options) in
  match safe_integer (default num_zero (ao_registryHop options)) with
  | None => Err (refuse "proxy_hop_limit")
  | Some hop =>
      throw_if (hop <? 0) || (maxRegistryHops limits <=? hop) with refuse "proxy_hop_limit" ;;
      throw_if existsb (fun item => jeqb item (registry_identity upstream base) || jeqb item (us_id upstream) ||
                                    jeqb item (url_origin base)) chain
        with refuse "proxy_cycle" ;;
      throw_if maxRegistryHops limits <=? Z.of_nat (length chain) with refuse "proxy_hop_limit" ;;
      let nextChain := chain ++ [registry_identity upstream base] in
      throw_if MAX_CHAIN_BYTES <? jlen (textEncode (join [44] nextChain)) with refuse "proxy_hop_limit" ;;
      Ok (hop, nextChain)
  end.
Definition registry_headers (hop : Z) (nextChain : list jstr) (credential : option jstr) : list (jstr * jstr) :=
  [(js "accept", js "application/json"); (js "content-type", js "application/json");
   (js "x-private-skills-proxy-hop", js_of_Z hop); (js "x-private-skills-proxy-chain", join [44] nextChain)] ++
  match credential with Some credential => [(js "authorization", credential)] | None => [] end.
Definition post_request (headers : list (jstr * jstr)) (body : jstr) : ClientRequest := {|
  cq_method := Some (js "POST"); cq_headers := headers; cq_body := Some body; cq_retryable := Some false;
  cq_allowCrossOriginRedirectWithoutAuth := false; cq_stripCredentialsOnRedirect := false; cq_rejectRedirects := false |}.
Definition transfer_request (headers : list (jstr * jstr)) : ClientRequest := {|
  cq_method := Some (js "GET"); cq_headers := headers; cq_body := None; cq_retryable := Some false;
  cq_allowCrossOriginRedirectWithoutAuth := true; cq_stripCredentialsOnRedirect := false; cq_rejectRedirects := false |}.
Definition requested_ref (importRequest : ImportRequest) : jstr :=
  if jeqb (iq_path importRequest) [] then iq_name importRequest else iq_path importRequest.
Definition resolution_payload (importRequest : ImportRequest) : jstr := json_text (WObj (
  [(js "kind", WStr (js "skill")); (js "ref", WStr (requested_ref importRequest))] ++
  if jeqb (iq_version importRequest) [] then [] else [(js "version", WStr (iq_version importRequest))])).
Definition authorization_payload (resolution : list (jstr * jsval)) : jstr :=
  default [] (json_stringify (JObj [(js "resolution", JObj resolution)])).
Definition download_payload (resourceId authorizationId : jstr) : jstr :=
  json_text (WObj [(js "resourceId", WStr resourceId); (js "authorizationId", WStr authorizationId)]).
(** [value?.descriptor ?? value?.transferDescriptor ?? value?.transfer ?? value]. *)
Definition descriptor_of (value : jsval) : jsval :=
  nullish (nullish (nullish (field value "descriptor") (field value "transferDescriptor")) (field value "transfer"))
    value.
Definition registry_provenance (upstream : Upstream) (base : URL) (path digest : jstr) : Provenance := {|
  pv_kind := PKRegistry; pv_upstreamId := Some (us_id upstream); pv_repository := Some (url_origin base);
  pv_path := Some path; pv_revision := Some digest; pv_sourceDigest := Some digest; pv_externalId := None;
  pv_externalSourceType := None; pv_externalSnapshotHash := HashAbsent; pv_feedId := None; pv_feedName := None;
  pv_feedConfigRevision := None; pv_sourceReference := None; pv_externalSource := None;
  pv_sourceProviderOrigin := None; pv_sourceResolutionKind := None; pv_fetchedAt := None; pv_externalDigest := None;
  pv_sourceUrl := None; pv_catalogDetailFallback := None; pv_pageUrl := None; pv_artifactUrl := None;
  pv_skillPath := None; pv_requestedRef := None; pv_resolvedCommit := None; pv_resolvedTree := None;
  pv_wellKnownIndexUrl := None; pv_wellKnownEntryName := None; pv_frontmatterName := None;
  pv_frontmatterDescription := None; pv_external := None |}.

Section Registry.
Context {U : UnicodeTables} {UP : UpperTable} {UR : UrlRuntime} {RS : UrlResolver} {US : UrlSetter} {DR : DateRuntime}
  {CR : Crypto}.

(** What may be transferred: the descriptor of the resolved digest, not expired,
    of an acceptable size. *)
Definition checked_descriptor (value : jsval) (expectedDigest : jstr) (now : Z) (limits : AcquisitionLimits)
    : acquired ParsedTransferDescriptor :=
  let? descriptor := parseTransferDescriptor (descriptor_of value) in
  throw_if negb (jeqb (td_digest descriptor) expectedDigest) with refuse "digest_mismatch" ;;
  throw_if match td_expiresAt descriptor with
           | None | Some [] => false
           | Some text => match dateParse text with Some expires => expires <=? now | None => true end
           end
    with refuse "transfer_expired" ;;
  throw_if match td_size descriptor with Some size => maxResponseBytes limits <? size | None => false end
    with refuse "response_size_limit" ;;
  Ok descriptor.
(** The bundle of the transferred bytes, when they are those of the digest. *)
Definition transferred_bundle (descriptor : ParsedTransferDescriptor) (bytes : list Z) (expectedDigest : jstr)
    (limits : AcquisitionLimits) : acquired SkillBundle :=
  let size := Z.of_nat (length bytes) in
  throw_if match td_size descriptor with Some declared => negb (declared =? size) | None => false end
    with refuse "size_mismatch" ;;
  throw_if maxResponseBytes limits <? size with refuse "response_size_limit" ;;
  match textDecode bytes ≫= json_parse with
  | None => Err (refuse "invalid_bundle")
  | Some parsed =>
      let? bundle := validate_bundle_within limits parsed in
      let? canonical := serializeSkillBundle bundle in
      throw_if negb (jeqb (digestBytes canonical) expectedDigest) with refuse "digest_mismatch" ;;
      Ok bundle
  end.

Context {W : Type} (net : Network W).

(** A POST of JSON to a path below the base, its answer and the answer's proxy
    headers checked. *)
Definition registry_post (limits : AcquisitionLimits) (allowLoopback : bool) (base : URL) (parts : list jstr)
    (headers : list (jstr * jstr)) (hop : Z) (body : jstr) : io W jsval :=
  let! url := io_return (appendBasePath base parts) in
  let! (value, response) := client_jsonWithHeaders net limits allowLoopback (url_origin base) url
                              (post_request headers body) in
  let! _ := io_return (enforceRemoteProxyHeaders response hop limits) in
  io_return (Ok value).
Definition acquireRegistry (env : jstr -> option jstr) (now : Z) (upstream : Upstream) (importRequest : ImportRequest)
    (options : AcquireSkillOptions) : io W AcquisitionResult :=
  let allowLoopback := default false (ao_allowLoopbackForTests options) in
  let! limits := io_return (mergeLimits (default [] (ao_limits options))) in
  let! base := io_return (normalizeRegistryBase (us_baseUrl upstream) allowLoopback) in
  let! (hop, nextChain) := io_return (proxy_step upstream base options limits) in
  let! credential := io_return (credentialHeader env upstream) in
  let headers := registry_headers hop nextChain credential in
  let! resolved := registry_post limits allowLoopback base [js "v1"; js "resolve"] headers hop
                     (resolution_payload importRequest) in
  let! resolution := io_return (parseResolution (field resolved "resolution")) in
  let! expectedDigest := io_return (requireSha256Digest (obj_get resolution (js "digest"))) in
  let! resourceId := io_return (requireString (obj_get resolution (js "resourceId"))) in
  let! authorized := registry_post limits allowLoopback base [js "v1"; js "install-authorizations"] headers hop
                       (authorization_payload resolution) in
  let! authorization := io_return (parseAuthorization (field authorized "authorization")) in
  let! authorizationId := io_return (requireString (obj_get authorization (js "id"))) in
  let! _ := io_return (assertAuthorizationMatchesResolution authorization resolution) in
  let! described := registry_post limits allowLoopback base [js "v1"; js "artifacts"; expectedDigest; js "download"]
                      headers hop (download_payload resourceId authorizationId) in
  let! descriptor := io_return (checked_descriptor described expectedDigest now limits) in
  let! transferURL := io_return (resolveDescriptorURL (td_url descriptor) base allowLoopback) in
  let! transferHeaders := io_return (sanitizeTransferHeaders (td_headers descriptor)) in
  let! (bytes, _) := client_bytes net limits allowLoopback (url_origin base) transferURL
                       (transfer_request transferHeaders) in
  let! bundle := io_return (transferred_bundle descriptor bytes expectedDigest limits) in
  io_return (Ok {| ar_bundle := bundle;
                   ar_provenance := registry_provenance upstream base (requested_ref importRequest) expectedDigest |}).

(** ** The worker's entry *)

Record AcquireSkillInput : Type := {
  ai_job : option Job;
  ai_upstream : option Upstream;
  ai_importRequest : option ImportRequest;
  ai_import : option ImportRequest;
  ai_request : option ImportRequest;
  ai_options : AcquireSkillOptions;
  ai_nested : option AcquireSkillOptions;
}.
Definition or_else {A} (left right : option A) : option A := match left with Some _ => left | None => right end.
Definition assertInputBindings (job : option Job) (upstream : Upstream) (importRequest : ImportRequest) : acquired unit :=
  throw_if negb (jeqb (iq_upstreamId importRequest) (us_id upstream)) with refuse "invalid_arguments" ;;
  throw_if match job with
           | Some job =>
               negb (jeqb (jb_organizationId job) (us_organizationId upstream)) ||
               match jb_import job with
               | Some import => negb (jeqb (iq_upstreamId import) (us_id upstream))
               | None => false
               end
           | None => false
           end
    with refuse "invalid_arguments" ;;
  Ok tt.
(** The object form; the options beside the input win over the nested ones. *)
Definition normalizeInput (input : AcquireSkillInput) : acquired (Upstream * ImportRequest * AcquireSkillOptions) :=
  let upstream := or_else (ai_upstream input) (ai_job input ≫= jb_upstream) in
  let importRequest := or_else (or_else (or_else (ai_importRequest input) (ai_import input)) (ai_request input))
                         (ai_job input ≫= jb_import) in
  match upstream, importRequest with
  | Some upstream, Some importRequest =>
      let? _ := assertInputBindings (ai_job input) upstream importRequest in
      let pick {A} (field : AcquireSkillOptions -> option A) :=
        or_else (field (ai_options input)) (ai_nested input ≫= field) in
      Ok (upstream, importRequest, {|
        ao_limits := pick ao_limits; ao_allowLoopbackForTests := pick ao_allowLoopbackForTests;
        ao_registryChain := pick ao_registryChain; ao_registryHop := pick ao_registryHop |})
  | _, _ => Err (refuse "invalid_arguments")
  end.
Definition assertUpstreamEnabled (upstream : Upstream) : acquired unit :=
  throw_if negb (us_enabled upstream) with refuse "upstream_disabled" ;; Ok tt.
Definition acquireRegistrySkill (env : jstr -> option jstr) (now : Z) (input : AcquireSkillInput)
    : io W AcquisitionResult :=
  let! (upstream, importRequest, options) := io_return (normalizeInput input) in
  if negb (bool_decide (us_kind upstream = URegistry)) then io_return (Err (refuse "upstream_kind_mismatch"))
  else
    let! _ := io_return (assertUpstreamEnabled upstream) in
    acquireRegistry env now upstream importRequest options.
End Registry.

(** ** Sources with a fixed origin *)

Definition TESSL_API_ORIGIN : jstr := js "https://api.tessl.io".
Definition CLAWHUB_API_ORIGIN : jstr := js "https://clawhub.ai".
(** The limits as the object the next function merges again. *)
Definition limits_value (l : AcquisitionLimits) : list (jstr * jsval) :=
  (fun kv => (js kv.1, JNum (num_of_Z kv.2))) <$>
  [("maxFiles", maxFiles l); ("maxFileBytes", maxFileBytes l); ("maxExpandedBytes", maxExpandedBytes l);
   ("maxPathBytes", maxPathBytes l); ("maxResponseBytes", maxResponseBytes l); ("maxBinaryBytes", maxBinaryBytes l);
   ("maxBinaryTotalBytes", maxBinaryTotalBytes l); ("maxBinaryFiles", maxBinaryFiles l);
   ("maxRedirects", maxRedirects l); ("maxAttempts", maxAttempts l); ("concurrency", concurrency l);
   ("maxRequestsPerSecond", maxRequestsPerSecond l); ("requestTimeoutMs", requestTimeoutMs l);
   ("maxRegistryHops", maxRegistryHops l)]%string.
(** A GET that is neither redirected nor repeated. *)
Definition provider_request (headers : list (jstr * jstr)) : ClientRequest := {|
  cq_method := None; cq_headers := headers; cq_body := None; cq_retryable := Some false;
  cq_allowCrossOriginRedirectWithoutAuth := false; cq_stripCredentialsOnRedirect := false; cq_rejectRedirects := true |}.
Definition provider_origin (source : jsval) (origin : jstr) : bool :=
  let value := field source "sourceProviderOrigin" in
  is_undef value || strict_equal value (JStr origin).
Definition content_type (response : FetchResponse) : jstr := default [] (response_header "content-type" response).
Definition raw_file (file : jstr * list Z) : RawFile :=
  {| rf_path := file.1; rf_bytes := file.2; rf_executable := false |}.

(** What resolves the token of a Tessl request: a callback, [None] of which is
    an exception, or a value. *)
Inductive TokenResolver (W : Type) : Type :=
| TokenCallback (call : W -> option jsval * W)
| TokenValue (token : jsval).
Arguments TokenCallback {W}.
Arguments TokenValue {W}.
(** [TesslSourceAcquireInput] and [ClawHubSourceAcquireInput], which has no
    token. *)
Record SourceAcquireInput (W : Type) : Type := {
  si_source : jsval;
  si_limits : option (list (jstr * jsval));
  si_allowLoopbackForTests : option bool;
  si_token : TokenResolver W;
  si_apiBaseUrl : option jstr;
  si_upstreamId : option jstr;
  si_externalId : option jstr;
  si_externalSnapshotHash : SnapshotHash;
  si_provenanceKind : option ProvenanceKind;
  si_provenanceRepository : option jstr;
  si_provenancePath : option jstr;
  si_sourceReference : option jstr;
}.
Arguments si_source {W}. Arguments si_limits {W}. Arguments si_allowLoopbackForTests {W}. Arguments si_token {W}.
Arguments si_apiBaseUrl {W}. Arguments si_upstreamId {W}. Arguments si_externalId {W}.
Arguments si_externalSnapshotHash {W}. Arguments si_provenanceKind {W}. Arguments si_provenanceRepository {W}.
Arguments si_provenancePath {W}. Arguments si_sourceReference {W}.
Record SourceResolution (S : Type) : Type := {
  sr_source : S;
  sr_externalDigest : jstr;
  sr_bundle : SkillBundle;
  sr_provenance : Provenance;
}.
Arguments sr_source {S}. Arguments sr_externalDigest {S}. Arguments sr_bundle {S}. Arguments sr_provenance {S}.

Record TesslSource : Type := {
  ts_workspace : jstr;
  ts_tile : jstr;
  ts_version : jstr;
  ts_fingerprint : jstr;
  ts_skillPath : jstr;
  ts_artifactDigest : option jstr;
}.
Definition validateTesslCoordinate (value : jsval) : acquired jstr :=
  match value with
  | JStr s =>
      throw_if jeqb s [] || (256 <? jlen s) || hasLoneSurrogate s || CONTROL_CHARACTER s || includes [47] s ||
               includes [92] s || jeqb s (js ".") || jeqb s (js "..") || startsWith [45] s
        with refuse "invalid_source" ;;
      Ok s
  | _ => Err (refuse "invalid_source")
  end.
(** [/^[0-9a-f]{64}$/u]. *)
Definition fingerprint_value (value : jsval) : acquired jstr :=
  match value with
  | JStr s => if hex_text 64 s then Ok s else Err (refuse "invalid_source")
  | _ => Err (refuse "invalid_source")
  end.
Definition optional_digest (value : jsval) : acquired (option jstr) :=
  match value with
  | JUndef => Ok None
  | JStr s => if isDigest s then Ok (Some s) else Err (refuse "invalid_source")
  | _ => Err (refuse "invalid_source")
  end.
Definition tesslVersionFingerprint (value : jsval) : acquired jstr :=
  throw_if negb (isRecord value) with refuse "invalid_source" ;;
  let data := if isRecord (field value "data") then field value "data" else value in
  let attributes := if isRecord (field data "attributes") then field data "attributes" else data in
  fingerprint_value (field attributes "fingerprint").
Abbreviation clawhub_coordinates := (ClawHubSource * list ClawHubSourceFile)%type.
Definition MAX_SOURCE_FETCHED_AT_BYTES : Z := 64.

Section Fixed.
Context {U : UnicodeTables} {UP : UpperTable} {UR : UrlRuntime} {RS : UrlResolver} {US : UrlSetter} {DR : DateRuntime}
  {CR : Crypto} {CO : Collation} {ZL : Zlib}.

Definition validateTesslSourceIdentity (source : jsval) (limitsInput : list (jstr * jsval)) : acquired TesslSource :=
  let? limits := mergeLimits limitsInput in
  throw_if negb (isRecord source) || negb (strict_equal (field source "kind") (JStr (js "tessl")))
    with refuse "invalid_source" ;;
  let? workspace := validateTesslCoordinate (field source "workspace") in
  let? tile := validateTesslCoordinate (field source "tile") in
  let? version := validateTesslCoordinate (field source "version") in
  let? fingerprint := fingerprint_value (field source "fingerprint") in
  let? artifactDigest := optional_digest (field source "artifactDigest") in
  throw_if negb (provider_origin source TESSL_API_ORIGIN) with refuse "invalid_source" ;;
  let? skillPath := validateTesslSkillPath (field source "skillPath") limits in
  Ok {| ts_workspace := workspace; ts_tile := tile; ts_version := version; ts_fingerprint := fingerprint;
        ts_skillPath := skillPath; ts_artifactDigest := artifactDigest |}.
(** [normalizeTesslApiBase] and [normalizeClawHubApiBase]. *)
Definition normalizeSourceApiBase (fixed : jstr) (value : option jstr) (allowLoopbackForTests : bool) : acquired URL :=
  match value with
  | None => match parseURL fixed with Some url => Ok url | None => Err (refuse "TypeError") end
  | Some value =>
      let? parsed := parseFixedBase value allowLoopbackForTests in
      throw_if negb allowLoopbackForTests && negb (jeqb (url_origin parsed) fixed) with refuse "invalid_source" ;;
      throw_if allowLoopbackForTests && negb (jeqb (url_origin parsed) fixed) &&
               negb (isLoopbackHost (url_hostname parsed))
        with refuse "invalid_source" ;;
      Ok parsed
  end.
Definition validateSourceFetchedAt (value : jsval) : acquired jstr :=
  match value with
  | JStr s =>
      throw_if jeqb s [] || (MAX_SOURCE_FETCHED_AT_BYTES <? jlen s) with refuse "invalid_source" ;;
      match dateParse s with
      | Some milliseconds => if jeqb (toISOString milliseconds) s then Ok s else Err (refuse "invalid_source")
      | None => Err (refuse "invalid_source")
      end
  | _ => Err (refuse "invalid_source")
  end.
Definition sourceFetchedAt (now : Z) : acquired jstr := validateSourceFetchedAt (JStr (toISOString now)).
Definition token_value (token : jsval) : acquired (option jstr) :=
  match token with
  | JUndef => Ok None
  | JStr s =>
      throw_if jeqb s [] || (MAX_TOKEN_BYTES <? jlen (textEncode s)) || existsb line_break s
        with refuse "credential_invalid" ;;
      Ok (Some s)
  | _ => Err (refuse "credential_invalid")
  end.

(** *** Tessl *)

Definition tessl_coordinate (source : TesslSource) : jstr :=
  ts_workspace source ++ 47 :: ts_tile source ++
  (if jeqb (ts_skillPath source) [] then [] else 47 :: ts_skillPath source).
Definition tessl_provenance {W} (input : SourceAcquireInput W) (source : TesslSource) (sourceDigest fetchedAt externalDigest
    sourceUrl : jstr) : Provenance := {|
  pv_kind := default PKNative (si_provenanceKind input); pv_upstreamId := si_upstreamId input;
  pv_repository := Some (default TESSL_API_ORIGIN (si_provenanceRepository input));
  pv_path := Some (default (ts_skillPath source) (si_provenancePath input)); pv_revision := Some (ts_version source);
  pv_sourceDigest := Some sourceDigest; pv_externalId := si_externalId input; pv_externalSourceType := None;
  pv_externalSnapshotHash := match si_externalSnapshotHash input with
                             | Hash s => Hash s
                             | _ => Hash (ts_fingerprint source)
                             end;
  pv_feedId := None; pv_feedName := None; pv_feedConfigRevision := None;
  pv_sourceReference := Some (default (js "tessl:" ++ tessl_coordinate source ++ 64 :: ts_version source ++
                                       35 :: ts_fingerprint source) (si_sourceReference input));
  pv_externalSource := None; pv_sourceProviderOrigin := Some TESSL_API_ORIGIN;
  pv_sourceResolutionKind := Some SRSnapshot; pv_fetchedAt := Some fetchedAt; pv_externalDigest := Some externalDigest;
  pv_sourceUrl := Some sourceUrl; pv_catalogDetailFallback := None; pv_pageUrl := None; pv_artifactUrl := None;
  pv_skillPath := None; pv_requestedRef := None; pv_resolvedCommit := None; pv_resolvedTree := None;
  pv_wellKnownIndexUrl := None; pv_wellKnownEntryName := None; pv_frontmatterName := None;
  pv_frontmatterDescription := None; pv_external := None |}.
Definition tessl_headers (accept : string) (token : option jstr) : list (jstr * jstr) :=
  [(js "accept", js accept); (js "user-agent", js "private-skills-tessl-worker/0.1")] ++
  match token with Some token => [(js "authorization", js "Bearer " ++ token)] | None => [] end.
(** The bundle of the archive's selected directory. *)
Definition tessl_bundle (source : TesslSource) (limits : AcquisitionLimits) (bytes : list Z) (contentType href : jstr)
    : acquired SkillBundle :=
  throw_if match ts_artifactDigest source with Some digest => negb (jeqb (digestBytes bytes) digest) | None => false end
    with refuse "digest_mismatch" ;;
  let? extracted := extractTesslArchive bytes contentType href (limits_value limits) in
  let? selected := selectTesslSkillDirectory extracted (JStr (ts_skillPath source)) (limits_value limits) in
  bundleFromRawFiles limits (raw_file <$> selected).

(** *** ClawHub *)

Definition validateClawHubSourceIdentity (source : jsval) (limitsInput : list (jstr * jsval)) : acquired clawhub_coordinates :=
  let? limits := mergeLimits limitsInput in
  throw_if negb (isRecord source) || negb (strict_equal (field source "kind") (JStr (js "clawhub")))
    with refuse "invalid_source" ;;
  let? owner := validateClawHubCoordinate (field source "owner") in
  let? slug := validateClawHubCoordinate (field source "slug") in
  let? version := validateClawHubCoordinate (field source "version") in
  let? files := validateClawHubManifest (field source "files") limits in
  throw_if negb (provider_origin source CLAWHUB_API_ORIGIN) with refuse "invalid_source" ;;
  Ok ({| cs_owner := owner; cs_slug := slug; cs_version := version |}, files).
Definition clawhub_headers (accept : string) : list (jstr * jstr) :=
  [(js "accept", js accept); (js "user-agent", js "private-skills-clawhub-worker/0.1")].
Definition clawhub_download_url (base : URL) (source : ClawHubSource) : acquired URL :=
  match parseURL (url_origin base) ≫= resolveURL (js "/api/v1/download") with
  | None => Err (refuse "TypeError")
  | Some url =>
      let url := setSearchParam (js "slug") (cs_slug source) url in
      let url := if jeqb (cs_owner source) [] then url else setSearchParam (js "ownerHandle") (cs_owner source) url in
      Ok (setSearchParam (js "version") (cs_version source) url)
  end.
Definition clawhub_name (prefix : string) (source : ClawHubSource) : jstr :=
  js prefix ++ cs_owner source ++ 47 :: cs_slug source.
Definition clawhub_provenance {W} (input : SourceAcquireInput W) (source : ClawHubSource) (sourceDigest fetchedAt
    externalDigest sourceUrl : jstr) : Provenance := {|
  pv_kind := PKRegistry; pv_upstreamId := si_upstreamId input;
  pv_repository := Some (default CLAWHUB_API_ORIGIN (si_provenanceRepository input));
  pv_path := Some (default (clawhub_name "@" source) (si_provenancePath input)); pv_revision := Some (cs_version source);
  pv_sourceDigest := Some sourceDigest; pv_externalId := Some (default (clawhub_name "@" source) (si_externalId input));
  pv_externalSourceType := None; pv_externalSnapshotHash := si_externalSnapshotHash input;
  pv_feedId := None; pv_feedName := None; pv_feedConfigRevision := None;
  pv_sourceReference := Some (default (clawhub_name "@clawhub/" source) (si_sourceReference input));
  pv_externalSource := None; pv_sourceProviderOrigin := Some CLAWHUB_API_ORIGIN;
  pv_sourceResolutionKind := Some SRSnapshot; pv_fetchedAt := Some fetchedAt; pv_externalDigest := Some externalDigest;
  pv_sourceUrl := Some sourceUrl; pv_catalogDetailFallback := None; pv_pageUrl := None; pv_artifactUrl := None;
  pv_skillPath := None; pv_requestedRef := None; pv_resolvedCommit := None; pv_resolvedTree := None;
  pv_wellKnownIndexUrl := None; pv_wellKnownEntryName := None; pv_frontmatterName := None;
  pv_frontmatterDescription := None; pv_external := None |}.
(** The answers are those of the queued release. *)
Definition clawhub_detail_agrees (source : ClawHubSource) (detail : jsval) : acquired unit :=
  let? (owner, slug) := clawHubDetailIdentity detail in
  throw_if negb (jeqb owner (cs_owner source)) || negb (jeqb slug (cs_slug source)) with refuse "digest_mismatch" ;;
  Ok tt.
Definition clawhub_version_agrees (source : ClawHubSource) (files : list ClawHubSourceFile) (limits : AcquisitionLimits)
    (payload : jsval) : acquired unit :=
  let? live := clawHubVersionValue payload in
  throw_if negb (jeqb live (cs_version source)) with refuse "digest_mismatch" ;;
  let? liveFiles := clawHubVersionManifest payload limits in
  assertClawHubManifestEqual (manifest_value files) (manifest_value liveFiles) limits.
Definition clawhub_bundle (source : ClawHubSource) (files : list ClawHubSourceFile) (limits : AcquisitionLimits)
    (bytes : list Z) (contentType href : jstr) : acquired SkillBundle :=
  let? archiveFiles := extractWellKnownArchive limits bytes contentType href in
  let? verified := verifyClawHubArchiveFiles archiveFiles (manifest_value files) limits (Some source) in
  bundleFromRawFiles limits (raw_file <$> verified).

(** *** The acquisitions *)

Context {W : Type} (net : Network W).

Definition resolveTesslToken (input : SourceAcquireInput W) : io W (option jstr) :=
  match si_token input with
  | TokenValue token => io_return (token_value token)
  | TokenCallback call =>
      await token := call in
      io_return (match token with
                 | Some token => token_value token
                 | None => Err (refuse "credential_missing")
                 end)
  end.
Definition acquireTesslSource (now : Z) (input : SourceAcquireInput W) : io W (SourceResolution TesslSource) :=
  let allowLoopback := default false (si_allowLoopbackForTests input) in
  let! limits := io_return (mergeLimits (default [] (si_limits input))) in
  let! source := io_return (validateTesslSourceIdentity (si_source input) (limits_value limits)) in
  let! base := io_return (normalizeSourceApiBase TESSL_API_ORIGIN (si_apiBaseUrl input) allowLoopback) in
  let version_path := [js "v1"; js "tiles"; ts_workspace source; ts_tile source; js "versions"; ts_version source] in
  let! url := io_return (appendBasePath base (version_path ++ [js "files"])) in
  let! token := resolveTesslToken input in
  let! metadataURL := io_return (appendBasePath base version_path) in
  let! metadata := client_json net limits allowLoopback (url_origin base) metadataURL
                     (provider_request (tessl_headers "application/json" token)) in
  let! liveFingerprint := io_return (tesslVersionFingerprint metadata) in
  if negb (jeqb liveFingerprint (ts_fingerprint source)) then io_return (Err (refuse "digest_mismatch"))
  else
    let! (bytes, response) := client_bytes net limits allowLoopback (url_origin base) url
                                (provider_request (tessl_headers "application/gzip" token)) in
    let! bundle := io_return (tessl_bundle source limits bytes (content_type response) (url_href url)) in
    let! canonical := io_return (serializeSkillBundle bundle) in
    let! fetchedAt := io_return (sourceFetchedAt now) in
    io_return (Ok {|
      sr_source := source; sr_externalDigest := digestBytes bytes; sr_bundle := bundle;
      sr_provenance := tessl_provenance input source (digestBytes canonical) fetchedAt (digestBytes bytes) (url_href url) |}).
Definition acquireClawHubSource (now : Z) (input : SourceAcquireInput W) : io W (SourceResolution clawhub_coordinates) :=
  let allowLoopback := default false (si_allowLoopbackForTests input) in
  let! limits := io_return (mergeLimits (default [] (si_limits input))) in
  let! (source, files) := io_return (validateClawHubSourceIdentity (si_source input) (limits_value limits)) in
  let! base := io_return (normalizeSourceApiBase CLAWHUB_API_ORIGIN (si_apiBaseUrl input) allowLoopback) in
  let get url := client_json net limits allowLoopback (url_origin base) url
                   (provider_request (clawhub_headers "application/json")) in
  let skill_path := [js "api"; js "v1"; js "skills"; cs_slug source] in
  let! detailURL := io_return (appendBasePath base skill_path) in
  let! detail := get detailURL in
  let! _ := io_return (clawhub_detail_agrees source detail) in
  let! versionURL := io_return (appendBasePath base (skill_path ++ [js "versions"; cs_version source])) in
  let! payload := get versionURL in
  let! _ := io_return (clawhub_version_agrees source files limits payload) in
  let! downloadURL := io_return (clawhub_download_url base source) in
  let! (bytes, response) := client_bytes net limits allowLoopback (url_origin base) downloadURL
                              (provider_request (clawhub_headers "application/zip, application/octet-stream")) in
  let! bundle := io_return (clawhub_bundle source files limits bytes (content_type response) (url_href downloadURL)) in
  let! canonical := io_return (serializeSkillBundle bundle) in
  let! fetchedAt := io_return (sourceFetchedAt now) in
  io_return (Ok {|
    sr_source := (source, files); sr_externalDigest := digestBytes bytes; sr_bundle := bundle;
    sr_provenance := clawhub_provenance input source (digestBytes canonical) fetchedAt (digestBytes bytes)
                       (url_href downloadURL) |}).
End Fixed.
