(* ===== verification/AcquireSafety.v ===== *)
(** * What an acquired bundle is

    The acquisition validates bundles with rules of its own, and the registry
    validates them again when it stores them.  The theorems relate the two: an
    acquired bundle is in the canonical form of the storage package, except
    that only storage bounds the length of a path segment. *)

From Stdlib Require Import ZArith Lia.
From stdpp Require Import base list sorting strings sets.
From S2P Require Import Prelude Js Base64 Json Numbers Bundle Acquire.

Local Open Scope Z_scope.

(** ** Unicode

    What the two validations rely on of the Unicode tables: normalization is
    stable and makes no control character or backslash, and case mapping works
    on each segment of a path and on ASCII letters as expected. *)
Definition ascii_upper (c : Z) : Z := if is_lower c then c - 32 else c.
Class SegmentLaws (U : UnicodeTables) (UP : UpperTable) : Prop := {
  nfc_idempotent s : normalizeNFC (normalizeNFC s) = normalizeNFC s;
  nfc_no_control s c : c ∈ normalizeNFC s -> is_control c || (c =? 92) = true -> c ∈ s;
  nfc_surrogates s : hasLoneSurrogate s = false -> hasLoneSurrogate (normalizeNFC s) = false;
  lower_segments s : split 47 (toLowerCase s) = toLowerCase <$> split 47 s;
  nfc_units s : wf_jstr s -> wf_jstr (normalizeNFC s);
  upper_ascii s : Forall is_ascii s -> toUpperCase s = ascii_upper <$> s;
}.

Lemma split_fmap (f : Z -> Z) (sep : Z) (s : jstr) : (forall c, f c = sep <-> c = sep) ->
  split sep (f <$> s) = (fun part : jstr => f <$> part) <$> split sep s.
Proof.
  intros Hf. induction s as [|c s IH]; [done|]. cbn [fmap list_fmap split].
  destruct (c =? sep) eqn:E.
  - apply Z.eqb_eq in E. rewrite (proj2 (Z.eqb_eq _ _)) by by apply Hf. cbn. by rewrite IH.
  - apply Z.eqb_neq in E. rewrite (proj2 (Z.eqb_neq _ _)) by by rewrite Hf.
    rewrite IH. by destruct (split sep s).
Qed.
#[export] Instance ascii_segment_laws : SegmentLaws ascii_tables ascii_upper_table.
Proof.
  split; try done. intros s. cbn. apply split_fmap. intros c. unfold ascii_lower, is_upper, between. case_match; bool_inv; lia.
Qed.

(** ** Limits *)

Lemma limit_of_least input key fallback least z : least <= fallback ->
  limit_of input key fallback least = Ok z -> least <= z.
Proof.
  unfold limit_of. intros Hf H. destruct (find_first _ _) as [[k [| | |x| | |]]|]; try done.
  - destruct (safe_integer x); [|done]. ok_inv. by bool_inv.
  - by injection H as <-.
Qed.

(** ** Paths *)

Section Paths.
Context {U : UnicodeTables} {UP : UpperTable}.

(** A segment the acquisition accepts. *)
Record acquired_part (part : jstr) : Prop := {
  part_nonempty : part <> [];
  part_not_dot : part <> js ".";
  part_not_dotdot : part <> js "..";
  part_no_trailing : endsWith (js ".") part = false /\ endsWith (js " ") part = false;
  part_no_colon : 58 ∉ part;
  part_no_wildcard : WINDOWS_RESERVED_CHARACTER part = false;
  part_no_device : device_segment part = false;
}.
(** What [validateSkillPath] promises of the path it returns. *)
Record acquired_path (limits : AcquisitionLimits) (rejectReserved : bool) (input path : jstr) : Prop := {
  ap_normal : path = normalizeNFC input;
  ap_no_control : Forall (fun c => is_control c || (c =? 92) = false) input;
  ap_unicode : hasLoneSurrogate input = false;
  ap_bytes : jlen (textEncode path) <= maxPathBytes limits;
  ap_parts : Forall acquired_part (split 47 path);
  ap_reserved : rejectReserved = true -> existsb reserved_part (split 47 path) = false;
}.
Lemma unsafe_part_false part : unsafe_part part = false -> device_segment part = false -> acquired_part part.
Proof.
  intros H Hd. unfold unsafe_part in H. rewrite !orb_false_iff in H. destruct_and!.
  split; try done; try by apply jeqb_false. by apply includes_single.
Qed.
Lemma validateSkillPath_sound limits reject input p :
  validateSkillPath input limits reject = Ok p -> acquired_path limits reject input p.
Proof.
  unfold validateSkillPath. intros H. ok_inv. rewrite !orb_false_iff in *. destruct_and!. bool_inv.
  split; try done.
  - apply Forall_forall. intros c Hc. apply orb_false_iff. split.
    + match goal with Hx : CONTROL_CHARACTER _ = false |- _ => unfold CONTROL_CHARACTER in Hx;
        rewrite existsb_false_Forall, Forall_forall in Hx; by apply Hx end.
    + apply Z.eqb_neq. intros ->. match goal with Hx : includes [92] _ = false |- _ => by apply includes_single in Hx end.
  - apply Forall_forall. intros part Hp.
    repeat match goal with Hx : existsb _ _ = false |- _ => rewrite existsb_false_Forall, Forall_forall in Hx end.
    apply unsafe_part_false; auto.
  - intros ->. by match goal with Hx : true && _ = false |- _ => exact Hx end.
Qed.
End Paths.

(** ** Device names *)

Section Devices.
Context {U : UnicodeTables} {UP : UpperTable} {SL : SegmentLaws U UP}.

Lemma upper_lower c : ascii_upper (ascii_lower c) = ascii_upper c.
Proof. unfold ascii_upper, ascii_lower, is_upper, is_lower, between. repeat case_match; bool_inv; lia. Qed.
Lemma ascii_lower_ascii c : is_ascii (ascii_lower c) -> is_ascii c.
Proof. unfold is_ascii, ascii_lower, is_upper, between. case_match; bool_inv; lia. Qed.
Lemma stems_upper stem : stem ∈ reserved_stems ->
  (ascii_upper <$> stem) ∈ DEVICE_STEMS /\ Forall is_ascii stem /\ 46 ∉ stem.
Proof.
  assert (H : forallb (fun stem => bool_decide ((ascii_upper <$> stem) ∈ DEVICE_STEMS) &&
                bool_decide (Forall (fun c => 0 <= c < 128) stem) && bool_decide (46 ∉ stem)) reserved_stems = true)
    by (vm_compute; reflexivity).
  rewrite forallb_forall in H. intros Hs. specialize (H stem ltac:(by apply list_elem_of_In)). bool_inv. done.
Qed.
Lemma split_hd_prefix sep p s : sep ∉ p -> (s = [] \/ exists r, s = sep :: r) -> hd [] (split sep (p ++ s)) = p.
Proof.
  intros Hp [-> | [r ->]].
  - by rewrite app_nil_r, split_single.
  - rewrite split_app_sep, (split_single sep p) by done. done.
Qed.
(** A name storage takes for a device is one the acquisition takes for a device. *)
Lemma device_of_reserved part : WINDOWS_RESERVED_SEGMENT part = true -> device_segment part = true.
Proof.
  unfold WINDOWS_RESERVED_SEGMENT, device_segment. intros H.
  apply existsb_exists in H as (stem & Hs & H). apply list_elem_of_In, stems_upper in Hs as (Hu & Ha & H46).
  apply andb_true_iff in H as [H1 H2]. apply startsWith_spec in H1 as [rest Hrest].
  assert (Hlen : (length stem <= length part)%nat).
  { apply (f_equal length) in Hrest. rewrite length_fmap, length_app in Hrest. lia. }
  assert (Hlow : ascii_lower <$> take (length stem) part = stem).
  { rewrite fmap_take, Hrest, take_app_length. done. }
  apply bool_decide_eq_true. rewrite <- (take_drop (length stem) part), split_hd_prefix.
  - rewrite upper_ascii.
    + assert (ascii_upper <$> take (length stem) part = ascii_upper <$> stem) as ->; [|done].
      rewrite <- Hlow at 2. rewrite <- list_fmap_compose. apply list_fmap_ext. intros. cbn. by rewrite upper_lower.
    + rewrite <- Hlow in Ha. rewrite Forall_fmap in Ha. eapply Forall_impl; [exact Ha|]. intros c. apply ascii_lower_ascii.
  - intros Hin. apply H46. rewrite <- Hlow. apply list_elem_of_fmap. exists 46. done.
  - destruct (drop (length stem) part) as [|c r]; [by left|]. bool_inv. right. subst. by eexists.
Qed.
End Devices.

(** ** Acquired paths are storable *)

Lemma utf8_length_bound cp : 0 <= cp -> (length (utf16_of_cp cp) <= length (utf8_of_cp (scalar_of_cp cp)))%nat.
Proof.
  intros Hc. unfold utf16_of_cp, utf8_of_cp, scalar_of_cp, is_surrogate, between.
  repeat case_match; bool_inv; cbn; lia.
Qed.
Lemma code_points_unfold c s : code_points (c :: s) =
  match s with
  | d :: r => if is_high c && is_low d then combine_surrogates c d :: code_points r else c :: code_points s
  | [] => [c]
  end.
Proof. destruct s as [|d r]; cbn; [by destruct (is_high c)|]. by destruct (is_high c), (is_low d). Qed.
Lemma unit_length c l : wf_unit c -> length (concat (utf16_of_cp <$> c :: l)) = S (length (concat (utf16_of_cp <$> l))).
Proof.
  unfold wf_unit. intros Hc. cbn [fmap list_fmap concat]. rewrite length_app. unfold utf16_of_cp at 1.
  by rewrite (proj2 (Z.ltb_lt _ _)) by lia.
Qed.
Lemma code_points_units s : wf_jstr s ->
  Forall (fun cp => 0 <= cp) (code_points s) /\ length s = length (concat (utf16_of_cp <$> code_points s)).
Proof.
  unfold wf_jstr. induction s as [|c|c d r IH1 IH2] using list_pair_ind; intros Hw.
  - split; [constructor|done].
  - inversion_clear Hw as [|? ? Hc _]. rewrite code_points_unfold, unit_length by done.
    split; [repeat constructor; apply Hc|done].
  - inversion_clear Hw as [|? ? Hc Hw']. inversion Hw' as [|? ? Hd Hr]; subst.
    destruct (IH1 Hr) as [H1 H2], (IH2 Hw') as [H1' H2']. rewrite code_points_unfold.
    destruct (is_high c && is_low d) eqn:E.
    + bool_inv. unfold wf_unit in *. range_inv. unfold combine_surrogates. split; [constructor; [lia|done]|].
      cbn [fmap list_fmap concat length]. rewrite length_app, <- H2. unfold utf16_of_cp.
      rewrite (proj2 (Z.ltb_ge _ _)) by lia. done.
    + rewrite unit_length, <- H2' by done. split; [constructor; [apply Hc|done]|done].
Qed.
(** UTF-8 takes at least a byte for each UTF-16 unit. *)
Lemma textEncode_length s : wf_jstr s -> jlen s <= jlen (textEncode s).
Proof.
  intros Hw. destruct (code_points_units s Hw) as [H1 H2]. unfold jlen. rewrite H2. unfold textEncode.
  clear H2 Hw. induction H1 as [|cp l Hc _ IH]; [done|]. cbn. rewrite !length_app.
  pose proof (utf8_length_bound cp Hc). lia.
Qed.
Lemma elem_of_join_split sep s c : c ∈ s -> c = sep \/ exists part, part ∈ split sep s /\ c ∈ part.
Proof.
  induction s as [|d s IH]; [by intros ?%elem_of_nil|]. intros Hc. cbn [split].
  destruct (d =? sep) eqn:E.
  - apply Z.eqb_eq in E. apply elem_of_cons in Hc as [->|Hc]; [by left|].
    destruct (IH Hc) as [?|(part & Hp & Hin)]; [by left|]. right. exists part. split; [by right|done].
  - destruct (split sep s) as [|w ws] eqn:Ew; [by apply split_ne_nil in Ew|].
    apply elem_of_cons in Hc as [->|Hc]; [right; exists (d :: w); split; by left|].
    destruct (IH Hc) as [?|(part & Hp & Hin)]; [by left|]. right.
    apply elem_of_cons in Hp as [->|Hp]; [exists (d :: w); split; [by left|by right]|exists part; split; [by right|done]].
Qed.

Section Storable.
Context {U : UnicodeTables} {UP : UpperTable} {SL : SegmentLaws U UP}.

Definition short_segments (p : jstr) : Prop := Forall (fun part => jlen (textEncode part) <= 255) (split 47 p).
Lemma acquired_segment_safe part : acquired_part part -> jlen (textEncode part) <= 255 -> safe_segment part.
Proof.
  intros [H1 H2 H3 [H4 H4'] H5 H6 H7] Hb. split; try done.
  - intros r ->. apply not_true_iff_false in H4. apply H4, endsWith_spec. by eexists.
  - intros r ->. apply not_true_iff_false in H4'. apply H4', endsWith_spec. by eexists.
  - destruct (WINDOWS_RESERVED_SEGMENT part) eqn:E; [|done]. apply device_of_reserved in E. congruence.
Qed.
Lemma acquired_path_safe limits reject input p : acquired_path limits reject input p -> maxPathBytes limits <= 4096 ->
  wf_jstr p -> short_segments p -> safe_path p.
Proof.
  intros [Hn Hc Hu Hb Hp _] Hl Hw Hs. unfold short_segments in Hs. rewrite Forall_forall in Hp, Hs.
  assert (Hsep : forall c, c ∈ p -> is_control c || (c =? 92) = false).
  { intros c Hin. destruct (is_control c || (c =? 92)) eqn:E; [|done]. subst p.
    pose proof (nfc_no_control _ _ Hin E) as Hin'. rewrite Forall_forall in Hc. specialize (Hc c Hin'). congruence. }
  assert (Hpart : forall c, c ∈ p -> c = 47 \/ exists part, acquired_part part /\ c ∈ part).
  { intros c Hin. destruct (elem_of_join_split 47 p c Hin) as [?|(part & Hpart & Hc')]; [by left|right; eauto]. }
  split.
  - subst p. by apply nfc_surrogates.
  - subst p. apply nfc_idempotent.
  - pose proof (textEncode_length p Hw). lia.
  - intros Hin. specialize (Hsep _ Hin). done.
  - intros Hin. destruct (Hpart _ Hin) as [?|(part & Ha & Hin')]; [done|]. by apply (part_no_colon part Ha).
  - apply Forall_forall. intros c Hin. destruct (Hpart c Hin) as [->|(part & Ha & Hin')]; [done|].
    pose proof (part_no_wildcard part Ha) as Hx. unfold WINDOWS_RESERVED_CHARACTER in Hx.
    rewrite existsb_false_Forall, Forall_forall in Hx. by apply Hx.
  - apply Forall_forall. intros c Hin. specialize (Hsep c Hin). by apply orb_false_iff in Hsep as [? _].
  - apply Forall_forall. intros part Hin. apply acquired_segment_safe; [by apply Hp|by apply Hs].
Qed.
Lemma acquired_path_not_plugin limits input p : acquired_path limits true input p -> isPluginEnablingPath p = false.
Proof.
  intros [_ _ _ _ _ Hr]. specialize (Hr eq_refl). unfold isPluginEnablingPath. rewrite lower_segments.
  apply existsb_false_Forall. rewrite Forall_fmap. rewrite existsb_false_Forall in Hr.
  eapply Forall_impl; [exact Hr|]. intros part H. cbn. unfold reserved_part in H. apply orb_false_iff in H as [H1 H2].
  apply bool_decide_eq_false in H1. apply jeqb_false in H2. apply bool_decide_eq_false. intros Hin. apply H1.
  unfold RESERVED_AGENT_SEGMENTS in Hin. rewrite !elem_of_cons in Hin. rewrite !elem_of_cons.
  destruct_or!; auto 10. done.
Qed.
End Storable.

(** ** The loop over the files *)

Lemma sextets_bytes_wf q : Forall (fun n => 0 <= n < 64) q -> wf_bytes (sextets_bytes q).
Proof.
  unfold wf_bytes. revert q. fix IH 1. intros [|a [|b [|c [|d r]]]] H; cbn; try by constructor.
  - repeat (apply Forall_cons in H as [? H]). repeat constructor; dlia.
  - repeat (apply Forall_cons in H as [? H]). repeat constructor; dlia.
  - repeat (apply Forall_cons in H as [? H]). repeat (constructor; [dlia|]). by apply IH.
Qed.
Lemma atob_bytes s bytes : atob s = Some bytes -> wf_bytes bytes.
Proof.
  unfold atob. intros H. case_match; [done|]. destruct (forallb _ _) eqn:E; [|done]. injection H as <-.
  apply sextets_bytes_wf. rewrite forallb_forall in E. apply Forall_fmap, Forall_forall. intros c Hc.
  specialize (E c ltac:(by apply list_elem_of_In)). bool_inv. pose proof (sextet_range c). cbn. lia.
Qed.
(** The acquisition accepts the encodings of byte strings. *)
Lemma canonical_content s : isCanonicalBase64 s = true ->
  wf_bytes (bufferFromBase64 s) /\ s = btoa (bufferFromBase64 s).
Proof.
  unfold isCanonicalBase64, bufferFromBase64. intros H. bool_inv. split; [|by match goal with Hx : jeqb _ _ = true |- _ => apply jeqb_true in Hx end].
  destruct (atob s) eqn:E; [by eapply atob_bytes|constructor].
Qed.

(** [value[key]], when it is a string. *)
Definition field_text (value : jsval) (key : string) : option jstr :=
  match value with
  | JObj props => match obj_get props (js key) with JStr s => Some s | _ => None end
  | _ => None
  end.

(** [value[key] === true]. *)
Definition field_true (value : jsval) (key : string) : bool :=
  match value with
  | JObj props => match obj_get props (js key) with JBool flag => flag | _ => false end
  | _ => false
  end.

Section Files.
Context {U : UnicodeTables} {UP : UpperTable}.

Definition file_bytes (f : BundleFile) : list Z := bufferFromBase64 (content f).
Definition byte_size (f : BundleFile) : Z := Z.of_nat (length (file_bytes f)).
(** A file the loop accepts, from the value it was read from. *)
Record acquired_file (limits : AcquisitionLimits) (rawFile : jsval) (f : BundleFile) : Prop := {
  af_path : exists input, field_text rawFile "path" = Some input /\ acquired_path limits true input (path f);
  af_text : field_text rawFile "content" = Some (content f);
  af_content : isCanonicalBase64 (content f) = true;
  af_executable : executable f = if field_true rawFile "executable" then Some true else None;
}.
(** What the limits ask of one file, and of the files that are not text. *)
Record file_within (limits : AcquisitionLimits) (f : BundleFile) : Prop := {
  fw_size : byte_size f <= maxFileBytes limits;
  fw_binary : isBinaryBytes (file_bytes f) = true ->
                byte_size f <= maxBinaryBytes limits /\ path f <> js "SKILL.md";
}.
Definition total_bytes (fs : list BundleFile) : Z := foldr Z.add 0 (byte_size <$> fs).
Definition binary_files (fs : list BundleFile) : list BundleFile := List.filter (fun f => isBinaryBytes (file_bytes f)) fs.
(** What the limits still allow after a tally. *)
Record files_within (limits : AcquisitionLimits) (tally : Tally) (fs : list BundleFile) : Prop := {
  fs_each : Forall (file_within limits) fs;
  fs_total : fs = [] \/ ty_expanded tally + total_bytes fs <= maxExpandedBytes limits;
  fs_binary : binary_files fs = [] \/
    (ty_binaryFiles tally + Z.of_nat (length (binary_files fs)) <= maxBinaryFiles limits /\
     ty_binaryBytes tally + total_bytes (binary_files fs) <= maxBinaryTotalBytes limits);
  fs_distinct : NoDup (pathKey ∘ path <$> fs);
  fs_fresh : Forall (fun f => pathKey (path f) ∉ ty_keys tally) fs;
}.
(** The counters after a file. *)
Definition counted (f : BundleFile) (tally : Tally) : Tally :=
  let binary := isBinaryBytes (file_bytes f) in {|
  ty_seen := path f :: ty_seen tally; ty_keys := pathKey (path f) :: ty_keys tally;
  ty_expanded := ty_expanded tally + byte_size f;
  ty_binaryBytes := if binary then ty_binaryBytes tally + byte_size f else ty_binaryBytes tally;
  ty_binaryFiles := if binary then ty_binaryFiles tally + 1 else ty_binaryFiles tally |}.
Definition counts (limits : AcquisitionLimits) (f : BundleFile) (tally : Tally) : Prop :=
  file_within limits f /\ ty_expanded tally + byte_size f <= maxExpandedBytes limits /\
  (isBinaryBytes (file_bytes f) = true ->
     ty_binaryFiles tally + 1 <= maxBinaryFiles limits /\
     ty_binaryBytes tally + byte_size f <= maxBinaryTotalBytes limits).
Lemma count_file_iff limits f tally tally' :
  count_file limits (path f) (file_bytes f) tally = Ok tally' <-> counts limits f tally /\ tally' = counted f tally.
Proof.
  unfold count_file, counts, counted, byte_size. destruct (isBinaryBytes (file_bytes f)) eqn:E; split.
  - intros H. ok_inv. bool_inv. split; [|done]. split; [|split; [done|intros _; lia]].
    split; unfold byte_size; [done|]. intros _. split; [lia|by apply jeqb_false].
  - intros [([H1 H2] & H3 & H4) ->]. unfold byte_size in *. destruct (H2 E) as [H5 H6]. specialize (H4 eq_refl).
    rewrite !(proj2 (Z.ltb_ge _ _)) by lia. apply jeqb_false in H6. by rewrite H6.
  - intros H. ok_inv. bool_inv. split; [|done]. split; [|split; [done|done]].
    split; unfold byte_size; [done|]. by rewrite E.
  - intros [([H1 H2] & H3 & H4) ->]. unfold byte_size in *. by rewrite !(proj2 (Z.ltb_ge _ _)) by lia.
Qed.
Lemma acquire_file_sound limits tally rawFile f tally' : acquire_file limits tally rawFile = Ok (f, tally') ->
  acquired_file limits rawFile f /\ pathKey (path f) ∉ ty_keys tally /\ counts limits f tally /\ tally' = counted f tally.
Proof.
  unfold acquire_file. intros H. destruct rawFile as [| | | | | |props]; try done.
  destruct (obj_get props (js "path")) as [| | | |rawPath| |] eqn:Ep; try done. ok_inv.
  destruct (obj_get props (js "content")) as [| | | |c| |] eqn:Ec; try done. ok_inv. bool_inv.
  match goal with Hx : count_file _ _ _ _ = Ok _ |- context [counts _ ?f _] =>
    destruct (proj1 (count_file_iff limits f tally tally') Hx) as [Hc ->] end.
  match goal with Hx : validateSkillPath _ _ _ = Ok _ |- _ => apply validateSkillPath_sound in Hx as Hpath end.
  split; [|done]. split; cbn [path content executable].
  - exists rawPath. unfold field_text. by rewrite Ep.
  - unfold field_text. by rewrite Ec.
  - done.
  - unfold field_true. by destruct (obj_get props (js "executable")) as [| |[]| | | |]; simplify_eq/=.
Qed.
Lemma byte_size_nonneg f : 0 <= byte_size f.
Proof. unfold byte_size. lia. Qed.
Lemma total_bytes_nonneg fs : 0 <= total_bytes fs.
Proof. unfold total_bytes. induction fs as [|f fs IH]; cbn; [done|]. pose proof (byte_size_nonneg f). lia. Qed.
Lemma files_within_cons limits tally f fs : pathKey (path f) ∉ ty_keys tally -> counts limits f tally ->
  files_within limits (counted f tally) fs -> files_within limits tally (f :: fs).
Proof.
  intros Hk (Hf & He & Hb) [H1 H2 H3 H4 H5]. unfold counted in *. cbn in H2, H3, H5. split.
  - by constructor.
  - right. unfold total_bytes in *. cbn. destruct H2 as [->|H2]; cbn; lia.
  - unfold binary_files in *. cbn [List.filter]. destruct (isBinaryBytes (file_bytes f)); [|done]. right.
    specialize (Hb eq_refl). unfold total_bytes in *. cbn [length fmap list_fmap foldr]. destruct H3 as [->|H3]; cbn; lia.
  - cbn [fmap list_fmap]. constructor; [|done]. intros Hin. apply list_elem_of_fmap in Hin as (g & Hg & Hin).
    rewrite Forall_forall in H5. apply (H5 g Hin). cbn in Hg. rewrite <- Hg. by left.
  - constructor; [done|]. eapply Forall_impl; [exact H5|]. intros g Hg Hin. apply Hg. by right.
Qed.
Lemma files_within_inv limits tally f fs : files_within limits tally (f :: fs) ->
  pathKey (path f) ∉ ty_keys tally /\ counts limits f tally /\ files_within limits (counted f tally) fs.
Proof.
  intros [H1 H2 H3 H4 H5]. apply Forall_cons in H1 as [Hf H1]. cbn [fmap list_fmap] in H4.
  apply NoDup_cons in H4 as [Hn H4]. apply Forall_cons in H5 as [Hk H5]. destruct H2 as [?|H2]; [done|].
  unfold total_bytes, binary_files in *. cbn [fmap list_fmap foldr List.filter] in *.
  pose proof (total_bytes_nonneg fs). pose proof (total_bytes_nonneg (binary_files fs)).
  unfold total_bytes, binary_files in *. split; [done|]. split.
  - split; [done|]. split; [lia|]. intros Hb. rewrite Hb in H3. destruct H3 as [?|H3]; [done|]. cbn in H3. lia.
  - unfold counted. split; cbn.
    + done.
    + right. unfold total_bytes. lia.
    + unfold binary_files, total_bytes. destruct (isBinaryBytes (file_bytes f)).
      * destruct H3 as [?|H3]; [done|]. cbn in H3. right. lia.
      * exact H3.
    + done.
    + apply Forall_forall. intros g Hg. rewrite Forall_forall in H5. intros [Heq|Hin]%elem_of_cons; [|by apply (H5 g Hg)].
      apply Hn. apply list_elem_of_fmap. exists g. split; [by symmetry|done].
Qed.
Lemma acquire_files_sound limits l tally fs : acquire_files limits tally l = Ok fs ->
  Forall2 (acquired_file limits) l fs /\ files_within limits tally fs.
Proof.
  revert tally fs. induction l as [|v l IH]; intros tally fs H; cbn [acquire_files] in H.
  { ok_inv. split; [constructor|]. split; [constructor|by left|by left|constructor|constructor]. }
  destruct (acquire_file limits tally v) as [[f tally']|e] eqn:Ef; [|done]. cbn [rbind] in H. ok_inv.
  apply acquire_file_sound in Ef as (Hf & Hk & Hc & ->).
  match goal with Hx : acquire_files _ _ _ = Ok _ |- _ => destruct (IH _ _ Hx) as [H2 Hw] end.
  split; [by constructor|]. by apply files_within_cons.
Qed.

(** What the acquisition promises of a bundle. *)
Record acquired_bundle (limits : AcquisitionLimits) (l : list jsval) (fs : list BundleFile) : Prop := {
  ab_count : Z.of_nat (length fs) <= maxFiles limits;
  ab_files : exists read, Forall2 (acquired_file limits) l read /\ fs = js_sort comparePaths read;
  ab_within : files_within limits empty_tally fs;
  ab_skill : exists f, f ∈ fs /\ path f = js "SKILL.md";
}.
Lemma sum_perm (l l' : list Z) : l ≡ₚ l' -> foldr Z.add 0 l = foldr Z.add 0 l'.
Proof. induction 1; cbn; lia. Qed.
Lemma total_bytes_perm fs fs' : fs ≡ₚ fs' -> total_bytes fs = total_bytes fs'.
Proof. intros H. unfold total_bytes. apply sum_perm. by rewrite H. Qed.
Lemma binary_files_perm fs fs' : fs ≡ₚ fs' -> binary_files fs ≡ₚ binary_files fs'.
Proof.
  unfold binary_files. induction 1 as [|f l l' _ IH|f g l|l l1 l2 _ IH1 _ IH2]; cbn [List.filter].
  - done.
  - case_match; by rewrite IH.
  - repeat case_match; try done. by constructor.
  - by rewrite IH1.
Qed.
Lemma files_within_perm limits tally fs fs' : fs ≡ₚ fs' -> files_within limits tally fs -> files_within limits tally fs'.
Proof.
  intros Hp [H1 H2 H3 H4 H5]. split.
  - by rewrite <- Hp.
  - destruct H2 as [->|H2]; [left; by apply Permutation_nil_l in Hp|]. right. by rewrite <- (total_bytes_perm _ _ Hp).
  - pose proof (binary_files_perm _ _ Hp) as Hb. destruct H3 as [H3|H3].
    + left. rewrite H3 in Hb. by apply Permutation_nil_l in Hb.
    + right. by rewrite <- (total_bytes_perm _ _ Hb), <- Hb.
  - by rewrite <- Hp.
  - by rewrite <- Hp.
Qed.
Lemma validate_bundle_sound limits v b : validate_bundle_within limits v = Ok b ->
  exists props l, v = JObj props /\ obj_get props (js "files") = JArr l /\ acquired_bundle limits l (files b).
Proof.
  unfold validate_bundle_within. intros H. destruct v as [| | | | | |props]; try done. ok_inv.
  destruct (obj_get props (js "files")) as [| | | | |l|] eqn:El; try done. ok_inv. bool_inv. cbn [files].
  match goal with Hx : acquire_files _ _ _ = Ok ?r |- _ => rename r into fs; apply acquire_files_sound in Hx as [H2 Hw] end.
  match goal with Hx : existsb _ fs = true |- _ => apply existsb_exists in Hx as (f & Hf & Hp) end.
  apply list_elem_of_In in Hf. apply jeqb_true in Hp. exists props, l. split; [done|]. split; [done|].
  assert (Hperm : js_sort comparePaths fs ≡ₚ fs) by apply js_sort_perm. split.
  - rewrite Hperm. by rewrite <- (Forall2_length _ _ _ H2).
  - by exists fs.
  - by apply (files_within_perm _ _ fs).
  - exists f. by rewrite Hperm.
Qed.
End Files.

(** ** Storage accepts what the acquisition accepts *)

(** Limits not above those of the storage package; the default ones are equal
    to them. *)
Record storable_limits (limits : AcquisitionLimits) : Prop := {
  sl_path : maxPathBytes limits <= 4096;
  sl_files : maxFiles limits <= MAX_BUNDLE_FILES;
  sl_file : maxFileBytes limits <= MAX_FILE_BYTES;
  sl_total : maxExpandedBytes limits <= MAX_BUNDLE_BYTES;
}.
Lemma default_limits_storable : storable_limits DEFAULT_ACQUISITION_LIMITS.
Proof. split; by apply (bool_decide_unpack _); vm_compute. Qed.

Section Stored.
Context {U : UnicodeTables} {UP : UpperTable} {SL : SegmentLaws U UP}.

Lemma decoded_byte_size f : isCanonicalBase64 (content f) = true ->
  decoded_size f = byte_size f /\ exists bytes, wf_bytes bytes /\ content f = btoa bytes /\ byte_size f = jlen bytes.
Proof.
  intros [Hw Hc]%canonical_content. unfold decoded_size, byte_size, file_bytes. split.
  - rewrite Hc at 1. by rewrite atob_btoa.
  - by exists (bufferFromBase64 (content f)).
Qed.
Lemma acquired_file_spec limits v f : storable_limits limits -> acquired_file limits v f -> file_within limits f ->
  wf_jstr (path f) -> short_segments (path f) -> file_spec f (decoded_size f).
Proof.
  intros [Hl _ Hs _] [(input & _ & Hp) _ Hc Hx] [Hb _] Hw Hsh.
  destruct (decoded_byte_size f Hc) as [-> Hbytes]. split; try done.
  - by eapply acquired_path_safe.
  - by eapply acquired_path_not_plugin.
  - rewrite Hx. destruct (field_true _ _); auto.
  - lia.
Qed.
Lemma wf_field_text v key s : wf_value v -> field_text v key = Some s -> wf_jstr s.
Proof.
  intros Hv H. unfold field_text in H. destruct v as [| | | | | |props]; try done.
  pose proof (wf_value_get props (js key) Hv) as Hg. destruct (obj_get props (js key)); simplify_eq. exact Hg.
Qed.
Lemma acquired_file_wf limits v f : wf_value v -> acquired_file limits v f -> wf_jstr (path f).
Proof.
  intros Hv [(input & Hi & Hp) _ _ _]. rewrite (ap_normal _ _ _ _ Hp). apply nfc_units. by eapply wf_field_text.
Qed.
Lemma acquired_bundle_spec limits l fs : storable_limits limits -> Forall wf_value l -> acquired_bundle limits l fs ->
  Forall (short_segments ∘ path) fs -> bundle_spec fs /\ Forall (wf_jstr ∘ path) fs.
Proof.
  intros Hl Hv [Hc (read & Hr & Hf) [H1 H2 H3 H4 H5] (s & Hs & _)] Hsh.
  assert (Hread : forall f, f ∈ fs -> exists v, v ∈ l /\ acquired_file limits v f).
  { intros f Hin. rewrite Hf, js_sort_perm in Hin. apply list_elem_of_lookup in Hin as [i Hi].
    destruct (Forall2_lookup_r _ _ _ _ _ Hr Hi) as (v & Hv' & Ha). exists v. split; [by eapply list_elem_of_lookup_2|done]. }
  rewrite Forall_forall in Hv. rewrite Forall_forall in Hsh. rewrite Forall_forall in H1.
  assert (Hwf : forall f, f ∈ fs -> wf_jstr (path f)).
  { intros f Hin. destruct (Hread f Hin) as (v & Hin' & Ha). eapply acquired_file_wf; eauto. }
  assert (Hspec : forall f, f ∈ fs -> file_spec f (decoded_size f)).
  { intros f Hin. destruct (Hread f Hin) as (v & Hin' & Ha). eapply acquired_file_spec; [done|exact Ha|..]; eauto.
    by apply Hsh. }
  split; [|by apply Forall_forall]. destruct Hl as [_ Hl1 _ Hl2]. split.
  - intros ->. by apply elem_of_nil in Hs.
  - lia.
  - by apply Forall_forall.
  - assert (decoded_size <$> fs = byte_size <$> fs) as ->.
    { apply map_ext_in. intros f Hin. apply list_elem_of_In in Hin.
      destruct (Hread f Hin) as (v & _ & [_ _ Hcan _]). by apply decoded_byte_size. }
    destruct H2 as [->|H2]; [by apply elem_of_nil in Hs|]. unfold total_bytes in H2. cbn in H2. lia.
  - exact H4.
Qed.

(** *** The acquisition accepts what it returned *)

Lemma acquired_part_accepted part : acquired_part part -> unsafe_part part = false /\ device_segment part = false.
Proof.
  intros [H1 H2 H3 [H4 H4'] H5 H6 H7]. split; [|done]. unfold unsafe_part. rewrite H4, H4', H6.
  rewrite (proj2 (includes_single _ _)) by done.
  by rewrite (proj2 (jeqb_false _ _) H1), (proj2 (jeqb_false _ _) H2), (proj2 (jeqb_false _ _) H3).
Qed.
Lemma acquired_path_chars limits reject input p : acquired_path limits reject input p ->
  Forall (fun c => is_control c || (c =? 92) = false) p /\ 58 ∉ p.
Proof.
  intros [Hn Hc _ _ Hp _]. split.
  - apply Forall_forall. intros c Hin. destruct (is_control c || (c =? 92)) eqn:E; [|done]. subst p.
    pose proof (nfc_no_control _ _ Hin E) as Hin'. rewrite Forall_forall in Hc. specialize (Hc c Hin'). congruence.
  - intros Hin. destruct (elem_of_join_split 47 p 58 Hin) as [?|(part & Hpart & Hin')]; [done|].
    rewrite Forall_forall in Hp. by apply (part_no_colon _ (Hp _ Hpart)).
Qed.
Lemma acquired_path_accepted limits input p : acquired_path limits true input p -> validateSkillPath p limits true = Ok p.
Proof.
  intros Hp. pose proof (acquired_path_chars _ _ _ _ Hp) as [Hchars Hcolon]. destruct Hp as [Hn _ Hu Hb Hp Hr].
  assert (Hne : [] ∉ split 47 p).
  { intros Hin. rewrite Forall_forall in Hp. by apply (part_nonempty _ (Hp _ Hin)). }
  assert (Hclean : forall c, c ∈ p -> is_control c = false /\ c <> 92).
  { intros c Hin. rewrite Forall_forall in Hchars. specialize (Hchars c Hin). apply orb_false_iff in Hchars as [? ?].
    by bool_inv. }
  unfold validateSkillPath.
  destruct p as [|c0 r0] eqn:Ep; [exfalso; apply Hne; by left|]. rewrite <- Ep in *.
  rewrite (proj2 (Z.eqb_neq _ _)) by (rewrite Ep; unfold jlen; cbn; lia).
  assert (hasLoneSurrogate p = false) as -> by (rewrite Hn; by apply nfc_surrogates).
  rewrite (proj2 (includes_single 0 p)) by (intros Hin; by destruct (Hclean _ Hin)).
  rewrite (proj2 (includes_single 92 p)) by (intros Hin; by destruct (Hclean _ Hin)).
  assert (CONTROL_CHARACTER p = false) as ->.
  { apply existsb_false_Forall, Forall_forall. intros c Hin. by destruct (Hclean c Hin). }
  assert (Hstart : startsWith [47] p = false /\ startsWith [47; 47] p = false).
  { assert (startsWith [47] p = false) as H by (apply not_true_iff_false; intros ?; apply Hne, split_empty_segment; auto).
    split; [done|]. apply not_true_iff_false. intros [r Hr']%startsWith_spec. apply not_true_iff_false in H. apply H.
    apply startsWith_spec. exists (47 :: r). by rewrite Hr'. }
  destruct Hstart as [-> ->].
  assert (drive_prefix p = false) as ->.
  { destruct p as [|a [|b r]]; [done|done|]. cbn. rewrite (proj2 (Z.eqb_neq b 58)); [by rewrite andb_false_r|].
    intros ->. apply Hcolon. right. by left. }
  assert (normalizeNFC p = p) as -> by (rewrite Hn; apply nfc_idempotent).
  cbn [orb]. rewrite (proj2 (Z.ltb_ge _ _)) by done.
  assert (existsb unsafe_part (split 47 p) = false) as ->.
  { apply existsb_false_Forall. eapply Forall_impl; [exact Hp|]. intros part H. by apply acquired_part_accepted. }
  assert (existsb device_segment (split 47 p) = false) as ->.
  { apply existsb_false_Forall. eapply Forall_impl; [exact Hp|]. intros part H. by apply acquired_part_accepted. }
  by rewrite (Hr eq_refl).
Qed.
Lemma acquire_file_accepted limits v f tally : acquired_file limits v f -> counts limits f tally ->
  pathKey (path f) ∉ ty_keys tally -> ty_keys tally = pathKey <$> ty_seen tally ->
  acquire_file limits tally (file_value f) = Ok (f, counted f tally).
Proof.
  intros [(input & _ & Hp) _ Hc Hx] Hcounts Hk Hseen. destruct (obj_get_path f) as (props & Hv & Hkeys & Hgp & Hgc & Hgx).
  unfold acquire_file. rewrite Hv, Hgp, Hgc, Hgx.
  assert (keys_within props FILE_KEYS = true) as ->.
  { unfold file_value, file_data in Hv. destruct (executable f); cbn in Hv; injection Hv as <-; by vm_compute. }
  cbn [negb]. rewrite (acquired_path_accepted _ _ _ Hp). cbn [rbind].
  rewrite !bool_decide_false.
  - cbn [orb]. rewrite Hc. cbn [negb].
    pose proof (proj2 (count_file_iff limits f tally (counted f tally)) (conj Hcounts eq_refl)) as Hcount.
    unfold file_bytes in Hcount. rewrite Hcount. cbn [rbind].
    destruct f as [p c e]; cbn in Hx; subst e. by destruct (field_true _ _).
  - intros Hin. apply Hk. rewrite Hseen. apply list_elem_of_fmap. by exists (path f).
  - done.
Qed.
Lemma acquire_files_accepted limits fs tally : Forall (fun f => exists v, acquired_file limits v f) fs ->
  files_within limits tally fs -> ty_keys tally = pathKey <$> ty_seen tally ->
  acquire_files limits tally (file_value <$> fs) = Ok fs.
Proof.
  intros Hf. revert tally. induction Hf as [|f fs (v & Hv) _ IH]; intros tally Hw Hs; [done|].
  apply files_within_inv in Hw as (Hk & Hc & Hw). cbn [fmap list_fmap acquire_files].
  rewrite (acquire_file_accepted limits v f tally) by done. cbn [rbind].
  by rewrite IH by (done || (cbn; by rewrite Hs)).
Qed.
Lemma acquired_bundle_accepted limits l fs : acquired_bundle limits l fs ->
  validate_bundle_within limits (bundle_value {| files := fs |}) = Ok {| files := fs |}.
Proof.
  intros [Hc (read & Hr & Hf) Hw (s & Hs & Hp)].
  assert (Hk : forall props, bundle_value {| files := fs |} = JObj props -> keys_within props BUNDLE_KEYS = true)
    by (intros props H; injection H as <-; done).
  destruct (bundle_value_files fs) as (props & Hprops & _ & Hfmt & Hl). specialize (Hk _ Hprops).
  unfold validate_bundle_within. rewrite Hprops, Hfmt, Hl, Hk, jeqb_refl, length_fmap. cbn [negb].
  rewrite (proj2 (Z.ltb_ge _ _)) by done. rewrite (acquire_files_accepted limits fs empty_tally); cbn [rbind].
  - assert (existsb (fun file => jeqb (path file) (js "SKILL.md")) fs = true) as ->.
    { apply existsb_exists. exists s. split; [by apply list_elem_of_In|]. by apply jeqb_true. }
    cbn [negb]. rewrite js_sort_id; [done|]. rewrite Hf. apply comparePaths_sorted.
  - rewrite Hf, js_sort_perm. apply Forall_forall. intros f [i Hi]%list_elem_of_lookup.
    destruct (Forall2_lookup_r _ _ _ _ _ Hr Hi) as (v & _ & Ha). by exists v.
  - done.
  - done.
Qed.

(** Storage keeps the files of an acquired bundle as they are. *)
Lemma acquired_files_stored l fs : Forall wf_value l -> acquired_bundle DEFAULT_ACQUISITION_LIMITS l fs ->
  Forall (short_segments ∘ path) fs ->
  validateBundle (bundle_value {| files := fs |}) = Ok {| files := fs |} /\
  exists bytes, serializeSkillBundle {| files := fs |} = Ok bytes /\ encodeBundle (bundle_value {| files := fs |}) = Ok bytes /\
    decodeBundle bytes = Ok {| files := fs |}.
Proof.
  intros Hw Ha Hs.
  destruct (acquired_bundle_spec _ l fs default_limits_storable Hw Ha Hs) as [Hspec Hwf].
  pose proof (validateBundle_complete fs Hspec) as Hval. split; [done|].
  assert (Hsorted : js_sort comparePaths fs = fs).
  { destruct Ha as [_ (read & _ & ->) _ _]. apply js_sort_id, comparePaths_sorted. }
  exists (textEncode (wire_text fs)). split; [|split].
  - unfold serializeSkillBundle. change (validateSkillBundle (bundle_value {| files := fs |}) [])
      with (validate_bundle_within DEFAULT_ACQUISITION_LIMITS (bundle_value {| files := fs |})).
    rewrite (acquired_bundle_accepted _ l fs Ha). cbn [rbind files]. unfold wire_text. by rewrite Hsorted.
  - by apply (encodeBundle_Ok _ {| files := fs |}).
  - rewrite decode_wire by done. by rewrite Hsorted.
Qed.

(** C28. The registry stores an acquired bundle as it is: when its limits are not
    above the storage limits and no path segment is longer than 255 bytes,
    [validateBundle] accepts the bundle of [validateSkillBundle] unchanged, the
    bytes of [serializeSkillBundle] are those of [encodeBundle], and
    [decodeBundle] gives the bundle back. *)
Theorem acquired_bundle_stored (v : jsval) (b : SkillBundle) :
  wf_value v -> validateSkillBundle v [] = Ok b -> Forall (short_segments ∘ path) (files b) ->
  validateBundle (bundle_value b) = Ok b /\
  exists bytes, serializeSkillBundle b = Ok bytes /\ encodeBundle (bundle_value b) = Ok bytes /\
    decodeBundle bytes = Ok b.
Proof.
  intros Hv Hb Hs. change (validate_bundle_within DEFAULT_ACQUISITION_LIMITS v = Ok b) in Hb.
  apply validate_bundle_sound in Hb as (props & l & -> & Hl & Ha). destruct b as [fs]. cbn [files] in *.
  apply (acquired_files_stored l); [|done..].
  pose proof (wf_value_get props (js "files") Hv) as Hg. rewrite Hl in Hg. clear -Hg. induction l as [|x l IH]; [constructor|].
  destruct Hg as [? ?]. constructor; auto.
Qed.
End Stored.

(** ** A bundle *)

Definition demo_acquired : SkillBundle :=
  {| files := [ {| path := js "SKILL.md"; content := js "LS0tCm5hbWU6IGEKLS0tCg=="; executable := None |};
                {| path := js "scripts/run.sh"; content := js "ZWNobyBoaQ=="; executable := Some true |} ] |}.
Lemma acquired_bundle_stored_witness :
  validateSkillBundle (U := ascii_tables) (UP := ascii_upper_table) (bundle_value demo_bundle) [] = Ok demo_acquired /\
  exists bytes, serializeSkillBundle (U := ascii_tables) (UP := ascii_upper_table) demo_acquired = Ok bytes /\
    encodeBundle (U := ascii_tables) (bundle_value demo_acquired) = Ok bytes /\
    decodeBundle (U := ascii_tables) bytes = Ok demo_acquired.
Proof.
  assert (H : validateSkillBundle (U := ascii_tables) (UP := ascii_upper_table) (bundle_value demo_bundle) [] =
            Ok demo_acquired) by (vm_compute; reflexivity).
  split; [exact H|].
  apply (acquired_bundle_stored (U := ascii_tables) (UP := ascii_upper_table) (bundle_value demo_bundle) demo_acquired).
  - repeat (split || apply Forall_nil || (apply Forall_cons; split)); apply (bool_decide_unpack _); vm_compute; exact I.
  - exact H.
  - repeat (apply Forall_nil || (apply Forall_cons; split)); apply (bool_decide_unpack _); vm_compute; exact I.
Defined.
(** Storage bounds the length of a path segment, the acquisition does not. *)
Definition long_name : jstr := replicate 256 97 ++ js ".md".
Example long_segment_acquired :
  validateSkillPath (U := ascii_tables) (UP := ascii_upper_table) long_name DEFAULT_ACQUISITION_LIMITS true = Ok long_name.
Proof. vm_compute. reflexivity. Qed.
Example long_segment_not_stored :
  validatePath (U := ascii_tables) (JStr long_name) 0 = Err (bundle_error path_too_long long_name).
Proof. vm_compute. reflexivity. Qed.
