(* ===== verification/TarFormat.v ===== *)
(** * The tar reader reads the ustar format

    A reference writer of the ustar format, and the theorem that
    [extractTarArchive] reads back what it writes. *)

From Stdlib Require Import ZArith Lia.
From stdpp Require Import base list sorting strings sets.
From S2P Require Import Prelude Js Json Names Numbers Web Bundle Acquire Archive AcquireSafety ArchiveSafety.

Local Open Scope Z_scope.

(** ** The reference writer *)

(** The last [width] octal digits of a number. *)
Fixpoint octal_digits (width : nat) (n : Z) : list Z :=
  match width with
  | O => []
  | S width => octal_digits width (n / 8) ++ [48 + n mod 8]
  end.
Definition zeros (n : nat) : list Z := replicate n 0.
Definition name_field (name : jstr) : list Z := textEncode name ++ zeros (100 - length (textEncode name)).
(** The fields before the checksum: name, mode, owner, group, size, time. *)
Definition ustar_before (name : jstr) (size : Z) : list Z :=
  name_field name ++ (octal_digits 7 420 ++ [0]) ++ (octal_digits 7 0 ++ [0]) ++ (octal_digits 7 0 ++ [0]) ++
  (octal_digits 11 size ++ [0]) ++ (octal_digits 11 0 ++ [0]).
(** The fields after it: type, link name, magic, version, user, group and
    device names, prefix and padding. *)
Definition ustar_after : list Z := [0x30] ++ zeros 100 ++ (USTAR ++ [0]) ++ [48; 48] ++ zeros 80 ++ zeros 155 ++ zeros 12.
Definition ustar_header (name : jstr) (size : Z) : list Z :=
  ustar_before name size ++
  (octal_digits 6 (sum_bytes (ustar_before name size) + 8 * 32 + sum_bytes ustar_after) ++ [0; 32]) ++ ustar_after.
Definition ustar_entry (file : jstr * list Z) : list Z :=
  let size := byte_length file.2 in
  ustar_header file.1 size ++ file.2 ++ zeros (tar_blocks size - length file.2).
Definition ustar_archive (files : list (jstr * list Z)) : list Z :=
  concat (ustar_entry <$> files) ++ zeros 1024.

(** ** Fields *)

Lemma octal_digits_length width n : length (octal_digits width n) = width.
Proof. revert n. induction width as [|w IH]; intros n; cbn; [done|]. rewrite length_app, IH. cbn. lia. Qed.
Lemma octal_digits_range width n : Forall (fun d => 48 <= d <= 55) (octal_digits width n).
Proof.
  revert n. induction width as [|w IH]; intros n; cbn; [constructor|]. apply Forall_app. split; [apply IH|].
  repeat constructor; pose proof (Z.mod_pos_bound n 8); lia.
Qed.
Lemma octal_value_app acc d d' : octal_value acc (d ++ d') = rbind (octal_value acc d) (fun v => octal_value v d').
Proof.
  revert acc. induction d as [|x d IH]; intros acc; [done|]. cbn [app octal_value]. repeat case_match; try done.
  all: cbn [rbind]; try done. all: apply IH.
Qed.
Lemma octal_value_digits width n : 0 <= n < 8 ^ Z.of_nat width -> n <= MAX_SAFE_INTEGER ->
  octal_value 0 (octal_digits width n) = Ok n.
Proof.
  revert n. induction width as [|w IH]; intros n Hn Hm.
  { cbn in *. f_equal. lia. }
  rewrite Nat2Z.inj_succ, Z.pow_succ_r in Hn by lia. cbn [octal_digits]. rewrite octal_value_app, IH by dlia.
  cbn [rbind octal_value]. replace (48 + n mod 8 - 48) with (n mod 8) by lia.
  pose proof (Z.mod_pos_bound n 8). rewrite (proj2 (Z.ltb_ge _ _)), (proj2 (Z.ltb_ge 7 _)) by lia. cbn [orb].
  replace (n / 8 * 8 + n mod 8) with n by dlia. by rewrite (proj2 (Z.ltb_ge _ _)).
Qed.
Lemma skip_pad_digits l r : Forall (fun d => 48 <= d <= 55) l -> l <> [] -> skip_pad (l ++ r) = l ++ r.
Proof.
  intros Hl Hne. destruct Hl as [|d l Hd Hl]; [done|]. cbn [app skip_pad].
  assert (tar_pad d = false) as ->; [|done]. unfold tar_pad. apply orb_false_iff. split; apply Z.eqb_neq; lia.
Qed.
Lemma skip_pad_pads p l : Forall (fun d => tar_pad d = true) p -> skip_pad (p ++ l) = skip_pad l.
Proof. induction 1 as [|d p Hd _ IH]; [done|]. cbn [app skip_pad]. by rewrite Hd. Qed.
Lemma subarray_middle (a b c : list Z) start size : length a = start -> length b = size ->
  subarray (a ++ b ++ c) start size = b.
Proof. intros <- <-. unfold subarray. by rewrite drop_app_length, take_app_length. Qed.
(** An octal field of digits and padding. *)
Lemma readTarOctal_field a c p width n start size :
  length a = start -> (width + length p)%nat = size -> (0 < width)%nat -> Forall (fun d => tar_pad d = true) p ->
  0 <= n < 8 ^ Z.of_nat width -> n <= MAX_SAFE_INTEGER ->
  readTarOctal (a ++ (octal_digits width n ++ p) ++ c) start size = Ok n.
Proof.
  intros Ha Hs Hw Hp Hn Hm. unfold readTarOctal.
  rewrite subarray_middle by (done || rewrite length_app, octal_digits_length; lia).
  assert (Hne : octal_digits width n <> []) by (intros H; apply (f_equal length) in H; rewrite octal_digits_length in H; cbn in H; lia).
  rewrite reverse_app, skip_pad_pads by by apply Forall_reverse.
  rewrite <- (app_nil_r (reverse (octal_digits width n))), skip_pad_digits.
  - rewrite app_nil_r, reverse_involutive. rewrite <- (app_nil_r (octal_digits width n)), skip_pad_digits, app_nil_r; [|apply octal_digits_range|done].
    by apply octal_value_digits.
  - apply Forall_reverse, octal_digits_range.
  - intros H. apply Hne. by rewrite <- (reverse_involutive (octal_digits width n)), H.
Qed.

(** ** Names *)

Lemma code_points_nonzero s : wf_jstr s -> 0 ∉ s -> 0 ∉ code_points s.
Proof.
  unfold wf_jstr. induction s as [|c|c d r IH1 IH2] using list_pair_ind; intros Hw H0; [done|..].
  - rewrite code_points_unfold. intros Heq%list_elem_of_singleton. subst. apply H0. by left.
  - rewrite code_points_unfold. inversion_clear Hw as [|? ? Hc Hw']. inversion Hw' as [|? ? Hd Hr]; subst.
    destruct (is_high c && is_low d) eqn:E; intros [Heq|Hin]%elem_of_cons.
    + bool_inv. range_inv. unfold combine_surrogates in Heq. lia.
    + apply (IH1 Hr); [|done]. intros ?. apply H0. right. by right.
    + apply H0. subst. by left.
    + apply (IH2 Hw'); [|done]. intros ?. apply H0. by right.
Qed.
Lemma textEncode_nonzero s : wf_jstr s -> well_formed s = true -> 0 ∉ s -> Forall (fun b => 0 < b < 256) (textEncode s).
Proof.
  intros Hw Hs H0. rewrite textEncode_well_formed by done. pose proof (code_points_scalar s Hw Hs) as Hsc.
  pose proof (code_points_nonzero s Hw H0) as Hne. apply Forall_concat, Forall_fmap, Forall_forall. intros cp Hin.
  rewrite Forall_forall in Hsc. destruct (Hsc cp Hin) as [Hr _]. assert (cp <> 0) by (intros ->; done). cbn. unfold utf8_of_cp.
  repeat case_match; bool_inv; repeat constructor; dlia.
Qed.
Lemma until_zero_app l n : Forall (fun b => 0 < b < 256) l -> until_zero (l ++ zeros n) = l.
Proof.
  induction 1 as [|b l Hb _ IH]; [by destruct n|]. cbn [app until_zero]. rewrite (proj2 (Z.eqb_neq _ _)) by lia. by rewrite IH.
Qed.
Lemma trimStart_length s : (length (trimStart s) <= length s)%nat.
Proof. induction s as [|c s IH]; cbn; [done|]. case_match; cbn; lia. Qed.
Lemma trim_no_bom s : trim s = s -> forall r, s <> 0xfeff :: r.
Proof.
  intros Ht r ->. apply (f_equal length) in Ht. unfold trim in Ht. rewrite length_reverse in Ht.
  pose proof (trimStart_length (reverse (trimStart (0xfeff :: r)))) as H. rewrite length_reverse in H.
  change (trimStart (0xfeff :: r)) with (trimStart r) in *. pose proof (trimStart_length r). cbn [length] in Ht. lia.
Qed.

(** ** Headers *)

Lemma sum_bytes_app l l' : sum_bytes (l ++ l') = sum_bytes l + sum_bytes l'.
Proof. unfold sum_bytes. induction l; cbn; lia. Qed.
Lemma sum_bytes_bound l : wf_bytes l -> 0 <= sum_bytes l <= 255 * Z.of_nat (length l).
Proof. unfold wf_bytes, sum_bytes. induction 1 as [|b l Hb _ IH]; cbn -[Z.mul]; lia. Qed.
Lemma zeros_wf n : wf_bytes (zeros n).
Proof. unfold wf_bytes, zeros. apply Forall_replicate. lia. Qed.
Lemma octal_digits_wf width n : wf_bytes (octal_digits width n).
Proof. eapply Forall_impl; [apply octal_digits_range|]. cbn. intros; lia. Qed.
Lemma zeros_pad n : Forall (fun d => tar_pad d = true) (zeros n).
Proof. by apply Forall_replicate. Qed.

(** A name a header can hold: a path the readers accept as it is, without
    spaces around it. *)
Record tar_name (limits : AcquisitionLimits) {U : UnicodeTables} {UP : UpperTable} (name : jstr) : Prop := {
  tn_text : wf_jstr name /\ well_formed name = true;
  tn_length : (length (textEncode name) <= 100)%nat;
  tn_trim : trim name = name;
  tn_path : validateArchivePath limits name = Ok name;
}.

Section Reader.
Context {U : UnicodeTables} {UP : UpperTable} (limits : AcquisitionLimits).

Lemma tar_name_bytes name : tar_name limits name -> Forall (fun b => 0 < b < 256) (textEncode name).
Proof.
  intros [[Hw Hs] _ _ Hp]. apply textEncode_nonzero; [done|done|].
  unfold validateArchivePath in Hp. ok_step. rewrite !orb_false_iff in *. destruct_and!. by apply includes_single.
Qed.
Lemma name_field_length name : tar_name limits name -> length (name_field name) = 100%nat.
Proof. intros [_ H _ _]. unfold name_field, zeros. rewrite length_app, length_replicate. lia. Qed.
Lemma ustar_before_length name size : tar_name limits name -> length (ustar_before name size) = 148%nat.
Proof. intros H. unfold ustar_before. rewrite !length_app, !octal_digits_length, name_field_length by done. done. Qed.
Lemma ustar_before_wf name size : tar_name limits name -> wf_bytes (ustar_before name size).
Proof.
  intros H. unfold ustar_before, name_field, wf_bytes. rewrite !Forall_app. repeat split.
  all: try (apply octal_digits_wf); try apply zeros_wf; try (repeat constructor; lia).
  eapply Forall_impl; [by apply tar_name_bytes|]. cbn. intros; lia.
Qed.
Lemma ustar_header_length name size : tar_name limits name -> length (ustar_header name size) = 512%nat.
Proof.
  intros H. unfold ustar_header. rewrite !length_app, ustar_before_length, octal_digits_length by done. vm_compute. done.
Qed.
Lemma ustar_checksum name size : tar_name limits name ->
  tar_checksum (ustar_header name size) = sum_bytes (ustar_before name size) + 8 * 32 + sum_bytes ustar_after.
Proof.
  intros H. unfold tar_checksum, ustar_header. set (chk := octal_digits 6 _ ++ [0; 32]).
  assert (Hc : length chk = 8%nat) by (unfold chk; by rewrite length_app, octal_digits_length).
  rewrite take_app_length' by by rewrite ustar_before_length. rewrite app_assoc, drop_app_length'; [done|].
  rewrite length_app, ustar_before_length, Hc by done. done.
Qed.
Lemma ustar_checksum_field name size : tar_name limits name ->
  readTarOctal (ustar_header name size) 148 8 = Ok (tar_checksum (ustar_header name size)).
Proof.
  intros H. rewrite ustar_checksum by done. unfold ustar_header. apply readTarOctal_field; try done.
  - by apply ustar_before_length.
  - lia.
  - repeat constructor.
  - pose proof (sum_bytes_bound _ (ustar_before_wf name size H)) as Hs. rewrite ustar_before_length in Hs by done.
    assert (sum_bytes ustar_after = 703) as -> by by vm_compute. lia.
  - pose proof (sum_bytes_bound _ (ustar_before_wf name size H)) as Hs. rewrite ustar_before_length in Hs by done.
    assert (sum_bytes ustar_after = 703) as -> by by vm_compute. unfold MAX_SAFE_INTEGER. lia.
Qed.
(** A header, split around a field. *)
Lemma ustar_size_field name size : tar_name limits name -> 0 <= size < 8 ^ 11 ->
  readTarOctal (ustar_header name size) 124 12 = Ok size.
Proof.
  intros H Hs. unfold ustar_header, ustar_before at 1.
  set (chk := octal_digits 6 _ ++ [0; 32]).
  match goal with |- readTarOctal ((?n ++ ?a ++ ?b ++ ?c ++ ?d ++ ?e) ++ chk ++ ustar_after) _ _ = _ =>
    replace ((n ++ a ++ b ++ c ++ d ++ e) ++ chk ++ ustar_after) with ((n ++ a ++ b ++ c) ++ d ++ e ++ chk ++ ustar_after)
      by (by rewrite <- !app_assoc) end.
  apply readTarOctal_field; try done.
  - rewrite !length_app, !octal_digits_length, name_field_length by done. done.
  - lia.
  - repeat constructor.
  - unfold MAX_SAFE_INTEGER. lia.
Qed.
Lemma ustar_name_field name size : tar_name limits name -> readTarString (ustar_header name size) 0 100 = Ok name.
Proof.
  intros H. unfold readTarString, ustar_header, ustar_before at 1. set (chk := octal_digits 6 _ ++ [0; 32]).
  match goal with |- context [subarray ((name_field name ++ ?a) ++ ?b) 0 100] =>
    replace ((name_field name ++ a) ++ b) with ([] ++ name_field name ++ (a ++ b)) by (apply (app_assoc (name_field name))) end.
  rewrite subarray_middle by (done || by apply name_field_length). unfold name_field.
  rewrite until_zero_app by by apply tar_name_bytes. destruct H as [[Hw Hs] _ Ht _].
  rewrite textDecode_textEncode by (done || by apply trim_no_bom). by rewrite Ht.
Qed.
Lemma ustar_prefix_field name size : tar_name limits name -> readTarString (ustar_header name size) 345 155 = Ok [].
Proof.
  intros H. unfold readTarString, ustar_header. set (chk := octal_digits 6 _ ++ [0; 32]).
  replace (ustar_before name size ++ chk ++ ustar_after) with
    ((ustar_before name size ++ chk ++ [0x30] ++ zeros 100 ++ (USTAR ++ [0]) ++ [48; 48] ++ zeros 80) ++ zeros 155 ++ zeros 12)
    by (unfold ustar_after; by rewrite <- !app_assoc).
  rewrite subarray_middle; [by vm_compute| |done].
  rewrite !length_app, ustar_before_length by done. unfold chk. rewrite length_app, octal_digits_length. done.
Qed.
Lemma ustar_magic name size : tar_name limits name -> isTarHeaderMagic (ustar_header name size) = true.
Proof.
  intros H. unfold isTarHeaderMagic, ustar_header. set (chk := octal_digits 6 _ ++ [0; 32]).
  replace (ustar_before name size ++ chk ++ ustar_after) with
    ((ustar_before name size ++ chk ++ [0x30] ++ zeros 100) ++ (USTAR ++ [0]) ++ [48; 48] ++ zeros 80 ++ zeros 155 ++ zeros 12)
    by (unfold ustar_after; by rewrite <- !app_assoc).
  rewrite subarray_middle; [by vm_compute| |done].
  rewrite !length_app, ustar_before_length by done. unfold chk. rewrite length_app, octal_digits_length. done.
Qed.
Lemma ustar_type name size : tar_name limits name -> nth 156 (ustar_header name size) 0 = 0x30.
Proof.
  intros H. unfold ustar_header. set (chk := octal_digits 6 _ ++ [0; 32]). rewrite app_assoc, app_nth2.
  - rewrite length_app, ustar_before_length by done. unfold chk. rewrite length_app, octal_digits_length. done.
  - rewrite length_app, ustar_before_length by done. unfold chk. rewrite length_app, octal_digits_length. cbn. lia.
Qed.
Lemma ustar_header_nonzero name size : tar_name limits name -> all_zero (ustar_header name size) = false.
Proof.
  intros H. apply not_true_iff_false. intros Hz. unfold all_zero in Hz. rewrite forallb_forall in Hz.
  pose proof (ustar_type name size H) as Ht.
  assert (Hin : In (nth 156 (ustar_header name size) 0) (ustar_header name size)) by (apply nth_In; rewrite ustar_header_length by done; lia).
  apply Hz in Hin. by rewrite Ht in Hin.
Qed.
Lemma read_ustar_header name size : tar_name limits name ->
  0 <= size <= maxFileBytes limits -> size <= WELL_KNOWN_MAX_ARCHIVE_BYTES ->
  read_tar_header limits (ustar_header name size) = Ok {| th_path := name; th_size := size; th_type := 0x30 |}.
Proof.
  intros H Hs Hm. unfold read_tar_header. rewrite ustar_magic, ustar_checksum_field by done. cbn [negb rbind].
  rewrite Z.eqb_refl, ustar_name_field, ustar_prefix_field by done. cbn [negb rbind].
  rewrite ustar_size_field by (done || (unfold WELL_KNOWN_MAX_ARCHIVE_BYTES in Hm; lia)). cbn [rbind].
  rewrite !(proj2 (Z.ltb_ge _ _)) by lia. cbn [orb jeqb bool_decide]. by rewrite ustar_type.
Qed.

(** ** Archives *)

Variable includeDirectories : bool.
(** Files an archive can hold after some were read. *)
Record tar_files (files : list (jstr * list Z)) (seen : list jstr) (total : Z) : Prop := {
  tf_names : Forall (fun file => tar_name limits file.1) files;
  tf_sizes : Forall (fun file => byte_length file.2 <= Z.min (maxFileBytes limits) WELL_KNOWN_MAX_ARCHIVE_BYTES) files;
  tf_distinct : NoDup files.*1;
  tf_fresh : Forall (fun file => file.1 ∉ seen) files;
  tf_total : files = [] \/ total + foldr Z.add 0 ((fun file => byte_length file.2) <$> files) <= expanded_limit limits;
}.
Lemma tar_files_cons file files seen total : tar_files (file :: files) seen total ->
  tar_name limits file.1 /\ byte_length file.2 <= Z.min (maxFileBytes limits) WELL_KNOWN_MAX_ARCHIVE_BYTES /\
  file.1 ∉ seen /\ total + byte_length file.2 <= expanded_limit limits /\
  tar_files files (file.1 :: seen) (total + byte_length file.2).
Proof.
  intros [[H1 H1']%Forall_cons [H2 H2']%Forall_cons H3 [H4 H4']%Forall_cons H5]. cbn [fmap list_fmap] in H3.
  apply NoDup_cons in H3 as [H3 H3']. destruct H5 as [?|H5]; [done|]. cbn [fmap list_fmap foldr] in H5.
  assert (Hn : 0 <= foldr Z.add 0 ((fun f : jstr * list Z => byte_length f.2) <$> files)).
  { clear. induction files as [|f fs IH]; cbn; [done|]. unfold byte_length in *. lia. }
  split; [done|]. split; [done|]. split; [done|]. split; [lia|]. split; try done.
  - apply Forall_forall. intros f Hf [Heq|Hin]%elem_of_cons.
    + apply H3. rewrite <- Heq. apply list_elem_of_fmap. by exists f.
    + rewrite Forall_forall in H4'. by apply (H4' f Hf).
  - right. lia.
Qed.
Lemma tar_blocks_least size : 0 <= size -> (Z.to_nat size <= tar_blocks size)%nat.
Proof. intros H. unfold tar_blocks. apply Z2Nat.inj_le; dlia. Qed.
Lemma tar_entries_ustar files fuel seen total : tar_files files seen total -> (length files < fuel)%nat ->
  tar_entries limits includeDirectories fuel (ustar_archive files) seen total =
    Ok ((fun file => ArchiveFileEntry file.1 file.2) <$> files).
Proof.
  revert fuel seen total. induction files as [|[name bytes] files IH]; intros fuel seen total Hf Hfuel.
  { destruct fuel as [|fuel]; [lia|]. by vm_compute. }
  destruct fuel as [|fuel]; [cbn in Hfuel; lia|].
  apply tar_files_cons in Hf as (Hn & Hs & Hseen & Ht & Hf). cbn [fst snd] in *.
  assert (Hsize : 0 <= byte_length bytes) by (unfold byte_length; lia).
  pose proof (ustar_header_length name (byte_length bytes) Hn) as Hlen.
  assert (Harch : ustar_archive ((name, bytes) :: files) =
    ustar_header name (byte_length bytes) ++ (bytes ++ zeros (tar_blocks (byte_length bytes) - length bytes)) ++ ustar_archive files).
  { unfold ustar_archive, ustar_entry. cbn [fmap list_fmap concat fst snd]. by rewrite <- !app_assoc. }
  rewrite Harch. cbn [tar_entries]. rewrite length_app, Hlen, (proj2 (Nat.ltb_ge _ 512)) by lia.
  rewrite take_app_length' by done. rewrite drop_app_length' by done. rewrite ustar_header_nonzero by done.
  rewrite read_ustar_header by (done || lia). cbn [rbind th_size].
  assert (Hb : length (bytes ++ zeros (tar_blocks (byte_length bytes) - length bytes)) = tar_blocks (byte_length bytes)).
  { rewrite length_app. unfold zeros. rewrite length_replicate. pose proof (tar_blocks_least _ Hsize) as Hle.
    unfold byte_length at 1 in Hle. rewrite Nat2Z.id in Hle. lia. }
  rewrite length_app, Hb, (proj2 (Nat.ltb_ge _ _)) by lia. rewrite drop_app_length' by done.
  replace (Z.to_nat (byte_length bytes)) with (length bytes) by (unfold byte_length; lia). rewrite <- app_assoc, take_app_length.
  unfold tar_entry. cbn [th_type th_path]. change ((48 =? 0) || (48 =? 48)) with true. cbv iota.
  destruct Hn as [_ _ _ Hp]. unfold new_path. rewrite Hp. cbn [rbind]. rewrite bool_decide_false by done. cbn [rbind].
  fold (byte_length bytes). rewrite (proj2 (Z.ltb_ge _ _)) by done. cbn [rbind].
  rewrite IH by (done || (cbn in Hfuel; lia)). done.
Qed.
Lemma ustar_archive_length files : Forall (fun file => tar_name limits file.1) files ->
  (512 * length files <= length (ustar_archive files))%nat.
Proof.
  unfold ustar_archive. intros H. rewrite length_app. induction H as [|[n b] files Hn _ IH]; [cbn; lia|].
  cbn [fmap list_fmap concat]. rewrite length_app. unfold ustar_entry at 1. rewrite length_app, ustar_header_length by done.
  cbn [length]. lia.
Qed.

(** C29. Round trip of the tar reader: an archive of the ustar format, written
    with any files whose names fit a header and that are within the limits, is
    read back as exactly those files, in their order. *)
Theorem tar_round_trip (files : list (jstr * list Z)) :
  files <> [] -> tar_files files [] 0 ->
  extractTarArchive limits includeDirectories (ustar_archive files) =
    Ok ((fun file => ArchiveFileEntry file.1 file.2) <$> files).
Proof.
  intros Hne Hf. unfold extractTarArchive. rewrite (tar_entries_ustar files) with (seen := []) (total := 0).
  - cbn [rbind]. rewrite bool_decide_false; [done|]. intros H. by apply fmap_nil_inv in H.
  - done.
  - unfold tar_fuel. destruct Hf as [Hn _ _ _ _]. apply ustar_archive_length in Hn.
    apply Nat.lt_succ_r, Nat.div_le_lower_bound; lia.
Qed.
End Reader.

(** ** Fuel

    More rounds than the length of the archive allows for change nothing: the
    readers never stop for want of fuel. *)

Lemma pax_length_range acc digits v : 0 <= acc -> pax_length acc digits = Ok v -> 0 <= v.
Proof.
  revert acc. induction digits as [|d digits IH]; intros acc Ha H; cbn [pax_length] in H; [by injection H as <-|].
  ok_step. ok_step. bool_inv. eapply IH; [|exact H]. lia.
Qed.
Lemma pax_record_size bytes keys key size : pax_record bytes keys = Ok (key, size) -> (5 < size)%nat.
Proof.
  unfold pax_record. intros H. destruct (index_of_byte 32 bytes) as [space|]; [|done]. ok_step.
  destruct (pax_length 0 _) as [v|] eqn:Ev; [|done]. cbn [rbind] in H. do 2 ok_step.
  destruct (index_of_byte 61 _) as [[|e]|]; try done.
  destruct (textDecode _); [|done]. destruct (textDecode _); [|done]. ok_step.
  destruct (pax_metadata _ _); [|done]. injection H as _ <-. bool_inv. repeat match goal with Hx : (_ =? _)%nat = false |- _ => apply Nat.eqb_neq in Hx end. lia.
Qed.
Lemma pax_records_fuel fuel fuel' bytes keys : (length bytes <= fuel)%nat -> (length bytes <= fuel')%nat ->
  pax_records fuel bytes keys = pax_records fuel' bytes keys.
Proof.
  revert fuel' bytes keys. induction fuel as [|fuel IH]; intros fuel' bytes keys H H'.
  { destruct bytes; [by destruct fuel'|]. cbn in H. lia. }
  destruct bytes as [|b bytes]; [by destruct fuel'|]. destruct fuel' as [|fuel']; [cbn in H'; lia|]. cbn [pax_records].
  destruct (pax_record _ _) as [[key size]|] eqn:E; [|done]. cbn [rbind]. apply pax_record_size in E.
  apply IH; rewrite length_drop; cbn in *; lia.
Qed.
Lemma tar_entries_fuel {U : UnicodeTables} {UP : UpperTable} limits dirs fuel fuel' bytes seen total :
  (length bytes < 512 * fuel)%nat -> (length bytes < 512 * fuel')%nat ->
  tar_entries limits dirs fuel bytes seen total = tar_entries limits dirs fuel' bytes seen total.
Proof.
  revert fuel' bytes seen total. induction fuel as [|fuel IH]; intros fuel' bytes seen total H H'; [lia|].
  destruct fuel' as [|fuel']; [lia|]. cbn [tar_entries]. destruct (length bytes <? 512)%nat eqn:E; [done|].
  apply Nat.ltb_ge in E. destruct (all_zero _); [done|]. destruct (read_tar_header _ _) as [h|]; [|done]. cbn [rbind].
  destruct (_ <? _)%nat; [done|]. destruct (tar_entry _ _ _ _ _ _) as [[[es s] t]|]; [|done]. cbn [rbind].
  rewrite (IH fuel'); [done|..]; rewrite !length_drop; lia.
Qed.
Lemma tar_fuel_enough {U : UnicodeTables} {UP : UpperTable} limits dirs fuel bytes seen total :
  (tar_fuel bytes <= fuel)%nat ->
  tar_entries limits dirs fuel bytes seen total = tar_entries limits dirs (tar_fuel bytes) bytes seen total.
Proof.
  intros H. assert ((length bytes < 512 * tar_fuel bytes)%nat).
  { unfold tar_fuel. pose proof (Nat.mod_upper_bound (length bytes) 512 ltac:(done)).
    pose proof (Nat.div_mod_eq (length bytes) 512). lia. }
  apply tar_entries_fuel; lia.
Qed.

(** ** An archive *)

Definition demo_files : list (jstr * list Z) :=
  [(js "SKILL.md", [104; 101; 108; 108; 111]); (js "scripts/run.sh", [35; 33])].
Lemma tar_round_trip_witness :
  tar_files (U := ascii_tables) (UP := ascii_upper_table) DEFAULT_ACQUISITION_LIMITS demo_files [] 0 /\
  extractTarArchive (U := ascii_tables) (UP := ascii_upper_table) DEFAULT_ACQUISITION_LIMITS false (ustar_archive demo_files) =
    Ok [ArchiveFileEntry (js "SKILL.md") [104; 101; 108; 108; 111]; ArchiveFileEntry (js "scripts/run.sh") [35; 33]].
Proof.
  assert (H : tar_files (U := ascii_tables) (UP := ascii_upper_table) DEFAULT_ACQUISITION_LIMITS demo_files [] 0).
  { split.
    - repeat constructor; try (apply (bool_decide_unpack _); vm_compute; exact I); vm_compute; reflexivity.
    - repeat constructor; by apply (bool_decide_unpack _); vm_compute.
    - by apply (bool_decide_unpack _); vm_compute.
    - repeat constructor; by intros ?%elem_of_nil.
    - right. by apply (bool_decide_unpack _); vm_compute. }
  split; [exact H|]. apply (tar_round_trip DEFAULT_ACQUISITION_LIMITS false demo_files); [done|exact H].
Defined.
