(* ===== verification/SourceSafety.v ===== *)
(** * What the sources deliver

    A bundle acquired from GitHub holds the objects the tree pins, a ClawHub
    release holds the files of its manifest and no others, and the addresses
    the client refuses are, for IPv4, the reserved blocks. *)

From Stdlib Require Import ZArith Lia SpecFloat.
From stdpp Require Import base list sorting strings sets.
From S2P Require Import Prelude Js Base64 Json Wire Names Numbers Web Access Bundle Acquire Archive.
From S2P Require Import AcquireSafety AcquireSources HttpClient.

Local Open Scope Z_scope.

(** ** GitHub *)

Section Github.
Context {U : UnicodeTables} {UP : UpperTable} {UR : UrlRuntime} {SH : Sha1} {SL : SegmentLaws U UP}.

(** A file of the tree: where it is below the selected directory, and the git
    object it is. *)
Record pinned_file (selectedPath : jstr) (raw : jsval) (p : jstr) (bytes : list Z) (executable : bool) : Prop := {
  pf_path : exists full relative, field raw "path" = JStr full /\ below_directory selectedPath full = Some relative /\
              p = normalizeNFC relative;
  pf_blob : field raw "type" = JStr (js "blob");
  pf_mode : field raw "mode" = JStr (if executable then js "100755" else js "100644");
  pf_object : exists sha, field raw "sha" = JStr sha /\ git_object_id bytes = toLowerCase sha;
}.
Lemma text_or_empty_eq v s : s <> [] -> text_or_empty v = s -> v = JStr s.
Proof. intros Hs H. destruct v; cbn in H; subst; done. Qed.
Lemma text_or_empty_mode v : text_or_empty v = js "100644" \/ text_or_empty v = js "100755" -> v = JStr (text_or_empty v).
Proof. destruct v; cbn; intros [H|H]; done. Qed.
Lemma tree_entry_sound selectedPath limits raw entry : tree_entry selectedPath limits raw = Ok (Some entry) ->
  (exists full relative, field raw "path" = JStr full /\ below_directory selectedPath full = Some relative /\
     acquired_path limits true relative (ge_path entry)) /\
  field raw "type" = JStr (js "blob") /\ (ge_mode entry = js "100644" \/ ge_mode entry = js "100755") /\
  field raw "mode" = JStr (ge_mode entry) /\ ge_sha entry = field raw "sha".
Proof.
  unfold tree_entry. intros H. destruct raw as [| | | | | |props]; try done.
  destruct (field (JObj props) "path") as [| | | |full| |] eqn:Ep; try done.
  destruct (below_directory _ _) as [relative|] eqn:Eb; [|done]. destruct (jeqb _ (js "tree")); [done|].
  destruct (validateSkillPath _ _ _) as [safe|] eqn:Es; [|by repeat case_match].
  apply validateSkillPath_sound in Es. do 2 ok_step. cbn [rbind] in H. injection H as <-. cbn [ge_path ge_mode ge_sha].
  rewrite !orb_false_iff in *. destruct_and!. bool_inv.
  match goal with Hx : jeqb _ (js "blob") = true |- _ => apply jeqb_true in Hx; apply text_or_empty_eq in Hx; [|done] end.
  match goal with Hx : negb _ && negb _ = false |- _ => apply andb_false_iff in Hx; rename Hx into Hm end.
  split; [by eexists _, _|]. split; [done|].
  assert (Hmode : text_or_empty (field (JObj props) "mode") = js "100644" \/ text_or_empty (field (JObj props) "mode") = js "100755").
  { destruct Hm as [Hm|Hm]; apply negb_false_iff, jeqb_true in Hm; auto. }
  split; [done|]. split; [|done]. eapply text_or_empty_mode. exact Hmode.
Qed.
Lemma select_tree_sound selectedPath limits count tree entries : select_tree selectedPath limits count tree = Ok entries ->
  Forall (fun entry => exists raw, raw ∈ tree /\ tree_entry selectedPath limits raw = Ok (Some entry)) entries.
Proof.
  revert count entries. induction tree as [|raw tree IH]; intros count entries H; cbn [select_tree] in H; [ok_inv; constructor|].
  destruct (tree_entry _ _ raw) as [[entry|]|] eqn:Et; [| |done]; cbn [rbind] in H.
  - ok_step. destruct (select_tree _ _ _ tree) as [es|] eqn:Es; [|done]. injection H as <-. constructor.
    + exists raw. split; [by left|done].
    + eapply Forall_impl; [by eapply IH|]. intros e (r & Hr & He). exists r. split; [by right|done].
  - eapply Forall_impl; [by eapply IH|]. intros e (r & Hr & He). exists r. split; [by right|done].
Qed.
Lemma github_file_sound limits entry blob file : github_file limits entry blob = Ok file ->
  gf_path file = ge_path entry /\ gf_executable file = jeqb (ge_mode entry) (js "100755") /\ wf_bytes (gf_bytes file) /\
  exists sha, ge_sha entry = JStr sha /\ git_object_id (gf_bytes file) = toLowerCase sha.
Proof.
  unfold github_file. intros H. destruct (requireSha _) as [s|] eqn:Es; [|done]. cbn [rbind] in H.
  destruct (declared_size_ok _ _); [|done]. cbn [rbind] in H.
  unfold requireSha in Es. destruct (ge_sha entry) as [| | | |sha| |]; try done. ok_step. cbn [text_or_empty] in H.
  unfold decodeGithubBlob in H. destruct (field blob "encoding"); try done. destruct (field blob "content"); try done.
  ok_inv. cbn. split; [done|]. split; [done|]. split.
  - unfold bufferFromBase64. destruct (atob _) eqn:E; [by eapply atob_bytes|constructor].
  - exists sha. split; [done|]. bool_inv.
    match goal with Hx : object_id sha && _ = false, Hy : object_id sha = true |- _ => rewrite Hy in Hx; cbn [andb] in Hx;
      by apply negb_false_iff, jeqb_true in Hx end.
Qed.
Lemma github_files_sound limits entries blobs files : github_files limits entries blobs = Ok files ->
  Forall (fun file => exists entry blob, entry ∈ entries /\ github_file limits entry blob = Ok file) files.
Proof.
  revert blobs files. induction entries as [|entry entries IH]; intros blobs files H; cbn [github_files] in H.
  { ok_inv. constructor. }
  destruct blobs as [|blob blobs]; [done|].
  destruct (github_file _ _ _) as [file|] eqn:Ef; [|done]. cbn [rbind] in H.
  destruct (github_files _ _ _) as [fs|] eqn:Es; [|done]. injection H as <-. constructor.
  - exists entry, blob. split; [by left|done].
  - eapply Forall_impl; [by eapply IH|]. intros f (e & b & He & Hf). exists e, b. split; [by right|done].
Qed.
Lemma bufferFromBase64_btoa bytes : wf_bytes bytes -> bufferFromBase64 (btoa bytes) = bytes.
Proof. intros H. unfold bufferFromBase64. by rewrite atob_btoa. Qed.
Lemma raw_value_acquired limits file f : wf_bytes (rf_bytes file) -> acquired_file limits (raw_value file) f ->
  acquired_path limits true (rf_path file) (path f) /\ file_bytes f = rf_bytes file /\
  executable f = (if rf_executable file then Some true else None).
Proof.
  intros Hw [(input & Hi & Hp) Ht _ Hx]. unfold raw_value, field_text, field_true in *. destruct (rf_executable file);
    cbn in Hi, Ht, Hx; injection Hi as <-; injection Ht as Ht; (split; [done|]); (split; [|done]);
    unfold file_bytes; rewrite <- Ht; by apply bufferFromBase64_btoa.
Qed.

(** C26. Every file of a bundle [acquireGithub] returns is an entry of the tree
    the API answered for the resolved commit: a regular file below the selected
    directory, with the entry's path and mode, and its bytes are the object
    whose id the entry has.  A tree that names another commit, or a truncated
    one, is refused. *)
Theorem github_bundle_pinned (limits : AcquisitionLimits) (selectedPath revision : jstr) (treeResponse : jsval)
    (blobs : list jsval) (b : SkillBundle) :
  acquireGithub limits selectedPath revision treeResponse blobs = Ok b ->
  field treeResponse "truncated" = JBool false /\
  (field treeResponse "sha" = JUndef \/ field treeResponse "sha" = JStr revision) /\
  exists tree, field treeResponse "tree" = JArr tree /\
    forall f, f ∈ files b -> exists raw, raw ∈ tree /\
      pinned_file selectedPath raw (path f) (file_bytes f) (bool_decide (executable f = Some true)).
Proof.
  unfold acquireGithub, github_tree. intros H.
  destruct (field treeResponse "truncated") as [| |[]| | | |] eqn:Et; try done. cbn [rbind] in H.
  split; [done|]. destruct (negb (is_undef (field treeResponse "sha")) && _) eqn:Esha; [done|].
  destruct (field treeResponse "tree") as [| | | | |tree|] eqn:Etree; try done. cbn [rbind] in H.
  split.
  { apply andb_false_iff in Esha as [Esha|Esha]; apply negb_false_iff in Esha.
    - left. by destruct (field treeResponse "sha").
    - right. destruct (field treeResponse "sha"); try done. by apply jeqb_true in Esha as ->. }
  exists tree. split; [done|].
  destruct (selectTreeEntries _ _ _) as [entries|] eqn:Ee; [|done]. cbn [rbind] in H.
  destruct (bool_decide _); [done|]. destruct (_ <? _); [done|]. destruct (declared_bytes _ _ _); [|done]. cbn [rbind] in H.
  destruct (github_files _ _ _) as [gfs|] eqn:Ef; [|done]. cbn [rbind] in H. unfold github_bundle in H.
  destruct (expanded_within _ _ _); [|done]. cbn [rbind] in H.
  apply validate_bundle_sound in H as (props & l & Hp & Hl & [_ (read & Hread & Hfs) _ _]). injection Hp as <-.
  cbn in Hl. injection Hl as <-. intros f Hin. rewrite Hfs, js_sort_perm in Hin.
  apply list_elem_of_lookup in Hin as [i Hi]. destruct (Forall2_lookup_r _ _ _ _ _ Hread Hi) as (v & Hv & Ha).
  apply list_lookup_fmap_Some in Hv as (rf & -> & Hv). apply list_lookup_fmap_Some in Hv as (gf & -> & Hv).
  apply github_files_sound in Ef. rewrite Forall_lookup in Ef. destruct (Ef _ _ Hv) as (entry & blob & Hentry & Hfile).
  apply github_file_sound in Hfile as (Hpath & Hx & Hw & sha & Hsha & Hobj).
  apply select_tree_sound in Ee. rewrite Forall_forall in Ee. destruct (Ee _ Hentry) as (raw & Hraw & Htree).
  apply tree_entry_sound in Htree as ((full & relative & Hfull & Hrel & Hacq) & Htype & Hmode & Hmode' & Hs).
  apply raw_value_acquired in Ha as (Hp & Hb & He); [|done]. exists raw. split; [done|]. cbn in Hp, Hb, He. split.
  - exists full, relative. split; [done|]. split; [done|]. rewrite (ap_normal _ _ _ _ Hp), Hpath, (ap_normal _ _ _ _ Hacq).
    by apply nfc_idempotent.
  - done.
  - rewrite Hmode'. f_equal. rewrite He, Hx. by destruct Hmode as [-> | ->].
  - exists sha. rewrite Hb. by rewrite <- Hs.
Qed.
End Github.

(** ** ClawHub *)

Section ClawHub.
Context {U : UnicodeTables} {UP : UpperTable} {ZL : Zlib} {CR : Crypto} {CO : Collation}.

(** A file as the manifest lists it. *)
Definition manifest_lists (entry : ClawHubSourceFile) (file : jstr * list Z) : Prop :=
  file.1 = ch_path entry /\ byte_length file.2 = ch_size entry /\ hexDigest file.2 = ch_sha256 entry.
(** A downloaded file, under its validated path. *)
Definition released_file (limits : AcquisitionLimits) (downloaded file : jstr * list Z) : Prop :=
  validateSkillPath downloaded.1 limits false = Ok file.1 /\ file.2 = downloaded.2.

Lemma manifest_file_fresh limits seen total entry file : manifest_file limits seen total entry = Ok file -> ch_path file ∉ seen.
Proof.
  unfold manifest_file. intros H. ok_step. destruct (validatePathValue _ _ _) as [p|]; [|done]. cbn [rbind] in H. ok_step.
  destruct (field entry "size"); try done. destruct (safe_integer _); [|done]. ok_step.
  destruct (field entry "sha256"); try done. ok_inv. by bool_inv.
Qed.
Lemma manifest_files_distinct limits seen total l files : manifest_files limits seen total l = Ok files ->
  NoDup (ch_path <$> files) /\ Forall (fun file => ch_path file ∉ seen) files.
Proof.
  revert seen total files. induction l as [|entry l IH]; intros seen total files H; cbn [manifest_files] in H.
  { ok_inv. split; constructor. }
  destruct (manifest_file _ _ _ _) as [file|] eqn:Ef; [|done]. cbn [rbind] in H.
  destruct (manifest_files _ _ _ _) as [fs|] eqn:Es; [|done]. injection H as <-.
  apply manifest_file_fresh in Ef. apply IH in Es as [Hd Hs]. rewrite Forall_forall in Hs. cbn [fmap list_fmap]. split.
  - constructor; [|done]. intros (g & Hg & Hin)%list_elem_of_fmap. apply (Hs g Hin). rewrite <- Hg. by left.
  - constructor; [done|]. apply Forall_forall. intros g Hin Hg. apply (Hs g Hin). by right.
Qed.
Lemma files_by_path_sound limits seen l actual : NoDup seen.*1 -> files_by_path limits seen l = Ok actual ->
  NoDup actual.*1 /\ exists named, Forall2 (released_file limits) l named /\ actual = seen ++ named.
Proof.
  revert seen actual. induction l as [|[p bytes] l IH]; intros seen actual Hn H; cbn [files_by_path] in H.
  { ok_inv. split; [done|]. exists []. by rewrite app_nil_r. }
  destruct (validateSkillPath _ _ _) as [q|] eqn:Eq; [|done]. cbn [rbind] in H. ok_step. bool_inv.
  apply IH in H as (Hn' & named & Hnamed & ->).
  - split; [done|]. exists ((q, bytes) :: named). split; [by constructor|]. by rewrite <- app_assoc.
  - rewrite fmap_app. apply NoDup_app. split; [done|]. split; [|apply NoDup_singleton].
    intros x Hx ->%list_elem_of_singleton. done.
Qed.
Lemma verified_file_sound actual entry file : verified_file actual entry = Ok file ->
  file ∈ actual /\ manifest_lists entry file.
Proof.
  unfold verified_file. intros H. destruct (find_first _ actual) as [[p bytes]|] eqn:E; [|done].
  apply find_first_Some in E as [Hin Hp]. cbn in Hp. apply jeqb_true in Hp as ->. ok_inv. bool_inv. split; [done|].
  repeat split; [done|]. by apply jeqb_true.
Qed.

(** C27. [verifyClawHubArchiveFiles] answers exactly the files of the release:
    one for each file of the manifest, in its order, with the manifest's path,
    size and SHA-256, and these are all the files of the archive but the
    wrapper's own metadata, under their validated paths. *)
Theorem clawhub_files_exact (archiveFiles : list (jstr * list Z)) (manifest : jsval) (limits : AcquisitionLimits)
    (source : option ClawHubSource) (verified : list (jstr * list Z)) :
  verifyClawHubArchiveFiles archiveFiles manifest limits source = Ok verified ->
  exists expected, validateClawHubManifest manifest limits = Ok expected /\
    Forall2 manifest_lists expected verified /\ NoDup verified.*1 /\
    exists named, Forall2 (released_file limits) (List.filter (fun file => negb (is_wrapper file)) archiveFiles) named /\
      verified ≡ₚ named.
Proof.
  unfold verifyClawHubArchiveFiles. intros H.
  destruct (validateClawHubManifest manifest limits) as [expected|] eqn:Em; [|done]. cbn [rbind] in H.
  destruct (match List.filter is_wrapper archiveFiles with [] => _ | _ => _ end); [|done]. cbn [rbind] in H.
  set (skill := List.filter _ archiveFiles) in *. ok_step. bool_inv.
  destruct (files_by_path _ _ _) as [actual|] eqn:Ea; [|done]. cbn [rbind] in H.
  destruct (map_result _ expected) as [v|] eqn:Ev; [|done]. cbn [rbind] in H. ok_step. injection H as <-.
  exists expected. split; [done|]. apply map_result_Ok_Forall2 in Ev.
  assert (Hlists : Forall2 manifest_lists expected v).
  { eapply Forall2_impl; [exact Ev|]. intros e f He. by apply verified_file_sound in He as [_ He]. }
  assert (Hin : v ⊆ actual).
  { intros f [i Hi]%list_elem_of_lookup. destruct (Forall2_lookup_r _ _ _ _ _ Ev Hi) as (e & _ & He).
    by apply verified_file_sound in He as [He _]. }
  assert (Hnames : v.*1 = ch_path <$> expected).
  { clear -Hlists. induction Hlists as [|e f l l' [Hp _] _ IH]; [done|]. cbn. by rewrite IH, Hp. }
  assert (Hd : NoDup v.*1).
  { rewrite Hnames. unfold validateClawHubManifest in Em. destruct manifest; try done. do 2 ok_step.
    by apply manifest_files_distinct in Em as [Hm _]. }
  split; [done|]. split; [done|].
  apply files_by_path_sound in Ea as (_ & named & Hnamed & ->); [|constructor]. cbn [app] in Hin.
  exists named. split; [done|]. apply submseteq_length_Permutation.
  - apply NoDup_submseteq; [by eapply NoDup_fmap_1|]. done.
  - apply Forall2_length in Hnamed, Ev.
    match goal with Hx : (_ =? _)%nat = true |- _ => apply Nat.eqb_eq in Hx end. lia.
Qed.
End ClawHub.

(** ** Addresses *)

(** The IPv4 blocks that are not to be reached, as address and prefix length. *)
Definition ipv4_address (a b c d : Z) : Z := a * 2 ^ 24 + b * 2 ^ 16 + c * 2 ^ 8 + d.
Definition REFUSED_BLOCKS : list (Z * Z) :=
  [(ipv4_address 0 0 0 0, 8); (ipv4_address 10 0 0 0, 8); (ipv4_address 100 64 0 0, 10);
   (ipv4_address 127 0 0 0, 8); (ipv4_address 169 254 0 0, 16); (ipv4_address 172 16 0 0, 12);
   (ipv4_address 192 168 0 0, 16); (ipv4_address 224 0 0 0, 3)].
Definition in_block (address : Z) (block : Z * Z) : bool :=
  Z.shiftr address (32 - block.2) =? Z.shiftr block.1 (32 - block.2).
Definition dotted (a b c d : Z) : jstr := join [46] [js_of_Z a; js_of_Z b; js_of_Z c; js_of_Z d].
Definition octet (n : Z) : Prop := 0 <= n < 256.

Definition octet_text_ok (n : Z) : bool :=
  ipv4_octet (js_of_Z n) && (digits_value (js_of_Z n) =? n) && forallb is_digit (js_of_Z n).
Lemma octet_text n : octet n -> octet_text_ok n = true.
Proof.
  assert (H : forallb octet_text_ok (seqZ 0 256) = true) by (vm_compute; reflexivity).
  rewrite forallb_forall in H. intros Hn. unfold octet in Hn. apply H, list_elem_of_In, elem_of_seqZ. lia.
Qed.
Lemma octet_digits n : octet n -> ipv4_octet (js_of_Z n) = true /\ digits_value (js_of_Z n) = n /\
  Forall (fun c => 48 <= c <= 57) (js_of_Z n).
Proof.
  intros H%octet_text. unfold octet_text_ok in H. rewrite !andb_true_iff in H. destruct H as [[H1 H2] H3].
  split; [done|]. split; [by apply Z.eqb_eq|]. apply Forall_forall. intros c Hc. rewrite forallb_forall in H3.
  specialize (H3 c ltac:(by apply list_elem_of_In)). unfold is_digit, between in H3. by bool_inv.
Qed.
Definition blocks_agree (a b : Z) : bool :=
  eqb (private_octets a b)
    (existsb (fun block => Z.shiftr (a * 256 + b) (16 - block.2) =? Z.shiftr block.1 (32 - block.2)) REFUSED_BLOCKS).
Lemma blocks_agree_all a b : octet a -> octet b -> blocks_agree a b = true.
Proof.
  assert (H : forallb (fun a => forallb (blocks_agree a) (seqZ 0 256)) (seqZ 0 256) = true) by (vm_compute; reflexivity).
  rewrite forallb_forall in H. unfold octet. intros Ha Hb.
  specialize (H a ltac:(apply list_elem_of_In, elem_of_seqZ; lia)). rewrite forallb_forall in H.
  apply H, list_elem_of_In, elem_of_seqZ. lia.
Qed.
Lemma ipv4_address_prefix a b c d bits : octet c -> octet d -> 0 <= bits <= 16 ->
  Z.shiftr (ipv4_address a b c d) (32 - bits) = Z.shiftr (a * 256 + b) (16 - bits).
Proof.
  unfold octet, ipv4_address. intros Hc Hd Hb. rewrite !Z.shiftr_div_pow2 by lia.
  replace (2 ^ (32 - bits)) with (2 ^ 16 * 2 ^ (16 - bits)) by (rewrite <- Z.pow_add_r by lia; f_equal; lia).
  rewrite <- Z.div_div by lia. f_equal. symmetry. apply (Z.div_unique _ _ _ (c * 2 ^ 8 + d)); lia.
Qed.

Section Addresses.
Context {U : UnicodeTables} {UL : UnicodeLaws U}.

Lemma dotted_chars a b c d : octet a -> octet b -> octet c -> octet d ->
  Forall (fun u => 46 <= u <= 57) (dotted a b c d).
Proof.
  intros Ha Hb Hc Hd. unfold dotted. cbn [join]. rewrite !Forall_app.
  assert (Hdigits : forall n, octet n -> Forall (fun u => 46 <= u <= 57) (js_of_Z n)).
  { intros n (_ & _ & H)%octet_digits. eapply Forall_impl; [exact H|]. cbn. intros; lia. }
  repeat split; auto; repeat constructor; lia.
Qed.
Lemma dotted_split a b c d : octet a -> octet b -> octet c -> octet d ->
  split 46 (dotted a b c d) = [js_of_Z a; js_of_Z b; js_of_Z c; js_of_Z d].
Proof.
  assert (Hdot : forall n, octet n -> 46 ∉ js_of_Z n).
  { intros n (_ & _ & H)%octet_digits Hin. rewrite Forall_forall in H. specialize (H _ Hin). cbn in H. lia. }
  intros Ha Hb Hc Hd. unfold dotted. cbn [join app]. rewrite !split_app_sep by auto. rewrite !split_single by auto. done.
Qed.

(** For every IPv4 address in its textual form, [isPrivateAddress] says
    exactly whether the address is in one of the blocks 0/8, 10/8, 100.64/10,
    127/8, 169.254/16, 172.16/12, 192.168/16 and 224/3: the reference definition
    on the 32-bit address. *)
Theorem private_ipv4_blocks (a b c d : Z) : octet a -> octet b -> octet c -> octet d ->
  isPrivateAddress (dotted a b c d) = existsb (in_block (ipv4_address a b c d)) REFUSED_BLOCKS.
Proof.
  intros Ha Hb Hc Hd. pose proof (dotted_chars a b c d Ha Hb Hc Hd) as Hchars.
  pose proof (dotted_split a b c d Ha Hb Hc Hd) as Hsplit.
  assert (Hlower : toLowerCase (dotted a b c d) = dotted a b c d).
  { rewrite lower_ascii by (eapply Forall_impl; [exact Hchars|]; unfold is_ascii; cbn; intros; lia).
    rewrite <- (list_fmap_id (dotted a b c d)) at 2. apply list_fmap_ext. intros i u Hu.
    rewrite Forall_lookup in Hchars. specialize (Hchars _ _ Hu). cbn in Hchars. unfold ascii_lower, is_upper.
    destruct (between 65 u 90) eqn:E; [|done]. range_inv. lia. }
  assert (Hstrip : stripIPv6Brackets (dotted a b c d) = dotted a b c d).
  { unfold stripIPv6Brackets. assert (startsWith [91] (dotted a b c d) = false) as ->; [|done].
    apply not_true_iff_false. intros [r Hr]%startsWith_spec. rewrite Hr in Hchars.
    apply Forall_cons in Hchars as [Hx _]. cbn in Hx. lia. }
  assert (Hip : isIP (dotted a b c d) = 4).
  { unfold isIP, isIPv4. rewrite Hsplit. rewrite (proj1 (octet_digits a Ha)), (proj1 (octet_digits b Hb)), (proj1 (octet_digits c Hc)), (proj1 (octet_digits d Hd)). done. }
  unfold isPrivateAddress. rewrite Hlower, Hstrip, Hip. cbn [Z.eqb Pos.eqb].
  assert (includes [37] (dotted a b c d) = false) as ->.
  { apply includes_single. intros Hin. rewrite Forall_forall in Hchars. specialize (Hchars _ Hin). cbn in Hchars. lia. }
  unfold private_ipv4. rewrite Hsplit. cbn [fmap list_fmap].
  rewrite (proj1 (proj2 (octet_digits a Ha))), (proj1 (proj2 (octet_digits b Hb))).
  pose proof (blocks_agree_all a b Ha Hb) as Hagree. unfold blocks_agree in Hagree. apply eqb_prop in Hagree. rewrite Hagree.
  unfold REFUSED_BLOCKS, in_block. cbn [existsb fst snd]. by rewrite !ipv4_address_prefix by (done || lia).
Qed.
End Addresses.

(** ** Runs *)

(** Stand-ins for the digests: the length of what is hashed. *)
Definition length_sha1 : Sha1 := {| sha1 bytes := repeat (byte_length bytes mod 256) 20 |}.
Definition length_sha256 : Crypto := {| sha256 bytes := repeat (byte_length bytes mod 256) 32 |}.

Definition demo_blob_id : jstr := hex_bytes (repeat 12 20).
Definition demo_tree : jsval :=
  JObj [(js "sha", JStr (js "c0ffee")); (js "truncated", JBool false);
        (js "tree", JArr [
          JObj [(js "path", JStr (js "skills/demo")); (js "type", JStr (js "tree"))];
          JObj [(js "path", JStr (js "skills/demo/SKILL.md")); (js "mode", JStr (js "100644"));
                (js "type", JStr (js "blob")); (js "sha", JStr demo_blob_id); (js "size", JNum (num_of_Z 5))];
          JObj [(js "path", JStr (js "README.md")); (js "mode", JStr (js "100644")); (js "type", JStr (js "blob"))]])].
Definition demo_blob : jsval :=
  JObj [(js "encoding", JStr (js "base64")); (js "content", JStr (js "aGVs bG8=")); (js "size", JNum (num_of_Z 5))].
Definition demo_pinned : SkillBundle :=
  {| files := [ {| path := js "SKILL.md"; content := js "aGVsbG8="; executable := None |} ] |}.
Lemma github_bundle_pinned_witness :
  acquireGithub (U := ascii_tables) (UP := ascii_upper_table) (SH := length_sha1) DEFAULT_ACQUISITION_LIMITS
    (js "skills/demo") (js "c0ffee") demo_tree [demo_blob] = Ok demo_pinned /\
  exists tree, field demo_tree "tree" = JArr tree /\
    forall f, f ∈ files demo_pinned -> exists raw, raw ∈ tree /\
      pinned_file (U := ascii_tables) (SH := length_sha1) (js "skills/demo") raw (path f) (file_bytes f)
        (bool_decide (executable f = Some true)).
Proof.
  assert (H : acquireGithub (U := ascii_tables) (UP := ascii_upper_table) (SH := length_sha1) DEFAULT_ACQUISITION_LIMITS
    (js "skills/demo") (js "c0ffee") demo_tree [demo_blob] = Ok demo_pinned) by (vm_compute; reflexivity).
  split; [exact H|].
  exact (proj2 (proj2 (github_bundle_pinned (U := ascii_tables) (UP := ascii_upper_table) (SH := length_sha1) _ _ _ _ _ _ H))).
Defined.

Definition demo_release : list (jstr * list Z) :=
  [(js "SKILL.md", [104; 105]); (js "docs/a.txt", [97; 98; 99])].
Definition demo_manifest : jsval :=
  manifest_value [ {| ch_path := js "docs/a.txt"; ch_size := 3; ch_sha256 := concat (hex_byte <$> repeat 3 32) |};
                   {| ch_path := js "SKILL.md"; ch_size := 2; ch_sha256 := concat (hex_byte <$> repeat 2 32) |} ].
Lemma clawhub_files_exact_witness :
  verifyClawHubArchiveFiles (U := ascii_tables) (UP := ascii_upper_table) (CR := length_sha256) demo_release demo_manifest
    DEFAULT_ACQUISITION_LIMITS None = Ok (reverse demo_release) /\
  exists expected, validateClawHubManifest (U := ascii_tables) (UP := ascii_upper_table) demo_manifest
      DEFAULT_ACQUISITION_LIMITS = Ok expected /\
    Forall2 (manifest_lists (CR := length_sha256)) expected (reverse demo_release).
Proof.
  assert (H : verifyClawHubArchiveFiles (U := ascii_tables) (UP := ascii_upper_table) (CR := length_sha256) demo_release
    demo_manifest DEFAULT_ACQUISITION_LIMITS None = Ok (reverse demo_release)) by (vm_compute; reflexivity).
  split; [exact H|].
  destruct (clawhub_files_exact (U := ascii_tables) (UP := ascii_upper_table) (CR := length_sha256) _ _ _ _ _ H)
    as (expected & He & Hl & _). exists expected. split; [exact He|exact Hl].
Defined.
(** A file the manifest does not list, or lists otherwise, refuses the release. *)
Example tampered_release_refused :
  verifyClawHubArchiveFiles (U := ascii_tables) (UP := ascii_upper_table) (CR := length_sha256)
    [(js "SKILL.md", [104; 105; 106]); (js "docs/a.txt", [97; 98; 99])] demo_manifest DEFAULT_ACQUISITION_LIMITS None =
  Err (refuse "size_mismatch").
Proof. vm_compute. reflexivity. Qed.

Lemma private_ipv4_blocks_witness :
  octet 169 /\ octet 254 /\ isPrivateAddress (U := ascii_tables) (js "169.254.169.254") = true.
Proof.
  assert (H1 : octet 169) by (unfold octet; lia). assert (H2 : octet 254) by (unfold octet; lia).
  split; [exact H1|]. split; [exact H2|].
  exact (private_ipv4_blocks (U := ascii_tables) (UL := ascii_tables_laws) 169 254 169 254 H1 H2 H1 H2).
Defined.
(** An IPv4 address mapped to IPv6 is recognized in its dotted form only; the
    URL parser writes the hexadecimal one. *)
Definition mapped_url (host : string) : URL := {|
  url_protocol := js "https:"; url_username := []; url_password := []; url_hostname := js host; url_port := [];
  url_pathname := js "/"; url_search := []; url_hash := []; url_origin := js "https://" ++ js host;
  url_href := js "https://" ++ js host ++ js "/" |}.
Example mapped_dotted_refused :
  assertSafeURL (U := ascii_tables) (mapped_url "[::ffff:127.0.0.1]") false = Err (refuse "ssrf_denied").
Proof. vm_compute. reflexivity. Qed.
Example mapped_hexadecimal_accepted :
  assertSafeURL (U := ascii_tables) (mapped_url "[::ffff:7f00:1]") false = Ok tt.
Proof. vm_compute. reflexivity. Qed.
