(* ===== verification/ClientSafety.v ===== *)
(** * What the HTTP client of acquisitions sends

    The environment is made to keep a log of its calls, so that the theorems
    speak of every request a run sends, whatever DNS and the upstreams answer:
    each goes to a checked URL whose host resolved to public addresses,
    credentials stay with the origin they were given for, and their number is
    bounded. *)

From Stdlib Require Import ZArith Lia.
From stdpp Require Import base list strings sets.
From S2P Require Import Prelude Js Json Names Numbers Web Acquire AcquireSafety HttpClient.

Local Open Scope Z_scope.

(** ** Logged runs *)

Inductive client_event : Type :=
| Resolved (hostname : jstr) (addresses : option (list jstr))
| Sent (request : FetchRequest).
Definition client_log : Type := list client_event.
Definition logged {W} (net : Network W) : Network (client_log * W) := {|
  lookup hostname := fun state =>
    let '(addresses, w) := lookup net hostname state.2 in
    (addresses, (state.1 ++ [Resolved hostname addresses], w));
  fetch request := fun state =>
    let '(answer, w) := fetch net request state.2 in (answer, (state.1 ++ [Sent request], w));
  signals := fun state => let '(signal, w) := signals net state.2 in (signal, (state.1, w)) |}.
Definition sent_requests (log : client_log) : list FetchRequest :=
  omap (fun event => match event with Sent request => Some request | Resolved _ _ => None end) log.
Lemma sent_requests_app l l' : sent_requests (l ++ l') = sent_requests l ++ sent_requests l'.
Proof. apply omap_app. Qed.

(** What a program does to the log, whatever the environment is. *)
Section Triples.
Context {W : Type} (net : Network W).

Definition triple {A} (P : client_log -> Prop) (p : io (client_log * W) A)
    (Q : acquired A -> client_log -> Prop) : Prop :=
  forall log w r log' w', P log -> p (log, w) = (r, (log', w')) -> Q r log'.
Lemma triple_return {A} (r : acquired A) (P : client_log -> Prop) (Q : acquired A -> client_log -> Prop) :
  (forall log, P log -> Q r log) -> triple P (io_return r) Q.
Proof. intros H log w r' log' w' HP Hrun. injection Hrun as <- <- _. auto. Qed.
Lemma triple_bind {A B} (p : io (client_log * W) A) (f : A -> io (client_log * W) B) P R Q :
  triple P p R -> (forall e log, R (Err e) log -> Q (Err e) log) ->
  (forall a, triple (R (Ok a)) (f a) Q) -> triple P (io_bind p f) Q.
Proof.
  intros Hp He Hf log w r log' w' HP Hrun. unfold io_bind in Hrun.
  destruct (p (log, w)) as [[a|e] [log1 w1]] eqn:E.
  - eapply Hf; [eapply Hp; eauto|exact Hrun].
  - injection Hrun as <- <- _. eapply He, Hp; eauto.
Qed.
Lemma triple_check {A B} (a : acquired A) (f : A -> io (client_log * W) B) (P : client_log -> Prop) Q :
  (forall e log, a = Err e -> P log -> Q (Err e) log) -> (forall x, a = Ok x -> triple P (f x) Q) ->
  triple P (io_bind (io_return a) f) Q.
Proof.
  intros He Hf log w r log' w' HP Hrun. unfold io_bind, io_return in Hrun. destruct a as [x|e].
  - eapply Hf; eauto.
  - injection Hrun as <- <- _. eauto.
Qed.
Lemma triple_signals {B} (f : option AbortedSignal -> io (client_log * W) B) P Q :
  (forall signal, triple P (f signal) Q) -> triple P (io_await (signals (logged net)) f) Q.
Proof.
  intros Hf log w r log' w' HP Hrun. unfold io_await in Hrun. cbn in Hrun.
  destruct (signals net w) as [signal w1]. eapply Hf; eauto.
Qed.
Lemma triple_fetch {B} request (f : FetchAnswer -> io (client_log * W) B) (P P' : client_log -> Prop) Q :
  (forall log, P log -> P' (log ++ [Sent request])) -> (forall answer, triple P' (f answer) Q) ->
  triple P (io_await (fetch (logged net) request) f) Q.
Proof.
  intros HP' Hf log w r log' w' HP Hrun. unfold io_await in Hrun. cbn in Hrun.
  destruct (fetch net request w) as [answer w1]. eapply Hf; eauto.
Qed.
Lemma triple_lookup {B} hostname (f : option (list jstr) -> io (client_log * W) B) (P : client_log -> Prop) Q :
  (forall addresses, triple (fun log => exists log0, P log0 /\ log = log0 ++ [Resolved hostname addresses])
                       (f addresses) Q) ->
  triple P (io_await (lookup (logged net) hostname) f) Q.
Proof.
  intros Hf log w r log' w' HP Hrun. unfold io_await in Hrun. cbn in Hrun.
  destruct (lookup net hostname w) as [addresses w1]. eapply Hf; eauto.
Qed.
Lemma triple_weaken {A} (p : io (client_log * W) A) (P P' : client_log -> Prop) Q :
  triple P' p Q -> (forall log, P log -> P' log) -> triple P p Q.
Proof. intros H HP log w r log' w' Hl Hrun. eauto. Qed.
Lemma triple_post {A} (p : io (client_log * W) A) P (Q Q' : acquired A -> client_log -> Prop) :
  triple P p Q -> (forall r log, Q r log -> Q' r log) -> triple P p Q'.
Proof. intros H HQ log w r log' w' Hl Hrun. eauto. Qed.
End Triples.

(** ** No run is out of fuel by itself *)

Definition answers {A} (r : acquired A) : Prop := r <> Err out_of_fuel.
Ltac answer := let H := fresh in intros H; vm_compute in H; discriminate H.
Lemma answers_bind {A B} (r : acquired A) (f : A -> acquired B) :
  answers r -> (forall a, answers (f a)) -> answers (rbind r f).
Proof. unfold answers. destruct r as [a|e]; cbn; [auto|]. intros H _ [= ->]. by apply H. Qed.
Lemma answers_if {A} (b : bool) code (r : acquired A) : answers (Err (A := A) (refuse code)) -> answers r ->
  answers (if b then Err (refuse code) else r).
Proof. by destruct b. Qed.

(** ** A checked log *)

Section Confined.
Context {U : UnicodeTables} {RS : UrlResolver}.
Context (limits : AcquisitionLimits) (allowLoopback : bool) (fixedOrigin : jstr).
Context (url : URL) (request : ClientRequest).

(** The URL is safe, and its host is an address or resolved, before, to
    addresses that may be reached. *)
Definition host_checked (log : client_log) (u : URL) : Prop :=
  assertSafeURL u allowLoopback = Ok tt /\
  let hostname := stripIPv6Brackets (url_hostname u) in
  isIP hostname <> 0 \/
  exists addresses, Resolved hostname addresses ∈ log /\ resolved_public allowLoopback addresses = Ok tt.
Definition without_credentials (headers : list (jstr * jstr)) : Prop :=
  Forall (fun header => credential_header header.1 = false) headers.
(** What may be sent where, after a log. *)
Definition may_send (u : URL) (headers : list (jstr * jstr)) : Prop :=
  headers ⊆ cq_headers request /\
  (url_origin u <> url_origin url -> without_credentials headers) /\
  (cq_allowCrossOriginRedirectWithoutAuth request = false -> url_origin u = url_origin url).
Definition sent_ok (log : client_log) (sent : FetchRequest) : Prop :=
  host_checked log (fq_url sent) /\ may_send (fq_url sent) (fq_headers sent).
Definition checked_log (log : client_log) : Prop :=
  forall before sent after, log = before ++ Sent sent :: after -> sent_ok before sent.
(** The bytes of a response. *)
Definition byte_count (bytes : list Z) : Z := Z.of_nat (length bytes).
Definition sent_count (log : client_log) : Z := Z.of_nat (length (sent_requests log)).

Lemma assertSafeURL_answers u : answers (assertSafeURL u allowLoopback).
Proof. unfold assertSafeURL. repeat (apply answers_if; [answer|]). done. Qed.
Lemma resolved_public_answers addresses : answers (resolved_public allowLoopback addresses).
Proof. unfold resolved_public. destruct addresses as [[|]|]; [answer| |answer]. repeat (apply answers_if; [answer|]). done. Qed.
Lemma read_body_answers total chunks : answers (read_body limits total chunks).
Proof.
  revert total. induction chunks as [|[chunk|] chunks IH]; intros total; cbn [read_body]; try done.
  apply answers_if; [answer|]. apply answers_bind; [apply IH|done].
Qed.
Lemma redirected_answers response state : answers (redirected limits allowLoopback request response state).
Proof.
  unfold redirected. apply answers_if; [answer|]. destruct (response_header _ _) as [[|c location]|]; [answer| |answer].
  apply answers_if; [answer|]. destruct (resolveURL _ _); [|answer].
  apply answers_bind; [apply assertSafeURL_answers|]. intros []. by apply answers_if; [answer|].
Qed.

Lemma checked_log_snoc log event : checked_log log ->
  (forall sent, event = Sent sent -> sent_ok log sent) -> checked_log (log ++ [event]).
Proof.
  intros Hlog Hev before sent after H.
  destruct after as [|e after _] using rev_ind.
  - apply app_inj_tail in H as [-> ->]. by apply Hev.
  - rewrite app_comm_cons, app_assoc in H. apply app_inj_tail in H as [-> ->]. by eapply Hlog.
Qed.
Lemma host_checked_mono log log' u : host_checked log u -> host_checked (log ++ log') u.
Proof.
  intros [Hs [H|(a & Hin & H)]]; split; [done|by left|done|]. right. exists a. split; [|done].
  apply elem_of_app. by left.
Qed.
Lemma sent_ok_mono log log' sent : sent_ok log sent -> sent_ok (log ++ log') sent.
Proof. intros [H ?]. split; [by apply host_checked_mono|done]. Qed.
Lemma sent_count_sent log sent : sent_count (log ++ [Sent sent]) = sent_count log + 1.
Proof. unfold sent_count. rewrite sent_requests_app, length_app. cbn. lia. Qed.
Lemma sent_count_resolved log h a : sent_count (log ++ [Resolved h a]) = sent_count log.
Proof. unfold sent_count. rewrite sent_requests_app, length_app. cbn. lia. Qed.

(** ** The steps of a request *)

Definition checked_upto (bound : Z) (log : client_log) : Prop := checked_log log /\ 2 * sent_count log <= bound.
Context {W : Type} (net : Network W).
Notation triple := (triple (W := W)).

Lemma requestOnce_checked left_ retryable sent bound :
  triple (fun log => checked_upto bound log /\ sent_ok log sent)
    (requestOnce (logged net) left_ retryable sent)
    (fun r log => answers r /\ checked_upto (bound + 2 * (if retryable then Z.of_nat left_ + 1 else 1)) log).
Proof.
  assert (Hend : forall (r : acquired FetchResponse) bound, answers r ->
    triple (fun log => checked_upto bound log /\ sent_ok log sent) (io_return r)
      (fun r log => answers r /\ checked_upto bound log)).
  { intros r b Hr. apply triple_return. by intros log [? _]. }
  assert (Hmore : forall b b' (r : acquired FetchResponse) log, answers r /\ checked_upto b log -> b <= b' -> answers r /\ checked_upto b' log).
  { intros b b' r log (Hr & Hl & Hc) Hb. split; [done|]. split; [done|lia]. }
  revert bound. induction left_ as [|left_ IH]; intros bound; cbn [requestOnce]; apply triple_signals; intros [signal|].
  1, 3: eapply triple_post; [apply Hend; destruct signal; answer|intros r log H; eapply Hmore; [exact H|destruct retryable; lia]].
  all: eapply (triple_fetch _ _ _ _ (fun log => checked_upto (bound + 2) log /\ sent_ok log sent));
    [intros log [[Hl Hc] Hs]; split; [split; [apply checked_log_snoc; [done|by intros ? [= <-]]|
       rewrite sent_count_sent; lia]|by apply sent_ok_mono]|].
  all: intros [response| |];
    [eapply triple_post; [apply Hend; done|intros r log H; eapply Hmore; [exact H|destruct retryable; lia]]| |].
  all: apply triple_signals; intros [signal|];
    [eapply triple_post; [apply Hend; destruct signal; answer|intros r log H; eapply Hmore; [exact H|destruct retryable; lia]]|].
  1, 2: eapply triple_post; [apply Hend; answer|intros r log H; eapply Hmore; [exact H|destruct retryable; lia]].
  all: destruct retryable;
    [|eapply triple_post; [apply Hend; answer|intros r log H; eapply Hmore; [exact H|lia]]].
  all: eapply triple_post; [apply (IH (bound + 2))|intros r log H; eapply Hmore; [exact H|lia]].
Qed.
Lemma assertResolvedPublicHost_checked u bound : assertSafeURL u allowLoopback = Ok tt ->
  triple (checked_upto bound) (assertResolvedPublicHost (logged net) allowLoopback u)
    (fun r log => answers r /\ checked_upto bound log /\ (r = Ok tt -> host_checked log u)).
Proof.
  intros Hu. unfold assertResolvedPublicHost. apply triple_check; [by rewrite Hu|]. intros [] _. cbv zeta.
  destruct (isIP _ =? 0) eqn:E; cbn [negb].
  - apply triple_lookup. intros addresses. apply triple_return. intros log (log0 & [Hl Hc] & ->).
    split; [apply resolved_public_answers|]. split.
    + split; [by apply checked_log_snoc|]. by rewrite sent_count_resolved.
    + intros Hp. split; [done|]. right. exists addresses. split; [|done]. apply elem_of_app. right. by left.
  - apply triple_return. intros log Hl. split; [done|]. split; [done|]. intros _. split; [done|]. left. by apply Z.eqb_neq.
Qed.

(** ** The loop *)

Record loop_state (state : ClientState) : Prop := {
  ls_send : may_send (ct_url state) (ct_headers state);
  ls_attempts : 0 <= ct_attempts state < maxAttempts limits;
  ls_redirects : 0 <= ct_redirects state <= maxRedirects limits;
}.
(** The rounds that are left, and twice the requests that may be sent in them. *)
Definition rounds (state : ClientState) : Z :=
  (maxRedirects limits - ct_redirects state) + (maxAttempts limits - ct_attempts state).
Definition budget (retryable : bool) (state : ClientState) : Z :=
  let attempts := maxAttempts limits - ct_attempts state in
  let redirects := maxRedirects limits - ct_redirects state in
  if retryable then attempts * (2 * redirects + attempts + 1) else 2 * (redirects + 1).
(** An answer, and the bytes of a good one. *)
Definition bounded_answer (r : acquired (list Z * FetchResponse)) : Prop :=
  answers r /\ forall bytes response, r = Ok (bytes, response) -> byte_count bytes <= maxResponseBytes limits.

Lemma without_credentials_clean headers : without_credentials (withoutCredentialHeaders headers).
Proof.
  unfold without_credentials, withoutCredentialHeaders. apply Forall_forall. intros h Hh.
  apply list_elem_of_In, filter_In in Hh as [_ Hh]. by apply negb_true_iff.
Qed.
Lemma without_credentials_subset headers : withoutCredentialHeaders headers ⊆ headers.
Proof.
  unfold withoutCredentialHeaders. intros h Hh. apply list_elem_of_In, filter_In in Hh as [Hh _]. by apply list_elem_of_In.
Qed.
Lemma redirected_state response state next : redirected limits allowLoopback request response state = Ok next ->
  loop_state state -> loop_state next /\ rounds next = rounds state - 1 /\
  ct_attempts next = ct_attempts state /\ ct_redirects next = ct_redirects state + 1.
Proof.
  unfold redirected. intros H [(Hsub & Hcred & Horigin) Ha Hr]. ok_step.
  destruct (response_header _ _) as [[|c location]|]; try done. ok_step.
  destruct (resolveURL _ _) as [u|]; [|done]. ok_inv. bool_inv. unfold rounds. cbn.
  split; [|lia]. split; cbn; [|done|lia].
  match goal with Hx : negb (jeqb _ _) && _ = false |- _ => rename Hx into Hcross end.
  destruct (jeqb (url_origin u) (url_origin (ct_url state))) eqn:Eo; cbn [negb andb orb] in *.
  - apply jeqb_true in Eo. unfold may_send. rewrite Eo. split; [|split; [|done]].
    + destruct (_ || _); [|done]. etrans; [apply without_credentials_subset|done].
    + intros Hne. destruct (_ || _); [apply without_credentials_clean|by apply Hcred].
  - rewrite orb_true_r. split; [|split].
    + etrans; [apply without_credentials_subset|done].
    + intros _. apply without_credentials_clean.
    + intros Hf. by rewrite Hf in Hcross.
Qed.
Lemma read_body_bound total chunks bytes : total <= maxResponseBytes limits ->
  read_body limits total chunks = Ok (Some bytes) -> total + byte_count bytes <= maxResponseBytes limits.
Proof.
  unfold byte_count. revert total bytes. induction chunks as [|[chunk|] chunks IH]; intros total bytes Ht H; cbn [read_body] in H; try done.
  - injection H as <-. cbn. lia.
  - ok_step. bool_inv. destruct (read_body _ _ _) as [[rest|]|] eqn:E; cbn in H; try done. injection H as <-.
    specialize (IH _ _ ltac:(done) E). rewrite length_app. lia.
Qed.
Lemma readResponseBytes_checked response bound : 0 <= maxResponseBytes limits ->
  triple (checked_upto bound) (readResponseBytes (logged net) limits response)
    (fun r log => (answers r /\ forall bytes, r = Ok bytes -> byte_count bytes <= maxResponseBytes limits) /\
                  checked_upto bound log).
Proof.
  intros Hm. unfold readResponseBytes. destruct (declared_over _ _).
  - apply triple_return. intros log Hl. split; [|done]. split; [answer|done].
  - apply triple_check.
    + intros e log He Hl. split; [|done]. split; [|done]. intros [= ->]. by eapply read_body_answers.
    + intros [bytes|] Hb.
      * apply triple_return. intros log Hl. split; [|done]. split; [done|]. intros b [= <-]. by eapply (read_body_bound 0).
      * apply triple_signals. intros signal. apply triple_return. intros log Hl. split; [|done].
        split; [destruct signal as [[]|]; answer|done].
Qed.
(** Twice what a round sends, and what it leaves for the others. *)
Definition round_cost (retryable : bool) (state : ClientState) : Z :=
  2 * (if retryable then Z.of_nat (Z.to_nat (maxAttempts limits - 1 - ct_attempts state)) + 1 else 1).
Lemma budget_round retryable state : loop_state state -> 0 < round_cost retryable state <= budget retryable state.
Proof. intros [_ Ha Hr]. unfold round_cost, budget. destruct retryable; [rewrite Z2Nat.id by lia; nia|lia]. Qed.
Lemma budget_redirect retryable state next : loop_state state ->
  ct_attempts next = ct_attempts state -> ct_redirects next = ct_redirects state + 1 ->
  round_cost retryable state + budget retryable next <= budget retryable state.
Proof.
  intros [_ Ha Hr] H1 H2. unfold round_cost, budget. rewrite H1, H2. destruct retryable; [rewrite Z2Nat.id by lia; nia|lia].
Qed.
Lemma budget_retry state : loop_state state -> round_cost true state + budget true (retried state) <= budget true state.
Proof. intros [_ Ha Hr]. unfold round_cost, budget. cbn. rewrite Z2Nat.id by lia. nia. Qed.
Lemma retried_state state : loop_state state -> ct_attempts state + 1 < maxAttempts limits ->
  loop_state (retried state) /\ rounds (retried state) = rounds state - 1.
Proof. intros [Hs Ha Hr] H. unfold rounds. cbn. split; [split; cbn; [done|lia|done]|lia]. Qed.

Lemma client_loop_checked fuel retryable state bound : loop_state state -> 0 <= maxResponseBytes limits ->
  rounds state <= Z.of_nat fuel ->
  triple (checked_upto bound) (client_loop (logged net) limits allowLoopback fixedOrigin fuel url retryable request state)
    (fun r log => bounded_answer r /\ checked_upto (bound + budget retryable state) log).
Proof.
  intros Hstate Hm. revert state bound Hstate. induction fuel as [|fuel IH]; intros state bound Hs Hfuel.
  { destruct Hs as [_ ? ?]. unfold rounds in Hfuel. lia. }
  pose proof (budget_round retryable state Hs) as Hround. pose proof Hs as [Hsend _ _].
  assert (Hrefuse : forall e b log, answers (Err (A := list Z * FetchResponse) e) -> checked_upto b log ->
            b <= bound + budget retryable state -> bounded_answer (Err e) /\ checked_upto (bound + budget retryable state) log).
  { intros e b log He [Hl Hc] Hb. split; [by split|]. split; [done|lia]. }
  cbn [client_loop]. apply triple_check.
  { intros e log He Hl. eapply Hrefuse; [|exact Hl|lia]. intros [= ->]. by eapply assertSafeURL_answers. }
  intros [] Hsafe. eapply triple_bind; [by apply assertResolvedPublicHost_checked| |].
  { intros e log (He & Hl & _). eapply Hrefuse; [|exact Hl|lia]. intros [= ->]. by apply He. }
  intros []. destruct (_ && _).
  { apply triple_return. intros log (_ & Hl & _). eapply Hrefuse; [answer|exact Hl|lia]. }
  eapply triple_bind; [eapply triple_weaken; [apply (requestOnce_checked _ _ _ bound)|]| |].
  { intros log (_ & Hl & Hh). split; [done|]. split; [by apply Hh|exact Hsend]. }
  { intros e log [He Hl]. eapply Hrefuse; [intros [= ->]; by apply He|exact Hl|fold (round_cost retryable state); lia]. }
  intros response. fold (round_cost retryable state). cbv zeta. destruct (isRedirectStatus _).
  - apply triple_check.
    + intros e log He [_ Hl]. eapply Hrefuse; [|exact Hl|lia]. intros [= ->]. by eapply redirected_answers.
    + intros next Hnext. apply redirected_state in Hnext as (Hn & Hrounds & Ha & Hr); [|done].
      pose proof (budget_redirect retryable state next Hs Ha Hr).
      eapply triple_post; [eapply triple_weaken; [apply (IH next (bound + round_cost retryable state)); [done|lia]|]|].
      * by intros log [_ Hl].
      * intros r log (Hb & Hl & Hc). split; [done|]. split; [done|lia].
  - destruct ((fr_status response <? 200) || _).
    + destruct (_ && _) eqn:E.
      * bool_inv. subst retryable. pose proof (budget_retry state Hs).
        destruct (retried_state state Hs ltac:(done)) as [Hn Hrounds].
        eapply triple_post; [eapply triple_weaken; [apply (IH (retried state) (bound + round_cost true state)); [done|lia]|]|].
        -- by intros log [_ Hl].
        -- intros r log (Hb & Hl & Hc). split; [done|]. split; [done|lia].
      * apply triple_return. intros log [_ Hl]. eapply Hrefuse; [answer|exact Hl|lia].
    + eapply triple_bind; [eapply triple_weaken; [by apply (readResponseBytes_checked response (bound + round_cost retryable state))|]| |].
      * by intros log [_ Hl].
      * intros e log [[He _] Hl]. eapply Hrefuse; [intros [= ->]; by apply He|exact Hl|lia].
      * intros bytes. apply triple_return. intros log [[_ Hb] [Hl Hc]]. split; [|split; [done|lia]].
        split; [done|]. intros b resp [= <- <-]. by apply Hb.
Qed.
End Confined.

(** ** The log is only watched *)

Section Erasure.
Context {U : UnicodeTables} {RS : UrlResolver} {W : Type} (net : Network W).

(** The first program is the second with a log, to which it only adds. *)
Definition watches {A} (p : io (client_log * W) A) (q : io W A) : Prop :=
  forall w, exists added, forall log, p (log, w) = ((q w).1, (log ++ added, (q w).2)).
Lemma watches_return {A} (r : acquired A) : watches (io_return r) (io_return r).
Proof. intros w. exists []. intros log. by rewrite app_nil_r. Qed.
Lemma watches_bind {A B} (p : io (client_log * W) A) q (f : A -> io (client_log * W) B) g :
  watches p q -> (forall a, watches (f a) (g a)) -> watches (io_bind p f) (io_bind q g).
Proof.
  intros Hp Hf w. unfold io_bind. destruct (Hp w) as [l Hl]. destruct (q w) as [[a|e] w1]; cbn in *.
  - destruct (Hf a w1) as [l' Hl']. exists (l ++ l'). intros log. by rewrite Hl, Hl', app_assoc.
  - exists l. intros log. by rewrite Hl.
Qed.
Lemma watches_signals {B} (f : _ -> io (client_log * W) B) g :
  (forall a, watches (f a) (g a)) -> watches (io_await (signals (logged net)) f) (io_await (signals net) g).
Proof.
  intros Hf w. unfold io_await. cbn. destruct (signals net w) as [a w1]. destruct (Hf a w1) as [l Hl]. by exists l.
Qed.
Lemma watches_fetch {B} request (f : _ -> io (client_log * W) B) g :
  (forall a, watches (f a) (g a)) -> watches (io_await (fetch (logged net) request) f) (io_await (fetch net request) g).
Proof.
  intros Hf w. unfold io_await. cbn. destruct (fetch net request w) as [a w1]. destruct (Hf a w1) as [l Hl].
  exists (Sent request :: l). intros log. by rewrite Hl, <- app_assoc.
Qed.
Lemma watches_lookup {B} hostname (f : _ -> io (client_log * W) B) g :
  (forall a, watches (f a) (g a)) -> watches (io_await (lookup (logged net) hostname) f) (io_await (lookup net hostname) g).
Proof.
  intros Hf w. unfold io_await. cbn. destruct (lookup net hostname w) as [a w1]. destruct (Hf a w1) as [l Hl].
  exists (Resolved hostname a :: l). intros log. by rewrite Hl, <- app_assoc.
Qed.
Ltac watch := repeat first
  [ apply watches_return | apply watches_bind; [|intros ?] | apply watches_signals; intros ?
  | apply watches_fetch; intros ? | apply watches_lookup; intros ? | case_match ]; auto.

Lemma requestOnce_watches left_ retryable request :
  watches (requestOnce (logged net) left_ retryable request) (requestOnce net left_ retryable request).
Proof. induction left_ as [|left_ IH]; cbn [requestOnce]; watch. Qed.
Lemma client_loop_watches limits allowLoopback fixedOrigin fuel start retryable request state :
  watches (client_loop (logged net) limits allowLoopback fixedOrigin fuel start retryable request state)
    (client_loop net limits allowLoopback fixedOrigin fuel start retryable request state).
Proof.
  revert state. induction fuel as [|fuel IH]; intros state; cbn [client_loop]; [watch|].
  unfold assertResolvedPublicHost, readResponseBytes. watch. apply requestOnce_watches.
Qed.
(** A run with a log gives the result of the run without. *)
Lemma client_bytes_watches limits allowLoopback fixedOrigin url request :
  watches (client_bytes (logged net) limits allowLoopback fixedOrigin url request)
    (client_bytes net limits allowLoopback fixedOrigin url request).
Proof. unfold client_bytes. watch; apply client_loop_watches. Qed.
End Erasure.

(** ** The theorems *)

Lemma mergeLimits_least input limits : mergeLimits input = Ok limits ->
  1 <= maxRedirects limits /\ 1 <= maxAttempts limits /\ 1 <= maxResponseBytes limits.
Proof.
  unfold mergeLimits. intros H. ok_inv.
  repeat match goal with Hx : limit_of _ _ _ _ = Ok _ |- _ => apply limit_of_least in Hx; [|done] end. done.
Qed.

Section Theorems.
Context {U : UnicodeTables} {RS : UrlResolver} {W : Type} (net : Network W).
Context (allowLoopback : bool) (fixedOrigin : jstr).

Lemma client_bytes_checked limits url request w r w' :
  1 <= maxRedirects limits /\ 1 <= maxAttempts limits /\ 1 <= maxResponseBytes limits ->
  client_bytes net limits allowLoopback fixedOrigin url request w = (r, w') ->
  exists log, client_bytes (logged net) limits allowLoopback fixedOrigin url request ([], w) = (r, (log, w')) /\
    bounded_answer limits r /\ checked_log allowLoopback url request log /\
    2 * sent_count log <= (if default (is_get_request (cq_method request)) (cq_retryable request)
                           then maxAttempts limits * (2 * maxRedirects limits + maxAttempts limits + 1)
                           else 2 * (maxRedirects limits + 1)).
Proof.
  intros Hlimits Hrun.
  destruct (client_bytes_watches net limits allowLoopback fixedOrigin url request w) as [log Hlog].
  specialize (Hlog []). rewrite Hrun in Hlog. cbn in Hlog. exists log. split; [exact Hlog|]. unfold client_bytes in Hlog.
  destruct (match cq_body request with Some _ => _ | None => _ end).
  { injection Hlog as <- <- _. split; [split; [answer|done]|]. split; [by intros [|] ? ?|].
    change (sent_count []) with 0. destruct (default _ _); nia. }
  eapply (client_loop_checked limits allowLoopback fixedOrigin url request net _ _ _ 0) in Hlog as (Hb & Hl & Hc).
  - split; [exact Hb|]. split; [exact Hl|]. unfold budget in Hc. cbn in Hc. destruct (default _ _); nia.
  - split; cbn; [|lia|lia]. done.
  - lia.
  - unfold rounds, client_fuel. cbn. lia.
  - split; [by intros [|] ? ?|done].
Qed.

(** C24. Whatever the resolver and the upstreams answer, every request a run of
    [HttpClient.bytes] sends passes [assertSafeURL] for its URL, its host is an
    address or resolved before to addresses that are not private, its headers
    are headers of the caller's request, without the credential ones when the
    origin is not that of the caller's URL, and without the cross-origin option
    the origin is always that one. *)
Theorem client_requests_confined (input : list (jstr * jsval)) (limits : AcquisitionLimits) (url : URL)
    (request : ClientRequest) (w w' : W) (r : acquired (list Z * FetchResponse)) :
  mergeLimits input = Ok limits ->
  client_bytes net limits allowLoopback fixedOrigin url request w = (r, w') ->
  exists log, client_bytes (logged net) limits allowLoopback fixedOrigin url request ([], w) = (r, (log, w')) /\
    forall before sent after, log = before ++ Sent sent :: after ->
      host_checked allowLoopback before (fq_url sent) /\ may_send url request (fq_url sent) (fq_headers sent).
Proof.
  intros Hl%mergeLimits_least Hrun. destruct (client_bytes_checked _ _ _ _ _ _ Hl Hrun) as (log & Hlog & _ & Hc & _).
  by exists log.
Qed.

(** C30. A run of [HttpClient.bytes] ends: it needs no more than
    [maxRedirects + maxAttempts] rounds, and its result is bytes of at most
    [maxResponseBytes] or an error of the code.  With R redirects and A attempts
    allowed it sends at most A (2 R + A + 1) / 2 requests, and at most R + 1
    when the request is not to be retried. *)
Theorem client_bytes_bounded (input : list (jstr * jsval)) (limits : AcquisitionLimits) (url : URL)
    (request : ClientRequest) (w w' : W) (r : acquired (list Z * FetchResponse)) :
  mergeLimits input = Ok limits ->
  client_bytes net limits allowLoopback fixedOrigin url request w = (r, w') ->
  r <> Err out_of_fuel /\
  (forall bytes response, r = Ok (bytes, response) -> Z.of_nat (length bytes) <= maxResponseBytes limits) /\
  exists log, client_bytes (logged net) limits allowLoopback fixedOrigin url request ([], w) = (r, (log, w')) /\
    2 * Z.of_nat (length (sent_requests log)) <=
      (if default (is_get_request (cq_method request)) (cq_retryable request)
       then maxAttempts limits * (2 * maxRedirects limits + maxAttempts limits + 1)
       else 2 * (maxRedirects limits + 1)).
Proof.
  intros Hl%mergeLimits_least Hrun. destruct (client_bytes_checked _ _ _ _ _ _ Hl Hrun) as (log & Hlog & [Ha Hb] & _ & Hc).
  split; [exact Ha|]. split; [exact Hb|]. by exists log.
Qed.
End Theorems.

(** ** A run *)

Definition demo_url (host path : string) : URL := {|
  url_protocol := js "https:"; url_username := []; url_password := []; url_hostname := js host; url_port := [];
  url_pathname := js path; url_search := []; url_hash := []; url_origin := js "https://" ++ js host;
  url_href := js "https://" ++ js host ++ js path |}.
Definition demo_resolver : UrlResolver := {| resolveURL _ _ := Some (demo_url "cdn.example" "/file") |}.
(** An environment of answers that are given in turn. *)
Definition scripted : Network (list FetchAnswer) := {|
  lookup _ w := (Some [js "93.184.216.34"], w);
  fetch _ w := match w with answer :: w' => (answer, w') | [] => (Failed, []) end;
  signals w := (None, w) |}.
Definition demo_request : ClientRequest := {|
  cq_method := None; cq_headers := [(js "accept", js "*/*"); (js "Authorization", js "Bearer secret")]; cq_body := None;
  cq_retryable := None; cq_allowCrossOriginRedirectWithoutAuth := true; cq_stripCredentialsOnRedirect := false;
  cq_rejectRedirects := false |}.
Definition demo_redirect : FetchAnswer :=
  Answered {| fr_status := 302; fr_headers := [(js "location", js "https://cdn.example/file")]; fr_body := [] |}.
Definition demo_status (status : Z) : FetchAnswer :=
  Answered {| fr_status := status; fr_headers := []; fr_body := [Some [104; 105]] |}.
Definition demo_run {W} (net : Network W) (w : W) : acquired (list Z * FetchResponse) * W :=
  client_bytes (U := ascii_tables) (RS := demo_resolver) net DEFAULT_ACQUISITION_LIMITS false
    (js "https://registry.example") (demo_url "registry.example" "/api") demo_request w.

(** The credentials stay with the origin, and a failed request is repeated. *)
Example demo_redirected :
  (fun sent => (url_hostname (fq_url sent), (fq_headers sent).*1)) <$>
    sent_requests (demo_run (logged scripted) ([], [demo_redirect; Failed; demo_status 200])).2.1 =
  [(js "registry.example", [js "accept"; js "Authorization"]); (js "cdn.example", [js "accept"]);
   (js "cdn.example", [js "accept"])].
Proof. vm_compute. reflexivity. Qed.
(** [maxAttempts] is 3: repetitions inside a round are not counted by the next
    round, and six requests are sent to a URL that answers 503 after failures. *)
Example demo_attempts_multiply :
  length (sent_requests (demo_run (logged scripted)
    ([], [Failed; Failed; demo_status 503; Failed; demo_status 503; demo_status 503])).2.1) = 6%nat.
Proof. vm_compute. reflexivity. Qed.

Definition demo_answer : acquired (list Z * FetchResponse) :=
  Ok ([104; 105], {| fr_status := 200; fr_headers := []; fr_body := [Some [104; 105]] |}).
Lemma client_requests_confined_witness :
  mergeLimits [] = Ok DEFAULT_ACQUISITION_LIMITS /\
  exists log, demo_run (logged scripted) ([], [demo_redirect; demo_status 200]) = (demo_answer, (log, [])) /\
    forall before sent after, log = before ++ Sent sent :: after ->
      host_checked (U := ascii_tables) false before (fq_url sent) /\
      may_send (U := ascii_tables) (demo_url "registry.example" "/api") demo_request (fq_url sent) (fq_headers sent).
Proof.
  split; [reflexivity|].
  eapply (client_requests_confined (U := ascii_tables) (RS := demo_resolver) scripted false (js "https://registry.example") []);
    [reflexivity|vm_compute; reflexivity].
Defined.
Lemma client_bytes_bounded_witness :
  mergeLimits [] = Ok DEFAULT_ACQUISITION_LIMITS /\ demo_answer <> Err out_of_fuel /\
  (forall bytes response, demo_answer = Ok (bytes, response) -> Z.of_nat (length bytes) <= 20 * 1024 * 1024) /\
  exists log, demo_run (logged scripted) ([], [demo_redirect; demo_status 200]) = (demo_answer, (log, [])) /\
    2 * Z.of_nat (length (sent_requests log)) <= 3 * (2 * 3 + 3 + 1).
Proof.
  split; [reflexivity|].
  apply (client_bytes_bounded (U := ascii_tables) (RS := demo_resolver) scripted false (js "https://registry.example") []
           DEFAULT_ACQUISITION_LIMITS (demo_url "registry.example" "/api") demo_request
           [demo_redirect; demo_status 200] [] demo_answer); [reflexivity|vm_compute; reflexivity].
Defined.
