(* ===== verification/RemoteSafety.v ===== *)
(** * What the acquisitions from remote sources guarantee

    The bundle that [acquireRegistry] returns is the one the other registry
    resolved: its canonical bytes, which are those storage keeps, hash to the
    resolved digest ([registry_bundle_pinned]).  Whatever the other registry and
    its hosts answer, every request goes to a checked host, and the credential
    goes to the origin of the configured base only
    ([registry_requests_confined]).  A chain of registries is short and has no
    cycle ([registry_chain_bounded]).  Requests to Tessl and ClawHub stay with
    their fixed origins, and what they deliver was confirmed by the provider and
    checked against the queued source ([tessl_source_verified],
    [clawhub_source_verified]).  [RegistryDemo] runs all three. *)

From Stdlib Require Import ZArith Lia SpecFloat.
From stdpp Require Import base list sorting strings sets.
From S2P Require Import Prelude HttpRepository Js Dates Json Numbers Wire Contracts Web Access Names PolicyEval.
From S2P Require Import Provenance Bundle Acquire Archive AcquireSources HttpClient AcquireSafety ArchiveSafety TarFormat.
From S2P Require Import ClientSafety AcquireRemote.

Local Open Scope Z_scope.
Local Open Scope io_scope.

(** ** A bundle does not depend on the limits it is read with *)

Section Pinned.
Context {U : UnicodeTables} {UP : UpperTable}.

Lemma acquire_file_limits limits limits' tally tally' v f t f' t' :
  acquire_file limits tally v = Ok (f, t) -> acquire_file limits' tally' v = Ok (f', t') -> f = f'.
Proof.
  intros ([(input & Hi & Hp) Ht _ Hx] & _)%acquire_file_sound ([(input' & Hi' & Hp') Ht' _ Hx'] & _)%acquire_file_sound.
  destruct Hp as [Hp _ _ _ _ _], Hp' as [Hp' _ _ _ _ _]. destruct f, f'. cbn in *. congruence.
Qed.
Lemma acquire_files_limits limits limits' tally tally' l fs fs' :
  acquire_files limits tally l = Ok fs -> acquire_files limits' tally' l = Ok fs' -> fs = fs'.
Proof.
  revert tally tally' fs fs'. induction l as [|v l IH]; intros tally tally' fs fs' H H'; cbn [acquire_files] in H, H'; [congruence|].
  destruct (acquire_file limits tally v) as [[f t]|] eqn:E; [|done]. destruct (acquire_file limits' tally' v) as [[f' t']|] eqn:E'; [|done].
  cbn [rbind] in H, H'. ok_inv. f_equal; [by eapply acquire_file_limits|by eapply IH].
Qed.
Lemma validate_bundle_limits limits limits' v b b' :
  validate_bundle_within limits v = Ok b -> validate_bundle_within limits' v = Ok b' -> b = b'.
Proof.
  unfold validate_bundle_within. intros H H'. destruct v as [| | | | | |props]; try done. ok_inv.
  destruct (obj_get props (js "files")) as [| | | | |l|]; try done. ok_inv. do 2 f_equal. by eapply acquire_files_limits.
Qed.

Context {SL : SegmentLaws U UP}.
(** [serializeSkillBundle] reads the bundle again, with the default limits. *)
Lemma serialized_bundle limits v b bytes : validate_bundle_within limits v = Ok b -> serializeSkillBundle b = Ok bytes ->
  validate_bundle_within DEFAULT_ACQUISITION_LIMITS (bundle_value b) = Ok b.
Proof.
  intros Hb Hs. unfold serializeSkillBundle in Hs. ok_inv.
  match goal with Hx : validateSkillBundle _ _ = Ok ?n |- _ =>
    change (validate_bundle_within DEFAULT_ACQUISITION_LIMITS (bundle_value b) = Ok n) in Hx; rename Hx into Hn end.
  apply validate_bundle_sound in Hb as (_ & l & _ & _ & Ha). destruct b as [fs]. cbn [files] in Ha.
  rewrite Hn. f_equal. eapply validate_bundle_limits; [exact Hn|]. by apply (acquired_bundle_accepted limits l).
Qed.
(** The bytes that were hashed are those storage keeps. *)
Lemma serialized_bundle_stored limits v b bytes :
  validate_bundle_within limits v = Ok b -> serializeSkillBundle b = Ok bytes ->
  Forall (fun f => wf_jstr (path f) /\ short_segments (path f)) (files b) ->
  encodeBundle (bundle_value b) = Ok bytes /\ decodeBundle bytes = Ok b.
Proof.
  intros Hb Hs Hf. pose proof (serialized_bundle _ _ _ _ Hb Hs) as Hd.
  apply validate_bundle_sound in Hd as (props & l & Hv & Hl & Ha). destruct b as [fs]. cbn [files] in *.
  destruct (bundle_value_files fs) as (props' & Hv' & _ & _ & Hl'). rewrite Hv in Hv'. injection Hv' as <-.
  rewrite Hl in Hl'. injection Hl' as ->.
  destruct (acquired_files_stored (file_value <$> fs) fs) as (_ & bytes' & Hs' & He & Hdec).
  - apply Forall_fmap. pose proof Ha as [_ (read & Hr & Hfs) [Hw _ _ _ _] _].
    apply Forall_forall. intros f Hin. rewrite Forall_forall in Hf, Hw. destruct (Hf f Hin) as [Hp Hsh].
    specialize (Hw f Hin). rewrite Hfs, js_sort_perm in Hin. apply list_elem_of_lookup in Hin as [i Hi].
    destruct (Forall2_lookup_r _ _ _ _ _ Hr Hi) as (w & _ & Hw').
    apply wf_value_embed. eapply file_data_ok; [|done]. by apply (acquired_file_spec DEFAULT_ACQUISITION_LIMITS w f default_limits_storable Hw' Hw).
  - done.
  - eapply Forall_impl; [exact Hf|]. by intros f [_ ?].
  - rewrite Hs in Hs'. injection Hs' as <-. done.
Qed.
End Pinned.

(** ** Runs that succeed *)

Lemma io_bind_Ok {W A B} (p : io W A) (f : A -> io W B) w b w' : io_bind p f w = (Ok b, w') ->
  exists a w1, p w = (Ok a, w1) /\ f a w1 = (Ok b, w').
Proof. unfold io_bind. destruct (p w) as [[a|e] w1]; [eauto|done]. Qed.
Lemma io_check_Ok {W A B} (r : acquired A) (f : A -> io W B) w b w' : io_bind (io_return r) f w = (Ok b, w') ->
  exists a, r = Ok a /\ f a w = (Ok b, w').
Proof. intros (a & w1 & [= -> <-] & H)%io_bind_Ok. eauto. Qed.
Ltac io_step H x E := first
  [ apply io_check_Ok in H as (x & E & H)
  | let w := fresh "w" in apply io_bind_Ok in H as (x & w & E & H) ].

Section Result.
Context {U : UnicodeTables} {UP : UpperTable} {SL : SegmentLaws U UP}.
Context {UR : UrlRuntime} {RS : UrlResolver} {US : UrlSetter} {DR : DateRuntime} {CR : Crypto}.
Context {W : Type} (net : Network W).

Lemma transferred_bundle_pinned descriptor bytes digest limits b : transferred_bundle descriptor bytes digest limits = Ok b ->
  exists v canonical, validate_bundle_within limits v = Ok b /\ serializeSkillBundle b = Ok canonical /\
    digestBytes canonical = digest.
Proof.
  unfold transferred_bundle. intros H. do 2 ok_step. destruct (textDecode bytes ≫= json_parse) as [v|]; [|done].
  ok_inv. bool_inv. eexists v, _. split; [eassumption|]. split; [eassumption|]. by apply jeqb_true.
Qed.
Lemma requireSha256Digest_Ok v digest : requireSha256Digest v = Ok digest -> v = JStr digest /\ isDigest digest = true.
Proof. unfold requireSha256Digest. destruct v; try done. destruct (isDigest s) eqn:E; [|done]. by intros [= <-]. Qed.

(** C22. The bundle acquired from another registry is the one that registry
    resolved: it answered the reference of the import request with a digest,
    the provenance names that digest as the revision, and the bytes storage
    keeps of the bundle hash to it and decode to the bundle. *)
Theorem registry_bundle_pinned (env : jstr -> option jstr) (now : Z) (upstream : Upstream)
    (importRequest : ImportRequest) (options : AcquireSkillOptions) (w w' : W) (result : AcquisitionResult) :
  acquireRegistry net env now upstream importRequest options w = (Ok result, w') ->
  Forall (fun f => wf_jstr (path f) /\ short_segments (path f)) (files (ar_bundle result)) ->
  let allowLoopback := default false (ao_allowLoopbackForTests options) in
  exists limits base headers hop resolved digest w1 bytes,
    normalizeRegistryBase (us_baseUrl upstream) allowLoopback = Ok base /\
    registry_post net limits allowLoopback base [js "v1"; js "resolve"] headers hop
      (resolution_payload importRequest) w = (Ok resolved, w1) /\
    field (field resolved "resolution") "digest" = JStr digest /\ isDigest digest = true /\
    ar_provenance result = registry_provenance upstream base (requested_ref importRequest) digest /\
    digestBytes bytes = digest /\
    encodeBundle (bundle_value (ar_bundle result)) = Ok bytes /\ decodeBundle bytes = Ok (ar_bundle result).
Proof.
  intros H Hf. cbv zeta. unfold acquireRegistry in H.
  io_step H limits El. io_step H base Eb. io_step H step Es. destruct step as [hop chain]. io_step H credential Ec.
  io_step H resolved Er. io_step H resolution Ep. io_step H digest Ed. io_step H resource Eid.
  io_step H authorized Ea. io_step H authorization Epa. io_step H authId Eai. io_step H u Em. io_step H described Edesc.
  io_step H descriptor Ecd. io_step H url Eu. io_step H theaders Eh. io_step H transfer Et.
  destruct transfer as [bytes response]. io_step H bundle Ebun. injection H as <- <-.
  apply transferred_bundle_pinned in Ebun as (v & canonical & Hv & Hc & Hd).
  destruct (serialized_bundle_stored _ _ _ _ Hv Hc Hf) as [He Hdec].
  apply requireSha256Digest_Ok in Ed as [Ed Hdig].
  exists limits, base, (registry_headers hop chain credential), hop, resolved, digest, w0, canonical.
  split; [exact Eb|]. split; [exact Er|]. split; [|by auto].
  destruct (field resolved "resolution") as [| | | | | |props]; try done. unfold parseResolution in Ep. ok_inv. exact Ed.
Qed.
End Result.

(** ** URLs below the base *)

(** A path text that the URL parser reads unit by unit. *)
Definition plain_unit (c : Z) : bool := negb (bool_decide (c ∈ [9; 10; 13; 92])).
Definition rooted (text : jstr) : Prop := (exists rest, text = 47 :: rest) /\ forallb plain_unit text = true.
(** What the code relies on of [URL]: the origin of a URL with a host is a URL
    with that origin, the path of such a URL is rooted, a path without repeated
    slashes is set as it is, a rooted text that does not begin with two slashes is
    resolved within the origin, a search parameter changes no origin, and the
    fixed origins of the sources are origins. *)
Class UrlLaws (UR : UrlRuntime) (RS : UrlResolver) (US : UrlSetter) : Prop := {
  parse_origin s u o : parseURL s = Some u -> parseURL (url_origin u) = Some o -> url_origin o = url_origin u;
  parse_rooted s u o : parseURL s = Some u -> url_hostname u <> [] -> parseURL (url_origin u) = Some o ->
    rooted (url_pathname u);
  set_origin s u p : parseURL s = Some u -> url_origin (setPathname p u) = url_origin u;
  set_pathname s u o : parseURL s = Some u -> url_hostname u <> [] -> parseURL (url_origin u) = Some o ->
    url_pathname (setPathname (base_pathname (url_pathname u)) u) = base_pathname (url_pathname u);
  resolve_rooted s o text u : parseURL s = Some o -> rooted text -> startsWith [47; 47] text = false ->
    resolveURL text o = Some u -> url_origin u = url_origin o;
  search_origin u key value : url_origin (setSearchParam key value u) = url_origin u;
  parse_fixed fixed u : fixed ∈ [TESSL_API_ORIGIN; CLAWHUB_API_ORIGIN] -> parseURL fixed = Some u ->
    url_origin u = fixed /\ url_pathname u = [47];
}.

Lemma squeeze_cons c s : squeeze_slashes (c :: s) =
  if (c =? 47) && (hd 0 s =? 47) then squeeze_slashes s else c :: squeeze_slashes s.
Proof.
  destruct (Z.eqb_spec c 47) as [->|Hne]; cbn [andb].
  - destruct s as [|d s]; [done|]. cbn [hd]. destruct (Z.eqb_spec d 47) as [->|Hd]; [done|].
    cbn [squeeze_slashes]. repeat case_match; done.
  - cbn [squeeze_slashes]. repeat case_match; done.
Qed.
Lemma squeeze_hd s : hd 0 (squeeze_slashes s) = hd 0 s.
Proof.
  induction s as [|c s IH]; [done|]. rewrite squeeze_cons. destruct (_ && _) eqn:E; [|done].
  bool_inv. subst c. rewrite IH. cbn [hd]. lia.
Qed.
Lemma squeeze_start s : hd 0 (squeeze_slashes s) = 47 -> hd 0 (tl (squeeze_slashes s)) <> 47.
Proof.
  induction s as [|c s IH]; [done|]. rewrite squeeze_cons. destruct (_ && _) eqn:E; [done|].
  cbn [hd tl]. intros ->. rewrite squeeze_hd. rewrite Z.eqb_refl in E. cbn [andb] in E. by apply Z.eqb_neq.
Qed.
Lemma squeeze_plain s : forallb plain_unit s = true -> forallb plain_unit (squeeze_slashes s) = true.
Proof.
  induction s as [|c s IH]; [done|]. rewrite squeeze_cons. cbn [forallb]. intros [Hc Hs]%andb_true_iff.
  destruct (_ && _); [auto|]. cbn [forallb]. by rewrite Hc, IH.
Qed.
(** The text without a final slash is the text, or the text is it and a slash. *)
Lemma without_final_slash_cases s : without_final_slash s = s \/ s = without_final_slash s ++ [47].
Proof.
  unfold without_final_slash. destruct (endsWith [47] s) eqn:E; [|by left]. right.
  apply endsWith_spec in E as [r ->]. by rewrite removelast_last.
Qed.
Lemma without_final_slash_plain s : forallb plain_unit s = true -> forallb plain_unit (without_final_slash s) = true.
Proof. intros H. destruct (without_final_slash_cases s) as [-> | E]; [done|]. rewrite E, forallb_app in H. by apply andb_true_iff in H as [? _]. Qed.
(** A slash alone, or a slash and another unit. *)
Definition single_rooted (text : jstr) : Prop := text = [47] \/ exists c rest, text = 47 :: c :: rest /\ c <> 47.
Lemma without_final_slash_single s : single_rooted s -> s <> [47] -> exists c rest, without_final_slash s = 47 :: c :: rest /\ c <> 47.
Proof.
  intros [?|(c & rest & -> & Hc)] Hne; [done|]. destruct (without_final_slash_cases (47 :: c :: rest)) as [-> | E]; [eauto|].
  destruct (without_final_slash _) as [|a [|b t]]; try done; cbn in E; injection E; intros; subst; try done; eauto.
Qed.
Lemma base_pathname_rooted p : rooted p -> forallb plain_unit (base_pathname p) = true /\ single_rooted (base_pathname p).
Proof.
  intros [[r ->] Hp]. unfold base_pathname.
  pose proof (squeeze_plain _ Hp) as Hs. pose proof (squeeze_hd (47 :: r)) as Hhd. cbn [hd] in Hhd.
  pose proof (squeeze_start _ Hhd) as Htl.
  pose proof (without_final_slash_plain _ Hs) as Hw. destruct (without_final_slash (squeeze_slashes (47 :: r))) as [|a t] eqn:E.
  - split; [done|by left].
  - split; [done|].
    assert (hd 0 (a :: t) = hd 0 (squeeze_slashes (47 :: r)) /\ (t <> [] -> hd 0 t = hd 0 (tl (squeeze_slashes (47 :: r))))) as [Ha Ht].
    { destruct (without_final_slash_cases (squeeze_slashes (47 :: r))) as [E'|E']; rewrite E in E'.
      - by rewrite <- E'.
      - rewrite E'. split; [done|]. by destruct t. }
    cbn [hd] in Ha. rewrite Hhd in Ha. subst a. destruct t as [|c t]; [by left|]. right. exists c, t. split; [done|].
    specialize (Ht ltac:(done)). cbn [hd] in Ht. by rewrite Ht.
Qed.

Lemma percent_byte_plain b : 0 <= b < 256 -> forallb plain_unit (percent_byte b) = true.
Proof.
  intros Hb. assert (forallb (fun b => forallb plain_unit (percent_byte b)) (seqZ 0 256) = true) as H by (vm_compute; reflexivity).
  rewrite forallb_forall in H. apply H, list_elem_of_In, elem_of_seqZ. lia.
Qed.
Lemma encoded_plain s e : wf_jstr s -> encoded_part s = Ok e -> forallb plain_unit e = true.
Proof.
  intros Hs. unfold encoded_part, encodeURIComponent. destruct (well_formed s); [|done]. intros [= <-].
  apply textEncode_bytes in Hs. induction Hs as [|b l Hb _ IH]; [done|]. cbn [fmap list_fmap concat].
  rewrite forallb_app, IH. by rewrite percent_byte_plain.
Qed.
Lemma encoded_join_plain l : Forall (fun e => forallb plain_unit e = true) l -> forallb plain_unit (join [47] l) = true.
Proof.
  induction 1 as [|e l He _ IH]; [done|]. destruct l as [|e' l]; [by rewrite <- He|].
  change (join [47] (e :: e' :: l)) with (e ++ [47] ++ join [47] (e' :: l)). by rewrite !forallb_app, He, IH.
Qed.

Section Urls.
Context {U : UnicodeTables} {UR : UrlRuntime} {RS : UrlResolver} {US : UrlSetter} {UL : UrlLaws UR RS US}.

Lemma parseFixedBase_Ok value allowLoopback base : parseFixedBase value allowLoopback = Ok base ->
  exists url, parseURL value = Some url /\ url_hostname url <> [] /\
    base = setPathname (base_pathname (url_pathname url)) url.
Proof.
  unfold parseFixedBase. destruct (parseURL value) as [url|]; [|done]. intros H. ok_inv. bool_inv. exists url.
  split; [done|]. split; [|done]. by apply jeqb_false.
Qed.
(** What an acquisition takes as its base. *)
Record based (base : URL) : Prop := {
  bs_origin o : parseURL (url_origin base) = Some o -> url_origin o = url_origin base;
  bs_path o : parseURL (url_origin base) = Some o ->
    forallb plain_unit (url_pathname base) = true /\ single_rooted (url_pathname base);
}.
Lemma parseFixedBase_based value allowLoopback base : parseFixedBase value allowLoopback = Ok base -> based base.
Proof.
  intros (u & Hu & Hhost & ->)%parseFixedBase_Ok.
  pose proof (set_origin _ _ (base_pathname (url_pathname u)) Hu) as Hset.
  split; rewrite Hset; intros o Ho; [by eapply parse_origin|].
  rewrite (set_pathname _ _ _ Hu Hhost Ho). by eapply base_pathname_rooted, parse_rooted.
Qed.
Lemma normalizeRegistryBase_based value allowLoopback base : normalizeRegistryBase value allowLoopback = Ok base -> based base.
Proof. destruct value as [[|c value]|]; try done. apply parseFixedBase_based. Qed.
(** The base is the fixed origin unless loopback is allowed. *)
Lemma normalizeSourceApiBase_based fixed value allowLoopback base : fixed ∈ [TESSL_API_ORIGIN; CLAWHUB_API_ORIGIN] ->
  normalizeSourceApiBase fixed value allowLoopback = Ok base ->
  based base /\ (url_origin base = fixed \/ (allowLoopback = true /\ isLoopbackHost (url_hostname base) = true)).
Proof.
  intros Hfixed H. destruct value as [value|]; cbn [normalizeSourceApiBase] in H.
  - ok_inv. bool_inv. match goal with Hx : parseFixedBase _ _ = Ok _ |- _ => apply parseFixedBase_based in Hx end.
    split; [done|]. destruct (jeqb (url_origin base) fixed) eqn:Eorigin; [left; by apply jeqb_true|right].
    by destruct allowLoopback, (isLoopbackHost _).
  - destruct (parseURL fixed) as [u|] eqn:Hu; [|done]. injection H as <-. destruct (parse_fixed _ _ Hfixed Hu) as [Ho Hp].
    split; [|by left]. split; intros o Hparse.
    + rewrite Ho in Hparse. rewrite Hu in Hparse. by injection Hparse as <-.
    + rewrite Hp. split; [done|by left].
Qed.
Lemma encoded_parts_plain parts encoded : Forall wf_jstr parts -> map_result encoded_part parts = Ok encoded ->
  Forall (fun e => forallb plain_unit e = true) encoded.
Proof.
  intros Hp H%map_result_Ok_Forall2. induction H as [|x y l k Hx _ IH]; [done|]. apply Forall_cons in Hp as [? ?].
  constructor; [by eapply encoded_plain|auto].
Qed.
(** Requests to paths below the base stay with its origin. *)
Lemma appendBasePath_origin base first c e parts url : based base -> encoded_part first = Ok (c :: e) -> c <> 47 ->
  Forall wf_jstr (first :: parts) -> appendBasePath base (first :: parts) = Ok url -> url_origin url = url_origin base.
Proof.
  intros [Horigin Hpath] Hfirst Hc0 Hparts H. unfold appendBasePath in H. ok_step.
  match goal with Hx : map_result _ _ = Ok ?l |- _ => rename l into encoded, Hx into Henc end.
  destruct (parseURL (url_origin base)) as [o|] eqn:Ho; [|done]. cbn [mbind option_bind] in H.
  rewrite <- (Horigin _ eq_refl). destruct (Hpath _ eq_refl) as [Hplain Hsingle].
  destruct (resolveURL _ o) as [url'|] eqn:Hr; [|done]. injection H as <-.
  pose proof (encoded_join_plain _ (encoded_parts_plain _ _ Hparts Henc)) as Hjoin.
  cbn [map_result] in Henc. rewrite Hfirst in Henc. cbn [rbind] in Henc.
  destruct (map_result encoded_part parts) as [rest|]; [|done]. injection Henc as <-.
  eapply resolve_rooted; [exact Ho| | |exact Hr]; destruct (jeqb _ _) eqn:Eroot.
  - split; [by eexists|]. exact Hjoin.
  - apply jeqb_false in Eroot. destruct (without_final_slash_single _ Hsingle Eroot) as (d & t & Ht & Hd).
    split; [rewrite Ht; by eexists|]. rewrite forallb_app, (without_final_slash_plain _ Hplain). exact Hjoin.
  - apply not_true_iff_false. intros [r' Hr']%startsWith_spec. destruct rest; injection Hr' as Hcc _; lia.
  - apply jeqb_false in Eroot. destruct (without_final_slash_single _ Hsingle Eroot) as (d & t & Ht & Hd).
    rewrite Ht. apply not_true_iff_false. intros [r' Hr']%startsWith_spec. injection Hr' as Hcc _. lia.
Qed.
End Urls.

(** ** What is sent *)

Section Confined.
Context {U : UnicodeTables} {UP : UpperTable} {UR : UrlRuntime} {RS : UrlResolver} {US : UrlSetter} {DR : DateRuntime}
  {CR : Crypto} {UL : UrlLaws UR RS US}.

(** Every request of a log goes to a checked host and is allowed. *)
Definition sent_within (allowLoopback : bool) (allowed : FetchRequest -> Prop) (log : client_log) (sent : FetchRequest) : Prop :=
  host_checked allowLoopback log (fq_url sent) /\ allowed sent.
Definition requests_within (allowLoopback : bool) (allowed : FetchRequest -> Prop) (log : client_log) : Prop :=
  forall before sent after, log = before ++ Sent sent :: after -> sent_within allowLoopback allowed before sent.
Definition log_within (allowLoopback : bool) (allowed : FetchRequest -> Prop) (bound : Z) (log : client_log) : Prop :=
  requests_within allowLoopback allowed log /\ sent_count log <= bound.
(** The client may be given the request: what it may send for it is allowed. *)
Definition request_within (allowed : FetchRequest -> Prop) (url : URL) (request : ClientRequest) : Prop :=
  forall sent, may_send url request (fq_url sent) (fq_headers sent) -> allowed sent.
(** Credentials stay with an origin, or everything does. *)
Definition credentials_kept (origin : jstr) (sent : FetchRequest) : Prop :=
  url_origin (fq_url sent) <> origin -> without_credentials (fq_headers sent).
Definition stays (origin : jstr) (sent : FetchRequest) : Prop := url_origin (fq_url sent) = origin.

Lemma host_checked_after allowLoopback log log' u : host_checked allowLoopback log' u -> host_checked allowLoopback (log ++ log') u.
Proof.
  intros [Hs [H|(a & Hin & H)]]; split; [done|by left|done|]. right. exists a. split; [|done]. apply elem_of_app. by right.
Qed.
Lemma request_stays url request : cq_allowCrossOriginRedirectWithoutAuth request = false ->
  request_within (stays (url_origin url)) url request.
Proof. intros Hc sent (_ & _ & Hsame). by apply Hsame. Qed.
Lemma stays_credentials origin sent : stays origin sent -> credentials_kept origin sent.
Proof. intros H Hne. by destruct Hne. Qed.
Lemma request_clean origin url request : without_credentials (cq_headers request) ->
  request_within (credentials_kept origin) url request.
Proof.
  intros Hh sent (Hsub & _) _. unfold without_credentials in *. rewrite Forall_forall in *. intros h Hin. by apply Hh, Hsub.
Qed.
Lemma requests_within_app allowLoopback allowed url request log log' : request_within allowed url request ->
  requests_within allowLoopback allowed log -> checked_log allowLoopback url request log' ->
  requests_within allowLoopback allowed (log ++ log').
Proof.
  intros Hr Hl Hc before sent after [(k & -> & E)|(k & -> & E)]%app_eq_inv.
  - destruct k as [|event k].
    + rewrite app_nil_r in *. symmetry in E. destruct (Hc [] sent after E) as [Hh Hm].
      split; [|by apply Hr]. rewrite <- (app_nil_r before). by apply host_checked_after.
    + injection E as <- _. by apply (Hl before sent k).
  - destruct (Hc k sent after E) as [Hh Hm]. split; [by apply host_checked_after|by apply Hr].
Qed.

Context {W : Type} (net : Network W).
Notation triple := (triple (W := W)).

(** The program keeps a log within, and adds to it up to a bound. *)
Definition sends {A} (allowLoopback : bool) (allowed : FetchRequest -> Prop) (b bound : Z) (p : io (client_log * W) A) : Prop :=
  triple (log_within allowLoopback allowed b) p (fun _ log => log_within allowLoopback allowed bound log).
Lemma log_within_mono allowLoopback allowed b b' log : log_within allowLoopback allowed b log -> b <= b' ->
  log_within allowLoopback allowed b' log.
Proof. intros [? ?] ?. split; [done|lia]. Qed.
Lemma sends_return {A} allowLoopback allowed b bound (r : acquired A) : b <= bound ->
  sends allowLoopback allowed b bound (io_return r).
Proof. intros Hb. apply triple_return. intros log Hl. by eapply log_within_mono. Qed.
Lemma sends_check {A B} allowLoopback allowed b bound (a : acquired A) (f : A -> io (client_log * W) B) : b <= bound ->
  (forall x, a = Ok x -> sends allowLoopback allowed b bound (f x)) ->
  sends allowLoopback allowed b bound (io_bind (io_return a) f).
Proof. intros Hb Hf. apply triple_check; [|exact Hf]. intros e log _ Hl. by eapply log_within_mono. Qed.
(** A part that sends at most [cost] requests, and the rest. *)
Lemma sends_bind {A B} allowLoopback allowed b cost bound (p : io (client_log * W) A) (f : A -> io (client_log * W) B) :
  sends allowLoopback allowed b (b + cost) p -> b + cost <= bound ->
  (forall x, sends allowLoopback allowed (b + cost) bound (f x)) ->
  sends allowLoopback allowed b bound (io_bind p f).
Proof.
  intros Hp Hb Hf. eapply triple_bind; [exact Hp| |exact Hf]. intros e log Hl. exact (log_within_mono _ _ _ _ _ Hl Hb).
Qed.

Definition least_limits (limits : AcquisitionLimits) : Prop :=
  1 <= maxRedirects limits /\ 1 <= maxAttempts limits /\ 1 <= maxResponseBytes limits.
Lemma client_bytes_sends limits allowLoopback fixedOrigin url request allowed b :
  least_limits limits -> cq_retryable request = Some false -> request_within allowed url request ->
  sends allowLoopback allowed b (b + (maxRedirects limits + 1))
    (client_bytes (logged net) limits allowLoopback fixedOrigin url request).
Proof.
  intros Hlimits Hretry Hreq log w r log' w' [Hl Hn] Hrun.
  destruct (client_bytes_watches net limits allowLoopback fixedOrigin url request w) as [added Hadded].
  destruct (client_bytes net limits allowLoopback fixedOrigin url request w) as [r1 w1] eqn:Erun. cbn in Hadded.
  rewrite Hadded in Hrun. injection Hrun as <- <- <-.
  destruct (client_bytes_checked net _ _ _ _ _ _ _ _ Hlimits Erun) as (log1 & Hlog1 & _ & Hc & Hcount).
  rewrite Hadded in Hlog1. injection Hlog1 as <-. rewrite Hretry in Hcount. cbn [default] in Hcount.
  split; [by eapply requests_within_app|]. unfold sent_count in *.
  rewrite sent_requests_app, length_app. cbn in Hcount. lia.
Qed.
Lemma client_json_sends limits allowLoopback fixedOrigin url request allowed b :
  least_limits limits -> cq_retryable request = Some false -> request_within allowed url request ->
  sends allowLoopback allowed b (b + (maxRedirects limits + 1))
    (client_jsonWithHeaders (logged net) limits allowLoopback fixedOrigin url request).
Proof.
  intros Hl Hr Hw. pose proof Hl as [? _]. unfold client_jsonWithHeaders.
  eapply (sends_bind _ _ _ (maxRedirects limits + 1)); [by apply client_bytes_sends|lia|].
  intros [bytes response]. destruct (textDecode bytes ≫= json_parse); apply sends_return; lia.
Qed.

(** *** The checks between the requests *)

Create HintDb answers.

Lemma answers_ok {A} (a : A) : answers (Ok a).
Proof. done. Qed.
Ltac answer_checks := repeat match goal with
  | |- answers (Ok _) => apply answers_ok
  | |- answers (Err (refuse _)) => answer
  | |- answers (if _ then Err _ else _) => apply answers_if
  | |- answers (rbind _ _) => apply answers_bind; [|intros ?]
  | |- answers (match ?x with _ => _ end) => destruct x
  end.
Lemma map_result_answers {A B} (f : A -> acquired B) l : (forall a, answers (f a)) -> answers (map_result f l).
Proof. intros Hf. induction l as [|a l IH]; cbn [map_result]; answer_checks; auto. Qed.
Lemma appendBasePath_answers base parts : answers (appendBasePath base parts).
Proof.
  unfold appendBasePath. answer_checks. apply map_result_answers. intros part. unfold encoded_part. answer_checks.
Qed.
Lemma enforce_answers response hop limits : answers (enforceRemoteProxyHeaders response hop limits).
Proof. unfold enforceRemoteProxyHeaders. answer_checks. Qed.
Lemma require_digest_answers v : answers (requireSha256Digest v).
Proof. unfold requireSha256Digest. answer_checks. Qed.
Lemma require_string_answers v : answers (requireString v).
Proof. unfold requireString. answer_checks. Qed.
Lemma parseResolution_answers v : answers (parseResolution v).
Proof. unfold parseResolution. answer_checks; apply require_digest_answers. Qed.
Lemma parseAuthorization_answers v : answers (parseAuthorization v).
Proof. unfold parseAuthorization. answer_checks. Qed.
Lemma authorization_matches_answers a r : answers (assertAuthorizationMatchesResolution a r).
Proof. unfold assertAuthorizationMatchesResolution. cbv zeta. answer_checks. Qed.
Lemma checked_descriptor_answers v digest now limits : answers (checked_descriptor v digest now limits).
Proof.
  unfold checked_descriptor, parseTransferDescriptor, descriptor_size, descriptor_expiry. answer_checks; apply require_digest_answers.
Qed.
Lemma sanitize_answers headers : answers (sanitizeTransferHeaders headers).
Proof. induction headers as [|[key []] headers IH]; cbn [sanitizeTransferHeaders]; answer_checks; done. Qed.
Lemma resolveDescriptorURL_answers value base allowLoopback : answers (resolveDescriptorURL value base allowLoopback).
Proof. unfold resolveDescriptorURL. answer_checks. apply assertSafeURL_answers. Qed.
Lemma proxy_step_answers upstream base options limits : answers (proxy_step upstream base options limits).
Proof. unfold proxy_step. answer_checks. Qed.
Lemma credentialHeader_answers env upstream : answers (credentialHeader env upstream).
Proof. unfold credentialHeader. answer_checks. Qed.
Lemma validateSkillPath_answers p limits reject : answers (validateSkillPath p limits reject).
Proof. unfold validateSkillPath. cbv zeta. answer_checks. Qed.
Lemma acquire_files_answers limits tally l : answers (acquire_files limits tally l).
Proof.
  revert tally. induction l as [|v l IH]; intros tally; cbn [acquire_files]; [done|].
  apply answers_bind; [|intros [f t]; apply answers_bind; [apply IH|done]].
  unfold acquire_file, count_file. answer_checks; apply validateSkillPath_answers.
Qed.
Lemma validate_bundle_answers limits v : answers (validate_bundle_within limits v).
Proof. unfold validate_bundle_within. answer_checks; apply acquire_files_answers. Qed.
Lemma transferred_bundle_answers descriptor bytes digest limits : answers (transferred_bundle descriptor bytes digest limits).
Proof.
  unfold transferred_bundle. cbv zeta. answer_checks; try apply validate_bundle_answers.
  unfold serializeSkillBundle. apply answers_bind; [|done]. apply (validate_bundle_answers DEFAULT_ACQUISITION_LIMITS).
Qed.

Lemma sanitize_clean value headers : sanitizeTransferHeaders value = Ok headers -> without_credentials headers.
Proof.
  revert headers. induction value as [|[key v] value IH]; intros headers H; cbn [sanitizeTransferHeaders] in H;
    [injection H as <-; constructor|].
  destruct v; try done. ok_inv. cbv zeta. specialize (IH _ eq_refl).
  match goal with |- context [if ?b then _ else _] => destruct b eqn:Ekey end; [done|].
  constructor; [|done]. rewrite !orb_false_iff in Ekey. destruct_and!. unfold credential_header. cbv zeta.
  rewrite !orb_false_iff. cbn [fst]. done.
Qed.

Lemma digest_wf v digest : requireSha256Digest v = Ok digest -> wf_jstr digest.
Proof.
  intros [_ Hd]%requireSha256Digest_Ok. unfold isDigest in Hd. bool_inv.
  match goal with Hx : startsWith _ _ = true |- _ => apply startsWith_spec in Hx as [r ->] end.
  apply Forall_app. split; [apply js_wf|]. rewrite drop_app_length' in Hd by done.
  apply Is_true_true, forallb_True in Hd. eapply Forall_impl; [exact Hd|]. intros c Hc%Is_true_true.
  unfold is_hex_lower, is_digit in Hc. apply orb_true_iff in Hc. rewrite !between_spec in Hc. unfold wf_unit. lia.
Qed.
(** *** The acquisition *)

Lemma registry_post_sends limits allowLoopback value base parts headers hop body b : least_limits limits ->
  normalizeRegistryBase value allowLoopback = Ok base -> Forall wf_jstr parts ->
  sends allowLoopback (credentials_kept (url_origin base)) b (b + (maxRedirects limits + 1))
    (registry_post (logged net) limits allowLoopback base (js "v1" :: parts) headers hop body).
Proof.
  intros Hl Hb Hp. pose proof Hl as [? _]. unfold registry_post. apply sends_check; [lia|].
  intros url Hurl. eapply (sends_bind _ _ _ (maxRedirects limits + 1)); [|lia|].
  - apply client_json_sends; [done|done|]. intros sent Hsent. apply stays_credentials.
    assert (url_origin url = url_origin base) as <-.
    { eapply (appendBasePath_origin base (js "v1") 118 [49]); [by eapply normalizeRegistryBase_based|reflexivity|done| |exact Hurl].
      constructor; [apply js_wf|done]. }
    by apply (request_stays url (post_request headers body) eq_refl).
  - intros [v response]. apply sends_check; [lia|]. intros [] _. apply sends_return. lia.
Qed.
Lemma acquireRegistry_sends env now upstream importRequest options limits base :
  let allowLoopback := default false (ao_allowLoopbackForTests options) in
  mergeLimits (default [] (ao_limits options)) = Ok limits ->
  normalizeRegistryBase (us_baseUrl upstream) allowLoopback = Ok base ->
  sends allowLoopback (credentials_kept (url_origin base)) 0 (4 * (maxRedirects limits + 1))
    (acquireRegistry (logged net) env now upstream importRequest options).
Proof.
  intros allowLoopback Hlimits Hb. unfold acquireRegistry. fold allowLoopback.
  pose proof (mergeLimits_least _ _ Hlimits) as Hleast. pose proof Hleast as [? _].
  rewrite Hlimits. apply sends_check; [lia|]. intros ? [= <-].
  rewrite Hb. apply sends_check; [lia|]. intros ? [= <-].
  apply sends_check; [lia|]. intros [hop chain] _. apply sends_check; [lia|]. intros credential _. cbv zeta.
  eapply (sends_bind _ _ _ (maxRedirects limits + 1)); [eapply registry_post_sends; [done|exact Hb|]|lia|].
  { apply Forall_singleton, js_wf. }
  intros resolved. apply sends_check; [lia|]. intros resolution _. apply sends_check; [lia|]. intros digest Hdigest.
  apply sends_check; [lia|]. intros resource _.
  eapply (sends_bind _ _ _ (maxRedirects limits + 1)); [eapply registry_post_sends; [done|exact Hb|]|lia|].
  { apply Forall_singleton, js_wf. }
  intros authorized. do 3 (apply sends_check; [lia|]; intros ? _).
  eapply (sends_bind _ _ _ (maxRedirects limits + 1)); [eapply registry_post_sends; [done|exact Hb|]|lia|].
  { repeat (apply Forall_cons_2; [first [apply js_wf|by eapply digest_wf]|]). done. }
  intros described. do 2 (apply sends_check; [lia|]; intros ? _).
  apply sends_check; [lia|]. intros theaders Hth%sanitize_clean.
  eapply (sends_bind _ _ _ (maxRedirects limits + 1)); [apply client_bytes_sends; [done|done|by apply request_clean]|lia|].
  intros [bytes response]. apply sends_check; [lia|]. intros bundle _. apply sends_return. lia.
Qed.

(** *** It answers *)

Definition io_answers {W' A} (p : io W' A) : Prop := forall w, answers (p w).1.
Lemma io_answers_return {W' A} (r : acquired A) : answers r -> io_answers (W' := W') (io_return r).
Proof. by intros H w. Qed.
Lemma io_answers_bind {W' A B} (p : io W' A) (f : A -> io W' B) : io_answers p -> (forall a, io_answers (f a)) ->
  io_answers (io_bind p f).
Proof.
  intros Hp Hf w. unfold io_bind. specialize (Hp w). destruct (p w) as [[a|e] w1]; cbn in *; [apply Hf|].
  intros [= ->]. by apply Hp.
Qed.
Lemma io_answers_check {W' A B} (a : acquired A) (f : A -> io W' B) : answers a ->
  (forall x, a = Ok x -> io_answers (f x)) -> io_answers (io_bind (io_return a) f).
Proof. intros Ha Hf w. unfold io_bind, io_return. destruct a as [x|e]; [by apply Hf|]. intros [= ->]. by apply Ha. Qed.
Lemma client_bytes_answers limits allowLoopback fixedOrigin url request : least_limits limits ->
  io_answers (client_bytes net limits allowLoopback fixedOrigin url request).
Proof.
  intros Hl w. destruct (client_bytes _ _ _ _ _ _ w) as [r w'] eqn:E.
  by destruct (client_bytes_checked net _ _ _ _ _ _ _ _ Hl E) as (_ & _ & [Ha _] & _).
Qed.
Lemma registry_post_answers limits allowLoopback base parts headers hop body : least_limits limits ->
  io_answers (registry_post net limits allowLoopback base parts headers hop body).
Proof.
  intros Hl. unfold registry_post, client_jsonWithHeaders.
  apply io_answers_bind; [apply io_answers_return, appendBasePath_answers|]. intros url.
  apply io_answers_bind.
  - apply io_answers_bind; [by apply client_bytes_answers|]. intros [bytes response].
    destruct (textDecode bytes ≫= json_parse); apply io_answers_return; [done|answer].
  - intros [v response]. apply io_answers_bind; [apply io_answers_return, enforce_answers|]. done.
Qed.
Lemma normalizeRegistryBase_answers value allowLoopback : answers (normalizeRegistryBase value allowLoopback).
Proof. unfold normalizeRegistryBase, parseFixedBase. cbv zeta. answer_checks. Qed.
#[local] Hint Resolve normalizeRegistryBase_answers proxy_step_answers credentialHeader_answers parseResolution_answers
  require_digest_answers require_string_answers parseAuthorization_answers authorization_matches_answers
  checked_descriptor_answers resolveDescriptorURL_answers sanitize_answers transferred_bundle_answers
  registry_post_answers client_bytes_answers : answers.
Lemma acquireRegistry_answers env now upstream importRequest options limits :
  mergeLimits (default [] (ao_limits options)) = Ok limits ->
  io_answers (acquireRegistry net env now upstream importRequest options).
Proof.
  intros Hlimits. pose proof (mergeLimits_least _ _ Hlimits) as Hleast. unfold acquireRegistry. rewrite Hlimits. cbv zeta.
  apply io_answers_check; [done|]. intros ? [= <-].
  repeat first
    [ apply io_answers_return, answers_ok
    | apply io_answers_check; [auto with answers|intros ? _]
    | apply io_answers_bind; [auto with answers|intros ?]
    | case_match ].
Qed.

End Confined.

(** ** The log of an acquisition *)

Ltac watch_steps := repeat first
  [ apply watches_return | apply client_bytes_watches | apply watches_bind; [|intros ?]
  | match goal with |- watches (match ?x with _ => _ end) _ => destruct x end
  | match goal with |- watches (client_json _ _ _ _ _ _) _ => unfold client_json, client_jsonWithHeaders end ].

Section Requests.
Context {U : UnicodeTables} {UP : UpperTable} {UR : UrlRuntime} {RS : UrlResolver} {US : UrlSetter} {DR : DateRuntime}
  {CR : Crypto} {UL : UrlLaws UR RS US}.
Context {W : Type} (net : Network W).

Lemma registry_post_watches limits allowLoopback base parts headers hop body :
  watches (registry_post (logged net) limits allowLoopback base parts headers hop body)
    (registry_post net limits allowLoopback base parts headers hop body).
Proof.
  unfold registry_post, client_jsonWithHeaders. watch_steps.
Qed.
Lemma acquireRegistry_watches env now upstream importRequest options :
  watches (acquireRegistry (logged net) env now upstream importRequest options)
    (acquireRegistry net env now upstream importRequest options).
Proof.
  unfold acquireRegistry. cbv zeta. watch_steps; apply registry_post_watches.
Qed.

(** C23. Whatever the other registry and its hosts answer, an acquisition ends
    and sends at most four times [maxRedirects + 1] requests; each goes to a URL
    that passes [assertSafeURL] and whose host is an address or resolved before
    to addresses that may be reached, and one to another origin than that of the
    configured base carries no credentials. *)
Theorem registry_requests_confined (env : jstr -> option jstr) (now : Z) (upstream : Upstream)
    (importRequest : ImportRequest) (options : AcquireSkillOptions) (limits : AcquisitionLimits) (base : URL)
    (w w' : W) (r : acquired AcquisitionResult) :
  let allowLoopback := default false (ao_allowLoopbackForTests options) in
  mergeLimits (default [] (ao_limits options)) = Ok limits ->
  normalizeRegistryBase (us_baseUrl upstream) allowLoopback = Ok base ->
  acquireRegistry net env now upstream importRequest options w = (r, w') ->
  r <> Err out_of_fuel /\
  exists log, acquireRegistry (logged net) env now upstream importRequest options ([], w) = (r, (log, w')) /\
    Z.of_nat (length (sent_requests log)) <= 4 * (maxRedirects limits + 1) /\
    forall before sent after, log = before ++ Sent sent :: after ->
      host_checked allowLoopback before (fq_url sent) /\
      (url_origin (fq_url sent) <> url_origin base -> without_credentials (fq_headers sent)).
Proof.
  intros allowLoopback Hlimits Hbase Hrun.
  destruct (acquireRegistry_watches env now upstream importRequest options w) as [log Hlog].
  specialize (Hlog []). rewrite Hrun in Hlog. cbn [fst snd] in Hlog.
  split; [eapply acquireRegistry_answers in Hlimits; specialize (Hlimits w); by rewrite Hrun in Hlimits|].
  exists log. split; [exact Hlog|].
  destruct (acquireRegistry_sends net env now upstream importRequest options limits base Hlimits Hbase [] w _ _ _
              ltac:(split; [by intros [|] ? ?|reflexivity]) Hlog) as [Hr Hc].
  split; [exact Hc|exact Hr].
Qed.
End Requests.

(** ** The chain of registries *)

Section Chain.

Lemma proxy_step_guarded upstream base options limits hop next : proxy_step upstream base options limits = Ok (hop, next) ->
  let chain := default [] (ao_registryChain options) in
  next = chain ++ [registry_identity upstream base] /\ 0 <= hop < maxRegistryHops limits /\
  Z.of_nat (length next) <= maxRegistryHops limits /\ jlen (textEncode (join [44] next)) <= MAX_CHAIN_BYTES /\
  registry_identity upstream base ∉ chain.
Proof.
  intros H. cbv zeta. unfold proxy_step in H. destruct (safe_integer _) as [h|]; [|done]. ok_inv. bool_inv.
  split; [done|]. split; [lia|]. split; [rewrite length_app; cbn; lia|]. split; [done|].
  match goal with Hx : existsb _ _ = false |- _ => rewrite existsb_false_Forall, Forall_forall in Hx; rename Hx into Hall end.
  intros Hin. specialize (Hall _ Hin). by rewrite jeqb_refl in Hall.
Qed.
(** The chains that arise when registries hand on what they sent, whichever
    options they have otherwise. *)
Inductive handed_on (limits : AcquisitionLimits) : list jstr -> Prop :=
| chain_empty : handed_on limits []
| chain_step upstream base options hop next :
    handed_on limits (default [] (ao_registryChain options)) ->
    proxy_step upstream base options limits = Ok (hop, next) -> handed_on limits next.
(** A chain of registries never comes back to one and is at most
    [maxRegistryHops] long, so that passing a request on ends. *)
Theorem registry_chain_bounded (limits : AcquisitionLimits) (chain : list jstr) :
  0 <= maxRegistryHops limits -> handed_on limits chain ->
  NoDup chain /\ Z.of_nat (length chain) <= maxRegistryHops limits.
Proof.
  intros Hl. induction 1 as [|upstream base options hop next Hchain [IH _] Hstep]; [split; [constructor|done]|].
  apply proxy_step_guarded in Hstep as (-> & _ & Hlen & _ & Hnew). split; [|exact Hlen].
  apply NoDup_app. split; [done|]. split; [|apply NoDup_singleton].
  intros x Hx Hin. apply list_elem_of_singleton in Hin as ->. by apply Hnew.
Qed.
End Chain.

(** ** Sources with a fixed origin *)

Section Sources.
Context {U : UnicodeTables} {UP : UpperTable} {UR : UrlRuntime} {RS : UrlResolver} {US : UrlSetter} {DR : DateRuntime}
  {CR : Crypto} {CO : Collation} {ZL : Zlib}.
Context {W : Type} (net : Network W).

(** The resolver of the token beside a log. *)
Definition logged_token (resolver : TokenResolver W) : TokenResolver (client_log * W) :=
  match resolver with
  | TokenValue token => TokenValue token
  | TokenCallback call => TokenCallback (fun state => let '(token, w) := call state.2 in (token, (state.1, w)))
  end.
Definition logged_input (input : SourceAcquireInput W) : SourceAcquireInput (client_log * W) := {|
  si_source := si_source input; si_limits := si_limits input; si_allowLoopbackForTests := si_allowLoopbackForTests input;
  si_token := logged_token (si_token input); si_apiBaseUrl := si_apiBaseUrl input; si_upstreamId := si_upstreamId input;
  si_externalId := si_externalId input; si_externalSnapshotHash := si_externalSnapshotHash input;
  si_provenanceKind := si_provenanceKind input; si_provenanceRepository := si_provenanceRepository input;
  si_provenancePath := si_provenancePath input; si_sourceReference := si_sourceReference input |}.
Lemma resolveTesslToken_watches input :
  watches (resolveTesslToken (logged_input input)) (resolveTesslToken input).
Proof.
  intros w. exists []. intros log. unfold resolveTesslToken, io_await, io_return. cbn [si_token logged_input].
  destruct (si_token input) as [call|token]; cbn; [destruct (call w)|]; by rewrite app_nil_r.
Qed.
Lemma acquireTesslSource_watches now input :
  watches (acquireTesslSource (logged net) now (logged_input input)) (acquireTesslSource net now input).
Proof. unfold acquireTesslSource. cbv zeta. watch_steps; apply resolveTesslToken_watches. Qed.
Lemma acquireClawHubSource_watches now input :
  watches (acquireClawHubSource (logged net) now (logged_input input)) (acquireClawHubSource net now input).
Proof. unfold acquireClawHubSource. cbv zeta. watch_steps. Qed.

Context {UL : UrlLaws UR RS US}.
Notation sends := (sends (W := W)).

Lemma resolveTesslToken_sends input allowLoopback allowed b :
  sends allowLoopback allowed b (b + 0) (resolveTesslToken (logged_input input)).
Proof.
  intros log w r log' w' Hl Hrun. destruct (resolveTesslToken_watches input w) as [added Hadded].
  unfold resolveTesslToken in *. cbn [si_token logged_input] in *. destruct (si_token input) as [call|token]; cbn in Hrun.
  - unfold io_await in Hrun. cbn in Hrun. destruct (call w). injection Hrun as _ <- _. by rewrite Z.add_0_r.
  - injection Hrun as _ <- _. by rewrite Z.add_0_r.
Qed.
Lemma source_get_sends limits allowLoopback base url headers b : least_limits limits -> url_origin url = url_origin base ->
  sends allowLoopback (stays (url_origin base)) b (b + (maxRedirects limits + 1))
    (client_bytes (logged net) limits allowLoopback (url_origin base) url (provider_request headers)).
Proof.
  intros Hl Ho. apply client_bytes_sends; [done|done|]. rewrite <- Ho. by apply request_stays.
Qed.
Lemma source_json_sends limits allowLoopback base url headers b : least_limits limits -> url_origin url = url_origin base ->
  sends allowLoopback (stays (url_origin base)) b (b + (maxRedirects limits + 1))
    (client_json (logged net) limits allowLoopback (url_origin base) url (provider_request headers)).
Proof.
  intros Hl Ho. pose proof Hl as [? _]. unfold client_json. eapply (sends_bind _ _ _ (maxRedirects limits + 1)); [|lia|].
  - apply client_json_sends; [done|done|]. rewrite <- Ho. by apply request_stays.
  - intros [v response]. apply sends_return. lia.
Qed.
Lemma wf_field v key s : wf_value v -> field v key = JStr s -> wf_jstr s.
Proof.
  intros Hv H. destruct v as [| | | | | |props]; try done. cbn [field] in H. pose proof (wf_value_get props (js key) Hv) as Hg.
  by rewrite H in Hg.
Qed.
Lemma validateTesslCoordinate_Ok v s : validateTesslCoordinate v = Ok s -> v = JStr s.
Proof. unfold validateTesslCoordinate. destruct v; try done. intros H. by ok_inv. Qed.
Lemma validateTesslSource_wf v limitsInput source : wf_value v -> validateTesslSourceIdentity v limitsInput = Ok source ->
  wf_jstr (ts_workspace source) /\ wf_jstr (ts_tile source) /\ wf_jstr (ts_version source).
Proof.
  intros Hv H. unfold validateTesslSourceIdentity in H. ok_inv. cbn.
  repeat match goal with Hx : validateTesslCoordinate _ = Ok _ |- _ => apply validateTesslCoordinate_Ok in Hx end.
  repeat split; by eapply wf_field.
Qed.
Lemma acquireTesslSource_sends now input limits : wf_value (si_source input) ->
  default false (si_allowLoopbackForTests input) = false -> mergeLimits (default [] (si_limits input)) = Ok limits ->
  sends false (stays TESSL_API_ORIGIN) 0 (2 * (maxRedirects limits + 1))
    (acquireTesslSource (logged net) now (logged_input input)).
Proof.
  intros Hwf Hloop Hlimits. pose proof (mergeLimits_least _ _ Hlimits) as Hleast. pose proof Hleast as [? _].
  unfold acquireTesslSource. cbn [si_allowLoopbackForTests si_limits si_source si_apiBaseUrl logged_input].
  rewrite Hloop, Hlimits. cbv zeta. apply sends_check; [lia|]. intros ? [= <-].
  apply sends_check; [lia|]. intros source (Hws & Ht & Hv)%validateTesslSource_wf; [|done].
  apply sends_check; [lia|]. intros base [Hbase [Horigin|[? _]]]%normalizeSourceApiBase_based; [|done|by left].
  rewrite <- Horigin.
  assert (Hin : forall rest url, Forall wf_jstr rest ->
    appendBasePath base (js "v1" :: rest) = Ok url -> url_origin url = url_origin base).
  { intros rest url Hr. apply (appendBasePath_origin base (js "v1") 118 [49]); [done|reflexivity|done|].
    constructor; [apply js_wf|done]. }
  apply sends_check; [lia|]. intros url Hurl%Hin; [|by repeat (apply Forall_cons_2; [first [done|apply js_wf]|])].
  eapply (sends_bind _ _ _ 0); [apply resolveTesslToken_sends|lia|]. intros token.
  apply sends_check; [lia|]. intros metadataURL Hmeta%Hin; [|by repeat (apply Forall_cons_2; [first [done|apply js_wf]|])].
  eapply (sends_bind _ _ _ (maxRedirects limits + 1)); [by apply source_json_sends|lia|]. intros metadata.
  apply sends_check; [lia|]. intros live _. destruct (negb _); [apply sends_return; lia|].
  eapply (sends_bind _ _ _ (maxRedirects limits + 1)); [by apply source_get_sends|lia|]. intros [bytes response].
  do 3 (apply sends_check; [lia|]; intros ? _). apply sends_return. lia.
Qed.
Lemma validateClawHubCoordinate_Ok v s : validateClawHubCoordinate v = Ok s -> v = JStr s.
Proof. unfold validateClawHubCoordinate. destruct v; try done. intros H. by ok_inv. Qed.
Lemma validateClawHubSource_wf v limitsInput source files : wf_value v ->
  validateClawHubSourceIdentity v limitsInput = Ok (source, files) -> wf_jstr (cs_slug source) /\ wf_jstr (cs_version source).
Proof.
  intros Hv H. unfold validateClawHubSourceIdentity in H. ok_inv. cbn.
  repeat match goal with Hx : validateClawHubCoordinate _ = Ok _ |- _ => apply validateClawHubCoordinate_Ok in Hx end.
  split; by eapply wf_field.
Qed.
Lemma clawhub_download_url_origin base source url : based base -> clawhub_download_url base source = Ok url ->
  url_origin url = url_origin base.
Proof.
  intros [Horigin _] H. unfold clawhub_download_url in H. destruct (parseURL (url_origin base)) as [o|] eqn:Ho; [|done].
  cbn [mbind option_bind] in H. destruct (resolveURL _ o) as [u|] eqn:Hr; [|done]. injection H as <-.
  rewrite search_origin. rewrite <- (Horigin _ eq_refl).
  assert (url_origin u = url_origin o) as <-.
  { eapply resolve_rooted; [exact Ho| | |exact Hr]; [split; [by eexists|reflexivity]|reflexivity]. }
  destruct (jeqb _ _); by rewrite !search_origin.
Qed.
Lemma acquireClawHubSource_sends now input limits : wf_value (si_source input) ->
  default false (si_allowLoopbackForTests input) = false -> mergeLimits (default [] (si_limits input)) = Ok limits ->
  sends false (stays CLAWHUB_API_ORIGIN) 0 (3 * (maxRedirects limits + 1))
    (acquireClawHubSource (logged net) now (logged_input input)).
Proof.
  intros Hwf Hloop Hlimits. pose proof (mergeLimits_least _ _ Hlimits) as Hleast. pose proof Hleast as [? _].
  unfold acquireClawHubSource. cbn [si_allowLoopbackForTests si_limits si_source si_apiBaseUrl logged_input].
  rewrite Hloop, Hlimits. cbv zeta. apply sends_check; [lia|]. intros ? [= <-].
  apply sends_check; [lia|]. intros [source files] [Hs Hv]%validateClawHubSource_wf; [|done].
  apply sends_check; [lia|]. intros base [Hbase [Horigin|[? _]]]%normalizeSourceApiBase_based; [|done|by right; left].
  rewrite <- Horigin.
  assert (Hin : forall rest url, Forall wf_jstr rest ->
    appendBasePath base (js "api" :: rest) = Ok url -> url_origin url = url_origin base).
  { intros rest url Hr. apply (appendBasePath_origin base (js "api") 97 [112; 105]); [done|reflexivity|done|].
    constructor; [apply js_wf|done]. }
  apply sends_check; [lia|]. intros url Hurl%Hin; [|by repeat (apply Forall_cons_2; [first [done|apply js_wf]|])].
  eapply (sends_bind _ _ _ (maxRedirects limits + 1)); [by apply source_json_sends|lia|]. intros detail.
  apply sends_check; [lia|]. intros ? _.
  apply sends_check; [lia|]. intros versionURL Hversion%Hin; [|by repeat (apply Forall_cons_2; [first [done|apply js_wf]|])].
  eapply (sends_bind _ _ _ (maxRedirects limits + 1)); [by apply source_json_sends|lia|]. intros payload.
  apply sends_check; [lia|]. intros ? _.
  apply sends_check; [lia|]. intros downloadURL Hdownload%clawhub_download_url_origin; [|done].
  eapply (sends_bind _ _ _ (maxRedirects limits + 1)); [by apply source_get_sends|lia|]. intros [bytes response].
  do 3 (apply sends_check; [lia|]; intros ? _). apply sends_return. lia.
Qed.

(** Without loopback, every request of an acquisition from Tessl goes to a
    checked host of api.tessl.io, whatever base URL the input names and whatever
    is answered; the token goes nowhere else. *)
Theorem tessl_requests_pinned (now : Z) (input : SourceAcquireInput W) (limits : AcquisitionLimits) (w w' : W)
    (r : acquired (SourceResolution TesslSource)) :
  wf_value (si_source input) -> default false (si_allowLoopbackForTests input) = false ->
  mergeLimits (default [] (si_limits input)) = Ok limits ->
  acquireTesslSource net now input w = (r, w') ->
  exists log, acquireTesslSource (logged net) now (logged_input input) ([], w) = (r, (log, w')) /\
    Z.of_nat (length (sent_requests log)) <= 2 * (maxRedirects limits + 1) /\
    forall before sent after, log = before ++ Sent sent :: after ->
      host_checked false before (fq_url sent) /\ url_origin (fq_url sent) = TESSL_API_ORIGIN.
Proof.
  intros Hwf Hloop Hlimits Hrun. destruct (acquireTesslSource_watches now input w) as [log Hlog].
  specialize (Hlog []). rewrite Hrun in Hlog. cbn [fst snd] in Hlog. exists log. split; [exact Hlog|].
  destruct (acquireTesslSource_sends now input limits Hwf Hloop Hlimits [] w _ _ _
              ltac:(split; [by intros [|] ? ?|reflexivity]) Hlog) as [Hr Hc].
  split; [exact Hc|exact Hr].
Qed.
(** The same of an acquisition from ClawHub. *)
Theorem clawhub_requests_pinned (now : Z) (input : SourceAcquireInput W) (limits : AcquisitionLimits) (w w' : W)
    (r : acquired (SourceResolution clawhub_coordinates)) :
  wf_value (si_source input) -> default false (si_allowLoopbackForTests input) = false ->
  mergeLimits (default [] (si_limits input)) = Ok limits ->
  acquireClawHubSource net now input w = (r, w') ->
  exists log, acquireClawHubSource (logged net) now (logged_input input) ([], w) = (r, (log, w')) /\
    Z.of_nat (length (sent_requests log)) <= 3 * (maxRedirects limits + 1) /\
    forall before sent after, log = before ++ Sent sent :: after ->
      host_checked false before (fq_url sent) /\ url_origin (fq_url sent) = CLAWHUB_API_ORIGIN.
Proof.
  intros Hwf Hloop Hlimits Hrun. destruct (acquireClawHubSource_watches now input w) as [log Hlog].
  specialize (Hlog []). rewrite Hrun in Hlog. cbn [fst snd] in Hlog. exists log. split; [exact Hlog|].
  destruct (acquireClawHubSource_sends now input limits Hwf Hloop Hlimits [] w _ _ _
              ltac:(split; [by intros [|] ? ?|reflexivity]) Hlog) as [Hr Hc].
  split; [exact Hc|exact Hr].
Qed.
End Sources.

(** *** What the sources deliver *)

Section Delivered.
Context {U : UnicodeTables} {UP : UpperTable} {SL : SegmentLaws U UP} {UR : UrlRuntime} {RS : UrlResolver} {US : UrlSetter}
  {DR : DateRuntime} {CR : Crypto} {CO : Collation} {ZL : Zlib}.
Context {W : Type} (net : Network W).

(** The bundle is stored under the digest its provenance names. *)
Definition stored_as (bundle : SkillBundle) (digest : option jstr) : Prop :=
  Forall (fun f => wf_jstr (path f) /\ short_segments (path f)) (files bundle) ->
  exists bytes, encodeBundle (bundle_value bundle) = Ok bytes /\ decodeBundle bytes = Ok bundle /\
    digest = Some (digestBytes bytes).
Lemma raw_bundle_stored limits l b canonical : bundleFromRawFiles limits l = Ok b -> serializeSkillBundle b = Ok canonical ->
  stored_as b (Some (digestBytes canonical)).
Proof.
  intros H Hc Hf. unfold bundleFromRawFiles in H. ok_inv.
  destruct (List.filter is_skill_file _) as [|skill [|]]; try done. ok_inv.
  destruct (serialized_bundle_stored _ _ _ _ H Hc Hf) as [He Hd]. by exists canonical.
Qed.
(** A bundle acquired from Tessl comes from the version whose fingerprint was
    queued, as the provider confirmed before the download, and from an archive
    with the queued digest, if there was one. *)
Theorem tessl_source_verified (now : Z) (input : SourceAcquireInput W) (w w' : W) (result : SourceResolution TesslSource) :
  acquireTesslSource net now input w = (Ok result, w') ->
  let source := sr_source result in
  exists limits base url headers metadata w1 w2 archive contentType href,
    validateTesslSourceIdentity (si_source input) (limits_value limits) = Ok source /\
    client_json net limits (default false (si_allowLoopbackForTests input)) (url_origin base) url
      (provider_request headers) w1 = (Ok metadata, w2) /\
    tesslVersionFingerprint metadata = Ok (ts_fingerprint source) /\
    sr_externalDigest result = digestBytes archive /\
    (forall digest, ts_artifactDigest source = Some digest -> digestBytes archive = digest) /\
    tessl_bundle source limits archive contentType href = Ok (sr_bundle result) /\
    stored_as (sr_bundle result) (pv_sourceDigest (sr_provenance result)).
Proof.
  intros H. cbv zeta. unfold acquireTesslSource in H.
  io_step H limits El. io_step H source Es. io_step H base Eb. io_step H url Eu. io_step H token Et. io_step H murl Em.
  io_step H metadata Ej. io_step H live Ef. destruct (jeqb live (ts_fingerprint source)) eqn:Efp; [|done]. cbn [negb] in H.
  apply jeqb_true in Efp. subst live.
  io_step H transfer Ec. destruct transfer as [bytes response]. io_step H bundle Ebu. io_step H canonical Eca.
  io_step H fetchedAt Efe. injection H as <- <-. cbn.
  do 9 eexists. exists (url_href url). split; [exact Es|]. split; [exact Ej|]. split; [exact Ef|]. split; [reflexivity|].
  pose proof Ebu as Hb. unfold tessl_bundle in Hb. ok_inv. split; [|split; [exact Ebu|by eapply raw_bundle_stored]].
  intros digest Hd. match goal with Hx : match ts_artifactDigest source with _ => _ end = false |- _ => rewrite Hd in Hx;
    apply negb_false_iff in Hx; by apply jeqb_true in Hx end.
Qed.
(** A bundle acquired from ClawHub comes from the release whose owner, slug,
    version and manifest were queued, as the provider confirmed before the
    download, and its files passed the manifest. *)
Theorem clawhub_source_verified (now : Z) (input : SourceAcquireInput W) (w w' : W)
    (result : SourceResolution clawhub_coordinates) :
  acquireClawHubSource net now input w = (Ok result, w') ->
  let source := (sr_source result).1 in
  let manifest := (sr_source result).2 in
  exists limits detail payload archive contentType href verified,
    validateClawHubSourceIdentity (si_source input) (limits_value limits) = Ok (source, manifest) /\
    clawHubDetailIdentity detail = Ok (cs_owner source, cs_slug source) /\
    clawHubVersionValue payload = Ok (cs_version source) /\
    (exists live, clawHubVersionManifest payload limits = Ok live /\
       assertClawHubManifestEqual (manifest_value manifest) (manifest_value live) limits = Ok tt) /\
    sr_externalDigest result = digestBytes archive /\
    (exists extracted, extractWellKnownArchive limits archive contentType href = Ok extracted /\
       verifyClawHubArchiveFiles extracted (manifest_value manifest) limits (Some source) = Ok verified) /\
    bundleFromRawFiles limits (raw_file <$> verified) = Ok (sr_bundle result) /\
    stored_as (sr_bundle result) (pv_sourceDigest (sr_provenance result)).
Proof.
  intros H. cbv zeta. unfold acquireClawHubSource in H.
  io_step H limits El. io_step H coords Es. destruct coords as [source manifest]. io_step H base Eb. io_step H url Eu.
  io_step H detail Ed. io_step H u Eda. io_step H vurl Ev. io_step H payload Ep. io_step H u' Eva. io_step H durl Edu.
  io_step H transfer Ec. destruct transfer as [bytes response]. io_step H bundle Ebu. io_step H canonical Eca.
  io_step H fetchedAt Efe. injection H as <- <-. cbn.
  unfold clawhub_detail_agrees in Eda. destruct (clawHubDetailIdentity detail) as [[owner slug]|] eqn:Edi; [|done].
  cbn [rbind] in Eda. ok_inv. unfold clawhub_version_agrees in Eva. ok_inv. unfold clawhub_bundle in Ebu. ok_inv. bool_inv.
  repeat match goal with Hx : jeqb _ _ = true |- _ => apply jeqb_true in Hx; subst end.
  destruct u'. do 7 eexists. split; [exact Es|]. split; [exact Edi|]. split; [eassumption|].
  split; [eexists; split; eassumption|]. split; [reflexivity|]. split; [eexists; split; eassumption|].
  split; [eassumption|]. by eapply raw_bundle_stored.
Qed.
End Delivered.

(** ** A run *)

Module RegistryDemo.
#[local] Existing Instances ascii_tables ascii_upper_table iso_runtime.
(** A stand-in with the size of SHA-256. *)
#[export] Instance crypto : Crypto :=
  {| sha256 bs := (fun b => b mod 256) <$> take 32 (reverse bs ++ replicate 32 0) |}.

Definition urls : list URL :=
  [demo_url "registry.example" "/"; demo_url "registry.example" "/api"; demo_url "cdn.example" "/";
   demo_url "api.tessl.io" "/"; demo_url "clawhub.ai" "/"].
#[export] Instance url_runtime : UrlRuntime := {|
  parseURL s := find_first (fun url => jeqb s (url_href url) || (jeqb s (url_origin url) && jeqb (url_pathname url) (js "/"))) urls |}.
Definition with_pathname (p : jstr) (u : URL) : URL := {|
  url_protocol := url_protocol u; url_username := url_username u; url_password := url_password u;
  url_hostname := url_hostname u; url_port := url_port u; url_pathname := p; url_search := url_search u;
  url_hash := url_hash u; url_origin := url_origin u; url_href := url_origin u ++ p |}.
#[export] Instance url_resolver : UrlResolver := {|
  resolveURL text base := match text with 47 :: _ => Some (with_pathname text base) | _ => parseURL text end |}.
#[export] Instance url_setter : UrlSetter := {| setPathname := with_pathname; setSearchParam _ _ u := u |}.
Lemma url_cases s u : parseURL s = Some u -> u ∈ urls.
Proof. intros [Hin _]%find_first_Some. exact Hin. Qed.
#[export] Instance url_laws : UrlLaws url_runtime url_resolver url_setter.
Proof.
  assert (Hall : forall (P : URL -> Prop), Forall P urls -> forall s u, parseURL s = Some u -> P u).
  { intros P HP s u Hu%url_cases. rewrite Forall_forall in HP. auto. }
  split.
  - intros s u o Hu. revert o. revert s u Hu.
    apply (Hall (fun u => forall o, parseURL (url_origin u) = Some o -> url_origin o = url_origin u)).
    repeat (apply Forall_cons_2; [intros o Ho; vm_compute in Ho; by injection Ho as <-|]). done.
  - intros s u o Hu _ _. revert s u Hu. apply (Hall (fun u => rooted (url_pathname u))).
    repeat (apply Forall_cons_2; [split; [by eexists|reflexivity]|]). done.
  - done.
  - done.
  - intros s o text u _ [[rest ->] _] _. cbn. by intros [= <-].
  - done.
  - intros fixed u Hf. rewrite !elem_of_cons, elem_of_nil in Hf.
    destruct Hf as [->|[->|[]]]; intros Hu; vm_compute in Hu; by injection Hu as <-.
Qed.

Definition upstream_of (kind : UpstreamKind) : Upstream := {|
  us_id := js "up_1"; us_organizationId := js "acme"; us_name := js "other"; us_kind := kind; us_enabled := true;
  us_repositories := None; us_baseUrl := Some (js "https://registry.example/api"); us_credentialEnv := Some (js "OTHER_TOKEN");
  us_namespace := js "@other"; us_configRevision := None |}.
Definition upstream : Upstream := upstream_of URegistry.
Definition env (name : jstr) : option jstr := if jeqb name (js "OTHER_TOKEN") then Some (js "secret") else None.
Definition importRequest : ImportRequest := {|
  iq_upstreamId := js "up_1"; iq_repository := None; iq_path := js "@other/demo"; iq_ref := None; iq_name := js "@acme/demo";
  iq_version := js "1.0.0"; iq_externalId := None; iq_externalSourceType := None; iq_externalSnapshotHash := HashAbsent;
  iq_feedId := None; iq_feedName := None; iq_feedConfigRevision := None; iq_sourceReference := None;
  iq_sourceCatalogId := None; iq_sourceCatalogConfigRevision := None; iq_sourceCatalogProviderVersion := None |}.
Definition options : AcquireSkillOptions :=
  {| ao_limits := None; ao_allowLoopbackForTests := None; ao_registryChain := None; ao_registryHop := None |}.
Definition input (kind : UpstreamKind) : AcquireSkillInput := {|
  ai_job := None; ai_upstream := Some (upstream_of kind); ai_importRequest := None; ai_import := Some importRequest;
  ai_request := None; ai_options := options; ai_nested := None |}.

(** The other registry: a resolution, an authorization, a transfer from another
    host, and the bytes. *)
Definition bytes : list Z := textEncode (stringify (bundle_data (files demo_acquired))).
Definition digest : jstr := Eval vm_compute in digestBytes bytes.
Definition said (document : wire) : FetchAnswer :=
  Answered {| fr_status := 200; fr_headers := [(js "x-private-skills-proxy-hop", js "1")];
              fr_body := [Some (textEncode (json_text document))] |}.
Definition resolution : wire := WObj [(js "kind", WStr (js "skill")); (js "resourceId", WStr (js "res_1")); (js "digest", WStr digest)].
Definition transfer (expiresAt : jstr) : wire := WObj [(js "transfer", WObj [
  (js "url", WStr (js "https://cdn.example/")); (js "method", WStr (js "GET")); (js "digest", WStr digest);
  (js "expiresAt", WStr expiresAt);
  (js "headers", WObj [(js "x-sig", WStr (js "1")); (js "Authorization", WStr (js "Bearer other"))])])].
Definition answers_of (authorized : wire) : list FetchAnswer :=
  [said (WObj [(js "resolution", resolution)]);
   said (WObj [(js "authorization", WObj [(js "id", WStr (js "auth_1")); (js "resolution", authorized)])]);
   said (transfer (toISOString 1700000060000));
   Answered {| fr_status := 200; fr_headers := []; fr_body := [Some bytes] |}].
Definition acquired_from {W} (net : Network W) (now : Z) (w : W) : acquired AcquisitionResult * W :=
  acquireRegistry net env now upstream importRequest options w.
Definition delivered : AcquisitionResult := {|
  ar_bundle := demo_acquired;
  ar_provenance := registry_provenance upstream (demo_url "registry.example" "/api") (js "@other/demo") digest |}.
Example acquired_ok : acquired_from scripted 1700000000000 (answers_of resolution) = (Ok delivered, []).
Proof. vm_compute. reflexivity. Qed.
(** What was sent, and which headers: the credential to the base, none of the
    other registry's choosing to the host of the transfer. *)
Example sent_to : (fun sent => (url_href (fq_url sent), (fq_headers sent).*1)) <$>
    sent_requests (acquired_from (logged scripted) 1700000000000 ([], answers_of resolution)).2.1 =
  let headers := [js "accept"; js "content-type"; js "x-private-skills-proxy-hop"; js "x-private-skills-proxy-chain";
                  js "authorization"] in
  [(js "https://registry.example/api/v1/resolve", headers);
   (js "https://registry.example/api/v1/install-authorizations", headers);
   (js "https://registry.example/api/v1/artifacts/" ++ default [] (encodeURIComponent digest) ++ js "/download", headers);
   (js "https://cdn.example/", [js "x-sig"])].
Proof. vm_compute. reflexivity. Qed.
Example other_resource : (acquired_from scripted 1700000000000
    (answers_of (WObj [(js "kind", WStr (js "skill")); (js "resourceId", WStr (js "res_2")); (js "digest", WStr digest)]))).1 =
  Err (refuse "invalid_registry_response").
Proof. vm_compute. reflexivity. Qed.
Example expired : (acquired_from scripted 1700000060000 (answers_of resolution)).1 = Err (refuse "transfer_expired").
Proof. vm_compute. reflexivity. Qed.
Example by_kind : (fun kind => (acquireRegistrySkill scripted env 1700000000000 (input kind) (answers_of resolution)).1) <$>
    [URegistry; UGithub] = [Ok delivered; Err (refuse "upstream_kind_mismatch")].
Proof. vm_compute. reflexivity. Qed.

Lemma registry_bundle_pinned_witness :
  acquired_from scripted 1700000000000 (answers_of resolution) = (Ok delivered, []) /\
  exists limits base headers hop resolved digest' w1 stored,
    normalizeRegistryBase (us_baseUrl upstream) false = Ok base /\
    registry_post scripted limits false base [js "v1"; js "resolve"] headers hop (resolution_payload importRequest)
      (answers_of resolution) = (Ok resolved, w1) /\
    field (field resolved "resolution") "digest" = JStr digest' /\ isDigest digest' = true /\
    ar_provenance delivered = registry_provenance upstream base (requested_ref importRequest) digest' /\
    digestBytes stored = digest' /\
    encodeBundle (bundle_value (ar_bundle delivered)) = Ok stored /\ decodeBundle stored = Ok (ar_bundle delivered).
Proof.
  split; [vm_compute; reflexivity|].
  apply (registry_bundle_pinned scripted env 1700000000000 upstream importRequest options (answers_of resolution) [] delivered).
  - vm_compute. reflexivity.
  - repeat (apply Forall_cons_2; [split; apply (bool_decide_unpack _); vm_compute; exact I|]). apply Forall_nil_2.
Defined.
Lemma registry_requests_confined_witness :
  normalizeRegistryBase (us_baseUrl upstream) false = Ok (demo_url "registry.example" "/api") /\
  acquired_from scripted 1700000000000 (answers_of resolution) = (Ok delivered, []) /\
  Ok (E := acquisition_error) delivered <> Err out_of_fuel /\
  exists log, acquired_from (logged scripted) 1700000000000 ([], answers_of resolution) = (Ok delivered, (log, [])) /\
    Z.of_nat (length (sent_requests log)) <= 4 * (3 + 1) /\
    forall before sent after, log = before ++ Sent sent :: after ->
      host_checked false before (fq_url sent) /\
      (url_origin (fq_url sent) <> js "https://registry.example" -> without_credentials (fq_headers sent)).
Proof.
  split; [vm_compute; reflexivity|]. split; [vm_compute; reflexivity|].
  apply (registry_requests_confined scripted env 1700000000000 upstream importRequest options
           DEFAULT_ACQUISITION_LIMITS (demo_url "registry.example" "/api") (answers_of resolution) [] (Ok delivered));
    vm_compute; reflexivity.
Defined.
(** *** Tessl and ClawHub *)

#[local] Existing Instances no_zlib unit_collation.
Definition ok_value {E A} (r : result E A) : option A := match r with Ok a => Some a | Err _ => None end.
Definition archive : list Z := ustar_archive demo_files.
Definition archived (document : wire) : list FetchAnswer :=
  [said document; Answered {| fr_status := 200; fr_headers := [(js "content-type", js "application/x-tar")];
                              fr_body := [Some archive] |}].
Definition source_input (source : wire) : SourceAcquireInput (list FetchAnswer) := {|
  si_source := wire_value source; si_limits := None; si_allowLoopbackForTests := None;
  si_token := TokenCallback (fun w => (Some (JStr (js "secret")), w)); si_apiBaseUrl := None; si_upstreamId := None;
  si_externalId := None; si_externalSnapshotHash := HashAbsent; si_provenanceKind := None; si_provenanceRepository := None;
  si_provenancePath := None; si_sourceReference := None |}.
Definition fingerprint : jstr := replicate 64 97.
Definition tessl_source : wire := WObj [
  (js "kind", WStr (js "tessl")); (js "workspace", WStr (js "acme")); (js "tile", WStr (js "demo"));
  (js "version", WStr (js "1.0.0")); (js "fingerprint", WStr fingerprint); (js "skillPath", WStr [])].
Definition tessl_answers (fingerprint : jstr) : list FetchAnswer :=
  archived (WObj [(js "data", WObj [(js "attributes", WObj [(js "fingerprint", WStr fingerprint)])])]).
Definition tessl_run {W} (net : Network W) (input : SourceAcquireInput W) (w : W) : acquired (SourceResolution TesslSource) * W :=
  acquireTesslSource net 1700000000000 input w.
(** The two requests, both with the token. *)
Example tessl_acquired :
  let '(r, (log, w)) := tessl_run (logged scripted) (logged_input (source_input tessl_source)) ([], tessl_answers fingerprint) in
  ((fun result => (path <$> files (sr_bundle result), pv_sourceReference (sr_provenance result))) <$> ok_value r,
   (fun sent => (url_href (fq_url sent), (fq_headers sent).*1)) <$> sent_requests log, w) =
  let headers := [js "accept"; js "user-agent"; js "authorization"] in
  (Some ([js "SKILL.md"; js "scripts/run.sh"], Some (js "tessl:acme/demo@1.0.0#" ++ fingerprint)),
   [(js "https://api.tessl.io/v1/tiles/acme/demo/versions/1.0.0", headers);
    (js "https://api.tessl.io/v1/tiles/acme/demo/versions/1.0.0/files", headers)], []).
Proof. vm_compute. reflexivity. Qed.
Example tessl_changed :
  (tessl_run scripted (source_input tessl_source) (tessl_answers (replicate 64 98))).1 = Err (refuse "digest_mismatch").
Proof. vm_compute. reflexivity. Qed.

Definition manifest : wire := WArr ((fun file => WObj [
  (js "path", WStr file.1); (js "size", WInt (Z.of_nat (length file.2))); (js "sha256", WStr (hexDigest file.2))]) <$> demo_files).
Definition clawhub_source : wire := WObj [
  (js "kind", WStr (js "clawhub")); (js "owner", WStr (js "acme")); (js "slug", WStr (js "demo"));
  (js "version", WStr (js "1.0.0")); (js "files", manifest)].
Definition clawhub_answers (owner : jstr) : list FetchAnswer :=
  said (WObj [(js "skill", WObj [(js "slug", WStr (js "demo"))]); (js "owner", WObj [(js "handle", WStr owner)])]) ::
  archived (WObj [(js "version", WObj [(js "version", WStr (js "1.0.0")); (js "files", manifest)])]).
Definition clawhub_run {W} (net : Network W) (input : SourceAcquireInput W) (w : W)
    : acquired (SourceResolution clawhub_coordinates) * W := acquireClawHubSource net 1700000000000 input w.
Example clawhub_acquired :
  (fun result => (path <$> files (sr_bundle result), pv_externalId (sr_provenance result))) <$>
    ok_value (clawhub_run scripted (source_input clawhub_source) (clawhub_answers (js "acme"))).1 =
  Some ([js "SKILL.md"; js "scripts/run.sh"], Some (js "@acme/demo")).
Proof. vm_compute. reflexivity. Qed.
Example clawhub_other_owner :
  (clawhub_run scripted (source_input clawhub_source) (clawhub_answers (js "mallory"))).1 = Err (refuse "digest_mismatch").
Proof. vm_compute. reflexivity. Qed.

End RegistryDemo.
